(* ===== verification/_CoqProject ===== *)
-Q . S2P
Prelude.v
GoStrings.v
NetIP.v
GoState.v
Common.v
Transport.v
Reassembly.v
TuicProtocol.v
TuicFrag.v
Hy2Protocol.v
Hy2Frag.v
Hy2Session.v
Hy2Demux.v
Salamander.v
UdpHop.v
RingBuffer.v
PacketQueue.v
WindowedFilter.v
BytesBuffer.v
Pool.v
ClientRing.v
Metadata.v
Trojan.v
Socks.v
AnyTlsPadding.v
AnyTlsFrame.v
AnyTlsSession.v
AnyTlsInv.v
AnyTlsWorld.v
AnyTlsDelivery.v
SsAddr.v
SsKey.v
SsChunks.v
SsTcp.v
SsTcpRound.v
SsUdp.v
UrlEscape.v
Url.v
UrlRound.v
UrlQuery.v
Vision.v
VisionRound.v
VisionStream.v
Xudp.v
BbrSampler.v
BbrIdeal.v
SlidingWindow.v
Ss22Core.v
Ss22Udp.v
Ss22Replay.v
Ss22Wire.v
Ss22Tcp.v
Ss22Stream.v
Ss22Session.v
VmessKdf.v
VmessHeader.v
VmessConn.v
VmessRound.v
VmessStream.v
VmessUdp.v
VmessDemo.v
Vless.v
VlessRound.v
Bufio.v
BufioSpec.v
PooledConn.v
HttpHeader.v
