(* ===== verification/Prelude.v ===== *)
(** * Outbound: proxy protocols and their support code

    The program is a Go library of outbound proxy protocols.  A dialer opens a
    connection through a proxy: TUIC and Hysteria2 over QUIC, Trojan, SOCKS5,
    Shadowsocks (AEAD and 2022), VMess, VLESS with the Vision flow and AnyTLS over
    TCP or TLS.  Each
    protocol turns the caller's stream or datagrams into wire units (commands,
    frames, sealed chunks, fragments) and back; the support code below them is
    buffer pools, URL and address parsing, a client ring with failover, and the
    queues and filters of the congestion controller.  This development models
    that code file by file and proves what makes each part correct, most of all
    that what one end sends is what the other end delivers.

    ** Files, in dependency order (paths under src/)

    - Prelude: outcomes of Go code ([res]: value, error, panic), bytes and
      big-endian integers, slices with their bounds checks, in-place writes,
      readers, codecs.  GoStrings, NetIP, GoState: the parts of strings, strconv
      and net/netip that the program uses, and the state-and-error monad [st].
      Common: common/common.go (nonce counters), common/last_string_value.go.
      Transport: common/iout/iout.go over a transport that may accept any part of
      a write and fail at any point.  Reassembly: the combinatorics of cutting and
      collecting numbered pieces.
    - TuicProtocol, TuicFrag: protocol/tuic (protocol.go, packet_parse.go, frag.go,
      the reassembly buckets of packet.go).
    - Hy2Protocol, Hy2Frag, Hy2Session, Hy2Demux: protocol/hysteria2
      (internal/protocol, internal/frag, client/udp.go).  Hy2Demux is a transition
      system of the router, the workers and the callers.
    - Salamander, UdpHop: protocol/hysteria2/obfs and udphop/addr.go.
    - RingBuffer, PacketQueue, WindowedFilter: protocol/tuic/congestion/bbr.  The
      packet queue is written against a deque class that the ring buffer
      implements.
    - BytesBuffer, Pool: pool/bytes/buffer.go, pool/pool.go, pool/bytes_buffer.go.
      [BufferSource] is the interface the protocols use: a slice of the requested
      length with arbitrary contents; the pool is an instance.
    - ClientRing, Metadata: protocol/infra/clientring, protocol/metadata.go.
    - Trojan, Socks: protocol/trojanc, protocol/infra/socks and protocol/socks5.
    - AnyTlsPadding, AnyTlsFrame, AnyTlsSession (operations), AnyTlsInv,
      AnyTlsWorld, AnyTlsDelivery (theorems): protocol/anytls.
    - SsAddr, SsKey, SsTcp (operations), SsTcpRound (theorems), SsUdp:
      protocol/shadowsocks with common/encrypt.go and ciphers/aead_cipher.go.
    - UrlEscape, Url (operations), UrlRound, UrlQuery (theorems): common/url.
    - Vision (operations), VisionRound, VisionStream (theorems), Xudp:
      protocol/vless/vision.
    - BbrSampler (operations), BbrIdeal (an ideal sampler and the refinement):
      bandwidth_sampler.go and refsampler.go of protocol/tuic/congestion/bbr.
    - SlidingWindow, Ss22Core, Ss22Udp, Ss22Tcp (operations), Ss22Replay, Ss22Wire,
      Ss22Stream, Ss22Session (theorems): protocol/shadowsocks_2022 with
      ciphers/aead_2022_cipher.go.  SsChunks: the sealed chunks both Shadowsocks
      protocols share.
    - VmessKdf, VmessHeader, VmessConn (operations), VmessRound, VmessStream,
      VmessUdp, VmessDemo (theorems and witnesses): protocol/vmess.
    - Vless (operations), VlessRound (theorems): protocol/vless.
    - Bufio, BufioSpec: pkg/zeroalloc/bufio, operations and refinement.  PooledConn:
      netproxy/buffered_reader.go and pkg/bufferred_conn; a transition system of
      readers and closers over the class [InnerRead], which HttpHeader
      (transport/httpheader) also implements.

    ** How the code is modelled

    A function that returns an error is a function to [res]; a method that
    mutates its receiver is a function of type [st S A], which keeps the
    mutations made before an error.  Out-of-range accesses, nil dereferences and
    double closes are [Panic].  Bytes are [Byte.byte]; sized integers are [Z] with
    the wrap-around written out ([mod]).  A slice obtained from a pool holds
    arbitrary stale bytes.  Objects shared by pointer (received packets, pool
    buffers, streams of a session) have identities, so ownership and double
    release can be stated.  Concurrency is interleaving: an operation that runs
    under a lock is one step, and the transition systems (Hy2Demux, AnyTlsWorld,
    PooledConn)
    interleave steps of all goroutines freely.  Clock readings, random draws,
    choices of [sync.Pool] and Go's map order are arguments, so the theorems hold
    for all of them.

    Code outside the repository is a parameter with named hypotheses where one is
    needed: hash functions and AEADs (class [AEAD]: lengths, and opening undoes
    sealing), quic-go's varint codec, [net.ParseIP], [net.SplitHostPort] and the
    resolver, salt filters.  Each property with such a hypothesis has a witness
    with a concrete instance.

    ** What the theorems show

    - Streams: [anytls_stream_delivery], [ss_tcp_stream], [vision_stream_roundtrip],
      [ss2022_tcp_stream], [vmess_stream], [vless_stream],
      [httpheader_response]: the peer obtains exactly the bytes written, in
      order, for any cutting of the transport; [vision_direct_after_records]: the
      switch to the raw connection never splits a record.
    - Datagrams: [fragmentation_roundtrip], [hy2_fragmentation_roundtrip],
      [trojan_udp_roundtrip], [socks5_udp_framing], [ss_udp_exchange],
      [ss2022_udp_send], [ss2022_udp_receive], [xudp_exchange], [vmess_datagrams],
      [vless_datagrams]: what is sent, whole or in fragments in any order, is received.
    - Adversarial input: [ss2022_udp_at_most_once] (no datagram is delivered twice
      although replay state expires and is evicted), [sliding_window_refines],
      [ss2022_response_bound] (no data before a response bound to the request).
    - Ownership and concurrency: [anytls_session_invariant],
      [hy2_demux_buffers], [hy2_demux_in_order], [bucket_feed_conserves],
      [hy2_defragger_conserves], [hy2_close_releases_all]: every buffer is held or
      released exactly once, in every reachable state, as is the read buffer of a
      connection ([pooled_buffer_lifecycle]); [anytls_no_deadlock] and
      [hy2_demux_no_panic].
    - Data structures against abstract specifications: [ring_refines_queue],
      [packet_queue_refines_map], [byte_buffer_refines], [bufio_refines],
      [pool_correct],
      [windowed_filter_best], [client_ring_failover],
      [domain_cache_correct], [sampler_refines_ideal].
    - Text and keys: [url_print_parse], [url_query_roundtrip], [url_resolve_path],
      [padding_scheme_compiles], [derive_subkey_is_hkdf],
      [vmess_kdf_equals_reference].

    ** Fuel and bounds

    Loops whose recursion is not structural carry fuel, and the functions that
    call them pass a bound that is proved to be enough: the length of the input
    for parsers and chunk loops, the number of frames still on the wire for
    Vision's [read], the number of stored packets for the queue.  Running out is a
    [Panic] or a distinguished result, and the theorems prove the real outcome, so
    they include termination.

    ** Not modelled

    QUIC, TLS, HTTP/3, gRPC and websocket plumbing (third-party libraries), socket
    options and system calls, reflection into crypto/tls, share-link glue in
    dialer/, generated code.  Deadlines are modelled where they change what a read
    or a write may do (AnyTLS), not as timers.  Also left out: the BBR state
    machine and pacer (floating-point gains), port-hopping sockets and the UDP
    relay goroutines of TUIC and Juicity (timers and quic-go connections), the
    HTTP proxy, the other obfuscation transports and the dialers. *)

From stdpp Require Export base list numbers strings gmap.
From Stdlib Require Export ZArith Lia.
From Stdlib Require Import Strings.Byte.
From Stdlib Require Export Init.Byte.

#[global] Open Scope Z_scope.

(** * Outcomes of Go code *)

(** Errors as values. [Errorf] keeps the constant format string of the source's
    [errors.New]/[fmt.Errorf]; the arguments interpolated into the text are
    dropped.  [Wrap s e] is an error wrapped (with %w) in the sentinel [s]. *)
Inductive error :=
  | EOF
  | ErrUnexpectedEOF
  | Errorf (msg : string)
  | Wrap (sentinel : string) (e : error).

#[export] Instance error_eq_dec : EqDecision error.
Proof. solve_decision. Defined.

(** A call returns a value, returns a non-nil error, or panics. *)
Inductive res (A : Type) :=
  | Ret (a : A)
  | Fail (e : error)
  | Panic.
Arguments Ret {A} a.
Arguments Fail {A} e.
Arguments Panic {A}.

#[export] Instance res_ret : MRet res := @Ret.
#[export] Instance res_bind : MBind res := fun A B f m =>
  match m with Ret a => f a | Fail e => Fail e | Panic => Panic end.
#[export] Instance res_fmap : FMap res := fun A B f m =>
  match m with Ret a => Ret (f a) | Fail e => Fail e | Panic => Panic end.
#[export] Instance res_eq_dec `{EqDecision A} : EqDecision (res A).
Proof. solve_decision. Defined.

Lemma bind_ret {A B} (a : A) (f : A -> res B) : (Ret a ≫= f) = f a.
Proof. reflexivity. Qed.

(** * Bytes and big-endian integers *)

#[export] Instance byte_eq_dec : EqDecision byte := byte_eq_dec.

Definition b2z (b : byte) : Z := Z.of_N (to_N b).
(** Go's conversion [byte(x)]: truncation modulo 256. *)
Definition z2b (z : Z) : byte :=
  match of_N (Z.to_N (z mod 256)) with Some b => b | None => x00 end.

Lemma b2z_range b : 0 <= b2z b < 256.
Proof. destruct b; cbv; split; congruence. Qed.

Lemma b2z_z2b z : b2z (z2b z) = z mod 256.
Proof.
  unfold b2z, z2b.
  pose proof (Z.mod_pos_bound z 256 ltac:(lia)) as Hb.
  destruct (of_N (Z.to_N (z mod 256))) as [b|] eqn:E.
  - apply to_of_N in E. rewrite E, Z2N.id; lia.
  - apply of_N_None_iff in E. lia.
Qed.

Lemma b2z_inj a b : b2z a = b2z b -> a = b.
Proof.
  unfold b2z. intros H%N2Z.inj.
  pose proof (of_to_N a). pose proof (of_to_N b). congruence.
Qed.

Lemma z2b_b2z b : z2b (b2z b) = b.
Proof. apply b2z_inj. rewrite b2z_z2b. apply Z.mod_small, b2z_range. Qed.

Lemma b2z_z2b_small z : 0 <= z < 256 -> b2z (z2b z) = z.
Proof. intros. rewrite b2z_z2b. by apply Z.mod_small. Qed.

(** Big-endian bytes of the low [8*n] bits: what [binary.BigEndian.PutUint16]
    ([n = 2]), [PutUint32] ([n = 4]) store. *)
Fixpoint be_put (n : nat) (v : Z) : list byte :=
  match n with
  | O => []
  | S k => z2b (Z.shiftr v (8 * Z.of_nat k)) :: be_put k v
  end.

(** [binary.BigEndian.Uint16/Uint32]: shift-and-or of the bytes, first byte
    most significant. *)
Fixpoint be_get_acc (acc : Z) (l : list byte) : Z :=
  match l with
  | [] => acc
  | b :: l => be_get_acc (Z.lor (Z.shiftl acc 8) (b2z b)) l
  end.
Definition be_get (l : list byte) : Z := be_get_acc 0 l.

Lemma length_be_put n v : length (be_put n v) = n.
Proof. induction n; simpl; congruence. Qed.

(** Disjoint bit fields: [or] is addition. *)
Lemma lor_shiftl_add k a x : 0 <= k -> 0 <= x < 2 ^ k ->
  Z.lor (Z.shiftl a k) x = a * 2 ^ k + x.
Proof.
  intros Hk Hx. rewrite Z.shiftl_mul_pow2 by lia.
  destruct (decide (x = 0)) as [->|Hx0]; [by rewrite Z.lor_0_r, Z.add_0_r|].
  rewrite <- Z.lxor_lor; [symmetry; apply Z.add_nocarry_lxor|];
  apply Z.bits_inj'; intros i Hi; rewrite Z.land_spec, Z.bits_0;
  (destruct (decide (i < k));
   [rewrite Z.mul_pow2_bits_low by lia; done
   |rewrite (Z.bits_above_log2 x i);
    [apply andb_false_r|lia|
     apply Z.log2_lt_pow2; [lia|]; apply Z.lt_le_trans with (2 ^ k); [lia|];
     apply Z.pow_le_mono_r; lia]]).
Qed.

Lemma lor_shiftl8_byte a b : Z.lor (Z.shiftl a 8) (b2z b) = a * 256 + b2z b.
Proof. apply (lor_shiftl_add 8); [lia|apply b2z_range]. Qed.

Lemma be_get_acc_spec l acc :
  be_get_acc acc l = acc * 256 ^ Z.of_nat (length l) + be_get l.
Proof.
  unfold be_get. revert acc. induction l as [|b l IH]; intros acc; simpl be_get_acc.
  - simpl. lia.
  - rewrite IH, (IH (Z.lor _ _)), !lor_shiftl8_byte. simpl length.
    rewrite Nat2Z.inj_succ, Z.pow_succ_r by lia. lia.
Qed.

Lemma be_get_cons b l :
  be_get (b :: l) = b2z b * 256 ^ Z.of_nat (length l) + be_get l.
Proof. unfold be_get at 1. simpl. rewrite be_get_acc_spec. reflexivity. Qed.

Lemma be_get_range l : 0 <= be_get l < 256 ^ Z.of_nat (length l).
Proof.
  induction l as [|b l IH]; [done|]. rewrite be_get_cons. simpl length.
  rewrite Nat2Z.inj_succ, Z.pow_succ_r by lia.
  pose proof (b2z_range b). nia.
Qed.

(** Decoding what was encoded gives the value truncated to the width. *)
Lemma be_get_put n v : be_get (be_put n v) = v mod 256 ^ Z.of_nat n.
Proof.
  induction n as [|n IH]; [simpl; by rewrite Z.mod_1_r|].
  simpl be_put. rewrite be_get_cons, length_be_put, IH, b2z_z2b.
  rewrite Z.shiftr_div_pow2 by lia.
  replace (2 ^ (8 * Z.of_nat n)) with (256 ^ Z.of_nat n)
    by (rewrite Z.pow_mul_r by lia; done).
  rewrite Nat2Z.inj_succ, Z.pow_succ_r by lia.
  rewrite (Z.mul_comm 256), Z.rem_mul_r by lia. lia.
Qed.

Lemma be_get_put_small n v : 0 <= v < 256 ^ Z.of_nat n -> be_get (be_put n v) = v.
Proof. intros. rewrite be_get_put. by apply Z.mod_small. Qed.

Lemma be_put_mod n v w :
  v mod 256 ^ Z.of_nat n = w mod 256 ^ Z.of_nat n -> be_put n v = be_put n w.
Proof.
  induction n as [|n IH]; [done|]. intros H. simpl.
  rewrite Nat2Z.inj_succ, Z.pow_succ_r, (Z.mul_comm 256) in H by lia.
  rewrite !Z.rem_mul_r in H by lia.
  pose proof (Z.mod_pos_bound v (256 ^ Z.of_nat n) ltac:(lia)).
  pose proof (Z.mod_pos_bound w (256 ^ Z.of_nat n) ltac:(lia)).
  set (p := 256 ^ Z.of_nat n) in *.
  destruct (Z.div_mod_unique p ((v / p) mod 256) ((w / p) mod 256)
              (v mod p) (w mod p)) as [E2 E]; [lia..|].
  f_equal; [|by apply IH].
  apply b2z_inj. rewrite !b2z_z2b, !Z.shiftr_div_pow2 by lia.
  replace (2 ^ (8 * Z.of_nat n)) with p
    by (unfold p; rewrite Z.pow_mul_r by lia; done).
  exact E2.
Qed.

(** Encoding what was decoded gives the bytes back. *)
Lemma be_put_get l n : length l = n -> be_put n (be_get l) = l.
Proof.
  intros <-. induction l as [|b l IH]; [done|]. simpl be_put. f_equal.
  - apply b2z_inj. rewrite b2z_z2b, Z.shiftr_div_pow2, be_get_cons by lia.
    replace (2 ^ (8 * Z.of_nat (length l))) with (256 ^ Z.of_nat (length l))
      by (rewrite Z.pow_mul_r by lia; done).
    rewrite Z.div_add_l, (Z.div_small (be_get l)), Z.add_0_r
      by (try apply be_get_range; lia).
    apply Z.mod_small, b2z_range.
  - etrans; [|exact IH]. apply be_put_mod. rewrite be_get_cons.
    rewrite Z.add_comm, Z.mod_add by lia. done.
Qed.

Abbreviation be16 := (be_put 2).
Abbreviation be32 := (be_put 4).

Lemma be16_bytes v : be16 v = [z2b (Z.shiftr v 8); z2b v].
Proof. unfold be_put. cbn [Z.of_nat Z.mul]. by rewrite Z.shiftr_0_r. Qed.

Lemma be16_shape v : 0 <= v < 65536 ->
  exists a b, be16 v = [a; b] /\ be_get [a; b] = v.
Proof.
  intros H. exists (z2b (Z.shiftr v (8 * Z.of_nat 1))), (z2b (Z.shiftr v (8 * Z.of_nat 0))).
  split; [done|]. apply (be_get_put_small 2). simpl. lia.
Qed.

Lemma be16_get a b : be16 (be_get [a; b]) = [a; b].
Proof. by apply be_put_get. Qed.

Lemma be_get2_range a b : 0 <= be_get [a; b] < 65536.
Proof. apply (be_get_range [a; b]). Qed.

(** * Go slices: indexing, slicing and copying, with the run-time panics *)

Section slices.
Context {A : Type}.
Implicit Types (l src : list A).

(** [l[i]] *)
Definition index l (i : nat) : res A :=
  match l !! i with Some x => Ret x | None => Panic end.

(** [l[lo:hi]] for a slice whose capacity is its length *)
Definition slice l (lo hi : nat) : res (list A) :=
  if decide (lo <= hi /\ hi <= length l)%nat
  then Ret (take (hi - lo) (drop lo l)) else Panic.

(** [l[lo:]] *)
Definition slice_from l (lo : nat) : res (list A) :=
  if decide (lo <= length l)%nat then Ret (drop lo l) else Panic.

(** [l[i] = x] *)
Definition set_at l (i : nat) (x : A) : res (list A) :=
  if decide (i < length l)%nat then Ret (<[i := x]> l) else Panic.

(** [n = copy(l[off:], src)] *)
Definition copy_at l (off : nat) src : res (list A * nat) :=
  if decide (off <= length l)%nat then
    let n := Nat.min (length src) (length l - off) in
    Ret (take off l ++ take n src ++ drop (off + n) l, n)
  else Panic.

(** A store of all of [src] at [l[off:]] that panics when it does not fit
    ([binary.BigEndian.PutUintXX], element stores). *)
Definition write_at l (off : nat) src : res (list A) :=
  if decide (off + length src <= length l)%nat then
    Ret (take off l ++ src ++ drop (off + length src) l)
  else Panic.

(** Sequential filling of a buffer: [done] is what was stored so far, [rest]
    the part still to be overwritten. *)
Lemma write_at_app (done src rest : list A) n :
  n = length done -> (length src <= length rest)%nat ->
  write_at (done ++ rest) n src = Ret ((done ++ src) ++ drop (length src) rest).
Proof.
  intros -> H. unfold write_at. rewrite decide_True by (rewrite length_app; lia).
  rewrite take_app_length, drop_app_add', <- app_assoc; done.
Qed.

Lemma set_at_app (done : list A) x rest n :
  n = length done -> (1 <= length rest)%nat ->
  set_at (done ++ rest) n x = Ret ((done ++ [x]) ++ drop 1 rest).
Proof.
  intros -> H. destruct rest as [|y rest]; [simpl in H; lia|].
  unfold set_at. rewrite decide_True by (rewrite length_app; simpl; lia).
  rewrite insert_app_r_alt, Nat.sub_diag by lia. by rewrite <- app_assoc.
Qed.

Lemma copy_at_app (done src rest : list A) n :
  n = length done -> (length src <= length rest)%nat ->
  copy_at (done ++ rest) n src =
    Ret ((done ++ src) ++ drop (length src) rest, length src).
Proof.
  intros -> H. unfold copy_at. rewrite decide_True by (rewrite length_app; lia).
  replace (Nat.min _ _) with (length src) by (rewrite length_app; lia).
  rewrite take_app_length, drop_app_add', firstn_all, <- app_assoc; done.
Qed.

Lemma copy_at_eq (l : list A) off src : (off <= length l)%nat ->
  copy_at l off src = Ret (take off l ++ take (Nat.min (length src) (length l - off)) src ++
    drop (off + Nat.min (length src) (length l - off)) l, Nat.min (length src) (length l - off)).
Proof. intros H. unfold copy_at. by rewrite decide_True. Qed.

(** The first store into a buffer. *)
Lemma copy_at_0 (l src : list A) : (length src <= length l)%nat ->
  copy_at l 0 src = Ret (src ++ drop (length src) l, length src).
Proof. intros H. by apply (copy_at_app [] src l 0). Qed.

Lemma write_at_0 (l src : list A) : (length src <= length l)%nat -> write_at l 0 src = Ret (src ++ drop (length src) l).
Proof. intros H. by apply (write_at_app [] src l 0). Qed.

Lemma set_at_0 (x : A) l : (1 <= length l)%nat -> set_at l 0 x = Ret ([x] ++ drop 1 l).
Proof. intros H. by apply (set_at_app [] x l 0). Qed.

Lemma index_0 (x : A) l : index (x :: l) 0 = Ret x.
Proof. done. Qed.
Lemma index_1 (x y : A) l : index (x :: y :: l) 1 = Ret y.
Proof. done. Qed.
Lemma index_S (x : A) l i : index (x :: l) (S i) = index l i.
Proof. done. Qed.

Lemma slice_eq l lo hi : (lo <= hi)%nat -> (hi <= length l)%nat ->
  slice l lo hi = Ret (take (hi - lo) (drop lo l)).
Proof. intros. unfold slice. by rewrite decide_True by lia. Qed.

Lemma slice_from_eq l lo : (lo <= length l)%nat -> slice_from l lo = Ret (drop lo l).
Proof. intros. unfold slice_from. by rewrite decide_True by lia. Qed.

Lemma slice_prefix (a b : list A) n : n = length a -> slice (a ++ b) 0 n = Ret a.
Proof.
  intros ->. unfold slice. rewrite decide_True by (rewrite length_app; lia).
  by rewrite Nat.sub_0_r, drop_0, take_app_length.
Qed.

Lemma slice_from_app (a b : list A) n : n = length a -> slice_from (a ++ b) n = Ret b.
Proof.
  intros ->. unfold slice_from. rewrite decide_True by (rewrite length_app; lia).
  by rewrite drop_app_length.
Qed.
End slices.

(** A list long enough splits at an index, exposing the two following bytes. *)
Lemma split_at2 {A} n (l : list A) : (n + 2 <= length l)%nat ->
  exists a x y r, l = a ++ x :: y :: r /\ length a = n.
Proof.
  intros H. rewrite <- (take_drop n l).
  destruct (drop n l) as [|x [|y r]] eqn:E;
    [apply (f_equal length) in E; rewrite length_drop in E; simpl in E; lia..|].
  exists (take n l), x, y, r. split; [done|]. rewrite length_take. lia.
Qed.

Lemma filter_all {A} (P : A -> Prop) `{forall x, Decision (P x)} (l : list A) :
  Forall P l -> filter P l = l.
Proof. induction 1; [done|]. rewrite filter_cons_True by done. by f_equal. Qed.

Lemma filter_none {A} (P : A -> Prop) `{forall x, Decision (P x)} (l : list A) :
  Forall (fun x => ~ P x) l -> filter P l = [].
Proof. induction 1; [done|]. by rewrite filter_cons_False. Qed.

(** * Byte streams *)

(** A reader that will deliver the listed bytes and then EOF. *)
Abbreviation stream := (list byte).

(** [reader.ReadByte()] *)
Definition ReadByte (r : stream) : res (byte * stream) :=
  match r with [] => Fail EOF | b :: r => Ret (b, r) end.

(** [io.ReadFull(r, buf)] with [len(buf) = n]: EOF when nothing could be read,
    ErrUnexpectedEOF after a partial read. *)
Definition ReadFull (n : nat) (r : stream) : res (list byte * stream) :=
  if decide (n <= length r)%nat then Ret (take n r, drop n r)
  else match r with [] => Fail EOF | _ => Fail ErrUnexpectedEOF end.

Lemma ReadFull_app a b n : n = length a -> ReadFull n (a ++ b) = Ret (a, b).
Proof.
  intros ->. unfold ReadFull. rewrite decide_True by (rewrite length_app; lia).
  by rewrite take_app_length, drop_app_length.
Qed.

Lemma ReadFull_1 b r : ReadFull 1 (b :: r) = Ret ([b], r).
Proof. unfold ReadFull. by rewrite decide_True by (simpl; lia). Qed.

Lemma ReadFull_eq n r : (n <= length r)%nat -> ReadFull n r = Ret (take n r, drop n r).
Proof. intros. unfold ReadFull. by rewrite decide_True by lia. Qed.

Lemma ReadFull_short n r :
  (length r < n)%nat -> exists e, ReadFull n r = Fail e.
Proof.
  intros. unfold ReadFull. rewrite decide_False by lia. destruct r; eauto.
Qed.

Lemma ReadFull_Ret n r a b : ReadFull n r = Ret (a, b) -> r = a ++ b /\ length a = n.
Proof.
  unfold ReadFull. case_decide; [|destruct r; done]. intros [= <- <-].
  rewrite take_drop, length_take. split; [done|lia].
Qed.

(** * Byte sinks *)

(** A writer: the bytes accepted so far and, when [Some r], how many more it
    accepts before it fails ([None]: it never fails, as an in-memory buffer). *)
Record writer := MkWriter { w_out : list byte; w_room : option nat }.

(** State-and-error monad of code that writes to one writer. *)
Definition wr (A : Type) : Type := writer -> writer * res A.

#[export] Instance wr_ret : MRet wr := fun A a w => (w, Ret a).
#[export] Instance wr_bind : MBind wr := fun A B f m w =>
  match m w with
  | (w', Ret a) => f a w'
  | (w', Fail e) => (w', Fail e)
  | (w', Panic) => (w', Panic)
  end.

(** [writer.Write(bs)]: a short write returns a non-nil error. *)
Definition Write (bs : list byte) : wr unit := fun w =>
  match w_room w with
  | None => (MkWriter (w_out w ++ bs) None, Ret tt)
  | Some r =>
      if decide (length bs <= r)%nat
      then (MkWriter (w_out w ++ bs) (Some (r - length bs)%nat), Ret tt)
      else (MkWriter (w_out w ++ take r bs) (Some 0%nat), Fail (Errorf "short write"))
  end.
Definition WriteByte (b : byte) : wr unit := Write [b].
Definition wr_lift {A} (m : res A) : wr A := fun w => (w, m).

(** Successive writes are one write of the concatenation: same bytes delivered,
    same success or failure. *)
Lemma Write_app a b w : (Write a ≫= fun _ => Write b) w = Write (a ++ b) w.
Proof.
  unfold Write, mbind, wr_bind. destruct w as [out [r|]]; simpl.
  - rewrite length_app. destruct (decide (length a <= r)%nat) as [Ha|Ha]; simpl.
    + destruct (decide (length b <= r - length a)%nat) as [Hb|Hb].
      * rewrite decide_True by lia. simpl. by rewrite app_assoc, Nat.sub_add_distr.
      * rewrite decide_False by lia. simpl.
        rewrite take_app, (take_ge a) by lia. by rewrite app_assoc.
    + rewrite decide_False by lia. simpl. by rewrite take_app_le by lia.
  - by rewrite app_assoc.
Qed.

(** [writes k bs]: the writing code [k] amounts to one write of [bs], on every
    writer, failing ones included. *)
Definition writes (k : wr unit) (bs : list byte) : Prop := forall w, k w = Write bs w.

Lemma writes_Write bs : writes (Write bs) bs.
Proof. done. Qed.
Lemma writes_WriteByte b : writes (WriteByte b) [b].
Proof. done. Qed.
Lemma writes_ret : writes (mret tt) [].
Proof.
  intros [out [r|]]; unfold Write; simpl; rewrite ?app_nil_r; [|done].
  by rewrite Nat.sub_0_r.
Qed.
Lemma writes_bind k1 k2 a b :
  writes k1 a -> writes k2 b -> writes (_ ← k1; k2) (a ++ b).
Proof.
  intros H1 H2 w. rewrite <- Write_app. unfold mbind, wr_bind. rewrite H1.
  destruct (Write a w) as [w' [[]| |]]; [apply H2|done..].
Qed.
Lemma writes_eq k a b : writes k a -> a = b -> writes k b.
Proof. by intros ? <-. Qed.

Create HintDb go.
#[export] Hint Resolve writes_Write writes_WriteByte writes_ret writes_bind : go.

(** * Wire formats *)

(** The contract a wire format offers its clients: decoding an encoded
    well-formed value, whatever bytes follow, gives the value back and leaves
    exactly those bytes. *)
Class WireFormat (A : Type) := {
  wire_ok : A -> Prop;
  wire_enc : A -> list byte;
  wire_dec : stream -> res (A * stream);
  wire_dec_enc : forall a rest, wire_ok a -> wire_dec (wire_enc a ++ rest) = Ret (a, rest);
  wire_enc_nonempty : forall a, wire_ok a -> wire_enc a <> [];
}.

Section wire.
Context `{WireFormat A}.

(** Read frames until the stream is exhausted. *)
Fixpoint decode_all (fuel : nat) (r : stream) : res (list A) :=
  match r with
  | [] => Ret []
  | _ =>
      match fuel with
      | O => Panic
      | S fuel =>
          '(a, r') ← wire_dec r;
          l ← decode_all fuel r';
          Ret (a :: l)
      end
  end.

Lemma decode_all_S r fuel : r <> [] ->
  decode_all (S fuel) r =
    ('(a, r') ← wire_dec r; l ← decode_all fuel r'; Ret (a :: l)).
Proof. by destruct r. Qed.

(** Frames are self-delimiting: any sequence written back to back is read
    back frame by frame. *)
Lemma decode_all_enc (l : list A) fuel :
  Forall wire_ok l -> (length l <= fuel)%nat ->
  decode_all fuel (concat (wire_enc <$> l)) = Ret l.
Proof.
  revert fuel. induction l as [|a l IH]; intros fuel Hok Hf.
  - by destruct fuel.
  - apply Forall_cons in Hok as [Ha Hl].
    destruct fuel as [|fuel]; [simpl in Hf; lia|].
    rewrite fmap_cons. cbn [concat]. rewrite decode_all_S.
    + rewrite wire_dec_enc by done. simpl.
      rewrite IH by (simpl in Hf; auto; lia). done.
    + intros [E _]%app_eq_nil. by apply (wire_enc_nonempty a).
Qed.

(** Encodings of well-formed values are prefix-free, hence injective. *)
Lemma wire_enc_prefix_free (a b : A) ra rb :
  wire_ok a -> wire_ok b -> wire_enc a ++ ra = wire_enc b ++ rb -> a = b /\ ra = rb.
Proof.
  intros Ha Hb E. pose proof (wire_dec_enc a ra Ha) as Da.
  rewrite E, wire_dec_enc in Da by done. by simplify_eq.
Qed.
End wire.

(** * Automation *)

(** Destruct every [decide]/[match] of the goal or hypotheses and clean up. *)
Ltac go_cases :=
  repeat (simplify_eq/=; case_match || case_decide); simplify_eq/=.

(** Lengths of the list operations a byte-level proof meets. *)
Create Rewrite HintDb lens.
#[export] Hint Rewrite @length_app @length_take @length_drop @length_insert
  @length_be_put @length_replicate @length_fmap @length_cons @length_nil : lens.
Ltac len := autorewrite with lens in *; simpl in *; lia.

(** Right-nest appends, merge drops; [list_eq] then closes equalities of byte
    sequences up to arithmetic on lengths. *)
Ltac list_norm :=
  repeat progress (rewrite <- ?app_assoc, <- ?app_comm_cons, ?drop_drop; cbn [app]).
Ltac list_eq := list_norm; autorewrite with lens; repeat (lia || f_equal).

#[global] Arguments be_put : simpl never.
#[global] Arguments be_get : simpl never.
#[global] Arguments b2z : simpl never.
#[global] Arguments z2b : simpl never.
#[global] Arguments Z.mul : simpl never.

Lemma add_sub_cancel (n m : nat) : (n + m - n)%nat = m.
Proof. lia. Qed.

(** Symbolic execution of straight-line [res] code: resolve length guards by
    arithmetic, run slices and indices. *)
Ltac go_arith :=
  solve [autorewrite with lens; simpl; first [lia | congruence | by intros [] ]].
Ltac go_run :=
  repeat first
    [ rewrite bind_ret | rewrite index_0 | rewrite index_S
    | rewrite decide_False by go_arith | rewrite decide_True by go_arith
    | rewrite slice_eq by go_arith | rewrite slice_from_eq by go_arith
    | rewrite Nat.sub_0_r | rewrite add_sub_cancel | rewrite drop_0 | rewrite take_0 | rewrite take_app_length | rewrite drop_app_length
    | progress cbn ].
