(* ===== verification/GoStrings.v ===== *)
(** Text as Go strings: byte sequences, with the parts of [strings] and
    [strconv] the program uses. *)

From S2P Require Import Prelude.
From Stdlib Require Import Strings.Byte.

#[export] Instance byte_countable : Countable byte.
Proof. apply (inj_countable to_N of_N). apply of_to_N. Defined.

(** A string literal of the source. *)
Definition lit (s : string) : list byte := String.list_byte_of_string s.

(** [strings.Split(s, sep)] for a one-byte separator. *)
Fixpoint Split (sep : byte) (s : list byte) : list (list byte) :=
  match s with
  | [] => [[]]
  | c :: s =>
      if decide (c = sep) then [] :: Split sep s
      else match Split sep s with
           | w :: ws => (c :: w) :: ws
           | [] => [[c]]
           end
  end.

Definition digit (c : byte) : option Z :=
  if decide (48 <= b2z c <= 57) then Some (b2z c - 48) else None.

(** [strconv.ParseUint(s, 10, bits)]: non-empty, decimal digits only, in range. *)
Fixpoint parse_digits (acc : Z) (s : list byte) : option Z :=
  match s with
  | [] => Some acc
  | c :: s => d ← digit c; parse_digits (acc * 10 + d) s
  end.
Definition ParseUint (bits : Z) (s : list byte) : option Z :=
  match s with
  | [] => None
  | _ => v ← parse_digits 0 s; if decide (v < 2 ^ bits) then Some v else None
  end.

Lemma Split_nonempty sep s : Split sep s <> [].
Proof. destruct s as [|c s]; [done|]. simpl. case_decide; [done|]. by destruct (Split sep s). Qed.

(** [strings.SplitN(s, sep, 2)] for a one-byte separator. *)
Fixpoint SplitN2 (sep : byte) (s : list byte) : list (list byte) :=
  match s with
  | [] => [[]]
  | c :: s =>
      if decide (c = sep) then [[]; s]
      else match SplitN2 sep s with
           | w :: ws => (c :: w) :: ws
           | [] => [[c]]
           end
  end.

(** [strconv.ParseInt(s, 10, 64)], and [strconv.Atoi] where [int] has 64 bits:
    an optional sign, then decimal digits, in range. *)
Definition ParseInt (s : list byte) : option Z :=
  match s with
  | x2b :: s => un ← ParseUint 64 s; if decide (un < 2 ^ 63) then Some un else None
  | x2d :: s => un ← ParseUint 64 s; if decide (un <= 2 ^ 63) then Some (- un) else None
  | s => un ← ParseUint 64 s; if decide (un < 2 ^ 63) then Some un else None
  end.
Definition Atoi : list byte -> option Z := ParseInt.

Lemma digit_range c d : digit c = Some d -> 0 <= d <= 9.
Proof. unfold digit. case_decide; intros; simplify_eq; lia. Qed.

Lemma parse_digits_nonneg s : forall acc v, 0 <= acc -> parse_digits acc s = Some v -> 0 <= v.
Proof.
  induction s as [|c s IH]; cbn; intros acc v Ha E; [by simplify_eq|].
  destruct (digit c) as [d|] eqn:Ed; [|done]. apply digit_range in Ed.
  cbn in E. eapply IH; [|exact E]. lia.
Qed.

Lemma ParseUint_range bits s v : ParseUint bits s = Some v -> 0 <= v < 2 ^ bits.
Proof.
  unfold ParseUint. destruct s as [|c s]; [done|].
  destruct (parse_digits 0 (c :: s)) as [w|] eqn:E; [|done]. cbn [mbind option_bind].
  case_decide; intros; simplify_eq. split; [|done]. by eapply parse_digits_nonneg.
Qed.

Lemma ParseInt_range s v : ParseInt s = Some v -> - 2 ^ 63 <= v < 2 ^ 63.
Proof.
  assert (U : forall s un, ParseUint 64 s = Some un -> 0 <= un) by (intros ? ? ?%ParseUint_range; lia).
  unfold ParseInt. intros E.
  repeat case_match; simplify_eq;
    repeat match goal with H : _ ≫= _ = Some _ |- _ => apply bind_Some in H as (? & ?%U & ?) end;
    go_cases; lia.
Qed.

(** [strconv.Itoa] of a non-negative number. *)
Definition digit_char (d : Z) : byte := z2b (48 + d).
Fixpoint itoa (fuel : nat) (n : Z) (acc : list byte) : list byte :=
  match fuel with
  | O => acc
  | S fuel => if decide (n < 10) then digit_char n :: acc else itoa fuel (n / 10) (digit_char (n mod 10) :: acc)
  end.
Definition Itoa (n : Z) : list byte := itoa (S (Z.to_nat (Z.log2 n))) n [].

Lemma digit_digit_char d : 0 <= d <= 9 -> digit (digit_char d) = Some d.
Proof.
  intros H. unfold digit, digit_char. rewrite b2z_z2b_small by lia. rewrite decide_True by lia. f_equal. lia.
Qed.

Lemma parse_digits_itoa fuel : forall n acc a, 0 <= n < 10 ^ Z.of_nat fuel ->
  parse_digits a (itoa fuel n acc) = parse_digits (a * 10 ^ Z.of_nat (length (itoa fuel n acc) - length acc) + n) acc.
Proof.
  induction fuel as [|fuel IH]; intros n acc a H.
  { cbn in H. assert (n = 0) as -> by lia. cbn. rewrite Nat.sub_diag. f_equal. cbn. lia. }
  cbn [itoa]. case_decide as Hn.
  - cbn [length parse_digits]. rewrite digit_digit_char by lia. cbn [mbind option_bind].
    replace (S (length acc) - length acc)%nat with 1%nat by lia. done.
  - rewrite Nat2Z.inj_succ, Z.pow_succ_r in H by lia.
    rewrite IH by (split; [apply Z.div_pos; lia|apply Z.div_lt_upper_bound; lia]).
    cbn [parse_digits]. rewrite digit_digit_char by (pose proof (Z.mod_pos_bound n 10); lia).
    cbn [mbind option_bind length]. f_equal. pose proof (Z.div_mod n 10 ltac:(lia)) as Dn.
    assert (L : forall fu m ac, (length ac <= length (itoa fu m ac))%nat).
    { clear. induction fu; intros m ac; cbn; [done|]. case_decide; cbn; [lia|]. etrans; [|apply IHfu]. cbn. lia. }
    assert (L2 : forall fu m ac, (0 < fu)%nat -> (S (length ac) <= length (itoa fu m ac))%nat).
    { clear -L. intros [|fu] m ac ?; [lia|]. cbn. case_decide; cbn; [lia|]. etrans; [|apply L]. cbn. lia. }
    assert (0 < fuel)%nat by (destruct fuel; [cbn in H; lia|lia]).
    pose proof (L2 fuel (n / 10) (digit_char (n mod 10) :: acc) ltac:(lia)) as K. cbn [length] in K.
    set (m := length (itoa _ _ _)) in *.
    replace (m - length acc)%nat with (S (m - S (length acc))) by lia.
    rewrite Nat2Z.inj_succ, Z.pow_succ_r by lia. set (P := 10 ^ _). rewrite Dn at 3. ring.
Qed.

(** [net.JoinHostPort]. *)
Definition JoinHostPort (host port : list byte) : list byte :=
  if decide (x3a ∈ host) then [x5b] ++ host ++ [x5d; x3a] ++ port else host ++ [x3a] ++ port.

(** ** Searching for a byte *)

(** [strings.Index] and [strings.LastIndex] of one byte, as the parts around it. *)
Fixpoint cut (sep : byte) (s : list byte) : option (list byte * list byte) :=
  match s with
  | [] => None
  | c :: s => if decide (c = sep) then Some ([], s) else '(a, b) ← cut sep s; Some (c :: a, b)
  end.
Fixpoint rcut (sep : byte) (s : list byte) : option (list byte * list byte) :=
  match s with
  | [] => None
  | c :: s =>
      match rcut sep s with
      | Some (a, b) => Some (c :: a, b)
      | None => if decide (c = sep) then Some ([], s) else None
      end
  end.

(** [strings.Cut], [strings.HasPrefix], [strings.HasSuffix], [strings.Count]. *)
Definition Cut (sep : byte) (s : list byte) : list byte * list byte * bool :=
  match cut sep s with Some (a, b) => (a, b, true) | None => (s, [], false) end.
Definition HasPrefix (s p : list byte) : bool := bool_decide (take (length p) s = p).
Definition HasSuffix (s p : list byte) : bool :=
  bool_decide ((length p <= length s)%nat /\ drop (length s - length p) s = p).
Definition strings_Count (sep : byte) (s : list byte) : nat := length (filter (fun c => c = sep) s).

Lemma cut_None sep s : cut sep s = None <-> sep ∉ s.
Proof.
  induction s as [|c s IH]; cbn; [set_solver|]. case_decide; [set_solver|]. destruct (cut sep s) as [[a b]|]; cbn; set_solver.
Qed.

Lemma cut_Some sep s a b : cut sep s = Some (a, b) <-> s = a ++ sep :: b /\ sep ∉ a.
Proof.
  revert a. induction s as [|c s IH]; intros a; cbn; [split; [done|]; intros [E _]; by destruct a|].
  case_decide as Hc; [subst c; split; [intros [= <- <-]; set_solver|]|].
  - intros [E N]. destruct a as [|x a]; cbn in E; [by injection E as ->|]. injection E as <- _. set_solver.
  - destruct (cut sep s) as [[a' b']|] eqn:E; cbn; split.
    + intros [= <- <-]. destruct (proj1 (IH a') eq_refl) as [-> N]. split; [done|]. set_solver.
    + intros [Es N]. destruct a as [|x a]; cbn in Es; [by injection Es|]. injection Es as <- Es.
      assert (Some (a', b') = Some (a, b)) as [= -> ->] by (apply IH; set_solver). done.
    + done.
    + intros [Es N]. destruct a as [|x a]; cbn in Es; [by injection Es|]. injection Es as <- ->.
      assert (None = Some (a, b)) by (apply IH; set_solver). done.
Qed.

Lemma cut_app sep a b : sep ∉ a -> cut sep (a ++ sep :: b) = Some (a, b).
Proof. intros. by apply cut_Some. Qed.

Lemma cut_length sep s a b : cut sep s = Some (a, b) -> length s = S (length a + length b).
Proof. intros [-> _]%cut_Some. rewrite length_app. cbn. lia. Qed.

Lemma rcut_None sep s : rcut sep s = None <-> sep ∉ s.
Proof.
  induction s as [|c s IH]; cbn; [set_solver|]. destruct (rcut sep s) as [[a b]|]; cbn; [set_solver|]. case_decide; set_solver.
Qed.

Lemma rcut_app sep a b : sep ∉ b -> rcut sep (a ++ sep :: b) = Some (a, b).
Proof.
  intros N. induction a as [|c a IH]; cbn; [|by rewrite IH]. by rewrite (proj2 (rcut_None sep b) N), decide_True.
Qed.

Lemma rcut_Some sep s a b : rcut sep s = Some (a, b) -> s = a ++ sep :: b /\ sep ∉ b.
Proof.
  revert a. induction s as [|c s IH]; intros a; cbn; [done|]. destruct (rcut sep s) as [[a' b']|] eqn:E.
  - intros [= <- <-]. destruct (IH a' eq_refl) as [-> ?]. done.
  - apply rcut_None in E. case_decide; [|done]. intros [= <- <-]. by subst.
Qed.
