(* ===== verification/NetIP.v ===== *)
(** The parts of Go's net and net/netip packages the protocols build on:
    addresses as raw bytes, address-port pairs and the conversions between
    them. *)

From S2P Require Import Prelude.

(** netip.Addr: the zero Addr, an IPv4 or an IPv6 address. *)
Inductive Addr := AddrZero | Addr4 (b : list byte) | Addr6 (b : list byte).
#[export] Instance Addr_eq_dec : EqDecision Addr.
Proof. solve_decision. Defined.

(** netip.AddrFromSlice: by length only. *)
Definition AddrFromSlice (b : list byte) : Addr * bool :=
  if decide (length b = 4%nat) then (Addr4 b, true)
  else if decide (length b = 16%nat) then (Addr6 b, true)
  else (AddrZero, false).

Record AddrPort := MkAddrPort { ap_addr : Addr; ap_port : Z }.
#[export] Instance AddrPort_eq_dec : EqDecision AddrPort.
Proof. solve_decision. Defined.
Definition AddrPortZero : AddrPort := MkAddrPort AddrZero 0.
Definition AddrPort_IsValid (a : AddrPort) : bool := bool_decide (ap_addr a <> AddrZero).

(** net.UDPAddr and its AddrPort conversion. *)
Record UDPAddr := MkUDPAddr { IP : list byte; Port : Z }.
Definition UDPAddr_AddrPort (u : UDPAddr) : AddrPort :=
  MkAddrPort (fst (AddrFromSlice (IP u))) (Port u mod 65536).


(** [Addr.Unmap]: an IPv4-mapped IPv6 address becomes the IPv4 address. *)
Definition Unmap (a : Addr) : Addr :=
  match a with
  | Addr6 b =>
      if decide (take 12 b = replicate 10 x00 ++ [xff; xff]) then Addr4 (drop 12 b) else a
  | _ => a
  end.
Definition AsSlice (a : Addr) : list byte :=
  match a with AddrZero => [] | Addr4 b | Addr6 b => b end.
Definition Is4 (a : Addr) : bool := match a with Addr4 _ => true | _ => false end.

(** [net.IP.To4] on the 16-byte form: nil unless IPv4-mapped. *)
Definition To4 (ip : list byte) : list byte :=
  if decide (length ip = 4%nat) then ip
  else if decide (length ip = 16%nat /\ take 12 ip = replicate 10 x00 ++ [xff; xff])
  then drop 12 ip else [].
