(* ===== verification/GoState.v ===== *)
(** State and errors together: code that mutates an object and may fail or
    panic half-way, keeping the mutations done so far. *)

From S2P Require Import Prelude.

(** [st S A]: a method on a receiver of type [S]. *)
Definition st (S A : Type) : Type := S -> S * res A.

Section st.
Context {S : Type}.
#[export] Instance st_ret : MRet (st S) := fun A a s => (s, Ret a).
#[export] Instance st_bind : MBind (st S) := fun A B f m s =>
  match m s with
  | (s', Ret a) => f a s'
  | (s', Fail e) => (s', Fail e)
  | (s', Panic) => (s', Panic)
  end.

Definition get : st S S := fun s => (s, Ret s).
Definition modify (f : S -> S) : st S unit := fun s => (f s, Ret tt).
Definition fail {A} (e : error) : st S A := fun s => (s, Fail e).
(** A computation that only fails or panics. *)
Definition lift {A} (m : res A) : st S A := fun s => (s, m).

(** [v, err := m]: the error becomes a value. *)
Definition try {A} (m : st S A) : st S (A + error) := fun s =>
  match m s with
  | (s', Ret a) => (s', Ret (inl a))
  | (s', Fail e) => (s', Ret (inr e))
  | (s', Panic) => (s', Panic)
  end.

Lemma st_bind_Ret {A B} (m : st S A) (f : A -> st S B) s s' a :
  m s = (s', Ret a) -> (m ≫= f) s = f a s'.
Proof. intros E. unfold mbind, st_bind. by rewrite E. Qed.

Lemma st_lift_Ret {A B} (m : res A) (f : A -> st S B) s a :
  m = Ret a -> (lift m ≫= f) s = f a s.
Proof. by intros ->. Qed.

Lemma st_bind_inv {A B} (m : st S A) (f : A -> st S B) s s' b :
  (m ≫= f) s = (s', Ret b) -> exists s1 a, m s = (s1, Ret a) /\ f a s1 = (s', Ret b).
Proof. unfold mbind, st_bind. destruct (m s) as [s1 [a|e|]]; [eauto|done..]. Qed.

Lemma st_bind_Fail {A B} (m : st S A) (f : A -> st S B) s s' e :
  m s = (s', Fail e) -> (m ≫= f) s = (s', Fail e).
Proof. intros E. unfold mbind, st_bind. by rewrite E. Qed.
End st.

(** [m] never panics, from any state. *)
Definition safe {S A} (m : st S A) : Prop := forall s, (m s).2 <> Panic.

Lemma safe_bind {S A B} (m : st S A) (f : A -> st S B) :
  safe m -> (forall a, safe (f a)) -> safe (m ≫= f).
Proof.
  intros Hm Hf s. unfold mbind, st_bind. specialize (Hm s).
  destruct (m s) as [s' [a|e|]]; cbn in *; [apply Hf|done|done].
Qed.

Lemma safe_ret {S A} (a : A) : safe (S := S) (mret a).
Proof. by intros s. Qed.
Lemma safe_fail {S A} e : safe (S := S) (A := A) (fail e).
Proof. by intros s. Qed.
Lemma safe_modify {S} (f : S -> S) : safe (modify f).
Proof. by intros s. Qed.
Lemma safe_get {S} : safe (S := S) get.
Proof. by intros s. Qed.

#[export] Hint Resolve safe_bind safe_ret safe_fail safe_modify safe_get : go.

(** Reading from a byte stream as the state: [io.ReadFull] of [n] bytes takes
    everything that is left when there are fewer. *)
Definition readFull (n : nat) : st stream (list byte) := fun r =>
  if decide (n <= length r)%nat then (drop n r, Ret (take n r))
  else ([], Fail (match r with [] => EOF | _ => ErrUnexpectedEOF end)).

Lemma readFull_app a b n : n = length a -> readFull n (a ++ b) = (b, Ret a).
Proof.
  intros ->. unfold readFull. rewrite decide_True by (rewrite length_app; lia).
  by rewrite drop_app_length, take_app_length.
Qed.

Lemma readFull_all a n : n = length a -> readFull n a = ([], Ret a).
Proof. intros E. rewrite <- (app_nil_r a) at 1. by apply readFull_app. Qed.

Lemma safe_readFull n : safe (readFull n).
Proof. intros r. unfold readFull. by case_decide. Qed.

(** The bytes read, and nothing else, leave the stream. *)
Lemma readFull_length n r r' a : readFull n r = (r', Ret a) -> r = a ++ r' /\ length a = n.
Proof.
  unfold readFull. case_decide; [|by intros [=]]. intros [= <- <-]. rewrite take_drop, length_take.
  split; [done|lia].
Qed.

#[export] Hint Resolve safe_readFull : go.

(** Run the next statement of a method: a pure step, or a read of the prefix
    [a] of the stream. *)
Ltac st_pure := erewrite st_bind_Ret; [|reflexivity].
Ltac st_read a := erewrite st_bind_Ret; [|apply (readFull_app a); cbn; autorewrite with lens; cbn; lia].
(** A pure call whose result the tactic [tac] proves; a call specified by [E]. *)
Ltac st_lift tac := erewrite st_lift_Ret; [|tac]; cbv beta iota.
Ltac st_call E := rewrite (st_bind_Ret _ _ _ _ _ E); cbv beta iota.
