(* ===== verification/Common.v ===== *)
(** Helpers shared by the protocols: the one-entry cache of the last string key
    (common/last_string_value.go), the nonce counters (common/common.go), the
    errors of dropped datagrams (netproxy). *)

From S2P Require Import Prelude.

(** [LastStringValue]: the latest key and its value. *)
Definition LastStringValue (T : Type) : Type := option (list byte * T).
Definition LastStringValue_Load {T} (c : LastStringValue T) (key : list byte) : option T :=
  match c with Some (k, v) => if decide (k = key) then Some v else None | None => None end.
Definition LastStringValue_Store {T} (key : list byte) (v : T) (c : LastStringValue T) : LastStringValue T :=
  Some (key, v).

Definition DatagramDropped (e : error) : error := Wrap "datagram dropped" e.
Definition ErrShortBuffer : error := Errorf "short buffer".

(** * Counters in byte slices *)

(** [BytesIncLittleEndian]: the loop stops at the first byte that does not wrap
    to zero. *)
Fixpoint BytesIncLittleEndian (b : list byte) : list byte :=
  match b with
  | [] => []
  | x :: b =>
      let x := z2b (b2z x + 1) in
      if decide (x <> Byte.x00) then x :: b else x :: BytesIncLittleEndian b
  end.
(** [BytesIncBigEndian]: the same from the other end. *)
Definition BytesIncBigEndian (b : list byte) : list byte := rev (BytesIncLittleEndian (rev b)).

(** The number a slice stands for, least significant byte first. *)
Fixpoint le_get (b : list byte) : Z := match b with [] => 0 | x :: b => b2z x + 256 * le_get b end.

Lemma le_get_range b : 0 <= le_get b < 256 ^ Z.of_nat (length b).
Proof.
  induction b as [|x b IH]; [done|]. cbn [le_get length]. pose proof (b2z_range x).
  rewrite Nat2Z.inj_succ, Z.pow_succ_r by lia. lia.
Qed.

Lemma le_get_inj a : forall b, length a = length b -> le_get a = le_get b -> a = b.
Proof.
  induction a as [|x a IH]; intros [|y b] L E; try done. cbn [le_get] in E. pose proof (b2z_range x). pose proof (b2z_range y).
  f_equal; [apply b2z_inj; lia|]. apply IH; [by injection L|lia].
Qed.

Lemma length_BytesIncLittleEndian b : length (BytesIncLittleEndian b) = length b.
Proof. induction b as [|x b IH]; [done|]. cbn [BytesIncLittleEndian]. case_decide; cbn; congruence. Qed.

Lemma BytesIncLittleEndian_ok b : le_get (BytesIncLittleEndian b) = (le_get b + 1) mod 256 ^ Z.of_nat (length b).
Proof.
  induction b as [|x b IH]; [done|]. cbn [BytesIncLittleEndian le_get length]. pose proof (b2z_range x).
  rewrite Nat2Z.inj_succ, Z.pow_succ_r by lia. set (P := 256 ^ Z.of_nat (length b)) in *.
  pose proof (le_get_range b) as R. fold P in R.
  destruct (decide (b2z x = 255)) as [E|E].
  - assert (z2b (b2z x + 1) = Byte.x00) as -> by (apply b2z_inj; rewrite b2z_z2b, E; done).
    rewrite decide_False by (intros N; by apply N). cbn [le_get]. rewrite IH. change (b2z Byte.x00) with 0. rewrite E.
    replace (255 + 256 * le_get b + 1) with (256 * (le_get b + 1)) by lia. rewrite Z.mul_mod_distr_l; lia.
  - assert (b2z (z2b (b2z x + 1)) = b2z x + 1) as E2 by (apply b2z_z2b_small; lia).
    rewrite decide_True. 2:{ intros N. rewrite N in E2. change (b2z Byte.x00) with 0 in E2. lia. }
    cbn [le_get]. rewrite E2, Z.mod_small by lia. lia.
Qed.

(** The [k]-th value of a counter that starts at zero. *)
Definition nonce_at (n k : nat) : list byte := Nat.iter k BytesIncLittleEndian (replicate n Byte.x00).

Lemma length_nonce_at n k : length (nonce_at n k) = n.
Proof. induction k as [|k IH]; [apply length_replicate|]. unfold nonce_at in *. cbn. by rewrite length_BytesIncLittleEndian. Qed.

Lemma nonce_at_S n k : BytesIncLittleEndian (nonce_at n k) = nonce_at n (S k).
Proof. done. Qed.

Lemma le_get_nonce_at n k : le_get (nonce_at n k) = Z.of_nat k mod 256 ^ Z.of_nat n.
Proof.
  induction k as [|k IH].
  - rewrite Z.mod_0_l by (apply Z.pow_nonzero; lia). unfold nonce_at. cbn. induction n as [|n IH]; [done|]. cbn. rewrite IH. done.
  - rewrite <- nonce_at_S, BytesIncLittleEndian_ok, length_nonce_at, IH, Zplus_mod_idemp_l. f_equal. lia.
Qed.

(** No value comes back before the counter has run through all of them. *)
Lemma nonce_at_inj n j k : Z.of_nat j < 256 ^ Z.of_nat n -> Z.of_nat k < 256 ^ Z.of_nat n -> nonce_at n j = nonce_at n k -> j = k.
Proof.
  intros Hj Hk E. apply (f_equal le_get) in E. rewrite !le_get_nonce_at, !Z.mod_small in E by lia. lia.
Qed.

(** Bytes of a buffer not handed out yet: the part from [i] to [l]. *)
Definition pending (left : list byte) (l i : nat) (buf : list byte) : Prop :=
  (left = [] /\ l = 0%nat /\ i = 0%nat) \/ ((i < l <= length buf)%nat /\ left = drop i (take l buf)).
