(* ===== verification/Transport.v ===== *)
(** The byte-stream transport under the protocols and the complete write of
    common/iout/iout.go.

    The transport may accept any part of each write and fail at any point: its
    behaviour is a plan, consumed call by call (an exhausted plan accepts
    everything). *)

From S2P Require Import Prelude.

Definition ErrClosed : error := Errorf "use of closed network connection".
Definition ErrDeadlineExceeded : error := Errorf "i/o timeout".
Definition ErrShortWrite : error := Errorf "short write".

(** * The transport *)

(** One [Write] call takes at most [k] bytes and returns [e]. *)
Inductive wstep := Accept (k : nat) (e : option error).
Record tconn := MkTconn { t_out : list byte; t_plan : list wstep; t_closed : bool }.

Definition conn_Write (b : list byte) (t : tconn) : tconn * (nat * option error) :=
  if t_closed t then (t, (0%nat, Some ErrClosed))
  else match t_plan t with
       | [] => (MkTconn (t_out t ++ b) [] false, (length b, None))
       | Accept k e :: plan =>
           let n := Nat.min k (length b) in
           (MkTconn (t_out t ++ take n b) plan false, (n, e))
       end.

(** [for n < len(b)]: every round writes at least one byte or returns. *)
Fixpoint WriteFull_loop (fuel : nat) (b : list byte) (n : nat) (t : tconn) : tconn * (nat * option error) :=
  if decide (n < length b)%nat then
    match fuel with
    | O => (t, (n, None))
    | S fuel =>
        let '(t, (wn, err)) := conn_Write (drop n b) t in
        match err with
        | Some e => (t, ((n + wn)%nat, Some e))
        | None =>
            if decide (wn = 0%nat) then (t, ((n + wn)%nat, Some ErrShortWrite))
            else WriteFull_loop fuel b (n + wn) t
        end
    end
  else (t, (n, None)).
Definition WriteFull (b : list byte) (t : tconn) : tconn * (nat * option error) :=
  WriteFull_loop (length b) b 0 t.

Lemma WriteFull_loop_spec fuel : forall b n t, (length b <= n + fuel)%nat -> (n <= length b)%nat ->
  exists t' n' e, WriteFull_loop fuel b n t = (t', (n', e)) /\ (n <= n' <= length b)%nat /\
    t_out t' = t_out t ++ take (n' - n) (drop n b) /\ (e = None -> n' = length b) /\
    (t_plan t = [] /\ t_closed t = false -> e = None /\ t_plan t' = [] /\ t_closed t' = false) /\
    t_closed t' = t_closed t.
Proof.
  induction fuel as [|fuel IH]; intros b n t H1 H2; cbn [WriteFull_loop].
  { rewrite decide_False by lia. exists t, n, None. rewrite Nat.sub_diag, take_0, app_nil_r.
    split_and!; try done; lia. }
  case_decide as Hn.
  2:{ exists t, n, None. rewrite Nat.sub_diag, take_0, app_nil_r. split_and!; try done; lia. }
  assert (W : exists t1 wn e, conn_Write (drop n b) t = (t1, (wn, e)) /\ (wn <= length b - n)%nat /\
    t_out t1 = t_out t ++ take wn (drop n b) /\
    (t_plan t = [] /\ t_closed t = false -> e = None /\ wn = (length b - n)%nat /\ t_plan t1 = [] /\ t_closed t1 = false) /\
    t_closed t1 = t_closed t).
  { unfold conn_Write. destruct (t_closed t) eqn:Hc.
    - do 3 eexists. split; [reflexivity|]. rewrite take_0, app_nil_r. split; [lia|]. split; [done|]. split; [by intros [_ [=]]|done].
    - destruct (t_plan t) as [|[k e] plan].
      + do 3 eexists. split; [reflexivity|]. rewrite length_drop. split; [done|]. cbn.
        rewrite take_ge by len. done.
      + do 3 eexists. split; [reflexivity|]. split; [len|]. split; [done|]. split; [by intros []|done]. }
  destruct W as (t1 & wn & e & -> & Hwn & Ho & Hg & Hc).
  destruct e as [e|].
  { exists t1, (n + wn)%nat, (Some e). replace (n + wn - n)%nat with wn by lia.
    split_and!; try done; try lia. intros G. apply Hg in G as [? _]. done. }
  case_decide as Hz.
  { exists t1, (n + wn)%nat, (Some ErrShortWrite). replace (n + wn - n)%nat with wn by lia.
    split_and!; try done; try lia. intros G. apply Hg in G as (_ & ? & _). lia. }
  destruct (IH b (n + wn)%nat t1) as (t2 & n2 & e2 & -> & R & Ho2 & He2 & Hg2 & Hc2); [lia..|].
  exists t2, n2, e2. split; [done|]. split; [lia|]. split; [|split; [done|split; [|congruence]]].
  - rewrite Ho2, Ho, <- app_assoc. f_equal. rewrite <- drop_drop.
    replace (n2 - n)%nat with (wn + (n2 - (n + wn)))%nat by lia.
    set (x := drop n b). rewrite <- (take_drop wn x) at 3. rewrite take_app_add'; [done|].
    unfold x. len.
  - intros G. apply Hg in G as (_ & _ & ? & ?). by apply Hg2.
Qed.

(** [WriteFull]: what reached the transport is a prefix, all of it unless an
    error is returned. *)
Lemma WriteFull_ok b t : exists t' n e, WriteFull b t = (t', (n, e)) /\ (n <= length b)%nat /\
  t_out t' = t_out t ++ take n b /\ (e = None -> n = length b) /\
  (t_plan t = [] /\ t_closed t = false -> e = None /\ t_plan t' = [] /\ t_closed t' = false).
Proof.
  destruct (WriteFull_loop_spec (length b) b 0 t) as (t' & n & e & E & R & Ho & He & Hg & _); [lia..|].
  exists t', n, e. rewrite Nat.sub_0_r, drop_0 in Ho. split_and!; try done; lia.
Qed.

(** [MultiWrite]: small messages piece by piece, larger ones joined first. *)
Definition smallWriteThreshold : Z := 4096.
Fixpoint write_each (bs : list (list byte)) (written : nat) (t : tconn) : tconn * (nat * option error) :=
  match bs with
  | [] => (t, (written, None))
  | b :: bs =>
      let '(t, (n, err)) := conn_Write b t in
      match err with
      | Some e => (t, ((written + n)%nat, Some e))
      | None => write_each bs (written + n) t
      end
  end.
Definition MultiWrite (bs : list (list byte)) (t : tconn) : tconn * (nat * option error) :=
  if decide (Z.of_nat (length (concat bs)) <= smallWriteThreshold) then write_each bs 0 t else conn_Write (concat bs) t.

(** A transport that has accepted everything so far. *)
Definition sent (b : list byte) : tconn := MkTconn b [] false.

Lemma WriteFull_sent b w : WriteFull b (sent w) = (sent (w ++ b), (length b, None)).
Proof.
  destruct (WriteFull_ok b (sent w)) as (t & n & e & E & _ & Ho & He & Hg). destruct (Hg ltac:(done)) as (-> & Hp & Hc). rewrite E, (He eq_refl) in *.
  rewrite firstn_all in Ho. destruct t as [o p cl]. cbn in *. by subst.
Qed.

Lemma write_each_sent bs : forall w n, write_each bs n (sent w) = (sent (w ++ concat bs), ((n + length (concat bs))%nat, None)).
Proof.
  induction bs as [|b bs IH]; intros w n; cbn [write_each concat].
  - by rewrite app_nil_r, Nat.add_0_r.
  - cbn [conn_Write sent t_closed t_plan t_out]. unfold conn_Write. cbn [sent t_closed t_plan t_out]. fold (sent (w ++ b)). rewrite IH, <- app_assoc, length_app, Nat.add_assoc. done.
Qed.

Lemma MultiWrite_sent bs w : MultiWrite bs (sent w) = (sent (w ++ concat bs), (length (concat bs), None)).
Proof. unfold MultiWrite. case_decide; [by rewrite write_each_sent|done]. Qed.
