(* ===== verification/Reassembly.v ===== *)
(** Splitting a payload into bounded chunks and collecting numbered pieces in
    arbitrary order: the combinatorics shared by the TUIC and Hysteria2
    fragmenters and defragmenters. *)

From S2P Require Import Prelude.

(** * Chunks *)

Section chunks.
Context {A : Type}.
Implicit Types (l : list A).

(** Consecutive pieces of [k] elements, the last one possibly shorter. *)
Fixpoint chunks_fuel (fuel k : nat) l : list (list A) :=
  match fuel, l with
  | S fuel, _ :: _ => take k l :: chunks_fuel fuel k (drop k l)
  | _, _ => []
  end.
Definition chunks (k : nat) l : list (list A) := chunks_fuel (length l) k l.

Lemma chunks_fuel_enough fuel k l :
  (0 < k)%nat -> (length l <= fuel)%nat -> chunks_fuel fuel k l = chunks k l.
Proof.
  intros Hk. unfold chunks. remember (length l) as n eqn:E. revert l fuel E.
  induction n as [n IH] using lt_wf_ind. intros l fuel -> Hf.
  destruct l as [|x l]; [by destruct fuel|]. destruct fuel as [|fuel]; [simpl in Hf; lia|].
  cbn [chunks_fuel length]. f_equal. simpl in Hf.
  assert (length (drop k (x :: l)) <= length l)%nat by (rewrite length_drop; simpl; lia).
  rewrite (IH (length (drop k (x :: l)))) by (simpl; try lia; done).
  symmetry. apply (IH (length (drop k (x :: l)))); simpl; try lia; done.
Qed.

Lemma chunks_nil k : chunks k [] = [].
Proof. done. Qed.

Lemma chunks_cons k l : (0 < k)%nat -> l <> [] ->
  chunks k l = take k l :: chunks k (drop k l).
Proof.
  intros Hk Hl. destruct l as [|x l]; [done|]. unfold chunks at 1. cbn [length chunks_fuel].
  f_equal. apply chunks_fuel_enough; [done|]. rewrite length_drop. simpl. lia.
Qed.

(** Induction along the chunks. *)
Lemma chunks_ind k (P : list A -> Prop) : (0 < k)%nat ->
  P [] -> (forall l, l <> [] -> P (drop k l) -> P l) -> forall l, P l.
Proof.
  intros Hk H0 HS l. remember (length l) as n eqn:E. revert l E.
  induction n as [n IH] using lt_wf_ind. intros [|x l] ->; [done|].
  apply HS; [done|]. eapply IH; [|done]. rewrite length_drop. simpl. lia.
Qed.

Lemma chunks_concat k l : (0 < k)%nat -> concat (chunks k l) = l.
Proof.
  intros Hk. revert l. apply (chunks_ind k); [done..|]. intros l Hl IH.
  rewrite chunks_cons by done. cbn [concat]. by rewrite IH, take_drop.
Qed.

Lemma chunks_bounds k l : (0 < k)%nat ->
  Forall (fun c => 0 < length c <= k)%nat (chunks k l).
Proof.
  intros Hk. revert l. apply (chunks_ind k); [done|constructor|]. intros l Hl IH.
  rewrite chunks_cons by done. constructor; [|done]. rewrite length_take.
  destruct l; [done|]. simpl. lia.
Qed.

Lemma length_chunks k l : (0 < k)%nat ->
  length (chunks k l) = ((length l + k - 1) / k)%nat.
Proof.
  intros Hk. revert l. apply (chunks_ind k); [done| |intros l Hl IH].
  { simpl. symmetry. apply Nat.div_small. lia. }
  rewrite chunks_cons by done. cbn [length]. rewrite IH, length_drop.
  assert (0 < length l)%nat by (destruct l; simpl; [done|lia]).
  destruct (decide (length l <= k)%nat).
  - replace (length l - k)%nat with 0%nat by lia.
    rewrite (Nat.div_small (0 + k - 1)) by lia.
    apply (Nat.div_unique _ _ _ (length l - 1)); lia.
  - replace (length l + k - 1)%nat with (length l - k + k - 1 + 1 * k)%nat by lia.
    rewrite Nat.div_add by lia. lia.
Qed.
End chunks.

(** * Slot tables *)

Section table.
Context {A : Type} (fs : list A).

(** The slots after the pieces whose indices are in [ix] arrived. *)
Definition table (ix : list nat) : list (option A) :=
  imap (fun i x => if decide (i ∈ ix) then Some x else None) fs.

Lemma length_table ix : length (table ix) = length fs.
Proof. apply length_imap. Qed.

Lemma table_lookup ix j x : fs !! j = Some x ->
  table ix !! j = Some (if decide (j ∈ ix) then Some x else None).
Proof. intros H. unfold table. by rewrite list_lookup_imap, H. Qed.

Lemma table_insert ix j x : fs !! j = Some x ->
  <[j := Some x]> (table ix) = table (j :: ix).
Proof.
  intros H. apply list_eq. intros i.
  assert (j < length fs)%nat as Hj by (by eapply lookup_lt_Some).
  destruct (decide (i = j)) as [->|Hne].
  - rewrite list_lookup_insert_eq by (by rewrite length_table).
    rewrite (table_lookup _ _ _ H), decide_True by set_solver. done.
  - rewrite list_lookup_insert_ne by done. unfold table. rewrite !list_lookup_imap.
    destruct (fs !! i); simpl; [|done]. f_equal.
    destruct (decide (i ∈ ix)); [rewrite decide_True by set_solver|
      rewrite decide_False by set_solver]; done.
Qed.

Lemma table_nil : table [] = replicate (length fs) None.
Proof.
  apply list_eq. intros i. unfold table. rewrite list_lookup_imap.
  destruct (fs !! i) eqn:E; simpl.
  - rewrite lookup_replicate_2 by (by eapply lookup_lt_Some).
    done.
  - apply lookup_ge_None in E. symmetry. apply lookup_ge_None. by rewrite length_replicate.
Qed.

Lemma table_full ix : (forall i, (i < length fs)%nat -> i ∈ ix) -> table ix = Some <$> fs.
Proof.
  intros H. apply list_eq. intros i. unfold table. rewrite list_lookup_imap, list_lookup_fmap.
  destruct (fs !! i) eqn:E; simpl; [|done].
  rewrite decide_True; [done|]. apply H. by eapply lookup_lt_Some.
Qed.
End table.

(** A duplicate-free list of indices below [n] that has [n] elements has them
    all. *)
Lemma all_indices (ix : list nat) n :
  NoDup ix -> Forall (fun i => i < n)%nat ix -> length ix = n ->
  ix ≡ₚ seq 0 n.
Proof.
  intros Hnd Hlt Hlen. apply submseteq_length_Permutation.
  - apply NoDup_submseteq; [done|]. intros i Hi. rewrite Forall_forall in Hlt.
    apply elem_of_seq. specialize (Hlt i Hi). lia.
  - rewrite length_seq. lia.
Qed.

(** Total weight of the pieces [ix] of [fs]. *)
Definition weight {A} (w : A -> nat) (fs : list A) (ix : list nat) : nat :=
  sum_list_with (fun i => from_option w 0%nat (fs !! i)) ix.

Lemma weight_seq {A} (w : A -> nat) (fs : list A) :
  weight w fs (seq 0 (length fs)) = sum_list_with w fs.
Proof.
  unfold weight. induction fs as [|x fs IH]; [done|].
  cbn [length seq sum_list_with lookup list_lookup from_option]. f_equal.
  rewrite <- IH, <- fmap_S_seq. clear. induction (seq 0 (length fs)); [done|].
  simpl. by f_equal.
Qed.

Lemma length_concat_with {A B} (f : A -> list B) (l : list A) :
  length (concat (f <$> l)) = sum_list_with (fun x => length (f x)) l.
Proof.
  induction l as [|x l IH]; [done|]. rewrite fmap_cons. cbn [concat sum_list_with].
  by rewrite length_app, IH.
Qed.

Lemma weight_full {A B} (f : A -> list B) (fs : list A) ix :
  ix ≡ₚ seq 0 (length fs) ->
  weight (fun x => length (f x)) fs ix = length (concat (f <$> fs)).
Proof. intros H. unfold weight. rewrite H. rewrite length_concat_with. apply weight_seq. Qed.

Lemma indices_length (ix : list nat) n :
  NoDup ix -> Forall (fun i => i < n)%nat ix -> (length ix <= n)%nat.
Proof.
  intros Hnd Hlt. rewrite <- (length_seq n 0). apply submseteq_length, NoDup_submseteq; [done|].
  intros i Hi. rewrite Forall_forall in Hlt. apply elem_of_seq. specialize (Hlt i Hi). lia.
Qed.
