(* ===== verification/TuicProtocol.v ===== *)
(** TUIC v5 wire protocol: commands, addresses and the three packet parsers
    (protocol/tuic/protocol.go, protocol/tuic/packet_parse.go).

    Byte layout of a Packet command:
    VER TYPE ASSOC_ID(2) PKT_ID(2) FRAG_TOTAL FRAG_ID SIZE(2) ADDRESS DATA.
    Pointers that can be nil ([*Address]) are [option]s; a dereference of nil is
    a [Panic]. *)

From S2P Require Import Prelude NetIP.

(** * Data *)

(** type CommandType byte *)
Abbreviation CommandType := byte.
Definition AuthenticateType : CommandType := x00.
Definition ConnectType : CommandType := x01.
Definition PacketType : CommandType := x02.
Definition DissociateType : CommandType := x03.
Definition HeartbeatType : CommandType := x04.

Definition CommandType_String (c : CommandType) : string :=
  if decide (c = AuthenticateType) then "Authenticate"
  else if decide (c = ConnectType) then "Connect"
  else if decide (c = PacketType) then "Packet"
  else if decide (c = DissociateType) then "Dissociate"
  else if decide (c = HeartbeatType) then "Heartbeat"
  else "UnknowCommand: %#x".
Definition CommandType_BytesLen (c : CommandType) : nat := 1.

Record CommandHead := MkHead { VER : byte; TYPE : CommandType }.
Definition NewCommandHead (typ : CommandType) (ver : byte) : CommandHead := MkHead ver typ.

(** Address types *)
Definition AtypDomainName : byte := x00.
Definition AtypIPv4 : byte := x01.
Definition AtypIPv6 : byte := x02.
Definition AtypNone : byte := xff.

(** [PORT] is a uint16; for a domain, [ADDR] starts with the length byte. *)
Record Address := MkAddress { aTYPE : byte; ADDR : list byte; PORT : Z }.

#[export] Instance CommandHead_eq_dec : EqDecision CommandHead.
Proof. solve_decision. Defined.
#[export] Instance Address_eq_dec : EqDecision Address.
Proof. solve_decision. Defined.

Record Authenticate := MkAuth {
  au_head : CommandHead; UUID : list byte; TOKEN : list byte; au_VER : byte }.
Definition NewAuthenticate (uuid token : list byte) (ver : byte) : Authenticate :=
  MkAuth (NewCommandHead AuthenticateType ver) uuid token ver.

Record Connect := MkConnect { cn_head : CommandHead; cn_ADDR : option Address }.
Definition NewConnect (a : option Address) (ver : byte) : Connect :=
  MkConnect (NewCommandHead ConnectType ver) a.

(** [dataOwner] is [true] when the packet carries a pool-ownership token, i.e.
    when DATA is pool-backed. ASSOC_ID, PKT_ID and SIZE are uint16. *)
Record Packet := MkPacket {
  pk_head : CommandHead;
  ASSOC_ID : Z;
  PKT_ID : Z;
  FRAG_TOTAL : byte;
  FRAG_ID : byte;
  SIZE : Z;
  pk_ADDR : option Address;
  DATA : list byte;
  dataOwner : bool }.

#[export] Instance Packet_eq_dec : EqDecision Packet.
Proof. solve_decision. Defined.

Definition NewPacket (assoc pkt : Z) (total fid : byte) (size : Z)
    (addr : option Address) (data : list byte) (ver : byte) : Packet :=
  MkPacket (NewCommandHead PacketType ver) assoc pkt total fid size addr data false.

Record Dissociate := MkDissociate { ds_head : CommandHead; ds_ASSOC_ID : Z }.
Definition NewDissociate (assoc : Z) (ver : byte) : Dissociate :=
  MkDissociate (NewCommandHead DissociateType ver) assoc.

(** Method call on a pointer: nil dereference panics. *)
Definition deref {A} (p : option A) : res A :=
  match p with Some a => Ret a | None => Panic end.

(** * Serializers *)

Definition CommandHead_WriteTo (c : CommandHead) : wr unit :=
  _ ← WriteByte (VER c); WriteByte (TYPE c).

(** [WriteToBytes(b[off:])]: the sub-slice shares its storage with [b]. *)
Definition CommandHead_WriteToBytes (c : CommandHead) (b : list byte) (off : nat)
    : res (list byte * nat) :=
  b ← set_at b off (VER c);
  b ← set_at b (off + 1) (TYPE c);
  Ret (b, 2%nat).

Definition CommandHead_BytesLen (c : CommandHead) : nat := 1 + CommandType_BytesLen (TYPE c).

Definition Address_WriteTo (c : Address) : wr unit :=
  _ ← WriteByte (aTYPE c);
  if decide (aTYPE c = AtypNone) then mret tt else
  _ ← Write (ADDR c);
  Write (be16 (PORT c)).

Definition Address_WriteToBytes (c : Address) (b : list byte) (off : nat)
    : res (list byte * nat) :=
  b ← set_at b off (aTYPE c);
  if decide (aTYPE c = AtypNone) then Ret (b, 1%nat) else
  '(b, n) ← copy_at b (off + 1) (ADDR c);
  b ← write_at b (off + 1 + n) (be16 (PORT c));
  Ret (b, (3 + n)%nat).

Definition Address_BytesLen (c : Address) : nat :=
  if decide (aTYPE c = AtypNone) then 1 else 1 + length (ADDR c) + 2.

Definition Authenticate_WriteTo (c : Authenticate) : wr unit :=
  _ ← CommandHead_WriteTo (au_head c);
  _ ← Write (UUID c);
  Write (TOKEN c).
Definition Authenticate_BytesLen (c : Authenticate) : nat :=
  CommandHead_BytesLen (au_head c) + 16 + 32.

Definition Connect_WriteTo (c : Connect) : wr unit :=
  _ ← CommandHead_WriteTo (cn_head c);
  a ← wr_lift (deref (cn_ADDR c));
  Address_WriteTo a.
Definition Connect_WriteToBytes (c : Connect) (b : list byte) : res (list byte * nat) :=
  '(b, n1) ← CommandHead_WriteToBytes (cn_head c) b 0;
  _ ← slice_from b 2;
  a ← deref (cn_ADDR c);
  '(b, n2) ← Address_WriteToBytes a b 2;
  Ret (b, (n1 + n2)%nat).
Definition Connect_BytesLen (c : Connect) : res nat :=
  a ← deref (cn_ADDR c);
  Ret (CommandHead_BytesLen (cn_head c) + Address_BytesLen a)%nat.

Definition Packet_BytesLen (c : Packet) : res nat :=
  a ← deref (pk_ADDR c);
  Ret (CommandHead_BytesLen (pk_head c) + 8 + Address_BytesLen a + length (DATA c))%nat.

Definition Packet_WriteToBytes (c : Packet) (b : list byte) (off : nat)
    : res (list byte * nat) :=
  '(b, n) ← CommandHead_WriteToBytes (pk_head c) b off;
  b ← write_at b (off + n) (be16 (ASSOC_ID c));
  let n := (n + 2)%nat in
  b ← write_at b (off + n) (be16 (PKT_ID c));
  let n := (n + 2)%nat in
  b ← set_at b (off + n) (FRAG_TOTAL c);
  let n := (n + 1)%nat in
  b ← set_at b (off + n) (FRAG_ID c);
  let n := (n + 1)%nat in
  b ← write_at b (off + n) (be16 (SIZE c));
  let n := (n + 2)%nat in
  a ← deref (pk_ADDR c);
  '(b, m) ← Address_WriteToBytes a b (off + n);
  let n := (n + m)%nat in
  '(b, m) ← copy_at b (off + n) (DATA c);
  Ret (b, (n + m)%nat).

(** [Packet.WriteTo]. A pool/bytes.Buffer ([ext]) is extended by BytesLen and
    written in place: the extended region holds recycled bytes [junk]. Any other
    writer gets one Write of a scratch buffer. *)
Definition Packet_WriteTo_ext (c : Packet) (contents : list byte)
    (junk : nat -> list byte) : res (list byte) :=
  n ← Packet_BytesLen c;
  '(b, _) ← Packet_WriteToBytes c (contents ++ junk n) (length contents);
  Ret b.
Definition Packet_WriteTo (c : Packet) : wr unit :=
  len ← wr_lift (Packet_BytesLen c);
  '(buf, n) ← wr_lift (Packet_WriteToBytes c (replicate len x00) 0);
  bs ← wr_lift (slice buf 0 n);
  Write bs.

Definition Dissociate_WriteTo (c : Dissociate) : wr unit :=
  _ ← CommandHead_WriteTo (ds_head c);
  Write (be16 (ds_ASSOC_ID c)).
Definition Dissociate_BytesLen (c : Dissociate) : nat := CommandHead_BytesLen (ds_head c) + 4.

(** * Reader-based parsers (protocol.go) *)

Definition ReadCommandHead (r : stream) : res (CommandHead * stream) :=
  '(ver, r) ← ReadByte r;
  '(typ, r) ← ReadByte r;
  Ret (MkHead ver typ, r).

(** [fmt.Errorf(msg+": %w", err)] *)
Definition wrapf {A} (msg : string) (m : res A) : res A :=
  match m with Fail e => Fail (Wrap msg e) | o => o end.

Definition ReadAuthenticateWithHead (head : CommandHead) (r : stream)
    : res (Authenticate * stream) :=
  if decide (TYPE head <> AuthenticateType) then Fail (Errorf "error command type: %s") else
  '(uuid, r) ← wrapf "read uuid" (ReadFull 16 r);
  '(token, r) ← wrapf "read token" (ReadFull 32 r);
  Ret (MkAuth head uuid token x00, r).

(** [binary.Read(reader, binary.BigEndian, &uint16)] *)
Definition ReadUint16 (r : stream) : res (Z * stream) :=
  '(b, r) ← ReadFull 2 r; Ret (be_get b, r).

(** The result pointer is nil when the type byte is AtypNone (the named result
    is never assigned on that return). *)
Definition ReadAddress (r : stream) : res (option Address * stream) :=
  '(typ, r) ← ReadByte r;
  '(addr, r) ←
    (if decide (typ = AtypIPv4) then ReadFull 4 r
     else if decide (typ = AtypIPv6) then ReadFull 16 r
     else if decide (typ = AtypDomainName) then
       '(addrLen, r) ← ReadByte r;
       (* make([]byte, addrLen+1): byte arithmetic *)
       let buf := replicate (Z.to_nat (b2z (z2b (b2z addrLen + 1)))) x00 in
       buf ← set_at buf 0 addrLen;
       '(dom, r) ← ReadFull (length buf - 1) r;
       Ret (addrLen :: dom, r)
     else Ret ([], r));
  if decide (typ = AtypNone) then Ret (None, r) else
  '(port, r) ← ReadUint16 r;
  Ret (Some (MkAddress typ addr port), r).

Definition ReadConnectWithHead (head : CommandHead) (r : stream) : res (Connect * stream) :=
  if decide (TYPE head <> ConnectType) then Fail (Errorf "error command type: %s") else
  '(a, r) ← ReadAddress r;
  Ret (MkConnect head a, r).

Definition ReadPacketWithHead (head : CommandHead) (r : stream) : res (Packet * stream) :=
  if decide (TYPE head <> PacketType) then Fail (Errorf "error command type: %s") else
  '(assoc, r) ← ReadUint16 r;
  '(pkt, r) ← ReadUint16 r;
  '(total, r) ← ReadFull 1 r;
  '(fid, r) ← ReadFull 1 r;
  '(size, r) ← ReadUint16 r;
  '(addr, r) ← ReadAddress r;
  '(data, r) ← ReadFull (Z.to_nat size) r;
  Ret (MkPacket head assoc pkt (hd x00 total) (hd x00 fid) size addr data false, r).

(** * Slice-based parsers (packet_parse.go) *)

Definition errMalformedDatagram : string := "tuic: malformed datagram".
Definition malformedDatagramf (msg : string) : error := Wrap errMalformedDatagram (Errorf msg).

(** Returns the address and the number of bytes consumed. *)
Definition readAddressFromSlice (msg : list byte) : res (Address * nat) :=
  if decide (length msg < 1)%nat
  then Fail (malformedDatagramf "address type byte missing") else
  typ ← index msg 0;
  let off := 1%nat in
  let finish (addr : list byte) (off : nat) : res (Address * nat) :=
    if decide (length (drop off msg) < 2)%nat
    then Fail (malformedDatagramf "address port missing") else
    port ← slice msg off (off + 2);
    Ret (MkAddress typ addr (be_get port), (off + 2)%nat) in
  if decide (typ = AtypIPv4) then
    if decide (length (drop off msg) < 4 + 2)%nat
    then Fail (malformedDatagramf "ipv4 address too short") else
    finish (take 4 (drop off msg)) (off + 4)%nat
  else if decide (typ = AtypIPv6) then
    if decide (length (drop off msg) < 16 + 2)%nat
    then Fail (malformedDatagramf "ipv6 address too short") else
    finish (take 16 (drop off msg)) (off + 16)%nat
  else if decide (typ = AtypDomainName) then
    if decide (length (drop off msg) < 1)%nat
    then Fail (malformedDatagramf "domain length byte missing") else
    lenByte ← index msg off;
    let addrLen := Z.to_nat (b2z lenByte) in
    if decide (length (drop off msg) < 1 + addrLen + 2)%nat
    then Fail (malformedDatagramf "domain address too short") else
    dom ← slice msg (off + 1) (off + 1 + addrLen);
    finish (z2b (Z.of_nat addrLen) :: dom) (off + (1 + addrLen))%nat
  else if decide (typ = AtypNone) then Ret (MkAddress typ [] 0, off)
  else Fail (malformedDatagramf "unknown address type: %#x").

Definition readPacketFromMessage (msg : list byte) : res Packet :=
  let fixedLen := (2 + 2 + 2 + 1 + 1 + 2)%nat in
  if decide (length msg < fixedLen)%nat
  then Fail (malformedDatagramf "packet too short: %d bytes") else
  typ ← index msg 1;
  if decide (typ <> PacketType) then Fail (malformedDatagramf "not a packet command: %s") else
  ver ← index msg 0;
  assoc ← slice msg 2 4;
  pkt ← slice msg 4 6;
  fragTotal ← index msg 6;
  fragId ← index msg 7;
  size ← slice msg 8 10;
  let size := be_get size in
  let off := 10%nat in
  body ← slice_from msg off;
  '(addr, n) ← readAddressFromSlice body;
  let off := (off + n)%nat in
  '(data, owner) ←
    (if decide (size > 0) then
       rest ← slice_from msg off;
       if decide (Z.of_nat (length rest) < size)
       then Fail (malformedDatagramf "data truncated: need %d have %d") else
       data ← slice msg off (off + Z.to_nat size);
       Ret (data, true)
     else Ret ([], false));
  Ret (MkPacket (MkHead ver PacketType) (be_get assoc) (be_get pkt) fragTotal fragId
         size (Some addr) data owner).

Definition readAddressFromStream (r : stream) : res (Address * stream) :=
  '(tb, r) ← ReadFull 1 r;
  typ ← index tb 0;
  let fixed (n : nat) (r : stream) : res (Address * stream) :=
    '(rest, r) ← ReadFull (n + 2) r;
    a ← slice rest 0 n;
    p ← slice_from rest n;
    Ret (MkAddress typ a (be_get p), r) in
  if decide (typ = AtypIPv4) then fixed 4%nat r
  else if decide (typ = AtypIPv6) then fixed 16%nat r
  else if decide (typ = AtypDomainName) then
    '(lb, r) ← ReadFull 1 r;
    lenByte ← index lb 0;
    let addrLen := Z.to_nat (b2z lenByte) in
    '(rest, r) ← ReadFull (addrLen + 2) r;
    dom ← slice rest 0 addrLen;
    p ← slice_from rest addrLen;
    Ret (MkAddress typ (lenByte :: dom) (be_get p), r)
  else if decide (typ = AtypNone) then Ret (MkAddress typ [] 0, r)
  else Fail (Errorf "tuic: unknown address type: %#x").

Definition readPacketFromStream (r : stream) : res (Packet * stream) :=
  '(hd, r) ← ReadFull 10 r;
  typ ← index hd 1;
  if decide (typ <> PacketType) then Fail (Errorf "tuic: not a packet command: %s") else
  assoc ← slice hd 2 4;
  pkt ← slice hd 4 6;
  fragTotal ← index hd 6;
  fragId ← index hd 7;
  size ← slice hd 8 10;
  let size := be_get size in
  '(addr, r) ← readAddressFromStream r;
  '(data, owner, r) ←
    (if decide (size > 0) then
       '(data, r) ← ReadFull (Z.to_nat size) r; Ret (data, true, r)
     else Ret ([], false, r));
  ver ← index hd 0;
  Ret (MkPacket (MkHead ver PacketType) (be_get assoc) (be_get pkt) fragTotal fragId
         size (Some addr) data owner, r).

(** * net and netip views of an address *)

Definition Address_UDPAddr (c : Address) : UDPAddr := MkUDPAddr (ADDR c) (PORT c).

Definition Address_UDPAddrPort (c : Address) : AddrPort :=
  let '(addr, ok) := AddrFromSlice (ADDR c) in
  if ok then MkAddrPort addr (PORT c) else UDPAddr_AddrPort (Address_UDPAddr c).

(** [NewAddressAddrPort]: 4-in-6 addresses are unmapped first. *)
Definition NewAddressAddrPort (ap : AddrPort) : Address :=
  let port := ap_port ap in
  let addr := Unmap (ap_addr ap) in
  MkAddress (if Is4 addr then AtypIPv4 else AtypIPv6) (AsSlice addr) port.

(** * Wire specification *)

Definition Address_enc (a : Address) : list byte :=
  if decide (aTYPE a = AtypNone) then [aTYPE a]
  else aTYPE a :: ADDR a ++ be16 (PORT a).

(** An address a TUIC peer can put on the wire. *)
Definition addr_ok (a : Address) : Prop :=
  0 <= PORT a < 65536 /\
  if decide (aTYPE a = AtypIPv4) then length (ADDR a) = 4%nat
  else if decide (aTYPE a = AtypIPv6) then length (ADDR a) = 16%nat
  else if decide (aTYPE a = AtypDomainName) then
    match ADDR a with [] => False | n :: dom => b2z n = Z.of_nat (length dom) end
  else aTYPE a = AtypNone /\ ADDR a = [] /\ PORT a = 0.

Definition Packet_enc (p : Packet) : list byte :=
  VER (pk_head p) :: TYPE (pk_head p) :: be16 (ASSOC_ID p) ++ be16 (PKT_ID p) ++
  FRAG_TOTAL p :: FRAG_ID p :: be16 (SIZE p) ++
  match pk_ADDR p with Some a => Address_enc a | None => [] end ++ DATA p.

(** A packet as the parsers produce it: SIZE is the payload length and a
    non-empty payload owns a pool buffer. *)
Definition packet_ok (p : Packet) : Prop :=
  TYPE (pk_head p) = PacketType /\
  0 <= ASSOC_ID p < 65536 /\ 0 <= PKT_ID p < 65536 /\
  SIZE p = Z.of_nat (length (DATA p)) /\ SIZE p < 65536 /\
  (match pk_ADDR p with Some a => addr_ok a | None => False end) /\
  dataOwner p = bool_decide (DATA p <> []).

Lemma length_Address_enc a : length (Address_enc a) = Address_BytesLen a.
Proof. unfold Address_enc, Address_BytesLen. case_decide; len. Qed.

Lemma length_Packet_enc p a :
  pk_ADDR p = Some a ->
  length (Packet_enc p) = (10 + Address_BytesLen a + length (DATA p))%nat.
Proof. intros H. unfold Packet_enc. rewrite H. pose proof (length_Address_enc a). len. Qed.

Lemma Packet_BytesLen_enc p a :
  pk_ADDR p = Some a -> Packet_BytesLen p = Ret (length (Packet_enc p)).
Proof.
  intros H. rewrite (length_Packet_enc p a H). unfold Packet_BytesLen. by rewrite H.
Qed.

(** ** The in-place serializers store exactly the wire form *)

Lemma CommandHead_WriteToBytes_spec c done rest n :
  n = length done -> (2 <= length rest)%nat ->
  CommandHead_WriteToBytes c (done ++ rest) n =
    Ret ((done ++ [VER c; TYPE c]) ++ drop 2 rest, 2%nat).
Proof.
  intros -> H. unfold CommandHead_WriteToBytes.
  rewrite set_at_app by (done || lia). rewrite bind_ret.
  rewrite set_at_app by len. by rewrite bind_ret, drop_drop, <- !app_assoc.
Qed.

Lemma Address_WriteToBytes_spec a done rest n :
  n = length done -> (Address_BytesLen a <= length rest)%nat ->
  Address_WriteToBytes a (done ++ rest) n =
    Ret ((done ++ Address_enc a) ++ drop (Address_BytesLen a) rest, Address_BytesLen a).
Proof.
  unfold Address_WriteToBytes, Address_BytesLen, Address_enc. intros -> H.
  rewrite set_at_app by (done || (case_decide; lia)). rewrite bind_ret.
  case_decide; [done|].
  rewrite copy_at_app by len. rewrite bind_ret.
  rewrite write_at_app by len. rewrite bind_ret. list_eq.
Qed.

Lemma Packet_WriteToBytes_spec p a done rest n :
  pk_ADDR p = Some a -> n = length done ->
  (length (Packet_enc p) <= length rest)%nat ->
  Packet_WriteToBytes p (done ++ rest) n =
    Ret (done ++ Packet_enc p ++ drop (length (Packet_enc p)) rest, length (Packet_enc p)).
Proof.
  intros Ha -> H. rewrite (length_Packet_enc p a Ha) in *.
  pose proof (length_Address_enc a) as Hl.
  unfold Packet_WriteToBytes, Packet_enc. rewrite Ha.
  rewrite CommandHead_WriteToBytes_spec by len. rewrite bind_ret.
  rewrite write_at_app by len. rewrite bind_ret.
  rewrite write_at_app by len. rewrite bind_ret.
  rewrite set_at_app by len. rewrite bind_ret.
  rewrite set_at_app by len. rewrite bind_ret.
  rewrite write_at_app by len. rewrite bind_ret. simpl deref. rewrite bind_ret.
  rewrite Address_WriteToBytes_spec by len. rewrite bind_ret.
  rewrite copy_at_app by len. rewrite bind_ret. list_eq.
Qed.

(** ** The parsers invert the serializers *)

Lemma readAddressFromSlice_enc a rest :
  addr_ok a -> readAddressFromSlice (Address_enc a ++ rest) = Ret (a, Address_BytesLen a).
Proof.
  destruct a as [t ad pt]. unfold addr_ok, readAddressFromSlice, Address_enc, Address_BytesLen.
  simpl aTYPE; simpl ADDR; simpl PORT. intros [Hp H].
  destruct (be16_shape pt Hp) as (p1 & p2 & Ep & Eg). rewrite Ep.
  destruct (decide (t = AtypNone)) as [->|Hn].
  { cbn in H |- *. by destruct H as (_ & -> & ->). }
  list_norm. rewrite decide_False by (simpl; lia). rewrite index_0, bind_ret. simpl drop.
  destruct (decide (t = AtypIPv4)) as [->|H4];
  [|destruct (decide (t = AtypIPv6)) as [->|H6];
   [|destruct (decide (t = AtypDomainName)) as [->|Hd]; [|by destruct H]]].
  - do 4 (destruct ad as [|? ad]; [done|]); destruct ad; [|done]. go_run. by rewrite Eg.
  - do 16 (destruct ad as [|? ad]; [done|]); destruct ad; [|done]. go_run. by rewrite Eg.
  - destruct ad as [|n dom]; [done|]. list_norm. go_run. rewrite H, Nat2Z.id. go_run.
    rewrite Eg, <- H, z2b_b2z. done.
Qed.

Lemma readPacketFromMessage_enc p rest :
  packet_ok p -> readPacketFromMessage (Packet_enc p ++ rest) = Ret p.
Proof.
  destruct p as [[ver typ] assoc pkt tot fid size [a|] data own];
    intros H; unfold packet_ok in H; simpl in H;
    destruct H as (-> & Ha & Hp & -> & Hs & Hok & ->); [|done].
  unfold Packet_enc; cbn [pk_head VER TYPE ASSOC_ID PKT_ID FRAG_TOTAL FRAG_ID SIZE pk_ADDR DATA].
  destruct (be16_shape assoc Ha) as (a1 & a2 & -> & Eassoc).
  destruct (be16_shape pkt Hp) as (k1 & k2 & -> & Epkt).
  destruct (be16_shape (Z.of_nat (length data)) ltac:(lia)) as (s1 & s2 & -> & Esz).
  list_norm. unfold readPacketFromMessage. go_run. rewrite Eassoc, Epkt, Esz.
  rewrite readAddressFromSlice_enc by done. go_run. rewrite <- length_Address_enc.
  destruct data as [|d data].
  - by rewrite decide_False by (simpl; lia).
  - rewrite decide_True by (simpl length; lia).
    rewrite slice_from_eq by go_arith. rewrite bind_ret.
    rewrite Nat2Z.id. rewrite decide_False by (simpl drop; rewrite drop_app_length; go_arith).
    rewrite slice_eq by go_arith. rewrite bind_ret. simpl drop.
    rewrite drop_app_length.
    replace (_ - _)%nat with (length (d :: data)) by (simpl; lia).
    simpl. by rewrite take_app_length.
Qed.

Lemma readAddressFromStream_enc a rest :
  addr_ok a -> readAddressFromStream (Address_enc a ++ rest) = Ret (a, rest).
Proof.
  destruct a as [t ad pt]. unfold addr_ok, readAddressFromStream, Address_enc.
  simpl aTYPE; simpl ADDR; simpl PORT. intros [Hp H].
  destruct (be16_shape pt Hp) as (p1 & p2 & Ep & Eg). rewrite Ep.
  destruct (decide (t = AtypNone)) as [->|Hn].
  { cbn in H |- *. by destruct H as (_ & -> & ->). }
  list_norm. rewrite ReadFull_1. go_run.
  destruct (decide (t = AtypIPv4)) as [->|H4];
  [|destruct (decide (t = AtypIPv6)) as [->|H6];
   [|destruct (decide (t = AtypDomainName)) as [->|Hd]; [|by destruct H]]].
  - do 4 (destruct ad as [|? ad]; [done|]); destruct ad; [|done].
    unfold ReadFull. go_run. by rewrite Eg.
  - do 16 (destruct ad as [|? ad]; [done|]); destruct ad; [|done].
    unfold ReadFull. go_run. by rewrite Eg.
  - destruct ad as [|n dom]; [done|]. list_norm.
    rewrite ReadFull_1. go_run. rewrite H, Nat2Z.id.
    change (dom ++ p1 :: p2 :: rest) with (dom ++ [p1; p2] ++ rest).
    rewrite app_assoc, ReadFull_app by len. rewrite bind_ret.
    rewrite slice_prefix, bind_ret, slice_from_app, bind_ret by done. by rewrite Eg.
Qed.

Lemma readPacketFromStream_enc p rest :
  packet_ok p -> readPacketFromStream (Packet_enc p ++ rest) = Ret (p, rest).
Proof.
  destruct p as [[ver typ] assoc pkt tot fid size [a|] data own];
    intros H; unfold packet_ok in H; simpl in H;
    destruct H as (-> & Ha & Hp & -> & Hs & Hok & ->); [|done].
  unfold Packet_enc; cbn [pk_head VER TYPE ASSOC_ID PKT_ID FRAG_TOTAL FRAG_ID SIZE pk_ADDR DATA].
  destruct (be16_shape assoc Ha) as (a1 & a2 & -> & Eassoc).
  destruct (be16_shape pkt Hp) as (k1 & k2 & -> & Epkt).
  destruct (be16_shape (Z.of_nat (length data)) ltac:(lia)) as (s1 & s2 & -> & Esz).
  unfold readPacketFromStream. list_norm.
  rewrite ReadFull_eq by go_arith. go_run.
  rewrite Eassoc, Epkt, Esz, readAddressFromStream_enc by done. go_run.
  destruct data as [|d data].
  - by rewrite decide_False by (simpl; lia).
  - rewrite decide_True by (simpl length; lia).
    rewrite ReadFull_app by (by rewrite Nat2Z.id). done.
Qed.

(** ** Arbitrary input: no panic, every rejection is the malformed-datagram
    sentinel, and what is accepted is the canonical encoding of the result *)

Definition malformed (e : error) : Prop := exists m, e = malformedDatagramf m.

Lemma readAddressFromSlice_spec msg :
  match readAddressFromSlice msg with
  | Ret (a, n) => addr_ok a /\ n = Address_BytesLen a /\ msg = Address_enc a ++ drop n msg
  | Fail e => malformed e
  | Panic => False
  end.
Proof.
  unfold malformed, readAddressFromSlice. destruct msg as [|t msg]; [go_run; eauto|].
  rewrite decide_False by go_arith. rewrite index_0, bind_ret. simpl drop.
  destruct (decide (t = AtypIPv4)) as [->|H4];
  [|destruct (decide (t = AtypIPv6)) as [->|H6];
   [|destruct (decide (t = AtypDomainName)) as [->|Hd];
     [|destruct (decide (t = AtypNone)) as [->|]; [done|eauto]]]];
  (case_decide as Hl; [by eauto|]).
  - do 6 (destruct msg as [|? msg]; [simpl in Hl; lia|]). go_run.
    split; [|split; [done|]].
    + split; [apply be_get2_range|done].
    + unfold Address_enc. cbn -[be_put]. by rewrite be16_get.
  - do 18 (destruct msg as [|? msg]; [simpl in Hl; lia|]). go_run.
    split; [|split; [done|]].
    + split; [apply be_get2_range|done].
    + unfold Address_enc. cbn -[be_put]. by rewrite be16_get.
  - destruct msg as [|n msg]; [simpl in Hl; lia|]. rewrite index_S, index_0, bind_ret.
    case_decide as Hl2; [by eauto|].
    destruct (split_at2 (Z.to_nat (b2z n)) msg) as (dom & p1 & p2 & r & -> & Hn);
      [simpl in *; lia|].
    pose proof (b2z_range n). rewrite <- Hn. go_run.
    rewrite Hn, Z2Nat.id, z2b_b2z by lia. rewrite <- Hn.
    split; [|split; [done|]].
    + split; [apply be_get2_range|]. simpl. lia.
    + unfold Address_enc. rewrite decide_False by done. cbn -[be_put]. rewrite be16_get.
      list_norm. by rewrite drop_app_add'.
Qed.

Lemma readPacketFromMessage_spec msg :
  match readPacketFromMessage msg with
  | Ret p => packet_ok p /\ exists rest, msg = Packet_enc p ++ rest
  | Fail e => malformed e
  | Panic => False
  end.
Proof.
  unfold readPacketFromMessage. case_decide as Hl; [eexists; done|].
  do 10 (destruct msg as [|? msg]; [simpl in Hl; lia|]).
  rewrite index_1, bind_ret. case_decide as Ht; [eexists; done|].
  subst b0. go_run.
  pose proof (readAddressFromSlice_spec msg) as Ha.
  destruct (readAddressFromSlice msg) as [[a n]| |]; [|done..].
  destruct Ha as (Hok & -> & Hmsg). rewrite bind_ret. simpl plus.
  pose proof (be_get2_range b1 b2). pose proof (be_get2_range b3 b4).
  pose proof (be_get2_range b7 b8).
  rewrite <- length_Address_enc in *.
  set (r := drop (length (Address_enc a)) msg) in *. clearbody r. subst msg.
  case_decide as Hs.
  - rewrite slice_from_eq by go_arith. rewrite bind_ret. simpl drop.
    rewrite drop_app_length. case_decide as Hlen; [eexists; done|].
    rewrite slice_eq by go_arith. go_run.
    assert (length (take (Z.to_nat (be_get [b7; b8])) r) = Z.to_nat (be_get [b7; b8])) as Htk
      by (rewrite length_take; lia).
    split.
    + unfold packet_ok; split_and!; simpl; try lia; try done.
      rewrite bool_decide_true; [done|]. intros E. rewrite E in Htk. simpl in Htk. lia.
    + exists (drop (Z.to_nat (be_get [b7; b8])) r). unfold Packet_enc. cbn -[be_put].
      rewrite !be16_get. list_norm. by rewrite take_drop.
  - rewrite bind_ret. split.
    + unfold packet_ok; split_and!; simpl; try lia; done.
    + exists r. unfold Packet_enc. cbn -[be_put]. rewrite !be16_get. by list_norm.
Qed.

Lemma readAddressFromStream_spec r :
  match readAddressFromStream r with
  | Ret (a, rest) => addr_ok a /\ r = Address_enc a ++ rest
  | Fail _ => True
  | Panic => False
  end.
Proof.
  unfold readAddressFromStream. destruct r as [|t r]; [done|].
  rewrite ReadFull_1. go_run.
  destruct (decide (t = AtypIPv4)) as [->|H4];
  [|destruct (decide (t = AtypIPv6)) as [->|H6];
   [|destruct (decide (t = AtypDomainName)) as [->|Hd];
     [|destruct (decide (t = AtypNone)) as [->|]; [|done]]]].
  - destruct (ReadFull 6 r) as [[a r']|e|] eqn:E; [|done|by unfold ReadFull in E; go_cases].
    apply ReadFull_Ret in E as [-> Hl]. do 6 (destruct a as [|? a]; [done|]).
    destruct a; [|done]. go_run. split; [split; [apply be_get2_range|done]|].
    unfold Address_enc. cbn -[be_put]. by rewrite be16_get.
  - destruct (ReadFull 18 r) as [[a r']|e|] eqn:E; [|done|by unfold ReadFull in E; go_cases].
    apply ReadFull_Ret in E as [-> Hl]. do 18 (destruct a as [|? a]; [done|]).
    destruct a; [|done]. go_run. split; [split; [apply be_get2_range|done]|].
    unfold Address_enc. cbn -[be_put]. by rewrite be16_get.
  - destruct r as [|n r]; [done|]. rewrite ReadFull_1. go_run.
    destruct (ReadFull (Z.to_nat (b2z n) + 2) r) as [[a r']|e|] eqn:E;
      [|done|by unfold ReadFull in E; go_cases].
    apply ReadFull_Ret in E as [-> Hl].
    destruct (split_at2 (Z.to_nat (b2z n)) a) as (dom & p1 & p2 & tl & -> & Hn); [lia|].
    assert (tl = []) as -> by (apply nil_length_inv; len).
    pose proof (b2z_range n). rewrite <- Hn, bind_ret.
    rewrite slice_prefix, bind_ret, slice_from_app, bind_ret by done.
    split; [split; [apply be_get2_range|simpl; lia]|].
    unfold Address_enc. rewrite decide_False by done. cbn -[be_put]. rewrite be16_get.
    by list_norm.
  - done.
Qed.

Lemma ReadFull_no_panic n r : ReadFull n r <> Panic.
Proof. unfold ReadFull. go_cases; done. Qed.

Lemma readPacketFromStream_spec r :
  match readPacketFromStream r with
  | Ret (p, rest) => packet_ok p /\ r = Packet_enc p ++ rest
  | Fail _ => True
  | Panic => False
  end.
Proof.
  unfold readPacketFromStream.
  destruct (ReadFull 10 r) as [[h r']|e|] eqn:E; [|done|by apply ReadFull_no_panic in E].
  apply ReadFull_Ret in E as [-> Hl]. do 10 (destruct h as [|? h]; [done|]).
  destruct h; [|done]. rewrite bind_ret, index_1, bind_ret. case_decide as Ht; [done|].
  subst b0. go_run.
  pose proof (readAddressFromStream_spec r') as Ha.
  destruct (readAddressFromStream r') as [[a r'']|e|]; [|done..].
  destruct Ha as [Hok ->]. rewrite bind_ret.
  pose proof (be_get2_range b1 b2). pose proof (be_get2_range b3 b4).
  pose proof (be_get2_range b7 b8).
  case_decide as Hs.
  - destruct (ReadFull (Z.to_nat (be_get [b7; b8])) r'') as [[d r]|e|] eqn:E;
      [|done|by apply ReadFull_no_panic in E].
    apply ReadFull_Ret in E as [-> Hd]. go_run. split.
    + unfold packet_ok; split_and!; simpl; try lia; try done.
      rewrite bool_decide_true; [done|]. intros ->. simpl in Hd. lia.
    + unfold Packet_enc. cbn -[be_put]. rewrite !be16_get. by list_norm.
  - rewrite bind_ret. split.
    + unfold packet_ok; split_and!; simpl; try lia; done.
    + unfold Packet_enc. cbn -[be_put]. rewrite !be16_get. by list_norm.
Qed.

#[export] Program Instance Address_wire : WireFormat Address := {|
  wire_ok := addr_ok; wire_enc := Address_enc; wire_dec := readAddressFromStream |}.
Next Obligation. intros. by apply readAddressFromStream_enc. Qed.
Next Obligation. intros a _. unfold Address_enc. by case_decide. Qed.

#[export] Program Instance Packet_wire : WireFormat Packet := {|
  wire_ok := packet_ok; wire_enc := Packet_enc; wire_dec := readPacketFromStream |}.
Next Obligation. intros. by apply readPacketFromStream_enc. Qed.
Next Obligation. done. Qed.

(** * Properties *)

(** A sample packet used by the witnesses. *)
Definition sample_packet : Packet :=
  MkPacket (MkHead x05 PacketType) 7 513 x01 x00 3
    (Some (MkAddress AtypDomainName [x03; x61; x2e; x62] 443)) [x68; x69; x21] true.

(** Serializing a well-formed TUIC packet into a large enough buffer never
    panics, stores exactly BytesLen bytes, and both the datagram parser and the
    stream parser read the packet back, whatever bytes follow. *)
Theorem packet_roundtrip p buf rest :
  packet_ok p -> (length (Packet_enc p) <= length buf)%nat ->
  exists b n, Packet_WriteToBytes p buf 0 = Ret (b, n) /\ Packet_BytesLen p = Ret n /\
    length b = length buf /\ drop n b = drop n buf /\
    readPacketFromMessage (take n b ++ rest) = Ret p /\
    readPacketFromStream (take n b ++ rest) = Ret (p, rest).
Proof.
  intros Hok Hl. destruct (pk_ADDR p) as [a|] eqn:Ea;
    [|unfold packet_ok in Hok; rewrite Ea in Hok; tauto].
  pose proof (Packet_WriteToBytes_spec p a [] buf 0 Ea eq_refl Hl) as W.
  rewrite !app_nil_l in W. eexists _, _. split; [exact W|].
  split_and!.
  - by apply (Packet_BytesLen_enc p a).
  - rewrite length_app, length_drop. lia.
  - by rewrite drop_app_length.
  - rewrite take_app_length. by apply readPacketFromMessage_enc.
  - rewrite take_app_length. by apply readPacketFromStream_enc.
Qed.

Lemma packet_roundtrip_witness :
  exists b n, Packet_WriteToBytes sample_packet (replicate 40 xff) 0 = Ret (b, n) /\
    Packet_BytesLen sample_packet = Ret n /\ length b = 40%nat /\
    drop n b = drop n (replicate 40 xff) /\
    readPacketFromMessage (take n b ++ [x00]) = Ret sample_packet /\
    readPacketFromStream (take n b ++ [x00]) = Ret (sample_packet, [x00]).
Proof.
  apply (packet_roundtrip sample_packet (replicate 40 xff) [x00]).
  - unfold packet_ok, addr_ok; simpl; repeat split; vm_compute; congruence.
  - vm_compute. lia.
Defined.

(** The datagram parser is total on arbitrary peer bytes: it never panics,
    every rejection is the malformed-datagram sentinel (so one bad datagram is
    never mistaken for a broken connection), and whatever it accepts is the
    canonical encoding of the packet it returns, so the accepted bytes are
    determined by the result. *)
Theorem readPacketFromMessage_total msg :
  (exists p rest, readPacketFromMessage msg = Ret p /\ packet_ok p /\
     msg = Packet_enc p ++ rest) \/
  (exists m, readPacketFromMessage msg = Fail (malformedDatagramf m)).
Proof.
  pose proof (readPacketFromMessage_spec msg) as H.
  destruct (readPacketFromMessage msg) as [p|e|]; [left|right|done].
  - destruct H as (? & rest & ?). eauto.
  - destruct H as [m ->]. eauto.
Qed.

(** The allocation-free datagram parser and the incremental stream parser
    accept exactly the same inputs and return the same packet. *)
Theorem message_stream_parsers_agree msg p :
  readPacketFromMessage msg = Ret p <-> exists rest, readPacketFromStream msg = Ret (p, rest).
Proof.
  split.
  - intros E. pose proof (readPacketFromMessage_spec msg) as H. rewrite E in H.
    destruct H as (Hok & rest & ->). exists rest. by apply readPacketFromStream_enc.
  - intros [rest E]. pose proof (readPacketFromStream_spec msg) as H. rewrite E in H.
    destruct H as (Hok & ->). by apply readPacketFromMessage_enc.
Qed.

(** [Packet.WriteTo] behaves the same on both kinds of writer: the in-place
    path over an extended pool buffer appends exactly the wire form whatever
    recycled bytes the buffer held, and the scratch path hands the same bytes to
    the writer in one Write. *)
Theorem Packet_WriteTo_paths_agree p contents junk w :
  pk_ADDR p <> None -> (forall n, length (junk n) = n) ->
  Packet_WriteTo_ext p contents junk = Ret (contents ++ Packet_enc p) /\
  Packet_WriteTo p w = Write (Packet_enc p) w.
Proof.
  intros Ha Hj. destruct (pk_ADDR p) as [a|] eqn:Ea; [|done].
  pose proof (Packet_BytesLen_enc p a Ea) as HB.
  split.
  - unfold Packet_WriteTo_ext. rewrite HB, bind_ret.
    rewrite (Packet_WriteToBytes_spec p a) by (done || rewrite Hj; lia).
    rewrite bind_ret, drop_ge, app_nil_r by (rewrite Hj; lia). done.
  - unfold Packet_WriteTo, wr_lift, mbind, wr_bind. rewrite HB.
    pose proof (Packet_WriteToBytes_spec p a [] (replicate (length (Packet_enc p)) x00) 0
                  Ea eq_refl) as W.
    rewrite length_replicate, !app_nil_l in W. rewrite W by lia.
    by rewrite slice_prefix.
Qed.

Lemma Packet_WriteTo_paths_agree_witness :
  Packet_WriteTo_ext sample_packet [x01] (fun n => replicate n xaa) =
    Ret ([x01] ++ Packet_enc sample_packet) /\
  Packet_WriteTo sample_packet (MkWriter [] (Some 5%nat)) =
    Write (Packet_enc sample_packet) (MkWriter [] (Some 5%nat)).
Proof.
  apply (Packet_WriteTo_paths_agree sample_packet [x01] (fun n => replicate n xaa)).
  - simpl. congruence.
  - intros n. apply length_replicate.
Defined.

(** Decision procedure for the long-domain case of [ReadAddress]. *)
Definition long_domain (a : Address) : bool :=
  bool_decide (aTYPE a = AtypDomainName /\ length (ADDR a) = 256%nat).

(** The reader-based [ReadAddress] (used by the Connect and Packet readers)
    returns every encodable address, except in two cases its siblings in
    packet_parse.go handle: an AtypNone address comes back as a nil pointer with
    a nil error, and a 255-byte domain panics, because the buffer size
    [addrLen+1] is computed in byte arithmetic and wraps to zero. *)
Theorem ReadAddress_enc a rest :
  addr_ok a ->
  ReadAddress (Address_enc a ++ rest) =
    if decide (aTYPE a = AtypNone) then Ret (None, rest)
    else if long_domain a then Panic
    else Ret (Some a, rest).
Proof.
  destruct a as [t ad pt]. unfold addr_ok, ReadAddress, Address_enc, long_domain.
  simpl aTYPE; simpl ADDR; simpl PORT. intros [Hp H].
  destruct (be16_shape pt Hp) as (p1 & p2 & Ep & Eg). rewrite Ep.
  destruct (decide (t = AtypNone)) as [->|Hn]; [done|].
  list_norm. simpl ReadByte. rewrite bind_ret. unfold ReadUint16.
  destruct (decide (t = AtypIPv4)) as [->|H4];
  [|destruct (decide (t = AtypIPv6)) as [->|H6];
   [|destruct (decide (t = AtypDomainName)) as [->|Hd]; [|by destruct H]]].
  - do 4 (destruct ad as [|? ad]; [done|]); destruct ad; [|done].
    rewrite ReadFull_eq by go_arith. go_run. rewrite ReadFull_eq by go_arith. go_run.
    by rewrite Eg.
  - do 16 (destruct ad as [|? ad]; [done|]); destruct ad; [|done].
    rewrite ReadFull_eq by go_arith. go_run. rewrite ReadFull_eq by go_arith. go_run.
    by rewrite Eg.
  - destruct ad as [|n dom]; [done|]. list_norm. simpl ReadByte. rewrite bind_ret.
    rewrite b2z_z2b. pose proof (b2z_range n).
    destruct (decide (length dom = 255%nat)) as [E|E].
    + rewrite bool_decide_true by (split; [done|simpl; lia]).
      assert (b2z n = 255) as -> by lia. done.
    + rewrite bool_decide_false by (intros [_ ?]; simpl in *; lia).
      rewrite Z.mod_small by lia.
      replace (Z.to_nat (b2z n + 1)) with (S (length dom)) by lia.
      unfold set_at. rewrite decide_True by go_arith. rewrite bind_ret.
      rewrite length_insert, length_replicate, Nat.sub_succ, Nat.sub_0_r.
      rewrite ReadFull_app by done. go_run.
      rewrite ReadFull_eq by go_arith. go_run. by rewrite Eg.
Qed.

Lemma ReadAddress_enc_witness :
  ReadAddress (Address_enc (MkAddress AtypDomainName (xff :: replicate 255 x61) 53) ++ []) = Panic.
Proof.
  rewrite (ReadAddress_enc (MkAddress AtypDomainName (xff :: replicate 255 x61) 53)).
  - vm_compute. reflexivity.
  - unfold addr_ok; simpl; repeat split; vm_compute; congruence.
Defined.

(** ** Command writers *)

Lemma CommandHead_writes c : writes (CommandHead_WriteTo c) [VER c; TYPE c].
Proof. apply (writes_bind _ _ [_] [_]); auto with go. Qed.

Lemma Address_writes a : writes (Address_WriteTo a) (Address_enc a).
Proof.
  unfold Address_WriteTo, Address_enc.
  case_decide; [apply (writes_bind _ _ [_] [])|apply (writes_bind _ _ [_])]; auto with go.
Qed.
#[export] Hint Resolve CommandHead_writes Address_writes : go.

Lemma Authenticate_writes c :
  writes (Authenticate_WriteTo c) ([VER (au_head c); TYPE (au_head c)] ++ UUID c ++ TOKEN c).
Proof. unfold Authenticate_WriteTo. auto with go. Qed.

Lemma Connect_writes c a :
  cn_ADDR c = Some a ->
  writes (Connect_WriteTo c) ([VER (cn_head c); TYPE (cn_head c)] ++ Address_enc a).
Proof.
  intros H. unfold Connect_WriteTo. rewrite H. apply writes_bind; [auto with go|].
  intros w. apply Address_writes.
Qed.

Lemma Dissociate_writes c :
  writes (Dissociate_WriteTo c) ([VER (ds_head c); TYPE (ds_head c)] ++ be16 (ds_ASSOC_ID c)).
Proof. unfold Dissociate_WriteTo. auto with go. Qed.

(** Every command writer delivers exactly its wire form to the writer (one
    atomic outcome: all the bytes, or a prefix of them and an error), and
    BytesLen announces that length for Authenticate and Connect; for Dissociate
    it announces two bytes more than are ever written. *)
Theorem command_writers uuid token assoc ver a w :
  length uuid = 16%nat -> length token = 32%nat ->
  let au := NewAuthenticate uuid token ver in
  let cn := NewConnect (Some a) ver in
  let ds := NewDissociate assoc ver in
  let au_bytes := ver :: AuthenticateType :: uuid ++ token in
  let cn_bytes := ver :: ConnectType :: Address_enc a in
  let ds_bytes := ver :: DissociateType :: be16 assoc in
  Authenticate_WriteTo au w = Write au_bytes w /\
  Connect_WriteTo cn w = Write cn_bytes w /\
  Dissociate_WriteTo ds w = Write ds_bytes w /\
  Authenticate_BytesLen au = length au_bytes /\
  Connect_BytesLen cn = Ret (length cn_bytes) /\
  Dissociate_BytesLen ds = (length ds_bytes + 2)%nat.
Proof.
  intros Hu Ht. cbv zeta. split_and!.
  - apply Authenticate_writes.
  - by apply Connect_writes.
  - apply Dissociate_writes.
  - simpl. by rewrite length_app, Hu, Ht.
  - cbn [length]. by rewrite length_Address_enc.
  - done.
Qed.

Lemma command_writers_witness :
  Dissociate_BytesLen (NewDissociate 9 x05) =
    (length (x05 :: DissociateType :: be16 9) + 2)%nat.
Proof.
  apply (command_writers (replicate 16 x00) (replicate 32 x00) 9 x05
           (MkAddress AtypNone [] 0) (MkWriter [] None)); reflexivity.
Defined.

(** A domain-typed address whose name has 3 or 15 bytes is turned into a
    valid IP endpoint by [UDPAddrPort] (its length byte is taken as part of the
    IP), every other domain yields an invalid endpoint, as documented. *)
Theorem UDPAddrPort_domain (dom : list byte) (port : Z) :
  let a := MkAddress AtypDomainName (z2b (Z.of_nat (length dom)) :: dom) port in
  AddrPort_IsValid (Address_UDPAddrPort a) = true <->
  length dom = 3%nat \/ length dom = 15%nat.
Proof.
  unfold Address_UDPAddrPort, UDPAddr_AddrPort, AddrFromSlice, AddrPort_IsValid; simpl.
  repeat case_decide; simpl; rewrite ?bool_decide_eq_true; naive_solver lia.
Qed.
