(* ===== verification/TuicFrag.v ===== *)
(** TUIC UDP fragmentation and reassembly: [fragmentPackets], [deFragger]
    (protocol/tuic/frag.go) and the per-packet-id [deFraggerBucket]
    (protocol/tuic/packet.go).

    Packets are shared by pointer, so a received packet is a pair of its
    address (a [nat] identity, compared where the code compares pointers) and
    its contents. Handing a payload back to the buffer pool is an effect: each
    operation returns the identities whose pool-backed DATA it released. *)

From S2P Require Import Prelude NetIP TuicProtocol Reassembly.

(** * fragmentPackets *)

(** uint8(x) and uint16(x) conversions. *)
Definition uint16 (z : Z) : Z := z mod 65536.

(** One fragment: a copy of the packet with its own address, id, size, data. *)
Definition fragment (p : Packet) (addr : option Address) (fid : Z) (data : list byte) : Packet :=
  MkPacket (pk_head p) (ASSOC_ID p) (PKT_ID p) (FRAG_TOTAL p) (z2b fid)
    (uint16 (Z.of_nat (length data))) addr data (dataOwner p).

(** The loop over [off]; every round consumes at least one byte, so
    [length fullPayload] rounds are enough. *)
Fixpoint frag_loop (fuel : nat) (p : Packet) (fragSize : nat) (full : list byte)
    (off : nat) (frags : list Packet) : res (list Packet) :=
  if decide (off < length full)%nat then
    match fuel with
    | O => Panic
    | S fuel =>
        let payloadSize := Nat.min (length full - off) fragSize in
        fragAddr ←
          (if decide (off = 0)%nat then Ret (pk_ADDR p)
           else a ← deref (pk_ADDR p); Ret (Some (MkAddress AtypNone (ADDR a) (PORT a))));
        data ← slice full off (off + payloadSize);
        frag_loop fuel p fragSize full (off + payloadSize)
          (frags ++ [fragment p fragAddr (Z.of_nat (length frags)) data])
    end
  else Ret frags.

(** Returns the updated packet (FRAG_TOTAL is assigned in place) and the
    fragments. [fragSize] is an int. *)
Definition fragmentPackets (p : Packet) (fragSize : Z) : res (Packet * list Packet) :=
  if decide (fragSize <= 0) then Fail (Errorf "tuic: invalid fragment payload size %d") else
  let full := DATA p in
  let fragCount := (Z.of_nat (length full) + fragSize - 1) / fragSize in
  if decide (fragCount > 255)
  then Fail (Errorf "tuic: payload needs %d fragments, protocol limit is 255") else
  let p := MkPacket (pk_head p) (ASSOC_ID p) (PKT_ID p) (z2b fragCount) (FRAG_ID p)
             (SIZE p) (pk_ADDR p) (DATA p) (dataOwner p) in
  frags ← frag_loop (length full) p (Z.to_nat fragSize) full 0 [];
  Ret (p, frags).

(** [fragWriteNative]: each fragment is serialized and handed to
    [quicConn.SendDatagram], a parameter. *)
Section send.
Context (SendDatagram : list byte -> option error).

Fixpoint send_frags (frags : list Packet) (sent : list (list byte))
    : list (list byte) * res unit :=
  match frags with
  | [] => (sent, Ret tt)
  | f :: frags =>
      match Packet_WriteTo_ext f [] (fun n => replicate n x00) with
      | Ret data =>
          match SendDatagram data with
          | Some e => (sent, Fail e)
          | None => send_frags frags (sent ++ [data])
          end
      | Fail e => (sent, Fail e)
      | Panic => (sent, Panic)
      end
  end.

Definition fragWriteNative (p : Packet) (fragSize : Z) : list (list byte) * res unit :=
  match fragmentPackets p fragSize with
  | Ret (_, frags) => send_frags frags []
  | Fail e => ([], Fail e)
  | Panic => ([], Panic)
  end.
End send.

(** * deFragger *)

(** A packet pointer: identity and contents. *)
Abbreviation ptr := (nat * Packet)%type.

Record deFragger := MkDeFragger {
  pkgID : Z;
  frags : list (option ptr);
  count : Z;                   (* uint8 *)
  totalLen : nat;
  firstAddrPort : AddrPort;
  hasFirstFrag : bool;
  lastUpdateNano : Z }.

(** [touch]: a zero argument means "now"; [clock] is time.Now().UnixNano(). *)
Definition touch (clock nowNano : Z) (d : deFragger) : deFragger :=
  MkDeFragger (pkgID d) (frags d) (count d) (totalLen d) (firstAddrPort d) (hasFirstFrag d)
    (if decide (nowNano = 0) then clock else nowNano).

Definition newDeFragger (clock nowNano : Z) : deFragger :=
  touch clock nowNano (MkDeFragger 0 [] 0 0 AddrPortZero false 0).

Definition IsExpired (d : deFragger) (nowNano ttl : Z) : bool :=
  if decide (ttl <= 0) then false
  else bool_decide (lastUpdateNano d > 0 /\ nowNano - lastUpdateNano d >= ttl).

(** [releaseData]: a no-op without an ownership token. *)
Definition releaseData (m : ptr) : list nat := if dataOwner m.2 then [m.1] else [].

Definition held (fs : list (option ptr)) : list ptr := omap id fs.

(** [release]: drops every held fragment; pkgID, the first address and the
    slot count survive. *)
Definition deFragger_release (d : deFragger) : deFragger * list nat :=
  (MkDeFragger (pkgID d) (replicate (length (frags d)) None) 0 0
     (firstAddrPort d) (hasFirstFrag d) (lastUpdateNano d),
   held (frags d) ≫= releaseData).

Definition packetFragmentAddrPort (p : option ptr) : AddrPort :=
  match p with
  | None => AddrPortZero
  | Some (_, p) =>
      match pk_ADDR p with
      | None => AddrPortZero
      | Some a =>
          if decide (aTYPE a = AtypNone) then AddrPortZero
          else UDPAddr_AddrPort (Address_UDPAddr a)
      end
  end.

Definition slot (fs : list (option ptr)) (i : byte) : res (option ptr) :=
  index fs (Z.to_nat (b2z i)).

Definition matches (d : deFragger) (packet : option ptr) : res bool :=
  match packet with
  | None => Ret false
  | Some m =>
      let p := m.2 in
      if decide (b2z (FRAG_TOTAL p) <= 1) then Ret false
      else if decide (count d = 0) then Ret (bool_decide (b2z (FRAG_ID p) < b2z (FRAG_TOTAL p)))
      else if decide (pkgID d <> PKT_ID p \/ Z.of_nat (length (frags d)) <> b2z (FRAG_TOTAL p))
      then Ret false
      else if decide (b2z (FRAG_ID p) >= b2z (FRAG_TOTAL p)) then Ret false
      else if decide (FRAG_ID p = x00) then
        if negb (hasFirstFrag d) then Ret true
        else let ap := packetFragmentAddrPort packet in
             Ret (AddrPort_IsValid ap && bool_decide (firstAddrPort d = ap))
      else s ← slot (frags d) (FRAG_ID p); Ret (bool_decide (s = None))
  end.

Definition assembledLen (d : deFragger) : nat * bool :=
  (totalLen d, bool_decide (count d = Z.of_nat (length (frags d))) && hasFirstFrag d).

(** What a Feed does: new state, released identities, the caller's buffer and
    the three results. *)
Record fed := MkFed {
  f_d : deFragger; f_released : list nat; f_buf : list byte;
  f_n : nat; f_addr : AddrPort; f_assembled : bool }.

(** [for _, frag := range d.frags { n += copy(p[n:], frag.DATA) }] *)
Fixpoint copy_frags (fs : list (option ptr)) (p : list byte) (n : nat) : res (list byte * nat) :=
  match fs with
  | [] => Ret (p, n)
  | f :: fs =>
      m ← deref f;
      '(p, k) ← copy_at p n (DATA m.2);
      copy_frags fs p (n + k)
  end.

(** The state a new message starts from. *)
Definition start_message (d : deFragger) (m : Packet) : deFragger :=
  MkDeFragger (PKT_ID m) (replicate (Z.to_nat (b2z (FRAG_TOTAL m))) None) 0 0
    AddrPortZero false (lastUpdateNano d).

(** The tail of [Feed]: assemble into [p] when everything is there and fits. *)
Definition finish (d : deFragger) (rel : list nat) (p : list byte) : res fed :=
  if decide (count d = Z.of_nat (length (frags d)) /\ hasFirstFrag d = true /\
             (totalLen d <= length p)%nat) then
    '(p, n) ← copy_frags (frags d) p 0;
    let '(d', rel') := deFragger_release d in
    Ret (MkFed d' (rel ++ rel') p n (firstAddrPort d) true)
  else Ret (MkFed d rel p 0 AddrPortZero false).

Definition Feed (clock : Z) (d : deFragger) (m : option ptr) (p : list byte) (nowNano : Z)
    : res fed :=
  let d := touch clock nowNano d in
  let quit d := Ret (MkFed d [] p 0 AddrPortZero false) in
  match m with
  | None => quit d
  | Some mp =>
      let m := mp.2 in
      if decide (b2z (FRAG_TOTAL m) <= 1) then
        '(p, n) ← copy_at p 0 (DATA m);
        a ← deref (pk_ADDR m);
        Ret (MkFed d [] p n (UDPAddr_AddrPort (Address_UDPAddr a)) true)
      else if decide (b2z (FRAG_ID m) >= b2z (FRAG_TOTAL m)) then quit d
      else
        let d := if decide (count d = 0) then start_message d m else d in
        if decide (Z.of_nat (length (frags d)) <> b2z (FRAG_TOTAL m)) then quit d
        else
          let addr := packetFragmentAddrPort (Some mp) in
          let d :=
            if decide (FRAG_ID m = x00) then
              if AddrPort_IsValid addr then
                MkDeFragger (pkgID d) (frags d) (count d) (totalLen d) addr true (lastUpdateNano d)
              else d
            else d in
          s ← slot (frags d) (FRAG_ID m);
          let '(d, rel) :=
            match s with
            | None =>
                (MkDeFragger (pkgID d) (<[Z.to_nat (b2z (FRAG_ID m)) := Some mp]> (frags d))
                   ((count d + 1) mod 256) (totalLen d + length (DATA m))
                   (firstAddrPort d) (hasFirstFrag d) (lastUpdateNano d), [])
            | Some h => (d, if decide (h.1 <> mp.1) then releaseData mp else [])
            end in
          finish d rel p
  end.

(** * deFraggerBucket *)

(** [b.deFraggers]: only results of [newDeFragger] are stored, so no entry is
    nil. *)
Abbreviation bucket := (list deFragger).

(** [b[i] = b[last]; b = b[:last]] *)
Definition swap_remove {A} (i : nat) (l : list A) : list A :=
  match last l with
  | None => l
  | Some x => take (length l - 1) (<[i := x]> l)
  end.

Definition bucket_removeAt (i : Z) (b : bucket) : bucket * list nat :=
  if decide (i < 0 \/ Z.of_nat (length b) <= i) then (b, [])
  else match b !! Z.to_nat i with
       | None => (b, [])
       | Some d => (swap_remove (Z.to_nat i) b, snd (deFragger_release d))
       end.

Definition bucket_release (b : bucket) : bucket * list nat :=
  ([], b ≫= fun d => snd (deFragger_release d)).

Definition deFraggerIdleTimeout : Z := 30 * 1000000000.

Definition bucket_pruneExpired (nowNano : Z) (b : bucket) : bucket * list nat :=
  let dead d := IsExpired d nowNano deFraggerIdleTimeout in
  (filter (fun d => dead d = false) b,
   filter (fun d => dead d = true) b ≫= fun d => snd (deFragger_release d)).

(** Indices of the deFraggers that match the packet, in order. *)
Fixpoint candidates_from (i : nat) (b : bucket) (m : option ptr) : res (list nat) :=
  match b with
  | [] => Ret []
  | d :: b =>
      ok ← matches d m;
      r ← candidates_from (S i) b m;
      Ret (if (ok : bool) then i :: r else r)
  end.

(** First candidate index whose deFragger satisfies [P]. *)
Definition select (b : bucket) (P : deFragger -> bool) (cands : list nat) : option nat :=
  head (filter (fun i => from_option P false (b !! i) = true) cands).

(** What a bucket feed does and returns. *)
Record bfed := MkBFed {
  bf_b : bucket; bf_released : list nat; bf_buf : list byte;
  bf_n : nat; bf_addr : AddrPort; bf_assembled : bool; bf_len : nat }.

(** [feed(nil, p, now)]: deliver the first complete message that fits in [p]. *)
Fixpoint feed_ready (clock : Z) (i : nat) (todo : bucket) (b : bucket) (p : list byte) (now : Z)
    : res bfed :=
  match todo with
  | [] => Ret (MkBFed b [] p 0 AddrPortZero false 0)
  | d :: todo =>
      let '(size, ready) := assembledLen d in
      if decide (ready = true /\ (size <= length p)%nat) then
        f ← Feed clock d (head (held (frags d))) p now;
        let b := <[i := f_d f]> b in
        Ret (MkBFed (if f_assembled f then swap_remove i b else b)
               (f_released f) (f_buf f) (f_n f) (f_addr f) (f_assembled f) size)
      else feed_ready clock (S i) todo b p now
  end.

(** The routing decision of [feed]: the bucket (possibly with a fresh deFragger
    appended) and the index to feed, or [None] to drop the packet. *)
Definition route (clock now : Z) (b : bucket) (m : ptr) (cands : list nat)
    : bucket * option nat :=
  let fresh := (b ++ [newDeFragger clock now], Some (length b)) in
  match cands with
  | [] => fresh
  | [i] => (b, Some i)
  | _ =>
      if decide (FRAG_ID m.2 = x00) then
        let ap := packetFragmentAddrPort (Some m) in
        match select b (fun d => hasFirstFrag d && bool_decide (firstAddrPort d = ap)) cands with
        | Some i => (b, Some i)
        | None =>
            match select b (fun d => negb (hasFirstFrag d)) cands with
            | Some i => (b, Some i)
            | None => fresh
            end
        end
      else
        match filter (fun i => from_option hasFirstFrag false (b !! i) = true) cands with
        | [i] => (b, Some i)
        | _ => (b, None)
        end
  end.

Definition bucket_feed (clock : Z) (b : bucket) (packet : option ptr) (p : list byte) (now : Z)
    : res bfed :=
  match packet with
  | None => feed_ready clock 0 b b p now
  | Some m =>
      let drop_packet b := Ret (MkBFed b (releaseData m) p 0 AddrPortZero false 0) in
      if decide (b2z (FRAG_TOTAL m.2) <= 1 \/ b2z (FRAG_ID m.2) >= b2z (FRAG_TOTAL m.2))
      then drop_packet b
      else
        cands ← candidates_from 0 b packet;
        let '(b, sel) := route clock now b m cands in
        match sel with
        | None => drop_packet b
        | Some i =>
            d ← index b i;
            let '(size, ready) := assembledLen d in
            if decide (ready = true /\ (length p < size)%nat)
            then Ret (MkBFed b [] p 0 AddrPortZero false size)
            else
              f ← Feed clock d packet p now;
              let b := <[i := f_d f]> b in
              if f_assembled f then
                Ret (MkBFed (swap_remove i b) (f_released f) (f_buf f) (f_n f) (f_addr f) true size)
              else
                let '(size, ready) := assembledLen (f_d f) in
                Ret (MkBFed b (f_released f) (f_buf f) 0 AddrPortZero false
                       (if ready then size else 0%nat))
        end
  end.

(** A receiver feeding packets one after the other, each with its arrival time,
    offering the same buffer. *)
Fixpoint feed_seq (clock : Z) (b : bucket) (ms : list (ptr * Z)) (buf : list byte)
    : res (list bfed) :=
  match ms with
  | [] => Ret []
  | (m, t) :: ms =>
      f ← bucket_feed clock b (Some m) buf t;
      r ← feed_seq clock (bf_b f) ms buf;
      Ret (f :: r)
  end.

(** * Fragmentation *)

Definition frag_addr (a : Address) (i : nat) : option Address :=
  Some (if decide (i = 0%nat) then a else MkAddress AtypNone (ADDR a) (PORT a)).

Definition nth_frag (p : Packet) (a : Address) (i : nat) (c : list byte) : Packet :=
  fragment p (frag_addr a i) (Z.of_nat i) c.

Lemma frag_loop_spec p a k fuel : (0 < k)%nat -> pk_ADDR p = Some a ->
  forall pre rest acc,
  (length rest <= fuel)%nat -> (length pre = 0 <-> length acc = 0)%nat ->
  frag_loop fuel p k (pre ++ rest) (length pre) acc =
    Ret (acc ++ imap (fun i c => nth_frag p a (length acc + i) c) (chunks k rest)).
Proof.
  intros Hk Ha. induction fuel as [|fuel IH]; intros pre rest acc Hf Hacc.
  - destruct rest; [|simpl in Hf; lia]. simpl.
    rewrite decide_False by (autorewrite with lens; simpl; lia). by rewrite app_nil_r.
  - simpl. rewrite length_app.
    destruct rest as [|x rest'] eqn:Er.
    { rewrite decide_False by (simpl; lia). simpl. by rewrite app_nil_r. }
    rewrite <- Er in *. assert (rest <> []) as Hne by (by subst).
    assert (0 < length rest)%nat by (subst; simpl; lia).
    rewrite decide_True by lia.
    replace (length pre + length rest - length pre)%nat with (length rest) by lia.
    assert ((if decide (length pre = 0%nat) then Ret (pk_ADDR p)
             else a0 ← deref (pk_ADDR p); Ret (Some (MkAddress AtypNone (ADDR a0) (PORT a0))))
            = Ret (frag_addr a (length acc))) as ->.
    { unfold frag_addr. rewrite Ha.
      destruct (decide (length pre = 0%nat)); [rewrite decide_True by tauto; done|].
      rewrite decide_False by tauto. done. }
    rewrite bind_ret, slice_eq by (rewrite ?length_app; lia).
    rewrite bind_ret, add_sub_cancel, drop_app_length.
    replace (take _ rest) with (take k rest)
      by (destruct (decide (length rest <= k)%nat); [rewrite Nat.min_l, !take_ge by lia; done
         |by rewrite Nat.min_r by lia]).
    replace (length pre + _)%nat with (length (pre ++ take k rest))
      by (rewrite length_app, length_take; lia).
    rewrite <- (take_drop k rest) at 1. rewrite app_assoc.
    rewrite IH.
    + rewrite (chunks_cons k rest) by done. rewrite imap_cons, <- app_assoc. simpl.
      do 2 f_equal. rewrite Nat.add_0_r. f_equal. apply imap_ext. intros i c _. simpl.
      unfold nth_frag. do 2 f_equal; rewrite ?length_app; simpl; lia.
    + rewrite length_drop. lia.
    + rewrite !length_app, length_take. simpl. lia.
Qed.

(** The packet with FRAG_TOTAL assigned. *)
Definition set_total (p : Packet) (n : Z) : Packet :=
  MkPacket (pk_head p) (ASSOC_ID p) (PKT_ID p) (z2b n) (FRAG_ID p)
    (SIZE p) (pk_ADDR p) (DATA p) (dataOwner p).

Definition all_frags (p : Packet) (a : Address) (k : nat) : list Packet :=
  let cs := chunks k (DATA p) in
  imap (nth_frag (set_total p (Z.of_nat (length cs))) a) cs.

Lemma fragmentPackets_spec p a (k : Z) :
  pk_ADDR p = Some a -> 0 < k ->
  let cs := chunks (Z.to_nat k) (DATA p) in
  fragmentPackets p k =
    if decide (255 < length cs)%nat
    then Fail (Errorf "tuic: payload needs %d fragments, protocol limit is 255")
    else Ret (set_total p (Z.of_nat (length cs)), all_frags p a (Z.to_nat k)).
Proof.
  intros Ha Hk cs. unfold fragmentPackets. rewrite decide_False by lia.
  assert ((Z.of_nat (length (DATA p)) + k - 1) / k = Z.of_nat (length cs)) as ->.
  { unfold cs. rewrite length_chunks by lia. rewrite Nat2Z.inj_div, Z2Nat.id by lia.
    f_equal. lia. }
  destruct (decide (Z.of_nat (length cs) > 255)); [by rewrite decide_True by lia|].
  rewrite decide_False by lia. fold (set_total p (Z.of_nat (length cs))).
  pose proof (frag_loop_spec (set_total p (Z.of_nat (length cs))) a (Z.to_nat k)
                (length (DATA p)) ltac:(lia) Ha [] (DATA p) [] ltac:(lia) ltac:(done)) as E.
  rewrite app_nil_l in E. change (length []) with 0%nat in E. rewrite E.
  done.
Qed.

(** * Reassembly in any order *)

Lemma held_all (ms : list ptr) : held (Some <$> ms) = ms.
Proof. induction ms as [|m ms IH]; [done|]. rewrite fmap_cons. cbn. f_equal. exact IH. Qed.

Lemma copy_frags_spec (ms : list ptr) done rest :
  (length (concat ((fun m => DATA m.2) <$> ms)) <= length rest)%nat ->
  copy_frags (Some <$> ms) (done ++ rest) (length done) =
    let data := concat ((fun m => DATA m.2) <$> ms) in
    Ret (done ++ data ++ drop (length data) rest, (length done + length data)%nat).
Proof.
  revert done rest. induction ms as [|m ms IH]; intros done rest H.
  - cbn. by rewrite drop_0, Nat.add_0_r.
  - rewrite !fmap_cons in *. cbn [concat copy_frags] in *. rewrite length_app in *.
    change (deref (Some m)) with (Ret m). rewrite bind_ret.
    rewrite copy_at_app by (done || lia). rewrite bind_ret, <- length_app.
    rewrite IH by (rewrite length_drop; lia). list_eq.
Qed.

Section reassembly.
(** The fragments of one packet as received, in index order. *)
Context (fs : list ptr) (pid : Z) (ap : AddrPort).
Hypothesis Hn : (2 <= length fs <= 255)%nat.
Hypothesis Hfs : forall i m, fs !! i = Some m ->
  FRAG_TOTAL m.2 = z2b (Z.of_nat (length fs)) /\ FRAG_ID m.2 = z2b (Z.of_nat i) /\
  PKT_ID m.2 = pid.
Hypothesis Hfirst : forall m, fs !! 0%nat = Some m -> packetFragmentAddrPort (Some m) = ap.
Hypothesis Hvalid : AddrPort_IsValid ap = true.

Definition tot : list nat -> nat := weight (fun m => length (DATA m.2)) fs.
Definition payload : list byte := concat ((fun m => DATA m.2) <$> fs).

(** The state after the fragments [ix] arrived, last at time [t]. *)
Definition d_of (ix : list nat) (t : Z) : deFragger :=
  MkDeFragger pid (table fs ix) (Z.of_nat (length ix)) (tot ix)
    (if decide (0%nat ∈ ix) then ap else AddrPortZero) (bool_decide (0%nat ∈ ix)) t.

(** [d] has received exactly [ix] of this packet. *)
Definition has (ix : list nat) (d : deFragger) : Prop :=
  match ix with [] => count d = 0 | _ => exists t, d = d_of ix t end.

(** Effect of one more fragment. *)
Definition fed_of (ix : list nat) (t : Z) (buf : list byte) : fed :=
  if decide (length ix = length fs /\ (length payload <= length buf)%nat) then
    let '(d, rel) := deFragger_release (d_of ix t) in
    MkFed d rel (payload ++ drop (length payload) buf) (length payload) ap true
  else MkFed (d_of ix t) [] buf 0 AddrPortZero false.

(** A first fragment re-initialises the state, a later one only touches it. *)
Lemma open_message d ix j m clock now :
  has ix d -> fs !! j = Some m ->
  (if decide (count (touch clock now d) = 0) then start_message (touch clock now d) m.2
   else touch clock now d) = d_of ix (if decide (now = 0) then clock else now).
Proof.
  intros Hd Hj. destruct (Hfs j m Hj) as (Ht & _ & Hp). destruct ix as [|i ix].
  - simpl in Hd. rewrite decide_True by done. unfold start_message, d_of.
    rewrite Ht, b2z_z2b_small, Nat2Z.id, Hp, table_nil by lia. done.
  - destruct Hd as [t ->]. rewrite decide_False by (simpl; lia). done.
Qed.

(** Only fragment 0 installs the address. *)
Lemma first_address ix j m t :
  fs !! j = Some m -> NoDup (j :: ix) ->
  (if decide (FRAG_ID m.2 = x00) then
     if AddrPort_IsValid (packetFragmentAddrPort (Some m)) then
       MkDeFragger (pkgID (d_of ix t)) (frags (d_of ix t)) (count (d_of ix t))
         (totalLen (d_of ix t)) (packetFragmentAddrPort (Some m)) true
         (lastUpdateNano (d_of ix t))
     else d_of ix t
   else d_of ix t) =
  MkDeFragger pid (table fs ix) (Z.of_nat (length ix)) (tot ix)
    (if decide (0%nat ∈ j :: ix) then ap else AddrPortZero) (bool_decide (0%nat ∈ j :: ix)) t.
Proof.
  intros Hj [Hni _]%NoDup_cons. destruct (Hfs j m Hj) as (_ & Hid & _).
  assert (j < length fs)%nat as Hjn by (by eapply lookup_lt_Some).
  destruct (decide (j = 0%nat)) as [->|Hj0].
  - rewrite decide_True by done. rewrite (Hfirst m Hj), Hvalid.
    rewrite decide_True, bool_decide_true by set_solver. done.
  - rewrite decide_False.
    + unfold d_of. destruct (decide (0%nat ∈ ix)).
      * rewrite decide_True, !bool_decide_true by set_solver. done.
      * rewrite decide_False, !bool_decide_false by set_solver. done.
    + intros E. apply Hj0. rewrite E in Hid.
      apply (f_equal b2z) in Hid. rewrite b2z_z2b_small in Hid by lia.
      change (b2z x00) with 0 in Hid. lia.
Qed.

Lemma Feed_next d ix j m buf clock now :
  has ix d -> NoDup (j :: ix) -> Forall (fun i => i < length fs)%nat (j :: ix) ->
  fs !! j = Some m ->
  Feed clock d (Some m) buf now =
    Ret (fed_of (j :: ix) (if decide (now = 0) then clock else now) buf).
Proof.
  intros Hd Hnd Hlt Hj. destruct (Hfs j m Hj) as (Ht & Hid & Hp).
  assert (j < length fs)%nat as Hjn by (by eapply lookup_lt_Some).
  assert (b2z (FRAG_TOTAL m.2) = Z.of_nat (length fs)) as Ht'
    by (rewrite Ht; apply b2z_z2b_small; lia).
  assert (b2z (FRAG_ID m.2) = Z.of_nat j) as Hid'
    by (rewrite Hid; apply b2z_z2b_small; lia).
  set (t := if decide (now = 0) then clock else now).
  unfold Feed. fold t.
  rewrite decide_False by lia. rewrite decide_False by lia.
  assert ((if decide (count (touch clock now d) = 0) then start_message (touch clock now d) m.2
           else touch clock now d) = d_of ix t) as ->.
  { by apply (open_message d ix j m). }
  assert (length (frags (d_of ix t)) = length fs) as -> by apply length_table.
  rewrite decide_False by lia.
  rewrite (first_address ix j m t) by done.
  cbn [frags]. unfold slot, index. rewrite Hid', Nat2Z.id, (table_lookup _ _ _ _ Hj).
  apply NoDup_cons in Hnd as [Hni Hnd]. rewrite (decide_False (P := j ∈ ix)) by done. rewrite bind_ret.
  cbn [pkgID frags count totalLen firstAddrPort hasFirstFrag lastUpdateNano].
  rewrite (table_insert _ _ _ _ Hj). unfold finish.
  cbn [count frags hasFirstFrag totalLen firstAddrPort]. rewrite length_table.
  pose proof (indices_length (j :: ix) _ ltac:(by apply NoDup_cons) Hlt) as Hle.
  replace ((Z.of_nat (length ix) + 1) mod 256) with (Z.of_nat (length (j :: ix)))
    by (rewrite Z.mod_small; simpl in *; lia).
  replace (tot ix + length (DATA m.2))%nat with (tot (j :: ix))
    by (unfold tot, weight; simpl; rewrite Hj; simpl; lia).
  fold (d_of (j :: ix) t). unfold fed_of.
  destruct (decide (length (j :: ix) = length fs)) as [Hfull|Hpart].
  - pose proof (all_indices (j :: ix) _ ltac:(by apply NoDup_cons) Hlt Hfull) as Hperm.
    assert (0%nat ∈ j :: ix) as H0 by (rewrite Hperm; apply elem_of_seq; lia).
    assert (tot (j :: ix) = length payload) as Htot by (by apply weight_full).
    rewrite bool_decide_true by done. rewrite Htot.
    destruct (decide (length payload <= length buf)%nat) as [Hb|Hb].
    + rewrite !decide_True by (split_and!; lia || done).
      rewrite table_full by (intros i Hi; rewrite Hperm; apply elem_of_seq; lia).
      pose proof (copy_frags_spec fs [] buf Hb) as Hc. rewrite !app_nil_l in Hc.
      change (length []) with 0%nat in Hc. rewrite Hc, bind_ret. fold payload.
      unfold d_of. rewrite decide_True by done. rewrite bool_decide_true by done.
      rewrite table_full by (intros i Hi; rewrite Hperm; apply elem_of_seq; lia).
      rewrite (decide_True (P := length (j :: ix) = length fs /\ _)) by (split; lia). done.
    + rewrite !decide_False by (intros (? & ? & ?) || intros [? ?]; lia).
      unfold d_of. rewrite bool_decide_true by done. by rewrite Htot.
  - rewrite !decide_False by (intros (? & ?); lia). done.
Qed.

(** A partly filled deFragger of this packet claims every missing fragment. *)
Lemma matches_next d i ix j m :
  has (i :: ix) d -> fs !! j = Some m -> j ∉ i :: ix -> matches d (Some m) = Ret true.
Proof.
  intros [t ->] Hj Hni. destruct (Hfs j m Hj) as (Ht & Hid & Hp).
  assert (j < length fs)%nat as Hjn by (by eapply lookup_lt_Some).
  unfold matches. rewrite Ht, Hid. rewrite !b2z_z2b_small by lia.
  rewrite decide_False by lia. rewrite decide_False by (simpl; lia).
  rewrite decide_False by (simpl; rewrite length_table, Hp; lia).
  rewrite decide_False by lia.
  destruct (decide (j = 0%nat)) as [->|Hj0].
  - rewrite decide_True by done. cbn [d_of hasFirstFrag].
    by rewrite bool_decide_false by done.
  - rewrite decide_False.
    + unfold slot, index. rewrite b2z_z2b_small, Nat2Z.id by lia.
      cbn [d_of frags]. rewrite (table_lookup _ _ _ _ Hj), decide_False by done.
      rewrite bind_ret. by rewrite bool_decide_true by done.
    + intros E. apply (f_equal b2z) in E. rewrite b2z_z2b_small in E by lia.
      change (b2z x00) with 0 in E. lia.
Qed.

(** The bucket holding exactly the fragments [ix] of this packet. *)
Definition bucket_has (ix : list nat) (b : bucket) : Prop :=
  match ix with [] => b = [] | _ => exists d, b = [d] /\ has ix d end.

Lemma bucket_feed_next clock b ix j m buf now :
  bucket_has ix b -> NoDup (j :: ix) -> Forall (fun i => i < length fs)%nat (j :: ix) ->
  fs !! j = Some m ->
  let f := fed_of (j :: ix) (if decide (now = 0) then clock else now) buf in
  exists len, bucket_feed clock b (Some m) buf now =
    Ret (MkBFed (if f_assembled f then [] else [f_d f]) (f_released f) (f_buf f)
           (f_n f) (f_addr f) (f_assembled f) len).
Proof.
  intros Hb Hnd Hlt Hj f. destruct (Hfs j m Hj) as (Ht & Hid & Hp).
  assert (j < length fs)%nat as Hjn by (by eapply lookup_lt_Some).
  unfold bucket_feed. rewrite decide_False
    by (rewrite Ht, Hid, !b2z_z2b_small by lia; lia).
  assert (exists d, has ix d /\ (count d < Z.of_nat (length (frags d)) \/ hasFirstFrag d = false) /\
    (cands ← candidates_from 0 b (Some m);
     Ret (route clock now b m cands)) = Ret ([d], Some 0%nat)) as (d & Hd & Hnr & Hr).
  { destruct ix as [|i ix]; simpl in Hb.
    - subst b. exists (newDeFragger clock now). split_and!; [done|by right|done].
    - destruct Hb as (d & -> & Hd). exists d. split; [done|]. split.
      + destruct Hd as [t ->]. simpl. rewrite length_table. left.
        pose proof (indices_length _ _ Hnd Hlt). simpl in *. lia.
      + cbn [candidates_from]. rewrite (matches_next d i ix j m) by
          (done || by apply NoDup_cons in Hnd as [? _]). done. }
  destruct (candidates_from 0 b (Some m)) as [cands| |]; [|done..].
  assert (route clock now b m cands = ([d], Some 0%nat)) as E by (by injection Hr).
  rewrite bind_ret, E, index_0, bind_ret.
  assert (snd (assembledLen d) = false) as Hready.
  { unfold assembledLen. simpl. destruct Hnr as [Hc| ->]; [|apply andb_false_r].
    rewrite bool_decide_false by lia. done. }
  destruct (assembledLen d) as [size ready]. simpl in Hready. subst ready.
  rewrite decide_False by naive_solver.
  rewrite (Feed_next d ix j m) by done. rewrite bind_ret. fold f.
  destruct (f_assembled f) eqn:Ef; [eexists; done|].
  assert (f_n f = 0%nat /\ f_addr f = AddrPortZero) as [En Ea].
  { subst f. unfold fed_of in *. case_decide; [|done].
    by destruct (deFragger_release _). }
  rewrite En, Ea. destruct (assembledLen (f_d f)). eexists. done.
Qed.

(** The outcome of the last feed of a complete set. *)
Definition delivered (buf : list byte) (f : bfed) : Prop :=
  bf_assembled f = true /\ bf_b f = [] /\ bf_n f = length payload /\ bf_addr f = ap /\
  bf_buf f = payload ++ drop (length payload) buf /\ bf_released f = fs ≫= releaseData.

Lemma feed_seq_all clock buf (arr : list (nat * Z)) : (length payload <= length buf)%nat ->
  forall ix b ms, arr <> [] -> bucket_has ix b ->
  NoDup (arr.*1 ++ ix) -> Forall (fun i => i < length fs)%nat (arr.*1 ++ ix) ->
  (length arr + length ix = length fs)%nat ->
  Forall2 (fun a m => fs !! a.1 = Some m.1 /\ a.2 = m.2) arr ms ->
  exists pre l, feed_seq clock b ms buf = Ret (pre ++ [l]) /\
    Forall (fun f => bf_assembled f = false /\ bf_released f = []) pre /\ delivered buf l.
Proof.
  intros Hbuf. induction arr as [|[j t] arr IH]; intros ix b ms Hne Hb Hnd Hlt Hlen Hms; [done|].
  apply Forall2_cons_inv_l in Hms as ([m t'] & ms' & [Hj Et] & Hms & ->). simpl in Et. subst t'.
  simpl in Hnd, Hlt, Hlen.
  apply NoDup_cons in Hnd as [Hni Hnd]. apply Forall_cons in Hlt as [Hjn Hlt].
  pose proof Hnd as (_ & _ & Hndix)%NoDup_app. pose proof Hlt as [_ Hltix]%Forall_app.
  assert (NoDup (j :: ix)) as Hnd' by (apply NoDup_cons; set_solver).
  assert (Forall (fun i => i < length fs)%nat (j :: ix)) as Hlt' by (by constructor).
  destruct (bucket_feed_next clock b ix j m buf t Hb Hnd' Hlt' Hj) as [len E].
  cbn [feed_seq]. rewrite E, bind_ret. clear E. cbn [bf_b].
  destruct (decide (arr = [])) as [->|Harr].
  - apply Forall2_nil_inv_l in Hms as ->. cbn [feed_seq]. rewrite bind_ret.
    exists []. eexists. split; [done|]. split; [constructor|].
    unfold fed_of. rewrite decide_True by (simpl in *; lia).
    pose proof (all_indices (j :: ix) _ Hnd' Hlt' ltac:(simpl in *; lia)) as Hperm.
    unfold deFragger_release, delivered, d_of; cbn.
    rewrite table_full by (intros i Hi; rewrite Hperm; apply elem_of_seq; lia).
    by rewrite held_all.
  - assert (length (j :: ix) <> length fs) as Hpart
      by (destruct arr; [done|simpl in *; lia]).
    unfold fed_of. rewrite decide_False by (intros [? _]; done).
    cbn [f_assembled f_d f_released f_buf f_n f_addr].
    destruct (IH (j :: ix) [d_of (j :: ix) (if decide (t = 0) then clock else t)] ms')
      as (pre & l & E & Hpre & Hl); try done.
    + eexists; split; [done|]. by eexists.
    + rewrite <- Permutation_middle. by apply NoDup_cons.
    + apply Forall_app. apply Forall_app in Hlt. tauto.
    + simpl in *; lia.
    + rewrite E, bind_ret. eexists (_ :: pre), l. split; [done|].
      split; [by constructor|done].
Qed.
End reassembly.

(** * From the sender's packet to the receiver's datagram *)

(** What the peer parses from the [i]-th fragment. *)
Definition received (p : Packet) (a : Address) (i : nat) (c : list byte) : Packet :=
  MkPacket (pk_head p) (ASSOC_ID p) (PKT_ID p) (FRAG_TOTAL p) (z2b (Z.of_nat i))
    (Z.of_nat (length c))
    (Some (if decide (i = 0%nat) then a else MkAddress AtypNone [] 0)) c true.

(** A packet to an IP destination, as [WriteTo] builds it. *)
Definition sendable (p : Packet) (a : Address) : Prop :=
  TYPE (pk_head p) = PacketType /\ 0 <= ASSOC_ID p < 65536 /\ 0 <= PKT_ID p < 65536 /\
  pk_ADDR p = Some a /\ addr_ok a /\ (aTYPE a = AtypIPv4 \/ aTYPE a = AtypIPv6) /\
  Z.of_nat (length (DATA p)) < 65536.

Lemma nth_frag_wire p a i c :
  Z.of_nat (length c) < 65536 ->
  Packet_enc (nth_frag p a i c) = Packet_enc (received p a i c).
Proof.
  intros Hc. unfold Packet_enc, nth_frag, fragment, received, frag_addr, uint16.
  cbn [pk_head VER TYPE ASSOC_ID PKT_ID FRAG_TOTAL FRAG_ID SIZE pk_ADDR DATA].
  rewrite Z.mod_small by lia. by destruct (decide (i = 0%nat)).
Qed.

Lemma received_ok p a i c n :
  sendable p a -> (0 < length c)%nat -> Z.of_nat (length c) < 65536 ->
  packet_ok (received (set_total p n) a i c).
Proof.
  intros (Ht & Has & Hpk & _ & Ha & _) Hc Hc2. unfold packet_ok, received; cbn.
  split_and!; try done; try lia.
  - destruct (decide (i = 0%nat)); done.
  - rewrite bool_decide_true; [done|]. destruct c; simpl in *; [lia|done].
Qed.

Lemma addr_port_of_ip a :
  addr_ok a -> aTYPE a = AtypIPv4 \/ aTYPE a = AtypIPv6 ->
  UDPAddr_AddrPort (Address_UDPAddr a) = Address_UDPAddrPort a /\
  AddrPort_IsValid (Address_UDPAddrPort a) = true.
Proof.
  destruct a as [t ad pt]. unfold addr_ok; cbn. intros [Hp H] Ht.
  assert (length ad = 4%nat \/ length ad = 16%nat) as Hl.
  { destruct Ht as [-> | ->]; cbn in H; auto. }
  unfold UDPAddr_AddrPort, Address_UDPAddrPort, AddrFromSlice, AddrPort_IsValid; cbn.
  rewrite Z.mod_small by lia.
  destruct Hl as [Hl|Hl]; rewrite Hl; simpl; done.
Qed.

(** The fragments as received, pointer [rx i] holding the [i]-th. *)
Lemma received_frags p a (k : Z) (rx : nat -> ptr) :
  sendable p a -> 0 < k ->
  let cs := chunks (Z.to_nat k) (DATA p) in
  let p' := set_total p (Z.of_nat (length cs)) in
  (forall i f, all_frags p a (Z.to_nat k) !! i = Some f ->
     readPacketFromMessage (Packet_enc f) = Ret (rx i).2) ->
  forall i c, cs !! i = Some c -> (rx i).2 = received p' a i c.
Proof.
  intros Hs Hk cs p' Hrx i c Hi.
  pose proof (chunks_bounds (Z.to_nat k) (DATA p) ltac:(lia)) as Hb.
  rewrite Forall_lookup in Hb. specialize (Hb i c Hi).
  assert (length c <= length (DATA p))%nat as Hle.
  { rewrite <- (chunks_concat (Z.to_nat k) (DATA p)) by lia.
    apply list_elem_of_lookup_2 in Hi. clear -Hi. unfold cs in Hi.
    induction (chunks (Z.to_nat k) (DATA p)) as [|x l IH]; [set_solver|].
    cbn [concat]. rewrite length_app. apply elem_of_cons in Hi as [->|Hi]; [lia|].
    specialize (IH Hi). lia. }
  pose proof Hs as (_ & _ & _ & _ & _ & _ & Hlen).
  assert (Z.of_nat (length c) < 65536) by lia.
  specialize (Hrx i (nth_frag p' a i c)).
  unfold all_frags in Hrx. fold cs in Hrx. rewrite list_lookup_imap, Hi in Hrx. specialize (Hrx eq_refl).
  rewrite nth_frag_wire in Hrx by done.
  rewrite <- (app_nil_r (Packet_enc _)), readPacketFromMessage_enc in Hrx; [by injection Hrx|].
  by apply received_ok; [|lia|].
Qed.

Lemma owners_all (rx : nat -> ptr) l :
  (forall m, m ∈ rx <$> l -> dataOwner m.2 = true) ->
  (rx <$> l) ≫= releaseData = (fun i => (rx i).1) <$> l.
Proof.
  induction l as [|i l IH]; intros H; [done|]. rewrite !fmap_cons, bind_cons.
  rewrite IH by (intros m Hm; apply H; rewrite fmap_cons; set_solver).
  unfold releaseData. rewrite (H (rx i)) by (rewrite fmap_cons; set_solver). done.
Qed.

(** The received fragments in index order meet the hypotheses of the
    reassembly lemmas. *)
Lemma received_set p a (k : Z) (rx : nat -> ptr) :
  sendable p a -> 0 < k ->
  (forall i f, all_frags p a (Z.to_nat k) !! i = Some f ->
     readPacketFromMessage (Packet_enc f) = Ret (rx i).2) ->
  let n := length (chunks (Z.to_nat k) (DATA p)) in
  let fs := rx <$> seq 0 n in
  length fs = n /\
  (forall i m, fs !! i = Some m ->
     FRAG_TOTAL m.2 = z2b (Z.of_nat n) /\ FRAG_ID m.2 = z2b (Z.of_nat i) /\
     PKT_ID m.2 = PKT_ID p) /\
  (forall m, fs !! 0%nat = Some m -> packetFragmentAddrPort (Some m) = Address_UDPAddrPort a) /\
  payload fs = DATA p /\
  fs ≫= releaseData = (fun i => (rx i).1) <$> seq 0 n.
Proof.
  intros Hs Hk Hrx n fs. pose proof Hs as (_ & _ & _ & _ & Ha & Hty & _).
  pose proof (received_frags p a k rx Hs Hk Hrx) as Hrec. cbv zeta in Hrec.
  set (cs := chunks (Z.to_nat k) (DATA p)) in *. fold n in Hrec.
  assert (length fs = n) as Hfl by (unfold fs; by rewrite length_fmap, length_seq).
  assert (forall i m, fs !! i = Some m -> m = rx i /\
            exists c, (rx i).2 = received (set_total p (Z.of_nat n)) a i c /\ cs !! i = Some c) as Hlk.
  { intros i m Hi. pose proof (lookup_lt_Some _ _ _ Hi) as Hlt. rewrite Hfl in Hlt.
    unfold fs in Hi. rewrite list_lookup_fmap, lookup_seq_lt in Hi by done.
    injection Hi as <-. split; [done|].
    destruct (lookup_lt_is_Some_2 cs i Hlt) as [c Hc]. exists c. auto. }
  destruct (addr_port_of_ip a Ha Hty) as [Eap Hv].
  split_and!; [done|..].
  - intros i m Hi. destruct (Hlk i m Hi) as (-> & c & E & _). by rewrite E.
  - intros m Hi. destruct (Hlk 0%nat m Hi) as (Em & c & E & _). destruct m as [r m].
    rewrite <- Em in E. simpl in E. subst m.
    unfold packetFragmentAddrPort, received. cbn [snd pk_ADDR]. rewrite (decide_True (P := 0%nat = 0%nat)) by done.
    by rewrite decide_False by (by destruct Hty as [-> | ->]).
  - unfold payload. rewrite <- (chunks_concat (Z.to_nat k) (DATA p)) by lia. fold cs. f_equal.
    apply list_eq. intros i. rewrite list_lookup_fmap.
    destruct (fs !! i) as [m|] eqn:E; simpl.
    + destruct (Hlk i m E) as (-> & c & E2 & ->). by rewrite E2.
    + apply lookup_ge_None in E. symmetry. apply lookup_ge_None. fold n. lia.
  - apply owners_all. intros m Hm. apply list_elem_of_lookup in Hm as [i Hi].
    destruct (Hlk i m Hi) as (-> & c & E & _). by rewrite E.
Qed.

(** * Properties *)

(** C13: End-to-end UDP fragmentation. Split any payload for an IP destination
    into fragments, serialize them, let the network deliver the datagrams in any
    order at any times: the receiving bucket accepts every one of them, delivers
    nothing before the last, and on the last returns exactly the original
    payload and the original address, ends up empty, and has released every
    fragment's pool buffer exactly once. *)
Theorem fragmentation_roundtrip p a (k : Z) p' frs rx (arr : list (nat * Z)) clock buf :
  sendable p a -> fragmentPackets p k = Ret (p', frs) -> (2 <= length frs)%nat ->
  (forall i f, frs !! i = Some f -> readPacketFromMessage (Packet_enc f) = Ret (rx i).2) ->
  arr.*1 ≡ₚ seq 0 (length frs) -> (length (DATA p) <= length buf)%nat ->
  exists pre l,
    feed_seq clock [] ((fun '(i, t) => (rx i, t)) <$> arr) buf = Ret (pre ++ [l]) /\
    Forall (fun f => bf_assembled f = false /\ bf_released f = []) pre /\
    bf_assembled l = true /\ bf_b l = [] /\
    bf_n l = length (DATA p) /\ bf_addr l = Address_UDPAddrPort a /\
    bf_buf l = DATA p ++ drop (length (DATA p)) buf /\
    bf_released l = (fun i => (rx i).1) <$> seq 0 (length frs).
Proof.
  intros Hs Hf H2 Hrx Harr Hbuf.
  assert (0 < k) as Hk by (unfold fragmentPackets in Hf; case_decide; [done|lia]).
  pose proof Hs as (_ & _ & _ & Hpa & Ha & Hty & _).
  pose proof (fragmentPackets_spec p a k Hpa Hk) as Hspec. cbv zeta in Hspec.
  rewrite Hspec in Hf. case_decide as Hcnt; [done|]. injection Hf as <- <-.
  destruct (received_set p a k rx Hs Hk Hrx) as (Hfl & Hfs & Hfirst & Epay & Erel).
  unfold all_frags in *. rewrite length_imap in *. set (n := length (chunks (Z.to_nat k) (DATA p))) in *.
  set (fs := rx <$> seq 0 n) in *.
  destruct (addr_port_of_ip a Ha Hty) as [_ Hv].
  destruct (feed_seq_all fs (PKT_ID p) (Address_UDPAddrPort a)
              ltac:(lia) ltac:(by rewrite Hfl) Hfirst Hv clock buf arr) with
    (ix := @nil nat) (b := @nil deFragger) (ms := (fun '(i, t) => (rx i, t)) <$> arr)
    as (pre & l & E & Hpre & H1 & H3 & H4 & H5 & H6 & H7).
  - by rewrite Epay.
  - intros ->. apply Permutation_length in Harr. rewrite length_seq in Harr. simpl in *. lia.
  - done.
  - rewrite app_nil_r, Harr. apply NoDup_seq.
  - rewrite app_nil_r, Harr, Hfl. apply Forall_seq. lia.
  - apply Permutation_length in Harr. rewrite length_fmap, length_seq in Harr. simpl. lia.
  - apply Forall2_fmap_r, Forall_Forall2_diag, Forall_forall. intros [i t] Hi. simpl.
    split; [|done]. unfold fs. rewrite list_lookup_fmap, lookup_seq_lt; [done|].
    assert (i ∈ arr.*1) as Hi' by (apply list_elem_of_fmap; by exists (i, t)).
    rewrite Harr in Hi'. apply elem_of_seq in Hi'. lia.
  - rewrite Epay in *. rewrite Erel in H7. exists pre, l. auto 10.
Qed.

(** A three-fragment sample, delivered out of order. *)
Definition sample_addr : Address := MkAddress AtypIPv4 [x0a; x00; x00; x01] 53.
Definition sample_send : Packet :=
  MkPacket (MkHead x05 PacketType) 1 9 x01 x00 5 (Some sample_addr)
    [x61; x62; x63; x64; x65] false.
Definition sample_rx (i : nat) : ptr :=
  ((100 + i)%nat,
   received (set_total sample_send 3) sample_addr i
     (default [] (chunks 2 (DATA sample_send) !! i))).

Lemma fragmentation_roundtrip_witness :
  exists pre l,
    feed_seq 1 [] ((fun '(i, t) => (sample_rx i, t)) <$> [(2%nat, 5); (0%nat, 6); (1%nat, 7)])
      (replicate 8 xee) = Ret (pre ++ [l]) /\
    Forall (fun f => bf_assembled f = false /\ bf_released f = []) pre /\
    bf_assembled l = true /\ bf_b l = [] /\ bf_n l = 5%nat /\
    bf_addr l = Address_UDPAddrPort sample_addr /\
    bf_buf l = DATA sample_send ++ drop 5 (replicate 8 xee) /\
    bf_released l = (fun i => (sample_rx i).1) <$> seq 0 3.
Proof.
  apply (fragmentation_roundtrip sample_send sample_addr 2
           (set_total sample_send 3) (all_frags sample_send sample_addr 2)
           sample_rx [(2%nat, 5); (0%nat, 6); (1%nat, 7)] 1 (replicate 8 xee)).
  - unfold sendable, addr_ok; simpl. repeat split; try (vm_compute; congruence). by left.
  - vm_compute. reflexivity.
  - vm_compute. lia.
  - intros [|[|[|i]]] f; simpl; intros E; try (injection E as <-; vm_compute; reflexivity).
    discriminate E.
  - simpl. apply (Permutation_cons_append [0%nat; 1%nat] 2%nat).
  - vm_compute. lia.
Defined.

(** * Buffer ownership *)

Definition owners (ms : list ptr) : list nat := ms ≫= releaseData.
Definition d_owners (d : deFragger) : list nat := owners (held (frags d)).

(** Well-formed deFragger: the counters describe the held fragments. *)
Definition wf (d : deFragger) : Prop :=
  count d = Z.of_nat (length (held (frags d))) /\
  totalLen d = sum_list_with (fun m => length (DATA m.2)) (held (frags d)) /\
  (length (frags d) <= 255)%nat.

Lemma held_cons_Some (m : ptr) fs : held (Some m :: fs) = m :: held fs.
Proof. done. Qed.
Lemma held_cons_None fs : held (None :: fs) = held fs.
Proof. done. Qed.

Lemma held_insert (fs : list (option ptr)) i m :
  fs !! i = Some None -> held (<[i := Some m]> fs) ≡ₚ m :: held fs.
Proof.
  revert i. induction fs as [|f fs IH]; intros [|i] H; [done..| |].
  - injection H as ->. done.
  - change (<[S i := Some m]> (f :: fs)) with (f :: <[i := Some m]> fs).
    destruct f as [x|]; rewrite ?held_cons_Some, ?held_cons_None, (IH i H);
      [apply Permutation_swap|done].
Qed.

Lemma length_held fs : (length (held fs) <= length fs)%nat.
Proof.
  induction fs as [|[?|] fs IH]; [done|..];
    rewrite ?held_cons_Some, ?held_cons_None; simpl; lia.
Qed.

Lemma held_replicate n : held (replicate n None) = [].
Proof. induction n; [done|]. exact IHn. Qed.

Lemma held_lookup fs i m : fs !! i = Some (Some m) -> m ∈ held fs.
Proof.
  intros H. apply list_elem_of_omap. exists (Some m).
  split; [by eapply list_elem_of_lookup_2|done].
Qed.

Lemma held_full fs : length (held fs) = length fs -> fs = Some <$> held fs.
Proof.
  induction fs as [|[m|] fs IH]; intros H; [done|..].
  - rewrite held_cons_Some in *. rewrite fmap_cons. f_equal. apply IH. simpl in H. lia.
  - exfalso. pose proof (length_held fs). rewrite held_cons_None in H. simpl in H. lia.
Qed.

Lemma release_wf d : (length (frags d) <= 255)%nat ->
  wf (deFragger_release d).1 /\ d_owners (deFragger_release d).1 = [] /\
  (deFragger_release d).2 = d_owners d.
Proof.
  intros H. unfold wf, d_owners, deFragger_release; cbn [fst snd frags count totalLen].
  rewrite held_replicate, length_replicate. done.
Qed.

(** The state [Feed] works on: re-initialised when nothing is held. *)
Lemma open_wf d m clock now :
  wf d -> (count d = 0 \/ Z.of_nat (length (frags d)) = b2z (FRAG_TOTAL m)) ->
  let d0 := touch clock now d in
  let d1 := if decide (count d0 = 0) then start_message d0 m else d0 in
  wf d1 /\ d_owners d1 = d_owners d /\ Z.of_nat (length (frags d1)) = b2z (FRAG_TOTAL m) /\
  (forall h, h ∈ held (frags d1) -> h ∈ held (frags d)).
Proof.
  intros (Hc & Ht & Hl) Hor. cbv zeta. pose proof (b2z_range (FRAG_TOTAL m)).
  destruct (decide (count (touch clock now d) = 0)) as [E|E]; simpl in E.
  - assert (held (frags d) = []) as Hh by (apply nil_length_inv; lia).
    unfold wf, d_owners; cbn [start_message frags count totalLen touch].
    rewrite held_replicate, length_replicate, Hh.
    split_and!; first [done|lia].
  - destruct Hor as [?|Hlen]; [done|]. split_and!; done.
Qed.

Lemma finish_ok d rel p : wf d ->
  exists f, finish d rel p = Ret f /\ wf (f_d f) /\
    (f_assembled f = true -> d_owners (f_d f) = []) /\
    f_released f ++ d_owners (f_d f) ≡ₚ rel ++ d_owners d.
Proof.
  intros Hwf. pose proof Hwf as (Hc & Ht & Hl). unfold finish.
  case_decide as Hd; [|by eexists].
  destruct Hd as (Hfull & _ & Hbuf). rewrite (held_full (frags d)) by lia.
  pose proof (copy_frags_spec (held (frags d)) [] p) as Hcp.
  rewrite !app_nil_l in Hcp. change (length []) with 0%nat in Hcp.
  rewrite Hcp by (rewrite length_concat_with; lia). rewrite bind_ret.
  destruct (release_wf d Hl) as (Hw & Ho & Hr).
  destruct (deFragger_release d) as [d' rel']. simpl in *. subst rel'.
  eexists; split; [done|]. split_and!; [done..|]. simpl. by rewrite Ho, app_nil_r.
Qed.

Lemma Feed_ok d mp buf clock now :
  wf d -> 1 < b2z (FRAG_TOTAL mp.2) -> b2z (FRAG_ID mp.2) < b2z (FRAG_TOTAL mp.2) ->
  (count d = 0 \/ Z.of_nat (length (frags d)) = b2z (FRAG_TOTAL mp.2)) ->
  (forall h, h ∈ held (frags d) -> h.1 <> mp.1) ->
  exists f, Feed clock d (Some mp) buf now = Ret f /\ wf (f_d f) /\
    (f_assembled f = true -> d_owners (f_d f) = []) /\
    f_released f ++ d_owners (f_d f) ≡ₚ releaseData mp ++ d_owners d.
Proof.
  intros Hwf Htot Hid Hor Hne. destruct (open_wf d mp.2 clock now Hwf Hor) as (Hwf1 & Hown & Hlen & Hsub).
  unfold Feed. rewrite decide_False by lia. rewrite decide_False by lia.
  set (d1 := if decide (count (touch clock now d) = 0) then _ else _) in *.
  rewrite decide_False by lia. rewrite <- Hown. clear Hown Hor Hwf.
  set (d2 := if decide (FRAG_ID mp.2 = x00) then _ else d1).
  assert (frags d2 = frags d1 /\ count d2 = count d1 /\ totalLen d2 = totalLen d1)
    as (Ef & Ec & Et) by (unfold d2; repeat case_decide || case_match; done).
  clearbody d1 d2. destruct Hwf1 as (Hc & Ht & Hl). pose proof (b2z_range (FRAG_ID mp.2)).
  destruct (lookup_lt_is_Some_2 (frags d1) (Z.to_nat (b2z (FRAG_ID mp.2)))) as [s Hs]; [lia|].
  unfold slot, index. rewrite Ef, Hs, bind_ret. destruct s as [h|].
  - rewrite decide_True by (by apply Hne, Hsub, (held_lookup _ _ _ Hs)).
    destruct (finish_ok d2 (releaseData mp) buf) as (f & E & Hw & Ha & Hp);
      [unfold wf; by rewrite Ec, Et, Ef|].
    exists f. split_and!; [done..|]. rewrite Hp. unfold d_owners. by rewrite Ef.
  - pose proof (held_insert _ _ mp Hs) as Hins.
    assert (length (held (frags d1)) < 255)%nat as Hlt.
    { pose proof (Permutation_length Hins) as Hpl.
      pose proof (length_held (<[Z.to_nat (b2z (FRAG_ID mp.2)) := Some mp]> (frags d1))).
      rewrite length_insert in *. simpl in *. lia. }
    edestruct finish_ok as (f & E & Hw & Ha & Hp);
      [|exists f; split; [exact E|split; [exact Hw|split; [exact Ha|]]]].
    + unfold wf; cbn [count frags totalLen]. rewrite Ec, Et, Hins, length_insert. simpl.
      rewrite Z.mod_small by lia. lia.
    + rewrite Hp. unfold d_owners, owners; cbn [frags]. rewrite app_nil_l, Hins, bind_cons. done.
Qed.

Definition b_owners (b : bucket) : list nat := b ≫= d_owners.

Lemma insert_perm {A} (l : list A) i x y :
  l !! i = Some x -> x :: <[i := y]> l ≡ₚ y :: l.
Proof.
  intros (l1 & l2 & -> & ->)%list_elem_of_split_length.
  rewrite insert_app_r_alt, Nat.sub_diag by done. simpl.
  rewrite <- !Permutation_middle. apply Permutation_swap.
Qed.

Lemma swap_remove_perm {A} (l : list A) i x :
  l !! i = Some x -> x :: swap_remove i l ≡ₚ l.
Proof.
  destruct l as [|y l _] using rev_ind; [done|]. unfold swap_remove. rewrite last_snoc.
  rewrite length_app, Nat.add_sub. intros [[Hi E]|[-> ->]]%lookup_snoc_Some.
  - rewrite insert_app_l, take_app_length' by (rewrite ?length_insert; done).
    rewrite (insert_perm l i x y E). apply Permutation_cons_append.
  - rewrite insert_app_r_alt, take_app_length by done. apply Permutation_cons_append.
Qed.

Lemma b_owners_perm b b' : b ≡ₚ b' -> b_owners b ≡ₚ b_owners b'.
Proof. intros H. unfold b_owners. by rewrite H. Qed.

Lemma matches_ok d m :
  exists ok, matches d (Some m) = Ret ok /\
    (ok = true -> count d = 0 \/ Z.of_nat (length (frags d)) = b2z (FRAG_TOTAL m.2)).
Proof.
  unfold matches.
  case_decide; [by eexists|]. case_decide; [by eauto|]. case_decide as Hm; [by eexists|].
  assert (Z.of_nat (length (frags d)) = b2z (FRAG_TOTAL m.2)) as Hl by lia.
  case_decide; [by eexists|]. case_decide; [by destruct (negb _); eauto|].
  unfold slot, index. pose proof (b2z_range (FRAG_ID m.2)).
  destruct (lookup_lt_is_Some_2 (frags d) (Z.to_nat (b2z (FRAG_ID m.2)))) as [s ->]; [lia|].
  rewrite bind_ret. eauto.
Qed.

Lemma candidates_ok b m k : Forall wf b ->
  exists cs, candidates_from k b (Some m) = Ret cs /\
    forall i, i ∈ cs -> exists d, (k <= i)%nat /\ b !! (i - k)%nat = Some d /\
      (count d = 0 \/ Z.of_nat (length (frags d)) = b2z (FRAG_TOTAL m.2)).
Proof.
  revert k. induction b as [|d b IH]; intros k Hb; [exists []; split; [done|set_solver]|].
  apply Forall_cons in Hb as [Hd Hb]. cbn [candidates_from].
  destruct (matches_ok d m) as (ok & -> & Hok). rewrite bind_ret.
  destruct (IH (S k) Hb) as (cs & -> & Hcs). rewrite bind_ret.
  assert (forall i, i ∈ cs -> exists d0, (k <= i)%nat /\ (d :: b) !! (i - k)%nat = Some d0 /\
    (count d0 = 0 \/ Z.of_nat (length (frags d0)) = b2z (FRAG_TOTAL m.2))) as Hin.
  { intros i Hi. destruct (Hcs i Hi) as (d0 & Hle & Hl & Hc). exists d0.
    replace (i - k)%nat with (S (i - S k)) by lia. split; [lia|done]. }
  destruct ok; eexists; split; try done.
  intros i [->|Hi]%elem_of_cons; [|by apply Hin].
  exists d. rewrite Nat.sub_diag. eauto.
Qed.

Lemma select_elem b P cs i : select b P cs = Some i -> i ∈ cs.
Proof. unfold select. intros H%head_Some_elem_of. by apply list_elem_of_filter in H as [_ H]. Qed.

Lemma route_ok clock now b m cs b' sel : route clock now b m cs = (b', sel) ->
  (sel = None /\ b' = b) \/
  exists i, sel = Some i /\
    ((b' = b /\ i ∈ cs) \/ (b' = b ++ [newDeFragger clock now] /\ i = length b)).
Proof.
  unfold route. intros H.
  destruct cs as [|i [|i' cs]]; [naive_solver|simplify_eq; set_solver|].
  case_decide.
  - destruct (select _ _ _) eqn:E1; [apply select_elem in E1; naive_solver|].
    destruct (select b _ _) eqn:E2 in H; [apply select_elem in E2; naive_solver|naive_solver].
  - destruct (filter _ _) as [|j [|]] eqn:E in H; [naive_solver| |naive_solver].
    simplify_eq. right. exists j. split; [done|]. left. split; [done|].
    assert (j ∈ [j]) as Hj by set_solver. rewrite <- E in Hj.
    by apply list_elem_of_filter in Hj as [_ Hj].
Qed.

(** Replacing one deFragger by its successor moves the same buffers. *)
Lemma replace_owners (b : bucket) i d d' rel new :
  b !! i = Some d -> rel ++ d_owners d' ≡ₚ new ++ d_owners d ->
  rel ++ b_owners (<[i := d']> b) ≡ₚ new ++ b_owners b.
Proof.
  intros Hd Hp. pose proof (insert_perm b i d d' Hd) as Hins.
  apply b_owners_perm in Hins. unfold b_owners in *. rewrite !bind_cons in Hins.
  apply (Permutation_app_inv_l (d_owners d)).
  rewrite (Permutation_app_swap_app _ rel), Hins, app_assoc, Hp.
  rewrite <- app_assoc. apply Permutation_app_swap_app.
Qed.

Lemma remove_owners (b : bucket) i d :
  b !! i = Some d -> d_owners d = [] -> b_owners (swap_remove i b) ≡ₚ b_owners b.
Proof.
  intros Hd He. rewrite <- (b_owners_perm _ _ (swap_remove_perm b i d Hd)).
  unfold b_owners. by rewrite bind_cons, He.
Qed.

(** The deFragger a fragment is routed to accepts it. *)
Lemma routed_ok clock now b m cs b' i :
  Forall wf b ->
  (forall j, j ∈ cs -> exists d, (0 <= j)%nat /\ b !! (j - 0)%nat = Some d /\
     (count d = 0 \/ Z.of_nat (length (frags d)) = b2z (FRAG_TOTAL m.2))) ->
  route clock now b m cs = (b', Some i) ->
  exists d, b' !! i = Some d /\ (d ∈ b \/ d = newDeFragger clock now) /\ wf d /\
    Forall wf b' /\ b_owners b' = b_owners b /\
    (count d = 0 \/ Z.of_nat (length (frags d)) = b2z (FRAG_TOTAL m.2)).
Proof.
  intros Hb Hcs Hr.
  apply route_ok in Hr as [[? _]|(i' & [= <-] & [[-> Hi]|[-> ->]])]; [done|..].
  - destruct (Hcs i Hi) as (d & _ & Hd & Hc). rewrite Nat.sub_0_r in Hd.
    apply list_elem_of_lookup_2 in Hd as Hin.
    pose proof Hb as Hb0. rewrite Forall_forall in Hb0. exists d. split_and!; auto.
  - assert (wf (newDeFragger clock now)) by (split; [done|split; [done|simpl; lia]]).
    exists (newDeFragger clock now). split; [by apply list_lookup_middle|].
    split_and!; [by right|done| | |by left].
    + apply Forall_app; auto.
    + unfold b_owners. rewrite bind_app. cbn. by rewrite app_nil_r.
Qed.


Definition sample_stranger : ptr :=
  (7%nat, received (set_total sample_send 3) sample_addr 1 [x63; x64]).


(** Every successful fragmentation respects the protocol and the path: at
    most 255 fragments, numbered in order and each stamped with the total, whose
    payloads concatenate to the original; each payload has between 1 and
    fragSize bytes and each serialized fragment fits the datagram size fragSize
    was computed from (the first header plus fragSize). *)
Theorem fragments_fit p a k p' frs :
  pk_ADDR p = Some a -> fragmentPackets p k = Ret (p', frs) ->
  (length frs <= 255)%nat /\ concat (DATA <$> frs) = DATA p /\
  forall i f, frs !! i = Some f ->
    FRAG_ID f = z2b (Z.of_nat i) /\ FRAG_TOTAL f = z2b (Z.of_nat (length frs)) /\
    0 < Z.of_nat (length (DATA f)) <= k /\
    Z.of_nat (length (Packet_enc f)) <=
      Z.of_nat (length (Packet_enc p) - length (DATA p)) + k.
Proof.
  intros Ha Hf.
  assert (0 < k) as Hk by (unfold fragmentPackets in Hf; case_decide; [done|lia]).
  pose proof (fragmentPackets_spec p a k Ha Hk) as Hspec. cbv zeta in Hspec.
  rewrite Hspec in Hf. case_decide as Hcnt; [done|]. injection Hf as <- <-.
  unfold all_frags. rewrite length_imap. set (cs := chunks (Z.to_nat k) (DATA p)) in *.
  split_and!; [lia|..].
  - rewrite <- (chunks_concat (Z.to_nat k) (DATA p)) by lia. f_equal. fold cs.
    apply list_eq. intros i. rewrite list_lookup_fmap, list_lookup_imap.
    by destruct (cs !! i).
  - intros i f Hi. rewrite list_lookup_imap in Hi.
    destruct (cs !! i) as [c|] eqn:Ec; [|done]. injection Hi as <-.
    pose proof (chunks_bounds (Z.to_nat k) (DATA p) ltac:(lia)) as Hb.
    rewrite Forall_lookup in Hb. specialize (Hb i c Ec).
    split_and!; [done|done|cbn; lia|cbn; lia|].
    rewrite (length_Packet_enc (nth_frag _ a i c) _ eq_refl), (length_Packet_enc p a Ha).
    change (DATA (nth_frag _ a i c)) with c.
    assert (Address_BytesLen (if decide (i = 0%nat) then a else MkAddress AtypNone (ADDR a) (PORT a))
            <= Address_BytesLen a)%nat; [|lia].
    unfold Address_BytesLen. destruct (decide (i = 0%nat)); [done|]. cbn [aTYPE].
    rewrite (decide_True (P := AtypNone = AtypNone)) by done. case_decide; lia.
Qed.

Lemma fragments_fit_witness :
  (length (all_frags sample_send sample_addr 2) <= 255)%nat /\
  concat (DATA <$> all_frags sample_send sample_addr 2) = DATA sample_send.
Proof.
  destruct (fragments_fit sample_send sample_addr 2 (set_total sample_send 3)
              (all_frags sample_send sample_addr 2)) as (H1 & H2 & _).
  - reflexivity.
  - vm_compute. reflexivity.
  - split; assumption.
Defined.
