(* ===== verification/Hy2Protocol.v ===== *)
(** Hysteria2 wire protocol (protocol/hysteria2/internal/protocol: proxy.go and
    padding.go): QUIC variable-length integers, TCP request and response
    headers with random padding, and UDP messages. *)

From S2P Require Import Prelude.

(** * The quicvarint package *)

(** quic-go's quicvarint is a dependency: its operations are parameters. *)
Class QuicVarint := {
  qv_Len : Z -> nat;
  qv_Parse : list byte -> res (Z * nat);
  qv_Read : stream -> res (Z * stream) }.

(** RFC 9000, section 16: the two most significant bits of the first byte give
    the base-2 logarithm of the length; the rest is the value, big-endian. *)
Definition varint_width (b0 : byte) : nat := Nat.pow 2 (Z.to_nat (Z.shiftr (b2z b0) 6)).
Definition varint_value (enc : list byte) : Z :=
  be_get enc mod 2 ^ (8 * Z.of_nat (length enc) - 2).

Definition maxVarInt1 : Z := 63.
Definition maxVarInt2 : Z := 16383.
Definition maxVarInt4 : Z := 1073741823.
Definition maxVarInt8 : Z := 4611686018427387903.

(** What the package documents: the shortest length that holds a number, and
    RFC 9000 decoding of the bytes at the front of a slice or a reader. *)
Class QuicVarintLaws `{QuicVarint} : Prop := {
  qv_Len_spec : forall i, 0 <= i <= maxVarInt8 ->
    qv_Len i = if decide (i <= maxVarInt1) then 1%nat
               else if decide (i <= maxVarInt2) then 2%nat
               else if decide (i <= maxVarInt4) then 4%nat else 8%nat;
  qv_Parse_spec : forall b0 b, (varint_width b0 <= length (b0 :: b))%nat ->
    qv_Parse (b0 :: b) =
      Ret (varint_value (take (varint_width b0) (b0 :: b)), varint_width b0);
  qv_Parse_short : forall b,
    match b with [] => True | b0 :: _ => (length b < varint_width b0)%nat end ->
    exists e, qv_Parse b = Fail e;
  qv_Read_spec : forall b0 b, (varint_width b0 <= length (b0 :: b))%nat ->
    qv_Read (b0 :: b) =
      Ret (varint_value (take (varint_width b0) (b0 :: b)), drop (varint_width b0) (b0 :: b));
  qv_Read_short : forall b,
    match b with [] => True | b0 :: _ => (length b < varint_width b0)%nat end ->
    exists e, qv_Read b = Fail e }.

(** * Constants and errors *)

Definition FrameTypeTCPRequest : Z := 1025.
Definition MaxAddressLength : Z := 2048.
Definition MaxMessageLength : Z := 2048.
Definition MaxPaddingLength : Z := 4096.

Definition ProtocolError (msg : string) : error := Wrap "ProtocolError" (Errorf msg).

(** * Helpers of the model *)

(** [f(buf[off:])] for code [f] that fills its argument in place. *)
Definition at_slice {X} (buf : list byte) (off : nat)
    (f : list byte -> res (list byte * X)) : res (list byte * X) :=
  t ← slice_from buf off;
  '(t, x) ← f t;
  Ret (take off buf ++ t, x).

(** [a | b] on bytes. *)
Definition byte_or (a b : byte) : byte := z2b (Z.lor (b2z a) (b2z b)).

(** [b[0] = x0; b[1] = x1; ...] *)
Fixpoint set_each (b : list byte) (i : nat) (xs : list byte) : res (list byte) :=
  match xs with
  | [] => Ret b
  | x :: xs => b ← set_at b i x; set_each b (S i) xs
  end.

(** [io.CopyN(io.Discard, r, n)] *)
Definition Discard (n : nat) (r : stream) : res stream :=
  if decide (n <= length r)%nat then Ret (drop n r) else Fail EOF.

(** * varintPut *)

Definition varintPut (b : list byte) (i : Z) : res (list byte * nat) :=
  if decide (i <= maxVarInt1) then
    b ← set_each b 0 [z2b i]; Ret (b, 1%nat)
  else if decide (i <= maxVarInt2) then
    b ← set_each b 0 [byte_or (z2b (Z.shiftr i 8)) x40; z2b i]; Ret (b, 2%nat)
  else if decide (i <= maxVarInt4) then
    b ← set_each b 0 [byte_or (z2b (Z.shiftr i 24)) x80;
                      z2b (Z.shiftr i 16); z2b (Z.shiftr i 8); z2b i]; Ret (b, 4%nat)
  else if decide (i <= maxVarInt8) then
    b ← set_each b 0 [byte_or (z2b (Z.shiftr i 56)) xc0;
                      z2b (Z.shiftr i 48); z2b (Z.shiftr i 40); z2b (Z.shiftr i 32);
                      z2b (Z.shiftr i 24); z2b (Z.shiftr i 16); z2b (Z.shiftr i 8); z2b i];
    Ret (b, 8%nat)
  else Panic.

(** * Padding *)

Definition paddingChars : list byte :=
  [x61; x62; x63; x64; x65; x66; x67; x68; x69; x6a; x6b; x6c; x6d;
   x6e; x6f; x70; x71; x72; x73; x74; x75; x76; x77; x78; x79; x7a;
   x41; x42; x43; x44; x45; x46; x47; x48; x49; x4a; x4b; x4c; x4d;
   x4e; x4f; x50; x51; x52; x53; x54; x55; x56; x57; x58; x59; x5a;
   x30; x31; x32; x33; x34; x35; x36; x37; x38; x39].

Record padding := MkPadding { pad_Min : Z; pad_Max : Z }.
Definition authRequestPadding := MkPadding 256 2048.
Definition authResponsePadding := MkPadding 256 2048.
Definition tcpRequestPadding := MkPadding 64 512.
Definition tcpResponsePadding := MkPadding 128 1024.

(** The random source: [Intn n] is the draw in [0,n), [rnd n] the [n] bytes of
    a bulk read. *)
Record rand := MkRand { Intn : Z -> Z; rnd : nat -> list byte }.
Definition rand_ok (g : rand) : Prop :=
  (forall n, 0 < n -> 0 <= Intn g n < n) /\ (forall n, length (rnd g n) = n).

Definition randomLen (g : rand) (p : padding) : Z :=
  if decide (pad_Max p <= pad_Min p) then pad_Min p
  else pad_Min p + Intn g (pad_Max p - pad_Min p).

Definition pad_char (b : byte) : res byte :=
  index paddingChars (Z.to_nat (b2z b mod 62)).

Fixpoint pad_chars (l : list byte) : res (list byte) :=
  match l with
  | [] => Ret []
  | b :: l => c ← pad_char b; l ← pad_chars l; Ret (c :: l)
  end.

Definition writeRandomBytes (g : rand) (dst : list byte) : res (list byte) :=
  if decide (length dst = 0%nat) then Ret dst else pad_chars (rnd g (length dst)).

(** [writeRandomBytes(buf[lo:hi])] *)
Definition writeRandomBytes_at (g : rand) (buf : list byte) (lo hi : nat) : res (list byte) :=
  t ← slice buf lo hi;
  t ← writeRandomBytes g t;
  Ret (take lo buf ++ t ++ drop hi buf).

Definition padding_String (g : rand) (p : padding) : res (list byte) :=
  let n := randomLen g p in
  if decide (n < 0) then Panic else writeRandomBytes g (replicate (Z.to_nat n) x00).

(** * TCP requests and responses *)

Section codec.
Context `{QuicVarint}.

(** The trailing padding every TCP header ends with. *)
Definition skip_padding (r : stream) : res stream :=
  '(paddingLen, r) ← qv_Read r;
  if decide (paddingLen > MaxPaddingLength) then Fail (ProtocolError "invalid padding length")
  else if decide (paddingLen > 0) then Discard (Z.to_nat paddingLen) r else Ret r.

Definition ReadTCPRequest (r : stream) : res (list byte * stream) :=
  '(addrLen, r) ← qv_Read r;
  if decide (addrLen = 0 \/ addrLen > MaxAddressLength)
  then Fail (ProtocolError "invalid address length")
  else
    '(addrBuf, r) ← ReadFull (Z.to_nat addrLen) r;
    r ← skip_padding r;
    Ret (addrBuf, r).

Definition TCPRequest_bytes (g : rand) (addr : list byte) : res (list byte) :=
  let paddingLen := randomLen g tcpRequestPadding in
  let addrLen := length addr in
  let sz := (qv_Len FrameTypeTCPRequest + qv_Len (Z.of_nat addrLen) + addrLen
             + qv_Len paddingLen + Z.to_nat paddingLen)%nat in
  let buf := replicate sz x00 in
  '(buf, i) ← varintPut buf FrameTypeTCPRequest;
  '(buf, k) ← at_slice buf i (fun b => varintPut b (Z.of_nat addrLen));
  let i := (i + k)%nat in
  '(buf, k) ← copy_at buf i addr;
  let i := (i + k)%nat in
  '(buf, k) ← at_slice buf i (fun b => varintPut b paddingLen);
  let i := (i + k)%nat in
  writeRandomBytes_at g buf i (i + Z.to_nat paddingLen).

Definition WriteTCPRequest (g : rand) (addr : list byte) : wr unit :=
  buf ← wr_lift (TCPRequest_bytes g addr); Write buf.

Definition ReadTCPResponse (r : stream) : res (bool * list byte * stream) :=
  '(status, r) ← ReadFull 1 r;
  '(msgLen, r) ← qv_Read r;
  if decide (msgLen > MaxMessageLength) then Fail (ProtocolError "invalid message length")
  else
    '(msgBuf, r) ← (if decide (msgLen > 0) then ReadFull (Z.to_nat msgLen) r else Ret ([], r));
    r ← skip_padding r;
    s ← index status 0;
    Ret (bool_decide (s = x00), msgBuf, r).

Definition TCPResponse_bytes (g : rand) (ok : bool) (msg : list byte) : res (list byte) :=
  let paddingLen := randomLen g tcpResponsePadding in
  let msgLen := length msg in
  let sz := (1 + qv_Len (Z.of_nat msgLen) + msgLen
             + qv_Len paddingLen + Z.to_nat paddingLen)%nat in
  let buf := replicate sz x00 in
  buf ← set_at buf 0 (if ok then x00 else x01);
  '(buf, i) ← at_slice buf 1 (fun b => varintPut b (Z.of_nat msgLen));
  '(buf, k) ← copy_at buf (1 + i) msg;
  let i := (i + k)%nat in
  '(buf, k) ← at_slice buf (1 + i) (fun b => varintPut b paddingLen);
  let i := (i + k)%nat in
  writeRandomBytes_at g buf (1 + i) (1 + i + Z.to_nat paddingLen).

Definition WriteTCPResponse (g : rand) (ok : bool) (msg : list byte) : wr unit :=
  buf ← wr_lift (TCPResponse_bytes g ok msg); Write buf.

(** * UDP messages *)

(** [Release] is the pooled buffer the message owns, when it owns one. *)
Record UDPMessage := MkUDPMessage {
  SessionID : Z; PacketID : Z; FragID : byte; FragCount : byte;
  Addr : list byte; Data : list byte; Release : option nat }.

Definition HeaderSize (m : UDPMessage) : nat :=
  let lAddr := length (Addr m) in
  (4 + 2 + 1 + 1 + qv_Len (Z.of_nat lAddr) + lAddr)%nat.

Definition Size (m : UDPMessage) : nat := (HeaderSize m + length (Data m))%nat.

(** The buffer after the call and the returned count. *)
Definition Serialize (m : UDPMessage) (buf : list byte) : res (list byte * Z) :=
  if decide (length buf < Size m)%nat then Ret (buf, -1)
  else
    buf ← write_at buf 0 (be32 (SessionID m));
    buf ← write_at buf 4 (be16 (PacketID m));
    buf ← set_at buf 6 (FragID m);
    buf ← set_at buf 7 (FragCount m);
    '(buf, i) ← at_slice buf 8 (fun b => varintPut b (Z.of_nat (length (Addr m))));
    '(buf, k) ← copy_at buf (8 + i) (Addr m);
    let i := (i + k)%nat in
    '(buf, k) ← copy_at buf (8 + i) (Data m);
    let i := (i + k)%nat in
    Ret (buf, Z.of_nat (8 + i)).

Definition ParseUDPMessage (msg : list byte) : res UDPMessage :=
  if decide (length msg < 8)%nat
  then Fail (ProtocolError "invalid message: header too short")
  else
    sid ← slice msg 0 4;
    pid ← slice msg 4 6;
    fid ← index msg 6;
    fc ← index msg 7;
    t ← slice_from msg 8;
    '(lAddr, n) ← qv_Parse t;
    if decide (lAddr = 0 \/ lAddr > MaxMessageLength)
    then Fail (ProtocolError "invalid address length")
    else
      body ← slice_from msg (8 + n);
      if decide (lAddr > Z.of_nat (length body) - 1)
      then Fail (ProtocolError "invalid message length")
      else
        addr ← slice body 0 (Z.to_nat lAddr);
        data ← slice_from body (Z.to_nat lAddr);
        Ret (MkUDPMessage (be_get sid) (be_get pid) fid fc addr data None).
End codec.

Arguments UDPMessage : clear implicits.

(** * Variable-length integers: facts *)

(** The encoding [varintPut] stores. *)
Definition varint_enc (i : Z) : list byte :=
  if decide (i <= maxVarInt1) then [z2b i]
  else if decide (i <= maxVarInt2) then byte_or (z2b (Z.shiftr i 8)) x40 :: be_put 1 i
  else if decide (i <= maxVarInt4) then byte_or (z2b (Z.shiftr i 24)) x80 :: be_put 3 i
  else byte_or (z2b (Z.shiftr i 56)) xc0 :: be_put 7 i.

Lemma set_each_app (xs done rest : list byte) i :
  i = length done -> (length xs <= length rest)%nat ->
  set_each (done ++ rest) i xs = Ret ((done ++ xs) ++ drop (length xs) rest).
Proof.
  revert done rest i. induction xs as [|x xs IH]; intros done rest i -> Hl; simpl in *.
  - by rewrite app_nil_r, drop_0.
  - rewrite set_at_app by (done || lia). rewrite bind_ret, IH by len.
    rewrite drop_drop. by rewrite <- (app_assoc done).
Qed.

Lemma set_each_0 xs b : (length xs <= length b)%nat ->
  set_each b 0 xs = Ret (xs ++ drop (length xs) b).
Proof. by apply (set_each_app xs []). Qed.

Lemma varintPut_enc b i :
  0 <= i <= maxVarInt8 -> (length (varint_enc i) <= length b)%nat ->
  varintPut b i = Ret (varint_enc i ++ drop (length (varint_enc i)) b, length (varint_enc i)).
Proof.
  intros Hi Hl. unfold varintPut, varint_enc in *.
  repeat case_decide; try lia; rewrite set_each_0 by exact Hl; done.
Qed.

Lemma byte_or_tag x t : 0 <= x < 64 -> t ∈ [x00; x40; x80; xc0] ->
  b2z (byte_or (z2b x) t) = x + b2z t.
Proof.
  intros Hx Ht.
  assert (forallb (fun x => forallb (fun t =>
     b2z (byte_or (z2b x) t) =? x + b2z t) [x00; x40; x80; xc0])
     (Z.of_nat <$> seq 0 64) = true) as HF by reflexivity.
  rewrite forallb_forall in HF.
  specialize (HF x ltac:(apply list_elem_of_In, list_elem_of_fmap; exists (Z.to_nat x);
    rewrite elem_of_seq; lia)).
  rewrite forallb_forall in HF. apply Z.eqb_eq, HF, list_elem_of_In, Ht.
Qed.

(** Decoding an encoding: the width is in the first byte, the value is the
    number. *)
Lemma varint_tagged i k t :
  0 <= i < 64 * 256 ^ Z.of_nat k -> (t, k) ∈ [(x00, 0%nat); (x40, 1%nat); (x80, 3%nat); (xc0, 7%nat)] ->
  let b0 := byte_or (z2b (Z.shiftr i (8 * Z.of_nat k))) t in
  varint_width b0 = S k /\ varint_value (b0 :: be_put k i) = i.
Proof.
  intros Hi Ht b0.
  assert (Hs : Z.shiftr i (8 * Z.of_nat k) = i / 256 ^ Z.of_nat k).
  { rewrite Z.shiftr_div_pow2, Z.pow_mul_r by lia. done. }
  set (p := 256 ^ Z.of_nat k) in *. assert (0 < p) by (apply Z.pow_pos_nonneg; lia).
  assert (Hq : 0 <= i / p < 64) by (split; [apply Z.div_pos; lia|apply Z.div_lt_upper_bound; lia]).
  assert (Hb : b2z b0 = i / p + b2z t).
  { unfold b0. rewrite Hs. apply byte_or_tag; [done|]. set_solver. }
  split.
  - unfold varint_width. rewrite Hb, Z.shiftr_div_pow2 by lia. change (2 ^ 6) with 64.
    assert (Hm : exists m, b2z t = m * 64 /\ (2 ^ Z.to_nat m)%nat = S k /\ 0 <= m).
    { set_unfold in Ht. destruct_or! Ht; simplify_eq; [exists 0|exists 1|exists 2|exists 3]; done. }
    destruct Hm as (m & -> & <- & ?). rewrite Z.div_add, Z.div_small by lia. done.
  - unfold varint_value. rewrite be_get_cons, length_cons, length_be_put, be_get_put, Hb.
    fold p.
    assert (Hm : exists m, b2z t * p = m * 2 ^ (8 * Z.of_nat (S k) - 2) /\
                 2 ^ (8 * Z.of_nat (S k) - 2) = 64 * p).
    { unfold p. set_unfold in Ht.
      destruct_or! Ht; simplify_eq; [exists 0|exists 1|exists 2|exists 3]; done. }
    destruct Hm as (m & Hm & Hp).
    replace ((i / p + b2z t) * p + i mod p) with (i + m * 2 ^ (8 * Z.of_nat (S k) - 2)).
    2:{ rewrite <- Hm. pose proof (Z_div_mod_eq_full i p). lia. }
    rewrite Z.mod_add by lia. rewrite Hp. by apply Z.mod_small.
Qed.

Lemma varint_enc_decodes i : 0 <= i <= maxVarInt8 ->
  exists b0 r, varint_enc i = b0 :: r /\ varint_width b0 = length (b0 :: r) /\
               varint_value (b0 :: r) = i.
Proof.
  intros Hi. unfold varint_enc, maxVarInt1, maxVarInt2, maxVarInt4, maxVarInt8 in *.
  assert (E : forall k t, 0 <= i < 64 * 256 ^ Z.of_nat k ->
    (t, k) ∈ [(x00, 0%nat); (x40, 1%nat); (x80, 3%nat); (xc0, 7%nat)] ->
    exists b0 r, byte_or (z2b (Z.shiftr i (8 * Z.of_nat k))) t :: be_put k i = b0 :: r /\
      varint_width b0 = length (b0 :: r) /\ varint_value (b0 :: r) = i).
  { intros k t H1 H2. destruct (varint_tagged i k t H1 H2) as [Hw Hv].
    eexists _, _. split; [done|]. rewrite length_cons, length_be_put. done. }
  repeat case_decide.
  - destruct (E 0%nat x00) as (b0 & r & Hb & ? & ?); [simpl; lia|set_solver|].
    exists b0, r. split; [|done]. rewrite <- Hb. simpl. rewrite Z.shiftr_0_r.
    unfold be_put. f_equal. unfold byte_or. change (b2z x00) with 0.
    rewrite Z.lor_0_r, z2b_b2z. done.
  - apply (E 1%nat x40); [simpl; lia|set_solver].
  - apply (E 3%nat x80); [simpl; lia|set_solver].
  - apply (E 7%nat xc0); [simpl; lia|set_solver].
Qed.

Section roundtrips.
Context `{Q : QuicVarint} `{L : !QuicVarintLaws}.

Lemma qv_Len_enc i : 0 <= i <= maxVarInt8 -> qv_Len i = length (varint_enc i).
Proof.
  intros Hi. rewrite qv_Len_spec by done. unfold varint_enc.
  repeat case_decide; rewrite ?length_cons, ?length_be_put; done.
Qed.

Lemma qv_Parse_enc i rest : 0 <= i <= maxVarInt8 ->
  qv_Parse (varint_enc i ++ rest) = Ret (i, length (varint_enc i)).
Proof.
  intros Hi. destruct (varint_enc_decodes i Hi) as (b0 & r & -> & Hw & Hv).
  rewrite <- app_comm_cons, qv_Parse_spec by (rewrite Hw; len).
  rewrite Hw, app_comm_cons, take_app_length, Hv. done.
Qed.

Lemma qv_Read_enc i rest : 0 <= i <= maxVarInt8 ->
  qv_Read (varint_enc i ++ rest) = Ret (i, rest).
Proof.
  intros Hi. destruct (varint_enc_decodes i Hi) as (b0 & r & -> & Hw & Hv).
  rewrite <- app_comm_cons, qv_Read_spec by (rewrite Hw; len).
  rewrite Hw, app_comm_cons, take_app_length, drop_app_length, Hv. done.
Qed.

Lemma at_slice_varintPut i n (done rest : list byte) :
  0 <= i <= maxVarInt8 -> n = length done -> (length (varint_enc i) <= length rest)%nat ->
  at_slice (done ++ rest) n (fun b => varintPut b i) =
    Ret ((done ++ varint_enc i) ++ drop (length (varint_enc i)) rest, length (varint_enc i)).
Proof.
  intros Hi -> Hl. unfold at_slice. rewrite slice_from_app, bind_ret, varintPut_enc by done.
  rewrite bind_ret. cbn. rewrite take_app_length, <- app_assoc. done.
Qed.

Lemma pad_char_ok b : exists c, pad_char b = Ret c /\ c ∈ paddingChars.
Proof.
  unfold pad_char, index. pose proof (Z.mod_pos_bound (b2z b) 62 ltac:(lia)) as Hb.
  destruct (lookup_lt_is_Some_2 paddingChars (Z.to_nat (b2z b mod 62))) as [c Hc].
  { change (length paddingChars) with 62%nat. lia. }
  rewrite Hc. exists c. split; [done|]. by eapply list_elem_of_lookup_2.
Qed.

Lemma pad_chars_ok l : exists p, pad_chars l = Ret p /\ length p = length l /\
  Forall (fun c => c ∈ paddingChars) p.
Proof.
  induction l as [|b l (p & E & Hl & Hp)]; simpl; [by exists []|].
  destruct (pad_char_ok b) as (c & -> & Hc). rewrite E. simpl.
  exists (c :: p). simpl. auto.
Qed.

Lemma writeRandomBytes_ok g dst : rand_ok g ->
  exists p, writeRandomBytes g dst = Ret p /\ length p = length dst /\
    Forall (fun c => c ∈ paddingChars) p.
Proof.
  intros [_ Hr]. unfold writeRandomBytes. case_decide as Hd.
  - destruct dst; [|done]. by exists [].
  - destruct (pad_chars_ok (rnd g (length dst))) as (p & E & Hl & Hp).
    exists p. rewrite Hr in Hl. auto.
Qed.

Lemma writeRandomBytes_at_ok g (done rest : list byte) lo hi :
  rand_ok g -> lo = length done -> hi = (lo + length rest)%nat ->
  exists p, writeRandomBytes_at g (done ++ rest) lo hi = Ret (done ++ p) /\
    length p = length rest /\ Forall (fun c => c ∈ paddingChars) p.
Proof.
  intros Hg -> ->. unfold writeRandomBytes_at.
  rewrite slice_eq by len. rewrite bind_ret, drop_app_length.
  destruct (writeRandomBytes_ok g
    (take (length done + length rest - length done) rest) Hg) as (p & -> & Hl & Hp).
  exists p. rewrite bind_ret, take_app_length, drop_ge by len. rewrite app_nil_r.
  split; [done|]. split; [len|done].
Qed.

Lemma randomLen_range g p : rand_ok g -> pad_Min p < pad_Max p ->
  pad_Min p <= randomLen g p < pad_Max p.
Proof.
  intros [Hi _] Hp. unfold randomLen. case_decide; [lia|].
  specialize (Hi (pad_Max p - pad_Min p) ltac:(lia)). lia.
Qed.

(** Reading past the padding. *)
Lemma skip_padding_enc (pad rest : list byte) : Z.of_nat (length pad) <= MaxPaddingLength ->
  skip_padding (varint_enc (Z.of_nat (length pad)) ++ pad ++ rest) = Ret rest.
Proof.
  unfold MaxPaddingLength. intros Hp. unfold skip_padding.
  rewrite qv_Read_enc by (unfold maxVarInt8; lia).
  rewrite bind_ret, decide_False by (unfold MaxPaddingLength; lia).
  case_decide; [|destruct pad; [done|simpl in *; lia]].
  unfold Discard. rewrite Nat2Z.id, decide_True, drop_app_length by len. done.
Qed.

Definition is_padding (lo hi : Z) (pad : list byte) : Prop :=
  lo <= Z.of_nat (length pad) < hi /\ Forall (fun c => c ∈ paddingChars) pad.

Lemma TCPRequest_bytes_eq g addr : rand_ok g -> Z.of_nat (length addr) <= maxVarInt8 ->
  exists pad, is_padding 64 512 pad /\
    TCPRequest_bytes g addr =
      Ret (varint_enc FrameTypeTCPRequest ++ varint_enc (Z.of_nat (length addr)) ++ addr ++
           varint_enc (Z.of_nat (length pad)) ++ pad).
Proof.
  intros Hg Ha. unfold TCPRequest_bytes.
  pose proof (randomLen_range g tcpRequestPadding Hg ltac:(done)) as Hp. simpl in Hp.
  set (n := randomLen g tcpRequestPadding) in *.
  unfold maxVarInt8 in Ha.
  rewrite !qv_Len_enc by (unfold maxVarInt8, FrameTypeTCPRequest; lia).
  rewrite varintPut_enc by (unfold maxVarInt8, FrameTypeTCPRequest; try lia; len).
  rewrite bind_ret. cbn beta iota.
  rewrite at_slice_varintPut by (try (unfold maxVarInt8; lia); len). rewrite bind_ret. cbn beta iota.
  rewrite copy_at_app by len. rewrite bind_ret. cbn beta iota.
  rewrite at_slice_varintPut by (try (unfold maxVarInt8; lia); len). rewrite bind_ret. cbn beta iota.
  edestruct (writeRandomBytes_at_ok g) as (pad & -> & Hl & Hpad); [done|len|len|].
  assert (Hlen : length pad = Z.to_nat n) by (rewrite Hl; len).
  exists pad. unfold is_padding. rewrite Hlen, Z2Nat.id by lia.
  split; [auto|]. f_equal. by list_norm.
Qed.

Lemma TCPResponse_bytes_eq g ok msg : rand_ok g -> Z.of_nat (length msg) <= maxVarInt8 ->
  exists pad, is_padding 128 1024 pad /\
    TCPResponse_bytes g ok msg =
      Ret ((if ok then x00 else x01) :: varint_enc (Z.of_nat (length msg)) ++ msg ++
           varint_enc (Z.of_nat (length pad)) ++ pad).
Proof.
  intros Hg Ha. unfold TCPResponse_bytes.
  pose proof (randomLen_range g tcpResponsePadding Hg ltac:(done)) as Hp. simpl in Hp.
  set (n := randomLen g tcpResponsePadding) in *. unfold maxVarInt8 in Ha.
  rewrite !qv_Len_enc by (unfold maxVarInt8; lia).
  rewrite set_at_0 by len. rewrite bind_ret. cbn beta iota.
  rewrite at_slice_varintPut by (try (unfold maxVarInt8; lia); len). rewrite bind_ret. cbn beta iota.
  rewrite copy_at_app by len. rewrite bind_ret. cbn beta iota.
  rewrite at_slice_varintPut by (try (unfold maxVarInt8; lia); len). rewrite bind_ret. cbn beta iota.
  edestruct (writeRandomBytes_at_ok g) as (pad & -> & Hl & Hpad); [done|len|len|].
  assert (Hlen : length pad = Z.to_nat n) by (rewrite Hl; len).
  exists pad. unfold is_padding. rewrite Hlen, Z2Nat.id by lia.
  split; [auto|]. f_equal. by list_norm.
Qed.

(** A TCP request header written by WriteTCPRequest is the frame type
    0x401 followed by what ReadTCPRequest reads back: whatever random padding
    was drawn and whatever bytes follow, the reader returns the address and
    leaves exactly the following bytes. The same holds of WriteTCPResponse and
    ReadTCPResponse with their status and message, also on writers that fail:
    each header is one write. *)
Theorem tcp_headers_roundtrip g addr ok msg :
  rand_ok g ->
  1 <= Z.of_nat (length addr) <= MaxAddressLength ->
  Z.of_nat (length msg) <= MaxMessageLength ->
  (exists bs, writes (WriteTCPRequest g addr) bs /\
     forall rest,
       ('(ft, r) ← qv_Read (bs ++ rest); '(a, r) ← ReadTCPRequest r; Ret (ft, a, r)) =
         Ret (FrameTypeTCPRequest, addr, rest)) /\
  (exists bs, writes (WriteTCPResponse g ok msg) bs /\
     forall rest, ReadTCPResponse (bs ++ rest) = Ret (ok, msg, rest)).
Proof.
  unfold MaxAddressLength, MaxMessageLength. intros Hg Ha Hm.
  assert (Hk : forall n, Z.of_nat n <= 2048 -> 0 <= Z.of_nat n <= maxVarInt8)
    by (unfold maxVarInt8; lia).
  split.
  - destruct (TCPRequest_bytes_eq g addr Hg ltac:(apply Hk; lia)) as (pad & [Hp _] & E).
    eexists. split; [intros w; unfold WriteTCPRequest; rewrite E; reflexivity|]. intros rest.
    rewrite <- !app_assoc. rewrite qv_Read_enc by (unfold maxVarInt8, FrameTypeTCPRequest; lia).
    rewrite bind_ret. cbn beta iota. unfold ReadTCPRequest.
    rewrite qv_Read_enc, bind_ret by (apply Hk; lia). cbn beta iota.
    rewrite decide_False by (unfold MaxAddressLength; lia).
    rewrite Nat2Z.id, ReadFull_app, bind_ret by done. cbn beta iota.
    rewrite skip_padding_enc by (unfold MaxPaddingLength; lia). done.
  - destruct (TCPResponse_bytes_eq g ok msg Hg ltac:(apply Hk; lia)) as (pad & [Hp _] & E).
    eexists. split; [intros w; unfold WriteTCPResponse; rewrite E; reflexivity|]. intros rest.
    rewrite <- app_comm_cons, <- !app_assoc. unfold ReadTCPResponse.
    rewrite ReadFull_1, bind_ret. cbn beta iota.
    rewrite qv_Read_enc, bind_ret by (apply Hk; lia). cbn beta iota.
    rewrite decide_False by (unfold MaxMessageLength; lia).
    assert (Er : (if decide (Z.of_nat (length msg) > 0)
      then ReadFull (Z.to_nat (Z.of_nat (length msg)))
             (msg ++ varint_enc (Z.of_nat (length pad)) ++ pad ++ rest)
      else Ret ([], msg ++ varint_enc (Z.of_nat (length pad)) ++ pad ++ rest)) =
      Ret (msg, varint_enc (Z.of_nat (length pad)) ++ pad ++ rest)).
    { case_decide; [by rewrite Nat2Z.id, ReadFull_app|]. destruct msg; [done|simpl in *; lia]. }
    rewrite Er, bind_ret. cbn beta iota.
    rewrite skip_padding_enc by (unfold MaxPaddingLength; lia). by destruct ok.
Qed.

(** * UDP messages *)

Definition msg_wire (m : UDPMessage) : list byte :=
  be32 (SessionID m) ++ be16 (PacketID m) ++ [FragID m; FragCount m] ++
  varint_enc (Z.of_nat (length (Addr m))) ++ Addr m ++ Data m.

(** Field widths of the struct, and what a slice can hold. *)
Definition msg_ok (m : UDPMessage) : Prop :=
  0 <= SessionID m < 2 ^ 32 /\ 0 <= PacketID m < 2 ^ 16 /\
  Z.of_nat (length (Addr m)) <= maxVarInt8.

Lemma Size_wire m : msg_ok m -> Size m = length (msg_wire m).
Proof.
  intros (_ & _ & Ha). unfold Size, HeaderSize, msg_wire.
  rewrite qv_Len_enc by lia. rewrite !length_app, !length_be_put. simpl. lia.
Qed.

Lemma Serialize_eq m buf : msg_ok m -> (Size m <= length buf)%nat ->
  Serialize m buf = Ret (msg_wire m ++ drop (Size m) buf, Z.of_nat (Size m)).
Proof.
  intros Hm Hl. unfold Serialize. rewrite decide_False by lia.
  rewrite (Size_wire m Hm) in *. unfold msg_wire in Hl |- *. destruct Hm as (? & ? & Ha).
  rewrite (write_at_app [] _ buf) by len. rewrite bind_ret. cbn [app].
  rewrite write_at_app by len. rewrite bind_ret.
  rewrite set_at_app by len. rewrite bind_ret.
  rewrite set_at_app by len. rewrite bind_ret.
  rewrite at_slice_varintPut by (try lia; len). rewrite bind_ret. cbn beta iota.
  rewrite copy_at_app by len. rewrite bind_ret. cbn beta iota.
  rewrite copy_at_app by len. rewrite bind_ret. cbn beta iota.
  f_equal. f_equal; [|len]. list_norm. autorewrite with lens. list_eq.
Qed.

(** The part of ParseUDPMessage after the fixed header. *)
Definition parse_tail (sid pid : Z) (fid fc : byte) (t : list byte) : res UDPMessage :=
  '(lAddr, n) ← qv_Parse t;
  if decide (lAddr = 0 \/ lAddr > MaxMessageLength)
  then Fail (ProtocolError "invalid address length")
  else
    body ← slice_from t n;
    if decide (lAddr > Z.of_nat (length body) - 1)
    then Fail (ProtocolError "invalid message length")
    else
      addr ← slice body 0 (Z.to_nat lAddr);
      data ← slice_from body (Z.to_nat lAddr);
      Ret (MkUDPMessage sid pid fid fc addr data None).

Lemma slice_from_8 {A} (h t : list A) n :
  length h = 8%nat -> slice_from (h ++ t) (8 + n) = slice_from t n.
Proof.
  intros Hh. unfold slice_from. rewrite length_app, Hh, <- Hh.
  destruct (decide (n <= length t)%nat); [rewrite decide_True by lia|rewrite decide_False by lia; done].
  by rewrite drop_app_add.
Qed.

Lemma ParseUDPMessage_hdr (s p : list byte) fid fc t :
  length s = 4%nat -> length p = 2%nat ->
  ParseUDPMessage (s ++ p ++ [fid; fc] ++ t) = parse_tail (be_get s) (be_get p) fid fc t.
Proof.
  intros Hs Hp. unfold ParseUDPMessage. rewrite decide_False by len.
  rewrite slice_prefix, bind_ret by done.
  rewrite slice_eq by len. rewrite bind_ret.
  rewrite drop_app_length', take_app_length' by (done || lia).
  assert (Hi : forall i, index (s ++ p ++ [fid; fc] ++ t) (6 + i) = index ([fid; fc] ++ t) i).
  { intros i. unfold index. rewrite app_assoc, lookup_app_r by len.
    by replace (6 + i - length (s ++ p))%nat with i by len. }
  rewrite (Hi 0%nat : index _ 6 = _), (Hi 1%nat : index _ 7 = _).
  cbn [app]. rewrite index_0, bind_ret, index_1, bind_ret.
  change (fid :: fc :: t) with ([fid; fc] ++ t). rewrite !app_assoc.
  rewrite slice_from_app, bind_ret by len. unfold parse_tail.
  destruct (qv_Parse t) as [[lAddr n]| |]; [|done..]. rewrite !bind_ret. cbn beta iota.
  by rewrite slice_from_8 by len.
Qed.

Lemma ParseUDPMessage_wire m :
  msg_ok m -> 1 <= Z.of_nat (length (Addr m)) <= MaxMessageLength -> Data m <> [] ->
  ParseUDPMessage (msg_wire m) =
    Ret (MkUDPMessage (SessionID m) (PacketID m) (FragID m) (FragCount m) (Addr m) (Data m) None).
Proof.
  unfold MaxMessageLength. intros (Hsid & Hpid & _) Ha Hd.
  unfold msg_wire. rewrite ParseUDPMessage_hdr by len.
  rewrite !be_get_put_small by (simpl; lia).
  unfold parse_tail. rewrite qv_Parse_enc by (unfold maxVarInt8; lia).
  rewrite bind_ret. cbn beta iota. rewrite decide_False by (unfold MaxMessageLength; lia).
  rewrite slice_from_app, bind_ret by done.
  assert (0 < length (Data m))%nat by (destruct (Data m); [done|simpl; lia]).
  rewrite decide_False by len. rewrite Nat2Z.id, slice_prefix, bind_ret by done.
  rewrite slice_from_app by done. done.
Qed.

(** Serialize of a UDP message with a non-empty address of at most 2048
    bytes and a payload fills exactly Size bytes of a large enough buffer,
    leaving the rest untouched, and ParseUDPMessage reads the message back
    (owning no pooled buffer); on a smaller buffer it stores nothing and
    returns -1. *)
Theorem udp_message_roundtrip m buf :
  msg_ok m -> 1 <= Z.of_nat (length (Addr m)) <= MaxMessageLength -> Data m <> [] ->
  ((length buf < Size m)%nat /\ Serialize m buf = Ret (buf, -1)) \/
  ((Size m <= length buf)%nat /\
   exists buf', Serialize m buf = Ret (buf', Z.of_nat (Size m)) /\
     length buf' = length buf /\ drop (Size m) buf' = drop (Size m) buf /\
     ParseUDPMessage (take (Size m) buf') =
       Ret (MkUDPMessage (SessionID m) (PacketID m) (FragID m) (FragCount m)
              (Addr m) (Data m) None)).
Proof.
  intros Hm Ha Hd.
  destruct (decide (length buf < Size m)%nat) as [Hs|Hs].
  { left. split; [done|]. unfold Serialize. by rewrite decide_True. }
  right. split; [lia|]. eexists. rewrite Serialize_eq by (done || lia).
  rewrite Size_wire in * by done. split; [done|]. split; [len|].
  rewrite drop_app_length, take_app_length. split; [done|]. by apply ParseUDPMessage_wire.
Qed.

Lemma qv_Parse_inv t :
  (exists e, qv_Parse t = Fail e) \/
  (exists enc r, t = enc ++ r /\ qv_Parse t = Ret (varint_value enc, length enc)).
Proof.
  destruct t as [|b0 t]; [left; by apply qv_Parse_short|].
  destruct (decide (varint_width b0 <= length (b0 :: t))%nat) as [Hw|Hw];
    [right|left; apply qv_Parse_short; lia].
  exists (take (varint_width b0) (b0 :: t)), (drop (varint_width b0) (b0 :: t)).
  rewrite take_drop, qv_Parse_spec by done. split; [done|].
  f_equal. f_equal. rewrite length_take. lia.
Qed.

(** ParseUDPMessage is total: on arbitrary bytes it returns an error or a
    message, never panics, and an accepted datagram is exactly the fixed
    header, a length varint, the address of that length (1 to 2048 bytes) and
    the non-empty payload. *)
Theorem ParseUDPMessage_total bs :
  (exists e, ParseUDPMessage bs = Fail e) \/
  (exists m venc, ParseUDPMessage bs = Ret m /\ msg_ok m /\
     bs = be32 (SessionID m) ++ be16 (PacketID m) ++ [FragID m; FragCount m] ++
          venc ++ Addr m ++ Data m /\
     varint_value venc = Z.of_nat (length (Addr m)) /\
     1 <= Z.of_nat (length (Addr m)) <= MaxMessageLength /\
     Data m <> [] /\ Release m = None).
Proof.
  destruct (decide (length bs < 8)%nat) as [Hs|Hs].
  { left. unfold ParseUDPMessage. rewrite decide_True by done. eauto. }
  destruct bs as [|b0 [|b1 [|b2 [|b3 [|b4 [|b5 [|fid [|fc t]]]]]]]]; try (simpl in Hs; lia).
  change (b0 :: b1 :: b2 :: b3 :: b4 :: b5 :: fid :: fc :: t)
    with ([b0; b1; b2; b3] ++ [b4; b5] ++ [fid; fc] ++ t).
  rewrite ParseUDPMessage_hdr by done. unfold parse_tail.
  destruct (qv_Parse_inv t) as [[e ->]|(enc & r & -> & ->)]; [left; by exists e|].
  rewrite bind_ret. cbn beta iota. case_decide as Hl; [left; eauto|].
  rewrite slice_from_app, bind_ret by done. case_decide as Hb; [left; eauto|].
  assert (0 <= varint_value enc) by (apply Z.mod_pos_bound; destruct enc;
    [exfalso; apply Hl; left; reflexivity|apply Z.pow_pos_nonneg; simpl; lia]).
  unfold MaxMessageLength in *.
  rewrite slice_eq by lia. rewrite bind_ret, slice_from_eq, bind_ret by lia.
  right. eexists _, enc. split; [done|].
  cbn [SessionID PacketID FragID FragCount Addr Data Release]. rewrite Nat.sub_0_r, drop_0.
  rewrite !be_put_get, take_drop, length_take by done.
  pose proof (be_get_range [b0; b1; b2; b3]). pose proof (be_get_range [b4; b5]).
  simpl length in *.
  split; [unfold msg_ok, maxVarInt8; simpl; rewrite length_take; lia|].
  split; [done|]. split; [lia|]. split; [lia|]. split; [|done].
  intros E. apply (f_equal length) in E. rewrite length_drop in E. simpl in E. lia.
Qed.
End roundtrips.

(** * RFC 9000 decoding as a concrete instance *)

Definition rfc_Len (i : Z) : nat :=
  if decide (i <= maxVarInt1) then 1 else if decide (i <= maxVarInt2) then 2
  else if decide (i <= maxVarInt4) then 4 else 8.
Definition rfc_Read (r : stream) : res (Z * stream) :=
  match r with
  | [] => Fail EOF
  | b0 :: _ =>
      '(enc, r) ← ReadFull (varint_width b0) r; Ret (varint_value enc, r)
  end.
Definition rfc_Parse (b : list byte) : res (Z * nat) :=
  '(v, r) ← rfc_Read b; Ret (v, length b - length r)%nat.

#[export] Instance rfc_varint : QuicVarint := { qv_Len := rfc_Len; qv_Parse := rfc_Parse; qv_Read := rfc_Read }.

#[export] Instance rfc_varint_laws : QuicVarintLaws.
Proof.
  assert (Hr : forall b0 b, (varint_width b0 <= length (b0 :: b))%nat ->
    rfc_Read (b0 :: b) = Ret (varint_value (take (varint_width b0) (b0 :: b)),
                              drop (varint_width b0) (b0 :: b)))
    by (intros; unfold rfc_Read; by rewrite ReadFull_eq).
  assert (Hs : forall b, match b with [] => True | b0 :: _ => (length b < varint_width b0)%nat end ->
    exists e, rfc_Read b = Fail e).
  { intros [|b0 b] H; [by eexists|]. unfold rfc_Read.
    destruct (ReadFull_short _ _ H) as [e ->]. by exists e. }
  split; [done| | |exact Hr|exact Hs].
  - intros b0 b H. change (rfc_Parse (b0 :: b) = Ret
      (varint_value (take (varint_width b0) (b0 :: b)), varint_width b0)).
    unfold rfc_Parse. rewrite Hr by done.
    rewrite bind_ret. cbn beta iota. do 2 f_equal. rewrite length_drop. lia.
  - intros b H. destruct (Hs b H) as [e E]. exists e.
    change (rfc_Parse b = Fail e). unfold rfc_Parse. by rewrite E.
Qed.

(** * Witnesses *)

(** A random source that draws 0 and produces zero bytes. *)
Definition zero_rand : rand := MkRand (fun _ => 0) (fun n => replicate n x00).
Lemma zero_rand_ok : rand_ok zero_rand.
Proof. split; [simpl; lia|intros; apply length_replicate]. Qed.

Definition ex_addr : list byte := [x61; x3a; x35; x33].
Definition ex_msg : UDPMessage :=
  MkUDPMessage 7 513 x00 x01 ex_addr [x01; x02; x03] None.

Lemma tcp_headers_roundtrip_witness :
  (exists bs, writes (WriteTCPRequest zero_rand ex_addr) bs /\
     forall rest,
       ('(ft, r) ← qv_Read (bs ++ rest); '(a, r) ← ReadTCPRequest r; Ret (ft, a, r)) =
         Ret (FrameTypeTCPRequest, ex_addr, rest)) /\
  (exists bs, writes (WriteTCPResponse zero_rand false ex_addr) bs /\
     forall rest, ReadTCPResponse (bs ++ rest) = Ret (false, ex_addr, rest)).
Proof.
  apply (tcp_headers_roundtrip zero_rand ex_addr false ex_addr);
    [apply zero_rand_ok|split; vm_compute; discriminate..|vm_compute; discriminate].
Defined.

Lemma udp_message_roundtrip_witness :
  exists buf', Serialize ex_msg (replicate 20 xff) = Ret (buf', 16) /\
    ParseUDPMessage (take 16 buf') = Ret ex_msg.
Proof.
  destruct (udp_message_roundtrip ex_msg (replicate 20 xff)) as [[H _]|(_ & b & H1 & _ & _ & H2)].
  - split; [|split]; vm_compute; (split; congruence) || congruence.
  - vm_compute. split; congruence.
  - discriminate.
  - vm_compute in H. lia.
  - exists b. split; [exact H1|exact H2].
Defined.

Lemma ParseUDPMessage_total_witness :
  ParseUDPMessage (msg_wire ex_msg) = Ret ex_msg /\
  ((exists e, ParseUDPMessage [x00] = Fail e) \/
   (exists m venc, ParseUDPMessage [x00] = Ret m /\ msg_ok m /\
     [x00] = be32 (SessionID m) ++ be16 (PacketID m) ++ [FragID m; FragCount m] ++
          venc ++ Addr m ++ Data m /\
     varint_value venc = Z.of_nat (length (Addr m)) /\
     1 <= Z.of_nat (length (Addr m)) <= MaxMessageLength /\
     Data m <> [] /\ Release m = None)).
Proof. split; [vm_compute; reflexivity|apply (ParseUDPMessage_total [x00])]. Defined.
