(* ===== verification/Hy2Frag.v ===== *)
(** Hysteria2 UDP fragmentation (protocol/hysteria2/internal/frag/frag.go):
    splitting a UDP message over datagrams of bounded size, and the
    single-message reassembler of the receiving side with the ownership of the
    pooled datagram buffers. *)

From S2P Require Import Prelude Reassembly Hy2Protocol.

(** A message pointer: identity and contents. *)
Abbreviation mptr := (nat * UDPMessage)%type.

Definition zeroMessage : UDPMessage := MkUDPMessage 0 0 x00 x00 [] [] None.

(** [frag := *m; frag.FragID = ..; frag.FragCount = ..; frag.Data = ..] *)
Definition fragment_of (m : UDPMessage) (fragID fragCount : Z) (data : list byte) : UDPMessage :=
  MkUDPMessage (SessionID m) (PacketID m) (z2b fragID) (z2b fragCount) (Addr m) data (Release m).

(** * FragUDPMessage *)

Section fragment.
Context `{QuicVarint}.

(** [for off < len(fullPayload)]; [fragID] is a uint8. Each iteration takes at
    least one byte, so [len(fullPayload)] iterations are enough. *)
Fixpoint frag_loop (fuel : nat) (m : UDPMessage) (maxPayloadSize : nat) (fragCount : Z)
    (full : list byte) (off : nat) (fragID : Z) (frags : list UDPMessage)
    : res (list UDPMessage) :=
  if decide (off < length full)%nat then
    match fuel with
    | O => Panic
    | S fuel =>
        let payloadSize := Nat.min (length full - off) maxPayloadSize in
        data ← slice full off (off + payloadSize);
        frags ← set_at frags (Z.to_nat fragID) (fragment_of m fragID fragCount data);
        frag_loop fuel m maxPayloadSize fragCount full (off + payloadSize)
          ((fragID + 1) mod 256) frags
    end
  else Ret frags.

Definition FragUDPMessage (m : UDPMessage) (maxSize : Z) : res (list UDPMessage) :=
  if decide (Z.of_nat (Size m) <= maxSize) then Ret [m]
  else
    let fullPayload := Data m in
    let maxPayloadSize := maxSize - Z.of_nat (HeaderSize m) in
    if decide (maxPayloadSize <= 0)
    then Fail (Errorf "hysteria2: datagram max size %d cannot hold UDP header of %d bytes")
    else
      let fragCount := (Z.of_nat (length fullPayload) + maxPayloadSize - 1) / maxPayloadSize in
      if decide (fragCount > 255)
      then Fail (Errorf "hysteria2: datagram requires %d fragments, exceeds uint8 FragCount")
      else frag_loop (length fullPayload) m (Z.to_nat maxPayloadSize) fragCount fullPayload 0 0
             (replicate (Z.to_nat fragCount) zeroMessage).
End fragment.

(** * Defragger *)

Record Defragger := MkDefragger {
  d_pktID : Z; d_frags : list (option mptr); d_count : Z; d_size : nat; d_closed : bool }.

Definition newDefragger : Defragger := MkDefragger 0 [] 0 0 false.

(** [if m.Release != nil { m.Release() }] *)
Definition release (m : mptr) : list nat :=
  match Release m.2 with Some b => [b] | None => [] end.

Definition d_held (d : Defragger) : list mptr := omap id (d_frags d).

Definition releaseHeld (d : Defragger) : Defragger * list nat :=
  (MkDefragger (d_pktID d) [] 0 0 (d_closed d), d_held d ≫= release).

Definition Close (d : Defragger) : Defragger * list nat :=
  releaseHeld (MkDefragger (d_pktID d) (d_frags d) (d_count d) (d_size d) true).

(** [for _, frag := range d.frags { off += copy(data[off:], frag.Data) }] *)
Fixpoint copy_data (fs : list (option mptr)) (data : list byte) (off : nat) : res (list byte) :=
  match fs with
  | [] => Ret data
  | None :: _ => Panic
  | Some f :: fs =>
      '(data, k) ← copy_at data off (Data f.2);
      copy_data fs data (off + k)
  end.

(** The result of Feed: new state, released buffers, returned message. *)
Record fed := MkFed { f_d : Defragger; f_released : list nat; f_msg : option mptr }.

Definition Feed (d : Defragger) (m : mptr) : res fed :=
  if d_closed d then Ret (MkFed d (release m) None)
  else if decide (b2z (FragCount m.2) <= 1) then Ret (MkFed d [] (Some m))
  else if decide (b2z (FragID m.2) >= b2z (FragCount m.2)) then Ret (MkFed d (release m) None)
  else
    let i := Z.to_nat (b2z (FragID m.2)) in
    if decide (PacketID m.2 <> d_pktID d \/
               b2z (FragCount m.2) <> Z.of_nat (length (d_frags d)) mod 256) then
      let '(d, rel) := releaseHeld d in
      frags ← set_at (replicate (Z.to_nat (b2z (FragCount m.2))) None) i (Some m);
      Ret (MkFed (MkDefragger (PacketID m.2) frags 1 (length (Data m.2)) (d_closed d)) rel None)
    else
      s ← index (d_frags d) i;
      match s with
      | None =>
          frags ← set_at (d_frags d) i (Some m);
          let d := MkDefragger (d_pktID d) frags ((d_count d + 1) mod 256)
                     (d_size d + length (Data m.2)) (d_closed d) in
          if decide (d_count d = Z.of_nat (length frags)) then
            data ← copy_data frags (replicate (d_size d) x00) 0;
            let addr := Addr m.2 in
            let '(d, rel) := releaseHeld d in
            Ret (MkFed d rel
                   (Some (m.1, MkUDPMessage (SessionID m.2) (PacketID m.2) x00 x01 addr data None)))
          else Ret (MkFed d [] None)
      | Some h =>
          Ret (MkFed d (if decide (h.1 <> m.1) then release m else []) None)
      end.

(** Messages fed one after the other: the outcomes in order. *)
Fixpoint feed_seq (d : Defragger) (ms : list mptr) : res (list fed) :=
  match ms with
  | [] => Ret []
  | m :: ms =>
      f ← Feed d m;
      r ← feed_seq (f_d f) ms;
      Ret (f :: r)
  end.

(** * Fragmentation: facts *)

Section fragment_facts.
Context `{Q : QuicVarint} `{L : !QuicVarintLaws}.

Lemma hy2_frag_loop_spec m k n fuel : (0 < k)%nat -> (n <= 255)%nat ->
  forall pre rest acc,
  (length rest <= fuel)%nat -> (length acc + length (chunks k rest) = n)%nat ->
  frag_loop fuel m k (Z.of_nat n) (pre ++ rest) (length pre) (Z.of_nat (length acc))
      (acc ++ replicate (length (chunks k rest)) zeroMessage) =
    Ret (acc ++ imap (fun i c => fragment_of m (Z.of_nat (length acc + i)) (Z.of_nat n) c)
                  (chunks k rest)).
Proof.
  intros Hk Hn. induction fuel as [|fuel IH]; intros pre rest acc Hf Hacc.
  - destruct rest; [|simpl in Hf; lia]. simpl.
    rewrite decide_False by (autorewrite with lens; simpl; lia). by rewrite !app_nil_r.
  - simpl. rewrite length_app.
    destruct rest as [|x rest'] eqn:Er.
    { rewrite decide_False by (simpl; lia). simpl. by rewrite !app_nil_r. }
    rewrite <- Er in *. assert (rest <> []) as Hne by (by subst).
    assert (0 < length rest)%nat by (subst; simpl; lia).
    rewrite (chunks_cons k rest) in * by done. cbn [length replicate] in *.
    rewrite decide_True by lia.
    replace (length pre + length rest - length pre)%nat with (length rest) by lia.
    rewrite slice_eq by (rewrite ?length_app; lia).
    rewrite bind_ret, add_sub_cancel, drop_app_length.
    replace (take _ rest) with (take k rest)
      by (destruct (decide (length rest <= k)%nat); [rewrite Nat.min_l, !take_ge by lia; done
         |by rewrite Nat.min_r by lia]).
    rewrite Nat2Z.id, set_at_app by len. rewrite bind_ret.
    replace (length pre + _)%nat with (length (pre ++ take k rest))
      by (rewrite length_app, length_take; lia).
    rewrite <- (take_drop k rest) at 1. rewrite app_assoc.
    cbn [drop].
    replace ((Z.of_nat (length acc) + 1) mod 256)
      with (Z.of_nat (length (acc ++ [fragment_of m (Z.of_nat (length acc)) (Z.of_nat n) (take k rest)])))
      by (rewrite Z.mod_small by lia; len).
    rewrite IH by len.
    rewrite imap_cons, <- app_assoc. cbn [app]. rewrite Nat.add_0_r.
    do 3 f_equal. apply imap_ext. intros i c _. simpl. f_equal. len.
Qed.

Definition hy2_frags (m : UDPMessage) (k : nat) : list UDPMessage :=
  let cs := chunks k (Data m) in
  imap (fun i c => fragment_of m (Z.of_nat i) (Z.of_nat (length cs)) c) cs.

Lemma FragUDPMessage_spec m maxSize : maxSize < Z.of_nat (Size m) ->
  FragUDPMessage m maxSize =
    if decide (maxSize <= Z.of_nat (HeaderSize m))
    then Fail (Errorf "hysteria2: datagram max size %d cannot hold UDP header of %d bytes")
    else
      let k := Z.to_nat (maxSize - Z.of_nat (HeaderSize m)) in
      if decide (255 < length (chunks k (Data m)))%nat
      then Fail (Errorf "hysteria2: datagram requires %d fragments, exceeds uint8 FragCount")
      else Ret (hy2_frags m k).
Proof.
  intros Hs. unfold FragUDPMessage. rewrite decide_False by lia.
  destruct (decide (maxSize <= Z.of_nat (HeaderSize m))); [by rewrite decide_True by lia|].
  rewrite decide_False by lia. cbv zeta.
  set (k := Z.to_nat (maxSize - Z.of_nat (HeaderSize m))).
  replace ((_ + _ - 1) / _) with (Z.of_nat (length (chunks k (Data m)))).
  2:{ rewrite length_chunks by lia. rewrite Nat2Z.inj_div. unfold k. f_equal; lia. }
  destruct (decide (255 < length (chunks k (Data m)))%nat); [by rewrite decide_True by lia|].
  rewrite decide_False by lia. rewrite Nat2Z.id.
  exact (hy2_frag_loop_spec m k (length (chunks k (Data m))) (length (Data m))
           ltac:(lia) ltac:(lia) [] (Data m) [] ltac:(lia) ltac:(done)).
Qed.

Lemma length_hy2_frags m k : length (hy2_frags m k) = length (chunks k (Data m)).
Proof. apply length_imap. Qed.

Lemma hy2_frags_lookup m k i f : hy2_frags m k !! i = Some f ->
  exists c, chunks k (Data m) !! i = Some c /\
    f = fragment_of m (Z.of_nat i) (Z.of_nat (length (chunks k (Data m)))) c.
Proof.
  unfold hy2_frags. rewrite list_lookup_imap. intros (c & Hc & Hf)%fmap_Some. eauto.
Qed.

Lemma hy2_frags_data m k : Data <$> hy2_frags m k = chunks k (Data m).
Proof.
  apply list_eq. intros i. rewrite list_lookup_fmap. unfold hy2_frags.
  rewrite list_lookup_imap. by destruct (chunks k (Data m) !! i).
Qed.

(** A message too large for one datagram needs at least two fragments. *)
Lemma hy2_frags_two m maxSize k : maxSize < Z.of_nat (Size m) ->
  k = Z.to_nat (maxSize - Z.of_nat (HeaderSize m)) -> Z.of_nat (HeaderSize m) < maxSize ->
  (2 <= length (chunks k (Data m)))%nat.
Proof.
  unfold Size. intros Hs Hk Hh. rewrite length_chunks by lia.
  apply Nat.div_le_lower_bound; lia.
Qed.

Lemma FragUDPMessage_facts m maxSize frags :
  maxSize < Z.of_nat (Size m) -> FragUDPMessage m maxSize = Ret frags ->
  (2 <= length frags <= 255)%nat /\ concat (Data <$> frags) = Data m /\
  forall i f, frags !! i = Some f ->
    Z.of_nat (Size f) <= maxSize /\ Data f <> [] /\
    b2z (FragID f) = Z.of_nat i /\ b2z (FragCount f) = Z.of_nat (length frags) /\
    SessionID f = SessionID m /\ PacketID f = PacketID m /\ Addr f = Addr m.
Proof.
  intros Hs. rewrite FragUDPMessage_spec by done.
  case_decide as Hh; [done|]. cbv zeta.
  set (k := Z.to_nat (maxSize - Z.of_nat (HeaderSize m))).
  assert (0 < k)%nat by (unfold k; lia).
  case_decide as Hn; [done|]. intros [= <-]. rewrite length_hy2_frags.
  pose proof (hy2_frags_two m maxSize k Hs eq_refl ltac:(lia)).
  split; [lia|]. split.
  - rewrite hy2_frags_data. by apply chunks_concat.
  - intros i f (c & Hc & ->)%hy2_frags_lookup.
    assert (i < length (chunks k (Data m)))%nat by (by eapply lookup_lt_Some).
    pose proof (chunks_bounds k (Data m) ltac:(done)) as Hb.
    rewrite Forall_lookup in Hb. specialize (Hb i c Hc).
    unfold Size, HeaderSize in *. cbn [fragment_of Addr Data SessionID PacketID FragID FragCount].
    rewrite !b2z_z2b_small by lia. split_and!; try done; [unfold k in *; lia|].
    by destruct c; [simpl in *; lia|].
Qed.

Lemma FragUDPMessage_cases m maxSize : maxSize < Z.of_nat (Size m) ->
  (exists frags, FragUDPMessage m maxSize = Ret frags) \/
  ((exists e, FragUDPMessage m maxSize = Fail e) /\
   let k := Z.to_nat (maxSize - Z.of_nat (HeaderSize m)) in
   (maxSize <= Z.of_nat (HeaderSize m) \/ (255 < (length (Data m) + k - 1) / k)%nat)).
Proof.
  intros Hs. rewrite FragUDPMessage_spec by done.
  case_decide as Hh; [right; eauto|]. cbv zeta.
  set (k := Z.to_nat (maxSize - Z.of_nat (HeaderSize m))).
  assert (0 < k)%nat by (unfold k; lia).
  case_decide as Hn; [right; rewrite <- length_chunks by done; eauto|left; eauto].
Qed.

(** The first fragment fills the datagram. *)
Lemma FragUDPMessage_first m maxSize frags :
  maxSize < Z.of_nat (Size m) -> FragUDPMessage m maxSize = Ret frags ->
  exists f fs, frags = f :: fs /\ Z.of_nat (Size f) = maxSize /\
    SessionID f = SessionID m /\ PacketID f = PacketID m /\ Addr f = Addr m.
Proof.
  intros Hs. rewrite FragUDPMessage_spec by done.
  case_decide as Hh; [done|]. cbv zeta.
  set (k := Z.to_nat (maxSize - Z.of_nat (HeaderSize m))).
  case_decide as Hn; [done|]. intros [= <-]. unfold hy2_frags.
  assert (k < length (Data m))%nat by (unfold Size in Hs; lia).
  assert (Data m <> []) by (intros Ed; rewrite Ed in *; simpl in *; lia).
  rewrite (chunks_cons k (Data m)) by (done || lia).
  rewrite imap_cons. eexists _, _. split; [done|]. unfold Size, HeaderSize in *. simpl in *.
  rewrite length_take. split; [lia|done].
Qed.

(** FragUDPMessage never panics. A message that fits is returned as is;
    otherwise it fails exactly when the header alone fills the datagram or more
    than 255 fragments are needed, and else returns 2 to 255 fragments, each
    fitting in a datagram of maxSize with a non-empty piece of the payload,
    numbered in order with the total count, whose payloads concatenate to the
    original. *)
Theorem FragUDPMessage_correct m maxSize :
  (Z.of_nat (Size m) <= maxSize -> FragUDPMessage m maxSize = Ret [m]) /\
  (maxSize < Z.of_nat (Size m) ->
   let k := Z.to_nat (maxSize - Z.of_nat (HeaderSize m)) in
   (exists frags, FragUDPMessage m maxSize = Ret frags /\
      (2 <= length frags <= 255)%nat /\
      concat (Data <$> frags) = Data m /\
      forall i f, frags !! i = Some f ->
        Z.of_nat (Size f) <= maxSize /\ Data f <> [] /\
        b2z (FragID f) = Z.of_nat i /\ b2z (FragCount f) = Z.of_nat (length frags) /\
        SessionID f = SessionID m /\ PacketID f = PacketID m /\ Addr f = Addr m) \/
   ((exists e, FragUDPMessage m maxSize = Fail e) /\
    (maxSize <= Z.of_nat (HeaderSize m) \/
     (255 < (length (Data m) + k - 1) / k)%nat))).
Proof.
  split; intros Hs; [unfold FragUDPMessage; by rewrite decide_True by lia|]. intros k.
  destruct (FragUDPMessage_cases m maxSize Hs) as [[frags E]|?]; [left|by right].
  exists frags. split; [done|]. by apply (FragUDPMessage_facts m maxSize).
Qed.
End fragment_facts.

(** * The Defragger's invariant *)

Definition slots_size (fs : list (option mptr)) : nat :=
  sum_list_with (fun p => length (Data p.2)) (omap id fs).

(** Counters agree with the slots, and a message in progress is incomplete. *)
Record defragger_wf (d : Defragger) : Prop := {
  wf_len : (length (d_frags d) <= 255)%nat;
  wf_count : d_count d = Z.of_nat (length (d_held d));
  wf_size : d_size d = slots_size (d_frags d);
  wf_partial : d_frags d = [] \/ (length (d_held d) < length (d_frags d))%nat }.

Lemma omap_slot (fs : list (option mptr)) i o : fs !! i = Some o ->
  omap id fs = omap id (take i fs) ++ option_list o ++ omap id (drop (S i) fs).
Proof.
  intros Hi. rewrite <- (take_drop_middle fs i o Hi) at 1.
  rewrite omap_app. f_equal. by destruct o.
Qed.

Lemma Defragger_held_insert (fs : list (option mptr)) i p : fs !! i = Some None ->
  omap id (<[i := Some p]> fs) ≡ₚ p :: omap id fs.
Proof.
  intros Hi. assert (i < length fs)%nat as Hl by (by eapply lookup_lt_Some).
  rewrite (omap_slot fs i None Hi).
  rewrite (omap_slot (<[i := Some p]> fs) i (Some p)) by (by apply list_lookup_insert_eq).
  rewrite take_insert_ge, drop_insert_lt by lia. cbn [option_list app].
  symmetry. apply Permutation_middle.
Qed.

Lemma slots_le (fs : list (option mptr)) : (length (omap id fs) <= length fs)%nat.
Proof.
  induction fs as [|[p|] fs IH]; [done| |].
  - change (S (length (omap id fs)) <= S (length fs))%nat. lia.
  - change (length (omap id fs) <= S (length fs))%nat. lia.
Qed.

Lemma slots_all (fs : list (option mptr)) :
  length (omap id fs) = length fs -> fs = Some <$> omap id fs.
Proof.
  induction fs as [|[p|] fs IH]; [done| |].
  - intros [= H]. rewrite (IH H) at 1. done.
  - intros H. exfalso. change (length (omap id fs) = S (length fs)) in H.
    pose proof (slots_le fs). lia.
Qed.

Lemma omap_none n : omap id (replicate n (@None mptr)) = [].
Proof. induction n as [|n IH]; [done|exact IH]. Qed.

(** Copying all pieces into a buffer of their total size concatenates them. *)
Lemma copy_data_spec (ms : list mptr) (done rest : list byte) :
  length rest = sum_list_with (fun p => length (Data p.2)) ms ->
  copy_data (Some <$> ms) (done ++ rest) (length done) =
    Ret (done ++ concat ((fun p => Data p.2) <$> ms)).
Proof.
  revert done rest. induction ms as [|m ms IH]; intros done rest H; simpl in H.
  - destruct rest; [|done]. done.
  - rewrite !fmap_cons. cbn [copy_data concat].
    rewrite copy_at_app by (done || lia). rewrite bind_ret. cbn beta iota.
    rewrite <- length_app, IH by len. by rewrite <- app_assoc.
Qed.

Lemma copy_data_all (fs : list (option mptr)) :
  length (omap id fs) = length fs ->
  copy_data fs (replicate (slots_size fs) x00) 0 =
    Ret (concat ((fun p => Data p.2) <$> omap id fs)).
Proof.
  intros H. rewrite (slots_all fs H) at 1.
  exact (copy_data_spec (omap id fs) [] _ ltac:(apply length_replicate)).
Qed.

Lemma newDefragger_wf : defragger_wf newDefragger.
Proof. split; simpl; auto; lia. Qed.

Lemma releaseHeld_wf d : defragger_wf (fst (releaseHeld d)).
Proof. split; simpl; auto; lia. Qed.

(** A fragment of a message other than the one in progress starts over. *)
Definition is_fragment (m : mptr) : Prop :=
  1 < b2z (FragCount m.2) /\ b2z (FragID m.2) < b2z (FragCount m.2).
Definition continues (d : Defragger) (m : mptr) : Prop :=
  PacketID m.2 = d_pktID d /\ b2z (FragCount m.2) = Z.of_nat (length (d_frags d)).
Definition frag_index (m : mptr) : nat := Z.to_nat (b2z (FragID m.2)).

Definition started (m : mptr) : Defragger :=
  MkDefragger (PacketID m.2)
    (<[frag_index m := Some m]> (replicate (Z.to_nat (b2z (FragCount m.2))) None))
    1 (length (Data m.2)) false.

Lemma frag_index_lt m : is_fragment m -> (frag_index m < Z.to_nat (b2z (FragCount m.2)))%nat.
Proof. intros [H1 H2]. unfold frag_index. pose proof (b2z_range (FragID m.2)). lia. Qed.

Lemma Feed_start d m : defragger_wf d -> d_closed d = false -> is_fragment m -> ~ continues d m ->
  Feed d m = Ret (MkFed (started m) (d_held d ≫= release) None).
Proof.
  intros Hwf Hcl Hm Hc. unfold Feed. rewrite Hcl. pose proof Hm as [H1 H2].
  rewrite decide_False by lia. rewrite decide_False by lia.
  pose proof (wf_len d Hwf). rewrite decide_True.
  - cbn [releaseHeld d_closed]. unfold set_at. rewrite decide_True, bind_ret, Hcl; [done|].
    rewrite length_replicate. by apply frag_index_lt.
  - rewrite Z.mod_small by lia. unfold continues in Hc.
    destruct (decide (PacketID m.2 = d_pktID d)); [|tauto].
    destruct (decide (b2z (FragCount m.2) = Z.of_nat (length (d_frags d)))); tauto.
Qed.

(** The message assembled from a full set of slots, completed by [m]. *)
Definition assembled (m : mptr) (fs : list (option mptr)) : mptr :=
  (m.1, MkUDPMessage (SessionID m.2) (PacketID m.2) x00 x01 (Addr m.2)
          (concat ((fun p => Data p.2) <$> omap id fs)) None).

Lemma Feed_continue d m : defragger_wf d -> d_closed d = false -> is_fragment m -> continues d m ->
  Feed d m =
    match d_frags d !! frag_index m with
    | Some (Some h) => Ret (MkFed d (if decide (h.1 <> m.1) then release m else []) None)
    | _ =>
        let fs := <[frag_index m := Some m]> (d_frags d) in
        if decide (length (omap id fs) = length fs) then
          Ret (MkFed (MkDefragger (d_pktID d) [] 0 0 false) (omap id fs ≫= release)
                 (Some (assembled m fs)))
        else Ret (MkFed (MkDefragger (d_pktID d) fs (Z.of_nat (length (omap id fs)))
                           (slots_size fs) false) [] None)
    end.
Proof.
  intros Hwf Hcl Hm [Hpid Hlen]. pose proof (frag_index_lt m Hm) as Hi.
  unfold Feed. rewrite Hcl. pose proof Hm as [H1 H2].
  rewrite decide_False by lia. rewrite decide_False by lia.
  pose proof (wf_len d Hwf). rewrite Z.mod_small by lia. rewrite decide_False by tauto.
  rewrite Hlen, Nat2Z.id in Hi. fold (frag_index m).
  unfold index. destruct (lookup_lt_is_Some_2 _ _ Hi) as [s Hs]. rewrite Hs, bind_ret.
  destruct s as [h|]; [done|]. unfold set_at. rewrite decide_True by done. rewrite bind_ret.
  pose proof (Defragger_held_insert (d_frags d) (frag_index m) m Hs) as Hp.
  set (fs := <[frag_index m:=Some m]> (d_frags d)) in *.
  assert (slots_size fs = (d_size d + length (Data m.2))%nat) as Hsz.
  { unfold slots_size. rewrite Hp. simpl. rewrite (wf_size d Hwf). unfold slots_size. lia. }
  assert (length (omap id fs) = S (length (d_held d))) as Hc by (by rewrite Hp).
  assert (length fs = length (d_frags d)) as Hfl by apply length_insert.
  pose proof (slots_le fs) as Hle. cbn [d_count d_size d_closed].
  rewrite (wf_count d Hwf), Z.mod_small by lia. cbv zeta.
  rewrite <- Hsz. case_decide as Hfull.
  - rewrite decide_True by lia. rewrite copy_data_all by lia. done.
  - rewrite decide_False by lia. do 3 f_equal. lia.
Qed.

Lemma started_held m : is_fragment m -> d_held (started m) ≡ₚ [m].
Proof.
  intros Hm. unfold d_held. cbn [started d_frags].
  rewrite Defragger_held_insert by (apply lookup_replicate_2, frag_index_lt, Hm). by rewrite omap_none.
Qed.

Lemma started_wf m : is_fragment m -> defragger_wf (started m).
Proof.
  intros Hm. pose proof (started_held m Hm) as Hp. pose proof (b2z_range (FragCount m.2)).
  unfold d_held in Hp. destruct Hm as [? ?].
  split; unfold d_held, slots_size; rewrite ?Hp; simpl; rewrite ?length_insert, ?length_replicate; lia.
Qed.

(** What [Feed] does to the state and the buffers; [m] is not one of the
    pointers held. *)
Lemma Feed_cases d m : defragger_wf d -> m.1 ∉ (d_held d).*1 ->
  exists f, Feed d m = Ret f /\ defragger_wf (f_d f) /\
    d_closed (f_d f) = d_closed d /\ d_held (f_d f) ⊆+ m :: d_held d /\
    (d_held d ≫= release) ++ release m ≡ₚ
      f_released f ++ (d_held (f_d f) ≫= release) ++ from_option release [] (f_msg f).
Proof.
  intros Hwf Hm. destruct (d_closed d) eqn:Ecl.
  { unfold Feed. rewrite Ecl. eexists. split; [done|]. simpl. rewrite app_nil_r, Ecl.
    split_and!; [done..|by apply submseteq_cons|]. apply Permutation_app_comm. }
  destruct (decide (1 < b2z (FragCount m.2))) as [H1|H1]; last first.
  { unfold Feed. rewrite Ecl, decide_True by lia. eexists. split; [done|].
    split_and!; [done..|by apply submseteq_cons|done]. }
  destruct (decide (b2z (FragID m.2) < b2z (FragCount m.2))) as [H2|H2]; last first.
  { unfold Feed. rewrite Ecl, decide_False, decide_True by lia.
    eexists. split; [done|]. simpl. rewrite app_nil_r.
    split_and!; [done..|by apply submseteq_cons|]. apply Permutation_app_comm. }
  assert (is_fragment m) as Hf by done. assert (Hd : Decision (continues d m)) by apply _.
  destruct (decide (continues d m)) as [Hc|Hc].
  - rewrite Feed_continue by done. destruct (d_frags d !! frag_index m) as [[h|]|] eqn:Es.
    + eexists. split; [done|]. simpl. rewrite app_nil_r, decide_True.
      { split_and!; [done..|by apply submseteq_cons|apply Permutation_app_comm]. }
      intros E. apply Hm. rewrite <- E. apply list_elem_of_fmap_2, list_elem_of_omap.
      exists (Some h). split; [by eapply list_elem_of_lookup_2|done].
    + pose proof (Defragger_held_insert (d_frags d) (frag_index m) m Es) as Hp. cbv zeta.
      pose proof (slots_le (<[frag_index m:=Some m]> (d_frags d))) as Hle.
      rewrite length_insert in *. pose proof (wf_len d Hwf).
      case_decide; eexists; (split; [done|]); cbn [f_d f_released f_msg d_closed].
      * split; [split; simpl; auto; lia|]. split; [done|]. split; [apply submseteq_nil_l|].
        change (from_option release [] _) with (@nil nat). rewrite Hp. simpl.
        rewrite !app_nil_r. apply Permutation_app_comm.
      * split; [split; unfold d_held; simpl; rewrite ?length_insert; auto; lia|]. split; [done|].
        split; [unfold d_held; simpl; by rewrite Hp|].
        unfold d_held. cbn [d_frags from_option app]. rewrite Hp. simpl.
        rewrite app_nil_r. apply Permutation_app_comm.
    + apply lookup_ge_None in Es. destruct Hc as [_ Hc]. pose proof (frag_index_lt m Hf). lia.
  - rewrite Feed_start by done. eexists. split; [done|]. cbn [f_d f_released f_msg from_option].
    split; [by apply started_wf|]. split; [done|].
    split; [rewrite started_held by done; apply submseteq_skip, submseteq_nil_l|]. rewrite started_held by done.
    simpl. by rewrite !app_nil_r.
Qed.

Definition final_state (d : Defragger) (fs : list fed) : Defragger :=
  from_option f_d d (last fs).

Lemma final_state_cons d f fs : final_state d (f :: fs) = final_state (f_d f) fs.
Proof. unfold final_state. rewrite last_cons. by destruct (last fs). Qed.

(** Buffer ownership of the Defragger: feeding any sequence of distinct
    message objects (valid, malformed, duplicate, interleaved or to a closed
    defragger) never panics and keeps the counters consistent, and once the
    defragger is closed every pooled buffer that went in has been released
    exactly once or is owned by exactly one of the messages handed back. *)
Theorem hy2_defragger_conserves d ms :
  defragger_wf d -> NoDup ((d_held d).*1 ++ ms.*1) ->
  exists fs, feed_seq d ms = Ret fs /\ defragger_wf (final_state d fs) /\
    (d_held d ≫= release) ++ (ms ≫= release) ≡ₚ
      (fs ≫= f_released) ++ snd (Close (final_state d fs)) ++
      (fs ≫= fun f => from_option release [] (f_msg f)) /\
    d_frags (fst (Close (final_state d fs))) = [].
Proof.
  revert d. induction ms as [|m ms IH]; intros d Hwf Hnd.
  - exists []. split; [done|]. split; [done|]. split; [|done]. simpl. by rewrite !app_nil_r.
  - rewrite fmap_cons in Hnd. pose proof Hnd as (Hn1 & Hni & Hn2)%NoDup_app.
    destruct (Feed_cases d m Hwf ltac:(set_solver)) as (f & E & Hwf' & _ & Hsub & Hcons).
    apply NoDup_cons in Hn2 as [Hm Hn2].
    destruct (IH (f_d f) Hwf') as (fs & E2 & Hw & Hp & Hc).
    { apply submseteq_Permutation in Hsub as [k Hk]. apply (fmap_Permutation fst) in Hk.
      rewrite fmap_cons, fmap_app in Hk.
      assert (NoDup ((d_held (f_d f)).*1 ++ k.*1)) as (Hnh & _)%NoDup_app
        by (rewrite <- Hk; apply NoDup_cons; set_solver).
      apply NoDup_app. split_and!; [done| |done]. intros x Hx Hx'.
      assert (x ∈ m.1 :: (d_held d).*1) as [->|Hd]%elem_of_cons
        by (rewrite Hk; set_solver); [done|set_solver]. }
    exists (f :: fs). rewrite final_state_cons. cbn [feed_seq].
    rewrite E, bind_ret, E2, bind_ret. split; [done|]. split; [done|]. split; [|done].
    rewrite !bind_cons. rewrite (app_assoc (d_held d ≫= release)), Hcons.
    rewrite <- !app_assoc. apply Permutation_app_head.
    rewrite (Permutation_app_comm (from_option release [] (f_msg f)) (ms ≫= release)).
    rewrite (app_assoc (d_held (f_d f) ≫= release)), Hp. rewrite <- !app_assoc.
    apply Permutation_app_head, Permutation_app_head. apply Permutation_app_comm.
Qed.

(** * Reassembly in any order *)

Section reassembly.
(** The fragments of one message as received, in index order. *)
Context (fs : list mptr) (pid : Z).
Hypothesis Hn : (2 <= length fs <= 255)%nat.
Hypothesis Hfs : forall i m, fs !! i = Some m ->
  b2z (FragCount m.2) = Z.of_nat (length fs) /\ b2z (FragID m.2) = Z.of_nat i /\
  PacketID m.2 = pid.

Definition hy2_payload : list byte := concat ((fun p => Data p.2) <$> fs).

(** The state after the fragments [ix] arrived. *)
Definition d_of (ix : list nat) : Defragger :=
  let t := table fs ix in
  MkDefragger pid t (Z.of_nat (length (omap id t))) (slots_size t) false.

Definition foreign (d : Defragger) : Prop :=
  d_pktID d <> pid \/ length (d_frags d) <> length fs.

Lemma frag_shape i m : fs !! i = Some m -> is_fragment m /\ frag_index m = i.
Proof.
  intros Hi. destruct (Hfs i m Hi) as (Hc & Hid & _).
  assert (i < length fs)%nat by (by eapply lookup_lt_Some).
  unfold is_fragment, frag_index. rewrite Hc, Hid. lia.
Qed.

Lemma table_held ix : NoDup ix -> Forall (fun i => i < length fs)%nat ix ->
  length (omap id (table fs ix)) = length ix.
Proof.
  induction ix as [|j ix IH]; intros Hnd Hlt.
  - by rewrite table_nil, omap_none.
  - apply NoDup_cons in Hnd as [Hj Hnd]. apply Forall_cons in Hlt as [Hjl Hlt].
    destruct (lookup_lt_is_Some_2 _ _ Hjl) as [m Hm].
    rewrite <- (table_insert fs ix j m Hm), Defragger_held_insert.
    + simpl. f_equal. by apply IH.
    + by rewrite (table_lookup fs ix j m Hm), decide_False.
Qed.

Lemma d_of_wf ix : NoDup ix -> Forall (fun i => i < length fs)%nat ix ->
  (length ix < length fs)%nat -> defragger_wf (d_of ix).
Proof.
  intros Hnd Hlt Hl. split; unfold d_held; simpl; rewrite ?length_table; [lia|done|done|].
  right. by rewrite table_held.
Qed.

Lemma Defragger_Feed_next d ix j m :
  (ix = [] /\ defragger_wf d /\ d_closed d = false /\ foreign d) \/ (ix <> [] /\ d = d_of ix) ->
  NoDup (j :: ix) -> Forall (fun i => i < length fs)%nat (j :: ix) -> fs !! j = Some m ->
  let rel := if decide (ix = []) then d_held d ≫= release else [] in
  Feed d m =
    if decide (length (j :: ix) = length fs) then
      Ret (MkFed (MkDefragger pid [] 0 0 false) (rel ++ (fs ≫= release))
             (Some (m.1, MkUDPMessage (SessionID m.2) pid x00 x01 (Addr m.2) hy2_payload None)))
    else Ret (MkFed (d_of (j :: ix)) rel None).
Proof.
  intros Hd Hnd Hlt Hj rel. destruct (frag_shape j m Hj) as [Hf Hi].
  destruct (Hfs j m Hj) as (Hc & _ & Hp).
  pose proof (table_held (j :: ix) Hnd Hlt) as Hheld.
  destruct Hd as [(-> & Hwf & Hcl & Hfo)|[Hne ->]].
  - rewrite decide_False by (simpl; lia). unfold rel. rewrite decide_True by done.
    rewrite Feed_start; [|done|done|done|].
    2:{ unfold continues. rewrite Hp, Hc. unfold foreign in Hfo. intros [? ?]. lia. }
    unfold started, d_of. rewrite Hi, Hc, Nat2Z.id, Hp. rewrite <- table_nil.
    rewrite <- (table_insert fs [] j m Hj) in *. do 2 f_equal.
    rewrite Hheld. f_equal. unfold slots_size. rewrite Defragger_held_insert.
    + rewrite table_nil, omap_none. simpl. lia.
    + by rewrite (table_lookup fs [] j m Hj), decide_False by set_solver.
  - unfold rel. rewrite (decide_False (P := ix = [])) by done. cbn [app].
    apply NoDup_cons in Hnd as [Hni Hnd]. apply Forall_cons in Hlt as [Hjl Hlt].
    pose proof (indices_length (j :: ix) _ ltac:(by apply NoDup_cons) ltac:(by constructor)) as Hle.
    rewrite Feed_continue; [|apply d_of_wf; [done|done|simpl in Hle; lia]|done|done|].
    2:{ split; [done|]. cbn [d_of d_frags]. by rewrite length_table. }
    cbn [d_of d_frags d_pktID]. rewrite Hi, (table_lookup fs ix j m Hj), decide_False by done.
    cbv zeta. rewrite (table_insert fs ix j m Hj), length_table, Hheld.
    case_decide as Hfull; [|by unfold d_of; rewrite Hheld].
    pose proof (all_indices (j :: ix) _ ltac:(by apply NoDup_cons) ltac:(by constructor) Hfull)
      as Hperm.
    assert (omap id (table fs (j :: ix)) = fs) as Eall.
    { rewrite table_full by (intros i Hl; rewrite Hperm; apply elem_of_seq; lia).
      clear. induction fs as [|x l IH]; [done|]. rewrite fmap_cons. cbn. f_equal. exact IH. }
    unfold assembled, hy2_payload. by rewrite Eall, Hp.
Qed.

(** Outcome of feeding a complete set: nothing before the last fragment, then
    the whole message; every buffer released once. *)
Definition delivers (outs : list fed) (sid : Z) (addr : list byte) (rel : list nat) : Prop :=
  exists pre l id, outs = pre ++ [l] /\ Forall (fun f => f_msg f = None) pre /\
    f_msg l = Some (id, MkUDPMessage sid pid x00 x01 addr hy2_payload None) /\
    (outs ≫= f_released) = rel ++ (fs ≫= release) /\ d_frags (f_d l) = [].

Lemma hy2_feed_seq_all sid addr (Hsid : Forall (fun m => SessionID m.2 = sid /\ Addr m.2 = addr) fs)
    (arr : list nat) : forall ix d ms, arr <> [] ->
  (ix = [] /\ defragger_wf d /\ d_closed d = false /\ foreign d) \/ (ix <> [] /\ d = d_of ix) ->
  NoDup (arr ++ ix) -> Forall (fun i => i < length fs)%nat (arr ++ ix) ->
  (length arr + length ix = length fs)%nat ->
  Forall2 (fun i m => fs !! i = Some m) arr ms ->
  exists outs, feed_seq d ms = Ret outs /\
    delivers outs sid addr (if decide (ix = []) then d_held d ≫= release else []).
Proof.
  induction arr as [|j arr IH]; intros ix d ms Hne Hd Hnd Hlt Hlen Hms; [done|].
  apply Forall2_cons_inv_l in Hms as (m & ms' & Hj & Hms & ->).
  simpl in Hnd, Hlt, Hlen.
  apply NoDup_cons in Hnd as [Hni Hnd]. apply Forall_cons in Hlt as [Hjn Hlt].
  pose proof Hnd as (_ & _ & Hndix)%NoDup_app. pose proof Hlt as [_ Hltix]%Forall_app.
  assert (NoDup (j :: ix)) as Hnd' by (apply NoDup_cons; set_solver).
  assert (Forall (fun i => i < length fs)%nat (j :: ix)) as Hlt' by (by constructor).
  cbn [feed_seq]. rewrite (Defragger_Feed_next d ix j m Hd Hnd' Hlt' Hj).
  set (rel := if decide (ix = []) then _ else _).
  rewrite Forall_lookup in Hsid. destruct (Hsid _ _ Hj) as [<- <-].
  destruct (decide (arr = [])) as [->|Harr].
  - apply Forall2_nil_inv_l in Hms as ->. rewrite decide_True by (simpl in *; lia).
    rewrite bind_ret. cbn [feed_seq]. rewrite bind_ret. eexists. split; [done|].
    eexists [], _, _. split; [done|]. split; [constructor|]. split; [done|].
    split; [|done]. simpl. by rewrite app_nil_r.
  - rewrite decide_False by (destruct arr; [done|simpl in *; lia]). rewrite bind_ret.
    destruct (IH (j :: ix) (d_of (j :: ix)) ms') as (outs & E & pre & l & id & -> & Hpre & Hl & Hr & Hd');
      try done.
    + by right.
    + rewrite <- Permutation_middle. by apply NoDup_cons.
    + apply Forall_app. apply Forall_app in Hlt. tauto.
    + simpl in *; lia.
    + cbn [f_d]. rewrite E, bind_ret. eexists. split; [done|].
      eexists (_ :: pre), l, id. split; [done|]. split; [by constructor|]. split; [done|].
      split; [|done]. rewrite bind_cons, Hr. done.
Qed.
End reassembly.

(** * From the sender to the receiver *)

Section transport.
Context `{Q : QuicVarint} `{L : !QuicVarintLaws}.

(** What the sender puts on the wire for one message, with a given send buffer
    ([SendMessage] of client.go up to the datagram send). *)
Definition datagram_of (sendBuf : list byte) (m : UDPMessage) : res (list byte) :=
  '(buf, n) ← Serialize m sendBuf;
  if decide (n < 0) then Fail (Errorf "DatagramTooLargeError")
  else slice buf 0 (Z.to_nat n).

(** What the receiver makes of datagram buffer number [id]: the parsed message,
    owning that buffer ([ReceiveMessage] of client.go for one datagram). *)
Definition receive (id : nat) (datagram : list byte) : res mptr :=
  m ← ParseUDPMessage datagram;
  Ret (id, MkUDPMessage (SessionID m) (PacketID m) (FragID m) (FragCount m)
             (Addr m) (Data m) (Some id)).

(** A message as the peer sees it. *)
Definition with_release (id : nat) (m : UDPMessage) : mptr :=
  (id, MkUDPMessage (SessionID m) (PacketID m) (FragID m) (FragCount m)
         (Addr m) (Data m) (Some id)).

(** What goes on the wire does not depend on the buffer used. *)
Lemma datagram_wire sendBuf m : msg_ok m -> (Size m <= length sendBuf)%nat ->
  datagram_of sendBuf m = Ret (msg_wire m).
Proof.
  intros Hm Hs. unfold datagram_of.
  rewrite Serialize_eq by done. rewrite bind_ret. cbn beta iota.
  rewrite decide_False, Nat2Z.id by lia. by rewrite slice_prefix by (by apply Size_wire).
Qed.

Lemma transport_one sendBuf id m :
  msg_ok m -> 1 <= Z.of_nat (length (Addr m)) <= MaxMessageLength -> Data m <> [] ->
  (Size m <= length sendBuf)%nat ->
  exists dg, datagram_of sendBuf m = Ret dg /\ receive id dg = Ret (with_release id m).
Proof.
  intros Hm Ha Hd Hs. rewrite datagram_wire by done.
  eexists. split; [done|]. unfold receive.
  rewrite (ParseUDPMessage_wire m) by done. done.
Qed.

Lemma datagrams_wire sendBuf ms : forall dgs,
  Forall (fun m => msg_ok m /\ (Size m <= length sendBuf)%nat) ms ->
  mapM (datagram_of sendBuf) ms = Ret dgs -> dgs = msg_wire <$> ms.
Proof.
  induction ms as [|m ms IH]; intros dgs Hms; [by intros [= <-]|].
  apply Forall_cons in Hms as [[Hm Hs] Hms].
  change (mapM (datagram_of sendBuf) (m :: ms)) with
    (y ← datagram_of sendBuf m; k ← mapM (datagram_of sendBuf) ms; Ret (y :: k)).
  rewrite datagram_wire, bind_ret by done.
  destruct (mapM (datagram_of sendBuf) ms) as [k| |]; [|done..].
  rewrite bind_ret. intros [= <-]. rewrite fmap_cons. f_equal. by apply IH.
Qed.

Lemma mapM_res {A B} (f : A -> res B) (l : list A) (k : list B) :
  Forall2 (fun x y => f x = Ret y) l k -> mapM f l = Ret k.
Proof. induction 1 as [|x y l k E _ IH]; [done|]. simpl. by rewrite E, bind_ret, IH. Qed.

Lemma with_release_release (l : list UDPMessage) n :
  (imap (fun i f => with_release (n + i) f) l ≫= release) = seq n (length l).
Proof.
  revert n. induction l as [|f l IH]; intros n; [done|]. rewrite imap_cons, bind_cons. simpl.
  rewrite Nat.add_0_r. f_equal. rewrite <- IH. f_equal. apply imap_ext. intros. simpl.
  by rewrite Nat.add_succ_r.
Qed.

Lemma with_release_data (l : list UDPMessage) :
  (fun p : mptr => Data p.2) <$> imap with_release l = Data <$> l.
Proof.
  apply list_eq. intros i. rewrite !list_lookup_fmap, list_lookup_imap. by destruct (l !! i).
Qed.

Lemma Forall2_choice {A B} (P : nat -> A -> B -> Prop) (l : list A) :
  (forall i x, l !! i = Some x -> exists y, P i x y) ->
  exists k, length k = length l /\ forall i x y, l !! i = Some x -> k !! i = Some y -> P i x y.
Proof.
  revert P. induction l as [|x l IH]; intros P H; [by exists []|].
  destruct (H 0%nat x eq_refl) as [y Hy].
  destruct (IH (fun i => P (S i)) (fun i => H (S i))) as (k & Hl & Hk).
  exists (y :: k). split; [simpl; congruence|]. intros [|i] a b ? ?; simplify_eq/=; eauto.
Qed.

Lemma Forall2_indices {A} (l : list A) (ix : list nat) :
  Forall (fun i => i < length l)%nat ix -> exists k, Forall2 (fun i x => l !! i = Some x) ix k.
Proof.
  induction 1 as [|i ix Hi _ [k IH]]; [by exists []|].
  destruct (lookup_lt_is_Some_2 _ _ Hi) as [x Hx]. exists (x :: k). by constructor.
Qed.

Lemma fragments_reassemble m maxSize frags sendBuf d :
  msg_ok m -> 1 <= Z.of_nat (length (Addr m)) <= MaxMessageLength ->
  maxSize < Z.of_nat (Size m) -> FragUDPMessage m maxSize = Ret frags ->
  maxSize <= Z.of_nat (length sendBuf) ->
  defragger_wf d -> d_closed d = false ->
  (d_pktID d <> PacketID m \/ length (d_frags d) <> length frags) ->
  exists dgs, mapM (datagram_of sendBuf) frags = Ret dgs /\
  forall arrival, arrival ≡ₚ seq 0 (length frags) ->
  exists ms outs pre l id,
    mapM (fun i => dg ← index dgs i; receive i dg) arrival = Ret ms /\
    feed_seq d ms = Ret outs /\ outs = pre ++ [l] /\
    Forall (fun f => f_msg f = None) pre /\
    f_msg l = Some (id, MkUDPMessage (SessionID m) (PacketID m) x00 x01 (Addr m) (Data m) None) /\
    (outs ≫= f_released) ≡ₚ (d_held d ≫= release) ++ arrival /\
    d_held (f_d l) = [].
Proof.
  intros Hm Ha Hs Hfr Hbuf Hwf Hcl Hfo.
  destruct (FragUDPMessage_facts m maxSize frags Hs Hfr) as (Hn & Hcat & Hall).
  assert (Hone : forall i f, frags !! i = Some f -> exists dg,
    datagram_of sendBuf f = Ret dg /\ receive i dg = Ret (with_release i f)).
  { intros i f Hi. destruct (Hall i f Hi) as (Hsz & Hd & _ & _ & E1 & E2 & E3).
    apply transport_one; [unfold msg_ok in *; by rewrite E1, E2, E3|by rewrite E3|done|lia]. }
  destruct (Forall2_choice (fun i f dg => datagram_of sendBuf f = Ret dg /\
      receive i dg = Ret (with_release i f)) frags Hone) as (dgs & Hl & Hdgs).
  exists dgs. split.
  { apply mapM_res, Forall2_same_length_lookup_2; [done|].
    intros i f dg Hf Hd. by destruct (Hdgs i f dg Hf Hd). }
  intros arrival Harr.
  set (fs := imap with_release frags).
  assert (Hlen : length fs = length frags) by apply length_imap.
  assert (Hlook : forall i p, fs !! i = Some p -> exists f, frags !! i = Some f /\ p = with_release i f).
  { intros i p. unfold fs. rewrite list_lookup_imap. intros (f & ? & ?)%fmap_Some. eauto. }
  assert (Hin : Forall (fun i => i < length fs)%nat arrival).
  { rewrite Harr, Hlen. apply Forall_forall. intros i Hi%elem_of_seq. lia. }
  destruct (Forall2_indices fs arrival Hin) as (ms & Hms).
  destruct (hy2_feed_seq_all fs (PacketID m) ltac:(lia)
    ltac:(intros i p (f & Hf & ->)%Hlook; destruct (Hall i f Hf) as (_ & _ & ? & ? & _ & ? & _);
          rewrite Hlen; auto) (SessionID m) (Addr m)
    ltac:(apply Forall_lookup; intros i p (f & Hf & ->)%Hlook; destruct (Hall i f Hf)
          as (_ & _ & _ & _ & ? & _ & ?); auto)
    arrival [] d ms) as (outs & E & pre & l & id & Hout & Hpre & Hmsg & Hrel & Hd).
  - intros ->. apply Permutation_nil_l in Harr. by destruct frags; [simpl in Hn; lia|].
  - left. split_and!; [done..|]. unfold foreign. by rewrite Hlen.
  - rewrite app_nil_r, Harr. apply NoDup_seq.
  - by rewrite app_nil_r.
  - rewrite Harr, length_seq. simpl. lia.
  - done.
  - exists ms, outs, pre, l, id. split.
    { apply mapM_res. eapply Forall2_impl; [exact Hms|]. intros i p (f & Hf & ->)%Hlook.
      destruct (lookup_lt_is_Some_2 dgs i) as [dg Hdg];
        [rewrite Hl; by eapply lookup_lt_Some|].
      unfold index. rewrite Hdg, bind_ret. by destruct (Hdgs i f dg Hf Hdg). }
    split; [done|]. split; [done|]. split; [done|].
    split; [rewrite Hmsg; unfold hy2_payload, fs; by rewrite with_release_data, Hcat|].
    split; [|unfold d_held; by rewrite Hd].
    rewrite Hrel. simpl. apply Permutation_app_head. rewrite Harr. unfold fs.
    pose proof (with_release_release frags 0) as Hw. cbn in Hw. rewrite <- Hw. done.
Qed.

(** A UDP message too large for a datagram survives the trip: fragmented
    for any maxSize that FragUDPMessage accepts, serialized into the session's
    send buffer, delivered as datagrams in any order, parsed, and fed to a
    defragger that is in the middle of any other message, it produces nothing
    until the last fragment and then exactly the original session, packet id,
    address and payload; the abandoned message's buffers and every datagram
    buffer are released exactly once. *)
Theorem hy2_fragmentation_roundtrip m maxSize frags sendBuf d :
  msg_ok m -> 1 <= Z.of_nat (length (Addr m)) <= MaxMessageLength ->
  maxSize < Z.of_nat (Size m) -> FragUDPMessage m maxSize = Ret frags ->
  maxSize <= Z.of_nat (length sendBuf) ->
  defragger_wf d -> d_closed d = false ->
  (d_pktID d <> PacketID m \/ length (d_frags d) <> length frags) ->
  exists dgs, mapM (datagram_of sendBuf) frags = Ret dgs /\
  forall arrival, arrival ≡ₚ seq 0 (length frags) ->
  exists ms outs pre l id,
    mapM (fun i => dg ← index dgs i; receive i dg) arrival = Ret ms /\
    feed_seq d ms = Ret outs /\ outs = pre ++ [l] /\
    Forall (fun f => f_msg f = None) pre /\
    f_msg l = Some (id, MkUDPMessage (SessionID m) (PacketID m) x00 x01 (Addr m) (Data m) None) /\
    (outs ≫= f_released) ≡ₚ (d_held d ≫= release) ++ arrival /\
    d_held (f_d l) = [].
Proof. exact (fragments_reassemble m maxSize frags sendBuf d). Qed.
End transport.

(** * Witnesses *)

Definition big_msg : UDPMessage :=
  MkUDPMessage 7 513 x00 x01 ex_addr [x00; x01; x02; x03; x04; x05; x06; x07; x08; x09] None.
Definition big_frags : list UDPMessage := hy2_frags big_msg 4.

Lemma FragUDPMessage_correct_witness :
  FragUDPMessage ex_msg 20 = Ret [ex_msg] /\ FragUDPMessage big_msg 17 = Ret big_frags /\
  (exists e, FragUDPMessage big_msg 13 = Fail e).
Proof.
  split; [apply (FragUDPMessage_correct (Q:=rfc_varint) ex_msg 20); vm_compute; discriminate|].
  split; [vm_compute; reflexivity|].
  destruct (proj2 (FragUDPMessage_correct (Q:=rfc_varint) big_msg 13) ltac:(vm_compute; reflexivity))
    as [(fr & E & _)|[He _]]; [vm_compute in E; discriminate|exact He].
Defined.

Lemma hy2_defragger_conserves_witness :
  let a := with_release 0 (fragment_of big_msg 0 2 [x01]) in
  let b := with_release 1 (fragment_of big_msg 1 2 [x02]) in
  exists fs, feed_seq newDefragger [b; a] = Ret fs /\ defragger_wf (final_state newDefragger fs) /\
    (d_held newDefragger ≫= release) ++ ([b; a] ≫= release) ≡ₚ
      (fs ≫= f_released) ++ snd (Close (final_state newDefragger fs)) ++
      (fs ≫= fun f => from_option release [] (f_msg f)) /\
    d_frags (fst (Close (final_state newDefragger fs))) = [].
Proof.
  intros a b. apply (hy2_defragger_conserves newDefragger [b; a]);
    [apply newDefragger_wf|repeat constructor; set_solver].
Defined.

Lemma hy2_fragmentation_roundtrip_witness :
  exists dgs, mapM (datagram_of (replicate 64 x00)) big_frags = Ret dgs /\
  exists ms outs pre l id,
    mapM (fun i => dg ← index dgs i; receive i dg) [2%nat; 0%nat; 1%nat] = Ret ms /\
    feed_seq newDefragger ms = Ret outs /\ outs = pre ++ [l] /\
    Forall (fun f => f_msg f = None) pre /\
    f_msg l = Some (id, MkUDPMessage 7 513 x00 x01 ex_addr (Data big_msg) None) /\
    (outs ≫= f_released) ≡ₚ (d_held newDefragger ≫= release) ++ [2%nat; 0%nat; 1%nat] /\
    d_held (f_d l) = [].
Proof.
  destruct (hy2_fragmentation_roundtrip (Q:=rfc_varint) big_msg 17 big_frags (replicate 64 x00) newDefragger)
    as (dgs & E & H).
  - vm_compute. repeat split; congruence.
  - vm_compute. split; congruence.
  - vm_compute. reflexivity.
  - vm_compute. reflexivity.
  - vm_compute. discriminate.
  - apply newDefragger_wf.
  - reflexivity.
  - left. vm_compute. discriminate.
  - exists dgs. split; [exact E|]. apply (H [2%nat; 0%nat; 1%nat]).
    change (seq 0 (length big_frags)) with [0%nat; 1%nat; 2%nat].
    apply (Permutation_app_comm [2%nat] [0%nat; 1%nat]).
Defined.
