(* ===== verification/Hy2Session.v ===== *)
(** Hysteria2 UDP sessions (protocol/hysteria2/client/udp.go and the datagram
    adapter of client.go): the session manager shared by all UDP flows of one
    QUIC connection, its order-preserving parallel demultiplexer, and the
    operations of one session. The locks make the handlers atomic at the
    granularity modelled here; the demultiplexer's goroutines interleave at
    every lock release. *)

From S2P Require Import Prelude NetIP Reassembly Hy2Protocol Hy2Frag.

Definition udpMessageChanSize : nat := 128.
Definition demuxWorkerQueueLen : nat := 256.

(** * State *)

(** A udpConn object. [c_queue] is the buffered channel ReceiveCh and
    [c_chClosed] whether it was closed; [c_receiver] whether a packet receiver
    is registered; [c_sendBuf] the pooled send buffer while it is owned. *)
Record udpConn := MkConn {
  c_ID : Z; c_D : Defragger; c_queue : list mptr; c_chClosed : bool;
  c_sendBuf : option (list byte); c_closed : bool; c_receiver : bool;
  c_target : list byte; c_defaultTargetAddr : AddrPort }.

(** udpSessionManager: [g_heap] holds the conn objects ever created, by
    identity; [g_m] is the session table; [g_done] whether the done channel is
    closed; [g_once] whether closeOnce fired; [g_onIdle] a callback. *)
Record udpSessionManager := MkMgr {
  g_heap : gmap nat udpConn; g_m : gmap Z nat; g_nextID : Z;
  g_closed : bool; g_draining : bool; g_onIdle : option nat;
  g_done : bool; g_once : bool }.

(** What a handler did to the outside: buffers returned to the pool, messages
    handed to the consumer, idle callbacks run. *)
Record eff := MkEff { e_released : list nat; e_handed : list mptr; e_idle : list nat }.
Definition no_eff : eff := MkEff [] [] [].
Definition eff_app (a b : eff) : eff :=
  MkEff (e_released a ++ e_released b) (e_handed a ++ e_handed b) (e_idle a ++ e_idle b).
Definition releaseUDPMessage (m : mptr) : eff := MkEff (release m) [] [].

Definition set_heap (h : gmap nat udpConn) (g : udpSessionManager) : udpSessionManager :=
  MkMgr h (g_m g) (g_nextID g) (g_closed g) (g_draining g) (g_onIdle g) (g_done g) (g_once g).
Definition set_D (d : Defragger) (c : udpConn) : udpConn :=
  MkConn (c_ID c) d (c_queue c) (c_chClosed c) (c_sendBuf c) (c_closed c) (c_receiver c)
    (c_target c) (c_defaultTargetAddr c).
Definition set_queue (q : list mptr) (c : udpConn) : udpConn :=
  MkConn (c_ID c) (c_D c) q (c_chClosed c) (c_sendBuf c) (c_closed c) (c_receiver c)
    (c_target c) (c_defaultTargetAddr c).
Definition set_receiver (r : bool) (c : udpConn) : udpConn :=
  MkConn (c_ID c) (c_D c) (c_queue c) (c_chClosed c) (c_sendBuf c) (c_closed c) r
    (c_target c) (c_defaultTargetAddr c).

(** [conn.f()] on the object numbered [cid]. *)
Definition with_conn (g : udpSessionManager) (cid : nat) (f : udpConn -> res (udpConn * eff))
    : res (udpSessionManager * eff) :=
  match g_heap g !! cid with
  | None => Panic
  | Some c => '(c, e) ← f c; Ret (set_heap (<[cid := c]> (g_heap g)) g, e)
  end.

Section session.
(** netip.ParseAddrPort on the wire address, and the registered handler's
    verdict on a packet. *)
Context (ParseAddrPort : list byte -> res AddrPort).
Context (handler : mptr -> AddrPort -> bool).

Definition addrForMessage (c : udpConn) (addr : list byte) : res AddrPort :=
  if decide (addr = c_target c) then Ret (c_defaultTargetAddr c) else ParseAddrPort addr.

Definition feedMessage (c : udpConn) (m : mptr) : res (udpConn * list nat * option mptr) :=
  f ← Feed (c_D c) m;
  Ret (set_D (f_d f) c, f_released f, f_msg f).

(** deliverMessage after it saw a registered handler. *)
Definition handleMessage (c : udpConn) (m : mptr) : res (udpConn * eff) :=
  '(c, rel, msg) ← feedMessage c m;
  match msg with
  | None => Ret (c, MkEff rel [] [])
  | Some msg =>
      match addrForMessage c (Addr msg.2) with
      | Ret from =>
          if handler msg from then Ret (c, MkEff rel [msg] [])
          else Ret (c, MkEff (rel ++ release msg) [] [])
      | Fail _ => Ret (c, MkEff (rel ++ release msg) [] [])
      | Panic => Panic
      end
  end.

Definition deliverMessage (c : udpConn) (m : mptr) : res (bool * (udpConn * eff)) :=
  if c_receiver c then r ← handleMessage c m; Ret (true, r)
  else Ret (false, (c, no_eff)).

(** A send on a closed channel panics. *)
Definition queueIfNoReceiver (c : udpConn) (m : mptr) : res (bool * (udpConn * eff)) :=
  if c_receiver c then Ret (false, (c, no_eff))
  else if c_closed c then Ret (true, (c, releaseUDPMessage m))
  else if c_chClosed c then Panic
  else if decide (length (c_queue c) < udpMessageChanSize)%nat
  then Ret (true, (set_queue (c_queue c ++ [m]) c, no_eff))
  else Ret (true, (c, releaseUDPMessage m)).

(** RegisterPacketReceiver: swap the receiver in, then drain the queue; [q] is
    what the channel holds. *)
Fixpoint drain_loop (c : udpConn) (q : list mptr) (e : eff) : res (udpConn * eff) :=
  match q with
  | [] => Ret (c, e)
  | m :: q =>
      let c := set_queue q c in
      '(ok, (c, e')) ← deliverMessage c m;
      drain_loop c q (eff_app e (if (ok : bool) then e' else eff_app e' (releaseUDPMessage m)))
  end.

Definition RegisterPacketReceiver (c : udpConn) : res (bool * (udpConn * eff)) :=
  if c_receiver c then Ret (false, (c, no_eff))
  else
    let c := set_receiver true c in
    '(c, e) ← drain_loop c (c_queue c) no_eff;
    Ret (true, (if c_chClosed c then set_receiver false c else c, e)).

(** ReadFrom: what a call with a buffer of [plen] bytes does; [RBlock] when
    the channel is empty and open. *)
Inductive read_result :=
  | RBlock
  | RErr (e : error)
  | RData (data : list byte) (from : AddrPort) (dropped : bool).

Fixpoint read_loop (c : udpConn) (q : list mptr) (plen : nat) (rel : list nat)
    : res (read_result * (udpConn * eff)) :=
  match q with
  | [] =>
      Ret (if c_chClosed c then RErr EOF else RBlock, (c, MkEff rel [] []))
  | m :: q =>
      let c := set_queue q c in
      '(c, rel', msg) ← feedMessage c m;
      match msg with
      | None => read_loop c q plen (rel ++ rel')
      | Some msg =>
          let e := MkEff (rel ++ rel' ++ release msg) [] [] in
          match addrForMessage c (Addr msg.2) with
          | Fail err => Ret (RErr err, (c, e))
          | Panic => Panic
          | Ret from =>
              Ret (RData (take plen (Data msg.2)) from
                     (bool_decide (plen < length (Data msg.2))%nat), (c, e))
          end
      end
  end.

Definition ReadFrom (c : udpConn) (plen : nat) : res (read_result * (udpConn * eff)) :=
  read_loop c (c_queue c) plen [].

(** * Writing *)

(** Errors of the datagram transport; quic-go's DatagramTooLargeError carries
    the largest size that would have been accepted. *)
Inductive send_err := TooLarge (MaxDataLen : Z) | SendFailed (e : error).

(** quic-go's SendDatagram, given what was sent before. *)
Context (SendDatagram : list (list byte) -> list byte -> option send_err).
Context `{QuicVarint}.

(** The send buffer and the datagrams sent so far are threaded through. *)
Definition SendMessage (buf : list byte) (m : UDPMessage) (sent : list (list byte))
    : res (list byte * list (list byte) * option send_err) :=
  '(buf, n) ← Serialize m buf;
  if decide (n < 0) then Ret (buf, sent, Some (TooLarge (Z.of_nat (length buf))))
  else
    dg ← slice buf 0 (Z.to_nat n);
    match SendDatagram sent dg with
    | Some e => Ret (buf, sent, Some e)
    | None => Ret (buf, sent ++ [dg], None)
    end.

Fixpoint send_all (buf : list byte) (ms : list UDPMessage) (sent : list (list byte))
    : res (list byte * list (list byte) * option send_err) :=
  match ms with
  | [] => Ret (buf, sent, None)
  | m :: ms =>
      '(buf, sent, err) ← SendMessage buf m sent;
      match err with
      | Some e => Ret (buf, sent, Some e)
      | None => send_all buf ms sent
      end
  end.

Definition set_sendBuf (b : list byte) (c : udpConn) : udpConn :=
  MkConn (c_ID c) (c_D c) (c_queue c) (c_chClosed c) (Some b) (c_closed c) (c_receiver c)
    (c_target c) (c_defaultTargetAddr c).

(** The outcome of a write: the count and the error returned. *)
Definition writeLocked (g : rand) (c : udpConn) (b addr : list byte) (sent : list (list byte))
    : res (udpConn * list (list byte) * (nat * option send_err)) :=
  match c_sendBuf c with
  | None => Ret (c, sent, (0%nat, Some (SendFailed (Errorf "ClosedError"))))
  | Some buf =>
      if c_closed c then Ret (c, sent, (0%nat, Some (SendFailed (Errorf "ClosedError"))))
      else
        let msg := MkUDPMessage (c_ID c) 0 x00 x01 addr b None in
        '(buf, sent, err) ←
          (if decide (length buf < Size msg)%nat
           then Ret (buf, sent, Some (TooLarge (Z.of_nat (length buf))))
           else SendMessage buf msg sent);
        match err with
        | Some (TooLarge maxDataLen) =>
            let pid := (Intn g 65535 mod 65536 + 1) mod 65536 in
            let msg := MkUDPMessage (c_ID c) pid x00 x01 addr b None in
            match FragUDPMessage msg maxDataLen with
            | Panic => Panic
            | Fail e => Ret (set_sendBuf buf c, sent, (0%nat, Some (SendFailed e)))
            | Ret fMsgs =>
                '(buf, sent, err) ← send_all buf fMsgs sent;
                match err with
                | Some e => Ret (set_sendBuf buf c, sent, (0%nat, Some e))
                | None => Ret (set_sendBuf buf c, sent, (length b, None))
                end
            end
        | _ => Ret (set_sendBuf buf c, sent, (length b, err))
        end
  end.

(** WriteBatch: datagrams written before the first error. *)
Fixpoint WriteBatch_loop (g : rand) (c : udpConn) (items : list (list byte * list byte))
    (sent : list (list byte)) (n : nat)
    : res (udpConn * list (list byte) * (nat * option send_err)) :=
  match items with
  | [] => Ret (c, sent, (n, None))
  | (data, addr) :: items =>
      '(c, sent, (_, err)) ← writeLocked g c data addr sent;
      match err with
      | Some e => Ret (c, sent, (n, Some e))
      | None => WriteBatch_loop g c items sent (S n)
      end
  end.

(** * The manager *)

Definition newUDPSessionManager : udpSessionManager :=
  MkMgr ∅ ∅ 1 false false None false false.

(** [cid] is the identity of the new conn object and [buf] the buffer obtained
    from sendBufPool. *)
Definition NewUDP (g : udpSessionManager) (cid : nat) (addr buf : list byte)
    : udpSessionManager * res nat :=
  if g_closed g || g_draining g then (g, Fail (Errorf "ClosedError"))
  else
    let id := g_nextID g in
    let g := MkMgr (g_heap g) (g_m g) ((id + 1) mod 2 ^ 32) (g_closed g) (g_draining g)
               (g_onIdle g) (g_done g) (g_once g) in
    match ParseAddrPort addr with
    | Fail e => (g, Fail e)
    | Panic => (g, Panic)
    | Ret dflt =>
        let c := MkConn id newDefragger [] false (Some buf) false false addr dflt in
        (MkMgr (<[cid := c]> (g_heap g)) (<[id := cid]> (g_m g)) (g_nextID g) (g_closed g)
           (g_draining g) (g_onIdle g) (g_done g) (g_once g), Ret cid)
    end.

(** closeLocked: the returned callback is [None] when there is none to run;
    closing a closed channel panics. *)
Definition closeLocked (g : udpSessionManager) (cid : nat)
    : res (udpSessionManager * eff * option nat) :=
  match g_heap g !! cid with
  | None => Ret (g, no_eff, None)
  | Some c =>
      if c_closed c then Ret (g, no_eff, None)
      else if c_chClosed c then Panic
      else
        let '(d, rel) := Close (c_D c) in
        let c' := MkConn (c_ID c) d [] true None true false (c_target c) (c_defaultTargetAddr c) in
        let e := MkEff (rel ++ (c_queue c ≫= release)) [] [] in
        let m := delete (c_ID c) (g_m g) in
        if g_draining g && bool_decide (m = ∅) then
          Ret (MkMgr (<[cid := c']> (g_heap g)) m (g_nextID g) (g_closed g) (g_draining g)
                 None (g_done g) (g_once g), e, g_onIdle g)
        else
          Ret (MkMgr (<[cid := c']> (g_heap g)) m (g_nextID g) (g_closed g) (g_draining g)
                 (g_onIdle g) (g_done g) (g_once g), e, None)
  end.

Definition run_idle (cb : option nat) : eff := MkEff [] [] (option_list cb).

Definition close (g : udpSessionManager) (cid : nat) : res (udpSessionManager * eff) :=
  '(g, e, cb) ← closeLocked g cid;
  Ret (g, eff_app e (run_idle cb)).

(** The loop of closeCleanup over the session table, in the order [ord]; the
    last callback wins. *)
Fixpoint close_all (g : udpSessionManager) (ord : list nat) (e : eff) (cb : option nat)
    : res (udpSessionManager * eff * option nat) :=
  match ord with
  | [] => Ret (g, e, cb)
  | cid :: ord =>
      '(g, e', cb') ← closeLocked g cid;
      close_all g ord (eff_app e e') (match cb' with Some _ => cb' | None => cb end)
  end.

Definition closeCleanup (g : udpSessionManager) (ord : list nat)
    : res (udpSessionManager * eff) :=
  let g := MkMgr (g_heap g) (g_m g) (g_nextID g) (g_closed g) (g_draining g) (g_onIdle g)
             true (g_once g) in
  '(g, e, cb) ← close_all g ord no_eff None;
  let cb := match g_onIdle g with Some _ => g_onIdle g | None => cb end in
  Ret (MkMgr (g_heap g) (g_m g) (g_nextID g) true (g_draining g) None (g_done g) (g_once g),
       eff_app e (run_idle cb)).

(** closeOnce.Do(closeCleanup) *)
Definition mgr_Close (g : udpSessionManager) (ord : list nat) : res (udpSessionManager * eff) :=
  if g_once g then Ret (g, no_eff)
  else closeCleanup (MkMgr (g_heap g) (g_m g) (g_nextID g) (g_closed g) (g_draining g)
                       (g_onIdle g) (g_done g) true) ord.

Definition closeWhenIdle (g : udpSessionManager) (cb : nat) : udpSessionManager * bool :=
  if g_closed g || bool_decide (g_m g = ∅) then (g, true)
  else (MkMgr (g_heap g) (g_m g) (g_nextID g) (g_closed g) true (Some cb) (g_done g) (g_once g),
        false).

Definition Count (g : udpSessionManager) : nat := size (g_m g).
End session.

(** * Ownership of datagram buffers *)

(** [conserves ins outs e]: the buffers of the messages [ins] are those of the
    messages still owned, [outs], plus those released or handed out by [e];
    the pointers owned are among those of [ins]. *)
Definition conserves (ins outs : list mptr) (e : eff) : Prop :=
  (ins ≫= release) ≡ₚ (outs ≫= release) ++ e_released e ++ (e_handed e ≫= release) /\
  outs.*1 ⊆+ ins.*1.

#[export] Instance conserves_proper :
  Proper (Permutation ==> Permutation ==> eq ==> iff) conserves.
Proof.
  intros a a' Ha b b' Hb e _ <-. unfold conserves. by rewrite Ha, Hb.
Qed.

Lemma conserves_refl l : conserves l l no_eff.
Proof. split; [by rewrite app_nil_r|done]. Qed.

Lemma conserves_idle l cb : conserves l l (run_idle cb).
Proof. split; [by rewrite app_nil_r|done]. Qed.

Lemma conserves_trans a b c e1 e2 :
  conserves a b e1 -> conserves b c e2 -> conserves a c (eff_app e1 e2).
Proof.
  intros [H1 P1] [H2 P2]. split; [|by transitivity b.*1].
  rewrite H1, H2. cbn [eff_app e_released e_handed]. rewrite bind_app. solve_Permutation.
Qed.

Lemma conserves_frame f a b e : conserves a b e -> conserves (a ++ f) (b ++ f) e.
Proof.
  intros [H P]. split.
  - rewrite !bind_app, H. solve_Permutation.
  - rewrite !fmap_app. by apply submseteq_app.
Qed.

Lemma conserves_release m : conserves [m] [] (releaseUDPMessage m).
Proof. split; [simpl; by rewrite !app_nil_r|apply submseteq_nil_l]. Qed.

Lemma conserves_releases l : conserves l [] (MkEff (l ≫= release) [] []).
Proof. split; [simpl; by rewrite !app_nil_r|apply submseteq_nil_l]. Qed.

Lemma conserves_NoDup a b e : conserves a b e -> NoDup a.*1 -> NoDup b.*1.
Proof.
  intros [_ [k Hk]%submseteq_Permutation] Hnd. rewrite Hk in Hnd.
  by apply NoDup_app in Hnd as (? & _).
Qed.

Definition conn_msgs (c : udpConn) : list mptr := d_held (c_D c) ++ c_queue c.

(** A conn's channel is closed exactly when the conn is, and a closed conn owns
    nothing. *)
Record conn_wf (c : udpConn) : Prop := {
  cw_D : defragger_wf (c_D c);
  cw_ch : c_chClosed c = c_closed c;
  cw_Dclosed : d_closed (c_D c) = c_closed c;
  cw_empty : c_closed c = true -> conn_msgs c = [] }.

Lemma Feed_closed d m : d_closed d = true -> Feed d m = Ret (MkFed d (release m) None).
Proof. intros H. unfold Feed. by rewrite H. Qed.

Section conn_facts.
Context (ParseAddrPort : list byte -> res AddrPort) (handler : mptr -> AddrPort -> bool).
Hypothesis parse_total : forall a, ParseAddrPort a <> Panic.

(** Outcome of a conn operation that was given the messages [ms]. *)
Definition conn_step (c : udpConn) (ms : list mptr) (c' : udpConn) (e : eff) : Prop :=
  conn_wf c' /\ c_closed c' = c_closed c /\ c_ID c' = c_ID c /\
  conserves (conn_msgs c ++ ms) (conn_msgs c') e.

Lemma feedMessage_ok c m : conn_wf c -> m.1 ∉ (conn_msgs c).*1 ->
  exists d rel msg, feedMessage c m = Ret (set_D d c, rel, msg) /\
    conn_step c [m] (set_D d c) (MkEff rel (option_list msg) []).
Proof.
  intros [HD Hch Hdc He] Hm. unfold feedMessage, conn_step, conn_msgs in *.
  rewrite fmap_app in Hm.
  destruct (Feed_cases (c_D c) m HD ltac:(set_solver)) as (f & E & Hwf & Hcl & Hsub & Hcons).
  rewrite E, bind_ret. exists (f_d f), (f_released f), (f_msg f). split; [done|].
  split; [split; simpl; [done|done|congruence|]|].
  { intros Hc. specialize (He Hc). rewrite Feed_closed in E by congruence.
    by injection E as <-. }
  split; [done|]. split; [done|]. cbn [set_D c_D c_queue]. split.
  - cbn [e_released e_handed]. rewrite !bind_app. cbn [mbind list_bind]. rewrite app_nil_r.
    rewrite <- app_assoc, (Permutation_app_comm (c_queue c ≫= release)), app_assoc, Hcons.
    replace (option_list (f_msg f) ≫= release) with (from_option release [] (f_msg f))
      by (destruct (f_msg f); simpl; by rewrite ?app_nil_r).
    solve_Permutation.
  - rewrite <- app_assoc, !fmap_app, (Permutation_app_comm (c_queue c).*1).
    rewrite app_assoc. apply submseteq_app; [|done].
    rewrite (Permutation_app_comm (d_held (c_D c)).*1). simpl.
    change (m.1 :: (d_held (c_D c)).*1) with ((m :: d_held (c_D c)).*1).
    by apply fmap_submseteq.
Qed.

Lemma conn_step_eff c ms c' e e' : e_released e' ++ (e_handed e' ≫= release) ≡ₚ
  e_released e ++ (e_handed e ≫= release) -> conn_step c ms c' e -> conn_step c ms c' e'.
Proof. intros He (? & ? & ? & [Hc ?]). split_and!; [done..|]. split; [by rewrite He|done]. Qed.

Lemma handleMessage_ok c m : conn_wf c -> m.1 ∉ (conn_msgs c).*1 ->
  exists d e, handleMessage ParseAddrPort handler c m = Ret (set_D d c, e) /\
    conn_step c [m] (set_D d c) e.
Proof.
  intros Hwf Hm. unfold handleMessage.
  destruct (feedMessage_ok c m Hwf Hm) as (d & rel & msg & -> & Hs).
  rewrite bind_ret. cbn beta iota. destruct msg as [msg|]; [|by exists d; eexists].
  assert (Hr : conn_step c [m] (set_D d c) (MkEff (rel ++ release msg) [] [])).
  { eapply conn_step_eff; [|exact Hs]. simpl. by rewrite !app_nil_r. }
  unfold addrForMessage. case_decide.
  - destruct (handler _ _); by exists d; eexists.
  - pose proof (parse_total (Addr msg.2)).
    destruct (ParseAddrPort (Addr msg.2)); [destruct (handler _ _)| |done]; by exists d; eexists.
Qed.

Lemma conn_step_refl c : conn_wf c -> conn_step c [] c no_eff.
Proof. intros Hwf. split_and!; [done..|]. rewrite app_nil_r. apply conserves_refl. Qed.

Lemma conn_step_trans c1 c2 c3 ms1 ms2 e1 e2 :
  conn_step c1 ms1 c2 e1 -> conn_step c2 ms2 c3 e2 -> conn_step c1 (ms1 ++ ms2) c3 (eff_app e1 e2).
Proof.
  intros (W1 & C1 & I1 & H1) (W2 & C2 & I2 & H2). split_and!; [done|congruence..|].
  rewrite app_assoc. eapply conserves_trans; [by apply conserves_frame|done].
Qed.

Lemma queueIfNoReceiver_ok c m : conn_wf c ->
  exists ok c' e, queueIfNoReceiver c m = Ret (ok, (c', e)) /\
    (ok = false -> c' = c /\ e = no_eff /\ c_receiver c = true) /\
    (ok = true -> conn_step c [m] c' e).
Proof.
  intros Hwf. unfold queueIfNoReceiver. pose proof (cw_ch c Hwf) as Hch.
  assert (Hrel : conn_step c [m] c (releaseUDPMessage m)).
  { split_and!; [done..|]. rewrite Permutation_app_comm.
    rewrite <- (app_nil_l (conn_msgs c)) at 2. apply conserves_frame, conserves_release. }
  destruct (c_receiver c); [by eexists false, c, no_eff|].
  destruct (c_closed c) eqn:Ec; [by eexists true, c, _|]. rewrite Hch.
  case_decide; [|by eexists true, c, _]. eexists true, _, _. split; [done|]. split; [done|].
  intros _. destruct Hwf as [H1 H2 H3 H4]. split; [split; simpl; [done|done|done|congruence]|].
  split; [done|]. split; [done|]. unfold conn_msgs. cbn [set_queue c_D c_queue].
  rewrite app_assoc. apply conserves_refl.
Qed.

(** Receiving from the channel. *)
Lemma conn_pop c m q : conn_wf c -> c_queue c = m :: q ->
  conn_wf (set_queue q c) /\ conn_msgs c ≡ₚ conn_msgs (set_queue q c) ++ [m].
Proof.
  intros [H1 H2 H3 H4] Hq. split; [split; simpl; try done|].
  - intros Hc. specialize (H4 Hc). unfold conn_msgs in H4. rewrite Hq in H4.
    by apply app_eq_nil in H4 as [_ ?].
  - unfold conn_msgs. rewrite Hq. cbn [set_queue c_D c_queue]. solve_Permutation.
Qed.

Lemma pop_fresh c m q : NoDup (conn_msgs c).*1 -> conn_msgs c ≡ₚ conn_msgs (set_queue q c) ++ [m] ->
  NoDup (conn_msgs (set_queue q c)).*1 /\ m.1 ∉ (conn_msgs (set_queue q c)).*1.
Proof.
  intros Hnd Hp. apply (fmap_Permutation fst) in Hp. rewrite Hp, fmap_app in Hnd.
  apply NoDup_app in Hnd as (Hn & Hd & _). split; [done|]. intros Hin.
  specialize (Hd _ Hin). set_solver.
Qed.

(** One message popped and processed keeps the pointers distinct. *)
Lemma pop_step c m q c' e : conn_msgs c ≡ₚ conn_msgs (set_queue q c) ++ [m] ->
  conn_step (set_queue q c) [m] c' e -> conn_step c [] c' e.
Proof.
  intros Hp (? & ? & ? & Hc). split_and!; [done..|]. by rewrite app_nil_r, Hp.
Qed.

Lemma conn_step_NoDup c c' e : conn_step c [] c' e ->
  NoDup (conn_msgs c).*1 -> NoDup (conn_msgs c').*1.
Proof. intros (_ & _ & _ & H). rewrite app_nil_r in H. by apply (conserves_NoDup _ _ _ H). Qed.

Lemma eff_app_nil e : eff_app no_eff e = e.
Proof. by destruct e. Qed.

Lemma drain_loop_ok q : forall c e, conn_wf c -> NoDup (conn_msgs c).*1 ->
  c_receiver c = true -> c_queue c = q ->
  exists c' e', drain_loop ParseAddrPort handler c q e = Ret (c', eff_app e e') /\
    conn_step c [] c' e' /\ c_queue c' = [].
Proof.
  induction q as [|m q IH]; intros c e Hwf Hnd Hr Hq; cbn [drain_loop].
  - exists c, no_eff. split; [|split; [by apply conn_step_refl|done]].
    do 2 f_equal. destruct e. unfold eff_app. simpl. by rewrite !app_nil_r.
  - destruct (conn_pop c m q Hwf Hq) as [Hwf' Hp].
    destruct (pop_fresh c m q Hnd Hp) as [Hnd' Hm].
    destruct (handleMessage_ok (set_queue q c) m Hwf' Hm) as (d & e1 & E & Hs).
    unfold deliverMessage. cbn [set_queue c_receiver]. rewrite Hr.
    fold (set_queue q c). rewrite E, !bind_ret. cbn beta iota.
    pose proof (pop_step _ _ _ _ _ Hp Hs) as Hs'.
    destruct (IH (set_D d (set_queue q c)) (eff_app e e1)) as (c' & e2 & -> & Hs2 & Hq2);
      [by destruct Hs|by eapply conn_step_NoDup|done|done|].
    exists c', (eff_app e1 e2). split; [|split; [|done]].
    + do 2 f_equal. unfold eff_app. simpl. by rewrite !app_assoc.
    + by apply (conn_step_trans c (set_D d (set_queue q c)) c' [] []).
Qed.

Lemma RegisterPacketReceiver_ok c : conn_wf c -> NoDup (conn_msgs c).*1 ->
  exists ok c' e, RegisterPacketReceiver ParseAddrPort handler c = Ret (ok, (c', e)) /\
    conn_step c [] c' e /\ (ok = true -> c_queue c' = []).
Proof.
  intros Hwf Hnd. unfold RegisterPacketReceiver. destruct (c_receiver c).
  { eexists false, c, _. split; [done|]. split; [by apply conn_step_refl|done]. }
  assert (conn_wf (set_receiver true c)) as Hw by (by destruct Hwf).
  destruct (drain_loop_ok (c_queue c) (set_receiver true c) no_eff Hw Hnd eq_refl eq_refl)
    as (c' & e & E & (H1 & H2 & H3 & H4) & Hq).
  cbn [set_receiver c_queue] in E |- *. rewrite E, bind_ret, eff_app_nil. cbn beta iota.
  eexists true, _, e. split; [done|]. destruct (c_chClosed c'); [|by split_and!].
  split; [|done]. split; [by destruct H1|]. done.
Qed.

Lemma read_loop_ok plen q : forall c rel, conn_wf c -> NoDup (conn_msgs c).*1 ->
  c_queue c = q ->
  exists r c' rel', read_loop ParseAddrPort c q plen rel = Ret (r, (c', MkEff (rel ++ rel') [] [])) /\
    conn_step c [] c' (MkEff rel' [] []).
Proof.
  induction q as [|m q IH]; intros c rel Hwf Hnd Hq; cbn [read_loop].
  - eexists _, c, []. rewrite app_nil_r. split; [done|by apply conn_step_refl].
  - destruct (conn_pop c m q Hwf Hq) as [Hwf' Hp].
    destruct (pop_fresh c m q Hnd Hp) as [Hnd' Hm].
    destruct (feedMessage_ok (set_queue q c) m Hwf' Hm) as (d & rel1 & msg & -> & Hs).
    rewrite bind_ret. cbn beta iota. pose proof (pop_step _ _ _ _ _ Hp Hs) as Hs'.
    destruct msg as [msg|].
    + assert (conn_step c [] (set_D d (set_queue q c)) (MkEff (rel1 ++ release msg) [] [])).
      { eapply conn_step_eff; [|exact Hs']. simpl. by rewrite !app_nil_r. }
      unfold addrForMessage. case_decide; [by eexists _, _, _|].
      pose proof (parse_total (Addr msg.2)).
      destruct (ParseAddrPort (Addr msg.2)); [by eexists _, _, _..|done].
    + destruct (IH (set_D d (set_queue q c)) (rel ++ rel1)) as (r & c' & rel2 & -> & Hs2);
        [by destruct Hs|by eapply conn_step_NoDup|done|].
      exists r, c', (rel1 ++ rel2). rewrite app_assoc. split; [done|].
      by apply (conn_step_trans c (set_D d (set_queue q c)) c' [] [] (MkEff rel1 [] []) (MkEff rel2 [] [])).
Qed.
End conn_facts.

(** * The manager: facts *)

Definition heap_msgs (h : gmap nat udpConn) : list mptr :=
  map_to_list h ≫= fun kc => conn_msgs kc.2.

Lemma heap_msgs_delete h k c : h !! k = Some c ->
  heap_msgs h ≡ₚ conn_msgs c ++ heap_msgs (delete k h).
Proof.
  intros Hk. unfold heap_msgs. rewrite <- (map_to_list_delete h k c Hk). done.
Qed.

Lemma heap_msgs_insert h k c : h !! k = None ->
  heap_msgs (<[k := c]> h) ≡ₚ conn_msgs c ++ heap_msgs h.
Proof. intros Hk. unfold heap_msgs. rewrite (map_to_list_insert h k c Hk). done. Qed.

Lemma heap_msgs_update h k c' :
  heap_msgs (<[k := c']> h) ≡ₚ conn_msgs c' ++ heap_msgs (delete k h).
Proof. rewrite <- insert_delete_eq. apply heap_msgs_insert, lookup_delete_eq. Qed.

(** The session table only lists open conns, under their own id. *)
Record mgr_wf (g : udpSessionManager) : Prop := {
  mw_conns : forall cid c, g_heap g !! cid = Some c -> conn_wf c;
  mw_table : forall id cid, g_m g !! id = Some cid ->
    exists c, g_heap g !! cid = Some c /\ c_ID c = id /\ c_closed c = false }.

(** Every open conn is in the session table (unless a session id was reused
    while still in use). *)
Definition registered (g : udpSessionManager) : Prop :=
  forall cid c, g_heap g !! cid = Some c -> c_closed c = false -> g_m g !! c_ID c = Some cid.

(** No session is created: ids and table entries only go away, conn objects
    stay; a closed manager stays closed, and one just closed has no session. *)
Definition mgr_ext (g g' : udpSessionManager) : Prop :=
  g_nextID g' = g_nextID g /\
  (forall id cid, g_m g' !! id = Some cid -> g_m g !! id = Some cid) /\
  (forall k, is_Some (g_heap g' !! k) <-> is_Some (g_heap g !! k)) /\
  (g_closed g = true -> g_closed g' = true) /\
  (g_once g' = true -> g_once g = true \/ (g_closed g' = true /\ g_m g' = ∅)).

(** A handler that was given [ms] keeps the manager well-formed and accounts
    for every buffer. *)
Definition mgr_step (g : udpSessionManager) (ms : list mptr) (g' : udpSessionManager) (e : eff)
    : Prop :=
  mgr_wf g' /\ (registered g -> registered g') /\
  conserves (heap_msgs (g_heap g) ++ ms) (heap_msgs (g_heap g')) e /\ mgr_ext g g'.

Lemma mgr_ext_refl g : mgr_ext g g.
Proof. split_and!; auto. Qed.
Lemma table_shrink (m m' : gmap Z nat) :
  (forall id cid, m' !! id = Some cid -> m !! id = Some cid) -> m = ∅ -> m' = ∅.
Proof.
  intros H ->. apply map_eq. intros id. destruct (m' !! id) as [c|] eqn:E; [|by rewrite lookup_empty].
  apply H in E. by rewrite lookup_empty in E.
Qed.
Lemma mgr_ext_trans g1 g2 g3 : mgr_ext g1 g2 -> mgr_ext g2 g3 -> mgr_ext g1 g3.
Proof.
  intros (E1 & M1 & H1 & C1 & O1) (E2 & M2 & H2 & C2 & O2). split_and!; [congruence|auto| |auto|].
  - intros k. by rewrite H2, H1.
  - intros H3. destruct (O2 H3) as [Ho|?]; [|by right].
    destruct (O1 Ho) as [?|[? ?]]; [by left|right]. split; [auto|by eapply table_shrink].
Qed.
Lemma heap_insert_dom (h : gmap nat udpConn) cid c c' : h !! cid = Some c ->
  forall k, is_Some (<[cid := c']> h !! k) <-> is_Some (h !! k).
Proof.
  intros Hc k. rewrite lookup_insert_is_Some. destruct (decide (cid = k)) as [->|]; [|tauto].
  rewrite Hc. split; eauto.
Qed.

Lemma mgr_step_conn g cid c ms c' e :
  mgr_wf g -> g_heap g !! cid = Some c -> conn_step c ms c' e ->
  mgr_step g ms (set_heap (<[cid := c']> (g_heap g)) g) e.
Proof.
  intros [Hc Ht] Hcid (Hwf & Hcl & Hid & Hcons). split_and!.
  - split; simpl.
    + intros k x. rewrite lookup_insert_Some. intros [[<- <-]|[_ Hk]]; eauto.
    + intros id k Hk. destruct (Ht id k Hk) as (x & Hx & ? & ?).
      destruct (decide (k = cid)) as [->|]; [|rewrite lookup_insert_ne by done; eauto].
      rewrite Hx in Hcid. simplify_eq. rewrite lookup_insert_eq. eexists. split; [done|]. split; congruence.
  - intros Hr k x. cbn [set_heap g_heap g_m]. rewrite lookup_insert_Some.
    intros [[<- <-]|[_ Hk]] Hx; [rewrite Hid; apply Hr; [done|congruence]|by apply Hr].
  - cbn [set_heap g_heap]. rewrite heap_msgs_update, (heap_msgs_delete _ _ _ Hcid).
    rewrite <- app_assoc, (Permutation_app_comm (heap_msgs _) ms), app_assoc.
    by apply conserves_frame.
  - split_and!; [done|done|by apply (heap_insert_dom _ _ c)|done|by left].
Qed.

Lemma mgr_step_refl g : mgr_wf g -> mgr_step g [] g no_eff.
Proof.
  intros. split_and!; [done..| |apply mgr_ext_refl]. rewrite app_nil_r. apply conserves_refl.
Qed.

Lemma mgr_step_trans g1 g2 g3 ms1 ms2 e1 e2 :
  mgr_step g1 ms1 g2 e1 -> mgr_step g2 ms2 g3 e2 -> mgr_step g1 (ms1 ++ ms2) g3 (eff_app e1 e2).
Proof.
  intros (W1 & R1 & H1 & E1) (W2 & R2 & H2 & E2).
  split_and!; [done|by auto| |by eapply mgr_ext_trans].
  rewrite app_assoc. eapply conserves_trans; [by apply conserves_frame|done].
Qed.

Lemma mgr_step_msgs_NoDup g g' e : mgr_step g [] g' e ->
  NoDup (heap_msgs (g_heap g)).*1 -> NoDup (heap_msgs (g_heap g')).*1.
Proof. intros (_ & _ & H & _). rewrite app_nil_r in H. apply (conserves_NoDup _ _ _ H). Qed.

(** Messages owned by one conn are among the heap's. *)
Lemma conn_msgs_heap g cid c : g_heap g !! cid = Some c ->
  (conn_msgs c).*1 ⊆+ (heap_msgs (g_heap g)).*1.
Proof.
  intros Hc. rewrite (heap_msgs_delete _ _ _ Hc), fmap_app. apply submseteq_inserts_r. done.
Qed.

Lemma conn_fresh g cid c (m : mptr) : g_heap g !! cid = Some c ->
  m.1 ∉ (heap_msgs (g_heap g)).*1 -> m.1 ∉ (conn_msgs c).*1.
Proof.
  intros Hc Hm Hin. apply Hm. eapply elem_of_submseteq; [exact Hin|by eapply conn_msgs_heap].
Qed.

(** The conn as closeLocked leaves it. *)
Definition closed_conn (c : udpConn) : udpConn :=
  MkConn (c_ID c) (fst (Close (c_D c))) [] true None true false
    (c_target c) (c_defaultTargetAddr c).

Lemma closed_conn_ok c : conn_wf c ->
  conn_wf (closed_conn c) /\
  conserves (conn_msgs c) [] (MkEff (snd (Close (c_D c)) ++ (c_queue c ≫= release)) [] []).
Proof.
  intros Hwf. split; [split; simpl; [split; simpl; auto; lia|done|done|done]|].
  unfold conn_msgs. split; [|apply submseteq_nil_l].
  simpl. rewrite app_nil_r, bind_app. done.
Qed.

Definition after_close (g : udpSessionManager) (cid : nat) (c : udpConn) (cb : option nat)
    : udpSessionManager :=
  MkMgr (<[cid := closed_conn c]> (g_heap g)) (delete (c_ID c) (g_m g)) (g_nextID g)
    (g_closed g) (g_draining g) cb (g_done g) (g_once g).

Lemma after_close_ok g cid c cb : mgr_wf g -> g_heap g !! cid = Some c -> c_closed c = false ->
  mgr_step g [] (after_close g cid c cb)
    (MkEff (snd (Close (c_D c)) ++ (c_queue c ≫= release)) [] []).
Proof.
  intros [Hc Ht] Hcid Hop. destruct (closed_conn_ok c (Hc _ _ Hcid)) as [Hwf Hcons].
  split_and!.
  - split; simpl.
    + intros k x. rewrite lookup_insert_Some. intros [[<- <-]|[_ Hk]]; eauto.
    + intros id k [Hne Hk]%lookup_delete_Some. destruct (Ht id k Hk) as (x & Hx & Hxi & Hxc).
      exists x. split; [|done]. rewrite lookup_insert_ne; [done|]. intros ->.
      rewrite Hx in Hcid. congruence.
  - intros Hr k x. cbn [after_close g_heap g_m]. rewrite lookup_insert_Some.
    intros [[<- <-]|[Hne Hk]] Hx; [done|]. pose proof (Hr k x Hk Hx) as Hrx.
    pose proof (Hr cid c Hcid Hop) as Hrc.
    rewrite lookup_delete_ne; [done|]. intros E. rewrite E in Hrc. congruence.
  - rewrite app_nil_r. cbn [after_close g_heap].
    rewrite heap_msgs_update, (heap_msgs_delete _ _ _ Hcid).
    by apply (conserves_frame _ _ []).
  - split_and!; [done|simpl; intros id k [_ ?]%lookup_delete_Some; done| |done|by left].
    by apply (heap_insert_dom _ _ c).
Qed.

Lemma closeLocked_ok g cid : mgr_wf g ->
  exists g' e cb, closeLocked g cid = Ret (g', e, cb) /\ mgr_step g [] g' e /\
    g_closed g' = g_closed g /\ g_done g' = g_done g /\ g_once g' = g_once g /\
    match g_heap g !! cid with
    | Some c => if c_closed c then g' = g
                else exists cb', g' = after_close g cid c cb'
    | None => g' = g
    end.
Proof.
  intros Hwf. unfold closeLocked. destruct (g_heap g !! cid) as [c|] eqn:Ec.
  2:{ eexists _, _, _. split; [done|]. split; [by apply mgr_step_refl|done]. }
  destruct (c_closed c) eqn:Eo.
  { eexists _, _, _. split; [done|]. split; [by apply mgr_step_refl|done]. }
  rewrite (cw_ch c (mw_conns g Hwf _ _ Ec)), Eo.
  destruct (Close (c_D c)) as [d rel] eqn:ECl.
  assert (d = fst (Close (c_D c)) /\ rel = snd (Close (c_D c))) as [-> ->] by (by rewrite ECl).
  fold (closed_conn c).
  case_match; eexists _, _, _; (split; [done|]);
    (split; [by apply (after_close_ok g cid c)|]); (split_and!; [done..|]); by eexists.
Qed.

Lemma close_all_ok ord : forall g e cb, mgr_wf g ->
  exists g' e' cb', close_all g ord e cb = Ret (g', eff_app e e', cb') /\ mgr_step g [] g' e' /\
    g_closed g' = g_closed g /\ g_done g' = g_done g /\ g_once g' = g_once g /\
    (forall id cid, g_m g' !! id = Some cid -> g_m g !! id = Some cid /\ cid ∉ ord).
Proof.
  induction ord as [|cid ord IH]; intros g e cb Hwf; cbn [close_all].
  - exists g, no_eff, cb. split.
    { do 3 f_equal. unfold eff_app. destruct e; simpl. by rewrite !app_nil_r. }
    split; [by apply mgr_step_refl|]. split_and!; [done..|]. intros. split; [done|]. set_solver.
  - destruct (closeLocked_ok g cid Hwf) as (g1 & e1 & cb1 & -> & Hs & C1 & D1 & O1 & Hg1).
    rewrite bind_ret. cbn beta iota.
    destruct (IH g1 (eff_app e e1) (match cb1 with Some _ => cb1 | None => cb end)
      ltac:(by destruct Hs)) as (g2 & e2 & cb2 & -> & Hs2 & C2 & D2 & O2 & Ht).
    exists g2, (eff_app e1 e2), cb2. split.
    { do 3 f_equal. unfold eff_app. simpl. by rewrite !app_assoc. }
    split; [by apply (mgr_step_trans g g1 g2 [] [])|]. split_and!; [congruence..|].
    intros id k Hk. destruct (Ht id k Hk) as [Hk1 Hko].
    assert (g_m g !! id = Some k /\ k <> cid) as [? ?]; [|split; [done|set_solver]].
    destruct (g_heap g !! cid) as [c|] eqn:Ec.
    2:{ subst g1. split; [done|]. intros ->.
        destruct (mw_table g Hwf _ _ Hk1) as (x & Hx & _). congruence. }
    destruct (c_closed c) eqn:Eo.
    { subst g1. split; [done|]. intros ->.
      destruct (mw_table g Hwf _ _ Hk1) as (x & Hx & _ & Hxc). congruence. }
    destruct Hg1 as [cb' ->]. simpl in Hk1. apply lookup_delete_Some in Hk1 as [Hne Hk1].
    split; [done|]. intros ->. destruct (mw_table g Hwf _ _ Hk1) as (x & Hx & Hxi & _). congruence.
Qed.

Lemma mgr_Close_ok g ord : mgr_wf g -> ord ≡ₚ (map_to_list (g_m g)).*2 ->
  exists g' e, mgr_Close g ord = Ret (g', e) /\ mgr_step g [] g' e.
Proof.
  intros Hwf Hord. unfold mgr_Close. destruct (g_once g) eqn:Eo.
  { exists g, no_eff. split; [done|by apply mgr_step_refl]. }
  unfold closeCleanup. cbn [g_heap g_m g_nextID g_closed g_draining g_onIdle g_done g_once].
  set (g1 := MkMgr (g_heap g) (g_m g) (g_nextID g) (g_closed g) (g_draining g) (g_onIdle g) true true).
  assert (mgr_wf g1) as Hwf1 by (by destruct Hwf).
  destruct (close_all_ok ord g1 no_eff None Hwf1) as (g2 & e & cb & -> & Hs & C & D & O & Ht).
  rewrite bind_ret. cbn beta iota. eexists _, _. split; [done|].
  rewrite eff_app_nil. destruct Hs as (W & R & Hc & (X1 & X2 & X3 & X4 & X5)).
  split_and!; [by destruct W|done| |].
  - eapply conserves_trans; [exact Hc|apply conserves_idle].
  - split_and!; [done|done|done|done|]. intros _. right. cbn [g_closed g_m]. split; [done|].
    apply map_eq. intros id. rewrite lookup_empty. destruct (g_m g2 !! id) as [cid|] eqn:E; [|done].
    destruct (Ht id cid E) as [E1 Hni]. destruct Hni. rewrite Hord.
    apply list_elem_of_fmap. exists (id, cid). split; [done|]. by apply elem_of_map_to_list.
Qed.

Lemma NewUDP_ok Parse g cid addr buf : mgr_wf g -> g_heap g !! cid = None ->
  exists g' r, NewUDP Parse g cid addr buf = (g', r) /\ mgr_wf g' /\
    (registered g -> g_m g !! g_nextID g = None -> registered g') /\
    heap_msgs (g_heap g') ≡ₚ heap_msgs (g_heap g) /\
    (forall k c, g_heap g !! k = Some c -> g_heap g' !! k = Some c) /\
    (forall k, is_Some (g_heap g' !! k) -> is_Some (g_heap g !! k) \/ k = cid) /\
    g_once g' = g_once g /\ g_closed g' = g_closed g /\ (g_closed g = true -> g' = g).
Proof.
  intros Hwf Hc. unfold NewUDP.
  destruct (g_closed g || g_draining g) eqn:Ec.
  { eexists _, _. split; [done|]. split_and!; auto. }
  apply orb_false_iff in Ec as [Ec _].
  destruct (Parse addr) as [dflt|e|].
  2-3: eexists _, _; (split; [done|]);
    (split_and!; [by destruct Hwf|done|done|auto|auto|done|done|congruence]).
  eexists _, _. split; [done|]. destruct Hwf as [Hcs Ht].
  cbn [g_heap g_m]. split_and!.
  - split; simpl.
    + intros k c. rewrite lookup_insert_Some. intros [[<- <-]|[_ Hk]]; [|eauto].
      split; simpl; [apply newDefragger_wf|done|done|done].
    + intros id k. rewrite lookup_insert_Some. intros [[<- <-]|[_ Hk]].
      * rewrite lookup_insert_eq. by eexists.
      * destruct (Ht id k Hk) as (c & Hck & ?). exists c. split; [|done].
        rewrite lookup_insert_ne; [done|]. intros ->. congruence.
  - intros Hr Hfree k c. cbn [g_heap g_m]. rewrite lookup_insert_Some.
    intros [[<- <-]|[_ Hk]] Hop; [by rewrite lookup_insert_eq|].
    specialize (Hr k c Hk Hop). rewrite lookup_insert_ne; [done|]. intros E. congruence.
  - rewrite heap_msgs_insert by done. done.
  - intros k c Hk. rewrite lookup_insert_ne; [done|]. intros ->. congruence.
  - intros k. rewrite lookup_insert_is_Some. intros [<-|[_ Hk]]; auto.
  - done.
  - done.
  - congruence.
Qed.

(** * Writing: what the peer receives *)

Section write_facts.
Context `{Q : QuicVarint} `{L : !QuicVarintLaws}.
(** A transport that accepts datagrams of up to [mtu] bytes and reports the
    limit otherwise. *)
Context (mtu : nat).
Definition mtu_transport (_ : list (list byte)) (dg : list byte) : option send_err :=
  if decide (length dg <= mtu)%nat then None else Some (TooLarge (Z.of_nat mtu)).

Lemma SendMessage_eq buf m sent : msg_ok m -> (Size m <= length buf)%nat ->
  exists buf', length buf' = length buf /\
  SendMessage mtu_transport buf m sent =
    Ret (if decide (Size m <= mtu)%nat then (buf', sent ++ [msg_wire m], None)
         else (buf', sent, Some (TooLarge (Z.of_nat mtu)))).
Proof.
  intros Hm Hs. unfold SendMessage. rewrite Serialize_eq by done. rewrite bind_ret. cbn beta iota.
  rewrite decide_False, Nat2Z.id by lia. rewrite slice_prefix by (by apply Size_wire).
  rewrite bind_ret. unfold mtu_transport. rewrite <- Size_wire by done.
  exists (msg_wire m ++ drop (Size m) buf). split.
  - rewrite length_app, length_drop, <- Size_wire by done. lia.
  - by destruct (decide (Size m <= mtu)%nat).
Qed.

Lemma send_all_eq ms : forall buf sent,
  Forall (fun m => msg_ok m /\ Size m <= length buf /\ Size m <= mtu)%nat ms ->
  exists buf', send_all mtu_transport buf ms sent = Ret (buf', sent ++ (msg_wire <$> ms), None).
Proof.
  induction ms as [|m ms IH]; intros buf sent Hms; cbn [send_all].
  - exists buf. by rewrite app_nil_r.
  - apply Forall_cons in Hms as [(H1 & H2 & H3) Hms].
    destruct (SendMessage_eq buf m sent H1 H2) as (buf1 & Hl & ->).
    rewrite decide_True by done. rewrite bind_ret. cbn beta iota.
    destruct (IH buf1 (sent ++ [msg_wire m])) as (buf' & ->).
    { eapply Forall_impl; [exact Hms|]. simpl. rewrite Hl. done. }
    exists buf'. by rewrite fmap_cons, <- app_assoc.
Qed.

(** What a peer with an idle defragger gets from the datagrams in some order. *)
Definition peer_gets (d : Defragger) (dgs : list (list byte)) (arrival : list nat)
    : res (list mptr) :=
  ms ← mapM (fun i => dg ← index dgs i; receive i dg) arrival;
  outs ← feed_seq d ms;
  Ret (omap f_msg (outs : list fed)).

Lemma omap_last (pre : list fed) l m : Forall (fun f => f_msg f = None) pre -> f_msg l = Some m ->
  omap f_msg (pre ++ [l]) = [m].
Proof.
  intros Hpre Hl. rewrite omap_app. cbn. rewrite Hl.
  assert (omap f_msg pre = []) as ->; [|done].
  induction Hpre as [|f pre Hf _ IH]; [done|]. cbn. by rewrite Hf.
Qed.

Definition write_msg (c : udpConn) (pid : Z) (b addr : list byte) : UDPMessage :=
  MkUDPMessage (c_ID c) pid x00 x01 addr b None.
Definition write_pid (g : rand) : Z := (Intn g 65535 mod 65536 + 1) mod 65536.

Lemma write_msg_ok c pid b addr : 0 <= c_ID c < 2 ^ 32 -> 0 <= pid < 65536 ->
  Z.of_nat (length addr) <= MaxMessageLength -> msg_ok (write_msg c pid b addr).
Proof.
  unfold MaxMessageLength. intros. unfold msg_ok, write_msg, maxVarInt8. simpl. lia.
Qed.

(** A write on an open session, over a transport with a datagram limit,
    either fails before sending anything, because the header alone fills a
    datagram or more than 255 fragments would be needed, or reports the whole
    payload written and sends datagrams within the limit from which a peer
    with no message in progress obtains, whatever the order of arrival, exactly
    one message: the payload, from this session, to the given address. The
    message must fit in the session's send buffer. *)
Theorem hy2_write_delivers g c b addr buf sent d :
  c_sendBuf c = Some buf -> c_closed c = false -> 0 <= c_ID c < 2 ^ 32 ->
  1 <= Z.of_nat (length addr) <= MaxMessageLength -> b <> [] ->
  (mtu <= length buf)%nat -> (Size (write_msg c 0 b addr) <= length buf)%nat ->
  defragger_wf d -> d_closed d = false -> d_frags d = [] ->
  (exists c' e, writeLocked mtu_transport g c b addr sent = Ret (c', sent, (0%nat, Some (SendFailed e))) /\
     let h := HeaderSize (write_msg c 0 b addr) in
     (mtu <= h \/ 255 < (length b + (mtu - h) - 1) / (mtu - h))%nat) \/
  (exists c' dgs, writeLocked mtu_transport g c b addr sent = Ret (c', sent ++ dgs, (length b, None)) /\
     Forall (fun dg => length dg <= mtu)%nat dgs /\
     forall arrival, arrival ≡ₚ seq 0 (length dgs) ->
     exists id pid rel, peer_gets d dgs arrival =
       Ret [(id, MkUDPMessage (c_ID c) pid x00 x01 addr b rel)]).
Proof.
  intros Hbuf Hop Hid Ha Hb Hmtu Hfit Hwf Hdc Hdf.
  assert (Hpid : 0 <= write_pid g < 65536) by (apply Z.mod_pos_bound; lia).
  set (m0 := write_msg c 0 b addr) in *. set (m1 := write_msg c (write_pid g) b addr).
  assert (Hm0 : msg_ok m0) by (apply write_msg_ok; lia).
  assert (Hm1 : msg_ok m1) by (apply write_msg_ok; lia).
  unfold writeLocked. rewrite Hbuf, Hop. fold (write_msg c 0 b addr). fold m0.
  rewrite decide_False by lia.
  destruct (SendMessage_eq buf m0 sent Hm0 Hfit) as (buf1 & Hl1 & ->).
  rewrite bind_ret. destruct (decide (Size m0 <= mtu)%nat) as [Hs|Hs].
  - right. eexists _, [msg_wire m0]. split; [done|]. split.
    { constructor; [|done]. by rewrite <- Size_wire. }
    intros arrival Harr%Permutation_singleton_r. subst arrival.
    eexists 0%nat, 0, _. unfold peer_gets. simpl mapM. unfold receive.
    rewrite ParseUDPMessage_wire by done. rewrite !bind_ret. cbn [feed_seq].
    unfold Feed. rewrite Hdc. by rewrite decide_True.
  - cbn beta iota. fold (write_pid g). fold (write_msg c (write_pid g) b addr). fold m1.
    assert (Hs1 : Z.of_nat mtu < Z.of_nat (Size m1)) by (change (Size m1) with (Size m0); lia).
    destruct (FragUDPMessage_cases m1 (Z.of_nat mtu) Hs1) as [[frags E]|[[e E] Hwhy]]; rewrite E.
    + destruct (FragUDPMessage_facts m1 _ frags Hs1 E) as (Hn & Hcat & Hall).
      destruct (send_all_eq frags buf1 sent) as (buf2 & ->).
      { apply Forall_lookup. intros i f Hf.
        destruct (Hall i f Hf) as (? & _ & _ & _ & E1 & E2 & E3).
        unfold msg_ok in *. rewrite E1, E2, E3. lia. }
      rewrite bind_ret. right. eexists _, (msg_wire <$> frags). split; [done|].
      split.
      { apply Forall_fmap, Forall_lookup. intros i f Hf.
        destruct (Hall i f Hf) as (? & _ & _ & _ & E1 & E2 & E3).
        change (length (msg_wire f) <= mtu)%nat.
        assert (msg_ok f) as Hok; [|rewrite <- (Size_wire f Hok); lia].
        unfold msg_ok in *. by rewrite E1, E2, E3. }
      rewrite length_fmap. intros arrival Harr.
      destruct (fragments_reassemble m1 (Z.of_nat mtu) frags buf d Hm1 Ha Hs1 E ltac:(lia) Hwf Hdc)
        as (dgs & Edgs & Hdel).
      { right. rewrite Hdf. simpl. lia. }
      assert (dgs = msg_wire <$> frags) as ->.
      { apply (datagrams_wire buf frags dgs); [|done]. apply Forall_lookup. intros i f Hf.
        destruct (Hall i f Hf) as (? & _ & _ & _ & E1 & E2 & E3).
        unfold msg_ok in *. rewrite E1, E2, E3. lia. }
      destruct (Hdel arrival Harr) as (ms & outs & pre & l & id & Ems & Eo & -> & Hpre & Hl & _).
      exists id, (write_pid g), None. unfold peer_gets. rewrite Ems, bind_ret, Eo, bind_ret.
      by rewrite (omap_last pre l _ Hpre Hl).
    + left. eexists _, e. split; [done|]. change (HeaderSize m1) with (HeaderSize m0) in Hwhy.
      cbv zeta. destruct Hwhy as [?|Hw]; [left; lia|right].
      change (Data m1) with b in Hw.
      by replace (Z.to_nat (Z.of_nat mtu - Z.of_nat (HeaderSize m0))) with (mtu - HeaderSize m0)%nat in Hw by lia.
Qed.

(** A message larger than the send buffer is never delivered when the
    transport's limit is below the buffer size: it is fragmented for the
    buffer, not for the transport, so the first fragment is refused and the
    write returns an error with nothing sent. *)
Theorem hy2_write_oversize_fails g c b addr buf sent :
  c_sendBuf c = Some buf -> 0 <= c_ID c < 2 ^ 32 ->
  Z.of_nat (length addr) <= MaxMessageLength ->
  (mtu < length buf)%nat -> (length buf < Size (write_msg c 0 b addr))%nat ->
  exists c' e, writeLocked mtu_transport g c b addr sent = Ret (c', sent, (0%nat, Some e)).
Proof.
  intros Hbuf Hid Ha Hmtu Hbig.
  assert (Hpid : 0 <= write_pid g < 65536) by (apply Z.mod_pos_bound; lia).
  unfold writeLocked. rewrite Hbuf. destruct (c_closed c); [eauto|].
  fold (write_msg c 0 b addr). rewrite decide_True by done. rewrite bind_ret. cbn beta iota.
  fold (write_pid g). fold (write_msg c (write_pid g) b addr).
  set (m1 := write_msg c (write_pid g) b addr).
  assert (Hm1 : msg_ok m1) by (apply write_msg_ok; lia).
  assert (Hs1 : Z.of_nat (length buf) < Z.of_nat (Size m1))
    by (change (Size m1) with (Size (write_msg c 0 b addr)); lia).
  destruct (FragUDPMessage_cases m1 _ Hs1) as [[frags E]|[[e E] _]]; rewrite E; [|eauto].
  destruct (FragUDPMessage_first m1 _ frags Hs1 E) as (f & fs & -> & Hsz & E1 & E2 & E3).
  cbn [send_all]. destruct (SendMessage_eq buf f sent) as (buf' & _ & ->).
  { unfold msg_ok in *. by rewrite E1, E2, E3. }
  { lia. }
  rewrite decide_False by lia. rewrite bind_ret. cbn beta iota. rewrite bind_ret. eauto.
Qed.
End write_facts.

(** * Witnesses *)

Definition ex_conn (buf : list byte) : udpConn :=
  MkConn 7 newDefragger [] false (Some buf) false false ex_addr AddrPortZero.

Lemma hy2_write_delivers_witness :
  exists c' dgs, writeLocked (mtu_transport 17) zero_rand (ex_conn (replicate 64 x00))
      (Data big_msg) ex_addr [] = Ret (c', dgs, (10%nat, None)) /\
    Forall (fun dg => length dg <= 17)%nat dgs /\
    exists id pid rel, peer_gets newDefragger dgs [2%nat; 0%nat; 1%nat] =
       Ret [(id, MkUDPMessage 7 pid x00 x01 ex_addr (Data big_msg) rel)].
Proof.
  destruct (hy2_write_delivers 17 zero_rand (ex_conn (replicate 64 x00)) (Data big_msg) ex_addr
    (replicate 64 x00) [] newDefragger) as [(c' & e & E & _)|(c' & dgs & E & Hf & H)].
  - reflexivity.
  - reflexivity.
  - vm_compute. split; congruence.
  - vm_compute. split; congruence.
  - discriminate.
  - apply Nat.leb_le. vm_compute. reflexivity.
  - apply Nat.leb_le. vm_compute. reflexivity.
  - apply newDefragger_wf.
  - reflexivity.
  - reflexivity.
  - vm_compute in E. discriminate.
  - exists c', dgs. split; [exact E|]. split; [exact Hf|]. apply (H [2%nat; 0%nat; 1%nat]).
    assert (length dgs = 3%nat) as -> by (vm_compute in E; by simplify_eq).
    apply (Permutation_app_comm [2%nat] [0%nat; 1%nat]).
Defined.

Lemma hy2_write_oversize_fails_witness :
  exists c' e, writeLocked (mtu_transport 17) zero_rand (ex_conn (replicate 20 x00))
      (Data big_msg) ex_addr [] = Ret (c', [], (0%nat, Some e)).
Proof.
  apply (hy2_write_oversize_fails 17 zero_rand (ex_conn (replicate 20 x00)) (Data big_msg) ex_addr
    (replicate 20 x00) []); [reflexivity|vm_compute; split; congruence|vm_compute; congruence
    |apply Nat.leb_le; vm_compute; reflexivity..].
Defined.
