(* ===== verification/Hy2Demux.v ===== *)
(** The demultiplexer of the Hysteria2 UDP sessions (routeDemux, demuxWorker,
    feed of protocol/hysteria2/client/udp.go) as a transition system: one
    router goroutine, a pool of workers each owning the sessions congruent to
    its index, and the callers of the session API, interleaved at every lock
    release. *)

From S2P Require Import Prelude NetIP Hy2Protocol Hy2Frag Hy2Session.

(** Where a worker is inside [feed]. *)
Inductive pc :=
  | WIdle                            (* in the select of demuxWorker *)
  | WDeliver (cid : nat) (m : mptr)  (* session found, about to call deliverMessage *)
  | WHandle (cid : nat) (m : mptr)   (* deliverMessage saw a handler *)
  | WQueue (cid : nat) (m : mptr)    (* at the top of the retry loop *)
  | WExit.

Definition pc_msgs (p : pc) : list mptr :=
  match p with WDeliver _ m | WHandle _ m | WQueue _ m => [m] | _ => [] end.
Definition pc_conn (p : pc) : option nat :=
  match p with WDeliver c _ | WHandle c _ | WQueue c _ => Some c | _ => None end.

(** The whole system. [s_router] is the message the router holds, [s_queues]
    the workers' channels. The rest is history: effects so far, messages
    received in order, messages whose [feed] is over in order, and the message
    the router dropped when it stopped. *)
Record sys := MkSys {
  s_g : udpSessionManager; s_nextConn : nat; s_news : Z;
  s_router : option mptr; s_routerUp : bool;
  s_queues : list (list mptr); s_pcs : list pc;
  s_datagrams : nat; s_eff : eff;
  s_arrived : list mptr; s_fin : list mptr; s_dropped : list mptr }.

Definition init_sys (n : nat) : sys :=
  MkSys newUDPSessionManager 0 0 None true (replicate n []) (replicate n WIdle) 0 no_eff [] [] [].

(** The worker that owns a message: SessionID % len(workers). *)
Definition worker_of (n : nat) (m : mptr) : nat := Z.to_nat (SessionID m.2 mod Z.of_nat n).

(** A manager-level change with its effect. *)
Definition with_mgr (s : sys) (g : udpSessionManager) (e : eff) : sys :=
  MkSys g (s_nextConn s) (s_news s) (s_router s) (s_routerUp s) (s_queues s) (s_pcs s)
    (s_datagrams s) (eff_app (s_eff s) e) (s_arrived s) (s_fin s) (s_dropped s).

(** Worker [i] moves to [p] with channel [q]; [fin] messages are done. *)
Definition with_worker (s : sys) (i : nat) (p : pc) (q : list mptr) (fin : list mptr) : sys :=
  MkSys (s_g s) (s_nextConn s) (s_news s) (s_router s) (s_routerUp s)
    (<[i := q]> (s_queues s)) (<[i := p]> (s_pcs s))
    (s_datagrams s) (s_eff s) (s_arrived s) (s_fin s ++ fin) (s_dropped s).

Definition with_router (s : sys) (r : option mptr) (up : bool) (arr drp : list mptr) : sys :=
  MkSys (s_g s) (s_nextConn s) (s_news s) r up (s_queues s) (s_pcs s)
    (length arr + s_datagrams s) (s_eff s) (s_arrived s ++ arr) (s_fin s) (s_dropped s ++ drp).

Section demux.
Context (ParseAddrPort : list byte -> res AddrPort) (handler : mptr -> AddrPort -> bool).
Context `{Q : QuicVarint}.

(** The retry loop of [feed] under the manager's read lock. *)
Definition feed_queue (g : udpSessionManager) (cid : nat) (m : mptr)
    : res (bool * (udpSessionManager * eff)) :=
  if decide (g_m g !! SessionID m.2 = Some cid) then
    match g_heap g !! cid with
    | None => Panic
    | Some c =>
        '(ok, (c', e)) ← queueIfNoReceiver c m;
        Ret (ok, (set_heap (<[cid := c']> (g_heap g)) g, e))
    end
  else Ret (true, (g, releaseUDPMessage m)).

(** One step of worker [i], which is at [p] with channel contents [q]. *)
Definition worker_step (s : sys) (i : nat) (p : pc) (q : list mptr) : res sys :=
  match p with
  | WIdle =>
      match q with
      | [] => Ret s
      | m :: q =>
          match g_m (s_g s) !! SessionID m.2 with
          | None => Ret (with_mgr (with_worker s i WIdle q [m]) (s_g s) (releaseUDPMessage m))
          | Some cid => Ret (with_worker s i (WDeliver cid m) q [])
          end
      end
  | WDeliver cid m =>
      match g_heap (s_g s) !! cid with
      | None => Panic
      | Some c => Ret (with_worker s i (if c_receiver c then WHandle cid m else WQueue cid m) q [])
      end
  | WHandle cid m =>
      '(g, e) ← with_conn (s_g s) cid (fun c => handleMessage ParseAddrPort handler c m);
      Ret (with_mgr (with_worker s i WIdle q [m]) g e)
  | WQueue cid m =>
      '(ok, (g, e)) ← feed_queue (s_g s) cid m;
      Ret (if (ok : bool) then with_mgr (with_worker s i WIdle q [m]) g e
           else with_mgr (with_worker s i (WDeliver cid m) q []) g e)
  | WExit => Ret s
  end.

Inductive step (s : sys) : res sys -> Prop :=
  (* routeDemux: a datagram that parses is held by the router, another is
     released at once *)
  | StepReceive dg m :
      s_routerUp s = true -> s_router s = None -> receive (s_datagrams s) dg = Ret m ->
      step s (Ret (with_router s (Some m) true [m] []))
  | StepReceiveBad dg e :
      s_routerUp s = true -> s_router s = None -> receive (s_datagrams s) dg = Fail e ->
      step s (Ret s)
  | StepDispatch m i q p :
      s_router s = Some m -> i = worker_of (length (s_queues s)) m ->
      s_queues s !! i = Some q -> s_pcs s !! i = Some p -> (length q < demuxWorkerQueueLen)%nat ->
      step s (Ret (with_router (with_worker s i p (q ++ [m]) []) None (s_routerUp s) [] []))
  | StepRouterDrop m :
      s_router s = Some m -> g_done (s_g s) = true ->
      step s (Ret (with_mgr (with_router s None false [] [m]) (s_g s) (releaseUDPMessage m)))
  | StepRouterStop :
      s_router s = None -> step s (Ret (with_router s None false [] []))
  (* demuxWorker and feed *)
  | StepWorker i p q :
      s_pcs s !! i = Some p -> s_queues s !! i = Some q -> step s (worker_step s i p q)
  | StepWorkerExit i q :
      s_pcs s !! i = Some WIdle -> s_queues s !! i = Some q -> g_done (s_g s) = true ->
      step s (Ret (with_mgr (with_worker s i WExit [] q) (s_g s) (MkEff (q ≫= release) [] [])))
  (* the session API *)
  | StepNewUDP addr buf :
      step s (Ret (MkSys (fst (NewUDP ParseAddrPort (s_g s) (s_nextConn s) addr buf))
                     (S (s_nextConn s)) (s_news s + 1) (s_router s) (s_routerUp s)
                     (s_queues s) (s_pcs s) (s_datagrams s) (s_eff s)
                     (s_arrived s) (s_fin s) (s_dropped s)))
  | StepConnClose cid :
      step s ('(g, e) ← close (s_g s) cid; Ret (with_mgr s g e))
  | StepClose ord :
      ord ≡ₚ (map_to_list (g_m (s_g s))).*2 ->
      step s ('(g, e) ← mgr_Close (s_g s) ord; Ret (with_mgr s g e))
  | StepCloseWhenIdle cb :
      step s (Ret (with_mgr s (fst (closeWhenIdle (s_g s) cb)) no_eff))
  | StepRead cid plen :
      is_Some (g_heap (s_g s) !! cid) ->
      step s ('(g, e) ← with_conn (s_g s) cid (fun c =>
                '(_, r) ← ReadFrom ParseAddrPort c plen; Ret r); Ret (with_mgr s g e))
  | StepRegister cid :
      is_Some (g_heap (s_g s) !! cid) ->
      step s ('(g, e) ← with_conn (s_g s) cid (fun c =>
                '(_, r) ← RegisterPacketReceiver ParseAddrPort handler c; Ret r);
              Ret (with_mgr s g e))
  | StepUnregister cid :
      is_Some (g_heap (s_g s) !! cid) ->
      step s ('(g, e) ← with_conn (s_g s) cid (fun c => Ret (set_receiver false c, no_eff));
              Ret (with_mgr s g e)).

(** States of a manager with [n] workers. *)
Inductive reachable (n : nat) : sys -> Prop :=
  | reach_init : reachable n (init_sys n)
  | reach_step s s' : reachable n s -> step s (Ret s') -> reachable n s'.
End demux.

(** * Invariant *)

Definition queued (s : sys) : list mptr := s_queues s ≫= (fun q => q).
Definition in_flight (s : sys) : list mptr := s_pcs s ≫= pc_msgs.

(** Every message the system owns. *)
Definition all_msgs (s : sys) : list mptr :=
  heap_msgs (g_heap (s_g s)) ++ option_list (s_router s) ++ queued s ++ in_flight s.

Definition on_worker (n w : nat) (m : mptr) : Prop := worker_of n m = w.
#[export] Instance on_worker_dec n w m : Decision (on_worker n w m).
Proof. unfold on_worker. apply _. Defined.

(** Of the messages of worker [w]'s sessions, in arrival order: those already
    processed, the one being processed, those in the channel, those still with
    the router. *)
Definition fifo (n : nat) (s : sys) : Prop :=
  forall w q p, s_queues s !! w = Some q -> s_pcs s !! w = Some p ->
    filter (on_worker n w) (s_arrived s) =
      filter (on_worker n w) (s_fin s) ++ pc_msgs p ++ q ++
      filter (on_worker n w) (option_list (s_router s) ++ s_dropped s).

(** Session ids have not wrapped around: no id is handed out twice. *)
Definition ids_fresh (s : sys) : Prop :=
  1 <= g_nextID (s_g s) <= 1 + s_news s /\
  (forall id, is_Some (g_m (s_g s) !! id) -> 1 <= id < g_nextID (s_g s)) /\ registered (s_g s).

Record inv (n : nat) (s : sys) : Prop := {
  i_mgr : mgr_wf (s_g s);
  i_next : forall k, is_Some (g_heap (s_g s) !! k) -> (k < s_nextConn s)%nat;
  i_pcs : forall i p cid, s_pcs s !! i = Some p -> pc_conn p = Some cid ->
    is_Some (g_heap (s_g s) !! cid);
  i_len : length (s_queues s) = n /\ length (s_pcs s) = n;
  i_cons : conserves (s_arrived s) (all_msgs s) (s_eff s);
  i_ids : NoDup (s_arrived s).*1;
  i_rel : Forall (fun m => release m = [m.1]) (s_arrived s);
  i_once : g_once (s_g s) = true -> g_closed (s_g s) = true /\ g_m (s_g s) = ∅;
  i_below : Forall (fun k => k < s_datagrams s)%nat (s_arrived s).*1;
  i_fifo : fifo n s;
  i_stop : s_dropped s <> [] -> s_routerUp s = false /\ s_router s = None;
  i_news : 0 <= s_news s;
  i_fresh : s_news s < 2 ^ 32 - 1 -> ids_fresh s }.

Lemma bind_insert {A B} (f : A -> list B) l i x y : l !! i = Some x ->
  exists r, (l ≫= f) ≡ₚ f x ++ r /\ (<[i := y]> l ≫= f) ≡ₚ f y ++ r.
Proof.
  intros Hi. assert (i < length l)%nat by (by eapply lookup_lt_Some).
  exists ((take i l ≫= f) ++ (drop (S i) l ≫= f)). split.
  - rewrite <- (take_drop_middle l i x Hi) at 1. rewrite bind_app, bind_cons. solve_Permutation.
  - rewrite <- (take_drop_middle (<[i := y]> l) i y) at 1 by (by apply list_lookup_insert_eq).
    rewrite take_insert_ge, drop_insert_lt by lia. rewrite bind_app, bind_cons. solve_Permutation.
Qed.

Lemma list_filter_all {A} (P : A -> Prop) `{forall x, Decision (P x)} l :
  Forall P l -> filter P l = l.
Proof. induction 1 as [|x l Hx _ IH]; [done|]. by rewrite filter_cons_True, IH. Qed.
Lemma list_filter_none {A} (P : A -> Prop) `{forall x, Decision (P x)} l :
  Forall (fun x => ~ P x) l -> filter P l = [].
Proof. induction 1 as [|x l Hx _ IH]; [done|]. by rewrite filter_cons_False, IH. Qed.

(** The messages of worker [i], and everything else. *)
Lemma worker_msgs s i p q p' q' fin :
  s_pcs s !! i = Some p -> s_queues s !! i = Some q ->
  exists r, all_msgs s ≡ₚ heap_msgs (g_heap (s_g s)) ++ (q ++ pc_msgs p) ++ r /\
    (forall g e, all_msgs (with_mgr (with_worker s i p' q' fin) g e) ≡ₚ
       heap_msgs (g_heap g) ++ (q' ++ pc_msgs p') ++ r).
Proof.
  intros Hp Hq.
  destruct (bind_insert pc_msgs _ _ _ p' Hp) as (r1 & E1 & E1').
  destruct (bind_insert (fun q => q) _ _ _ q' Hq) as (r2 & E2 & E2').
  exists (option_list (s_router s) ++ r2 ++ r1). split.
  - unfold all_msgs, queued, in_flight. rewrite E1, E2. solve_Permutation.
  - intros g e. unfold all_msgs, queued, in_flight.
    cbn [with_mgr with_worker s_g s_router s_queues s_pcs]. rewrite E1', E2'. solve_Permutation.
Qed.

(** Extending the history by an effect. *)
Lemma cons_extend arr a b e1 e2 F A B :
  conserves arr a e1 -> a ≡ₚ A ++ F -> conserves A B e2 -> b ≡ₚ B ++ F ->
  conserves arr b (eff_app e1 e2).
Proof.
  intros H1 Ha H2 Hb. rewrite Ha in H1. rewrite Hb.
  eapply conserves_trans; [exact H1|by apply conserves_frame].
Qed.

Lemma inv_NoDup n s : inv n s -> NoDup (all_msgs s).*1.
Proof. intros H. eapply conserves_NoDup; [apply (i_cons n s H)|apply (i_ids n s H)]. Qed.

(** A message held outside the heap is fresh for every conn. *)
Lemma held_fresh n s (m : mptr) r : inv n s -> all_msgs s ≡ₚ heap_msgs (g_heap (s_g s)) ++ m :: r ->
  m.1 ∉ (heap_msgs (g_heap (s_g s))).*1.
Proof.
  intros Hi Hp Hin. pose proof (inv_NoDup n s Hi) as Hnd.
  rewrite Hp, fmap_app in Hnd. apply NoDup_app in Hnd as (_ & Hd & _).
  apply (Hd _ Hin). simpl. set_solver.
Qed.

Lemma eff_app_nil_r e : eff_app e no_eff = e.
Proof. destruct e. unfold eff_app. simpl. by rewrite !app_nil_r. Qed.

Lemma with_mgr_same s : with_mgr s (s_g s) no_eff = s.
Proof. destruct s. unfold with_mgr. simpl. by rewrite eff_app_nil_r. Qed.

Lemma ids_fresh_mgr s s' : s_news s' = s_news s ->
  (registered (s_g s) -> registered (s_g s')) -> mgr_ext (s_g s) (s_g s') ->
  (s_news s < 2 ^ 32 - 1 -> ids_fresh s) -> s_news s' < 2 ^ 32 - 1 -> ids_fresh s'.
Proof.
  intros En Hr (E1 & E2 & _ & _ & _) H Hn. rewrite En in Hn. destruct (H Hn) as (A & B & C).
  unfold ids_fresh. rewrite E1, En. split_and!; [lia|lia| |by apply Hr].
  intros id [c Hc]. apply B. eauto.
Qed.

(** A worker moves from [p], [q] to [p'], [q'], handing the messages [fin] to
    the manager. *)
Lemma inv_worker n s i p q p' q' fin g' e :
  inv n s -> s_pcs s !! i = Some p -> s_queues s !! i = Some q ->
  pc_msgs p ++ q = fin ++ pc_msgs p' ++ q' ->
  mgr_step (s_g s) fin g' e ->
  (forall cid, pc_conn p' = Some cid -> is_Some (g_heap (s_g s) !! cid)) ->
  inv n (with_mgr (with_worker s i p' q' fin) g' e).
Proof.
  intros Hi Hp Hq Hmove (W & R & C & X) Hpc.
  destruct (worker_msgs s i p q p' q' fin Hp Hq) as (r & Ea & Eb).
  pose proof X as (_ & Xm & Xd & Xc & Xo).
  assert (i < length (s_queues s) /\ i < length (s_pcs s))%nat as [Hl1 Hl2]
    by (split; by eapply lookup_lt_Some).
  split; cbn [with_mgr with_worker s_g s_nextConn s_pcs s_queues s_arrived s_datagrams
    s_dropped s_routerUp s_router s_news].
  - done.
  - intros k Hk. apply (i_next n s Hi), Xd, Hk.
  - intros j p0 cid. rewrite list_lookup_insert_Some.
    intros [(<- & <- & _)|[_ Hj]] Hc; apply Xd; [by apply Hpc|by eapply (i_pcs n s Hi)].
  - rewrite !length_insert. apply (i_len n s Hi).
  - eapply (cons_extend _ _ _ _ _ ((q' ++ pc_msgs p') ++ r)); [apply (i_cons n s Hi)| |exact C|apply Eb].
    rewrite Ea. rewrite (Permutation_app_comm q), Hmove. solve_Permutation.
  - apply (i_ids n s Hi).
  - apply (i_rel n s Hi).
  - intros Ho. destruct (Xo Ho) as [Ho'|?]; [|done].
    destruct (i_once n s Hi Ho') as [? ?]. split; [auto|by eapply table_shrink].
  - apply (i_below n s Hi).
  - intros w q0 p0. cbn [with_mgr with_worker s_queues s_pcs s_arrived s_fin s_router s_dropped].
    pose proof (i_fifo n s Hi i q p Hq Hp) as Hfi.
    assert (Hown : Forall (on_worker n i) fin).
    { apply Forall_forall. intros m Hm.
      assert (m ∈ filter (on_worker n i) (s_arrived s)) as [? _]%list_elem_of_filter; [|done].
      rewrite Hfi, app_assoc, (app_assoc _ q), <- (app_assoc _ _ q), Hmove. set_solver. }
    rewrite filter_app. destruct (decide (w = i)) as [->|Hne].
    + rewrite !list_lookup_insert_eq by done. intros [= <-] [= <-]. rewrite Hfi.
      rewrite (list_filter_all (on_worker n i) fin) by done.
      rewrite <- !app_assoc. f_equal. rewrite !app_assoc. f_equal. rewrite <- app_assoc. exact Hmove.
    + rewrite !list_lookup_insert_ne by done. intros Hq0 Hp0.
      rewrite (i_fifo n s Hi w q0 p0 Hq0 Hp0).
      rewrite (list_filter_none (on_worker n w) fin); [by rewrite app_nil_r|].
      eapply Forall_impl; [exact Hown|]. unfold on_worker. intros m Hm Hw. congruence.
  - apply (i_stop n s Hi).
  - apply (i_news n s Hi).
  - apply (ids_fresh_mgr s (with_mgr (with_worker s i p' q' fin) g' e));
      [done|done|done|apply (i_fresh n s Hi)].
Qed.

Lemma inv_mgr_step n s g' e : inv n s -> mgr_step (s_g s) [] g' e -> inv n (with_mgr s g' e).
Proof.
  intros Hi (W & R & C & X). pose proof X as (_ & Xm & Xd & Xc & Xo). rewrite app_nil_r in C.
  split; cbn [with_mgr s_g s_nextConn s_pcs s_queues s_arrived s_datagrams
    s_dropped s_routerUp s_router s_news]; try apply Hi.
  - done.
  - intros k Hk. apply (i_next n s Hi), Xd, Hk.
  - intros j p0 cid Hj Hc. apply Xd. by eapply (i_pcs n s Hi).
  - eapply (cons_extend _ _ _ _ _ (option_list (s_router s) ++ queued s ++ in_flight s)
              (heap_msgs (g_heap (s_g s))) (heap_msgs (g_heap g')));
      [apply (i_cons n s Hi)|reflexivity|exact C|reflexivity].
  - intros Ho. destruct (Xo Ho) as [Ho'|?]; [|done].
    destruct (i_once n s Hi Ho') as [? ?]. split; [auto|by eapply table_shrink].
  - apply (ids_fresh_mgr s (with_mgr s g' e)); [done|done|done|apply (i_fresh n s Hi)].
Qed.

Lemma inv_receive n s m : inv n s -> s_routerUp s = true -> s_router s = None ->
  m.1 = s_datagrams s -> release m = [m.1] -> inv n (with_router s (Some m) true [m] []).
Proof.
  intros Hi Hup Hr Hm Hrel.
  assert (Hd : s_dropped s = []).
  { destruct (s_dropped s) eqn:E; [done|]. destruct (i_stop n s Hi) as [? _]; congruence. }
  split; cbn [with_router s_g s_nextConn s_pcs s_queues s_arrived s_datagrams
    s_dropped s_routerUp s_router s_news length]; try apply Hi.
  - pose proof (conserves_frame [m] _ _ _ (i_cons n s Hi)) as Hc.
    unfold all_msgs in Hc |- *. rewrite Hr in Hc. cbn [with_router s_g s_router option_list].
    eapply conserves_proper; [reflexivity| |reflexivity|exact Hc].
    change (queued (with_router s (Some m) true [m] [])) with (queued s).
    change (in_flight (with_router s (Some m) true [m] [])) with (in_flight s). solve_Permutation.
  - rewrite fmap_app. apply NoDup_app. split_and!; [apply (i_ids n s Hi)| |repeat constructor; set_solver].
    intros k Hk. pose proof (i_below n s Hi) as Hb. rewrite Forall_forall in Hb.
    specialize (Hb k Hk). cbn. intros ->%list_elem_of_singleton. lia.
  - apply Forall_app. split; [apply (i_rel n s Hi)|by apply Forall_singleton].
  - rewrite fmap_app. apply Forall_app. split; [|apply Forall_singleton; lia].
    eapply Forall_impl; [apply (i_below n s Hi)|]. simpl. lia.
  - intros w q p Hq Hp. cbn [with_router s_queues s_pcs s_arrived s_fin s_router s_dropped] in *.
    rewrite !filter_app, (i_fifo n s Hi w q p Hq Hp), Hr, Hd. simpl. rewrite filter_nil.
    rewrite !app_nil_r, <- !app_assoc. done.
  - rewrite app_nil_r, Hd. done.
Qed.

Lemma inv_dispatch n s m i q p : inv n s -> s_router s = Some m -> i = worker_of n m ->
  s_queues s !! i = Some q -> s_pcs s !! i = Some p ->
  inv n (with_router (with_worker s i p (q ++ [m]) []) None (s_routerUp s) [] []).
Proof.
  intros Hi Hr Hm Hq Hp.
  assert (Hd : s_dropped s = []).
  { destruct (s_dropped s) eqn:E; [done|]. destruct (i_stop n s Hi) as [_ ?]; congruence. }
  assert (i < length (s_queues s) /\ i < length (s_pcs s))%nat as [Hl1 Hl2]
    by (split; by eapply lookup_lt_Some).
  split; cbn [with_router with_worker s_g s_nextConn s_pcs s_queues s_arrived s_datagrams
    s_dropped s_routerUp s_router s_news length Nat.add]; try apply Hi.
  - intros j p0 cid. rewrite list_insert_id by done. apply (i_pcs n s Hi).
  - rewrite !length_insert. apply Hi.
  - rewrite app_nil_r. eapply conserves_proper; [reflexivity| |reflexivity|apply (i_cons n s Hi)].
    unfold all_msgs, queued, in_flight.
    cbn [with_router with_worker s_g s_router s_queues s_pcs option_list].
    rewrite (list_insert_id _ _ _ Hp), Hr.
    destruct (bind_insert (fun q => q) _ _ _ (q ++ [m]) Hq) as (r2 & E2 & E2').
    rewrite E2, E2'. simpl. solve_Permutation.
  - rewrite app_nil_r. apply Hi.
  - rewrite app_nil_r. apply Hi.
  - rewrite app_nil_r. apply Hi.
  - intros w q0 p0. cbn [with_router with_worker s_queues s_pcs s_arrived s_fin s_router s_dropped].
    rewrite (list_insert_id _ _ _ Hp), !app_nil_r, Hd.
    destruct (decide (w = i)) as [->|Hne].
    + rewrite list_lookup_insert_eq by done. intros [= <-] Hp0.
      rewrite (i_fifo n s Hi _ q p0 Hq Hp0), Hr, Hd.
      change (option_list (Some m)) with [m]. change (option_list (@None mptr)) with (@nil mptr).
      cbn [app].
      rewrite filter_cons_True, filter_nil, app_nil_r by done. done.
    + rewrite list_lookup_insert_ne by done. intros Hq0 Hp0.
      rewrite (i_fifo n s Hi w q0 p0 Hq0 Hp0), Hr, Hd.
      change (option_list (Some m)) with [m]. change (option_list (@None mptr)) with (@nil mptr).
      cbn [app].
      rewrite filter_cons_False, filter_nil, app_nil_r by (unfold on_worker; congruence).
      done.
  - rewrite app_nil_r, Hd. done.
Qed.

Lemma inv_router_stop n s drp : inv n s -> drp = option_list (s_router s) ->
  inv n (with_mgr (with_router s None false [] drp) (s_g s) (MkEff (drp ≫= release) [] [])).
Proof.
  intros Hi ->.
  split; cbn [with_mgr with_router s_g s_nextConn s_pcs s_queues s_arrived s_datagrams
    s_dropped s_routerUp s_router s_news length Nat.add]; rewrite ?app_nil_r; try apply Hi.
  - eapply (cons_extend _ _ _ _ _ (heap_msgs (g_heap (s_g s)) ++ queued s ++ in_flight s)
              (option_list (s_router s)) []);
      [apply (i_cons n s Hi)| |apply conserves_releases|].
    + unfold all_msgs. solve_Permutation.
    + unfold all_msgs. cbn [with_mgr with_router s_g s_router option_list]. done.
  - intros w q p Hq Hp.
    cbn [with_mgr with_router s_queues s_pcs s_arrived s_fin s_router s_dropped] in *.
    rewrite app_nil_r, (i_fifo n s Hi w q p Hq Hp). cbn [option_list app]. rewrite !filter_app.
    destruct (s_router s) eqn:Er; [|by rewrite app_nil_r].
    destruct (s_dropped s) eqn:E; [by rewrite app_nil_r|].
    destruct (i_stop n s Hi) as [_ ?]; congruence.
  - done.
Qed.

Section invariant.
Context (ParseAddrPort : list byte -> res AddrPort) (handler : mptr -> AddrPort -> bool).
Context `{Q : QuicVarint}.
Hypothesis parse_total : forall a, ParseAddrPort a <> Panic.

Lemma inv_init n : inv n (init_sys n).
Proof.
  split; unfold init_sys; cbn [s_g s_nextConn s_pcs s_queues s_arrived s_datagrams
    s_dropped s_routerUp s_router s_news s_eff newUDPSessionManager g_heap].
  - by split.
  - intros k [c Hc]. cbn [init_sys s_g newUDPSessionManager g_m g_heap] in Hc.
    by rewrite lookup_empty in Hc.
  - intros i p cid [-> _]%lookup_replicate. done.
  - by rewrite !length_replicate.
  - unfold all_msgs, queued, in_flight. cbn [s_g s_router s_queues s_pcs].
    assert (replicate n [] ≫= (fun q : list mptr => q) = []) as -> by (induction n; [done|assumption]).
    assert (replicate n WIdle ≫= pc_msgs = []) as -> by (clear; induction n; [done|assumption]).
    apply conserves_refl.
  - constructor.
  - constructor.
  - done.
  - constructor.
  - intros w q p [-> _]%lookup_replicate [-> _]%lookup_replicate. done.
  - done.
  - done.
  - intros _. split_and!; [done|done| |].
    + intros id [c Hc]. cbn [init_sys s_g newUDPSessionManager g_m g_heap] in Hc.
    by rewrite lookup_empty in Hc.
    + intros k c Hc. cbn [init_sys s_g newUDPSessionManager g_m g_heap] in Hc.
    by rewrite lookup_empty in Hc.
Qed.

Lemma inv_NewUDP n s addr buf : inv n s ->
  inv n (MkSys (fst (NewUDP ParseAddrPort (s_g s) (s_nextConn s) addr buf))
           (S (s_nextConn s)) (s_news s + 1) (s_router s) (s_routerUp s)
           (s_queues s) (s_pcs s) (s_datagrams s) (s_eff s)
           (s_arrived s) (s_fin s) (s_dropped s)).
Proof.
  intros Hi.
  assert (Hf : g_heap (s_g s) !! s_nextConn s = None).
  { destruct (g_heap (s_g s) !! s_nextConn s) eqn:E; [|done].
    pose proof (i_next n s Hi (s_nextConn s) ltac:(eauto)). lia. }
  destruct (NewUDP_ok ParseAddrPort (s_g s) (s_nextConn s) addr buf (i_mgr n s Hi) Hf)
    as (g' & r & E & W & R & Hm & Hold & Hnew & Ho & Hcl & Hsame).
  split; cbn [s_g s_nextConn s_pcs s_queues s_arrived s_datagrams
    s_dropped s_routerUp s_router s_news s_eff]; rewrite ?E; cbn [fst]; try apply Hi; try done.
  - intros k Hk. destruct (Hnew k Hk) as [H | ->]; [|lia].
    pose proof (i_next n s Hi k H). lia.
  - intros i p cid Hp Hc. destruct (i_pcs n s Hi i p cid Hp Hc) as [c Hcid]. eauto.
  - eapply conserves_proper; [reflexivity| |reflexivity|apply (i_cons n s Hi)].
    unfold all_msgs. cbn [s_g s_router]. by rewrite Hm.
  - rewrite Ho. intros H1. pose proof (i_once n s Hi H1) as [? ?]. by rewrite Hsame.
  - pose proof (i_news n s Hi). lia.
  - intros Hn. destruct (i_fresh n s Hi ltac:(lia)) as (A & B & C). pose proof (i_news n s Hi).
    assert (Hfree : g_m (s_g s) !! g_nextID (s_g s) = None).
    { destruct (g_m (s_g s) !! g_nextID (s_g s)) eqn:E'; [|done].
      pose proof (B _ ltac:(eauto)). lia. }
    assert (Hg : g_nextID (s_g s) <= g_nextID g' <= g_nextID (s_g s) + 1 /\
      forall id, is_Some (g_m g' !! id) -> is_Some (g_m (s_g s) !! id) \/
        (id = g_nextID (s_g s) /\ g_nextID g' = g_nextID (s_g s) + 1)).
    { unfold NewUDP in E. destruct (g_closed (s_g s) || g_draining (s_g s)); [simplify_eq; split; [lia|auto]|].
      destruct (ParseAddrPort addr); simplify_eq; cbn [g_nextID g_m]; rewrite !Z.mod_small by lia;
        (split; [lia|]); [|by auto..].
      intros id. rewrite lookup_insert_is_Some. intros [<-|[_ Hx]]; auto. }
    destruct Hg as [Hg1 Hg2]. unfold ids_fresh. cbn [s_g s_news]. split_and!; [lia|lia| |by apply R].
    intros id Hid. destruct (Hg2 id Hid) as [Hid'|[-> ?]]; [|lia]. pose proof (B id Hid'). lia.
Qed.

(** A message given to the manager and released at once. *)
Lemma mgr_step_release g ms : mgr_wf g -> mgr_step g ms g (MkEff (ms ≫= release) [] []).
Proof.
  intros Hwf. split_and!; [done..| |apply mgr_ext_refl].
  rewrite Permutation_app_comm. apply (conserves_frame _ _ []), conserves_releases.
Qed.

Lemma release_one (m : mptr) : releaseUDPMessage m = MkEff ([m] ≫= release) [] [].
Proof. unfold releaseUDPMessage. simpl. by rewrite app_nil_r. Qed.

Lemma inv_worker_step n s i p q : inv n s -> s_pcs s !! i = Some p -> s_queues s !! i = Some q ->
  exists s', worker_step ParseAddrPort handler s i p q = Ret s' /\ inv n s'.
Proof.
  intros Hi Hp Hq. pose proof (i_mgr n s Hi) as Hwf.
  destruct (worker_msgs s i p q p q [] Hp Hq) as (r & Ea & _).
  assert (Hfr : forall m, p = WHandle (from_option id 0%nat (pc_conn p)) m ->
    m.1 ∉ (heap_msgs (g_heap (s_g s))).*1).
  { intros m E. apply (held_fresh n s m (q ++ r) Hi). rewrite Ea, E. cbn [pc_msgs]. solve_Permutation. }
  assert (Hquiet : forall p' q', pc_msgs p ++ q = pc_msgs p' ++ q' ->
    (forall cid, pc_conn p' = Some cid -> is_Some (g_heap (s_g s) !! cid)) ->
    inv n (with_worker s i p' q' [])).
  { intros p' q' Hm Hc. rewrite <- (with_mgr_same (with_worker s i p' q' [])).
    by apply (inv_worker n s i p q); [..|apply mgr_step_refl|]. }
  destruct p as [|cid m|cid m|cid m|]; cbn [worker_step].
  - destruct q as [|m q]; [by exists s|].
    destruct (g_m (s_g s) !! SessionID m.2) as [cid|] eqn:Em; eexists; (split; [done|]).
    + apply Hquiet; [done|]. intros ? [= <-].
      destruct (mw_table _ Hwf _ _ Em) as (c & Hc & _). eauto.
    + rewrite release_one.
      by apply (inv_worker n s i WIdle (m :: q)); [..|apply mgr_step_release|].
  - destruct (i_pcs n s Hi i _ cid Hp eq_refl) as [c Hc]. rewrite Hc. eexists. split; [done|].
    destruct (c_receiver c); apply Hquiet; try done; intros ? [= <-]; eauto.
  - destruct (i_pcs n s Hi i _ cid Hp eq_refl) as [c Hc].
    destruct (handleMessage_ok ParseAddrPort handler parse_total c m (mw_conns _ Hwf _ _ Hc)
      (conn_fresh _ _ _ _ Hc (Hfr m eq_refl))) as (d & e & E & Hs).
    unfold with_conn. rewrite Hc, E, !bind_ret. cbn beta iota. rewrite ?bind_ret.
    eexists. split; [done|].
    apply (inv_worker n s i (WHandle cid m) q); [done..| |done].
    by apply (mgr_step_conn _ cid c).
  - unfold feed_queue. case_decide as Et.
    + destruct (mw_table _ Hwf _ _ Et) as (c & Hc & _). rewrite Hc.
      destruct (queueIfNoReceiver_ok c m (mw_conns _ Hwf _ _ Hc)) as (ok & c' & e & -> & Hno & Hyes).
      rewrite !bind_ret. cbn beta iota. rewrite ?bind_ret. eexists. split; [done|]. destruct ok.
      * apply (inv_worker n s i (WQueue cid m) q); [done..| |done].
        by apply (mgr_step_conn _ cid c); [..|apply Hyes].
      * destruct (Hno eq_refl) as (-> & -> & _). rewrite insert_id by done.
        replace (set_heap (g_heap (s_g s)) (s_g s)) with (s_g s) by (by destruct (s_g s)).
        change (s_g s) with (s_g (with_worker s i (WDeliver cid m) q [])).
        rewrite with_mgr_same. apply Hquiet; [done|]. intros ? [= <-]. eauto.
    + rewrite bind_ret. cbn beta iota. eexists. split; [done|]. rewrite release_one.
      by apply (inv_worker n s i (WQueue cid m) q); [..|apply mgr_step_release|].
  - by exists s.
Qed.

(** An API call on one conn. *)
Lemma inv_with_conn n s cid (f : udpConn -> res (udpConn * eff)) :
  inv n s -> is_Some (g_heap (s_g s) !! cid) ->
  (forall c, conn_wf c -> NoDup (conn_msgs c).*1 -> exists c' e, f c = Ret (c', e) /\ conn_step c [] c' e) ->
  exists s', ('(g, e) ← with_conn (s_g s) cid f; Ret (with_mgr s g e)) = Ret s' /\ inv n s'.
Proof.
  intros Hi [c Hc] Hf. unfold with_conn. rewrite Hc.
  destruct (Hf c (mw_conns _ (i_mgr n s Hi) _ _ Hc)) as (c' & e & -> & Hs).
  { pose proof (inv_NoDup n s Hi) as Hnd. unfold all_msgs in Hnd.
    rewrite fmap_app in Hnd. apply NoDup_app in Hnd as (Hnd & _).
    pose proof (conn_msgs_heap _ _ _ Hc) as [k Hk]%submseteq_Permutation.
    rewrite Hk in Hnd. by apply NoDup_app in Hnd as (? & _). }
  rewrite !bind_ret. cbn beta iota. rewrite ?bind_ret. eexists. split; [done|].
  apply inv_mgr_step; [done|]. by apply (mgr_step_conn _ cid c); [apply Hi|..].
Qed.

Lemma close_ok g cid : mgr_wf g -> exists g' e, close g cid = Ret (g', e) /\ mgr_step g [] g' e.
Proof.
  intros Hwf. unfold close.
  destruct (closeLocked_ok g cid Hwf) as (g' & e & cb & -> & (W & R & C & X) & _).
  rewrite bind_ret. eexists _, _. split; [done|]. split_and!; [done..| |done].
  eapply conserves_trans; [exact C|apply conserves_idle].
Qed.

Lemma receive_id id dg m : receive id dg = Ret m -> m.1 = id /\ release m = [m.1].
Proof. unfold receive. destruct (ParseUDPMessage dg); [|done..]. simpl. by intros [= <-]. Qed.

Lemma step_inv n s r : inv n s -> step ParseAddrPort handler s r ->
  exists s', r = Ret s' /\ inv n s'.
Proof.
  intros Hi Hst. pose proof (i_mgr n s Hi) as Hwf.
  destruct Hst as [dg m Hup Hr E|dg e Hup Hr E|m i q p Hr Em Hq Hp _|m Hr Hd|Hr|i p q Hp Hq
    |i q Hp Hq Hd|addr buf|cid|ord Hord|cb|cid plen Hc|cid Hc|cid Hc].
  - destruct (receive_id _ _ _ E). eexists. split; [done|]. by apply inv_receive.
  - by exists s.
  - eexists. split; [done|]. apply inv_dispatch; [done..| |done|done].
    by rewrite <- (proj1 (i_len n s Hi)).
  - eexists. split; [done|]. rewrite release_one. apply inv_router_stop; [done|by rewrite Hr].
  - eexists. split; [done|].
    pose proof (inv_router_stop n s [] Hi ltac:(by rewrite Hr)) as Hs.
    change (MkEff ([] ≫= release) [] []) with no_eff in Hs.
    change (s_g s) with (s_g (with_router s None false [] [])) in Hs.
    by rewrite with_mgr_same in Hs.
  - by apply inv_worker_step.
  - eexists. split; [done|].
    apply (inv_worker n s i WIdle q); [done..| |by apply mgr_step_release|done].
    cbn. by rewrite app_nil_r.
  - eexists. split; [done|]. by apply inv_NewUDP.
  - destruct (close_ok (s_g s) cid Hwf) as (g' & e & -> & Hs). rewrite bind_ret.
    eexists. split; [done|]. by apply inv_mgr_step.
  - destruct (mgr_Close_ok (s_g s) ord Hwf Hord) as (g' & e & -> & Hs). rewrite bind_ret.
    eexists. split; [done|]. by apply inv_mgr_step.
  - eexists. split; [done|]. apply inv_mgr_step; [done|]. unfold closeWhenIdle.
    destruct (g_closed (s_g s) || _); [by apply mgr_step_refl|]. cbn [fst].
    split_and!; [by destruct Hwf|done|rewrite app_nil_r; apply conserves_refl|].
    split_and!; auto.
  - apply inv_with_conn; [done..|]. intros c Hw Hnd. unfold ReadFrom.
    destruct (read_loop_ok ParseAddrPort handler parse_total plen (c_queue c) c [] Hw Hnd eq_refl)
      as (r & c' & rel & -> & Hs). rewrite bind_ret. eauto.
  - apply inv_with_conn; [done..|]. intros c Hw Hnd.
    destruct (RegisterPacketReceiver_ok ParseAddrPort handler parse_total c Hw Hnd)
      as (ok & c' & e & -> & Hs & _). rewrite bind_ret. eauto.
  - apply inv_with_conn; [done..|]. intros c Hw Hnd. eexists _, _. split; [done|].
    split; [by destruct Hw|]. split; [done|]. split; [done|].
    rewrite app_nil_r. apply conserves_refl.
Qed.

Lemma reachable_inv n s : reachable ParseAddrPort handler n s -> inv n s.
Proof.
  induction 1 as [|s s' _ IH Hst]; [apply inv_init|].
  by destruct (step_inv n s _ IH Hst) as (s'' & [= <-] & ?).
Qed.

(** C32: No interleaving of the router, the workers and the session API
    panics: in particular no message is ever sent on a session channel that
    closeLocked has closed, and no channel is closed twice. *)
Theorem hy2_demux_no_panic n s r :
  reachable ParseAddrPort handler n s -> step ParseAddrPort handler s r -> r <> Panic.
Proof.
  intros Hr%reachable_inv Hs. by destruct (step_inv n s r Hr Hs) as (s' & -> & _).
Qed.

(** C18: Datagram buffers are neither leaked nor released twice: in every
    reachable state the buffers of all received datagrams are exactly those
    released, those handed to consumers and those owned by a session, a worker
    or the router, each once. *)
Theorem hy2_demux_buffers n s : reachable ParseAddrPort handler n s ->
  (s_arrived s).*1 ≡ₚ (all_msgs s ≫= release) ++ e_released (s_eff s) ++
                      (e_handed (s_eff s) ≫= release) /\
  NoDup ((all_msgs s ≫= release) ++ e_released (s_eff s) ++ (e_handed (s_eff s) ≫= release)).
Proof.
  intros Hi%reachable_inv.
  assert (E : (s_arrived s ≫= release) = (s_arrived s).*1).
  { pose proof (i_rel n s Hi) as Hr. clear -Hr. induction Hr as [|m l Hm _ IH]; [done|].
    rewrite bind_cons, Hm, IH. done. }
  destruct (i_cons n s Hi) as [Hc _]. rewrite E in Hc. split; [done|].
  rewrite <- Hc. apply (i_ids n s Hi).
Qed.

(** C19: Order-preserving parallel demultiplexing: however many workers run and
    however they interleave, the messages of one session are processed in the
    order the transport delivered them. *)
Theorem hy2_demux_in_order n s sid : (0 < n)%nat -> reachable ParseAddrPort handler n s ->
  let mine := filter (fun m : mptr => SessionID m.2 = sid) in
  mine (s_fin s) `prefix_of` mine (s_arrived s).
Proof.
  intros Hn Hi%reachable_inv mine. set (w := Z.to_nat (sid mod Z.of_nat n)).
  destruct (i_len n s Hi) as [Hlq Hlp].
  assert (w < n)%nat by (unfold w; pose proof (Z.mod_pos_bound sid (Z.of_nat n)); lia).
  destruct (lookup_lt_is_Some_2 (s_queues s) w ltac:(lia)) as [q Hq].
  destruct (lookup_lt_is_Some_2 (s_pcs s) w ltac:(lia)) as [p Hp].
  pose proof (i_fifo n s Hi w q p Hq Hp) as Hf.
  assert (Hsub : forall l, mine (filter (on_worker n w) l) = mine l).
  { intros l. unfold mine. rewrite list_filter_filter_l; [done|].
    intros m Hm. unfold on_worker, worker_of, w. by rewrite Hm. }
  rewrite <- (Hsub (s_arrived s)), Hf. unfold mine. rewrite filter_app.
  fold mine. rewrite Hsub. by apply prefix_app_r.
Qed.

(** Once the manager is closed no session owns a buffer any more, and none
    ever will: every reachable closed state (short of a session id wrapping
    around) has an empty session table and empty queues and defraggers. *)
Theorem hy2_close_releases_all n s :
  reachable ParseAddrPort handler n s -> s_news s < 2 ^ 32 - 1 -> g_once (s_g s) = true ->
  g_m (s_g s) = ∅ /\ g_closed (s_g s) = true /\ heap_msgs (g_heap (s_g s)) = [].
Proof.
  intros Hi%reachable_inv Hn Ho. destruct (i_once n s Hi Ho) as [Hc Hm]. split_and!; [done..|].
  destruct (i_fresh n s Hi Hn) as (_ & _ & Hreg).
  assert (Hall : forall kc, kc ∈ map_to_list (g_heap (s_g s)) -> conn_msgs kc.2 = []).
  { intros [k c] Hk%elem_of_map_to_list. pose proof (mw_conns _ (i_mgr n s Hi) k c Hk) as Hw.
    destruct (c_closed c) eqn:E; [by apply (cw_empty c Hw)|].
    pose proof (Hreg k c Hk E) as Hx. by rewrite Hm, lookup_empty in Hx. }
  unfold heap_msgs. induction (map_to_list (g_heap (s_g s))) as [|kc l IH]; [done|].
  rewrite bind_cons, Hall, IH by set_solver. done.
Qed.
End invariant.

(** * Witnesses *)

(** A parser that knows one address, a handler that accepts everything, and a
    run: open a session, receive a datagram for it, dispatch it, deliver it to
    the session's queue, close the manager. *)
Definition ex_parse (_ : list byte) : res AddrPort :=
  Ret (MkAddrPort (Addr4 [x7f; x00; x00; x01]) 53).
Definition ex_handler (_ : mptr) (_ : AddrPort) : bool := true.
Lemma ex_parse_total a : ex_parse a <> Panic.
Proof. discriminate. Qed.

Definition ex_in : mptr := with_release 0 (MkUDPMessage 1 0 x00 x01 ex_addr [x01] None).
Definition ex1 : sys := (* NewUDP *)
  MkSys (fst (NewUDP ex_parse newUDPSessionManager 0 ex_addr [])) 1 1 None true [[]] [WIdle] 0
    no_eff [] [] [].
Definition ex2 : sys := with_router ex1 (Some ex_in) true [ex_in] [].
Definition ex3 : sys := with_router (with_worker ex2 0 WIdle [ex_in] []) None true [] [].
Definition ex4 : sys := with_worker ex3 0 (WDeliver 0 ex_in) [] [].
Definition ex5 : sys := with_worker ex4 0 (WQueue 0 ex_in) [] [].

Lemma ex5_reachable : reachable ex_parse ex_handler 1 ex5.
Proof.
  assert (R1 : reachable ex_parse ex_handler 1 ex1).
  { eapply reach_step; [apply reach_init|].
    exact (StepNewUDP ex_parse ex_handler (init_sys 1) ex_addr []). }
  assert (R2 : reachable ex_parse ex_handler 1 ex2).
  { eapply reach_step; [exact R1|].
    apply (StepReceive _ _ ex1 (msg_wire ex_in.2)); [reflexivity..|vm_compute; reflexivity]. }
  assert (R3 : reachable ex_parse ex_handler 1 ex3).
  { eapply reach_step; [exact R2|].
    apply (StepDispatch _ _ ex2 ex_in 0 [] WIdle); [reflexivity..|]. simpl.
    unfold demuxWorkerQueueLen. lia. }
  assert (R4 : reachable ex_parse ex_handler 1 ex4).
  { eapply reach_step; [exact R3|].
    exact (StepWorker ex_parse ex_handler ex3 0 WIdle [ex_in] eq_refl eq_refl). }
  eapply reach_step; [exact R4|].
  exact (StepWorker ex_parse ex_handler ex4 0 (WDeliver 0 ex_in) [] eq_refl eq_refl).
Qed.

(** The worker is about to queue the message. *)
Lemma hy2_demux_no_panic_witness :
  worker_step ex_parse ex_handler ex5 0 (WQueue 0 ex_in) [] <> Panic.
Proof.
  apply (hy2_demux_no_panic ex_parse ex_handler ex_parse_total 1 ex5 _ ex5_reachable).
  exact (StepWorker ex_parse ex_handler ex5 0 (WQueue 0 ex_in) [] eq_refl eq_refl).
Defined.

Lemma hy2_demux_buffers_witness :
  [0%nat] ≡ₚ (all_msgs ex5 ≫= release) ++ e_released (s_eff ex5) ++ (e_handed (s_eff ex5) ≫= release).
Proof.
  exact (proj1 (hy2_demux_buffers ex_parse ex_handler ex_parse_total 1 ex5 ex5_reachable)).
Defined.

Definition ex6 : sys := Eval vm_compute in
  match worker_step ex_parse ex_handler ex5 0 (WQueue 0 ex_in) [] with Ret s => s | _ => ex5 end.
Lemma ex6_reachable : reachable ex_parse ex_handler 1 ex6.
Proof.
  eapply reach_step; [apply ex5_reachable|].
  exact (StepWorker ex_parse ex_handler ex5 0 (WQueue 0 ex_in) [] eq_refl eq_refl).
Qed.

Lemma hy2_demux_in_order_witness :
  [ex_in] = filter (fun m : mptr => SessionID m.2 = 1) (s_fin ex6) /\
  filter (fun m : mptr => SessionID m.2 = 1) (s_fin ex6) `prefix_of`
  filter (fun m : mptr => SessionID m.2 = 1) (s_arrived ex6).
Proof.
  split; [vm_compute; reflexivity|].
  apply (hy2_demux_in_order ex_parse ex_handler ex_parse_total 1 ex6 1 ltac:(lia) ex6_reachable).
Defined.

Definition ex7 : sys := Eval vm_compute in
  match mgr_Close (s_g ex6) [0%nat] with Ret (g, e) => with_mgr ex6 g e | _ => ex6 end.
Lemma ex7_reachable : reachable ex_parse ex_handler 1 ex7.
Proof.
  eapply reach_step; [apply ex6_reachable|].
  refine (StepClose ex_parse ex_handler ex6 [0%nat] _). vm_compute. reflexivity.
Qed.

Lemma hy2_close_releases_all_witness :
  e_released (s_eff ex7) = [0%nat] /\
  g_m (s_g ex7) = ∅ /\ g_closed (s_g ex7) = true /\ heap_msgs (g_heap (s_g ex7)) = [].
Proof.
  split; [reflexivity|].
  apply (hy2_close_releases_all ex_parse ex_handler ex_parse_total 1 ex7 ex7_reachable);
    [vm_compute; reflexivity|reflexivity].
Defined.
