(* ===== verification/Salamander.v ===== *)
(** Salamander packet obfuscation (protocol/hysteria2/obfs/salamander.go) and
    the packet connection that applies it (obfs/conn.go). *)

From S2P Require Import Prelude.

Definition smPSKMinLen : nat := 4.
Definition smSaltLen : nat := 8.
Definition smKeyLen : nat := 32.
Definition udpBufferSize : nat := 2048.

(** [c ^ k] on bytes. *)
Definition byte_xor (a b : byte) : byte := z2b (Z.lxor (b2z a) (b2z b)).

(** The obfuscator object; [keyInput] is its scratch buffer, rewritten by every
    packet. *)
Record salamanderObfuscator := MkSm { PSK : list byte; keyInput : list byte }.

Definition newSalamanderObfuscator (psk : list byte) : res salamanderObfuscator :=
  if decide (length psk < smPSKMinLen)%nat
  then Fail (Errorf "PSK must be at least %d bytes")
  else
    '(ki, _) ← copy_at (replicate (length psk + smSaltLen) x00) 0 psk;
    Ret (MkSm psk ki).

Section salamander.
(** blake2b.Sum256 (golang.org/x/crypto) is a dependency. *)
Context (Sum256 : list byte -> list byte).

Definition keyLocked (o : salamanderObfuscator) (salt : list byte)
    : res (salamanderObfuscator * list byte) :=
  s ← slice salt 0 smSaltLen;
  '(ki, _) ← copy_at (keyInput o) (length (PSK o)) s;
  Ret (MkSm (PSK o) ki, Sum256 ki).

(** [for i, c := range src { out[i+off] = c ^ key[i%smKeyLen] }] *)
Fixpoint xor_loop (key src : list byte) (i off : nat) (out : list byte) : res (list byte) :=
  match src with
  | [] => Ret out
  | c :: src =>
      k ← index key (i mod smKeyLen);
      out ← set_at out (i + off) (byte_xor c k);
      xor_loop key src (S i) off out
  end.

(** [salt] is what RandSrc.Read stores. Returns the object, the output buffer
    and the count. *)
Definition Obfuscate (o : salamanderObfuscator) (salt src out : list byte)
    : res (salamanderObfuscator * list byte * nat) :=
  let outLen := (length src + smSaltLen)%nat in
  if decide (length out < outLen)%nat then Ret (o, out, 0%nat)
  else
    out ← write_at out 0 salt;
    s ← slice out 0 smSaltLen;
    '(o, key) ← keyLocked o s;
    out ← xor_loop key src 0 smSaltLen out;
    Ret (o, out, outLen).

Definition Deobfuscate (o : salamanderObfuscator) (src out : list byte)
    : res (salamanderObfuscator * list byte * nat) :=
  if decide (length src <= smSaltLen \/ length out < length src - smSaltLen)%nat
  then Ret (o, out, 0%nat)
  else
    s ← slice src 0 smSaltLen;
    '(o, key) ← keyLocked o s;
    body ← slice_from src smSaltLen;
    out ← xor_loop key body 0 0 out;
    Ret (o, out, (length src - smSaltLen)%nat).

(** * obfsPacketConn *)

Record obfsPacketConn := MkObfs { Obfs : salamanderObfuscator; readBuf : list byte; writeBuf : list byte }.

Definition wrapPacketConn (ob : salamanderObfuscator) : obfsPacketConn :=
  MkObfs ob (replicate udpBufferSize x00) (replicate udpBufferSize x00).

(** The packet handed to the underlying connection, whose error is [err], and
    the two results. *)
Definition WriteTo (c : obfsPacketConn) (salt p : list byte) (err : option error)
    : res (obfsPacketConn * list byte * (nat * option error)) :=
  '(o, wb, nn) ← Obfuscate (Obfs c) salt p (writeBuf c);
  pkt ← slice wb 0 nn;
  Ret (MkObfs o (readBuf c) wb, pkt, (match err with None => length p | Some _ => 0%nat end, err)).

(** [ReadFrom(p)] against the packets the underlying connection delivers (each
    truncated to readBuf); [None] when it would block for another one. Returns
    the packets left, [p] after the call and the count. *)
Fixpoint ReadFrom (c : obfsPacketConn) (incoming : list (list byte)) (p : list byte)
    : res (obfsPacketConn * option (list (list byte) * list byte * nat)) :=
  match incoming with
  | [] => Ret (c, None)
  | pkt :: incoming =>
      '(rb, n) ← copy_at (readBuf c) 0 pkt;
      if decide (n = 0%nat) then Ret (MkObfs (Obfs c) rb (writeBuf c), Some (incoming, p, 0%nat))
      else
        src ← slice rb 0 n;
        '(o, p', m) ← Deobfuscate (Obfs c) src p;
        let c := MkObfs o rb (writeBuf c) in
        if decide (0 < m)%nat then Ret (c, Some (incoming, p', m))
        else ReadFrom c incoming p'
  end.
End salamander.

(** * Facts *)

Lemma byte_xor_invol a b : byte_xor (byte_xor a b) b = a.
Proof.
  apply b2z_inj. unfold byte_xor.
  pose proof (b2z_range a). pose proof (b2z_range b).
  assert (0 <= Z.lxor (b2z a) (b2z b) < 256).
  { assert (Hn : 0 <= Z.lxor (b2z a) (b2z b)) by (apply Z.lxor_nonneg; lia).
    split; [done|]. destruct (decide (Z.lxor (b2z a) (b2z b) = 0)) as [->|]; [lia|].
    apply (Z.log2_lt_pow2 _ 8); [lia|].
    eapply Z.le_lt_trans; [apply Z.log2_lxor; lia|].
    apply Z.max_lub_lt; (destruct (decide (b2z a = 0)); destruct (decide (b2z b = 0));
      try (apply Z.log2_lt_pow2; lia)); rewrite ?e, ?e0; simpl; lia. }
  rewrite b2z_z2b, (b2z_z2b_small (Z.lxor (b2z a) (b2z b))) by done.
  rewrite Z.lxor_assoc, Z.lxor_nilpotent, Z.lxor_0_r. apply Z.mod_small. lia.
Qed.

(** The keystream applied to a byte string from position [i] on. *)
Fixpoint xor_key (key src : list byte) (i : nat) : list byte :=
  match src with
  | [] => []
  | c :: src => byte_xor c (default x00 (key !! (i mod smKeyLen)%nat)) :: xor_key key src (S i)
  end.

Lemma length_xor_key key src i : length (xor_key key src i) = length src.
Proof. revert i. induction src; intros; simpl; auto. Qed.

Lemma xor_key_invol key src i : xor_key key (xor_key key src i) i = src.
Proof. revert i. induction src as [|c src IH]; intros i; simpl; [done|]. by rewrite byte_xor_invol, IH. Qed.

Lemma xor_loop_app key src : forall i off (done rest : list byte),
  length key = smKeyLen -> length done = (i + off)%nat -> (length src <= length rest)%nat ->
  xor_loop key src i off (done ++ rest) =
    Ret ((done ++ xor_key key src i) ++ drop (length src) rest).
Proof.
  induction src as [|c src IH]; intros i off done rest Hk Hd Hl; cbn [xor_loop xor_key].
  - by rewrite app_nil_r, drop_0.
  - unfold index.
    assert (i mod smKeyLen < length key)%nat as Hi by (rewrite Hk; apply Nat.mod_upper_bound; done).
    destruct (lookup_lt_is_Some_2 _ _ Hi) as [k ->]. rewrite bind_ret. simpl in Hl.
    rewrite set_at_app by (lia || done). rewrite bind_ret.
    rewrite IH by len. rewrite drop_drop, <- (app_assoc done). done.
Qed.

Definition sm_wf (o : salamanderObfuscator) : Prop :=
  exists s, keyInput o = PSK o ++ s /\ length s = smSaltLen.
Definition conn_ok (c : obfsPacketConn) : Prop :=
  sm_wf (Obfs c) /\ length (readBuf c) = udpBufferSize /\ length (writeBuf c) = udpBufferSize.

Lemma newSalamanderObfuscator_wf psk :
  (length psk < smPSKMinLen)%nat /\ (exists e, newSalamanderObfuscator psk = Fail e) \/
  exists o, newSalamanderObfuscator psk = Ret o /\ PSK o = psk /\ sm_wf o.
Proof.
  unfold newSalamanderObfuscator. case_decide; [left; eauto|right].
  rewrite (copy_at_app [] psk (replicate (length psk + smSaltLen) x00)) by len. rewrite bind_ret. eexists. split; [done|].
  split; [done|]. eexists. split; [reflexivity|]. unfold smSaltLen. len.
Qed.

Lemma wrapPacketConn_ok o : sm_wf o -> conn_ok (wrapPacketConn o).
Proof. intros. split_and!; [done|apply length_replicate..]. Qed.

Section salamander_facts.
Context (Sum256 : list byte -> list byte).
Hypothesis Sum256_length : forall x, length (Sum256 x) = smKeyLen.

Lemma keyLocked_eq o salt : sm_wf o -> length salt = smSaltLen ->
  keyLocked Sum256 o salt = Ret (MkSm (PSK o) (PSK o ++ salt), Sum256 (PSK o ++ salt)).
Proof.
  intros (s & Hk & Hl) Hs. unfold keyLocked.
  rewrite <- (app_nil_r salt) at 1. rewrite slice_prefix by done. rewrite bind_ret.
  rewrite Hk, copy_at_app by (done || lia). rewrite bind_ret. cbn beta iota.
  rewrite drop_ge, app_nil_r by lia. done.
Qed.

Lemma sm_wf_key psk salt : length salt = smSaltLen -> sm_wf (MkSm psk (psk ++ salt)).
Proof. intros. by exists salt. Qed.

Lemma Obfuscate_eq o salt src out : sm_wf o -> length salt = smSaltLen ->
  (length src + smSaltLen <= length out)%nat ->
  Obfuscate Sum256 o salt src out =
    Ret (MkSm (PSK o) (PSK o ++ salt),
         salt ++ xor_key (Sum256 (PSK o ++ salt)) src 0 ++ drop (length src + smSaltLen) out,
         (length src + smSaltLen)%nat).
Proof.
  intros Ho Hs Hl. unfold Obfuscate. rewrite decide_False by lia.
  rewrite (write_at_app [] salt out) by len. rewrite bind_ret. cbn [app].
  rewrite slice_prefix by done. rewrite bind_ret, keyLocked_eq by done. rewrite bind_ret. cbn beta iota.
  rewrite xor_loop_app by (try done; len). rewrite bind_ret.
  rewrite drop_drop, <- app_assoc, Hs. do 4 f_equal.
  by rewrite Nat.add_comm.
Qed.

Lemma Deobfuscate_eq o salt body out : sm_wf o -> length salt = smSaltLen -> body <> [] ->
  (length body <= length out)%nat ->
  Deobfuscate Sum256 o (salt ++ body) out =
    Ret (MkSm (PSK o) (PSK o ++ salt),
         xor_key (Sum256 (PSK o ++ salt)) body 0 ++ drop (length body) out, length body).
Proof.
  intros Ho Hs Hb Hl. assert (0 < length body)%nat by (destruct body; simpl; [done|lia]).
  unfold Deobfuscate. rewrite decide_False by (rewrite length_app; lia).
  rewrite slice_prefix by done. rewrite bind_ret, keyLocked_eq by done. rewrite bind_ret. cbn beta iota.
  rewrite slice_from_app by done. rewrite bind_ret.
  rewrite (xor_loop_app _ body 0 0 [] out) by (done || apply Sum256_length). rewrite bind_ret.
  cbn [app]. do 3 f_equal. rewrite length_app. lia.
Qed.

(** The obfuscated packet connection is transparent: a packet of 1 to 2040
    bytes written on one end, with any salt, goes out as salt plus ciphertext,
    8 bytes longer, and reading it at the other end with the same key returns
    the packet, whatever either end's scratch buffers held before. Packets that
    are too short to be valid and arrive first are skipped. *)
Theorem salamander_transparent a b salt p buf junk rest :
  conn_ok a -> conn_ok b -> PSK (Obfs a) = PSK (Obfs b) -> length salt = smSaltLen ->
  p <> [] -> (length p + smSaltLen <= udpBufferSize)%nat -> (length p <= length buf)%nat ->
  Forall (fun j => 0 < length j <= smSaltLen)%nat junk ->
  exists a' pkt b',
    WriteTo Sum256 a salt p None = Ret (a', pkt, (length p, None)) /\ conn_ok a' /\
    length pkt = (length p + smSaltLen)%nat /\
    ReadFrom Sum256 b (junk ++ pkt :: rest) buf =
      Ret (b', Some (rest, p ++ drop (length p) buf, length p)) /\ conn_ok b'.
Proof.
  intros (Ha & Har & Haw) Hb Hpsk Hs Hp Hl Hbuf Hjunk.
  set (key := Sum256 (PSK (Obfs a) ++ salt)).
  exists (MkObfs (MkSm (PSK (Obfs a)) (PSK (Obfs a) ++ salt)) (readBuf a)
            (salt ++ xor_key key p 0 ++ drop (length p + smSaltLen) (writeBuf a))),
    (salt ++ xor_key key p 0).
  assert (Hpl : (0 < length p)%nat) by (destruct p; simpl; [done|lia]).
  assert (Hrd : forall b, conn_ok b -> PSK (Obfs a) = PSK (Obfs b) -> exists b',
    ReadFrom Sum256 b ((salt ++ xor_key key p 0) :: rest) buf =
      Ret (b', Some (rest, p ++ drop (length p) buf, length p)) /\ conn_ok b').
  { intros b0 (Hb0 & Hbr & Hbw) Ek. cbn [ReadFrom].
    rewrite (copy_at_app [] (salt ++ xor_key key p 0) (readBuf b0))
      by (rewrite ?length_app, ?length_xor_key; simpl; lia).
    rewrite bind_ret. cbn beta iota. rewrite length_app, length_xor_key.
    rewrite decide_False by lia. cbn [app].
    rewrite slice_prefix by (by rewrite length_app, length_xor_key). rewrite bind_ret.
    rewrite Deobfuscate_eq; [|done|done|intros E; apply (f_equal length) in E;
      rewrite length_xor_key in E; simpl in E; lia|by rewrite length_xor_key].
    rewrite bind_ret, length_xor_key. cbn beta iota. rewrite decide_True by lia.
    unfold key. rewrite Ek, xor_key_invol. eexists. split; [done|].
    split_and!; [by apply sm_wf_key| |done].
    cbn [readBuf]. rewrite !length_app, length_drop, length_xor_key. lia. }
  assert (Hr : exists b', ReadFrom Sum256 b (junk ++ (salt ++ xor_key key p 0) :: rest) buf =
      Ret (b', Some (rest, p ++ drop (length p) buf, length p)) /\ conn_ok b').
  { revert b Hb Hpsk. induction Hjunk as [|j junk Hj _ IH]; intros b Hb Hpsk; [by apply Hrd|].
    pose proof Hb as (Hb1 & Hb2 & Hb3). unfold smSaltLen, udpBufferSize in *.
    rewrite <- app_comm_cons. cbn [ReadFrom].
    rewrite (copy_at_app [] j (readBuf b)) by (simpl; lia).
    rewrite bind_ret. cbn beta iota. rewrite decide_False by lia. cbn [app].
    rewrite slice_prefix, bind_ret by done. unfold Deobfuscate.
    rewrite decide_True by (unfold smSaltLen; lia). rewrite bind_ret. cbn beta iota.
    rewrite decide_False by lia.
    apply IH; [|done]. split_and!; [done| |done]. cbn [readBuf]. unfold udpBufferSize. len. }
  destruct Hr as (b' & E & Hok). exists b'. unfold WriteTo.
  rewrite Obfuscate_eq by (done || lia). rewrite bind_ret. fold key. cbn beta iota.
  rewrite app_assoc, slice_prefix by (by rewrite length_app, length_xor_key, Hs, Nat.add_comm).
  split; [done|]. split; [|split; [rewrite length_app, length_xor_key; lia|done]].
  split_and!; [by apply sm_wf_key|done|].
  cbn [writeBuf]. rewrite !length_app, length_drop, length_xor_key. lia.
Qed.

(** Reading is total: on arbitrary incoming packets ReadFrom never panics,
    keeps the connection well-formed, and a positive count fits in the caller's
    buffer. *)
Theorem salamander_read_total incoming : forall c p, conn_ok c ->
  exists c' r, ReadFrom Sum256 c incoming p = Ret (c', r) /\ conn_ok c' /\
    match r with
    | None => True
    | Some (rest, p', n) => length p' = length p /\ (n <= length p)%nat /\ rest `suffix_of` incoming
    end.
Proof.
  induction incoming as [|pkt incoming IH]; intros c p Hc; [by exists c, None|].
  pose proof Hc as (H1 & H2 & H3). cbn [ReadFrom]. unfold copy_at. rewrite decide_True by lia.
  rewrite bind_ret. cbn beta iota. rewrite take_0, Nat.sub_0_r, Nat.add_0_l. cbn [app].
  set (n := Nat.min (length pkt) (length (readBuf c))).
  set (rb := take n pkt ++ drop n (readBuf c)).
  assert (Hrb : length rb = udpBufferSize) by (unfold rb, n; len).
  case_decide as Hn.
  { eexists _, _. split; [done|]. split; [by split_and!|]. split; [done|]. split; [lia|].
    by exists [pkt]. }
  rewrite slice_eq by (unfold n in *; lia). rewrite bind_ret, drop_0, Nat.sub_0_r.
  assert (Hd : exists o p' m, Deobfuscate Sum256 (Obfs c) (take n rb) p = Ret (o, p', m) /\
    sm_wf o /\ length p' = length p /\ (m <= length p)%nat).
  { unfold Deobfuscate. case_decide as Hbad.
    { exists (Obfs c), p, 0%nat. split_and!; [done|done|done|lia]. }
    fold (Deobfuscate Sum256 (Obfs c) (take n rb) p).
    pose proof (Deobfuscate_eq (Obfs c) (take smSaltLen (take n rb)) (drop smSaltLen (take n rb)) p H1)
      as E. rewrite take_drop in E. unfold Deobfuscate in E. rewrite decide_False in E by done.
    rewrite E; [|rewrite length_take; lia| |rewrite length_drop; lia].
    - eexists _, _, _. split; [done|]. split; [apply sm_wf_key; rewrite length_take; lia|].
      rewrite length_app, length_xor_key, !length_drop. lia.
    - intros E0. apply (f_equal length) in E0. rewrite length_drop in E0. simpl in E0. lia. }
  destruct Hd as (o & p' & m & -> & Ho & Hp' & Hm). rewrite bind_ret. cbn beta iota.
  case_decide.
  { eexists _, _. split; [done|]. split; [by split_and!|]. split; [done|]. split; [done|].
    by exists [pkt]. }
  destruct (IH (MkObfs o rb (writeBuf c)) p' ltac:(by split_and!)) as (c' & r & -> & Hc' & Hr).
  exists c', r. split; [done|]. split; [done|]. destruct r as [[[rest q] k]|]; [|done].
  rewrite Hp' in Hr. destruct Hr as (? & ? & ?). split_and!; [done..|by apply suffix_cons_r].
Qed.

(** A packet of more than 2040 bytes is not sent: the connection writes an
    empty datagram instead and still reports the whole packet as written. *)
Theorem salamander_oversize_dropped c salt p : conn_ok c ->
  (udpBufferSize < length p + smSaltLen)%nat ->
  WriteTo Sum256 c salt p None = Ret (c, [], (length p, None)).
Proof.
  intros (_ & _ & Hw) Hl. unfold WriteTo, Obfuscate. rewrite decide_True by lia.
  rewrite bind_ret. cbn beta iota. rewrite slice_eq by lia. rewrite bind_ret, drop_0. by destruct c.
Qed.
End salamander_facts.

(** * Witnesses *)

(** A stand-in digest of the right length. *)
Definition toy_sum (x : list byte) : list byte := take smKeyLen (x ++ replicate smKeyLen x5a).
Lemma toy_sum_length x : length (toy_sum x) = smKeyLen.
Proof. unfold toy_sum. rewrite length_take, length_app, length_replicate. lia. Qed.

Definition ex_ob : salamanderObfuscator :=
  MkSm [x01; x02; x03; x04] ([x01; x02; x03; x04] ++ replicate 8 x00).
Definition ex_end : obfsPacketConn := wrapPacketConn ex_ob.
Lemma ex_end_ok : conn_ok ex_end.
Proof. apply wrapPacketConn_ok. by exists (replicate 8 x00). Qed.

Lemma salamander_transparent_witness :
  exists a' pkt b',
    WriteTo toy_sum ex_end (replicate 8 x07) [x10; x11] None = Ret (a', pkt, (2%nat, None)) /\
    conn_ok a' /\ length pkt = 10%nat /\
    ReadFrom toy_sum ex_end ([[x00]] ++ pkt :: []) (replicate 4 xff) =
      Ret (b', Some ([], [x10; x11; xff; xff], 2%nat)) /\ conn_ok b'.
Proof.
  apply (salamander_transparent toy_sum toy_sum_length ex_end ex_end (replicate 8 x07)
    [x10; x11] (replicate 4 xff) [[x00]] []);
    try apply ex_end_ok; try reflexivity; try discriminate;
    try (unfold smSaltLen, udpBufferSize; simpl; lia).
  repeat constructor; unfold smSaltLen; simpl; lia.
Defined.

Lemma salamander_read_total_witness :
  exists c' r, ReadFrom toy_sum ex_end [replicate 12 x01] (replicate 2 x00) = Ret (c', r) /\
    conn_ok c' /\
    match r with
    | None => True
    | Some (rest, p', n) => length p' = 2%nat /\ (n <= 2)%nat /\ rest `suffix_of` [replicate 12 x01]
    end.
Proof.
  exact (salamander_read_total toy_sum toy_sum_length [replicate 12 x01] ex_end (replicate 2 x00) ex_end_ok).
Defined.

Lemma salamander_oversize_dropped_witness :
  WriteTo toy_sum ex_end (replicate 8 x07) (replicate 2041 x01) None =
    Ret (ex_end, [], (2041%nat, None)).
Proof.
  pose proof (salamander_oversize_dropped toy_sum ex_end (replicate 8 x07) (replicate 2041 x01) ex_end_ok) as E.
  rewrite length_replicate in E. apply E. unfold udpBufferSize, smSaltLen. lia.
Defined.
