(* ===== verification/UdpHop.v ===== *)
(** Port hopping addresses (protocol/hysteria2/udphop/addr.go): parsing a port
    specification into a union of ranges, normalising it, and enumerating the
    ports. *)

From S2P Require Import Prelude GoStrings.
From stdpp Require Import sorting.
#[local] Open Scope Z_scope.

(** * Port unions *)

Record PortRange := MkRange { Start : Z; End_ : Z }.
#[export] Instance PortRange_eq_dec : EqDecision PortRange.
Proof. solve_decision. Defined.
Abbreviation PortUnion := (list PortRange).

(** The comparison of [sort.Slice]: by start, then by end. *)
Definition range_le (a b : PortRange) : Prop :=
  if decide (Start a = Start b) then End_ a <= End_ b else Start a < Start b.
#[export] Instance range_le_dec a b : Decision (range_le a b).
Proof. unfold range_le. case_decide; apply _. Defined.

(** The loop over the sorted ranges; [last] is the last range of the result,
    whose earlier ranges are in [prev]. The sum is taken in 32 bits. *)
Fixpoint merge_loop (rest : PortUnion) (prev : PortUnion) (last : PortRange) : PortUnion :=
  match rest with
  | [] => prev ++ [last]
  | current :: rest =>
      if decide (Start current <= (End_ last + 1) mod 2 ^ 32) then
        merge_loop rest prev
          (if decide (End_ current > End_ last) then MkRange (Start last) (End_ current) else last)
      else merge_loop rest (prev ++ [last]) current
  end.

Definition Normalize (u : PortUnion) : PortUnion :=
  match merge_sort range_le u with
  | [] => u
  | first :: rest => merge_loop rest [] first
  end.

(** One comma-separated item. *)
Definition parse_item (portStr : list byte) : option PortRange :=
  if decide (x2d ∈ portStr) then
    match Split x2d portStr with
    | [a; b] =>
        start ← ParseUint 16 a;
        end_ ← ParseUint 16 b;
        Some (if decide (start > end_) then MkRange end_ start else MkRange start end_)
    | _ => None
    end
  else port ← ParseUint 16 portStr; Some (MkRange port port).

Fixpoint parse_items (items : list (list byte)) (result : PortUnion) : option PortUnion :=
  match items with
  | [] => Some result
  | it :: items => r ← parse_item it; parse_items items (result ++ [r])
  end.

(** [None] is Go's nil. *)
Definition ParsePortUnion (s : list byte) : option PortUnion :=
  if decide (s = [x61; x6c; x6c] \/ s = [x2a]) then Some [MkRange 0 65535]
  else
    result ← parse_items (Split x2c s) [];
    match result with [] => None | _ => Some (Normalize result) end.

(** [for i := uint32(r.Start); i <= uint32(r.End); i++]: at most 65536 rounds. *)
Fixpoint port_loop (fuel : nat) (i hi : Z) : list Z :=
  if decide (i <= hi) then
    match fuel with
    | O => []
    | S fuel => i mod 2 ^ 16 :: port_loop fuel (i + 1) hi
    end
  else [].
Definition range_ports (r : PortRange) : list Z := port_loop (Z.to_nat 65536) (Start r) (End_ r).
Definition Ports (u : PortUnion) : list Z := u ≫= range_ports.

(** * Addresses *)

Record UDPHopAddr := MkHopAddr { Host : list byte; hop_Ports : list Z; PortStr : list byte }.

(** [net.SplitHostPort] is passed in. *)
Definition ParseUDPHopAddr (SplitHostPort : list byte -> res (list byte * list byte))
    (addr : list byte) : res UDPHopAddr :=
  '(host, portStr) ← SplitHostPort addr;
  match ParsePortUnion portStr with
  | None => Fail (Errorf "%s is not a valid port number or range")
  | Some pu => Ret (MkHopAddr host (Ports pu) portStr)
  end.

(** * Specification *)

Definition range_ok (r : PortRange) : Prop := 0 <= Start r <= End_ r /\ End_ r <= 65535.
Definition in_range (p : Z) (r : PortRange) : Prop := Start r <= p <= End_ r.
Definition in_union (p : Z) (u : PortUnion) : Prop := Exists (in_range p) u.

(** Ranges from low to high, neither overlapping nor adjacent. *)
Definition apart (a b : PortRange) : Prop := End_ a + 1 < Start b.
Definition normalized (u : PortUnion) : Prop := Forall range_ok u /\ StronglySorted apart u.

#[export] Instance range_le_total : Total range_le.
Proof. intros a b. unfold range_le. repeat case_decide; lia. Qed.
#[export] Instance range_le_trans : Transitive range_le.
Proof. intros a b c. unfold range_le. repeat case_decide; lia. Qed.

Lemma normalized_snoc u r : normalized u -> range_ok r -> Forall (fun x => apart x r) u ->
  normalized (u ++ [r]).
Proof.
  intros [Hu Hs] Hr Hf. split; [by apply Forall_app; auto|].
  induction Hs as [|x u Hs IH Hx]; simpl; [by repeat constructor|].
  apply Forall_cons in Hu as [_ Hu]. apply Forall_cons in Hf as [Hxr Hf].
  constructor; [by apply IH|]. apply Forall_app. auto.
Qed.

Lemma normalized_app_inv u r : normalized (u ++ [r]) ->
  normalized u /\ range_ok r /\ Forall (fun x => apart x r) u.
Proof.
  intros [Hok Hs]. apply Forall_app in Hok as [Hu Hr]. apply Forall_cons in Hr as [Hr _].
  split; [split; [done|]|split; [exact Hr|]].
  - clear -Hs. induction u as [|x u IH]; [constructor|]. inversion_clear Hs as [|? ? Hs' Hf].
    apply Forall_app in Hf as [Hf _]. constructor; auto.
  - clear -Hs. induction u as [|x u IH]; [constructor|]. inversion_clear Hs as [|? ? Hs' Hf].
    apply Forall_app in Hf as [_ [Hf _]%Forall_cons]. constructor; auto.
Qed.

(** The loop invariant: the result so far is normalised and the remaining
    ranges start no earlier than its last range. *)
Lemma merge_loop_correct rest : forall prev last,
  normalized (prev ++ [last]) -> Forall range_ok rest ->
  StronglySorted range_le (last :: rest) \/ Forall (fun r => Start last <= Start r) rest ->
  StronglySorted range_le rest -> 
  normalized (merge_loop rest prev last) /\
  forall p, in_union p (merge_loop rest prev last) <-> in_union p (prev ++ last :: rest).
Proof.
  induction rest as [|cur rest IH]; intros prev last Hn Hok Hge Hs; cbn [merge_loop]; [done|].
  apply Forall_cons in Hok as [Hc Hok]. inversion_clear Hs as [|? ? Hs' Hf].
  assert (Hge' : Start last <= Start cur /\ Forall (fun r => Start last <= Start r) rest).
  { destruct Hge as [Hge|Hge]; [|by apply Forall_cons in Hge].
    inversion_clear Hge as [|? ? _ Hl]. apply Forall_cons in Hl as [Hl1 Hl2].
    split; [unfold range_le in Hl1; case_decide; lia|].
    eapply Forall_impl; [exact Hl2|]. intros r. unfold range_le. case_decide; lia. }
  destruct Hge' as [Hle Hge'].
  destruct (normalized_app_inv _ _ Hn) as (Hnd & Hl & Hap).
  unfold range_ok in *. rewrite Z.mod_small by lia. case_decide as Hm.
  - set (last' := if decide (End_ cur > End_ last) then MkRange (Start last) (End_ cur) else last).
    assert (Hl' : Start last' = Start last /\ End_ last' = Z.max (End_ last) (End_ cur))
      by (unfold last'; case_decide; simpl; lia).
    destruct Hl' as [E1 E2].
    destruct (IH prev last') as [H1 H2]; [|done| |done|].
    + apply normalized_snoc; [done|unfold range_ok; rewrite E1, E2; lia|].
      eapply Forall_impl; [exact Hap|]. intros x. unfold apart. by rewrite E1.
    + right. by rewrite E1.
    + split; [done|]. intros p. rewrite H2. unfold in_union. rewrite !Exists_app, !Exists_cons.
      assert (in_range p last' <-> in_range p last \/ in_range p cur)
        by (unfold in_range; rewrite E1, E2; destruct (decide (p <= End_ last)); lia).
      tauto.
  - destruct (IH (prev ++ [last]) cur) as [H1 H2]; [|done| |done|].
    + apply normalized_snoc; [done|done|]. apply Forall_app. split.
      * eapply Forall_impl; [exact Hap|]. intros x. unfold apart. lia.
      * apply Forall_singleton. unfold apart. lia.
    + left. constructor; done.
    + split; [done|]. intros p. rewrite H2, <- app_assoc. done.
Qed.

Lemma in_union_perm p u v : u ≡ₚ v -> in_union p u <-> in_union p v.
Proof. intros H. unfold in_union. rewrite !Exists_exists. by setoid_rewrite H. Qed.

Lemma Normalize_spec u : Forall range_ok u ->
  normalized (Normalize u) /\ (forall p, in_union p (Normalize u) <-> in_union p u) /\
  (Normalize u = [] <-> u = []).
Proof.
  intros Hok. unfold Normalize.
  pose proof (merge_sort_Permutation range_le u) as Hp.
  pose proof (StronglySorted_merge_sort range_le u) as Hs.
  destruct (merge_sort range_le u) as [|first rest].
  { apply Permutation_nil in Hp as ->. split; [split; constructor|]. split; done. }
  rewrite <- Hp in Hok. apply Forall_cons in Hok as [Hf Hr].
  inversion_clear Hs as [|? ? Hs' Hall].
  destruct (merge_loop_correct rest [] first) as [H1 H2]; [|done|by left; constructor|done|].
  { split; [by apply Forall_singleton|]. constructor; constructor. }
  split; [done|]. split.
  - intros p. rewrite H2. by apply in_union_perm.
  - split; [|intros ->; symmetry in Hp; by apply Permutation_nil in Hp].
    intros E. exfalso. assert (in_union (Start first) (merge_loop rest [] first)) as Hin.
    { apply H2. left. unfold in_range, range_ok in *. lia. }
    rewrite E in Hin. by apply Exists_nil in Hin.
Qed.

Lemma port_loop_spec fuel : forall i hi, 0 <= i -> hi <= 65535 -> (Z.to_nat (hi + 1 - i) <= fuel)%nat ->
  (forall p, p ∈ port_loop fuel i hi <-> i <= p <= hi) /\ StronglySorted Z.lt (port_loop fuel i hi).
Proof.
  induction fuel as [|fuel IH]; intros i hi Hi Hh Hf; cbn [port_loop]; case_decide as Hd.
  - lia.
  - split; [|constructor]. intros p. split; [by intros ?%not_elem_of_nil|lia].
  - destruct (IH (i + 1) hi) as [IHm IHs]; [lia..|]. rewrite Z.mod_small by lia. split.
    + intros p. rewrite elem_of_cons, IHm. lia.
    + constructor; [done|]. apply Forall_forall. intros p Hp%IHm. lia.
  - split; [|constructor]. intros p. split; [by intros ?%not_elem_of_nil|lia].
Qed.

Lemma range_ports_spec r : range_ok r ->
  (forall p, p ∈ range_ports r <-> in_range p r) /\ StronglySorted Z.lt (range_ports r).
Proof. intros [? ?]. apply port_loop_spec; lia. Qed.

Lemma StronglySorted_app_lt (l k : list Z) : StronglySorted Z.lt l -> StronglySorted Z.lt k ->
  (forall x y, x ∈ l -> y ∈ k -> x < y) -> StronglySorted Z.lt (l ++ k).
Proof.
  intros Hl Hk. induction Hl as [|x l Hl IH Hx]; intros H; [done|]. simpl. constructor.
  - apply IH. set_solver.
  - apply Forall_app. split; [done|]. apply Forall_forall. intros y Hy. apply H; set_solver.
Qed.

Lemma Ports_spec u : Forall range_ok u ->
  (forall p, p ∈ Ports u <-> in_union p u) /\
  (StronglySorted apart u -> StronglySorted Z.lt (Ports u)).
Proof.
  induction 1 as [|r u Hr _ [IHm IHs]]; unfold Ports in *.
  { split; [|constructor]. intros p. unfold in_union. rewrite Exists_nil. set_solver. }
  destruct (range_ports_spec r Hr) as [Hm Hs]. rewrite bind_cons. split.
  - intros p. unfold in_union in *. rewrite elem_of_app, Hm, IHm, Exists_cons. done.
  - intros Hsort. inversion_clear Hsort as [|? ? Hs' Hap].
    apply StronglySorted_app_lt; [done|by apply IHs|].
    intros x y Hx%Hm Hy%IHm. unfold in_union in Hy. rewrite Exists_exists in Hy.
    destruct Hy as (r' & Hr' & Hy). rewrite Forall_forall in Hap. specialize (Hap r' Hr').
    unfold apart, in_range in *. lia.
Qed.

Lemma parse_item_ok it r : parse_item it = Some r -> range_ok r.
Proof.
  unfold parse_item. case_decide.
  - destruct (Split x2d it) as [|a [|b [|]]]; try done.
    intros (s & Hs%ParseUint_range & (e & He%ParseUint_range & H')%bind_Some)%bind_Some.
    injection H' as <-. unfold range_ok. case_decide; simpl; lia.
  - intros (s & Hs%ParseUint_range & [= <-])%bind_Some. unfold range_ok. simpl. lia.
Qed.

Lemma parse_items_spec items : forall acc,
  match parse_items items acc with
  | Some u => exists rs, u = acc ++ rs /\ Forall2 (fun it r => parse_item it = Some r) items rs
  | None => exists it, it ∈ items /\ parse_item it = None
  end.
Proof.
  induction items as [|it items IH]; intros acc; cbn [parse_items].
  - exists []. by rewrite app_nil_r.
  - destruct (parse_item it) as [r|] eqn:E; simpl; [|exists it; set_solver].
    specialize (IH (acc ++ [r])). destruct (parse_items items (acc ++ [r])) as [u|].
    + destruct IH as (rs & -> & Hrs). exists (r :: rs). rewrite <- app_assoc. split; [done|by constructor].
    + destruct IH as (x & Hx & Ex). exists x. set_solver.
Qed.

Lemma Forall2_elem_r {A B} (P : A -> B -> Prop) l k y :
  Forall2 P l k -> y ∈ k -> exists x, x ∈ l /\ P x y.
Proof. induction 1; intros Hy; set_solver. Qed.
Lemma Forall2_elem_l {A B} (P : A -> B -> Prop) l k x :
  Forall2 P l k -> x ∈ l -> exists y, y ∈ k /\ P x y.
Proof. induction 1; intros Hy; set_solver. Qed.

(** What a port specification denotes. *)
Definition denotes (s : list byte) (p : Z) : Prop :=
  ((s = [x61; x6c; x6c] \/ s = [x2a]) /\ 0 <= p <= 65535) \/
  (exists it r, it ∈ Split x2c s /\ parse_item it = Some r /\ in_range p r).

Lemma Forall2_ok items rs : Forall2 (fun it r => parse_item it = Some r) items rs -> Forall range_ok rs.
Proof. induction 1; constructor; [by eapply parse_item_ok|done]. Qed.

(** Normalize returns ranges sorted from low to high, pairwise neither
    overlapping nor adjacent, that cover exactly the ports of its input. *)
Theorem Normalize_correct u : Forall range_ok u ->
  normalized (Normalize u) /\ forall p, in_union p (Normalize u) <-> in_union p u.
Proof. intros H. destruct (Normalize_spec u H) as (? & ? & _). done. Qed.

(** ParsePortUnion accepts a specification exactly when it is a wildcard
    or every comma-separated item is a 16-bit port or range; the ports it
    enumerates are then exactly those denoted, strictly increasing and so
    without duplicates, and never empty. *)
Theorem ParsePortUnion_correct s :
  match ParsePortUnion s with
  | Some u => normalized u /\ Ports u <> [] /\ StronglySorted Z.lt (Ports u) /\
      forall p, p ∈ Ports u <-> denotes s p
  | None => exists it, it ∈ Split x2c s /\ parse_item it = None
  end.
Proof.
  unfold ParsePortUnion. case_decide as Hw.
  - assert (Hr : range_ok (MkRange 0 65535)) by (unfold range_ok; simpl; lia).
    assert (Hn : normalized [MkRange 0 65535])
      by (split; [by apply Forall_singleton|constructor; constructor]).
    destruct (Ports_spec [MkRange 0 65535]) as [Hm Hs]; [apply Hn|].
    split; [done|]. split; [intros E; specialize (Hm 0); rewrite E in Hm|].
    { destruct (not_elem_of_nil 0). apply Hm. left. unfold in_range. simpl. lia. }
    split; [apply Hs, Hn|]. intros p. rewrite Hm. unfold in_union. rewrite Exists_cons, Exists_nil.
    unfold in_range, denotes. simpl. split; [intros [?|[]]; auto|].
    intros [[_ ?]|(it & r & Hit & Hp & Hr')]; [by left|left].
    apply parse_item_ok in Hp. unfold range_ok, in_range in *. lia.
  - pose proof (parse_items_spec (Split x2c s) []) as Hi.
    destruct (parse_items (Split x2c s) []) as [u|]; simpl; [|done].
    destruct Hi as (rs & -> & Hrs). cbn [app].
    pose proof (Forall2_ok _ _ Hrs) as Hok.
    destruct (Normalize_spec rs Hok) as (Hn & Hu & Hne).
    destruct rs as [|r0 rs].
    { inversion Hrs as [E|]. by destruct (Split_nonempty x2c s). }
    destruct (Ports_spec (Normalize (r0 :: rs)) (proj1 Hn)) as [Hm Hs].
    split; [done|]. split; [|split; [apply Hs, Hn|]].
    + intros E. specialize (Hm (Start r0)). rewrite E in Hm. destruct (not_elem_of_nil (Start r0)).
      apply Hm, Hu. left. apply Forall_cons in Hok as [Hr0 _]. unfold range_ok, in_range in *. lia.
    + intros p. rewrite Hm, Hu. unfold in_union, denotes. rewrite Exists_exists. split.
      * intros (r & Hr & Hp). right. destruct (Forall2_elem_r _ _ _ _ Hrs Hr) as (it & ? & ?). eauto.
      * intros [[? _]|(it & r & Hit & Hp & Hr)]; [done|].
        destruct (Forall2_elem_l _ _ _ _ Hrs Hit) as (r' & ? & ?). exists r'. split; [done|congruence].
Qed.

(** * Witnesses *)

Lemma Normalize_correct_witness :
  let u := [MkRange 20 30; MkRange 1 5; MkRange 6 9; MkRange 25 40] in
  Normalize u = [MkRange 1 9; MkRange 20 40] /\
  normalized (Normalize u) /\ forall p, in_union p (Normalize u) <-> in_union p u.
Proof.
  split; [reflexivity|]. apply (Normalize_correct _).
  repeat (apply Forall_cons; split); try apply Forall_nil; unfold range_ok; simpl; lia.
Defined.

(** "443,2000-1998" *)
Example ParsePortUnion_sample :
  Ports <$> ParsePortUnion [x34; x34; x33; x2c; x32; x30; x30; x30; x2d; x31; x39; x39; x38] =
    Some [443; 1998; 1999; 2000].
Proof. vm_compute. reflexivity. Qed.
