(* ===== verification/RingBuffer.v ===== *)
(** The growable ring buffer of the BBR sampler
    (protocol/tuic/congestion/bbr/ringbuffer.go) and the queue interface it
    implements. *)

From S2P Require Import Prelude.

(** * The interface *)

(** A double-ended sequence with a capacity, as its clients use it; [dq_list]
    is the sequence it stands for. Pointers into the buffer are modelled by
    [dq_get]/[dq_set]. *)
Class Deque (T D : Type) := {
  dq_list : D -> list T;
  dq_wf : D -> Prop;
  dq_Init : nat -> D;
  dq_Cap : D -> nat;
  dq_Len : D -> nat;
  dq_Empty : D -> bool;
  dq_PushBack : T -> D -> res D;
  dq_PopFront : D -> res (T * D);
  dq_Offset : nat -> D -> res T;
  dq_set : nat -> T -> D -> res D;
  dq_Front : D -> res T;
  dq_ShrinkTo : Z -> D -> res D }.

Class DequeLaws (T D : Type) `{Deque T D} : Prop := {
  dq_Init_wf n : dq_wf (dq_Init n);
  dq_Init_list n : dq_list (dq_Init n) = [];
  dq_Init_Cap n : dq_Cap (dq_Init n) = n;
  dq_Len_list d : dq_wf d -> dq_Len d = length (dq_list d);
  dq_Cap_list d : dq_wf d -> (length (dq_list d) <= dq_Cap d)%nat;
  dq_Empty_list d : dq_wf d -> dq_Empty d = bool_decide (dq_list d = []);
  dq_PushBack_list x d : dq_wf d ->
    exists d', dq_PushBack x d = Ret d' /\ dq_wf d' /\ dq_list d' = dq_list d ++ [x];
  dq_PopFront_list d x l : dq_wf d -> dq_list d = x :: l ->
    exists d', dq_PopFront d = Ret (x, d') /\ dq_wf d' /\ dq_list d' = l /\ dq_Cap d' = dq_Cap d;
  dq_PopFront_nil d : dq_wf d -> dq_list d = [] -> dq_PopFront d = Panic;
  dq_Offset_list i d : dq_wf d -> dq_Offset i d = index (dq_list d) i;
  dq_set_list i x d : dq_wf d -> (i < length (dq_list d))%nat ->
    exists d', dq_set i x d = Ret d' /\ dq_wf d' /\ dq_list d' = <[i := x]> (dq_list d) /\
      dq_Cap d' = dq_Cap d;
  dq_Front_list d : dq_wf d -> dq_Front d = index (dq_list d) 0;
  dq_ShrinkTo_list n d : dq_wf d ->
    exists d', dq_ShrinkTo n d = Ret d' /\ dq_wf d' /\ dq_list d' = dq_list d /\
      dq_Cap d' =
        if decide (n < 1 \/ n < Z.of_nat (length (dq_list d)) \/ Z.of_nat (dq_Cap d) <= n)
        then dq_Cap d else Z.to_nat n }.

(** * The implementation *)

Record RingBuffer (T : Type) := MkRing {
  ring : list T; headPos : nat; tailPos : nat; full : bool }.
Arguments MkRing {T} _ _ _ _.
Arguments ring {T} _.
Arguments headPos {T} _.
Arguments tailPos {T} _.
Arguments full {T} _.

Section ops.
Context {T : Type} (zero : T).
Implicit Types (r : RingBuffer T).

Definition Init (size : nat) : RingBuffer T := MkRing (replicate size zero) 0 0 false.

Definition Cap r : nat := length (ring r).

Definition Len r : nat :=
  if full r then length (ring r)
  else if decide (headPos r <= tailPos r)%nat then (tailPos r - headPos r)%nat
  else (tailPos r + length (ring r) - headPos r)%nat.

Definition Empty r : bool := negb (full r) && bool_decide (headPos r = tailPos r).

Definition ShrinkTo (size : Z) r : res (RingBuffer T) :=
  let n := Len r in
  if decide (size < 1 \/ size < Z.of_nat n \/ Z.of_nat (length (ring r)) <= size) then Ret r
  else
    let sz := Z.to_nat size in
    let shrunk := replicate sz zero in
    shrunk ←
      (if decide (0 < n)%nat then
         if decide (headPos r + n <= length (ring r))%nat then
           src ← slice (ring r) (headPos r) (headPos r + n);
           '(shrunk, _) ← copy_at shrunk 0 src;
           Ret shrunk
         else
           src ← slice_from (ring r) (headPos r);
           '(shrunk, head) ← copy_at shrunk 0 src;
           src ← slice (ring r) 0 (n - head);
           '(shrunk, _) ← copy_at shrunk head src;
           Ret shrunk
       else Ret shrunk);
    Ret (MkRing shrunk 0 (n mod sz) (bool_decide (n = sz))).

Definition grow r : res (RingBuffer T) :=
  let oldRing := ring r in
  let newSize := if decide (length oldRing * 2 = 0)%nat then 1%nat else (length oldRing * 2)%nat in
  src ← slice_from oldRing (headPos r);
  '(l, headLen) ← copy_at (replicate newSize zero) 0 src;
  src ← slice oldRing 0 (headPos r);
  '(l, _) ← copy_at l headLen src;
  Ret (MkRing l 0 (length oldRing) false).

Definition PushBack (t : T) r : res (RingBuffer T) :=
  r ← (if full r || bool_decide (length (ring r) = 0%nat) then grow r else Ret r);
  l ← set_at (ring r) (tailPos r) t;
  let tail := if decide (S (tailPos r) = length l) then 0%nat else S (tailPos r) in
  Ret (MkRing l (headPos r) tail (full r || bool_decide (tail = headPos r))).

Definition PopFront r : res (T * RingBuffer T) :=
  if Empty r then Panic
  else
    t ← index (ring r) (headPos r);
    l ← set_at (ring r) (headPos r) zero;
    Ret (t, MkRing l (if decide (S (headPos r) = length l) then 0%nat else S (headPos r))
              (tailPos r) false).

Definition Offset (i : nat) r : res T :=
  if Empty r || bool_decide (Len r <= i)%nat then Panic
  else index (ring r) ((headPos r + i) mod length (ring r)).

(** A store through the pointer [Offset] returns. *)
Definition Offset_set (i : nat) (x : T) r : res (RingBuffer T) :=
  if Empty r || bool_decide (Len r <= i)%nat then Panic
  else
    l ← set_at (ring r) ((headPos r + i) mod length (ring r)) x;
    Ret (MkRing l (headPos r) (tailPos r) (full r)).

Definition Front r : res T :=
  if Empty r then Panic else index (ring r) (headPos r).

Definition Back r : res T :=
  if Empty r then Panic else Offset (Len r - 1) r.

Definition Clear r : RingBuffer T := MkRing (replicate (length (ring r)) zero) 0 0 false.
End ops.

(** * Facts *)

Section facts.
Context {T : Type} (zero : T).
Implicit Types (r : RingBuffer T).

(** Position of the [i]-th element. *)
Definition pos (h i n : nat) : nat := if decide (h + i < n)%nat then (h + i)%nat else (h + i - n)%nat.

Lemma mod_pos h i n : (h < n)%nat -> (i < n)%nat -> ((h + i) mod n)%nat = pos h i n.
Proof.
  intros Hh Hi. unfold pos. case_decide; [by apply Nat.mod_small|].
  symmetry. apply (Nat.mod_unique _ _ 1); lia.
Qed.

Definition ring_wf r : Prop :=
  (ring r = [] /\ headPos r = 0 /\ tailPos r = 0 /\ full r = false)%nat \/
  (headPos r < length (ring r) /\ tailPos r < length (ring r) /\
   (full r = true -> headPos r = tailPos r))%nat.

(** The elements, oldest first. *)
Definition contents r : list T :=
  take (Len r) (drop (headPos r) (ring r) ++ take (headPos r) (ring r)).

Lemma Len_le r : ring_wf r -> (Len r <= length (ring r))%nat.
Proof.
  intros [(-> & Hh & Ht & Hf)|(? & ? & ?)]; unfold Len.
  - by rewrite Hh, Ht, Hf.
  - destruct (full r); [done|]. case_decide; lia.
Qed.

Lemma length_contents r : ring_wf r -> length (contents r) = Len r.
Proof.
  intros Hwf. pose proof (Len_le r Hwf). unfold contents.
  rewrite length_take, length_app, length_drop, length_take.
  destruct Hwf as [(E & E2 & _)|(? & ? & ?)]; [rewrite E, E2 in *; cbn [length] in *|]; lia.
Qed.

Lemma contents_lookup r i : ring_wf r -> (i < Len r)%nat ->
  contents r !! i = ring r !! pos (headPos r) i (length (ring r)).
Proof.
  intros Hwf Hi. pose proof (Len_le r Hwf).
  destruct Hwf as [(E & _)|(Hh & Ht & Hf)]; [rewrite E in *; simpl in *; lia|].
  unfold contents. rewrite lookup_take_lt by done. unfold pos. case_decide.
  - rewrite lookup_app_l by (rewrite length_drop; lia). by rewrite lookup_drop.
  - rewrite lookup_app_r by (rewrite length_drop; lia). rewrite length_drop.
    rewrite lookup_take_lt by lia. f_equal. lia.
Qed.

Lemma contents_eq r l : ring_wf r -> length l = Len r ->
  (forall i, (i < Len r)%nat -> ring r !! pos (headPos r) i (length (ring r)) = l !! i) ->
  contents r = l.
Proof.
  intros Hwf Hl H. apply list_eq_same_length with (Len r); [done|by apply length_contents|].
  intros i x y Hi. rewrite contents_lookup, H by done. congruence.
Qed.

Lemma Empty_contents r : ring_wf r -> Empty r = bool_decide (contents r = []).
Proof.
  intros Hwf. pose proof (length_contents r Hwf) as Hl.
  assert (He : bool_decide (contents r = []) = bool_decide (Len r = 0%nat)).
  { apply bool_decide_ext. rewrite <- Hl. split; [by intros ->|]. by destruct (contents r). }
  rewrite He. unfold Empty, Len in *.
  destruct Hwf as [(-> & -> & -> & ->)|(? & ? & Hf)]; [done|].
  destruct (full r); simpl; [rewrite bool_decide_false by lia; done|].
  case_decide; apply bool_decide_ext; lia.
Qed.

Lemma Len_contents r : ring_wf r -> Len r = length (contents r).
Proof. intros. by rewrite length_contents. Qed.

Lemma Init_wf n : ring_wf (Init zero n).
Proof.
  unfold ring_wf, Init. simpl. rewrite length_replicate. destruct n; [by left|right; lia].
Qed.

Lemma Init_contents n : contents (Init zero n) = [].
Proof. apply nil_length_inv. rewrite length_contents by apply Init_wf. done. Qed.

Lemma ring_grow_ok r : ring_wf r -> full r = true \/ ring r = [] ->
  exists r', grow zero r = Ret r' /\ ring_wf r' /\ contents r' = contents r /\
    full r' = false /\ ring r' <> [].
Proof.
  intros Hwf Hf. unfold grow.
  assert (Hh : (headPos r <= length (ring r))%nat).
  { destruct Hwf as [(E & E2 & _)|(? & ? & ?)]; [rewrite E, E2; done|lia]. }
  set (sz := if decide _ then 1%nat else _).
  assert (Hsz : (length (ring r) < sz)%nat) by (unfold sz; case_decide; lia).
  rewrite slice_from_eq by done. rewrite bind_ret.
  rewrite (copy_at_app [] _ (replicate sz zero)) by len. rewrite bind_ret. cbn [app].
  rewrite slice_eq by lia. rewrite bind_ret, drop_0, Nat.sub_0_r.
  rewrite copy_at_app by len. rewrite bind_ret. eexists. split; [done|].
  set (l := (_ ++ _) ++ _).
  assert (Hl : length l = sz) by (unfold l; len).
  assert (Hwf' : ring_wf (MkRing l 0 (length (ring r)) false)) by (right; simpl; lia).
  split; [done|]. split; [|split; [done|simpl; intros E; rewrite E in Hl; simpl in Hl; lia]].
  assert (HL : Len r = length (ring r)).
  { unfold Len. destruct Hf as [->|Hr]; [done|].
    destruct Hwf as [(-> & -> & -> & ->)|(? & _)]; [done|rewrite Hr in *; simpl in *; lia]. }
  unfold contents at 1. cbn [ring headPos]. rewrite take_0, drop_0, app_nil_r.
  unfold Len at 1. cbn [full headPos tailPos ring]. rewrite decide_True, Nat.sub_0_r by lia.
  unfold contents, l. rewrite HL, take_app_length' by len. symmetry. apply take_ge. len.
Qed.

Lemma PushBack_room r x : ring_wf r -> full r = false -> ring r <> [] ->
  exists r', PushBack zero x r = Ret r' /\ ring_wf r' /\ contents r' = contents r ++ [x].
Proof.
  intros Hwf Hf Hne. assert (0 < length (ring r))%nat by (destruct (ring r); simpl; [done|lia]).
  pose proof Hwf as [(E & _)|(Hh & Ht & _)]; [done|].
  assert (Hlr : (headPos r <= tailPos r /\ Len r = tailPos r - headPos r \/
                 tailPos r < headPos r /\ Len r = tailPos r + length (ring r) - headPos r)%nat)
    by (unfold Len; rewrite Hf; case_decide; lia).
  assert (Hpt : pos (headPos r) (Len r) (length (ring r)) = tailPos r)
    by (unfold pos; case_decide; lia).
  unfold PushBack. rewrite Hf, bool_decide_false by lia. cbn [orb]. rewrite bind_ret.
  unfold set_at. rewrite decide_True by done. rewrite bind_ret, length_insert, Hf.
  eexists. split; [done|]. set (tail := if decide _ then 0%nat else _).
  assert (Htl : (S (tailPos r) = length (ring r) /\ tail = 0 \/
                 S (tailPos r) < length (ring r) /\ tail = S (tailPos r))%nat)
    by (unfold tail; case_decide; lia).
  clearbody tail.
  assert (W : ring_wf (MkRing (<[tailPos r:=x]> (ring r)) (headPos r) tail
                 (false || bool_decide (tail = headPos r)))).
  { right. cbn [ring headPos tailPos full]. rewrite length_insert.
    split; [lia|]. split; [lia|]. intros E%bool_decide_eq_true. done. }
  split; [done|].
  assert (Hlen : Len (MkRing (<[tailPos r:=x]> (ring r)) (headPos r) tail
                 (false || bool_decide (tail = headPos r))) = S (Len r)).
  { unfold Len. cbn [ring headPos tailPos full orb]. rewrite Hf, length_insert.
    change (false || bool_decide (tail = headPos r)) with (bool_decide (tail = headPos r)).
    case_bool_decide; repeat case_decide; lia. }
  apply contents_eq; [done|rewrite Hlen, length_app, length_contents by done; simpl; lia|].
  rewrite Hlen. cbn [ring headPos]. rewrite length_insert. intros i Hi.
  destruct (decide (i = Len r)) as [->|Hne'].
  - rewrite Hpt, list_lookup_insert_eq by done.
    by rewrite lookup_app_r, length_contents, Nat.sub_diag by (rewrite ?length_contents; done).
  - rewrite lookup_app_l by (rewrite length_contents by done; lia).
    rewrite contents_lookup by (done || lia). rewrite list_lookup_insert_ne; [done|].
    rewrite <- Hpt. clear -Hi Hne' Hh Ht Hlr. unfold pos. repeat case_decide; lia.
Qed.

Lemma PushBack_ok r x : ring_wf r ->
  exists r', PushBack zero x r = Ret r' /\ ring_wf r' /\ contents r' = contents r ++ [x].
Proof.
  intros Hwf. destruct (full r || bool_decide (length (ring r) = 0%nat)) eqn:E.
  - destruct (ring_grow_ok r Hwf) as (r1 & Eg & W1 & C1 & F1 & N1).
    { apply orb_true_iff in E as [?|E%bool_decide_eq_true]; [by left|right].
      by apply nil_length_inv. }
    destruct (PushBack_room r1 x W1 F1 N1) as (r' & Ep & W & C).
    exists r'. split; [|by rewrite <- C1].
    rewrite <- Ep. unfold PushBack. rewrite E, Eg, F1, bind_ret.
    rewrite bool_decide_false; [done|]. intros ?%nil_length_inv. done.
  - apply orb_false_iff in E as [Hf Hn%bool_decide_eq_false].
    apply PushBack_room; [done|done|]. intros E. by rewrite E in Hn.
Qed.

Lemma PopFront_ok r x l : ring_wf r -> contents r = x :: l ->
  exists r', PopFront zero r = Ret (x, r') /\ ring_wf r' /\ contents r' = l /\ Cap r' = Cap r.
Proof.
  intros Hwf Hc. unfold PopFront. rewrite Empty_contents, Hc by done.
  rewrite bool_decide_false by done.
  pose proof (length_contents r Hwf) as Hl. rewrite Hc in Hl. simpl in Hl.
  pose proof (Len_le r Hwf) as Hle.
  pose proof (contents_lookup r 0 Hwf ltac:(lia)) as H0. rewrite Hc in H0. simpl in H0.
  pose proof Hwf as [(E & _)|(Hh & Ht & Hf)]; [rewrite E in Hle; simpl in Hle; lia|].
  assert (Ep : pos (headPos r) 0 (length (ring r)) = headPos r)
    by (unfold pos; rewrite decide_True by lia; lia).
  rewrite Ep in H0. unfold index. rewrite <- H0, bind_ret. unfold set_at.
  rewrite decide_True by done. rewrite bind_ret, length_insert. eexists. split; [done|].
  set (hd := if decide _ then 0%nat else _).
  assert (Hhd : (S (headPos r) = length (ring r) /\ hd = 0 \/
                 S (headPos r) < length (ring r) /\ hd = S (headPos r))%nat)
    by (unfold hd; case_decide; lia).
  clearbody hd.
  assert (W : ring_wf (MkRing (<[headPos r:=zero]> (ring r)) hd (tailPos r) false)).
  { right. cbn [ring headPos tailPos full]. rewrite length_insert.
    split; [lia|]. split; [lia|done]. }
  assert (Hlen : Len (MkRing (<[headPos r:=zero]> (ring r)) hd (tailPos r) false) = (Len r - 1)%nat).
  { unfold Len in *. cbn [ring headPos tailPos full]. rewrite length_insert.
    destruct (full r); [specialize (Hf eq_refl)|]; repeat case_decide; lia. }
  split; [done|]. split; [|unfold Cap; cbn [ring]; by rewrite length_insert].
  apply contents_eq; [done|rewrite Hlen; lia|].
  rewrite Hlen. cbn [ring headPos]. rewrite length_insert. intros i Hi.
  assert (l !! i = contents r !! S i) as -> by (by rewrite Hc).
  rewrite contents_lookup by (done || lia). rewrite list_lookup_insert_ne.
  - f_equal. unfold pos. repeat case_decide; lia.
  - unfold pos. repeat case_decide; lia.
Qed.

Lemma PopFront_empty r : ring_wf r -> contents r = [] -> PopFront zero r = Panic.
Proof. intros Hwf Hc. unfold PopFront. by rewrite Empty_contents, Hc. Qed.

(** In range, [Offset]'s modulus is the position; out of range it panics. *)
Lemma offset_guard r i : ring_wf r ->
  Empty r || bool_decide (Len r <= i)%nat = bool_decide (Len r <= i)%nat.
Proof.
  intros Hwf. destruct (Empty r) eqn:E; [|done].
  rewrite Empty_contents in E by done. apply bool_decide_eq_true in E.
  pose proof (length_contents r Hwf) as Hl. rewrite E in Hl. simpl in Hl.
  simpl. symmetry. apply bool_decide_eq_true. lia.
Qed.

Lemma offset_pos r i : ring_wf r -> (i < Len r)%nat ->
  ((headPos r + i) mod length (ring r))%nat = pos (headPos r) i (length (ring r)) /\
  (pos (headPos r) i (length (ring r)) < length (ring r))%nat.
Proof.
  intros Hwf Hi. pose proof (Len_le r Hwf).
  destruct Hwf as [(E & _)|(Hh & Ht & _)]; [rewrite E in *; simpl in *; lia|].
  rewrite mod_pos by lia. split; [done|]. unfold pos. case_decide; lia.
Qed.

Lemma Offset_ok r i : ring_wf r -> Offset i r = index (contents r) i.
Proof.
  intros Hwf. unfold Offset. rewrite offset_guard by done. unfold index.
  case_bool_decide as Hi.
  - rewrite (lookup_ge_None_2 (contents r)) by (rewrite length_contents; done). done.
  - rewrite contents_lookup by (done || lia). destruct (offset_pos r i Hwf ltac:(lia)) as [-> _]. done.
Qed.

Lemma Offset_set_ok r i x : ring_wf r -> (i < length (contents r))%nat ->
  exists r', Offset_set i x r = Ret r' /\ ring_wf r' /\ contents r' = <[i := x]> (contents r) /\
    Cap r' = Cap r.
Proof.
  intros Hwf Hi. rewrite length_contents in Hi by done. unfold Offset_set.
  rewrite offset_guard, bool_decide_false by (done || lia).
  destruct (offset_pos r i Hwf Hi) as [-> Hp]. unfold set_at. rewrite decide_True by done.
  rewrite bind_ret. eexists. split; [done|].
  set (r' := MkRing _ _ _ _).
  assert (W : ring_wf r').
  { unfold ring_wf, r'. cbn [ring headPos tailPos full]. rewrite length_insert.
    destruct Hwf as [(E & _)|?]; [rewrite E in Hp; simpl in Hp; lia|by right]. }
  assert (HL : Len r' = Len r) by (unfold Len, r'; cbn [ring headPos tailPos full];
    by rewrite length_insert).
  split; [done|]. split; [|unfold Cap, r'; cbn [ring]; by rewrite length_insert].
  apply contents_eq; [done|by rewrite length_insert, length_contents|].
  rewrite HL. unfold r'. cbn [ring headPos]. rewrite length_insert. intros j Hj.
  destruct (decide (j = i)) as [->|Hne].
  - rewrite !list_lookup_insert_eq; [done|by rewrite length_contents|done].
  - rewrite !list_lookup_insert_ne; [by rewrite contents_lookup|done|].
    pose proof (Len_le r Hwf). clear -Hj Hne Hi H Hp. unfold pos in *. repeat case_decide; lia.
Qed.

Lemma Front_ok r : ring_wf r -> Front r = index (contents r) 0.
Proof.
  intros Hwf. unfold Front. rewrite Empty_contents by done. unfold index.
  pose proof (length_contents r Hwf) as Hl.
  case_bool_decide as He; [by rewrite He|].
  assert (0 < Len r)%nat by (rewrite <- Hl; destruct (contents r); simpl; [done|lia]).
  rewrite contents_lookup by done. pose proof (Len_le r Hwf).
  destruct Hwf as [(E & _)|(Hh & _)]; [rewrite E in *; simpl in *; lia|].
  unfold pos. rewrite decide_True by lia. by rewrite Nat.add_0_r.
Qed.

Lemma Back_ok r : ring_wf r -> Back r = match last (contents r) with Some x => Ret x | None => Panic end.
Proof.
  intros Hwf. unfold Back. rewrite Empty_contents by done. case_bool_decide as He; [by rewrite He|].
  rewrite Offset_ok, Len_contents by done. unfold index. rewrite last_lookup.
  rewrite <- Nat.sub_1_r. done.
Qed.

Lemma Clear_ok r : ring_wf (Clear zero r) /\ contents (Clear zero r) = [] /\ Cap (Clear zero r) = Cap r.
Proof.
  change (Clear zero r) with (Init zero (length (ring r))).
  split; [apply Init_wf|]. split; [apply Init_contents|]. apply length_replicate.
Qed.

(** The live elements as the two copies of ShrinkTo take them. *)
Lemma contents_split r : ring_wf r ->
  contents r =
    if decide (headPos r + Len r <= length (ring r))%nat then take (Len r) (drop (headPos r) (ring r))
    else drop (headPos r) (ring r) ++
         take (Len r - (length (ring r) - headPos r)) (ring r).
Proof.
  intros Hwf. pose proof (Len_le r Hwf). unfold contents. case_decide as Hd.
  - rewrite take_app_le by (rewrite length_drop; lia). done.
  - destruct Hwf as [(E & E2 & _)|(Hh & _)]; [rewrite E, E2 in *; simpl in *; lia|].
    rewrite take_app, (take_ge (drop _ _)) by (rewrite length_drop; lia).
    rewrite length_drop, take_take. f_equal. f_equal. lia.
Qed.

Lemma ShrinkTo_ok r n : ring_wf r ->
  exists r', ShrinkTo zero n r = Ret r' /\ ring_wf r' /\ contents r' = contents r /\
    Cap r' = if decide (n < 1 \/ n < Z.of_nat (length (contents r)) \/ Z.of_nat (Cap r) <= n)
             then Cap r else Z.to_nat n.
Proof.
  intros Hwf. unfold ShrinkTo, Cap. rewrite length_contents by done.
  case_decide as Hd; [by exists r|].
  assert (Hh : (headPos r <= length (ring r))%nat).
  { destruct Hwf as [(E & E2 & _)|(? & _)]; [rewrite E2; lia|lia]. }
  pose proof (Len_le r Hwf) as Hle.
  set (sz := Z.to_nat n). assert (Hsz : (Len r <= sz /\ 0 < sz)%nat) by lia.
  match goal with |- context [mbind _ ?m] => assert (Hm : m = Ret (contents r ++ drop (Len r) (replicate sz zero))) end.
  { rewrite contents_split by done. case_decide as H0.
    - case_decide as Hc.
      + rewrite slice_eq by lia. rewrite bind_ret, add_sub_cancel.
        rewrite (copy_at_app [] _ (replicate sz zero)) by len. rewrite bind_ret. cbn [app].
        do 2 f_equal. f_equal. len.
      + rewrite slice_from_eq by done. rewrite bind_ret.
        rewrite (copy_at_app [] _ (replicate sz zero)) by len. rewrite bind_ret. cbn [app].
        rewrite slice_eq by len. rewrite bind_ret, drop_0, Nat.sub_0_r.
        rewrite copy_at_app by len. rewrite bind_ret.
        rewrite length_drop, drop_drop. do 2 f_equal. f_equal. len.
    - assert (Len r = 0%nat) as -> by lia. rewrite decide_True by lia.
      by rewrite take_0, drop_0. }
  rewrite Hm, bind_ret. eexists. split; [done|].
  set (l := contents r ++ _).
  assert (Hl : length l = sz) by (unfold l; rewrite length_app, length_contents by done; len).
  set (r' := MkRing _ _ _ _).
  assert (HL : Len r' = Len r).
  { unfold Len at 1, r'. cbn [ring headPos tailPos full]. rewrite Hl.
    case_bool_decide; [lia|]. rewrite Nat.mod_small by lia. rewrite decide_True by lia. lia. }
  assert (W : ring_wf r').
  { right. unfold r'. cbn [ring headPos tailPos full]. rewrite Hl.
    pose proof (Nat.mod_upper_bound (Len r) sz ltac:(lia)). split; [lia|]. split; [lia|].
    intros E%bool_decide_eq_true. rewrite E, Nat.Div0.mod_same. done. }
  split; [done|]. split; [|done].
  unfold contents at 1. rewrite HL. unfold r'. cbn [ring headPos].
  rewrite drop_0, take_0, app_nil_r. unfold l. by rewrite take_app_length' by (by rewrite length_contents).
Qed.
End facts.

#[export] Instance ring_deque {T} (zero : Inhabited T) : Deque T (RingBuffer T) := {
  dq_list := contents; dq_wf := ring_wf;
  dq_Init := Init inhabitant; dq_Cap := Cap; dq_Len := Len; dq_Empty := Empty;
  dq_PushBack := PushBack inhabitant; dq_PopFront := PopFront inhabitant;
  dq_Offset := Offset; dq_set := Offset_set; dq_Front := Front;
  dq_ShrinkTo := ShrinkTo inhabitant }.

(** The ring buffer keeps the interface's promises. *)
#[export] Instance ring_deque_laws {T} (zero : Inhabited T) : DequeLaws T (RingBuffer T).
Proof.
  split.
  - apply Init_wf.
  - apply Init_contents.
  - intros n. apply length_replicate.
  - intros d Hd. symmetry. by apply length_contents.
  - intros d Hd. change (length (contents d) <= Cap d)%nat. rewrite length_contents by done. by apply Len_le.
  - apply Empty_contents.
  - intros x d. apply PushBack_ok.
  - intros d x l. apply PopFront_ok.
  - intros d. apply PopFront_empty.
  - intros i d. apply Offset_ok.
  - intros i x d. apply Offset_set_ok.
  - intros d. apply Front_ok.
  - intros n d. apply ShrinkTo_ok.
Qed.

(** * Refinement of a queue *)

Inductive rop (T : Type) :=
  | OPush (x : T) | OPop | OFront | OBack | OOffset (i : nat) | OStore (i : nat) (x : T)
  | OLen | OEmpty | OShrink (n : Z) | OClear.
Arguments OPush {T} x.
Arguments OPop {T}.
Arguments OFront {T}.
Arguments OBack {T}.
Arguments OOffset {T} i.
Arguments OStore {T} i x.
Arguments OLen {T}.
Arguments OEmpty {T}.
Arguments OShrink {T} n.
Arguments OClear {T}.

(** What the caller sees. *)
Inductive rout (T : Type) := RNone | RElem (x : T) | RNat (n : nat) | RBool (b : bool).
Arguments RNone {T}.
Arguments RElem {T} x.
Arguments RNat {T} n.
Arguments RBool {T} b.

Section refinement.
Context {T : Type} (zero : T).

Definition ring_step (o : rop T) (r : RingBuffer T) : res (rout T * RingBuffer T) :=
  match o with
  | OPush x => r ← PushBack zero x r; Ret (RNone, r)
  | OPop => '(x, r) ← PopFront zero r; Ret (RElem x, r)
  | OFront => x ← Front r; Ret (RElem x, r)
  | OBack => x ← Back r; Ret (RElem x, r)
  | OOffset i => x ← Offset i r; Ret (RElem x, r)
  | OStore i x => r ← Offset_set i x r; Ret (RNone, r)
  | OLen => Ret (RNat (Len r), r)
  | OEmpty => Ret (RBool (Empty r), r)
  | OShrink n => r ← ShrinkTo zero n r; Ret (RNone, r)
  | OClear => Ret (RNone, Clear zero r)
  end.

(** The specification: a plain list, accesses outside it panic. *)
Definition queue_step (o : rop T) (l : list T) : res (rout T * list T) :=
  match o with
  | OPush x => Ret (RNone, l ++ [x])
  | OPop => match l with x :: l => Ret (RElem x, l) | [] => Panic end
  | OFront => x ← index l 0; Ret (RElem x, l)
  | OBack => match last l with Some x => Ret (RElem x, l) | None => Panic end
  | OOffset i => x ← index l i; Ret (RElem x, l)
  | OStore i x => l ← set_at l i x; Ret (RNone, l)
  | OLen => Ret (RNat (length l), l)
  | OEmpty => Ret (RBool (bool_decide (l = [])), l)
  | OShrink _ => Ret (RNone, l)
  | OClear => Ret (RNone, [])
  end.

Fixpoint run {S : Type} (step : rop T -> S -> res (rout T * S)) (ops : list (rop T)) (s : S)
    : res (list (rout T) * S) :=
  match ops with
  | [] => Ret ([], s)
  | o :: ops => '(x, s) ← step o s; '(xs, s) ← run step ops s; Ret (x :: xs, s)
  end.

Lemma ring_step_refines o r : ring_wf r ->
  match queue_step o (contents r) with
  | Ret (x, l) => exists r', ring_step o r = Ret (x, r') /\ ring_wf r' /\ contents r' = l
  | Fail _ => False
  | Panic => ring_step o r = Panic
  end.
Proof.
  intros Hwf. pose proof (length_contents r Hwf) as Hl. destruct o; cbn [queue_step ring_step].
  - destruct (PushBack_ok zero r x Hwf) as (r' & -> & ? & ?). eauto.
  - destruct (contents r) as [|x l] eqn:E; [by rewrite PopFront_empty|].
    destruct (PopFront_ok zero r x l Hwf E) as (r' & -> & ? & ? & _). eauto.
  - rewrite Front_ok by done. unfold index. destruct (contents r !! 0%nat); simpl; eauto.
  - rewrite Back_ok by done. destruct (last (contents r)); simpl; eauto.
  - rewrite Offset_ok by done. unfold index. destruct (contents r !! i); simpl; eauto.
  - unfold set_at. case_decide as Hi; simpl.
    + destruct (Offset_set_ok r i x Hwf Hi) as (r' & -> & ? & ? & _). eauto.
    + unfold Offset_set. by rewrite offset_guard, bool_decide_true by (done || lia).
  - rewrite Hl. eauto.
  - rewrite Empty_contents by done. eauto.
  - destruct (ShrinkTo_ok zero r n Hwf) as (r' & -> & ? & ? & _). eauto.
  - destruct (Clear_ok zero r) as (? & ? & _). eauto.
Qed.

(** C35: The ring buffer refines a plain queue: for every sequence of
    operations it returns exactly what the list returns, and panics exactly
    when the list access is out of range; growing, wrapping around and
    shrinking never lose, duplicate or reorder an element. *)
Theorem ring_refines_queue ops : forall r, ring_wf r ->
  match run queue_step ops (contents r) with
  | Ret (xs, l) => exists r', run ring_step ops r = Ret (xs, r') /\ ring_wf r' /\ contents r' = l
  | Fail _ => False
  | Panic => run ring_step ops r = Panic
  end.
Proof.
  induction ops as [|o ops IH]; intros r Hwf; cbn [run]; [eauto|].
  pose proof (ring_step_refines o r Hwf) as Ho.
  destruct (queue_step o (contents r)) as [[x l]| |]; [|done|by rewrite Ho].
  destruct Ho as (r1 & -> & W & <-). rewrite !bind_ret. cbn beta iota.
  specialize (IH r1 W). destruct (run queue_step ops (contents r1)) as [[xs l]| |]; [|done|].
  - destruct IH as (r' & -> & ? & ?). rewrite !bind_ret. cbn beta iota. eauto.
  - by rewrite IH.
Qed.
End refinement.

Lemma ring_refines_queue_witness :
  let ops := [OPush 1; OPush 2; OPop; OPush 3; OPush 4; OShrink 2; OLen; OBack; OOffset 1] in
  run queue_step ops (contents (Init 0 2)) =
    Ret ([RNone; RNone; RElem 1; RNone; RNone; RNone; RNat 3; RElem 4; RElem 3], [2; 3; 4]) /\
  exists r', run (ring_step 0) ops (Init 0 2) =
    Ret ([RNone; RNone; RElem 1; RNone; RNone; RNone; RNat 3; RElem 4; RElem 3], r') /\
    ring_wf r' /\ contents r' = [2; 3; 4].
Proof.
  intros ops. split; [vm_compute; reflexivity|].
  exact (ring_refines_queue 0 ops (Init 0 2) (Init_wf 0 2)).
Defined.
