(* ===== verification/PacketQueue.v ===== *)
(** The packet-number-indexed queue of the BBR sampler
    (protocol/tuic/congestion/bbr/packet_number_indexed_queue.go), written and
    verified against the deque interface the ring buffer implements. *)

From S2P Require Import Prelude RingBuffer.

Definition invalidPacketNumber : Z := -1.
Definition shrinkDenominator : nat := 4.

Record entryWrapper (T : Type) := MkEW { present : bool; entry : T }.
Arguments MkEW {T} _ _.
Arguments present {T} _.
Arguments entry {T} _.

(** Packet numbers are int64; the counters are unbounded here. *)
Record packetNumberIndexedQueue (D : Type) := MkPQ {
  entries : D; numberOfPresentEntries : Z; firstPacket : Z;
  maxSlots : nat; initialSlots : nat; truncatedSlots : Z }.
Arguments MkPQ {D} _ _ _ _ _ _.
Arguments entries {D} _.
Arguments numberOfPresentEntries {D} _.
Arguments firstPacket {D} _.
Arguments maxSlots {D} _.
Arguments initialSlots {D} _.
Arguments truncatedSlots {D} _.

Section ops.
Context {T D : Type} `{Deque (entryWrapper T) D} (zeroT : T).
Implicit Types (q : packetNumberIndexedQueue D).

Definition zeroEntry : entryWrapper T := MkEW false zeroT.

Definition newPacketNumberIndexedQueue (initialSize maxSize : Z) : packetNumberIndexedQueue D :=
  let initialSize := if decide (initialSize < 1) then 1 else initialSize in
  let maxSize := if decide (maxSize < initialSize) then initialSize else maxSize in
  MkPQ (dq_Init (Z.to_nat initialSize)) 0 invalidPacketNumber
    (Z.to_nat maxSize) (Z.to_nat initialSize) 0.

Definition IsEmpty q : bool := bool_decide (numberOfPresentEntries q = 0).
Definition FirstPacket q : Z := firstPacket q.
Definition LastPacket q : Z :=
  if IsEmpty q then invalidPacketNumber
  else firstPacket q + (Z.of_nat (dq_Len (entries q)) - 1).

(** [p.entries = d], and the counters. *)
Definition with_entries q (d : D) (n first trunc : Z) : packetNumberIndexedQueue D :=
  MkPQ d n first (maxSlots q) (initialSlots q) trunc.

Fixpoint dropFront (n : nat) q : res (packetNumberIndexedQueue D) :=
  match n with
  | O => Ret q
  | S n =>
      if dq_Empty (entries q) then Ret q
      else
        f ← dq_Front (entries q);
        let np := if present f then numberOfPresentEntries q - 1 else numberOfPresentEntries q in
        '(_, d) ← dq_PopFront (entries q);
        dropFront n (with_entries q d np (firstPacket q + 1) (truncatedSlots q + 1))
  end.

Definition restart (packetNumber : Z) q : packetNumberIndexedQueue D :=
  with_entries q (dq_Init (initialSlots q)) 0 packetNumber
    (truncatedSlots q + Z.of_nat (dq_Len (entries q))).

(** [for i := 0; i < gap; i++ { p.entries.PushBack(entryWrapper[T]{}) }] *)
Fixpoint push_gap (gap : nat) (d : D) : res D :=
  match gap with
  | O => Ret d
  | S gap => d ← dq_PushBack zeroEntry d; push_gap gap d
  end.

Definition Emplace (packetNumber : Z) (e : option T) q : res (packetNumberIndexedQueue D * bool) :=
  match e with
  | None => Ret (q, false)
  | Some e =>
      if decide (packetNumber = invalidPacketNumber) then Ret (q, false)
      else if IsEmpty q then
        d ← dq_PushBack (MkEW true e) (entries q);
        Ret (with_entries q d 1 packetNumber (truncatedSlots q), true)
      else if decide (packetNumber <= LastPacket q) then Ret (q, false)
      else
        let offset := packetNumber - FirstPacket q in
        let gap := offset - Z.of_nat (dq_Len (entries q)) in
        let gap := if decide (gap < 0) then 0 else gap in
        if decide (gap >= Z.of_nat (maxSlots q)) then
          let q := restart packetNumber q in
          d ← dq_PushBack (MkEW true e) (entries q);
          Ret (with_entries q d 1 (firstPacket q) (truncatedSlots q), true)
        else
          let excess := Z.of_nat (dq_Len (entries q)) + gap + 1 - Z.of_nat (maxSlots q) in
          q ← (if decide (excess > 0) then dropFront (Z.to_nat excess) q else Ret q);
          d ← push_gap (Z.to_nat gap) (entries q);
          d ← dq_PushBack (MkEW true e) d;
          Ret (with_entries q d (numberOfPresentEntries q + 1) (firstPacket q) (truncatedSlots q), true)
  end.

(** [for target > p.initialSlots && live*shrinkDenominator <= target]: each
    round halves [target]. *)
Fixpoint shrink_target (fuel live initial target : nat) : nat :=
  if decide (initial < target /\ live * shrinkDenominator <= target)%nat then
    match fuel with
    | O => target
    | S fuel => shrink_target fuel live initial (target / 2)
    end
  else target.

Definition reclaim q : res (packetNumberIndexedQueue D) :=
  let live := dq_Len (entries q) in
  let capacity := dq_Cap (entries q) in
  if decide (capacity <= initialSlots q)%nat then Ret q
  else
    let shrink target :=
      d ← dq_ShrinkTo (Z.of_nat target) (entries q);
      Ret (with_entries q d (numberOfPresentEntries q) (firstPacket q) (truncatedSlots q)) in
    if decide (0 < live)%nat then
      let target := shrink_target capacity live (initialSlots q) capacity in
      if decide (capacity <= target)%nat then Ret q else shrink target
    else shrink (initialSlots q).

(** [if p.entries.Empty() { p.firstPacket = invalidPacketNumber }; p.reclaim()] *)
Definition settle q : res (packetNumberIndexedQueue D) :=
  reclaim (if dq_Empty (entries q)
           then with_entries q (entries q) (numberOfPresentEntries q) invalidPacketNumber (truncatedSlots q)
           else q).

(** Loops that pop the front: the length bounds the rounds. *)
Fixpoint clearup_loop (fuel : nat) q : res (packetNumberIndexedQueue D) :=
  if dq_Empty (entries q) then Ret q
  else
    f ← dq_Front (entries q);
    if present f then Ret q
    else match fuel with
         | O => Panic
         | S fuel =>
             '(_, d) ← dq_PopFront (entries q);
             clearup_loop fuel (with_entries q d (numberOfPresentEntries q) (firstPacket q + 1)
                                  (truncatedSlots q))
         end.

Definition clearup q : res (packetNumberIndexedQueue D) :=
  q ← clearup_loop (dq_Len (entries q)) q; settle q.

Fixpoint consume_loop (fuel : nat) (isConsumed : T -> bool) (n : nat) q
    : res (packetNumberIndexedQueue D * nat) :=
  if dq_Empty (entries q) then Ret (q, n)
  else
    ew ← dq_Front (entries q);
    if present ew && negb (isConsumed (entry ew)) then Ret (q, n)
    else match fuel with
         | O => Panic
         | S fuel =>
             let np := if present ew then numberOfPresentEntries q - 1 else numberOfPresentEntries q in
             '(_, d) ← dq_PopFront (entries q);
             consume_loop fuel isConsumed (S n) (with_entries q d np (firstPacket q + 1) (truncatedSlots q))
         end.

Definition DropConsumedFront (isConsumed : T -> bool) q : res (packetNumberIndexedQueue D * nat) :=
  '(q, n) ← consume_loop (dq_Len (entries q)) isConsumed 0 q;
  q ← settle q;
  Ret (q, n).

(** The slot of a packet number that holds an entry: offset and wrapper. *)
Definition getEntryWraper (packetNumber : Z) q : res (option (nat * entryWrapper T)) :=
  if decide (packetNumber = invalidPacketNumber) then Ret None
  else if IsEmpty q then Ret None
  else if decide (packetNumber < firstPacket q) then Ret None
  else
    let offset := Z.to_nat (packetNumber - firstPacket q) in
    if decide (dq_Len (entries q) <= offset)%nat then Ret None
    else
      ew ← dq_Offset offset (entries q);
      Ret (if present ew then Some (offset, ew) else None).

Definition GetEntry (packetNumber : Z) q : res (option T) :=
  ew ← getEntryWraper packetNumber q;
  Ret ((fun x => entry x.2) <$> (ew : option (nat * entryWrapper T))).

(** [*GetEntry(n) = f(...)], where there is an entry. *)
Definition UpdateEntry (f : T -> T) (packetNumber : Z) q : res (packetNumberIndexedQueue D) :=
  ew ← getEntryWraper packetNumber q;
  match ew with
  | None => Ret q
  | Some (offset, ew) =>
      d ← dq_set offset (MkEW true (f (entry ew))) (entries q);
      Ret (with_entries q d (numberOfPresentEntries q) (firstPacket q) (truncatedSlots q))
  end.

(** Returns the entry the callback is given, when there is one. *)
Definition Remove (packetNumber : Z) q : res (packetNumberIndexedQueue D * option T) :=
  ew ← getEntryWraper packetNumber q;
  match ew with
  | None => Ret (q, None)
  | Some (offset, ew) =>
      d ← dq_set offset (MkEW false (entry ew)) (entries q);
      let q := with_entries q d (numberOfPresentEntries q - 1) (firstPacket q) (truncatedSlots q) in
      q ← (if decide (packetNumber = FirstPacket q) then clearup q else Ret q);
      Ret (q, Some (entry ew))
  end.

Fixpoint remove_loop (fuel : nat) (packetNumber : Z) q : res (packetNumberIndexedQueue D) :=
  if dq_Empty (entries q) then Ret q
  else if decide (firstPacket q = invalidPacketNumber \/ firstPacket q >= packetNumber) then Ret q
  else
    match fuel with
    | O => Panic
    | S fuel =>
        f ← dq_Front (entries q);
        let np := if present f then numberOfPresentEntries q - 1 else numberOfPresentEntries q in
        '(_, d) ← dq_PopFront (entries q);
        remove_loop fuel packetNumber (with_entries q d np (firstPacket q + 1) (truncatedSlots q))
    end.

Definition RemoveUpTo (packetNumber : Z) q : res (packetNumberIndexedQueue D) :=
  q ← remove_loop (dq_Len (entries q)) packetNumber q; clearup q.
End ops.

(** * Facts *)

Section facts.
Context {T D : Type} `{HD : Deque (entryWrapper T) D} `{HL : !DequeLaws (entryWrapper T) D} (zeroT : T).
Implicit Types (q : packetNumberIndexedQueue D).

Definition slots q : list (entryWrapper T) := dq_list (entries q).

Definition npresent (l : list (entryWrapper T)) : Z :=
  Z.of_nat (length (filter (fun e => present e = true) l)).

(** The counter agrees with the slots, the slots respect the budget. *)
Record pq_wf q : Prop := {
  pw_deque : dq_wf (entries q);
  pw_count : numberOfPresentEntries q = npresent (slots q);
  pw_budget : (length (slots q) <= maxSlots q)%nat;
  pw_init : (1 <= initialSlots q <= maxSlots q)%nat;
  pw_first : slots q <> [] -> 0 <= firstPacket q }.

(** The lowest slot holds an entry, so a queue without entries has no slots. *)
Definition clean q : Prop := match slots q with e :: _ => present e = true | [] => True end.

(** The entry recorded for a packet number. *)
Definition pq_get q (k : Z) : option T :=
  if decide (firstPacket q <= k) then
    ew ← slots q !! Z.to_nat (k - firstPacket q);
    if present ew then Some (entry ew) else None
  else None.

Lemma npresent_cons e l : npresent (e :: l) = (if present e then 1 else 0) + npresent l.
Proof. unfold npresent. rewrite filter_cons. destruct (present e); simpl; lia. Qed.
Lemma npresent_app l k : npresent (l ++ k) = npresent l + npresent k.
Proof. unfold npresent. rewrite filter_app, length_app. lia. Qed.
Lemma npresent_nonneg l : 0 <= npresent l.
Proof. unfold npresent. lia. Qed.
Lemma npresent_absent n : npresent (replicate n (zeroEntry zeroT)) = 0.
Proof. induction n as [|n IH]; [done|]. cbn [replicate]. rewrite npresent_cons, IH. done. Qed.

Lemma npresent_0 l i e : npresent l = 0 -> l !! i = Some e -> present e = false.
Proof.
  revert i. induction l as [|x l IH]; intros i; [done|]. rewrite npresent_cons.
  pose proof (npresent_nonneg l). intros Hn. destruct i as [|i]; simpl.
  - intros [= <-]. destruct (present x); [lia|done].
  - apply IH. destruct (present x); lia.
Qed.

Lemma absent_all q i e : numberOfPresentEntries q = npresent (slots q) ->
  numberOfPresentEntries q = 0 -> slots q !! i = Some e -> present e = false.
Proof. intros Hc H0 He. apply (npresent_0 (slots q) i); [congruence|done]. Qed.

Lemma pq_get_none q k : numberOfPresentEntries q = npresent (slots q) ->
  numberOfPresentEntries q = 0 -> pq_get q k = None.
Proof.
  intros Hc H0. unfold pq_get. case_decide; [|done].
  destruct (slots q !! _) as [e|] eqn:E; [|done]. simpl. by rewrite (absent_all q _ e Hc H0 E).
Qed.

Lemma getEntryWraper_spec q k : pq_wf q -> 0 <= k ->
  getEntryWraper k q =
    Ret (if decide (firstPacket q <= k) then
           match slots q !! Z.to_nat (k - firstPacket q) with
           | Some ew => if present ew then Some (Z.to_nat (k - firstPacket q), ew) else None
           | None => None
           end
         else None).
Proof.
  intros Hwf Hk. unfold getEntryWraper, IsEmpty, invalidPacketNumber.
  rewrite decide_False by lia. case_bool_decide as He.
  { case_decide; [|done]. destruct (slots q !! _) as [e|] eqn:E; [|done].
    by rewrite (absent_all q _ e (pw_count q Hwf) He E). }
  destruct (decide (k < firstPacket q)); [by rewrite decide_False by lia|].
  rewrite (decide_True (P := firstPacket q <= k)) by lia.
  rewrite dq_Len_list by apply Hwf. fold (slots q).
  destruct (slots q !! Z.to_nat (k - firstPacket q)) as [ew|] eqn:E.
  - apply lookup_lt_Some in E as Hl. rewrite decide_False by lia.
    rewrite dq_Offset_list by apply Hwf. fold (slots q). unfold index. by rewrite E.
  - apply lookup_ge_None in E. by rewrite decide_True.
Qed.

Lemma GetEntry_spec q k : pq_wf q -> 0 <= k -> GetEntry k q = Ret (pq_get q k).
Proof.
  intros Hwf Hk. unfold GetEntry. rewrite getEntryWraper_spec by done.
  rewrite bind_ret. unfold pq_get. case_decide; [|done].
  destruct (slots q !! _) as [ew|]; [|done]. simpl. by destruct (present ew).
Qed.

(** ** Popping slots off the front *)

Record popped (k : nat) q q' : Prop := {
  po_deque : dq_wf (entries q');
  po_slots : slots q' = drop k (slots q);
  po_len : (k <= length (slots q))%nat;
  po_first : firstPacket q' = firstPacket q + Z.of_nat k;
  po_count : numberOfPresentEntries q' = numberOfPresentEntries q - npresent (take k (slots q));
  po_max : maxSlots q' = maxSlots q;
  po_init : initialSlots q' = initialSlots q }.

Lemma popped_0 q : dq_wf (entries q) -> popped 0 q q.
Proof. intros. split; try done; unfold npresent; simpl; lia. Qed.

Lemma popped_S k q q1 q' e l : slots q = e :: l ->
  popped k q1 q' -> slots q1 = l -> firstPacket q1 = firstPacket q + 1 ->
  numberOfPresentEntries q1 = numberOfPresentEntries q - (if present e then 1 else 0) ->
  maxSlots q1 = maxSlots q -> initialSlots q1 = initialSlots q -> popped (S k) q q'.
Proof.
  intros Hs [P1 P2 P3 P4 P5 P6 P7] Hl Hf Hn Hm Hi. rewrite Hl in *.
  split; rewrite ?Hs; simpl; try done; try lia; try congruence.
  rewrite npresent_cons. lia.
Qed.

Lemma popped_wf k q q' : pq_wf q -> popped k q q' -> pq_wf q'.
Proof.
  intros [W1 W2 W3 W4 W5] [P1 P2 P3 P4 P5 P6 P7]. split.
  - done.
  - rewrite P5, W2, P2. rewrite <- (take_drop k (slots q)) at 1. rewrite npresent_app. lia.
  - rewrite P2, length_drop, P6. lia.
  - congruence.
  - rewrite P2, P4. intros Hd. assert (slots q <> []) by (intros E; rewrite E, drop_nil in Hd; done).
    specialize (W5 H). lia.
Qed.

Lemma popped_get k q q' j : popped k q q' ->
  pq_get q' j = if decide (firstPacket q + Z.of_nat k <= j) then pq_get q j else None.
Proof.
  intros P. unfold pq_get. rewrite (po_first _ _ _ P). case_decide; [|done].
  rewrite decide_True by lia. rewrite (po_slots _ _ _ P), lookup_drop.
  by replace (k + Z.to_nat (j - (firstPacket q + Z.of_nat k)))%nat
    with (Z.to_nat (j - firstPacket q)) by lia.
Qed.

(** One round: the front slot [e] is popped. *)
Lemma pop_one q e l : dq_wf (entries q) -> slots q = e :: l ->
  dq_Empty (entries q) = false /\ dq_Front (entries q) = Ret e /\
  exists d, dq_PopFront (entries q) = Ret (e, d) /\ dq_wf d /\ dq_list d = l.
Proof.
  intros Hwf Hs. unfold slots in Hs. rewrite dq_Empty_list, dq_Front_list, Hs by done.
  split; [done|]. split; [done|].
  destruct (dq_PopFront_list (entries q) e l Hwf Hs) as (d & -> & ? & ? & _). eauto.
Qed.

Lemma empty_slots q : dq_wf (entries q) -> slots q = [] -> dq_Empty (entries q) = true.
Proof. intros Hwf Hs. rewrite dq_Empty_list by done. apply bool_decide_eq_true. exact Hs. Qed.

(** The queue with its front slot popped. *)
Lemma popped_step q e l d (np trunc : Z) :
  slots q = e :: l -> dq_wf d -> dq_list d = l ->
  np = numberOfPresentEntries q - (if present e then 1 else 0) ->
  forall k q', popped k (with_entries q d np (firstPacket q + 1) trunc) q' -> popped (S k) q q'.
Proof. intros Hs Hd Hl Hn k q' P. by apply (popped_S k q _ q' e l Hs P). Qed.

Lemma count_drop (e : entryWrapper T) n :
  (if present e then n - 1 else n) = n - (if present e then 1 else 0).
Proof. destruct (present e); lia. Qed.

Lemma dropFront_ok n : forall q, dq_wf (entries q) -> (n <= length (slots q))%nat ->
  exists q', dropFront n q = Ret q' /\ popped n q q'.
Proof.
  induction n as [|n IH]; intros q Hwf Hn; cbn [dropFront].
  { exists q. split; [done|by apply popped_0]. }
  destruct (slots q) as [|e l] eqn:Es; [simpl in Hn; lia|].
  destruct (pop_one q e l Hwf Es) as (-> & -> & d & -> & Hd & Hl).
  rewrite !bind_ret. cbn beta iota. rewrite count_drop.
  edestruct IH as (q' & E & P); [| |exists q'; split; [exact E|]].
  - done.
  - unfold slots. cbn [with_entries entries]. rewrite Hl. simpl in Hn. lia.
  - by eapply popped_step.
Qed.

(** What the popping loops stop at. *)
Definition all_absent (k : nat) q : Prop := Forall (fun e => present e = false) (take k (slots q)).

Lemma clearup_loop_ok fuel : forall q, dq_wf (entries q) -> (length (slots q) <= fuel)%nat ->
  exists q' k, clearup_loop fuel q = Ret q' /\ popped k q q' /\ all_absent k q /\ clean q'.
Proof.
  induction fuel as [|fuel IH]; intros q Hwf Hn; cbn [clearup_loop].
  - destruct (slots q) eqn:Es; [|simpl in Hn; lia]. rewrite empty_slots by done.
    exists q, 0%nat. split_and!; [done|by apply popped_0|constructor|unfold clean; by rewrite Es].
  - destruct (slots q) as [|e l] eqn:Es.
    { rewrite empty_slots by done.
      exists q, 0%nat. split_and!; [done|by apply popped_0|constructor|unfold clean; by rewrite Es]. }
    destruct (pop_one q e l Hwf Es) as (-> & -> & d & -> & Hd & Hl).
    rewrite bind_ret. destruct (present e) eqn:Ee.
    { exists q, 0%nat. split_and!; [done|by apply popped_0|constructor|unfold clean; by rewrite Es]. }
    rewrite bind_ret. cbn beta iota.
    edestruct IH as (q' & k & E & P & A & C); [| |exists q', (S k); split; [exact E|]].
    + done.
    + unfold slots. cbn [with_entries entries]. rewrite Hl. simpl in Hn. lia.
    + split; [|split; [|done]].
      * eapply popped_step; [exact Es|exact Hd|exact Hl| |exact P]. rewrite Ee. lia.
      * unfold all_absent in *. rewrite Es. unfold slots in A. cbn [with_entries entries] in A.
        rewrite Hl in A. by constructor.
Qed.

Lemma remove_loop_ok fuel n : forall q, pq_wf q -> (length (slots q) <= fuel)%nat ->
  exists q' k, remove_loop fuel n q = Ret q' /\ popped k q q' /\
    (k = 0%nat \/ firstPacket q' <= n) /\ (slots q' = [] \/ n <= firstPacket q').
Proof.
  assert (Hstop : forall q, pq_wf q -> slots q = [] \/ n <= firstPacket q ->
    exists q' k, Ret q = Ret q' /\ popped k q q' /\
      (k = 0%nat \/ firstPacket q' <= n) /\ (slots q' = [] \/ n <= firstPacket q')).
  { intros q Hwf Hs. exists q, 0%nat. split_and!; [done|apply popped_0, Hwf|by left|done]. }
  induction fuel as [|fuel IH]; intros q Hwf Hn; cbn [remove_loop].
  - destruct (slots q) eqn:Es; [|simpl in Hn; lia]. rewrite empty_slots by (done || apply Hwf).
    apply Hstop; auto.
  - destruct (slots q) as [|e l] eqn:Es.
    { rewrite empty_slots by (done || apply Hwf). apply Hstop; auto. }
    destruct (pop_one q e l (pw_deque q Hwf) Es) as (-> & -> & d & -> & Hd & Hl).
    assert (0 <= firstPacket q) by (apply Hwf; by rewrite Es).
    unfold invalidPacketNumber. case_decide as Hge; [apply Hstop; [done|right; lia]|].
    rewrite !bind_ret. cbn beta iota. rewrite count_drop.
    set (q1 := with_entries q d _ _ _).
    assert (P1 : popped 1 q q1).
    { eapply popped_step; [exact Es|exact Hd|exact Hl|reflexivity|]. by apply popped_0. }
    destruct (IH q1) as (q' & k & E & P & B & C).
    + by apply (popped_wf 1 q).
    + rewrite (po_slots _ _ _ P1), length_drop, Es. simpl in *. lia.
    + exists q', (S k). split; [exact E|]. split; [|split; [|done]].
      * by eapply popped_step.
      * right. destruct B as [->|B]; [|done]. rewrite (po_first _ _ _ P). unfold q1. simpl. lia.
Qed.

Definition all_consumed (f : T -> bool) (k : nat) q : Prop :=
  Forall (fun e => present e = false \/ f (entry e) = true) (take k (slots q)).

Lemma consume_loop_ok fuel f : forall q n, dq_wf (entries q) -> (length (slots q) <= fuel)%nat ->
  exists q' k, consume_loop fuel f n q = Ret (q', (n + k)%nat) /\ popped k q q' /\ all_consumed f k q /\
    match slots q' with e :: _ => present e = true /\ f (entry e) = false | [] => True end.
Proof.
  induction fuel as [|fuel IH]; intros q n Hwf Hn; cbn [consume_loop].
  - destruct (slots q) eqn:Es; [|simpl in Hn; lia]. rewrite empty_slots by done.
    exists q, 0%nat. rewrite Nat.add_0_r.
    split_and!; [done|by apply popped_0|constructor|by rewrite Es].
  - destruct (slots q) as [|e l] eqn:Es.
    { rewrite empty_slots by done. exists q, 0%nat. rewrite Nat.add_0_r.
      split_and!; [done|by apply popped_0|constructor|by rewrite Es]. }
    destruct (pop_one q e l Hwf Es) as (-> & -> & d & -> & Hd & Hl).
    rewrite bind_ret. destruct (present e && negb (f (entry e))) eqn:Ee.
    { apply andb_true_iff in Ee as [E1 E2%negb_true_iff]. exists q, 0%nat. rewrite Nat.add_0_r.
      split_and!; [done|by apply popped_0|constructor|by rewrite Es]. }
    rewrite bind_ret. cbn beta iota. rewrite count_drop.
    edestruct (IH (with_entries q d (numberOfPresentEntries q - (if present e then 1 else 0))
      (firstPacket q + 1) (truncatedSlots q)) (S n)) as (q' & k & E & P & A & C);
      [done|unfold slots; cbn [with_entries entries]; rewrite Hl; simpl in Hn; lia|].
    exists q', (S k). rewrite E. split; [by rewrite Nat.add_succ_r|]. split; [|split; [|done]].
    + by eapply popped_step.
    + unfold all_consumed in *. rewrite Es. unfold slots in A. cbn [with_entries entries] in A.
      rewrite Hl in A. constructor; [|done].
      destruct (present e); [|by left]. right. by destruct (f (entry e)).
Qed.

(** ** Giving capacity back *)

Lemma shrink_target_spec fuel live initial : forall target, (target <= fuel)%nat ->
  let t := shrink_target fuel live initial target in
  (t <= target)%nat /\ (t <= initial \/ t < live * shrinkDenominator)%nat /\
  (t < target -> live * 2 <= t)%nat.
Proof.
  unfold shrinkDenominator.
  induction fuel as [|fuel IH]; intros target Hf; cbn [shrink_target]; unfold shrinkDenominator;
    case_decide as Hd; cbv zeta; [lia|lia| |lia].
  assert (Hh : (target / 2 < target)%nat) by (apply Nat.div_lt; lia).
  pose proof (Nat.Div0.div_mod target 2) as Hdm. pose proof (Nat.mod_upper_bound target 2 ltac:(lia)).
  destruct (IH (target / 2)%nat) as (H1 & H2 & H3); [lia|].
  unfold shrinkDenominator in *. split; [lia|]. split; [lia|]. intros _.
  destruct (decide (shrink_target fuel live initial (target / 2) < target / 2)%nat) as [Hs|Hs].
  - by apply H3.
  - lia.
Qed.

(** Same records, possibly less capacity. *)
Record resized q q' : Prop := {
  re_deque : dq_wf (entries q');
  re_slots : slots q' = slots q;
  re_first : firstPacket q' = firstPacket q;
  re_count : numberOfPresentEntries q' = numberOfPresentEntries q;
  re_max : maxSlots q' = maxSlots q;
  re_init : initialSlots q' = initialSlots q;
  re_trunc : truncatedSlots q' = truncatedSlots q }.

Lemma reclaim_ok q : pq_wf q ->
  exists q', reclaim q = Ret q' /\ resized q q' /\
    (dq_Cap (entries q') <= initialSlots q \/
     dq_Cap (entries q') < length (slots q) * shrinkDenominator)%nat.
Proof.
  intros Hwf. pose proof (pw_deque q Hwf) as Hd. unfold reclaim.
  assert (Hsame : resized q q) by (by split).
  assert (Hshrink : forall target, exists q',
    (d ← dq_ShrinkTo (Z.of_nat target) (entries q);
     Ret (with_entries q d (numberOfPresentEntries q) (firstPacket q) (truncatedSlots q))) = Ret q' /\
    resized q q' /\
    (1 <= target -> length (slots q) <= target -> dq_Cap (entries q') <= target)%nat).
  { intros target. destruct (dq_ShrinkTo_list (Z.of_nat target) (entries q) Hd)
      as (d & -> & Hw & Hl & Hc). rewrite bind_ret. eexists. split; [done|].
    split; [by split|]. intros H1 H2. cbn [with_entries entries]. rewrite Hc. clear Hc.
    fold (slots q). case_decide; lia. }
  case_decide as Hcap; [exists q; split; [done|split; [done|lia]]|].
  pose proof (pw_init q Hwf). rewrite dq_Len_list by done. fold (slots q).
  case_decide as Hl.
  - destruct (shrink_target_spec (dq_Cap (entries q)) (length (slots q)) (initialSlots q)
      (dq_Cap (entries q)) ltac:(lia)) as (H1 & H2 & H3).
    set (t := shrink_target _ _ _ _) in *. case_decide as Ht.
    + exists q. split; [done|]. split; [done|]. lia.
    + destruct (Hshrink t) as (q' & E & R & C). exists q'. split; [done|]. split; [done|].
      specialize (C ltac:(lia) ltac:(lia)). lia.
  - destruct (Hshrink (initialSlots q)) as (q' & E & R & C). exists q'. split; [done|].
    split; [done|]. specialize (C ltac:(lia) ltac:(lia)). lia.
Qed.

Lemma resized_wf q q' : pq_wf q -> resized q q' -> pq_wf q'.
Proof.
  intros [W1 W2 W3 W4 W5] [R1 R2 R3 R4 R5 R6 R7]. split; [done|..]; rewrite ?R2, ?R3, ?R4, ?R5, ?R6; done.
Qed.

Lemma resized_get q q' k : resized q q' -> pq_get q' k = pq_get q k.
Proof. intros R. unfold pq_get. by rewrite (re_first _ _ R), (re_slots _ _ R). Qed.

(** The end of every trim: same records, the base number reset when no slot is
    left, and capacity proportional to the slots. *)
Lemma settle_ok q : pq_wf q ->
  exists q', settle q = Ret q' /\ pq_wf q' /\ slots q' = slots q /\
    (forall k, pq_get q' k = pq_get q k) /\
    (slots q <> [] -> firstPacket q' = firstPacket q) /\ maxSlots q' = maxSlots q /\
    initialSlots q' = initialSlots q /\
    (dq_Cap (entries q') <= initialSlots q \/
     dq_Cap (entries q') < length (slots q) * shrinkDenominator)%nat.
Proof.
  intros Hwf. unfold settle. rewrite dq_Empty_list by apply Hwf. fold (slots q).
  case_bool_decide as He.
  - set (q1 := with_entries _ _ _ _ _).
    assert (W1 : pq_wf q1) by (destruct Hwf; split; done).
    destruct (reclaim_ok q1 W1) as (q' & E & R & C). exists q'. split; [done|].
    split; [by apply (resized_wf q1)|]. split; [apply (re_slots _ _ R)|]. split.
    + intros k. rewrite (resized_get _ _ k R). unfold pq_get, q1. cbn [with_entries firstPacket].
      change (slots (with_entries q (entries q) (numberOfPresentEntries q) invalidPacketNumber
        (truncatedSlots q))) with (slots q). rewrite He. by repeat case_decide.
    + split; [done|]. split; [apply (re_max _ _ R)|]. split; [apply (re_init _ _ R)|done].
  - destruct (reclaim_ok q Hwf) as (q' & E & R & C). exists q'. split; [done|].
    split; [by apply (resized_wf q)|]. split; [apply (re_slots _ _ R)|].
    split; [intros; by apply resized_get|]. split; [intros; apply (re_first _ _ R)|].
    split; [apply (re_max _ _ R)|]. split; [apply (re_init _ _ R)|done].
Qed.

Lemma absent_get k q q' j : popped k q q' -> all_absent k q -> pq_get q' j = pq_get q j.
Proof.
  intros P A. rewrite (popped_get k q q' j P). case_decide as Hj; [done|].
  unfold pq_get. case_decide as Hf; [|done].
  destruct (slots q !! Z.to_nat (j - firstPacket q)) as [e|] eqn:E; [|done]. simpl.
  unfold all_absent in A. rewrite Forall_lookup in A.
  rewrite (A (Z.to_nat (j - firstPacket q)) e); [done|]. by rewrite lookup_take_lt by lia.
Qed.

(** ** The trimming operations *)

Definition capacity_ok q : Prop :=
  (dq_Cap (entries q) <= initialSlots q \/
   dq_Cap (entries q) < length (slots q) * shrinkDenominator)%nat.

(** What every trim guarantees of its result. *)
Definition trimmed q q' : Prop :=
  pq_wf q' /\ clean q' /\ capacity_ok q' /\ maxSlots q' = maxSlots q /\
  initialSlots q' = initialSlots q /\
  (slots q' <> [] -> exists k, (k <= length (slots q))%nat /\ slots q' = drop k (slots q) /\
     firstPacket q' = firstPacket q + Z.of_nat k).

Lemma settle_trimmed k q q1 : pq_wf q -> popped k q q1 -> clean q1 ->
  exists q', settle q1 = Ret q' /\ trimmed q q' /\ forall j, pq_get q' j = pq_get q1 j.
Proof.
  intros Hwf P C. pose proof (popped_wf k q q1 Hwf P) as W1.
  destruct (settle_ok q1 W1) as (q' & E & W & Hs & Hg & Hf & Hm & Hi & Hc).
  exists q'. split; [done|]. split; [|done]. split; [done|].
  split; [unfold clean; by rewrite Hs|]. split; [unfold capacity_ok; rewrite Hs, Hi; done|].
  split; [rewrite Hm; apply (po_max _ _ _ P)|]. split; [rewrite Hi; apply (po_init _ _ _ P)|].
  rewrite Hs. intros Hne. exists k. split; [apply (po_len _ _ _ P)|].
  split; [apply (po_slots _ _ _ P)|]. rewrite Hf by done. apply (po_first _ _ _ P).
Qed.

Lemma clearup_ok q : pq_wf q ->
  exists q', clearup q = Ret q' /\ trimmed q q' /\ forall j, pq_get q' j = pq_get q j.
Proof.
  intros Hwf. unfold clearup. rewrite dq_Len_list by apply Hwf. fold (slots q).
  destruct (clearup_loop_ok (length (slots q)) q (pw_deque q Hwf) ltac:(lia))
    as (q1 & k & -> & P & A & C). rewrite bind_ret.
  destruct (settle_trimmed k q q1 Hwf P C) as (q' & E & Ht & Hg). exists q'. split; [done|].
  split; [done|]. intros j. rewrite Hg. by apply (absent_get k).
Qed.

(** One past the last slot's packet number. *)
Definition next_number q : Z := firstPacket q + Z.of_nat (length (slots q)).

(** Frame conditions shared by the removals. *)
Definition kept q q' : Prop :=
  maxSlots q' = maxSlots q /\ initialSlots q' = initialSlots q /\
  (slots q' <> [] -> next_number q' = next_number q /\ slots q <> []).

Lemma trimmed_kept q q' : trimmed q q' -> kept q q'.
Proof.
  intros (_ & _ & _ & Hm & Hi & Hs). split_and!; [done..|]. intros Hne.
  destruct (Hs Hne) as (k & Hk & Ek & Ef). unfold next_number. rewrite Ek, Ef, length_drop.
  split; [lia|]. intros E. rewrite Ek, E, drop_nil in Hne. done.
Qed.

Lemma mark_absent q i e d : pq_wf q -> slots q !! i = Some e -> present e = true ->
  dq_wf d -> dq_list d = <[i := MkEW false (entry e)]> (slots q) ->
  let q1 := with_entries q d (numberOfPresentEntries q - 1) (firstPacket q) (truncatedSlots q) in
  pq_wf q1 /\ (forall j, pq_get q1 j = if decide (j = firstPacket q + Z.of_nat i) then None else pq_get q j).
Proof.
  intros [W1 W2 W3 W4 W5] Hi He Hd Hl q1.
  assert (i < length (slots q))%nat as Hlt by (by eapply lookup_lt_Some).
  assert (Hs1 : slots q1 = <[i := MkEW false (entry e)]> (slots q)) by exact Hl.
  split.
  - split; [done|..]; rewrite ?Hs1.
    + cbn [q1 with_entries numberOfPresentEntries]. rewrite W2.
      rewrite <- (take_drop_middle (slots q) i e Hi) at 1.
      rewrite insert_take_drop by done. rewrite !npresent_app, !npresent_cons, He. simpl. lia.
    + rewrite length_insert. done.
    + done.
    + intros _. apply W5. intros E. rewrite E in Hlt. simpl in Hlt. lia.
  - intros j. unfold pq_get. rewrite Hs1. cbn [q1 with_entries firstPacket].
    destruct (decide (firstPacket q <= j)) as [Hj|Hj]; [|by case_decide].
    destruct (decide (j = firstPacket q + Z.of_nat i)) as [->|Hne].
    + replace (Z.to_nat _) with i by lia. by rewrite list_lookup_insert_eq.
    + by rewrite list_lookup_insert_ne by lia.
Qed.

Lemma Remove_ok q n : pq_wf q -> 0 <= n ->
  exists q', Remove n q = Ret (q', pq_get q n) /\ pq_wf q' /\ kept q q' /\
    (clean q -> clean q') /\
    forall j, pq_get q' j = if decide (j = n) then None else pq_get q j.
Proof.
  intros Hwf Hn. unfold Remove. rewrite getEntryWraper_spec by done. rewrite bind_ret.
  assert (Hnone : pq_get q n = None -> exists q', Ret (q, None) = Ret (q', pq_get q n) /\ pq_wf q' /\
    kept q q' /\ (clean q -> clean q') /\
    forall j, pq_get q' j = if decide (j = n) then None else pq_get q j).
  { intros E. exists q. rewrite E. split_and!; [done..|split_and!; auto|done|].
    intros j. by case_decide; [subst j|]. }
  unfold pq_get in Hnone at 1. case_decide as Hf; [|by apply Hnone].
  destruct (slots q !! Z.to_nat (n - firstPacket q)) as [e|] eqn:Es; [|by apply Hnone].
  simpl in Hnone. destruct (present e) eqn:Ee; [|by apply Hnone]. clear Hnone.
  set (i := Z.to_nat (n - firstPacket q)) in *.
  assert (i < length (slots q))%nat as Hi by (by eapply lookup_lt_Some).
  destruct (dq_set_list i (MkEW false (entry e)) (entries q) (pw_deque q Hwf) Hi)
    as (d & -> & Hd & Hl & _). rewrite bind_ret.
  destruct (mark_absent q i e d Hwf Es Ee Hd Hl) as [W1 G1].
  set (q1 := with_entries q d _ _ _) in *.
  assert (Hgn : pq_get q n = Some (entry e)).
  { unfold pq_get. rewrite decide_True by done. fold i. rewrite Es. simpl. by rewrite Ee. }
  assert (Hs1 : slots q1 = <[i := MkEW false (entry e)]> (slots q)) by exact Hl.
  assert (Hni : firstPacket q + Z.of_nat i = n) by (unfold i; lia). rewrite Hni in G1.
  assert (K1 : kept q q1).
  { split_and!; [done..|]. intros _. unfold next_number. rewrite Hs1, length_insert.
    split; [done|]. intros E. rewrite E in Hi. simpl in Hi. lia. }
  rewrite Hgn. cbn [FirstPacket]. unfold FirstPacket. case_decide as Hfirst.
  - destruct (clearup_ok q1 W1) as (q' & -> & Ht & Hg). rewrite bind_ret.
    exists q'. split; [done|]. split; [by destruct Ht|]. split.
    + destruct (trimmed_kept _ _ Ht) as (A & B & C). destruct K1 as (A1 & B1 & C1).
      split_and!; [congruence..|]. intros Hne. destruct (C Hne) as [Hx Hy].
      destruct (C1 Hy) as [? ?]. split; [congruence|done].
    + split; [by destruct Ht as (_ & ? & _)|]. intros j. by rewrite Hg, G1.
  - rewrite bind_ret. exists q1. split; [done|]. split; [done|]. split; [done|]. split; [|done].
    unfold clean. rewrite Hs1. destruct (slots q) as [|e0 l]; [done|].
    destruct i as [|i'] eqn:Ei; [|done]. exfalso. apply Hfirst. cbn [q1 with_entries firstPacket]. lia.
Qed.

Lemma RemoveUpTo_ok q n : pq_wf q ->
  exists q', RemoveUpTo n q = Ret q' /\ pq_wf q' /\ kept q q' /\ clean q' /\ capacity_ok q' /\
    forall j, pq_get q' j = if decide (n <= j) then pq_get q j else None.
Proof.
  intros Hwf. unfold RemoveUpTo. rewrite dq_Len_list by apply Hwf. fold (slots q).
  destruct (remove_loop_ok (length (slots q)) n q Hwf ltac:(lia)) as (q1 & k & -> & P & B & C).
  rewrite bind_ret. pose proof (popped_wf k q q1 Hwf P) as W1.
  destruct (clearup_ok q1 W1) as (q' & E & Ht & Hg). exists q'. split; [done|].
  pose proof Ht as (W & Cl & Cap & _). split; [done|]. split.
  - destruct (trimmed_kept _ _ Ht) as (A1 & B1 & C1). destruct P as [P1 P2 P3 P4 P5 P6 P7].
    split_and!; [congruence..|]. intros Hne. destruct (C1 Hne) as [Hx Hy]. split.
    + rewrite Hx. unfold next_number. rewrite P4, P2, length_drop. lia.
    + intros E0. rewrite P2, E0, drop_nil in Hy. done.
  - split; [done|]. split; [done|]. intros j. rewrite Hg, (popped_get k q q1 j P).
    pose proof (po_first _ _ _ P) as Hf.
    destruct (decide (n <= j)) as [Hj|Hj].
    + case_decide as Hk; [done|]. destruct B as [->|B]; [|lia].
      unfold pq_get. by rewrite decide_False by lia.
    + case_decide as Hk; [|done]. destruct C as [C|C]; [|lia].
      unfold pq_get. rewrite decide_True by lia.
      rewrite (lookup_ge_None_2 (slots q)); [done|].
      rewrite (po_slots _ _ _ P) in C. apply (f_equal length) in C. rewrite length_drop in C.
      simpl in C. lia.
Qed.

Lemma DropConsumedFront_ok q f : pq_wf q ->
  exists q' n, DropConsumedFront f q = Ret (q', n) /\ pq_wf q' /\ kept q q' /\ clean q' /\ capacity_ok q' /\
    (forall j x, pq_get q j = Some x -> pq_get q' j = Some x \/ f x = true) /\
    (forall j x, pq_get q' j = Some x -> pq_get q j = Some x) /\
    (forall j x, pq_get q j = Some x -> f x = false ->
       forall j' x', j <= j' -> pq_get q j' = Some x' -> pq_get q' j' = Some x') /\
    (forall j x, pq_get q' j = Some x -> exists j0 x0, j0 <= j /\ pq_get q' j0 = Some x0 /\ f x0 = false).
Proof.
  intros Hwf. unfold DropConsumedFront. rewrite dq_Len_list by apply Hwf. fold (slots q).
  destruct (consume_loop_ok (length (slots q)) f q 0 (pw_deque q Hwf) ltac:(lia))
    as (q1 & k & -> & P & A & C). rewrite bind_ret. cbn beta iota.
  destruct (settle_trimmed k q q1 Hwf P) as (q' & -> & Ht & Hg).
  { unfold clean. destruct (slots q1); [done|]. by destruct C. }
  rewrite bind_ret. exists q', (0 + k)%nat. split; [done|]. pose proof Ht as (W & Cl & Cap & _).
  split; [done|]. split; [by apply trimmed_kept|]. split; [done|]. split; [done|].
  assert (Hcons : forall j x, pq_get q j = Some x -> j < firstPacket q + Z.of_nat k -> f x = true).
  { intros j x Hj Hk. unfold pq_get in Hj. case_decide as Hf; [|done].
    destruct (slots q !! Z.to_nat (j - firstPacket q)) as [e|] eqn:E; [|done]. simpl in Hj.
    unfold all_consumed in A. rewrite Forall_lookup in A.
    specialize (A (Z.to_nat (j - firstPacket q)) e ltac:(by rewrite lookup_take_lt by lia)).
    destruct (present e); [|done]. destruct A as [?|A]; [done|]. by simplify_eq. }
  split_and!.
  - intros j x Hj. rewrite Hg, (popped_get k q q1 j P). case_decide; [by left|right].
    apply (Hcons j); [done|lia].
  - intros j x. rewrite Hg, (popped_get k q q1 j P). by case_decide.
  - intros j x Hj Hfx j' x' Hle Hj'. rewrite Hg, (popped_get k q q1 j' P). case_decide; [done|].
    pose proof (Hcons j x Hj ltac:(lia)). congruence.
  - intros j x. rewrite Hg. intros Hj. exists (firstPacket q1). unfold pq_get in Hj. case_decide as Hf; [|done].
    destruct (slots q1) as [|e l] eqn:Es; [by rewrite lookup_nil in Hj|]. destruct C as [Cp Cf]. exists (entry e). split; [done|]. split; [|done].
    rewrite Hg. unfold pq_get. rewrite decide_True, Z.sub_diag, Es by lia. simpl. by rewrite Cp.
Qed.

(** ** Insertion *)

Lemma push_gap_ok gap : forall d, dq_wf d ->
  exists d', push_gap zeroT gap d = Ret d' /\ dq_wf d' /\
    dq_list d' = dq_list d ++ replicate gap (zeroEntry zeroT).
Proof.
  induction gap as [|gap IH]; intros d Hd; cbn [push_gap].
  - exists d. by rewrite app_nil_r.
  - destruct (dq_PushBack_list (zeroEntry zeroT) d Hd) as (d1 & -> & H1 & E1). rewrite bind_ret.
    destruct (IH d1 H1) as (d' & -> & H' & E'). exists d'. split; [done|]. split; [done|].
    by rewrite E', E1, <- app_assoc.
Qed.

(** Filling the hole and appending the new entry. *)
Lemma append_ok q gap n (e : T) : pq_wf q ->
  n = next_number q + Z.of_nat gap -> 0 <= firstPacket q ->
  (length (slots q) + gap + 1 <= maxSlots q)%nat ->
  exists d d', push_gap zeroT gap (entries q) = Ret d /\ dq_PushBack (MkEW true e) d = Ret d' /\
    let q' := with_entries q d' (numberOfPresentEntries q + 1) (firstPacket q) (truncatedSlots q) in
    pq_wf q' /\ slots q' = slots q ++ replicate gap (zeroEntry zeroT) ++ [MkEW true e] /\
    forall k, pq_get q' k = if decide (k = n) then Some e else pq_get q k.
Proof.
  intros [W1 W2 W3 W4 W5] Hn Hf Hb. unfold next_number in Hn.
  destruct (push_gap_ok gap (entries q) W1) as (d & Ed & Hd & Ld).
  destruct (dq_PushBack_list (MkEW true e) d Hd) as (d' & Ed' & Hd' & Ld').
  exists d, d'. split; [done|]. split; [done|]. intros q'.
  assert (Hs : slots q' = slots q ++ replicate gap (zeroEntry zeroT) ++ [MkEW true e])
    by (unfold slots, q'; cbn [with_entries entries]; by rewrite Ld', Ld, <- app_assoc).
  split; [|split; [done|]].
  - split; [done|..]; rewrite ?Hs.
    + unfold q'. cbn [with_entries numberOfPresentEntries].
      rewrite !npresent_app, npresent_absent, W2. unfold npresent at 3. simpl. lia.
    + rewrite !length_app, length_replicate. simpl. lia.
    + done.
    + intros _. exact Hf.
  - intros k. unfold pq_get. rewrite Hs. unfold q'. cbn [with_entries firstPacket].
    destruct (decide (firstPacket q <= k)) as [Hk|Hk]; [|by rewrite decide_False by lia].
    destruct (decide (k = n)) as [->|Hne].
    + rewrite lookup_app_r, lookup_app_r by (rewrite ?length_replicate; lia).
      rewrite length_replicate. by replace (_ - _)%nat with 0%nat by lia.
    + destruct (decide (Z.to_nat (k - firstPacket q) < length (slots q))%nat).
      { by rewrite lookup_app_l by done. }
      rewrite (lookup_ge_None_2 (slots q)) by lia. rewrite lookup_app_r by lia.
      destruct (decide (Z.to_nat (k - firstPacket q) - length (slots q) < gap)%nat).
      * rewrite lookup_app_l by (by rewrite length_replicate). by rewrite lookup_replicate_2.
      * rewrite lookup_app_r by (rewrite length_replicate; lia).
        rewrite (lookup_ge_None_2 [_]); [done|]. rewrite length_replicate. simpl. lia.
Qed.

(** What an accepted insertion does. *)
Definition emplaced q q' (n : Z) (e : T) : Prop :=
  pq_wf q' /\ maxSlots q' = maxSlots q /\ initialSlots q' = initialSlots q /\
  slots q' <> [] /\ next_number q' = n + 1 /\
  (forall k, pq_get q' k = if decide (k = n) then Some e
                           else if decide (n - Z.of_nat (maxSlots q) < k) then pq_get q k else None) /\
  (clean q -> slots q = [] \/ n - firstPacket q < Z.of_nat (maxSlots q) -> clean q').

(** A fresh queue anchored at the new packet. *)
Lemma single_ok q d n (e : T) trunc : (1 <= initialSlots q <= maxSlots q)%nat ->
  dq_wf d -> dq_list d = [MkEW true e] -> 0 <= n ->
  let q' := with_entries q d 1 n trunc in
  pq_wf q' /\ clean q' /\ slots q' <> [] /\ next_number q' = n + 1 /\
  forall k, pq_get q' k = if decide (k = n) then Some e else None.
Proof.
  intros Hi Hd Hl Hn q'. assert (Hs : slots q' = [MkEW true e]) by exact Hl.
  split_and!; rewrite ?Hs; try done.
  - split; rewrite ?Hs; try done; cbn [q' with_entries maxSlots length]; lia.
  - unfold clean. by rewrite Hs.
  - unfold next_number. rewrite Hs. cbn [q' with_entries firstPacket length]. lia.
  - intros k. unfold pq_get. rewrite Hs. cbn [q' with_entries firstPacket].
    destruct (decide (k = n)) as [->|Hne].
    + rewrite decide_True by lia. by rewrite Z.sub_diag.
    + case_decide; [|done]. destruct (Z.to_nat (k - n)) eqn:E; [lia|done].
Qed.

Lemma next_number_gt q k x : pq_get q k = Some x -> firstPacket q <= k < next_number q.
Proof.
  unfold pq_get, next_number. case_decide; [|done].
  destruct (slots q !! _) as [ew|] eqn:E; [|done]. apply lookup_lt_Some in E. intros _. lia.
Qed.

Lemma Emplace_ok q n (e : T) : pq_wf q -> 0 <= n ->
  (numberOfPresentEntries q = 0 -> slots q = []) ->
  (slots q <> [] /\ n < next_number q /\ Emplace zeroT n (Some e) q = Ret (q, false)) \/
  ((slots q = [] \/ next_number q <= n) /\
   exists q', Emplace zeroT n (Some e) q = Ret (q', true) /\ emplaced q q' n e).
Proof.
  intros Hwf Hn Hempty. pose proof Hwf as [W1 W2 W3 W4 W5]. unfold Emplace, IsEmpty.
  rewrite decide_False by (unfold invalidPacketNumber; lia). case_bool_decide as Hc.
  - right. specialize (Hempty Hc). split; [by left|].
    destruct (dq_PushBack_list (MkEW true e) (entries q) W1) as (d & -> & Hd & Hl).
    rewrite bind_ret. fold (slots q) in Hl. rewrite Hempty in Hl.
    destruct (single_ok q d n e (truncatedSlots q) W4 Hd Hl Hn) as (A & B & C & E & G).
    eexists. split; [done|]. split; [done|]. do 4 (split; [done|]). split; [|done].
    intros k. rewrite G. case_decide; [done|]. case_decide; [|done].
    symmetry. by apply pq_get_none.
  - assert (Hne : slots q <> []) by (intros E; rewrite E in W2; done).
    assert (HLen : (0 < length (slots q))%nat) by (destruct (slots q); simpl; [done|lia]).
    specialize (W5 Hne). unfold LastPacket, IsEmpty. rewrite bool_decide_false by done.
    rewrite dq_Len_list by done. fold (slots q).
    destruct (decide (n <= _)) as [Hlast|Hlast].
    { left. unfold next_number. split_and!; [done|lia|done]. }
    right. split; [right; unfold next_number; lia|]. unfold FirstPacket.
    set (gap := n - firstPacket q - Z.of_nat (length (slots q))).
    rewrite (decide_False (P := gap < 0)) by lia.
    assert (Hbig : forall k x, pq_get q k = Some x -> k < n) by
      (intros k x Hx%next_number_gt; unfold next_number in *; lia).
    destruct (decide (gap >= Z.of_nat (maxSlots q))) as [Hg|Hg].
    + cbn [restart with_entries entries].
      destruct (dq_PushBack_list (MkEW true e) (dq_Init (initialSlots q)) ltac:(apply dq_Init_wf))
        as (d & -> & Hd & Hl). rewrite bind_ret. rewrite dq_Init_list in Hl.
      edestruct (single_ok q d n e) as (A & B & C & E & G); [done|done|exact Hl|done|].
      eexists. split; [done|]. split; [exact A|]. do 4 (split; [done|]). split; [|done].
      intros k. etrans; [exact (G k)|]. case_decide; [done|]. case_decide; [|done].
      destruct (pq_get q k) as [x|] eqn:Ex; [|done]. apply next_number_gt in Ex.
      unfold next_number in Ex. lia.
    + set (excess := Z.of_nat (length (slots q)) + gap + 1 - Z.of_nat (maxSlots q)).
      set (ex := if decide (excess > 0) then Z.to_nat excess else 0%nat).
      assert (Hex : (ex <= length (slots q))%nat) by (unfold ex; case_decide; lia).
      assert (Hdrop : exists q1, (if decide (excess > 0) then dropFront (Z.to_nat excess) q else Ret q) = Ret q1 /\
        popped ex q q1).
      { unfold ex in *. case_decide; [apply dropFront_ok; done|]. exists q. split; [done|by apply popped_0]. }
      destruct Hdrop as (q1 & -> & P). rewrite bind_ret.
      pose proof (popped_wf ex q q1 Hwf P) as Hwf1. destruct P as [P1 P2 P3 P4 P5 P6 P7] eqn:EP. clear EP.
      assert (P' : popped ex q q1) by (by split).
      assert (Hl1 : length (slots q1) = (length (slots q) - ex)%nat) by (by rewrite P2, length_drop).
      destruct (append_ok q1 (Z.to_nat gap) n e Hwf1) as (d & d' & -> & E' & Hw & Hs & Hget).
      { unfold next_number. rewrite P4, Hl1. lia. }
      { rewrite P4. lia. }
      { rewrite Hl1, P6. unfold ex. case_decide; lia. }
      rewrite bind_ret, E', bind_ret. eexists. split; [done|]. split; [exact Hw|].
      split; [exact P6|]. split; [exact P7|]. rewrite Hs. split; [|split; [|split]].
      * intros E. apply app_eq_nil in E as [_ E]. apply app_eq_nil in E as [_ E]. done.
      * unfold next_number. rewrite Hs. cbn [with_entries firstPacket].
        rewrite !length_app, length_replicate, P4, Hl1. simpl. lia.
      * intros k. rewrite Hget. case_decide; [done|]. rewrite (popped_get ex q q1 k P').
        destruct (pq_get q k) as [x|] eqn:Ex; [|by repeat case_decide].
        pose proof (next_number_gt q k x Ex) as Hr. unfold next_number in Hr.
        assert (Hiff : firstPacket q + Z.of_nat ex <= k <-> n - Z.of_nat (maxSlots q) < k)
          by (unfold ex; case_decide; lia).
        by repeat case_decide; try tauto.
      * intros Hcl [?|Hfit]; [done|]. unfold clean in Hcl |- *. rewrite Hs, P2.
        assert (ex = 0%nat) as -> by (unfold ex; case_decide; lia). rewrite drop_0.
        by destruct (slots q).
Qed.

Lemma clean_nonempty q : pq_wf q -> clean q -> slots q <> [] ->
  0 < numberOfPresentEntries q /\ is_Some (pq_get q (firstPacket q)).
Proof.
  intros Hwf Hc Hne. unfold clean in Hc. rewrite (pw_count q Hwf). unfold pq_get.
  rewrite decide_True, Z.sub_diag by lia. destruct (slots q) as [|e l]; [done|].
  rewrite npresent_cons, Hc. pose proof (npresent_nonneg l). split; [lia|]. simpl. rewrite Hc. eauto.
Qed.

(** * Refinement of a finite map *)

(** The specification state: the recorded packets and the number after the
    last one inserted. *)
Record sent := MkSent { am : gmap Z T; anext : Z }.

Inductive pop := PEmplace (n : Z) (e : T) | PGet (n : Z) | PRemove (n : Z)
  | PRemoveUpTo (n : Z) | PDropConsumed (f : T -> bool).
Inductive pout := OBool (b : bool) | OEntry (x : option T) | OUnit.

Definition pq_step (o : pop) q : res (pout * packetNumberIndexedQueue D) :=
  match o with
  | PEmplace n e => '(q, b) ← Emplace zeroT n (Some e) q; Ret (OBool b, q)
  | PGet n => x ← GetEntry n q; Ret (OEntry x, q)
  | PRemove n => '(q, x) ← Remove n q; Ret (OEntry x, q)
  | PRemoveUpTo n => q ← RemoveUpTo n q; Ret (OUnit, q)
  | PDropConsumed f => '(q, _) ← DropConsumedFront f q; Ret (OUnit, q)
  end.

(** What the operations mean on the map. *)
Definition spec (a : sent) (o : pop) (out : pout) (a' : sent) : Prop :=
  match o with
  | PEmplace n e =>
      if decide (am a = ∅ \/ anext a <= n)
      then out = OBool true /\ am a' = <[n := e]> (am a) /\ anext a' = n + 1
      else out = OBool false /\ a' = a
  | PGet n => out = OEntry (am a !! n) /\ a' = a
  | PRemove n => out = OEntry (am a !! n) /\ am a' = delete n (am a) /\ anext a' = anext a
  | PRemoveUpTo n =>
      out = OUnit /\ am a' = filter (fun kv => n <= kv.1) (am a) /\ anext a' = anext a
  | PDropConsumed f =>
      out = OUnit /\ anext a' = anext a /\ am a' ⊆ am a /\
      (forall j x, am a !! j = Some x -> am a' !! j = None -> f x = true) /\
      (forall j x j' x', am a !! j = Some x -> f x = false -> j <= j' ->
         am a !! j' = Some x' -> am a' !! j' = Some x') /\
      (forall j x, am a' !! j = Some x -> exists j0 x0, j0 <= j /\ am a' !! j0 = Some x0 /\ f x0 = false)
  end.

(** Packet numbers are non-negative and the records kept span less than the
    slot budget. *)
Definition op_ok (max : nat) (a : sent) (o : pop) : Prop :=
  match o with
  | PEmplace n _ => 0 <= n /\ forall j, is_Some (am a !! j) -> n - j < Z.of_nat max
  | PGet n | PRemove n => 0 <= n
  | _ => True
  end.

(** The queue holds exactly the records of the map. *)
Definition holds q (a : sent) : Prop :=
  pq_wf q /\ clean q /\ (forall k, pq_get q k = am a !! k) /\
  (slots q <> [] -> anext a = next_number q).

Lemma holds_empty q a : holds q a -> am a = ∅ <-> slots q = [].
Proof.
  intros (W & C & G & _). split.
  - intros E. destruct (slots q) as [|e l] eqn:Es; [done|]. exfalso.
    destruct (clean_nonempty q W C ltac:(by rewrite Es)) as [_ [x Hx]].
    rewrite G, E, lookup_empty in Hx. done.
  - intros E. apply map_eq. intros k. rewrite <- G, lookup_empty. unfold pq_get. rewrite E.
    by case_decide.
Qed.

Lemma holds_after q q' a (m' : gmap Z T) : holds q a -> pq_wf q' -> clean q' -> kept q q' ->
  (forall k, pq_get q' k = m' !! k) -> holds q' (MkSent m' (anext a)).
Proof.
  intros (W & C & G & N) W' C' (_ & _ & K) G'. split_and!; [done..|]. cbn [anext].
  intros Hne. destruct (K Hne) as [E Hq]. by rewrite E, N.
Qed.

(** ** Each operation on the map *)

Lemma holds_Emplace q a n (e : T) : holds q a -> 0 <= n -> (forall j, is_Some (am a !! j) -> n - j < Z.of_nat (maxSlots q)) ->
  if decide (am a = ∅ \/ anext a <= n)
  then exists q', Emplace zeroT n (Some e) q = Ret (q', true) /\ holds q' (MkSent (<[n := e]> (am a)) (n + 1)) /\ maxSlots q' = maxSlots q
  else Emplace zeroT n (Some e) q = Ret (q, false).
Proof.
  intros Hq Hn Hspan. pose proof Hq as (W & C & G & N). pose proof (holds_empty q a Hq) as He.
  destruct (Emplace_ok q n e W Hn) as [(Hne & Hlt & ->)|(Hnew & q' & -> & Hw & Hm & Hi & Hs & Hx & Hg & Hc)].
  { intros H0. destruct (decide (slots q = [])) as [|Hne]; [done|].
    destruct (clean_nonempty q W C Hne) as [? _]. lia. }
  - rewrite decide_False by (rewrite He, N by done; intros [?|?]; [done|lia]). done.
  - rewrite decide_True.
    2:{ destruct (decide (slots q = [])) as [E|Hne]; [left; by apply He|]. right. rewrite N by done. by destruct Hnew. }
    exists q'. split; [done|]. split; [|done]. split; [done|]. split; [|split; [|by rewrite Hx]].
    { apply Hc; [done|]. destruct (decide (slots q = [])) as [E|Hne]; [by left|right].
      apply Hspan. rewrite <- G. by apply clean_nonempty. }
    intros k. cbn [am]. rewrite Hg. destruct (decide (k = n)) as [->|Hk].
    { by rewrite lookup_insert_eq. }
    rewrite lookup_insert_ne, <- G by done. case_decide as Hb; [done|].
    destruct (pq_get q k) eqn:Ek; [|done].
    specialize (Hspan k ltac:(rewrite <- G; eauto)). lia.
Qed.

Lemma holds_GetEntry q a n : holds q a -> 0 <= n -> GetEntry n q = Ret (am a !! n).
Proof. intros (W & _ & G & _) Hn. by rewrite GetEntry_spec, G. Qed.

Lemma holds_Remove q a n : holds q a -> 0 <= n ->
  exists q', Remove n q = Ret (q', am a !! n) /\ holds q' (MkSent (delete n (am a)) (anext a)) /\ maxSlots q' = maxSlots q.
Proof.
  intros Hq Hn. pose proof Hq as (W & C & G & N). destruct (Remove_ok q n W Hn) as (q' & -> & W' & K & C' & G'). rewrite G.
  exists q'. split; [done|]. split; [|apply K]. apply (holds_after q); [done|done|by apply C'|done|].
  intros k. rewrite G'. destruct (decide (k = n)) as [->|]; [by rewrite lookup_delete_eq|].
  by rewrite lookup_delete_ne, G.
Qed.

Lemma holds_RemoveUpTo q a n : holds q a ->
  exists q', RemoveUpTo n q = Ret q' /\ holds q' (MkSent (filter (fun kv => n <= kv.1) (am a)) (anext a)) /\ maxSlots q' = maxSlots q.
Proof.
  intros Hq. pose proof Hq as (W & C & G & N). destruct (RemoveUpTo_ok q n W) as (q' & -> & W' & K & C' & _ & G').
  exists q'. split; [done|]. split; [|apply K]. apply (holds_after q); [done..|].
  intros k. rewrite G', G, map_lookup_filter. destruct (am a !! k) as [x|]; simpl; [|by case_decide].
  by repeat case_guard || case_decide.
Qed.

Lemma holds_DropConsumed q a f : holds q a ->
  exists q' n m', DropConsumedFront f q = Ret (q', n) /\ holds q' (MkSent m' (anext a)) /\ maxSlots q' = maxSlots q /\ m' ⊆ am a /\
    (forall j x, am a !! j = Some x -> m' !! j = None -> f x = true) /\
    (forall j x j' x', am a !! j = Some x -> f x = false -> j <= j' -> am a !! j' = Some x' -> m' !! j' = Some x') /\
    (forall j x, m' !! j = Some x -> exists j0 x0, j0 <= j /\ m' !! j0 = Some x0 /\ f x0 = false).
Proof.
  intros Hq. pose proof Hq as (W & C & G & N). destruct (DropConsumedFront_ok q f W) as (q' & k & E & W' & K & C' & _ & G1 & G2 & G3 & G4).
  set (m' := filter (fun kv : Z * T => is_Some (pq_get q' kv.1)) (am a)). exists q', k, m'.
  assert (Hm : forall j, pq_get q' j = m' !! j).
  { intros j. unfold m'. rewrite map_lookup_filter, <- G.
    destruct (pq_get q' j) as [x|] eqn:Ex.
    - rewrite (G2 j x Ex). simpl. case_guard as Hg; [done|]. destruct Hg. rewrite Ex. eauto.
    - destruct (pq_get q j) as [y|]; [|done]. simpl. case_guard as Hg; [|done].
      exfalso. rewrite Ex in Hg. by destruct Hg. }
  split; [done|]. split; [by apply (holds_after q)|]. split; [apply K|]. split; [apply map_filter_subseteq|]. split_and!.
  - intros j x. rewrite <- G, <- Hm. intros Hj Hno. destruct (G1 j x Hj) as [Hy|]; [congruence|done].
  - intros j x j' x'. rewrite <- !G, <- Hm. intros Hj Hf Hle Hj'. by apply (G3 j x).
  - intros j x. rewrite <- Hm. intros Hj. destruct (G4 j x Hj) as (j0 & x0 & L & Hj0 & F0). exists j0, x0. by rewrite <- Hm.
Qed.

(** A store through the pointer that [GetEntry] returns. *)
Lemma holds_UpdateEntry q a n (f : T -> T) x : holds q a -> 0 <= n -> am a !! n = Some x ->
  exists q', UpdateEntry f n q = Ret q' /\ holds q' (MkSent (<[n := f x]> (am a)) (anext a)) /\ maxSlots q' = maxSlots q.
Proof.
  intros (W & C & G & N) Hn Hx. unfold UpdateEntry. rewrite getEntryWraper_spec, bind_ret by done. rewrite <- G in Hx. unfold pq_get in Hx. case_decide as Hf; [|done].
  destruct (slots q !! Z.to_nat (n - firstPacket q)) as [ew|] eqn:E; [|done]. simpl in Hx. destruct (present ew) eqn:P; [|done]. injection Hx as <-.
  set (i := Z.to_nat (n - firstPacket q)) in *. destruct (dq_set_list i (MkEW true (f (entry ew))) (entries q) (pw_deque q W)) as (d & -> & Wd & Ld & _).
  { apply lookup_lt_Some in E. exact E. }
  rewrite bind_ret. eexists. split; [reflexivity|]. split; [|done]. set (q' := with_entries _ _ _ _ _).
  assert (Sl : slots q' = <[i := MkEW true (f (entry ew))]> (slots q)) by exact Ld. apply lookup_lt_Some in E as Hlt.
  split_and!.
  - destruct W as [W1 W2 W3 W4 W5]. split; [exact Wd|..].
    + cbn [q' with_entries numberOfPresentEntries]. rewrite W2, Sl. rewrite <- (take_drop_middle _ _ _ E) at 1. rewrite insert_take_drop by done. rewrite !npresent_app, !npresent_cons, P. done.
    + rewrite Sl, length_insert. exact W3.
    + exact W4.
    + rewrite Sl. intros _. apply W5. intros E0. rewrite E0 in Hlt. cbn in Hlt. lia.
  - unfold clean in *. rewrite Sl. destruct (slots q) as [|e l]; [done|]. by destruct i.
  - intros k. cbn [am]. unfold pq_get. rewrite Sl. cbn [q' with_entries firstPacket]. destruct (decide (k = n)) as [->|Hk].
    + rewrite decide_True by done. fold i. rewrite list_lookup_insert_eq by done. by rewrite lookup_insert_eq.
    + rewrite lookup_insert_ne, <- G by done. unfold pq_get. case_decide; [|done]. rewrite list_lookup_insert_ne by (unfold i; lia). done.
  - rewrite Sl. intros _. cbn [anext]. rewrite N by (intros E0; rewrite E0 in Hlt; cbn in Hlt; lia). unfold next_number. by rewrite Sl, length_insert.
Qed.


(** The queue's memory is bounded whatever the caller does: inserting any
    packet number never leaves more slots than the budget, always keeps the new
    record and every older record within the budget's span of it; and every
    trim leaves a capacity of at most the initial one or four times the slots
    in use. *)
Theorem packet_queue_bounded q n (e : T) :
  pq_wf q -> 0 <= n -> (numberOfPresentEntries q = 0 -> slots q = []) ->
  (exists q' b, Emplace zeroT n (Some e) q = Ret (q', b) /\ pq_wf q' /\
     (length (slots q') <= maxSlots q)%nat /\
     (b = true -> pq_get q' n = Some e /\
        forall k, k <> n -> n - Z.of_nat (maxSlots q) < k -> pq_get q' k = pq_get q k)) /\
  (exists q', RemoveUpTo n q = Ret q' /\ pq_wf q' /\
     (dq_Cap (entries q') <= initialSlots q \/
      dq_Cap (entries q') < 4 * length (slots q'))%nat).
Proof.
  intros Hwf Hn He. split.
  - destruct (Emplace_ok q n e Hwf Hn He) as [(_ & _ & ->)|(_ & q' & -> & Hw & Hm & _ & _ & _ & Hg & _)].
    + exists q, false. split_and!; [done|done|apply Hwf|done].
    + exists q', true. split; [done|]. split; [done|].
      split; [rewrite <- Hm; apply Hw|]. intros _. split; [by rewrite Hg, decide_True|].
      intros k Hk Hs. by rewrite Hg, decide_False, decide_True.
  - destruct (RemoveUpTo_ok q n Hwf) as (q' & -> & W' & (_ & Hi & _) & _ & Hc & _).
    exists q'. split; [done|]. split; [done|]. unfold capacity_ok, shrinkDenominator in Hc.
    rewrite Hi in Hc. lia.
Qed.
End facts.

(** * The queue over the ring buffer *)

#[export] Instance entry_inhabited : Inhabited (entryWrapper Z) := populate (MkEW false 0).
Abbreviation zqueue := (packetNumberIndexedQueue (RingBuffer (entryWrapper Z))).

Fixpoint pq_run (ops : list (@pop Z)) (q : zqueue) : res (list (@pout Z) * zqueue) :=
  match ops with
  | [] => Ret ([], q)
  | o :: ops => '(x, q) ← pq_step 0 o q; '(xs, q) ← pq_run ops q; Ret (x :: xs, q)
  end.

Definition small_queue : zqueue := newPacketNumberIndexedQueue 1 3.

(** After the slot budget dropped records so that the lowest slot is empty,
    removing the remaining entries one by one leaves the queue "empty" with
    stale slots: the next packet is then recorded at the wrong offset, cannot
    be found again, and its successor is refused. *)
Theorem packet_queue_stale_after_truncation :
  pq_run [PEmplace 1 10; PEmplace 3 30; PEmplace 4 40; PRemove 4; PRemove 3;
          PEmplace 5 50; PGet 5; PEmplace 6 60] small_queue ≫= (fun r => Ret r.1) =
    Ret [OBool true; OBool true; OBool true; OEntry (Some 40); OEntry (Some 30);
         OBool true; OEntry None; OBool false].
Proof. vm_compute. reflexivity. Qed.

Lemma small_queue_holds : holds small_queue (MkSent ∅ 0).
Proof.
  split_and!; [|done| |done].
  - split; try done; [apply ring_deque_laws|vm_compute; lia..].
  - intros k. cbn [am]. rewrite lookup_empty. unfold pq_get. by case_decide.
Qed.


Lemma packet_queue_bounded_witness :
  (exists q' b, Emplace 0 9 (Some 90) small_queue = Ret (q', b) /\ pq_wf q' /\
     (length (slots q') <= maxSlots small_queue)%nat /\
     (b = true -> pq_get q' 9 = Some 90 /\
        forall k, k <> 9 -> 9 - Z.of_nat (maxSlots small_queue) < k -> pq_get q' k = pq_get small_queue k)) /\
  (exists q', RemoveUpTo 9 small_queue = Ret q' /\ pq_wf q' /\
     (dq_Cap (entries q') <= initialSlots small_queue \/
      dq_Cap (entries q') < 4 * length (slots q'))%nat).
Proof.
  apply (packet_queue_bounded 0 small_queue 9 90);
    [apply small_queue_holds|lia|intros _; reflexivity].
Defined.
