(* ===== verification/WindowedFilter.v ===== *)
(** Kathleen Nichols' windowed min/max filter
    (protocol/tuic/congestion/bbr/windowed_filter.go). *)

From S2P Require Import Prelude.

Record wentry (V : Type) := MkEntry { sample : V; time : Z }.
Arguments MkEntry {V} _ _.
Arguments sample {V} _.
Arguments time {V} _.

(** The slice of three estimates, best first; times are integers. *)
Record WindowedFilter (V : Type) := MkWF {
  windowLength : Z; est0 : wentry V; est1 : wentry V; est2 : wentry V }.
Arguments MkWF {V} _ _ _ _.
Arguments windowLength {V} _.
Arguments est0 {V} _.
Arguments est1 {V} _.
Arguments est2 {V} _.

Definition MaxFilter (a b : Z) : Z := if decide (a > b) then 1 else if decide (a < b) then -1 else 0.
Definition MinFilter (a b : Z) : Z := if decide (a < b) then 1 else if decide (a > b) then -1 else 0.

Section filter.
Context {V : Type} (zero : V) (comparator : V -> V -> Z).
Implicit Types (f : WindowedFilter V).

Definition NewWindowedFilter (wl : Z) : WindowedFilter V :=
  MkWF wl (MkEntry zero 0) (MkEntry zero 0) (MkEntry zero 0).

Definition SetWindowLength (wl : Z) f : WindowedFilter V := MkWF wl (est0 f) (est1 f) (est2 f).
Definition GetBest f : V := sample (est0 f).
Definition GetSecondBest f : V := sample (est1 f).
Definition GetThirdBest f : V := sample (est2 f).

Definition WReset (newSample : V) (newTime : Z) f : WindowedFilter V :=
  let e := MkEntry newSample newTime in MkWF (windowLength f) e e e.

Definition WClear f : WindowedFilter V := NewWindowedFilter (windowLength f).

Definition Update (newSample : V) (newTime : Z) f : WindowedFilter V :=
  let wl := windowLength f in
  let new := MkEntry newSample newTime in
  if decide (comparator (sample (est0 f)) zero = 0 \/
             comparator newSample (sample (est0 f)) >= 0 \/
             newTime - time (est2 f) > wl)
  then WReset newSample newTime f
  else
    let f :=
      if decide (comparator newSample (sample (est1 f)) >= 0) then MkWF wl (est0 f) new new
      else if decide (comparator newSample (sample (est2 f)) >= 0) then MkWF wl (est0 f) (est1 f) new
      else f in
    if decide (newTime - time (est0 f) > wl) then
      let f := MkWF wl (est1 f) (est2 f) new in
      if decide (newTime - time (est0 f) > wl) then MkWF wl (est1 f) (est2 f) (est2 f) else f
    else if decide (comparator (sample (est1 f)) (sample (est0 f)) = 0 /\
                    newTime - time (est1 f) > Z.quot wl 4) then MkWF wl (est0 f) new new
    else if decide (comparator (sample (est2 f)) (sample (est1 f)) = 0 /\
                    newTime - time (est2 f) > Z.quot wl 2) then MkWF wl (est0 f) (est1 f) new
    else f.

(** Feeding a history of samples, oldest first. *)
Fixpoint feed (h : list (wentry V)) f : WindowedFilter V :=
  match h with
  | [] => f
  | e :: h => feed h (Update (sample e) (time e) f)
  end.

(** * Specification *)

(** [e] was recorded in the history [h], and every sample after it was worse. *)
Definition champion (h : list (wentry V)) (e : wentry V) : Prop :=
  exists before after, h = before ++ e :: after /\
    Forall (fun x => comparator (sample x) (sample e) < 0) after.

(** The three estimates are champions, in order of age. *)
Definition tracks (h : list (wentry V)) f : Prop :=
  champion h (est0 f) /\ champion h (est1 f) /\ champion h (est2 f) /\
  time (est0 f) <= time (est1 f) <= time (est2 f).

Lemma champion_new h e : champion (h ++ [e]) e.
Proof. exists h, []. split; [done|constructor]. Qed.

Lemma champion_keep h e x : champion h e -> comparator (sample x) (sample e) < 0 ->
  champion (h ++ [x]) e.
Proof.
  intros (b & a & -> & Ha) Hx. exists b, (a ++ [x]). rewrite <- app_assoc. split; [done|].
  apply Forall_app. split; [done|by apply Forall_singleton].
Qed.

Lemma Update_reset_tracks h x f : tracks (h ++ [x]) (WReset (sample x) (time x) f).
Proof.
  unfold tracks, WReset. cbn [est0 est1 est2]. destruct x as [s t]. cbn [sample time].
  pose proof (champion_new h (MkEntry s t)). split_and!; [done..|cbn; lia|cbn; lia].
Qed.

Lemma Update_tracks h x f : tracks h f -> time (est2 f) <= time x ->
  tracks (h ++ [x]) (Update (sample x) (time x) f) /\
  (0 <= windowLength f -> time x - time (est0 (Update (sample x) (time x) f)) <= windowLength f) /\
  windowLength (Update (sample x) (time x) f) = windowLength f /\
  time (est2 (Update (sample x) (time x) f)) <= time x.
Proof.
  intros (C0 & C1 & C2 & Ht) Hx. unfold Update.
  destruct (decide (_ \/ _ \/ _)) as [|Hd].
  { split; [apply Update_reset_tracks|]. cbn [WReset est0 est2 windowLength time]. split; [lia|]. split; [done|lia]. }
  assert (comparator (sample x) (sample (est0 f)) < 0 /\ time x - time (est2 f) <= windowLength f)
    as [H0 Hold] by lia.
  assert (K0 : champion (h ++ [x]) (est0 f)) by (apply champion_keep; [done|lia]).
  assert (N : champion (h ++ [x]) (MkEntry (sample x) (time x)))
    by (destruct x; apply champion_new).
  set (f1 := if decide (comparator (sample x) (sample (est1 f)) >= 0) then _ else _).
  assert (F1 : est0 f1 = est0 f /\ windowLength f1 = windowLength f /\ champion (h ++ [x]) (est1 f1) /\ champion (h ++ [x]) (est2 f1) /\
    time (est0 f) <= time (est1 f1) <= time (est2 f1) /\ time (est2 f) <= time (est2 f1) <= time x).
  { unfold f1. repeat case_decide; cbn [est0 est1 est2]; split_and!; cbn [time]; try done; try lia;
      apply champion_keep; done || lia. }
  clearbody f1. destruct F1 as (E0 & Ew & K1 & K2 & T1 & T2).
  repeat case_decide; unfold tracks; cbn [est0 est1 est2 windowLength time];
    rewrite ?E0; repeat split; try done; cbn [time]; try lia.
  all: rewrite <- ?E0; done || lia.
Qed.

Lemma Update_fresh x f :
  (comparator (sample (est0 f)) zero = 0 \/ comparator (sample x) (sample (est0 f)) >= 0) ->
  Update (sample x) (time x) f = WReset (sample x) (time x) f.
Proof. intros H. unfold Update. destruct (decide _); [done|]. tauto. Qed.

(** A sample that does not expire the best estimate and is worse leaves it. *)
Lemma Update_keeps_best x f :
  comparator (sample (est0 f)) zero <> 0 -> comparator (sample x) (sample (est0 f)) < 0 ->
  time (est0 f) <= time (est2 f) -> time x - time (est0 f) <= windowLength f ->
  est0 (Update (sample x) (time x) f) = est0 f.
Proof.
  intros Hz Hw Ho Ht. unfold Update. destruct (decide (_ \/ _ \/ _)); [lia|].
  repeat case_decide; cbn [est0 time] in *; done || lia.
Qed.

(** Recording times do not decrease. *)
Definition in_order (h : list (wentry V)) : Prop :=
  forall i j a b, (i <= j)%nat -> h !! i = Some a -> h !! j = Some b -> time a <= time b.

Lemma in_order_app_inv h x : in_order (h ++ [x]) ->
  in_order h /\ (forall e, e ∈ h -> time e <= time x).
Proof.
  intros H. split.
  - intros i j a b Hij Ha Hb. eapply (H i j); [done|by apply lookup_app_l_Some..].
  - intros e [i Hi]%list_elem_of_lookup. apply (H i (length h)).
    + apply lookup_lt_Some in Hi. lia.
    + by apply lookup_app_l_Some.
    + rewrite lookup_app_r by lia. by rewrite Nat.sub_diag.
Qed.

Lemma feed_app h1 h2 f : feed (h1 ++ h2) f = feed h2 (feed h1 f).
Proof. revert f. induction h1; intros f; [done|]. apply IHh1. Qed.

Lemma feed_windowLength h f : windowLength (feed h f) = windowLength f.
Proof.
  revert f. induction h as [|e h IH]; intros f; [done|]. cbn [feed]. rewrite IH.
  unfold Update, WReset. repeat case_decide; done.
Qed.

Lemma champion_elem h e : champion h e -> e ∈ h.
Proof. intros (b & a & -> & _). apply elem_of_app. right. by left. Qed.

Lemma feed_NewWindowedFilter_reset x wl : comparator zero zero = 0 ->
  Update (sample x) (time x) (NewWindowedFilter wl) = WReset (sample x) (time x) (NewWindowedFilter wl).
Proof. intros H. apply Update_fresh. by left. Qed.

(** The filter tracks every non-empty history fed to it since its creation. *)
Lemma feed_tracks wl h : comparator zero zero = 0 -> 0 <= wl -> in_order h -> h <> [] ->
  tracks h (feed h (NewWindowedFilter wl)) /\
  forall x, last h = Some x -> time (est2 (feed h (NewWindowedFilter wl))) <= time x /\
    time x - time (est0 (feed h (NewWindowedFilter wl))) <= wl.
Proof.
  intros Hz Hwl. induction h as [|x h IH] using rev_ind; intros Ho Hne; [done|].
  rewrite feed_app. cbn [feed]. apply in_order_app_inv in Ho as [Ho Hx].
  destruct (decide (h = [])) as [->|Hh].
  - cbn [feed]. rewrite feed_NewWindowedFilter_reset by done. split.
    + apply (Update_reset_tracks []).
    + intros y [= ->]. cbn. lia.
  - destruct (IH Ho Hh) as [T L].
    assert (He : time (est2 (feed h (NewWindowedFilter wl))) <= time x).
    { apply Hx. apply champion_elem. apply T. }
    destruct (Update_tracks h x _ T He) as (T' & W & Ew & E2).
    rewrite feed_windowLength in W. split; [done|].
    intros y. rewrite last_snoc. intros [= <-]. split; [done|]. by apply W.
Qed.

(** While the best sample of the history is inside the window, it stays [est0]. *)
Lemma feed_keeps_best h f :
  comparator (sample (est0 f)) zero <> 0 ->
  (forall x, x ∈ h -> comparator (sample x) (sample (est0 f)) < 0 /\
     time (est0 f) <= time x /\ time x - time (est0 f) <= windowLength f) ->
  time (est0 f) <= time (est2 f) ->
  est0 (feed h f) = est0 f.
Proof.
  revert f. induction h as [|x h IH]; intros f Hz Hh Ht; [done|]. cbn [feed].
  destruct (Hh x) as (Hw & Hb & Hl); [by left|].
  pose proof (Update_keeps_best x f Hz Hw Ht Hl) as E.
  rewrite IH; rewrite ?E; [done|done| |].
  - intros y Hy. destruct (Hh y) as (? & ? & ?); [by right|].
    replace (windowLength (Update (sample x) (time x) f)) with (windowLength f); [done|].
    symmetry. apply (feed_windowLength [x]).
  - unfold Update, WReset. repeat case_decide; cbn [est2 time est0 est1] in *; lia.
Qed.

(** After any non-empty sequence of [Update]s with non-decreasing times on
    a new filter, the best estimate is a sample of the history that lies
    inside the window ending at the last update and beats every sample
    recorded after it. *)
Theorem windowed_filter_best wl h x : comparator zero zero = 0 -> 0 <= wl -> in_order h ->
  last h = Some x ->
  exists e, champion h e /\ time x - time e <= wl /\
    GetBest (feed h (NewWindowedFilter wl)) = sample e.
Proof.
  intros Hz Hwl Ho Hl. assert (h <> []) by (intros ->; done).
  destruct (feed_tracks wl h Hz Hwl Ho) as ((C & _) & L); [done|].
  destruct (L x Hl). eexists. split; [exact C|]. split; [lia|done].
Qed.

(** The filter is exact while the extreme sample is recent: if [e] is the
    last best sample of the whole history (no earlier sample beats it, every
    later one is worse) and it still lies inside the window of the last
    update, [GetBest] returns it. *)
Theorem windowed_filter_exact wl before e after x :
  comparator zero zero = 0 -> comparator (sample e) zero <> 0 -> 0 <= wl ->
  in_order (before ++ e :: after) ->
  Forall (fun y => comparator (sample e) (sample y) >= 0) before ->
  Forall (fun y => comparator (sample y) (sample e) < 0) after ->
  last (before ++ e :: after) = Some x -> time x - time e <= wl ->
  GetBest (feed (before ++ e :: after) (NewWindowedFilter wl)) = sample e.
Proof.
  intros Hz He Hwl Ho Hb Ha Hl Hx. rewrite feed_app. cbn [feed].
  rewrite Update_fresh.
  2:{ destruct (decide (before = [])) as [->|Hne]; [by left|]. right.
      assert (in_order before) as Hob.
      { intros i j a b Hij Hi Hj. eapply (Ho i j); [done|by apply lookup_app_l_Some..]. }
      destruct (feed_tracks wl before Hz Hwl Hob Hne) as [(C & _) _].
      apply champion_elem in C. rewrite Forall_forall in Hb. by apply Hb. }
  unfold GetBest. rewrite feed_keeps_best; cbn [est0 est2 sample time windowLength WReset]; [done|done| |lia].
  intros y Hy. rewrite Forall_forall in Ha. rewrite feed_windowLength. cbn [windowLength NewWindowedFilter].
  apply list_elem_of_lookup in Hy as Hi. destruct Hi as [i Hi].
  assert (Hy' : (before ++ e :: after) !! (length before + S i)%nat = Some y).
  { rewrite lookup_app_r by lia. by replace (_ - _)%nat with (S i) by lia. }
  assert (He' : (before ++ e :: after) !! (length before + 0)%nat = Some e).
  { rewrite lookup_app_r by lia. by replace (_ - _)%nat with 0%nat by lia. }
  assert (Hx' : (before ++ e :: after) !! pred (length (before ++ e :: after)) = Some x)
    by by rewrite <- last_lookup.
  pose proof (lookup_lt_Some _ _ _ Hy').
  assert (time e <= time y) by (eapply Ho; [|exact He'|exact Hy']; lia).
  assert (time y <= time x) by (eapply Ho; [|exact Hy'|exact Hx']; lia).
  split; [by apply Ha|]. lia.
Qed.
End filter.

Definition max_history : list (wentry Z) :=
  [MkEntry 5 0; MkEntry 9 2; MkEntry 4 6; MkEntry 7 8; MkEntry 3 10].

Lemma max_history_in_order : in_order max_history.
Proof.
  intros i j a b Hij Hi Hj.
  destruct i as [|[|[|[|[|i]]]]], j as [|[|[|[|[|j]]]]]; cbn in Hi, Hj; simplify_eq; cbn; lia.
Qed.

Lemma windowed_filter_best_witness :
  exists e, champion MaxFilter max_history e /\ 10 - time e <= 8 /\
    GetBest (feed 0 MaxFilter max_history (NewWindowedFilter 0 8)) = sample e.
Proof.
  apply (windowed_filter_best 0 MaxFilter 8 max_history (MkEntry 3 10)); [done|lia| |done].
  apply max_history_in_order.
Defined.

Lemma windowed_filter_exact_witness :
  GetBest (feed 0 MaxFilter max_history (NewWindowedFilter 0 8)) = 9.
Proof.
  apply (windowed_filter_exact 0 MaxFilter 8 [MkEntry 5 0] (MkEntry 9 2)
           [MkEntry 4 6; MkEntry 7 8; MkEntry 3 10] (MkEntry 3 10));
    [done|done|lia|apply max_history_in_order| | |done|cbn; lia];
    repeat apply Forall_cons_2; try apply Forall_nil_2; by vm_compute.
Defined.
