(* ===== verification/BytesBuffer.v ===== *)
(** The byte buffer of pool/bytes/buffer.go and the recycling of buffers
    (pool/bytes_buffer.go, pool/pool.go).

    A Go slice is its backing array up to the capacity and its length, so that
    re-slicing beyond the length exposes the bytes that are really there.  The
    allocator is a parameter: [roundup c] is the capacity of an allocation of
    at least [c] bytes, [maxAlloc] the largest size [make] accepts.  A refinement
    theorem relates every operation to a queue of unread bytes with one step of
    undo. *)

From S2P Require Import Prelude.

Definition smallBufferSize : nat := 64.
Definition MinRead : nat := 512.
Definition maxInt : Z := 2 ^ 63 - 1.

(** [readOp]: -1 any read, 0 no read, 1..4 a rune of that size. *)
Definition opRead : Z := -1.
Definition opInvalid : Z := 0.

(** [buf] is the backing array [b.buf[:cap(b.buf)]], [blen] is [len(b.buf)],
    [isnil] is [b.buf == nil]. *)
Record Buffer := MkBuf { buf : list byte; blen : nat; isnil : bool; off : nat; lastRead : Z }.

Definition bcap (b : Buffer) : nat := length (buf b).

Definition with_lastRead (b : Buffer) (op : Z) : Buffer := MkBuf (buf b) (blen b) (isnil b) (off b) op.
Definition with_off (b : Buffer) (o : nat) : Buffer := MkBuf (buf b) (blen b) (isnil b) o (lastRead b).
Definition with_buf (b : Buffer) (a : list byte) : Buffer := MkBuf a (blen b) (isnil b) (off b) (lastRead b).

(** [b.buf = b.buf[:n]] *)
Definition reslice (b : Buffer) (n : Z) : res Buffer :=
  if decide (0 <= n <= Z.of_nat (bcap b))
  then Ret (MkBuf (buf b) (Z.to_nat n) (isnil b) (off b) (lastRead b)) else Panic.

(** * UTF-8, as unicode/utf8 defines it *)

Definition RuneError : Z := 0xFFFD.

Definition in_range (x lo hi : Z) : bool := (lo <=? x) && (x <=? hi).

(** [utf8.AppendRune(nil, r)] *)
Definition utf8_enc (r : Z) : list byte :=
  let cont x := z2b (Z.lor 0x80 (Z.land x 0x3F)) in
  let three r := [z2b (Z.lor 0xE0 (Z.shiftr r 12)); cont (Z.shiftr r 6); cont r] in
  let i := r mod 2 ^ 32 in
  if i <=? 0x7F then [z2b r]
  else if i <=? 0x7FF then [z2b (Z.lor 0xC0 (Z.shiftr r 6)); cont r]
  else if (0x10FFFF <? i) || in_range i 0xD800 0xDFFF then three RuneError
  else if i <=? 0xFFFF then three r
  else [z2b (Z.lor 0xF0 (Z.shiftr r 18)); cont (Z.shiftr r 12); cont (Z.shiftr r 6); cont r].

(** The size of a sequence and the range of its second byte, by the first byte. *)
Definition utf8_first (p0 : Z) : option (nat * Z * Z) :=
  if in_range p0 0xC2 0xDF then Some (2%nat, 0x80, 0xBF)
  else if p0 =? 0xE0 then Some (3%nat, 0xA0, 0xBF)
  else if p0 =? 0xED then Some (3%nat, 0x80, 0x9F)
  else if in_range p0 0xE1 0xEF then Some (3%nat, 0x80, 0xBF)
  else if p0 =? 0xF0 then Some (4%nat, 0x90, 0xBF)
  else if in_range p0 0xF1 0xF3 then Some (4%nat, 0x80, 0xBF)
  else if p0 =? 0xF4 then Some (4%nat, 0x80, 0x8F)
  else None.

(** [utf8.DecodeRune(p)]: the rune and the bytes it takes. *)
Definition utf8_dec (p : list byte) : Z * nat :=
  let bad := (RuneError, 1%nat) in
  let cont x := in_range x 0x80 0xBF in
  match map b2z p with
  | [] => (RuneError, 0%nat)
  | p0 :: rest =>
      if p0 <? 0x80 then (p0, 1%nat) else
      match utf8_first p0, rest with
      | Some (2%nat, lo, hi), b1 :: _ =>
          if in_range b1 lo hi
          then (Z.lor (Z.shiftl (Z.land p0 0x1F) 6) (Z.land b1 0x3F), 2%nat) else bad
      | Some (3%nat, lo, hi), b1 :: b2 :: _ =>
          if in_range b1 lo hi && cont b2
          then (Z.lor (Z.lor (Z.shiftl (Z.land p0 0x0F) 12) (Z.shiftl (Z.land b1 0x3F) 6))
                  (Z.land b2 0x3F), 3%nat) else bad
      | Some (4%nat, lo, hi), b1 :: b2 :: b3 :: _ =>
          if in_range b1 lo hi && cont b2 && cont b3
          then (Z.lor (Z.lor (Z.lor (Z.shiftl (Z.land p0 0x07) 18) (Z.shiftl (Z.land b1 0x3F) 12))
                  (Z.shiftl (Z.land b2 0x3F) 6)) (Z.land b3 0x3F), 4%nat) else bad
      | _, _ => bad
      end
  end.

(** Unicode scalar values. *)
Definition valid_rune (r : Z) : bool := in_range r 0 0xD7FF || in_range r 0xE000 0x10FFFF.


(** A tagged byte: [t = a * 2^k] is the tag, [x] the payload below it. *)
Lemma utf8_tag t k a x : t = a * 2 ^ k -> 0 <= k -> 0 <= x < 2 ^ k -> 0 <= t + x < 256 ->
  b2z (z2b (Z.lor t x)) = t + x.
Proof.
  intros -> Hk Hx Ht. replace (Z.lor _ x) with (a * 2 ^ k + x); [by apply b2z_z2b_small|].
  by rewrite <- (lor_shiftl_add k a x), Z.shiftl_mul_pow2.
Qed.

Lemma utf8_untag m t k a x : m = Z.ones k -> t = a * 2 ^ k -> 0 <= k -> 0 <= x < 2 ^ k ->
  Z.land (t + x) m = x.
Proof.
  intros -> -> Hk Hx. rewrite Z.land_ones, Z.add_comm, Z.mod_add by lia. by apply Z.mod_small.
Qed.

Lemma utf8_join a b n k : 0 <= n -> 0 <= k -> 0 <= b < 2 ^ n ->
  Z.lor (Z.shiftl a (n + k)) (Z.shiftl b k) = Z.shiftl (a * 2 ^ n + b) k.
Proof.
  intros Hn Hk Hb. rewrite <- (lor_shiftl_add n), Z.shiftl_lor, Z.shiftl_shiftl by done. done.
Qed.

Lemma utf8_cont_byte x : b2z (z2b (Z.lor 0x80 (Z.land x 0x3F))) = 0x80 + x mod 64.
Proof.
  change 0x3F with (Z.ones 6). rewrite Z.land_ones by lia. change (2 ^ 6) with 64.
  pose proof (Z.mod_pos_bound x 64 ltac:(lia)). apply (utf8_tag 0x80 7 1); lia.
Qed.

Lemma utf8_cont_untag x : Z.land (0x80 + x mod 64) 0x3F = x mod 64.
Proof. apply (utf8_untag 0x3F 0x80 6 2); [done..|]. by apply Z.mod_pos_bound. Qed.

Lemma in_range_true x lo hi : lo <= x <= hi -> in_range x lo hi = true.
Proof. unfold in_range. lia. Qed.

Lemma in_range_false x lo hi : x < lo \/ hi < x -> in_range x lo hi = false.
Proof. unfold in_range. lia. Qed.

Lemma utf8_first_2 p0 : 0xC2 <= p0 <= 0xDF -> utf8_first p0 = Some (2%nat, 0x80, 0xBF).
Proof. intros. unfold utf8_first. by rewrite in_range_true. Qed.

Lemma utf8_first_3 p0 : 0xE0 <= p0 <= 0xEF -> utf8_first p0 =
  Some (3%nat, if p0 =? 0xE0 then 0xA0 else 0x80, if p0 =? 0xED then 0x9F else 0xBF).
Proof.
  intros. unfold utf8_first. rewrite in_range_false by lia.
  destruct (Z.eqb_spec p0 0xE0) as [->|]; [done|]. destruct (Z.eqb_spec p0 0xED); [done|].
  by rewrite in_range_true by lia.
Qed.

Lemma utf8_first_4 p0 : 0xF0 <= p0 <= 0xF4 -> utf8_first p0 =
  Some (4%nat, if p0 =? 0xF0 then 0x90 else 0x80, if p0 =? 0xF4 then 0x8F else 0xBF).
Proof.
  intros. unfold utf8_first. rewrite (in_range_false _ 0xC2), (in_range_false _ 0xE1) by lia.
  rewrite !(proj2 (Z.eqb_neq p0 _)) by lia.
  destruct (Z.eqb_spec p0 0xF0) as [->|]; [done|]. destruct (Z.eqb_spec p0 0xF4) as [->|]; [done|].
  by rewrite in_range_true by lia.
Qed.

Lemma split64 x : x = 64 * (x / 64) + x mod 64 /\ 0 <= x mod 64 < 64.
Proof. split; [apply Z.div_mod; lia|apply Z.mod_pos_bound; lia]. Qed.

(** Decoding an encoded scalar value gives it back, whatever follows. *)
Lemma utf8_dec_enc r rest : valid_rune r = true ->
  utf8_dec (utf8_enc r ++ rest) = (r, length (utf8_enc r)).
Proof.
  unfold valid_rune, in_range. intros Hv.
  assert (0 <= r <= 0x10FFFF /\ ~ (0xD800 <= r <= 0xDFFF)) as [Hr Hs] by lia.
  unfold utf8_enc. rewrite (Z.mod_small r) by lia.
  destruct (Z.leb_spec r 0x7F).
  { cbn. rewrite b2z_z2b_small by lia. destruct (Z.ltb_spec r 0x80); [done|lia]. }
  assert (E6 : Z.shiftr r 6 = r / 64) by (apply Z.shiftr_div_pow2; lia).
  assert (E12 : Z.shiftr r 12 = r / 64 / 64)
    by (rewrite Z.div_div by lia; apply Z.shiftr_div_pow2; lia).
  assert (E18 : Z.shiftr r 18 = r / 64 / 64 / 64)
    by (rewrite !Z.div_div by lia; apply Z.shiftr_div_pow2; lia).
  rewrite ?E6, ?E12, ?E18. clear E6 E12 E18. destruct (split64 r) as [D0 M0].
  destruct (split64 (r / 64)) as [D1 M1]. destruct (split64 (r / 64 / 64)) as [D2 M2].
  change (2 ^ 6) with 64 in *. unfold utf8_dec.
  destruct (Z.leb_spec r 0x7FF).
  { cbn [map app]. rewrite !utf8_cont_byte, (utf8_tag 0xC0 6 3) by lia.
    rewrite (proj2 (Z.ltb_ge _ 0x80)), utf8_first_2 by lia. cbv beta iota.
    rewrite in_range_true by lia.
    rewrite utf8_cont_untag, (utf8_untag 0x1F 0xC0 5 6 (r / 64)), lor_shiftl_add by (done || lia).
    f_equal. change (2 ^ 6) with 64. lia. }
  rewrite (proj2 (Z.ltb_ge 0x10FFFF r)), in_range_false by lia. cbn [orb].
  destruct (Z.leb_spec r 0xFFFF).
  { cbn [map app]. rewrite !utf8_cont_byte, (utf8_tag 0xE0 4 14) by lia.
    rewrite (proj2 (Z.ltb_ge _ 0x80)), utf8_first_3 by lia. cbv beta iota.
    rewrite !in_range_true by (repeat case_match; lia). cbn [andb].
    rewrite !utf8_cont_untag, (utf8_untag 0x0F 0xE0 4 14 (r / 64 / 64)) by (done || lia).
    rewrite (utf8_join _ _ 6 6), lor_shiftl_add by lia. f_equal. change (2 ^ 6) with 64. lia. }
  cbn [map app]. rewrite !utf8_cont_byte, (utf8_tag 0xF0 3 30) by lia.
  rewrite (proj2 (Z.ltb_ge _ 0x80)), utf8_first_4 by lia. cbv beta iota.
  rewrite !in_range_true by (repeat case_match; lia). cbn [andb].
  rewrite !utf8_cont_untag, (utf8_untag 0x07 0xF0 3 30 (r / 64 / 64 / 64)) by (done || lia).
  rewrite (utf8_join _ _ 6 12), (utf8_join _ _ 6 6), lor_shiftl_add by lia.
  f_equal. change (2 ^ 6) with 64. lia.
Qed.

(** * The buffer *)

Definition zeros (n : nat) : list byte := replicate n x00.

(** [b.buf] as a value, without the bytes between length and capacity. *)
Definition content (b : Buffer) : list byte := take (blen b) (buf b).

Definition Buffer_Bytes (b : Buffer) : res (list byte) := slice_from (content b) (off b).
Definition Buffer_String (b : option Buffer) : res (list byte) :=
  match b with
  | None => Ret [x3c; x6e; x69; x6c; x3e]
  | Some b => slice_from (content b) (off b)
  end.
Definition Buffer_empty (b : Buffer) : bool := bool_decide (blen b <= off b)%nat.
Definition Buffer_Len (b : Buffer) : Z := Z.of_nat (blen b) - Z.of_nat (off b).
Definition Buffer_Empty (b : Buffer) : bool := bool_decide (Buffer_Len b = 0).
Definition Buffer_Cap (b : Buffer) : Z := Z.of_nat (bcap b).
Definition Buffer_Available (b : Buffer) : Z := Z.of_nat (bcap b) - Z.of_nat (blen b).
(** [AvailableBuffer]: its contents up to the capacity. *)
Definition Buffer_AvailableBuffer (b : Buffer) : list byte := drop (blen b) (buf b).

Definition Buffer_Reset (b : Buffer) : Buffer := MkBuf (buf b) 0 (isnil b) 0 opInvalid.

Definition Buffer_Truncate (n : Z) (b : Buffer) : res Buffer :=
  if decide (n = 0) then Ret (Buffer_Reset b) else
  let b := with_lastRead b opInvalid in
  if decide (n < 0 \/ n > Buffer_Len b) then Panic
  else reslice b (Z.of_nat (off b) + n).

Definition tryGrowByReslice (n : Z) (b : Buffer) : res (option (nat * Buffer)) :=
  let l := blen b in
  if decide (n <= Z.of_nat (bcap b) - Z.of_nat l) then
    b ← reslice b (Z.of_nat l + n); Ret (Some (l, b))
  else Ret None.

Definition NewBuffer (arr : list byte) (len : nat) : Buffer := MkBuf arr len false 0 opInvalid.
Definition NewBuffer_nil : Buffer := MkBuf [] 0 true 0 opInvalid.
Definition NewBufferString (s : list byte) : Buffer := MkBuf s (length s) false 0 opInvalid.

Section buffer.
(** The allocator: an allocation of [c] bytes has capacity [roundup c] (or [c]
    when that is larger); sizes above [maxAlloc] make [make] panic. *)
Context (roundup : nat -> nat) (maxAlloc : Z).
Implicit Types (b : Buffer).

(** [bcap_src] is [cap(b)] of the slice [src] passed in; the result is the new
    backing array. *)
Definition growSlice (src : list byte) (bcap_src n : Z) : res (list byte) :=
  let c := Z.of_nat (length src) + n in
  let c := if decide (c < 2 * bcap_src) then 2 * bcap_src else c in
  if decide (c < 0 \/ c > maxAlloc) then Panic else
  '(b2, _) ← copy_at (zeros (Z.to_nat c)) 0 src;
  Ret (b2 ++ zeros (roundup (Z.to_nat c) - Z.to_nat c)).

Definition grow (n : Z) b : res (nat * Buffer) :=
  let m := Buffer_Len b in
  let b := if decide (m = 0 /\ off b <> 0%nat) then Buffer_Reset b else b in
  r ← tryGrowByReslice n b;
  match r with
  | Some ib => Ret ib
  | None =>
      if isnil b && bool_decide (n <= Z.of_nat smallBufferSize)
      then Ret (0%nat, MkBuf (zeros smallBufferSize) (Z.to_nat n) false (off b) (lastRead b))
      else
        let c := Z.of_nat (bcap b) in
        src ← slice_from (content b) (off b);
        arr ← (if decide (n <= Z.quot c 2 - m) then
                 '(a, _) ← copy_at (content b) 0 src; Ret (a ++ drop (blen b) (buf b))
               else if decide (c > maxInt - c - n) then Panic
               else growSlice src (c - Z.of_nat (off b)) (Z.of_nat (off b) + n));
        b ← reslice (MkBuf arr (blen b) false 0 (lastRead b)) (m + n);
        Ret (Z.to_nat m, b)
  end.

Definition Buffer_Grow (n : Z) b : res Buffer :=
  if decide (n < 0) then Panic else
  '(m, b) ← grow n b; reslice b (Z.of_nat m).

(** [tryGrowByReslice], and [grow] when it fails. *)
Definition extend (n : Z) b : res (nat * Buffer) :=
  let b := with_lastRead b opInvalid in
  r ← tryGrowByReslice n b;
  match r with Some ib => Ret ib | None => grow n b end.

Definition Buffer_Extend (n : Z) b : res Buffer := '(_, b) ← extend n b; Ret b.

(** [copy(b.buf[m:], p)] *)
Definition copy_into (m : nat) (p : list byte) b : res (nat * Buffer) :=
  '(a, n) ← copy_at (content b) m p; Ret (n, with_buf b (a ++ drop (blen b) (buf b))).

Definition Buffer_Write (p : list byte) b : res (nat * Buffer) :=
  let b := with_lastRead b opInvalid in
  r ← tryGrowByReslice (Z.of_nat (length p)) b;
  '(m, b) ← match r with Some ib => Ret ib | None => grow (Z.of_nat (length p)) b end;
  copy_into m p b.

Definition Buffer_WriteString (s : list byte) b : res (nat * Buffer) :=
  let b := with_lastRead b opInvalid in
  r ← tryGrowByReslice (Z.of_nat (length s)) b;
  '(m, b) ← match r with Some ib => Ret ib | None => grow (Z.of_nat (length s)) b end;
  copy_into m s b.

Definition Buffer_WriteByte (c : byte) b : res Buffer :=
  let b := with_lastRead b opInvalid in
  r ← tryGrowByReslice 1 b;
  '(m, b) ← match r with Some ib => Ret ib | None => grow 1 b end;
  a ← set_at (content b) m c; Ret (with_buf b (a ++ drop (blen b) (buf b))).

(** [append(b.buf[:m], bs...)]: in place when the capacity allows. *)
Definition append_at (m : nat) (bs : list byte) b : res Buffer :=
  b ← reslice b (Z.of_nat m);
  if decide (m + length bs <= bcap b)%nat then
    Ret (MkBuf (take m (buf b) ++ bs ++ drop (m + length bs) (buf b)) (m + length bs) false (off b) (lastRead b))
  else
    Ret (MkBuf (take m (buf b) ++ bs ++ zeros (roundup (m + length bs) - (m + length bs)))
           (m + length bs) false (off b) (lastRead b)).

Definition Buffer_WriteRune (r : Z) b : res (nat * Buffer) :=
  if decide (r mod 2 ^ 32 < 0x80) then b ← Buffer_WriteByte (z2b r) b; Ret (1%nat, b) else
  let b := with_lastRead b opInvalid in
  g ← tryGrowByReslice 4 b;
  '(m, b) ← match g with Some ib => Ret ib | None => grow 4 b end;
  b ← append_at m (utf8_enc r) b;
  Ret ((blen b - m)%nat, b).

(** [Read(p)] with [len(p) = plen]: the bytes stored in [p] and the error. *)
Definition Buffer_Read (plen : nat) b : res (list byte * option error * Buffer) :=
  let b := with_lastRead b opInvalid in
  if Buffer_empty b then
    Ret ([], if decide (plen = 0%nat) then None else Some EOF, Buffer_Reset b)
  else
    src ← slice_from (content b) (off b);
    let n := Nat.min plen (length src) in
    let b := with_off b (off b + n) in
    Ret (take n src, None, if decide (0 < n)%nat then with_lastRead b opRead else b).

Definition Buffer_Next (n : Z) b : res (list byte * Buffer) :=
  let b := with_lastRead b opInvalid in
  let m := Buffer_Len b in
  let n := if decide (n > m) then m else n in
  if decide (n < 0) then Panic else
  data ← slice (content b) (off b) (off b + Z.to_nat n);
  let b := with_off b (off b + Z.to_nat n) in
  Ret (data, if decide (n > 0) then with_lastRead b opRead else b).

Definition Buffer_ReadByte b : res (option byte * Buffer) :=
  if Buffer_empty b then Ret (None, Buffer_Reset b) else
  c ← index (content b) (off b);
  Ret (Some c, with_lastRead (with_off b (S (off b))) opRead).

Definition Buffer_ReadRune b : res (option (Z * nat) * Buffer) :=
  if Buffer_empty b then Ret (None, Buffer_Reset b) else
  c ← index (content b) (off b);
  if decide (b2z c < 0x80) then
    Ret (Some (b2z c, 1%nat), with_lastRead (with_off b (S (off b))) 1)
  else
    src ← slice_from (content b) (off b);
    let '(r, n) := utf8_dec src in
    Ret (Some (r, n), with_lastRead (with_off b (off b + n)) (Z.of_nat n)).

Definition Buffer_UnreadRune b : option error * Buffer :=
  if decide (lastRead b <= opInvalid)
  then (Some (Errorf "bytes.Buffer: UnreadRune: previous operation was not a successful ReadRune"), b)
  else
    let b := if decide (Z.of_nat (off b) >= lastRead b)
             then with_off b (off b - Z.to_nat (lastRead b)) else b in
    (None, with_lastRead b opInvalid).

Definition Buffer_UnreadByte b : option error * Buffer :=
  if decide (lastRead b = opInvalid)
  then (Some (Errorf "bytes.Buffer: UnreadByte: previous operation was not a successful read"), b)
  else
    let b := with_lastRead b opInvalid in
    (None, if decide (0 < off b)%nat then with_off b (off b - 1) else b).

(** [bytes.IndexByte] *)
Fixpoint IndexByte (l : list byte) (d : byte) : option nat :=
  match l with
  | [] => None
  | x :: l => if decide (x = d) then Some 0%nat else S <$> IndexByte l d
  end.

Definition readSlice (delim : byte) b : res (list byte * option error * Buffer) :=
  src ← slice_from (content b) (off b);
  let '(e, err) := match IndexByte src delim with
                   | Some i => ((off b + i + 1)%nat, None)
                   | None => (blen b, Some EOF)
                   end in
  line ← slice (content b) (off b) e;
  Ret (line, err, with_lastRead (with_off b e) opRead).

Definition Buffer_ReadBytes (delim : byte) b : res (list byte * option error * Buffer) :=
  '(line, err, b) ← readSlice delim b; Ret (line, err, b).
Definition Buffer_ReadString (delim : byte) b : res (list byte * option error * Buffer) :=
  '(line, err, b) ← readSlice delim b; Ret (line, err, b).

(** [WriteTo(w)]: [w] is called once with the unread bytes and returns the count
    it wrote and its error. *)
Definition Buffer_WriteTo (w : list byte -> nat * option error) b : res (nat * option error * Buffer) :=
  let b := with_lastRead b opInvalid in
  let nBytes := Buffer_Len b in
  if decide (nBytes > 0) then
    src ← slice_from (content b) (off b);
    let '(m, e) := w src in
    if decide (Z.of_nat m > nBytes) then Panic else
    let b := with_off b (off b + m) in
    match e with
    | Some e => Ret (m, Some e, b)
    | None =>
        if decide (Z.of_nat m <> nBytes) then Ret (m, Some (Errorf "short write"), b)
        else Ret (m, None, Buffer_Reset b)
    end
  else Ret (0%nat, None, Buffer_Reset b).

Section readers.
(** An [io.Reader]: called with the length of its argument, it returns the bytes
    it stored, the count it reports and an error. *)
Context {R : Type} (rread : R -> nat -> R * (list byte * Z * option error)).

(** One iteration of the loop of [ReadFrom]: grow, read, re-slice. *)
Definition read_once (r : R) b : res (Z * option error * R * Buffer) :=
  '(i, b) ← grow (Z.of_nat MinRead) b;
  b ← reslice b (Z.of_nat i);
  let '(r, (data, m, e)) := rread r (bcap b - i) in
  let data := take (bcap b - i) data in
  let b := with_buf b (take i (buf b) ++ data ++ drop (i + length data) (buf b)) in
  if decide (m < 0) then Panic else
  b ← reslice b (Z.of_nat i + m);
  Ret (m, e, r, b).

Fixpoint ReadFrom_loop (fuel : nat) (n : Z) (r : R) b : res (Z * option error * R * Buffer) :=
  match fuel with
  | O => Panic
  | S fuel =>
      '(m, e, r, b) ← read_once r b;
      match e with
      | Some EOF => Ret (n + m, None, r, b)
      | Some e => Ret (n + m, Some e, r, b)
      | None => ReadFrom_loop fuel (n + m) r b
      end
  end.

Definition Buffer_ReadFrom (fuel : nat) (r : R) b : res (Z * option error * R * Buffer) :=
  ReadFrom_loop fuel 0 r (with_lastRead b opInvalid).

Definition Buffer_ReadFromOnce (r : R) b : res (Z * option error * R * Buffer) :=
  '(m, e, r, b) ← read_once r (with_lastRead b opInvalid);
  match e with
  | Some EOF => Ret (m, None, r, b)
  | Some e => Ret (m, Some e, r, b)
  | None => Ret (m, None, r, b)
  end.
End readers.

(** * Invariant and abstraction *)

Record buf_wf b : Prop := {
  bw_off : (off b <= blen b)%nat;
  bw_len : (blen b <= bcap b)%nat;
  bw_nil : isnil b = true -> buf b = [];
}.

(** The unread bytes. *)
Definition unread b : list byte := drop (off b) (content b).

(** The demand of [n] more bytes cannot be met: the computed sizes exceed an
    [int], or the new array exceeds [maxAlloc]. *)
Definition too_large (n : Z) b : Prop :=
  maxInt < 2 * Z.of_nat (bcap b) + n \/
  maxAlloc < Z.max (2 * Z.of_nat (bcap b)) (Z.of_nat (blen b) + n).

Lemma length_content b : buf_wf b -> length (content b) = blen b.
Proof. intros H. unfold content. rewrite length_take. pose proof (bw_len b H). unfold bcap in *. lia. Qed.

Lemma length_unread b : buf_wf b -> Z.of_nat (length (unread b)) = Buffer_Len b.
Proof.
  intros H. unfold unread, Buffer_Len. rewrite length_drop, length_content by done.
  pose proof (bw_off b H). lia.
Qed.

(** What growing by [n] promises: the index is where the unread bytes end, they
    are unchanged, and [n] more bytes are exposed. *)
Definition grown (n : nat) b (m : nat) b' : Prop :=
  buf_wf b' /\ (m + n = blen b')%nat /\ (off b' <= m)%nat /\
  drop (off b') (take m (buf b')) = unread b.

Lemma tryGrow_ok n b : buf_wf b ->
  match tryGrowByReslice (Z.of_nat n) b with
  | Ret (Some (m, b')) => grown n b m b' /\ b' = MkBuf (buf b) (blen b + n) (isnil b) (off b) (lastRead b) /\ m = blen b
  | Ret None => (bcap b < blen b + n)%nat
  | _ => False
  end.
Proof.
  intros [Ho Hl Hn]. unfold tryGrowByReslice.
  destruct (decide _); [|lia]. unfold reslice. rewrite decide_True by lia. cbn.
  replace (Z.to_nat _) with (blen b + n)%nat by lia.
  split; [|done]. split_and!; cbn; try lia; try done.
  split; cbn; unfold bcap in *; cbn; try lia. done.
Qed.

Lemma reset_if_empty b : buf_wf b ->
  let b1 := if decide (Buffer_Len b = 0 /\ off b <> 0%nat) then Buffer_Reset b else b in
  buf_wf b1 /\ unread b1 = unread b /\ bcap b1 = bcap b /\ Buffer_Len b1 = Buffer_Len b /\
  (blen b1 <= blen b)%nat /\
  ((off b1 = off b /\ blen b1 = blen b /\ buf b1 = buf b /\ lastRead b1 = lastRead b) \/
   (off b1 = 0%nat /\ lastRead b1 = opInvalid)).
Proof.
  intros H. cbn zeta. destruct (decide _) as [[He _]|]; [|by auto 10].
  pose proof (length_unread b H) as Hu. rewrite He in Hu.
  destruct (unread b) eqn:E; [|simpl in Hu; lia].
  split; [split; cbn; [lia|lia|apply H]|]. split; [done|]. split; [done|].
  split; [by rewrite He|]. split; [cbn; lia|]. by right.
Qed.

(** A fresh array that starts with the unread bytes. *)
Lemma grown_moved n b src rest : unread b = src -> (n <= length rest)%nat ->
  grown n b (length src) (MkBuf (src ++ rest) (length src + n) false 0 (lastRead b)).
Proof.
  intros <- H. split; [|split; [done|split; [cbn; lia|cbn; by rewrite drop_0, take_app_length]]].
  split; cbn; [lia| |done]. unfold bcap. cbn. rewrite length_app. lia.
Qed.

Lemma growSlice_ok src c n : 0 <= n -> Z.of_nat (length src) <= c ->
  match growSlice src c n with
  | Ret a => exists rest, a = src ++ rest /\ n <= Z.of_nat (length rest)
  | Panic => maxAlloc < Z.max (2 * c) (Z.of_nat (length src) + n)
  | Fail _ => False
  end.
Proof.
  intros Hn Hc. unfold growSlice.
  set (k := if decide (_ < 2 * c) then _ else _).
  assert (Z.of_nat (length src) + n <= k <= Z.max (2 * c) (Z.of_nat (length src) + n))
    by (unfold k; case_decide; lia). clearbody k.
  destruct (decide _); [lia|].
  rewrite copy_at_0 by (unfold zeros; rewrite length_replicate; lia).
  cbn. rewrite <- app_assoc. eexists. split; [done|].
  unfold zeros. rewrite length_app, length_drop, !length_replicate. lia.
Qed.

Lemma slide_ok b : buf_wf b ->
  copy_at (content b) 0 (unread b) =
    Ret (unread b ++ drop (length (unread b)) (content b), length (unread b)).
Proof.
  intros H. apply copy_at_0. unfold unread. rewrite length_drop. lia.
Qed.

Lemma slice_unread b : buf_wf b -> slice_from (content b) (off b) = Ret (unread b).
Proof.
  intros H. rewrite slice_from_eq; [done|]. rewrite length_content by done. apply H.
Qed.

Lemma grow_ok n b : buf_wf b ->
  match grow (Z.of_nat n) b with
  | Ret (m, b') => grown n b m b' /\
      ((off b' = off b /\ take m (buf b') = content b /\ lastRead b' = lastRead b) \/
       (off b' = 0%nat /\ (lastRead b' = lastRead b \/ lastRead b' = opInvalid)))
  | Panic => too_large (Z.of_nat n) b
  | Fail _ => False
  end.
Proof.
  intros H. unfold grow. destruct (reset_if_empty b H) as (H1 & Hu & Hc & Hm & Hl & Hs).
  set (b1 := if decide _ then _ else _) in *. clearbody b1.
  assert (Hlr : lastRead b1 = lastRead b \/ lastRead b1 = opInvalid) by (destruct Hs as [(?&?&?&?)|[]]; tauto).
  rewrite <- Hm. clear Hm. pose proof (length_unread b1 H1) as Hm.
  pose proof (tryGrow_ok n b1 H1) as Ht.
  destruct (tryGrowByReslice _ b1) as [[[m b']|]| |]; cbn in Ht; [| |done..].
  { destruct Ht as (G & -> & ->). cbn. split.
    - unfold grown in *. by rewrite Hu in G.
    - cbn. destruct Hs as [(-> & -> & -> & ->)|[-> ->]]; [left|right]; auto. }
  cbn. destruct (isnil b1 && _) eqn:En.
  { apply andb_true_iff in En as [En Hn%bool_decide_eq_true].
    pose proof (bw_nil b1 H1 En) as E0. pose proof (bw_len b1 H1). pose proof (bw_off b1 H1).
    unfold bcap in *. rewrite E0 in *. cbn in *.
    assert (off b1 = 0%nat) as -> by lia. split; [|by right].
    unfold grown. rewrite <- Hu. unfold unread, content. rewrite E0, take_nil, drop_nil.
    split_and!; cbn; try lia; try done. split; cbn; [lia| |done]. unfold smallBufferSize in *. lia. }
  rewrite slice_unread by done. cbn.
  assert (Hfin : forall rest, (n <= length rest)%nat ->
    exists b', reslice (MkBuf (unread b1 ++ rest) (blen b1) false 0 (lastRead b1)) (Buffer_Len b1 + Z.of_nat n) = Ret b' /\
      grown n b (Z.to_nat (Buffer_Len b1)) b' /\ off b' = 0%nat /\ lastRead b' = lastRead b1).
  { intros rest Hr. unfold reslice. rewrite <- Hm.
    rewrite decide_True by (unfold bcap; cbn; rewrite length_app; lia). eexists. split; [done|].
    rewrite Nat2Z.id. replace (Z.to_nat _) with (length (unread b1) + n)%nat by lia.
    split; [|done]. destruct (grown_moved n b1 (unread b1) rest eq_refl Hr) as (?&?&?&?).
    split_and!; try done. cbn. by rewrite drop_0, take_app_length. }
  destruct (decide (Z.of_nat n <= _)) as [Hh|Hh].
  { rewrite slide_ok by done. cbn. rewrite <- app_assoc. edestruct Hfin as (b' & -> & G & E & El); [|cbn; rewrite El; tauto].
    rewrite length_app, !length_drop, length_content by done. pose proof (bw_len b1 H1).
    unfold bcap in *. pose proof (Z.quot_le_upper_bound (Z.of_nat (length (buf b1))) 2 (Z.of_nat (length (buf b1))) ltac:(lia) ltac:(lia)). lia. }
  destruct (decide (_ > _)) as [|Hi]; [left; rewrite <- Hc; lia|].
  pose proof (bw_off b1 H1). pose proof (bw_len b1 H1).
  pose proof (growSlice_ok (unread b1) (Z.of_nat (bcap b1) - Z.of_nat (off b1)) (Z.of_nat (off b1) + Z.of_nat n)
    ltac:(lia) ltac:(unfold Buffer_Len in *; lia)) as Hg.
  destruct (growSlice _ _ _) as [a| |]; cbn; [|done|].
  - destruct Hg as (rest & -> & Hr). edestruct Hfin as (b' & -> & G & E & El); [|cbn; rewrite El; tauto]. lia.
  - right. unfold Buffer_Len in *. lia.
Qed.

(** * The abstract buffer *)

(** The bytes before the read position, the unread bytes, the last read. *)
Record abuf := MkAbs { seen : list byte; rest : list byte; last_op : Z }.

Definition abs b : abuf := MkAbs (take (off b) (content b)) (unread b) (lastRead b).

Inductive bop :=
  | OTruncate (n : Z) | OReset | OGrow (n : Z) | OExtend (n : nat)
  | OWrite (p : list byte) | OWriteString (s : list byte) | OWriteByte (c : byte) | OWriteRune (r : Z)
  | ORead (plen : nat) | ONext (n : Z) | OReadByte | OReadRune
  | OReadBytes (d : byte) | OReadString (d : byte) | OUnreadByte | OUnreadRune
  | OWriteTo (w : list byte -> nat * option error).

Inductive bout :=
  | RUnit | RCount (n : nat) | RErr (e : option error) | RData (l : list byte) (e : option error)
  | RByte (c : option byte) | RRune (r : option (Z * nat)) | RWrote (n : nat) (e : option error).

Definition bstep (o : bop) b : res (bout * Buffer) :=
  match o with
  | OTruncate n => b ← Buffer_Truncate n b; Ret (RUnit, b)
  | OReset => Ret (RUnit, Buffer_Reset b)
  | OGrow n => b ← Buffer_Grow n b; Ret (RUnit, b)
  | OExtend n => b ← Buffer_Extend (Z.of_nat n) b; Ret (RUnit, b)
  | OWrite p => '(n, b) ← Buffer_Write p b; Ret (RCount n, b)
  | OWriteString s => '(n, b) ← Buffer_WriteString s b; Ret (RCount n, b)
  | OWriteByte c => b ← Buffer_WriteByte c b; Ret (RUnit, b)
  | OWriteRune r => '(n, b) ← Buffer_WriteRune r b; Ret (RCount n, b)
  | ORead k => '(l, e, b) ← Buffer_Read k b; Ret (RData l e, b)
  | ONext n => '(l, b) ← Buffer_Next n b; Ret (RData l None, b)
  | OReadByte => '(c, b) ← Buffer_ReadByte b; Ret (RByte c, b)
  | OReadRune => '(r, b) ← Buffer_ReadRune b; Ret (RRune r, b)
  | OReadBytes d => '(l, e, b) ← Buffer_ReadBytes d b; Ret (RData l e, b)
  | OReadString d => '(l, e, b) ← Buffer_ReadString d b; Ret (RData l e, b)
  | OUnreadByte => let '(e, b) := Buffer_UnreadByte b in Ret (RErr e, b)
  | OUnreadRune => let '(e, b) := Buffer_UnreadRune b in Ret (RErr e, b)
  | OWriteTo w => '(n, e, b) ← Buffer_WriteTo w b; Ret (RWrote n e, b)
  end.

(** Consuming [l] from the front. *)
Definition consumed (l : list byte) (op : Z) (s s' : abuf) : Prop :=
  rest s = l ++ rest s' /\ seen s' = seen s ++ l /\ last_op s' = op.

Definition emptied (s s' : abuf) : Prop := rest s = [] /\ s' = MkAbs [] [] opInvalid.

Definition appended (l : list byte) (s s' : abuf) : Prop :=
  rest s' = rest s ++ l /\ last_op s' = opInvalid.

(** What each operation promises. *)
Definition bspec (s : abuf) (o : bop) (out : bout) (s' : abuf) : Prop :=
  match o, out with
  | OReset, RUnit => s' = MkAbs [] [] opInvalid
  | OTruncate n, RUnit => rest s' = take (Z.to_nat n) (rest s) /\ last_op s' = opInvalid
  | OGrow n, RUnit => rest s' = rest s /\
      ((seen s' = seen s /\ last_op s' = last_op s) \/
       (seen s' = [] /\ (last_op s' = last_op s \/ last_op s' = opInvalid)))
  | OExtend n, RUnit => exists l, length l = n /\ appended l s s'
  | OWrite p, RCount n | OWriteString p, RCount n => appended p s s' /\ n = length p
  | OWriteByte c, RUnit => appended [c] s s'
  | OWriteRune r, RCount n => appended (utf8_enc r) s s' /\ n = length (utf8_enc r)
  | ORead k, RData l e =>
      (l = take k (rest s) /\ e = None /\ rest s <> [] /\
         consumed l (if decide (l = []) then opInvalid else opRead) s s') \/
      (l = [] /\ e = (if decide (k = 0%nat) then None else Some EOF) /\ emptied s s')
  | ONext n, RData l e => l = take (Z.to_nat n) (rest s) /\ e = None /\
      consumed l (if decide (l = []) then opInvalid else opRead) s s'
  | OReadByte, RByte c => match c with
                          | Some c => consumed [c] opRead s s'
                          | None => emptied s s'
                          end
  | OReadRune, RRune r =>
      match r with
      | Some (r, n) => utf8_dec (rest s) = (r, n) /\ rest s <> [] /\
          consumed (take n (rest s)) (Z.of_nat n) s s'
      | None => emptied s s'
      end
  | OReadBytes d, RData l e | OReadString d, RData l e => consumed l opRead s s' /\
      ((e = None /\ exists l', l = l' ++ [d] /\ d ∉ l') \/
       (e = Some EOF /\ d ∉ l /\ rest s' = []))
  | OUnreadByte, RErr e =>
      (last_op s = opInvalid /\ e <> None /\ s' = s) \/
      (last_op s <> opInvalid /\ e = None /\ last_op s' = opInvalid /\
       ((exists c, seen s = seen s' ++ [c] /\ rest s' = c :: rest s) \/
        (seen s = [] /\ seen s' = [] /\ rest s' = rest s)))
  | OUnreadRune, RErr e =>
      (last_op s <= opInvalid /\ e <> None /\ s' = s) \/
      (last_op s > opInvalid /\ e = None /\ last_op s' = opInvalid /\
       ((exists l, Z.of_nat (length l) = last_op s /\ seen s = seen s' ++ l /\ rest s' = l ++ rest s) \/
        (Z.of_nat (length (seen s)) < last_op s /\ seen s' = seen s /\ rest s' = rest s)))
  | OWriteTo w, RWrote n e =>
      (rest s = [] /\ n = 0%nat /\ e = None /\ s' = MkAbs [] [] opInvalid) \/
      (rest s <> [] /\ n = (w (rest s)).1 /\
       match e with
       | None => n = length (rest s) /\ (w (rest s)).2 = None /\ s' = MkAbs [] [] opInvalid
       | Some e => consumed (take n (rest s)) opInvalid s s' /\
           ((w (rest s)).2 = Some e \/ ((w (rest s)).2 = None /\ e = Errorf "short write" /\ (n < length (rest s))%nat))
       end)
  | _, _ => False
  end.

(** Calls that panic by contract. *)
Definition bad_call (o : bop) (s : abuf) : Prop :=
  match o with
  | OTruncate n => n < 0 \/ Z.of_nat (length (rest s)) < n
  | OGrow n | ONext n => n < 0
  | OWriteTo w => rest s <> [] /\ (length (rest s) < (w (rest s)).1)%nat
  | _ => False
  end.

(** The bytes an operation asks room for. *)
Definition demand (o : bop) : option Z :=
  match o with
  | OGrow n => Some n
  | OExtend n => Some (Z.of_nat n)
  | OWrite p | OWriteString p => Some (Z.of_nat (length p))
  | OWriteByte _ => Some 1
  | OWriteRune _ => Some 4
  | _ => None
  end.

(** The outcome of an operation against its specification. *)
Definition bmeets (o : bop) b : Prop :=
  match bstep o b with
  | Ret (out, b') => buf_wf b' /\ bspec (abs b) o out (abs b')
  | Panic => bad_call o (abs b) \/ exists n, demand o = Some n /\ too_large n b
  | Fail _ => False
  end.

Lemma wf_lastRead b op : buf_wf b -> buf_wf (with_lastRead b op).
Proof. intros []. by split. Qed.

Lemma wf_reset b : buf_wf b -> buf_wf (Buffer_Reset b).
Proof. intros []. split; cbn; [lia|lia|done]. Qed.

Lemma abs_reset b : abs (Buffer_Reset b) = MkAbs [] [] opInvalid.
Proof. done. Qed.

Lemma wf_advance b k : buf_wf b -> (k <= length (unread b))%nat -> buf_wf (with_off b (off b + k)).
Proof.
  intros H Hk. pose proof (length_unread b H) as Hl. unfold Buffer_Len in Hl. destruct H.
  split; cbn; [lia|done|done].
Qed.

Lemma consumed_advance b k op : buf_wf b -> (k <= length (unread b))%nat ->
  consumed (take k (unread b)) op (abs b) (abs (with_lastRead (with_off b (off b + k)) op)).
Proof.
  intros H Hk. unfold consumed, abs, unread, content in *. cbn. split_and!.
  - by rewrite <- drop_drop, take_drop.
  - by rewrite take_take_drop.
  - done.
Qed.

Lemma extend_ok n b : buf_wf b ->
  match extend (Z.of_nat n) b with
  | Ret (m, b') => grown n b m b' /\ lastRead b' = opInvalid
  | Panic => too_large (Z.of_nat n) b
  | Fail _ => False
  end.
Proof.
  intros H. pose proof (wf_lastRead b opInvalid H) as H1. unfold extend.
  pose proof (tryGrow_ok n _ H1) as Ht.
  destruct (tryGrowByReslice _ _) as [[[m b']|]| |]; cbn in *; [by destruct Ht as (? & -> & _)| |done..].
  pose proof (grow_ok n _ H1) as Hg.
  destruct (grow _ _) as [[m b']| |]; [|done|exact Hg].
  destruct Hg as [G Hl]. split; [exact G|]. cbn in Hl. tauto.
Qed.

(** Storing exactly the [n] exposed bytes appends them. *)
Lemma grown_store n b m b' bs a : grown n b m b' -> length bs = n ->
  a = take m (content b') ++ bs -> lastRead b' = opInvalid ->
  buf_wf (with_buf b' (a ++ drop (blen b') (buf b'))) /\
  appended bs (abs b) (abs (with_buf b' (a ++ drop (blen b') (buf b')))).
Proof.
  intros (H & Hm & Ho & Hu) <- -> Hr.
  assert (Ht : take m (content b') = take m (buf b')).
  { unfold content. rewrite take_take. f_equal. lia. }
  pose proof (bw_len b' H) as Hl. unfold bcap in Hl.
  assert (La : length (take m (content b') ++ bs) = blen b').
  { rewrite Ht, length_app, length_take. lia. }
  split.
  - destruct H as [H1 H2 H3]. split; cbn; [done| |].
    + unfold bcap. cbn. rewrite length_app, La, length_drop. lia.
    + intros E. rewrite (H3 E) in *. cbn in Hl. destruct bs; [|cbn in *; lia].
      by rewrite Ht, take_nil, drop_nil.
  - split; [|done]. cbn [rest abs]. rewrite <- Hu, <- Ht. unfold unread. cbn [off with_buf].
    transitivity (drop (off b') (take m (content b') ++ bs)).
    + f_equal. unfold content at 1. cbn [buf blen with_buf].
      rewrite take_app_le, firstn_all2 by lia. done.
    + apply drop_app_le. rewrite Ht, length_take. lia.
Qed.

Lemma grown_exposed n b m b' : grown n b m b' ->
  content b' = take m (content b') ++ drop m (content b') /\ length (drop m (content b')) = n /\
  length (take m (content b')) = m.
Proof.
  intros (H & Hm & _). rewrite take_drop, length_drop, length_take, length_content by done.
  split; [done|lia].
Qed.

Lemma copy_into_ok p b m b' : grown (length p) b m b' -> lastRead b' = opInvalid ->
  exists b'', copy_into m p b' = Ret (length p, b'') /\ buf_wf b'' /\ appended p (abs b) (abs b'').
Proof.
  intros G Hr. destruct (grown_exposed _ _ _ _ G) as (E & L1 & L2).
  assert (C : copy_at (content b') m p = Ret (take m (content b') ++ p, length p)).
  { rewrite E at 1. rewrite copy_at_app, (drop_ge (drop m (content b'))), app_nil_r by lia. done. }
  unfold copy_into. rewrite C. cbn. eexists. split; [done|].
  by eapply grown_store.
Qed.

Lemma Buffer_Write_eq p b : Buffer_Write p b =
  ('(m, b) ← extend (Z.of_nat (length p)) b; copy_into m p b).
Proof. unfold Buffer_Write, extend. by destruct (tryGrowByReslice _ _) as [[]| |]. Qed.

Lemma Write_meets p b : buf_wf b -> bmeets (OWrite p) b.
Proof.
  intros H. unfold bmeets. cbn. rewrite Buffer_Write_eq. pose proof (extend_ok (length p) b H) as He.
  destruct (extend _ b) as [[m b']| |]; cbn; [|done|by eauto].
  destruct He as [G Hr]. destruct (copy_into_ok _ _ _ _ G Hr) as (b'' & -> & ? & ?). cbn. auto.
Qed.

Lemma WriteByte_meets c b : buf_wf b -> bmeets (OWriteByte c) b.
Proof.
  intros H. unfold bmeets. cbn. unfold Buffer_WriteByte. pose proof (extend_ok 1 b H) as He.
  change (Z.of_nat 1) with 1 in He. unfold extend in He.
  destruct (tryGrowByReslice _ _) as [r| |]; cbn in *; [|done|by eauto].
  destruct (match r with Some _ => _ | None => _ end) as [[m b']| |]; cbn; [|done|by eauto].
  destruct He as [G Hr]. destruct (grown_exposed _ _ _ _ G) as (E & L1 & L2).
  assert (C : set_at (content b') m c = Ret (take m (content b') ++ [c])).
  { rewrite E at 1. rewrite set_at_app, (drop_ge (drop m (content b'))), app_nil_r by lia. done. }
  rewrite C. cbn.
  by eapply grown_store.
Qed.

Lemma extend_unfold {A} n (k : nat * Buffer -> res A) b :
  (r ← tryGrowByReslice n (with_lastRead b opInvalid);
   x ← match r with Some ib => Ret ib | None => grow n (with_lastRead b opInvalid) end; k x) =
  (x ← extend n b; k x).
Proof. unfold extend. by destruct (tryGrowByReslice _ _) as [[]| |]. Qed.

Lemma length_utf8_enc r : (1 <= length (utf8_enc r) <= 4)%nat.
Proof. unfold utf8_enc. repeat case_match; cbn; lia. Qed.

(** Appending at most the exposed bytes. *)
Lemma append_at_ok n b m b' bs : grown n b m b' -> (1 <= length bs <= n)%nat -> lastRead b' = opInvalid ->
  exists b'', append_at m bs b' = Ret b'' /\ blen b'' = (m + length bs)%nat /\
    buf_wf b'' /\ appended bs (abs b) (abs b'').
Proof.
  intros (H & Hm & Ho & Hu) Hn Hr. pose proof (bw_len b' H) as Hl. unfold append_at, reslice.
  rewrite decide_True by lia. cbn. rewrite decide_True by (unfold bcap in *; cbn; lia).
  eexists. split; [done|]. split; [done|]. unfold bcap in *. split.
  - split; cbn; [lia| |done]. unfold bcap. cbn. rewrite !length_app, length_take, length_drop. lia.
  - split; [|done]. cbn [rest abs]. rewrite <- Hu. unfold unread, content. cbn [buf blen off].
    rewrite take_app_add', take_app_length by (rewrite length_take; lia).
    apply drop_app_le. rewrite length_take. lia.
Qed.

Lemma WriteRune_meets r b : buf_wf b -> bmeets (OWriteRune r) b.
Proof.
  intros H. unfold bmeets. cbn. unfold Buffer_WriteRune. destruct (decide _) as [Hs|Hs].
  - pose proof (WriteByte_meets (z2b r) b H) as Hb. unfold bmeets in Hb. cbn in Hb.
    destruct (Buffer_WriteByte _ b) as [b'| |]; cbn in *; [|done|].
    + assert (utf8_enc r = [z2b r]) as ->; [|tauto].
      unfold utf8_enc. rewrite (proj2 (Z.leb_le _ _)); [done|]. lia.
    + right. destruct Hb as [[]|(n & [= <-] & Hb)]. eexists. split; [done|].
      unfold too_large in *. lia.
  - rewrite (extend_unfold 4). pose proof (extend_ok 4 b H) as He. change (Z.of_nat 4) with 4 in He.
    destruct (extend 4 b) as [[m b']| |]; cbn; [|done|by eauto]. destruct He as [G Hr].
    destruct (append_at_ok 4 b m b' (utf8_enc r) G (length_utf8_enc r) Hr) as (b'' & -> & El & ? & ?).
    cbn. split; [done|]. split; [done|]. lia.
Qed.

Lemma Extend_meets n b : buf_wf b -> bmeets (OExtend n) b.
Proof.
  intros H. unfold bmeets. cbn. unfold Buffer_Extend. pose proof (extend_ok n b H) as He.
  destruct (extend _ b) as [[m b']| |]; cbn; [|done|by eauto]. destruct He as [G Hr].
  destruct (grown_exposed _ _ _ _ G) as (E & L1 & L2).
  destruct (grown_store n b m b' (drop m (content b')) _ G L1 eq_refl Hr) as [_ A].
  rewrite <- E in A. unfold content in A at 2. rewrite take_drop in A.
  split; [apply G|]. eexists. split; [done|]. by destruct b'.
Qed.

Lemma Grow_meets n b : buf_wf b -> bmeets (OGrow n) b.
Proof.
  intros H. unfold bmeets. cbn. unfold Buffer_Grow. destruct (decide (n < 0)); [by left; cbn|].
  pose proof (grow_ok (Z.to_nat n) b H) as Hg. rewrite Z2Nat.id in Hg by lia.
  destruct (grow n b) as [[m b']| |]; cbn; [|done|by eauto].
  destruct Hg as [(W & Hm & Ho & Hu) Hs]. pose proof (bw_len b' W).
  unfold reslice. rewrite decide_True by lia. cbn. rewrite Nat2Z.id.
  split; [split; cbn; [lia|unfold bcap in *; cbn; lia|apply W]|].
  change (abs (MkBuf _ _ _ _ _)) with
    (MkAbs (take (off b') (take m (buf b'))) (drop (off b') (take m (buf b'))) (lastRead b')).
  cbn [rest seen last_op abs]. split; [done|]. destruct Hs as [(-> & -> & ->)|[-> Hl]]; [by left|right]. rewrite take_0. tauto.
Qed.

Lemma Truncate_meets n b : buf_wf b -> bmeets (OTruncate n) b.
Proof.
  intros H. unfold bmeets. cbn. unfold Buffer_Truncate.
  destruct (decide (n = 0)) as [->|]; [by split; [apply wf_reset|]|].
  cbn [off with_lastRead]. change (Buffer_Len (with_lastRead b opInvalid)) with (Buffer_Len b).
  pose proof (length_unread b H) as Hl.
  destruct (decide _); [left; cbn; lia|]. pose proof (bw_len b H). unfold reslice, Buffer_Len in *.
  rewrite decide_True by (unfold bcap in *; cbn; lia). cbn.
  split; [split; cbn; [lia|unfold bcap in *; cbn; lia|apply H]|]. split; [|done].
  unfold unread, content. cbn [off buf blen]. rewrite take_drop_commute, take_take. f_equal. f_equal. lia.
Qed.

Lemma empty_spec b : buf_wf b -> Buffer_empty b = bool_decide (unread b = []).
Proof.
  intros H. pose proof (length_unread b H) as Hl. unfold Buffer_Len in Hl. unfold Buffer_empty.
  pose proof (bw_off b H). apply bool_decide_ext. rewrite <- (length_zero_iff_nil (unread b)). lia.
Qed.

Lemma index_unread b c l : buf_wf b -> unread b = c :: l -> index (content b) (off b) = Ret c.
Proof.
  intros H E. unfold index. unfold unread in E.
  by rewrite <- (Nat.add_0_r (off b)), <- lookup_drop, E.
Qed.

Lemma Read_meets k b : buf_wf b -> bmeets (ORead k) b.
Proof.
  intros H. unfold bmeets. cbn. unfold Buffer_Read.
  rewrite empty_spec by by apply wf_lastRead. change (unread (with_lastRead b opInvalid)) with (unread b).
  destruct (bool_decide_reflect (unread b = [])) as [E|E].
  { cbn. split; [by apply wf_reset, wf_lastRead|]. right. done. }
  rewrite slice_unread by by apply wf_lastRead. cbn [mbind res_bind].
  change (unread (with_lastRead b opInvalid)) with (unread b).
  set (j := Nat.min k (length (unread b))).
  assert (Ej : take j (unread b) = take k (unread b)).
  { unfold j. destruct (decide (k <= length (unread b))%nat); [by rewrite Nat.min_l by lia|].
    by rewrite Nat.min_r, !take_ge by lia. }
  assert (Hj : (j <= length (unread b))%nat) by (unfold j; lia).
  split.
  - destruct (decide _); [apply wf_lastRead|]; apply (wf_advance (with_lastRead b opInvalid));
      try done; by apply wf_lastRead.
  - left. split; [done|]. split; [done|]. split; [done|].
    assert (take j (unread b) = [] <-> j = 0%nat) as Hz.
    { rewrite <- length_zero_iff_nil, length_take. lia. }
    pose proof (consumed_advance b j) as Hc.
    destruct (decide (0 < j)%nat).
    + rewrite decide_False by (intros ?%Hz; lia). exact (Hc opRead H Hj).
    + rewrite decide_True by (apply Hz; lia). exact (Hc opInvalid H Hj).
Qed.

Lemma ReadByte_meets b : buf_wf b -> bmeets OReadByte b.
Proof.
  intros H. unfold bmeets. cbn. unfold Buffer_ReadByte. rewrite empty_spec by done.
  destruct (bool_decide_reflect (unread b = [])) as [E|E]; [by split; [apply wf_reset|]|].
  destruct (unread b) as [|c l] eqn:Eu; [done|]. erewrite index_unread by done. cbn.
  replace (S (off b)) with (off b + 1)%nat by lia. split.
  - apply wf_lastRead, wf_advance; [done|]. rewrite Eu. cbn. lia.
  - pose proof (consumed_advance b 1 opRead H) as Hc. rewrite Eu in Hc. apply Hc. cbn. lia.
Qed.

Lemma utf8_dec_size l r n : utf8_dec l = (r, n) -> l <> [] -> (1 <= n <= length l)%nat.
Proof.
  intros E Hl. destruct l as [|x l]; [done|]. unfold utf8_dec in E. cbn [map] in E.
  cbn [length]. rewrite <- (length_map b2z l).
  repeat (case_match; simplify_eq; cbn [length]); try lia.
Qed.

Lemma ReadRune_meets b : buf_wf b -> bmeets OReadRune b.
Proof.
  intros H. unfold bmeets. cbn. unfold Buffer_ReadRune. rewrite empty_spec by done.
  destruct (bool_decide_reflect (unread b = [])) as [E|E]; [by split; [apply wf_reset|]|].
  destruct (unread b) as [|c l] eqn:Eu; [done|]. erewrite index_unread by done. cbn [mbind res_bind].
  assert (exists r n, utf8_dec (unread b) = (r, n)) as (r & n & Ed) by (destruct (utf8_dec _); eauto).
  pose proof (utf8_dec_size _ _ _ Ed) as Hn. rewrite Eu in Hn. specialize (Hn E).
  pose proof (consumed_advance b n (Z.of_nat n) H) as Hc. rewrite Eu in Hc.
  assert (W : buf_wf (with_lastRead (with_off b (off b + n)) (Z.of_nat n))).
  { apply wf_lastRead, wf_advance; [done|]. rewrite Eu. lia. }
  destruct (decide (b2z c < 0x80)) as [Hs|Hs].
  - assert (Ed' : utf8_dec (unread b) = (b2z c, 1%nat)).
    { rewrite Eu. unfold utf8_dec. cbn [map]. by rewrite (proj2 (Z.ltb_lt _ _)). }
    assert (r = b2z c /\ n = 1%nat) as [-> ->] by (rewrite Ed in Ed'; by simplify_eq).
    replace (S (off b)) with (off b + 1)%nat by lia. split; [done|].
    cbn [bspec abs rest]. rewrite Eu in *. split; [done|]. split; [done|]. apply Hc. lia.
  - rewrite slice_unread by done. cbn [mbind res_bind]. rewrite Ed. split; [done|].
    cbn [bspec abs rest]. rewrite Eu in *. split; [done|]. split; [done|]. apply Hc. lia.
Qed.

Lemma Next_meets n b : buf_wf b -> bmeets (ONext n) b.
Proof.
  intros H. unfold bmeets. cbn [bstep]. unfold Buffer_Next.
  change (Buffer_Len (with_lastRead b opInvalid)) with (Buffer_Len b).
  pose proof (length_unread b H) as Hl. pose proof (bw_off b H) as Ho.
  change (off (with_lastRead b opInvalid)) with (off b).
  change (content (with_lastRead b opInvalid)) with (content b).
  set (k := if decide (n > _) then _ else _).
  assert (Hk : k = Z.min n (Buffer_Len b)) by (unfold k; case_decide; lia). clearbody k.
  destruct (decide (k < 0)); [left; cbn; lia|].
  set (j := Z.to_nat k). assert (Hj : (j <= length (unread b))%nat) by (unfold j; lia).
  assert (Ej : take j (unread b) = take (Z.to_nat n) (unread b)).
  { unfold j. destruct (decide (n <= Buffer_Len b)); [f_equal; lia|]. by rewrite !take_ge by lia. }
  rewrite slice_eq by (rewrite ?length_content by done; unfold Buffer_Len in *; lia).
  rewrite Nat.add_comm, Nat.add_sub, Nat.add_comm. cbn [mbind res_bind].
  change (drop (off b) (content b)) with (unread b).
  assert (take j (unread b) = [] <-> j = 0%nat) as Hz.
  { rewrite <- length_zero_iff_nil, length_take. lia. }
  pose proof (consumed_advance b j) as Hc. split.
  - destruct (decide _); [apply wf_lastRead|]; apply (wf_advance (with_lastRead b opInvalid));
      try done; by apply wf_lastRead.
  - split; [done|]. split; [done|]. destruct (decide (k > 0)).
    + rewrite decide_False by (intros ?%Hz; lia). exact (Hc opRead H Hj).
    + rewrite decide_True by (apply Hz; lia). exact (Hc opInvalid H Hj).
Qed.

Lemma IndexByte_Some l d i : IndexByte l d = Some i ->
  exists l1 l2, l = l1 ++ d :: l2 /\ length l1 = i /\ d ∉ l1.
Proof.
  revert i. induction l as [|x l IH]; intros i; cbn; [done|]. case_decide as Hx.
  - intros [= <-]. subst. exists [], l. split; [done|]. split; [done|]. apply not_elem_of_nil.
  - intros (j & E & ->)%fmap_Some. destruct (IH j E) as (l1 & l2 & -> & <- & Hn).
    exists (x :: l1), l2. split; [done|]. split; [done|]. apply not_elem_of_cons. split; congruence.
Qed.

Lemma IndexByte_None l d : IndexByte l d = None -> d ∉ l.
Proof.
  induction l as [|x l IH]; cbn; [intros _; apply not_elem_of_nil|]. case_decide as Hx; [done|].
  intros E%fmap_None. apply not_elem_of_cons. split; [congruence|by apply IH].
Qed.

Lemma readSlice_ok d b : buf_wf b -> exists l e b', readSlice d b = Ret (l, e, b') /\ buf_wf b' /\
  consumed l opRead (abs b) (abs b') /\
  ((e = None /\ exists l', l = l' ++ [d] /\ d ∉ l') \/ (e = Some EOF /\ d ∉ l /\ unread b' = [])).
Proof.
  intros H. unfold readSlice. rewrite slice_unread by done. cbn [mbind res_bind].
  pose proof (length_unread b H) as Hl. pose proof (bw_off b H) as Ho. unfold Buffer_Len in Hl.
  assert (Hs : forall k, (k <= length (unread b))%nat ->
    slice (content b) (off b) (off b + k) = Ret (take k (unread b))).
  { intros k Hk. rewrite slice_eq by (rewrite ?length_content by done; lia).
    by rewrite Nat.add_comm, Nat.add_sub. }
  destruct (IndexByte (unread b) d) as [i|] eqn:E.
  - apply IndexByte_Some in E as (l1 & l2 & E & <- & Hn).
    assert (Hk : (length l1 + 1 <= length (unread b))%nat) by (rewrite E, length_app; cbn; lia).
    rewrite <- Nat.add_assoc, Hs by done. cbn [mbind res_bind]. do 3 eexists. split; [done|].
    split; [by apply wf_lastRead, wf_advance|]. split; [by apply consumed_advance|].
    left. split; [done|]. exists l1. split; [|done].
    rewrite E, take_app_add'; [|done]. done.
  - apply IndexByte_None in E. replace (blen b) with (off b + length (unread b))%nat by lia.
    rewrite Hs by done. cbn [mbind res_bind]. do 3 eexists. split; [done|].
    split; [by apply wf_lastRead, wf_advance|]. split; [by apply consumed_advance|].
    right. split; [done|]. rewrite firstn_all. split; [done|].
    unfold unread. cbn [off with_lastRead with_off]. change (content _) with (content b).
    apply drop_ge. rewrite length_content by done. unfold unread in Hl. lia.
Qed.

Lemma ReadBytes_meets d b : buf_wf b -> bmeets (OReadBytes d) b.
Proof.
  intros H. destruct (readSlice_ok d b H) as (l & e & b' & E & ?).
  unfold bmeets. cbn [bstep]. unfold Buffer_ReadBytes. rewrite E. done.
Qed.

Lemma ReadString_meets d b : buf_wf b -> bmeets (OReadString d) b.
Proof.
  intros H. destruct (readSlice_ok d b H) as (l & e & b' & E & ?).
  unfold bmeets. cbn [bstep]. unfold Buffer_ReadString. rewrite E. done.
Qed.

(** Moving the read position back by [k]. *)
Lemma abs_back b k op : buf_wf b -> (k <= off b)%nat ->
  let b' := with_lastRead (with_off b (off b - k)) op in
  buf_wf b' /\ exists l, length l = k /\ seen (abs b) = seen (abs b') ++ l /\
    rest (abs b') = l ++ rest (abs b) /\ last_op (abs b') = op.
Proof.
  intros H Hk. cbn zeta. split; [destruct H; split; cbn; [lia|done|done]|].
  exists (take k (drop (off b - k) (content b))).
  pose proof (bw_off b H). unfold abs, unread. cbn [seen rest last_op off lastRead with_lastRead with_off].
  change (content (with_lastRead _ _)) with (content b). split_and!.
  - rewrite length_take, length_drop, length_content by done. lia.
  - rewrite take_take_drop. f_equal. lia.
  - rewrite <- (take_drop k (drop (off b - k) (content b))) at 1. rewrite drop_drop. do 2 f_equal. lia.
  - done.
Qed.

Lemma UnreadByte_meets b : buf_wf b -> bmeets OUnreadByte b.
Proof.
  intros H. unfold bmeets. cbn [bstep]. unfold Buffer_UnreadByte.
  destruct (decide _) as [E|E]; [by split; [|left]|]. cbn [off with_lastRead].
  destruct (decide (0 < off b)%nat) as [Ho|Ho].
  - destruct (abs_back b 1 opInvalid H ltac:(lia)) as (W & l & Hl & Hs & Hr & He).
    split; [exact W|]. right. split; [done|]. split; [done|]. split; [exact He|]. left.
    destruct l as [|c [|]]; try done. exists c. split; [exact Hs|exact Hr].
  - split; [by apply wf_lastRead|]. right. split; [done|]. split; [done|]. split; [done|]. right.
    unfold abs. cbn [seen rest off with_lastRead]. assert (E0 : off b = 0%nat) by lia.
    rewrite E0, !take_0. done.
Qed.

Lemma UnreadRune_meets b : buf_wf b -> bmeets OUnreadRune b.
Proof.
  intros H. unfold bmeets. cbn [bstep]. unfold Buffer_UnreadRune.
  destruct (decide _) as [E|E]; [by split; [|left]|].
  destruct (decide (Z.of_nat (off b) >= lastRead b)) as [Ho|Ho].
  - unfold opInvalid in E. destruct (abs_back b (Z.to_nat (lastRead b)) opInvalid H ltac:(lia)) as (W & l & Hl & Hs & Hr & He).
    split; [exact W|]. right. split; [cbn; unfold opInvalid; lia|]. split; [done|]. split; [exact He|]. left.
    exists l. split; [cbn; lia|]. split; [exact Hs|exact Hr].
  - split; [by apply wf_lastRead|]. right. split; [cbn; lia|]. split; [done|]. split; [done|]. right.
    split; [|done]. unfold abs. cbn [seen last_op]. rewrite length_take, length_content by done.
    pose proof (bw_off b H). lia.
Qed.

Lemma WriteTo_meets w b : buf_wf b -> bmeets (OWriteTo w) b.
Proof.
  intros H. unfold bmeets. cbn [bstep]. unfold Buffer_WriteTo.
  change (Buffer_Len (with_lastRead b opInvalid)) with (Buffer_Len b).
  pose proof (length_unread b H) as Hl. pose proof (wf_lastRead b opInvalid H) as H1.
  destruct (decide (Buffer_Len b > 0)) as [Hp|Hp].
  2:{ split; [by apply wf_reset|]. left. split; [|done].
      apply nil_length_inv. change (rest (abs b)) with (unread b). lia. }
  assert (Hne : unread b <> []) by (intros E; rewrite E in Hl; cbn in Hl; lia).
  rewrite slice_unread by done. change (unread (with_lastRead b opInvalid)) with (unread b).
  cbn [mbind res_bind]. destruct (w (unread b)) as [m e] eqn:Ew.
  destruct (decide (Z.of_nat m > _)) as [Hm|Hm].
  { left. split; [done|]. change (rest (abs b)) with (unread b). rewrite Ew. cbn. lia. }
  pose proof (consumed_advance b m opInvalid H ltac:(lia)) as Hc.
  assert (W : buf_wf (with_off (with_lastRead b opInvalid) (off b + m))) by
    (apply (wf_advance (with_lastRead b opInvalid)); [done|]; change (unread (with_lastRead b opInvalid)) with (unread b); lia).
  destruct e as [e|].
  - split; [exact W|]. right. cbn [abs rest]. rewrite Ew. split; [done|]. split; [done|].
    split; [exact Hc|]. by left.
  - destruct (decide (Z.of_nat m <> _)) as [Hn|Hn].
    + split; [exact W|]. right. cbn [abs rest]. rewrite Ew. split; [done|]. split; [done|].
      split; [exact Hc|]. right. split; [done|]. split; [done|]. lia.
    + split; [by apply wf_reset|].
      right. cbn [abs rest]. rewrite Ew. split; [done|]. split; [done|]. split; [lia|]. done.
Qed.


(** * Reading to the end of a reader *)

Lemma reslice_eq b n : (n <= bcap b)%nat ->
  reslice b (Z.of_nat n) = Ret (MkBuf (buf b) n (isnil b) (off b) (lastRead b)).
Proof. intros. unfold reslice. rewrite decide_True by lia. by rewrite Nat2Z.id. Qed.

Section readers_ok.
Context {R : Type} (rread : R -> nat -> R * (list byte * Z * option error)).
(** The bytes a reader still holds; a read returns a prefix of them, at least
    one byte unless it returns an error, and [io.EOF] only at the end. *)
Context (remaining : R -> list byte).
Definition reader_ok : Prop := forall r k, (0 < k)%nat ->
  let '(r', (data, m, e)) := rread r k in
  m = Z.of_nat (length data) /\ (length data <= k)%nat /\ remaining r = data ++ remaining r' /\
  match e with None => data <> [] | Some EOF => remaining r' = [] | Some _ => True end.
Hypothesis rread_ok : reader_ok.

Lemma read_once_ok r b : buf_wf b ->
  match read_once rread r b with
  | Ret (m, e, r', b') => exists data, buf_wf b' /\ m = Z.of_nat (length data) /\
      unread b' = unread b ++ data /\ remaining r = data ++ remaining r' /\
      match e with None => data <> [] | Some EOF => remaining r' = [] | Some _ => True end
  | Panic => too_large (Z.of_nat MinRead) b
  | Fail _ => False
  end.
Proof.
  intros H. unfold read_once. pose proof (grow_ok MinRead b H) as Hg.
  destruct (grow _ b) as [[i b1]| |]; cbn [mbind res_bind]; [|done|done].
  destruct Hg as [(W & Hm & Ho & Hu) _]. pose proof (bw_len b1 W) as Hl. unfold bcap in Hl.
  assert (Hx : (i + MinRead <= length (buf b1))%nat) by lia. unfold MinRead in Hx.
  rewrite reslice_eq by (unfold bcap; lia). cbn [mbind res_bind]. change (bcap (MkBuf (buf b1) i (isnil b1) (off b1) (lastRead b1))) with (length (buf b1)).
  pose proof (rread_ok r (length (buf b1) - i)%nat ltac:(lia)) as Hr.
  destruct (rread r (length (buf b1) - i)%nat) as [r' [[data m] e]]. destruct Hr as (-> & Hd & Hrem & He).
  rewrite (firstn_all2 data) by lia. rewrite decide_False, <- Nat2Z.inj_add by lia.
  rewrite reslice_eq by (unfold bcap; cbn; rewrite !length_app, length_take, length_drop; lia).
  cbn [mbind res_bind]. exists data. split_and!.
  - split; cbn; [lia| |].
    + unfold bcap. cbn. rewrite !length_app, length_take, length_drop. lia.
    + intros E. rewrite (bw_nil b1 W E) in Hx. cbn in Hx. lia.
  - done.
  - rewrite <- Hu. unfold unread, content. cbn [buf blen off with_buf].
    rewrite take_app_add', take_app_length by (rewrite length_take; lia).
    apply drop_app_le. rewrite length_take. lia.
  - done.
  - done.
Qed.

Lemma ReadFrom_loop_ok fuel n r b : buf_wf b -> (length (remaining r) < fuel)%nat ->
  match ReadFrom_loop rread fuel n r b with
  | Ret (n', e, r', b') => exists data, buf_wf b' /\ n' = n + Z.of_nat (length data) /\
      unread b' = unread b ++ data /\ remaining r = data ++ remaining r' /\
      (e = None -> remaining r' = []) /\ e <> Some EOF
  | Panic => exists data r' b', buf_wf b' /\ unread b' = unread b ++ data /\
      remaining r = data ++ remaining r' /\ too_large (Z.of_nat MinRead) b'
  | Fail _ => False
  end.
Proof.
  revert n r b. induction fuel as [|fuel IH]; intros n r b H Hf; [lia|]. cbn [ReadFrom_loop].
  pose proof (read_once_ok r b H) as Ho.
  destruct (read_once rread r b) as [[[[m e] r1] b1]| |]; cbn [mbind res_bind]; [|done|].
  2:{ exists [], r, b. by rewrite app_nil_r. }
  destruct Ho as (d & W & -> & Hu & Hr & He). destruct e as [e|].
  { destruct e; (exists d; split_and!; try done). }
  assert (Hlt : (length (remaining r1) < fuel)%nat).
  { rewrite Hr, length_app in Hf. destruct d; [done|]. cbn in Hf. lia. }
  pose proof (IH (n + Z.of_nat (length d)) r1 b1 W Hlt) as Hi.
  destruct (ReadFrom_loop _ _ _ _ _) as [[[[n' e'] r'] b']| |]; [|done|].
  - destruct Hi as (d' & W' & -> & Hu' & Hr' & Hx). exists (d ++ d').
    rewrite Hu', Hu, Hr, Hr', length_app, <- !app_assoc. split_and!; try done; try lia; apply Hx.
  - destruct Hi as (d' & r' & b' & W' & Hu' & Hr' & Ht). exists (d ++ d'), r', b'.
    rewrite Hu', Hu, Hr, Hr', <- !app_assoc. done.
Qed.
End readers_ok.

(** C39: [ReadFrom] drains a well-behaved reader: after at most one read per
    remaining byte and one more it returns, the bytes read are appended to the
    unread ones, the count is exact, a nil error means that nothing remains in
    the reader, and it panics only when the next [MinRead] bytes of room
    cannot be allocated. *)
Theorem byte_buffer_ReadFrom {R} (rread : R -> nat -> R * (list byte * Z * option error))
    (remaining : R -> list byte) r b :
  reader_ok rread remaining -> buf_wf b ->
  match Buffer_ReadFrom rread (S (length (remaining r))) r b with
  | Ret (n, e, r', b') => exists data, buf_wf b' /\ n = Z.of_nat (length data) /\
      unread b' = unread b ++ data /\ remaining r = data ++ remaining r' /\
      (e = None -> remaining r' = []) /\ e <> Some EOF
  | Panic => exists data r' b', buf_wf b' /\ unread b' = unread b ++ data /\
      remaining r = data ++ remaining r' /\ too_large (Z.of_nat MinRead) b'
  | Fail _ => False
  end.
Proof.
  intros Hr H. apply (ReadFrom_loop_ok rread remaining Hr (S (length (remaining r))) 0 r (with_lastRead b opInvalid)).
  - by apply wf_lastRead.
  - lia.
Qed.

(** A rune written with [WriteRune] to an empty buffer, whatever its
    capacity and position, is the rune [ReadRune] returns, and [UnreadRune]
    then restores exactly its encoding. *)
Theorem rune_roundtrip r b n b1 : buf_wf b -> unread b = [] -> valid_rune r = true ->
  Buffer_WriteRune r b = Ret (n, b1) ->
  exists b2 b3, Buffer_ReadRune b1 = Ret (Some (r, n), b2) /\ unread b2 = [] /\
    Buffer_UnreadRune b2 = (None, b3) /\ unread b3 = utf8_enc r /\ n = length (utf8_enc r).
Proof.
  intros H He Hv E. pose proof (WriteRune_meets r b H) as Hw. unfold bmeets in Hw. cbn in Hw.
  rewrite E in Hw. cbn in Hw. destruct Hw as [W [[Ha _] ->]].
  change (unread b1 = unread b ++ utf8_enc r) in Ha. rewrite He in Ha. cbn in Ha.
  pose proof (length_utf8_enc r) as Hl.
  pose proof (utf8_dec_enc r [] Hv) as Hd. rewrite app_nil_r in Hd.
  pose proof (ReadRune_meets b1 W) as Hr. unfold bmeets in Hr. cbn [bstep] in Hr.
  destruct (Buffer_ReadRune b1) as [[[[r' n]|] b2]| |]; cbn [mbind res_bind] in Hr; [| |done|].
  - destruct Hr as [W2 (Hr1 & Hr2 & Hc)]. change (rest (abs b1)) with (unread b1) in *.
    rewrite Ha, Hd in Hr1. injection Hr1 as <- <-.
    destruct Hc as (C1 & C2 & C3). change (rest (abs b1)) with (unread b1) in *.
    rewrite Ha, firstn_all in C1, C2. change (rest (abs b2)) with (unread b2) in *.
    assert (unread b2 = []) as H2.
    { rewrite <- (app_nil_r (utf8_enc r)) in C1 at 1. by apply app_inv_head in C1. }
    pose proof (UnreadRune_meets b2 W2) as Hu. unfold bmeets in Hu. cbn [bstep] in Hu.
    destruct (Buffer_UnreadRune b2) as [e b3] eqn:Eu. destruct Hu as [W3 Hu]. cbn [bspec] in Hu.
    rewrite C3 in Hu. unfold opInvalid in Hu. destruct Hu as [Hu|(_ & -> & _ & Hu)]; [lia|].
    exists b2, b3. split_and!; try done.
    destruct Hu as [(l & L1 & L2 & L3)|(L1 & _)].
    + change (unread b3 = l ++ unread b2) in L3. rewrite L3, H2, app_nil_r. rewrite C2 in L2.
      apply app_inj_2 in L2 as [_ ->]; [done|]. lia.
    + rewrite C2, length_app in L1. lia.
  - destruct Hr as [_ [Hr _]]. change (rest (abs b1)) with (unread b1) in Hr. rewrite Hr in Ha.
    rewrite <- Ha in Hl. cbn in Hl. lia.
  - destruct Hr as [[]|(n & [=] & _)].
Qed.
End buffer.

(** Two gaps in the documented contract of [UnreadByte] ("unreads the last
    byte returned by the most recent successful read operation that read at
    least one byte"; "if the last read returned an error, or if the read read
    zero bytes, UnreadByte returns an error").  After [ReadByte] and a [Grow]
    that reallocates, [UnreadByte] succeeds without restoring the byte; after a
    [ReadBytes] that read nothing and returned [io.EOF], it succeeds and
    restores a byte that an earlier read returned. *)
Theorem unread_contract_gaps :
  let b := NewBufferString [x61; x62] in
  ('(x, b1) ← Buffer_ReadByte b; b2 ← Buffer_Grow id 4096 100 b1;
   Ret (x, (Buffer_UnreadByte b2).1, unread (Buffer_UnreadByte b2).2)) = Ret (Some x61, None, [x62]) /\
  ('(x, b1) ← Buffer_Next 2 b; '(y, e, b2) ← Buffer_ReadBytes x0a b1;
   Ret (x, y, e, (Buffer_UnreadByte b2).1, unread (Buffer_UnreadByte b2).2)) = Ret ([x61; x62], [], Some EOF, None, [x62]).
Proof. cbn zeta. split; vm_compute; reflexivity. Qed.

(** ** Witnesses *)

Definition demo_buf : Buffer := MkBuf [x61; x62; x63; x64] 3 false 1 opRead.

Lemma demo_buf_wf : buf_wf demo_buf.
Proof. split; cbn; [lia|unfold bcap; cbn; lia|done]. Qed.


(** A reader over a list that returns as much as fits. *)
Definition list_read (r : list byte) (k : nat) : list byte * (list byte * Z * option error) :=
  match r with
  | [] => ([], ([], 0, Some EOF))
  | _ => (drop k r, (take k r, Z.of_nat (length (take k r)), None))
  end.

Lemma list_read_ok : reader_ok list_read id.
Proof.
  intros r k Hk. unfold list_read. destruct r as [|x r]; [cbn; split_and!; done || lia|].
  split_and!; [done|rewrite length_take; lia|unfold id; by rewrite take_drop|].
  destruct k; [lia|done].
Qed.

Lemma byte_buffer_ReadFrom_witness :
  match Buffer_ReadFrom id 4096 list_read 4 [x31; x32; x33] demo_buf with
  | Ret (n, e, r', b') => exists data, buf_wf b' /\ n = Z.of_nat (length data) /\
      unread b' = [x62; x63] ++ data /\ [x31; x32; x33] = data ++ r' /\ (e = None -> r' = []) /\ e <> Some EOF
  | _ => False
  end.
Proof.
  generalize (byte_buffer_ReadFrom id 4096 list_read id [x31; x32; x33] demo_buf list_read_ok demo_buf_wf).
  change (S (length (id [x31; x32; x33]))) with 4%nat.
  set (r := Buffer_ReadFrom _ _ _ _ _ _). assert (E : exists x, r = Ret x) by (eexists; vm_compute; reflexivity).
  destruct E as [[[[n e] r'] b'] ->]. done.
Defined.

Definition euro_buf : Buffer := MkBuf ([xe2; x82; xac] ++ zeros 61) 3 false 0 0.

Lemma rune_roundtrip_witness :
  exists b2 b3, Buffer_ReadRune euro_buf = Ret (Some (0x20AC, 3%nat), b2) /\ unread b2 = [] /\
    Buffer_UnreadRune b2 = (None, b3) /\ unread b3 = utf8_enc 0x20AC /\ 3%nat = length (utf8_enc 0x20AC).
Proof.
  apply (rune_roundtrip id 4096 0x20AC NewBuffer_nil 3 euro_buf); [|done|done|vm_compute; reflexivity].
  split; cbn; [lia|unfold bcap; cbn; lia|done].
Defined.
