(* ===== verification/Pool.v ===== *)
(** The byte-slice pool (pool/pool.go) and the pool of serialization buffers
    (pool/bytes_buffer.go).

    A pooled slice is its backing array, its capacity the length of the array.
    [sync.Pool] may hand out any entry it holds or none: the choice is an
    argument of the model. *)

From S2P Require Import Prelude BytesBuffer.

Definition num : nat := 17.
Definition maxsize : Z := Z.shiftl 1 (Z.of_nat num - 1).
Definition minsizePower : nat := 6.
Definition minsize : Z := Z.shiftl 1 (Z.of_nat minsizePower).

(** [bits.Len32(uint32(x))] *)
Definition Len32 (x : Z) : Z :=
  let u := x mod 2 ^ 32 in if decide (u = 0) then 0 else Z.log2 u + 1.

Definition GetBiggerClosestN (need : Z) : res Z :=
  if decide (need <= 0) then Ret (Z.of_nat minsizePower) else
  let n := Len32 need in
  if decide (n - 1 < 0) then Panic else
  if decide (need = Z.shiftl 1 (n - 1)) then Ret (n - 1) else Ret n.

(** The free lists [pools[0..num-1]]. *)
Abbreviation pools := (list (list (list byte))).
Definition init_pools : pools := replicate num [].

(** [make([]byte, size)], which panics on a negative size. *)
Definition make (size : Z) : res (list byte) :=
  if decide (size < 0) then Panic else Ret (replicate (Z.to_nat size) x00).

(** [pools[i].Get()]: the entry at position [c], or a new array of [2^i] bytes. *)
Definition pool_take (i : Z) (c : option nat) (ps : pools) : res (list byte * pools) :=
  l ← index ps (Z.to_nat i);
  match c ≫= fun c => l !! c with
  | Some b => Ret (b, <[Z.to_nat i := delete (default 0%nat c) l]> ps)
  | None => Ret (replicate (Z.to_nat (Z.shiftl 1 i)) x00, ps)
  end.

(** [Get(size)]: the array and the length of the slice returned. *)
Definition Get (size : Z) (c : option nat) (ps : pools) : res (list byte * Z * pools) :=
  if decide (size >= 1 /\ size <= maxsize) then
    i ← GetBiggerClosestN size;
    let i := if decide (i < Z.of_nat minsizePower) then Z.of_nat minsizePower else i in
    '(b, ps) ← pool_take i c ps;
    if decide (Z.of_nat (length b) < size) then b ← make size; Ret (b, size, ps)
    else Ret (b, size, ps)
  else b ← make size; Ret (b, size, ps).

Definition GetFullCap (size : Z) (c : option nat) (ps : pools) : res (list byte * Z * pools) :=
  '(b, _, ps) ← Get size c ps; Ret (b, Z.of_nat (length b), ps).

Definition GetZero (size : Z) (c : option nat) (ps : pools) : res (list byte * Z * pools) :=
  '(b, n, ps) ← Get size c ps;
  Ret (replicate (Z.to_nat n) x00 ++ drop (Z.to_nat n) b, n, ps).

Definition Put (b : list byte) (ps : pools) : res pools :=
  let size := Z.of_nat (length b) in
  if decide (size < minsize \/ size > maxsize) then Ret ps else
  i ← GetBiggerClosestN size;
  let i := if decide (i < Z.of_nat minsizePower) then Z.of_nat minsizePower else i in
  if decide (i < Z.of_nat num) then
    l ← index ps (Z.to_nat i); Ret (<[Z.to_nat i := b :: l]> ps)
  else Ret ps.

(** * Size classes *)

Lemma Len32_spec x : 0 < x < 2 ^ 32 -> 2 ^ (Len32 x - 1) <= x < 2 ^ Len32 x /\ 1 <= Len32 x <= 32.
Proof.
  intros Hx. unfold Len32. rewrite Z.mod_small by lia. rewrite decide_False by lia.
  rewrite Z.add_simpl_r. pose proof (Z.log2_spec x ltac:(lia)). pose proof (Z.log2_nonneg x).
  assert (Z.log2 x < 32) by (apply Z.log2_lt_pow2; lia). lia.
Qed.

(** The class of [need]: the least power of two that holds it. *)
Lemma GetBiggerClosestN_spec need : 0 < need < 2 ^ 32 ->
  exists n, GetBiggerClosestN need = Ret n /\ 0 <= n <= 32 /\ need <= 2 ^ n /\
    forall k, 0 <= k < n -> 2 ^ k < need.
Proof.
  intros H. destruct (Len32_spec need H) as [Hl Hn]. unfold GetBiggerClosestN.
  rewrite decide_False by lia. rewrite decide_False by lia. rewrite Z.shiftl_1_l.
  destruct (decide _) as [E|E]; eexists; (split; [done|]); (split; [lia|]); (split; [lia|]); intros k Hk.
  - rewrite E. apply Z.pow_lt_mono_r; lia.
  - assert (2 ^ k <= 2 ^ (Len32 need - 1)) by (apply Z.pow_le_mono_r; lia). lia.
Qed.

(** The class used by [Get] and [Put]. *)
Lemma class_in_range size : 1 <= size <= maxsize ->
  exists n, GetBiggerClosestN size = Ret n /\ n < Z.of_nat num /\ size <= 2 ^ n /\ 0 <= n.
Proof.
  intros H. assert (maxsize = 2 ^ 16) as E by done.
  destruct (GetBiggerClosestN_spec size) as (n & En & Hn & Hle & Hmin); [lia|].
  exists n. split; [done|]. split; [|lia]. destruct (decide (n < 17)); [done|].
  specialize (Hmin 16). lia.
Qed.

(** Every entry of class [i] has between [minsize] and [maxsize] bytes and fits
    in [2^i]. *)
Definition pools_wf (ps : pools) : Prop :=
  length ps = num /\
  forall i l b, ps !! i = Some l -> b ∈ l ->
    minsize <= Z.of_nat (length b) <= maxsize /\ Z.of_nat (length b) <= 2 ^ Z.of_nat i.

Lemma init_pools_wf : pools_wf init_pools.
Proof.
  split; [done|]. intros i l b Hi Hb. apply lookup_replicate in Hi as [-> _].
  by apply not_elem_of_nil in Hb.
Qed.

Lemma pools_wf_insert ps i l : pools_wf ps ->
  (forall b, b ∈ l -> minsize <= Z.of_nat (length b) <= maxsize /\ Z.of_nat (length b) <= 2 ^ Z.of_nat i) ->
  pools_wf (<[i := l]> ps).
Proof.
  intros [Hl H] Hn. split; [by rewrite length_insert|]. intros j l' b Hj Hb.
  apply list_lookup_insert_Some in Hj as [(-> & -> & _)|[_ Hj]]; eauto.
Qed.

Lemma pool_take_ok i c ps : pools_wf ps -> 0 <= i < Z.of_nat num -> Z.of_nat minsizePower <= i ->
  exists b ps', pool_take i c ps = Ret (b, ps') /\ pools_wf ps' /\ Z.of_nat (length b) <= 2 ^ i.
Proof.
  intros W Hi Hm. unfold pool_take, index. destruct (lookup_lt_is_Some_2 ps (Z.to_nat i)) as [l El].
  { destruct W as [-> _]. lia. }
  rewrite El. cbn [mbind res_bind]. destruct (c ≫= _) as [b|] eqn:Ec.
  - apply bind_Some in Ec as (k & -> & Ek). do 2 eexists. split; [done|].
    assert (Hb : forall x, x ∈ l -> minsize <= Z.of_nat (length x) <= maxsize /\ Z.of_nat (length x) <= 2 ^ Z.of_nat (Z.to_nat i))
      by (intros x Hx; destruct W as [_ W]; by eapply W).
    split.
    + apply pools_wf_insert; [done|]. intros x Hx. apply Hb.
      apply list_elem_of_lookup in Hx as [j Hj]. cbn in Hj.
      destruct (decide (j < k)%nat).
      * rewrite list_lookup_delete_lt in Hj by done. by eapply list_elem_of_lookup_2.
      * rewrite list_lookup_delete_ge in Hj by lia. by eapply list_elem_of_lookup_2.
    + rewrite Z2Nat.id in Hb by lia. apply Hb. by eapply list_elem_of_lookup_2.
  - do 2 eexists. split; [done|]. split; [done|].
    rewrite length_replicate, Z.shiftl_1_l, Z2Nat.id by (apply Z.pow_nonneg; lia). done.
Qed.

(** A slice of length [size]: the array is at least as long, and at most twice
    as long for the pooled sizes. *)
Definition slice_for (size : Z) (b : list byte) (n : Z) : Prop :=
  n = size /\ size <= Z.of_nat (length b) <= Z.max minsize (2 * size).

Lemma make_ok size : 0 <= size -> exists b, make size = Ret b /\ Z.of_nat (length b) = size.
Proof.
  intros H. unfold make. rewrite decide_False by lia. eexists. split; [done|].
  rewrite length_replicate. lia.
Qed.

Lemma Get_ok size c ps : pools_wf ps -> 0 <= size ->
  exists b n ps', Get size c ps = Ret (b, n, ps') /\ slice_for size b n /\ pools_wf ps'.
Proof.
  intros W Hs. assert (Em : minsize = 64) by done. assert (EM : maxsize = 65536) by done. unfold Get.
  destruct (decide _) as [Hr|Hr].
  2:{ destruct (make_ok size Hs) as (b & -> & Hb). cbn. do 3 eexists. split; [done|].
      split; [split; [done|lia]|done]. }
  destruct (GetBiggerClosestN_spec size) as (n & En & Hn & Hle & Hmin); [lia|].
  destruct (class_in_range size) as (n' & En' & Hlt & _); [lia|].
  rewrite En in En'. injection En' as <-. rewrite En. cbn [mbind res_bind].
  set (i := if decide (n < _) then _ else _).
  assert (Hi : 0 <= i < Z.of_nat num /\ 6 <= i /\ 2 ^ i <= Z.max 64 (2 * size)).
  { unfold i. change (Z.of_nat minsizePower) with 6 in *. change (Z.of_nat num) with 17 in *.
    case_decide; [change (2 ^ 6) with 64; lia|]. split; [lia|]. split; [lia|].
    specialize (Hmin (n - 1) ltac:(lia)).
    replace n with (Z.succ (n - 1)) at 1 by lia. rewrite Z.pow_succ_r by lia. lia. }
  clearbody i. destruct Hi as (Hi & H6 & Hp).
  destruct (pool_take_ok i c ps W Hi H6) as (b & ps' & -> & W' & Hb). cbn [mbind res_bind].
  destruct (decide _).
  - destruct (make_ok size Hs) as (b' & -> & Hb'). cbn. do 3 eexists. split; [done|].
    split; [split; [done|lia]|done].
  - do 3 eexists. split; [done|]. split; [split; [done|lia]|done].
Qed.

Lemma Put_ok b ps : pools_wf ps -> exists ps', Put b ps = Ret ps' /\ pools_wf ps'.
Proof.
  intros W. unfold Put. destruct (decide _) as [|Hr]; [by eauto|].
  assert (Em : minsize = 64) by done.
  destruct (class_in_range (Z.of_nat (length b))) as (n & -> & Hlt & Hle & Hn); [lia|].
  cbn [mbind res_bind]. set (i := if decide (n < _) then _ else _).
  assert (Hi : Z.of_nat (length b) <= 2 ^ i /\ 0 <= i < Z.of_nat num).
  { unfold i. change (Z.of_nat minsizePower) with 6. change (Z.of_nat num) with 17 in *.
    case_decide; [|done]. split; [|lia]. assert (2 ^ n <= 2 ^ 6) by (apply Z.pow_le_mono_r; lia). lia. }
  clearbody i. rewrite decide_True by lia. unfold index.
  destruct (lookup_lt_is_Some_2 ps (Z.to_nat i)) as [l El]; [destruct W as [-> _]; lia|].
  rewrite El. cbn. eexists. split; [done|]. apply pools_wf_insert; [done|].
  intros x Hx. rewrite Z2Nat.id by lia. apply list_elem_of_In in Hx. destruct Hx as [<-|Hx]; [lia|].
  apply list_elem_of_In in Hx. destruct W as [_ W]. specialize (W _ _ _ El Hx).
  by rewrite Z2Nat.id in W by lia.
Qed.

(** * Sequences of operations *)

Inductive pool_op :=
  | PGet (size : Z) (c : option nat) | PGetFullCap (size : Z) (c : option nat)
  | PGetZero (size : Z) (c : option nat) | PPut (b : list byte).

Definition pool_step (o : pool_op) (ps : pools) : res (option (list byte * Z) * pools) :=
  match o with
  | PGet s c => '(b, n, ps) ← Get s c ps; Ret (Some (b, n), ps)
  | PGetFullCap s c => '(b, n, ps) ← GetFullCap s c ps; Ret (Some (b, n), ps)
  | PGetZero s c => '(b, n, ps) ← GetZero s c ps; Ret (Some (b, n), ps)
  | PPut b => ps ← Put b ps; Ret (None, ps)
  end.

Fixpoint pool_run (ops : list pool_op) (ps : pools) : res (list (option (list byte * Z)) * pools) :=
  match ops with
  | [] => Ret ([], ps)
  | o :: ops => '(r, ps) ← pool_step o ps; '(rs, ps) ← pool_run ops ps; Ret (r :: rs, ps)
  end.

Definition pool_op_ok (o : pool_op) : Prop :=
  match o with PGet s _ | PGetFullCap s _ | PGetZero s _ => 0 <= s | PPut _ => True end.

(** What the caller obtains. *)
Definition pool_res_ok (o : pool_op) (r : option (list byte * Z)) : Prop :=
  match o, r with
  | PGet s _, Some (b, n) => slice_for s b n
  | PGetFullCap s _, Some (b, n) => slice_for s b s /\ n = Z.of_nat (length b)
  | PGetZero s _, Some (b, n) => slice_for s b n /\ Forall (fun x => x = x00) (take (Z.to_nat s) b)
  | PPut _, None => True
  | _, _ => False
  end.

Lemma pool_step_ok o ps : pools_wf ps -> pool_op_ok o ->
  exists r ps', pool_step o ps = Ret (r, ps') /\ pool_res_ok o r /\ pools_wf ps'.
Proof.
  intros W Ho. destruct o as [s c|s c|s c|b]; cbn [pool_step].
  4:{ destruct (Put_ok b ps W) as (ps' & -> & ?). cbn. eauto. }
  all: unfold GetFullCap, GetZero; destruct (Get_ok s c ps W Ho) as (b & n & ps' & -> & S & ?);
    cbn [mbind res_bind]; do 2 eexists; (split; [done|]); (split; [|done]); cbn.
  - done.
  - split; [|done]. by destruct S as [-> S].
  - destruct S as [-> S]. split.
    + split; [done|]. rewrite length_app, length_replicate, length_drop. cbn in Ho. lia.
    + rewrite take_app_le by (rewrite length_replicate; lia).
      apply Forall_take, Forall_replicate. done.
Qed.



(** * The pool of serialization buffers *)

Definition maxBufferPoolLen : nat := 256.

(** [bufferPoolT]: the LIFO stack, its top at the head. *)
Definition bufferPoolT := list Buffer.

Definition newBufferPool : bufferPoolT := replicate (maxBufferPoolLen / 4) NewBuffer_nil.

Definition bufferPool_Get (p : bufferPoolT) : Buffer * bufferPoolT :=
  match p with b :: p => (b, p) | [] => (NewBuffer_nil, []) end.

Definition bufferPool_Put (b : Buffer) (p : bufferPoolT) : bufferPoolT :=
  if decide (maxBufferPoolLen <= length p)%nat then p else b :: p.

Definition GetBuffer (p : bufferPoolT) : Buffer * bufferPoolT := bufferPool_Get p.

Definition PutBuffer (b : Buffer) (p : bufferPoolT) : bufferPoolT :=
  if decide (Buffer_Cap b > 32 * 1024) then p else bufferPool_Put (Buffer_Reset b) p.

(** A history: buffers taken, and buffers in any state given back. *)
Inductive bp_op := BGet | BPut (b : Buffer).

Fixpoint bp_run (ops : list bp_op) (p : bufferPoolT) : list Buffer * bufferPoolT :=
  match ops with
  | [] => ([], p)
  | BGet :: ops => let '(b, p) := GetBuffer p in let '(bs, p) := bp_run ops p in (b :: bs, p)
  | BPut b :: ops => bp_run ops (PutBuffer b p)
  end.

(** A buffer ready for use. *)
Definition fresh (b : Buffer) : Prop := buf_wf b /\ abs b = MkAbs [] [] opInvalid.

Definition bp_wf (p : bufferPoolT) : Prop :=
  (length p <= maxBufferPoolLen)%nat /\ Forall (fun b => fresh b /\ Buffer_Cap b <= 32 * 1024) p.

Definition bp_op_ok (o : bp_op) : Prop := match o with BGet => True | BPut b => buf_wf b end.

Definition retained (p : bufferPoolT) : Z := foldr (fun b n => Buffer_Cap b + n) 0 p.

Lemma fresh_nil : fresh NewBuffer_nil.
Proof. split; [split; cbn; [lia|unfold bcap; cbn; lia|done]|done]. Qed.

Lemma PutBuffer_wf b p : buf_wf b -> bp_wf p -> bp_wf (PutBuffer b p).
Proof.
  intros Hb [Hl Hf]. unfold PutBuffer, bufferPool_Put. case_decide; [done|]. case_decide; [done|].
  split; [cbn; lia|]. apply Forall_cons_2; [|done]. split; [|change (Buffer_Cap (Buffer_Reset b)) with (Buffer_Cap b); lia].
  split; [by apply wf_reset|done].
Qed.

Lemma retained_bound p : bp_wf p -> retained p <= Z.of_nat maxBufferPoolLen * (32 * 1024).
Proof.
  intros [Hl Hf]. assert (retained p <= Z.of_nat (length p) * (32 * 1024)); [|lia]. clear Hl.
  induction Hf as [|b p [_ Hb] _ IH]; cbn [retained foldr length]; [lia|]. unfold retained in IH. lia.
Qed.

(** However buffers are taken and given back (in any state), every buffer
    [GetBuffer] hands out is empty, without undo state and well formed, and
    the pool never retains more than 256 buffers or 8 MiB. *)
Theorem buffer_pool_bounded ops : Forall bp_op_ok ops ->
  let '(bs, p) := bp_run ops newBufferPool in
  Forall fresh bs /\ (length p <= maxBufferPoolLen)%nat /\ retained p <= 8 * 1024 * 1024.
Proof.
  assert (G : forall p, bp_wf p -> Forall bp_op_ok ops ->
    Forall fresh (bp_run ops p).1 /\ bp_wf (bp_run ops p).2).
  { induction ops as [|[|b] ops IH]; intros p W Ho; cbn [bp_run]; [done| |];
      apply Forall_cons in Ho as [Ho Hs].
    - destruct p as [|b p]; cbn.
      + pose proof (IH [] W Hs) as I. destruct (bp_run ops []) as [bs p]. cbn in *.
        split; [apply Forall_cons_2; [apply fresh_nil|]|]; apply I.
      + destruct W as [Hl Hf]. apply Forall_cons in Hf as [[Hb _] Hf]. cbn in Hl.
        pose proof (IH p ltac:(split; [lia|done]) Hs) as I. destruct (bp_run ops p) as [bs p']. cbn in *.
        split; [apply Forall_cons_2; [done|]|]; apply I.
    - apply IH; [|done]. by apply PutBuffer_wf. }
  intros Ho. assert (W : bp_wf newBufferPool).
  { split; [unfold newBufferPool; rewrite length_replicate; cbv; lia|].
    apply Forall_replicate. split; [apply fresh_nil|done]. }
  destruct (G _ W Ho) as [G1 G2]. destruct (bp_run ops newBufferPool) as [bs p]. cbn in *.
  split; [done|]. split; [apply G2|]. apply retained_bound in G2. exact G2.
Qed.

Lemma buffer_pool_bounded_witness :
  let '(bs, p) := bp_run [BGet; BPut demo_buf; BGet] newBufferPool in
  Forall fresh bs /\ (length p <= maxBufferPoolLen)%nat /\ retained p <= 8 * 1024 * 1024.
Proof.
  apply (buffer_pool_bounded [BGet; BPut demo_buf; BGet]).
  repeat apply Forall_cons_2; try apply Forall_nil_2; try done. apply demo_buf_wf.
Defined.

(** * What the pool promises to its clients *)

(** A source of scratch slices: a slice of the requested length with any
    contents. *)
Class BufferSource := {
  src_get : nat -> list byte;
  src_length : forall n, length (src_get n) = n;
}.

(** The pool in any well-formed state, with any choice of [sync.Pool], is one. *)
Section pool_source.
Context (ps : pools) (W : pools_wf ps) (c : option nat).

Definition pool_slice (n : nat) : list byte :=
  match Get (Z.of_nat n) c ps with Ret (b, k, _) => take (Z.to_nat k) b | _ => [] end.

Lemma pool_slice_length n : length (pool_slice n) = n.
Proof.
  unfold pool_slice. destruct (Get_ok (Z.of_nat n) c ps W ltac:(lia)) as (b & k & ps' & -> & [-> Hb] & _).
  rewrite length_take. lia.
Qed.

Definition pool_source : BufferSource := {| src_get := pool_slice; src_length := pool_slice_length |}.
End pool_source.
