(* ===== verification/ClientRing.v ===== *)
(** The failover ring of clients shared by TUIC and Juicity
    (protocol/infra/clientring/clientring.go) and the error classes it uses
    (common/errors/errors.go).

    Every operation holds the single permit of the ring, so an operation is one
    step.  What a dial attempt and the construction of a client do to the rest
    of the system (capability reports included) is a transformation of an
    abstract world [W]. *)

From S2P Require Import Prelude.
From Stdlib Require Strings.String.

(** * Errors with identity, message and chain *)

(** [errors.New] values are told apart by [ident]; [unwrap] is the next error of
    the chain. *)
Inductive gerr := GErr (ident : nat) (msg : string) (unwrap : option gerr).

Definition ident_of (e : gerr) : nat := match e with GErr i _ _ => i end.
Definition msg_of (e : gerr) : string := match e with GErr _ m _ => m end.

Definition ErrStreamExhausted : gerr := GErr 0 "too many open streams" None.
Definition ErrClientClosed : gerr := GErr 1 "client closed" None.
Definition ErrOperationHold : gerr := GErr 2 "hold on" None.

(** [errors.Is] *)
Fixpoint errors_Is (e target : gerr) : bool :=
  bool_decide (ident_of e = ident_of target) ||
  match e with GErr _ _ (Some e) => errors_Is e target | _ => false end.

(** [strings.Contains] *)
Definition Contains (s sub : string) : bool :=
  match String.index 0 sub s with Some _ => true | None => false end.

Definition IsStreamExhausted (e : gerr) : bool :=
  if decide (ident_of e = ident_of ErrStreamExhausted) then true
  else Contains (msg_of e) "too many open streams".

Definition IsFailoverError (e : gerr) : bool :=
  IsStreamExhausted e || errors_Is e ErrClientClosed || errors_Is e ErrOperationHold.

(** * The ring *)

(** A list element: its identity (the pointer) and the client of its node. *)
Record Node (T : Type) := MkNode { eid : nat; Client : T }.
Arguments MkNode {T} _ _.
Arguments eid {T} _.
Arguments Client {T} _.

(** [container/list] on elements with identity. *)
Section lists.
Context {T : Type}.
Implicit Types (l : list (Node T)).

Fixpoint elem_Value (i : nat) l : option (Node T) :=
  match l with
  | [] => None
  | n :: l => if decide (eid n = i) then Some n else elem_Value i l
  end.

Fixpoint elem_Next (i : nat) l : option nat :=
  match l with
  | [] => None
  | n :: l => if decide (eid n = i) then eid <$> head l else elem_Next i l
  end.

Definition list_Front l : option nat := eid <$> head l.

Fixpoint InsertAfter (x : Node T) (i : nat) l : list (Node T) :=
  match l with
  | [] => []
  | n :: l => if decide (eid n = i) then n :: x :: l else n :: InsertAfter x i l
  end.

Definition list_Remove (i : nat) l : list (Node T) := filter (fun n => eid n <> i) l.

(** ** Facts about positions *)

Lemma elem_Value_app a n b : eid n ∉ eid <$> a -> elem_Value (eid n) (a ++ n :: b) = Some n.
Proof.
  induction a as [|x a IH]; cbn; intros H; [by rewrite decide_True|].
  apply not_elem_of_cons in H as [H1 H2]. rewrite decide_False by congruence. by apply IH.
Qed.

Lemma elem_Next_app a n b : eid n ∉ eid <$> a -> elem_Next (eid n) (a ++ n :: b) = eid <$> head b.
Proof.
  induction a as [|x a IH]; cbn; intros H; [by rewrite decide_True|].
  apply not_elem_of_cons in H as [H1 H2]. rewrite decide_False by congruence. by apply IH.
Qed.

Lemma InsertAfter_app x a n b : eid n ∉ eid <$> a ->
  InsertAfter x (eid n) (a ++ n :: b) = a ++ n :: x :: b.
Proof.
  induction a as [|y a IH]; cbn; intros H; [by rewrite decide_True|].
  apply not_elem_of_cons in H as [H1 H2]. rewrite decide_False by congruence. by rewrite IH.
Qed.

Lemma list_Remove_app a n b : eid n ∉ eid <$> a -> eid n ∉ eid <$> b ->
  list_Remove (eid n) (a ++ n :: b) = a ++ b.
Proof.
  intros Ha Hb. unfold list_Remove.
  assert (F : forall c : list (Node T), eid n ∉ eid <$> c -> filter (fun m : Node T => eid m <> eid n) c = c).
  { induction c as [|y c IH]; intros H; [done|]. cbn in H. apply not_elem_of_cons in H as [H1 H2].
    rewrite filter_cons_True by congruence. by rewrite IH. }
  rewrite filter_app, F by done. rewrite filter_cons_False by (intros []; done). by rewrite F.
Qed.

Lemma split_at_eid l i : i ∈ eid <$> l -> NoDup (eid <$> l) ->
  exists a n b, l = a ++ n :: b /\ eid n = i /\ i ∉ eid <$> a /\ i ∉ eid <$> b.
Proof.
  intros (n & -> & Hn)%list_elem_of_fmap Hd. apply list_elem_of_split in Hn as (a & b & ->).
  exists a, n, b. rewrite fmap_app, fmap_cons in Hd. apply NoDup_app in Hd as (_ & Hd & Hb).
  apply NoDup_cons in Hb as [Hb _]. split_and!; try done. intros H. apply (Hd _ H). by left.
Qed.
End lists.

Record Ring (T : Type) := MkCR {
  closed : bool; ring : list (Node T); current : option nat; next_id : nat }.
Arguments MkCR {T} _ _ _ _.
Arguments closed {T} _.
Arguments ring {T} _.
Arguments current {T} _.
Arguments next_id {T} _.

Section clientring.
(** The environment: the state of a context, the permit, one dial attempt on a
    node, the construction of a client for an element. *)
Context {T W : Type}.
Context (ctxErr : W -> option gerr) (acquire : W -> W * option gerr).
Context (attempt : Node T -> W -> W * option gerr) (newClient : nat -> W -> W * T).
Implicit Types (r : Ring T) (w : W).

Definition New : Ring T := MkCR false [] None 0.

Definition insertAfterCurrent (node : Node T) r : nat * Ring T :=
  match current r with
  | None => (eid node, MkCR (closed r) (ring r ++ [node]) (Some (eid node)) (S (eid node)))
  | Some c => (eid node, MkCR (closed r) (InsertAfter node c (ring r)) (current r) (S (eid node)))
  end.

Definition set_current r (c : option nat) : Ring T := MkCR (closed r) (ring r) c (next_id r).

(** The outcome of a walk: the world, the ring, [*current] and the error. *)
Definition walk_result : Type := W * Ring T * option nat * option gerr.

(** The label [getNew] *)
Definition getNew (cur : option nat) w r : walk_result :=
  match ctxErr w with
  | Some e => (w, r, cur, Some e)
  | None =>
      if closed r then (w, r, cur, Some ErrClientClosed) else
      let '(w, cli) := newClient (next_id r) w in
      let node := MkNode (next_id r) cli in
      let '(elem, r) := insertAfterCurrent node r in
      let r := set_current r (Some elem) in
      let '(w, e) := attempt node w in
      (w, r, Some elem, e)
  end.

(** [tryNext]; the fuel bounds the recursion around the ring. *)
Fixpoint tryNext (fuel : nat) (cur : option nat) w r : res walk_result :=
  match fuel with
  | O => Panic
  | S fuel =>
      match ctxErr w with
      | Some e => Ret (w, r, cur, Some e)
      | None =>
          match cur with
          | None => Ret (getNew cur w r)
          | Some i =>
              match elem_Value i (ring r) with
              | None => Panic
              | Some node =>
                  match attempt node w with
                  | (w, None) => Ret (w, r, cur, None)
                  | (w, Some e) =>
                      match ctxErr w with
                      | Some _ => Ret (w, r, cur, Some e)
                      | None =>
                          let nxt := match elem_Next i (ring r) with
                                     | Some j => Some j
                                     | None => list_Front (ring r)
                                     end in
                          if decide (nxt = current r) then
                            if IsFailoverError e then Ret (getNew nxt w r)
                            else Ret (w, r, nxt, Some e)
                          else tryNext fuel nxt w r
                      end
                  end
              end
          end
      end
  end.

Definition TryNextContext w r : res (W * Ring T * option gerr) :=
  match acquire w with
  | (w, Some e) => Ret (w, r, Some e)
  | (w, None) =>
      if closed r then Ret (w, r, Some ErrClientClosed) else
      '(w, r, newCurrent, e) ← tryNext (S (length (ring r))) (current r) w r;
      Ret (w, set_current r newCurrent, e)
  end.

(** [elem.Value == nil] once removed: the element is no longer in the list. *)
Definition passiveRemove (i : nat) r : Ring T :=
  match elem_Value i (ring r) with
  | None => r
  | Some _ =>
      let c := if decide (current r = Some i) then elem_Next i (ring r) else current r in
      MkCR (closed r) (list_Remove i (ring r)) c (next_id r)
  end.

Definition Ring_Len r : nat := length (ring r).

(** [Close]: the clients on which [r.close] is then called, in order. *)
Definition Ring_Close r : list T * Ring T :=
  (Client <$> ring r, MkCR true [] None (next_id r)).

(** * Invariant *)

Record cr_wf r : Prop := {
  cw_nodup : NoDup (eid <$> ring r);
  cw_fresh : Forall (fun n => (eid n < next_id r)%nat) (ring r);
  cw_current : forall i, current r = Some i -> i ∈ eid <$> ring r;
  cw_closed : closed r = true -> ring r = [];
}.

Lemma New_wf : cr_wf New.
Proof. split; cbn; [constructor|constructor|done|done]. Qed.

Lemma fresh_notin r : cr_wf r -> next_id r ∉ eid <$> ring r.
Proof.
  intros H (n & E & Hn)%list_elem_of_fmap. pose proof (cw_fresh r H) as F.
  rewrite Forall_forall in F. specialize (F n Hn). lia.
Qed.

Lemma insertAfter_perm (x : Node T) r : cr_wf r -> ring (insertAfterCurrent x r).2 ≡ₚ x :: ring r.
Proof.
  intros H. unfold insertAfterCurrent. destruct (current r) as [c|] eqn:Ec; cbn [snd ring].
  - destruct (split_at_eid (ring r) c) as (a & n & b & E & <- & Ha & _);
      [by apply (cw_current r H)|apply H|].
    rewrite E, InsertAfter_app by done.
    rewrite <- (Permutation_middle a (x :: b) n), <- (Permutation_middle a b x), <- (Permutation_middle a b n).
    constructor.
  - by rewrite <- Permutation_cons_append.
Qed.

Lemma insert_wf cli r : cr_wf r -> closed r = false ->
  let x := MkNode (next_id r) cli in
  cr_wf (set_current (insertAfterCurrent x r).2 (Some (next_id r))).
Proof.
  intros H Hc x. pose proof (insertAfter_perm x r H) as P.
  assert (N : next_id (insertAfterCurrent x r).2 = S (next_id r)) by (unfold insertAfterCurrent; by destruct (current r)).
  assert (C : closed (insertAfterCurrent x r).2 = closed r) by (unfold insertAfterCurrent; by destruct (current r)).
  split; cbn [ring current next_id closed set_current].
  - rewrite P. cbn. apply NoDup_cons. split; [by apply fresh_notin|apply H].
  - rewrite N, P. apply Forall_cons. split; [cbn; lia|]. eapply Forall_impl; [apply H|]. cbn. lia.
  - intros i [= <-]. rewrite P. by left.
  - rewrite C, Hc. done.
Qed.

(** What [getNew] does: nothing when the context has ended or the ring is
    closed; otherwise one new client joins the ring and is current. *)
Lemma getNew_ok cur w r : cr_wf r -> (cur = None \/ cur = current r) ->
  let '(w', r', cur', e) := getNew cur w r in
  cr_wf (set_current r' cur') /\
  ((r' = r /\ cur' = cur /\ e <> None) \/
   (closed r = false /\ exists x, ring r' ≡ₚ x :: ring r /\ cur' = Some (eid x) /\ eid x = next_id r /\
      closed r' = closed r /\ next_id r' = S (next_id r))).
Proof.
  intros H Hcur. unfold getNew.
  assert (W0 : cr_wf (set_current r cur)).
  { split; cbn; try apply H. destruct Hcur as [->| ->]; [done|apply H]. }
  destruct (ctxErr w); [by auto|]. destruct (closed r) eqn:Ec; [by auto|].
  destruct (newClient (next_id r) w) as [w1 cli]. pose proof (insert_wf cli r H Ec) as Wn.
  pose proof (insertAfter_perm (MkNode (next_id r) cli) r H) as P. cbn in Wn.
  assert (I : (insertAfterCurrent (MkNode (next_id r) cli) r).1 = next_id r /\
    closed (insertAfterCurrent (MkNode (next_id r) cli) r).2 = closed r /\
    next_id (insertAfterCurrent (MkNode (next_id r) cli) r).2 = S (next_id r))
    by (unfold insertAfterCurrent; by destruct (current r)).
  destruct (insertAfterCurrent _ r) as [i r1]. cbn in I, P, Wn. destruct I as (-> & Ic & In).
  destruct (attempt _ w1) as [w2 e]. split; [done|]. right. split; [done|].
  exists (MkNode (next_id r) cli). rewrite <- Ec. done.
Qed.

(** * The walk as a scan of the rotation that starts at the current client *)

Inductive scan := Served (i : nat) | Cancelled (i : nat) (e : gerr) | Exhausted (e : gerr).

(** Try the clients in order until one serves or the context ends. *)
Fixpoint scan_ring (l : list (Node T)) (err : gerr) w : W * scan :=
  match l with
  | [] => (w, Exhausted err)
  | n :: l =>
      match ctxErr w with
      | Some e => (w, Cancelled (eid n) e)
      | None =>
          match attempt n w with
          | (w, None) => (w, Served (eid n))
          | (w, Some e) =>
              match ctxErr w with
              | Some _ => (w, Cancelled (eid n) e)
              | None => scan_ring l e w
              end
          end
      end
  end.

Fixpoint pos_of (i : nat) (l : list (Node T)) : nat :=
  match l with
  | [] => 0
  | n :: l => if decide (eid n = i) then 0 else S (pos_of i l)
  end.

(** The clients from the current one on, wrapping around. *)
Definition rotation r : list (Node T) :=
  match current r with
  | None => []
  | Some c => let k := pos_of c (ring r) in drop k (ring r) ++ take k (ring r)
  end.

Lemma pos_of_app a n b : eid n ∉ eid <$> a -> pos_of (eid n) (a ++ n :: b) = length a.
Proof.
  induction a as [|x a IH]; cbn; intros H; [by rewrite decide_True|].
  apply not_elem_of_cons in H as [H1 H2]. rewrite decide_False by congruence. by rewrite IH.
Qed.

Lemma rotation_split r c : cr_wf r -> current r = Some c ->
  exists a n b, ring r = a ++ n :: b /\ eid n = c /\ rotation r = n :: b ++ a.
Proof.
  intros H Hc. destruct (split_at_eid (ring r) c) as (a & n & b & E & <- & Ha & _);
    [by apply (cw_current r H)|apply H|].
  exists a, n, b. split; [done|]. split; [done|]. unfold rotation. rewrite Hc, E, pos_of_app by done.
  by rewrite drop_app_length, take_app_length.
Qed.

(** The step of the walk follows the rotation and ends where it began. *)
Definition cyc_next (i : nat) r : option nat :=
  match elem_Next i (ring r) with Some j => Some j | None => list_Front (ring r) end.

Lemma NoDup_mid (l : list (Node T)) a x b : NoDup (eid <$> l) -> l = a ++ x :: b -> eid x ∉ eid <$> a.
Proof.
  intros H ->. rewrite fmap_app, fmap_cons in H. apply NoDup_app in H as (_ & H & _).
  intros Ha. apply (H _ Ha). by left.
Qed.

(** Before the rotation wraps: [x] is in the ring ahead of the current client. *)
Lemma next_before l (a b k post : list (Node T)) n x :
  NoDup (eid <$> l) -> l = a ++ n :: b -> a = k ++ x :: post ->
  elem_Next (eid x) l = Some (match post with y :: _ => eid y | [] => eid n end).
Proof.
  intros ND E ->. rewrite <- app_assoc in E. cbn in E. pose proof (NoDup_mid _ _ _ _ ND E).
  subst l. rewrite elem_Next_app by done. by destruct post.
Qed.

Lemma cyc_next_rotation r c pre x post : cr_wf r -> current r = Some c ->
  rotation r = pre ++ x :: post ->
  cyc_next (eid x) r = match post with y :: _ => Some (eid y) | [] => Some c end.
Proof.
  intros H Hc Hr. destruct (rotation_split r c H Hc) as (a & n & b & E & <- & Er).
  pose proof (cw_nodup r H) as ND. unfold cyc_next, list_Front. rewrite Er in Hr.
  apply (app_eq_inv (n :: b) a pre (x :: post)) in Hr as [(k & E1 & E2)|(k & E1 & E2)].
  - destruct k as [|x' k]; cbn in E2.
    + rewrite (next_before _ a b [] post n x ND E) by done. by destruct post.
    + injection E2 as <- ->. rewrite E1, app_assoc in E. pose proof (NoDup_mid _ _ _ _ ND E).
      rewrite E, elem_Next_app by done. destruct k as [|y k]; [|done]. cbn.
      destruct a as [|y a]; [|done]. cbn. by rewrite <- E1.
  - rewrite (next_before _ a b k post n x ND E) by done. by destruct post.
Qed.

Lemma rotation_Value r c x : cr_wf r -> current r = Some c -> x ∈ rotation r ->
  elem_Value (eid x) (ring r) = Some x.
Proof.
  intros H Hc Hx. destruct (rotation_split r c H Hc) as (a & n & b & E & _ & Er).
  assert (Hx' : x ∈ ring r).
  { rewrite E. rewrite Er in Hx. set_solver. }
  apply list_elem_of_split in Hx' as (a' & b' & E'). rewrite E'. apply elem_Value_app.
  by eapply NoDup_mid; [apply H|].
Qed.

Lemma rotation_NoDup r c : cr_wf r -> current r = Some c -> NoDup (eid <$> rotation r).
Proof.
  intros H Hc. destruct (rotation_split r c H Hc) as (a & n & b & E & _ & ->).
  assert (P : n :: b ++ a ≡ₚ ring r) by (rewrite E, <- Permutation_middle; by rewrite Permutation_app_comm).
  rewrite P. apply H.
Qed.

(** The outcome of a scan, as the code returns it. *)
Definition scan_result (c : nat) r (s : W * scan) : walk_result :=
  match s with
  | (w, Served i) => (w, r, Some i, None)
  | (w, Cancelled i e) => (w, r, Some i, Some e)
  | (w, Exhausted e) => if IsFailoverError e then getNew (Some c) w r else (w, r, Some c, Some e)
  end.

Lemma tryNext_scan r c pre x post fuel err w : cr_wf r -> current r = Some c ->
  rotation r = pre ++ x :: post -> (length post < fuel)%nat ->
  tryNext fuel (Some (eid x)) w r = Ret (scan_result c r (scan_ring (x :: post) err w)).
Proof.
  intros H Hc. revert pre x fuel err w. induction post as [|y post IH]; intros pre x fuel err w Hr Hf;
    (destruct fuel as [|fuel]; [lia|]); cbn [tryNext scan_ring].
  all: destruct (ctxErr w); [done|].
  all: rewrite (rotation_Value r c) by (done || (rewrite Hr; apply elem_of_app; right; by left)).
  all: destruct (attempt x w) as [w1 [e|]]; [|done]; destruct (ctxErr w1) eqn:Ew; [done|].
  all: fold (cyc_next (eid x) r); rewrite (cyc_next_rotation r c pre x _ H Hc Hr), Hc.
  - rewrite decide_True by done. cbn. by destruct (IsFailoverError e).
  - rewrite decide_False.
    + rewrite (IH (pre ++ [x]) y fuel e w1); [cbn [scan_ring]; by rewrite Ew|by rewrite <- app_assoc|cbn in Hf; lia].
    + intros [= E]. pose proof (rotation_NoDup r c H Hc) as ND.
      destruct (rotation_split r c H Hc) as (a & n & b & _ & En & Er).
      rewrite Hr in ND. rewrite Er in Hr. destruct pre as [|n' pre]; cbn in Hr; injection Hr as <- Hr.
      * cbn in ND. apply NoDup_cons in ND as [ND _]. apply ND. rewrite En, <- E. by left.
      * cbn in ND. apply NoDup_cons in ND as [ND _]. apply ND. rewrite En, <- E.
        rewrite fmap_app. apply elem_of_app. right. right. by left.
Qed.

Lemma scan_no_exhausted_err l e1 e2 w : l <> [] -> scan_ring l e1 w = scan_ring l e2 w.
Proof. by destruct l. Qed.


(** * Histories *)

(** Operations of any goroutines, in the order in which they obtain the permit;
    [EnvOp] is any change of the surrounding world in between. *)
Inductive cr_op := TryOp | RemoveOp (i : nat) | CloseOp | EnvOp (f : W -> W).

(** The last component lists the elements whose client left the ring. *)
Definition cr_step (o : cr_op) w r : res (W * Ring T * list nat) :=
  match o with
  | TryOp => '(w, r, _) ← TryNextContext w r; Ret (w, r, [])
  | RemoveOp i =>
      Ret (w, passiveRemove i r, match elem_Value i (ring r) with Some _ => [i] | None => [] end)
  | CloseOp => Ret (w, (Ring_Close r).2, eid <$> ring r)
  | EnvOp f => Ret (f w, r, [])
  end.

Fixpoint cr_run (ops : list cr_op) w r : res (W * Ring T * list nat) :=
  match ops with
  | [] => Ret (w, r, [])
  | o :: ops =>
      '(w, r, g) ← cr_step o w r;
      '(w, r, gs) ← cr_run ops w r;
      Ret (w, r, g ++ gs)
  end.

Lemma elem_Value_Some i (l : list (Node T)) n : elem_Value i l = Some n -> i ∈ eid <$> l.
Proof.
  induction l as [|x l IH]; cbn; [done|]. case_decide as E; intros H; [rewrite <- E; by left|].
  right. by apply IH.
Qed.

Lemma elem_Next_in i (l : list (Node T)) j : elem_Next i l = Some j -> j ∈ eid <$> l.
Proof.
  induction l as [|x l IH]; cbn; [done|]. case_decide as E; intros H; [|right; by apply IH].
  right. destruct l as [|y l]; [done|]. injection H as <-. by left.
Qed.

Lemma passiveRemove_ok i r n : cr_wf r -> elem_Value i (ring r) = Some n ->
  cr_wf (passiveRemove i r) /\ eid <$> ring r ≡ₚ i :: (eid <$> ring (passiveRemove i r)) /\
  next_id (passiveRemove i r) = next_id r /\ closed (passiveRemove i r) = closed r.
Proof.
  intros H E. unfold passiveRemove. rewrite E. cbn [ring next_id closed].
  destruct (split_at_eid (ring r) i) as (a & x & b & Er & <- & Ha & Hb);
    [by eapply elem_Value_Some|apply H|].
  assert (P : eid <$> ring r ≡ₚ eid x :: (eid <$> list_Remove (eid x) (ring r))).
  { rewrite Er, list_Remove_app, !fmap_app, fmap_cons by done. by rewrite <- Permutation_middle. }
  split; [|done]. split; cbn [ring next_id closed current].
  - pose proof (cw_nodup r H) as ND. rewrite P in ND. by apply NoDup_cons in ND as [_ ND].
  - rewrite Er, list_Remove_app by done. pose proof (cw_fresh r H) as F. rewrite Er in F.
    apply Forall_app in F as [Fa [_ Fb]%Forall_cons]. by apply Forall_app.
  - intros j Hj. assert (j ∈ eid <$> ring r /\ j <> eid x) as [Hj1 Hj2].
    { case_decide as Hd.
      - split; [by eapply elem_Next_in|]. rewrite Er, elem_Next_app in Hj by done.
        destruct b as [|y b]; [done|]. injection Hj as <-. intros Hx. apply Hb. rewrite <- Hx. by left.
      - split; [by apply (cw_current r H)|]. congruence. }
    rewrite P in Hj1. by apply elem_of_cons in Hj1 as [|].
  - intros Hc. by rewrite (cw_closed r H Hc).
Qed.

Lemma set_current_wf r i : cr_wf r -> i ∈ eid <$> ring r -> cr_wf (set_current r (Some i)).
Proof. intros [] Hi. split; cbn; try done. by intros j [= <-]. Qed.

Lemma scan_in_ring l err w : forall w' s, scan_ring l err w = (w', s) ->
  match s with Served i | Cancelled i _ => i ∈ eid <$> l | Exhausted _ => True end.
Proof.
  revert err w. induction l as [|n l IH]; intros err w w' s; cbn [scan_ring]; [by intros [= <- <-]|].
  destruct (ctxErr w); [intros [= <- <-]; by left|].
  destruct (attempt n w) as [w1 [e|]]; [|intros [= <- <-]; by left].
  destruct (ctxErr w1); [intros [= <- <-]; by left|].
  intros Hs. specialize (IH _ _ _ _ Hs). destruct s; [by right..|done].
Qed.

(** The part of the history that a dial attempt can change. *)
Definition kept_or_grown r r' : Prop :=
  closed r' = closed r /\
  ((eid <$> ring r' ≡ₚ eid <$> ring r /\ next_id r' = next_id r) \/
   (eid <$> ring r' ≡ₚ next_id r :: (eid <$> ring r) /\ next_id r' = S (next_id r))).

Lemma getNew_kept cur w r : cr_wf r -> (cur = None \/ cur = current r) ->
  let '(w', r', cur', e) := getNew cur w r in
  cr_wf (set_current r' cur') /\ kept_or_grown r (set_current r' cur').
Proof.
  intros H Hc. pose proof (getNew_ok cur w r H Hc) as G.
  destruct (getNew cur w r) as [[[w' r'] cur'] e]. destruct G as [G1 G]. split; [done|].
  destruct G as [(-> & _)|(_ & x & P & _ & Ex & Hcl & Hn)]; (split; [done|]); [by left|right].
  cbn. rewrite P. cbn. by rewrite Ex.
Qed.

Lemma TryNext_ok w r : cr_wf r -> exists w' r' e, TryNextContext w r = Ret (w', r', e) /\
  cr_wf r' /\ kept_or_grown r r'.
Proof.
  intros H. unfold TryNextContext. destruct (acquire w) as [w1 [e|]].
  { do 3 eexists. split; [done|]. split; [done|]. split; [done|by left]. }
  destruct (closed r) eqn:Hcl.
  { do 3 eexists. split; [done|]. split; [done|]. split; [done|by left]. }
  destruct (current r) as [c|] eqn:Hc.
  - destruct (rotation_split r c H Hc) as (a & n & b & E & En & Er).
    pose proof (tryNext_scan r c [] n (b ++ a) (S (length (ring r))) ErrClientClosed w1 H Hc Er) as Ht.
    rewrite En in Ht. rewrite Ht by (rewrite E, !length_app; cbn; lia). clear Ht.
    rewrite <- Er. cbn [mbind res_bind]. destruct (scan_ring _ _ _) as [w2 s] eqn:Es. pose proof (scan_in_ring _ _ _ _ _ Es) as Hi.
    assert (P : eid <$> rotation r ≡ₚ eid <$> ring r).
    { rewrite Er, E. apply fmap_Permutation. rewrite <- Permutation_middle. by rewrite Permutation_app_comm. }
    destruct s as [i|i e|e]; cbn [scan_result].
    1,2: do 3 eexists; (split; [reflexivity|]); rewrite P in Hi; (split; [by apply set_current_wf|]); split; [done|by left].
    destruct (IsFailoverError e).
    + pose proof (getNew_kept (Some c) w2 r H ltac:(right; done)) as G.
      destruct (getNew (Some c) w2 r) as [[[w' r'] c'] e']. do 3 eexists. split; [reflexivity|done].
    + do 3 eexists. split; [reflexivity|]. split; [|split; [done|by left]].
      apply set_current_wf; [done|]. by apply (cw_current r H).
  - cbn [tryNext]. destruct (ctxErr w1) as [x|]; cbn [mbind res_bind].
    + do 3 eexists. split; [reflexivity|]. split; [by rewrite <- Hc; destruct H; split|]. split; [done|by left].
    + pose proof (getNew_kept None w1 r H ltac:(left; done)) as G.
      destruct (getNew None w1 r) as [[[w' r'] c'] e']. do 3 eexists. split; [reflexivity|done].
Qed.

Lemma cr_step_ok o w r : cr_wf r -> exists w' r' g, cr_step o w r = Ret (w', r', g) /\ cr_wf r' /\
  (closed r = true \/ o = CloseOp -> closed r' = true) /\
  forall gone, seq 0 (next_id r) ≡ₚ (eid <$> ring r) ++ gone ->
    seq 0 (next_id r') ≡ₚ (eid <$> ring r') ++ g ++ gone.
Proof.
  intros H. destruct o as [|i| |f]; cbn [cr_step].
  - destruct (TryNext_ok w r H) as (w' & r' & e & -> & W' & Hcl & Hk). cbn [mbind res_bind].
    do 3 eexists. split; [done|]. split; [done|]. split; [rewrite Hcl; intros [|]; done|].
    intros gone Hg. cbn. destruct Hk as [[P ->]|[P ->]]; rewrite P; [done|].
    rewrite seq_S, Hg. cbn. by rewrite <- Permutation_cons_append.
  - do 3 eexists. split; [done|]. destruct (elem_Value i (ring r)) as [n|] eqn:E.
    + destruct (passiveRemove_ok i r n H E) as (W' & P & -> & ->). split; [done|].
      split; [intros [|]; done|]. intros gone Hg. rewrite Hg, P. cbn. by rewrite Permutation_middle.
    + unfold passiveRemove. rewrite E. split; [done|]. split; [intros [|]; done|]. done.
  - do 3 eexists. split; [done|]. split; [split; cbn; constructor || done|]. split; [done|].
    intros gone Hg. cbn. by rewrite Hg.
  - do 3 eexists. split; [done|]. split; [done|]. split; [intros [|]; done|]. done.
Qed.

(** In every history of attempts, passive removals and closes on a new
    ring, in any interleaving with changes of the world, no operation panics,
    the current client is in the ring, and every client ever created is
    accounted for exactly once: it is in the ring, or it left through its own
    close hook or through [Close].  Once [Close] has run the ring stays closed
    and empty, so no client can be left behind. *)
Theorem client_ring_conserves ops w :
  exists w' r' gone, cr_run ops w New = Ret (w', r', gone) /\ cr_wf r' /\
    seq 0 (next_id r') ≡ₚ (eid <$> ring r') ++ gone /\
    (CloseOp ∈ ops -> closed r' = true /\ ring r' = []).
Proof.
  assert (G : forall r w, cr_wf r -> exists w' r' g, cr_run ops w r = Ret (w', r', g) /\ cr_wf r' /\
    (closed r = true \/ CloseOp ∈ ops -> closed r' = true) /\
    forall gone, seq 0 (next_id r) ≡ₚ (eid <$> ring r) ++ gone -> seq 0 (next_id r') ≡ₚ (eid <$> ring r') ++ g ++ gone).
  { induction ops as [|o ops IH]; intros r w1 H; cbn [cr_run].
    - do 3 eexists. split; [done|]. split; [done|]. split; [|done]. intros [|Hn]; [done|].
      by apply not_elem_of_nil in Hn.
    - destruct (cr_step_ok o w1 r H) as (w2 & r2 & g & -> & W2 & C2 & P2). cbn [mbind res_bind].
      destruct (IH r2 w2 W2) as (w3 & r3 & gs & -> & W3 & C3 & P3). cbn [mbind res_bind].
      do 3 eexists. split; [done|]. split; [done|]. split.
      + intros [Hc|Ho]; apply C3; [left; auto|]. apply elem_of_cons in Ho as [<-|Ho]; auto.
      + intros gone Hg. rewrite (P3 _ (P2 _ Hg)). apply Permutation_app_head.
        rewrite !app_assoc. apply Permutation_app_tail, Permutation_app_comm. }
  destruct (G New w New_wf) as (w' & r' & g & -> & W' & C & P). exists w', r', g.
  split; [done|]. split; [done|]. split.
  - specialize (P [] ltac:(done)). by rewrite app_nil_r in P.
  - intros Ho. assert (Hc : closed r' = true) by auto. split; [done|]. by apply (cw_closed r').
Qed.
End clientring.

(** ** Witness and the gaps between the documentation and the code *)

(** A world that counts the attempts; client [k] fails with [errs k], if any. *)
Definition demo_attempt (errs : nat -> option gerr) (n : Node nat) (w : nat) : nat * option gerr :=
  (S w, errs (Client n)).
Definition demo_new (i w : nat) : nat * nat := (w, i).
Definition demo_try (errs : nat -> option gerr) : nat -> Ring nat -> res (nat * Ring nat * option gerr) :=
  TryNextContext (fun _ => None) (fun w => (w, None)) (demo_attempt errs) demo_new.

Definition two_clients : Ring nat := MkCR false [MkNode 0 0; MkNode 1 1]%nat (Some 1%nat) 2.

Lemma two_clients_wf : cr_wf two_clients.
Proof.
  split; cbn; [repeat constructor; set_solver|repeat constructor; cbn; lia| |done].
  intros i [= <-]. set_solver.
Qed.


(** The package comment says that a dial attempt walks to the next client on
    failover-class errors and that a new client is spun up when the ring is
    exhausted.  First: an attempt that fails with an error outside that class
    is retried on the next client all the same.  Second: when the current
    client removes itself from the end of the list, the next attempt creates a
    client although another one is live and would serve. *)
Theorem client_ring_doc_gaps :
  let other := GErr 9 "connection refused" None in
  IsFailoverError other = false /\
  demo_try (fun k => if decide (k = 1%nat) then Some other else None) 0%nat two_clients =
    Ret (2%nat, MkCR false (ring two_clients) (Some 0%nat) 2, None) /\
  demo_try (fun _ => None) 0%nat (passiveRemove 1 two_clients) =
    Ret (1%nat, MkCR false [MkNode 0 0; MkNode 2 2]%nat (Some 2%nat) 3, None).
Proof. vm_compute. auto. Qed.
