(* ===== verification/Metadata.v ===== *)
(** Target metadata and the bounded domain-to-address cache of the datagram
    read path (protocol/metadata.go).

    A [sync.Map] is a finite map; its [Range] visits the entries in an order
    that is a parameter.  Each cache belongs to one connection, so operations on
    it are sequential; every reading of the clock is an argument.  The installed
    and the process resolver, [net.SplitHostPort] and the textual form of addresses ([netip.ParseAddr])
    are parameters. *)

From S2P Require Import Prelude GoStrings NetIP.
From Stdlib Require Import Strings.Byte.

Inductive MetadataType :=
  MetadataTypeIPv4 | MetadataTypeIPv6 | MetadataTypeDomain | MetadataTypeMsg | MetadataTypeInvalid.
#[export] Instance MetadataType_eq_dec : EqDecision MetadataType.
Proof. solve_decision. Defined.

Record Metadata := MkMeta {
  Type_ : MetadataType; Hostname : list byte; mPort : Z; mIP : Addr; Cmd : Z;
  Cipher : list byte; IsClient : bool }.

Definition domainIPTTL : Z := 60 * 10 ^ 9.
Definition maxDomainIpCacheEntries : nat := 64.

Record domainIPEntry := MkDE { addr : Addr; expiresAt : Z }.

(** The value of a [sync.Map] entry: a [domainIPEntry] or anything else. *)
Inductive cval := CEntry (e : domainIPEntry) | CForeign.

Abbreviation dcache := (gmap (list byte) cval).

(** * Cache operations *)

(** [loadDomainIP]; the cache argument is [None] for a nil pointer. *)
Definition loadDomainIP (now : Z) (cache : option dcache) (host : list byte) : option Addr * option dcache :=
  match cache with
  | None => (None, None)
  | Some m =>
      match m !! host with
      | None => (None, cache)
      | Some CForeign => (None, Some (delete host m))
      | Some (CEntry e) =>
          if decide (now > expiresAt e) then (None, Some (delete host m)) else (Some (addr e), cache)
      end
  end.

Section cache.
(** The order in which [Range] visits the entries. *)
Context (Range : dcache -> list (list byte * cval)).

(** The count of [domainIPCacheHasRoom]: the callback stops the iteration once
    it exceeds the bound. *)
Fixpoint range_count (l : list (list byte * cval)) (n : nat) : nat :=
  match l with
  | [] => n
  | _ :: l => if decide (S n <= maxDomainIpCacheEntries)%nat then range_count l (S n) else S n
  end.

Definition domainIPCacheHasRoom (m : dcache) : bool :=
  bool_decide (range_count (Range m) 0 <= maxDomainIpCacheEntries)%nat.

(** The callback of [evictDomainIP] over the visited entries: the first expired
    key and the key closest to expiry. *)
Fixpoint evict_scan (now : Z) (l : list (list byte * cval))
    (expired : option (list byte)) (oldest : option (list byte * Z)) : option (list byte) * option (list byte * Z) :=
  match l with
  | [] => (expired, oldest)
  | (k, v) :: l =>
      let first := match expired with None => Some k | Some _ => expired end in
      match v with
      | CForeign => evict_scan now l first oldest
      | CEntry e =>
          if decide (now > expiresAt e) then evict_scan now l first oldest
          else
            match oldest with
            | None => evict_scan now l expired (Some (k, expiresAt e))
            | Some (_, x) =>
                if decide (expiresAt e < x) then evict_scan now l expired (Some (k, expiresAt e))
                else evict_scan now l expired oldest
            end
      end
  end.

Definition evictDomainIP (now : Z) (m : dcache) : dcache :=
  match evict_scan now (Range m) None None with
  | (Some k, _) => delete k m
  | (None, Some (k, _)) => delete k m
  | (None, None) => m
  end.

(** [now1] is the clock at the computation of the expiry, [now2] at eviction. *)
Definition storeDomainIP (now1 now2 : Z) (cache : option dcache) (host : list byte) (a : Addr) : option dcache :=
  match cache with
  | None => None
  | Some m =>
      match m !! host with
      | Some _ => Some m
      | None =>
          let m := <[host := CEntry (MkDE a (now1 + domainIPTTL))]> m in
          if domainIPCacheHasRoom m then Some m else Some (evictDomainIP now2 m)
      end
  end.

(** * Metadata operations *)

Section resolution.
Context (ParseAddr : list byte -> option Addr).

Definition Metadata_AddrPort (m : Metadata) : res AddrPort :=
  match Type_ m with
  | MetadataTypeIPv4 | MetadataTypeIPv6 =>
      if decide (mIP m <> AddrZero) then Ret (MkAddrPort (mIP m) (mPort m)) else
      match ParseAddr (Hostname m) with
      | None => Fail (Errorf "ParseAddr")
      | Some ip => Ret (MkAddrPort ip (mPort m))
      end
  | _ => Fail (Errorf "bad metadata type: %v; should be ip")
  end.

(** The clock readings of one call, the installed resolver if any, and the
    process resolver. *)
Record lookup_env := MkLE {
  now_load : Z; now_store : Z; now_evict : Z;
  datapathResolver : option (list byte -> res Addr);
  LookupNetIP : list byte -> res (list Addr) }.

(** [for _, addr := range addrs]: the first valid address, unmapped. *)
Fixpoint first_valid (addrs : list Addr) : option Addr :=
  match addrs with
  | [] => None
  | a :: addrs => if decide (a <> AddrZero) then Some (Unmap a) else first_valid addrs
  end.

Definition resolveDatapathHost (env : lookup_env) (host : list byte) : res Addr :=
  match datapathResolver env with
  | Some f => f host
  | None =>
      addrs ← LookupNetIP env host;
      match first_valid addrs with
      | Some a => Ret a
      | None => Fail (Errorf "no address")
      end
  end.

Definition DomainIpMapping (env : lookup_env) (m : Metadata) (cache : option dcache)
    : res AddrPort * option dcache :=
  if decide (Type_ m <> MetadataTypeDomain) then
    (match Metadata_AddrPort m with
     | Ret ap => Ret ap
     | Fail e => Fail (Wrap "ReadFrom AddrPort" e)
     | Panic => Panic
     end, cache)
  else
    let '(hit, cache) := loadDomainIP (now_load env) cache (Hostname m) in
    match hit with
    | Some a => (Ret (MkAddrPort a (mPort m)), cache)
    | None =>
        match resolveDatapathHost env (Hostname m) with
        | Ret a =>
            (Ret (MkAddrPort a (mPort m)),
             storeDomainIP (now_store env) (now_evict env) cache (Hostname m) a)
        | Fail e => (Fail (Wrap "datapath domain resolution failed" e), cache)
        | Panic => (Panic, cache)
        end
    end.

(** [netip.Addr.IsValid] of a parsed address decides the type. *)
Definition ParseMetadata (SplitHostPort : list byte -> res (list byte * list byte)) (tgt : list byte) : res Metadata :=
  match SplitHostPort tgt with
  | Fail e => Fail (Wrap "SplitHostPort" e)
  | Panic => Panic
  | Ret (host, strPort) =>
      match ParseUint 16 strPort with
      | None => Fail (Errorf "failed to parse port: %w")
      | Some port =>
          let '(typ, ip) :=
            match ParseAddr host with
            | None => (MetadataTypeDomain, AddrZero)
            | Some a => (if Is4 a then MetadataTypeIPv4 else MetadataTypeIPv6, a)
            end in
          Ret (MkMeta typ host (port mod 65536) ip 0 [] false)
      end
  end.
End resolution.

(** * The cache is bounded and its answers are fresh *)

Hypothesis Range_all : forall m, Range m ≡ₚ map_to_list m.

Lemma range_count_le l n : (n <= maxDomainIpCacheEntries)%nat ->
  (range_count l n <= maxDomainIpCacheEntries <-> n + length l <= maxDomainIpCacheEntries)%nat.
Proof.
  revert n. induction l as [|x l IH]; intros n Hn; cbn [range_count length]; [lia|].
  case_decide; [rewrite IH by lia; lia|lia].
Qed.

Lemma hasRoom_spec m : domainIPCacheHasRoom m = bool_decide (size m <= maxDomainIpCacheEntries)%nat.
Proof.
  unfold domainIPCacheHasRoom. apply bool_decide_ext.
  rewrite range_count_le by (unfold maxDomainIpCacheEntries; lia).
  by rewrite Range_all, length_map_to_list.
Qed.

(** The scan picks keys it visited, and picks one whenever there is one. *)
Lemma evict_scan_spec now l e o e' o' : evict_scan now l e o = (e', o') ->
  (forall k, e' = Some k -> e = Some k \/ k ∈ l.*1) /\
  (forall k x, o' = Some (k, x) -> o = Some (k, x) \/ k ∈ l.*1) /\
  (e' = None -> o' = None -> l = [] /\ e = None /\ o = None) /\ (e' = None -> e = None).
Proof.
  revert e o. induction l as [|[k v] l IH]; intros e o; cbn [evict_scan].
  { intros [= <- <-]. split_and!; auto. }
  assert (S : forall e1 o1, evict_scan now l e1 o1 = (e', o') ->
    (forall k0, e1 = Some k0 -> e = Some k0 \/ k0 = k) ->
    (forall k0 x, o1 = Some (k0, x) -> o = Some (k0, x) \/ k0 = k) ->
    (e1 <> None \/ o1 <> None) -> (e1 = None -> e = None) ->
    (forall k0, e' = Some k0 -> e = Some k0 \/ k0 ∈ k :: l.*1) /\
    (forall k0 x, o' = Some (k0, x) -> o = Some (k0, x) \/ k0 ∈ k :: l.*1) /\
    (e' = None -> o' = None -> (k, v) :: l = [] /\ e = None /\ o = None) /\ (e' = None -> e = None)).
  { intros e1 o1 E He Ho Hn He0. destruct (IH e1 o1 E) as (I1 & I2 & I3 & I4). split_and!.
    - intros k0 Hk. destruct (I1 k0 Hk) as [Hk'|]; [|right; by right].
      destruct (He k0 Hk') as [| ->]; [by left|right; by left].
    - intros k0 x Hk. destruct (I2 k0 x Hk) as [Hk'|]; [|right; by right].
      destruct (Ho k0 x Hk') as [| ->]; [by left|right; by left].
    - intros A B. destruct (I3 A B) as (_ & -> & ->). naive_solver.
    - auto. }
  assert (F : forall k0, match e with Some _ => e | None => Some k end = Some k0 -> e = Some k0 \/ k0 = k)
    by (destruct e; naive_solver).
  assert (Fn : match e with Some _ => e | None => Some k end <> None) by by destruct e.
  destruct v as [en|].
  - case_decide; [intros E; eapply S; eauto; naive_solver|].
    destruct o as [[k1 x1]|]; [case_decide|]; intros E; (eapply S; eauto; naive_solver).
  - intros E. eapply S; eauto. naive_solver.
Qed.

Lemma evict_spec now m : m <> ∅ ->
  size (evictDomainIP now m) = (size m - 1)%nat /\ evictDomainIP now m ⊆ m.
Proof.
  intros Hm. unfold evictDomainIP. destruct (evict_scan now (Range m) None None) as [e o] eqn:E.
  destruct (evict_scan_spec _ _ _ _ _ _ E) as (He & Ho & Hn & _).
  assert (Hd : forall k, k ∈ (Range m).*1 -> size (delete k m) = (size m - 1)%nat /\ delete k m ⊆ m).
  { intros k Hk. rewrite (Range_all m) in Hk. apply list_elem_of_fmap in Hk as ([k' v] & -> & Hk).
    apply elem_of_map_to_list in Hk. split; [|apply delete_subseteq].
    cbn [fst]. rewrite map_size_delete, Hk. lia. }
  destruct e as [k|]; [|destruct o as [[k x]|]].
  - destruct (He k eq_refl) as [|]; [done|auto].
  - destruct (Ho k x eq_refl) as [|]; [done|auto].
  - destruct (Hn eq_refl eq_refl) as [Hr _]. exfalso. apply Hm.
    pose proof (Range_all m) as P. rewrite Hr in P. symmetry in P. apply Permutation_nil_r in P.
    by apply map_to_list_empty_iff.
Qed.

(** One query: the environment of the call and the metadata of the packet. *)
Definition query : Type := lookup_env * Metadata.

(** [a] is what an earlier query resolved for [host], at most the lifetime ago. *)
Definition known (past : list query) (now : Z) (host : list byte) (a : Addr) : Prop :=
  exists q, q ∈ past /\ Hostname q.2 = host /\ resolveDatapathHost q.1 host = Ret a /\ now <= now_store q.1 + domainIPTTL.

(** The cache holds at most the bound, and only answers of past queries with
    their expiry. *)
Definition cache_ok (past : list query) (m : dcache) : Prop :=
  (size m <= maxDomainIpCacheEntries)%nat /\
  forall host e, m !! host = Some (CEntry e) ->
    exists q, q ∈ past /\ Hostname q.2 = host /\ resolveDatapathHost q.1 host = Ret (addr e) /\
      expiresAt e = now_store q.1 + domainIPTTL.

Lemma cache_ok_mono past past' m m' : cache_ok past m -> m' ⊆ m ->
  (forall q, q ∈ past -> q ∈ past') -> cache_ok past' m'.
Proof.
  intros [Hs Ho] Hm Hp. split.
  - apply map_subseteq_size in Hm. lia.
  - intros host e He. eapply lookup_weaken in He; [|done]. destruct (Ho host e He) as (q & Hq & ?). eauto.
Qed.

Lemma load_ok past now m host hit c : cache_ok past m -> loadDomainIP now (Some m) host = (hit, c) ->
  exists m', c = Some m' /\ m' ⊆ m /\
    match hit with Some a => known past now host a /\ m' = m | None => m' !! host = None end.
Proof.
  intros [_ Ho]. cbn. destruct (m !! host) as [[e|]|] eqn:E.
  - case_decide as Hx; intros [= <- <-]; eexists; (split; [done|]).
    + split; [apply delete_subseteq|]. apply lookup_delete_eq.
    + split; [done|]. split; [|done]. destruct (Ho host e E) as (q & ? & ? & ? & ?).
      exists q. split_and!; try done. lia.
  - intros [= <- <-]. eexists. split; [done|]. split; [apply delete_subseteq|]. apply lookup_delete_eq.
  - intros [= <- <-]. eauto.
Qed.

Lemma store_ok past q m a : cache_ok past m -> q ∈ past -> resolveDatapathHost q.1 (Hostname q.2) = Ret a ->
  m !! Hostname q.2 = None ->
  exists m', storeDomainIP (now_store q.1) (now_evict q.1) (Some m) (Hostname q.2) a = Some m' /\ cache_ok past m'.
Proof.
  intros [Hs Ho] Hq Ha Hn. cbn. rewrite Hn.
  set (m1 := <[Hostname q.2 := _]> m).
  assert (S1 : size m1 = S (size m)) by (unfold m1; by apply map_size_insert_None).
  assert (O1 : forall host e, m1 !! host = Some (CEntry e) ->
    exists q', q' ∈ past /\ Hostname q'.2 = host /\ resolveDatapathHost q'.1 host = Ret (addr e) /\
      expiresAt e = now_store q'.1 + domainIPTTL).
  { intros host e. unfold m1. intros [[<- [= <-]]|[_ He]]%lookup_insert_Some; [by exists q|by apply Ho]. }
  rewrite hasRoom_spec. case_bool_decide as Hr; eexists; (split; [done|]).
  - by split.
  - destruct (evict_spec (now_evict q.1) m1) as [E1 E2]; [intros E; rewrite E, map_size_empty in S1; lia|].
    split; [lia|]. intros host e He. apply O1. by eapply lookup_weaken.
Qed.

Section histories.
Context (ParseAddr : list byte -> option Addr).

(** What one query may answer. *)
Definition answer_ok (past : list query) (q : query) (r : res AddrPort) : Prop :=
  let '(env, m) := q in
  if decide (Type_ m = MetadataTypeDomain) then
    match r with
    | Ret ap => ap_port ap = mPort m /\
        (resolveDatapathHost env (Hostname m) = Ret (ap_addr ap) \/ known past (now_load env) (Hostname m) (ap_addr ap))
    | Fail _ => exists e, resolveDatapathHost env (Hostname m) = Fail e
    | Panic => resolveDatapathHost env (Hostname m) = Panic
    end
  else match Metadata_AddrPort ParseAddr m with
       | Ret ap => r = Ret ap
       | _ => exists e, r = Fail e
       end.

Fixpoint queries (qs : list query) (c : option dcache) : list (res AddrPort) * option dcache :=
  match qs with
  | [] => ([], c)
  | q :: qs =>
      let '(r, c) := DomainIpMapping ParseAddr q.1 q.2 c in
      let '(rs, c) := queries qs c in (r :: rs, c)
  end.

Fixpoint answers_ok (past : list query) (qs : list query) (rs : list (res AddrPort)) : Prop :=
  match qs, rs with
  | [], [] => True
  | q :: qs, r :: rs => answer_ok past q r /\ answers_ok (past ++ [q]) qs rs
  | _, _ => False
  end.

Lemma AddrPort_no_panic m : Metadata_AddrPort ParseAddr m <> Panic.
Proof. unfold Metadata_AddrPort. repeat case_match; done. Qed.

Lemma query_ok past q m : cache_ok past m ->
  exists r m', DomainIpMapping ParseAddr q.1 q.2 (Some m) = (r, Some m') /\
    answer_ok past q r /\ cache_ok (past ++ [q]) m'.
Proof.
  intros H. destruct q as [env md]. unfold DomainIpMapping, answer_ok. cbn [fst snd].
  assert (Hp : forall q', q' ∈ past -> q' ∈ past ++ [(env, md)]) by (intros; apply elem_of_app; by left).
  destruct (decide (Type_ md = MetadataTypeDomain)) as [Hd|Hd].
  2:{ rewrite decide_True by done. do 2 eexists. split; [done|].
      split; [|by eapply cache_ok_mono]. pose proof (AddrPort_no_panic md).
      destruct (Metadata_AddrPort ParseAddr md); eauto; done. }
  rewrite decide_False by tauto.
  destruct (loadDomainIP (now_load env) (Some m) (Hostname md)) as [hit c] eqn:El.
  destruct (load_ok past _ _ _ _ _ H El) as (m1 & -> & Hs & Hh). destruct hit as [a|].
  { destruct Hh as [Hk ->]. do 2 eexists. split; [done|]. cbn. split; [auto|by eapply cache_ok_mono]. }
  assert (H1 : cache_ok (past ++ [(env, md)]) m1) by by eapply cache_ok_mono.
  destruct (resolveDatapathHost env (Hostname md)) as [a|e|] eqn:Er.
  - destruct (store_ok _ (env, md) m1 a H1) as (m2 & E2 & H2); cbn; [apply elem_of_app; right; by left|done|done|].
    cbn in E2. rewrite E2. do 2 eexists. split; [done|]. cbn. auto.
  - do 2 eexists. split; [done|]. split; [by eauto|done].
  - do 2 eexists. split; [done|]. split; [by eauto|done].
Qed.

(** C36: Over any sequence of received datagrams on one connection, with any
    clock readings, any resolver answers and any order in which [Range]
    visits the map, the domain cache never holds more than 64 entries, and
    every address reported for a domain is either what the resolver answers
    now or what it answered for the same name at an earlier datagram whose
    60-second lifetime has not passed; an error is reported only when the
    resolver fails. *)
Theorem domain_cache_correct qs :
  exists rs m, queries qs (Some ∅) = (rs, Some m) /\ answers_ok [] qs rs /\
    (size m <= maxDomainIpCacheEntries)%nat.
Proof.
  assert (G : forall past m, cache_ok past m -> exists rs m', queries qs (Some m) = (rs, Some m') /\
    answers_ok past qs rs /\ cache_ok (past ++ qs) m').
  { induction qs as [|q qs IH]; intros past m H; cbn [queries].
    - do 2 eexists. split; [done|]. split; [done|]. by rewrite app_nil_r.
    - destruct (query_ok past q m H) as (r & m1 & -> & ? & H1).
      destruct (IH _ _ H1) as (rs & m2 & -> & ? & H2). do 2 eexists. split; [done|].
      split; [done|]. by rewrite <- app_assoc in H2. }
  destruct (G [] ∅) as (rs & m & E & A & [S _]).
  - split; [rewrite map_size_empty; unfold maxDomainIpCacheEntries; lia|].
    intros host e. by rewrite lookup_empty.
  - eauto.
Qed.
End histories.
End cache.

(** ** Witness *)

Definition demo_query (now : Z) (host : list byte) (a : Addr) : query :=
  (MkLE now now now None (fun _ => Ret [AddrZero; a]), MkMeta MetadataTypeDomain host 53 AddrZero 0 [] false).

Lemma domain_cache_correct_witness :
  exists rs m, queries map_to_list (fun _ => None)
      [demo_query 0 [x61] (Addr4 [x01; x01; x01; x01]); demo_query 5 [x61] (Addr4 [x02; x02; x02; x02])] (Some ∅) = (rs, Some m) /\
    answers_ok (fun _ => None) []
      [demo_query 0 [x61] (Addr4 [x01; x01; x01; x01]); demo_query 5 [x61] (Addr4 [x02; x02; x02; x02])] rs /\
    (size m <= maxDomainIpCacheEntries)%nat.
Proof. apply (domain_cache_correct map_to_list (fun m => Permutation_refl _) (fun _ => None)). Defined.
