(* ===== verification/Trojan.v ===== *)
(** The Trojan protocol (protocol/trojanc): the metadata codec (addr.go), the
    request header and the connection (conn.go), UDP framing (packet.go) and the
    one-entry target cache (common/last_string_value.go).

    The textual form of IP addresses ([net.ParseIP], [net.IP.String]) is a
    parameter: the theorems hold for any.  Buffers obtained from the pool hold
    arbitrary stale bytes. *)

From S2P Require Import Prelude NetIP GoStrings Pool Metadata GoState Common.
From Stdlib Require Import Strings.Byte.

(** * Metadata (addr.go) *)

Definition ParseMetadataType (t : byte) : MetadataType :=
  match t with
  | x01 => MetadataTypeIPv4
  | x02 => MetadataTypeMsg
  | x03 => MetadataTypeDomain
  | x04 => MetadataTypeIPv6
  | _ => MetadataTypeInvalid
  end.

Definition MetadataTypeToByte (t : MetadataType) : byte :=
  match t with
  | MetadataTypeIPv4 => x01
  | MetadataTypeMsg => x02
  | MetadataTypeDomain => x03
  | MetadataTypeIPv6 => x04
  | MetadataTypeInvalid => x00
  end.

Definition ParseNetwork (n : byte) : string :=
  match n with x01 => "tcp" | x03 => "udp" | _ => "invalid" end.

Definition NetworkToByte (n : string) : byte :=
  if decide (n = "tcp"%string) then x01 else if decide (n = "udp"%string) then x03 else x00.

(** [Metadata]: the shared metadata and the network. *)
Record TMetadata := MkTM { base : Metadata; Network : string }.

Definition TMetadata_Len (m : Metadata) : nat :=
  match Type_ m with
  | MetadataTypeIPv4 => 3 + 4
  | MetadataTypeIPv6 => 3 + 16
  | MetadataTypeDomain => 4 + length (Hostname m)
  | MetadataTypeMsg => 2
  | MetadataTypeInvalid => 0
  end.

Section ip_text.
(** [net.ParseIP] (the empty list for nil) and [net.IP.String]. *)
Context (ParseIP : list byte -> list byte) (IPString : list byte -> list byte).

(** The expression [2+dst[1]] has type byte. *)
Definition PackTo (m : Metadata) (dst : list byte) : res (list byte * nat) :=
  dst ← set_at dst 0 (MetadataTypeToByte (Type_ m));
  match Type_ m with
  | MetadataTypeIPv4 =>
      ip ← slice (To4 (ParseIP (Hostname m))) 0 4;
      '(dst, _) ← copy_at dst 1 ip;
      dst ← write_at dst 5 (be16 (mPort m));
      Ret (dst, 7%nat)
  | MetadataTypeIPv6 =>
      ip ← slice (ParseIP (Hostname m)) 0 16;
      '(dst, _) ← copy_at dst 1 ip;
      dst ← write_at dst 17 (be16 (mPort m));
      Ret (dst, 19%nat)
  | MetadataTypeDomain =>
      dst ← set_at dst 1 (z2b (Z.of_nat (length (Hostname m))));
      '(dst, _) ← copy_at dst 2 (Hostname m);
      l ← index dst 1;
      dst ← write_at dst (Z.to_nat ((2 + b2z l) mod 256)) (be16 (mPort m));
      l ← index dst 1;
      Ret (dst, (4 + Z.to_nat (b2z l))%nat)
  | MetadataTypeMsg =>
      dst ← set_at dst 1 (z2b (Cmd m));
      Ret (dst, 2%nat)
  | MetadataTypeInvalid => Ret (dst, 0%nat)
  end.

Definition with_target (m : Metadata) (t : MetadataType) (host : list byte) (port : Z) : Metadata :=
  MkMeta t host port (mIP m) (Cmd m) (Cipher m) (IsClient m).

(** [m.Unpack(r)] into [m]; the pool buffer is filled from the stream before it
    is read.  After an error the receiver is not used again. *)
Definition Unpack (m : Metadata) : st stream (Metadata * nat) :=
  hd ← readFull 2;
  t ← lift (index hd 0);
  l ← lift (index hd 1);
  match ParseMetadataType t with
  | MetadataTypeIPv4 =>
      tl ← readFull 5;
      let buf := hd ++ tl in
      ip ← lift (slice buf 1 5);
      port ← lift (slice buf 5 7);
      mret (with_target m MetadataTypeIPv4 (IPString ip) (be_get port), 7%nat)
  | MetadataTypeIPv6 =>
      tl ← readFull 17;
      let buf := hd ++ tl in
      ip ← lift (slice buf 1 17);
      port ← lift (slice buf 17 19);
      mret (with_target m MetadataTypeIPv6 (IPString ip) (be_get port), 19%nat)
  | MetadataTypeDomain =>
      let domainLen := Z.to_nat (b2z l) in
      tl ← readFull (2 + domainLen);
      let buf := hd ++ tl in
      host ← lift (slice buf 2 (2 + domainLen));
      port ← lift (slice buf (2 + domainLen) (4 + domainLen));
      mret (with_target m MetadataTypeDomain host (be_get port), (4 + domainLen)%nat)
  | MetadataTypeMsg =>
      mret (MkMeta MetadataTypeMsg (Hostname m) (mPort m) (mIP m) (b2z l) (Cipher m) (IsClient m), 2%nat)
  | MetadataTypeInvalid => fail (Errorf "unexpected metadata type: %v")
  end.

(** ** The wire form *)

Definition meta_body (m : Metadata) : list byte :=
  match Type_ m with
  | MetadataTypeIPv4 => To4 (ParseIP (Hostname m)) ++ be16 (mPort m)
  | MetadataTypeIPv6 => ParseIP (Hostname m) ++ be16 (mPort m)
  | MetadataTypeDomain => z2b (Z.of_nat (length (Hostname m))) :: Hostname m ++ be16 (mPort m)
  | MetadataTypeMsg => [z2b (Cmd m)]
  | MetadataTypeInvalid => []
  end.

Definition meta_bytes (m : Metadata) : list byte := MetadataTypeToByte (Type_ m) :: meta_body m.

(** A target the format can carry: an address text of its type, a name of at
    most 253 bytes, a command byte. *)
Definition meta_ok (m : Metadata) : Prop :=
  0 <= mPort m < 65536 /\
  match Type_ m with
  | MetadataTypeIPv4 => length (To4 (ParseIP (Hostname m))) = 4%nat
  | MetadataTypeIPv6 => length (ParseIP (Hostname m)) = 16%nat
  | MetadataTypeDomain => (length (Hostname m) <= 253)%nat
  | MetadataTypeMsg => 0 <= Cmd m < 256
  | MetadataTypeInvalid => False
  end.

(** What the peer obtains in [m0]: the same target, addresses in canonical text. *)
Definition received (m0 m : Metadata) : Metadata :=
  match Type_ m with
  | MetadataTypeIPv4 => with_target m0 MetadataTypeIPv4 (IPString (To4 (ParseIP (Hostname m)))) (mPort m)
  | MetadataTypeIPv6 => with_target m0 MetadataTypeIPv6 (IPString (ParseIP (Hostname m))) (mPort m)
  | MetadataTypeDomain => with_target m0 MetadataTypeDomain (Hostname m) (mPort m)
  | MetadataTypeMsg => MkMeta MetadataTypeMsg (Hostname m0) (mPort m0) (mIP m0) (Cmd m) (Cipher m0) (IsClient m0)
  | MetadataTypeInvalid => m0
  end.

Lemma meta_bytes_length m : meta_ok m -> length (meta_bytes m) = TMetadata_Len m.
Proof.
  intros [_ H]. unfold meta_bytes, meta_body, TMetadata_Len. cbn [length].
  destruct (Type_ m); cbn [length]; rewrite ?length_app; cbn; rewrite ?length_be_put; lia || done.
Qed.

Lemma PackTo_ok m dst : meta_ok m -> (TMetadata_Len m <= length dst)%nat ->
  PackTo m dst = Ret (meta_bytes m ++ drop (TMetadata_Len m) dst, TMetadata_Len m).
Proof.
  intros [Hp H] Hl. unfold PackTo, meta_bytes, meta_body, TMetadata_Len in *.
  assert (L2 : length (be16 (mPort m)) = 2%nat) by apply length_be_put.
  destruct (Type_ m); [..|done].
  all: rewrite set_at_0 by lia; cbn [mbind res_bind].
  - rewrite slice_eq, drop_0, Nat.sub_0_r, firstn_all2 by lia. cbn [mbind res_bind].
    rewrite copy_at_app by (rewrite ?length_drop; cbn; lia). cbn [mbind res_bind].
    rewrite H, drop_drop, write_at_app by (rewrite ?length_app, ?length_drop; cbn; lia). cbn [mbind res_bind].
    rewrite L2, drop_drop. cbn [app]. by rewrite <- !app_assoc.
  - rewrite slice_eq, drop_0, Nat.sub_0_r, firstn_all2 by lia. cbn [mbind res_bind].
    rewrite copy_at_app by (rewrite ?length_drop; cbn; lia). cbn [mbind res_bind].
    rewrite H, drop_drop, write_at_app by (rewrite ?length_app, ?length_drop; cbn; lia). cbn [mbind res_bind].
    rewrite L2, drop_drop. cbn [app]. by rewrite <- !app_assoc.
  - rewrite set_at_app by (rewrite ?length_drop; cbn; lia). cbn [mbind res_bind].
    rewrite drop_drop, copy_at_app by (rewrite ?length_app, ?length_drop; cbn; lia). cbn [mbind res_bind].
    set (n := length (Hostname m)) in *. set (l := z2b (Z.of_nat n)).
    assert (El : b2z l = Z.of_nat n) by (apply b2z_z2b_small; lia).
    assert (Ei : forall r : list byte, index ((([x03] ++ [l]) ++ Hostname m) ++ r) 1 = Ret l) by done.
    change (MetadataTypeToByte MetadataTypeDomain) with x03. rewrite Ei. cbn [mbind res_bind].
    rewrite El, Z.mod_small by lia. rewrite (write_at_app (([x03] ++ [l]) ++ Hostname m))
      by (rewrite ?L2, ?length_app, ?length_drop; cbn; fold n; lia).
    cbn [mbind res_bind]. rewrite <- (app_assoc (([x03] ++ [l]) ++ Hostname m)), Ei. cbn [mbind res_bind].
    rewrite El, L2, !drop_drop, Nat2Z.id, <- !app_assoc. cbn [app]. rewrite <- app_assoc.
    by replace (1 + 1 + (n + 2))%nat with (4 + n)%nat by lia.
  - rewrite set_at_app by (rewrite ?length_drop; cbn; lia). cbn [mbind res_bind].
    by rewrite drop_drop.
Qed.

Lemma Unpack_ok m0 m rest : meta_ok m ->
  Unpack m0 (meta_bytes m ++ rest) = (rest, Ret (received m0 m, TMetadata_Len m)).
Proof.
  intros [Hp H]. unfold meta_bytes, meta_body, received, TMetadata_Len, Unpack.
  destruct (be16_shape (mPort m) Hp) as (p1 & p2 & Eb & Eg). rewrite Eb.
  destruct (Type_ m); [..|done].
  - destruct (To4 (ParseIP (Hostname m))) as [|i0 [|i1 [|i2 [|i3 [|]]]]]; try done. cbn [app].
    st_read [x01; i0]. do 2 st_pure. cbn [ParseMetadataType]. st_read [i1; i2; i3; p1; p2].
    do 2 st_pure. by rewrite <- Eg.
  - destruct (ParseIP (Hostname m)) as [|i0 ip] eqn:Ei; [done|]. cbn in H. cbn [app].
    st_read [x04; i0]. do 2 st_pure. cbn [ParseMetadataType].
    rewrite <- app_assoc, (app_assoc ip). st_read (ip ++ [p1; p2]).
    cbn [app]. assert (S1 : slice (x04 :: i0 :: ip ++ [p1; p2]) 1 17 = Ret (i0 :: ip)).
    { rewrite slice_eq by (cbn; rewrite ?length_app; cbn; lia). cbn. do 2 f_equal. apply take_app_length'. lia. }
    assert (S2 : slice (x04 :: i0 :: ip ++ [p1; p2]) 17 19 = Ret [p1; p2]).
    { rewrite slice_eq by (cbn; rewrite ?length_app; cbn; lia). cbn. rewrite drop_app_length' by lia. done. }
    unfold lift. rewrite S1, S2. st_pure. st_pure. by rewrite <- Eg.
  - set (n := length (Hostname m)) in *. set (l := z2b (Z.of_nat n)).
    assert (El : Z.to_nat (b2z l) = n) by (unfold l; rewrite b2z_z2b_small; lia).
    cbn [app]. st_read [x03; l]. do 2 st_pure. cbn [ParseMetadataType]. rewrite El.
    st_read (Hostname m ++ [p1; p2]). cbn [app].
    assert (S1 : slice (x03 :: l :: Hostname m ++ [p1; p2]) 2 (2 + n) = Ret (Hostname m)).
    { rewrite slice_eq by (cbn; rewrite ?length_app; cbn; fold n; lia). cbn. f_equal. apply take_app_length'. fold n. lia. }
    assert (S2 : slice (x03 :: l :: Hostname m ++ [p1; p2]) (2 + n) (4 + n) = Ret [p1; p2]).
    { rewrite slice_eq by (cbn; rewrite ?length_app; cbn; fold n; lia). cbn.
      rewrite drop_app_length' by done. f_equal. rewrite firstn_all2; [done|cbn; lia]. }
    unfold lift. rewrite S1, S2. st_pure. st_pure. by rewrite <- Eg.
  - cbn [app]. st_read [x02; z2b (Cmd m)]. do 2 st_pure. cbn [ParseMetadataType].
    by rewrite b2z_z2b_small.
Qed.

(** * The connection (conn.go) *)

Definition CRLF : list byte := [x0d; x0a].
Definition FailAuthErr : error := Errorf "incorrect password".
Definition ErrShortWrite : error := Errorf "short write".

(** The connection with the bytes still to be read from the transport, and the
    transport as a writer. *)
Record Conn := MkConn {
  metadata : TMetadata; pass : list byte; headerOnce : bool; headerErr : option error;
  onceWrite : bool; packetWriteBuf : list byte; closed : bool; inp : stream; out : writer }.

Definition set_out (w : writer) (c : Conn) : Conn :=
  MkConn (metadata c) (pass c) (headerOnce c) (headerErr c) (onceWrite c) (packetWriteBuf c) (closed c) (inp c) w.
Definition set_inp (r : stream) (c : Conn) : Conn :=
  MkConn (metadata c) (pass c) (headerOnce c) (headerErr c) (onceWrite c) (packetWriteBuf c) (closed c) r (out c).
Definition set_onceWrite (c : Conn) : Conn :=
  MkConn (metadata c) (pass c) (headerOnce c) (headerErr c) true (packetWriteBuf c) (closed c) (inp c) (out c).
Definition set_packetWriteBuf (b : list byte) (c : Conn) : Conn :=
  MkConn (metadata c) (pass c) (headerOnce c) (headerErr c) (onceWrite c) b (closed c) (inp c) (out c).
Definition set_metadata (m : TMetadata) (c : Conn) : Conn :=
  MkConn m (pass c) (headerOnce c) (headerErr c) (onceWrite c) (packetWriteBuf c) (closed c) (inp c) (out c).
Definition set_header (e : option error) (c : Conn) : Conn :=
  MkConn (metadata c) (pass c) true e (onceWrite c) (packetWriteBuf c) (closed c) (inp c) (out c).
Definition set_closed (c : Conn) : Conn :=
  MkConn (metadata c) (pass c) (headerOnce c) (headerErr c) (onceWrite c) (packetWriteBuf c) true (inp c) (out c).

(** [c.Conn.Write(b)]: the count and the error of the transport. *)
Definition transport_Write (b : list byte) : st Conn (nat * option error) := fun c =>
  let '(w, r) := Write b (out c) in
  (set_out w c, Ret ((length (w_out w) - length (w_out (out c)))%nat,
                     match r with Ret _ => None | Fail e => Some e | Panic => None end)).

(** A read of the transport. *)
Definition transport_read {A} (m : st stream A) : st Conn A := fun c =>
  let '(r, x) := m (inp c) in (set_inp r c, x).

Section conn.
Context `{BS : BufferSource}.

Definition reqHeaderFromPool (c : Conn) : res (list byte) :=
  let m := base (metadata c) in
  let reqLen := TMetadata_Len m in
  let buf := src_get (56 + 2 + 1 + reqLen + 2) in
  '(buf, _) ← copy_at buf 0 (pass c);
  '(buf, _) ← copy_at buf 56 CRLF;
  buf ← set_at buf 58 (NetworkToByte (Network (metadata c)));
  tl ← slice_from buf 59;
  '(tl, _) ← PackTo m tl;
  let buf := take 59 buf ++ tl in
  '(buf, _) ← copy_at buf (59 + reqLen) CRLF;
  Ret buf.

Definition writeRequestHeader (payload : list byte) : st Conn (nat * option error) :=
  c ← get;
  header ← lift (reqHeaderFromPool c);
  '(n1, e1) ← transport_Write header;
  '(written, err) ←
    match e1 with
    | Some e => mret (n1, Some e)
    | None =>
        if decide (0 < length payload)%nat then
          '(n2, e2) ← transport_Write payload; mret ((n1 + n2)%nat, e2)
        else mret (n1, None)
    end;
  mret (match err with
        | Some e =>
            (if decide (written <= length header)%nat then 0%nat else (written - length header)%nat,
             Some (Wrap "write header" e))
        | None =>
            if decide (written < length header)%nat then (0%nat, Some (Wrap "write header" ErrShortWrite))
            else ((written - length header)%nat, None)
        end).

Definition writeLocked (b : list byte) : st Conn (nat * option error) :=
  c ← get;
  if negb (onceWrite c) && IsClient (base (metadata c)) then
    '(n, err) ← writeRequestHeader b;
    match err with
    | Some _ => mret (n, err)
    | None => modify set_onceWrite ≫= fun _ => mret (n, None)
    end
  else transport_Write b.

Definition Conn_Write (b : list byte) : st Conn (nat * option error) := writeLocked b.

Definition ensureRequestHeader : st Conn (option error) :=
  c ← get;
  if onceWrite c || negb (IsClient (base (metadata c))) then mret None else
  '(_, err) ← writeRequestHeader [];
  match err with
  | Some e => mret (Some e)
  | None => modify set_onceWrite ≫= fun _ => mret None
  end.

Definition expectCRLF (crlf : list byte) : st Conn unit :=
  if decide (crlf = CRLF) then mret tt else fail (Errorf "invalid trojan header CRLF").

Definition ReadReqHeader : st Conn unit :=
  c ← get;
  buf ← transport_read (readFull 56);
  if decide (pass c <> buf) then modify set_closed ≫= fun _ => fail FailAuthErr else
  crlf ← transport_read (readFull 2);
  expectCRLF crlf ≫= fun _ =>
  net ← transport_read (readFull 1);
  b ← lift (index net 0);
  modify (set_metadata (MkTM (base (metadata c)) (ParseNetwork b))) ≫= fun _ =>
  if decide (TMetadata_Len (base (metadata c)) < 2)%nat then fail (Errorf "invalid trojan header") else
  '(m, _) ← transport_read (Unpack (base (metadata c)));
  modify (set_metadata (MkTM m (ParseNetwork b))) ≫= fun _ =>
  crlf ← transport_read (readFull 2);
  expectCRLF crlf.

(** What [Conn.Read] does before it reads the transport. *)
Definition beforeRead : st Conn unit :=
  c ← get;
  (if IsClient (base (metadata c)) && bool_decide (Network (metadata c) = "tcp"%string) && negb (onceWrite c) then
     e ← ensureRequestHeader;
     match e with Some e => fail e | None => mret tt end
   else mret tt) ≫= fun _ =>
  if IsClient (base (metadata c)) then mret tt else
  (if headerOnce c then mret tt
   else fun c => match ReadReqHeader c with
                 | (c', Ret _) => (set_header None c', Ret tt)
                 | (c', Fail e) => (set_header (Some e) c', Ret tt)
                 | (c', Panic) => (c', Panic)
                 end) ≫= fun _ =>
  c ← get;
  match headerErr c with Some e => fail e | None => mret tt end.

(** [Read(b)] with [len(b) = k], of which the transport delivers [got]. *)
Definition Conn_Read (k got : nat) : st Conn (list byte) :=
  beforeRead ≫= fun _ =>
  transport_read (fun r => match r with
                           | [] => if decide (k = 0%nat) then ([], Ret []) else ([], Fail EOF)
                           | _ => (drop (Nat.min k got) r, Ret (take (Nat.min k got) r))
                           end).

(** [io.ReadFull(c.Conn, buf)]: no call of [Read] for an empty buffer. *)
Definition conn_readFull (n : nat) : st Conn (list byte) :=
  if decide (n = 0%nat) then mret [] else
  beforeRead ≫= fun _ => transport_read (readFull n).

Definition maxReusablePacketWriteBufferSize : Z := Z.shiftl 128 10.

(** The slice returned and whether it is the reusable scratch. *)
Definition borrowPacketWriteBuffer (size : nat) : st Conn (list byte * bool) :=
  if decide (Z.of_nat size <= maxReusablePacketWriteBufferSize) then
    c ← get;
    (if decide (length (packetWriteBuf c) < size)%nat
     then modify (set_packetWriteBuf (replicate size x00)) else mret tt) ≫= fun _ =>
    c ← get;
    mret (take size (packetWriteBuf c), true)
  else mret (replicate size x00, false).

(** * UDP framing (packet.go) *)

(** The buffer after sealing and the slice returned. *)
Definition SealUDP (m : Metadata) (dst data : list byte) : res (list byte * list byte) :=
  let n := TMetadata_Len m in
  '(dst, _) ← copy_at dst (n + 4) data;
  '(dst, _) ← PackTo m dst;
  dst ← write_at dst n (be16 (Z.of_nat (length data)));
  '(dst, _) ← copy_at dst (n + 2) CRLF;
  sealed ← slice dst 0 (n + 4 + length data);
  Ret (dst, sealed).

Record PacketConn := MkPC {
  pc_conn : Conn; domainIpMapping : option dcache; writeTarget : LastStringValue Metadata }.

Definition on_conn {A} (m : st Conn A) : st PacketConn A := fun c =>
  let '(x, r) := m (pc_conn c) in (MkPC x (domainIpMapping c) (writeTarget c), r).

Section packet.
Context (Range : dcache -> list (list byte * cval)) (ParseAddr : list byte -> option Addr).
Context (SplitHostPort : list byte -> res (list byte * list byte)).

Definition parseMetadata : list byte -> res Metadata := ParseMetadata ParseAddr SplitHostPort.

Definition metadataForAddr (addr : list byte) : st PacketConn Metadata :=
  c ← get;
  match LastStringValue_Load (writeTarget c) addr with
  | Some m => mret m
  | None =>
      m ← lift (parseMetadata addr);
      modify (fun c => MkPC (pc_conn c) (domainIpMapping c) (LastStringValue_Store addr m (writeTarget c))) ≫= fun _ =>
      mret m
  end.

(** The sealed bytes stay in the reusable scratch. *)
Definition PacketConn_WriteTo (p addr : list byte) : st PacketConn (nat * option error) :=
  m ← metadataForAddr addr;
  '(buf, reused) ← on_conn (borrowPacketWriteBuffer (TMetadata_Len m + 4 + length p));
  '(buf, _) ← lift (SealUDP m buf p);
  (if (reused : bool) then
     on_conn (modify (fun c => set_packetWriteBuf (buf ++ drop (length buf) (packetWriteBuf c)) c))
   else mret tt) ≫= fun _ =>
  '(_, err) ← on_conn (writeLocked buf);
  mret (match err with Some e => (0%nat, Some e) | None => (length p, None) end).

(** The first loop of [WriteBatch]: parse every target before anything is written. *)
Fixpoint batch_targets (items : list (list byte * list byte)) (metas : list Metadata) (total : nat)
    : st PacketConn (list Metadata * nat) :=
  match items with
  | [] => mret (metas, total)
  | (data, addr) :: items =>
      if decide (Z.of_nat (length data) > 0xffff) then fail (Errorf "trojan udp payload too large: %d > %d") else
      m ← metadataForAddr addr;
      batch_targets items (metas ++ [m]) (total + (TMetadata_Len m + 4 + length data))
  end.

(** The second loop: seal each datagram at its offset of the shared buffer. *)
Fixpoint batch_seal (items : list (list byte * list byte)) (metas : list Metadata) (buf : list byte) (offset : nat)
    : res (list byte) :=
  match items, metas with
  | (data, _) :: items, m :: metas =>
      dst ← slice_from buf offset;
      '(dst, sealed) ← SealUDP m dst data;
      batch_seal items metas (take offset buf ++ dst) (offset + length sealed)
  | [], _ => Ret buf
  | _ :: _, [] => Panic
  end.

Definition PacketConn_WriteBatch (items : list (list byte * list byte)) : st PacketConn (nat * option error) :=
  if decide (length items = 0%nat) then mret (0%nat, None) else
  '(metas, total) ← batch_targets items [] 0;
  buf ← lift (batch_seal items metas (src_get total) 0);
  '(_, err) ← on_conn (writeLocked buf);
  mret (match err with Some e => (0%nat, Some e) | None => (length items, None) end).

(** [netproxy.DatagramDropped] *)
(** [io.CopyN(io.Discard, c.Conn, n)], its error ignored. *)
Definition discardN (n : nat) : st Conn unit := fun c => (set_inp (drop n (inp c)) c, Ret tt).

Definition mapAddr (env : lookup_env) (m : Metadata) : st PacketConn AddrPort := fun c =>
  let '(r, cache) := DomainIpMapping Range ParseAddr env m (domainIpMapping c) in
  (MkPC (pc_conn c) cache (writeTarget c), r).

Definition zeroMetadata : Metadata := MkMeta MetadataTypeIPv4 [] 0 AddrZero 0 [] false.

(** [ReadFrom(p)] with [len(p) = plen]: the bytes stored in [p], the address and
    the error that accompanies them. *)
Definition PacketConn_ReadFrom (env : lookup_env) (plen : nat)
    : st PacketConn (list byte * AddrPort * option error) :=
  '(m, _) ← on_conn (beforeRead ≫= fun _ => transport_read (Unpack zeroMetadata));
  lc ← on_conn (conn_readFull 4);
  c2 ← lift (index lc 2);
  c3 ← lift (index lc 3);
  if decide (c2 <> x0d \/ c3 <> x0a) then fail (Errorf "invalid trojan UDP CRLF") else
  let length_ := Z.to_nat (be_get (take 2 lc)) in
  if decide (plen < length_)%nat then
    data ← on_conn (conn_readFull plen);
    on_conn (discardN (length_ - plen)) ≫= fun _ =>
    addr ← mapAddr env m;
    mret (data, addr, Some (DatagramDropped ErrShortBuffer))
  else
    data ← on_conn (conn_readFull length_);
    addr ← mapAddr env m;
    mret (data, addr, None).

(** * Frames *)

Definition frame (m : Metadata) (p : list byte) : list byte :=
  meta_bytes m ++ be16 (Z.of_nat (length p)) ++ CRLF ++ p.

Lemma length_frame m p : meta_ok m -> length (frame m p) = (TMetadata_Len m + 4 + length p)%nat.
Proof.
  intros H. unfold frame. rewrite !length_app, meta_bytes_length, length_be_put by done. cbn. lia.
Qed.

Lemma SealUDP_ok m dst p : meta_ok m -> (TMetadata_Len m + 4 + length p <= length dst)%nat ->
  SealUDP m dst p = Ret (frame m p ++ drop (TMetadata_Len m + 4 + length p) dst, frame m p).
Proof.
  intros H Hl. unfold SealUDP. set (n := TMetadata_Len m) in *.
  rewrite <- (take_drop (n + 4) dst) at 1.
  rewrite copy_at_app by (rewrite ?length_take, ?length_drop; lia). cbn [mbind res_bind].
  set (d1 := (take (n + 4) dst ++ p) ++ _).
  assert (L1 : length d1 = length dst).
  { unfold d1. rewrite !length_app, length_take, !length_drop. lia. }
  assert (D1 : drop (n + 4) d1 = p ++ drop (n + 4 + length p) dst).
  { unfold d1. rewrite <- app_assoc, drop_app_length' by (rewrite length_take; lia). by rewrite drop_drop. }
  rewrite PackTo_ok by (done || fold n; lia). cbn [mbind res_bind]. fold n.
  assert (Lm : length (meta_bytes m) = n) by by apply meta_bytes_length.
  assert (L2 : length (be16 (Z.of_nat (length p))) = 2%nat) by apply length_be_put.
  rewrite write_at_app by (rewrite ?length_drop; lia). cbn [mbind res_bind].
  rewrite L2, drop_drop, copy_at_app by (rewrite ?length_app, ?length_drop, ?L2; change (length CRLF) with 2%nat; lia).
  cbn [mbind res_bind]. change (length CRLF) with 2%nat. rewrite drop_drop.
  replace (n + 2 + 2)%nat with (n + 4)%nat by lia. rewrite D1.
  assert (E : ((meta_bytes m ++ be16 (Z.of_nat (length p))) ++ CRLF) ++ p ++ drop (n + 4 + length p) dst =
    frame m p ++ drop (n + 4 + length p) dst) by (unfold frame; by rewrite <- !app_assoc).
  rewrite E, slice_prefix; [done|]. by rewrite length_frame.
Qed.

(** ** The request header *)

Definition request_header (c : Conn) : list byte :=
  pass c ++ CRLF ++ [NetworkToByte (Network (metadata c))] ++ meta_bytes (base (metadata c)) ++ CRLF.

Definition conn_ok (c : Conn) : Prop := length (pass c) = 56%nat /\ meta_ok (base (metadata c)).

Lemma reqHeaderFromPool_ok c : conn_ok c -> reqHeaderFromPool c = Ret (request_header c).
Proof.
  intros [Hp H]. unfold reqHeaderFromPool, request_header.
  set (m := base (metadata c)) in *. set (n := TMetadata_Len m).
  set (b0 := src_get _). assert (L0 : length b0 = (61 + n)%nat) by (unfold b0; rewrite src_length; fold n; lia).
  assert (Lm : length (meta_bytes m) = n) by by apply meta_bytes_length.
  rewrite copy_at_0 by lia. cbn [mbind res_bind].
  rewrite Hp, copy_at_app by (rewrite ?length_drop; cbn; lia). cbn [mbind res_bind].
  change (length CRLF) with 2%nat. rewrite drop_drop.
  rewrite set_at_app by (rewrite ?length_app, ?length_drop; cbn; lia). cbn [mbind res_bind].
  rewrite drop_drop. set (b1 := ((pass c ++ CRLF) ++ _)).
  assert (L1 : length b1 = 59%nat) by (unfold b1; rewrite !length_app; cbn; lia).
  rewrite slice_from_app by done. cbn [mbind res_bind].
  rewrite PackTo_ok by (rewrite ?length_drop; fold n; done || lia). cbn [mbind res_bind]. fold n.
  rewrite take_app_length' by done. rewrite app_assoc, copy_at_app by (rewrite ?length_app, ?length_drop; change (length CRLF) with 2%nat; lia).
  cbn [mbind res_bind]. change (length CRLF) with 2%nat. rewrite !drop_drop.
  rewrite (drop_ge b0) by lia. unfold b1. by rewrite app_nil_r, <- !app_assoc.
Qed.

(** ** Writing *)

(** A transport that accepts everything. *)
Definition open_out (c : Conn) : Prop := w_room (out c) = None.

Lemma transport_Write_ok b c : open_out c ->
  transport_Write b c = (set_out (MkWriter (w_out (out c) ++ b) None) c, Ret (length b, None)).
Proof.
  intros H. unfold transport_Write, Write. rewrite H. cbn. by rewrite length_app, add_sub_cancel.
Qed.

(** What the first write of a client sends ahead of its payload. *)
Definition owed (c : Conn) : list byte :=
  if negb (onceWrite c) && IsClient (base (metadata c)) then request_header c else [].

Definition written_to (bs : list byte) (c c' : Conn) : Prop :=
  w_out (out c') = w_out (out c) ++ owed c ++ bs /\ open_out c' /\ owed c' = [] /\ conn_ok c' /\
  metadata c' = metadata c /\ pass c' = pass c.

Lemma writeRequestHeader_ok b c : conn_ok c -> open_out c ->
  writeRequestHeader b c =
    (set_out (MkWriter (w_out (out c) ++ request_header c ++ b) None) c, Ret (length b, None)).
Proof.
  intros H Ho. unfold writeRequestHeader. st_pure. unfold lift. rewrite reqHeaderFromPool_ok by done. st_pure.
  erewrite st_bind_Ret; [|by apply transport_Write_ok].
  case_decide as Hb.
  - erewrite st_bind_Ret; [|erewrite st_bind_Ret; [|by apply transport_Write_ok]; reflexivity].
    unfold mret, st_ret. rewrite decide_False by lia. cbn. by rewrite add_sub_cancel, <- app_assoc.
  - destruct b; [|cbn in Hb; lia]. st_pure. unfold mret, st_ret. rewrite decide_False by lia.
    by rewrite Nat.sub_diag, app_nil_r.
Qed.

Lemma writeLocked_ok b c : conn_ok c -> open_out c ->
  exists c', writeLocked b c = (c', Ret (length b, None)) /\ written_to b c c' /\
    packetWriteBuf c' = packetWriteBuf c.
Proof.
  intros H Ho. unfold writeLocked, written_to, owed. st_pure.
  destruct (negb (onceWrite c) && IsClient (base (metadata c))) eqn:E.
  - erewrite st_bind_Ret; [|by apply writeRequestHeader_ok]. eexists. split; [reflexivity|].
    split; [|done]. split_and!; done.
  - rewrite transport_Write_ok by done. eexists. split; [reflexivity|]. split; [|done].
    split_and!; try done. cbn. by rewrite E.
Qed.

(** * A client sends datagrams *)

Definition target_cache_ok (c : PacketConn) : Prop :=
  forall k v, writeTarget c = Some (k, v) -> parseMetadata k = Ret v.

Definition pc_ok (c : PacketConn) : Prop :=
  conn_ok (pc_conn c) /\ open_out (pc_conn c) /\ target_cache_ok c.

Lemma metadataForAddr_ok addr m c : pc_ok c -> parseMetadata addr = Ret m ->
  exists c', metadataForAddr addr c = (c', Ret m) /\ pc_ok c' /\ pc_conn c' = pc_conn c.
Proof.
  intros (H1 & H2 & H3) E. unfold metadataForAddr. st_pure.
  destruct (LastStringValue_Load (writeTarget c) addr) as [v|] eqn:El.
  - exists c. unfold LastStringValue_Load in El. destruct (writeTarget c) as [[k v']|] eqn:Ew; [|done].
    case_decide as Hk; [|done]. injection El as <-. specialize (H3 k v' Ew). subst k.
    rewrite E in H3. injection H3 as <-. split; [done|]. split; [|done]. split; [done|]. split; [done|].
    intros k0 v0. rewrite Ew. by intros [= <- <-].
  - unfold lift. rewrite E. st_pure. eexists. split; [reflexivity|]. split; [|done].
    split; [done|]. split; [done|]. intros k v. cbn. by intros [= <- <-].
Qed.

Lemma borrow_ok size c : exists b reused c', borrowPacketWriteBuffer size c = (c', Ret (b, reused)) /\
  length b = size /\ metadata c' = metadata c /\ pass c' = pass c /\ out c' = out c /\ onceWrite c' = onceWrite c.
Proof.
  unfold borrowPacketWriteBuffer. case_decide; [|do 3 eexists; split; [reflexivity|]; by rewrite length_replicate].
  st_pure. case_decide.
  - st_pure. do 3 eexists. split; [reflexivity|]. cbn. by rewrite length_take, length_replicate, Nat.min_id.
  - st_pure. do 3 eexists. split; [reflexivity|]. rewrite length_take. split; [lia|done].
Qed.

Lemma on_conn_Ret {A} (m : st Conn A) c x a : m (pc_conn c) = (x, Ret a) ->
  on_conn m c = (MkPC x (domainIpMapping c) (writeTarget c), Ret a).
Proof. intros E. unfold on_conn. by rewrite E. Qed.

(** The same connection apart from its scratch buffer. *)
Lemma conn_same_ok c c' : conn_ok c -> metadata c' = metadata c -> pass c' = pass c -> conn_ok c'.
Proof. unfold conn_ok. by intros H -> ->. Qed.

Lemma owed_same c c' : metadata c' = metadata c -> pass c' = pass c -> onceWrite c' = onceWrite c -> owed c' = owed c.
Proof. unfold owed, request_header. by intros -> -> ->. Qed.

(** The bytes a client still owes before [bs], and afterwards nothing. *)
Definition pc_sent (bs : list byte) (c c' : PacketConn) : Prop :=
  pc_ok c' /\ w_out (out (pc_conn c')) = w_out (out (pc_conn c)) ++ owed (pc_conn c) ++ bs /\
  owed (pc_conn c') = [].

Lemma writeLocked_pc b c : pc_ok c ->
  exists c', on_conn (writeLocked b) c = (c', Ret (length b, None)) /\ pc_sent b c c'.
Proof.
  intros (H1 & H2 & H3). destruct (writeLocked_ok b (pc_conn c) H1 H2) as (x & E & (W1 & W2 & W3 & W4 & _) & _).
  eexists. split; [by apply on_conn_Ret|]. split; [|done]. split; [done|]. by split.
Qed.

Lemma WriteTo_ok p addr m c : pc_ok c -> parseMetadata addr = Ret m -> meta_ok m ->
  exists c', PacketConn_WriteTo p addr c = (c', Ret (length p, None)) /\ pc_sent (frame m p) c c'.
Proof.
  intros H E Hm. unfold PacketConn_WriteTo.
  destruct (metadataForAddr_ok addr m c H E) as (c1 & E1 & (A1 & A2 & A3) & C1).
  erewrite st_bind_Ret; [|exact E1].
  destruct (borrow_ok (TMetadata_Len m + 4 + length p) (pc_conn c1)) as (b & reused & x & Eb & Lb & B1 & B2 & B3 & B4).
  erewrite st_bind_Ret; [|by apply on_conn_Ret]. unfold lift. rewrite SealUDP_ok by (done || lia). st_pure.
  rewrite <- Lb, drop_all, app_nil_r.
  set (c2 := MkPC x (domainIpMapping c1) (writeTarget c1)).
  assert (H2 : exists c3, (if reused then on_conn (modify (fun c0 => set_packetWriteBuf
      (frame m p ++ drop (length (frame m p)) (packetWriteBuf c0)) c0)) else mret ()) c2 = (c3, Ret tt) /\
    pc_ok c3 /\ out (pc_conn c3) = out (pc_conn c) /\ owed (pc_conn c3) = owed (pc_conn c)).
  { rewrite <- C1. destruct reused; eexists; (split; [reflexivity|]); (split; [split|]).
    1,4: by eapply (conn_same_ok (pc_conn c1)).
    1,3: (split; [unfold open_out; cbn; by rewrite B3|done]).
    all: split; [exact B3|by apply owed_same]. }
  destruct H2 as (c3 & E3 & H3 & O3 & W3). erewrite st_bind_Ret; [|exact E3].
  destruct (writeLocked_pc (frame m p) c3 H3) as (c4 & E4 & S4). erewrite st_bind_Ret; [|exact E4].
  eexists. split; [reflexivity|]. unfold pc_sent in *. by rewrite O3, W3 in S4.
Qed.

Lemma batch_targets_ok items ms : forall c metas total, pc_ok c ->
  Forall2 (fun it m => parseMetadata it.2 = Ret m /\ Z.of_nat (length it.1) <= 0xffff) items ms ->
  exists c', batch_targets items metas total c =
      (c', Ret (metas ++ ms, (total + sum_list (zip_with (fun it m => TMetadata_Len m + 4 + length it.1)%nat items ms))%nat)) /\
    pc_ok c' /\ pc_conn c' = pc_conn c.
Proof.
  revert ms. induction items as [|[data addr] items IH]; intros ms c metas total H F; cbn [batch_targets].
  - apply Forall2_nil_inv_l in F as ->. exists c. rewrite app_nil_r, Nat.add_0_r. done.
  - apply Forall2_cons_inv_l in F as (m & ms' & [E Hd] & F & ->). cbn [fst snd] in *.
    rewrite decide_False by lia. destruct (metadataForAddr_ok addr m c H E) as (c1 & E1 & H1 & C1).
    erewrite st_bind_Ret; [|exact E1].
    destruct (IH ms' c1 (metas ++ [m]) (total + (TMetadata_Len m + 4 + length data))%nat H1 F) as (c2 & E2 & H2 & C2).
    exists c2. rewrite E2, <- app_assoc. cbn. split; [do 3 f_equal; lia|]. split; [done|congruence].
Qed.

Definition frames (items : list (list byte * list byte)) (ms : list Metadata) : list byte :=
  concat (zip_with (fun it m => frame m it.1) items ms).

Lemma batch_seal_ok items ms : forall done rest,
  Forall2 (fun it m => meta_ok m) items ms ->
  (sum_list (zip_with (fun it m => TMetadata_Len m + 4 + length it.1)%nat items ms) <= length rest)%nat ->
  batch_seal items ms (done ++ rest) (length done) =
    Ret (done ++ frames items ms ++
         drop (sum_list (zip_with (fun it m => TMetadata_Len m + 4 + length it.1)%nat items ms)) rest).
Proof.
  revert ms. induction items as [|[data addr] items IH]; intros ms dn rest F Hl.
  - apply Forall2_nil_inv_l in F as ->. done.
  - apply Forall2_cons_inv_l in F as (m & ms' & Hm & F & ->). cbn [batch_seal zip_with sum_list_with fst] in *. unfold id in *.
    rewrite slice_from_app by done. cbn [mbind res_bind]. rewrite SealUDP_ok by (done || lia). cbn [mbind res_bind].
    rewrite take_app_length, app_assoc, <- length_app, IH; [|done|].
    + unfold frames. cbn [zip_with concat fst]. by rewrite drop_drop, <- !app_assoc.
    + rewrite length_drop. lia.
Qed.

(** A datagram [it] that can be sent to the target [m]. *)
Definition sendable (it : list byte * list byte) (m : Metadata) : Prop :=
  parseMetadata it.2 = Ret m /\ meta_ok m /\ Z.of_nat (length it.1) <= 0xffff.

Lemma WriteBatch_ok items ms c : pc_ok c -> Forall2 sendable items ms -> items <> [] ->
  exists c', PacketConn_WriteBatch items c = (c', Ret (length items, None)) /\ pc_sent (frames items ms) c c'.
Proof.
  intros H F Hne. unfold PacketConn_WriteBatch. rewrite decide_False by (by destruct items).
  destruct (batch_targets_ok items ms c [] 0 H) as (c1 & E1 & H1 & C1).
  { eapply Forall2_impl; [exact F|]. intros it m (? & _ & ?). done. }
  erewrite st_bind_Ret; [|exact E1]. cbn [app Nat.add]. unfold lift. set (total := sum_list_with id _).
  pose proof (batch_seal_ok items ms [] (src_get total)) as Hb. cbn [app length] in Hb. rewrite Hb.
  2:{ eapply Forall2_impl; [exact F|]. intros it m (_ & ? & _). done. }
  2:{ rewrite src_length. done. }
  rewrite drop_ge, app_nil_r by (rewrite src_length; done). st_pure.
  destruct (writeLocked_pc (frames items ms) c1 H1) as (c2 & E2 & S2). erewrite st_bind_Ret; [|exact E2].
  eexists. split; [reflexivity|]. unfold pc_sent in *. by rewrite C1 in S2.
Qed.

(** The calls of a client. *)
Inductive send := SendOne (it : list byte * list byte) | SendBatch (items : list (list byte * list byte)).
Definition send_datagrams (o : send) : list (list byte * list byte) :=
  match o with SendOne it => [it] | SendBatch items => items end.
Definition send_step (o : send) : st PacketConn (nat * option error) :=
  match o with SendOne it => PacketConn_WriteTo it.1 it.2 | SendBatch items => PacketConn_WriteBatch items end.

Fixpoint send_all (ops : list send) : st PacketConn (list (nat * option error)) :=
  match ops with
  | [] => mret []
  | o :: ops => r ← send_step o; rs ← send_all ops; mret (r :: rs)
  end.

(** Nothing is sent, the request header included, until the first datagram. *)
Definition sent_since (bs : list byte) (c c' : PacketConn) : Prop :=
  pc_ok c' /\
  ((bs = [] /\ w_out (out (pc_conn c')) = w_out (out (pc_conn c)) /\ owed (pc_conn c') = owed (pc_conn c)) \/
   (w_out (out (pc_conn c')) = w_out (out (pc_conn c)) ++ owed (pc_conn c) ++ bs /\ owed (pc_conn c') = [])).

Lemma sent_since_trans a b c1 c2 c3 : sent_since a c1 c2 -> sent_since b c2 c3 -> sent_since (a ++ b) c1 c3.
Proof.
  intros [_ A] [H B]. split; [done|].
  destruct A as [(-> & A1 & A2)|[A1 A2]], B as [(-> & B1 & B2)|[B1 B2]].
  - left. split; [done|]. split; congruence.
  - right. by rewrite B1, A1, A2.
  - right. rewrite B1, B2, A1, app_nil_r. done.
  - right. by rewrite B1, A1, A2, <- !app_assoc.
Qed.

Lemma send_step_ok o ms c : pc_ok c -> Forall2 sendable (send_datagrams o) ms ->
  exists c' n, send_step o c = (c', Ret (n, None)) /\ sent_since (frames (send_datagrams o) ms) c c'.
Proof.
  intros H F. destruct o as [it|items]; cbn [send_datagrams send_step] in *.
  - apply Forall2_cons_inv_l in F as (m & ms' & (E & Hm & _) & F & ->). apply Forall2_nil_inv_l in F as ->.
    destruct (WriteTo_ok it.1 it.2 m c H E Hm) as (c' & E' & (S1 & S2 & S3)). exists c', (length it.1). split; [done|].
    split; [done|]. right. unfold frames. cbn. by rewrite app_nil_r.
  - destruct items as [|it items].
    + apply Forall2_nil_inv_l in F as ->. exists c, 0%nat. split; [done|]. split; [done|]. by left.
    + destruct (WriteBatch_ok (it :: items) ms c H F) as (c' & E' & (S1 & S2 & S3)); [done|].
      exists c', (length (it :: items)). split; [done|]. split; [done|]. by right.
Qed.

Lemma frames_app a b ms ms' : length a = length ms -> frames (a ++ b) (ms ++ ms') = frames a ms ++ frames b ms'.
Proof. intros H. unfold frames. by rewrite zip_with_app, concat_app. Qed.

Lemma send_all_ok ops : forall ms c, pc_ok c -> Forall2 sendable (ops ≫= send_datagrams) ms ->
  exists c' rs, send_all ops c = (c', Ret rs) /\ Forall (fun r => r.2 = None) rs /\
    sent_since (frames (ops ≫= send_datagrams) ms) c c'.
Proof.
  induction ops as [|o ops IH]; intros ms c H F; cbn [send_all].
  - cbn in F. apply Forall2_nil_inv_l in F as ->. exists c, []. split; [done|]. split; [done|]. split; [done|]. by left.
  - cbn in F. apply Forall2_app_inv_l in F as (ms1 & ms2 & F1 & F2 & ->).
    destruct (send_step_ok o ms1 c H F1) as (c1 & n & E1 & S1). erewrite st_bind_Ret; [|exact E1].
    destruct (IH ms2 c1 (proj1 S1) F2) as (c2 & rs & E2 & Hrs & S2). erewrite st_bind_Ret; [|exact E2].
    do 2 eexists. split; [reflexivity|]. split; [by constructor|].
    rewrite bind_cons, frames_app by (by eapply Forall2_length). by eapply sent_since_trans.
Qed.

(** * The peer reads them *)

(** A connection on which [Read] goes straight to the transport. *)
Definition ready (c : Conn) : Prop :=
  (IsClient (base (metadata c)) = true /\ (Network (metadata c) <> "tcp"%string \/ onceWrite c = true)) \/
  (IsClient (base (metadata c)) = false /\ headerOnce c = true /\ headerErr c = None).

Lemma beforeRead_ready c : ready c -> beforeRead c = (c, Ret tt).
Proof.
  intros H. unfold beforeRead. st_pure. destruct H as [[-> H]|(-> & H1 & H2)].
  - cbn [andb]. destruct (bool_decide_reflect (Network (metadata c) = "tcp"%string)) as [E|E]; cbn [andb].
    + destruct H as [|H]; [done|]. rewrite H. cbn [negb]. st_pure. done.
    + st_pure. done.
  - cbn [andb]. st_pure. rewrite H1. st_pure. st_pure. by rewrite H2.
Qed.

Lemma ready_inp r c : ready c -> ready (set_inp r c).
Proof. by destruct c. Qed.

Lemma conn_readFull_ready a b n c : ready c -> inp c = a ++ b -> n = length a ->
  conn_readFull n c = (set_inp b c, Ret a).
Proof.
  intros H E ->. unfold conn_readFull. case_decide as Hn.
  - destruct a; [|done]. cbn in E. subst b. by destruct c.
  - erewrite st_bind_Ret; [|by apply beforeRead_ready]. unfold transport_read.
    by rewrite E, readFull_app.
Qed.

(** One datagram: exactly its frame leaves the stream, also when the buffer is
    too small or the reported address cannot be resolved. *)
Definition read_result (env : lookup_env) (plen : nat) (m : Metadata) (p : list byte) (cache : option dcache)
    : res (list byte * AddrPort * option error) * option dcache :=
  let '(r, cache) := DomainIpMapping Range ParseAddr env (received zeroMetadata m) cache in
  (ap ← r; Ret (take plen p, ap, if decide (plen < length p)%nat then Some (DatagramDropped ErrShortBuffer) else None),
   cache).

Lemma ReadFrom_frame env plen m p rest c : ready (pc_conn c) -> meta_ok m ->
  Z.of_nat (length p) <= 0xffff -> inp (pc_conn c) = frame m p ++ rest ->
  let '(r, cache) := read_result env plen m p (domainIpMapping c) in
  PacketConn_ReadFrom env plen c = (MkPC (set_inp rest (pc_conn c)) cache (writeTarget c), r).
Proof.
  intros H Hm Hp E. unfold read_result, PacketConn_ReadFrom.
  destruct (DomainIpMapping _ _ _ _ _) as [r cache] eqn:Ed. unfold frame in E. rewrite <- app_assoc in E.
  destruct (be16_shape (Z.of_nat (length p)) ltac:(lia)) as (b1 & b2 & Eb & Eg). rewrite Eb in E.
  set (r1 := ([b1; b2] ++ CRLF ++ p) ++ rest) in *.
  assert (E1 : on_conn (beforeRead ≫= fun _ => transport_read (Unpack zeroMetadata)) c =
    (MkPC (set_inp r1 (pc_conn c)) (domainIpMapping c) (writeTarget c), Ret (received zeroMetadata m, TMetadata_Len m))).
  { apply on_conn_Ret. erewrite st_bind_Ret; [|by apply beforeRead_ready]. unfold transport_read.
    by rewrite E, Unpack_ok. }
  erewrite st_bind_Ret; [|exact E1]. cbv beta iota.
  assert (R1 : ready (set_inp r1 (pc_conn c))) by by apply ready_inp.
  erewrite st_bind_Ret; [|apply on_conn_Ret, (conn_readFull_ready [b1; b2; x0d; x0a] (p ++ rest)); [done|done|done]].
  do 2 st_pure. rewrite decide_False by (intros [|]; done). cbn [take]. rewrite Eg, Nat2Z.id.
  cbn [pc_conn domainIpMapping writeTarget].
  set (c1 := set_inp (p ++ rest) (set_inp r1 (pc_conn c))).
  assert (R2 : ready c1) by (by do 2 apply ready_inp).
  case_decide as Hl.
  - erewrite st_bind_Ret; [|apply on_conn_Ret, (conn_readFull_ready (take plen p) (drop plen p ++ rest));
      [exact R2|by rewrite app_assoc, take_drop|rewrite length_take; lia]].
    erewrite st_bind_Ret; [|reflexivity]. cbn [pc_conn domainIpMapping writeTarget inp set_inp c1].
    rewrite drop_app_length' by (rewrite length_drop; lia).
    unfold mapAddr at 1, mbind at 1, st_bind. cbn [domainIpMapping]. rewrite Ed. by destruct r.
  - erewrite st_bind_Ret; [|apply on_conn_Ret, (conn_readFull_ready p rest); [exact R2|done|done]].
    rewrite take_ge by lia. unfold mapAddr at 1, mbind at 1, st_bind. cbn [domainIpMapping].
    rewrite Ed. by destruct r.
Qed.

(** ** The request header at the server *)

Lemma transport_readFull_app a b n c : inp c = a ++ b -> n = length a ->
  transport_read (readFull n) c = (set_inp b c, Ret a).
Proof. intros E ->. unfold transport_read. by rewrite E, readFull_app. Qed.

Lemma ParseNetwork_ToByte n : n = "tcp"%string \/ n = "udp"%string -> ParseNetwork (NetworkToByte n) = n.
Proof. by intros [-> | ->]. Qed.

(** The server after it accepted the header of [cl]. *)
Definition accepted (cl sv : Conn) (rest : stream) : Conn :=
  set_header None (set_inp rest (set_metadata
    (MkTM (received (base (metadata sv)) (base (metadata cl))) (Network (metadata cl))) sv)).

Lemma ReadReqHeader_ok cl sv rest : conn_ok cl -> pass sv = pass cl ->
  (Network (metadata cl) = "tcp"%string \/ Network (metadata cl) = "udp"%string) ->
  (2 <= TMetadata_Len (base (metadata sv)))%nat -> inp sv = request_header cl ++ rest ->
  ReadReqHeader sv = (set_inp rest (set_metadata
    (MkTM (received (base (metadata sv)) (base (metadata cl))) (Network (metadata cl))) sv), Ret tt).
Proof.
  intros [Hp Hm] Ep Hn Hl E. unfold ReadReqHeader. st_pure. unfold request_header in E.
  rewrite <- !app_assoc in E.
  erewrite st_bind_Ret; [|by apply transport_readFull_app]. rewrite decide_False by (rewrite Ep; tauto).
  erewrite st_bind_Ret; [|by apply (transport_readFull_app CRLF)].
  unfold expectCRLF. rewrite decide_True by done. st_pure.
  erewrite st_bind_Ret; [|by eapply (transport_readFull_app [_])]. st_pure. st_pure.
  rewrite ParseNetwork_ToByte by done. rewrite decide_False by lia.
  erewrite st_bind_Ret; [|unfold transport_read; cbn [inp set_inp set_metadata];
    rewrite Unpack_ok by done; reflexivity]. cbv beta iota. st_pure.
  erewrite st_bind_Ret; [|by apply (transport_readFull_app CRLF)].
  rewrite decide_True by done. by destruct sv.
Qed.

(** A server that has not read anything yet. *)
Definition fresh_server (cl sv : Conn) : Prop :=
  IsClient (base (metadata sv)) = false /\ headerOnce sv = false /\ pass sv = pass cl /\
  (2 <= TMetadata_Len (base (metadata sv)))%nat.

Lemma received_IsClient m0 m : IsClient (received m0 m) = IsClient m0.
Proof. unfold received. by destruct (Type_ m). Qed.

Lemma beforeRead_header cl sv rest : conn_ok cl -> fresh_server cl sv ->
  (Network (metadata cl) = "tcp"%string \/ Network (metadata cl) = "udp"%string) ->
  inp sv = request_header cl ++ rest ->
  beforeRead sv = (accepted cl sv rest, Ret tt) /\ ready (accepted cl sv rest).
Proof.
  intros H (H1 & H2 & H3 & H4) Hn E. split.
  - unfold beforeRead. st_pure. rewrite H1. cbn [andb]. st_pure. rewrite H2.
    erewrite st_bind_Ret; [|by rewrite (ReadReqHeader_ok cl sv rest H H3 Hn H4 E)].
    st_pure. done.
  - right. cbn. by rewrite received_IsClient.
Qed.

Lemma ReadFrom_first env plen c x : beforeRead (pc_conn c) = (x, Ret tt) -> ready x ->
  PacketConn_ReadFrom env plen c = PacketConn_ReadFrom env plen (MkPC x (domainIpMapping c) (writeTarget c)).
Proof.
  intros E H. unfold PacketConn_ReadFrom.
  assert (E1 : forall A (k : unit -> st Conn A), on_conn (beforeRead ≫= k) c =
    on_conn (beforeRead ≫= k) (MkPC x (domainIpMapping c) (writeTarget c))).
  { intros A k. unfold on_conn. cbn [pc_conn domainIpMapping writeTarget].
    erewrite (st_bind_Ret beforeRead); [|exact E]. erewrite (st_bind_Ret beforeRead); [|by apply beforeRead_ready]. done. }
  unfold mbind at 1, st_bind at 1. rewrite E1. done.
Qed.

(** ** Sequences of reads *)

Fixpoint read_all (reads : list (lookup_env * nat)) (c : PacketConn)
    : PacketConn * list (res (list byte * AddrPort * option error)) :=
  match reads with
  | [] => (c, [])
  | (env, plen) :: reads =>
      let '(c, r) := PacketConn_ReadFrom env plen c in
      let '(c, rs) := read_all reads c in (c, r :: rs)
  end.

(** What the reader obtains for the datagrams [(it, m)]. *)
Fixpoint delivered (reads : list (lookup_env * nat)) (items : list (list byte * list byte)) (ms : list Metadata)
    (cache : option dcache) : list (res (list byte * AddrPort * option error)) :=
  match reads, items, ms with
  | (env, plen) :: reads, it :: items, m :: ms =>
      let '(r, cache) := read_result env plen m it.1 cache in r :: delivered reads items ms cache
  | _, _, _ => []
  end.

Lemma read_all_ok reads : forall items ms c, ready (pc_conn c) -> Forall2 sendable items ms ->
  length reads = length items -> inp (pc_conn c) = frames items ms ->
  exists cache, read_all reads c =
    (MkPC (set_inp [] (pc_conn c)) cache (writeTarget c), delivered reads items ms (domainIpMapping c)).
Proof.
  induction reads as [|[env plen] reads IH]; intros items ms c H F Hl E; cbn [read_all delivered].
  - destruct items; [|done]. apply Forall2_nil_inv_l in F as ->. exists (domainIpMapping c). cbn in E.
    destruct c as [[]]. cbn in *. by subst.
  - destruct items as [|it items]; [done|]. apply Forall2_cons_inv_l in F as (m & ms' & (_ & Hm & Hd) & F & ->).
    change (frames (it :: items) (m :: ms')) with (frame m it.1 ++ frames items ms') in E.
    pose proof (ReadFrom_frame env plen m it.1 _ c H Hm Hd E) as Hr. cbn [delivered].
    destruct (read_result env plen m it.1 (domainIpMapping c)) as [r cache]. rewrite Hr.
    destruct (IH items ms' (MkPC (set_inp (frames items ms') (pc_conn c))
      cache (writeTarget c))) as (cache' & E2); [by apply ready_inp|done|cbn in Hl; lia|done|].
    rewrite E2. eexists. done.
Qed.

(** C17: Everything a Trojan UDP client sends is what the server reads, for any
    mixture of [WriteTo] and [WriteBatch] calls, any stale contents of the pool
    and scratch buffers and any text form of addresses: the writes succeed,
    and a server with the same password accepts the request header, learns the
    client's target and then reads the datagrams one by one, in order and
    complete; a read into a short buffer reports the drop, and neither that
    nor a failing resolution of the reported address disturbs the next
    datagram. *)
Theorem trojan_udp_roundtrip ops ms cl sv reads :
  pc_ok cl -> IsClient (base (metadata (pc_conn cl))) = true -> onceWrite (pc_conn cl) = false ->
  Network (metadata (pc_conn cl)) = "udp"%string -> w_out (out (pc_conn cl)) = [] ->
  Forall2 sendable (ops ≫= send_datagrams) ms -> ops ≫= send_datagrams <> [] ->
  fresh_server (pc_conn cl) (pc_conn sv) -> length reads = length ms ->
  exists cl' rs, send_all ops cl = (cl', Ret rs) /\ Forall (fun r => r.2 = None) rs /\
    let '(sv', got) := read_all reads
      (MkPC (set_inp (w_out (out (pc_conn cl'))) (pc_conn sv)) (domainIpMapping sv) (writeTarget sv)) in
    got = delivered reads (ops ≫= send_datagrams) ms (domainIpMapping sv) /\
    inp (pc_conn sv') = [] /\
    metadata (pc_conn sv') =
      MkTM (received (base (metadata (pc_conn sv))) (base (metadata (pc_conn cl)))) "udp"%string.
Proof.
  intros H Hc Ho Hn Hw F Hne Hs Hl.
  destruct (send_all_ok ops ms cl H F) as (cl' & rs & E & Hrs & (_ & S)). exists cl', rs.
  split; [done|]. split; [done|].
  assert (Hf : w_out (out (pc_conn cl')) = request_header (pc_conn cl) ++ frames (ops ≫= send_datagrams) ms).
  { assert (Howed : owed (pc_conn cl) = request_header (pc_conn cl)) by (unfold owed; by rewrite Ho, Hc).
    destruct S as [(S1 & _)|[S1 _]]; [|by rewrite S1, Hw, Howed].
    destruct (ops ≫= send_datagrams) as [|it its] eqn:Ei; [done|].
    apply Forall2_cons_inv_l in F as (m & ms' & (_ & Hm & _) & _ & ->).
    unfold frames in S1. cbn in S1. by unfold frame, meta_bytes in S1. }
  rewrite Hf. set (x := set_inp _ (pc_conn sv)).
  destruct (beforeRead_header (pc_conn cl) x (frames (ops ≫= send_datagrams) ms)) as [B R]; [apply H|done|by right|done|].
  destruct reads as [|[env plen] reads].
  { destruct ms; [|done]. apply Forall2_nil_inv_r in F. done. }
  cbn [read_all]. rewrite (ReadFrom_first env plen (MkPC x (domainIpMapping sv) (writeTarget sv)) _ B R).
  destruct (read_all_ok ((env, plen) :: reads) (ops ≫= send_datagrams) ms
    (MkPC (accepted (pc_conn cl) x (frames (ops ≫= send_datagrams) ms)) (domainIpMapping sv) (writeTarget sv)))
    as (cache & Er); [done|done| |done|].
  { rewrite Hl. symmetry. by eapply Forall2_length. }
  cbn [read_all] in Er. cbn [domainIpMapping writeTarget] in *. rewrite Er. cbn. by rewrite Hn.
Qed.
End packet.
End conn.
End ip_text.

(** Two lengths the encoder accepts and mangles.  A name of 254 or 255 bytes:
    the offset of the port is computed in byte arithmetic and wraps, so the port
    overwrites the head of the frame (the decoder widens the length first).  A
    datagram of 65536 bytes passed to [WriteTo], which unlike [WriteBatch] does
    not check: its frame announces an empty payload. *)
Theorem trojan_length_gaps ParseIP :
  (exists dst n, PackTo ParseIP (MkMeta MetadataTypeDomain (replicate 254 x61) 0x1234 AddrZero 0 [] true)
                   (replicate 258 x00) = Ret (dst, n) /\ take 2 dst = [x12; x34] /\ n <> 258%nat) /\
  (forall m dst p, meta_ok ParseIP m -> Z.of_nat (length p) = 65536 ->
     (TMetadata_Len m + 4 + length p <= length dst)%nat ->
     exists dst', SealUDP ParseIP m dst p = Ret (dst', meta_bytes ParseIP m ++ [x00; x00] ++ CRLF ++ p)).
Proof.
  split.
  - do 2 eexists. split; [vm_compute; reflexivity|]. split; [done|vm_compute; done].
  - intros m dst p Hm Hp Hl. eexists. rewrite SealUDP_ok by done. unfold frame. by rewrite Hp.
Qed.

(** ** Witness *)

Definition demo_source : BufferSource := pool_source init_pools init_pools_wf None.

(** [ParseAddr] that accepts nothing: every target is a domain. *)
Definition demo_split (s : list byte) : res (list byte * list byte) := Ret (s, [x35; x33]).

Definition demo_meta (client : bool) : Metadata := MkMeta MetadataTypeDomain [x61] 53 AddrZero 0 [] client.
Definition demo_conn (client : bool) : Conn :=
  MkConn (MkTM (demo_meta client) "udp") (replicate 56 x41) false None false [] false [] (MkWriter [] None).
Definition demo_pc (client : bool) : PacketConn := MkPC (demo_conn client) (Some ∅) None.
Definition demo_sends : list send :=
  [SendOne ([x01; x02], [x61]); SendBatch [([x03], [x62]); ([], [x61])]].
Definition demo_env : lookup_env := MkLE 0 0 0 None (fun _ => Ret [Addr4 [x01; x01; x01; x01]]).
Definition demo_targets : list Metadata :=
  (fun h => MkMeta MetadataTypeDomain h 53 AddrZero 0 [] false) <$> [[x61]; [x62]; [x61]].

Lemma demo_meta_ok c : meta_ok id (demo_meta c).
Proof. split; cbn; lia. Qed.

Lemma trojan_udp_roundtrip_witness :
  exists cl' rs, send_all id (BS := demo_source) (fun _ => None) demo_split demo_sends (demo_pc true) = (cl', Ret rs) /\
    Forall (fun r => r.2 = None) rs /\
    let '(sv', got) := read_all id id (BS := demo_source) map_to_list (fun _ => None) (replicate 3 (demo_env, 1500%nat))
      (MkPC (set_inp (w_out (out (pc_conn cl'))) (demo_conn false)) (Some ∅) None) in
    got = delivered id id map_to_list (fun _ => None) (replicate 3 (demo_env, 1500%nat)) (demo_sends ≫= send_datagrams)
            demo_targets (Some ∅) /\
    inp (pc_conn sv') = [] /\
    metadata (pc_conn sv') = MkTM (received id id (demo_meta false) (demo_meta true)) "udp"%string.
Proof.
  apply (trojan_udp_roundtrip id id (BS := demo_source) map_to_list (fun _ => None) demo_split demo_sends demo_targets
    (demo_pc true) (demo_pc false) (replicate 3 (demo_env, 1500%nat))); try done.
  - split; [split; [done|apply demo_meta_ok]|]. split; [done|]. by intros k v.
  - repeat apply Forall2_cons_2; try apply Forall2_nil_2; (split; [vm_compute; reflexivity|]); (split; [split; cbn; lia|cbn; lia]).
  - split; [done|]. split; [done|]. split; [done|]. cbn. lia.
Defined.
