(* ===== verification/Socks.v ===== *)
(** SOCKS addresses (protocol/infra/socks/socks.go) and the SOCKS5 client built
    on them (protocol/socks5: client.go, packet.go, and the decoder of addr.go).

    [net.SplitHostPort], [net.ParseIP] (the empty list for nil), [net.IP.String]
    and the resolver are parameters. *)

From S2P Require Import Prelude GoStrings NetIP GoState Common Pool.

Definition ATypIP4 : byte := x01.
Definition ATypDomain : byte := x03.
Definition ATypIP6 : byte := x04.
Definition AuthNone : byte := x00.
Definition AuthPassword : byte := x02.
Definition Version : byte := x05.
Definition MaxAddrLen : nat := 1 + 1 + 255 + 2.

(** [net.IP.To16] of an address that is not 4 bytes long. *)
Definition To16 (ip : list byte) : list byte := if decide (length ip = 16%nat) then ip else [].

(** * Addresses *)

Section codec.
Context (SplitHostPort : list byte -> res (list byte * list byte)).
Context (ParseIP : list byte -> list byte).

Definition ParseAddr (s : list byte) : res (list byte) :=
  '(host, port) ← SplitHostPort s;
  addr ← (let ip := ParseIP host in
          if decide (ip <> []) then
            let ip4 := To4 ip in
            if decide (ip4 <> []) then
              addr ← set_at (replicate (1 + 4 + 2) x00) 0 ATypIP4;
              '(addr, _) ← copy_at addr 1 ip4;
              Ret addr
            else
              addr ← set_at (replicate (1 + 16 + 2) x00) 0 ATypIP6;
              '(addr, _) ← copy_at addr 1 (To16 ip);
              Ret addr
          else if decide (255 < length host)%nat then Fail (Errorf "address %v is too long")
          else
            addr ← set_at (replicate (1 + 1 + length host + 2) x00) 0 ATypDomain;
            addr ← set_at addr 1 (z2b (Z.of_nat (length host)));
            '(addr, _) ← copy_at addr 2 host;
            Ret addr);
  match ParseUint 16 port with
  | None => Fail (Errorf "strconv.ParseUint")
  | Some portnum =>
      addr ← set_at addr (length addr - 2) (z2b (Z.shiftr portnum 8));
      set_at addr (length addr - 1) (z2b portnum)
  end.
End codec.

(** Reading into the front of a fresh [MaxAddrLen] buffer. *)
Definition ReadAddr : st stream (list byte) :=
  t ← readFull 1;
  typ ← lift (index t 0);
  if decide (typ = ATypDomain) then
    l ← readFull 1;
    n ← lift (index l 0);
    r ← readFull (Z.to_nat (b2z n) + 2);
    mret (t ++ l ++ r)
  else if decide (typ = ATypIP4) then
    r ← readFull (4 + 2); mret (t ++ r)
  else if decide (typ = ATypIP6) then
    r ← readFull (16 + 2); mret (t ++ r)
  else fail (Errorf "address type not supported").

(** [None] is nil. *)
Definition SplitAddr (b : list byte) : res (option (list byte)) :=
  if decide (length b < 1)%nat then Ret None
  else
    typ ← index b 0;
    addrLen ← (if decide (typ = ATypDomain) then
                 if decide (length b < 2)%nat then Ret None
                 else n ← index b 1; Ret (Some (1 + 1 + Z.to_nat (b2z n) + 2)%nat)
               else if decide (typ = ATypIP4) then Ret (Some (1 + 4 + 2)%nat)
               else if decide (typ = ATypIP6) then Ret (Some (1 + 16 + 2)%nat)
               else Ret None);
    match addrLen with
    | None => Ret None
    | Some addrLen =>
        if decide (length b < addrLen)%nat then Ret None
        else a ← slice b 0 addrLen; Ret (Some a)
    end.

(** [Addr.AddrPort]: [None] when not ok. *)
Definition addr_port_at (a : list byte) (n : nat) : res (option AddrPort) :=
  if decide (length a < 1 + n + 2)%nat then Ret None
  else
    b ← slice a 1 (1 + n);
    match AddrFromSlice b with
    | (_, false) => Ret None
    | (ip, true) =>
        p ← slice a (1 + n) (1 + n + 2);
        Ret (Some (MkAddrPort ip (be_get p)))
    end.
Definition Addr_AddrPort (a : list byte) : res (option AddrPort) :=
  if decide (length a < 1)%nat then Ret None
  else
    typ ← index a 0;
    if decide (typ = ATypIP4) then addr_port_at a 4
    else if decide (typ = ATypIP6) then addr_port_at a 16
    else Ret None.

(** [Addr.String]. *)
Section addr_string.
Context (IPString : list byte -> list byte).
Definition Addr_String (a : list byte) : res (list byte) :=
  typ ← index a 0;
  '(host, port) ← (if decide (typ = ATypDomain) then
      l ← index a 1;
      let n := Z.to_nat (b2z l) in
      h ← slice a 2 (2 + n);
      p1 ← index a (2 + n); p2 ← index a (2 + n + 1);
      Ret (h, Itoa (Z.lor (Z.shiftl (b2z p1) 8) (b2z p2)))
    else if decide (typ = ATypIP4) then
      ip ← slice a 1 (1 + 4);
      p1 ← index a (1 + 4); p2 ← index a (1 + 4 + 1);
      Ret (IPString ip, Itoa (Z.lor (Z.shiftl (b2z p1) 8) (b2z p2)))
    else if decide (typ = ATypIP6) then
      ip ← slice a 1 (1 + 16);
      p1 ← index a (1 + 16); p2 ← index a (1 + 16 + 1);
      Ret (IPString ip, Itoa (Z.lor (Z.shiftl (b2z p1) 8) (b2z p2)))
    else Ret ([], []));
  Ret (JoinHostPort host port).
End addr_string.

(** ** What an address denotes *)

Inductive target := TIP4 (b : list byte) (port : Z) | TIP6 (b : list byte) (port : Z) | TDomain (h : list byte) (port : Z).
#[export] Instance target_eq_dec : EqDecision target.
Proof. solve_decision. Defined.

Definition target_wf (t : target) : Prop :=
  match t with
  | TIP4 b p => length b = 4%nat /\ 0 <= p < 65536
  | TIP6 b p => length b = 16%nat /\ 0 <= p < 65536
  | TDomain h p => (length h <= 255)%nat /\ 0 <= p < 65536
  end.
Definition target_bytes (t : target) : list byte :=
  match t with
  | TIP4 b p => ATypIP4 :: b ++ be16 p
  | TIP6 b p => ATypIP6 :: b ++ be16 p
  | TDomain h p => ATypDomain :: z2b (Z.of_nat (length h)) :: h ++ be16 p
  end.
Definition target_addr_port (t : target) : option AddrPort :=
  match t with
  | TIP4 b p => Some (MkAddrPort (Addr4 b) p)
  | TIP6 b p => Some (MkAddrPort (Addr6 b) p)
  | TDomain _ _ => None
  end.

(** Storing the port into the last two bytes. *)
Lemma set_port (pre : list byte) a b p : 
  (addr ← set_at (pre ++ [a; b]) (length (pre ++ [a; b]) - 2) (z2b (Z.shiftr p 8));
   set_at addr (length addr - 1) (z2b p)) = Ret (pre ++ be16 p).
Proof.
  rewrite length_app. cbn [length]. replace (length pre + 2 - 2)%nat with (length pre) by lia.
  rewrite (set_at_app pre _ [a; b]), bind_ret by (cbn; lia). cbn [drop].
  replace (length _ - 1)%nat with (length (pre ++ [z2b (Z.shiftr p 8)])) by len.
  rewrite (set_at_app (pre ++ _) _ [b]) by (cbn; lia). cbn [drop].
  by rewrite be16_bytes, app_nil_r, <- app_assoc.
Qed.

Section codec_ok.
Context (SplitHostPort : list byte -> res (list byte * list byte)).
Context (ParseIP : list byte -> list byte).
(** [net.ParseIP] returns nil or the 16-byte form. *)
Hypothesis ParseIP_length : forall h, ParseIP h = [] \/ length (ParseIP h) = 16%nat.

(** What [ParseAddr] makes of a host and a port. *)
Definition target_of (host : list byte) (port : Z) : option target :=
  if decide (ParseIP host = []) then if decide (length host <= 255)%nat then Some (TDomain host port) else None
  else if decide (To4 (ParseIP host) = []) then Some (TIP6 (ParseIP host) port)
  else Some (TIP4 (To4 (ParseIP host)) port).

Lemma To4_length ip : To4 ip = [] \/ length (To4 ip) = 4%nat.
Proof.
  unfold To4. case_decide; [by right|]. case_decide as Hm; [right|by left]. destruct Hm as [Hm _]. len.
Qed.

Lemma target_of_wf host port t : 0 <= port < 65536 -> target_of host port = Some t -> target_wf t.
Proof.
  unfold target_of. intros Hp. pose proof (ParseIP_length host). pose proof (To4_length (ParseIP host)).
  repeat case_decide; intros; simplify_eq; cbn; naive_solver lia.
Qed.

Lemma ParseAddr_spec s : ParseAddr SplitHostPort ParseIP s =
  match SplitHostPort s with
  | Ret (host, port) =>
      match target_of host 0 with
      | None => Fail (Errorf "address %v is too long")
      | Some _ =>
          match ParseUint 16 port with
          | None => Fail (Errorf "strconv.ParseUint")
          | Some p => Ret (match target_of host p with Some t => target_bytes t | None => [] end)
          end
      end
  | Fail e => Fail e
  | Panic => Panic
  end.
Proof.
  unfold ParseAddr, target_of. destruct (SplitHostPort s) as [[host port]|e|]; [|done..]. rewrite bind_ret.
  pose proof (ParseIP_length host) as Hl. pose proof (To4_length (ParseIP host)) as H4.
  destruct (decide (ParseIP host = [])) as [E|E].
  - rewrite decide_False by (by intros []). destruct (decide (255 < length host)%nat).
    { by rewrite decide_False by lia. }
    rewrite !decide_True by lia.
    rewrite set_at_0, bind_ret by len. rewrite (set_at_app [ATypDomain]), bind_ret by len.
    rewrite (copy_at_app ([ATypDomain] ++ _)), bind_ret by len. rewrite bind_ret.
    destruct (ParseUint 16 port) as [p|]; [|done].
    rewrite !drop_drop, drop_replicate. replace (_ - _)%nat with 2%nat by lia. cbn [replicate].
    rewrite set_port, decide_True by lia. by rewrite <- !app_assoc.
  - rewrite decide_True by done. destruct Hl as [?|Hl]; [done|].
    destruct (decide (To4 (ParseIP host) = [])) as [F|F].
    + rewrite decide_False by (by intros []). unfold To16. rewrite decide_True by done.
      rewrite set_at_0, bind_ret by len. rewrite (copy_at_app [ATypIP6]), bind_ret by len.
      rewrite bind_ret. destruct (ParseUint 16 port) as [p|]; [|done].
      rewrite !drop_drop, drop_replicate, Hl. cbn [Nat.add Nat.sub replicate].
      by rewrite set_port.
    + rewrite decide_True by done. destruct H4 as [?|H4]; [done|].
      rewrite set_at_0, bind_ret by len. rewrite (copy_at_app [ATypIP4]), bind_ret by len.
      rewrite bind_ret. destruct (ParseUint 16 port) as [p|]; [|done].
      rewrite !drop_drop, drop_replicate, H4. cbn [Nat.add Nat.sub replicate].
      by rewrite set_port.
Qed.
End codec_ok.

(** Reading and splitting an encoded address, whatever follows it. *)
Lemma target_len_byte (h : list byte) : (length h <= 255)%nat -> Z.to_nat (b2z (z2b (Z.of_nat (length h)))) = length h.
Proof. intros. rewrite b2z_z2b_small by lia. lia. Qed.

Lemma ReadAddr_ok t rest : target_wf t -> ReadAddr (target_bytes t ++ rest) = (rest, Ret (target_bytes t)).
Proof.
  intros W. unfold ReadAddr. destruct t as [b p|b p|h p]; destruct W as [L P]; cbn [target_bytes].
  - rewrite <- app_comm_cons. st_read [ATypIP4]. st_pure. cbn [decide].
    rewrite decide_False, decide_True by done. st_read (b ++ be16 p). done.
  - rewrite <- app_comm_cons. st_read [ATypIP6]. st_pure.
    rewrite !decide_False, decide_True by done. st_read (b ++ be16 p). done.
  - rewrite <- !app_comm_cons. st_read [ATypDomain]. st_pure. rewrite decide_True by done.
    st_read [z2b (Z.of_nat (length h))]. st_pure. rewrite target_len_byte by done.
    st_read (h ++ be16 p). done.
Qed.

Lemma SplitAddr_ok t rest : target_wf t -> SplitAddr (target_bytes t ++ rest) = Ret (Some (target_bytes t)).
Proof.
  intros W. unfold SplitAddr. destruct t as [b p|b p|h p]; destruct W as [L P]; cbn [target_bytes app];
    rewrite decide_False by (cbn; lia); rewrite index_0, bind_ret.
  - rewrite decide_False, decide_True, bind_ret by done. rewrite decide_False by len.
    rewrite app_comm_cons, slice_prefix by len. done.
  - rewrite !decide_False, decide_True, bind_ret by done. rewrite decide_False by len.
    rewrite app_comm_cons, slice_prefix by len. done.
  - rewrite decide_True by done. rewrite decide_False by (cbn; lia). rewrite index_1, !bind_ret.
    rewrite target_len_byte by done. rewrite decide_False by len.
    rewrite !app_comm_cons, slice_prefix by len. done.
Qed.

Lemma addr_port_at_ok typ b p n : length b = n -> n = 4%nat \/ n = 16%nat -> 0 <= p < 65536 ->
  addr_port_at (typ :: b ++ be16 p) n = Ret (Some (MkAddrPort (AddrFromSlice b).1 p)).
Proof.
  intros L N P. unfold addr_port_at. rewrite decide_False by len.
  assert (S1 : slice (typ :: b ++ be16 p) 1 (1 + n) = Ret b).
  { rewrite slice_eq by len. f_equal. replace (1 + n - 1)%nat with (length b) by lia. cbn [drop]. by rewrite drop_0, take_app_length. }
  assert (S2 : slice (typ :: b ++ be16 p) (1 + n) (1 + n + 2) = Ret (be16 p)).
  { rewrite slice_eq by len. f_equal. cbn [drop Nat.add]. by rewrite <- L, drop_app_length, take_ge by len. }
  rewrite S1, S2, bind_ret.
  assert (AddrFromSlice b = ((AddrFromSlice b).1, true)) as ->.
  { unfold AddrFromSlice. rewrite L. destruct N as [-> | ->]; done. }
  cbv beta iota. rewrite bind_ret. cbn [fst]. by rewrite be_get_put_small by (cbn; lia).
Qed.

Lemma Addr_AddrPort_ok t : target_wf t -> Addr_AddrPort (target_bytes t) = Ret (target_addr_port t).
Proof.
  intros W. unfold Addr_AddrPort. destruct t as [b p|b p|h p]; destruct W as [L P]; cbn [target_bytes];
    rewrite decide_False by (cbn; lia); rewrite index_0, bind_ret.
  - rewrite decide_True, addr_port_at_ok by (done || lia). cbn. unfold AddrFromSlice. by rewrite decide_True.
  - rewrite decide_False, decide_True, addr_port_at_ok by (done || lia). cbn. unfold AddrFromSlice.
    by rewrite decide_False, decide_True by (done || lia).
  - by rewrite !decide_False by done.
Qed.

(** * Datagrams (packet.go) *)

Section datagrams.
Context {BS : BufferSource}.
Context (SplitHostPort : list byte -> res (list byte * list byte)) (ParseIP : list byte -> list byte).
Context (IPString : list byte -> list byte).
(** [net.ResolveUDPAddr("udp", _)] and the conversion of its result. *)
Context (ResolveUDPAddr : list byte -> option AddrPort).

Definition parseSocksUdpPayload (data : list byte) : res (list byte * AddrPort) :=
  if decide (length data < 3)%nat then Fail (DatagramDropped ErrShortBuffer)
  else
    frag ← index data 2;
    if decide (frag <> x00) then
      Fail (DatagramDropped (Errorf "fragmented SOCKS UDP datagrams are not supported"))
    else
      rest ← slice_from data 3;
      tgt ← SplitAddr rest;
      match tgt with
      | None => Fail (DatagramDropped (Errorf "can not get target addr"))
      | Some tgtAddr =>
          ap ← Addr_AddrPort tgtAddr;
          addrPort ← (match ap with
                      | Some a => Ret a
                      | None =>
                          name ← Addr_String IPString tgtAddr;
                          match ResolveUDPAddr name with
                          | None => Fail (DatagramDropped (Errorf "wrong target addr"))
                          | Some a => Ret a
                          end
                      end);
          payload ← slice_from data (3 + length tgtAddr);
          Ret (payload, addrPort)
      end.

(** The transport below: the datagrams handed to it and what each call returns
    (an exhausted plan: everything written). *)
Record PktConn := MkPkt {
  proxyAddr : list byte; p_target : list byte; addrCache : LastStringValue (list byte);
  batchWriter : bool; p_sent : list (list byte * list byte); p_plan : list (nat * option error) }.
Definition set_cache (a : LastStringValue (list byte)) (c : PktConn) : PktConn :=
  MkPkt (proxyAddr c) (p_target c) a (batchWriter c) (p_sent c) (p_plan c).

Definition under_WriteTo (buf addr : list byte) : st PktConn (nat * option error) := fun c =>
  match p_plan c with
  | [] => (MkPkt (proxyAddr c) (p_target c) (addrCache c) (batchWriter c) (p_sent c ++ [(buf, addr)]) [],
           Ret (length buf, None))
  | (n, e) :: plan =>
      (MkPkt (proxyAddr c) (p_target c) (addrCache c) (batchWriter c)
         (p_sent c ++ match e with None => [(buf, addr)] | Some _ => [] end) plan, Ret (n, e))
  end.
(** The first [n] datagrams of the batch were sent. *)
Definition under_WriteBatch (items : list (list byte * list byte)) : st PktConn (nat * option error) := fun c =>
  match p_plan c with
  | [] => (MkPkt (proxyAddr c) (p_target c) (addrCache c) (batchWriter c) (p_sent c ++ items) [],
           Ret (length items, None))
  | (n, e) :: plan =>
      (MkPkt (proxyAddr c) (p_target c) (addrCache c) (batchWriter c) (p_sent c ++ take n items) plan, Ret (n, e))
  end.

Definition targetAddr (addr : list byte) : st PktConn (list byte) :=
  c ← get;
  match LastStringValue_Load (addrCache c) addr with
  | Some cached => mret cached
  | None =>
      target ← lift (ParseAddr SplitHostPort ParseIP addr);
      _ ← modify (fun c => set_cache (LastStringValue_Store addr target (addrCache c)) c);
      mret target
  end.

(** The encapsulated datagram, built in a pool buffer. *)
Definition encapsulate (target b : list byte) : res (list byte) :=
  let buf := src_get (3 + length target + length b) in
  '(buf, _) ← copy_at buf 0 [x00; x00; x00];
  '(buf, _) ← copy_at buf 3 target;
  '(buf, _) ← copy_at buf (3 + length target) b;
  Ret buf.

Definition invalidAddr {A} (m : st PktConn A) : st PktConn A := fun c =>
  match m c with (c, Fail e) => (c, Fail (Wrap "invalid addr" e)) | r => r end.

Definition PktConn_WriteTo (b addr : list byte) : st PktConn (nat * option error) :=
  r ← try (invalidAddr (targetAddr addr));
  match r with
  | inr e => mret (0%nat, Some e)
  | inl target =>
      let tgtLen := length target in
      buf ← lift (encapsulate target b);
      c ← get;
      '(n, err) ← under_WriteTo buf (proxyAddr c);
      if decide (tgtLen + 3 < n)%nat then mret ((n - tgtLen - 3)%nat, err) else mret (0%nat, err)
  end.

Fixpoint write_each (items : list (list byte * list byte)) (sent : nat) : st PktConn (nat * option error) :=
  match items with
  | [] => mret (sent, None)
  | (d, addr) :: items =>
      '(_, err) ← PktConn_WriteTo d addr;
      match err with
      | Some e => mret (sent, Some e)
      | None => write_each items (S sent)
      end
  end.

Fixpoint encode_items (items : list (list byte * list byte)) : st PktConn (list (list byte * list byte)) :=
  match items with
  | [] => mret []
  | (d, addr) :: items =>
      target ← invalidAddr (targetAddr addr);
      buf ← lift (encapsulate target d);
      c ← get;
      enc ← encode_items items;
      mret ((buf, proxyAddr c) :: enc)
  end.

Definition PktConn_WriteBatch (items : list (list byte * list byte)) : st PktConn (nat * option error) :=
  c ← get;
  if negb (batchWriter c) then write_each items 0
  else
    r ← try (encode_items items);
    match r with
    | inr e => mret (0%nat, Some e)
    | inl enc => under_WriteBatch enc
    end.

(** [b] has length [blen]; the transport delivers the datagram [d], cut to the
    buffer.  The payload is moved to the front of the same buffer. *)
Definition PktConn_readFrom (blen : nat) (d : list byte) : res (list byte * AddrPort) :=
  parseSocksUdpPayload (take blen d).

(** ** Framing *)

Definition datagram (t : target) (d : list byte) : list byte := [x00; x00; x00] ++ target_bytes t ++ d.
(** The address a reply from [t] is attributed to. *)
Definition source (t : target) : option AddrPort :=
  match t with
  | TIP4 b p => Some (MkAddrPort (Addr4 b) p)
  | TIP6 b p => Some (MkAddrPort (Addr6 b) p)
  | TDomain h p => ResolveUDPAddr (JoinHostPort h (Itoa p))
  end.
Definition received (t : target) (d : list byte) : res (list byte * AddrPort) :=
  match source t with
  | Some a => Ret (d, a)
  | None => Fail (DatagramDropped (Errorf "wrong target addr"))
  end.

Lemma index_app_r {A} (a b : list A) n i : n = length a -> index (a ++ b) (n + i) = index b i.
Proof. intros ->. unfold index. by rewrite lookup_app_r, Nat.add_comm, Nat.add_sub by lia. Qed.

Lemma Addr_String_domain h p : target_wf (TDomain h p) ->
  Addr_String IPString (target_bytes (TDomain h p)) = Ret (JoinHostPort h (Itoa p)).
Proof.
  intros [L P]. unfold Addr_String. cbn [target_bytes]. rewrite index_0, bind_ret, decide_True by done.
  rewrite index_1, bind_ret. rewrite target_len_byte by done.
  assert (Sl : slice (ATypDomain :: z2b (Z.of_nat (length h)) :: h ++ be16 p) 2 (2 + length h) = Ret h).
  { rewrite slice_eq by len. rewrite Nat.add_comm, Nat.add_sub. cbn [drop]. by rewrite drop_0, take_app_length. }
  assert (Ix : forall i, index (ATypDomain :: z2b (Z.of_nat (length h)) :: h ++ be16 p) (2 + length h + i) = index (be16 p) i).
  { intros i. apply (index_app_r (ATypDomain :: z2b (Z.of_nat (length h)) :: h)). len. }
  pose proof (Ix 0%nat) as I0. rewrite Nat.add_0_r in I0.
  rewrite Sl, bind_ret, I0, (Ix 1%nat), be16_bytes, index_0, index_1, !bind_ret. do 3 f_equal.
  rewrite lor_shiftl8_byte, !b2z_z2b, Z.shiftr_div_pow2 by lia. change (2 ^ 8) with 256.
  rewrite (Z.mod_small (p / 256)) by (split; [apply Z.div_pos; lia|apply Z.div_lt_upper_bound; lia]).
  pose proof (Z.div_mod p 256 ltac:(lia)). lia.
Qed.

Lemma parse_datagram r1 r2 t d : target_wf t ->
  parseSocksUdpPayload ([r1; r2; x00] ++ target_bytes t ++ d) = received t d.
Proof.
  intros W. unfold parseSocksUdpPayload. rewrite decide_False by (cbn; lia). cbn [app].
  rewrite !index_S, index_0, bind_ret, decide_False by (by intros []).
  change (r1 :: r2 :: x00 :: target_bytes t ++ d) with ([r1; r2; x00] ++ target_bytes t ++ d).
  rewrite slice_from_app, bind_ret by done. rewrite SplitAddr_ok, bind_ret by done.
  rewrite Addr_AddrPort_ok, bind_ret by done. unfold received.
  rewrite app_assoc, slice_from_app by len. destruct t as [b p|b p|h p]; [done..|].
  cbn [target_addr_port source]. rewrite Addr_String_domain, bind_ret by done.
  by destruct (ResolveUDPAddr _).
Qed.

(** Whatever is split off is the encoding of an address. *)
Lemma SplitAddr_total b :
  match SplitAddr b with
  | Ret (Some a) => exists t rest, target_wf t /\ a = target_bytes t /\ b = a ++ rest
  | Ret None => True
  | _ => False
  end.
Proof.
  unfold SplitAddr. case_decide; [done|]. destruct b as [|typ b]; [cbn in *; lia|]. rewrite index_0, bind_ret.
  assert (Cut : forall n f, (forall x p, length x = n -> 0 <= p < 65536 -> exists t, target_wf t /\ f x p = target_bytes t) ->
     (forall x p, f x p = typ :: x ++ be16 p) -> 
     match (if decide (length (typ :: b) < 1 + n + 2)%nat then Ret None else a ← slice (typ :: b) 0 (1 + n + 2); Ret (Some a)) with
     | Ret (Some a) => exists t rest, target_wf t /\ a = target_bytes t /\ typ :: b = a ++ rest
     | Ret None => True | _ => False end).
  { intros n f Hf Ef. case_decide as Hl; [done|]. cbn [length] in Hl.
    destruct (split_at2 n b) as (x & p1 & p2 & r & Eb & Hx); [lia|]. rewrite Eb in *.
    destruct (Hf x (be_get [p1; p2]) Hx (be_get2_range _ _)) as (t & Wt & Et).
    rewrite (Ef x), be16_get in Et.
    replace (typ :: x ++ p1 :: p2 :: r) with (target_bytes t ++ r) by (rewrite <- Et; cbn; by rewrite <- app_assoc).
    rewrite slice_prefix by (rewrite <- Et; len). rewrite bind_ret. exists t, r. done. }
  destruct (decide (typ = ATypDomain)) as [->|N1].
  { case_decide as H2; [by rewrite bind_ret|]. destruct b as [|l b]; [cbn in H2; lia|]. rewrite index_1, !bind_ret.
    case_decide as Hl; [done|]. cbn [length] in Hl. pose proof (b2z_range l).
    destruct (split_at2 (Z.to_nat (b2z l)) b) as (x & p1 & p2 & r & -> & Hx); [lia|].
    set (t := TDomain x (be_get [p1; p2])).
    assert (Et : target_bytes t = ATypDomain :: l :: x ++ [p1; p2]).
    { unfold t. cbn [target_bytes]. rewrite be16_get, Hx. rewrite Z2Nat.id by lia. by rewrite z2b_b2z. }
    replace (ATypDomain :: l :: x ++ p1 :: p2 :: r) with (target_bytes t ++ r) by (rewrite Et; cbn; by rewrite <- app_assoc).
    rewrite slice_prefix by (rewrite Et; len). rewrite bind_ret. exists t, r. split; [|done].
    cbn. split; [lia|apply be_get2_range]. }
  destruct (decide (typ = ATypIP4)) as [->|N2].
  { rewrite bind_ret. eapply (Cut 4%nat); [|reflexivity]. intros x p Hx Hp. by exists (TIP4 x p). }
  destruct (decide (typ = ATypIP6)) as [->|N3].
  { rewrite bind_ret. eapply (Cut 16%nat); [|reflexivity]. intros x p Hx Hp. by exists (TIP6 x p). }
  done.
Qed.

Definition pkt_ok (c : PktConn) : Prop :=
  p_plan c = [] /\
  (forall addr a, LastStringValue_Load (addrCache c) addr = Some a -> ParseAddr SplitHostPort ParseIP addr = Ret a).

(** Nothing but the datagrams sent and the cache changed. *)
Definition pkt_sent (ds : list (list byte * list byte)) (c c' : PktConn) : Prop :=
  pkt_ok c' /\ p_sent c' = p_sent c ++ ds /\ proxyAddr c' = proxyAddr c /\ batchWriter c' = batchWriter c.

Lemma pkt_sent_trans a b c1 c2 c3 : pkt_sent a c1 c2 -> pkt_sent b c2 c3 -> pkt_sent (a ++ b) c1 c3.
Proof.
  intros (_ & S1 & P1 & B1) (K & S2 & P2 & B2). split_and!; [done| |congruence..].
  by rewrite S2, S1, app_assoc.
Qed.

Lemma targetAddr_ok addr a c : pkt_ok c -> ParseAddr SplitHostPort ParseIP addr = Ret a ->
  exists c', targetAddr addr c = (c', Ret a) /\ pkt_sent [] c c'.
Proof.
  intros [Hp Hc] E. unfold targetAddr. st_pure. destruct (LastStringValue_Load (addrCache c) addr) as [b|] eqn:El.
  - apply Hc in El. rewrite E in El. simplify_eq. exists c. split; [done|]. split; [done|]. by rewrite app_nil_r.
  - rewrite (st_lift_Ret _ _ _ _ E). st_pure. eexists. split; [reflexivity|]. unfold pkt_sent. cbn. rewrite app_nil_r.
    split_and!; try done. split; [done|]. cbn. intros addr' a'. unfold LastStringValue_Store. cbn. case_decide as D; [|done].
    intros [= <-]. by rewrite <- D.
Qed.

Lemma encapsulate_ok t d : encapsulate (target_bytes t) d = Ret (datagram t d).
Proof.
  unfold encapsulate. set (b := src_get _). assert (Hb : length b = (3 + length (target_bytes t) + length d)%nat) by apply src_length.
  rewrite copy_at_0, bind_ret by (cbn; lia). rewrite (copy_at_app [x00; x00; x00]), bind_ret by len.
  rewrite (copy_at_app ([x00; x00; x00] ++ _)), bind_ret by len. rewrite drop_ge by len.
  unfold datagram. by rewrite app_nil_r, <- !app_assoc.
Qed.

(** A payload, where it is sent, and what that denotes. *)
Definition sendable (it : list byte * list byte) (t : target) : Prop :=
  ParseAddr SplitHostPort ParseIP it.2 = Ret (target_bytes t) /\ target_wf t.

Lemma PktConn_WriteTo_ok d addr t c : pkt_ok c -> sendable (d, addr) t ->
  exists c', PktConn_WriteTo d addr c = (c', Ret (length d, None)) /\ pkt_sent [(datagram t d, proxyAddr c)] c c'.
Proof.
  intros K [E W]. destruct (targetAddr_ok addr _ c K E) as (c1 & E1 & (K1 & S1 & P1 & B1)).
  unfold PktConn_WriteTo, try, invalidAddr.
  rewrite (st_bind_Ret _ _ c c1 (inl (target_bytes t))) by (by rewrite E1).
  rewrite (st_lift_Ret _ _ _ _ (encapsulate_ok t d)). st_pure. unfold under_WriteTo.
  destruct (K1) as [Hp Hc]. rewrite app_nil_r in S1.
  unfold mbind, st_bind. rewrite Hp. eexists. split.
  - cbv beta iota. unfold datagram. rewrite !length_app. cbn [length]. case_decide.
    + unfold mret, st_ret. repeat f_equal. lia.
    + unfold mret, st_ret. repeat f_equal. lia.
  - unfold pkt_sent. cbn. by rewrite S1, P1, B1.
Qed.

Definition sent_datagrams (c : PktConn) (items : list (list byte * list byte)) (ts : list target) : list (list byte * list byte) :=
  zip_with (fun it t => (datagram t it.1, proxyAddr c)) items ts.

Lemma sent_datagrams_same c c' items ts : proxyAddr c' = proxyAddr c -> sent_datagrams c' items ts = sent_datagrams c items ts.
Proof. intros E. unfold sent_datagrams. by rewrite E. Qed.

Lemma write_each_ok items ts : Forall2 sendable items ts -> forall n c, pkt_ok c ->
  exists c', write_each items n c = (c', Ret ((n + length items)%nat, None)) /\ pkt_sent (sent_datagrams c items ts) c c'.
Proof.
  induction 1 as [|[d addr] t items ts Hs _ IH]; intros n c K; cbn [write_each].
  - exists c. split; [by rewrite Nat.add_0_r|]. unfold pkt_sent. by rewrite app_nil_r.
  - destruct (PktConn_WriteTo_ok d addr t c K Hs) as (c1 & E1 & S1). st_call E1.
    destruct (IH (S n) c1 (proj1 S1)) as (c2 & E2 & S2). exists c2. split.
    + rewrite E2. cbn [length]. by rewrite Nat.add_succ_r.
    + rewrite (sent_datagrams_same c) in S2 by apply S1. by apply (pkt_sent_trans _ _ _ _ _ S1 S2).
Qed.

Lemma encode_items_ok items ts : Forall2 sendable items ts -> forall c, pkt_ok c ->
  exists c', encode_items items c = (c', Ret (sent_datagrams c items ts)) /\ pkt_sent [] c c'.
Proof.
  induction 1 as [|[d addr] t items ts [E W] _ IH]; intros c K; cbn [encode_items].
  - exists c. split; [done|]. unfold pkt_sent. by rewrite app_nil_r.
  - destruct (targetAddr_ok addr _ c K E) as (c1 & E1 & S1). unfold invalidAddr at 1.
    rewrite (st_bind_Ret _ _ c c1 (target_bytes t)) by (by rewrite E1).
    rewrite (st_lift_Ret _ _ _ _ (encapsulate_ok t d)). st_pure.
    destruct (IH c1 (proj1 S1)) as (c2 & E2 & S2). st_call E2. exists c2. split.
    + unfold mret, st_ret. rewrite (sent_datagrams_same c) by apply S1. cbn. destruct S1 as (_ & _ & -> & _). done.
    + by apply (pkt_sent_trans _ _ _ _ _ S1 S2).
Qed.

Lemma PktConn_WriteBatch_ok items ts c : pkt_ok c -> Forall2 sendable items ts ->
  exists c', PktConn_WriteBatch items c = (c', Ret (length items, None)) /\ pkt_sent (sent_datagrams c items ts) c c'.
Proof.
  intros K F. unfold PktConn_WriteBatch. st_pure. destruct (batchWriter c); cbn [negb]; [|by apply write_each_ok].
  destruct (encode_items_ok items ts F c K) as (c1 & E1 & (K1 & S1 & P1 & B1)). unfold try.
  rewrite (st_bind_Ret _ _ c c1 (inl (sent_datagrams c items ts))) by (by rewrite E1). unfold under_WriteBatch.
  destruct (K1) as [Hp Hc]. rewrite Hp. eexists. split.
  - assert (length (sent_datagrams c items ts) = length items) as ->; [|done].
    unfold sent_datagrams. rewrite length_zip_with, (Forall2_length _ _ _ F). lia.
  - rewrite app_nil_r in S1. unfold pkt_sent. cbn. by rewrite S1.
Qed.

(** ** Sequences of sends *)

Inductive send := SendOne (it : list byte * list byte) | SendBatch (items : list (list byte * list byte)).
Definition send_items (o : send) : list (list byte * list byte) :=
  match o with SendOne it => [it] | SendBatch items => items end.
Definition send_step (o : send) : st PktConn (nat * option error) :=
  match o with SendOne it => PktConn_WriteTo it.1 it.2 | SendBatch items => PktConn_WriteBatch items end.
(** Bytes for a datagram, datagrams for a batch. *)
Definition send_count (o : send) : nat :=
  match o with SendOne it => length it.1 | SendBatch items => length items end.
Fixpoint send_all (ops : list send) : st PktConn (list (nat * option error)) :=
  match ops with
  | [] => mret []
  | o :: ops => r ← send_step o; rs ← send_all ops; mret (r :: rs)
  end.

Lemma pkt_send_step_ok o ts c : pkt_ok c -> Forall2 sendable (send_items o) ts ->
  exists c', send_step o c = (c', Ret (send_count o, None)) /\ pkt_sent (sent_datagrams c (send_items o) ts) c c'.
Proof.
  destruct o as [[d addr]|items]; cbn [send_step send_items send_count fst snd]; intros K F.
  - apply Forall2_cons_inv_l in F as (t & ? & Hs & ->%Forall2_nil_inv_l & ->). by apply PktConn_WriteTo_ok.
  - by apply PktConn_WriteBatch_ok.
Qed.

Lemma sent_datagrams_app c a b ta tb : length a = length ta ->
  sent_datagrams c (a ++ b) (ta ++ tb) = sent_datagrams c a ta ++ sent_datagrams c b tb.
Proof. intros. by apply zip_with_app. Qed.

Lemma pkt_send_all_ok ops : forall ts c, pkt_ok c -> Forall2 sendable (ops ≫= send_items) ts ->
  exists c', send_all ops c = (c', Ret ((fun o => (send_count o, None)) <$> ops)) /\
    pkt_sent (sent_datagrams c (ops ≫= send_items) ts) c c'.
Proof.
  induction ops as [|o ops IH]; intros ts c K F; cbn [send_all].
  - apply Forall2_nil_inv_l in F as ->. exists c. split; [done|]. unfold pkt_sent. by rewrite app_nil_r.
  - rewrite bind_cons in *. apply Forall2_app_inv_l in F as (t1 & t2 & F1 & F2 & ->).
    destruct (pkt_send_step_ok o t1 c K F1) as (c1 & E1 & S1). st_call E1.
    destruct (IH t2 c1 (proj1 S1) F2) as (c2 & E2 & S2). st_call E2. exists c2. split; [done|].
    rewrite (sent_datagrams_same c) in S2 by apply S1.
    rewrite sent_datagrams_app by by eapply Forall2_length. by apply (pkt_sent_trans _ _ _ _ _ S1 S2).
Qed.

Lemma parse_sent c items ts : Forall2 sendable items ts ->
  (fun d => parseSocksUdpPayload d.1) <$> sent_datagrams c items ts = zip_with (fun it t => received t it.1) items ts.
Proof.
  induction 1 as [|it t items ts [_ W] _ IH]; [done|]. cbn. f_equal; [|exact IH].
  by apply (parse_datagram x00 x00).
Qed.

(** SOCKS5 UDP framing.  Any sequence of single and batched datagram writes to
    targets that parse hands the transport, in order and all addressed to the proxy,
    exactly one datagram per payload, each of which decodes to that payload and the
    address of its target (a name is resolved); the counts returned are bytes and
    datagrams.  On arbitrary received bytes the decoder never panics, reports every
    rejection as a dropped datagram, and accepts only an unfragmented header followed by
    a well-formed address. *)
Theorem socks5_udp_framing ops ts c :
  pkt_ok c -> Forall2 sendable (ops ≫= send_items) ts ->
  (exists c' ds, send_all ops c = (c', Ret ((fun o => (send_count o, None)) <$> ops)) /\
     p_sent c' = p_sent c ++ ds /\ Forall (fun d => d.2 = proxyAddr c) ds /\
     (fun d => parseSocksUdpPayload d.1) <$> ds = zip_with (fun it t => received t it.1) (ops ≫= send_items) ts) /\
  (forall data, match parseSocksUdpPayload data with
     | Ret (payload, from) => exists r1 r2 t, data = [r1; r2; x00] ++ target_bytes t ++ payload /\
         target_wf t /\ source t = Some from
     | Fail e => exists e', e = DatagramDropped e'
     | Panic => False
     end).
Proof.
  intros K F. split.
  - destruct (pkt_send_all_ok ops ts c K F) as (c' & E & (_ & S & _)). exists c', (sent_datagrams c (ops ≫= send_items) ts).
    split_and!; [done..| |by apply parse_sent]. clear. unfold sent_datagrams.
    generalize (ops ≫= send_items) as l. intros l. revert ts.
    induction l as [|it l IH]; intros [|t ts]; cbn; constructor; [done|apply IH].
  - intros data. unfold parseSocksUdpPayload. case_decide; [by eexists|].
    destruct data as [|r1 [|r2 [|fr data]]]; [cbn in *; lia..|]. rewrite !index_S, index_0, bind_ret.
    case_decide as Hf; [by eexists|]. assert (fr = x00) as -> by (destruct (decide (fr = x00)); done).
    change (r1 :: r2 :: x00 :: data) with ([r1; r2; x00] ++ data). rewrite slice_from_app, bind_ret by done.
    pose proof (SplitAddr_total data) as T. destruct (SplitAddr data) as [[a|]|e|] eqn:Es; [| |done..]; rewrite bind_ret; [|by eexists].
    destruct T as (t & rest & W & -> & ->).
    rewrite Addr_AddrPort_ok, bind_ret by done. rewrite app_assoc, slice_from_app by len.
    destruct t as [b p|b p|h p]; cbn [target_addr_port].
    { exists r1, r2, (TIP4 b p). by rewrite <- app_assoc. }
    { exists r1, r2, (TIP6 b p). by rewrite <- app_assoc. }
    rewrite Addr_String_domain, bind_ret by done. destruct (ResolveUDPAddr _) as [ap|] eqn:Er; cbn; [|by eexists].
    exists r1, r2, (TDomain h p). split_and!; [done|apply W..|exact Er].
Qed.
End datagrams.

(** * The handshake (client.go) *)

(** The control connection: what the server sends, what was written. *)
Record ctl := MkCtl { k_in : stream; k_w : writer }.
Record Socks5 := MkSocks5 { s_addr : list byte; user : list byte; password : list byte }.

Definition ctl_Write (b : list byte) (msg : string) : st ctl unit := fun c =>
  match Write b (k_w c) with
  | (w, Ret _) => (MkCtl (k_in c) w, Ret tt)
  | (w, Fail _) => (MkCtl (k_in c) w, Fail (Errorf msg))
  | (w, Panic) => (MkCtl (k_in c) w, Panic)
  end.
Definition ctl_read {A} (m : st stream A) (onerr : error -> error) : st ctl A := fun c =>
  match m (k_in c) with
  | (r, Ret a) => (MkCtl r (k_w c), Ret a)
  | (r, Fail e) => (MkCtl r (k_w c), Fail (onerr e))
  | (r, Panic) => (MkCtl r (k_w c), Panic)
  end.
Definition ctl_ReadFull (n : nat) (msg : string) : st ctl (list byte) := ctl_read (readFull n) (fun _ => Errorf msg).

Definition socks_Errors : list string :=
  [ ""; "general failure"; "connection forbidden"; "network unreachable"; "host unreachable";
    "connection refused"; "TTL expired"; "command not supported"; "address type not supported";
    "socks5UDPAssociate" ]%string.
Definition Command : list string := [ "Error"; "Connect"; "Bind"; "UDPAssociate" ]%string.

Definition offeredPassword (s : Socks5) : bool :=
  bool_decide ((0 < length (user s))%nat /\ (length (user s) < 256)%nat /\ (length (password s) < 256)%nat).
Definition methodUnoffered (s : Socks5) (m : byte) : bool :=
  if decide (m = AuthNone) then false
  else if decide (m = AuthPassword) then negb (offeredPassword s) else true.

Definition greeting (s : Socks5) : list byte :=
  Version :: (if offeredPassword s then [x02; AuthNone; AuthPassword] else [x01; AuthNone]).
Definition auth_request (s : Socks5) : list byte :=
  [x01; z2b (Z.of_nat (length (user s)))] ++ user s ++ [z2b (Z.of_nat (length (password s)))] ++ password s.

(** The part of the handshake that performs the authentication the server selected. *)
Definition authenticate (s : Socks5) (m : byte) : st ctl unit :=
  if decide (m = AuthPassword) then
    _ ← ctl_Write (auth_request s) "proxy: failed to write authentication request to SOCKS5 proxy";
    buf ← ctl_ReadFull 2 "proxy: failed to read authentication reply from SOCKS5 proxy";
    status ← lift (index buf 1);
    if decide (status <> x00) then fail (Errorf "proxy: SOCKS5 proxy rejected username/password") else mret tt
  else mret tt.

Section handshake.
Context (SplitHostPort : list byte -> res (list byte * list byte)) (ParseIP : list byte -> list byte).

(** [deadline]: the error of applying the context's deadline. *)
Definition connect (s : Socks5) (deadline : option error) (tgt : list byte) (cmd : byte) : st ctl (list byte) :=
  _ ← (match deadline with Some e => fail e | None => mret tt end);
  _ ← ctl_Write (greeting s) "proxy: failed to write greeting to SOCKS5 proxy";
  buf ← ctl_ReadFull 2 "proxy: failed to read greeting from SOCKS5 proxy";
  ver ← lift (index buf 0);
  if decide (ver <> Version) then fail (Errorf "proxy: SOCKS5 proxy has unexpected version")
  else
    method ← lift (index buf 1);
    if decide (method = xff) then fail (Errorf "proxy: SOCKS5 proxy requires authentication")
    else if methodUnoffered s method then fail (Errorf "proxy: SOCKS5 proxy selected an unoffered auth method")
    else
      _ ← authenticate s method;
      tgtAddr ← lift (ParseAddr SplitHostPort ParseIP tgt);
      _ ← ctl_Write ([Version; cmd; x00] ++ tgtAddr) "proxy: failed to write connect request to SOCKS5 proxy";
      buf ← ctl_ReadFull 3 "proxy: failed to read connect reply from SOCKS5 proxy";
      rep ← lift (index buf 1);
      if decide (rep <> x00) then
        failure ← lift (match socks_Errors !! Z.to_nat (b2z rep) with
                        | None => Ret "unknown error"%string
                        | Some f =>
                            if decide (f = "command not supported"%string)
                            then _ ← index Command (Z.to_nat (b2z cmd)); Ret f else Ret f
                        end);
        fail (Wrap "proxy: SOCKS5 proxy failed to connect" (Errorf failure))
      else ctl_read ReadAddr id.

(** ** The conversation *)

(** What the server says in a successful handshake with method [m]. *)
Definition server_script (m : byte) (auth : list byte) (reply : byte * byte) (bound : target) : list byte :=
  [Version; m] ++ auth ++ [reply.1; x00; reply.2] ++ target_bytes bound.
Definition auth_reply_ok (m : byte) (auth : list byte) : Prop :=
  if decide (m = AuthPassword) then exists v, auth = [v; x00] else auth = [].
(** What the client says. *)
Definition client_script (s : Socks5) (m cmd : byte) (addr : list byte) : list byte :=
  greeting s ++ (if decide (m = AuthPassword) then auth_request s else []) ++ [Version; cmd; x00] ++ addr.

Lemma ctl_Write_ok b msg c : w_room (k_w c) = None ->
  ctl_Write b msg c = (MkCtl (k_in c) (MkWriter (w_out (k_w c) ++ b) None), Ret tt).
Proof. intros H. unfold ctl_Write, Write. by rewrite H. Qed.

Lemma ctl_ReadFull_app a b n msg w : n = length a ->
  ctl_ReadFull n msg (MkCtl (a ++ b) w) = (MkCtl b w, Ret a).
Proof. intros. unfold ctl_ReadFull, ctl_read. cbn [k_in]. by rewrite readFull_app. Qed.

Lemma ctl_ReadFull_inv n msg c c' a : ctl_ReadFull n msg c = (c', Ret a) ->
  k_in c = a ++ k_in c' /\ k_w c' = k_w c /\ length a = n.
Proof.
  unfold ctl_ReadFull, ctl_read. destruct (readFull n (k_in c)) as [r [x|e|]] eqn:E; intros; simplify_eq.
  apply readFull_length in E as [? ?]. done.
Qed.

Lemma read_port n (f : list byte -> target) r r' a (pre : list byte) :
  (forall x p1 p2, length x = n -> target_wf (f (x ++ [p1; p2])) /\ target_bytes (f (x ++ [p1; p2])) = pre ++ x ++ [p1; p2]) ->
  readFull (n + 2) r = (r', Ret a) ->
  exists t, target_wf t /\ pre ++ a = target_bytes t /\ r = a ++ r'.
Proof.
  intros Hf E. apply readFull_length in E as [-> L].
  destruct (split_at2 n a) as (x & p1 & p2 & z & -> & Hx); [lia|].
  destruct z; [|revert L; len]. destruct (Hf x p1 p2 Hx) as [W B]. by exists (f (x ++ [p1; p2])).
Qed.

Lemma ReadAddr_inv r r' a : ReadAddr r = (r', Ret a) -> exists t, target_wf t /\ a = target_bytes t /\ r = a ++ r'.
Proof.
  unfold ReadAddr. intros (r1 & t & Et & E)%st_bind_inv. apply readFull_length in Et as [-> Lt].
  destruct t as [|typ [|]]; [done| |done].
  apply st_bind_inv in E as (? & ? & [= <- <-] & E).
  assert (Port : forall n typ' (f : list byte -> Z -> target), typ = typ' ->
    (forall x p, length x = n -> 0 <= p < 65536 -> target_wf (f x p)) -> (forall x p, target_bytes (f x p) = typ' :: x ++ be16 p) ->
    (x ← readFull (n + 2); mret ([typ] ++ x)) r1 = (r', Ret a) ->
    exists t, target_wf t /\ a = target_bytes t /\ [typ] ++ r1 = a ++ r').
  { intros n typ' f <- Wf Bf (r2 & x & Ex & [= <- <-])%st_bind_inv.
    destruct (read_port n (fun l => f (take n l) (be_get (drop n l))) r1 r2 x [typ]) as (t & W & B & ->); [|done|].
    - intros y p1 p2 <-. rewrite take_app_length, drop_app_length. split; [by apply Wf, be_get2_range|].
      by rewrite Bf, be16_get.
    - exists t. rewrite <- B. by rewrite app_assoc. }
  case_decide as D1; [subst typ|].
  { apply st_bind_inv in E as (r2 & l & El & E). apply readFull_length in El as [-> Ll].
    destruct l as [|n [|]]; [done| |done]. apply st_bind_inv in E as (? & ? & [= <- <-] & E).
    apply st_bind_inv in E as (r3 & x & Ex & [= <- <-]). pose proof (b2z_range n).
    set (k := Z.to_nat (b2z n)) in *.
    destruct (read_port k (fun l => TDomain (take k l) (be_get (drop k l))) r2 r3 x [ATypDomain; n]) as (t & W & B & ->); [|done|].
    - intros y p1 p2 Hy. assert (Hk : k = length y) by done. rewrite Hk, take_app_length, drop_app_length.
      cbn [target_wf target_bytes]. split; [split; [lia|apply be_get2_range]|].
      rewrite be16_get, Hy. unfold k. rewrite Z2Nat.id by lia. by rewrite z2b_b2z.
    - exists t. by rewrite <- B. }
  case_decide as D2; [by apply (Port 4%nat ATypIP4 TIP4)|].
  case_decide as D3; [by apply (Port 16%nat ATypIP6 TIP6)|]. done.
Qed.

Lemma authenticate_iff s m c c' : w_room (k_w c) = None ->
  authenticate s m c = (c', Ret tt) <->
  exists auth, auth_reply_ok m auth /\ k_in c = auth ++ k_in c' /\
    k_w c' = MkWriter (w_out (k_w c) ++ (if decide (m = AuthPassword) then auth_request s else [])) None.
Proof.
  intros R. unfold authenticate, auth_reply_ok. case_decide.
  - rewrite (st_bind_Ret _ _ _ _ _ (ctl_Write_ok _ _ _ R)). split.
    + intros (c1 & a & Ea & E)%st_bind_inv. apply ctl_ReadFull_inv in Ea as (Ei & Ew & L).
      destruct a as [|v [|st [|]]]; [done|done| |done]. apply st_bind_inv in E as (? & ? & [= <- <-] & E).
      case_decide as D; [done|]. injection E as ->. exists [v; st]. split_and!; [|done..].
      exists v. destruct (decide (st = x00)) as [->|]; done.
    + intros (auth & (v & ->) & Ei & Ew). rewrite Ei. rewrite (st_bind_Ret _ _ _ _ _ (ctl_ReadFull_app [v; x00] _ 2 _ _ eq_refl)).
      st_pure. rewrite decide_False by (by intros []). destruct c' as [ci cw]. cbn in *. by rewrite Ew.
  - split.
    + intros [= <-]. exists []. rewrite app_nil_r. destruct (k_w c) as [o r] eqn:Ew. cbn in *. by rewrite R.
    + intros (auth & -> & Ei & Ew). rewrite app_nil_r in Ew. destruct c as [ci [wo wr]], c' as [ci' cw']. cbn in *. by subst.
Qed.

Lemma safe_read {A} (m : st stream A) f : safe m -> safe (ctl_read m f).
Proof. intros H c. unfold ctl_read. specialize (H (k_in c)). destruct (m (k_in c)) as [r [a|e|]]; done. Qed.
Lemma safe_Write b msg : safe (ctl_Write b msg).
Proof. intros c. unfold ctl_Write, Write. repeat case_match; by simplify_eq. Qed.
Lemma safe_lift {S A} (m : res A) : m <> Panic -> safe (S := S) (lift m).
Proof. by intros H s. Qed.
Lemma safe_ReadFull_bind {B} n msg (k : list byte -> st ctl B) :
  (forall a, length a = n -> safe (k a)) -> safe (a ← ctl_ReadFull n msg; k a).
Proof.
  intros H c. unfold mbind, st_bind. destruct (ctl_ReadFull n msg c) as [c1 [a|e|]] eqn:E; [|done|].
  - apply ctl_ReadFull_inv in E as (_ & _ & L). by apply H.
  - pose proof (safe_read (readFull n) (fun _ => Errorf msg) (safe_readFull n) c) as P. unfold ctl_ReadFull in E.
    by rewrite E in P.
Qed.
Lemma index_safe {A} (l : list A) i : (i < length l)%nat -> index l i <> Panic.
Proof. intros [x E]%lookup_lt_is_Some_2. unfold index. by rewrite E. Qed.

Lemma ReadAddr_safe : safe ReadAddr.
Proof.
  intros r. unfold ReadAddr, mbind, st_bind.
  destruct (readFull 1 r) as [r1 [t|e|]] eqn:E; [|done|by pose proof (safe_readFull 1 r) as P; rewrite E in P].
  apply readFull_length in E as [_ L]. destruct t as [|typ [|]]; [done| |done]. cbn [lift index lookup list_lookup].
  repeat case_decide.
  - destruct (readFull 1 r1) as [r2 [l|e|]] eqn:E2; [|done|by pose proof (safe_readFull 1 r1) as P; rewrite E2 in P].
    apply readFull_length in E2 as [_ L2]. destruct l as [|n [|]]; [done| |done]. cbn [lift index lookup list_lookup].
    pose proof (safe_readFull (Z.to_nat (b2z n) + 2) r2) as P. by destruct (readFull _ r2) as [? [| |]].
  - pose proof (safe_readFull (4 + 2) r1) as P. by destruct (readFull _ r1) as [? [| |]].
  - pose proof (safe_readFull (16 + 2) r1) as P. by destruct (readFull _ r1) as [? [| |]].
  - done.
Qed.

Hint Resolve safe_read safe_Write ReadAddr_safe : go.

Lemma authenticate_safe s m : safe (authenticate s m).
Proof.
  unfold authenticate. case_decide; [|auto with go]. apply safe_bind; [auto with go|intros _].
  apply safe_ReadFull_bind. intros a L. apply safe_bind; [apply safe_lift, index_safe; lia|]. intros st.
  case_decide; auto with go.
Qed.

Lemma connect_safe s deadline tgt cmd : (Z.to_nat (b2z cmd) < 4)%nat -> ParseAddr SplitHostPort ParseIP tgt <> Panic ->
  safe (connect s deadline tgt cmd).
Proof.
  intros Hc Hp. unfold connect. apply safe_bind; [destruct deadline; auto with go|intros _].
  apply safe_bind; [auto with go|intros _].
  apply safe_ReadFull_bind. intros buf L. apply safe_bind; [apply safe_lift, index_safe; lia|intros ver].
  case_decide; [auto with go|]. apply safe_bind; [apply safe_lift, index_safe; lia|intros m].
  case_decide; [auto with go|]. destruct (methodUnoffered s m); [auto with go|].
  apply safe_bind; [apply authenticate_safe|intros _]. apply safe_bind; [by apply safe_lift|intros addr].
  apply safe_bind; [auto with go|intros _].
  apply safe_ReadFull_bind. intros buf2 L2. apply safe_bind; [apply safe_lift, index_safe; lia|intros rep].
  case_decide; [|auto with go]. apply safe_bind; [|intros; auto with go]. apply safe_lift.
  destruct (socks_Errors !! _) as [f|]; [|done]. case_decide; [|done].
  pose proof (index_safe Command (Z.to_nat (b2z cmd)) ltac:(done)) as P. by destruct (index Command _).
Qed.

(** The SOCKS5 handshake.  Over a connection that takes every write, [connect]
    succeeds exactly when the server's bytes are: version 5 and a method the client
    offered, a successful authentication reply if that method is the password, a
    successful reply and an encoded bound address; it then returns that address, has
    consumed exactly those bytes, and has sent exactly the greeting, the credentials if
    they were asked for, and the request.  Whatever the server sends, it does not
    panic. *)
Theorem socks5_handshake s tgt cmd addr c :
  w_room (k_w c) = None -> (Z.to_nat (b2z cmd) < 4)%nat -> ParseAddr SplitHostPort ParseIP tgt = Ret addr ->
  (connect s None tgt cmd c).2 <> Panic /\
  forall c' a, connect s None tgt cmd c = (c', Ret a) <->
    exists m auth reply bound, methodUnoffered s m = false /\ auth_reply_ok m auth /\ target_wf bound /\
      k_in c = server_script m auth reply bound ++ k_in c' /\ a = target_bytes bound /\
      k_w c' = MkWriter (w_out (k_w c) ++ client_script s m cmd addr) None.
Proof.
  intros R Hc Hp. split; [apply connect_safe; [done|by rewrite Hp]|]. intros c' a.
  unfold connect. st_pure. rewrite (st_bind_Ret _ _ _ _ _ (ctl_Write_ok _ _ _ R)). split.
  - intros (c1 & buf & Eb & E)%st_bind_inv. apply ctl_ReadFull_inv in Eb as (Ei & Ew & L).
    destruct buf as [|v [|m [|]]]; [done|done| |done]. apply st_bind_inv in E as (? & ? & [= <- <-] & E).
    case_decide as Dv; [done|]. apply st_bind_inv in E as (? & ? & [= <- <-] & E).
    case_decide; [done|]. destruct (methodUnoffered s m) eqn:Um; [done|].
    apply st_bind_inv in E as (c2 & [] & Ea & E).
    apply authenticate_iff in Ea as (auth & Ha & Ei2 & Ew2); [|by rewrite Ew].
    apply st_bind_inv in E as (? & ? & El & E). unfold lift in El. rewrite Hp in El. injection El as <- <-.
    assert (R2 : w_room (k_w c2) = None) by by rewrite Ew2.
    rewrite (st_bind_Ret _ _ _ _ _ (ctl_Write_ok _ _ _ R2)) in E.
    apply st_bind_inv in E as (c3 & buf & Eb & E). apply ctl_ReadFull_inv in Eb as (Ei3 & Ew3 & L3).
    destruct buf as [|r1 [|rep [|r2 [|]]]]; [done|done|done| |done].
    apply st_bind_inv in E as (? & ? & [= <- <-] & E). case_decide as Dr.
    { apply st_bind_inv in E as (? & ? & _ & E). done. }
    assert (v = Version) as -> by (destruct (decide (v = Version)); done).
    assert (rep = x00) as -> by (destruct (decide (rep = x00)); done).
    unfold ctl_read in E. destruct (ReadAddr (k_in c3)) as [r4 [x|e|]] eqn:Er; [|done..].
    injection E as <- <-. apply ReadAddr_inv in Er as (bound & Wb & -> & Ei4).
    exists m, auth, (r1, r2), bound. cbn [k_in k_w] in *. split_and!; try done.
    + rewrite Ei, Ei2, Ei3, Ei4. unfold server_script. by rewrite <- !app_assoc.
    + rewrite Ew3, Ew2, Ew. unfold client_script. cbn [w_out]. by rewrite <- !app_assoc.
  - intros (m & auth & [r1 r2] & bound & Um & Ha & Wb & Ei & -> & Ew). rewrite Ei. unfold server_script.
    rewrite <- !app_assoc. rewrite (st_bind_Ret _ _ _ _ _ (ctl_ReadFull_app [Version; m] _ 2 _ _ eq_refl)).
    st_pure. rewrite decide_False by (by intros []). st_pure.
    rewrite decide_False by (intros ->; done). rewrite Um.
    set (c1 := MkCtl _ _). set (rest := [_; _; _] ++ _) in c1.
    set (c2 := MkCtl rest (MkWriter (w_out (k_w c1) ++ (if decide (m = AuthPassword) then auth_request s else [])) None)).
    rewrite (st_bind_Ret _ _ c1 c2 tt) by (apply authenticate_iff; [done|]; by exists auth).
    rewrite (st_lift_Ret _ _ _ _ Hp). rewrite (st_bind_Ret _ _ _ _ _ (ctl_Write_ok _ _ c2 eq_refl)).
    unfold c2 at 1, rest at 1. cbn [k_in].
    rewrite (st_bind_Ret _ _ _ _ _ (ctl_ReadFull_app [_; _; _] _ 3 _ _ eq_refl)).
    st_pure. rewrite decide_False by (by intros []). unfold ctl_read. cbn [k_in]. rewrite ReadAddr_ok by done.
    destruct c' as [ci cw]. cbn in *. rewrite Ew. unfold client_script. by rewrite <- !app_assoc.
Qed.
End handshake.

(** ** Witnesses *)

Definition demo_host_port (s : list byte) : res (list byte * list byte) := Ret (s, lit "53").
Definition demo_pkt : PktConn := MkPkt (lit "p:1") (lit "a") None true [] [].
Definition demo_pool : BufferSource := pool_source init_pools init_pools_wf None.
Definition demo_items : list send := [SendOne ([x01; x02], lit "a"); SendBatch [([x03], lit "b"); ([], lit "a")]].
Definition demo_tgts : list target := (fun h => TDomain (lit h) 53) <$> ["a"; "b"; "a"]%string.

Lemma socks5_udp_framing_witness :
  exists c' ds, send_all demo_host_port (fun _ => []) (BS := demo_pool) demo_items demo_pkt =
      (c', Ret ((fun o => (send_count o, None)) <$> demo_items)) /\
    p_sent c' = p_sent demo_pkt ++ ds /\ Forall (fun d => d.2 = proxyAddr demo_pkt) ds /\
    (fun d => parseSocksUdpPayload id (fun _ => None) d.1) <$> ds =
      zip_with (fun it t => received (fun _ => None) t it.1) (demo_items ≫= send_items) demo_tgts.
Proof.
  apply (socks5_udp_framing (BS := demo_pool) demo_host_port (fun _ => []) id (fun _ => None) demo_items demo_tgts demo_pkt).
  - split; [done|]. by intros addr a.
  - repeat apply Forall2_cons_2; try apply Forall2_nil_2; (split; [vm_compute; reflexivity|]); (split; cbn; lia).
Defined.

Definition demo_socks : Socks5 := MkSocks5 (lit "p:1") (lit "u") (lit "pw").
Definition demo_ctl : ctl :=
  MkCtl ([x05; x02] ++ [x01; x00] ++ [x05; x00; x00] ++ target_bytes (TIP4 [x01; x02; x03; x04] 80)) (MkWriter [] None).

Lemma socks5_handshake_witness :
  exists c', connect demo_host_port (fun _ => []) demo_socks None (lit "a") x01 demo_ctl =
    (c', Ret (target_bytes (TIP4 [x01; x02; x03; x04] 80))).
Proof.
  eexists (MkCtl [] _).
  apply (socks5_handshake demo_host_port (fun _ => []) demo_socks (lit "a") x01 (target_bytes (TDomain (lit "a") 53)) demo_ctl);
    [done|vm_compute; lia|vm_compute; reflexivity|].
  exists x02, [x01; x00], (x05, x00), (TIP4 [x01; x02; x03; x04] 80).
  split_and!; try done; [by exists x01|cbn; lia..].
Defined.
