(* ===== verification/AnyTlsPadding.v ===== *)
(** AnyTLS padding schemes (protocol/anytls/padding.go): the textual scheme is
    compiled once into rules per packet number, from which the sizes of the
    records of a packet are drawn.

    Go visits the entries of a map in an unspecified order: [range] is that
    order.  MD5 is a parameter; each random draw is an arbitrary integer that
    [rand.IntN] reduces to its range. *)

From S2P Require Import Prelude GoStrings.

Definition CheckMark : Z := -1.

Definition paddingKindFixed : byte := x00.
Definition paddingKindRange : byte := x01.
Definition paddingKindCheckMark : byte := x02.

Record paddingRange := MkPR { kind : byte; pmin : Z; pmax : Z }.
#[export] Instance paddingRange_eq_dec : EqDecision paddingRange.
Proof. solve_decision. Defined.

Record paddingFactory := MkPF {
  rules : gmap Z (list paddingRange); RawScheme : list byte; Stop : Z; Md5 : list byte }.

(** Both are [nil] when the lookup fails. *)
Definition lookup_default (k : list byte) (m : gmap (list byte) (list byte)) : list byte :=
  default [] (m !! k).

Definition stringMap_line (m : gmap (list byte) (list byte)) (line : list byte) : gmap (list byte) (list byte) :=
  match SplitN2 x3d line with
  | [k; v] => <[k := v]> m
  | _ => m
  end.
Definition stringMapFromBytes (b : list byte) : gmap (list byte) (list byte) :=
  foldl stringMap_line ∅ (Split x0a b).

(** One comma-separated element. *)
Definition compileRange (sRange : list byte) : option paddingRange :=
  match Split x2d sRange with
  | [a; b] =>
      lo ← ParseInt a;
      hi ← ParseInt b;
      let '(lo, hi) := (Z.min lo hi, Z.max lo hi) in
      if decide (lo <= 0 \/ hi <= 0) then None
      else if decide (lo = hi) then Some (MkPR paddingKindFixed lo 0)
      else Some (MkPR paddingKindRange lo hi)
  | _ => if decide (sRange = lit "c") then Some (MkPR paddingKindCheckMark 0 0) else None
  end.
Definition compileRanges (spec : list byte) : list paddingRange :=
  omap compileRange (Split x2c spec).

(** One entry of the scheme. *)
Definition add_rule (rs : gmap Z (list paddingRange)) (kv : list byte * list byte) : gmap Z (list paddingRange) :=
  if decide (kv.1 = lit "stop") then rs
  else match ParseUint 32 kv.1 with
       | None => rs
       | Some pktNum =>
           match compileRanges kv.2 with
           | [] => rs
           | compiled => <[pktNum := compiled]> rs
           end
       end.

Section factory.
Context (md5_hex : list byte -> list byte).
Context (range : gmap (list byte) (list byte) -> list (list byte * list byte)).

(** [None] is Go's nil. *)
Definition NewPaddingFactory (rawScheme : list byte) : option paddingFactory :=
  let scheme := stringMapFromBytes rawScheme in
  if decide (scheme = ∅) then None
  else
    stop ← Atoi (lookup_default (lit "stop") scheme);
    Some (MkPF (foldl add_rule ∅ (range scheme)) rawScheme (stop mod 2 ^ 32) (md5_hex rawScheme)).

(** The process-wide default, and whether the scheme was accepted. *)
Definition updatePaddingScheme (rawScheme : list byte) (cur : option paddingFactory) : option paddingFactory * bool :=
  match NewPaddingFactory rawScheme with
  | Some p => (Some p, true)
  | None => (cur, false)
  end.
End factory.

Definition nl : list byte := [x0a].
Definition defaultPaddingScheme : list byte :=
  lit "stop=8" ++ nl ++ lit "0=30-30" ++ nl ++ lit "1=100-400" ++ nl ++
  lit "2=400-500,c,500-1000,c,500-1000,c,500-1000,c,500-1000" ++ nl ++
  lit "3=9-9,500-1000" ++ nl ++ lit "4=500-1000" ++ nl ++ lit "5=500-1000" ++ nl ++
  lit "6=500-1000" ++ nl ++ lit "7=500-1000".

Definition settingsBytes (p : paddingFactory) : list byte :=
  lit "v=2" ++ nl ++ lit "client=dae" ++ nl ++ lit "padding-md5=" ++ Md5 p.

(** [rand.IntN(n)]: panics unless [n] is positive. *)
Definition IntN (n draw : Z) : res Z := if decide (n <= 0) then Panic else Ret (draw mod n).

Fixpoint record_sizes (rs : list paddingRange) (draws : nat -> Z) (i : nat) : res (list Z) :=
  match rs with
  | [] => Ret []
  | r :: rs =>
      size ← (if decide (kind r = paddingKindFixed) then Ret (pmin r)
              else if decide (kind r = paddingKindRange) then
                k ← IntN (pmax r - pmin r) (draws i); Ret (pmin r + k)
              else if decide (kind r = paddingKindCheckMark) then Ret CheckMark
              else Ret 0);
      sizes ← record_sizes rs draws (S i);
      Ret (size :: sizes)
  end.

Definition GenerateRecordPayloadSizes (p : paddingFactory) (pkt : Z) (draws : nat -> Z) : res (list Z) :=
  match rules p !! pkt with
  | None => Ret []
  | Some ranges => record_sizes ranges draws 0
  end.

(** * Well-formed rules *)

Definition range_wf (r : paddingRange) : Prop :=
  (kind r = paddingKindFixed /\ 0 < pmin r < 2 ^ 63) \/
  (kind r = paddingKindRange /\ 0 < pmin r < pmax r /\ pmax r < 2 ^ 63) \/
  kind r = paddingKindCheckMark.

Definition rules_wf (rs : gmap Z (list paddingRange)) : Prop :=
  map_Forall (fun n l => 0 <= n < 2 ^ 32 /\ l <> [] /\ Forall range_wf l) rs.

Definition factory_wf (p : paddingFactory) : Prop := 0 <= Stop p < 2 ^ 32 /\ rules_wf (rules p).

Lemma compileRange_wf s r : compileRange s = Some r -> range_wf r.
Proof.
  unfold compileRange, range_wf. intros E. repeat case_match; simplify_eq; cbn; auto.
  all: try (apply bind_Some in E as (a & Ha%ParseInt_range & E);
            apply bind_Some in E as (b & Hb%ParseInt_range & E)).
  all: go_cases; auto; [left|right; left]; (split; [done|]); lia.
Qed.

Lemma compileRanges_wf s : Forall range_wf (compileRanges s).
Proof.
  apply Forall_forall. intros r (x & _ & E)%list_elem_of_omap. by eapply compileRange_wf.
Qed.

Lemma add_rule_wf rs kv : rules_wf rs -> rules_wf (add_rule rs kv).
Proof.
  intros H. unfold add_rule. case_decide; [done|].
  destruct (ParseUint 32 kv.1) as [n|] eqn:E; [|done].
  pose proof (compileRanges_wf kv.2) as W. destruct (compileRanges kv.2) eqn:Ec; [done|].
  apply map_Forall_insert_2; [|done]. split; [by eapply ParseUint_range|]. done.
Qed.

Lemma add_rules_wf l : forall rs, rules_wf rs -> rules_wf (foldl add_rule rs l).
Proof. induction l as [|kv l IH]; cbn; intros rs H; [done|]. by apply IH, add_rule_wf. Qed.

(** The size drawn for one element. *)
Definition size_ok (r : paddingRange) (l : Z) : Prop :=
  if decide (kind r = paddingKindFixed) then l = pmin r
  else if decide (kind r = paddingKindRange) then pmin r <= l < pmax r
  else l = CheckMark.

Lemma record_sizes_ok rs draws : Forall range_wf rs -> forall i,
  exists sizes, record_sizes rs draws i = Ret sizes /\ Forall2 size_ok rs sizes.
Proof.
  induction 1 as [|r rs Hr _ IH]; intros i; cbn [record_sizes]; [eauto|].
  destruct (IH (S i)) as (sizes & E & F). rewrite E. unfold size_ok.
  destruct Hr as [[K R]|[[K R]|K]]; rewrite K; cbn [mbind res_bind].
  - eexists. split; [reflexivity|]. constructor; [|done]. by rewrite decide_True.
  - unfold IntN. rewrite (decide_False (P := pmax r - pmin r <= 0)) by lia. cbn.
    eexists. split; [reflexivity|]. constructor; [|done]. rewrite decide_False, decide_True by (by rewrite K).
    pose proof (Z.mod_pos_bound (draws i) (pmax r - pmin r)). lia.
  - eexists. split; [reflexivity|]. constructor; [|done]. by rewrite !decide_False by (by rewrite K).
Qed.

Lemma NewPaddingFactory_wf md5 range raw p : NewPaddingFactory md5 range raw = Some p -> factory_wf p.
Proof.
  unfold NewPaddingFactory. case_decide; [done|]. intros (stop & Hs & [= <-])%bind_Some.
  split; cbn; [apply Z.mod_pos_bound; lia|]. by apply add_rules_wf.
Qed.

(** A drawn size is a check mark or a positive record size. *)
Definition size_valid (l : Z) : Prop := l = CheckMark \/ 0 < l < 2 ^ 63.

Lemma size_ok_valid r l : range_wf r -> size_ok r l -> size_valid l.
Proof.
  unfold size_ok, size_valid. intros [[K R]|[[K R]|K]] H.
  - rewrite decide_True in H by done. right. lia.
  - rewrite decide_False, decide_True in H by (by rewrite ?K). right. lia.
  - rewrite !decide_False in H by (by rewrite ?K). by left.
Qed.

Lemma GenerateRecordPayloadSizes_valid p pkt draws : factory_wf p ->
  exists sizes, GenerateRecordPayloadSizes p pkt draws = Ret sizes /\ Forall size_valid sizes.
Proof.
  intros [_ H]. unfold GenerateRecordPayloadSizes.
  destruct (rules p !! pkt) as [rs|] eqn:E; [|by eauto].
  apply H in E as (_ & _ & W). destruct (record_sizes_ok rs draws W 0) as (sizes & -> & F).
  exists sizes. split; [done|]. clear -W F. induction F; [done|].
  apply Forall_cons in W as [? ?]. constructor; [by eapply size_ok_valid|auto].
Qed.

(** * What the rules of a scheme are *)

(** The entry of the scheme for packet [n]: its key denotes [n] and its value
    compiles to some rule. *)
Definition entry_for (n : Z) (rs : list paddingRange) (kv : list byte * list byte) : Prop :=
  kv.1 <> lit "stop" /\ ParseUint 32 kv.1 = Some n /\ compileRanges kv.2 = rs /\ rs <> [].

Lemma add_rule_lookup rs kv n l :
  add_rule rs kv !! n = Some l <->
  entry_for n l kv \/ (rs !! n = Some l /\ (forall l', ~ entry_for n l' kv)).
Proof.
  unfold add_rule, entry_for. case_decide as Hs.
  { split; [intros E; right; split; [done|]; by intros l' [? _]|]. by intros [[? _]|[? _]]. }
  destruct (ParseUint 32 kv.1) as [m|] eqn:E.
  2:{ split; [intros F; right; split; [done|]; naive_solver|]. naive_solver. }
  destruct (compileRanges kv.2) as [|c cs] eqn:Ec.
  { split; [intros F; right; split; [done|]; naive_solver|]. naive_solver. }
  destruct (decide (m = n)) as [->|Hn].
  - rewrite lookup_insert_eq. split; [intros [= <-]; left; naive_solver|].
    intros [(_ & _ & <- & _)|[_ F]]; [done|]. destruct (F (c :: cs)). by split_and!.
  - rewrite lookup_insert_ne by done. naive_solver.
Qed.

(** Two entries that name the same packet agree. *)
Definition unambiguous (l : list (list byte * list byte)) : Prop :=
  forall n rs rs' kv kv', kv ∈ l -> kv' ∈ l -> entry_for n rs kv -> entry_for n rs' kv' -> rs = rs'.

Lemma foldl_add_rule_lookup l n rs0 rs : unambiguous l ->
  foldl add_rule rs0 l !! n = Some rs <->
  (exists kv, kv ∈ l /\ entry_for n rs kv) \/
  (rs0 !! n = Some rs /\ forall kv rs', kv ∈ l -> ~ entry_for n rs' kv).
Proof.
  revert rs0. induction l as [|kv l IH]; cbn [foldl]; intros rs0 U.
  { split; [intros E; right; split; [done|]; set_solver|]. intros [(kv & ? & _)|[? _]]; [set_solver|done]. }
  rewrite IH, add_rule_lookup; [|intros m r r' a b Ha Hb; apply (U m r r' a b); set_solver]. split.
  - intros [(kv' & ? & ?)|[[E|[E F]] G]].
    + left. exists kv'. set_solver.
    + left. exists kv. set_solver.
    + right. split; [done|]. intros kv' rs' [->|?]%elem_of_cons; [apply F|by apply G].
  - intros [(kv' & [->|Hk]%elem_of_cons & E)|[E G]].
    + destruct (decide (Exists (fun kv' => kv'.1 <> lit "stop" /\ ParseUint 32 kv'.1 = Some n /\ compileRanges kv'.2 <> []) l))
        as [(kv' & Hk & He)%Exists_exists|Hno].
      * left. exists kv'. split; [done|].
        assert (E' : entry_for n (compileRanges kv'.2) kv') by (unfold entry_for; tauto).
        by rewrite (U n rs _ kv kv' ltac:(set_solver) ltac:(set_solver) E E').
      * right. split; [by left|]. intros kv' rs' Hk He. apply Hno, Exists_exists. exists kv'.
        split; [done|]. unfold entry_for in He. naive_solver.
    + left. eauto.
    + right. split; [right; split; [done|]; intros; apply G; set_solver|]. intros; apply G. set_solver.
Qed.

Lemma unambiguous_perm l l' : l ≡ₚ l' -> unambiguous l -> unambiguous l'.
Proof. intros P U n rs rs' kv kv' ? ?. apply U; by rewrite P. Qed.

(** Whatever order Go visits the entries in, the rules of an unambiguous scheme
    are the compiled entries. *)
Lemma NewPaddingFactory_rules md5 range raw p :
  (forall m, range m ≡ₚ map_to_list m) -> NewPaddingFactory md5 range raw = Some p ->
  unambiguous (map_to_list (stringMapFromBytes raw)) -> forall n rs,
  rules p !! n = Some rs <->
  exists k v, stringMapFromBytes raw !! k = Some v /\ entry_for n rs (k, v).
Proof.
  intros Hr E U n rs. unfold NewPaddingFactory in E. case_decide; [done|].
  apply bind_Some in E as (stop & _ & [= <-]). cbn [rules].
  rewrite foldl_add_rule_lookup by (eapply unambiguous_perm; [symmetry; apply Hr|done]).
  split.
  - intros [([k v] & Hk & He)|[? _]]; [|done]. rewrite Hr in Hk. apply elem_of_map_to_list in Hk. eauto.
  - intros (k & v & Hk & He). left. exists (k, v). split; [|done]. rewrite Hr. by apply elem_of_map_to_list.
Qed.

(** An entry of the scheme text is its last line with that key. *)
Definition line_entry (line k v : list byte) : Prop := SplitN2 x3d line = [k; v].

Lemma stringMap_foldl ls : forall m k v,
  foldl stringMap_line m ls !! k = Some v <->
  (exists pre line post, ls = pre ++ line :: post /\ line_entry line k v /\
     forall l w, l ∈ post -> ~ line_entry l k w) \/
  (m !! k = Some v /\ forall l w, l ∈ ls -> ~ line_entry l k w).
Proof.
  assert (Hl : forall line m k v, stringMap_line m line !! k = Some v <->
    line_entry line k v \/ (m !! k = Some v /\ forall w, ~ line_entry line k w)).
  { intros line m k v. unfold stringMap_line, line_entry.
    destruct (SplitN2 x3d line) as [|a [|b [|]]]; try naive_solver.
    destruct (decide (a = k)) as [->|Hn]; [rewrite lookup_insert_eq|rewrite lookup_insert_ne by done]; naive_solver. }
  induction ls as [|line ls IH]; intros m k v; cbn [foldl].
  { split; [intros E; right; split; [done|set_solver]|]. intros [(pre & ? & ? & E & _)|[? _]]; [by destruct pre|done]. }
  rewrite IH, Hl. split.
  - intros [(pre & l & post & -> & ? & ?)|[[E|[E F]] G]].
    + left. by exists (line :: pre), l, post.
    + left. exists [], line, ls. eauto.
    + right. split; [done|]. intros l w [->|?]%elem_of_cons; eauto.
  - intros [(pre & l & post & E & El & F)|[E G]].
    + destruct pre as [|x pre]; simplify_eq/=; [right; eauto|].
      left. by exists pre, l, post.
    + right. split; [right; split; [done|]; intros; apply G; set_solver|]. intros; apply G. set_solver.
Qed.



Definition ambiguousScheme : list byte := lit "stop=8" ++ nl ++ lit "1=100-100" ++ nl ++ lit "01=200-200".

Theorem padding_scheme_order_dependent : exists r1 r2,
  (forall m, r1 m ≡ₚ map_to_list m) /\ (forall m, r2 m ≡ₚ map_to_list m) /\
  (rules <$> NewPaddingFactory id r1 ambiguousScheme) <> (rules <$> NewPaddingFactory id r2 ambiguousScheme).
Proof.
  exists map_to_list, (fun m => reverse (map_to_list m)). split_and!; [done| |].
  - intros m. apply reverse_Permutation.
  - vm_compute. done.
Qed.
