(* ===== verification/AnyTlsFrame.v ===== *)
(** AnyTLS frames and the writing side of a session (protocol/anytls/anytls.go,
    the write path of session.go): frames are encoded into the session's buffer and written in one burst that the
    padding scheme cuts into records and completes with waste frames.

    Clock readings, random draws and the outcome of
    [SetWriteDeadline] come from [environment], one per burst.  Methods run
    under [connLock], so a burst is one step. *)

From S2P Require Import Prelude GoStrings GoState Pool Transport AnyTlsPadding.

Definition cmdWaste : byte := x00.
Definition cmdSYN : byte := x01.
Definition cmdPSH : byte := x02.
Definition cmdFIN : byte := x03.
Definition cmdSettings : byte := x04.
Definition cmdAlert : byte := x05.
Definition cmdUpdatePaddingScheme : byte := x06.
Definition cmdSYNACK : byte := x07.
Definition cmdHeartRequest : byte := x08.
Definition cmdHeartResponse : byte := x09.
Definition cmdServerSettings : byte := x0a.

Definition headerOverHeadSize : nat := 1 + 4 + 2.
(** 32768, kept symbolic in proofs. *)
Definition maxFramePayloadSize : nat := Z.to_nat 32768.
Lemma maxFramePayloadSize_eq : Z.of_nat maxFramePayloadSize = 32768.
Proof. done. Qed.
Lemma maxFramePayloadSize_pos : (0 < maxFramePayloadSize)%nat.
Proof. pose proof maxFramePayloadSize_eq. lia. Qed.
#[global] Opaque maxFramePayloadSize.

(** * Data *)

Record frame := MkFrame { cmd : byte; f_sid : Z; data : list byte }.
#[export] Instance frame_eq_dec : EqDecision frame.
Proof. solve_decision. Defined.
Definition newFrame (c : byte) (sid : Z) : frame := MkFrame c sid [].

(** A pool buffer that carries received bytes; the number identifies it. *)
Record chunk := MkChunk { c_id : nat; c_bytes : list byte }.

(** A stream object. [closeCh] is whether the channel was closed. *)
Record stream_ := MkStream {
  id_ : Z; inbound : list chunk; readBuf : list byte; readBufPB : option nat;
  st_closed : bool; writeClosed : bool; closeCh : bool; closeErr : option error;
  readDeadline : Z; writeDeadline : Z; deadlineChanged : bool }.

Inductive sessionState := sessionStateActive | sessionStateIdle | sessionStateClosing | sessionStateClosed.
#[export] Instance sessionState_eq_dec : EqDecision sessionState.
Proof. solve_decision. Defined.

(** Streams are shared between the session's table and their users: [objs]
    holds the objects, [streams] refers to them.  [bufs] counts the buffers
    taken from the pool for received data, [released] lists those put back. *)
Record session := MkSession {
  conn : tconn; streams : gmap Z nat; objs : list stream_;
  padding : paddingFactory; sendPadding : bool; pktCounter : Z; burst : nat;
  sid_ : Z; state : sessionState; activeStreams : Z; idleAt : Z; closed : bool; done_ : bool;
  closeStreamChan : list Z; heartResponseCh : bool; writeBuf : list byte;
  flusher : option (list (option error)); bufs : nat; released : list nat }.

Definition set_conn (t : tconn) (s : session) : session :=
  MkSession t (streams s) (objs s) (padding s) (sendPadding s) (pktCounter s) (burst s) (sid_ s) (state s)
    (activeStreams s) (idleAt s) (closed s) (done_ s) (closeStreamChan s) (heartResponseCh s) (writeBuf s)
    (flusher s) (bufs s) (released s).
Definition set_sending (sp : bool) (pc : Z) (s : session) : session :=
  MkSession (conn s) (streams s) (objs s) (padding s) sp pc (burst s) (sid_ s) (state s)
    (activeStreams s) (idleAt s) (closed s) (done_ s) (closeStreamChan s) (heartResponseCh s) (writeBuf s)
    (flusher s) (bufs s) (released s).
Definition next_burst (s : session) : session :=
  MkSession (conn s) (streams s) (objs s) (padding s) (sendPadding s) (pktCounter s) (S (burst s)) (sid_ s) (state s)
    (activeStreams s) (idleAt s) (closed s) (done_ s) (closeStreamChan s) (heartResponseCh s) (writeBuf s)
    (flusher s) (bufs s) (released s).
Definition set_writeBuf (b : list byte) (s : session) : session :=
  MkSession (conn s) (streams s) (objs s) (padding s) (sendPadding s) (pktCounter s) (burst s) (sid_ s) (state s)
    (activeStreams s) (idleAt s) (closed s) (done_ s) (closeStreamChan s) (heartResponseCh s) b
    (flusher s) (bufs s) (released s).
Definition set_flusher (f : option (list (option error))) (s : session) : session :=
  MkSession (conn s) (streams s) (objs s) (padding s) (sendPadding s) (pktCounter s) (burst s) (sid_ s) (state s)
    (activeStreams s) (idleAt s) (closed s) (done_ s) (closeStreamChan s) (heartResponseCh s) (writeBuf s)
    f (bufs s) (released s).

(** * Encoding *)

Definition encodedFrameSize (f : frame) : res nat :=
  if decide (maxFramePayloadSize < length (data f))%nat then Fail (Errorf "anytls frame payload too large: %d > %d")
  else Ret (headerOverHeadSize + length (data f))%nat.

Definition encodeFrame (dst : list byte) (f : frame) : res (list byte * nat) :=
  dst ← set_at dst 0 (cmd f);
  dst ← write_at dst 1 (be32 (f_sid f));
  dst ← write_at dst 5 (be16 (Z.of_nat (length (data f))));
  '(dst, _) ← copy_at dst headerOverHeadSize (data f);
  Ret (dst, (headerOverHeadSize + length (data f))%nat).

(** [rawHeader]: seven bytes. *)
Definition Cmd (h : list byte) : res byte := index h 0.
Definition StreamID (h : list byte) : res Z := b ← slice h 1 5; Ret (be_get b).
Definition Length (h : list byte) : res Z := b ← slice h 5 7; Ret (be_get b).

Definition fillWasteFrame (f : list byte) (payloadLen : nat) : res (list byte) :=
  let f := replicate (length f) x00 in
  f ← set_at f 0 cmdWaste;
  f ← write_at f 1 (be32 0);
  write_at f 5 (be16 (Z.of_nat payloadLen)).

(** The buffer is reallocated when its capacity is too small; a fresh slice
    has capacity [size]. *)
Definition borrowWriteBuf (size : nat) : st session (list byte) := fun s =>
  let b := if decide (length (writeBuf s) < size)%nat then replicate size x00 else writeBuf s in
  (set_writeBuf b s, Ret (take size b)).
(** What was encoded into the borrowed slice stays in the session's buffer. *)
Definition fillWriteBuf (b : list byte) (s : session) : session :=
  set_writeBuf (b ++ drop (length b) (writeBuf s)) s.

(** * Writing *)

Definition conn_WriteFull (b : list byte) : st session (nat * option error) := fun s =>
  let '(t, r) := WriteFull b (conn s) in (set_conn t s, Ret r).

Definition Flush : st session (option error) := fun s =>
  match flusher s with
  | Some (e :: es) => (set_flusher (Some es) s, Ret e)
  | _ => (s, Ret None)
  end.

(** What one burst meets: the time, the outcome of [SetWriteDeadline], the
    random draws. *)
Record wenv := MkWenv { now : Z; setWriteDeadline : option error; draws : nat -> Z }.

(** Either the loop over the record sizes ends, with payload left to write, or
    the method returns an error. *)
Inductive padded := Rest (b : list byte) (n : nat) | Returned (n : nat) (e : error).

Section write.
Context {BS : BufferSource}.
Context (environment : nat -> wenv).

Definition env_next : st session wenv := fun s => (next_burst s, Ret (environment (burst s))).

(** The last part of the payload, completed with a waste frame when the record
    has room for one. *)
Definition write_last (l : Z) (b : list byte) (n : nat) : st session (nat * option error) :=
  let paddingLen := l - Z.of_nat (length b) - Z.of_nat headerOverHeadSize in
  if decide (0 < paddingLen) then
    let paddingLen := Nat.min (Z.to_nat paddingLen) maxFramePayloadSize in
    let combined := src_get (length b + headerOverHeadSize + paddingLen) in
    '(combined, _) ← lift (copy_at combined 0 b);
    tail ← lift (slice_from combined (length b));
    tail ← lift (fillWasteFrame tail paddingLen);
    '(wn, err) ← conn_WriteFull (take (length b) combined ++ tail);
    mret ((n + Nat.min wn (length b))%nat, err)
  else
    '(wn, err) ← conn_WriteFull b;
    mret ((n + wn)%nat, err).

Definition write_waste (l : Z) : st session (option error) :=
  let l := Nat.min (Z.to_nat l) maxFramePayloadSize in
  f ← lift (fillWasteFrame (src_get (headerOverHeadSize + l)) l);
  '(_, err) ← conn_WriteFull f;
  mret err.

Fixpoint pad_loop (sizes : list Z) (b : list byte) (n : nat) : st session padded :=
  match sizes with
  | [] => mret (Rest b n)
  | l :: sizes =>
      let remainPayloadLen := Z.of_nat (length b) in
      if decide (l = CheckMark) then
        if decide (remainPayloadLen = 0) then mret (Rest b n) else pad_loop sizes b n
      else if decide (remainPayloadLen > l) then
        record ← lift (if decide (l < 0) then Panic else slice b 0 (Z.to_nat l));
        '(wn, err) ← conn_WriteFull record;
        match err with
        | Some e => mret (Returned (n + wn) e)
        | None => pad_loop sizes (drop (Z.to_nat l) b) (n + wn)
        end
      else if decide (remainPayloadLen > 0) then
        '(n, err) ← write_last l b n;
        match err with
        | Some e => mret (Returned n e)
        | None => pad_loop sizes [] n
        end
      else
        err ← write_waste l;
        match err with
        | Some e => mret (Returned n e)
        | None => pad_loop sizes [] n
        end
  end.

Definition writeConnLocked (b : list byte) : st session (nat * option error) :=
  s ← get;
  if sendPadding s then
    let pkt := (pktCounter s + 1) mod 2 ^ 32 in
    _ ← modify (set_sending true pkt);
    if decide (pkt < Stop (padding s)) then
      env ← env_next;
      pktSizes ← lift (GenerateRecordPayloadSizes (padding s) pkt (draws env));
      r ← pad_loop pktSizes b 0;
      match r with
      | Returned n e => mret (n, Some e)
      | Rest b n =>
          if decide (length b = 0%nat) then mret (n, None)
          else '(n2, err) ← conn_WriteFull b; mret ((n + n2)%nat, err)
      end
    else
      _ ← modify (set_sending false pkt);
      conn_WriteFull b
  else conn_WriteFull b.

(** Deadlines are Unix nanoseconds, 0 for none. *)
Definition writeConnLockedWithDeadline (b : list byte) (deadline : Z) : st session (nat * option error) :=
  env ← env_next;
  if decide (deadline <> 0 /\ deadline <= now env) then mret (0%nat, Some ErrDeadlineExceeded)
  else
    match (if decide (deadline <> 0) then setWriteDeadline env else None) with
    | Some e => mret (0%nat, Some e)
    | None =>
        '(n, err) ← writeConnLocked b;
        match err with
        | Some e => mret (n, Some e)
        | None => ferr ← Flush; mret (n, ferr)
        end
    end.

(** [if closed { return 0, net.ErrClosed }] under the lock. *)
Definition checkOpen : st session unit :=
  s ← get; if closed s then fail ErrClosed else mret tt.

Definition okOr {A} (a : A) (err : option error) : st session A :=
  match err with Some e => fail e | None => mret a end.

(** Every error is returned with the count 0. *)
Definition writeFrameWithDeadline (f : frame) (deadline : Z) : st session nat :=
  size ← lift (encodedFrameSize f);
  _ ← checkOpen;
  buffer ← borrowWriteBuf size;
  '(buffer, _) ← lift (encodeFrame buffer f);
  _ ← modify (fillWriteBuf buffer);
  '(_, err) ← writeConnLockedWithDeadline buffer deadline;
  okOr (length (data f)) err.

Definition writeFrame (f : frame) : st session nat := writeFrameWithDeadline f 0.

(** Total encoded size and total payload. *)
Fixpoint frame_sizes (frames : list frame) : res (nat * nat) :=
  match frames with
  | [] => Ret (0%nat, 0%nat)
  | f :: frames =>
      size ← encodedFrameSize f;
      '(totalSize, totalData) ← frame_sizes frames;
      Ret ((size + totalSize)%nat, (length (data f) + totalData)%nat)
  end.

Fixpoint encode_frames (frames : list frame) (buffer : list byte) (offset : nat) : res (list byte) :=
  match frames with
  | [] => Ret buffer
  | f :: frames =>
      tail ← slice_from buffer offset;
      '(tail, n) ← encodeFrame tail f;
      encode_frames frames (take offset buffer ++ tail) (offset + n)
  end.

Definition writeFrames (frames : list frame) : st session nat :=
  '(totalSize, totalData) ← lift (frame_sizes frames);
  _ ← checkOpen;
  buffer ← borrowWriteBuf totalSize;
  buffer ← lift (encode_frames frames buffer 0);
  _ ← modify (fillWriteBuf buffer);
  '(_, err) ← writeConnLocked buffer;
  _ ← okOr tt err;
  ferr ← Flush;
  okOr totalData ferr.

(** [for written < len(data)]: at most [len(data)] frames. *)
Fixpoint split_data (fuel : nat) (sid : Z) (d : list byte) (written : nat) : list frame :=
  if decide (written < length d)%nat then
    match fuel with
    | O => []
    | S fuel =>
        let end_ := Nat.min (written + maxFramePayloadSize) (length d) in
        MkFrame cmdPSH sid (take (end_ - written) (drop written d)) :: split_data fuel sid d end_
    end
  else [].

Definition writeDataFramesBatch (sid : Z) (datas : list (list byte)) (deadline : Z) : st session nat :=
  let frames := datas ≫= (fun d => split_data (length d) sid d 0) in
  '(totalSize, totalData) ← lift (frame_sizes frames);
  if decide (length frames = 0%nat) then mret 0%nat
  else
    _ ← checkOpen;
    buffer ← borrowWriteBuf totalSize;
    buffer ← lift (encode_frames frames buffer 0);
    _ ← modify (fillWriteBuf buffer);
    '(_, err) ← writeConnLockedWithDeadline buffer deadline;
    okOr totalData err.

Fixpoint write_data_loop (fuel : nat) (sid : Z) (d : list byte) (written : nat) (deadline : Z) : st session (nat * option error) :=
  if decide (written < length d)%nat then
    match fuel with
    | O => mret (written, None)
    | S fuel =>
        let end_ := Nat.min (written + maxFramePayloadSize) (length d) in
        r ← try (writeFrameWithDeadline (MkFrame cmdPSH sid (take (end_ - written) (drop written d))) deadline);
        match r with
        | inr e => mret (written, Some e)
        | inl _ => write_data_loop fuel sid d end_ deadline
        end
    end
  else mret (written, None).
Definition writeDataFrames (sid : Z) (d : list byte) (deadline : Z) : st session (nat * option error) :=
  write_data_loop (length d) sid d 0 deadline.

(** * What reaches the transport *)

(** The wire form of a frame. *)
Definition enc (f : frame) : list byte :=
  cmd f :: be32 (f_sid f) ++ be16 (Z.of_nat (length (data f))) ++ data f.
Definition waste (k : nat) : frame := MkFrame cmdWaste 0 (replicate k x00).
Definition encs (fs : list frame) : list byte := fs ≫= enc.
Definition wastes (ws : list nat) : list byte := encs (waste <$> ws).

Lemma encs_app a b : encs (a ++ b) = encs a ++ encs b.
Proof. apply bind_app. Qed.
Lemma length_enc f : length (enc f) = (7 + length (data f))%nat.
Proof. unfold enc. len. Qed.

Lemma encodeFrame_ok dst f : (7 + length (data f) <= length dst)%nat ->
  encodeFrame dst f = Ret (enc f ++ drop (length (enc f)) dst, length (enc f)).
Proof.
  intros H. unfold encodeFrame, headerOverHeadSize. rewrite set_at_0 by lia. rewrite bind_ret.
  rewrite (write_at_app [cmd f]) by len. rewrite bind_ret.
  rewrite (write_at_app ([cmd f] ++ _)) by len. rewrite bind_ret.
  rewrite (copy_at_app (([cmd f] ++ _) ++ _)) by len.
  rewrite bind_ret. rewrite length_enc. f_equal. f_equal.
  unfold enc. rewrite !drop_drop, !length_be_put, <- !app_assoc. cbn [app]. repeat f_equal.
Qed.

Lemma fillWasteFrame_ok f k : length f = (7 + k)%nat -> fillWasteFrame f k = Ret (enc (waste k)).
Proof.
  intros H. unfold fillWasteFrame. rewrite H. rewrite set_at_0 by len. rewrite bind_ret.
  rewrite (write_at_app [cmdWaste]) by len. rewrite bind_ret.
  rewrite (write_at_app ([cmdWaste] ++ _)) by len.
  unfold enc, waste. cbn [cmd f_sid data]. rewrite length_replicate, !drop_drop, !length_be_put, drop_replicate, <- !app_assoc.
  replace (7 + k - _)%nat with k by lia. done.
Qed.

(** Everything of a session but its writing side. *)
Definition core (s : session) : session :=
  MkSession (MkTconn [] [] (t_closed (conn s))) (streams s) (objs s) (padding s) false 0 0 (sid_ s) (state s)
    (activeStreams s) (idleAt s) (closed s) (done_ s) (closeStreamChan s) (heartResponseCh s) []
    None (bufs s) (released s).

(** A transport that accepts everything. *)
Definition good (s : session) : Prop :=
  t_plan (conn s) = [] /\ t_closed (conn s) = false /\
  match flusher s with Some es => Forall (fun e => e = None) es | None => True end.

(** [m] writes a prefix of [bs] and nothing else of the session changes; without
    an error it writes all of it, and over a good transport there is no error. *)
Definition burst_of (bs : list byte) (k : nat) (e : option error) (s s' : session) : Prop :=
  core s' = core s /\ (k <= length bs)%nat /\ t_out (conn s') = t_out (conn s) ++ take k bs /\
  (e = None -> k = length bs) /\ (good s -> e = None /\ good s').

Lemma conn_WriteFull_spec b s : exists s' n e,
  conn_WriteFull b s = (s', Ret (n, e)) /\ burst_of b n e s s'.
Proof.
  unfold conn_WriteFull, WriteFull.
  destruct (WriteFull_loop_spec (length b) b 0 (conn s)) as (t' & n & e & E & R & Ho & He & Hg & Hc); [lia..|].
  rewrite E. do 3 eexists. split; [reflexivity|]. unfold burst_of.
  split_and!; cbn; try done; try lia.
  - unfold core. cbn. by rewrite Hc.
  - rewrite Ho, drop_0. by rewrite Nat.sub_0_r.
  - intros (G1 & G2 & G3). destruct Hg as (-> & ? & ?); done.
Qed.

(** A part of a longer burst: what precedes it is already written. *)
Lemma burst_of_app a bs k e s s1 s' :
  burst_of a (length a) None s s1 -> burst_of bs k e s1 s' ->
  burst_of (a ++ bs) (length a + k) e s s'.
Proof.
  intros (C1 & _ & O1 & _ & G1) (C2 & K & O2 & E2 & G2). split_and!.
  - congruence.
  - len.
  - rewrite O2, O1, take_ge, take_app_add' by lia. by rewrite app_assoc.
  - intros He. apply E2 in He. len.
  - intros G. apply G2. by apply G1.
Qed.

Lemma burst_of_full bs k s s' : burst_of bs k None s s' -> burst_of bs (length bs) None s s'.
Proof. intros H. assert (k = length bs) as -> by by apply H. done. Qed.

Lemma wastes_1 k : wastes [k] = enc (waste k).
Proof. unfold wastes, encs. cbn. by rewrite app_nil_r. Qed.

Lemma write_last_spec l b n s : exists s' n' e ws k,
  write_last l b n s = (s', Ret (n', e)) /\ Forall (fun w => (w <= maxFramePayloadSize)%nat) ws /\
  n' = (n + Nat.min k (length b))%nat /\ burst_of (b ++ wastes ws) k e s s'.
Proof.
  unfold write_last. case_decide as Hp.
  - set (w := Nat.min _ maxFramePayloadSize). cbv zeta.
    set (c := src_get _). assert (Hc : length c = (length b + 7 + w)%nat) by apply src_length.
    st_lift ltac:(apply copy_at_0; lia).
    st_lift ltac:(by apply slice_from_app).
    st_lift ltac:(apply fillWasteFrame_ok; len).
    rewrite take_app_length.
    destruct (conn_WriteFull_spec (b ++ enc (waste w)) s) as (s' & wn & e & E & H). st_call E.
    exists s', (n + Nat.min wn (length b))%nat, e, [w], wn. rewrite wastes_1. split_and!; try done.
    constructor; [lia|done].
  - destruct (conn_WriteFull_spec b s) as (s' & wn & e & E & H). st_call E.
    exists s', (n + wn)%nat, e, [], wn. unfold wastes, encs. cbn [mbind list_bind fmap list_fmap]. rewrite app_nil_r.
    split_and!; try done. destruct H as (_ & K & _). f_equal. lia.
Qed.

Lemma write_waste_spec l s : exists s' e w k,
  write_waste l s = (s', Ret e) /\ (w <= maxFramePayloadSize)%nat /\ burst_of (enc (waste w)) k e s s'.
Proof.
  unfold write_waste. set (w := Nat.min _ maxFramePayloadSize). cbv zeta.
  st_lift ltac:(apply fillWasteFrame_ok; by rewrite src_length).
  destruct (conn_WriteFull_spec (enc (waste w)) s) as (s' & wn & e & E & H). st_call E.
  exists s', e, w, wn. split; [done|]. split; [lia|done].
Qed.

(** Result of the loop over the record sizes. *)
Definition padded_ok (b : list byte) (n : nat) (r : padded) (ws : list nat) (s s' : session) : Prop :=
  match r with
  | Rest b' n' => exists pre, b = pre ++ b' /\ (ws = [] \/ b' = []) /\ n' = (n + length pre)%nat /\
      burst_of (pre ++ wastes ws) (length (pre ++ wastes ws)) None s s'
  | Returned n' e => exists k, n' = (n + Nat.min k (length b))%nat /\ burst_of (b ++ wastes ws) k (Some e) s s'
  end.

Lemma burst_of_nil s : burst_of [] 0 None s s.
Proof. unfold burst_of. cbn. rewrite app_nil_r. split_and!; auto. Qed.

Lemma padded_ok_nil b n s : padded_ok b n (Rest b n) [] s s.
Proof. exists []. split_and!; [done|by left|cbn; lia|apply burst_of_nil]. Qed.

Lemma burst_of_prefix a bs k e s s' : burst_of a k (Some e) s s' -> burst_of (a ++ bs) k (Some e) s s'.
Proof.
  intros (C & K & O & E & G). split_and!; try done; [len|]. rewrite O, take_app_le by lia. done.
Qed.

Lemma wastes_app a b : wastes (a ++ b) = wastes a ++ wastes b.
Proof. unfold wastes. by rewrite fmap_app, encs_app. Qed.

Lemma pad_loop_ok sizes : Forall size_valid sizes -> forall b n s, exists s' r ws,
  pad_loop sizes b n s = (s', Ret r) /\ Forall (fun w => (w <= maxFramePayloadSize)%nat) ws /\ padded_ok b n r ws s s'.
Proof.
  induction 1 as [|l sizes Hl _ IH]; intros b n s; cbn [pad_loop].
  { exists s, (Rest b n), []. split_and!; try done. apply padded_ok_nil. }
  case_decide as Hm.
  { case_decide; [|apply IH]. exists s, (Rest b n), []. split_and!; try done. apply padded_ok_nil. }
  destruct Hl as [?|Hl]; [done|].
  case_decide as Hr.
  { rewrite decide_False by lia. st_lift ltac:(apply slice_eq; lia).
    rewrite Nat.sub_0_r, drop_0. set (a := take (Z.to_nat l) b). set (c := drop (Z.to_nat l) b).
    assert (Hb : b = a ++ c) by (unfold a, c; by rewrite take_drop).
    destruct (conn_WriteFull_spec a s) as (s1 & wn & e & E & H). st_call E.
    destruct e as [e|].
    - exists s1, (Returned (n + wn) e), []. split_and!; try done. exists wn. rewrite Hb.
      destruct (H) as (_ & K & _). split; [len|]. rewrite <- app_assoc. by apply burst_of_prefix.
    - assert (wn = length a) as -> by by apply H.
      destruct (IH c (n + length a)%nat s1) as (s2 & r & ws & E2 & W & P). exists s2, r, ws.
      split; [done|]. split; [done|]. destruct r as [b' n'|n' e]; cbn [padded_ok length] in *.
      + destruct P as (pre & Hc & Hd & Hn & P). exists (a ++ pre). split_and!; [by rewrite Hb, Hc, app_assoc|done|len|].
        rewrite <- app_assoc, length_app. by eapply burst_of_app.
      + destruct P as (k & Hk & P). exists (length a + k)%nat. split; [rewrite Hb; len|].
        rewrite Hb, <- app_assoc. by eapply burst_of_app. }
  case_decide as Hp.
  { destruct (write_last_spec l b n s) as (s1 & n1 & e & ws & k & E & W & Hn & H). st_call E.
    destruct e as [e|]; [exists s1, (Returned n1 e), ws; split_and!; try done; by exists k|].
    assert (k = length (b ++ wastes ws)) as -> by by apply H.
    destruct (IH [] n1 s1) as (s2 & r & ws2 & E2 & W2 & P). exists s2, r, (ws ++ ws2).
    split; [done|]. split; [by apply Forall_app|]. destruct r as [b' n'|n' e]; cbn [padded_ok length] in *.
    - destruct P as (pre & Hc & Hd & Hn' & P). symmetry in Hc. apply app_eq_nil in Hc as [-> ->].
      exists b. rewrite app_nil_r. split_and!; auto; [len|].
      rewrite wastes_app, app_assoc, length_app. by eapply burst_of_app.
    - destruct P as (k & Hk & P). exists (length (b ++ wastes ws) + k)%nat. split; [len|].
      rewrite wastes_app, app_assoc. by eapply burst_of_app. }
  assert (b = []) as -> by (apply nil_length_inv; lia).
  destruct (write_waste_spec l s) as (s1 & e & w & k & E & W & H). st_call E.
  destruct e as [e|].
  { exists s1, (Returned n e), [w]. split_and!; try done; [by constructor|]. exists k. split; [cbn; lia|].
    by rewrite wastes_1. }
  apply burst_of_full in H. destruct (IH [] n s1) as (s2 & r & ws2 & E2 & W2 & P). exists s2, r, (w :: ws2).
  split; [done|]. split; [by constructor|]. destruct r as [b' n'|n' e]; cbn [padded_ok length] in *.
  - destruct P as (pre & Hc & Hd & Hn' & P). symmetry in Hc. apply app_eq_nil in Hc as [-> ->].
    exists []. split_and!; auto.
    change (w :: ws2) with ([w] ++ ws2). rewrite wastes_app, wastes_1. cbn [app] in *. rewrite length_app. by eapply burst_of_app.
  - destruct P as (k' & Hk & P). exists (length (enc (waste w)) + k')%nat. split; [lia|].
    change (w :: ws2) with ([w] ++ ws2). rewrite wastes_app, wastes_1. cbn [app] in *. by eapply burst_of_app.
Qed.

Lemma core_burst bs k e s s' s1 : core s1 = core s -> t_out (conn s1) = t_out (conn s) -> (good s -> good s1) ->
  burst_of bs k e s1 s' -> burst_of bs k e s s'.
Proof. intros C O G (C1 & K & O1 & E1 & G1). split_and!; try done; [congruence..|]. auto. Qed.

(** A burst of payload [b]: over the wire go [b] and then waste frames. *)
Lemma writeConnLocked_spec b s : factory_wf (padding s) -> exists s' n e ws k,
  writeConnLocked b s = (s', Ret (n, e)) /\ Forall (fun w => (w <= maxFramePayloadSize)%nat) ws /\
  n = Nat.min k (length b) /\ burst_of (b ++ wastes ws) k e s s'.
Proof.
  intros F. unfold writeConnLocked.
  assert (Plain : forall s1, core s1 = core s -> t_out (conn s1) = t_out (conn s) -> (good s -> good s1) ->
    exists s' n e ws k, conn_WriteFull b s1 = (s', Ret (n, e)) /\ Forall (fun w => (w <= maxFramePayloadSize)%nat) ws /\
    n = Nat.min k (length b) /\ burst_of (b ++ wastes ws) k e s s').
  { intros s1 C O G. destruct (conn_WriteFull_spec b s1) as (s' & n & e & E & H).
    exists s', n, e, [], n. split; [done|]. split; [done|]. unfold wastes, encs. cbn. rewrite app_nil_r.
    split; [destruct H as (_ & ? & _); lia|]. by eapply core_burst. }
  st_pure. destruct (sendPadding s); [|by apply Plain].
  st_pure. set (pkt := _ mod _). case_decide; [|st_pure; by apply Plain].
  st_pure. set (s1 := next_burst _).
  destruct (GenerateRecordPayloadSizes_valid (padding s) pkt (draws (environment (burst (set_sending true pkt s)))) F)
    as (sizes & E & V). rewrite (st_lift_Ret _ _ _ _ E).
  destruct (pad_loop_ok sizes V b 0 s1) as (s2 & r & ws & E2 & W & P). st_call E2.
  assert (Hs : forall bs k e s', burst_of bs k e s1 s' -> burst_of bs k e s s').
  { intros bs k e s'. by apply core_burst. }
  destruct r as [b' n|n e]; cbn in P.
  2:{ destruct P as (k & Hk & P). exists s2, n, (Some e), ws, k. split_and!; done. }
  destruct P as (pre & Hb & Hd & Hn & P). case_decide as Hz.
  { apply nil_length_inv in Hz as ->. rewrite app_nil_r in Hb. subst pre.
    exists s2, n, None, ws, (length (b ++ wastes ws)). split_and!; try done. len. }
  destruct (conn_WriteFull_spec b' s2) as (s3 & n2 & e & E3 & H3). st_call E3.
  destruct Hd as [-> | ->]; [|done]. unfold wastes, encs in P. cbn in P. rewrite app_nil_r in P.
  exists s3, (n + n2)%nat, e, [], (length pre + n2)%nat. unfold wastes, encs. cbn. rewrite app_nil_r.
  split_and!; try done; [|].
  - destruct H3 as (_ & K & _). rewrite Hb. len.
  - rewrite Hb. apply Hs. by eapply burst_of_app.
Qed.

(** The deadline, if any, is in the future and can be set. *)
Definition timely (deadline : Z) : Prop :=
  deadline = 0 \/ forall n, now (environment n) < deadline /\ setWriteDeadline (environment n) = None.

(** The frames [fs], or a prefix of their bytes after an error, reached the
    transport, followed by waste frames; nothing else of the session changed. *)
Definition sent (fs : list frame) (ok : bool) (s s' : session) : Prop :=
  core s' = core s /\ exists ws k, Forall (fun w => (w <= maxFramePayloadSize)%nat) ws /\
    (k <= length (encs fs ++ wastes ws))%nat /\ t_out (conn s') = t_out (conn s) ++ take k (encs fs ++ wastes ws) /\
    (ok = true -> k = length (encs fs ++ wastes ws)).

Definition is_none (e : option error) : bool := match e with None => true | Some _ => false end.

Lemma Flush_spec s : exists s' e, Flush s = (s', Ret e) /\ core s' = core s /\ conn s' = conn s /\
  (good s -> e = None /\ good s').
Proof.
  unfold Flush. destruct (flusher s) as [[|e es]|] eqn:Ef; [by exists s, None|..|by exists s, None].
  exists (set_flusher (Some es) s), e. split_and!; try done. intros (G1 & G2 & G3). rewrite Ef in G3.
  by apply Forall_cons in G3 as [-> ?].
Qed.

Lemma burst_sent fs ws k e s s' : Forall (fun w => (w <= maxFramePayloadSize)%nat) ws ->
  burst_of (encs fs ++ wastes ws) k e s s' -> sent fs (is_none e) s s'.
Proof.
  intros W (C & K & O & E & _). split; [done|]. exists ws, k. split_and!; try done.
  intros He. apply E. by destruct e.
Qed.

Lemma sent_nothing fs s s' : core s' = core s -> t_out (conn s') = t_out (conn s) -> sent fs false s s'.
Proof.
  intros C O. split; [done|]. exists [], 0%nat.
  split_and!; [constructor|lia|by rewrite take_0, app_nil_r|done].
Qed.

Lemma sent_weaken fs ok s s' : sent fs ok s s' -> sent fs false s s'.
Proof. intros (C & ws & k & W & K & O & _). split; [done|]. by exists ws, k. Qed.

Lemma sent_from fs ok s1 s s' : core s1 = core s -> t_out (conn s1) = t_out (conn s) ->
  sent fs ok s1 s' -> sent fs ok s s'.
Proof. intros C O (C1 & ws & k & W & K & O1 & E). split; [congruence|]. exists ws, k. by rewrite <- O. Qed.

Lemma sent_to fs ok s s' s2 : core s2 = core s' -> conn s2 = conn s' -> sent fs ok s s' -> sent fs ok s s2.
Proof. intros C O (C1 & ws & k & W & K & O1 & E). split; [congruence|]. exists ws, k. by rewrite O. Qed.

Lemma writeDeadline_spec fs d s : factory_wf (padding s) -> exists s' n e,
  writeConnLockedWithDeadline (encs fs) d s = (s', Ret (n, e)) /\ sent fs (is_none e) s s' /\
  (good s -> timely d -> e = None /\ good s').
Proof.
  intros F. unfold writeConnLockedWithDeadline. st_pure. set (s1 := next_burst s). set (env := environment _).
  case_decide as Hd.
  { do 3 eexists. split; [reflexivity|]. split; [by apply sent_nothing|]. intros _ [?|T]; [lia|].
    destruct (T (burst s)). unfold env in Hd. lia. }
  destruct (if decide _ then _ else _) as [e|] eqn:Ee.
  { do 3 eexists. split; [reflexivity|]. split; [by apply sent_nothing|]. case_decide as Hz; [|done]. intros _ [?|T]; [lia|].
    destruct (T (burst s)) as [_ T2]. unfold env in Ee. congruence. }
  destruct (writeConnLocked_spec (encs fs) s1 F) as (s2 & n & e & ws & k & E & W & _ & B). st_call E.
  pose proof (burst_sent _ _ _ _ _ _ W B) as S. apply (sent_from fs _ s1 s) in S; [|done..].
  assert (G : good s -> e = None /\ good s2) by by intros G; apply B.
  destruct e as [e|]; [by exists s2, n, (Some e); split_and!; auto|].
  destruct (Flush_spec s2) as (s3 & fe & E3 & C3 & O3 & G3). st_call E3.
  exists s3, n, fe. split; [done|]. split.
  - apply (sent_to fs _ s s2 s3) in S; [|done..]. destruct fe; [by eapply sent_weaken|done].
  - intros Gs _. apply G3. by apply G.
Qed.

Lemma encode_frames_ok fs : forall pre rest, length rest = length (encs fs) ->
  encode_frames fs (pre ++ rest) (length pre) = Ret (pre ++ encs fs).
Proof.
  induction fs as [|f fs IH]; intros pre rest H; cbn [encode_frames].
  - by apply nil_length_inv in H as ->.
  - change (encs (f :: fs)) with (enc f ++ encs fs) in *. rewrite length_app in H.
    rewrite slice_from_app, bind_ret by done. rewrite encodeFrame_ok by (rewrite <- length_enc; lia).
    rewrite bind_ret, take_app_length, app_assoc. rewrite <- length_app, IH by len. by rewrite <- app_assoc.
Qed.

Definition small (f : frame) : Prop := (length (data f) <= maxFramePayloadSize)%nat.
Definition payload (fs : list frame) : nat := length (fs ≫= data).

Lemma frame_sizes_ok fs : Forall small fs -> frame_sizes fs = Ret (length (encs fs), payload fs).
Proof.
  induction 1 as [|f fs Hf _ IH]; cbn [frame_sizes]; [done|].
  unfold encodedFrameSize. rewrite decide_False by (unfold small in Hf; lia). rewrite bind_ret, IH, bind_ret.
  change (encs (f :: fs)) with (enc f ++ encs fs). unfold payload. cbn [mbind list_bind].
  rewrite !length_app, length_enc. done.
Qed.

Lemma length_borrow (size : nat) (w : list byte) :
  length (take size (if decide (length w < size)%nat then replicate size x00 else w)) = size.
Proof. rewrite length_take. case_decide; rewrite ?length_replicate; lia. Qed.

(** The common part of the frame writers: borrow, encode, keep the buffer. *)
Lemma borrow_encode fs s : exists b,
  borrowWriteBuf (length (encs fs)) s = (set_writeBuf b s, Ret (take (length (encs fs)) b)) /\
  encode_frames fs (take (length (encs fs)) b) 0 = Ret (encs fs).
Proof.
  unfold borrowWriteBuf. eexists. split; [reflexivity|].
  apply (encode_frames_ok fs []), length_borrow.
Qed.

Lemma borrow_encode1 f s : exists b,
  borrowWriteBuf (7 + length (data f)) s = (set_writeBuf b s, Ret (take (7 + length (data f)) b)) /\
  encodeFrame (take (7 + length (data f)) b) f = Ret (encs [f], length (enc f)).
Proof.
  unfold borrowWriteBuf. eexists. split; [reflexivity|].
  rewrite encodeFrame_ok, drop_ge by (rewrite ?length_enc, length_borrow; lia).
  done.
Qed.

(** The outcome of a frame writer on an open session: frames [fs], total
    payload [n]. *)
Definition writes_frames (m : st session nat) (fs : list frame) (d : Z) (s : session) : Prop :=
  exists s' r, m s = (s', r) /\ (r = Ret (payload fs) \/ exists e, r = Fail e) /\
    sent fs (bool_decide (r = Ret (payload fs))) s s' /\
    (good s -> timely d -> r = Ret (payload fs) /\ good s').

Lemma sent_bool (e : option error) (n : nat) fs s s' : sent fs (is_none e) s s' ->
  sent fs (bool_decide (match e with Some e => Fail e | None => Ret n end = Ret n)) s s'.
Proof. destruct e; [by rewrite bool_decide_false by done|by rewrite bool_decide_true by done]. Qed.

Lemma writeFrameWithDeadline_spec f d s : small f -> factory_wf (padding s) -> closed s = false ->
  writes_frames (writeFrameWithDeadline f d) [f] d s.
Proof.
  intros Hf F Hc. unfold writeFrameWithDeadline, writes_frames, checkOpen.
  unfold encodedFrameSize. rewrite decide_False by (unfold small in Hf; lia). st_pure.
  rewrite (st_bind_Ret _ _ s s tt) by (st_pure; by rewrite Hc).
  destruct (borrow_encode1 f s) as (b & E1 & E2). st_call E1. rewrite (st_lift_Ret _ _ _ _ E2). cbv beta iota.
  st_pure. set (s1 := fillWriteBuf _ _).
  destruct (writeDeadline_spec [f] d s1 F) as (s' & n & e & E & S & G). st_call E.
  apply (sent_from _ _ s1 s) in S; [|done..].
  assert (P : payload [f] = length (data f)) by (unfold payload; cbn; by rewrite app_nil_r).
  rewrite P. exists s', (match e with Some e => Fail e | None => Ret (length (data f)) end).
  split_and!; [by destruct e|destruct e; eauto|by apply sent_bool|].
  intros Gs T. destruct G as [-> G]; done.
Qed.

Lemma writeFrames_spec fs s : Forall small fs -> factory_wf (padding s) -> closed s = false ->
  writes_frames (writeFrames fs) fs 0 s.
Proof.
  intros Hf F Hc. unfold writeFrames, writes_frames, checkOpen.
  rewrite frame_sizes_ok by done. st_pure. cbv beta iota.
  rewrite (st_bind_Ret _ _ s s tt) by (st_pure; by rewrite Hc).
  destruct (borrow_encode fs s) as (b & E1 & E2). st_call E1. rewrite (st_lift_Ret _ _ _ _ E2). cbv beta iota.
  st_pure. set (s1 := fillWriteBuf _ _).
  destruct (writeConnLocked_spec (encs fs) s1 F) as (s2 & n & e & ws & k & E & W & _ & B). st_call E.
  pose proof (burst_sent _ _ _ _ _ _ W B) as S. apply (sent_from fs _ s1 s) in S; [|done..].
  destruct e as [e|].
  { exists s2, (Fail e). split_and!; [done|eauto|by rewrite bool_decide_false|].
    intros Gs _. by destruct B as (_ & _ & _ & _ & G); destruct G. }
  st_pure. destruct (Flush_spec s2) as (s3 & fe & E3 & C3 & O3 & G3). st_call E3.
  apply (sent_to fs _ s s2 s3) in S; [|done..].
  exists s3, (match fe with Some e => Fail e | None => Ret (payload fs) end).
  split_and!; [by destruct fe|destruct fe; eauto| |].
  - apply sent_bool. destruct fe; [by eapply sent_weaken|done].
  - intros Gs _. destruct G3 as [-> G]; [|done]. by apply B.
Qed.

(** * Frame sequences on the wire *)

Definition frame_wf (f : frame) : Prop := small f /\ 0 <= f_sid f < 2 ^ 32.
Definition not_waste (f : frame) : Prop := cmd f <> cmdWaste.
#[export] Instance not_waste_dec f : Decision (not_waste f).
Proof. unfold not_waste. apply _. Defined.

(** [bs] is the encoding of the frames [fs] with waste frames between them. *)
Definition carries (fs : list frame) (bs : list byte) : Prop :=
  exists gs, bs = encs gs /\ Forall frame_wf gs /\ filter not_waste gs = fs.

Lemma carries_nil : carries [] [].
Proof. by exists []. Qed.

Lemma carries_app fs gs a b : carries fs a -> carries gs b -> carries (fs ++ gs) (a ++ b).
Proof.
  intros (x & -> & Hx & <-) (y & -> & Hy & <-). exists (x ++ y).
  split_and!; [by rewrite encs_app|by apply Forall_app|by rewrite filter_app].
Qed.

Definition plain (f : frame) : Prop := frame_wf f /\ not_waste f.

Lemma carries_frames fs ws : Forall plain fs -> Forall (fun w => (w <= maxFramePayloadSize)%nat) ws ->
  carries fs (encs fs ++ wastes ws).
Proof.
  intros Hf Hw. exists (fs ++ (waste <$> ws)). split_and!.
  - unfold wastes. by rewrite encs_app.
  - apply Forall_app. split; [eapply Forall_impl; [exact Hf|]; by intros f []|].
    apply Forall_fmap. eapply Forall_impl; [exact Hw|]. intros w H. split; [|done].
    unfold small, waste. cbn. by rewrite length_replicate.
  - rewrite filter_app, (filter_all _ fs), (filter_none _ (waste <$> ws)); [by rewrite app_nil_r| |].
    + apply Forall_fmap, Forall_forall. intros w _. unfold not_waste. cbn. by intros [].
    + eapply Forall_impl; [exact Hf|]. by intros f [].
Qed.

Lemma sent_carries fs s s' : Forall plain fs -> sent fs true s s' ->
  core s' = core s /\ exists bs, t_out (conn s') = t_out (conn s) ++ bs /\ carries fs bs.
Proof.
  intros H (C & ws & k & W & K & O & E). split; [done|]. exists (encs fs ++ wastes ws).
  split; [|by apply carries_frames]. rewrite O, E, firstn_all by done. done.
Qed.

Lemma sent_partial fs s s' ok : sent fs ok s s' ->
  core s' = core s /\ exists bs, t_out (conn s') = t_out (conn s) ++ bs.
Proof. intros (C & ws & k & W & K & O & E). eauto. Qed.

(** ** Splitting data *)

Lemma split_data_ok fuel sid : 0 <= sid < 2 ^ 32 -> forall d w, (length d <= w + fuel)%nat ->
  (split_data fuel sid d w ≫= data) = drop w d /\ Forall plain (split_data fuel sid d w) /\
  Forall (fun f => cmd f = cmdPSH /\ f_sid f = sid /\ data f <> []) (split_data fuel sid d w).
Proof.
  intros Hs. pose proof maxFramePayloadSize_pos as M.
  induction fuel as [|fuel IH]; intros d w H; cbn [split_data].
  { rewrite decide_False by lia. rewrite drop_ge by lia. done. }
  case_decide; [|by rewrite drop_ge by lia].
  set (e := Nat.min _ _). destruct (IH d e) as (E & P & Q); [lia|].
  set (x := take (e - w) (drop w d)).
  assert (Hx : length x = (e - w)%nat) by (unfold x; len).
  split_and!.
  - cbn [mbind list_bind data]. change (list_bind _ _ data) with (mbind (M := list) data). 
    fold x. etrans; [|apply (take_drop (e - w))]. f_equal. rewrite drop_drop.
    replace (w + (e - w))%nat with e by lia. exact E.
  - constructor; [|done]. split; [split; [|done]|done]. unfold small. cbn. fold x. lia.
  - constructor; [|done]. cbn. fold x. split_and!; [done..|]. intros E0. rewrite E0 in Hx. cbn in Hx. lia.
Qed.

Definition data_frames (sid : Z) (d : list byte) : list frame := split_data (length d) sid d 0.

Lemma data_frames_ok sid d : 0 <= sid < 2 ^ 32 ->
  (data_frames sid d ≫= data) = d /\ Forall plain (data_frames sid d) /\
  Forall (fun f => cmd f = cmdPSH /\ f_sid f = sid /\ data f <> []) (data_frames sid d).
Proof. intros H. apply split_data_ok; [done|lia]. Qed.

Lemma batch_frames_ok sid ds : 0 <= sid < 2 ^ 32 ->
  ((ds ≫= data_frames sid) ≫= data) = concat ds /\ Forall plain (ds ≫= data_frames sid) /\
  Forall (fun f => cmd f = cmdPSH /\ f_sid f = sid /\ data f <> []) (ds ≫= data_frames sid).
Proof.
  intros H. induction ds as [|d ds (E & P & Q)]; [done|].
  destruct (data_frames_ok sid d H) as (E1 & P1 & Q1). rewrite bind_cons, bind_app, E, E1.
  split_and!; [done|by apply Forall_app..].
Qed.

Lemma plain_small fs : Forall plain fs -> Forall small fs.
Proof. intros H. eapply Forall_impl; [exact H|]. by intros f [[? _] _]. Qed.

Lemma writeDataFramesBatch_spec sid ds dl s : 0 <= sid < 2 ^ 32 -> factory_wf (padding s) -> closed s = false ->
  writes_frames (writeDataFramesBatch sid ds dl) (ds ≫= data_frames sid) dl s.
Proof.
  intros Hs F Hc. destruct (batch_frames_ok sid ds Hs) as (_ & P & _).
  unfold writeDataFramesBatch, writes_frames, checkOpen. fold (data_frames sid).
  set (fs := ds ≫= _) in *. change (ds ≫= (fun d => split_data (length d) sid d 0)) with fs.
  rewrite frame_sizes_ok by by apply plain_small. st_pure. cbv beta iota. case_decide as Hz.
  { apply nil_length_inv in Hz as ->. exists s, (Ret 0%nat). split_and!; [done|by left| |done].
    split; [done|]. exists [], 0%nat. split_and!; [constructor|cbn; lia|by rewrite take_0, app_nil_r|done]. }
  rewrite (st_bind_Ret _ _ s s tt) by (st_pure; by rewrite Hc).
  destruct (borrow_encode fs s) as (b & E1 & E2). st_call E1. rewrite (st_lift_Ret _ _ _ _ E2). cbv beta iota.
  st_pure. set (s1 := fillWriteBuf _ _).
  destruct (writeDeadline_spec fs dl s1 F) as (s' & n & e & E & S & G). st_call E.
  apply (sent_from _ _ s1 s) in S; [|done..].
  exists s', (match e with Some e => Fail e | None => Ret (payload fs) end).
  split_and!; [by destruct e|destruct e; eauto|by apply sent_bool|].
  intros Gs T. destruct G as [-> G]; done.
Qed.

(** The outcome of writing the data [d] from [w] on, frame by frame: [n - w]
    bytes of it went out in complete frames, and only an error leaves more. *)
Definition data_sent (all : list frame) (d : list byte) (dl : Z) (w n : nat) (e : option error) (s s' : session) : Prop :=
  core s' = core s /\ (w <= n <= length d)%nat /\
  (exists fs bs part, t_out (conn s') = t_out (conn s) ++ bs ++ part /\ carries fs bs /\
     (fs ≫= data) = take (n - w) (drop w d) /\ (e = None -> n = length d /\ part = [] /\ fs = all)) /\
  (good s -> timely dl -> e = None /\ good s').

Lemma data_sent_end d dl w s : w = length d -> data_sent [] d dl w w None s s.
Proof.
  intros H. split_and!; [done|lia..| |done]. exists [], [], []. rewrite Nat.sub_diag, !app_nil_r.
  split_and!; auto using carries_nil.
Qed.

Lemma data_sent_fail all f d dl w e s s' : (w <= length d)%nat -> sent [f] false s s' ->
  (good s -> ~ timely dl) -> data_sent all d dl w w (Some e) s s'.
Proof.
  intros H (C & bs & Ho)%sent_partial G. split_and!; [done|lia..| |naive_solver].
  exists [], [], bs. rewrite Nat.sub_diag. split_and!; auto using carries_nil. done.
Qed.

Lemma writeDataFrames_loop_ok fuel sid dl : 0 <= sid < 2 ^ 32 -> forall d w s,
  (length d <= w + fuel)%nat -> (w <= length d)%nat -> factory_wf (padding s) -> closed s = false ->
  exists s' n e, write_data_loop fuel sid d w dl s = (s', Ret (n, e)) /\
    data_sent (split_data fuel sid d w) d dl w n e s s'.
Proof.
  intros Hs. pose proof maxFramePayloadSize_pos as M.
  induction fuel as [|fuel IH]; intros d w s H Hw F Hc; cbn [write_data_loop split_data].
  { rewrite !decide_False by lia. exists s, w, None. split; [done|]. apply data_sent_end. lia. }
  destruct (decide (w < length d)%nat) as [Hlt|]; [|exists s, w, None; split; [done|]; apply data_sent_end; lia].
  set (m := Nat.min _ _). set (f := MkFrame _ _ _).
  assert (Hf : plain f /\ length (data f) = (m - w)%nat /\ data f = take (m - w) (drop w d)).
  { assert (length (data f) = (m - w)%nat) by (cbn; len). split; [|done]. split; [split|done]; [|done].
    unfold small. lia. }
  destruct Hf as (Hp & Hl & Hd).
  destruct (writeFrameWithDeadline_spec f dl s) as (s1 & r & E & Hr & S & G); [apply Hp|done..|].
  unfold try. rewrite (st_bind_Ret _ _ s s1 (match r with Fail e => inr e | _ => inl (payload [f]) end))
    by (rewrite E; destruct Hr as [->|[e ->]]; done).
  destruct Hr as [->|[e ->]].
  2:{ exists s1, w, (Some e). split; [done|]. eapply data_sent_fail; [lia|by eapply sent_weaken|].
      intros Gs T. by destruct G. }
  rewrite bool_decide_true in S by done. apply sent_carries in S as (C & bs & O & Cr); [|by constructor].
  destruct (IH d m s1) as (s2 & n & e & E2 & C2 & R & (fs & bs2 & part & O2 & Cr2 & D2 & N2) & G2); [lia..| | |].
  { pose proof (f_equal padding C) as Cp. cbn in Cp. by rewrite Cp. }
  { pose proof (f_equal closed C) as Cp. cbn in Cp. by rewrite Cp. }
  exists s2, n, e. split; [done|]. split_and!; [congruence|lia..| |].
  - exists (f :: fs), (bs ++ bs2), part. split_and!.
    + by rewrite O2, O, <- !app_assoc.
    + by apply (carries_app [f]).
    + rewrite bind_cons, D2, Hd. replace (n - w)%nat with ((m - w) + (n - m))%nat by lia.
      rewrite <- (take_drop (m - w) (drop w d)) at 2. rewrite take_app_add' by len. do 2 f_equal. rewrite drop_drop. f_equal. lia.
    + intros ->. destruct N2 as (-> & -> & ->); done.
  - intros Gs T. destruct G as [_ G]; [done..|]. by apply G2.
Qed.

Lemma writeDataFrames_spec sid d dl s : 0 <= sid < 2 ^ 32 -> factory_wf (padding s) -> closed s = false ->
  exists s' n e, writeDataFrames sid d dl s = (s', Ret (n, e)) /\
    data_sent (data_frames sid d) d dl 0 n e s s'.
Proof. intros. apply writeDataFrames_loop_ok; try done; lia. Qed.

(** A closed session takes no frame. *)
Lemma closed_takes_nothing f d s : closed s = true -> small f ->
  writeFrameWithDeadline f d s = (s, Fail ErrClosed).
Proof.
  intros Hc Hf. unfold writeFrameWithDeadline, encodedFrameSize. rewrite decide_False by (unfold small in Hf; lia).
  st_pure. erewrite st_bind_Fail; [done|]. unfold checkOpen. st_pure. by rewrite Hc.
Qed.
End write.
