(* ===== verification/AnyTlsSession.v ===== *)
(** AnyTLS sessions and streams (protocol/anytls/session.go and stream.go): the
    read loop that distributes frames to streams, the streams' read and close
    paths, opening and closing, and datagrams over a stream.

    An operation is one atomic step, taken at the moment it can finish: the
    locks of the source serialise operations on the same object, and an
    operation that would block (an empty or a full stream queue) reports so and
    is not a step.  A datagram read that has consumed part of its datagram
    keeps it in [ps_pending], the local buffers of the blocked call.  A closed
    channel is a flag, and closing it twice panics. *)

From S2P Require Import Prelude GoStrings NetIP GoState Common Pool Socks Transport AnyTlsPadding AnyTlsFrame.

Definition ErrClosedPipe : error := Errorf "io: read/write on closed pipe".
Definition inbound_cap : nat := 16.

(** * Field updates *)

Definition set_objs (o : list stream_) (s : session) : session :=
  MkSession (conn s) (streams s) o (padding s) (sendPadding s) (pktCounter s) (burst s) (sid_ s) (state s)
    (activeStreams s) (idleAt s) (closed s) (done_ s) (closeStreamChan s) (heartResponseCh s) (writeBuf s)
    (flusher s) (bufs s) (released s).
Definition set_pool (b : nat) (r : list nat) (s : session) : session :=
  MkSession (conn s) (streams s) (objs s) (padding s) (sendPadding s) (pktCounter s) (burst s) (sid_ s) (state s)
    (activeStreams s) (idleAt s) (closed s) (done_ s) (closeStreamChan s) (heartResponseCh s) (writeBuf s)
    (flusher s) b r.
Definition set_table (m : gmap Z nat) (active : Z) (s : session) : session :=
  MkSession (conn s) m (objs s) (padding s) (sendPadding s) (pktCounter s) (burst s) (sid_ s) (state s)
    active (idleAt s) (closed s) (done_ s) (closeStreamChan s) (heartResponseCh s) (writeBuf s)
    (flusher s) (bufs s) (released s).
Definition set_state (st : sessionState) (idle : Z) (s : session) : session :=
  MkSession (conn s) (streams s) (objs s) (padding s) (sendPadding s) (pktCounter s) (burst s) (sid_ s) st
    (activeStreams s) idle (closed s) (done_ s) (closeStreamChan s) (heartResponseCh s) (writeBuf s)
    (flusher s) (bufs s) (released s).
Definition set_sid (i : Z) (s : session) : session :=
  MkSession (conn s) (streams s) (objs s) (padding s) (sendPadding s) (pktCounter s) (burst s) i (state s)
    (activeStreams s) (idleAt s) (closed s) (done_ s) (closeStreamChan s) (heartResponseCh s) (writeBuf s)
    (flusher s) (bufs s) (released s).
Definition set_closing (cl dn : bool) (s : session) : session :=
  MkSession (conn s) (streams s) (objs s) (padding s) (sendPadding s) (pktCounter s) (burst s) (sid_ s) (state s)
    (activeStreams s) (idleAt s) cl dn (closeStreamChan s) (heartResponseCh s) (writeBuf s)
    (flusher s) (bufs s) (released s).
Definition set_chans (cs : list Z) (hr : bool) (s : session) : session :=
  MkSession (conn s) (streams s) (objs s) (padding s) (sendPadding s) (pktCounter s) (burst s) (sid_ s) (state s)
    (activeStreams s) (idleAt s) (closed s) (done_ s) cs hr (writeBuf s)
    (flusher s) (bufs s) (released s).
Definition set_padding (p : paddingFactory) (s : session) : session :=
  MkSession (conn s) (streams s) (objs s) p (sendPadding s) (pktCounter s) (burst s) (sid_ s) (state s)
    (activeStreams s) (idleAt s) (closed s) (done_ s) (closeStreamChan s) (heartResponseCh s) (writeBuf s)
    (flusher s) (bufs s) (released s).

Definition o_inbound (q : list chunk) (o : stream_) : stream_ :=
  MkStream (id_ o) q (readBuf o) (readBufPB o) (st_closed o) (writeClosed o) (closeCh o) (closeErr o)
    (readDeadline o) (writeDeadline o) (deadlineChanged o).
Definition o_read (b : list byte) (pb : option nat) (o : stream_) : stream_ :=
  MkStream (id_ o) (inbound o) b pb (st_closed o) (writeClosed o) (closeCh o) (closeErr o)
    (readDeadline o) (writeDeadline o) (deadlineChanged o).
Definition o_closed (e : error) (o : stream_) : stream_ :=
  MkStream (id_ o) (inbound o) (readBuf o) (readBufPB o) true (writeClosed o) true (Some e)
    (readDeadline o) (writeDeadline o) (deadlineChanged o).
Definition o_writeClosed (o : stream_) : stream_ :=
  MkStream (id_ o) (inbound o) (readBuf o) (readBufPB o) (st_closed o) true (closeCh o) (closeErr o)
    (readDeadline o) (writeDeadline o) (deadlineChanged o).
Definition o_deadlines (r w : Z) (ch : bool) (o : stream_) : stream_ :=
  MkStream (id_ o) (inbound o) (readBuf o) (readBufPB o) (st_closed o) (writeClosed o) (closeCh o) (closeErr o)
    r w ch.

(** * Access *)

Definition panic {S A} : st S A := fun s => (s, Panic).
(** Dereference of a stream pointer. *)
Definition deref (r : nat) : st session stream_ := fun s =>
  match objs s !! r with Some o => (s, Ret o) | None => (s, Panic) end.
Definition update (r : nat) (f : stream_ -> stream_) : st session unit :=
  modify (fun s => set_objs (alter f r (objs s)) s).
Definition pool_Get : st session nat := fun s => (set_pool (S (bufs s)) (released s) s, Ret (bufs s)).
Definition pool_Put (i : nat) : st session unit := modify (fun s => set_pool (bufs s) (released s ++ [i]) s).
Fixpoint pool_PutAll (ids : list nat) : st session unit :=
  match ids with [] => mret tt | i :: ids => _ ← pool_Put i; pool_PutAll ids end.

Definition newStream_ (id : Z) : stream_ := MkStream id [] [] None false false false None 0 0 false.

Section session.
Context {BS : BufferSource}.
Context (environment : nat -> wenv).
Context (md5_hex : list byte -> list byte) (range : gmap (list byte) (list byte) -> list (list byte * list byte)).
Context (SplitHostPort : list byte -> res (list byte * list byte)) (ParseIP : list byte -> list byte).

Definition newSessionWithPadding (c : tconn) (p : paddingFactory) (f : option (list (option error))) : session :=
  MkSession c ∅ [] p true 0 0 0 sessionStateActive 0 0 false false [] false [] f 0 [].

(** * Streams *)

(** [None]: the queue is full and nothing is closed, the call blocks. *)
Definition enqueue (r : nat) (c : chunk) : st session (option (option error)) :=
  o ← deref r;
  s ← get;
  if st_closed o then _ ← pool_Put (c_id c); mret (Some (Some ErrClosedPipe))
  else if done_ s then _ ← pool_Put (c_id c); mret (Some (Some ErrClosed))
  else if decide (length (inbound o) < inbound_cap)%nat then
    _ ← update r (o_inbound (inbound o ++ [c]));
    mret (Some None)
  else if closeCh o then _ ← pool_Put (c_id c); mret (Some (Some ErrClosedPipe))
  else mret None.

Definition markClosed (r : nat) (err : error) : st session bool :=
  o ← deref r;
  if st_closed o then mret false
  else if closeCh o then panic
  else _ ← update r (o_closed err); mret true.

Definition removeStream (sid : Z) : st session unit :=
  s ← get;
  match streams s !! sid with
  | None => mret tt
  | Some _ =>
      let m := delete sid (streams s) in
      _ ← modify (set_table m (Z.max 0 (activeStreams s - 1)));
      if decide (m <> ∅ \/ closed s = true) then mret tt
      else
        env ← env_next environment;
        _ ← modify (set_state sessionStateIdle (now env));
        s ← get;
        if done_ s then mret tt
        else if decide (length (closeStreamChan s) < 2)%nat then
          modify (set_chans (closeStreamChan s ++ [sid]) (heartResponseCh s))
        else mret tt
  end.

Definition addStream (r : nat) (id : Z) : st session unit :=
  s ← get;
  if closed s then fail ErrClosed
  else
    _ ← modify (set_table (<[id := r]> (streams s)) (activeStreams s + 1));
    modify (set_state sessionStateActive 0).

Definition stream_remoteClose (r : nat) : st session unit :=
  _ ← markClosed r EOF;
  o ← deref r;
  removeStream (id_ o).

Definition closeLocal (r : nat) (sendFIN : bool) (err : error) : st session unit :=
  firstClose ← markClosed r err;
  o ← deref r;
  _ ← (match readBufPB o with
       | Some i => _ ← pool_Put i; update r (o_read [] None)
       | None => mret tt
       end);
  _ ← pool_PutAll (c_id <$> inbound o);
  _ ← update r (o_inbound []);
  _ ← (if sendFIN && firstClose then
         if writeClosed o then mret tt
         else
           _ ← update r o_writeClosed;
           s ← get;
           if closed s then mret tt
           else _ ← try (writeFrame environment (newFrame cmdFIN (id_ o))); mret tt
       else mret tt);
  removeStream (id_ o).

Definition stream_Close (r : nat) : st session unit := closeLocal r true ErrClosed.

Definition stream_CloseWrite (r : nat) : st session unit :=
  o ← deref r;
  if st_closed o then fail ErrClosed
  else if writeClosed o then mret tt
  else
    _ ← update r o_writeClosed;
    s ← get;
    if closed s then fail ErrClosed
    else _ ← writeFrame environment (newFrame cmdFIN (id_ o)); mret tt.

Definition stream_Write (r : nat) (b : list byte) : st session (nat * option error) :=
  o ← deref r;
  if st_closed o || writeClosed o then mret (0%nat, Some ErrClosed)
  else if decide (length b = 0%nat) then mret (0%nat, None)
  else writeDataFrames environment (id_ o) b (writeDeadline o).

Definition SetReadDeadline (r : nat) (t : Z) : st session unit :=
  update r (fun o => o_deadlines t (writeDeadline o) true o).
Definition SetWriteDeadline (r : nat) (t : Z) : st session unit :=
  update r (fun o => o_deadlines (readDeadline o) t (deadlineChanged o) o).

(** ** Reading *)

(** Bytes, an error, or the call blocks. *)
Inductive rd := Got (b : list byte) | RErr (e : error) | Wait.

Definition closedError (o : stream_) : error :=
  match closeErr o with Some e => e | None => ErrClosed end.

(** The loop that finds a non-empty chunk; each round takes one from the queue. *)
Fixpoint fill_readBuf (fuel : nat) (r : nat) : st session (option rd) :=
  o ← deref r;
  if decide (length (readBuf o) = 0%nat) then
    _ ← (match readBufPB o with
         | Some i => _ ← pool_Put i; update r (o_read (readBuf o) None)
         | None => mret tt
         end);
    match inbound o with
    | c :: q =>
        _ ← update r (o_inbound q);
        match fuel with
        | O => panic
        | S fuel =>
            if decide (length (c_bytes c) = 0%nat) then _ ← pool_Put (c_id c); fill_readBuf fuel r
            else _ ← update r (o_read (c_bytes c) (Some (c_id c))); fill_readBuf fuel r
        end
    | [] =>
        if st_closed o then mret (Some (RErr (closedError o)))
        else
          env ← env_next environment;
          if decide (readDeadline o <> 0 /\ readDeadline o <= now env)
          then mret (Some (RErr ErrDeadlineExceeded)) else mret (Some Wait)
    end
  else mret None.

(** [b] has length [k]. *)
Definition readLocked (r : nat) (k : nat) : st session rd :=
  o ← deref r;
  x ← fill_readBuf (S (length (inbound o))) r;
  match x with
  | Some out => mret out
  | None =>
      o ← deref r;
      let got := take k (readBuf o) in
      let rest := drop k (readBuf o) in
      _ ← update r (o_read rest (readBufPB o));
      _ ← (match readBufPB o with
           | Some i => if decide (length rest = 0%nat) then _ ← pool_Put i; update r (o_read rest None) else mret tt
           | None => mret tt
           end);
      mret (Got got)
  end.

Definition stream_Read (r : nat) (k : nat) : st session rd :=
  if decide (k = 0%nat) then mret (Got []) else readLocked r k.

(** * Sessions *)

Definition newStream (addr : list byte) : st session nat :=
  s ← get;
  if closed s then fail ErrClosed
  else
    tgtAddr ← lift (ParseAddr SplitHostPort ParseIP addr);
    let sid := (sid_ s + 1) mod 2 ^ 32 in
    _ ← modify (set_sid sid);
    let r := length (objs s) in
    _ ← modify (set_objs (objs s ++ [newStream_ sid]));
    _ ← addStream r sid;
    let settings := MkFrame cmdSettings 0 (settingsBytes (padding s)) in
    let syn := newFrame cmdSYN sid in
    let initialData := MkFrame cmdPSH sid tgtAddr in
    x ← try (if decide (sid = 1) then writeFrames environment [settings; syn; initialData]
             else _ ← writeFrame environment syn; writeFrame environment initialData);
    match x with
    | inr e => _ ← closeLocal r false ErrClosed; fail e
    | inl _ => mret r
    end.

Fixpoint markAll (rs : list nat) : st session unit :=
  match rs with [] => mret tt | r :: rs => _ ← markClosed r ErrClosed; markAll rs end.

Definition set_tclosed (s : session) : session := set_conn (MkTconn (t_out (conn s)) (t_plan (conn s)) true) s.

Definition session_Close : st session unit :=
  s ← get;
  if closed s then mret tt
  else
    _ ← modify (set_closing true (done_ s));
    _ ← modify (fun s => set_state sessionStateClosing (idleAt s) s);
    _ ← (if done_ s then panic else modify (set_closing true true));
    let rs := (map_to_list (streams s)).*2 in
    _ ← modify (set_table ∅ 0);
    _ ← markAll rs;
    _ ← Flush;
    _ ← modify set_tclosed;
    _ ← modify (set_writeBuf []);
    modify (fun s => set_state sessionStateClosed (idleAt s) s).

Definition isReusableIdle (s : session) : bool :=
  negb (closed s) && bool_decide (state s = sessionStateIdle) && bool_decide (activeStreams s = 0).
Definition idleTimedOut (s : session) (now timeout : Z) : bool :=
  if decide (timeout <= 0) then false
  else bool_decide (0 < idleAt s /\ idleAt s + timeout <= now).
Definition needsIdleProbe (s : session) (now threshold : Z) : bool :=
  if decide (threshold <= 0) then false
  else bool_decide (0 < idleAt s /\ idleAt s + threshold <= now).

(** ** The read loop *)

(** The session and what the peer has still to send. *)
Record sys := MkSys { ses : session; inp : stream }.
Definition on_ses {A} (m : st session A) : st sys A := fun y =>
  let '(s, r) := m (ses y) in (MkSys s (inp y), r).
Definition on_inp {A} (m : st stream A) : st sys A := fun y =>
  let '(i, r) := m (inp y) in (MkSys (ses y) i, r).

(** One round of the loop goes round again, returns from [run], or blocks. *)
Inductive next := Loop | Return (e : error) | Block.
#[local] Instance next_eq_dec : EqDecision next.
Proof. solve_decision. Defined.

(** [io.CopyN(io.Discard, conn, n)] *)
Definition discard (n : nat) : st stream unit := fun r =>
  if decide (n <= length r)%nat then (drop n r, Ret tt) else ([], Fail EOF).

(** Read a frame's payload into a pool buffer. *)
Definition read_payload (n : nat) : st sys (nat * (list byte + error)) :=
  i ← on_ses pool_Get;
  x ← try (on_inp (readFull n));
  match x with
  | inl b => mret (i, inl b)
  | inr e => _ ← on_ses (pool_Put i); mret (i, inr e)
  end.

Definition ret_err {A} (e : error) : st A next := mret (Return e).

Definition handle_PSH (sid : Z) (n : nat) : st sys next :=
  if decide (n = 0%nat) then mret Loop
  else
    '(i, p) ← read_payload n;
    match p with
    | inr e => ret_err e
    | inl b =>
        y ← get;
        match streams (ses y) !! sid with
        | None => _ ← on_ses (pool_Put i); mret Loop
        | Some r =>
            x ← on_ses (enqueue r (MkChunk i b));
            match x with
            | None => mret Block
            | Some None => mret Loop
            | Some (Some e) => if decide (e = ErrClosedPipe) then mret Loop else ret_err e
            end
        end
    end.

Definition handle_FIN (sid : Z) : st sys next :=
  y ← get;
  match streams (ses y) !! sid with
  | None => mret Loop
  | Some r => _ ← on_ses (stream_remoteClose r); mret Loop
  end.

(** Payloads that are read, used and put back. *)
Definition handle_payload (n : nat) (f : list byte -> st session unit) : st sys next :=
  '(i, p) ← read_payload n;
  match p with
  | inr e => ret_err e
  | inl b => _ ← on_ses (f b); _ ← on_ses (pool_Put i); mret Loop
  end.

Definition handle_UpdatePaddingScheme (buf : list byte) : st session unit :=
  match NewPaddingFactory md5_hex range buf with
  | Some p => modify (set_padding p)
  | None => mret tt
  end.

Definition handle_SYNACK (sid : Z) (_ : list byte) : st session unit :=
  s ← get;
  match streams s !! sid with
  | Some r => _ ← try (stream_Close r); mret tt
  | None => mret tt
  end.

(** The switch on the command of a frame, its payload still to be read. *)
Definition dispatch (cmd : byte) (sid length : Z) : st sys next :=
  let n := Z.to_nat length in
  if decide (length <> 0 /\ (cmd = cmdFIN \/ cmd = cmdHeartRequest \/ cmd = cmdHeartResponse)) then
    ret_err (Errorf "invalid payload length %d for cmd %d")
  else if decide (cmd = cmdWaste) then
    x ← try (on_inp (discard n));
    match x with inr e => ret_err e | inl _ => mret Loop end
  else if decide (cmd = cmdPSH) then handle_PSH sid n
  else if decide (cmd = cmdAlert) then handle_payload n (fun _ => mret tt)
  else if decide (cmd = cmdFIN) then handle_FIN sid
  else if decide (cmd = cmdUpdatePaddingScheme) then
    if decide (0 < n)%nat then handle_payload n handle_UpdatePaddingScheme else mret Loop
  else if decide (cmd = cmdSYNACK) then
    if decide (0 < n)%nat then handle_payload n (handle_SYNACK sid) else mret Loop
  else if decide (cmd = cmdServerSettings) then
    if decide (0 < n)%nat then handle_payload n (fun _ => mret tt) else mret Loop
  else if decide (cmd = cmdHeartRequest) then
    x ← try (on_ses (writeFrame environment (newFrame cmdHeartResponse sid)));
    match x with inr e => ret_err e | inl _ => mret Loop end
  else if decide (cmd = cmdHeartResponse) then
    _ ← on_ses (modify (fun s => set_chans (closeStreamChan s) true s));
    mret Loop
  else ret_err (Errorf "invalid cmd: %d").

Definition run_step : st sys next :=
  y ← get;
  if closed (ses y) then ret_err ErrClosed
  else
    x ← try (on_inp (readFull headerOverHeadSize));
    match x with
    | inr e => ret_err e
    | inl header =>
        sid ← lift (StreamID header);
        length ← lift (Length header);
        cmd ← lift (Cmd header);
        dispatch cmd sid length
    end.

(** A round that returns runs the deferred [Close]. *)
Definition run_round : st sys next :=
  x ← run_step;
  match x with
  | Return e => _ ← on_ses session_Close; mret (Return e)
  | _ => mret x
  end.

(** The two halves of the health probe: forget stale responses and ask; then
    wait for a response, the end of the session or the timer. *)
Definition probe_request : st session bool :=
  s ← get;
  if closed s then mret false
  else
    _ ← modify (set_chans (closeStreamChan s) false);
    x ← try (writeFrame environment (newFrame cmdHeartRequest 0));
    match x with inr _ => mret false | inl _ => mret true end.
(** [timer]: the timer has fired.  [None]: still waiting.  When several are
    ready Go picks any; here the response is preferred. *)
Definition probe_wait (timer : bool) : st session (option bool) :=
  s ← get;
  if heartResponseCh s then _ ← modify (set_chans (closeStreamChan s) false); mret (Some true)
  else if done_ s || timer then mret (Some false) else mret None.

(** ** Datagrams over a stream *)

Definition maxUDPPayloadSize : Z := 65535.

Record packetStream := MkPS {
  ps_stream : nat; ps_addr : list byte; ps_addrPort : AddrPort; udpWriteAddr : bool; ps_pending : list byte }.
Definition ps_set_pending (b : list byte) (p : packetStream) : packetStream :=
  MkPS (ps_stream p) (ps_addr p) (ps_addrPort p) (udpWriteAddr p) b.
Definition ps_announced (p : packetStream) : packetStream :=
  MkPS (ps_stream p) (ps_addr p) (ps_addrPort p) true (ps_pending p).

(** [readFullLocked]: continue a read that has [acc] of the [n] bytes it wants. *)
Fixpoint readFullLocked (fuel : nat) (r : nat) (n : nat) (acc : list byte) : st session (list byte * option error * bool) :=
  if decide (length acc < n)%nat then
    match fuel with
    | O => panic
    | S fuel =>
        x ← readLocked r (n - length acc);
        match x with
        | RErr e => mret (acc, Some e, true)
        | Wait => mret (acc, None, false)
        | Got b => readFullLocked fuel r n (acc ++ b)
        end
    end
  else mret (acc, None, true).

(** The outcome of a datagram read: payload or error, with the address; or
    still waiting. *)
Inductive dgram := Datagram (b : list byte) (a : AddrPort) | DErr (e : error) (a : AddrPort) | DWait.

(** [p] has length [plen].  The length and the payload (drained when it does not
    fit) are consumed through [ps_pending]. *)
Definition packet_ReadFrom (ps : packetStream) (plen : nat) : st session (packetStream * dgram) :=
  let r := ps_stream ps in
  '(hdr, e, fin) ← (if decide (length (ps_pending ps) < 2)%nat
                    then readFullLocked 2 r 2 (ps_pending ps) else mret (ps_pending ps, None, true));
  match e with
  | Some e => mret (ps_set_pending [] ps, DErr e AddrPortZero)
  | None =>
      if negb fin then mret (ps_set_pending hdr ps, DWait)
      else
        let len := Z.to_nat (be_get (take 2 hdr)) in
        '(all, e, fin) ← readFullLocked len r (2 + len) hdr;
        match e with
        | Some e => mret (ps_set_pending [] ps, DErr e (ps_addrPort ps))
        | None =>
            if negb fin then mret (ps_set_pending all ps, DWait)
            else if decide (plen < len)%nat then
              mret (ps_set_pending [] ps, DErr (DatagramDropped ErrShortBuffer) (ps_addrPort ps))
            else mret (ps_set_pending [] ps, Datagram (drop 2 all) (ps_addrPort ps))
        end
  end.

(** A datagram as stream bytes, built in a pool buffer: the first one of a
    stream carries the target. *)
Definition packet_data (tgtAddr : option (list byte)) (p : list byte) : res (list byte) :=
  match tgtAddr with
  | Some t =>
      let data := src_get (1 + length t + 2 + length p) in
      data ← set_at data 0 x01;
      '(data, _) ← copy_at data 1 t;
      data ← write_at data (1 + length t) (be16 (Z.of_nat (length p)));
      '(data, _) ← copy_at data (1 + length t + 2) p;
      Ret data
  | None =>
      let data := src_get (2 + length p) in
      data ← write_at data 0 (be16 (Z.of_nat (length p)));
      '(data, _) ← copy_at data 2 p;
      Ret data
  end.

Definition packet_WriteTo (ps : packetStream) (p addr : list byte) : st session (packetStream * (nat * option error)) :=
  o ← deref (ps_stream ps);
  if st_closed o then mret (ps, (0%nat, Some ErrClosed))
  else if decide (maxUDPPayloadSize < Z.of_nat (length p)) then
    mret (ps, (0%nat, Some (Errorf "anytls udp payload too large: %d > %d")))
  else
    t ← try (if udpWriteAddr ps then mret None else lift (Some <$> ParseAddr SplitHostPort ParseIP addr));
    match t with
    | inr e => mret (ps, (0%nat, Some e))
    | inl t =>
        data ← lift (packet_data t p);
        '(_, err) ← writeDataFrames environment (id_ o) data (writeDeadline o);
        match err with
        | Some e => mret (ps_announced ps, (0%nat, Some e))
        | None => mret (ps_announced ps, (length p, None))
        end
    end.

Fixpoint batch_data (t : option (list byte)) (items : list (list byte * list byte)) : res (list (list byte)) :=
  match items with
  | [] => Ret []
  | (p, _) :: items => d ← packet_data t p; ds ← batch_data None items; Ret (d :: ds)
  end.

Definition packet_WriteBatch (ps : packetStream) (items : list (list byte * list byte))
    : st session (packetStream * (nat * option error)) :=
  match items with
  | [] => mret (ps, (0%nat, None))
  | (_, addr0) :: _ =>
      if decide (Exists (fun it => maxUDPPayloadSize < Z.of_nat (length it.1)) items) then
        mret (ps, (0%nat, Some (Errorf "anytls udp payload too large: %d > %d")))
      else
        o ← deref (ps_stream ps);
        if st_closed o then mret (ps, (0%nat, Some ErrClosed))
        else
          t ← try (if udpWriteAddr ps then mret None
                   else lift (Some <$> ParseAddr SplitHostPort ParseIP
                                (if decide (addr0 = []) then ps_addr ps else addr0)));
          match t with
          | inr e => mret (ps, (0%nat, Some e))
          | inl t =>
              datas ← lift (batch_data t items);
              x ← try (writeDataFramesBatch environment (id_ o) datas (writeDeadline o));
              match x with
              | inr e => mret (ps_announced ps, (0%nat, Some e))
              | inl _ => mret (ps_announced ps, (length items, None))
              end
          end
  end.

Definition newPacketStream (ParseAddrPort : list byte -> AddrPort) (addr packetAddr : list byte) : st session packetStream :=
  r ← newStream addr;
  mret (MkPS r packetAddr (ParseAddrPort packetAddr) false []).
End session.
