(* ===== verification/AnyTlsInv.v ===== *)
(** The state invariant of AnyTLS sessions: the stream table, the stream
    objects and the pool buffers they hold stay consistent under every
    operation, and no operation panics. *)

From S2P Require Import Prelude GoStrings NetIP GoState Common Pool Socks Transport AnyTlsPadding AnyTlsFrame AnyTlsSession.

(** * The invariant *)

(** Buffers a stream owns. *)
Definition held (o : stream_) : list nat := option_list (readBufPB o) ++ (c_id <$> inbound o).
Definition held_all (os : list stream_) : list nat := os ≫= held.

Record obj_wf (o : stream_) : Prop := {
  ow_ch : closeCh o = st_closed o;
  ow_buf : readBufPB o = None <-> readBuf o = [];
  ow_chunks : Forall (fun c => c_bytes c <> []) (inbound o);
  ow_cap : (length (inbound o) <= inbound_cap)%nat }.

(** [x.1]: a stream that is being closed and still in the table; [x.2]: buffers
    in the hands of the read loop. *)
Record swf (x : option nat * list nat) (s : session) : Prop := {
  w_pad : factory_wf (padding s);
  w_ids : forall r o, objs s !! r = Some o -> id_ o = Z.of_nat r + 1;
  w_sid : sid_ s = Z.of_nat (length (objs s));
  w_few : Z.of_nat (length (objs s)) < 2 ^ 32;
  w_table : forall r o, objs s !! r = Some o -> streams s !! id_ o = Some r <-> st_closed o = false \/ x.1 = Some r;
  w_refs : forall i r, streams s !! i = Some r -> exists o, objs s !! r = Some o /\ id_ o = i;
  w_objs : Forall obj_wf (objs s);
  w_active : activeStreams s = Z.of_nat (size (streams s));
  w_closed : closed s = true -> streams s = ∅ /\ state s = sessionStateClosed;
  w_done : done_ s = closed s;
  w_conn : t_closed (conn s) = closed s;
  w_state : closed s = false -> state s = sessionStateActive \/ (state s = sessionStateIdle /\ streams s = ∅);
  w_chan : (length (closeStreamChan s) <= 2)%nat;
  w_bufs : seq 0 (bufs s) ≡ₚ released s ++ held_all (objs s) ++ x.2 }.

(** The invariant does not look at the writing side. *)
Lemma swf_core x s s' : core s' = core s -> swf x s -> swf x s'.
Proof.
  intros C H.
  pose proof (f_equal padding C) as E1. pose proof (f_equal objs C) as E2. pose proof (f_equal sid_ C) as E3.
  pose proof (f_equal streams C) as E4. pose proof (f_equal activeStreams C) as E5. pose proof (f_equal closed C) as E6.
  pose proof (f_equal done_ C) as E7. pose proof (f_equal (fun s => t_closed (conn s)) C) as E8.
  pose proof (f_equal state C) as E9. pose proof (f_equal closeStreamChan C) as E10.
  pose proof (f_equal bufs C) as E11. pose proof (f_equal released C) as E12.
  cbn [core padding objs sid_ streams activeStreams closed done_ t_closed conn state closeStreamChan bufs released] in *.
  destruct H. constructor; rewrite ?E1, ?E2, ?E3, ?E4, ?E5, ?E6, ?E7, ?E8, ?E9, ?E10, ?E11, ?E12; assumption.
Qed.

Lemma held_all_split os r o : os !! r = Some o -> exists X, held_all os ≡ₚ held o ++ X /\
  forall o', held_all (<[r := o']> os) ≡ₚ held o' ++ X.
Proof.
  intros E. exists (held_all (take r os) ++ held_all (drop (S r) os)). unfold held_all.
  assert (Hr : (r < length os)%nat) by by eapply lookup_lt_Some.
  split.
  - rewrite <- (take_drop_middle os r o E) at 1. rewrite bind_app, bind_cons.
    rewrite !(Permutation_app_comm _ (held o ++ _)), <- !app_assoc. apply Permutation_app_head, Permutation_app_comm.
  - intros o'. rewrite insert_take_drop by done. rewrite bind_app, bind_cons.
    rewrite !(Permutation_app_comm _ (held o' ++ _)), <- !app_assoc. apply Permutation_app_head, Permutation_app_comm.
Qed.

Lemma alter_insert_list {A} (f : A -> A) r (l : list A) o : l !! r = Some o -> alter f r l = <[r := f o]> l.
Proof.
  intros E. apply list_eq. intros i. destruct (decide (i = r)) as [->|Hn].
  - rewrite list_lookup_alter_eq, list_lookup_insert_eq, E by by eapply lookup_lt_Some. done.
  - by rewrite list_lookup_alter_ne, list_lookup_insert_ne.
Qed.

(** Replacing an object by one with the same identity and open or closed
    status, and moving buffers between it and the pool. *)
Lemma swf_obj_gen x s r o o' b' rel : swf x s -> objs s !! r = Some o -> obj_wf o' -> id_ o' = id_ o -> st_closed o' = st_closed o ->
  (forall X, seq 0 (bufs s) ≡ₚ released s ++ held o ++ X -> seq 0 b' ≡ₚ rel ++ held o' ++ X) ->
  swf x (set_pool b' rel (set_objs (<[r := o']> (objs s)) s)).
Proof.
  intros H E W Hi Hc P. assert (Hr : (r < length (objs s))%nat) by by eapply lookup_lt_Some.
  destruct H. constructor; cbn; try done; rewrite ?length_insert; try done.
  - intros r' o1. destruct (decide (r' = r)) as [->|Hn].
    + rewrite list_lookup_insert_eq by done. intros [= <-]. rewrite Hi. eauto.
    + rewrite list_lookup_insert_ne by done. eauto.
  - intros r' o1. destruct (decide (r' = r)) as [->|Hn].
    + rewrite list_lookup_insert_eq by done. intros [= <-]. rewrite Hi, Hc. eauto.
    + rewrite list_lookup_insert_ne by done. eauto.
  - intros i r' Hs. destruct (w_refs0 i r' Hs) as (o1 & Ho & Hi1). destruct (decide (r' = r)) as [->|Hn].
    + exists o'. rewrite list_lookup_insert_eq by done. split; [done|]. congruence.
    + exists o1. by rewrite list_lookup_insert_ne.
  - by apply Forall_insert.
  - destruct (held_all_split _ _ _ E) as (X & E1 & HX). rewrite HX, <- app_assoc. apply P. by rewrite w_bufs0, E1, <- app_assoc.
Qed.

Lemma swf_obj x s r o o' rel : swf x s -> objs s !! r = Some o -> obj_wf o' -> id_ o' = id_ o -> st_closed o' = st_closed o ->
  rel ++ held o' ≡ₚ released s ++ held o ->
  swf x (set_pool (bufs s) rel (set_objs (<[r := o']> (objs s)) s)).
Proof.
  intros H E W Hi Hc P. eapply swf_obj_gen; try done. intros X ->. by rewrite !app_assoc, P.
Qed.

(** Taking a buffer and putting it back. *)
Lemma swf_get s fl : swf (None, fl) s -> swf (None, bufs s :: fl) (set_pool (S (bufs s)) (released s) s).
Proof.
  intros []. constructor; try done. cbn [bufs released objs set_pool snd]. rewrite seq_S, w_bufs0. cbn [snd Nat.add].
  rewrite <- !app_assoc. do 2 apply Permutation_app_head. by rewrite Permutation_app_comm.
Qed.
Lemma swf_put s i fl : swf (None, i :: fl) s -> swf (None, fl) (set_pool (bufs s) (released s ++ [i]) s).
Proof.
  intros []. constructor; try done. cbn [bufs released objs set_pool snd] in *. rewrite w_bufs0. cbn [snd].
  rewrite <- !app_assoc. apply Permutation_app_head. cbn. by rewrite Permutation_middle.
Qed.

(** The same without touching the pool. *)
Lemma swf_obj' x s r o o' : swf x s -> objs s !! r = Some o -> obj_wf o' -> id_ o' = id_ o -> st_closed o' = st_closed o ->
  held o' ≡ₚ held o -> swf x (set_objs (<[r := o']> (objs s)) s).
Proof.
  intros H E W Hi Hc P. pose proof (swf_obj x s r o o' (released s) H E W Hi Hc) as G.
  destruct s. apply G. by rewrite P.
Qed.

Lemma obj_at x s r o : swf x s -> objs s !! r = Some o -> obj_wf o.
Proof. intros H E. eapply Forall_lookup_1; [apply H|done]. Qed.

(** The table refers to the stream of that number. *)
Lemma table_ref x s i r : swf x s -> streams s !! i = Some r -> i = Z.of_nat r + 1.
Proof. intros H E. destruct (w_refs x s H i r E) as (o & Ho & <-). by eapply w_ids. Qed.

Lemma not_in_table x s r o : swf x s -> objs s !! r = Some o -> st_closed o = true -> x.1 <> Some r -> streams s !! id_ o = None.
Proof.
  intros H E Hc Hx. destruct (streams s !! id_ o) as [r'|] eqn:Es; [|done].
  pose proof (table_ref _ _ _ _ H Es) as Hr. rewrite (w_ids x s H r o E) in Hr. assert (r' = r) as -> by lia.
  apply (w_table x s H r o E) in Es. naive_solver congruence.
Qed.

(** * Elementary operations *)

Lemma deref_ok r o s : objs s !! r = Some o -> deref r s = (s, Ret o).
Proof. intros E. unfold deref. by rewrite E. Qed.

Lemma update_ok r f o s : objs s !! r = Some o -> update r f s = (set_objs (<[r := f o]> (objs s)) s, Ret tt).
Proof. intros E. unfold update, modify. by rewrite (alter_insert_list f r _ o E). Qed.

Lemma pool_PutAll_ok ids : forall s, pool_PutAll ids s = (set_pool (bufs s) (released s ++ ids) s, Ret tt).
Proof.
  induction ids as [|i ids IH]; intros s; cbn [pool_PutAll].
  - rewrite app_nil_r. by destruct s.
  - unfold pool_Put at 1. st_pure. rewrite IH. cbn. by rewrite <- app_assoc.
Qed.

Lemma objs_insert s r o : (r < length (objs s))%nat -> objs (set_objs (<[r := o]> (objs s)) s) !! r = Some o.
Proof. intros. cbn. by apply list_lookup_insert_eq. Qed.

Section ops.
Context {BS : BufferSource} (environment : nat -> wenv).
Context (md5_hex : list byte -> list byte) (range : gmap (list byte) (list byte) -> list (list byte * list byte)).
Context (SplitHostPort : list byte -> res (list byte * list byte)) (ParseIP : list byte -> list byte).
Context (fl : list nat).

(** Control frames carry no data. *)
Lemma small_newFrame c i : small (newFrame c i).
Proof. unfold small. cbn. lia. Qed.

Lemma writeFrame_core f s : small f -> factory_wf (padding s) -> exists s' r,
  writeFrame environment f s = (s', r) /\ core s' = core s /\ r <> Panic.
Proof.
  intros Hf F. destruct (closed s) eqn:Hc.
  - exists s, (Fail ErrClosed). by rewrite <- closed_takes_nothing with (environment := environment) (f := f) (d := 0).
  - destruct (writeFrameWithDeadline_spec environment f 0 s Hf F Hc) as (s' & r & E & Hr & S & _).
    exists s', r. split; [exact E|]. split; [apply S|]. by destruct Hr as [->|[e ->]].
Qed.

Lemma try_writeFrame f s : small f -> factory_wf (padding s) -> exists s' x,
  try (writeFrame environment f) s = (s', Ret x) /\ core s' = core s.
Proof.
  intros Hf F. destruct (writeFrame_core f s Hf F) as (s' & r & E & C & N). unfold try. rewrite E.
  destruct r as [n|e|]; [by eexists _, _..|done].
Qed.

Lemma core_objs s s' : core s' = core s -> objs s' = objs s.
Proof. intros C. apply (f_equal objs) in C. exact C. Qed.
Lemma core_streams s s' : core s' = core s -> streams s' = streams s.
Proof. intros C. apply (f_equal streams) in C. exact C. Qed.
Lemma core_closed s s' : core s' = core s -> closed s' = closed s.
Proof. intros C. apply (f_equal closed) in C. exact C. Qed.

(** ** Closing *)

Lemma markClosed_closed r o e s : objs s !! r = Some o -> st_closed o = true -> markClosed r e s = (s, Ret false).
Proof. intros E Hc. unfold markClosed. rewrite (st_bind_Ret _ _ _ _ _ (deref_ok _ _ _ E)). by rewrite Hc. Qed.

Lemma markClosed_open r o e s : objs s !! r = Some o -> st_closed o = false -> closeCh o = false ->
  markClosed r e s = (set_objs (<[r := o_closed e o]> (objs s)) s, Ret true).
Proof.
  intros E Hc Hh. unfold markClosed. rewrite (st_bind_Ret _ _ _ _ _ (deref_ok _ _ _ E)). rewrite Hc, Hh.
  by rewrite (st_bind_Ret _ _ _ _ _ (update_ok _ _ _ _ E)).
Qed.

Lemma o_closed_wf e o : obj_wf o -> obj_wf (o_closed e o).
Proof. intros []. by constructor. Qed.

Lemma swf_marked s r o e : swf (None, fl) s -> objs s !! r = Some o -> st_closed o = false ->
  swf (Some r, fl) (set_objs (<[r := o_closed e o]> (objs s)) s).
Proof.
  intros H E Hc. assert (Hr : (r < length (objs s))%nat) by by eapply lookup_lt_Some.
  pose proof (obj_at _ _ _ _ H E) as W. destruct (held_all_split _ _ _ E) as (X & P1 & P2).
  destruct H. constructor; cbn; try done; rewrite ?length_insert; try done.
  - intros r' o1. destruct (decide (r' = r)) as [->|Hn].
    + rewrite list_lookup_insert_eq by done. intros [= <-]. apply (w_ids0 r o E).
    + rewrite list_lookup_insert_ne by done. eauto.
  - intros r' o1. destruct (decide (r' = r)) as [->|Hn].
    + rewrite list_lookup_insert_eq by done. intros [= <-]. cbn. rewrite (w_table0 r o E). naive_solver.
    + rewrite list_lookup_insert_ne by done. intros Ho. rewrite (w_table0 r' o1 Ho). naive_solver congruence.
  - intros i r' Hs. destruct (w_refs0 i r' Hs) as (o1 & Ho & Hi1). destruct (decide (r' = r)) as [->|Hn].
    + exists (o_closed e o). rewrite list_lookup_insert_eq by done. split; [done|]. cbn. congruence.
    + exists o1. by rewrite list_lookup_insert_ne.
  - apply Forall_insert; [done|]. by apply o_closed_wf.
  - by rewrite w_bufs0, P1, P2.
Qed.

Lemma removeStream_none i s : streams s !! i = None -> removeStream environment i s = (s, Ret tt).
Proof. intros E. unfold removeStream. st_pure. by rewrite E. Qed.

(** Taking the closed stream [r] out of the table. *)
Lemma swf_removed s r o st idle cs : swf (Some r, fl) s -> objs s !! r = Some o -> st_closed o = true ->
  (length cs <= 2)%nat -> (delete (id_ o) (streams s) = ∅ -> st = sessionStateIdle) ->
  (delete (id_ o) (streams s) <> ∅ -> st = state s) ->
  swf (None, fl) (set_chans cs (heartResponseCh s) (set_state st idle (set_table (delete (id_ o) (streams s)) (activeStreams s - 1) s))).
Proof.
  intros H E Hc Hl Hs1 Hs2.
  assert (Ht : streams s !! id_ o = Some r) by (apply (w_table _ _ H r o E); by right).
  assert (Hcl : closed s = false).
  { destruct (closed s) eqn:Ecl; [|done]. destruct (w_closed _ _ H Ecl) as [E0 _]. by rewrite E0 in Ht. }
  pose proof (w_ids _ _ H r o E) as Hid.
  assert (Hids : forall r' o', objs s !! r' = Some o' -> r' <> r -> id_ o' <> id_ o).
  { intros r' o' E' Hn. rewrite (w_ids _ _ H r' o' E'), Hid. lia. }
  destruct H. constructor; cbn; try done.
  - intros r' o' E'. destruct (decide (r' = r)) as [->|Hn].
    + simplify_eq. rewrite lookup_delete_eq. naive_solver congruence.
    + rewrite lookup_delete_ne by (by apply not_eq_sym, (Hids r')). rewrite (w_table0 r' o' E'). naive_solver congruence.
  - intros i r' [Hn Hi]%lookup_delete_Some. eauto.
  - rewrite w_active0, map_size_delete, Ht. 
    assert (size (streams s) <> 0)%nat by (intros E0%map_size_empty_inv; by rewrite E0 in Ht). lia.
  - intros; congruence.
  - intros _. destruct (decide (delete (id_ o) (streams s) = ∅)) as [E0|E0].
    + right. auto.
    + left. rewrite Hs2 by done. destruct (w_state0 Hcl) as [?|[_ Hem]]; [done|]. by rewrite Hem in Ht.
Qed.

(** What [removeStream] leaves alone. *)
Definition off_table (s : session) : session :=
  set_chans [] false (set_state sessionStateActive 0 (set_table ∅ 0 (core s))).

Lemma removeStream_ok s r o : swf (Some r, fl) s -> objs s !! r = Some o -> st_closed o = true ->
  exists s', removeStream environment (id_ o) s = (s', Ret tt) /\ swf (None, fl) s' /\
    streams s' = delete (id_ o) (streams s) /\ off_table s' = off_table s.
Proof.
  intros H E Hc. assert (Ht : streams s !! id_ o = Some r) by (apply (w_table _ _ H r o E); by right).
  assert (Hcl : closed s = false).
  { destruct (closed s) eqn:Ecl; [|done]. destruct (w_closed _ _ H Ecl) as [E0 _]. by rewrite E0 in Ht. }
  assert (Ha : Z.max 0 (activeStreams s - 1) = activeStreams s - 1).
  { rewrite (w_active _ _ H). assert (size (streams s) <> 0)%nat by (intros E0%map_size_empty_inv; by rewrite E0 in Ht). lia. }
  unfold removeStream. st_pure. rewrite Ht. cbv beta zeta. rewrite Ha. st_pure. rewrite Hcl.
  set (s1 := set_table _ _ s).
  destruct (decide (delete (id_ o) (streams s) = ∅)) as [E0|E0].
  - rewrite decide_False by naive_solver. st_pure. st_pure. st_pure.
    set (s2 := set_state _ _ _). assert (Hd : done_ s2 = false) by (cbn; by rewrite (w_done _ _ H)). rewrite Hd.
    pose proof (w_chan _ _ H) as Hl.
    set (cs := if decide (length (closeStreamChan s) < 2)%nat then closeStreamChan s ++ [id_ o] else closeStreamChan s).
    assert (Hcs : (length cs <= 2)%nat) by (unfold cs; case_decide; len).
    set (t := now (environment (burst s1))).
    pose proof (swf_removed s r o sessionStateIdle t cs H E Hc Hcs ltac:(done) ltac:(done)) as W.
    exists (set_chans cs (heartResponseCh s) s2). split; [|split; [|done]].
    + cbn [closeStreamChan s2 set_state next_burst s1 set_table]. unfold cs. case_decide; [done|]. by destruct s.
    + eapply swf_core; [|exact W]. done.
  - rewrite decide_True by (by left). exists s1. split; [done|]. split; [|done].
    pose proof (swf_removed s r o (state s) (idleAt s) (closeStreamChan s) H E Hc (w_chan _ _ H) ltac:(done) ltac:(done)) as W.
    destruct s. exact W.
Qed.

Lemma off_table_objs s s' : off_table s' = off_table s -> objs s' = objs s.
Proof. intros C. apply (f_equal objs) in C. exact C. Qed.

(** A stream leaves the table: every other stream and the rest of the session
    stay. *)
Definition left (r : nat) (s s' : session) : Prop :=
  streams s' = delete (Z.of_nat r + 1) (streams s) /\ (forall r', r' <> r -> objs s' !! r' = objs s !! r') /\
  closed s' = closed s /\ length (objs s') = length (objs s).

Lemma stream_remoteClose_ok s r o : swf (None, fl) s -> objs s !! r = Some o -> st_closed o = false -> exists s',
  stream_remoteClose environment r s = (s', Ret tt) /\ swf (None, fl) s' /\ left r s s' /\
  objs s' !! r = Some (o_closed EOF o).
Proof.
  intros H E Hc. pose proof (obj_at _ _ _ _ H E) as W. assert (Hr : (r < length (objs s))%nat) by by eapply lookup_lt_Some.
  unfold stream_remoteClose.
  rewrite (st_bind_Ret _ _ _ _ _ (markClosed_open r o EOF s E Hc ltac:(by rewrite (ow_ch _ W)))).
  set (s1 := set_objs _ s). assert (E1 : objs s1 !! r = Some (o_closed EOF o)) by by apply objs_insert.
  rewrite (st_bind_Ret _ _ _ _ _ (deref_ok _ _ _ E1)).
  pose proof (swf_marked s r o EOF H E Hc) as W1.
  destruct (removeStream_ok s1 r _ W1 E1 eq_refl) as (s2 & E2 & W2 & S2 & O2). exists s2.
  pose proof (off_table_objs _ _ O2) as Oo. pose proof (f_equal closed O2) as Oc. cbn in Oo, Oc.
  unfold left. split_and!; try done.
  - rewrite S2. cbn. by rewrite (w_ids _ _ H r o E).
  - intros r' Hn. rewrite Oo. by rewrite list_lookup_insert_ne.
  - rewrite Oo. by rewrite length_insert.
  - rewrite Oo. by apply list_lookup_insert_eq.
Qed.

(** The stream object after its buffers were put back. *)
Definition drained (o : stream_) : stream_ :=
  o_inbound [] (match readBufPB o with Some _ => o_read [] None o | None => o end).

Lemma drained_wf o : obj_wf o -> obj_wf (drained o) /\ held (drained o) = [].
Proof.
  intros []. unfold drained. destruct (readBufPB o) as [i|] eqn:Eb.
  - split; [|done]. constructor; cbn; try done; first [by constructor | unfold inbound_cap; lia].
  - assert (readBuf o = []) as Er by tauto. split; [|unfold held; cbn; by rewrite Eb].
    constructor; cbn; try done; first [by rewrite Eb, Er | by constructor | unfold inbound_cap; lia].
Qed.

Lemma drained_same o : id_ (drained o) = id_ o /\ st_closed (drained o) = st_closed o.
Proof. unfold drained. by destruct (readBufPB o). Qed.

(** The middle of [closeLocal]: give back every buffer. *)
Lemma drain_ok x s r o (k : st session unit) : swf x s -> objs s !! r = Some o -> exists s',
  (_ ← (match readBufPB o with
        | Some i => _ ← pool_Put i; update r (o_read [] None)
        | None => mret tt
        end);
   _ ← pool_PutAll (c_id <$> inbound o);
   _ ← update r (o_inbound []);
   k) s = k s' /\ swf x s' /\ s' = set_pool (bufs s) (released s ++ held o) (set_objs (<[r := drained o]> (objs s)) s).
Proof.
  intros H E. assert (Hr : (r < length (objs s))%nat) by by eapply lookup_lt_Some.
  eexists. split; [|split; [|reflexivity]].
  - unfold drained, held. destruct (readBufPB o) as [i|] eqn:Eb.
    + unfold pool_Put. rewrite (st_bind_Ret _ _ s (set_pool (bufs s) (released s ++ [i]) (set_objs (<[r := o_read [] None o]> (objs s)) s)) tt).
      2:{ st_pure. by rewrite (update_ok r _ o). }
      set (s1 := set_pool _ _ _). rewrite (st_bind_Ret _ _ _ _ _ (pool_PutAll_ok (c_id <$> inbound o) s1)).
      set (s2 := set_pool _ _ s1). assert (E2 : objs s2 !! r = Some (o_read [] None o)) by by apply objs_insert.
      rewrite (st_bind_Ret _ _ _ _ _ (update_ok r _ _ s2 E2)).
      unfold s2, s1. cbn. by rewrite list_insert_insert_eq, <- app_assoc.
    + st_pure. rewrite (st_bind_Ret _ _ _ _ _ (pool_PutAll_ok (c_id <$> inbound o) s)).
      set (s1 := set_pool _ _ s). by rewrite (st_bind_Ret _ _ _ _ _ (update_ok r _ _ s1 E)).
  - destruct (drained_wf o (obj_at _ _ _ _ H E)) as [W Hh]. destruct (drained_same o) as [I C].
    eapply swf_obj; [done..|]. by rewrite Hh, app_nil_r.
Qed.

(** The end of [closeLocal]: a FIN if wanted, then out of the table. *)
Lemma fin_part_ok x s r o (b : bool) : swf x s -> objs s !! r = Some o -> exists s' o',
  ((if b then
      if writeClosed o then mret tt
      else
        _ ← update r o_writeClosed;
        s ← get;
        if closed s then mret tt
        else _ ← try (writeFrame environment (newFrame cmdFIN (id_ o))); mret tt
    else mret tt) : st session unit) s = (s', Ret tt) /\
  swf x s' /\ objs s' = <[r := o']> (objs s) /\ streams s' = streams s /\ closed s' = closed s /\
  id_ o' = id_ o /\ st_closed o' = st_closed o.
Proof.
  intros H E. assert (Hid : objs s = <[r := o]> (objs s)) by by rewrite list_insert_id.
  destruct b; [|by exists s, o]. destruct (writeClosed o); [by exists s, o|].
  rewrite (st_bind_Ret _ _ _ _ _ (update_ok r _ o s E)). st_pure.
  set (s1 := set_objs _ s).
  assert (H1 : swf x s1).
  { pose proof (obj_at _ _ _ _ H E) as W. eapply swf_obj'; try done. destruct W. by constructor. }
  destruct (closed s1); [by exists s1, (o_writeClosed o)|].
  destruct (try_writeFrame (newFrame cmdFIN (id_ o)) s1 (small_newFrame _ _) (w_pad _ _ H1)) as (s2 & y & E2 & C).
  rewrite (st_bind_Ret _ _ _ _ _ E2). exists s2, (o_writeClosed o).
  split; [done|]. split; [by eapply swf_core|]. rewrite (core_objs _ _ C), (core_streams _ _ C), (core_closed _ _ C). done.
Qed.

Lemma closeLocal_ok s r o b e : swf (None, fl) s -> objs s !! r = Some o -> exists s',
  closeLocal environment r b e s = (s', Ret tt) /\ swf (None, fl) s' /\ left r s s'.
Proof.
  intros H E. assert (Hr : (r < length (objs s))%nat) by by eapply lookup_lt_Some.
  pose proof (obj_at _ _ _ _ H E) as W. unfold closeLocal.
  (* the state after [markClosed] *)
  assert (M : exists s1 o1 x first, markClosed r e s = (s1, Ret first) /\ swf x s1 /\ objs s1 = <[r := o1]> (objs s) /\
    streams s1 = streams s /\ closed s1 = closed s /\ id_ o1 = id_ o /\ st_closed o1 = true /\
    x = (if st_closed o then None else Some r, fl)).
  { destruct (st_closed o) eqn:Hc.
    - exists s, o, (None, fl), false. rewrite (markClosed_closed r o e s E Hc). by rewrite list_insert_id.
    - exists (set_objs (<[r := o_closed e o]> (objs s)) s), (o_closed e o), (Some r, fl), true.
      rewrite (markClosed_open r o e s E Hc) by (by rewrite (ow_ch _ W)). split; [done|]. split; [by apply swf_marked|done]. }
  destruct M as (s1 & o1 & x & first & E1 & W1 & O1 & S1 & C1 & I1 & Cl1 & Hx). rewrite (st_bind_Ret _ _ _ _ _ E1).
  assert (L1 : objs s1 !! r = Some o1) by (rewrite O1; by apply list_lookup_insert_eq).
  rewrite (st_bind_Ret _ _ _ _ _ (deref_ok _ _ _ L1)).
  match goal with |- context [(_ ← _; _ ← _; _ ← _; ?k) s1] => destruct (drain_ok x s1 r o1 k W1 L1) as (s2 & E2 & W2 & Hs2) end.
  rewrite E2. set (o2 := drained o1) in *.
  assert (L2 : objs s2 !! r = Some o2) by (subst s2; cbn; rewrite O1; apply list_lookup_insert_eq; by rewrite length_insert).
  destruct (drained_same o1) as [I2 Cl2]. fold o2 in I2, Cl2.
  destruct (fin_part_ok x s2 r o2 (b && first) W2 L2) as (s3 & o3 & E3 & W3 & O3 & S3 & C3 & I3 & Cl3).
  rewrite (st_bind_Ret _ _ s2 s3 tt).
  2:{ rewrite <- E3. rewrite I2. by replace (writeClosed o2) with (writeClosed o1) by (unfold o2, drained; by destruct (readBufPB o1)). }
  assert (L3 : objs s3 !! r = Some o3) by (rewrite O3; apply list_lookup_insert_eq; by eapply lookup_lt_Some).
  assert (Hn3 : forall r', r' <> r -> objs s3 !! r' = objs s !! r').
  { intros r' Hn. rewrite O3, list_lookup_insert_ne by done. subst s2. cbn. rewrite list_lookup_insert_ne by done.
    by rewrite O1, list_lookup_insert_ne. }
  assert (Hl3 : length (objs s3) = length (objs s)) by (rewrite O3, length_insert, Hs2; cbn; by rewrite length_insert, O1, length_insert).
  assert (Hi3 : id_ o1 = id_ o3) by congruence.
  assert (Hc3 : st_closed o3 = true) by congruence.
  assert (Hst : streams s3 = streams s) by (rewrite S3, Hs2; cbn; done).
  assert (Hcl : closed s3 = closed s) by (rewrite C3, Hs2; cbn; done).
  assert (Hid : id_ o3 = Z.of_nat r + 1) by (rewrite <- Hi3, I1; by apply (w_ids _ _ H)).
  rewrite Hi3. destruct (st_closed o) eqn:Hc; rewrite Hx in *.
  - pose proof (not_in_table _ _ _ _ W3 L3 Hc3 ltac:(done)) as Hnone. rewrite (removeStream_none _ _ Hnone).
    exists s3. split; [done|]. split; [done|]. unfold left. split_and!; try done.
    rewrite <- Hid, <- Hst. by rewrite delete_id.
  - destruct (removeStream_ok s3 r o3 W3 L3 Hc3) as (s4 & E4 & W4 & S4 & O4). exists s4.
    pose proof (off_table_objs _ _ O4) as Oo. pose proof (f_equal closed O4) as Oc. cbn in Oc.
    split; [done|]. split; [done|]. unfold left. rewrite Oo, Oc, S4, Hst, Hid. split_and!; done.
Qed.

(** ** Reading *)

(** The bytes a stream has received and not delivered. *)
Definition view (o : stream_) : list byte := readBuf o ++ concat (c_bytes <$> inbound o).

(** Only the object [r] and the pool changed. *)
Definition only_obj (r : nat) (o' : stream_) (s s' : session) : Prop :=
  objs s' = <[r := o']> (objs s) /\ set_objs [] (set_pool 0 [] (core s')) = set_objs [] (set_pool 0 [] (core s)).

Lemma only_obj_id r o s s' : objs s !! r = Some o -> core s' = core s -> only_obj r o s s'.
Proof. intros E C. split; [by rewrite (core_objs _ _ C), list_insert_id|by rewrite C]. Qed.

(** The chunk at the head of the queue becomes the read buffer. *)
Definition promoted (o : stream_) : stream_ :=
  match inbound o with
  | c :: q => if decide (readBuf o = []) then o_read (c_bytes c) (Some (c_id c)) (o_inbound q o) else o
  | [] => o
  end.

Lemma promoted_ok o : obj_wf o -> obj_wf (promoted o) /\ held (promoted o) = held o /\ view (promoted o) = view o /\
  id_ (promoted o) = id_ o /\ st_closed (promoted o) = st_closed o /\ (view o <> [] -> readBuf (promoted o) <> []).
Proof.
  intros [Hch Hb Hcs Hcap]. unfold promoted, view, held. destruct (inbound o) as [|c q] eqn:Eq.
  { rewrite Eq. cbn. rewrite !app_nil_r. split_and!; try done. constructor; rewrite ?Eq; done. }
  apply Forall_cons in Hcs as [Hc Hq]. case_decide as Hr.
  - cbn. assert (readBufPB o = None) as -> by tauto. rewrite Hr. cbn. split_and!; try done.
    constructor; cbn; try done. cbn in Hcap. lia.
  - rewrite Eq. split_and!; try done. constructor; rewrite ?Eq; try done. by constructor.
Qed.

Lemma set_objs_id s r o : objs s !! r = Some o -> set_objs (<[r := o]> (objs s)) s = s.
Proof. intros E. rewrite list_insert_id by done. by destruct s. Qed.

Lemma view_nil o : obj_wf o -> view o = [] -> readBuf o = [] /\ inbound o = [] /\ readBufPB o = None.
Proof.
  intros [_ Hb Hcs _] [Hr Hc]%app_eq_nil. destruct (inbound o) as [|c q]; [tauto|].
  apply Forall_cons in Hcs as [Hc1 _]. cbn in Hc. by apply app_eq_nil in Hc as [? _].
Qed.

Lemma fill_readBuf_some fuel r o s : objs s !! r = Some o -> obj_wf o -> view o <> [] ->
  fill_readBuf environment (S fuel) r s = (set_objs (<[r := promoted o]> (objs s)) s, Ret None).
Proof.
  intros E W V. unfold promoted.
  assert (Full : forall fuel s o, objs s !! r = Some o -> readBuf o <> [] -> fill_readBuf environment fuel r s = (s, Ret None)).
  { intros fu s1 o1 E1 H1. destruct fu; cbn [fill_readBuf]; rewrite (st_bind_Ret _ _ _ _ _ (deref_ok _ _ _ E1));
      by rewrite decide_False by (by intros ?%nil_length_inv). }
  destruct (decide (readBuf o = [])) as [Hr|Hr].
  2:{ rewrite (Full _ s o E Hr). destruct (inbound o); [by rewrite set_objs_id|].
      by rewrite set_objs_id. }
  assert (Hp : readBufPB o = None) by (destruct W; tauto).
  destruct (inbound o) as [|c q] eqn:Eq; [unfold view in V; by rewrite Hr, Eq in V|].
  pose proof (ow_chunks _ W) as Hcs. rewrite Eq in Hcs. apply Forall_cons in Hcs as [Hc _].
  cbn [fill_readBuf]. rewrite (st_bind_Ret _ _ _ _ _ (deref_ok _ _ _ E)). rewrite decide_True by (by rewrite Hr).
  rewrite Hp, Eq. st_pure. rewrite (st_bind_Ret _ _ _ _ _ (update_ok r _ o s E)).
  rewrite decide_False by (by intros ?%nil_length_inv). set (s1 := set_objs _ s).
  assert (Hl : (r < length (objs s))%nat) by by eapply lookup_lt_Some.
  assert (E1 : objs s1 !! r = Some (o_inbound q o)) by by apply objs_insert.
  rewrite (st_bind_Ret _ _ _ _ _ (update_ok r _ _ s1 E1)). set (s2 := set_objs _ s1).
  rewrite (Full _ s2 (o_read (c_bytes c) (Some (c_id c)) (o_inbound q o))); [|apply objs_insert; unfold s1; cbn; by rewrite length_insert|done].
  unfold s2, s1. cbn. by rewrite list_insert_insert_eq.
Qed.

Lemma fill_readBuf_none fuel r o s : objs s !! r = Some o -> obj_wf o -> view o = [] -> exists s' out,
  fill_readBuf environment fuel r s = (s', Ret (Some out)) /\ core s' = core s /\
  (if st_closed o then out = RErr (closedError o)
   else out = Wait \/ (out = RErr ErrDeadlineExceeded /\ readDeadline o <> 0)).
Proof.
  intros E W V. destruct (view_nil o W V) as (Hr & Hi & Hp).
  assert (F : fill_readBuf environment fuel r s =
    (if st_closed o then mret (Some (RErr (closedError o)))
     else
       env ← env_next environment;
       if decide (readDeadline o <> 0 /\ readDeadline o <= now env)
       then mret (Some (RErr ErrDeadlineExceeded)) else mret (Some Wait)) s).
  { destruct fuel; cbn [fill_readBuf]; rewrite (st_bind_Ret _ _ _ _ _ (deref_ok _ _ _ E));
      rewrite decide_True by (by rewrite Hr); rewrite Hp, Hi; st_pure; done. }
  rewrite F. destruct (st_closed o); [by eexists _, _|]. st_pure. destruct (decide (_ /\ _)).
  - eexists _, _. split; [reflexivity|]. split; [done|]. right. split; [done|tauto].
  - eexists _, _. split; [reflexivity|]. split; [done|]. by left.
Qed.

(** The outcome of a read of at most [k > 0] bytes. *)
Definition read_outcome (o o' : stream_) (k : nat) (x : rd) : Prop :=
  match x with
  | Got b => b <> [] /\ (length b <= k)%nat /\ view o = b ++ view o'
  | RErr e => view o = [] /\ o' = o /\ (st_closed o = true /\ e = closedError o \/ st_closed o = false /\ e = ErrDeadlineExceeded)
  | Wait => view o = [] /\ o' = o /\ st_closed o = false
  end.

Lemma readLocked_ok x s r o k : swf x s -> objs s !! r = Some o -> (0 < k)%nat -> exists s' out o',
  readLocked environment r k s = (s', Ret out) /\ swf x s' /\ only_obj r o' s s' /\
  id_ o' = id_ o /\ st_closed o' = st_closed o /\ read_outcome o o' k out.
Proof.
  intros H E Hk. pose proof (obj_at _ _ _ _ H E) as W. assert (Hl : (r < length (objs s))%nat) by by eapply lookup_lt_Some.
  unfold readLocked. rewrite (st_bind_Ret _ _ _ _ _ (deref_ok _ _ _ E)).
  destruct (decide (view o = [])) as [V|V].
  { destruct (fill_readBuf_none (S (length (inbound o))) r o s E W V) as (s' & out & F & C & Ho).
    rewrite (st_bind_Ret _ _ _ _ _ F). exists s', out, o. split; [done|]. split; [by eapply swf_core|].
    split; [by apply only_obj_id|]. split_and!; [done..|].
    destruct (st_closed o) eqn:Ec; [subst out; cbn; auto|]. destruct Ho as [-> | [-> ?]]; cbn; auto. }
  destruct (promoted_ok o W) as (Wp & Hh & Hv & Hi & Hc & Hne). specialize (Hne V).
  rewrite (st_bind_Ret _ _ _ _ _ (fill_readBuf_some _ _ _ _ E W V)). set (p := promoted o) in *. set (s1 := set_objs _ s).
  assert (E1 : objs s1 !! r = Some p) by by apply objs_insert.
  rewrite (st_bind_Ret _ _ _ _ _ (deref_ok _ _ _ E1)). rewrite (st_bind_Ret _ _ _ _ _ (update_ok r _ p s1 E1)).
  set (rest := drop k (readBuf p)) in *. set (s2 := set_objs _ s1).
  assert (E2 : objs s2 !! r = Some (o_read rest (readBufPB p) p)) by (apply objs_insert; unfold s1; cbn; by rewrite length_insert).
  destruct (readBufPB p) as [i|] eqn:Ep; [|by destruct Hne; apply (ow_buf _ Wp)].
  assert (Hg : take k (readBuf p) <> []).
  { destruct (readBuf p); [done|]. by destruct k; [lia|]. }
  assert (Ev : forall pb, view o = take k (readBuf p) ++ view (o_read rest pb p)).
  { intros pb. rewrite <- Hv. unfold view, rest. cbn. by rewrite app_assoc, take_drop. }
  assert (P0 : forall pb, id_ (o_read rest pb p) = id_ o /\ st_closed (o_read rest pb p) = st_closed o) by by cbn.
  case_decide as Hz.
  - apply nil_length_inv in Hz.
    rewrite (st_bind_Ret _ _ s2 (set_pool (bufs s) (released s ++ [i]) (set_objs (<[r := o_read rest None p]> (objs s)) s)) tt).
    2:{ unfold pool_Put. st_pure. rewrite (update_ok r _ (o_read rest (Some i) p)) by exact E2.
        unfold s2, s1. cbn. by rewrite !list_insert_insert_eq. }
    eexists _, _, (o_read rest None p). split; [reflexivity|]. split; [|split; [by split|split; [by apply P0|split; [by apply P0|]]]].
    + eapply swf_obj; try done.
      * destruct Wp. constructor; cbn; done.
      * rewrite <- Hh. unfold held. cbn. rewrite Ep. cbn. rewrite <- !app_assoc. done.
    + cbn [read_outcome]. split_and!; [done|len|by apply Ev].
  - st_pure. assert (Hs2 : s2 = set_objs (<[r := o_read rest (Some i) p]> (objs s)) s) by (unfold s2, s1; cbn; by rewrite list_insert_insert_eq).
    rewrite Hs2. eexists _, _, (o_read rest (Some i) p). split; [reflexivity|].
    split; [|split; [by split|split; [by apply P0|split; [by apply P0|]]]].
    + eapply swf_obj'; try done.
      * destruct Wp. constructor; cbn; try done. split; [done|]. intros Hr. by rewrite Hr in Hz.
      * rewrite <- Hh. unfold held. cbn. by rewrite Ep.
    + cbn [read_outcome]. split_and!; [done|len|by apply Ev].
Qed.

End ops.

Section session_ops.
Context {BS : BufferSource} (environment : nat -> wenv).
Context (md5_hex : list byte -> list byte) (range : gmap (list byte) (list byte) -> list (list byte * list byte)).
Context (SplitHostPort : list byte -> res (list byte * list byte)) (ParseIP : list byte -> list byte).

(** ** Writing *)

(** A writer of frames that never panics and changes only the writing side. *)
Definition write_only {A} (m : st session A) (s : session) : Prop :=
  exists s' r, m s = (s', r) /\ core s' = core s /\ r <> Panic.

Lemma write_only_try {A} (m : st session A) s : write_only m s -> exists s' x, try m s = (s', Ret x) /\ core s' = core s.
Proof. intros (s' & r & E & C & N). unfold try. rewrite E. by destruct r; [eexists _, _..|]. Qed.

Lemma writeFrame_write_only f s : factory_wf (padding s) -> write_only (writeFrame environment f) s.
Proof.
  intros F. destruct (decide (length (data f) <= maxFramePayloadSize)%nat) as [Hf|Hf]; [by apply writeFrame_core|].
  unfold write_only, writeFrame, writeFrameWithDeadline, encodedFrameSize. rewrite decide_True by lia. by eexists _, _.
Qed.

Lemma frame_sizes_big fs : ~ Forall small fs -> exists e, frame_sizes fs = Fail e.
Proof.
  induction fs as [|f fs IH]; intros H; [by destruct H|]. cbn [frame_sizes]. unfold encodedFrameSize.
  case_decide as Hf; [by eexists|]. rewrite bind_ret. destruct IH as [e ->]; [|by eexists].
  intros G. apply H. constructor; [unfold small; lia|done].
Qed.

Lemma writeFrames_write_only fs s : factory_wf (padding s) -> write_only (writeFrames environment fs) s.
Proof.
  intros F. unfold write_only. destruct (decide (Forall (fun f => (length (data f) <= maxFramePayloadSize)%nat) fs)) as [Hf|Hf].
  2:{ destruct (frame_sizes_big fs Hf) as [e Ee]. unfold writeFrames. rewrite Ee. by eexists _, _. }
  destruct (closed s) eqn:Hc.
  { exists s, (Fail ErrClosed). split; [|done]. unfold writeFrames, checkOpen. rewrite frame_sizes_ok by done.
    st_pure. cbv beta iota. erewrite st_bind_Fail; [done|]. st_pure. by rewrite Hc. }
  destruct (writeFrames_spec environment fs s Hf F Hc) as (s' & r & E & Hr & S & _).
  exists s', r. split; [done|]. split; [apply S|]. by destruct Hr as [-> | [e ->]].
Qed.

Lemma writeDataFrames_closed sid d dl s : closed s = true -> d <> [] ->
  writeDataFrames environment sid d dl s = (s, Ret (0%nat, Some ErrClosed)).
Proof.
  intros Hc Hd. unfold writeDataFrames. pose proof maxFramePayloadSize_pos as M.
  destruct d as [|x d]; [done|]. cbn [length write_data_loop]. rewrite decide_True by lia. unfold try.
  rewrite (st_bind_Ret _ _ s s (inr ErrClosed)); [done|]. rewrite closed_takes_nothing; [done..|].
  unfold small. cbn. len.
Qed.

Lemma writeDataFrames_core sid d dl s : 0 <= sid < 2 ^ 32 -> factory_wf (padding s) -> exists s' n e,
  writeDataFrames environment sid d dl s = (s', Ret (n, e)) /\ core s' = core s.
Proof.
  intros Hs F. destruct (closed s) eqn:Hc.
  - destruct d as [|x d].
    { exists s, 0%nat, None. unfold writeDataFrames. cbn [length write_data_loop]. by rewrite decide_False by lia. }
    exists s, 0%nat, (Some ErrClosed). by rewrite writeDataFrames_closed.
  - destruct (writeDataFrames_spec environment sid d dl s Hs F Hc) as (s' & n & e & E & S).
    exists s', n, e. split; [done|apply S].
Qed.

Lemma id_range x s r o : swf x s -> objs s !! r = Some o -> 0 < id_ o < 2 ^ 32.
Proof.
  intros H E. rewrite (w_ids _ _ H r o E). pose proof (w_few _ _ H). apply lookup_lt_Some in E. lia.
Qed.

Lemma stream_Write_ok x s r o b : swf x s -> objs s !! r = Some o -> exists s' n e,
  stream_Write environment r b s = (s', Ret (n, e)) /\ core s' = core s.
Proof.
  intros H E. unfold stream_Write. rewrite (st_bind_Ret _ _ _ _ _ (deref_ok _ _ _ E)).
  destruct (_ || _); [by eexists _, _, _|]. case_decide; [by eexists _, _, _|].
  apply writeDataFrames_core; [|apply H]. pose proof (id_range _ _ _ _ H E). lia.
Qed.

Lemma stream_CloseWrite_ok x s r o : swf x s -> objs s !! r = Some o -> exists s' res o',
  stream_CloseWrite environment r s = (s', res) /\ res <> Panic /\ swf x s' /\ only_obj r o' s s' /\
  id_ o' = id_ o /\ st_closed o' = st_closed o /\ view o' = view o.
Proof.
  intros H E. unfold stream_CloseWrite. rewrite (st_bind_Ret _ _ _ _ _ (deref_ok _ _ _ E)).
  assert (Same : only_obj r o s s) by by apply only_obj_id.
  destruct (st_closed o) eqn:Hcl; [exists s, (Fail ErrClosed), o; by split_and!|].
  destruct (writeClosed o); [exists s, (Ret tt), o; by split_and!|].
  rewrite (st_bind_Ret _ _ _ _ _ (update_ok _ _ _ _ E)). st_pure. set (s1 := set_objs _ s).
  assert (H1 : swf x s1).
  { pose proof (obj_at _ _ _ _ H E) as W. eapply swf_obj'; try done. destruct W. by constructor. }
  destruct (closed s1); [exists s1, (Fail ErrClosed), (o_writeClosed o); by split_and!|].
  destruct (writeFrame_write_only (newFrame cmdFIN (id_ o)) s1 (w_pad _ _ H1)) as (s2 & res & E2 & C & N).
  exists s2, (match res with Ret _ => Ret tt | Fail e => Fail e | Panic => Panic end), (o_writeClosed o).
  split; [unfold mbind, st_bind; rewrite E2; by destruct res|].
  split_and!; [by destruct res|by eapply swf_core| |done..].
  split; [by rewrite (core_objs _ _ C)|]. pose proof (f_equal (fun s => set_objs [] (set_pool 0 [] s)) C) as G. exact G.
Qed.

(** ** Opening *)

Lemma swf_opened s : swf (None, []) s -> closed s = false -> Z.of_nat (length (objs s)) + 1 < 2 ^ 32 ->
  let sid := Z.of_nat (length (objs s)) + 1 in
  swf (None, []) (set_state sessionStateActive 0
    (set_table (<[sid := length (objs s)]> (streams s)) (activeStreams s + 1)
      (set_objs (objs s ++ [newStream_ sid]) (set_sid sid s)))).
Proof.
  intros H Hc Hf sid. set (r := length (objs s)).
  assert (Hfresh : streams s !! sid = None).
  { destruct (streams s !! sid) as [r'|] eqn:E; [|done]. pose proof (table_ref _ _ _ _ H E) as Hr.
    destruct (w_refs _ _ H _ _ E) as (o & Ho & _). apply lookup_lt_Some in Ho. unfold sid in Hr. lia. }
  assert (Hap : forall r' o, (objs s ++ [newStream_ sid]) !! r' = Some o ->
    (r' <> r /\ objs s !! r' = Some o) \/ (r' = r /\ o = newStream_ sid)).
  { intros r' o E. apply lookup_app_Some in E as [E|[Hl E]].
    - left. split; [|done]. apply lookup_lt_Some in E. unfold r. lia.
    - right. apply list_lookup_singleton_Some in E as [? <-]. split; [unfold r; lia|done]. }
  destruct H. constructor; cbn; try done; rewrite ?length_app; cbn; try lia.
  - intros r' o [[_ E]|[-> ->]]%Hap; [by apply w_ids0|done].
  - intros r' o [[Hn E]|[-> ->]]%Hap.
    + rewrite lookup_insert_ne; [by apply w_table0|]. rewrite (w_ids0 r' o E). unfold sid. fold r. lia.
    + cbn. rewrite lookup_insert_eq. naive_solver.
  - intros i r' [[<- <-]|[Hn E]]%lookup_insert_Some.
    + exists (newStream_ sid). split; [|done]. apply list_lookup_middle. done.
    + destruct (w_refs0 i r' E) as (o & Ho & Hi). exists o. split; [|done]. by apply lookup_app_l_Some.
  - apply Forall_app. split; [done|]. constructor; [|done]. constructor; cbn; try done; first [by constructor | unfold inbound_cap; lia].
  - rewrite map_size_insert_None by done. lia.
  - intros ?. congruence.
  - by left.
  - rewrite w_bufs0. unfold held_all. rewrite bind_app. cbn. by rewrite !app_nil_r.
Qed.

Lemma newStream_ok s addr : swf (None, []) s -> Z.of_nat (length (objs s)) + 1 < 2 ^ 32 ->
  ParseAddr SplitHostPort ParseIP addr <> Panic -> exists s' res,
  newStream environment SplitHostPort ParseIP addr s = (s', res) /\ res <> Panic /\ swf (None, []) s' /\
  closed s' = closed s /\ (length (objs s) <= length (objs s') <= S (length (objs s)))%nat /\
  (forall r o, objs s !! r = Some o -> objs s' !! r = Some o) /\
  (forall r, res = Ret r -> r = length (objs s) /\ objs s' !! r = Some (newStream_ (Z.of_nat r + 1))).
Proof.
  intros H Hf Hp. unfold newStream. st_pure. destruct (closed s) eqn:Hc.
  { exists s, (Fail ErrClosed). split_and!; try done; lia. }
  destruct (ParseAddr SplitHostPort ParseIP addr) as [tgt|e|]; [|exists s, (Fail e); split_and!; try done; lia|done].
  st_pure. cbv zeta. rewrite (w_sid _ _ H), Z.mod_small by lia. st_pure. st_pure.
  set (sid := Z.of_nat _ + 1). set (r := length (objs s)).
  set (s1 := set_objs _ _). rewrite (st_bind_Ret _ _ s1 (set_state sessionStateActive 0
    (set_table (<[sid := r]> (streams s)) (activeStreams s + 1) s1)) tt).
  2:{ unfold addStream. st_pure. cbn [closed s1 set_objs set_sid]. rewrite Hc. done. }
  pose proof (swf_opened s H Hc Hf) as W2. cbv zeta in W2. fold r sid in W2. set (s2 := set_state _ _ _) in *.
  assert (E2 : objs s2 !! r = Some (newStream_ sid)) by by apply list_lookup_middle.
  assert (Hold : forall r' o, objs s !! r' = Some o -> objs s2 !! r' = Some o).
  { intros r' o E. by apply lookup_app_l_Some. }
  assert (Hl2 : length (objs s2) = S r) by (cbn; rewrite length_app; cbn; unfold r; lia).
  set (w := if decide (sid = 1) then _ else _).
  assert (Ww : write_only w s2).
  { unfold w. case_decide; [apply writeFrames_write_only, W2|].
    destruct (writeFrame_write_only (newFrame cmdSYN sid) s2 (w_pad _ _ W2)) as (s3 & res & E3 & C3 & N3).
    destruct res as [n|e|]; [|exists s3, (Fail e); split; [by erewrite st_bind_Fail|done]|done].
    destruct (writeFrame_write_only (MkFrame cmdPSH sid tgt) s3) as (s4 & res & E4 & C4 & N4).
    { apply (swf_core _ _ _ C3) in W2. apply W2. }
    exists s4, res. rewrite (st_bind_Ret _ _ _ _ _ E3). split; [done|]. split; [congruence|done]. }
  destruct (write_only_try _ _ Ww) as (s3 & x & E3 & C3). rewrite (st_bind_Ret _ _ _ _ _ E3).
  pose proof (swf_core _ _ _ C3 W2) as W3. pose proof (core_objs _ _ C3) as O3. pose proof (core_closed _ _ C3) as Cl3.
  destruct x as [n|e].
  - exists s3, (Ret r). split_and!; try done; [by rewrite Cl3|rewrite O3; lia|rewrite O3; lia|by rewrite O3|].
    intros r' [= <-]. split; [done|]. by rewrite O3.
  - assert (E3' : objs s3 !! r = Some (newStream_ sid)) by by rewrite O3.
    destruct (closeLocal_ok environment [] s3 r (newStream_ sid) false ErrClosed W3 E3') as (s4 & E4 & W4 & (_ & Ho & Hc4 & Hl4)).
    rewrite (st_bind_Ret _ _ _ _ _ E4). exists s4, (Fail e). split_and!; try done.
    + by rewrite Hc4, Cl3.
    + rewrite Hl4, O3. lia.
    + rewrite Hl4, O3. lia.
    + intros r' o E. rewrite Ho, O3; [by apply Hold|]. apply lookup_lt_Some in E. unfold r. lia.
Qed.

(** ** Closing the session *)

Lemma markAll_ok rs : forall s, NoDup rs ->
  Forall (fun r => exists o, objs s !! r = Some o /\ st_closed o = false /\ closeCh o = false) rs ->
  exists os, markAll rs s = (set_objs os s, Ret tt) /\ length os = length (objs s) /\
    forall r, os !! r = (if decide (r ∈ rs) then o_closed ErrClosed <$> objs s !! r else objs s !! r).
Proof.
  clear BS environment md5_hex range SplitHostPort ParseIP.
  induction rs as [|r rs IH]; intros s N F; cbn [markAll].
  { exists (objs s). split; [by destruct s|]. split; [done|]. intros r. by rewrite decide_False by set_solver. }
  apply NoDup_cons in N as [Hr N]. apply Forall_cons in F as [(o & E & Hc & Hh) F].
  rewrite (st_bind_Ret _ _ _ _ _ (markClosed_open r o ErrClosed s E Hc Hh)). set (s1 := set_objs _ s).
  destruct (IH s1 N) as (os & E1 & L1 & H1).
  { eapply Forall_impl; [apply Forall_and; split; [exact F|apply Forall_forall; intros r' Hin; exact Hin]|].
    intros r' [(o' & E' & ?) Hin]. exists o'. split; [|done]. unfold s1. cbn. rewrite list_lookup_insert_ne; [done|]. by intros ->. }
  exists os. split; [by rewrite E1|]. split; [rewrite L1; unfold s1; cbn; by rewrite length_insert|].
  intros r'. rewrite H1. unfold s1. cbn [objs set_objs]. destruct (decide (r' = r)) as [->|Hn].
  - rewrite decide_False, decide_True by set_solver. rewrite list_lookup_insert_eq by by eapply lookup_lt_Some. by rewrite E.
  - rewrite list_lookup_insert_ne by done. case_decide.
    + rewrite decide_True by set_solver. done.
    + rewrite decide_False by set_solver. done.
Qed.

Lemma held_all_ext os os' : (forall r, held <$> os' !! r = held <$> os !! r) -> held_all os' = held_all os.
Proof.
  intros H. unfold held_all. assert (held <$> os' = held <$> os) as E.
  { apply list_eq. intros r. by rewrite !list_lookup_fmap. }
  assert (B : forall l, l ≫= held = concat (held <$> l)) by by induction l as [|a l IH]; [done|cbn; by rewrite <- IH].
  by rewrite !B, E.
Qed.

Lemma table_refs_NoDup x s : swf x s -> NoDup ((map_to_list (streams s)).*2).
Proof.
  intros H. apply NoDup_fmap_2_strong; [|apply NoDup_map_to_list].
  intros [i r] [j r'] Hi%elem_of_map_to_list Hj%elem_of_map_to_list. cbn. intros ->.
  by rewrite (table_ref _ _ _ _ H Hi), (table_ref _ _ _ _ H Hj).
Qed.

Lemma in_table_refs s r : r ∈ (map_to_list (streams s)).*2 <-> exists i, streams s !! i = Some r.
Proof.
  rewrite list_elem_of_fmap. split.
  - intros ([i r'] & -> & Hi%elem_of_map_to_list). eauto.
  - intros [i Hi]. exists (i, r). split; [done|]. by apply elem_of_map_to_list.
Qed.

(** Every stream closed, every field of the session that [Close] sets. *)
Lemma swf_all_closed fl s os : swf (None, fl) s -> length os = length (objs s) ->
  (forall r o, objs s !! r = Some o -> exists o', os !! r = Some o' /\ id_ o' = id_ o /\ st_closed o' = true /\
     held o' = held o /\ obj_wf o') ->
  forall t cs idle, t_closed t = true -> (length cs <= 2)%nat ->
  swf (None, fl) (MkSession t ∅ os (padding s) (sendPadding s) (pktCounter s) (burst s) (sid_ s) sessionStateClosed
    0 idle true true cs (heartResponseCh s) [] (flusher s) (bufs s) (released s)).
Proof.
  clear BS environment md5_hex range SplitHostPort ParseIP.
  intros H Hl Hos t cs idle Ht Hcs.
  assert (Hback : forall r o', os !! r = Some o' -> exists o, objs s !! r = Some o /\ id_ o' = id_ o /\ st_closed o' = true /\
     held o' = held o /\ obj_wf o').
  { intros r o' E. destruct (lookup_lt_is_Some_2 (objs s) r) as [o Eo]; [rewrite <- Hl; by eapply lookup_lt_Some|].
    destruct (Hos r o Eo) as (o2 & E2 & ?). simplify_eq. eauto. }
  destruct H. constructor; cbn; try done; rewrite ?Hl; try done.
  - intros r o' E. destruct (Hback r o' E) as (o & Eo & -> & _). by apply w_ids0.
  - intros r o' E. destruct (Hback r o' E) as (o & Eo & _ & Hc & _). rewrite lookup_empty. naive_solver congruence.
  - apply Forall_lookup. intros r o' E. by destruct (Hback r o' E) as (o & _ & _ & _ & _ & ?).
  - change (os ≫= held) with (held_all os). rewrite (held_all_ext (objs s) os); [done|]. intros r. destruct (objs s !! r) as [o|] eqn:E.
    + destruct (Hos r o E) as (o' & -> & _ & _ & Hh & _). cbn. by rewrite Hh.
    + by rewrite (lookup_ge_None_2 os r) by (rewrite Hl; by apply lookup_ge_None).
Qed.

Lemma Flush_state s : exists f e, Flush s = (set_flusher f s, Ret e).
Proof.
  unfold Flush. destruct (flusher s) as [[|e es]|] eqn:Ef; [|by eauto|]; exists (flusher s), None; by destruct s.
Qed.

Lemma session_Close_ok fl s : swf (None, fl) s -> exists s',
  session_Close s = (s', Ret tt) /\ swf (None, fl) s' /\ closed s' = true /\ bufs s' = bufs s /\ length (objs s') = length (objs s) /\
  (forall r, (view <$> objs s' !! r) = (view <$> objs s !! r)).
Proof.
  clear BS environment md5_hex range SplitHostPort ParseIP.
  intros H. unfold session_Close. st_pure. destruct (closed s) eqn:Hc; [by exists s|].
  st_pure. st_pure. rewrite (w_done _ _ H), Hc. st_pure. st_pure.
  set (s1 := set_table ∅ 0 _). set (rs := (map_to_list (streams s)).*2).
  destruct (markAll_ok rs s1) as (os & E1 & L1 & H1).
  { apply (table_refs_NoDup _ _ H). }
  { apply Forall_forall. intros r [i Hi]%in_table_refs. destruct (w_refs _ _ H _ _ Hi) as (o & Eo & <-).
    exists o. cbn. split; [done|]. pose proof (proj1 (w_table _ _ H r o Eo) Hi) as [Ho|?]; [|done].
    split; [done|]. by rewrite (ow_ch _ (obj_at _ _ _ _ H Eo)). }
  rewrite (st_bind_Ret _ _ _ _ _ E1). destruct (Flush_state (set_objs os s1)) as (f & fe & E2).
  rewrite (st_bind_Ret _ _ _ _ _ E2). st_pure. st_pure.
  assert (Hos : forall r o, objs s !! r = Some o -> exists o', os !! r = Some o' /\ id_ o' = id_ o /\ st_closed o' = true /\
     held o' = held o /\ obj_wf o' /\ view o' = view o).
  { intros r o Eo. rewrite H1. cbn [objs s1 set_table set_closing set_state]. rewrite Eo.
    pose proof (obj_at _ _ _ _ H Eo) as W. case_decide as Hin.
    - exists (o_closed ErrClosed o). split_and!; try done. by apply o_closed_wf.
    - exists o. split_and!; try done. destruct (st_closed o) eqn:Ho; [done|]. destruct Hin. apply in_table_refs.
      exists (id_ o). apply (w_table _ _ H r o Eo). by left. }
  pose proof (swf_all_closed fl s os H L1 ltac:(intros r o Eo; destruct (Hos r o Eo) as (o' & ? & ? & ? & ? & ? & _); eauto 6)
    (MkTconn (t_out (conn s)) (t_plan (conn s)) true) (closeStreamChan s) (idleAt s) eq_refl (w_chan _ _ H)) as W.
  eexists. split; [reflexivity|]. split; [|split; [|split; [|split]]].
  - eapply swf_core; [|exact W]. done.
  - done.
  - done.
  - exact L1.
  - intros r. cbn [objs set_state set_writeBuf set_tclosed set_conn set_flusher set_objs].
    destruct (objs s !! r) as [o|] eqn:Eo.
    + destruct (Hos r o Eo) as (o' & -> & _ & _ & _ & _ & Hv). cbn. by rewrite Hv.
    + by rewrite (lookup_ge_None_2 os r) by (rewrite L1; by apply lookup_ge_None).
Qed.

(** ** The read loop *)

Lemma on_ses_Ret {A} (m : st session A) y s' (a : A) : m (ses y) = (s', Ret a) -> on_ses m y = (MkSys s' (inp y), Ret a).
Proof. intros E. unfold on_ses. by rewrite E. Qed.

(** Reading a payload: a buffer that holds it, or an error and no buffer. *)
Lemma read_payload_ok n y : let s := ses y in
  read_payload n y =
    if decide (n <= length (inp y))%nat
    then (MkSys (set_pool (S (bufs s)) (released s) s) (drop n (inp y)), Ret (bufs s, inl (take n (inp y))))
    else (MkSys (set_pool (S (bufs s)) (released s ++ [bufs s]) s) [],
          Ret (bufs s, inr (match inp y with [] => EOF | _ => ErrUnexpectedEOF end))).
Proof.
  cbv zeta. unfold read_payload. rewrite (st_bind_Ret _ _ _ _ _ (on_ses_Ret _ y _ _ eq_refl)).
  unfold try, on_inp, mbind, st_bind, readFull. cbn. by case_decide.
Qed.

(** The step keeps the invariant or blocks. *)
Definition keeps (m : st sys next) : Prop := forall y, swf (None, []) (ses y) ->
  exists y' x, m y = (y', Ret x) /\
    (x <> Block -> swf (None, []) (ses y') /\ length (objs (ses y')) = length (objs (ses y))).

Lemma swf_get_put s : swf (None, []) s -> swf (None, []) (set_pool (S (bufs s)) (released s ++ [bufs s]) s).
Proof. intros H. apply (swf_put _ _ _ (swf_get _ _ H)). Qed.

(** Payloads that are used and put back: the use is an operation that keeps the
    invariant whatever buffers are in flight. *)
Lemma handle_payload_keeps n f :
  (forall b fl s, swf (None, fl) s -> exists s', f b s = (s', Ret tt) /\ swf (None, fl) s' /\ length (objs s') = length (objs s)) ->
  keeps (handle_payload n f).
Proof.
  intros Hf y H. unfold handle_payload. pose proof (read_payload_ok n y) as R. cbv zeta in R.
  destruct (decide _); rewrite (st_bind_Ret _ _ _ _ _ R); cbv beta iota.
  - pose proof (swf_get _ _ H) as W1. destruct (Hf (take n (inp y)) _ _ W1) as (s2 & E2 & W2 & L2).
    rewrite (st_bind_Ret _ _ _ _ _ (on_ses_Ret _ (MkSys _ _) _ _ E2)).
    rewrite (st_bind_Ret _ _ _ _ _ (on_ses_Ret _ (MkSys _ _) _ _ eq_refl)).
    eexists _, _. split; [reflexivity|]. intros _. cbn [ses]. split; [by apply swf_put|exact L2].
  - eexists _, _. split; [reflexivity|]. intros _. split; [by apply swf_get_put|done].
Qed.

(** A stream of the table is open, and so is the session. *)
Lemma in_table_open fl s i r : swf (None, fl) s -> streams s !! i = Some r ->
  exists o, objs s !! r = Some o /\ id_ o = i /\ st_closed o = false /\ obj_wf o /\ closed s = false.
Proof.
  intros H E. destruct (w_refs _ _ H i r E) as (o & Eo & Hi). exists o. split_and!; try done.
  - rewrite <- Hi in E. apply (w_table _ _ H r o Eo) in E as [?|?]; done.
  - by eapply obj_at.
  - destruct (closed s) eqn:Hc; [|done]. destruct (w_closed _ _ H Hc) as [E0 _]. by rewrite E0 in E.
Qed.

(** The state after a chunk of [n] bytes was queued. *)
Definition queued (y : sys) (r : nat) (o : stream_) (n : nat) : sys :=
  let s := ses y in
  MkSys (set_pool (S (bufs s)) (released s)
           (set_objs (<[r := o_inbound (inbound o ++ [MkChunk (bufs s) (take n (inp y))]) o]> (objs s)) s))
        (drop n (inp y)).

Lemma handle_PSH_open sid n y r o : swf (None, []) (ses y) -> streams (ses y) !! sid = Some r -> objs (ses y) !! r = Some o ->
  (0 < n <= length (inp y))%nat -> exists y' x, handle_PSH sid n y = (y', Ret x) /\
  if decide (length (inbound o) < inbound_cap)%nat then y' = queued y r o n /\ x = Loop else x = Block.
Proof.
  intros H Ht Eo Hn. destruct (in_table_open _ _ _ _ H Ht) as (o' & Eo' & Hi & Hc & W & Hcl). rewrite Eo in Eo'. injection Eo' as <-.
  unfold handle_PSH. rewrite decide_False by lia. pose proof (read_payload_ok n y) as R. cbv zeta in R.
  rewrite decide_True in R by lia. rewrite (st_bind_Ret _ _ _ _ _ R). cbv beta iota. st_pure.
  cbn [ses streams set_pool]. rewrite Ht. set (s1 := set_pool _ _ _).
  unfold enqueue. assert (E1 : objs s1 !! r = Some o) by done.
  assert (Hd : done_ s1 = false) by (cbn; by rewrite (w_done _ _ H)).
  case_decide as Hl.
  - eexists _, _. erewrite st_bind_Ret.
    2:{ apply on_ses_Ret. cbn [ses]. rewrite (st_bind_Ret _ _ _ _ _ (deref_ok _ _ _ E1)). st_pure. rewrite Hc, Hd.
        rewrite decide_True by done. rewrite (st_bind_Ret _ _ _ _ _ (update_ok r _ o s1 E1)). reflexivity. }
    split; [reflexivity|]. split; [|done]. unfold queued, s1. cbn. done.
  - eexists _, _. erewrite st_bind_Ret.
    2:{ apply on_ses_Ret. cbn [ses]. rewrite (st_bind_Ret _ _ _ _ _ (deref_ok _ _ _ E1)). st_pure. rewrite Hc, Hd.
        rewrite decide_False by done. rewrite (ow_ch _ W), Hc. reflexivity. }
    split; [reflexivity|done].
Qed.

Lemma swf_queued y r o n : swf (None, []) (ses y) -> objs (ses y) !! r = Some o ->
  (length (inbound o) < inbound_cap)%nat -> (0 < n <= length (inp y))%nat -> swf (None, []) (ses (queued y r o n)).
Proof.
  intros H E Hl Hn. pose proof (obj_at _ _ _ _ H E) as []. unfold queued. cbn [ses].
  eapply swf_obj_gen; try done.
  - constructor; cbn; try done.
    + apply Forall_app. split; [done|]. constructor; [|done]. cbn. intros E0%(f_equal length). revert E0. rewrite length_take. cbn. lia.
    + rewrite length_app. cbn. lia.
  - intros X P. rewrite seq_S, P. cbn [Nat.add]. unfold held. cbn [inbound readBufPB o_inbound].
    rewrite fmap_app, <- !app_assoc. cbn. do 3 apply Permutation_app_head.
    by rewrite Permutation_app_comm.
Qed.

Lemma handle_PSH_keeps sid n : keeps (handle_PSH sid n).
Proof.
  intros y H. destruct (decide (n = 0%nat)) as [->|Hn].
  { eexists _, _. unfold handle_PSH. rewrite decide_True by done. split; [reflexivity|done]. }
  destruct (decide (n <= length (inp y))%nat) as [Hl|Hl].
  2:{ unfold handle_PSH. rewrite decide_False by done. pose proof (read_payload_ok n y) as R. cbv zeta in R.
      rewrite decide_False in R by done. rewrite (st_bind_Ret _ _ _ _ _ R). eexists _, _. split; [reflexivity|].
      intros _. split; [by apply swf_get_put|done]. }
  destruct (streams (ses y) !! sid) as [r|] eqn:Et.
  - destruct (in_table_open _ _ _ _ H Et) as (o & Eo & _).
    destruct (handle_PSH_open sid n y r o H Et Eo) as (y' & x & E & Hx); [lia|]. exists y', x. split; [done|].
    case_decide; [|by subst x]. destruct Hx as [-> ->]. intros _. split; [apply swf_queued; try done; lia|]. cbn. by rewrite length_insert.
  - unfold handle_PSH. rewrite decide_False by done. pose proof (read_payload_ok n y) as R. cbv zeta in R.
    rewrite decide_True in R by done. rewrite (st_bind_Ret _ _ _ _ _ R). cbv beta iota. st_pure.
    cbn [ses streams set_pool]. rewrite Et. rewrite (st_bind_Ret _ _ _ _ _ (on_ses_Ret _ (MkSys _ _) _ _ eq_refl)).
    eexists _, _. split; [reflexivity|]. intros _. split; [exact (swf_get_put _ H)|done].
Qed.

Lemma handle_FIN_keeps sid : keeps (handle_FIN environment sid).
Proof.
  intros y H. unfold handle_FIN. st_pure. destruct (streams (ses y) !! sid) as [r|] eqn:Et; [|by eexists _, _].
  destruct (in_table_open _ _ _ _ H Et) as (o & Eo & Hi & Hc & W & Hcl).
  destruct (stream_remoteClose_ok environment [] (ses y) r o H Eo Hc) as (s' & E & W' & (_ & _ & _ & L) & _).
  rewrite (st_bind_Ret _ _ _ _ _ (on_ses_Ret _ y _ _ E)). by eexists _, _.
Qed.

Lemma swf_padding x p s : factory_wf p -> swf x s -> swf x (set_padding p s).
Proof. intros F []. by constructor. Qed.

Lemma handle_UpdatePaddingScheme_ok b fl s : swf (None, fl) s ->
  exists s', handle_UpdatePaddingScheme md5_hex range b s = (s', Ret tt) /\ swf (None, fl) s' /\ length (objs s') = length (objs s).
Proof.
  intros H. unfold handle_UpdatePaddingScheme. destruct (NewPaddingFactory md5_hex range b) as [p|] eqn:E; [|by exists s].
  eexists. split; [reflexivity|]. split; [|done]. apply swf_padding; [by eapply NewPaddingFactory_wf|done].
Qed.

Lemma handle_SYNACK_ok sid b fl s : swf (None, fl) s ->
  exists s', handle_SYNACK environment sid b s = (s', Ret tt) /\ swf (None, fl) s' /\ length (objs s') = length (objs s).
Proof.
  intros H. unfold handle_SYNACK. st_pure. destruct (streams s !! sid) as [r|] eqn:Et; [|by exists s].
  destruct (in_table_open _ _ _ _ H Et) as (o & Eo & _).
  destruct (closeLocal_ok environment fl s r o true ErrClosed H Eo) as (s' & E & W & (_ & _ & _ & L)).
  exists s'. rewrite (st_bind_Ret _ _ s s' (inl tt)) by (unfold try, stream_Close; by rewrite E). done.
Qed.

Lemma dispatch_keeps cmd sid len : keeps (dispatch environment md5_hex range cmd sid len).
Proof.
  intros y H. unfold dispatch. cbv zeta.
  assert (R : forall x, x <> Block -> exists y' x', (mret x : st sys next) y = (y', Ret x') /\
    (x' <> Block -> swf (None, []) (ses y') /\ length (objs (ses y')) = length (objs (ses y)))).
  { intros x Hx. by exists y, x. }
  assert (Nop : forall n, keeps (handle_payload n (fun _ => mret tt))).
  { intros n. apply handle_payload_keeps. intros b fl s W. by exists s. }
  destruct (decide (_ /\ _)); [by apply R|].
  case_decide.
  { unfold try, on_inp, mbind, st_bind, discard. cbn. case_decide; by eexists _, _. }
  case_decide; [by apply handle_PSH_keeps|]. case_decide; [by apply Nop|]. case_decide; [by apply handle_FIN_keeps|].
  case_decide.
  { case_decide; [|by apply R]. apply handle_payload_keeps; [|done]. intros; by apply handle_UpdatePaddingScheme_ok. }
  case_decide.
  { case_decide; [|by apply R]. apply handle_payload_keeps; [|done]. intros; by apply handle_SYNACK_ok. }
  case_decide; [case_decide; [by apply Nop|by apply R]|].
  case_decide.
  { destruct (writeFrame_write_only (newFrame cmdHeartResponse sid) (ses y) (w_pad _ _ H)) as (s' & res & E & C & N).
    unfold try, on_ses, mbind, st_bind. rewrite E. pose proof (swf_core _ _ _ C H) as W.
    pose proof (core_objs _ _ C) as O. destruct res; [eexists _, _; (split; [reflexivity|]); intros _; cbn; by rewrite O..|done]. }
  case_decide; [|by apply R].
  eexists _, _. split; [reflexivity|]. intros _. cbn [ses]. split; [|done]. destruct H. by constructor.
Qed.

(** The seven bytes of a header. *)
Lemma header_shape (h : list byte) : length h = 7%nat -> exists c i1 i2 i3 i4 l1 l2,
  h = [c; i1; i2; i3; i4; l1; l2] /\ Cmd h = Ret c /\ StreamID h = Ret (be_get [i1; i2; i3; i4]) /\
  AnyTlsFrame.Length h = Ret (be_get [l1; l2]).
Proof.
  intros L. destruct h as [|c [|i1 [|i2 [|i3 [|i4 [|l1 [|l2 [|]]]]]]]]; try done.
  exists c, i1, i2, i3, i4, l1, l2. done.
Qed.

Lemma run_step_keeps : keeps (run_step environment md5_hex range).
Proof.
  intros y H. unfold run_step. st_pure. destruct (closed (ses y)); [by eexists _, _|].
  unfold try, on_inp. unfold mbind at 1, st_bind at 1. pose proof (safe_readFull headerOverHeadSize (inp y)) as S.
  destruct (readFull headerOverHeadSize (inp y)) as [i [h|e|]] eqn:E; [|by eexists _, _|done].
  apply readFull_length in E as [_ L]. destruct (header_shape h L) as (c & i1 & i2 & i3 & i4 & l1 & l2 & _ & E1 & E2 & E3).
  rewrite (st_lift_Ret _ _ _ _ E2), (st_lift_Ret _ _ _ _ E3), (st_lift_Ret _ _ _ _ E1).
  apply (dispatch_keeps _ _ _ (MkSys (ses y) i) H).
Qed.

Lemma run_round_keeps : keeps (run_round environment md5_hex range).
Proof.
  intros y H. unfold run_round. destruct (run_step_keeps y H) as (y' & x & E & W). rewrite (st_bind_Ret _ _ _ _ _ E).
  destruct x as [|e|]; [exists y', Loop; auto| |by exists y', Block].
  destruct (session_Close_ok [] (ses y') (proj1 (W ltac:(done)))) as (s2 & E2 & W2 & _ & _ & L2 & _).
  rewrite (st_bind_Ret _ _ _ _ _ (on_ses_Ret _ y' _ _ E2)). eexists _, _. split; [reflexivity|]. intros _. cbn.
  split; [done|]. rewrite L2. by apply W.
Qed.

(** ** Datagrams *)

Lemma only_obj_trans r o1 o2 s s1 s2 : only_obj r o1 s s1 -> only_obj r o2 s1 s2 -> only_obj r o2 s s2.
Proof. intros [O1 C1] [O2 C2]. split; [by rewrite O2, O1, list_insert_insert_eq|congruence]. Qed.

(** What a read of several chunks does: the bytes [got] leave the stream. *)
Definition full_outcome (o o' : stream_) (n : nat) (acc got : list byte) (e : option error) (fin : bool) : Prop :=
  view o = got ++ view o' /\ id_ o' = id_ o /\ st_closed o' = st_closed o /\
  match e, fin with
  | None, true => (n <= length (acc ++ got))%nat /\ (length acc <= n -> length (acc ++ got) = n)%nat
  | None, false => view o' = [] /\ st_closed o = false /\ (length (acc ++ got) < n)%nat
  | Some _, _ => fin = true /\ view o' = [] /\ (length (acc ++ got) < n)%nat
  end.

Lemma readFullLocked_ok x fuel r n : forall acc s o, swf x s -> objs s !! r = Some o -> (n <= length acc + fuel)%nat ->
  exists s' o' got e fin, readFullLocked environment fuel r n acc s = (s', Ret (acc ++ got, e, fin)) /\ swf x s' /\
    only_obj r o' s s' /\ full_outcome o o' n acc got e fin.
Proof.
  assert (Stop : forall acc s o e fin, swf x s -> objs s !! r = Some o ->
    full_outcome o o n acc [] e fin -> exists s' o' got e' fin', (s, Ret (acc, e, fin)) = (s', Ret (acc ++ got, e', fin')) /\ swf x s' /\
    only_obj r o' s s' /\ full_outcome o o' n acc got e' fin').
  { intros acc s o e fin H E F. exists s, o, [], e, fin. rewrite app_nil_r. split_and!; try done. by apply only_obj_id. }
  induction fuel as [|fuel IH]; intros acc s o H E Hf; cbn [readFullLocked].
  { rewrite decide_False by lia. eapply Stop; try done. unfold full_outcome. rewrite app_nil_r. split_and!; try done; lia. }
  destruct (decide (length acc < n)%nat) as [Hn|Hn].
  2:{ eapply Stop; try done. unfold full_outcome. rewrite app_nil_r. split_and!; try done; lia. }
  destruct (readLocked_ok environment x s r o (n - length acc) H E ltac:(lia)) as (s1 & out & o1 & E1 & W1 & O1 & I1 & C1 & R1).
  rewrite (st_bind_Ret _ _ _ _ _ E1). destruct out as [b|e|]; cbn [read_outcome] in R1.
  - destruct R1 as (Hb & Hk & Hv).
    assert (L1 : objs s1 !! r = Some o1) by (rewrite (proj1 O1); apply list_lookup_insert_eq; by eapply lookup_lt_Some).
    assert (0 < length b)%nat by (destruct b; [done|cbn; lia]).
    destruct (IH (acc ++ b) s1 o1 W1 L1) as (s2 & o2 & got & e & fin & E2 & W2 & O2 & (V2 & I2 & C2 & F2)); [len|].
    exists s2, o2, (b ++ got), e, fin. rewrite app_assoc. split_and!; try done; [by eapply only_obj_trans|].
    unfold full_outcome. rewrite app_assoc. split_and!; [by rewrite Hv, V2, app_assoc|congruence|congruence|].
    destruct e, fin; try done.
    + destruct F2 as [F2 F3]. split; [done|]. intros. apply F3. len.
    + destruct F2 as (? & ? & ?). split_and!; try done. congruence.
  - destruct R1 as (Hv & -> & _). exists s1, o, [], (Some e), true. rewrite app_nil_r.
    split_and!; try done. all: unfold full_outcome; rewrite ?Hv, ?app_nil_r; by split_and!.
  - destruct R1 as (Hv & -> & Hc). exists s1, o, [], None, false. rewrite app_nil_r.
    split_and!; try done. all: unfold full_outcome; rewrite ?Hv, ?app_nil_r; by split_and!.
Qed.

(** A datagram on the stream; part of one. *)
Definition dgram_bytes (b : list byte) : list byte := be16 (Z.of_nat (length b)) ++ b.
Definition partial_dgram (p : list byte) : Prop :=
  (length p < 2 + Z.to_nat (be_get (take 2 p)))%nat \/ (length p < 2)%nat.

(** The outcome of a datagram read on the bytes consumed so far followed by
    those of the stream. *)
Definition dgram_outcome (ps ps' : packetStream) (o o' : stream_) (plen : nat) (out : dgram) : Prop :=
  let all := ps_pending ps ++ view o in
  match out with
  | Datagram b a => a = ps_addrPort ps /\ ps_pending ps' = [] /\ (length b <= plen)%nat /\ Z.of_nat (length b) < 65536 /\
      all = dgram_bytes b ++ view o'
  | DErr e a => ps_pending ps' = [] /\
      ((e = DatagramDropped ErrShortBuffer /\ exists b, (plen < length b)%nat /\ Z.of_nat (length b) < 65536 /\ all = dgram_bytes b ++ view o') \/
       (view o' = [] /\ partial_dgram all))
  | DWait => ps_pending ps' = all /\ view o' = [] /\ partial_dgram all /\ st_closed o = false
  end.

Lemma dgram_split (all : list byte) : (2 <= length all)%nat ->
  let len := Z.to_nat (be_get (take 2 all)) in (length all = 2 + len)%nat ->
  all = dgram_bytes (drop 2 all) /\ length (drop 2 all) = len /\ Z.of_nat len < 65536.
Proof.
  intros L. cbv zeta. destruct all as [|a [|b all]]; [cbn in L; lia..|]. change (take 2 (a :: b :: all)) with [a; b].
  change (drop 2 (a :: b :: all)) with all. cbn [length]. intros E.
  pose proof (be_get2_range a b). unfold dgram_bytes.
  split_and!; [|lia|lia]. replace (Z.of_nat (length all)) with (be_get [a; b]) by lia. by rewrite be16_get.
Qed.

Lemma partial_short p q : partial_dgram (p ++ q) -> partial_dgram p \/ (2 <= length p)%nat.
Proof. intros _. destruct (decide (2 <= length p)%nat); [by right|]. left. right. lia. Qed.

Lemma packet_ReadFrom_ok x s ps o plen : swf x s -> objs s !! ps_stream ps = Some o -> partial_dgram (ps_pending ps) ->
  exists s' o' ps' out, packet_ReadFrom environment ps plen s = (s', Ret (ps', out)) /\ swf x s' /\
    only_obj (ps_stream ps) o' s s' /\ id_ o' = id_ o /\ st_closed o' = st_closed o /\
    (exists p, ps' = ps_set_pending p ps) /\ partial_dgram (ps_pending ps') /\ dgram_outcome ps ps' o o' plen out.
Proof.
  clear md5_hex range SplitHostPort ParseIP.
  intros H E Hp. unfold packet_ReadFrom. set (r := ps_stream ps) in *. set (pend := ps_pending ps) in *.
  assert (P0 : partial_dgram []) by (right; cbn; lia).
  (* the header *)
  assert (Hd : exists s1 o1 got e fin,
    (if decide (length pend < 2)%nat then readFullLocked environment 2 r 2 pend else mret (pend, None, true)) s = (s1, Ret (pend ++ got, e, fin)) /\
    swf x s1 /\ only_obj r o1 s s1 /\ view o = got ++ view o1 /\ id_ o1 = id_ o /\ st_closed o1 = st_closed o /\
    match e, fin with
    | None, true => (2 <= length (pend ++ got))%nat /\ (got = [] \/ length (pend ++ got) = 2)%nat
    | None, false => view o1 = [] /\ st_closed o = false /\ (length (pend ++ got) < 2)%nat
    | Some _, _ => view o1 = [] /\ (length (pend ++ got) < 2)%nat
    end).
  { case_decide as Hl.
    - destruct (readFullLocked_ok x 2 r 2 pend s o H E) as (s1 & o1 & got & e & fin & E1 & W1 & O1 & V & I & C & F); [lia|].
      exists s1, o1, got, e, fin. split; [done|]. do 5 (split; [done|]).
      destruct e, fin; [tauto|by destruct F| |exact F]. destruct F as [? F]. split; [done|]. right. apply F. lia.
    - exists s, o, [], None, true. rewrite app_nil_r. split_and!; try done; first [by apply only_obj_id | lia | by left]. }
  destruct Hd as (s1 & o1 & got & e & fin & E1 & W1 & O1 & V1 & I1 & C1 & F1). rewrite (st_bind_Ret _ _ _ _ _ E1). cbv beta iota.
  destruct e as [e|].
  { eexists _, o1, _, _. split; [reflexivity|]. split_and!; try done; [by eexists|].
    cbn. split; [done|]. right. destruct F1 as [V0 L]. split; [done|]. fold pend. rewrite V1, V0, app_nil_r. by right. }
  destruct fin; cbn [negb].
  2:{ destruct F1 as (V0 & Hc & L). eexists _, o1, _, _. split; [reflexivity|]. split_and!; try done; [by eexists|by right|].
      cbn. fold pend. rewrite V1, V0, app_nil_r. split_and!; try done. by right. }
  destruct F1 as [L2 Lg]. set (hdr := pend ++ got) in *. set (len := Z.to_nat (be_get (take 2 hdr))).
  assert (E1' : objs s1 !! r = Some o1) by (rewrite (proj1 O1); apply list_lookup_insert_eq; by eapply lookup_lt_Some).
  assert (Hle : (length hdr <= 2 + len)%nat).
  { destruct Lg as [-> | ->]; [|lia]. unfold len, hdr. rewrite app_nil_r in *. destruct Hp as [?|?]; lia. }
  destruct (readFullLocked_ok x len r (2 + len) hdr s1 o1 W1 E1') as (s2 & o2 & got2 & e & fin & E2 & W2 & O2 & V2 & I2 & C2 & F2); [lia|].
  rewrite (st_bind_Ret _ _ _ _ _ E2). cbv beta iota.
  assert (Hall : pend ++ view o = (hdr ++ got2) ++ view o2) by (unfold hdr; by rewrite V1, V2, <- !app_assoc).
  assert (Ht : take 2 (hdr ++ got2) = take 2 hdr) by by rewrite take_app_le.
  assert (Part : (length (hdr ++ got2) < 2 + len)%nat -> partial_dgram (hdr ++ got2)) by (intros; left; rewrite Ht; fold len; lia).
  assert (O : only_obj r o2 s s2) by by eapply only_obj_trans.
  assert (I : id_ o2 = id_ o) by congruence. assert (C : st_closed o2 = st_closed o) by congruence.
  destruct e as [e|].
  { destruct F2 as (_ & V0 & Lp). eexists _, o2, _, _. split; [reflexivity|]. split_and!; try done; [by eexists|].
    cbn. split; [done|]. right. split; [done|]. fold pend. rewrite Hall, V0, app_nil_r. by apply Part. }
  destruct fin; cbn [negb].
  2:{ destruct F2 as (V0 & Hc & Lp). eexists _, o2, _, _. split; [reflexivity|]. split_and!; try done; [by eexists|by apply Part|].
      cbn. fold pend. rewrite Hall, V0, app_nil_r. split_and!; try done; [by apply Part|congruence]. }
  destruct F2 as [_ Lf]. specialize (Lf Hle). destruct (dgram_split (hdr ++ got2)) as (Ed & Ld & Lm); [len|rewrite Ht; done|].
  rewrite Ht in Ld, Lm. fold len in Ld, Lm.
  destruct (decide (plen < len)%nat) as [Hs|Hs]; eexists _, o2, _, _; (split; [reflexivity|]); split_and!; try done; try (by eexists); cbn; fold pend.
  - split; [done|]. left. split; [done|]. exists (drop 2 (hdr ++ got2)). rewrite Ld, <- Ed. split_and!; [lia..|done].
  - rewrite Ld, <- Ed. split_and!; [done|done|lia..|done].
Qed.
End session_ops.
