(* ===== verification/AnyTlsWorld.v ===== *)
(** AnyTLS end to end: a session with its streams and packet streams under any
    interleaving of the read loop and the users' calls.  The state invariant
    holds in every reachable state. *)

From S2P Require Import Prelude GoStrings NetIP GoState Common Pool Socks Transport AnyTlsPadding AnyTlsFrame AnyTlsSession AnyTlsInv.

Section world.
Context {BS : BufferSource} (environment : nat -> wenv).
Context (md5_hex : list byte -> list byte) (range : gmap (list byte) (list byte) -> list (list byte * list byte)).
Context (SplitHostPort : list byte -> res (list byte * list byte)) (ParseIP : list byte -> list byte).
Context (ParseAddrPort : list byte -> AddrPort).
(** [net.SplitHostPort] returns; [net.ParseIP] returns nil or 16 bytes. *)
Hypothesis Split_total : forall s, SplitHostPort s <> Panic.
Hypothesis ParseIP_length : forall h, ParseIP h = [] \/ length (ParseIP h) = 16%nat.

Lemma ParseAddr_total s : ParseAddr SplitHostPort ParseIP s <> Panic.
Proof.
  rewrite (ParseAddr_spec _ _ ParseIP_length). specialize (Split_total s).
  destruct (SplitHostPort s) as [[h p]|e|]; [|done..]. by repeat case_match.
Qed.

(** * Datagram writes *)

(** The bytes of a datagram on the stream, after the target for the first. *)
Definition packet_bytes (t : option (list byte)) (p : list byte) : list byte :=
  match t with Some t => [x01] ++ t ++ dgram_bytes p | None => dgram_bytes p end.

Lemma packet_data_ok t p : packet_data t p = Ret (packet_bytes t p).
Proof.
  unfold packet_data, packet_bytes, dgram_bytes. destruct t as [t|]; set (b := src_get _).
  - assert (Hb : length b = (1 + length t + 2 + length p)%nat) by apply src_length.
    rewrite set_at_0, bind_ret by lia. rewrite (copy_at_app [x01]), bind_ret by len.
    rewrite (write_at_app ([x01] ++ _)), bind_ret by len. rewrite (copy_at_app (([x01] ++ _) ++ _)), bind_ret by len.
    rewrite drop_ge by len. by rewrite app_nil_r, <- !app_assoc.
  - assert (Hb : length b = (2 + length p)%nat) by apply src_length.
    rewrite (write_at_app [] _ b 0), bind_ret by len. cbn [app]. rewrite (copy_at_app (be16 _)), bind_ret by len.
    rewrite drop_ge by len. by rewrite app_nil_r.
Qed.

Definition batch_bytes (t : option (list byte)) (items : list (list byte * list byte)) : list (list byte) :=
  match items with
  | [] => []
  | (p, _) :: items => packet_bytes t p :: ((fun it => dgram_bytes it.1) <$> items)
  end.

Lemma batch_data_ok t items : batch_data t items = Ret (batch_bytes t items).
Proof.
  assert (N : batch_data None items = Ret ((fun it => dgram_bytes it.1) <$> items)).
  { induction items as [|[p a] items IH]; [done|]. cbn [batch_data]. by rewrite packet_data_ok, bind_ret, IH. }
  destruct items as [|[p a] items]; [done|]. cbn [batch_data] in *. rewrite packet_data_ok, bind_ret in *.
  destruct (batch_data None items) as [ds|e|]; [|done..]. cbn in N. cbn. by simplify_eq.
Qed.

(** The target announced by the next datagram. *)
Definition announce (ps : packetStream) (addr : list byte) : res (option (list byte)) :=
  if udpWriteAddr ps then Ret None else Some <$> ParseAddr SplitHostPort ParseIP addr.

Lemma try_announce ps addr (s : session) :
  try (if udpWriteAddr ps then mret None else lift (Some <$> ParseAddr SplitHostPort ParseIP addr)) s =
    (s, match announce ps addr with Ret t => Ret (inl t) | Fail e => Ret (inr e) | Panic => Panic end).
Proof.
  unfold announce, try. destruct (udpWriteAddr ps); [done|]. unfold lift. by destruct (ParseAddr SplitHostPort ParseIP addr).
Qed.

Lemma announce_total ps addr : announce ps addr <> Panic.
Proof.
  unfold announce. destruct (udpWriteAddr ps); [done|]. pose proof (ParseAddr_total addr).
  by destruct (ParseAddr SplitHostPort ParseIP addr).
Qed.

Definition same_reader (ps ps' : packetStream) : Prop :=
  ps_stream ps' = ps_stream ps /\ ps_pending ps' = ps_pending ps /\ ps_addrPort ps' = ps_addrPort ps.

Lemma packet_WriteTo_core x s ps o p addr : swf x s -> objs s !! ps_stream ps = Some o -> exists s' ps' n e,
  packet_WriteTo environment SplitHostPort ParseIP ps p addr s = (s', Ret (ps', (n, e))) /\ core s' = core s /\ same_reader ps ps'.
Proof.
  intros H E. unfold packet_WriteTo. rewrite (st_bind_Ret _ _ _ _ _ (deref_ok _ _ _ E)).
  destruct (st_closed o); [by eexists _, _, _, _|]. case_decide; [by eexists _, _, _, _|].
  unfold mbind at 1, st_bind at 1. rewrite try_announce. pose proof (announce_total ps addr) as T.
  destruct (announce ps addr) as [t|e|]; [|by eexists _, _, _, _|done].
  rewrite (st_lift_Ret _ _ _ _ (packet_data_ok t p)).
  destruct (writeDataFrames_core environment (id_ o) (packet_bytes t p) (writeDeadline o) s) as (s' & n & e & E2 & C).
  { pose proof (id_range _ _ _ _ H E). lia. } { apply H. }
  rewrite (st_bind_Ret _ _ _ _ _ E2). destruct e; by eexists _, _, _, _.
Qed.

Lemma writeDataFramesBatch_core sid ds dl s : 0 <= sid < 2 ^ 32 -> factory_wf (padding s) ->
  write_only (writeDataFramesBatch environment sid ds dl) s.
Proof.
  intros Hs F. destruct (closed s) eqn:Hc.
  - destruct (batch_frames_ok sid ds Hs) as (_ & P & _). unfold write_only, writeDataFramesBatch.
    change (ds ≫= (fun d => split_data (length d) sid d 0)) with (ds ≫= data_frames sid).
    rewrite frame_sizes_ok by by apply plain_small. st_pure. cbv beta iota. case_decide; [by eexists _, _|].
    exists s, (Fail ErrClosed). split; [|done]. erewrite st_bind_Fail; [done|]. unfold checkOpen. st_pure. by rewrite Hc.
  - destruct (writeDataFramesBatch_spec environment sid ds dl s Hs F Hc) as (s' & r & E & Hr & S & _).
    exists s', r. split; [done|]. split; [apply S|]. by destruct Hr as [-> | [e ->]].
Qed.

Lemma packet_WriteBatch_core x s ps o items : swf x s -> objs s !! ps_stream ps = Some o -> exists s' ps' n e,
  packet_WriteBatch environment SplitHostPort ParseIP ps items s = (s', Ret (ps', (n, e))) /\ core s' = core s /\ same_reader ps ps'.
Proof.
  intros H E. unfold packet_WriteBatch. destruct items as [|[p0 addr0] items]; [by eexists _, _, _, _|].
  case_decide; [by eexists _, _, _, _|]. rewrite (st_bind_Ret _ _ _ _ _ (deref_ok _ _ _ E)).
  destruct (st_closed o); [by eexists _, _, _, _|]. set (addr := if decide (addr0 = []) then _ else _).
  unfold mbind at 1, st_bind at 1. rewrite try_announce. pose proof (announce_total ps addr) as T.
  destruct (announce ps addr) as [t|e|]; [|by eexists _, _, _, _|done].
  rewrite (st_lift_Ret _ _ _ _ (batch_data_ok t _)).
  destruct (write_only_try _ s (writeDataFramesBatch_core (id_ o) (batch_bytes t ((p0, addr0) :: items)) (writeDeadline o) s
    ltac:(pose proof (id_range _ _ _ _ H E); lia) (w_pad _ _ H))) as (s' & y & E2 & C).
  rewrite (st_bind_Ret _ _ _ _ _ E2). destruct y; by eexists _, _, _, _.
Qed.

(** * Worlds *)

(** The session with its input, and the packet streams on it. *)
Record world := MkW { w_sys : sys; w_ps : list packetStream }.
Abbreviation ses_of w := (ses (w_sys w)).

Inductive act :=
  | ARun | AProbe | AProbeWait (timer : bool) | ASessClose
  | AOpen (addr : list byte) | AOpenPacket (addr packetAddr : list byte)
  | AWrite (r : nat) (b : list byte) | ARead (r k : nat) | AClose (r : nat) | ACloseWrite (r : nat)
  | AReadDeadline (r : nat) (t : Z) | AWriteDeadline (r : nat) (t : Z)
  | APWrite (p : nat) (b addr : list byte) | APBatch (p : nat) (items : list (list byte * list byte)) | APRead (p plen : nat).

Inductive out :=
  | ODone | OErr (e : error) | OBytes (b : list byte) | OCount (n : nat) (e : option error) | ODgram (d : dgram) | ORun (x : next).

(** A step of the session; [k] says what the caller sees, [None] that the call
    is still blocked. *)
Definition on_session {A} (w : world) (m : st session A) (k : A -> option (list packetStream * out)) : res (option (world * out)) :=
  match m (ses_of w) with
  | (s, Ret a) =>
      match k a with
      | None => Ret None
      | Some (ps, o) => Ret (Some (MkW (MkSys s (inp (w_sys w))) ps, o))
      end
  | (s, Fail e) => Ret (Some (MkW (MkSys s (inp (w_sys w))) (w_ps w), OErr e))
  | (_, Panic) => Panic
  end.

(** A call on the stream [r], if there is such a stream. *)
Definition on_stream {A} (w : world) (r : nat) (m : st session A) (k : A -> option out) : res (option (world * out)) :=
  match objs (ses_of w) !! r with
  | None => Ret None
  | Some _ => on_session w m (fun a => o ← k a; Some (w_ps w, o))
  end.

Definition on_packet {A} (w : world) (p : nat) (m : packetStream -> st session (packetStream * A)) (k : A -> out)
    : res (option (world * out)) :=
  match w_ps w !! p with
  | None => Ret None
  | Some ps => on_session w (m ps) (fun '(ps', a) => Some (<[p := ps']> (w_ps w), k a))
  end.

Definition exec (a : act) (w : world) : res (option (world * out)) :=
  match a with
  | ARun =>
      match run_round environment md5_hex range (w_sys w) with
      | (_, Ret Block) => Ret None
      | (y, Ret x) => Ret (Some (MkW y (w_ps w), ORun x))
      | (y, Fail e) => Ret (Some (MkW y (w_ps w), OErr e))
      | (_, Panic) => Panic
      end
  | AProbe => on_session w (probe_request environment) (fun _ => Some (w_ps w, ODone))
  | AProbeWait timer => on_session w (probe_wait timer) (fun x => match x with None => None | Some _ => Some (w_ps w, ODone) end)
  | ASessClose => on_session w session_Close (fun _ => Some (w_ps w, ODone))
  | AOpen addr => on_session w (newStream environment SplitHostPort ParseIP addr) (fun _ => Some (w_ps w, ODone))
  | AOpenPacket addr pa =>
      on_session w (newPacketStream environment SplitHostPort ParseIP ParseAddrPort addr pa) (fun ps => Some (w_ps w ++ [ps], ODone))
  | AWrite r b => on_stream w r (stream_Write environment r b) (fun '(n, e) => Some (OCount n e))
  | ARead r k => on_stream w r (stream_Read environment r k)
      (fun x => match x with Got b => Some (OBytes b) | RErr e => Some (OErr e) | Wait => None end)
  | AClose r => on_stream w r (stream_Close environment r) (fun _ => Some ODone)
  | ACloseWrite r => on_stream w r (stream_CloseWrite environment r) (fun _ => Some ODone)
  | AReadDeadline r t => on_stream w r (SetReadDeadline r t) (fun _ => Some ODone)
  | AWriteDeadline r t => on_stream w r (SetWriteDeadline r t) (fun _ => Some ODone)
  | APWrite p b addr => on_packet w p (fun ps => packet_WriteTo environment SplitHostPort ParseIP ps b addr) (fun '(n, e) => OCount n e)
  | APBatch p items => on_packet w p (fun ps => packet_WriteBatch environment SplitHostPort ParseIP ps items) (fun '(n, e) => OCount n e)
  | APRead p plen => on_packet w p (fun ps => packet_ReadFrom environment ps plen) ODgram
  end.

(** Any interleaving of enabled steps. *)
Inductive reaches (w : world) : list (act * out) -> world -> Prop :=
  | reaches_here : reaches w [] w
  | reaches_step tr w1 a o w2 : reaches w tr w1 -> exec a w1 = Ret (Some (w2, o)) -> reaches w (tr ++ [(a, o)]) w2.

(** The calls in turn, with what each returned; none of them blocks. *)
Fixpoint play (acts : list act) (w : world) : option (list (act * out) * world) :=
  match acts with
  | [] => Some ([], w)
  | a :: acts =>
      match exec a w with
      | Ret (Some (w1, o)) => '(tr, w2) ← play acts w1; Some ((a, o) :: tr, w2)
      | _ => None
      end
  end.

Lemma reaches_cons w a o w1 tr w2 : exec a w = Ret (Some (w1, o)) -> reaches w1 tr w2 -> reaches w ((a, o) :: tr) w2.
Proof.
  intros E. induction 1 as [|tr w2 a2 o2 w3 _ IH E2]; [apply (reaches_step w [] w); [constructor|done]|].
  by apply (reaches_step w ((a, o) :: tr) w2).
Qed.

Lemma play_reaches acts : forall w tr w', play acts w = Some (tr, w') -> reaches w tr w'.
Proof.
  induction acts as [|a acts IH]; intros w tr w' E; cbn [play] in E; [injection E as <- <-; constructor|].
  destruct (exec a w) as [[[w1 o]|]| |] eqn:Ea; [|done..]. apply bind_Some in E as ([tr' w2] & E & [= <- <-]).
  eapply reaches_cons; [done|by apply IH].
Qed.

(** * The invariant *)

Definition ps_wf (s : session) (ps : packetStream) : Prop :=
  is_Some (objs s !! ps_stream ps) /\ partial_dgram (ps_pending ps).
Definition winv (w : world) : Prop := swf (None, []) (ses_of w) /\ Forall (ps_wf (ses_of w)) (w_ps w).

Lemma ps_wf_mono s s' l : (forall r, is_Some (objs s !! r) -> is_Some (objs s' !! r)) -> Forall (ps_wf s) l -> Forall (ps_wf s') l.
Proof. intros M F. eapply Forall_impl; [exact F|]. intros ps [? ?]. split; [by apply M|done]. Qed.

(** A session step that keeps the session's invariant and loses no stream. *)
Definition fine {A} (w : world) (m : st session A) (P : A -> session -> Prop) : Prop :=
  exists s r, m (ses_of w) = (s, r) /\ r <> Panic /\ swf (None, []) s /\
    (length (objs (ses_of w)) <= length (objs s) <= S (length (objs (ses_of w))))%nat /\ (forall a, r = Ret a -> P a s).

(** The next world, when the step is enabled, is well formed and has at most
    one more stream. *)
Definition next_ok (w : world) (r : res (option (world * out))) : Prop :=
  match r with
  | Panic => False
  | Fail _ => False
  | Ret None => True
  | Ret (Some (w', _)) => winv w' /\ (length (objs (ses_of w')) <= S (length (objs (ses_of w))))%nat
  end.

Lemma fine_step {A} w (m : st session A) k : winv w ->
  fine w m (fun a s => forall ps o, k a = Some (ps, o) -> Forall (ps_wf s) ps) -> next_ok w (on_session w m k).
Proof.
  intros [W F] (s & r & E & N & W' & L & P). unfold on_session. rewrite E.
  assert (M : Forall (ps_wf s) (w_ps w)).
  { eapply ps_wf_mono; [|exact F]. intros r'. rewrite !lookup_lt_is_Some. lia. }
  destruct r as [a|e|]; [|cbn; split; [by split|cbn; lia]|done].
  destruct (k a) as [[ps o]|] eqn:Ek; [|done]. cbn. split; [split; [done|]|cbn; lia]. by eapply P.
Qed.

(** The packet streams stay. *)
Lemma fine_same {A} w (m : st session A) k : winv w -> fine w m (fun _ _ => True) ->
  (forall a ps o, k a = Some (ps, o) -> ps = w_ps w) -> next_ok w (on_session w m k).
Proof.
  intros I (s & x & E1 & N & W & L & _) Hk. apply fine_step; [done|]. exists s, x. split_and!; try done; try lia.
  intros a _ ps o ->%Hk. eapply ps_wf_mono; [|apply I]. intros r'. rewrite !lookup_lt_is_Some. lia.
Qed.

Lemma fine_stream {A} w r (m : st session A) k : winv w ->
  (forall o, objs (ses_of w) !! r = Some o -> fine w m (fun _ _ => True)) -> next_ok w (on_stream w r m k).
Proof.
  intros I H. unfold on_stream. destruct (objs (ses_of w) !! r) as [o|] eqn:E; [|done].
  apply fine_same; [done|by eapply H|]. intros a ps o' Hk. destruct (k a); by simplify_eq/=.
Qed.

Lemma fine_packet {A} w p (m : packetStream -> st session (packetStream * A)) k : winv w ->
  (forall ps, w_ps w !! p = Some ps -> ps_wf (ses_of w) ps -> fine w (m ps) (fun x s => ps_wf s x.1)) -> next_ok w (on_packet w p m k).
Proof.
  intros I H. unfold on_packet. destruct (w_ps w !! p) as [ps|] eqn:E; [|done].
  pose proof (Forall_lookup_1 _ _ _ _ (proj2 I) E) as Wp.
  apply fine_step; [done|]. destruct (H ps eq_refl Wp) as (s & x & E1 & N & W & L & P). exists s, x. split_and!; try done; try lia.
  intros [ps' a] Hx l o [= <- <-]. apply Forall_insert; [|by apply (P (ps', a))].
  eapply ps_wf_mono; [|apply I]. intros r'. rewrite !lookup_lt_is_Some. lia.
Qed.

(** Steps that only write, and steps that change one object. *)
Lemma fine_core {A} w (m : st session A) (P : A -> session -> Prop) s r : winv w -> m (ses_of w) = (s, r) -> r <> Panic ->
  core s = core (ses_of w) -> (forall a, r = Ret a -> P a s) -> fine w m P.
Proof.
  intros I E N C H. exists s, r. rewrite (core_objs _ _ C). split_and!; try done; try lia. eapply swf_core; [exact C|apply I].
Qed.

Lemma fine_obj {A} w (m : st session A) (P : A -> session -> Prop) r o' s x : m (ses_of w) = (s, x) -> x <> Panic ->
  swf (None, []) s -> only_obj r o' (ses_of w) s -> (forall a, x = Ret a -> P a s) -> fine w m P.
Proof. intros E N W [O _] H. exists s, x. rewrite O, length_insert. split_and!; try done; lia. Qed.

Lemma swf_chans s hr : swf (None, []) s -> swf (None, []) (set_chans (closeStreamChan s) hr s).
Proof. intros []. by constructor. Qed.

Lemma fine_probe w : winv w -> fine w (probe_request environment) (fun _ _ => True).
Proof.
  intros I. unfold probe_request, fine. destruct (closed (ses_of w)) eqn:Hc.
  { exists (ses_of w), (Ret false). st_pure. rewrite Hc. split_and!; try done; try lia. apply I. }
  st_pure. rewrite Hc. st_pure. pose proof (swf_chans (ses_of w) false (proj1 I)) as W. set (s1 := set_chans _ _ _) in *.
  destruct (write_only_try _ _ (writeFrame_write_only environment (newFrame cmdHeartRequest 0) s1 (w_pad _ _ W))) as (s2 & x & E & C).
  rewrite (st_bind_Ret _ _ _ _ _ E). pose proof (core_objs _ _ C) as O. cbn in O.
  destruct x; eexists s2, _; (split; [reflexivity|]); rewrite O; split_and!; try done; try lia; by eapply swf_core.
Qed.

Lemma fine_probe_wait w t : winv w -> fine w (probe_wait t) (fun _ _ => True).
Proof.
  intros I. unfold probe_wait, fine. st_pure. destruct (heartResponseCh (ses_of w)).
  { st_pure. eexists _, _. split; [reflexivity|]. split_and!; try done; try (cbn; lia). by apply swf_chans, I. }
  destruct (_ || _); eexists (ses_of w), _; (split; [reflexivity|]); split_and!; try done; try apply I; lia.
Qed.

Lemma fine_deadline w r o f : winv w -> objs (ses_of w) !! r = Some o ->
  (forall o, exists a b c, f o = o_deadlines a b c o) -> fine w (update r f) (fun _ _ => True).
Proof.
  intros I E Hf. destruct (Hf o) as (a & b & c & Eo). eapply (fine_obj w _ _ r (f o)); [by apply update_ok|done| |split; done|auto].
  pose proof (obj_at _ _ _ _ (proj1 I) E) as []. rewrite Eo. eapply swf_obj'; try done; first [exact (proj1 I) | by constructor].
Qed.

Lemma fine_newStream w addr P : winv w -> Z.of_nat (length (objs (ses_of w))) + 1 < 2 ^ 32 ->
  (forall r s, is_Some (objs s !! r) -> P r s) -> fine w (newStream environment SplitHostPort ParseIP addr) P.
Proof.
  intros I Hf HP. destruct (newStream_ok environment SplitHostPort ParseIP (ses_of w) addr (proj1 I) Hf (ParseAddr_total addr))
    as (s' & res & E & N & W & _ & L & _ & R).
  exists s', res. split_and!; try done; try lia. intros r ->. apply HP. destruct (R r eq_refl) as [_ ->]. done.
Qed.

Lemma exec_ok a w : winv w -> Z.of_nat (length (objs (ses_of w))) + 1 < 2 ^ 32 -> next_ok w (exec a w).
Proof.
  intros I Hf. destruct a; cbn [exec].
  - destruct (run_round_keeps environment md5_hex range (w_sys w) (proj1 I)) as (y & x & E & W). rewrite E.
    assert (G : x <> Block -> winv (MkW y (w_ps w)) /\ (length (objs (ses y)) <= S (length (objs (ses_of w))))%nat).
    { intros Hx. destruct (W Hx) as [W1 L1]. split; [|lia]. split; [done|]. eapply ps_wf_mono; [|apply I].
      intros r. cbn. rewrite !lookup_lt_is_Some. lia. }
    destruct x; [by apply G..|done].
  - apply fine_same; [done|by apply fine_probe|by intros ? ? ? [= <- <-]].
  - apply fine_same; [done|by apply fine_probe_wait|]. intros [|] ? ? Hk; by simplify_eq/=.
  - apply fine_same; [done| |by intros ? ? ? [= <- <-]].
    destruct (session_Close_ok [] (ses_of w) (proj1 I)) as (s' & E & W & _ & _ & L & _).
    exists s', (Ret tt). split_and!; try done; lia.
  - apply fine_same; [done|by apply fine_newStream|by intros ? ? ? [= <- <-]].
  - apply fine_step; [done|]. unfold newPacketStream. unfold fine.
    destruct (fine_newStream w addr (fun r s => is_Some (objs s !! r)) I Hf (fun _ _ H => H)) as (s & x & E & N & W & L & P).
    unfold mbind, st_bind. rewrite E. destruct x as [r|e|]; [|by exists s, (Fail e)|done].
    eexists s, _. split; [reflexivity|]. split_and!; try done; try lia. intros ps [= <-] l o [= <- <-].
    apply Forall_app. split; [eapply ps_wf_mono; [|apply I]; intros r'; rewrite !lookup_lt_is_Some; lia|].
    constructor; [|done]. split; [by apply P|]. right. cbn. lia.
  - apply fine_stream; [done|]. intros o E.
    destruct (stream_Write_ok environment _ _ r o b (proj1 I) E) as (s' & n & e & E1 & C). by eapply fine_core.
  - apply fine_stream; [done|]. intros o E. unfold stream_Read. destruct (decide (k = 0%nat)).
    { eapply fine_core; [done|reflexivity|done..]. }
    destruct (readLocked_ok environment _ _ r o k (proj1 I) E ltac:(lia)) as (s' & x & o' & E1 & W & O & _). by eapply fine_obj.
  - apply fine_stream; [done|]. intros o E. unfold stream_Close.
    destruct (closeLocal_ok environment [] (ses_of w) r o true ErrClosed (proj1 I) E) as (s' & E1 & W & (_ & _ & _ & L)).
    exists s', (Ret tt). split_and!; try done; lia.
  - apply fine_stream; [done|]. intros o E.
    destruct (stream_CloseWrite_ok environment _ _ r o (proj1 I) E) as (s' & x & o' & E1 & N & W & O & _). by eapply fine_obj.
  - apply fine_stream; [done|]. intros o E. apply (fine_deadline w r o); [done..|]. eauto.
  - apply fine_stream; [done|]. intros o E. apply (fine_deadline w r o); [done..|]. eauto.
  - apply fine_packet; [done|]. intros ps Ep [[o E] Hp].
    destruct (packet_WriteTo_core _ _ ps o b addr (proj1 I) E) as (s' & ps' & n & e & E1 & C & (S1 & S2 & _)).
    eapply fine_core; try done. intros [? ?] [= <- _]. cbn. split; [|by rewrite S2]. rewrite S1, (core_objs _ _ C). by eexists.
  - apply fine_packet; [done|]. intros ps Ep [[o E] Hp].
    destruct (packet_WriteBatch_core _ _ ps o items (proj1 I) E) as (s' & ps' & n & e & E1 & C & (S1 & S2 & _)).
    eapply fine_core; try done. intros [? ?] [= <- _]. cbn. split; [|by rewrite S2]. rewrite S1, (core_objs _ _ C). by eexists.
  - apply fine_packet; [done|]. intros ps Ep [[o E] Hp].
    destruct (packet_ReadFrom_ok environment _ _ ps o plen (proj1 I) E Hp) as (s' & o' & ps' & x & E1 & W & O & _ & _ & (q & Eq) & Hq & _).
    eapply fine_obj; try done. intros [? ?] [= <- _]. cbn. split; [|done]. rewrite Eq. cbn. rewrite (proj1 O).
    rewrite list_lookup_insert_eq by by eapply lookup_lt_Some. by eexists.
Qed.

Lemma reaches_inv w tr w' : winv w -> reaches w tr w' ->
  Z.of_nat (length (objs (ses_of w)) + length tr) < 2 ^ 32 ->
  winv w' /\ (length (objs (ses_of w')) <= length (objs (ses_of w)) + length tr)%nat.
Proof.
  intros I. induction 1 as [|tr w1 a o w2 _ IH E]; intros Hf; [split; [done|lia]|]. rewrite length_app in *. cbn [length] in *.
  destruct IH as [I1 L1]; [lia|]. pose proof (exec_ok a w1 I1 ltac:(lia)) as N. rewrite E in N. destruct N as [I2 L2]. split; [done|lia].
Qed.

Definition fresh_world (c : tconn) (p : paddingFactory) (f : option (list (option error))) (i : stream) : world :=
  MkW (MkSys (newSessionWithPadding c p f) i) [].

Lemma fresh_winv c p f i : t_closed c = false -> factory_wf p -> winv (fresh_world c p f i).
Proof.
  intros Hc Hp. split; [|done]. constructor; cbn; try done.
  - by left.
  - lia.
Qed.


End world.

(** A session on a perfect transport with the default padding scheme. *)
Definition demo_env (n : nat) : wenv := MkWenv (Z.of_nat n + 1) None (fun _ => 0).
Definition demo_padding : paddingFactory := default (MkPF ∅ [] 0 []) (NewPaddingFactory id map_to_list defaultPaddingScheme).
Definition demo_world (i : stream) : world := fresh_world (MkTconn [] [] false) demo_padding None i.
Definition demo_play (acts : list act) (w : world) : option (list (act * out) * world) :=
  play (BS := demo_pool) demo_env id map_to_list demo_host_port (fun _ => []) (fun _ => AddrPortZero) acts w.

Lemma demo_padding_wf : factory_wf demo_padding.
Proof. apply (NewPaddingFactory_wf id map_to_list defaultPaddingScheme). vm_compute. reflexivity. Qed.

Lemma demo_reaches acts w tr w' : demo_play acts w = Some (tr, w') ->
  reaches (BS := demo_pool) demo_env id map_to_list demo_host_port (fun _ => []) (fun _ => AddrPortZero) w tr w'.
Proof. apply play_reaches. Qed.

Definition demo_input : stream := encs [MkFrame cmdPSH 1 (lit "hello"); waste 30; MkFrame cmdFIN 1 []].
Definition demo_acts : list act := [AOpen (lit "a"); AWrite 0 (lit "hi"); ARun; ARead 0 3; ARun; AProbe; ARun; ARead 0 9; ARead 0 9].


(** Two gaps of the deadlines of packet streams.  A first datagram whose write
    deadline has passed leaves nothing on the wire, but the stream counts as
    announced: the next datagram goes out without the target address, so the
    server never learns it.  A read deadline that expires inside a datagram
    drops the part already consumed: the rest is taken for the next length, and
    the reader waits although two whole datagrams have arrived. *)
Definition bare_world (i : stream) : world := fresh_world (MkTconn [] [] false) (MkPF ∅ [] 0 []) None i.
Definition split_input : stream :=
  encs [MkFrame cmdPSH 1 ([x00; x05] ++ lit "he"); MkFrame cmdPSH 1 (lit "llo" ++ [x00; x01] ++ lit "x")].

Theorem anytls_packet_deadline_gaps :
  (exists tr1 w1 w2 tr3 w3, demo_play [AOpenPacket (lit "a") (lit "a"); AWriteDeadline 0 1] (bare_world []) = Some (tr1, w1) /\
    demo_play [APWrite 0 (lit "hi") (lit "b")] w1 = Some ([(APWrite 0 (lit "hi") (lit "b"), OCount 0 (Some ErrDeadlineExceeded))], w2) /\
    t_out (conn (ses (w_sys w2))) = t_out (conn (ses (w_sys w1))) /\
    demo_play [AWriteDeadline 0 0; APWrite 0 (lit "hi") (lit "b")] w2 = Some (tr3, w3) /\
    t_out (conn (ses (w_sys w3))) = t_out (conn (ses (w_sys w1))) ++ enc (MkFrame cmdPSH 1 (dgram_bytes (lit "hi")))) /\
  (exists tr w, demo_play [AOpenPacket (lit "a") (lit "a"); AReadDeadline 0 1; ARun; APRead 0 9; AReadDeadline 0 0; ARun; APRead 0 9]
      (bare_world split_input) = Some (tr, w) /\
    tr.*2 = [ODone; ODone; ORun Loop; ODgram (DErr ErrDeadlineExceeded AddrPortZero); ODone; ORun Loop; ODgram DWait]).
Proof.
  split; [eexists _, _, _, _, _; split; [vm_compute; reflexivity|]; split; [vm_compute; reflexivity|]; split; [vm_compute; reflexivity|];
    split; vm_compute; reflexivity|].
  eexists _, _. split; vm_compute; reflexivity.
Qed.
