(* ===== verification/AnyTlsDelivery.v ===== *)
(** AnyTLS data transfer: what one session writes to a stream is what the
    stream of the same number delivers at the other end, whatever the
    interleaving; readers and read loop never wait for each other for ever. *)

From S2P Require Import Prelude GoStrings NetIP GoState Common Pool Socks Transport AnyTlsPadding AnyTlsFrame AnyTlsSession AnyTlsInv AnyTlsWorld.

Section delivery.
Context {BS : BufferSource} (environment : nat -> wenv).
Context (md5_hex : list byte -> list byte) (range : gmap (list byte) (list byte) -> list (list byte * list byte)).
Context (SplitHostPort : list byte -> res (list byte * list byte)) (ParseIP : list byte -> list byte).
Context (ParseAddrPort : list byte -> AddrPort).
(** [net.SplitHostPort] returns; [net.ParseIP] returns nil or 16 bytes. *)
Hypothesis Split_total : forall s, SplitHostPort s <> Panic.
Hypothesis ParseIP_length : forall h, ParseIP h = [] \/ length (ParseIP h) = 16%nat.

(** * The read loop on one frame *)

(** The payload bytes for stream [i] in a sequence of frames. *)
Definition psh (i : Z) (gs : list frame) : list byte :=
  filter (fun f => cmd f = cmdPSH /\ f_sid f = i) gs ≫= data.

(** Frames the peer sends while the session goes on, and those of them that
    close stream [i]. *)
Definition harmless (f : frame) : Prop :=
  cmd f = cmdWaste \/ cmd f = cmdPSH \/ cmd f = cmdAlert \/ cmd f = cmdUpdatePaddingScheme \/ cmd f = cmdServerSettings \/
  cmd f = cmdSYNACK \/ (cmd f = cmdFIN /\ data f = []) \/ (cmd f = cmdHeartResponse /\ data f = []).
Definition closes (i : Z) (f : frame) : Prop := (cmd f = cmdFIN \/ cmd f = cmdSYNACK) /\ f_sid f = i.

Lemma psh_cons i f gs : psh i (f :: gs) = psh i [f] ++ psh i gs.
Proof. unfold psh. rewrite (filter_app _ [f] gs). by rewrite bind_app. Qed.

Lemma psh_other i f : ~ (cmd f = cmdPSH /\ f_sid f = i) -> psh i [f] = [].
Proof. intros H. unfold psh. by rewrite filter_cons_False. Qed.

Lemma psh_this f : cmd f = cmdPSH -> psh (f_sid f) [f] = data f.
Proof. intros H. unfold psh. rewrite filter_cons_True by done. cbn. by rewrite app_nil_r. Qed.

(** The header of a frame is read back. *)
Lemma run_step_frame y f rest : closed (ses y) = false -> inp y = enc f ++ rest -> frame_wf f ->
  run_step environment md5_hex range y =
    dispatch environment md5_hex range (cmd f) (f_sid f) (Z.of_nat (length (data f))) (MkSys (ses y) (data f ++ rest)).
Proof.
  intros Hc Hi [Hs Hid]. unfold run_step. st_pure. rewrite Hc. unfold enc in Hi.
  set (h := cmd f :: be32 (f_sid f) ++ be16 (Z.of_nat (length (data f)))).
  assert (Hh : inp y = h ++ data f ++ rest) by (rewrite Hi; unfold h; cbn; by rewrite <- !app_assoc).
  rewrite (st_bind_Ret _ _ y (MkSys (ses y) (data f ++ rest)) (inl h)).
  2:{ unfold try, on_inp. rewrite Hh, (readFull_app h) by (unfold h, headerOverHeadSize; len). done. }
  assert (E1 : StreamID h = Ret (f_sid f)).
  { unfold StreamID, h. change (cmd f :: be32 (f_sid f) ++ be16 (Z.of_nat (length (data f)))) with ([cmd f] ++ be32 (f_sid f) ++ be16 (Z.of_nat (length (data f)))).
    rewrite slice_eq by len. change (5 - 1)%nat with 4%nat. rewrite (drop_app_length' [cmd f]) by done.
    rewrite (take_app_length' (be32 _)) by len. rewrite bind_ret, be_get_put_small; [done|]. cbn. lia. }
  assert (E2 : AnyTlsFrame.Length h = Ret (Z.of_nat (length (data f)))).
  { unfold AnyTlsFrame.Length, h. rewrite app_comm_cons. rewrite slice_eq by len. change (7 - 5)%nat with 2%nat.
    rewrite (drop_app_length' (cmd f :: be32 _)) by len. rewrite take_ge by len.
    rewrite bind_ret, be_get_put_small; [done|]. unfold small in Hs. pose proof maxFramePayloadSize_eq. cbn. lia. }
  rewrite (st_lift_Ret _ _ _ _ E1), (st_lift_Ret _ _ _ _ E2), (st_lift_Ret _ _ _ _ (eq_refl : Cmd h = Ret (cmd f))). done.
Qed.

(** What a frame does to the streams: those it does not close keep everything
    and receive the payload addressed to them. *)
Definition received_by (f : frame) (s s' : session) : Prop :=
  closed s' = closed s /\
  forall r o, objs s !! r = Some o -> ~ closes (id_ o) f -> exists o', objs s' !! r = Some o' /\ id_ o' = id_ o /\
    st_closed o' = st_closed o /\ view o' = view o ++ (if st_closed o then [] else psh (id_ o) [f]).

Lemma received_same f s s' : objs s' = objs s -> closed s' = closed s -> cmd f <> cmdPSH -> received_by f s s'.
Proof.
  intros O C N. split; [done|]. intros r o E _. exists o. rewrite O. split_and!; try done.
  rewrite psh_other by naive_solver. destruct (st_closed o); by rewrite app_nil_r.
Qed.

Lemma received_left fl f s s' r : left r s s' -> cmd f <> cmdPSH -> f_sid f = Z.of_nat r + 1 -> (cmd f = cmdFIN \/ cmd f = cmdSYNACK) ->
  swf (None, fl) s -> received_by f s s'.
Proof.
  intros (_ & Ho & Hc & _) N Hi Hf W. split; [done|]. intros r' o E Hcl.
  assert (r' <> r) by (intros ->; apply Hcl; split; [done|]; by rewrite (w_ids _ _ W r o E)).
  exists o. rewrite Ho by done. split_and!; try done. rewrite psh_other by naive_solver. destruct (st_closed o); by rewrite app_nil_r.
Qed.

Lemma handle_payload_run s d rest (g : list byte -> st session unit) s2 :
  g d (set_pool (S (bufs s)) (released s) s) = (s2, Ret tt) ->
  handle_payload (length d) g (MkSys s (d ++ rest)) =
    (MkSys (set_pool (bufs s2) (released s2 ++ [bufs s]) s2) rest, Ret Loop).
Proof.
  intros E. unfold handle_payload. pose proof (read_payload_ok (length d) (MkSys s (d ++ rest))) as R.
  cbv zeta in R. cbn [ses inp] in R. rewrite decide_True in R by len. rewrite drop_app_length, take_app_length in R.
  rewrite (st_bind_Ret _ _ _ _ _ R). cbv beta iota. rewrite (st_bind_Ret _ _ _ _ _ (on_ses_Ret _ (MkSys _ _) _ _ E)).
  by rewrite (st_bind_Ret _ _ _ _ _ (on_ses_Ret _ (MkSys _ _) _ _ eq_refl)).
Qed.

(** The read loop is waiting for room in the queue of an open stream. *)
Definition blocked_on (f : frame) (s : session) : Prop :=
  exists r o, cmd f = cmdPSH /\ streams s !! f_sid f = Some r /\ objs s !! r = Some o /\ (inbound_cap <= length (inbound o))%nat.

Definition frame_outcome (f : frame) (rest : stream) (s : session) (y' : sys) (x : next) : Prop :=
  (x = Block /\ blocked_on f s) \/ (x = Loop /\ inp y' = rest /\ received_by f s (ses y')).

Lemma received_queued s rest f r o : swf (None, []) s -> cmd f = cmdPSH -> streams s !! f_sid f = Some r -> objs s !! r = Some o ->
  received_by f s (ses (queued (MkSys s (data f ++ rest)) r o (length (data f)))).
Proof.
  intros W Hc Ht Eo. split; [done|]. intros r' o' E' _. cbn [ses queued objs set_pool set_objs inp]. rewrite take_app_length.
  destruct (in_table_open _ _ _ _ W Ht) as (o2 & Eo2 & Hi & Hcl & _). rewrite Eo in Eo2. injection Eo2 as <-.
  destruct (decide (r' = r)) as [->|Hn].
  - rewrite Eo in E'. injection E' as <-. eexists. rewrite list_lookup_insert_eq by by eapply lookup_lt_Some. split; [reflexivity|].
    cbn [id_ o_inbound st_closed]. split_and!; try done. rewrite Hcl, Hi, psh_this by done. unfold view. cbn [readBuf o_inbound inbound].
    rewrite fmap_app, concat_app. cbn. by rewrite app_nil_r, app_assoc.
  - rewrite list_lookup_insert_ne by done. exists o'. split_and!; try done.
    destruct (st_closed o') eqn:Ho; [by rewrite app_nil_r|]. rewrite psh_other, app_nil_r; [done|].
    intros [_ Hs]. apply Hn. pose proof (w_ids _ _ W r o Eo). pose proof (w_ids _ _ W r' o' E'). lia.
Qed.

Lemma received_unknown s s' f : swf (None, []) s -> streams s !! f_sid f = None -> objs s' = objs s -> closed s' = closed s ->
  received_by f s s'.
Proof.
  intros W Ht O C. split; [done|]. intros r o E _. exists o. rewrite O. split_and!; try done.
  destruct (st_closed o) eqn:Ho; [by rewrite app_nil_r|]. rewrite psh_other, app_nil_r; [done|].
  intros [_ Hs]. assert (streams s !! id_ o = Some r) by (apply (w_table _ _ W r o E); by left). congruence.
Qed.

Lemma dispatch_PSH s f rest : swf (None, []) s -> frame_wf f -> cmd f = cmdPSH ->
  exists y' x, handle_PSH (f_sid f) (length (data f)) (MkSys s (data f ++ rest)) = (y', Ret x) /\ frame_outcome f rest s y' x.
Proof.
  intros W Wf Hc. destruct (decide (data f = [])) as [Hd|Hd].
  { exists (MkSys s rest), Loop. rewrite Hd. unfold handle_PSH. rewrite decide_True by done. split; [done|].
    right. split_and!; [done..|]. split; [done|]. intros r o E _. exists o. split_and!; try done.
    destruct (st_closed o); [by rewrite app_nil_r|]. unfold psh. rewrite filter_cons. case_decide; cbn; by rewrite ?Hd, app_nil_r. }
  assert (Hn : (0 < length (data f) <= length (data f ++ rest))%nat) by (destruct (data f); [done|len]).
  destruct (streams s !! f_sid f) as [r|] eqn:Ht.
  - destruct (in_table_open _ _ _ _ W Ht) as (o & Eo & _).
    destruct (handle_PSH_open (f_sid f) _ (MkSys s (data f ++ rest)) r o W Ht Eo Hn) as (y' & x & E & Hx).
    exists y', x. split; [done|]. case_decide as Hl.
    + destruct Hx as [-> ->]. right. split_and!; [done|cbn; by rewrite drop_app_length|by apply received_queued].
    + subst x. left. split; [done|]. exists r, o. split_and!; try done. lia.
  - unfold handle_PSH. rewrite decide_False by lia. pose proof (read_payload_ok (length (data f)) (MkSys s (data f ++ rest))) as R.
    cbv zeta in R. cbn [ses inp] in R. rewrite decide_True in R by len. rewrite (st_bind_Ret _ _ _ _ _ R). cbv beta iota. st_pure.
    cbn [ses streams set_pool]. rewrite Ht. rewrite (st_bind_Ret _ _ _ _ _ (on_ses_Ret _ (MkSys _ _) _ _ eq_refl)).
    eexists _, _. split; [reflexivity|]. right. cbn [inp]. rewrite drop_app_length. split_and!; [done..|by apply received_unknown].
Qed.

(** A payload read into a pool buffer, handed to [g] and put back. *)
Lemma payload_outcome s f rest g s2 : g (data f) (set_pool (S (bufs s)) (released s) s) = (s2, Ret tt) ->
  received_by f s s2 -> exists y' x, handle_payload (length (data f)) g (MkSys s (data f ++ rest)) = (y', Ret x) /\
  frame_outcome f rest s y' x.
Proof. intros E R. eexists _, Loop. split; [by apply handle_payload_run|]. right. by split_and!. Qed.

Lemma loop_outcome s f rest s2 : received_by f s s2 -> frame_outcome f rest s (MkSys s2 rest) Loop.
Proof. intros R. right. by split_and!. Qed.

Lemma dispatch_FIN s f rest : swf (None, []) s -> cmd f = cmdFIN -> exists s2,
  handle_FIN environment (f_sid f) (MkSys s rest) = (MkSys s2 rest, Ret Loop) /\ received_by f s s2.
Proof.
  intros W Hc. unfold handle_FIN. st_pure. cbn [ses]. destruct (streams s !! f_sid f) as [r|] eqn:Et.
  - destruct (in_table_open _ _ _ _ W Et) as (o & Eo & Hi & Ho & _).
    destruct (stream_remoteClose_ok environment [] s r o W Eo Ho) as (s' & E & _ & L & _).
    rewrite (st_bind_Ret _ _ _ _ _ (on_ses_Ret _ (MkSys s rest) _ _ E)). exists s'. split; [done|].
    eapply received_left; try done; [by rewrite Hc|by eapply table_ref|by left].
  - exists s. split; [done|]. by apply received_unknown.
Qed.

Lemma dispatch_SYNACK s f fl : swf (None, fl) s -> cmd f = cmdSYNACK -> exists s2,
  handle_SYNACK environment (f_sid f) (data f) s = (s2, Ret tt) /\ received_by f s s2.
Proof.
  intros W Hc. unfold handle_SYNACK. st_pure. destruct (streams s !! f_sid f) as [r|] eqn:Et.
  - destruct (in_table_open _ _ _ _ W Et) as (o & Eo & Hi & _).
    destruct (closeLocal_ok environment fl s r o true ErrClosed W Eo) as (s' & E & _ & L).
    exists s'. rewrite (st_bind_Ret _ _ s s' (inl tt)) by (unfold try, stream_Close; by rewrite E). split; [done|].
    eapply received_left; try done; [by rewrite Hc|by eapply table_ref|by right].
  - exists s. split; [done|]. apply received_same; try done. by rewrite Hc.
Qed.

Lemma run_frame y f rest : swf (None, []) (ses y) -> closed (ses y) = false -> inp y = enc f ++ rest -> frame_wf f -> harmless f ->
  exists y' x, run_step environment md5_hex range y = (y', Ret x) /\ frame_outcome f rest (ses y) y' x.
Proof.
  intros W Hc Hi Wf Hf. rewrite (run_step_frame y f rest Hc Hi Wf). unfold dispatch. cbv zeta. rewrite Nat2Z.id.
  set (s := ses y) in *.
  assert (Quiet : cmd f <> cmdPSH -> exists y' x, handle_payload (length (data f)) (fun _ => mret tt) (MkSys s (data f ++ rest)) = (y', Ret x) /\
    frame_outcome f rest s y' x).
  { intros N. eapply payload_outcome; [reflexivity|by apply received_same]. }
  assert (Zero : cmd f <> cmdPSH -> ~ (0 < length (data f))%nat ->
    exists y' x, (MkSys s (data f ++ rest), Ret Loop) = (y', Ret x) /\ frame_outcome f rest s y' x).
  { intros N Hd. eexists _, _. split; [reflexivity|]. destruct (data f); [|cbn in Hd; lia]. by apply loop_outcome, received_same. }
  destruct Hf as [Hf|[Hf|[Hf|[Hf|[Hf|[Hf|[[Hf Hd]|[Hf Hd]]]]]]]]; rewrite Hf in Quiet, Zero |- *;
    [rewrite decide_False by (intros [_ [?|[?|?]]]; done)..| |]; try (rewrite decide_False by (rewrite Hd; intros [? _]; done)).
  - rewrite decide_True by done. exists (MkSys s rest), Loop. split; [|apply loop_outcome, received_same; by rewrite ?Hf].
    unfold try, on_inp, discard, mbind, st_bind. cbn [inp ses]. rewrite decide_True by len. by rewrite drop_app_length.
  - rewrite decide_False, decide_True by done. by apply dispatch_PSH.
  - rewrite !decide_False, decide_True by done. by apply Quiet.
  - rewrite !(decide_False (P := cmdUpdatePaddingScheme = _)), decide_True by done.
    case_decide; [|by apply Zero]. unfold handle_UpdatePaddingScheme.
    destruct (NewPaddingFactory md5_hex range (data f)) eqn:E; (eapply payload_outcome; [by rewrite E|]); apply received_same; by rewrite ?Hf.
  - rewrite !(decide_False (P := cmdServerSettings = _)), decide_True by done.
    case_decide; [by apply Quiet|by apply Zero].
  - rewrite !(decide_False (P := cmdSYNACK = _)), decide_True by done. case_decide; [|by apply Zero].
    destruct (dispatch_SYNACK (set_pool (S (bufs s)) (released s) s) f [bufs s] (swf_get s [] W) Hf) as (s2 & E & R).
    by eapply payload_outcome.
  - rewrite !(decide_False (P := cmdFIN = _)), decide_True by done. rewrite Hd.
    destruct (dispatch_FIN s f rest W Hf) as (s2 & E & R). eexists _, _. split; [exact E|by apply loop_outcome].
  - rewrite !(decide_False (P := cmdHeartResponse = _)), decide_True by done. rewrite Hd.
    eexists _, _. split; [reflexivity|]. apply loop_outcome, received_same; by rewrite ?Hf.
Qed.

(** * Conservation *)

#[local] Abbreviation ses_of w := (ses (w_sys w)).
#[local] Abbreviation step := (exec environment md5_hex range SplitHostPort ParseIP ParseAddrPort).
#[local] Abbreviation steps := (reaches environment md5_hex range SplitHostPort ParseIP ParseAddrPort).

(** The stream [r] is as before, except for what [view] does not show. *)
Definition quiet (r : nat) (s s' : session) : Prop := forall o, objs s !! r = Some o ->
  exists o', objs s' !! r = Some o' /\ id_ o' = id_ o /\ st_closed o' = st_closed o /\ view o' = view o.

Lemma quiet_same r s s' : objs s' = objs s -> quiet r s s'.
Proof. intros O o E. exists o. by rewrite O. Qed.

Lemma quiet_other r r' o' s s' : only_obj r' o' s s' -> r' <> r -> quiet r s s'.
Proof. intros [O _] N o E. exists o. by rewrite O, list_lookup_insert_ne. Qed.

Lemma quiet_obj r o o' s s' : only_obj r o' s s' -> objs s !! r = Some o -> id_ o' = id_ o -> st_closed o' = st_closed o ->
  view o' = view o -> forall r', quiet r' s s'.
Proof.
  intros O E Hi Hc Hv r'. destruct (decide (r = r')) as [<-|]; [|by eapply quiet_other]. intros o2 E2.
  rewrite E in E2. injection E2 as <-. exists o'. rewrite (proj1 O), list_lookup_insert_eq by by eapply lookup_lt_Some. done.
Qed.

(** Calls that do not end stream [r]. *)
Definition spares (r : nat) (a : act) : Prop := a <> ASessClose /\ a <> AClose r.
(** What a call read from stream [r], and what it wrote to it. *)
Definition got1 (r : nat) (x : act * out) : list byte :=
  match x with (ARead r' _, OBytes b) => if decide (r' = r) then b else [] | _ => [] end.
Definition got (r : nat) (tr : list (act * out)) : list byte := tr ≫= got1 r.

(** What frames still bring to a stream. *)
Definition pend (o : stream_) (gs : list frame) : list byte := if st_closed o then [] else psh (id_ o) gs.
Definition untapped (r : nat) (w : world) : Prop := Forall (fun ps => ps_stream ps <> r) (w_ps w).
Definition keeps_open (i : Z) (f : frame) : Prop := frame_wf f /\ harmless f /\ ~ closes i f.

(** The input is made of frames that keep stream [r] open. *)
Record flows (r : nat) (gs : list frame) (w : world) (o : stream_) : Prop := {
  fl_inv : winv w;
  fl_inp : inp (w_sys w) = encs gs;
  fl_obj : objs (ses_of w) !! r = Some o;
  fl_tap : untapped r w;
  fl_frames : Forall (keeps_open (id_ o)) gs }.

Definition conserves (r : nat) (gs : list frame) (o : stream_) (x : act * out) (w' : world) : Prop :=
  exists gs' o', inp (w_sys w') = encs gs' /\ gs' `suffix_of` gs /\ objs (ses_of w') !! r = Some o' /\ id_ o' = id_ o /\
    untapped r w' /\ got1 r x ++ view o' ++ pend o' gs' = view o ++ pend o gs.

Lemma quiet_conserves r gs w o x w' : flows r gs w o -> inp (w_sys w') = inp (w_sys w) -> quiet r (ses_of w) (ses_of w') ->
  untapped r w' -> got1 r x = [] -> conserves r gs o x w'.
Proof.
  intros F Hi Q U G. destruct (Q o (fl_obj _ _ _ _ F)) as (o' & E & Hid & Hc & Hv). exists gs, o'.
  rewrite Hi, G. split_and!; try done; [apply F|]. unfold pend. by rewrite Hid, Hc, Hv.
Qed.

(** Session steps that leave [r] alone. *)
Lemma session_conserves {A} (m : st session A) k r gs w o a out w' : flows r gs w o -> on_session w m k = Ret (Some (w', out)) ->
  quiet r (ses_of w) (m (ses_of w)).1 ->
  (forall x ps o', (m (ses_of w)).2 = Ret x -> k x = Some (ps, o') -> Forall (fun ps => ps_stream ps <> r) ps /\ got1 r (a, o') = []) ->
  (forall e, got1 r (a, OErr e) = []) -> conserves r gs o (a, out) w'.
Proof.
  intros F E Q K G. unfold on_session in E. destruct (m (ses_of w)) as [s [x|e|]] eqn:Em; [| |done].
  - destruct (k x) as [[ps o']|] eqn:Ek; [|done]. injection E as <- <-. destruct (K x ps o' eq_refl Ek) as [U G1].
    by eapply quiet_conserves.
  - injection E as <- <-. eapply quiet_conserves; try done; apply F.
Qed.

Lemma stream_conserves {A} (m : st session A) k r gs w o a out w' r' : flows r gs w o -> on_stream w r' m k = Ret (Some (w', out)) ->
  (forall o', objs (ses_of w) !! r' = Some o' -> quiet r (ses_of w) (m (ses_of w)).1) ->
  (forall out, got1 r (a, out) = []) -> conserves r gs o (a, out) w'.
Proof.
  intros F E Q G. unfold on_stream in E. destruct (objs (ses_of w) !! r') as [o2|] eqn:E2; [|done].
  eapply session_conserves; try done; [by eapply Q|]. intros x ps o' _ Hk. cbv beta in Hk. destruct (k x); [|done]. cbn in Hk.
  injection Hk as <- <-. split; [apply F|apply G].
Qed.

Lemma packet_conserves {A} (m : packetStream -> st session (packetStream * A)) k r gs w o a out w' p :
  flows r gs w o -> on_packet w p m k = Ret (Some (w', out)) ->
  (forall ps, w_ps w !! p = Some ps -> ps_stream ps <> r -> ps_wf (ses_of w) ps ->
     quiet r (ses_of w) (m ps (ses_of w)).1 /\ forall ps' y, (m ps (ses_of w)).2 = Ret (ps', y) -> ps_stream ps' = ps_stream ps) ->
  (forall out, got1 r (a, out) = []) -> conserves r gs o (a, out) w'.
Proof.
  intros F E Q G. unfold on_packet in E. destruct (w_ps w !! p) as [ps|] eqn:Ep; [|done].
  destruct (Q ps eq_refl (Forall_lookup_1 _ _ _ _ (fl_tap _ _ _ _ F) Ep) (Forall_lookup_1 _ _ _ _ (proj2 (fl_inv _ _ _ _ F)) Ep)) as [Q1 S].
  eapply session_conserves; try done. intros [ps' y] ps2 o' Hx [= <- <-]. split; [|apply G].
  apply Forall_insert; [apply F|]. rewrite (S _ _ Hx). by apply (Forall_lookup_1 _ _ _ _ (fl_tap _ _ _ _ F) Ep).
Qed.

Lemma closed_view w r o : winv w -> closed (ses_of w) = true -> objs (ses_of w) !! r = Some o -> st_closed o = true.
Proof.
  intros [W _] Hc E. destruct (st_closed o) eqn:Ho; [done|]. destruct (w_closed _ _ W Hc) as [Et _].
  assert (streams (ses_of w) !! id_ o = Some r) as H by (apply (w_table _ _ W r o E); by left). by rewrite Et in H.
Qed.

Lemma psh_nil i : psh i [] = [].
Proof. done. Qed.

(** Closing the session at the end of its input loses nothing. *)
Lemma close_conserves r gs w o x : flows r gs w o -> pend o gs = [] -> got1 r x = [] -> exists s',
  session_Close (ses_of w) = (s', Ret tt) /\ conserves r gs o x (MkW (MkSys s' (inp (w_sys w))) (w_ps w)).
Proof.
  intros F P G. destruct (session_Close_ok [] (ses_of w) (proj1 (fl_inv _ _ _ _ F))) as (s' & E & W & C & _ & _ & V).
  exists s'. split; [done|]. specialize (V r). rewrite (fl_obj _ _ _ _ F) in V. cbn in V.
  destruct (objs s' !! r) as [o'|] eqn:E'; [|done]. cbn in V. injection V as V. exists gs, o'. rewrite G, P, V.
  pose proof (w_ids _ _ W r o' E'). pose proof (w_ids _ _ (proj1 (fl_inv _ _ _ _ F)) r o (fl_obj _ _ _ _ F)).
  split_and!; try done; [apply F|congruence|apply F|]. unfold pend.
  rewrite (closed_view (MkW (MkSys s' (inp (w_sys w))) []) r o'); [done|split; done|done..].
Qed.

(** The read loop ends when the peer closes the connection. *)
Lemma run_step_end y : closed (ses y) = false -> inp y = [] -> run_step environment md5_hex range y = (y, Ret (Return EOF)).
Proof.
  intros Hc Hi. unfold run_step. st_pure. rewrite Hc. unfold try, on_inp, mbind, st_bind. rewrite Hi. destruct y as [s i].
  cbn in Hi. by subst i.
Qed.

Lemma run_conserves r gs w o w' out : flows r gs w o -> step ARun w = Ret (Some (w', out)) -> conserves r gs o (ARun, out) w'.
Proof.
  intros F E. cbn [exec] in E. unfold run_round in E.
  assert (Close : forall e, run_step environment md5_hex range (w_sys w) = (w_sys w, Ret (Return e)) -> pend o gs = [] ->
    conserves r gs o (ARun, out) w').
  { intros e Er P. rewrite (st_bind_Ret _ _ _ _ _ Er) in E. destruct (close_conserves r gs w o (ARun, out) F P eq_refl) as (s' & Ec & H).
    rewrite (st_bind_Ret _ _ _ _ _ (on_ses_Ret _ _ _ _ Ec)) in E. by injection E as <- <-. }
  pose proof (fl_inv _ _ _ _ F) as I. destruct (closed (ses_of w)) eqn:Hc.
  { apply (Close ErrClosed).
    - unfold run_step. st_pure. by rewrite Hc.
    - unfold pend. by rewrite (closed_view w r o I Hc (fl_obj _ _ _ _ F)). }
  pose proof (fl_inp _ _ _ _ F) as Hi. destruct gs as [|g gs].
  { apply (Close EOF); [|unfold pend; by destruct (st_closed o)].
    by apply run_step_end. }
  pose proof (fl_frames _ _ _ _ F) as [(Wf & Hh & Hn) Hgs]%Forall_cons.
  destruct (run_frame (w_sys w) g (encs gs) (proj1 I) Hc Hi Wf Hh) as (y' & x & Er & Ho).
  rewrite (st_bind_Ret _ _ _ _ _ Er) in E. destruct Ho as [[-> _]|(-> & Hin & R)]; [done|]. injection E as <- <-.
  destruct R as [_ R]. destruct (R r o (fl_obj _ _ _ _ F) Hn) as (o' & Eo & Hid & Hst & Hv).
  exists gs, o'. split_and!; try done; [by exists [g]|apply F|]. cbn [got1 app]. unfold pend. rewrite Hv, Hst, Hid.
  destruct (st_closed o); [by rewrite !app_nil_r|]. by rewrite (psh_cons _ g gs), <- app_assoc.
Qed.

Lemma read_conserves r gs w o r' k w' out : flows r gs w o -> step (ARead r' k) w = Ret (Some (w', out)) ->
  conserves r gs o (ARead r' k, out) w'.
Proof.
  intros F E. cbn [exec] in E. unfold on_stream, on_session, stream_Read in E.
  destruct (objs (ses_of w) !! r') as [o2|] eqn:E2; [|done]. case_decide as Hk.
  { injection E as <- <-. eapply quiet_conserves; try done; [by apply quiet_same|apply F|]. cbn. by case_decide. }
  destruct (readLocked_ok environment _ _ r' o2 k (proj1 (fl_inv _ _ _ _ F)) E2 ltac:(lia)) as (s' & x & o' & Er & W & O & Hi & Hc & R).
  rewrite Er in E. destruct (decide (r' = r)) as [->|Hn].
  - rewrite (fl_obj _ _ _ _ F) in E2. injection E2 as <-. assert (Eo : objs s' !! r = Some o').
    { rewrite (proj1 O). apply list_lookup_insert_eq. eapply lookup_lt_Some, F. }
    destruct x as [b|e|]; cbn in E; [| |done]; injection E as <- <-; (exists gs, o'; split_and!; try done; try apply F).
    + cbn [got1]. rewrite decide_True by done. destruct R as (_ & _ & ->). unfold pend. by rewrite Hc, Hi, <- app_assoc.
    + destruct R as (_ & -> & _). done.
  - destruct x as [b|e|]; cbn in E; [| |done]; injection E as <- <-;
      (eapply quiet_conserves; [exact F|done|by eapply quiet_other|apply F|cbn; by rewrite ?decide_False]).
Qed.

Lemma core_quiet r s s' : core s' = core s -> quiet r s s'.
Proof. intros C. apply quiet_same. by apply core_objs. Qed.

Lemma newStream_quiet r s addr : swf (None, []) s -> Z.of_nat (length (objs s)) + 1 < 2 ^ 32 ->
  let x := newStream environment SplitHostPort ParseIP addr s in quiet r s x.1 /\ forall r', x.2 = Ret r' -> r' = length (objs s).
Proof.
  intros W Hf. cbv zeta. destruct (newStream_ok environment SplitHostPort ParseIP s addr W Hf) as (s' & x & E & _ & _ & _ & _ & O & R).
  { by apply ParseAddr_total. }
  rewrite E. cbn. split; [intros o Eo; exists o; auto|]. intros r' Hx. by apply R.
Qed.

Lemma probe_quiet r s : swf (None, []) s -> quiet r s (probe_request environment s).1.
Proof.
  intros W. unfold probe_request. st_pure. destruct (closed s); [by apply quiet_same|]. st_pure.
  pose proof (swf_chans s false W) as W1. set (s1 := set_chans _ _ _) in *.
  destruct (write_only_try _ _ (writeFrame_write_only environment (newFrame cmdHeartRequest 0) s1 (w_pad _ _ W1))) as (s2 & x & E & C).
  rewrite (st_bind_Ret _ _ _ _ _ E). pose proof (core_objs _ _ C). destruct x; by apply quiet_same.
Qed.

Lemma deadline_quiet r r' s f : (forall o, exists a b c, f o = o_deadlines a b c o) -> (r' < length (objs s))%nat ->
  quiet r s (update r' f s).1.
Proof.
  intros Hf [o Eo]%lookup_lt_is_Some. rewrite (update_ok _ _ _ _ Eo). cbn. destruct (Hf o) as (a & b & c & ->).
  by eapply (quiet_obj r' o _ s); [split; reflexivity|..].
Qed.

Lemma exec_conserves a r gs w o w' out : flows r gs w o -> Z.of_nat (length (objs (ses_of w))) + 1 < 2 ^ 32 -> spares r a ->
  step a w = Ret (Some (w', out)) -> conserves r gs o (a, out) w'.
Proof.
  intros F Hf [S1 S2] E. pose proof (proj1 (fl_inv _ _ _ _ F)) as W. assert (U : untapped r w) by apply F.
  assert (L : (r < length (objs (ses_of w)))%nat) by (eapply lookup_lt_Some, F).
  destruct a; cbn [exec] in E; try done.
  - by eapply run_conserves.
  - eapply session_conserves; [done..|by apply probe_quiet| |done]. by intros ? ? ? _ [= <- <-].
  - eapply session_conserves; [done..| | |done].
    + unfold probe_wait. st_pure. destruct (heartResponseCh (ses_of w)); [by apply quiet_same|]. by destruct (_ || _); apply quiet_same.
    + intros [x|] ? ? _ Hk; [|done]. by injection Hk as <- <-.
  - eapply session_conserves; [done..|by apply newStream_quiet| |done]. by intros ? ? ? _ [= <- <-].
  - destruct (newStream_quiet r (ses_of w) addr W Hf) as [Q R]. unfold newPacketStream in E.
    eapply session_conserves; [done..| | |done].
    + unfold mbind, st_bind. by destruct (newStream _ _ _ addr (ses_of w)) as [s [x|e|]].
    + intros ps ? ? Hx [= <- <-]. split; [|done]. apply Forall_app. split; [done|]. constructor; [|done].
      unfold mbind, st_bind in Hx. destruct (newStream _ _ _ addr (ses_of w)) as [s [x|e|]]; [|done..].
      injection Hx as <-. cbn. rewrite (R x eq_refl). lia.
  - eapply stream_conserves; [done..| |done]. intros o' E'.
    destruct (stream_Write_ok environment _ _ r0 o' b W E') as (s' & n & e & -> & C). by apply core_quiet.
  - by eapply read_conserves.
  - eapply stream_conserves; [done..| |done]. intros o' E'. unfold stream_Close.
    destruct (closeLocal_ok environment [] (ses_of w) r0 o' true ErrClosed W E') as (s' & -> & _ & (_ & O & _)).
    intros o2 Eo. exists o2. cbn. rewrite O by naive_solver. done.
  - eapply stream_conserves; [done..| |done]. intros o' E'.
    destruct (stream_CloseWrite_ok environment _ _ r0 o' W E') as (s' & x & o2 & -> & _ & _ & O & H1 & H2 & H3). by eapply quiet_obj.
  - eapply stream_conserves; [done..| |done]. intros o' E'. apply deadline_quiet; [eauto|by eapply lookup_lt_Some].
  - eapply stream_conserves; [done..| |done]. intros o' E'. apply deadline_quiet; [eauto|by eapply lookup_lt_Some].
  - eapply packet_conserves; [done..| |done]. intros ps Ep _ [[o' E'] _].
    destruct (packet_WriteTo_core environment SplitHostPort ParseIP Split_total ParseIP_length _ _ ps o' b addr W E')
      as (s' & ps' & n & e & -> & C & (H & _)).
    split; [by apply core_quiet|]. by intros ? ? [= <- _].
  - eapply packet_conserves; [done..| |done]. intros ps Ep _ [[o' E'] _].
    destruct (packet_WriteBatch_core environment SplitHostPort ParseIP Split_total ParseIP_length _ _ ps o' items W E')
      as (s' & ps' & n & e & -> & C & (H & _)).
    split; [by apply core_quiet|]. by intros ? ? [= <- _].
  - eapply packet_conserves; [done..| |done]. intros ps Ep Hn [[o' E'] Hp].
    destruct (packet_ReadFrom_ok environment _ _ ps o' plen W E' Hp) as (s' & o2 & ps' & x & -> & _ & O & _ & _ & (q & ->) & _).
    split; [by eapply quiet_other|]. by intros ? ? [= <- _].
Qed.

Lemma reaches_conserves r gs w o tr w' : flows r gs w o -> steps w tr w' -> Forall (fun x => spares r x.1) tr ->
  Z.of_nat (length (objs (ses_of w)) + length tr) < 2 ^ 32 ->
  exists gs' o', flows r gs' w' o' /\ id_ o' = id_ o /\ gs' `suffix_of` gs /\
    got r tr ++ view o' ++ pend o' gs' = view o ++ pend o gs.
Proof.
  intros F. induction 1 as [|tr w1 a x w2 R IH E]; intros Hs Hf; [by exists gs, o|].
  apply Forall_app in Hs as [Hs [Ha _]%Forall_cons]. rewrite length_app in Hf. cbn [length] in Hf.
  destruct IH as (gs1 & o1 & F1 & Hi1 & S1 & C1); [done|lia|].
  destruct (reaches_inv environment md5_hex range SplitHostPort ParseIP ParseAddrPort Split_total ParseIP_length
    w tr w1 (fl_inv _ _ _ _ F) R ltac:(lia)) as [I1 L1].
  pose proof (exec_ok environment md5_hex range SplitHostPort ParseIP ParseAddrPort Split_total ParseIP_length a w1 I1 ltac:(lia)) as N.
  rewrite E in N. destruct (exec_conserves a r gs1 w1 o1 w2 x F1 ltac:(lia) Ha E) as (gs2 & o2 & Hin & S2 & E2 & Hi2 & U2 & C2).
  exists gs2, o2. split_and!; [|congruence|by etrans|].
  - constructor; try done; [apply N|]. destruct S2 as [k ->]. pose proof (fl_frames _ _ _ _ F1) as [_ H]%Forall_app.
    by rewrite Hi2.
  - unfold got in *. rewrite bind_app, <- C1, <- C2. cbn. by rewrite app_nil_r, <- !app_assoc.
Qed.

(** * Sending *)

(** Data and padding. *)
Definition payload_frame (f : frame) : Prop := frame_wf f /\ (cmd f = cmdPSH \/ cmd f = cmdWaste).

(** A completed call of [Write], and what such calls wrote to stream [i]. *)
Definition written_ok (x : act * out) : Prop := exists r b n, x = (AWrite r b, OCount n None).
Definition written1 (i : Z) (x : act * out) : list byte :=
  match x with (AWrite r b, _) => if decide (Z.of_nat r + 1 = i) then b else [] | _ => [] end.
Definition written (i : Z) (tr : list (act * out)) : list byte := tr ≫= written1 i.

Lemma psh_app i a b : psh i (a ++ b) = psh i a ++ psh i b.
Proof. unfold psh. by rewrite filter_app, bind_app. Qed.

Lemma psh_not_waste i gs : psh i (filter not_waste gs) = psh i gs.
Proof.
  induction gs as [|g gs IH]; [done|]. rewrite (psh_cons i g gs), filter_cons. case_decide as H.
  - by rewrite (psh_cons i g (filter _ _)), IH.
  - rewrite IH. rewrite psh_other; [done|]. intros [Hp _]. apply H. unfold not_waste. by rewrite Hp.
Qed.

Lemma psh_all i sid fs : Forall (fun f => cmd f = cmdPSH /\ f_sid f = sid /\ data f <> []) fs ->
  psh i fs = if decide (sid = i) then fs ≫= data else [].
Proof.
  induction 1 as [|f fs (Hc & Hi & _) _ IH]; [by case_decide|]. rewrite (psh_cons i f fs), IH. subst sid.
  destruct (decide (f_sid f = i)) as [<-|N]; [by rewrite psh_this|]. rewrite psh_other; [done|]. tauto.
Qed.

Lemma carries_payload fs bs sid : carries fs bs -> Forall (fun f => cmd f = cmdPSH /\ f_sid f = sid /\ data f <> []) fs ->
  exists gs, bs = encs gs /\ Forall payload_frame gs /\ forall i, psh i gs = if decide (sid = i) then fs ≫= data else [].
Proof.
  intros (gs & -> & Wf & <-) H. exists gs. split_and!; [done| |].
  - apply Forall_forall. intros g Hg. split; [by eapply Forall_forall|].
    destruct (decide (cmd g = cmdWaste)); [by right|left]. eapply (Forall_forall _ _) in H; [apply H|]. apply list_elem_of_filter. by split.
  - intros i. rewrite <- psh_not_waste. by apply psh_all.
Qed.

Lemma write_step w r b n w' : winv w -> step (AWrite r b) w = Ret (Some (w', OCount n None)) ->
  exists gs, t_out (conn (ses_of w')) = t_out (conn (ses_of w)) ++ encs gs /\ Forall payload_frame gs /\
    forall i, psh i gs = if decide (Z.of_nat r + 1 = i) then b else [].
Proof.
  intros [W _] E. cbn [exec] in E. unfold on_stream, on_session, stream_Write in E.
  destruct (objs (ses_of w) !! r) as [o|] eqn:Eo; [|done]. rewrite (st_bind_Ret _ _ _ _ _ (deref_ok _ _ _ Eo)) in E.
  destruct (_ || _); [done|]. case_decide as Hz.
  { injection E as <- <-. apply nil_length_inv in Hz as ->. exists []. cbn. rewrite app_nil_r. split_and!; [done..|].
    intros i. by case_decide. }
  rewrite <- (w_ids _ _ W r o Eo). assert (Hid : 0 <= id_ o < 2 ^ 32) by (pose proof (id_range _ _ _ _ W Eo); lia).
  destruct (closed (ses_of w)) eqn:Hc.
  { rewrite (writeDataFrames_closed environment) in E by (try done; by intros ->). done. }
  destruct (writeDataFrames_spec environment (id_ o) b (writeDeadline o) (ses_of w) Hid (w_pad _ _ W) Hc) as (s' & m & e & Ew & H).
  rewrite Ew in E. cbn in E. injection E as <- _ ->. destruct H as (_ & _ & (fs & bs & part & Ho & Hca & Hd & Hall) & _).
  destruct (Hall eq_refl) as (-> & -> & ->). destruct (data_frames_ok (id_ o) b Hid) as (Hb & _ & Hf).
  destruct (carries_payload _ _ _ Hca Hf) as (gs & -> & Hp & Hs). exists gs. cbn. rewrite Ho, app_nil_r. split_and!; [done..|].
  intros i. by rewrite Hs, Hb.
Qed.

Lemma writes_carry w tr w' : winv w -> steps w tr w' -> Forall written_ok tr -> Z.of_nat (length (objs (ses_of w)) + length tr) < 2 ^ 32 ->
  exists gs, t_out (conn (ses_of w')) = t_out (conn (ses_of w)) ++ encs gs /\ Forall payload_frame gs /\
    forall i, psh i gs = written i tr.
Proof.
  intros I. induction 1 as [|tr w1 a x w2 R IH E]; intros Hs Hf; [exists []; cbn; by rewrite app_nil_r|].
  apply Forall_app in Hs as [Hs [(r & b & n & Hx) _]%Forall_cons]. injection Hx as -> ->.
  rewrite length_app in Hf. cbn [length] in Hf. destruct IH as (gs1 & O1 & P1 & H1); [done|lia|].
  destruct (reaches_inv environment md5_hex range SplitHostPort ParseIP ParseAddrPort Split_total ParseIP_length
    w tr w1 I R ltac:(lia)) as [I1 _].
  destruct (write_step _ _ _ _ _ I1 E) as (gs2 & O2 & P2 & H2). exists (gs1 ++ gs2).
  rewrite O2, O1, encs_app, app_assoc. split_and!; [done|by apply Forall_app|]. intros i. rewrite psh_app, H1, H2.
  unfold written. rewrite bind_app. cbn. by rewrite app_nil_r.
Qed.

Lemma payload_keeps_open i gs : Forall payload_frame gs -> Forall (keeps_open i) gs.
Proof.
  intros H. eapply Forall_impl; [exact H|]. intros f [Wf Hc]. split_and!; [done| |].
  - unfold harmless. tauto.
  - intros [[Hc'|Hc'] _]; rewrite Hc' in Hc; by destruct Hc.
Qed.

(** * No deadlock *)

(** Steps that move data: a round of the read loop, a read that returns bytes. *)
Definition moves (x : act * out) : Prop :=
  match x with
  | (ARun, ORun Loop) => True
  | (ARead _ _, OBytes b) => b <> []
  | _ => False
  end.

(** Bytes still to be moved, those in the connection twice. *)
Definition to_move (w : world) : nat :=
  (2 * length (inp (w_sys w)) + sum_list_with (length ∘ view) (objs (ses_of w)))%nat.

Definition steady (f : frame) : Prop := frame_wf f /\ harmless f /\ cmd f <> cmdFIN /\ cmd f <> cmdSYNACK.

Lemma steady_keeps_open i gs : Forall steady gs -> Forall (keeps_open i) gs.
Proof. intros H. eapply Forall_impl; [exact H|]. intros f (Wf & Hh & H1 & H2). split_and!; [done..|]. by intros [[?|?] _]. Qed.

(** The states in which only data flows. *)
Record moving (gs : list frame) (w : world) : Prop := {
  mv_inv : winv w;
  mv_open : closed (ses_of w) = false;
  mv_inp : inp (w_sys w) = encs gs;
  mv_gs : Forall steady gs;
  mv_few : Z.of_nat (length (objs (ses_of w))) + 1 < 2 ^ 32 }.

Lemma sum_same {A} (f : A -> nat) (l l' : list A) : length l' = length l ->
  (forall r x, l !! r = Some x -> exists x', l' !! r = Some x' /\ (f x' <= f x)%nat) -> (sum_list_with f l' <= sum_list_with f l)%nat.
Proof.
  revert l'. induction l as [|x l IH]; intros [|x' l'] L H; try done. cbn [sum_list_with].
  destruct (H 0%nat x eq_refl) as (y & [= <-] & Hy). injection L as L. specialize (IH l' L (fun r => H (S r))). lia.
Qed.

Lemma sum_bump {A} (f : A -> nat) k : forall r0 (l l' : list A), length l' = length l ->
  (forall r x, l !! r = Some x -> exists x', l' !! r = Some x' /\ (f x' <= f x + if decide (r = r0) then k else 0)%nat) ->
  (sum_list_with f l' <= sum_list_with f l + k)%nat.
Proof.
  intros r0 l. revert r0. induction l as [|x l IH]; intros r0 [|x' l'] L H; try done; [cbn; lia|]. cbn [sum_list_with].
  destruct (H 0%nat x eq_refl) as (y & [= <-] & Hy). injection L as L. destruct r0 as [|r0].
  - rewrite decide_True in Hy by done. assert (sum_list_with f l' <= sum_list_with f l)%nat; [|lia]. apply sum_same; [done|].
    intros r z Hz. destruct (H (S r) z Hz) as (z' & ? & Hle). exists z'. rewrite decide_False in Hle by done. split; [done|lia].
  - rewrite decide_False in Hy by done.
    enough (sum_list_with f l' <= sum_list_with f l + k)%nat by lia. apply (IH r0); [done|]. intros r z Hz.
    destruct (H (S r) z Hz) as (z' & ? & Hle). exists z'. split; [done|]. repeat case_decide; lia.
Qed.

Lemma sum_insert {A} (f : A -> nat) (l : list A) r x y : l !! r = Some x ->
  (sum_list_with f (<[r := y]> l) + f x = sum_list_with f l + f y)%nat.
Proof. revert r. induction l as [|z l IH]; intros [|r] E; try done.
  - injection E as ->. cbn. lia.
  - specialize (IH r E). change (<[S r := y]> (z :: l)) with (z :: <[r := y]> l). cbn [sum_list_with]. lia.
Qed.

Lemma sum_pos {A} (f : A -> nat) (l : list A) : sum_list_with f l <> 0%nat -> exists r x, l !! r = Some x /\ f x <> 0%nat.
Proof.
  induction l as [|x l IH]; [done|]. cbn. intros H. destruct (decide (f x = 0%nat)) as [Hx|]; [|by exists 0%nat, x].
  destruct IH as (r & y & E & Hy); [lia|]. by exists (S r), y.
Qed.

Lemma psh_length i f : (length (psh i [f]) <= length (data f))%nat.
Proof. unfold psh. rewrite filter_cons. case_decide; cbn; len. Qed.

Lemma run_moves gs w w' : moving gs w -> step ARun w = Ret (Some (w', ORun Loop)) ->
  exists gs', moving gs' w' /\ (to_move w' < to_move w)%nat /\ gs' `suffix_of` gs.
Proof.
  intros M E. destruct (mv_inv _ _ M) as [W P]. pose proof (mv_inp _ _ M) as Hi.
  pose proof (exec_ok environment md5_hex range SplitHostPort ParseIP ParseAddrPort Split_total ParseIP_length ARun w (mv_inv _ _ M) (mv_few _ _ M)) as N.
  rewrite E in N. destruct N as [I' _]. cbn [exec] in E. unfold run_round in E.
  destruct gs as [|g gs].
  { exfalso. rewrite (st_bind_Ret _ _ _ _ _ (run_step_end _ (mv_open _ _ M) Hi)) in E.
    destruct (session_Close_ok [] (ses_of w) W) as (s' & Ec & _).
    by rewrite (st_bind_Ret _ _ _ _ _ (on_ses_Ret _ _ _ _ Ec)) in E. }
  pose proof (mv_gs _ _ M) as [(Wf & Hh & N1 & N2) Hgs]%Forall_cons.
  destruct (run_frame (w_sys w) g (encs gs) W (mv_open _ _ M) Hi Wf Hh) as (y' & x & Er & Ho).
  destruct (run_step_keeps environment md5_hex range (w_sys w) W) as (y2 & x2 & Er2 & K). rewrite Er in Er2. injection Er2 as <- <-.
  rewrite (st_bind_Ret _ _ _ _ _ Er) in E. destruct Ho as [[-> _]|(-> & Hin & R)]; [done|]. injection E as <-.
  destruct (K ltac:(done)) as [_ L]. destruct R as [Rc R]. exists gs. split; [|split; [|by exists [g]]].
  - constructor; try done; cbn; [by rewrite Rc, (mv_open _ _ M)|]. rewrite L. apply M.
  - unfold to_move. cbn [w_sys]. rewrite Hin, Hi. change (encs (g :: gs)) with (enc g ++ encs gs). rewrite length_app, length_enc.
    assert (sum_list_with (length ∘ view) (objs (ses y')) <= sum_list_with (length ∘ view) (objs (ses_of w)) + length (data g))%nat; [|lia].
    apply (sum_bump _ _ (Z.to_nat (f_sid g - 1))); [done|]. intros r o Eo.
    destruct (R r o Eo) as (o' & Eo' & _ & _ & Hv); [by intros [[?|?] _]|]. exists o'. split; [done|]. cbn. rewrite Hv, length_app.
    case_decide as Hr; [pose proof (psh_length (id_ o) g); destruct (st_closed o); cbn [length]; lia|].
    destruct (st_closed o); [cbn; lia|]. rewrite psh_other; [cbn; lia|]. intros [_ Hs].
    pose proof (w_ids _ _ W r o Eo). lia.
Qed.

Lemma read_moves gs w w' r k b : moving gs w -> step (ARead r k) w = Ret (Some (w', OBytes b)) -> b <> [] ->
  moving gs w' /\ (to_move w' < to_move w)%nat.
Proof.
  intros M E Hb. destruct (mv_inv _ _ M) as [W P].
  pose proof (exec_ok environment md5_hex range SplitHostPort ParseIP ParseAddrPort Split_total ParseIP_length (ARead r k) w (mv_inv _ _ M) (mv_few _ _ M)) as N.
  rewrite E in N. destruct N as [I' _]. cbn [exec] in E. unfold on_stream, on_session, stream_Read in E.
  destruct (objs (ses_of w) !! r) as [o|] eqn:Eo; [|done]. case_decide as Hk; [by injection E as _ <-|].
  destruct (readLocked_ok environment _ _ r o k W Eo ltac:(lia)) as (s' & x & o' & Er & _ & [O C] & _ & _ & R).
  rewrite Er in E. destruct x as [b'|e|]; cbn in E; [|done..]. injection E as <- <-. destruct R as (_ & _ & R).
  assert (Hc : closed s' = closed (ses_of w)) by by apply (f_equal closed) in C. split.
  - constructor; try done; cbn; [by rewrite Hc, (mv_open _ _ M)|apply M|apply M|]. rewrite O, length_insert. apply M.
  - unfold to_move. cbn [w_sys inp ses]. rewrite O.
    pose proof (sum_insert (length ∘ view) _ _ _ o' Eo) as S. cbn [compose] in S. rewrite R, length_app in S.
    assert (length b' <> 0)%nat by by destruct b'. lia.
Qed.

Lemma read_enabled w r o : winv w -> objs (ses_of w) !! r = Some o -> view o <> [] ->
  exists w' b, step (ARead r 1) w = Ret (Some (w', OBytes b)) /\ b <> [].
Proof.
  intros [W _] Eo V. cbn [exec]. unfold on_stream, on_session, stream_Read. rewrite Eo, decide_False by done.
  destruct (readLocked_ok environment _ _ r o 1 W Eo ltac:(lia)) as (s' & x & o' & -> & _ & _ & _ & _ & R).
  destruct x as [b|e|]; [|by destruct R..]. eexists _, b. split; [reflexivity|apply R].
Qed.

(** A full queue has something to read. *)
Lemma full_view o : obj_wf o -> (inbound_cap <= length (inbound o))%nat -> view o <> [].
Proof.
  intros W L V. destruct (view_nil o W V) as (_ & E & _). rewrite E in L. unfold inbound_cap in L. cbn in L. lia.
Qed.

Lemma progress gs w : moving gs w -> to_move w <> 0%nat -> exists a x w', moves (a, x) /\ step a w = Ret (Some (w', x)).
Proof.
  intros M H. destruct (mv_inv _ _ M) as [W P]. pose proof (mv_inp _ _ M) as Hi.
  assert (Read : forall r o, objs (ses_of w) !! r = Some o -> view o <> [] -> exists a x w', moves (a, x) /\ step a w = Ret (Some (w', x))).
  { intros r o Eo V. destruct (read_enabled w r o (mv_inv _ _ M) Eo V) as (w' & b & E & Hb). by exists (ARead r 1), (OBytes b), w'. }
  destruct gs as [|g gs].
  { unfold to_move in H. rewrite Hi in H. cbn in H. destruct (sum_pos _ _ H) as (r & o & Eo & Hv). eapply Read; [done|].
    intros V. apply Hv. cbn. by rewrite V. }
  pose proof (mv_gs _ _ M) as [(Wf & Hh & N1 & N2) Hgs]%Forall_cons.
  destruct (run_frame (w_sys w) g (encs gs) W (mv_open _ _ M) Hi Wf Hh) as (y' & x & Er & [(-> & r & o & _ & _ & Eo & L)|(-> & _)]).
  - eapply Read; [done|]. apply full_view; [by eapply obj_at|done].
  - exists ARun, (ORun Loop), (MkW y' (w_ps w)). split; [done|]. cbn [exec]. unfold run_round. by rewrite (st_bind_Ret _ _ _ _ _ Er).
Qed.

Lemma moves_bound gs w tr w' : moving gs w -> steps w tr w' -> Forall moves tr ->
  exists gs', moving gs' w' /\ (length tr + to_move w' <= to_move w)%nat.
Proof.
  intros M. induction 1 as [|tr w1 a x w2 R IH E]; intros Hm; [exists gs; split; [done|cbn; lia]|].
  apply Forall_app in Hm as [Hm [Ha _]%Forall_cons]. destruct (IH Hm) as (gs1 & M1 & L1). rewrite length_app. cbn [length].
  destruct a; try done; destruct x as [| | | | |[]]; try done; cbn [moves] in Ha.
  - destruct (run_moves _ _ _ M1 E) as (gs2 & M2 & L2 & _). exists gs2. split; [done|lia].
  - destruct (read_moves _ _ _ _ _ _ M1 E Ha) as [M2 L2]. exists gs1. split; [done|lia].
Qed.

Lemma moves_spare r x : moves x -> spares r x.1.
Proof. destruct x as [[] []]; done. Qed.

Lemma moved_all gs w r o : moving gs w -> to_move w = 0%nat -> objs (ses_of w) !! r = Some o -> gs = [] /\ view o = [].
Proof.
  intros M H Eo. unfold to_move in H. rewrite (mv_inp _ _ M) in H. split.
  - destruct gs as [|g gs]; [done|]. change (encs (g :: gs)) with (enc g ++ encs gs) in H. rewrite length_app, length_enc in H. lia.
  - pose proof (sum_insert (length ∘ view) _ _ _ o Eo) as S. rewrite list_insert_id in S by done.
    destruct (decide (view o = [])); [done|]. exfalso.
    pose proof (sum_insert (length ∘ view) _ _ _ (newStream_ 0) Eo) as S2. cbn in S2.
    assert (length (view o) <> 0)%nat by by destruct (view o). lia.
Qed.

(** C14: no deadlock between the read loop and the readers of an AnyTLS session.  While the peer's
    remaining input consists of frames that end neither the session nor a stream, and the
    users only read: every schedule of rounds of the read loop and of reads is finite,
    bounded by the bytes still to be moved; as long as bytes are left, in the connection
    or in a queue, some reader or the read loop can go on, although a full queue of one
    stream stops the loop for all; and when none are left, every open stream has
    delivered exactly its buffered bytes followed by the payloads addressed to it. *)
Theorem anytls_no_deadlock gs w tr w' : winv w -> closed (ses_of w) = false -> inp (w_sys w) = encs gs -> Forall steady gs ->
  Z.of_nat (length (objs (ses_of w)) + to_move w) + 1 < 2 ^ 32 -> steps w tr w' -> Forall moves tr ->
  (length tr + to_move w' <= to_move w)%nat /\
  (to_move w' <> 0%nat -> exists a x w'', moves (a, x) /\ step a w' = Ret (Some (w'', x))) /\
  (to_move w' = 0%nat -> forall r o, objs (ses_of w) !! r = Some o -> st_closed o = false -> untapped r w ->
     got r tr = view o ++ psh (id_ o) gs).
Proof.
  intros I Hc Hi Hg Hf R Hm. assert (M : moving gs w) by (constructor; try done; lia).
  destruct (moves_bound gs w tr w' M R Hm) as (gs' & M' & L). split_and!; [done|by apply (progress gs')|].
  intros Hz r o Eo Ho U. assert (F : flows r gs w o) by (constructor; try done; by apply steady_keeps_open).
  destruct (reaches_conserves r gs w o tr w' F R) as (gs2 & o2 & F2 & _ & _ & C).
  { eapply Forall_impl; [exact Hm|]. intros x. apply moves_spare. }
  { lia. }
  destruct (moved_all gs' w' r o2 M' Hz (fl_obj _ _ _ _ F2)) as [-> V].
  assert (gs2 = []) as ->.
  { pose proof (mv_inp _ _ M') as E1. rewrite (fl_inp _ _ _ _ F2) in E1. destruct gs2 as [|g gs2]; [done|].
    apply (f_equal length) in E1. change (encs (g :: gs2)) with (enc g ++ encs gs2) in E1. rewrite length_app, length_enc in E1. cbn in E1. lia. }
  unfold pend in C. rewrite V, Ho in C. destruct (st_closed o2); cbn in C; by rewrite ?app_nil_r in C.
Qed.
End delivery.

(** * From one end to the other *)

Section link.
Context {BS : BufferSource} (envA envB : nat -> wenv).
Context (md5_hex : list byte -> list byte) (range : gmap (list byte) (list byte) -> list (list byte * list byte)).
Context (SplitHostPort : list byte -> res (list byte * list byte)) (ParseIP : list byte -> list byte).
Context (ParseAddrPort : list byte -> AddrPort).
(** [net.SplitHostPort] returns; [net.ParseIP] returns nil or 16 bytes. *)
Hypothesis Split_total : forall s, SplitHostPort s <> Panic.
Hypothesis ParseIP_length : forall h, ParseIP h = [] \/ length (ParseIP h) = 16%nat.

(** C2: data transfer over AnyTLS.  When the calls of [Write] on the streams of one session all
    succeed, over any transport, padding scheme and split of the data into calls, the
    bytes they put on the wire are such that a session whose input they are, under any
    interleaving of its read loop with other calls that does not close the session or
    the stream numbered [i], gives the readers of stream [i] exactly what was written
    to the stream of that number, in order: what was read, what is buffered and what is
    still on the wire make up what was written; padding and the other streams leave no
    trace. *)
Theorem anytls_stream_delivery wA trA wA' : winv wA ->
  reaches envA md5_hex range SplitHostPort ParseIP ParseAddrPort wA trA wA' -> Forall written_ok trA ->
  Z.of_nat (length (objs (ses (w_sys wA))) + length trA) < 2 ^ 32 ->
  exists bs, t_out (conn (ses (w_sys wA'))) = t_out (conn (ses (w_sys wA))) ++ bs /\
  forall wB r o trB wB', winv wB -> inp (w_sys wB) = bs -> objs (ses (w_sys wB)) !! r = Some o -> st_closed o = false ->
    view o = [] -> untapped r wB -> reaches envB md5_hex range SplitHostPort ParseIP ParseAddrPort wB trB wB' ->
    Forall (fun x => spares r x.1) trB -> Z.of_nat (length (objs (ses (w_sys wB))) + length trB) < 2 ^ 32 ->
    exists o' gs', objs (ses (w_sys wB')) !! r = Some o' /\ inp (w_sys wB') = encs gs' /\
      written (id_ o) trA = got r trB ++ view o' ++ pend o' gs'.
Proof.
  intros IA RA Hw Hf. destruct (writes_carry envA md5_hex range SplitHostPort ParseIP ParseAddrPort Split_total ParseIP_length
    wA trA wA' IA RA Hw Hf) as (gs & O & P & Hp).
  exists (encs gs). split; [done|]. intros wB r o trB wB' IB Hi Eo Ho V U RB Hs HfB.
  assert (F : flows r gs wB o) by (constructor; try done; by apply payload_keeps_open).
  destruct (reaches_conserves envB md5_hex range SplitHostPort ParseIP ParseAddrPort Split_total ParseIP_length r gs wB o trB wB' F RB Hs HfB)
    as (gs' & o' & F' & _ & _ & C).
  exists o', gs'. split_and!; [apply F'..|]. rewrite C, V. unfold pend. by rewrite Ho, Hp.
Qed.
End link.

(** * Two sessions with one stream each *)

(** A session with its first stream open, and the input [i]. *)
Definition demo_first : world :=
  match demo_play [AOpen (lit "a")] (demo_world []) with Some (_, w) => w | None => demo_world [] end.
Definition demo_open (i : stream) : world := MkW (MkSys (ses (w_sys demo_first)) i) (w_ps demo_first).

Lemma winv_input w i : winv w -> winv (MkW (MkSys (ses (w_sys w)) i) (w_ps w)).
Proof. done. Qed.

Lemma demo_open_inv i : winv (demo_open i).
Proof.
  apply winv_input. eapply (reaches_inv (BS := demo_pool) demo_env id map_to_list demo_host_port (fun _ => []) (fun _ => AddrPortZero)
    ltac:(done) (fun _ => or_introl eq_refl) (demo_world []) [(AOpen (lit "a"), ODone)]).
  - apply fresh_winv; [done|apply demo_padding_wf].
  - apply (demo_reaches [AOpen (lit "a")]). vm_compute. reflexivity.
  - vm_compute. done.
Qed.

Definition demo_writes : list act := [AWrite 0 (lit "hello "); AWrite 0 (lit "world")].
Definition demo_reads : list act := [ARun; ARead 0 4; ARun; AOpen (lit "b"); ARun; ARead 0 9; ARead 0 9].
Definition demo_wire : stream :=
  match demo_play demo_writes (demo_open []) with
  | Some (_, w) => drop (length (t_out (conn (ses (w_sys (demo_open [])))))) (t_out (conn (ses (w_sys w))))
  | None => []
  end.

Lemma anytls_stream_delivery_witness : exists trA wA' trB wB',
  demo_play demo_writes (demo_open []) = Some (trA, wA') /\ demo_play demo_reads (demo_open demo_wire) = Some (trB, wB') /\
  written 1 trA = lit "hello world" /\ got 0 trB = lit "hello world" /\
  exists o' gs', objs (ses (w_sys wB')) !! 0%nat = Some o' /\ inp (w_sys wB') = encs gs' /\
    written 1 trA = got 0 trB ++ view o' ++ pend o' gs'.
Proof.
  eexists _, _, _, _. split; [vm_compute; reflexivity|]. split; [vm_compute; reflexivity|].
  split; [reflexivity|]. split; [reflexivity|].
  edestruct (anytls_stream_delivery (BS := demo_pool) demo_env demo_env id map_to_list demo_host_port (fun _ => []) (fun _ => AddrPortZero)
    ltac:(done) (fun _ => or_introl eq_refl) (demo_open [])) as (bs & Hbs & H).
  - apply demo_open_inv.
  - apply (demo_reaches demo_writes). vm_compute. reflexivity.
  - repeat constructor; by eexists _, _, _.
  - vm_compute. done.
  - edestruct (H (demo_open demo_wire) 0%nat) as (o' & gs' & H1 & H2 & H3).
    + apply demo_open_inv.
    + apply (app_inv_head (t_out (conn (ses (w_sys (demo_open [])))))). rewrite <- Hbs. vm_compute. reflexivity.
    + vm_compute. reflexivity.
    + done.
    + done.
    + constructor.
    + apply (demo_reaches demo_reads). vm_compute. reflexivity.
    + repeat constructor; done.
    + vm_compute. done.
    + exists o', gs'. split_and!; [exact H1|exact H2|exact H3].
Defined.

Definition demo_frames : list frame := [MkFrame cmdPSH 1 (lit "hello "); waste 5; MkFrame cmdPSH 1 (lit "world")].
Definition demo_moves : list act := [ARun; ARead 0 4; ARun; ARun; ARead 0 9; ARead 0 9].

Lemma anytls_no_deadlock_witness : exists tr w',
  demo_play demo_moves (demo_open (encs demo_frames)) = Some (tr, w') /\ to_move w' = 0%nat /\ got 0 tr = lit "hello world".
Proof.
  eexists _, _. split; [vm_compute; reflexivity|]. split; [vm_compute; reflexivity|].
  edestruct (anytls_no_deadlock (BS := demo_pool) demo_env id map_to_list demo_host_port (fun _ => []) (fun _ => AddrPortZero)
    ltac:(done) (fun _ => or_introl eq_refl) demo_frames (demo_open (encs demo_frames))) as (_ & _ & H).
  - apply demo_open_inv.
  - done.
  - done.
  - repeat apply Forall_cons_2; try apply Forall_nil_2; 
      (split_and!; [split; [apply Nat.leb_le; vm_compute; reflexivity|done]|unfold harmless; cbn; tauto|done..]).
  - vm_compute. done.
  - apply (demo_reaches demo_moves). vm_compute. reflexivity.
  - repeat constructor; done.
  - etrans; [eapply (H ltac:(vm_compute; reflexivity) 0%nat); [vm_compute; reflexivity|done|constructor]|vm_compute; reflexivity].
Defined.
