(* ===== verification/SsAddr.v ===== *)
(** The address header of Shadowsocks (protocol/shadowsocks/addr.go), its
    allocation-free writer and the splitting of decrypted datagrams
    (protocol/shadowsocks/udp_conn.go).

    [net.ParseIP] is a parameter; slices taken from the pool hold arbitrary
    stale bytes. *)

From S2P Require Import Prelude NetIP Pool Metadata.
From Stdlib Require Import Strings.Byte.

Definition ParseMetadataType (t : byte) : MetadataType :=
  match t with
  | x01 => MetadataTypeIPv4
  | x03 => MetadataTypeDomain
  | x04 => MetadataTypeIPv6
  | x05 => MetadataTypeMsg
  | _ => MetadataTypeInvalid
  end.

Definition MetadataTypeToByte (t : MetadataType) : byte :=
  match t with
  | MetadataTypeIPv4 => x01
  | MetadataTypeDomain => x03
  | MetadataTypeIPv6 => x04
  | MetadataTypeMsg => x05
  | MetadataTypeInvalid => x00
  end.

(** [Metadata]: the shared metadata and the length of a message body. *)
Record SMetadata := MkSM { sbase : Metadata; LenMsgBody : Z }.

(** [new(Metadata)] *)
Definition newSMetadata (t : MetadataType) (host : list byte) (port : Z) (ip : Addr) (cmd len : Z) : SMetadata :=
  MkSM (MkMeta t host port ip cmd [] false) len.

Definition ErrInvalidMetadata (e : string) : error := Wrap "invalid metadata" (Errorf e).

Definition BytesSizeForMetadata (firstTwoByte : list byte) : res nat :=
  if decide (length firstTwoByte < 2)%nat then Fail (ErrInvalidMetadata "too short") else
  t ← index firstTwoByte 0;
  match ParseMetadataType t with
  | MetadataTypeIPv4 => Ret (1 + 4 + 2)%nat
  | MetadataTypeIPv6 => Ret (1 + 16 + 2)%nat
  | MetadataTypeDomain =>
      lenDN ← index firstTwoByte 1;
      Ret (1 + 1 + Z.to_nat (b2z lenDN) + 2)%nat
  | MetadataTypeMsg => Ret (1 + 1 + 4)%nat
  | MetadataTypeInvalid => Fail (ErrInvalidMetadata "invalid type: %v")
  end.

(** The byte-order reads take the first bytes of the rest of the slice. *)
Definition NewMetadata (b : list byte) : res SMetadata :=
  if decide (length b < 2)%nat then Fail ErrUnexpectedEOF else
  t ← index b 0;
  n ← BytesSizeForMetadata b;
  if decide (length b < n)%nat then Fail (ErrInvalidMetadata "too short") else
  match ParseMetadataType t with
  | MetadataTypeIPv4 =>
      ip ← slice b 1 5;
      port ← slice b 5 7;
      Ret (newSMetadata MetadataTypeIPv4 [] (be_get port) (fst (AddrFromSlice ip)) 0 0)
  | MetadataTypeIPv6 =>
      ip ← slice b 1 17;
      port ← slice b 17 19;
      Ret (newSMetadata MetadataTypeIPv6 [] (be_get port) (fst (AddrFromSlice ip)) 0 0)
  | MetadataTypeDomain =>
      l ← index b 1;
      let lenDN := Z.to_nat (b2z l) in
      host ← slice b 2 (2 + lenDN);
      port ← slice b (2 + lenDN) (2 + lenDN + 2);
      Ret (newSMetadata MetadataTypeDomain host (be_get port) AddrZero 0 0)
  | MetadataTypeMsg =>
      cmd ← index b 1;
      len ← slice b 2 6;
      Ret (newSMetadata MetadataTypeMsg [] 0 AddrZero (b2z cmd) (be_get len))
  | MetadataTypeInvalid => Fail (ErrInvalidMetadata "invalid type: %v")
  end.

(** [net.IP.To16]: the mapped form of a 4-byte address. *)
Definition To16 (ip : list byte) : list byte :=
  if decide (length ip = 4%nat) then replicate 10 x00 ++ [xff; xff] ++ ip
  else if decide (length ip = 16%nat) then ip else [].

Section ip_text.
(** [net.ParseIP], the empty list for nil. *)
Context (ParseIP : list byte -> list byte) {BS : BufferSource}.

(** The raw address of the metadata, [None] on an address that is not of the
    type. *)
Definition ip4_of (m : Metadata) : res (option (list byte)) :=
  if Is4 (mIP m) then Ret (Some (AsSlice (mIP m)))
  else
    let ip := ParseIP (Hostname m) in
    if decide (ip <> [] /\ To4 ip <> []) then ip4 ← slice (To4 ip) 0 4; Ret (Some ip4) else Ret None.
Definition ip16_of (m : Metadata) : res (option (list byte)) :=
  if bool_decide (mIP m <> AddrZero) && negb (Is4 (mIP m)) then Ret (Some (AsSlice (mIP m)))
  else
    let ip := ParseIP (Hostname m) in
    if decide (ip <> [] /\ To16 ip <> []) then ip16 ← slice (To16 ip) 0 16; Ret (Some ip16) else Ret None.

(** For an invalid type the slice stays nil and the store of the type byte
    panics. *)
Definition BytesFromPool (m : SMetadata) : res (list byte) :=
  let meta := sbase m in
  b ← match Type_ meta with
      | MetadataTypeIPv4 =>
          ip4 ← ip4_of meta;
          match ip4 with
          | None => Fail (Errorf "not a valid ipv4: %v (type %v)")
          | Some ip4 =>
              '(b, _) ← copy_at (src_get (1 + 4 + 2)) 1 ip4;
              write_at b 5 (be16 (mPort meta))
          end
      | MetadataTypeIPv6 =>
          ip16 ← ip16_of meta;
          match ip16 with
          | None => Fail (Errorf "not a valid ipv6: %v (type %v)")
          | Some ip16 =>
              '(b, _) ← copy_at (src_get (1 + 16 + 2)) 1 ip16;
              write_at b 17 (be16 (mPort meta))
          end
      | MetadataTypeDomain =>
          let lenDN := length (Hostname meta) in
          if decide (255 < lenDN)%nat then Fail (Errorf "domain name too long: %d") else
          b ← set_at (src_get (1 + 1 + lenDN + 2)) 1 (z2b (Z.of_nat lenDN));
          '(b, _) ← copy_at b 2 (Hostname meta);
          write_at b (2 + lenDN) (be16 (mPort meta))
      | MetadataTypeMsg =>
          b ← set_at (src_get (1 + 1 + 4)) 1 (z2b (Cmd meta));
          write_at b 2 (be32 (LenMsgBody m))
      | MetadataTypeInvalid => Ret []
      end;
  set_at b 0 (MetadataTypeToByte (Type_ meta)).

(** [Bytes]: a copy of the pooled bytes. *)
Definition Metadata_Bytes (m : SMetadata) : res (list byte) := BytesFromPool m.

Definition metadataLen (t : MetadataType) : nat :=
  match t with
  | MetadataTypeIPv4 => 1 + 4 + 2
  | MetadataTypeIPv6 => 1 + 16 + 2
  | MetadataTypeDomain => 1 + 1 + 255 + 2
  | MetadataTypeMsg => 1 + 1 + 4
  | MetadataTypeInvalid => 19
  end.

(** Unlike [BytesFromPool] it leaves the address bytes as they are when there is
    no address of the type, and shortens a long name. *)
Definition writeMetadataInline (buf : list byte) (m : SMetadata) : res (list byte * nat) :=
  let meta := sbase m in
  buf ← set_at buf 0 (MetadataTypeToByte (Type_ meta));
  match Type_ meta with
  | MetadataTypeIPv4 =>
      buf ←
        (if Is4 (mIP meta) then '(buf, _) ← copy_at buf 1 (AsSlice (mIP meta)); Ret buf
         else
           let ip := ParseIP (Hostname meta) in
           if decide (ip <> []) then ip4 ← slice (To4 ip) 0 4; '(buf, _) ← copy_at buf 1 ip4; Ret buf else Ret buf);
      buf ← write_at buf 5 (be16 (mPort meta));
      Ret (buf, 7%nat)
  | MetadataTypeIPv6 =>
      buf ←
        (if bool_decide (mIP meta <> AddrZero) && negb (Is4 (mIP meta)) then
           '(buf, _) ← copy_at buf 1 (AsSlice (mIP meta)); Ret buf
         else
           let ip := ParseIP (Hostname meta) in
           if decide (ip <> []) then ip16 ← slice ip 0 16; '(buf, _) ← copy_at buf 1 ip16; Ret buf else Ret buf);
      buf ← write_at buf 17 (be16 (mPort meta));
      Ret (buf, 19%nat)
  | MetadataTypeDomain =>
      let lenDN := Nat.min (length (Hostname meta)) 255 in
      buf ← set_at buf 1 (z2b (Z.of_nat lenDN));
      '(buf, _) ← copy_at buf 2 (take lenDN (Hostname meta));
      buf ← write_at buf (2 + lenDN) (be16 (mPort meta));
      Ret (buf, (4 + lenDN)%nat)
  | MetadataTypeMsg =>
      buf ← set_at buf 1 (z2b (Cmd meta));
      buf ← write_at buf 2 (be32 (LenMsgBody m));
      Ret (buf, 6%nat)
  | MetadataTypeInvalid => Ret (buf, 0%nat)
  end.

(** One decrypted datagram: the reply and its source. *)
Definition splitDecryptedUdp (plain : list byte) : res (list byte * AddrPort) :=
  sizeMetadata ← BytesSizeForMetadata plain;
  mdata ← NewMetadata plain;
  match Type_ (sbase mdata) with
  | MetadataTypeIPv4 | MetadataTypeIPv6 =>
      if decide (mIP (sbase mdata) = AddrZero) then Fail (Errorf "ip metadata without a parsed address (type %v)") else
      payload ← slice_from plain sizeMetadata;
      Ret (payload, MkAddrPort (mIP (sbase mdata)) (mPort (sbase mdata)))
  | _ => Fail (Errorf "bad metadata type: %v; should be ip")
  end.

(** * The wire form *)

(** The address bytes of a metadata whose text or parsed address fits its type. *)
Definition raw4 (m : Metadata) : list byte := if Is4 (mIP m) then AsSlice (mIP m) else To4 (ParseIP (Hostname m)).
Definition raw16 (m : Metadata) : list byte :=
  if bool_decide (mIP m <> AddrZero) && negb (Is4 (mIP m)) then AsSlice (mIP m) else ParseIP (Hostname m).

Definition smeta_bytes (m : SMetadata) : list byte :=
  let meta := sbase m in
  MetadataTypeToByte (Type_ meta) ::
  match Type_ meta with
  | MetadataTypeIPv4 => raw4 meta ++ be16 (mPort meta)
  | MetadataTypeIPv6 => raw16 meta ++ be16 (mPort meta)
  | MetadataTypeDomain => z2b (Z.of_nat (length (Hostname meta))) :: Hostname meta ++ be16 (mPort meta)
  | MetadataTypeMsg => z2b (Cmd meta) :: be32 (LenMsgBody m)
  | MetadataTypeInvalid => []
  end.

Definition smeta_ok (m : SMetadata) : Prop :=
  0 <= mPort (sbase m) < 65536 /\
  match Type_ (sbase m) with
  | MetadataTypeIPv4 => length (raw4 (sbase m)) = 4%nat
  | MetadataTypeIPv6 => length (raw16 (sbase m)) = 16%nat
  | MetadataTypeDomain => (length (Hostname (sbase m)) <= 255)%nat
  | MetadataTypeMsg => 0 <= Cmd (sbase m) < 256 /\ 0 <= LenMsgBody m < 2 ^ 32
  | MetadataTypeInvalid => False
  end.

(** What the peer reads from it. *)
Definition smeta_received (m : SMetadata) : SMetadata :=
  let meta := sbase m in
  match Type_ meta with
  | MetadataTypeIPv4 => newSMetadata MetadataTypeIPv4 [] (mPort meta) (Addr4 (raw4 meta)) 0 0
  | MetadataTypeIPv6 => newSMetadata MetadataTypeIPv6 [] (mPort meta) (Addr6 (raw16 meta)) 0 0
  | MetadataTypeDomain => newSMetadata MetadataTypeDomain (Hostname meta) (mPort meta) AddrZero 0 0
  | MetadataTypeMsg => newSMetadata MetadataTypeMsg [] 0 AddrZero (Cmd meta) (LenMsgBody m)
  | MetadataTypeInvalid => m
  end.
End ip_text.

Section codec.
Context (ParseIP : list byte -> list byte) {BS : BufferSource}.
Abbreviation smeta_bytes := (smeta_bytes ParseIP).
Abbreviation smeta_ok := (smeta_ok ParseIP).

Lemma ip4_of_ok m : length (raw4 ParseIP m) = 4%nat -> ip4_of ParseIP m = Ret (Some (raw4 ParseIP m)).
Proof.
  unfold ip4_of, raw4. destruct (Is4 (mIP m)); [done|]. intros H.
  rewrite decide_True; [|split; intros E; rewrite E in H; done]. rewrite slice_eq by lia. rewrite drop_0, firstn_all2 by lia. done.
Qed.
Lemma ip16_of_ok m : length (raw16 ParseIP m) = 16%nat -> ip16_of ParseIP m = Ret (Some (raw16 ParseIP m)).
Proof.
  unfold ip16_of, raw16. destruct (_ && _); [done|]. intros H. unfold To16. rewrite (decide_False (P := length _ = 4%nat)), (decide_True (P := length _ = 16%nat)) by lia.
  rewrite decide_True; [|split; intros E; rewrite E in H; done]. rewrite slice_eq by lia. rewrite drop_0, firstn_all2 by lia. done.
Qed.

(** Filling a buffer behind its first [k] bytes with two fields. *)
Lemma fill2 {A} (f : list byte -> res A) (pre rest a p : list byte) n1 n2 : n1 = length pre -> n2 = (length pre + length a)%nat ->
  (length a + length p <= length rest)%nat ->
  ('(b, _) ← copy_at (pre ++ rest) n1 a; b ← write_at b n2 p; f b) = f (pre ++ a ++ p ++ drop (length a + length p) rest).
Proof.
  intros -> -> H. rewrite copy_at_app by lia. rewrite bind_ret, write_at_app by (rewrite ?length_app, ?length_drop; lia).
  rewrite bind_ret, drop_drop, <- !app_assoc. done.
Qed.

Lemma fill_addr (pre rest a p : list byte) n1 n2 (n : nat) : n1 = length pre -> n2 = (length pre + length a)%nat ->
  (length a + length p <= length rest)%nat ->
  (b ← ('(b, _) ← copy_at (pre ++ rest) n1 a; Ret b); b ← write_at b n2 p; Ret (b, n)) =
    Ret (pre ++ a ++ p ++ drop (length a + length p) rest, n).
Proof.
  intros -> -> H. rewrite copy_at_app by lia. rewrite !bind_ret, write_at_app by (rewrite ?length_app, ?length_drop; lia).
  rewrite bind_ret, drop_drop, <- !app_assoc. done.
Qed.

Lemma src_cons n : exists x l, src_get (S n) = [x] ++ l /\ length l = n.
Proof. pose proof (src_length (S n)) as H. destruct (src_get (S n)) as [|x l]; [done|]. exists x, l. split; [done|]. by injection H. Qed.

Lemma fill2_all (pre rest a p : list byte) n1 n2 : n1 = length pre -> n2 = (length pre + length a)%nat ->
  (length a + length p = length rest)%nat ->
  ('(b, _) ← copy_at (pre ++ rest) n1 a; write_at b n2 p) = Ret (pre ++ a ++ p).
Proof.
  intros -> -> H. rewrite copy_at_app by lia. rewrite bind_ret, write_at_app by (rewrite ?length_app, ?length_drop; lia).
  rewrite drop_ge by (rewrite length_drop; lia). by rewrite app_nil_r, <- app_assoc.
Qed.

Lemma BytesFromPool_ok m : smeta_ok m -> BytesFromPool ParseIP m = Ret (smeta_bytes m).
Proof.
  intros [Hp H]. unfold BytesFromPool, SsAddr.smeta_bytes. cbv zeta. destruct (Type_ (sbase m)); [..|done].
  - rewrite ip4_of_ok by done. rewrite bind_ret. destruct (src_cons 6) as (x & l & E & L). change (1 + 4 + 2)%nat with 7%nat. rewrite E.
    rewrite (fill2_all [x]) by (rewrite ?H, ?length_be_put; done). done.
  - rewrite ip16_of_ok by done. rewrite bind_ret. destruct (src_cons 18) as (x & l & E & L). change (1 + 16 + 2)%nat with 19%nat. rewrite E.
    rewrite (fill2_all [x]) by (rewrite ?H, ?length_be_put; done). done.
  - rewrite decide_False by lia. set (n := length (Hostname (sbase m))) in *.
    destruct (src_cons (n + 3)) as (x & l & E & L). replace (1 + 1 + n + 2)%nat with (S (n + 3)) by lia. rewrite E.
    rewrite (set_at_app [x]) by (cbn; lia). rewrite bind_ret.
    rewrite fill2_all by (rewrite ?length_be_put, ?length_drop; fold n; cbn; lia). done.
  - destruct (src_cons 5) as (x & l & E & L). change (1 + 1 + 4)%nat with 6%nat. rewrite E.
    rewrite (set_at_app [x]) by (cbn; lia). rewrite bind_ret, write_at_app by (rewrite ?length_be_put, ?length_drop; cbn; lia).
    rewrite drop_ge, app_nil_r by (rewrite ?length_be_put, ?length_drop; cbn; lia). done.
Qed.

Lemma writeMetadataInline_ok m buf : smeta_ok m -> (length (smeta_bytes m) <= length buf)%nat ->
  writeMetadataInline ParseIP buf m = Ret (smeta_bytes m ++ drop (length (smeta_bytes m)) buf, length (smeta_bytes m)).
Proof.
  intros [Hp H] L. unfold writeMetadataInline, SsAddr.smeta_bytes in *. cbv zeta in *. cbn [length] in *.
  rewrite set_at_0 by lia. rewrite bind_ret. destruct (Type_ (sbase m)); [..|done].
  - rewrite length_app, length_be_put, H in *. unfold raw4 in *. destruct (Is4 _).
    + rewrite fill_addr by (rewrite ?length_be_put, ?length_drop; cbn; lia). list_eq.
    + rewrite decide_True by (intros E; rewrite E in H; done). rewrite slice_eq by lia. rewrite drop_0, firstn_all2, bind_ret by lia.
      rewrite fill_addr by (rewrite ?length_be_put, ?length_drop; cbn; lia). list_eq.
  - rewrite length_app, length_be_put, H in *. unfold raw16 in *. destruct (_ && _).
    + rewrite fill_addr by (rewrite ?length_be_put, ?length_drop; cbn; lia). list_eq.
    + rewrite decide_True by (intros E; rewrite E in H; done). rewrite slice_eq by lia. rewrite drop_0, firstn_all2, bind_ret by lia.
      rewrite fill_addr by (rewrite ?length_be_put, ?length_drop; cbn; lia). list_eq.
  - set (n := length (Hostname (sbase m))) in *. rewrite Nat.min_l by lia. rewrite firstn_all2 by lia. cbn [length] in *. rewrite length_app, length_be_put in *. fold n in L.
    rewrite set_at_app by (rewrite ?length_drop; cbn; lia). rewrite bind_ret.
    rewrite fill2 by (rewrite ?length_be_put, ?length_drop; fold n; cbn; lia). list_eq.
  - cbn [length] in *. rewrite length_be_put in *. rewrite set_at_app by (rewrite ?length_drop; cbn; lia).
    rewrite bind_ret, write_at_app by (rewrite ?length_be_put, ?length_drop; cbn; lia). rewrite bind_ret. list_eq.
Qed.

Lemma smeta_bytes_two m : smeta_ok m -> exists t x l, smeta_bytes m = t :: x :: l.
Proof.
  intros [_ H]. unfold SsAddr.smeta_bytes. cbv zeta. destruct (Type_ (sbase m)); [..|done].
  - destruct (raw4 ParseIP (sbase m)); [done|]. cbn. eauto.
  - destruct (raw16 ParseIP (sbase m)); [done|]. cbn. eauto.
  - eauto.
  - eauto.
Qed.

Lemma BytesSize_ok m rest : smeta_ok m -> BytesSizeForMetadata (smeta_bytes m ++ rest) = Ret (length (smeta_bytes m)).
Proof.
  intros Hm. destruct (smeta_bytes_two m Hm) as (t & x & l & E). destruct Hm as [_ H].
  unfold BytesSizeForMetadata. rewrite decide_False by (rewrite E; cbn; lia). clear E. unfold SsAddr.smeta_bytes. cbv zeta. cbn [app]. rewrite index_0, bind_ret.
  destruct (Type_ (sbase m)); cbn [MetadataTypeToByte ParseMetadataType length]; [..|done].
  - by rewrite length_app, length_be_put, H.
  - by rewrite length_app, length_be_put, H.
  - cbn [app]. rewrite index_1, bind_ret. cbn [length]. rewrite length_app, length_be_put, b2z_z2b_small by lia. f_equal. lia.
  - by rewrite length_be_put.
Qed.

Lemma NewMetadata_ok m rest : smeta_ok m -> NewMetadata (smeta_bytes m ++ rest) = Ret (smeta_received ParseIP m).
Proof.
  intros Hm. destruct (smeta_bytes_two m Hm) as (t & x & l & E).
  unfold NewMetadata. rewrite decide_False by (rewrite E; cbn; lia). clear E.
  assert (index (smeta_bytes m ++ rest) 0 = Ret (MetadataTypeToByte (Type_ (sbase m)))) as -> by done. rewrite bind_ret, BytesSize_ok, bind_ret by done.
  rewrite (decide_False (P := (_ < _)%nat)) by (rewrite length_app; lia). destruct Hm as [Hp H].
  unfold SsAddr.smeta_bytes, smeta_received. cbv zeta. cbn [app].
  assert (Eg : be_get (be16 (mPort (sbase m))) = mPort (sbase m)) by (apply be_get_put_small; lia).
  destruct (Type_ (sbase m)); cbn [MetadataTypeToByte ParseMetadataType]; [..|done].
  - rewrite <- app_assoc. destruct (raw4 ParseIP (sbase m)) as [|a0 [|a1 [|a2 [|a3 [|]]]]]; try done. cbn [app].
    destruct (be16 (mPort (sbase m))) as [|p0 [|p1 [|]]] eqn:Eb; try (by pose proof (length_be_put 2 (mPort (sbase m))) as X; rewrite Eb in X).
    by rewrite <- Eg.
  - rewrite <- app_assoc. set (a := raw16 ParseIP (sbase m)) in *. set (p := be16 (mPort (sbase m))) in *.
    assert (Lp : length p = 2%nat) by apply length_be_put.
    rewrite (slice_eq _ 1 17) by (cbn; rewrite ?length_app; lia). rewrite bind_ret.
    change (drop 1 (x04 :: a ++ p ++ rest)) with (a ++ p ++ rest). rewrite take_app_length' by lia.
    rewrite slice_eq by (cbn; rewrite ?length_app; lia). rewrite bind_ret. change (drop 17 (x04 :: a ++ p ++ rest)) with (drop 16 (a ++ p ++ rest)).
    rewrite drop_app_length', take_app_length' by lia. rewrite Eg. unfold AddrFromSlice. rewrite (decide_False (P := length a = 4%nat)), decide_True by lia. done.
  - cbn [app]. rewrite index_1, bind_ret. set (h := Hostname (sbase m)) in *. rewrite b2z_z2b_small, Nat2Z.id by lia. cbv zeta.
    rewrite <- app_assoc. set (p := be16 (mPort (sbase m))) in *. assert (Lp : length p = 2%nat) by apply length_be_put.
    rewrite (slice_eq _ 2) by (cbn; rewrite ?length_app; lia). rewrite bind_ret, add_sub_cancel.
    change (drop 2 (x03 :: z2b (Z.of_nat (length h)) :: h ++ p ++ rest)) with (h ++ p ++ rest). rewrite take_app_length.
    rewrite slice_eq by (cbn; rewrite ?length_app; lia). rewrite bind_ret. rewrite add_sub_cancel.
    change (drop (2 + length h) (x03 :: z2b (Z.of_nat (length h)) :: h ++ p ++ rest)) with (drop (length h) (h ++ p ++ rest)).
    rewrite drop_app_length, take_app_length' by lia. by rewrite Eg.
  - destruct H as [Hc Hl]. cbn [app]. rewrite index_1, bind_ret, b2z_z2b_small by done.
    rewrite slice_eq by (cbn; rewrite ?length_app, ?length_be_put; lia). rewrite bind_ret.
    change (drop 2 (x05 :: ?c :: ?l)) with l. rewrite take_app_length' by (by rewrite length_be_put).
    rewrite be_get_put_small by done. done.
Qed.

(** Parsing arbitrary bytes never panics, and never reads past them. *)
Lemma BytesSize_total b : BytesSizeForMetadata b <> Panic.
Proof.
  unfold BytesSizeForMetadata. case_decide; [done|]. destruct b as [|t [|x b]]; cbn in *; [lia..|]. by destruct (ParseMetadataType t).
Qed.

Lemma NewMetadata_total b : NewMetadata b <> Panic /\
  (forall m n, NewMetadata b = Ret m -> BytesSizeForMetadata b = Ret n -> (n <= length b)%nat).
Proof.
  split.
  - unfold NewMetadata. case_decide as L; [done|]. destruct b as [|t [|x b]]; cbn [length] in *; [lia..|].
    rewrite index_0, bind_ret. pose proof (BytesSize_total (t :: x :: b)) as T. destruct (BytesSizeForMetadata (t :: x :: b)) as [n| |] eqn:E; try done.
    rewrite bind_ret. case_decide as L2; [done|]. unfold BytesSizeForMetadata in E. rewrite decide_False in E by done.
    rewrite index_0, bind_ret in E. destruct (ParseMetadataType t); rewrite ?index_1, ?bind_ret in *; injection E as <- || done; cbn [length] in *.
    + rewrite (slice_eq _ 1 5), bind_ret, slice_eq by (cbn [length]; lia). done.
    + rewrite (slice_eq _ 1 17), bind_ret, slice_eq by (cbn [length]; lia). done.
    + rewrite (slice_eq _ 2), bind_ret, slice_eq by (cbn [length]; lia). done.
    + rewrite slice_eq by (cbn [length]; lia). done.
  - intros m n E1 E2. unfold NewMetadata in E1. rewrite E2 in E1. case_decide; [done|]. destruct (index b 0); [|done..].
    rewrite !bind_ret in E1. case_decide; [done|lia].
Qed.

Lemma splitDecryptedUdp_total b : splitDecryptedUdp b <> Panic.
Proof.
  unfold splitDecryptedUdp. destruct (NewMetadata_total b) as [T1 T2]. pose proof (BytesSize_total b).
  destruct (BytesSizeForMetadata b) as [n| |]; try done. destruct (NewMetadata b) as [m| |]; try done. rewrite !bind_ret.
  specialize (T2 m n eq_refl eq_refl). destruct (Type_ _); try done; case_decide; try done; by rewrite slice_from_eq.
Qed.
End codec.
