(* ===== verification/SsKey.v ===== *)
(** Keys and ciphers of Shadowsocks: the password key (common/encrypt.go), the
    per-packet key schedule with its pooled scratch memory and the datagram
    encryption (protocol/shadowsocks/encrypt.go).

    SHA-1, MD5 and the AEAD primitives are parameters.  [AEAD] is what the
    protocols use of crypto/cipher: the lengths and that opening undoes sealing. *)

From S2P Require Import Prelude GoStrings Pool.
From Stdlib Require Import Strings.Byte.

(** * HMAC and HKDF in place *)

Definition xor_with (k : Z) (b : byte) : byte := z2b (Z.lxor (b2z b) k).

(** The scratch arrays of one HMAC. *)
Record hmacBuf := MkHB { kbuf : list byte; ipad : list byte; opad : list byte; inner : list byte;
  prk : list byte; t1 : list byte; t2 : list byte }.
Inductive hmac_out := out_prk | out_t1 | out_t2.
Definition set_hmac_out (o : hmac_out) (x : list byte) (b : hmacBuf) : hmacBuf :=
  match o with
  | out_prk => MkHB (kbuf b) (ipad b) (opad b) (inner b) x (t1 b) (t2 b)
  | out_t1 => MkHB (kbuf b) (ipad b) (opad b) (inner b) (prk b) x (t2 b)
  | out_t2 => MkHB (kbuf b) (ipad b) (opad b) (inner b) (prk b) (t1 b) x
  end.
Definition get_hmac_out (o : hmac_out) (b : hmacBuf) : list byte :=
  match o with out_prk => prk b | out_t1 => t1 b | out_t2 => t2 b end.

(** [h.Sum(arr[:0])]: appending a digest that fits overwrites the array, one that
    does not goes to fresh memory and leaves it alone. *)
Definition Sum_into (arr digest : list byte) : list byte :=
  if decide (length digest <= length arr)%nat then digest ++ drop (length digest) arr else arr.

(** [clear(arr[n:])] *)
Definition clear_from (arr : list byte) (n : nat) : res (list byte) :=
  tail ← slice_from arr n;
  Ret (take n arr ++ replicate (length tail) x00).

Section hmac.
Context (sha1 : list byte -> list byte).

(** The output array is a field of the scratch record; the key and the messages
    may be other fields of it, which the call does not write. *)
Definition hmacSHA1Into (b : hmacBuf) (out : hmac_out) (key msg1 msg2 msg3 : list byte) : res hmacBuf :=
  k ← (if decide (64 < length key)%nat then clear_from (Sum_into (kbuf b) (sha1 key)) 20
       else '(k, _) ← copy_at (kbuf b) 0 key; clear_from k (length key));
  let ip := xor_with 0x36 <$> k in
  let op := xor_with 0x5c <$> k in
  let inn := Sum_into (inner b) (sha1 (ip ++ msg1 ++ msg2 ++ msg3)) in
  let x := Sum_into (get_hmac_out out b) (sha1 (op ++ inn)) in
  Ret (set_hmac_out out x (MkHB k ip op inn (prk b) (t1 b) (t2 b))).

(** [dst] keeps its length; the scratch record comes from a pool, with any contents. *)
Definition deriveSubKey (b : hmacBuf) (dst masterKey salt info : list byte) : res (hmacBuf * list byte) :=
  b ← hmacSHA1Into b out_prk salt masterKey [] [];
  b ← hmacSHA1Into b out_t1 (prk b) info [x01] [];
  '(dst, n) ← copy_at dst 0 (t1 b);
  if decide (n = length dst) then Ret (b, dst) else
  b ← hmacSHA1Into b out_t2 (prk b) (t1 b) info [x02];
  '(dst, _) ← copy_at dst n (t2 b);
  Ret (b, dst).

(** ** RFC 2104 and RFC 5869 *)

Definition HMAC (key msg : list byte) : list byte :=
  let k := (if decide (64 < length key)%nat then sha1 key else key) in
  let k := k ++ replicate (64 - length k) x00 in
  sha1 ((xor_with 0x5c <$> k) ++ sha1 ((xor_with 0x36 <$> k) ++ msg)).

(** [HKDF_blocks n i prev]: the blocks T(i), T(i+1), ... of the expansion. *)
Fixpoint HKDF_blocks (n : nat) (i : Z) (prev PRK info : list byte) : list byte :=
  match n with
  | O => []
  | S n => let T := HMAC PRK (prev ++ info ++ [z2b i]) in T ++ HKDF_blocks n (i + 1) T PRK info
  end.
Definition HKDF (IKM salt info : list byte) (L : nat) : list byte :=
  take L (HKDF_blocks (S ((L - 1) / 20)) 1 [] (HMAC salt IKM) info).

(** Scratch memory of the declared sizes. *)
Definition hmacBuf_wf (b : hmacBuf) : Prop :=
  length (kbuf b) = 64%nat /\ length (inner b) = 20%nat /\ length (prk b) = 20%nat /\ length (t1 b) = 20%nat /\ length (t2 b) = 20%nat.

Hypothesis sha1_length : forall m, length (sha1 m) = 20%nat.

Lemma Sum_into_all arr d : length d = length arr -> Sum_into arr d = d.
Proof. intros E. unfold Sum_into. rewrite decide_True by lia. by rewrite E, drop_all, app_nil_r. Qed.

Lemma hmac_key b key : length (kbuf b) = 64%nat ->
  (if decide (64 < length key)%nat then clear_from (Sum_into (kbuf b) (sha1 key)) 20
   else '(k, _) ← copy_at (kbuf b) 0 key; clear_from k (length key)) =
  Ret (let k := (if decide (64 < length key)%nat then sha1 key else key) in k ++ replicate (64 - length k) x00).
Proof.
  intros L. cbv zeta. case_decide.
  - unfold Sum_into, clear_from. rewrite decide_True by (rewrite sha1_length; lia).
    rewrite slice_from_eq by (rewrite length_app, length_drop, sha1_length; lia). rewrite bind_ret.
    rewrite take_app_length', drop_app_length', length_drop, sha1_length, L by (by rewrite sha1_length). done.
  - rewrite copy_at_0 by lia. rewrite bind_ret. unfold clear_from. rewrite slice_from_app by done. rewrite bind_ret.
    by rewrite take_app_length, length_drop, L.
Qed.

Lemma hmac_ok b out key m1 m2 m3 : hmacBuf_wf b -> exists b', hmacSHA1Into b out key m1 m2 m3 = Ret b' /\ hmacBuf_wf b' /\
  get_hmac_out out b' = HMAC key (m1 ++ m2 ++ m3) /\ (forall o, o <> out -> get_hmac_out o b' = get_hmac_out o b).
Proof.
  intros (Hk & Hi & Hp & H1 & H2). unfold hmacSHA1Into. rewrite hmac_key by done. rewrite bind_ret. cbv zeta.
  rewrite (Sum_into_all (inner b)) by (by rewrite sha1_length). rewrite (Sum_into_all (get_hmac_out out b)) by (rewrite sha1_length; by destruct out).
  eexists. split; [done|]. unfold HMAC. cbv zeta. set (k := (if decide _ then _ else _)).
  assert (Lk : (length k <= 64)%nat) by (unfold k; case_decide; rewrite ?sha1_length; lia).
  assert (length (k ++ replicate (64 - length k) x00) = 64%nat) by (rewrite length_app, length_replicate; lia).
  destruct out; cbn; (split; [by repeat split; cbn; rewrite ?sha1_length|split; [done|by intros []]]).
Qed.

Lemma deriveSubKey_ok b dst masterKey salt info : hmacBuf_wf b -> (length dst <= 40)%nat ->
  exists b', deriveSubKey b dst masterKey salt info = Ret (b', HKDF masterKey salt info (length dst)) /\ hmacBuf_wf b'.
Proof.
  intros W L. unfold deriveSubKey, HKDF.
  destruct (hmac_ok b out_prk salt masterKey [] [] W) as (b1 & -> & W1 & Ep & _). rewrite bind_ret. rewrite app_nil_r in Ep. cbn [get_hmac_out] in Ep.
  destruct (hmac_ok b1 out_t1 (prk b1) info [x01] [] W1) as (b2 & -> & W2 & Et & F2). rewrite bind_ret. rewrite app_nil_r in Et. cbn [get_hmac_out] in Et.
  pose proof (F2 out_prk ltac:(done)) as Ep2. cbn [get_hmac_out] in Ep2. rewrite Ep in Ep2, Et.
  assert (Lt : length (t1 b2) = 20%nat) by apply W2. rewrite copy_at_eq by lia. rewrite bind_ret, take_0, Nat.sub_0_r, Lt. cbn [app Nat.add].
  destruct (decide (length dst <= 20)%nat) as [S|S].
  - rewrite Nat.min_r, drop_all, app_nil_r, decide_True by (rewrite ?length_app, ?length_take; lia).
    eexists. split; [|exact W2]. do 2 f_equal. assert ((length dst - 1) / 20 = 0)%nat as -> by (apply Nat.div_small; lia).
    cbn [HKDF_blocks app]. change (z2b 1) with x01. rewrite app_nil_r. by rewrite Et.
  - rewrite Nat.min_l, (firstn_all2 (t1 b2)), decide_False by (rewrite ?length_app, ?length_drop, ?Lt; lia).
    destruct (hmac_ok b2 out_t2 (prk b2) (t1 b2) info [x02] W2) as (b3 & -> & W3 & E3 & _). rewrite bind_ret. cbn [get_hmac_out] in E3.
    assert (L3 : length (t2 b3) = 20%nat) by apply W3. rewrite copy_at_eq by (rewrite length_app; lia). rewrite bind_ret.
    rewrite take_app_length', length_app, length_drop, Lt, L3 by done. rewrite (drop_ge _ (20 + _)%nat) by (rewrite length_app, length_drop, Lt; lia).
    eexists. split; [|exact W3]. do 2 f_equal. assert ((length dst - 1) / 20 = 1)%nat as -> by (symmetry; apply (Nat.div_unique _ _ _ (length dst - 21)); lia).
    cbn [HKDF_blocks app]. change (z2b 1) with x01. change (z2b (1 + 1)) with x02. rewrite <- Et, !app_nil_r, take_app_ge by lia.
    rewrite <- Ep2, <- E3, Lt. do 2 f_equal. lia.
Qed.
End hmac.

(** * The password key *)

Section evp.
Context (MD5Sum : list byte -> list byte).

(** The loop of [EVPBytesToKey]: the blocks still to be made, where the last one
    starts, the key material and the hash input. *)
Fixpoint evp_loop (n start : nat) (m d password : list byte) : res (list byte) :=
  match n with
  | O => Ret m
  | S n =>
      let start := (start + 16)%nat in
      prev ← slice m (start - 16) start;
      '(d, _) ← copy_at d 0 prev;
      '(d, _) ← copy_at d 16 password;
      '(m, _) ← copy_at m start (MD5Sum d);
      evp_loop n start m d password
  end.

(** [(keyLen-1)/16] rounds toward zero, so an empty key takes one block. *)
Definition EVPBytesToKey (password : list byte) (keyLen : nat) : res (list byte) :=
  let cnt := Z.to_nat (Z.quot (Z.of_nat keyLen - 1) 16 + 1) in
  '(m, _) ← copy_at (replicate (cnt * 16) x00) 0 (MD5Sum password);
  m ← evp_loop (cnt - 1) 0 m (replicate (16 + length password) x00) password;
  slice m 0 keyLen.

Fixpoint evp_blocks (n : nat) (prev password : list byte) : list byte :=
  match n with O => [] | S n => let D := MD5Sum (prev ++ password) in D ++ evp_blocks n D password end.

Hypothesis MD5_length : forall m, length (MD5Sum m) = 16%nat.

Lemma length_evp_blocks n : forall prev pw, length (evp_blocks n prev pw) = (16 * n)%nat.
Proof. induction n as [|n IH]; intros prev pw; [done|]. cbn [evp_blocks]. cbv zeta. rewrite length_app, IH, MD5_length. lia. Qed.

Lemma evp_loop_ok password n : forall done prev rest d, length prev = 16%nat -> length rest = (16 * n)%nat -> length d = (16 + length password)%nat ->
  evp_loop n (length done) (done ++ prev ++ rest) d password = Ret (done ++ prev ++ evp_blocks n prev password).
Proof.
  induction n as [|n IH]; intros done prev rest d Lp Lr Ld; cbn [evp_loop evp_blocks].
  - by destruct rest.
  - cbv zeta. rewrite Nat.add_sub, slice_eq by (rewrite ?length_app; lia). rewrite bind_ret, add_sub_cancel, drop_app_length, take_app_length' by lia.
    rewrite copy_at_0 by lia. rewrite bind_ret, copy_at_app by (rewrite ?length_drop; lia). rewrite bind_ret, drop_ge, app_nil_r by (rewrite ?length_drop; lia).
    set (D := MD5Sum (prev ++ password)). assert (LD : length D = 16%nat) by apply MD5_length.
    rewrite (app_assoc done prev), copy_at_app by (rewrite ?length_app; lia). rewrite bind_ret, <- (app_assoc (done ++ prev) D).
    replace (length done + 16)%nat with (length (done ++ prev)) by (rewrite length_app; lia).
    rewrite IH by (rewrite ?length_drop, ?length_app; lia). by rewrite <- !app_assoc.
Qed.

(** The key is the first bytes of the chain MD5(pw), MD5(MD5(pw) pw), ... *)
Lemma EVPBytesToKey_ok password keyLen :
  EVPBytesToKey password keyLen = Ret (take keyLen (evp_blocks (S ((keyLen - 1) / 16)) [] password)).
Proof.
  unfold EVPBytesToKey. cbv zeta.
  assert (Z.to_nat (Z.quot (Z.of_nat keyLen - 1) 16 + 1) = S ((keyLen - 1) / 16)) as ->.
  { destruct keyLen as [|k]; [done|]. replace (Z.of_nat (S k) - 1) with (Z.of_nat k) by lia. replace (S k - 1)%nat with k by lia.
    rewrite Z.quot_div_nonneg by lia. change 16 with (Z.of_nat 16). rewrite <- Nat2Z.inj_div. lia. }
  set (n := ((keyLen - 1) / 16)%nat). rewrite copy_at_0 by (rewrite length_replicate, MD5_length; lia). rewrite bind_ret, MD5_length, Nat.sub_succ, Nat.sub_0_r.
  pose proof (evp_loop_ok password n [] (MD5Sum password) (drop 16 (replicate (S n * 16) x00)) (replicate (16 + length password) x00)) as E.
  cbn [app length] in E. rewrite E by (rewrite ?MD5_length, ?length_drop, ?length_replicate; lia). rewrite bind_ret.
  assert (keyLen <= 16 * S n)%nat by (unfold n; pose proof (Nat.div_mod_eq (keyLen - 1) 16); pose proof (Nat.mod_upper_bound (keyLen - 1) 16); lia).
  rewrite slice_eq by (rewrite ?length_app, ?length_evp_blocks, ?MD5_length; lia). by rewrite Nat.sub_0_r, drop_0.
Qed.
End evp.

(** * The cipher interface *)

(** The sizes of [CipherConf]. *)
Record CipherConf := MkConf { KeyLen : nat; SaltLen : nat; NonceLen : nat; TagLen : nat }.

(** A cipher object is determined by its key; no additional data is used. *)
Class AEAD := {
  conf : CipherConf;
  NewCipher : list byte -> option error;
  Seal : list byte -> list byte -> list byte -> list byte;
  Open : list byte -> list byte -> list byte -> option (list byte);
  NewCipher_ok : forall key, length key = KeyLen conf -> NewCipher key = None;
  Seal_length : forall key nonce p, length (Seal key nonce p) = (length p + TagLen conf)%nat;
  Open_Seal : forall key nonce p, Open key nonce (Seal key nonce p) = Some p;
  Open_length : forall key nonce c p, Open key nonce c = Some p -> length c = (length p + TagLen conf)%nat;
}.

(** The table of configurations; the constructors of the ciphers are the
    [AEAD] parameter. *)
Definition AeadCiphersConf (name : list byte) : option CipherConf :=
  if decide (name = lit "chacha20-ietf-poly1305") then Some (MkConf 32 32 12 16)
  else if decide (name = lit "chacha20-poly1305") then Some (MkConf 32 32 12 16)
  else if decide (name = lit "aes-256-gcm") then Some (MkConf 32 32 12 16)
  else if decide (name = lit "aes-128-gcm") then Some (MkConf 16 16 12 16)
  else None.

Definition ZeroNonce : list byte := replicate 12 x00.
Definition ErrOpen : error := Errorf "cipher: message authentication failed".

(** [append(arr[:off], x...)] in place when it fits, in fresh memory otherwise. *)
Definition append_at (arr : list byte) (off : nat) (x : list byte) : list byte :=
  if decide (off + length x <= length arr)%nat then take off arr ++ x ++ drop (off + length x) arr else arr.

(** * Encryption of datagrams *)

Section udp.
Context {CA : AEAD} (sha1 : list byte -> list byte).

(** The memory the pools hand out. *)
Record key_scratch := MkKS { ks_subKey : list byte; ks_hmac : hmacBuf }.

Definition getSubKey (ks : key_scratch) : res (list byte) := slice (ks_subKey ks) 0 (KeyLen conf).

Definition encryptUDPTo (hb : hmacBuf) (dst masterKey plaintext salt info subKey : list byte) : res (list byte * nat) :=
  let saltLen := SaltLen conf in
  if decide (length salt < saltLen)%nat then Fail (Errorf "salt is too short: got %d, need %d") else
  let required := (saltLen + length plaintext + TagLen conf)%nat in
  if decide (length dst < required)%nat then Fail (Errorf "destination is too short: got %d, need %d") else
  s ← slice salt 0 saltLen;
  '(dst, _) ← copy_at dst 0 s;
  s ← slice dst 0 saltLen;
  '(_, key) ← deriveSubKey sha1 hb subKey masterKey s info;
  match NewCipher key with
  | Some e => Fail e
  | None =>
      nonce ← slice ZeroNonce 0 (NonceLen conf);
      Ret (append_at dst saltLen (Seal key nonce plaintext), required)
  end.

Definition EncryptUDPTo (ks : key_scratch) (dst masterKey plaintext salt info : list byte) : res (list byte * nat) :=
  subKey ← getSubKey ks;
  encryptUDPTo (ks_hmac ks) dst masterKey plaintext salt info subKey.

Definition EncryptUDPToWithScratch (hb : hmacBuf) (dst masterKey plaintext salt info subKeyScratch : list byte) : res (list byte * nat) :=
  if decide (length subKeyScratch < KeyLen conf)%nat then Fail (Errorf "subkey scratch is too short: got %d, need %d") else
  subKey ← slice subKeyScratch 0 (KeyLen conf);
  encryptUDPTo hb dst masterKey plaintext salt info subKey.

Definition EncryptUDPFromPoolZeroNonce {BS : BufferSource} (ks : key_scratch) (masterKey b salt info : list byte) : res (list byte) :=
  '(buf, n) ← EncryptUDPTo ks (src_get (SaltLen conf + length b + TagLen conf)) masterKey b salt info;
  slice buf 0 n.

(** The result is the memory behind [writeTo] and the length of the plaintext. *)
Definition decryptUDP (hb : hmacBuf) (writeTo masterKey shadowBytes info subKey : list byte) : res (list byte * nat) :=
  if decide (length shadowBytes < SaltLen conf)%nat then Fail (Errorf "short length to decrypt") else
  salt ← slice shadowBytes 0 (SaltLen conf);
  '(_, key) ← deriveSubKey sha1 hb subKey masterKey salt info;
  match NewCipher key with
  | Some e => Fail e
  | None =>
      nonce ← slice ZeroNonce 0 (NonceLen conf);
      body ← slice_from shadowBytes (SaltLen conf);
      match Open key nonce body with
      | None => Fail ErrOpen
      | Some p => Ret (append_at writeTo 0 p, length p)
      end
  end.

Definition DecryptUDP (ks : key_scratch) (writeTo masterKey shadowBytes info : list byte) : res (list byte * nat) :=
  subKey ← getSubKey ks;
  decryptUDP (ks_hmac ks) writeTo masterKey shadowBytes info subKey.

Definition DecryptUDPWithScratch (hb : hmacBuf) (writeTo masterKey shadowBytes info subKeyScratch : list byte) : res (list byte * nat) :=
  if decide (length subKeyScratch < KeyLen conf)%nat then Fail (Errorf "subkey scratch is too short: got %d, need %d") else
  subKey ← slice subKeyScratch 0 (KeyLen conf);
  decryptUDP hb writeTo masterKey shadowBytes info subKey.

(** Whether the pooled slice overlaps the input or not, the output goes to memory
    of its own. *)
Definition DecryptUDPFromPool {BS : BufferSource} (ks : key_scratch) (masterKey shadowBytes info : list byte) : res (list byte) :=
  '(buf, n) ← DecryptUDP ks (src_get (length shadowBytes)) masterKey shadowBytes info;
  slice buf 0 n.

(** The datagram is built in [buf] up to [payloadLen] and encrypted where it is. *)
Definition encryptUDPInPlace (ks : key_scratch) (masterKey buf : list byte) (payloadLen : nat) (info : list byte) : res (list byte) :=
  subKey ← getSubKey ks;
  salt ← slice buf 0 (SaltLen conf);
  '(_, key) ← deriveSubKey sha1 (ks_hmac ks) subKey masterKey salt info;
  match NewCipher key with
  | Some e => Fail e
  | None =>
      nonce ← slice ZeroNonce 0 (NonceLen conf);
      plain ← slice buf (SaltLen conf) payloadLen;
      let encrypted := Seal key nonce plain in
      slice (append_at buf (SaltLen conf) encrypted) 0 (SaltLen conf + length encrypted)
  end.
End udp.

Section packets.
Context {CA : AEAD} (sha1 : list byte -> list byte) (sha1_length : forall m, length (sha1 m) = 20%nat).

Definition ks_wf (ks : key_scratch) : Prop := length (ks_subKey ks) = 32%nat /\ hmacBuf_wf (ks_hmac ks).
(** Every configuration of the table has these sizes. *)
Definition conf_ok : Prop := (KeyLen conf <= 32)%nat /\ (NonceLen conf <= 12)%nat.

Definition session_key (masterKey salt info : list byte) : list byte := HKDF sha1 masterKey salt info (KeyLen conf).
Definition packet (masterKey salt info p : list byte) : list byte :=
  salt ++ Seal (session_key masterKey salt info) (replicate (NonceLen conf) x00) p.

Lemma length_packet mk salt info p : length (packet mk salt info p) = (length salt + length p + TagLen conf)%nat.
Proof. unfold packet. rewrite length_app, Seal_length. lia. Qed.

Lemma length_HMAC key msg : length (HMAC sha1 key msg) = 20%nat.
Proof. apply sha1_length. Qed.
Lemma length_HKDF_blocks n : forall i prev PRK info, length (HKDF_blocks sha1 n i prev PRK info) = (20 * n)%nat.
Proof. induction n as [|n IH]; intros; [done|]. cbn [HKDF_blocks]. cbv zeta. rewrite length_app, IH, length_HMAC. lia. Qed.
Lemma length_HKDF mk salt info L : length (HKDF sha1 mk salt info L) = L.
Proof.
  unfold HKDF. rewrite length_take, length_HKDF_blocks. pose proof (Nat.div_mod_eq (L - 1) 20). pose proof (Nat.mod_upper_bound (L - 1) 20). lia.
Qed.

Lemma derive_ok hb subKey mk salt info : conf_ok -> hmacBuf_wf hb -> length subKey = KeyLen conf ->
  exists b', deriveSubKey sha1 hb subKey mk salt info = Ret (b', session_key mk salt info) /\ NewCipher (session_key mk salt info) = None.
Proof.
  intros [K _] W L. destruct (deriveSubKey_ok sha1 sha1_length hb subKey mk salt info W ltac:(lia)) as (b' & -> & _). rewrite L.
  eexists. split; [done|]. apply NewCipher_ok, length_HKDF.
Qed.

Lemma zero_nonce : conf_ok -> slice ZeroNonce 0 (NonceLen conf) = Ret (replicate (NonceLen conf) x00).
Proof.
  intros [_ N]. rewrite slice_eq by (unfold ZeroNonce; rewrite ?length_replicate; lia). rewrite Nat.sub_0_r, drop_0.
  unfold ZeroNonce. by rewrite take_replicate, Nat.min_l by lia.
Qed.

Lemma append_at_app a x rest n : n = length a -> (length x <= length rest)%nat -> append_at (a ++ rest) n x = a ++ x ++ drop (length x) rest.
Proof.
  intros -> L. unfold append_at. rewrite decide_True by (rewrite length_app; lia). by rewrite take_app_length, drop_app_add'.
Qed.

Lemma encryptUDPTo_ok hb dst mk p salt info subKey : conf_ok -> hmacBuf_wf hb -> length subKey = KeyLen conf ->
  length salt = SaltLen conf -> (SaltLen conf + length p + TagLen conf <= length dst)%nat ->
  encryptUDPTo sha1 hb dst mk p salt info subKey =
    Ret (packet mk salt info p ++ drop (length (packet mk salt info p)) dst, length (packet mk salt info p)).
Proof.
  intros C W LK Ls Ld. unfold encryptUDPTo. cbv zeta. rewrite !(decide_False (P := (_ < _)%nat)) by lia.
  rewrite (slice_eq salt) by lia. rewrite bind_ret, drop_0, firstn_all2 by lia. rewrite copy_at_0 by lia. rewrite bind_ret, slice_prefix by done. rewrite bind_ret.
  destruct (derive_ok hb subKey mk salt info C W LK) as (b' & -> & N). rewrite bind_ret, N, zero_nonce, bind_ret by done.
  rewrite append_at_app by (rewrite ?Seal_length, ?length_drop; lia). rewrite drop_drop, Seal_length, length_packet. unfold packet. list_eq.
Qed.

Lemma getSubKey_ok ks : conf_ok -> ks_wf ks -> exists sk, getSubKey ks = Ret sk /\ length sk = KeyLen conf.
Proof.
  intros [K _] [L _]. unfold getSubKey. rewrite slice_eq by lia. eexists. split; [done|]. rewrite length_take, length_drop. lia.
Qed.

Lemma EncryptUDPTo_ok ks dst mk p salt info : conf_ok -> ks_wf ks ->
  length salt = SaltLen conf -> (SaltLen conf + length p + TagLen conf <= length dst)%nat ->
  EncryptUDPTo sha1 ks dst mk p salt info =
    Ret (packet mk salt info p ++ drop (length (packet mk salt info p)) dst, length (packet mk salt info p)).
Proof.
  intros C W Ls Ld. unfold EncryptUDPTo. destruct (getSubKey_ok ks C W) as (sk & -> & L). rewrite bind_ret. apply encryptUDPTo_ok; try done. apply W.
Qed.

Lemma decrypt_cases hb writeTo mk shadow info subKey : conf_ok -> hmacBuf_wf hb -> length subKey = KeyLen conf ->
  decryptUDP sha1 hb writeTo mk shadow info subKey =
  if decide (length shadow < SaltLen conf)%nat then Fail (Errorf "short length to decrypt") else
  match Open (session_key mk (take (SaltLen conf) shadow) info) (replicate (NonceLen conf) x00) (drop (SaltLen conf) shadow) with
  | None => Fail ErrOpen
  | Some p => Ret (append_at writeTo 0 p, length p)
  end.
Proof.
  intros C W LK. unfold decryptUDP. case_decide; [done|]. rewrite (slice_eq shadow) by lia. rewrite bind_ret, drop_0, Nat.sub_0_r.
  destruct (derive_ok hb subKey mk (take (SaltLen conf) shadow) info C W LK) as (b' & -> & N). rewrite bind_ret, N, zero_nonce, bind_ret by done.
  rewrite slice_from_eq, bind_ret by lia. done.
Qed.

Lemma DecryptUDP_cases ks writeTo mk shadow info : conf_ok -> ks_wf ks ->
  DecryptUDP sha1 ks writeTo mk shadow info =
  if decide (length shadow < SaltLen conf)%nat then Fail (Errorf "short length to decrypt") else
  match Open (session_key mk (take (SaltLen conf) shadow) info) (replicate (NonceLen conf) x00) (drop (SaltLen conf) shadow) with
  | None => Fail ErrOpen
  | Some p => Ret (append_at writeTo 0 p, length p)
  end.
Proof.
  intros C W. unfold DecryptUDP. destruct (getSubKey_ok ks C W) as (sk & -> & L). rewrite bind_ret. apply decrypt_cases; try done. apply W.
Qed.

Lemma DecryptUDP_packet ks writeTo mk salt info p : conf_ok -> ks_wf ks -> length salt = SaltLen conf ->
  DecryptUDP sha1 ks writeTo mk (packet mk salt info p) info = Ret (append_at writeTo 0 p, length p).
Proof.
  intros C W L. rewrite DecryptUDP_cases, decide_False by (done || rewrite length_packet; lia).
  unfold packet. rewrite take_app_length', drop_app_length' by done. by rewrite Open_Seal.
Qed.

Lemma encryptUDPInPlace_ok ks mk salt p rest info n : conf_ok -> ks_wf ks -> length salt = SaltLen conf ->
  n = (SaltLen conf + length p)%nat -> (TagLen conf <= length rest)%nat ->
  encryptUDPInPlace sha1 ks mk (salt ++ p ++ rest) n info = Ret (packet mk salt info p).
Proof.
  intros C W L -> R. unfold encryptUDPInPlace. destruct (getSubKey_ok ks C W) as (sk & -> & Lk). rewrite bind_ret, slice_prefix, bind_ret by done.
  destruct (derive_ok (ks_hmac ks) sk mk salt info C ltac:(apply W) Lk) as (b' & -> & N). rewrite bind_ret, N, zero_nonce, bind_ret by done.
  rewrite (slice_eq _ (SaltLen conf)) by (rewrite ?length_app; lia). rewrite bind_ret, add_sub_cancel, drop_app_length', take_app_length by done. cbv zeta.
  rewrite append_at_app by (rewrite ?length_app, ?Seal_length; lia). rewrite app_assoc, slice_prefix by (rewrite length_app, Seal_length; lia). done.
Qed.

(** C37: the per-packet key schedule.  Whatever bytes earlier packets left in the pooled scratch
    memory, the key derived in place, without allocation, is HKDF-SHA1 of RFC 5869 for
    every key of at most 40 bytes, and the scratch memory stays usable. *)
Theorem derive_subkey_is_hkdf b dst masterKey salt info : hmacBuf_wf b -> (length dst <= 40)%nat ->
  exists b', deriveSubKey sha1 b dst masterKey salt info = Ret (b', HKDF sha1 masterKey salt info (length dst)) /\ hmacBuf_wf b'.
Proof. apply deriveSubKey_ok. exact sha1_length. Qed.
End packets.

(** ** A concrete instance *)

Lemma xor_with_involutive k b : 0 <= k < 256 -> xor_with k (xor_with k b) = b.
Proof.
  intros Hk. unfold xor_with. apply b2z_inj. pose proof (b2z_range b).
  assert (0 <= Z.lxor (b2z b) k < 256).
  { split; [apply Z.lxor_nonneg; lia|]. destruct (decide (Z.lxor (b2z b) k = 0)) as [->|N]; [lia|].
    change 256 with (2 ^ 8). apply Z.log2_lt_pow2; [pose proof (Z.lxor_nonneg (b2z b) k); lia|].
    pose proof (Z.log2_lxor (b2z b) k ltac:(lia) ltac:(lia)).
    assert (Z.log2 (b2z b) < 8) by (destruct (decide (b2z b = 0)) as [->|]; [done|apply Z.log2_lt_pow2; lia]).
    assert (Z.log2 k < 8) by (destruct (decide (k = 0)) as [->|]; [done|apply Z.log2_lt_pow2; lia]). lia. }
  rewrite (b2z_z2b_small (Z.lxor (b2z b) k)) by done. rewrite Z.lxor_assoc, Z.lxor_nilpotent, Z.lxor_0_r. by rewrite b2z_z2b_small.
Qed.

Definition demo_hash (n : nat) (m : list byte) : list byte := take n (m ++ replicate n x00).
Lemma length_demo_hash n m : length (demo_hash n m) = n.
Proof. unfold demo_hash. rewrite length_take, length_app, length_replicate. lia. Qed.

Definition demo_Seal (key nonce p : list byte) : list byte := (xor_with 0x5a <$> p) ++ demo_hash 16 (nonce ++ key).
Definition demo_Open (key nonce c : list byte) : option (list byte) :=
  let n := (length c - 16)%nat in
  if decide (16 <= length c /\ drop n c = demo_hash 16 (nonce ++ key))%nat then Some (xor_with 0x5a <$> take n c) else None.

Lemma demo_Open_Seal key nonce p : demo_Open key nonce (demo_Seal key nonce p) = Some p.
Proof.
  unfold demo_Open, demo_Seal. cbv zeta. rewrite length_app, length_demo_hash, length_fmap, Nat.add_sub.
  rewrite drop_app_length', take_app_length' by (by rewrite length_fmap). rewrite decide_True by (split; [lia|done]).
  f_equal. rewrite <- list_fmap_compose. rewrite <- (list_fmap_id p) at 2. apply list_fmap_ext. intros ? b _. by apply xor_with_involutive.
Qed.

#[local] Program Instance demo_aead : AEAD := {|
  conf := MkConf 16 16 12 16;
  NewCipher key := if decide (length key = 16%nat) then None else Some (Errorf "invalid key size");
  Seal := demo_Seal;
  Open := demo_Open;
|}.
Next Obligation. cbn. intros key ->. done. Qed.
Next Obligation. cbn. intros. unfold demo_Seal. by rewrite length_app, length_demo_hash, length_fmap. Qed.
Next Obligation. cbn. intros. apply demo_Open_Seal. Qed.
Next Obligation.
  cbn. unfold demo_Open. intros key nonce c p E. cbv zeta in E. case_decide as D; [|done]. injection E as <-. rewrite length_fmap, length_take. lia.
Qed.

Definition demo_ks : key_scratch := MkKS (replicate 32 x77) (MkHB (replicate 64 x55) [] [] (replicate 20 x66) (replicate 20 x11) (replicate 20 x22) (replicate 20 x33)).
Lemma demo_ks_wf : ks_wf demo_ks.
Proof. by repeat split. Qed.

Lemma derive_subkey_is_hkdf_witness :
  hmacBuf_wf (ks_hmac demo_ks) /\ exists b', deriveSubKey (demo_hash 20) (ks_hmac demo_ks) (replicate 32 x99) [x01] [x02] [x03] =
    Ret (b', HKDF (demo_hash 20) [x01] [x02] [x03] 32) /\ hmacBuf_wf b'.
Proof.
  split; [by repeat split|].
  apply (derive_subkey_is_hkdf (demo_hash 20) (length_demo_hash 20) (ks_hmac demo_ks) (replicate 32 x99) [x01] [x02] [x03]); [by repeat split|cbn; lia].
Defined.
