(* ===== verification/SsChunks.v ===== *)
(** Cutting data into chunks of at most [M] bytes and sealing each with its length,
    as the two Shadowsocks stream protocols do. *)

From S2P Require Import Prelude Common SsKey.
From Stdlib Require Import Strings.Byte.

Section chunks.
Context (M : nat) (M_pos : (0 < M)%nat).

Fixpoint chunks (fuel : nat) (b : list byte) : list (list byte) :=
  match fuel, b with
  | O, _ | _, [] => []
  | S fuel, _ => take M b :: chunks fuel (drop M b)
  end.
Definition chunks_of (b : list byte) : list (list byte) := chunks (length b) b.

(** A chunk the code can seal: not empty, and within the maximum. *)
Definition chunk_ok (c : list byte) : Prop := c <> [] /\ (length c <= M)%nat.

Lemma tcp_chunks_concat fuel : forall b, (length b <= fuel)%nat -> concat (chunks fuel b) = b.
Proof.
   induction fuel as [|fuel IH]; intros b L; [by destruct b; [|cbn in L; lia]|].
  destruct b as [|x b]; [done|]. set (y := x :: b) in *. change (chunks (S fuel) y) with (take M y :: chunks fuel (drop M y)).
  cbn [concat]. rewrite IH by (rewrite length_drop; cbn in *; lia). apply take_drop.
Qed.

Lemma chunks_ok fuel : forall b, Forall chunk_ok (chunks fuel b).
Proof.
   induction fuel as [|fuel IH]; intros b; [constructor|]. destruct b as [|x b]; [constructor|].
  constructor; [|apply IH]. split; [|rewrite length_take; lia]. destruct M; [lia|done].
Qed.

Lemma chunks_fuel fuel : forall fuel' b, (length b <= fuel)%nat -> (length b <= fuel')%nat -> chunks fuel b = chunks fuel' b.
Proof.
   induction fuel as [|fuel IH]; intros [|fuel'] [|x b] L1 L2; cbn in L1, L2; try lia; try done.
  cbn [chunks]. f_equal. apply IH; rewrite length_drop; cbn; lia.
Qed.

Lemma chunks_of_drop i b : (i < length b)%nat ->
  chunks_of (drop i b) = take (Nat.min M (length b - i)) (drop i b) :: chunks_of (drop (i + M) b).
Proof.
  intros L.  unfold chunks_of. rewrite length_drop. destruct (length b - i)%nat as [|n] eqn:En; [lia|].
  destruct (drop i b) as [|x d] eqn:Ed; [apply (f_equal length) in Ed; rewrite length_drop in Ed; cbn in Ed; lia|].
  cbn [chunks]. rewrite <- Ed, drop_drop. f_equal.
  - destruct (decide (M <= S n)%nat); [by rewrite Nat.min_l by lia|]. rewrite Nat.min_r by lia.
    rewrite !firstn_all2; [done|rewrite length_drop; lia..].
  - apply chunks_fuel; rewrite length_drop; lia.
Qed.

Lemma chunks_of_concat b : concat (chunks_of b) = b.
Proof. by apply tcp_chunks_concat. Qed.

Lemma length_tcp_chunks n : forall b, (length b <= n)%nat -> length (chunks n b) =
  (length b / M + (if decide (0 < length b mod M)%nat then 1 else 0))%nat.
Proof.
   induction n as [|n IH]; intros b L.
  - destruct b; [|cbn in L; lia]. cbn [length chunks]. rewrite Nat.Div0.div_0_l, Nat.Div0.mod_0_l. done.
  - destruct b as [|x b]; [cbn [length chunks]; rewrite Nat.Div0.div_0_l, Nat.Div0.mod_0_l; done|]. set (y := x :: b) in *.
    change (chunks (S n) y) with (take M y :: chunks n (drop M y)). cbn [length].
    rewrite IH by (rewrite length_drop; cbn in *; lia). rewrite length_drop. set (l := length y) in *. assert (0 < l)%nat by (unfold l; cbn; lia).
    destruct (decide (l < M)%nat) as [S|S].
    + replace (l - M)%nat with 0%nat by lia. rewrite (Nat.div_small l), (Nat.mod_small l) by done.
      rewrite Nat.Div0.div_0_l, Nat.Div0.mod_0_l. rewrite decide_False, decide_True by lia. done.
    + assert (E : l = (l - M + 1 * M)%nat) by lia.
      assert (E1 : (l / M = (l - M) / M + 1)%nat) by (rewrite E at 1; apply Nat.div_add; lia).
      assert (E2 : (l mod M = (l - M) mod M)%nat) by (rewrite E at 1; apply Nat.Div0.mod_add).
      rewrite E1, E2. lia.
Qed.
End chunks.

Section frames.
Context {CA : AEAD}.
Abbreviation N := (NonceLen conf).

(** The chunks [cs] sealed under [key], from the [k]-th nonce on. *)
Fixpoint frames (key : list byte) (k : nat) (cs : list (list byte)) : list byte :=
  match cs with
  | [] => []
  | c :: cs => Seal key (nonce_at N k) (be16 (Z.of_nat (length c))) ++ Seal key (nonce_at N (S k)) c ++ frames key (S (S k)) cs
  end.

Lemma tcp_frames_app key cs cs' : forall k, frames key k (cs ++ cs') = frames key k cs ++ frames key (k + 2 * length cs) cs'.
Proof.
  induction cs as [|c cs IH]; intros k; [by rewrite Nat.mul_0_r, Nat.add_0_r|]. cbn [app frames length]. rewrite IH, <- !app_assoc. do 4 f_equal. lia.
Qed.

Lemma length_frames key cs : forall k, length (frames key k cs) = (length (concat cs) + length cs * (2 + TagLen conf + TagLen conf))%nat.
Proof.
  induction cs as [|c cs IH]; intros k; [done|]. cbn [frames concat length]. rewrite !length_app, IH, !Seal_length, length_be_put. lia.
Qed.
End frames.
