(* ===== verification/SsTcp.v ===== *)
(** The Shadowsocks TCP stream (protocol/shadowsocks/tcp_conn.go): the salt and
    session key of each direction, sealed chunks, the reuse of read and write
    frames, and the address header of the first write.

    The two directions have locks of their own and share only the metadata and
    the salt filter; a method is one step.  HKDF, the salt filter, random salts,
    [net.ParseIP] and the floating-point part of the padding length are
    parameters; slices taken from the pool hold arbitrary stale bytes. *)

From S2P Require Import Prelude NetIP GoState Common Pool Metadata Transport SsAddr SsKey.
From Stdlib Require Import Strings.Byte.

(** 16383, kept symbolic in proofs. *)
Definition TCPChunkMaxLen : nat := Z.to_nat (2 ^ (16 - 2) - 1).
Lemma TCPChunkMaxLen_eq : Z.of_nat TCPChunkMaxLen = 16383.
Proof. done. Qed.
Lemma TCPChunkMaxLen_pos : (0 < TCPChunkMaxLen)%nat.
Proof. pose proof TCPChunkMaxLen_eq. lia. Qed.
Definition maxReusableWriteFrameSize : nat := Z.to_nat (Z.shiftl 128 10).
#[global] Opaque TCPChunkMaxLen maxReusableWriteFrameSize.

Definition EncryptedPayloadLen (plainTextLen tagLen : nat) : nat :=
  let n := (plainTextLen / TCPChunkMaxLen)%nat in
  let n := if decide (0 < plainTextLen mod TCPChunkMaxLen)%nat then S n else n in
  (plainTextLen + n * (2 + tagLen + tagLen))%nat.

Definition ErrFailAuth : error := Errorf "fail to authenticate".
Definition ErrReplayAttack : error := Errorf "replay attack".
Definition ErrFailInitCipher (e : error) : error := Wrap "fail to initiate cipher" e.
Definition ShadowsocksReusedInfo : list byte := String.list_byte_of_string "ss-subkey".

(** * FNV hashes of 32 bits (hash/fnv) *)

Definition fnv_prime : Z := 16777619.
Definition fnv32 (l : list byte) : Z := foldl (fun h b => Z.lxor ((h * fnv_prime) mod 2 ^ 32) (b2z b)) 2166136261 l.
Definition fnv32a (l : list byte) : Z := foldl (fun h b => (Z.lxor h (b2z b) * fnv_prime) mod 2 ^ 32) 2166136261 l.

(** * Data *)

Record readHalf := MkRH {
  cipherRead : option (list byte); onceRead : bool; nonceRead : list byte;
  (** The slice [leftToRead] lies at the start of [readCipherBuf]; its length, 0 for nil. *)
  leftToRead : nat; indexToRead : nat; readLengthBuf : list byte; readCipherBuf : list byte; inp : stream }.
Record writeHalf := MkWH {
  cipherWrite : option (list byte); onceWrite : bool; writeBroken : bool; nonceWrite : list byte;
  writeFrame : list byte; outp : tconn }.

Section tcp.
Context {CA : AEAD} {BS : BufferSource} {Bloom : Type}.
Context (ExistOrAdd : Bloom -> list byte -> bool * Bloom).
(** [hkdf secret salt info n]: the first [n] bytes of HKDF-SHA1. *)
Context (hkdf : list byte -> list byte -> list byte -> nat -> list byte).
Context (ParseIP : list byte -> list byte).
(** [int(10*float64(n)/(1+math.Log(float64(n))))]. *)
Context (padTerm : nat -> Z).

Record TCPConn := MkTC { metadata : Metadata; masterKey : list byte; rd : readHalf; wh : writeHalf; bloom : option Bloom }.

Definition set_rd (h : readHalf) (c : TCPConn) : TCPConn := MkTC (metadata c) (masterKey c) h (wh c) (bloom c).
Definition set_wh (h : writeHalf) (c : TCPConn) : TCPConn := MkTC (metadata c) (masterKey c) (rd c) h (bloom c).
Definition set_bloom (b : option Bloom) (c : TCPConn) : TCPConn := MkTC (metadata c) (masterKey c) (rd c) (wh c) b.
Definition set_meta (m : Metadata) (c : TCPConn) : TCPConn := MkTC m (masterKey c) (rd c) (wh c) (bloom c).

Definition on_rd {A} (m : st readHalf A) : st TCPConn A := fun c => let '(h, r) := m (rd c) in (set_rd h c, r).
Definition on_wh {A} (m : st writeHalf A) : st TCPConn A := fun c => let '(h, r) := m (wh c) in (set_wh h c, r).

(** [NewTCPConn]: the table holds pointers, so a name it does not have panics.  The
    timer that writes nothing after 100 ms is a later [Write]. *)
Definition NewTCPConn (m : Metadata) (key : list byte) (bl : option Bloom) (i : stream) (t : tconn) : res TCPConn :=
  match AeadCiphersConf (Cipher m) with
  | None => Panic
  | Some cf =>
      Ret (MkTC m key (MkRH None false (replicate (NonceLen cf) x00) 0 0 (replicate (2 + TagLen cf) x00) [] i)
             (MkWH None false false (replicate (NonceLen cf) x00) [] t) bl)
  end.

(** * Reading *)

Definition read_in (n : nat) : st readHalf (list byte) := fun h =>
  let '(i, r) := readFull n (inp h) in
  (MkRH (cipherRead h) (onceRead h) (nonceRead h) (leftToRead h) (indexToRead h) (readLengthBuf h) (readCipherBuf h) i, r).

(** A frame of [size] bytes of a buffer that grows when it is too small. *)
Definition borrow (buf : list byte) (size : nat) : list byte :=
  if decide (length buf < size)%nat then replicate size x00 else buf.

(** The length and the payload are decrypted in the frames they were read into;
    the result is the length of the payload at the start of [readCipherBuf]. *)
Definition readChunk : st readHalf nat :=
  h ← get;
  let lb := borrow (readLengthBuf h) (2 + TagLen conf) in
  _ ← modify (fun h => MkRH (cipherRead h) (onceRead h) (nonceRead h) (leftToRead h) (indexToRead h) lb (readCipherBuf h) (inp h));
  lengthFrame ← read_in (2 + TagLen conf);
  key ← lift (match cipherRead h with Some key => Ret key | None => Panic end);
  length_ ← lift (match Open key (nonceRead h) lengthFrame with Some p => Ret p | None => Fail ErrFailAuth end);
  let nonce := BytesIncLittleEndian (nonceRead h) in
  let lb := append_at (lengthFrame ++ drop (2 + TagLen conf) lb) 0 length_ in
  l ← lift (slice length_ 0 2);
  let payloadSize := (Z.to_nat (be_get l) + TagLen conf)%nat in
  let cb := borrow (readCipherBuf h) payloadSize in
  _ ← modify (fun h => MkRH (cipherRead h) (onceRead h) nonce (leftToRead h) (indexToRead h) lb cb (inp h));
  cipherFrame ← read_in payloadSize;
  payload ← lift (match Open key nonce cipherFrame with Some p => Ret p | None => Fail ErrFailAuth end);
  let cb := append_at (cipherFrame ++ drop payloadSize cb) 0 payload in
  _ ← modify (fun h => MkRH (cipherRead h) (onceRead h) (BytesIncLittleEndian nonce) (leftToRead h) (indexToRead h) (readLengthBuf h) cb (inp h));
  mret (length payload).

(** The first read takes the peer's salt and makes the key. *)
Definition init_read : st TCPConn unit :=
  c ← get;
  if onceRead (rd c) then mret tt else
  salt ← on_rd (read_in (SaltLen conf));
  _ ← match bloom c with
      | None => mret tt
      | Some b =>
          let '(exists_, b) := ExistOrAdd b salt in
          _ ← modify (set_bloom (Some b));
          if (exists_ : bool) then fail ErrReplayAttack else mret tt
      end;
  let key := hkdf (masterKey c) salt ShadowsocksReusedInfo (KeyLen conf) in
  match NewCipher key with
  | Some e => fail (ErrFailInitCipher e)
  | None =>
      on_rd (modify (fun h => MkRH (Some key) true (nonceRead h) (leftToRead h) (indexToRead h) (readLengthBuf h) (readCipherBuf h) (inp h)))
  end.

(** [Read(b)] with [len(b) = k]: the bytes copied. *)
Definition read_data (k : nat) : st readHalf (list byte) :=
  h ← get;
  if decide (indexToRead h < leftToRead h)%nat then
    let src := drop (indexToRead h) (take (leftToRead h) (readCipherBuf h)) in
    let n := Nat.min k (length src) in
    let i := (indexToRead h + n)%nat in
    _ ← modify (fun h => if decide (leftToRead h <= i)%nat
                         then MkRH (cipherRead h) (onceRead h) (nonceRead h) 0 0 (readLengthBuf h) (readCipherBuf h) (inp h)
                         else MkRH (cipherRead h) (onceRead h) (nonceRead h) (leftToRead h) i (readLengthBuf h) (readCipherBuf h) (inp h));
    mret (take n src)
  else
    m ← readChunk;
    h ← get;
    let chunk := take m (readCipherBuf h) in
    let n := Nat.min k (length chunk) in
    _ ← modify (fun h => if decide (n < length chunk)%nat
                         then MkRH (cipherRead h) (onceRead h) (nonceRead h) (length chunk) n (readLengthBuf h) (readCipherBuf h) (inp h)
                         else h);
    mret (take n chunk).
Definition Read (k : nat) : st TCPConn (list byte) := _ ← init_read; on_rd (read_data k).

(** [io.ReadFull(c, b)]: reads until the buffer is full. *)
Fixpoint readFullConn (fuel n : nat) : st TCPConn (list byte) :=
  if decide (n = 0%nat) then mret [] else
  match fuel with
  | O => lift Panic
  | S fuel =>
      a ← Read n;
      b ← readFullConn fuel (n - length a);
      mret (a ++ b)
  end.

Definition MetadataCmdResponse : Z := 2.
Definition ReadMetadata (fuel : nat) : st TCPConn SMetadata :=
  firstTwoBytes ← readFullConn fuel 2;
  n ← lift (BytesSizeForMetadata firstTwoBytes);
  rest ← readFullConn fuel (n - 2);
  m ← lift (NewMetadata (firstTwoBytes ++ rest));
  _ ← modify (fun c =>
    let old := metadata c in
    let new := sbase m in
    if IsClient old then c
    else set_meta (MkMeta (Type_ new) (Hostname new) (mPort new) (mIP new)
           (if decide (Type_ new = MetadataTypeMsg) then MetadataCmdResponse else Cmd new) (Cipher old) (IsClient old)) c);
  mret m.

(** * Writing *)

Definition CalcPaddingLen (key body : list byte) (req : bool) : nat :=
  let maxPadding := Z.max (padTerm (length body) - Z.of_nat (length body)) 0 in
  if decide (maxPadding = 0) then 0%nat
  else Z.to_nat (Z.rem ((if req then fnv32a else fnv32) (key ++ body)) maxPadding).

Definition borrowWriteFrame (size : nat) : st writeHalf (list byte) :=
  if decide (size <= maxReusableWriteFrameSize)%nat then
    _ ← modify (fun h => if decide (length (writeFrame h) < size)%nat
                         then MkWH (cipherWrite h) (onceWrite h) (writeBroken h) (nonceWrite h) (replicate size x00) (outp h) else h);
    h ← get;
    lift (slice (writeFrame h) 0 size)
  else mret (replicate size x00).

(** [seal]: the loop from position [i], with the frame, the offset in it and the nonce. *)
Fixpoint seal_loop (fuel i : nat) (key b buf : list byte) (offset : nat) (nonce : list byte) : res (list byte * nat * list byte) :=
  if decide (i < length b)%nat then
    match fuel with
    | O => Panic
    | S fuel =>
        let l := Nat.min TCPChunkMaxLen (length b - i) in
        buf ← write_at buf offset (be16 (Z.of_nat l));
        hdr ← slice buf offset (offset + 2);
        let buf := append_at buf offset (Seal key nonce hdr) in
        let offset := (offset + (2 + TagLen conf))%nat in
        let nonce := BytesIncLittleEndian nonce in
        p ← slice b i (i + l);
        let buf := append_at buf offset (Seal key nonce p) in
        seal_loop fuel (i + TCPChunkMaxLen) key b buf (offset + (l + TagLen conf)) (BytesIncLittleEndian nonce)
    end
  else Ret (buf, offset, nonce).
Definition seal (key b buf nonce : list byte) : res (list byte * nat * list byte) := seal_loop (length b) 0 key b buf 0 nonce.

(** [initWriteFromPool]; [salt] is what the generator draws. *)
Definition initWriteFromPool (salt b : list byte) : st TCPConn (list byte * nat * list byte) :=
  c ← get;
  let m := metadata c in
  let msg := bool_decide (Type_ m = MetadataTypeMsg) in
  let mdata := MkSM m (if msg then Z.of_nat (length b) mod 2 ^ 32 else 0) in
  let suffix := if msg then src_get (CalcPaddingLen (masterKey c) b (IsClient m)) else [] in
  prefix ← (if IsClient m || msg then lift (BytesFromPool ParseIP mdata) else mret []);
  '(toWrite, _) ← lift (copy_at (src_get (length prefix + length b + length suffix)) 0 prefix);
  '(toWrite, _) ← lift (copy_at toWrite (length prefix) b);
  '(toWrite, _) ← lift (copy_at toWrite (length prefix + length b) suffix);
  '(buf, _) ← lift (copy_at (src_get (SaltLen conf + EncryptedPayloadLen (length toWrite) (TagLen conf))) 0 salt);
  s ← lift (slice buf 0 (SaltLen conf));
  let key := hkdf (masterKey c) s ShadowsocksReusedInfo (KeyLen conf) in
  let set_key k := on_wh (modify (fun h => MkWH k (onceWrite h) (writeBroken h) (nonceWrite h) (writeFrame h) (outp h))) in
  match NewCipher key with
  | Some e => _ ← set_key None; fail e
  | None =>
      _ ← set_key (Some key);
      _ ← match bloom c with
          | None => mret tt
          | Some bl => modify (set_bloom (Some (snd (ExistOrAdd bl s))))
          end;
      mret (buf, SaltLen conf, toWrite)
  end.

(** The frame is [buf] from [offset]: sealed and written; an error breaks the
    direction for good.  A [reused] frame is the start of [writeFrame]. *)
Definition seal_and_write (first reused : bool) (buf : list byte) (offset : nat) (toPack : list byte) : st writeHalf unit :=
  h ← get;
  match cipherWrite h with
  | None => fail (Errorf "fail to initiate cipher")
  | Some key =>
      body ← lift (slice_from buf offset);
      '(sealed, n, nonce) ← lift (seal key toPack body (nonceWrite h));
      frame ← lift (slice (take offset buf ++ sealed) 0 (offset + n));
      let '(t, (_, err)) := WriteFull frame (outp h) in
      let wf := if reused then sealed ++ drop (length sealed) (writeFrame h) else writeFrame h in
      match err with
      | Some e =>
          _ ← modify (fun h => MkWH (cipherWrite h) (onceWrite h) true nonce wf t);
          fail e
      | None => modify (fun h => MkWH (cipherWrite h) (onceWrite h || first) (writeBroken h) nonce wf t)
      end
  end.

Definition Write (salt b : list byte) : st TCPConn nat :=
  c ← get;
  if writeBroken (wh c) then fail ErrClosed else
  let first := negb (onceWrite (wh c)) in
  _ ← (if first then
         '(buf, offset, toPack) ← initWriteFromPool salt b;
         on_wh (seal_and_write first false buf offset toPack)
       else
         let size := EncryptedPayloadLen (length b) (TagLen conf) in
         buf ← on_wh (borrowWriteFrame size);
         on_wh (seal_and_write first (bool_decide (size <= maxReusableWriteFrameSize)%nat) buf 0 b));
  mret (length b).

(** [Close]: the transport and the frames go. *)
Definition Close : st TCPConn unit :=
  _ ← on_wh (modify (fun h => MkWH (cipherWrite h) (onceWrite h) (writeBroken h) (nonceWrite h) [] (MkTconn (t_out (outp h)) (t_plan (outp h)) true)));
  on_rd (modify (fun h => MkRH (cipherRead h) (onceRead h) (nonceRead h) 0 0 [] [] (inp h))).
End tcp.
