(* ===== verification/SsTcpRound.v ===== *)
(** What the two ends of a Shadowsocks TCP stream see of each other: any part of
    the written bytes that arrives is read as a prefix of the written data. *)

From S2P Require Import Prelude GoStrings NetIP GoState Common Pool Metadata Transport SsAddr SsKey SsChunks SsTcp.
From Stdlib Require Import Strings.Byte.

(** * Chunks *)

Abbreviation chunks_of := (SsChunks.chunks_of TCPChunkMaxLen).
Abbreviation chunk_ok := (SsChunks.chunk_ok TCPChunkMaxLen).

Section stream.
Context {CA : AEAD} {BS : BufferSource} {Bloom : Type}.
Context (ExistOrAdd : Bloom -> list byte -> bool * Bloom).
Context (hkdf : list byte -> list byte -> list byte -> nat -> list byte) (hkdf_length : forall k s i n, length (hkdf k s i n) = n).
Context (ParseIP : list byte -> list byte) (padTerm : nat -> Z).
Abbreviation N := (NonceLen conf).

(** * The wire form *)

Lemma length_frames_of key k b : length (frames key k (chunks_of b)) = EncryptedPayloadLen (length b) (TagLen conf).
Proof.
  rewrite length_frames, (chunks_of_concat _ TCPChunkMaxLen_pos). unfold SsChunks.chunks_of, EncryptedPayloadLen. rewrite (length_tcp_chunks _ TCPChunkMaxLen_pos) by done. cbv zeta. case_decide; f_equal; f_equal; lia.
Qed.

(** ** Writing *)

Lemma seal_loop_ok key b fuel : forall i done rest k, (length b <= i + fuel)%nat ->
  (length (frames key k (chunks_of (drop i b))) <= length rest)%nat ->
  seal_loop fuel i key b (done ++ rest) (length done) (nonce_at N k) =
    Ret (done ++ frames key k (chunks_of (drop i b)) ++ drop (length (frames key k (chunks_of (drop i b)))) rest,
      (length done + length (frames key k (chunks_of (drop i b))))%nat, nonce_at N (k + 2 * length (chunks_of (drop i b)))).
Proof.
  pose proof TCPChunkMaxLen_pos as M. pose proof TCPChunkMaxLen_eq as ME. revert key b.
  induction fuel as [|fuel IH]; intros key b i done rest k Lf Lr; cbn [seal_loop]; (destruct (decide (i < length b)%nat) as [Li|Li]; [|rewrite (drop_ge b) by lia; cbn; by rewrite ?Nat.add_0_r]); [lia|].
  rewrite (chunks_of_drop _ TCPChunkMaxLen_pos i b Li) in *. cbv zeta. set (l := Nat.min TCPChunkMaxLen (length b - i)) in *. set (c := take l (drop i b)) in *.
  assert (Lc : length c = l) by (unfold c; rewrite length_take, length_drop; lia).
  cbn [frames length] in *. rewrite !length_app, !Seal_length, length_be_put, Lc in *.
  set (h := be16 (Z.of_nat l)). assert (Lh : length h = 2%nat) by apply length_be_put.
  rewrite write_at_app by lia. rewrite bind_ret, <- app_assoc.
  rewrite (slice_eq _ (length done)) by (rewrite ?length_app, ?length_drop; lia). rewrite bind_ret, add_sub_cancel, drop_app_length, take_app_length' by lia.
  rewrite slice_eq by lia. rewrite bind_ret, add_sub_cancel. fold c.
  rewrite append_at_app by (rewrite ?Seal_length, ?length_app, ?length_drop; lia).
  set (s1 := Seal key (nonce_at N k) h). assert (L1 : length s1 = (2 + TagLen conf)%nat) by (unfold s1; rewrite Seal_length, Lh; done).
  rewrite (app_assoc done s1), append_at_app by (rewrite ?Seal_length, ?length_app, ?length_drop, ?L1, ?length_app, ?length_drop; lia).
  rewrite nonce_at_S. set (s2 := Seal key (nonce_at N (S k)) c). assert (L2 : length s2 = (l + TagLen conf)%nat) by (unfold s2; rewrite Seal_length, Lc; done).
  rewrite (app_assoc (done ++ s1) s2), nonce_at_S.
  replace (length done + (2 + TagLen conf) + (l + TagLen conf))%nat with (length ((done ++ s1) ++ s2)) by (rewrite !length_app; lia).
  rewrite IH; [|lia|rewrite !length_drop, length_app, !length_drop; lia].
  rewrite !length_app, L1, L2. f_equal. f_equal; [f_equal|]; [|lia|f_equal; lia]. rewrite <- !app_assoc. do 4 f_equal.
  rewrite !drop_drop. rewrite drop_app_ge by lia. rewrite drop_drop. f_equal. lia.
Qed.

Lemma seal_ok key b k rest : (length (frames key k (chunks_of b)) <= length rest)%nat ->
  seal key b rest (nonce_at N k) =
    Ret (frames key k (chunks_of b) ++ drop (length (frames key k (chunks_of b))) rest, length (frames key k (chunks_of b)), nonce_at N (k + 2 * length (chunks_of b))).
Proof. intros L. unfold seal. pose proof (seal_loop_ok key b (length b) 0 [] rest k) as E. rewrite drop_0 in E. cbn [app length Nat.add] in E. by rewrite E by (done || lia). Qed.

Definition w_keyed (key : list byte) (k : nat) (h : writeHalf) : Prop :=
  cipherWrite h = Some key /\ writeBroken h = false /\ nonceWrite h = nonce_at N k.
Definition w_good (h : writeHalf) : Prop := t_plan (outp h) = [] /\ t_closed (outp h) = false.

(** The outcome of one write of [bs]: all of it, or a part of it and the direction
    is broken; over a good transport, all of it. *)
Definition w_outcome {A} (bs : list byte) (key : list byte) (k : nat) (a : A) (h h' : writeHalf) (r : res A) : Prop :=
  (w_good h -> w_good h' /\ exists a, r = Ret a) /\
  ((r = Ret a /\ t_out (outp h') = t_out (outp h) ++ bs /\ w_keyed key k h' /\ onceWrite h' = true) \/
   (exists e n, r = Fail e /\ t_out (outp h') = t_out (outp h) ++ take n bs /\ writeBroken h' = true)).

Lemma seal_and_write_ok first reused pre body b key k h : w_keyed key k h -> onceWrite h || first = true ->
  length body = length (frames key k (chunks_of b)) ->
  exists h' r, seal_and_write first reused (pre ++ body) (length pre) b h = (h', r) /\
    w_outcome (pre ++ frames key k (chunks_of b)) key (k + 2 * length (chunks_of b)) tt h h' r.
Proof.
  intros (Ek & Eb & En) Of L. unfold seal_and_write. st_pure. rewrite Ek. st_lift ltac:(by apply slice_from_app).
  st_lift ltac:(by rewrite En, seal_ok by lia). rewrite drop_ge, app_nil_r by lia. rewrite take_app_length.
  st_lift ltac:(rewrite slice_eq, drop_0, Nat.sub_0_r by (rewrite ?length_app; lia); rewrite firstn_all2 by (rewrite length_app; lia); reflexivity).
  destruct (WriteFull_ok (pre ++ frames key k (chunks_of b)) (outp h)) as (t' & n & e & -> & Ln & Eo & Ee & Eg). destruct e as [e|].
  - eexists _, _. split; [done|]. split; [intros G; by apply Eg in G as [? _]|]. right. exists e, n. done.
  - rewrite (Ee eq_refl) in Eo. rewrite firstn_all in Eo.
    eexists _, _. split; [done|]. split; [intros G; split; [by apply Eg in G as [_ G]|by eexists]|]. left. done.
Qed.

Lemma borrowWriteFrame_ok size key k h : w_keyed key k h -> onceWrite h = true ->
  exists h' f, borrowWriteFrame size h = (h', Ret f) /\ length f = size /\ w_keyed key k h' /\ onceWrite h' = true /\ outp h' = outp h.
Proof.
  intros K O. unfold borrowWriteFrame. destruct (decide (size <= _)%nat).
  - st_pure. st_pure. case_decide.
    + eexists _, _. split; [unfold lift; cbn [writeFrame]; rewrite slice_eq, drop_0, Nat.sub_0_r, firstn_all2 by (rewrite ?length_replicate; lia); reflexivity|].
      rewrite length_replicate. split; [done|]. split; [|done]. exact K.
    + eexists _, _. split; [unfold lift; rewrite slice_eq by lia; reflexivity|]. rewrite length_take, length_drop. split; [lia|]. done.
  - eexists _, _. split; [done|]. by rewrite length_replicate.
Qed.

Abbreviation Write := (Write ExistOrAdd hkdf ParseIP padTerm).

Lemma on_wh_eq {A} (m : st writeHalf A) (c : TCPConn (Bloom := Bloom)) h r : m (wh c) = (h, r) -> on_wh m c = (set_wh h c, r).
Proof. intros E. unfold on_wh. by rewrite E. Qed.

(** The result of the inner step decides that of the call. *)
Lemma Write_done {A B} (m : st (TCPConn (Bloom := Bloom)) A) (x : A) (y : B) bs key k c c0 h' r :
  m c = (set_wh h' c0, r) -> w_outcome bs key k x (wh c) h' r ->
  exists r', (_ ← m; mret y) c = (set_wh h' c0, r') /\ w_outcome bs key k y (wh c) h' r'.
Proof.
  intros E [G [(-> & Ho & K)|(e & n & -> & Ho & K)]].
  - exists (Ret y). rewrite (st_bind_Ret _ _ _ _ _ E). split; [done|]. split; [intros W; split; [by apply G|by eexists]|]. by left.
  - exists (Fail e). rewrite (st_bind_Fail _ _ _ _ _ E). split; [done|]. split; [intros W; apply G in W as [_ [? ?]]; done|]. right. by exists e, n.
Qed.

Lemma Write_next salt b c key k : w_keyed key k (wh c) -> onceWrite (wh c) = true ->
  exists h' r, Write salt b c = (set_wh h' c, r) /\
    w_outcome (frames key k (chunks_of b)) key (k + 2 * length (chunks_of b)) (length b) (wh c) h' r.
Proof.
  intros K O. unfold SsTcp.Write. st_pure. pose proof K as (Ek & Eb & En). rewrite Eb, O. cbn [negb]. cbv zeta. set (size := EncryptedPayloadLen _ _).
  destruct (borrowWriteFrame_ok size key k (wh c)) as (h1 & f & E1 & Lf & K1 & O1 & P1); [done..|].
  destruct (seal_and_write_ok false (bool_decide (size <= maxReusableWriteFrameSize)%nat) [] f b key k h1 K1)
    as (h2 & r & E2 & Ho); [by rewrite O1|rewrite length_frames_of; exact Lf|]. cbn [app length] in *.
  exists h2. eapply (Write_done _ tt).
  - rewrite (st_bind_Ret _ _ _ _ _ (on_wh_eq _ _ _ _ E1)). exact (on_wh_eq _ (set_wh h1 c) _ _ E2).
  - unfold w_outcome, w_good in *. by rewrite P1 in Ho.
Qed.

Lemma Write_broken salt b c : writeBroken (wh c) = true -> Write salt b c = (c, Fail ErrClosed).
Proof. intros E. unfold SsTcp.Write. st_pure. by rewrite E. Qed.

(** ** The first write *)

Definition is_msg (m : Metadata) : bool := bool_decide (Type_ m = MetadataTypeMsg).
Definition header_meta (m : Metadata) (b : list byte) : SMetadata := MkSM m (if is_msg m then Z.of_nat (length b) mod 2 ^ 32 else 0).
Definition header (m : Metadata) (b : list byte) : list byte :=
  if IsClient m || is_msg m then smeta_bytes ParseIP (header_meta m b) else [].
(** A target the address header can carry. *)
Definition header_ok (m : Metadata) : Prop := IsClient m || is_msg m = true -> smeta_ok ParseIP (MkSM m 0).

(** The plaintext of the first write: the header, the data and, for messages,
    padding. *)
Definition first_plain (mk : list byte) (m : Metadata) (b : list byte) : list byte :=
  header m b ++ b ++ (if is_msg m then src_get (CalcPaddingLen padTerm mk b (IsClient m)) else []).

Lemma header_meta_ok m b : header_ok m -> IsClient m || is_msg m = true -> smeta_ok ParseIP (header_meta m b).
Proof.
  intros H E. destruct (H E) as [Hp Hm]. split; [done|]. unfold header_meta. cbn [sbase LenMsgBody] in *.
  destruct (Type_ m) eqn:T; try done. split; [apply Hm|]. case_match; [|done]. apply Z.mod_pos_bound. lia.
Qed.

Abbreviation subkey mk salt := (hkdf mk salt ShadowsocksReusedInfo (KeyLen conf)).

Lemma initWrite_ok salt b c : length salt = SaltLen conf -> header_ok (metadata c) ->
  exists bl body, length body = EncryptedPayloadLen (length (first_plain (masterKey c) (metadata c) b)) (TagLen conf) /\
    initWriteFromPool ExistOrAdd hkdf ParseIP padTerm salt b c =
      (set_bloom bl (set_wh (MkWH (Some (subkey (masterKey c) salt)) (onceWrite (wh c)) (writeBroken (wh c)) (nonceWrite (wh c)) (writeFrame (wh c)) (outp (wh c))) c),
       Ret (salt ++ body, SaltLen conf, first_plain (masterKey c) (metadata c) b)).
Proof.
  intros Ls Hh. unfold initWriteFromPool. st_pure. cbv zeta. fold (is_msg (metadata c)). fold (header_meta (metadata c) b).
  set (suffix := if is_msg _ then src_get _ else []).
  assert (EP : (if IsClient (metadata c) || is_msg (metadata c) then lift (BytesFromPool ParseIP (header_meta (metadata c) b)) else mret []) c
    = (c, Ret (header (metadata c) b))).
  { unfold header. destruct (_ || _) eqn:E; [|done]. unfold lift. by rewrite BytesFromPool_ok by (by apply header_meta_ok). }
  rewrite (st_bind_Ret _ _ _ _ _ EP). set (prefix := header (metadata c) b).
  assert (L0 : length (src_get (length prefix + length b + length suffix)) = (length prefix + length b + length suffix)%nat) by apply src_length.
  st_lift ltac:(apply copy_at_0; lia). st_lift ltac:(apply copy_at_app; [done|rewrite length_drop; lia]).
  st_lift ltac:(apply copy_at_app; [by rewrite length_app|rewrite !length_drop; lia]).
  rewrite !drop_drop, drop_ge, app_nil_r by lia. rewrite <- app_assoc. change (prefix ++ b ++ suffix) with (first_plain (masterKey c) (metadata c) b).
  set (fp := first_plain _ _ b). set (size := (SaltLen conf + EncryptedPayloadLen (length fp) (TagLen conf))%nat).
  assert (L1 : length (src_get size) = size) by apply src_length.
  st_lift ltac:(apply copy_at_0; lia). st_lift ltac:(by apply slice_prefix). rewrite NewCipher_ok by apply hkdf_length.
  st_pure. destruct (bloom c) as [bl|] eqn:Eb; (erewrite st_bind_Ret; [|reflexivity]).
  - eexists _, _. split; [|reflexivity]. rewrite length_drop. lia.
  - exists (bloom c). eexists. split; [|rewrite Eb; unfold set_bloom, set_wh; cbn; destruct c; cbn in *; subst; reflexivity]. rewrite length_drop. lia.
Qed.

Lemma Write_first salt b c : writeBroken (wh c) = false -> onceWrite (wh c) = false -> nonceWrite (wh c) = nonce_at N 0 ->
  length salt = SaltLen conf -> header_ok (metadata c) ->
  exists bl h' r, Write salt b c = (set_wh h' (set_bloom bl c), r) /\
    w_outcome (salt ++ frames (subkey (masterKey c) salt) 0 (chunks_of (first_plain (masterKey c) (metadata c) b)))
      (subkey (masterKey c) salt) (2 * length (chunks_of (first_plain (masterKey c) (metadata c) b))) (length b) (wh c) h' r.
Proof.
  intros Eb Eo En Ls Hh. unfold SsTcp.Write. st_pure. rewrite Eb, Eo. cbn [negb].
  destruct (initWrite_ok salt b c Ls Hh) as (bl & body & Lb & E1). set (fp := first_plain _ _ b) in *. set (key := hkdf _ _ _ _) in *.
  set (h1 := MkWH (Some key) _ _ _ _ _) in E1.
  destruct (seal_and_write_ok true false salt body fp key 0 h1) as (h2 & r & E2 & Ho); [by repeat split|by rewrite orb_true_r|by rewrite length_frames_of|].
  rewrite Ls in E2. exists bl, h2. eapply (Write_done _ tt).
  - rewrite (st_bind_Ret _ _ _ _ _ E1). exact (on_wh_eq _ (set_bloom bl (set_wh h1 c)) _ _ E2).
  - exact Ho.
Qed.

(** ** Sequences of writes *)

(** Every call's result; the salts are what the generator would draw. *)
Fixpoint writes (ops : list (list byte * list byte)) : st (TCPConn (Bloom := Bloom)) (list (nat + error)) :=
  match ops with
  | [] => mret []
  | (salt, b) :: ops => r ← try (Write salt b); rs ← writes ops; mret (r :: rs)
  end.

Definition data_of (ops : list (list byte * list byte)) : list (list byte) := snd <$> ops.
Definition chunks_all (ps : list (list byte)) : list (list byte) := ps ≫= chunks_of.

Lemma concat_chunks_all ps : concat (chunks_all ps) = concat ps.
Proof. unfold chunks_all. induction ps as [|p ps IH]; [done|]. cbn. rewrite concat_app, (chunks_of_concat _ TCPChunkMaxLen_pos). by f_equal. Qed.
Lemma chunks_all_ok ps : Forall chunk_ok (chunks_all ps).
Proof. unfold chunks_all. induction ps as [|p ps IH]; [constructor|]. cbn. apply Forall_app. split; [apply chunks_ok, TCPChunkMaxLen_pos|done]. Qed.

(** What one write outcome means for the whole sequence. *)
Definition written (good : Prop) (bs : list byte) (ops : list (list byte * list byte)) (h h' : writeHalf) (rs : list (nat + error)) : Prop :=
  (exists w, t_out (outp h') = t_out (outp h) ++ w /\ w `prefix_of` bs) /\
  (good -> t_out (outp h') = t_out (outp h) ++ bs /\ rs = (fun op => inl (length op.2)) <$> ops).

Lemma writes_broken ops c : writeBroken (wh c) = true -> exists rs, writes ops c = (c, Ret rs).
Proof.
  intros B. induction ops as [|[salt b] ops [rs IH]]; [by eexists|]. cbn [writes].
  assert (E : try (Write salt b) c = (c, Ret (inr ErrClosed))) by (unfold try; by rewrite Write_broken).
  rewrite (st_bind_Ret _ _ _ _ _ E), (st_bind_Ret _ _ _ _ _ IH). by eexists.
Qed.

Lemma writes_cons salt b ops c c1 x h1 r bs bs2 key k : Write salt b c = (set_wh h1 c1, r) -> x = length b ->
  w_outcome bs key k x (wh c) h1 r ->
  (w_keyed key k h1 -> onceWrite h1 = true -> exists c' rs, writes ops (set_wh h1 c1) = (c', Ret rs) /\ written (w_good h1) bs2 ops h1 (wh c') rs) ->
  exists c' rs, writes ((salt, b) :: ops) c = (c', Ret rs) /\ written (w_good (wh c)) (bs ++ bs2) ((salt, b) :: ops) (wh c) (wh c') rs.
Proof.
  intros E -> [G [(-> & Ho & K & O)|(e & n & -> & Ho & B)]] IH; cbn [writes].
  - assert (E1 : try (Write salt b) c = (set_wh h1 c1, Ret (inl (length b)))) by (unfold try; by rewrite E). rewrite (st_bind_Ret _ _ _ _ _ E1).
    destruct (IH K O) as (c' & rs & E2 & (w & Ew & P) & Hg). rewrite (st_bind_Ret _ _ _ _ _ E2). eexists _, _. split; [reflexivity|]. split.
    + exists (bs ++ w). rewrite Ew, Ho, <- app_assoc. split; [done|]. by apply prefix_app.
    + intros W. destruct (Hg ltac:(by apply G)) as [-> ->]. rewrite Ho, <- app_assoc. done.
  - assert (E1 : try (Write salt b) c = (set_wh h1 c1, Ret (inr e))) by (unfold try; by rewrite E). rewrite (st_bind_Ret _ _ _ _ _ E1).
    destruct (writes_broken ops (set_wh h1 c1) B) as [rs E2]. rewrite (st_bind_Ret _ _ _ _ _ E2). eexists _, _. split; [reflexivity|]. split.
    + exists (take n bs). split; [done|]. apply prefix_app_r. exists (drop n bs). by rewrite take_drop.
    + intros W. apply G in W as [_ [? ?]]. done.
Qed.

Lemma writes_next ops : forall c key k, w_keyed key k (wh c) -> onceWrite (wh c) = true ->
  exists c' rs, writes ops c = (c', Ret rs) /\ written (w_good (wh c)) (frames key k (chunks_all (data_of ops))) ops (wh c) (wh c') rs.
Proof.
  induction ops as [|[salt b] ops IH]; intros c key k K O.
  - eexists _, _. split; [reflexivity|]. split; [exists []|intros _]; by rewrite app_nil_r.
  - destruct (Write_next salt b c key k K O) as (h1 & r & E & Ho). unfold data_of. cbn [fmap list_fmap snd]. unfold chunks_all. cbn [mbind list_bind].
    rewrite tcp_frames_app. eapply writes_cons; [exact E|reflexivity|exact Ho|]. intros K1 O1. apply (IH (set_wh h1 c)); done.
Qed.

Definition fresh_writer (c : TCPConn (Bloom := Bloom)) : Prop :=
  writeBroken (wh c) = false /\ onceWrite (wh c) = false /\ nonceWrite (wh c) = nonce_at N 0.

(** The plaintext a peer is to see. *)
Definition plain_of (mk : list byte) (m : Metadata) (ops : list (list byte * list byte)) : list (list byte) :=
  match ops with [] => [] | (_, b) :: ops => first_plain mk m b :: data_of ops end.

Lemma writes_first salt b ops c : fresh_writer c -> length salt = SaltLen conf -> header_ok (metadata c) ->
  exists c' rs, writes ((salt, b) :: ops) c = (c', Ret rs) /\
    written (w_good (wh c)) (salt ++ frames (subkey (masterKey c) salt) 0 (chunks_all (plain_of (masterKey c) (metadata c) ((salt, b) :: ops))))
      ((salt, b) :: ops) (wh c) (wh c') rs.
Proof.
  intros (F1 & F2 & F3) Ls Hh. destruct (Write_first salt b c F1 F2 F3 Ls Hh) as (bl & h1 & r & E & Ho).
  unfold plain_of, chunks_all. cbn [mbind list_bind]. rewrite tcp_frames_app, app_assoc. eapply writes_cons; [exact E|reflexivity|exact Ho|].
  intros K1 O1. apply (writes_next ops (set_wh h1 (set_bloom bl c))); done.
Qed.

(** ** Reading *)

Definition end_of_input (e : error) : Prop := e = EOF \/ e = ErrUnexpectedEOF.

Lemma readFull_prefix i A R : i `prefix_of` A ++ R ->
  (exists i', readFull (length A) i = (i', Ret A) /\ i' `prefix_of` R /\ (i = A ++ R -> i' = R)) \/
  (exists e, readFull (length A) i = ([], Fail e) /\ end_of_input e /\ i <> A ++ R).
Proof.
  intros [z E]. unfold readFull. destruct (decide (length A <= length i)%nat) as [L|L].
  - left. pose proof (f_equal (take (length A)) E) as E1. pose proof (f_equal (drop (length A)) E) as E2.
    rewrite take_app_length, take_app_le in E1 by done. rewrite drop_app_length, drop_app_le in E2 by done.
    exists (drop (length A) i). rewrite <- E1. split; [done|]. split; [by exists z|]. intros ->. by rewrite drop_app_length.
  - right. eexists. split; [reflexivity|]. split; [destruct i; [by left|by right]|]. intros ->. rewrite length_app in L. lia.
Qed.

Lemma read_in_prefix A R h : inp h `prefix_of` A ++ R -> exists h' r, read_in (length A) h = (h', r) /\
  h' = MkRH (cipherRead h) (onceRead h) (nonceRead h) (leftToRead h) (indexToRead h) (readLengthBuf h) (readCipherBuf h) (inp h') /\
  ((r = Ret A /\ inp h' `prefix_of` R /\ (inp h = A ++ R -> inp h' = R)) \/ (exists e, r = Fail e /\ end_of_input e /\ inp h <> A ++ R)).
Proof.
  intros P. unfold read_in. destruct (readFull_prefix _ _ _ P) as [(i' & -> & H)|(e & -> & H)]; (eexists _, _; split; [reflexivity|]; split; [done|]); [by left|].
  right. by exists e.
Qed.

Definition r_keyed (key : list byte) (k : nat) (h : readHalf) : Prop := cipherRead h = Some key /\ onceRead h = true /\ nonceRead h = nonce_at N k.

(** A complete input is what the peer has sealed and nothing more. *)
Definition complete (key : list byte) (k : nat) (cs : list (list byte)) (h : readHalf) : Prop := inp h = frames key k cs.

Definition read_fails {A} (key : list byte) (k : nat) (cs : list (list byte)) (h : readHalf) (r : res A) : Prop :=
  exists e, r = Fail e /\ end_of_input e /\ (complete key k cs h -> cs = [] /\ e = EOF).

Lemma readChunk_ok key k cs h : r_keyed key k h -> inp h `prefix_of` frames key k cs -> Forall chunk_ok cs ->
  exists h' r, readChunk h = (h', r) /\
   ((exists c cs', cs = c :: cs' /\ r = Ret (length c) /\ r_keyed key (S (S k)) h' /\ inp h' `prefix_of` frames key (S (S k)) cs' /\
      (exists rest, readCipherBuf h' = c ++ rest) /\ leftToRead h' = leftToRead h /\ indexToRead h' = indexToRead h /\
      (complete key k cs h -> complete key (S (S k)) cs' h')) \/
    read_fails key k cs h r).
Proof.
  intros (Ek & Eo & En) P F. unfold readChunk. st_pure. cbv zeta. st_pure. set (h0 := MkRH _ _ _ _ _ _ _ _).
  assert (P0 : inp h0 `prefix_of` frames key k cs) by exact P. destruct cs as [|c cs].
  { assert (Ei : inp h = []) by (by apply prefix_nil_inv). assert (E : exists h', read_in (2 + TagLen conf) h0 = (h', Fail EOF)) by (unfold read_in; cbn [inp h0]; rewrite Ei; by eexists).
    destruct E as [h1 E]. rewrite (st_bind_Fail _ _ _ _ _ E). eexists _, _. split; [reflexivity|]. right. exists EOF. split; [done|]. split; [by left|done]. }
  cbn [frames] in P0. destruct (proj1 (Forall_cons _ _ _) F) as [[Hc Lc] Fcs]. pose proof TCPChunkMaxLen_eq as ME.
  set (hd := be16 (Z.of_nat (length c))) in *. set (s1 := Seal key (nonce_at N k) hd) in *. assert (L1 : length s1 = (2 + TagLen conf)%nat) by (unfold s1, hd; by rewrite Seal_length, length_be_put).
  destruct (read_in_prefix s1 _ h0 P0) as (h1 & r1 & E1 & Eh1 & [(-> & P1 & C1)|(e & -> & He & C1)]); rewrite L1 in E1.
  2:{ rewrite (st_bind_Fail _ _ _ _ _ E1). eexists _, _. split; [reflexivity|]. right. exists e. split; [done|]. split; [done|]. intros C. by destruct C1. }
  rewrite (st_bind_Ret _ _ _ _ _ E1). rewrite Ek. st_pure. rewrite En. st_lift ltac:(unfold s1; by rewrite Open_Seal).
  assert (Lh : length hd = 2%nat) by apply length_be_put.
  st_lift ltac:(rewrite slice_eq, drop_0, firstn_all2 by lia; reflexivity). assert (be_get hd = Z.of_nat (length c)) as -> by (apply be_get_put_small; lia). rewrite Nat2Z.id.
  st_pure. set (s2 := Seal key (nonce_at N (S k)) c) in *. assert (L2 : length s2 = (length c + TagLen conf)%nat) by (unfold s2; by rewrite Seal_length).
  match goal with |- context [(read_in _ ≫= _) ?x] => set (h2 := x) end.
  destruct (read_in_prefix s2 (frames key (S (S k)) cs) h2 P1) as (h3 & r3 & E3 & Eh3 & [(-> & P3 & C3)|(e & -> & He & C3)]); rewrite L2 in E3.
  2:{ rewrite (st_bind_Fail _ _ _ _ _ E3). eexists _, _. split; [reflexivity|]. right. exists e. split; [done|]. split; [done|]. intros C. destruct C3. apply C1, C. }
  rewrite (st_bind_Ret _ _ _ _ _ E3). rewrite nonce_at_S. st_lift ltac:(unfold s2; by rewrite Open_Seal). st_pure.
  eexists _, _. split; [reflexivity|]. left. exists c, cs. split; [done|]. split; [done|]. rewrite Eh3. cbn [cipherRead onceRead nonceRead leftToRead indexToRead readCipherBuf inp].
  split; [unfold h2; by rewrite Eh1|]. split; [done|]. split.
  { unfold append_at. rewrite decide_True by (rewrite !length_app; lia). rewrite take_0. cbn [app Nat.add]. by eexists. }
  unfold h2. rewrite Eh1. split; [done|]. split; [done|]. intros C. apply C3, C1, C.
Qed.

(** The decrypted bytes not handed out yet. *)
Definition pending (left : list byte) (h : readHalf) : Prop :=
  (left = [] /\ leftToRead h = 0%nat /\ indexToRead h = 0%nat) \/
  ((indexToRead h < leftToRead h <= length (readCipherBuf h))%nat /\ left = drop (indexToRead h) (take (leftToRead h) (readCipherBuf h))).

Definition r_inv (key : list byte) (k : nat) (left : list byte) (cs : list (list byte)) (h : readHalf) : Prop :=
  r_keyed key k h /\ pending left h /\ inp h `prefix_of` frames key k cs /\ Forall chunk_ok cs.

Lemma read_data_ok q key k left cs h : r_inv key k left cs h -> exists h' r, read_data q h = (h', r) /\
  ((exists a k' left' cs', r = Ret a /\ left ++ concat cs = a ++ left' ++ concat cs' /\ r_inv key k' left' cs' h' /\
     (complete key k cs h -> complete key k' cs' h') /\ ((0 < q)%nat -> a <> []) /\ (length a <= q)%nat) \/
   (left = [] /\ read_fails key k cs h r)).
Proof.
  intros (K & Pd & P & F). unfold read_data. st_pure. destruct Pd as [(-> & El & Ei)|[B ->]].
  - rewrite decide_False by lia. destruct (readChunk_ok key k cs h K P F) as (h1 & r & E & [(c & cs' & -> & -> & K1 & P1 & (rest & Eb) & E1 & E2 & C1)|Hf]).
    2:{ destruct Hf as (e & -> & Hf). rewrite (st_bind_Fail _ _ _ _ _ E). eexists _, _. split; [reflexivity|]. right. split; [done|]. by exists e. }
    apply Forall_cons in F as [[Hc Lc] F]. rewrite (st_bind_Ret _ _ _ _ _ E). st_pure. cbv zeta. rewrite Eb, take_app_length. st_pure. case_decide as D.
    + eexists _, _. split; [reflexivity|]. left. exists (take (Nat.min q (length c)) c), (S (S k)), (drop (Nat.min q (length c)) c), cs'. split; [done|].
      split; [cbn [concat app]; by rewrite app_assoc, take_drop|]. split.
      { split; [exact K1|]. split; [|done]. right. cbn [indexToRead leftToRead readCipherBuf]. rewrite Eb, take_app_length, length_app. split; [lia|done]. }
      split; [exact C1|]. split; [|rewrite length_take; lia]. intros Q. destruct c; [done|]. destruct (Nat.min q _) eqn:Em; [cbn in Em; lia|done].
    + eexists _, _. split; [reflexivity|]. left. exists c, (S (S k)), [], cs'. rewrite Nat.min_r, firstn_all by lia. split; [done|]. split; [done|]. split.
      { split; [exact K1|]. split; [|done]. left. by rewrite E1, E2. } split; [exact C1|]. split; [done|]. lia.
  - rewrite decide_True by lia. cbv zeta. set (left := drop _ _). st_pure. set (n := Nat.min q (length left)).
    assert (Ll : length left = (leftToRead h - indexToRead h)%nat) by (unfold left; rewrite length_drop, length_take; lia).
    eexists _, _. split; [reflexivity|]. left. exists (take n left), k, (drop n left), cs. split; [done|]. split; [by rewrite app_assoc, take_drop|].
    split; [|split; [|split; [|rewrite length_take; lia]]].
    + destruct K as (K1 & K2 & K3). destruct (decide (leftToRead h <= indexToRead h + n)%nat) as [D|D]; (split; [done|split; [|done]]).
      * left. split; [apply drop_ge; lia|done].
      * right. cbn [indexToRead leftToRead readCipherBuf]. split; [lia|]. unfold left. by rewrite drop_drop.
    + case_decide; done.
    + intros Q E. apply (f_equal length) in E. rewrite length_take in E. cbn in E. lia.
Qed.

(** ** The reading end *)

Abbreviation Read := (Read ExistOrAdd hkdf).

Definition fresh_reader (c : TCPConn (Bloom := Bloom)) : Prop :=
  onceRead (rd c) = false /\ nonceRead (rd c) = nonce_at N 0 /\ leftToRead (rd c) = 0%nat /\ indexToRead (rd c) = 0%nat.
(** The filter, if there is one, has not seen the salt. *)
Definition salt_fresh (salt : list byte) (c : TCPConn (Bloom := Bloom)) : Prop :=
  match bloom c with None => True | Some b => fst (ExistOrAdd b salt) = false end.

(** [left] decrypted bytes and then [cs] are still to be read; [full] when all of
    it has arrived. *)
Definition r_conn (full : bool) (salt key left : list byte) (cs : list (list byte)) (c : TCPConn (Bloom := Bloom)) : Prop :=
  (exists k, r_inv key k left cs (rd c) /\ (full = true -> complete key k cs (rd c))) \/
  (fresh_reader c /\ left = [] /\ Forall chunk_ok cs /\ salt_fresh salt c /\ key = subkey (masterKey c) salt /\
   inp (rd c) `prefix_of` salt ++ frames key 0 cs /\ (full = true -> inp (rd c) = salt ++ frames key 0 cs)).

Lemma on_rd_eq {A} (m : st readHalf A) (c : TCPConn (Bloom := Bloom)) h r : m (rd c) = (h, r) -> on_rd m c = (set_rd h c, r).
Proof. intros E. unfold on_rd. by rewrite E. Qed.

Lemma init_read_ok full salt key left cs c : length salt = SaltLen conf -> r_conn full salt key left cs c ->
  exists c' r, init_read ExistOrAdd hkdf c = (c', r) /\
  ((r = Ret tt /\ exists k, r_inv key k left cs (rd c') /\ (full = true -> complete key k cs (rd c'))) \/
   (exists e, r = Fail e /\ end_of_input e /\ left = [] /\ full = false)).
Proof.
  intros Ls [(k & I & C)|((F1 & F2 & F3 & F4) & -> & Fc & Hs & Ek & P & C)]; unfold init_read; st_pure.
  - destruct I as [(K1 & K2 & K3) I]. rewrite K2. eexists _, _. split; [reflexivity|]. left. split; [done|]. by exists k.
  - rewrite F1. destruct (read_in_prefix salt _ (rd c) P) as (h1 & r1 & E1 & Eh1 & [(-> & P1 & C1)|(e & -> & He & C1)]); rewrite Ls in E1; apply on_rd_eq in E1.
    2:{ rewrite (st_bind_Fail _ _ _ _ _ E1). eexists _, _. split; [reflexivity|]. right. exists e. split; [done|]. split; [done|]. split; [done|].
        destruct full; [|done]. by destruct C1; apply C. }
    rewrite (st_bind_Ret _ _ _ _ _ E1). unfold salt_fresh in Hs.
    assert (Ef : exists bl, (match bloom c with
      | None => mret tt
      | Some b => let '(exists_, b) := ExistOrAdd b salt in _ ← modify (set_bloom (Some b)); if (exists_ : bool) then fail ErrReplayAttack else mret tt
      end) (set_rd h1 c) = (set_bloom bl (set_rd h1 c), Ret tt)).
    { destruct (bloom c) as [b|] eqn:Eb; [|exists (bloom c); unfold set_bloom, set_rd; destruct c; done].
      destruct (ExistOrAdd b salt) as [x b']. cbn in Hs. subst x. by eexists. }
    destruct Ef as [bl Ef]. rewrite (st_bind_Ret _ _ _ _ _ Ef). cbv zeta. rewrite <- Ek. rewrite NewCipher_ok by (rewrite Ek; apply hkdf_length).
    eexists _, _. split; [reflexivity|]. left. split; [done|]. exists 0%nat. cbn [rd set_rd set_bloom]. split; [|intros Ef2; by apply C1, C].
    split; [by rewrite Eh1|]. split; [left; by rewrite Eh1|]. done.
Qed.

Lemma Read_ok q full salt key left cs c : length salt = SaltLen conf -> r_conn full salt key left cs c -> exists c' r, Read q c = (c', r) /\
  ((exists a left' cs', r = Ret a /\ left ++ concat cs = a ++ left' ++ concat cs' /\ r_conn full salt key left' cs' c' /\
     ((0 < q)%nat -> a <> []) /\ (length a <= q)%nat) \/
   (exists e, r = Fail e /\ end_of_input e /\ (full = true -> left ++ concat cs = [] /\ e = EOF))).
Proof.
  intros Ls R. unfold SsTcp.Read. destruct (init_read_ok full salt key left cs c Ls R) as (c1 & r1 & E1 & [(-> & k & I & C)|(e & -> & He & -> & ->)]).
  2:{ rewrite (st_bind_Fail _ _ _ _ _ E1). eexists _, _. split; [reflexivity|]. right. exists e. done. }
  rewrite (st_bind_Ret _ _ _ _ _ E1). destruct (read_data_ok q key k left cs (rd c1) I) as (h2 & r2 & E2 & H).
  rewrite (on_rd_eq _ _ _ _ E2). eexists _, _. split; [reflexivity|]. destruct H as [(a & k' & left' & cs' & -> & Ed & I' & C' & Q & La)|(-> & e & -> & He & Hc)].
  - left. exists a, left', cs'. split; [done|]. split; [done|]. split; [left; exists k'; split; [done|]; intros Ef; by apply C', C|]. done.
  - right. exists e. split; [done|]. split; [done|]. intros Ef. destruct (Hc (C Ef)) as [-> ->]. done.
Qed.

(** Reads with buffers of the given sizes, up to the first error. *)
Fixpoint reads (ks : list nat) : st (TCPConn (Bloom := Bloom)) (list byte * option error) :=
  match ks with
  | [] => mret ([], None)
  | k :: ks =>
      r ← try (Read k);
      match r with
      | inl a => '(b, e) ← reads ks; mret (a ++ b, e)
      | inr e => mret ([], Some e)
      end
  end.

Definition ends (e : option error) : Prop := e = None \/ exists e', e = Some e' /\ end_of_input e'.

Lemma reads_ok ks : forall full salt key left cs c, length salt = SaltLen conf -> r_conn full salt key left cs c ->
  exists c' data e, reads ks c = (c', Ret (data, e)) /\ data `prefix_of` left ++ concat cs /\ ends e /\
    (full = true -> Forall (fun k => 0 < k)%nat ks -> (length (left ++ concat cs) < length ks)%nat -> data = left ++ concat cs /\ e = Some EOF).
Proof.
  induction ks as [|k ks IH]; intros full salt key left cs c Ls R; cbn [reads].
  - eexists _, _, _. split; [reflexivity|]. split; [by eexists|]. split; [by left|]. cbn. lia.
  - destruct (Read_ok k full salt key left cs c Ls R) as (c1 & r & E & [(a & left' & cs' & -> & Ed & R' & Q & _)|(e & -> & He & Hc)]).
    + assert (E1 : try (Read k) c = (c1, Ret (inl a))) by (unfold try; by rewrite E). rewrite (st_bind_Ret _ _ _ _ _ E1).
      destruct (IH full salt key left' cs' c1 Ls R') as (c2 & data & e & E2 & P & He & Hf). rewrite (st_bind_Ret _ _ _ _ _ E2).
      eexists _, _, _. split; [reflexivity|]. rewrite Ed. split; [by apply prefix_app|]. split; [done|].
      intros Ef Fk Lk. apply Forall_cons in Fk as [Hk Fk]. destruct (Hf Ef Fk) as [-> ->]; [|done].
      rewrite length_app in Lk. specialize (Q Hk). destruct a; [done|]. cbn in Lk. lia.
    + assert (E1 : try (Read k) c = (c1, Ret (inr e))) by (unfold try; by rewrite E). rewrite (st_bind_Ret _ _ _ _ _ E1).
      eexists _, _, _. split; [reflexivity|]. split; [by apply prefix_nil|]. split; [right; by exists e|]. intros Ef _ _. by destruct (Hc Ef) as [-> ->].
Qed.

(** [io.ReadFull] terminates: every read hands out at least a byte. *)
Lemma readFullConn_ok fuel : forall n salt key left cs c, length salt = SaltLen conf -> (n <= fuel)%nat -> r_conn true salt key left cs c -> (n <= length (left ++ concat cs))%nat ->
  exists c' left' cs', readFullConn ExistOrAdd hkdf fuel n c = (c', Ret (take n (left ++ concat cs))) /\
    r_conn true salt key left' cs' c' /\ left' ++ concat cs' = drop n (left ++ concat cs).
Proof.
  induction fuel as [|fuel IH]; intros n salt key left cs c Ls Ln R L; cbn [readFullConn].
  - assert (n = 0%nat) as -> by lia. rewrite decide_True by done. eexists _, _, _. split; [by rewrite take_0|]. split; [exact R|]. by rewrite drop_0.
  - case_decide as E0; [subst n; eexists _, _, _; split; [by rewrite take_0|]; split; [exact R|]; by rewrite drop_0|].
    destruct (Read_ok n true salt key left cs c Ls R) as (c1 & r & E & [(a & left1 & cs1 & -> & Ed & R1 & Q & La)|(e & -> & _ & Hc)]).
    2:{ destruct (Hc eq_refl) as [E1 _]. rewrite E1 in L. cbn in L. lia. }
    rewrite (st_bind_Ret _ _ _ _ _ E). assert (a <> []) by (apply Q; lia). rewrite Ed in *. rewrite length_app in L.
    destruct (IH (n - length a)%nat salt key left1 cs1 c1 Ls) as (c2 & left2 & cs2 & E2 & R2 & Ed2); [destruct a; [done|cbn; lia]|done|lia|].
    rewrite (st_bind_Ret _ _ _ _ _ E2). eexists _, _, _. split; [|split; [exact R2|]].
    + rewrite (take_app_ge a) by lia. reflexivity.
    + rewrite Ed2, (drop_app_ge a) by lia. done.
Qed.

Lemma ReadMetadata_ok fuel salt key left cs c m rest : length salt = SaltLen conf -> (300 <= fuel)%nat -> r_conn true salt key left cs c ->
  smeta_ok ParseIP m -> left ++ concat cs = smeta_bytes ParseIP m ++ rest ->
  exists c' left' cs', ReadMetadata ExistOrAdd hkdf fuel c = (c', Ret (smeta_received ParseIP m)) /\
    r_conn true salt key left' cs' c' /\ left' ++ concat cs' = rest.
Proof.
  intros Ls Lf R Hm Ed. unfold ReadMetadata. destruct (smeta_bytes_two ParseIP m Hm) as (t & x & l & Em).
  destruct (readFullConn_ok fuel 2 salt key left cs c Ls) as (c1 & left1 & cs1 & E1 & R1 & Ed1); [lia|done|rewrite Ed, Em; cbn; lia|].
  rewrite Ed, Em in E1, Ed1. rewrite (st_bind_Ret _ _ _ _ _ E1). cbn [app] in Ed1. change (drop 2 (t :: x :: l ++ rest)) with (l ++ rest) in Ed1.
  change (take 2 ((t :: x :: l) ++ rest)) with [t; x].
  assert (S2 : BytesSizeForMetadata [t; x] = Ret (length (smeta_bytes ParseIP m))).
  { pose proof (BytesSize_ok ParseIP m [] Hm) as B. rewrite app_nil_r in B. rewrite <- B, Em. done. }
  rewrite (st_lift_Ret _ _ _ _ S2). assert (Lm : length (smeta_bytes ParseIP m) = S (S (length l))) by (by rewrite Em).
  assert (Lb : (length (smeta_bytes ParseIP m) <= 260)%nat).
  { destruct Hm as [_ Hm]. unfold smeta_bytes. cbv zeta. cbn [length]. destruct (Type_ (sbase m)); cbn [length]; rewrite ?length_app, ?length_be_put; lia || done. }
  rewrite Lm in *. replace (S (S (length l)) - 2)%nat with (length l) by lia.
  destruct (readFullConn_ok fuel (length l) salt key left1 cs1 c1 Ls) as (c2 & left2 & cs2 & E2 & R2 & Ed2); [lia|done|rewrite Ed1, length_app; lia|].
  rewrite Ed1 in E2, Ed2. rewrite take_app_length in E2. rewrite drop_app_length in Ed2. rewrite (st_bind_Ret _ _ _ _ _ E2).
  assert (EN : NewMetadata ([t; x] ++ l) = Ret (smeta_received ParseIP m)).
  { pose proof (NewMetadata_ok ParseIP m [] Hm) as B. rewrite app_nil_r in B. rewrite <- B, Em. done. }
  rewrite (st_lift_Ret _ _ _ _ EN). st_pure. eexists _, left2, cs2. split; [reflexivity|]. split; [|done]. by case_match.
Qed.

(** What the peer's transport delivers. *)
Definition with_inp (i : stream) (c : TCPConn (Bloom := Bloom)) : TCPConn :=
  let h := rd c in set_rd (MkRH (cipherRead h) (onceRead h) (nonceRead h) (leftToRead h) (indexToRead h) (readLengthBuf h) (readCipherBuf h) i) c.

(** C9: the Shadowsocks stream is transparent and fails safely.  The client makes any sequence of
    writes over any transport, which may take part of a frame and fail at any point.
    Whatever prefix of the bytes written arrives, a peer that reads with buffers of any
    sizes obtains a prefix of the address header and the data written, in order, and
    nothing else: no decryption error and no panic, the only errors are the end of the
    input.  Over a transport that accepts everything each write reports its full length,
    and when all of it arrives the peer obtains the client's target from the header and
    then exactly the data, however the frames and buffers cut it, and then the end of the
    stream. *)
Theorem ss_tcp_stream cl sv salt b ops :
  fresh_writer cl -> header_ok (metadata cl) -> length salt = SaltLen conf -> t_out (outp (wh cl)) = [] ->
  fresh_reader sv -> masterKey sv = masterKey cl -> salt_fresh salt sv ->
  let plain := concat (plain_of (masterKey cl) (metadata cl) ((salt, b) :: ops)) in
  exists cl' rs, writes ((salt, b) :: ops) cl = (cl', Ret rs) /\
    (forall got ks, got `prefix_of` t_out (outp (wh cl')) -> exists sv' data e, reads ks (with_inp got sv) = (sv', Ret (data, e)) /\
       data `prefix_of` plain /\ ends e) /\
    (w_good (wh cl) -> rs = (fun op => inl (length op.2)) <$> (salt, b) :: ops /\
       (forall ks, Forall (fun k => 0 < k)%nat ks -> (length plain < length ks)%nat ->
          exists sv', reads ks (with_inp (t_out (outp (wh cl'))) sv) = (sv', Ret (plain, Some EOF))) /\
       (IsClient (metadata cl) = true -> is_msg (metadata cl) = false -> forall fuel ks, (300 <= fuel)%nat ->
          Forall (fun k => 0 < k)%nat ks -> (length plain < length ks)%nat ->
          exists sv1 sv2, ReadMetadata ExistOrAdd hkdf fuel (with_inp (t_out (outp (wh cl'))) sv) = (sv1, Ret (smeta_received ParseIP (header_meta (metadata cl) b))) /\
            reads ks sv1 = (sv2, Ret (b ++ concat (data_of ops), Some EOF)))).
Proof.
  intros Fw Hh Ls Eo Fr Em Hs plain. destruct (writes_first salt b ops cl Fw Ls Hh) as (cl' & rs & E & (w & Ew & Pw) & Hg).
  exists cl', rs. split; [exact E|]. rewrite Eo in *. cbn [app] in *. set (key := subkey _ _) in *. set (cs := chunks_all _) in *.
  assert (Ec : concat cs = plain) by apply concat_chunks_all.
  assert (RC : forall full got, got `prefix_of` salt ++ frames key 0 cs -> (full = true -> got = salt ++ frames key 0 cs) -> r_conn full salt key [] cs (with_inp got sv)).
  { intros full got P C. right. split; [exact Fr|]. split; [done|]. split; [apply chunks_all_ok|]. split; [exact Hs|]. split; [by unfold key; rewrite <- Em|]. done. }
  split.
  - intros got ks Pg. destruct (reads_ok ks false salt key [] cs (with_inp got sv) Ls) as (sv' & data & e & Er & P & He & _).
    { apply RC; [|done]. rewrite Ew in Pg. by etrans. } cbn [app] in P. rewrite Ec in P. by eexists _, _, _.
  - intros G. destruct (Hg G) as [Eo' ->]. rewrite Eo'. split; [done|]. pose proof (RC true _ (reflexivity _) (fun _ => eq_refl)) as R. split.
    + intros ks Fk Lk. destruct (reads_ok ks true salt key [] cs _ Ls R) as (sv' & data & e & Er & _ & _ & Hf). cbn [app] in Hf. rewrite Ec in Hf.
      destruct (Hf eq_refl Fk Lk) as [-> ->]. by eexists.
    + intros Ic Nm fuel ks Lf Fk Lk.
      assert (Ep : plain = smeta_bytes ParseIP (header_meta (metadata cl) b) ++ b ++ concat (data_of ops)).
      { unfold plain, plain_of, first_plain, header. rewrite Ic, Nm. cbn [orb concat]. rewrite app_nil_r. by rewrite <- app_assoc. }
      destruct (ReadMetadata_ok fuel salt key [] cs (with_inp (salt ++ frames key 0 cs) sv) (header_meta (metadata cl) b) (b ++ concat (data_of ops)) Ls Lf R)
        as (sv1 & left1 & cs1 & E1 & R1 & Ed1); [apply header_meta_ok; [done|by rewrite Ic]|by rewrite <- Ep|].
      destruct (reads_ok ks true salt key left1 cs1 sv1 Ls R1) as (sv2 & data & e & Er & _ & _ & Hf). rewrite Ed1 in Hf.
      destruct (Hf eq_refl Fk) as [-> ->]; [rewrite Ep, length_app in Lk; lia|]. by eexists _, _.
Qed.
End stream.

(** ** A concrete exchange *)

Definition demo_hkdf (k s i : list byte) (n : nat) : list byte := demo_hash n (k ++ s ++ i).
Definition demo_ss_meta (client : bool) : Metadata := MkMeta MetadataTypeDomain [x61; x62] 443 AddrZero 0 (lit "aes-128-gcm") client.
Definition demo_ss_conn (client : bool) : TCPConn (Bloom := unit) :=
  match NewTCPConn (demo_ss_meta client) [x01; x02] None [] (MkTconn [] [] false) with
  | Ret c => c
  | _ => MkTC (demo_ss_meta client) [] (MkRH None true [] 0 0 [] [] []) (MkWH None true true [] [] (MkTconn [] [] true)) None
  end.
Definition demo_pool_source : BufferSource := pool_source init_pools init_pools_wf None.
Definition demo_salt : list byte := replicate 16 x2a.
Definition demo_add (b : unit) (_ : list byte) : bool * unit := (false, b).

Lemma ss_tcp_stream_witness : exists cl' rs,
  writes (CA := demo_aead) (BS := demo_pool_source) demo_add demo_hkdf id (fun _ => 0) [(demo_salt, [x68; x69]); ([], [x21])] (demo_ss_conn true) = (cl', Ret rs) /\
  rs = [inl 2%nat; inl 1%nat] /\
  exists sv1 sv2, ReadMetadata (CA := demo_aead) demo_add demo_hkdf (Z.to_nat 300) (with_inp (t_out (outp (wh cl'))) (demo_ss_conn false)) = (sv1, Ret (smeta_received id (MkSM (demo_ss_meta true) 0))) /\
    reads (CA := demo_aead) demo_add demo_hkdf (replicate 20 1%nat) sv1 = (sv2, Ret ([x68; x69; x21], Some EOF)).
Proof.
  destruct (ss_tcp_stream (CA := demo_aead) (BS := demo_pool_source) demo_add demo_hkdf (fun _ _ _ n => length_demo_hash n _) id (fun _ => 0)
    (demo_ss_conn true) (demo_ss_conn false) demo_salt [x68; x69] [([], [x21])]) as (cl' & rs & E & _ & G).
  - by repeat split.
  - change (header_ok id (demo_ss_meta true)). intros _. split; cbn; lia.
  - done.
  - done.
  - by repeat split.
  - done.
  - exact I.
  - exists cl', rs. split; [exact E|]. destruct G as (-> & _ & T); [split; reflexivity|]. split; [reflexivity|].
    apply T; [reflexivity|reflexivity|lia|apply Forall_replicate; lia|].
    apply (bool_decide_unpack _). vm_compute. exact Logic.I.
Defined.
