(* ===== verification/SsUdp.v ===== *)
(** Shadowsocks datagrams (protocol/shadowsocks/udp_conn.go): sealing in one
    pooled buffer, single and batched sending, receiving.

    The transport below is the list of datagrams handed to it and a plan of what
    each call returns (an exhausted plan: everything written).  [net.SplitHostPort],
    [netip.ParseAddr], [net.ParseIP], SHA-1, the salt filter and random salts are
    parameters. *)

From S2P Require Import Prelude NetIP GoState Common Pool Metadata Transport SsAddr SsKey SsTcp.
From Stdlib Require Import Strings.Byte.

Section udp.
Context {CA : AEAD} {BS : BufferSource} {Bloom : Type}.
Context (sha1 : list byte -> list byte) (ExistOrAdd : Bloom -> list byte -> bool * Bloom).
Context (ParseIP : list byte -> list byte) (ParseAddr : list byte -> option Addr) (SplitHostPort : list byte -> res (list byte * list byte)).
(** The scratch memory the pools hand out. *)
Context (ks : key_scratch).

Record UdpConn := MkUC {
  u_proxy : list byte; u_meta : Metadata; u_key : list byte; u_bloom : option Bloom;
  target : LastStringValue Metadata; u_batch : bool;
  u_sent : list (list byte * list byte); u_plan : list (nat * option error) }.

Definition set_target (t : LastStringValue Metadata) (c : UdpConn) : UdpConn :=
  MkUC (u_proxy c) (u_meta c) (u_key c) (u_bloom c) t (u_batch c) (u_sent c) (u_plan c).
Definition set_ubloom (b : option Bloom) (c : UdpConn) : UdpConn :=
  MkUC (u_proxy c) (u_meta c) (u_key c) b (target c) (u_batch c) (u_sent c) (u_plan c).

Definition under_WriteTo (buf addr : list byte) : st UdpConn (nat * option error) := fun c =>
  let put s p := MkUC (u_proxy c) (u_meta c) (u_key c) (u_bloom c) (target c) (u_batch c) s p in
  match u_plan c with
  | [] => (put (u_sent c ++ [(buf, addr)]) [], Ret (length buf, None))
  | (n, e) :: plan => (put (u_sent c ++ match e with None => [(buf, addr)] | Some _ => [] end) plan, Ret (n, e))
  end.
(** The first [n] datagrams of the batch were sent. *)
Definition under_WriteBatch (items : list (list byte * list byte)) : st UdpConn (nat * option error) := fun c =>
  let put s p := MkUC (u_proxy c) (u_meta c) (u_key c) (u_bloom c) (target c) (u_batch c) s p in
  match u_plan c with
  | [] => (put (u_sent c ++ items) [], Ret (length items, None))
  | (n, e) :: plan => (put (u_sent c ++ take n items) plan, Ret (n, e))
  end.

Definition metadataForAddr (addr : list byte) : st UdpConn Metadata :=
  c ← get;
  match LastStringValue_Load (target c) addr with
  | Some cached => mret cached
  | None =>
      mdata ← lift (ParseMetadata ParseAddr SplitHostPort addr);
      _ ← modify (fun c => set_target (LastStringValue_Store addr mdata (target c)) c);
      mret mdata
  end.

(** The session's metadata with the target of [mdata]. *)
Definition retarget (m mdata : Metadata) : SMetadata :=
  MkSM (MkMeta (Type_ mdata) (Hostname mdata) (mPort mdata) (mIP mdata) (Cmd m) (Cipher m) (IsClient m)) 0.

Definition metadataForWrite (addr : list byte) : st UdpConn SMetadata :=
  c ← get;
  mdata ← metadataForAddr addr;
  if decide (Type_ mdata = MetadataTypeDomain /\ (255 < length (Hostname mdata))%nat) then fail (Errorf "domain name too long: %d")
  else mret (retarget (u_meta c) mdata).

(** Layout: salt, metadata, payload, tag, in one slice of the pool. *)
Definition sealToPool (key salt : list byte) (m : SMetadata) (b : list byte) : res (list byte) :=
  let prefixLen := metadataLen (Type_ (sbase m)) in
  let totalLen := (SaltLen conf + prefixLen + length b + TagLen conf)%nat in
  '(buf, _) ← copy_at (src_get totalLen) 0 salt;
  tail ← slice_from buf (SaltLen conf);
  '(tail, n) ← writeMetadataInline ParseIP tail m;
  let buf := take (SaltLen conf) buf ++ tail in
  let offset := (SaltLen conf + n)%nat in
  '(buf, _) ← copy_at buf offset b;
  encryptUDPInPlace sha1 ks key buf (offset + length b) ShadowsocksReusedInfo.

(** The salt of a sealed datagram is recorded. *)
Definition record_salt (pkt : list byte) : st UdpConn unit :=
  c ← get;
  match u_bloom c with
  | None => mret tt
  | Some bl =>
      s ← lift (slice pkt 0 (SaltLen conf));
      modify (set_ubloom (Some (snd (ExistOrAdd bl s))))
  end.

(** The result is that of the transport: the length of the sealed datagram. *)
Definition WriteTo (salt b addr : list byte) : st UdpConn (nat * option error) :=
  metadata ← metadataForWrite addr;
  c ← get;
  toWrite ← lift (sealToPool (u_key c) salt metadata b);
  _ ← record_salt toWrite;
  under_WriteTo toWrite (u_proxy c).

Fixpoint metadatas (items : list (list byte * list byte)) : st UdpConn (list SMetadata) :=
  match items with
  | [] => mret []
  | (_, addr) :: items => m ← metadataForWrite addr; ms ← metadatas items; mret (m :: ms)
  end.
Fixpoint seal_all (key : list byte) (salts : list (list byte)) (ms : list SMetadata) (items : list (list byte * list byte)) : res (list (list byte)) :=
  match items, ms, salts with
  | (b, _) :: items, m :: ms, salt :: salts => s ← sealToPool key salt m b; ss ← seal_all key salts ms items; Ret (s :: ss)
  | _, _, _ => Ret []
  end.
Fixpoint record_salts (pkts : list (list byte)) : st UdpConn unit :=
  match pkts with [] => mret tt | p :: pkts => _ ← record_salt p; record_salts pkts end.
Fixpoint send_each (pkts : list (list byte)) (sent : nat) : st UdpConn (nat * option error) :=
  match pkts with
  | [] => mret (sent, None)
  | p :: pkts =>
      _ ← record_salt p;
      c ← get;
      '(_, err) ← under_WriteTo p (u_proxy c);
      match err with Some e => mret (sent, Some e) | None => send_each pkts (S sent) end
  end.

Definition WriteBatch (salts : list (list byte)) (items : list (list byte * list byte)) : st UdpConn (nat * option error) :=
  if decide (items = []) then mret (0%nat, None) else
  ms ← metadatas items;
  c ← get;
  sealed ← lift (seal_all (u_key c) salts ms items);
  if u_batch c then
    _ ← record_salts sealed;
    under_WriteBatch ((fun s => (s, u_proxy c)) <$> sealed)
  else send_each sealed 0.

(** The datagram [d] arrives; [b] is the caller's slice. *)
Definition ReadFrom (b d : list byte) : st UdpConn (list byte * AddrPort) :=
  c ← get;
  let enc := take (length b + SaltLen conf) d in
  '(b, n) ← lift (DecryptUDP sha1 ks b (u_key c) enc ShadowsocksReusedInfo);
  _ ← match u_bloom c with
      | None => mret tt
      | Some bl =>
          s ← lift (slice enc 0 (SaltLen conf));
          let '(seen, bl) := ExistOrAdd bl s in
          _ ← modify (set_ubloom (Some bl));
          if (seen : bool) then fail ErrReplayAttack else mret tt
      end;
  plain ← lift (slice b 0 n);
  '(payload, addr) ← lift (splitDecryptedUdp plain);
  '(b, n) ← lift (copy_at b 0 payload);
  payload ← lift (slice b 0 n);
  mret (payload, addr).

(** The push-mode receiver: the whole datagram, decoded into memory of its own;
    an error is delivered in the packet. *)
Definition mapReceivedPacket (d : list byte) : st UdpConn (list byte * AddrPort) :=
  c ← get;
  '(b, n) ← lift (DecryptUDP sha1 ks (src_get (length d)) (u_key c) d ShadowsocksReusedInfo);
  _ ← match u_bloom c with
      | None => mret tt
      | Some bl =>
          s ← lift (slice d 0 (SaltLen conf));
          let '(seen, bl) := ExistOrAdd bl s in
          _ ← modify (set_ubloom (Some bl));
          if (seen : bool) then fail ErrReplayAttack else mret tt
      end;
  plain ← lift (slice b 0 n);
  lift (splitDecryptedUdp plain).
End udp.

Section exchange.
Context {CA : AEAD} {BS : BufferSource} {Bloom : Type}.
Context (sha1 : list byte -> list byte) (sha1_length : forall m, length (sha1 m) = 20%nat).
Context (ExistOrAdd : Bloom -> list byte -> bool * Bloom).
Context (ParseIP : list byte -> list byte) (ParseAddr : list byte -> option Addr) (SplitHostPort : list byte -> res (list byte * list byte)).
Context (ks : key_scratch) (C : conf_ok) (W : ks_wf ks).

(** * Datagrams on the wire *)

Definition pkt (key salt : list byte) (m : SMetadata) (b : list byte) : list byte :=
  packet sha1 key salt ShadowsocksReusedInfo (smeta_bytes ParseIP m ++ b).

Lemma length_pkt key salt m b : length (pkt key salt m b) = (length salt + length (smeta_bytes ParseIP m) + length b + TagLen conf)%nat.
Proof. unfold pkt. rewrite length_packet, length_app. lia. Qed.

Lemma metadataLen_ok m : smeta_ok ParseIP m -> (length (smeta_bytes ParseIP m) <= metadataLen (Type_ (sbase m)))%nat.
Proof.
  intros [_ H]. unfold smeta_bytes. cbv zeta. cbn [length]. destruct (Type_ (sbase m)); cbn [metadataLen length]; rewrite ?length_app, ?length_be_put; try lia; done.
Qed.

Lemma sealToPool_ok key salt m b : length salt = SaltLen conf -> smeta_ok ParseIP m ->
  sealToPool sha1 ParseIP ks key salt m b = Ret (pkt key salt m b).
Proof.
  intros Ls Hm. pose proof (metadataLen_ok m Hm) as Lm. unfold sealToPool. cbv zeta. set (total := (_ + _ + _ + _)%nat).
  assert (L0 : length (src_get total) = total) by apply src_length. rewrite copy_at_0 by lia. rewrite bind_ret, slice_from_app by done. rewrite bind_ret.
  rewrite writeMetadataInline_ok by (done || rewrite length_drop; lia). rewrite bind_ret, take_app_length' by done.
  set (bs := smeta_bytes ParseIP m) in *. rewrite app_assoc, copy_at_app by (rewrite ?length_app, ?length_drop; lia). rewrite bind_ret.
  rewrite <- (app_assoc salt bs b), <- (app_assoc salt (bs ++ b)). unfold pkt. fold bs.
  apply encryptUDPInPlace_ok; [done|done|done|done|rewrite length_app; lia|]. rewrite !length_drop, L0. unfold total. lia.
Qed.

(** The source a peer attributes a datagram with header [m] to. *)
Definition source_of (m : SMetadata) : option AddrPort :=
  match Type_ (sbase m) with
  | MetadataTypeIPv4 => Some (MkAddrPort (Addr4 (raw4 ParseIP (sbase m))) (mPort (sbase m)))
  | MetadataTypeIPv6 => Some (MkAddrPort (Addr6 (raw16 ParseIP (sbase m))) (mPort (sbase m)))
  | _ => None
  end.

Lemma split_ok m p a : smeta_ok ParseIP m -> source_of m = Some a -> splitDecryptedUdp (smeta_bytes ParseIP m ++ p) = Ret (p, a).
Proof.
  intros Hm Ha. unfold splitDecryptedUdp. rewrite BytesSize_ok, bind_ret, NewMetadata_ok, bind_ret by done.
  unfold source_of in Ha. unfold smeta_received. cbv zeta. destruct (Type_ (sbase m)) eqn:T; try done; injection Ha as <-; cbn [sbase newSMetadata Type_ mIP mPort];
    rewrite decide_False by done; by rewrite slice_from_app.
Qed.

(** * Receiving *)

Definition salt_new (salt : list byte) (c : UdpConn (Bloom := Bloom)) : Prop :=
  match u_bloom c with None => True | Some b => fst (ExistOrAdd b salt) = false end.

(** The filter step of both receivers. *)
Lemma filter_ok salt body (c : UdpConn (Bloom := Bloom)) : length salt = SaltLen conf -> salt_new salt c -> exists bl,
  (match u_bloom c with
   | None => mret tt
   | Some bl =>
       s ← lift (slice (salt ++ body) 0 (SaltLen conf));
       let '(seen, bl) := ExistOrAdd bl s in
       _ ← modify (set_ubloom (Some bl));
       if (seen : bool) then fail ErrReplayAttack else mret tt
   end) c = (set_ubloom bl c, Ret tt).
Proof.
  intros Ls Hn. unfold salt_new in Hn. destruct (u_bloom c) as [bl|] eqn:E.
  - erewrite st_lift_Ret by (by apply slice_prefix). cbv beta. destruct (ExistOrAdd bl salt) as [seen bl']. cbn in Hn. subst seen. by eexists.
  - exists (u_bloom c). unfold set_ubloom. by destruct c.
Qed.

Lemma ReadFrom_ok b key salt m p a c : length salt = SaltLen conf -> smeta_ok ParseIP m -> source_of m = Some a -> u_key c = key -> salt_new salt c ->
  (length (smeta_bytes ParseIP m) + length p + TagLen conf <= length b)%nat ->
  exists c', ReadFrom sha1 ExistOrAdd ks b (pkt key salt m p) c = (c', Ret (p, a)) /\ u_key c' = key.
Proof.
  intros Ls Hm Ha <- Hn L. unfold ReadFrom. st_pure. cbv zeta. rewrite firstn_all2 by (rewrite length_pkt; lia).
  st_lift ltac:(apply DecryptUDP_packet; done). set (plain := smeta_bytes ParseIP m ++ p). assert (Lp : (length plain <= length b)%nat) by (unfold plain; rewrite length_app; lia).
  destruct (filter_ok salt (Seal (session_key sha1 (u_key c) salt ShadowsocksReusedInfo) (replicate (NonceLen conf) x00) plain) c Ls Hn) as (bl & Ef).
  change (pkt (u_key c) salt m p) with (salt ++ Seal (session_key sha1 (u_key c) salt ShadowsocksReusedInfo) (replicate (NonceLen conf) x00) plain).
  rewrite (st_bind_Ret _ _ _ _ _ Ef).
  assert (Ea : append_at b 0 plain = plain ++ drop (length plain) b) by (apply (append_at_app [] plain b); [done|lia]). rewrite Ea.
  st_lift ltac:(by apply slice_prefix). st_lift ltac:(by apply split_ok). st_lift ltac:(apply copy_at_0; unfold plain; rewrite !length_app; lia).
  st_lift ltac:(by apply slice_prefix). by eexists.
Qed.

Lemma mapReceivedPacket_ok key salt m p a c : length salt = SaltLen conf -> smeta_ok ParseIP m -> source_of m = Some a -> u_key c = key -> salt_new salt c ->
  exists c', mapReceivedPacket sha1 ExistOrAdd ks (pkt key salt m p) c = (c', Ret (p, a)) /\ u_key c' = key.
Proof.
  intros Ls Hm Ha <- Hn. unfold mapReceivedPacket. st_pure.
  st_lift ltac:(apply DecryptUDP_packet; done). set (plain := smeta_bytes ParseIP m ++ p). set (buf := src_get _).
  assert (Lb : (length plain <= length buf)%nat) by (unfold buf; rewrite src_length, length_pkt; unfold plain; rewrite length_app; lia).
  destruct (filter_ok salt (Seal (session_key sha1 (u_key c) salt ShadowsocksReusedInfo) (replicate (NonceLen conf) x00) plain) c Ls Hn) as (bl & Ef).
  change (pkt (u_key c) salt m p) with (salt ++ Seal (session_key sha1 (u_key c) salt ShadowsocksReusedInfo) (replicate (NonceLen conf) x00) plain).
  rewrite (st_bind_Ret _ _ _ _ _ Ef).
  assert (Ea : append_at buf 0 plain = plain ++ drop (length plain) buf) by (apply (append_at_app [] plain buf); [done|lia]). rewrite Ea.
  st_lift ltac:(by apply slice_prefix). unfold lift. unfold plain. rewrite (split_ok m p a) by done. by eexists.
Qed.

(** * Sending *)

Abbreviation write_to := (WriteTo sha1 ExistOrAdd ParseIP ParseAddr SplitHostPort ks).
Abbreviation write_batch := (WriteBatch sha1 ExistOrAdd ParseIP ParseAddr SplitHostPort ks).
Abbreviation metadata_for_write := (metadataForWrite ParseAddr SplitHostPort (Bloom := Bloom)).

(** Only the target cache changes. *)
Definition same_conn (c c' : UdpConn (Bloom := Bloom)) : Prop :=
  u_proxy c' = u_proxy c /\ u_meta c' = u_meta c /\ u_key c' = u_key c /\ u_batch c' = u_batch c /\ u_sent c' = u_sent c /\ u_plan c' = u_plan c.
Definition cached (c : UdpConn (Bloom := Bloom)) : Prop := forall k v, target c = Some (k, v) -> ParseMetadata ParseAddr SplitHostPort k = Ret v.

Lemma same_conn_trans a b c : same_conn a b -> same_conn b c -> same_conn a c.
Proof. unfold same_conn. intuition congruence. Qed.

(** A target that can be sent to. *)
Definition sendable (c : UdpConn (Bloom := Bloom)) (addr : list byte) (m : SMetadata) : Prop :=
  exists md, ParseMetadata ParseAddr SplitHostPort addr = Ret md /\ m = retarget (u_meta c) md /\ smeta_ok ParseIP m.

Lemma metadataForWrite_ok addr m c : cached c -> sendable c addr m ->
  exists c', metadata_for_write addr c = (c', Ret m) /\ same_conn c c' /\ cached c'.
Proof.
  intros Hc (md & Em & -> & Hm). unfold metadataForWrite, metadataForAddr. st_pure.
  assert (D : ~ (Type_ md = MetadataTypeDomain /\ (255 < length (Hostname md))%nat)).
  { intros [T L]. destruct Hm as [_ Hm]. cbn in Hm. rewrite T in Hm. lia. }
  unfold LastStringValue_Load. destruct (target c) as [[k v]|] eqn:Et.
  - destruct (decide (k = addr)) as [Ek|Ek].
    + subst k. specialize (Hc _ _ Et). rewrite Em in Hc. injection Hc as <-. erewrite (st_bind_Ret _ _ c c md) by (unfold mbind, st_bind, get; cbn; rewrite Et, decide_True; done).
      rewrite decide_False by done. eexists. split; [reflexivity|]. split; [done|]. intros k v E. rewrite Et in E. by injection E as <- <-.
    + erewrite (st_bind_Ret _ _ c (set_target (Some (addr, md)) c) md) by (unfold mbind, st_bind, get; cbn; rewrite Et, decide_False by done; unfold lift; rewrite Em; done).
      rewrite decide_False by done. eexists. split; [reflexivity|]. split; [done|]. intros k' v' E. by injection E as <- <-.
  - erewrite (st_bind_Ret _ _ c (set_target (Some (addr, md)) c) md) by (unfold mbind, st_bind, get; cbn; rewrite Et; unfold lift; rewrite Em; done).
    rewrite decide_False by done. eexists. split; [reflexivity|]. split; [done|]. intros k' v' E. by injection E as <- <-.
Qed.

Lemma record_salt_ok p (c : UdpConn (Bloom := Bloom)) : (SaltLen conf <= length p)%nat -> exists bl, record_salt ExistOrAdd p c = (set_ubloom bl c, Ret tt).
Proof.
  intros L. unfold record_salt. st_pure. destruct (u_bloom c) as [bl|] eqn:E.
  - st_lift ltac:(apply slice_eq; lia). by eexists.
  - exists (u_bloom c). unfold set_ubloom. by destruct c.
Qed.

Lemma ssu_WriteTo_ok salt b addr m c : cached c -> sendable c addr m -> length salt = SaltLen conf ->
  exists c' n e, write_to salt b addr c = (c', Ret (n, e)) /\
    u_sent c' = u_sent c ++ match e with None => [(pkt (u_key c) salt m b, u_proxy c)] | Some _ => [] end /\
    (u_plan c = [] -> n = length (pkt (u_key c) salt m b) /\ e = None).
Proof.
  intros Hc Hs Ls. unfold WriteTo. destruct (metadataForWrite_ok addr m c Hc Hs) as (c1 & E1 & (S1 & S2 & S3 & S4 & S5 & S6) & Hc1).
  destruct Hs as (md & Em & -> & Hm). rewrite (st_bind_Ret _ _ _ _ _ E1). st_pure. st_lift ltac:(by apply sealToPool_ok). rewrite S3.
  set (p := pkt _ _ _ _). destruct (record_salt_ok p c1) as (bl & E2); [unfold p; rewrite length_pkt; lia|]. rewrite (st_bind_Ret _ _ _ _ _ E2).
  unfold under_WriteTo. cbn [u_plan u_sent u_proxy set_ubloom]. rewrite S5, S6, S1. destruct (u_plan c) as [|[n e] plan].
  - eexists _, _, _. split; [reflexivity|]. done.
  - eexists _, _, _. split; [reflexivity|]. split; [by destruct e|done].
Qed.

Lemma metadatas_ok items : forall ms c, cached c -> Forall2 (fun it m => sendable c it.2 m) items ms ->
  exists c', metadatas ParseAddr SplitHostPort items c = (c', Ret ms) /\ same_conn c c' /\ cached c'.
Proof.
  induction items as [|[b addr] items IH]; intros ms c Hc F; inversion F as [|? m ? ms' Hm F']; subst; cbn [metadatas]; [by eexists|].
  destruct (metadataForWrite_ok addr m c Hc Hm) as (c1 & E1 & S1 & Hc1). rewrite (st_bind_Ret _ _ _ _ _ E1).
  destruct (IH ms' c1 Hc1) as (c2 & E2 & S2 & Hc2).
  { eapply Forall2_impl; [exact F'|]. intros it m' (md & A & -> & B). exists md. destruct S1 as (_ & -> & _). done. }
  rewrite (st_bind_Ret _ _ _ _ _ E2). eexists. split; [reflexivity|]. split; [by eapply same_conn_trans|done].
Qed.

(** The sealed datagrams of a batch. *)
Definition pkts (key : list byte) (salts : list (list byte)) (items : list (list byte * list byte)) (ms : list SMetadata) : list (list byte) :=
  zip_with (fun sm it => pkt key sm.1 sm.2 it.1) (zip salts ms) items.

Lemma seal_all_ok key items : forall salts ms, length salts = length items -> length ms = length items ->
  Forall (fun s => length s = SaltLen conf) salts -> Forall (smeta_ok ParseIP) ms ->
  seal_all sha1 ParseIP ks key salts ms items = Ret (pkts key salts items ms).
Proof.
  induction items as [|[b addr] items IH]; intros [|salt salts] [|m ms] L1 L2 F1 F2; try done. cbn [seal_all].
  apply Forall_cons in F1 as [Hs F1], F2 as [Hm F2]. rewrite sealToPool_ok by done. cbn [length] in L1, L2. rewrite bind_ret, IH by (done || lia). done.
Qed.

Definition all_salted (ps : list (list byte)) : Prop := Forall (fun p => SaltLen conf <= length p)%nat ps.

Lemma record_salts_ok ps : forall c : UdpConn (Bloom := Bloom), all_salted ps -> exists bl, record_salts ExistOrAdd ps c = (set_ubloom bl c, Ret tt).
Proof.
  induction ps as [|p ps IH]; intros c F; cbn [record_salts].
  - exists (u_bloom c). unfold set_ubloom. by destruct c.
  - apply Forall_cons in F as [Hp F]. destruct (record_salt_ok p c Hp) as (bl & E). rewrite (st_bind_Ret _ _ _ _ _ E).
    destruct (IH (set_ubloom bl c) F) as (bl' & E'). by exists bl'.
Qed.

Lemma send_each_ok ps : forall k c, all_salted ps -> exists c' n e, send_each ExistOrAdd ps k c = (c', Ret ((k + n)%nat, e)) /\ (n <= length ps)%nat /\
  u_sent c' = u_sent c ++ take n ((fun p => (p, u_proxy c)) <$> ps) /\ (u_plan c = [] -> n = length ps /\ e = None).
Proof.
  induction ps as [|p ps IH]; intros k c F; cbn [send_each].
  - exists c, 0%nat, None. rewrite Nat.add_0_r. split; [done|]. split; [done|]. by rewrite app_nil_r.
  - apply Forall_cons in F as [Hp F]. destruct (record_salt_ok p c Hp) as (bl & E). rewrite (st_bind_Ret _ _ _ _ _ E). st_pure.
    set (c1 := set_ubloom bl c). assert (Hu : exists c2 n e, under_WriteTo p (u_proxy c1) c1 = (c2, Ret (n, e)) /\ u_proxy c2 = u_proxy c /\
      u_sent c2 = u_sent c ++ match e with None => [(p, u_proxy c)] | Some _ => [] end /\ (u_plan c = [] -> e = None /\ u_plan c2 = [])).
    { unfold under_WriteTo, c1. cbn [u_plan u_sent u_proxy set_ubloom]. destruct (u_plan c) as [|[n e] plan]; (eexists _, _, _; split; [reflexivity|]; split; [done|]; split; [|done]); done. }
    destruct Hu as (c2 & n & e & E2 & Ep & Es & Eg). rewrite (st_bind_Ret _ _ _ _ _ E2). destruct e as [e|].
    + exists c2, 0%nat, (Some e). rewrite Nat.add_0_r. split; [done|]. split; [lia|]. split; [done|]. intros G. by apply Eg in G as [? _].
    + destruct (IH (S k) c2 F) as (c3 & n3 & e3 & E3 & Ln & Es3 & Eg3). exists c3, (S n3), e3. rewrite E3. split; [do 3 f_equal; lia|]. split; [cbn; lia|].
      split; [rewrite Es3, Es, Ep, <- app_assoc; done|]. intros G. apply Eg in G as [_ G]. destruct (Eg3 G) as [-> ->]. done.
Qed.

Lemma pkts_salted key salts items ms : Forall (fun s => length s = SaltLen conf) salts -> all_salted (pkts key salts items ms).
Proof.
  unfold all_salted, pkts. revert items ms. induction salts as [|s salts IH]; intros [|it items] [|m ms] F; cbn [zip zip_with]; try constructor.
  - apply Forall_cons in F as [F _]. rewrite length_pkt. cbn [fst]. lia.
  - apply IH. by apply Forall_cons in F as [_ F].
Qed.

Lemma length_pkts key salts items ms : length salts = length items -> length ms = length items -> length (pkts key salts items ms) = length items.
Proof. intros L1 L2. unfold pkts. rewrite length_zip_with, length_zip_with. lia. Qed.

Lemma ssu_WriteBatch_ok salts items ms c : cached c -> Forall2 (fun it m => sendable c it.2 m) items ms ->
  length salts = length items -> Forall (fun s => length s = SaltLen conf) salts ->
  exists c' n e, write_batch salts items c = (c', Ret (n, e)) /\
    u_sent c' = u_sent c ++ take n ((fun p => (p, u_proxy c)) <$> pkts (u_key c) salts items ms) /\
    (u_plan c = [] -> n = length items /\ e = None).
Proof.
  intros Hc Hs Ls Fs. unfold WriteBatch. case_decide as D.
  { subst items. inversion Hs; subst. destruct salts; [|done]. exists c, 0%nat, None. by rewrite app_nil_r. }
  destruct (metadatas_ok items ms c Hc Hs) as (c1 & E1 & (S1 & S2 & S3 & S4 & S5 & S6) & _). rewrite (st_bind_Ret _ _ _ _ _ E1). st_pure.
  pose proof (Forall2_length _ _ _ Hs) as Lm.
  assert (Fm : Forall (smeta_ok ParseIP) ms).
  { clear -Hs. induction Hs as [|? ? ? ? (md & _ & -> & ?)]; by constructor. }
  st_lift ltac:(by apply seal_all_ok). rewrite S3, S4, S1. set (ps := pkts _ _ _ _). assert (Fp : all_salted ps) by (by apply pkts_salted).
  destruct (u_batch c).
  - destruct (record_salts_ok ps c1 Fp) as (bl & E2). rewrite (st_bind_Ret _ _ _ _ _ E2). unfold under_WriteBatch. cbn [u_plan u_sent set_ubloom]. rewrite S5, S6.
    destruct (u_plan c) as [|[n e] plan].
    + eexists _, _, _. split; [reflexivity|]. rewrite length_fmap. rewrite (firstn_all2 (_ <$> _)) by (rewrite length_fmap; lia). split; [done|]. intros _. split; [|done]. by apply length_pkts.
    + eexists _, _, _. split; [reflexivity|]. done.
  - destruct (send_each_ok ps 0 c1 Fp) as (c2 & n & e & E2 & _ & Es & Eg). exists c2, n, e. rewrite E2. split; [done|]. rewrite Es, S5, S1. split; [done|].
    rewrite <- S6. intros G. apply Eg in G as [-> ->]. split; [|done]. by apply length_pkts.
Qed.

(** A failed batch sent nothing: errors are found before anything is sent. *)
Lemma metadataForWrite_sent addr c : u_sent (metadata_for_write addr c).1 = u_sent c.
Proof.
  unfold metadataForWrite, metadataForAddr, mbind, st_bind, get. cbn. destruct (LastStringValue_Load (target c) addr); [cbn; by case_decide|].
  unfold lift. destruct (ParseMetadata ParseAddr SplitHostPort addr); cbn; [by case_decide|done..].
Qed.
Lemma metadatas_sent items : forall c : UdpConn (Bloom := Bloom), u_sent (metadatas ParseAddr SplitHostPort items c).1 = u_sent c.
Proof.
  induction items as [|[b addr] items IH]; intros c; [done|]. cbn [metadatas]. unfold mbind, st_bind. pose proof (metadataForWrite_sent addr c) as E.
  destruct (metadataForWrite _ _ addr c) as [c1 [m|e|]]; cbn in E |- *; [|done..]. specialize (IH c1).
  destruct (metadatas _ _ items c1) as [c2 [ms|e|]]; cbn in *; congruence.
Qed.

Lemma send_each_fail ps : forall k (c c' : UdpConn (Bloom := Bloom)) e, send_each ExistOrAdd ps k c <> (c', Fail e).
Proof.
  induction ps as [|p ps IH]; intros k c c' e; [done|]. cbn [send_each]. unfold record_salt, mbind, st_bind, get. cbn.
  assert (U : forall x y (d : UdpConn (Bloom := Bloom)), exists d' r, under_WriteTo x y d = (d', Ret r)).
  { intros x y d. unfold under_WriteTo. destruct (u_plan d) as [|[? ?] ?]; by eexists _, _. }
  destruct (u_bloom c) as [bl|]; cbn.
  - unfold lift, slice. case_decide; [|done]. cbn. destruct (U p (u_proxy c) (set_ubloom (Some (ExistOrAdd bl (take (SaltLen conf - 0) (drop 0 p))).2) c)) as (d & [n er] & ->). destruct er; [done|]. apply IH.
  - destruct (U p (u_proxy c) c) as (d & [n er] & ->). destruct er; [done|]. apply IH.
Qed.

Lemma record_salts_fail ps : forall (c c' : UdpConn (Bloom := Bloom)) e, record_salts ExistOrAdd ps c <> (c', Fail e).
Proof.
  induction ps as [|p ps IH]; intros c c' e; [done|]. cbn [record_salts]. unfold record_salt, mbind, st_bind, get. cbn.
  destruct (u_bloom c) as [bl|]; cbn; [|apply IH]. unfold lift, slice. case_decide; [|done]. cbn. apply IH.
Qed.

Lemma WriteBatch_fail salts items c c' e : write_batch salts items c = (c', Fail e) -> u_sent c' = u_sent c.
Proof.
  unfold WriteBatch. case_decide; [done|]. unfold mbind, st_bind. pose proof (metadatas_sent items c) as M.
  destruct (metadatas _ _ items c) as [c1 [ms|e1|]]; cbn in M; [|intros [= <- _]; done|done]. cbn.
  destruct (seal_all _ _ _ _ salts ms items) as [ps|e1|]; cbn; [|intros [= <- _]; done|done]. destruct (u_batch c1).
  - pose proof (record_salts_fail ps c1) as R. destruct (record_salts ExistOrAdd ps c1) as [c2 [[]|e2|]]; [|by destruct (R c2 e2)|done].
    unfold under_WriteBatch. by destruct (u_plan c2) as [|[? ?] ?].
  - intros E. by apply send_each_fail in E.
Qed.

End exchange.

(** ** A concrete exchange *)

Definition demo_upool : BufferSource := pool_source init_pools init_pools_wf None.
Definition demo_addr : list byte := [x31].
Definition demo_parse (s : list byte) : option Addr := Some (Addr4 [x01; x02; x03; x04]).
Definition demo_hostport (s : list byte) : res (list byte * list byte) := Ret (s, [x35; x33]).
Definition demo_uconn : UdpConn (Bloom := unit) :=
  MkUC [x70] (MkMeta MetadataTypeDomain [] 0 AddrZero 0 [] true) [x01; x02] None None false [] [].
Definition demo_umeta : SMetadata := retarget (u_meta demo_uconn) (MkMeta MetadataTypeIPv4 demo_addr 53 (Addr4 [x01; x02; x03; x04]) 0 [] false).
Definition demo_usalt : list byte := replicate 16 x2a.
Definition demo_filter (b : unit) (_ : list byte) : bool * unit := (false, b).

Lemma demo_sendable : sendable (Bloom := unit) id demo_parse demo_hostport demo_uconn demo_addr demo_umeta.
Proof. eexists. split; [vm_compute; reflexivity|]. split; [reflexivity|]. split; [cbn; lia|reflexivity]. Qed.


(** Two surprises for callers: [WriteTo] reports more bytes than it was given, and
    [ReadFrom] rejects a datagram whose payload fits the slice when the address header
    and the tag do not fit beside it. *)
Theorem ss_udp_gaps :
  (exists c', WriteTo (CA := demo_aead) (BS := demo_upool) (demo_hash 20) demo_filter id demo_parse demo_hostport demo_ks demo_usalt [x68; x69] demo_addr demo_uconn = (c', Ret (41%nat, None))) /\
  (exists c', ReadFrom (CA := demo_aead) (demo_hash 20) demo_filter demo_ks (replicate 24 x00)
     (pkt (CA := demo_aead) (demo_hash 20) id (u_key demo_uconn) demo_usalt demo_umeta [x68; x69]) demo_uconn = (c', Fail ErrOpen)).
Proof. split; eexists; vm_compute; reflexivity. Qed.
