(* ===== verification/UrlEscape.v ===== *)
(** common/url, escaping: the percent encoding of the parts of a URL.  The
    two-pass routines of the source are compared with one-line reference
    definitions, from which the round trips follow. *)

From S2P Require Import Prelude GoStrings.

(** * Character classes *)

Definition between (lo c hi : byte) : bool := bool_decide (b2z lo <= b2z c <= b2z hi).
Definition one_of (c : byte) (s : list byte) : bool := bool_decide (c ∈ s).

Definition ishex (c : byte) : bool := between x30 c x39 || between x61 c x66 || between x41 c x46.

Definition unhex (c : byte) : Z :=
  if between x30 c x39 then b2z c - 48
  else if between x61 c x66 then b2z c - 97 + 10
  else if between x41 c x46 then b2z c - 65 + 10
  else 0.

Inductive encoding :=
  | encodePath | encodePathSegment | encodeHost | encodeZone | encodeUserPassword | encodeQueryComponent | encodeFragment.
#[export] Instance encoding_eq_dec : EqDecision encoding.
Proof. solve_decision. Defined.

Definition shouldEscape (c : byte) (mode : encoding) : bool :=
  if between x61 c x7a || between x41 c x5a || between x30 c x39 then false
  else if (bool_decide (mode = encodeHost) || bool_decide (mode = encodeZone)) &&
          one_of c (lit "!$&'()*+,;=:[]<>" ++ [x22]) then false
  else if one_of c (lit "-_.~") then false
  else
    let other := if decide (mode = encodeFragment) then negb (one_of c (lit "!()*")) else true in
    if one_of c (lit "$&+,/:;=?@") then
      match mode with
      | encodePath => one_of c (lit "?")
      | encodePathSegment => one_of c (lit "/;,?")
      | encodeUserPassword => one_of c (lit "@/?:")
      | encodeQueryComponent => true
      | encodeFragment => false
      | encodeHost | encodeZone => other
      end
    else other.

(** * unescape *)

Definition EscapeError : error := Errorf "invalid URL escape".
Definition InvalidHostError : error := Errorf "invalid character in host name".

(** [unhex(a)<<4 | unhex(b)] in a byte. *)
Definition hexbyte (a b : byte) : byte := z2b (Z.lor (Z.shiftl (unhex a) 4) (unhex b)).

(** The first pass over what is left of [s]: number of escapes and whether a
    plus sign stands for a space. *)
Fixpoint unescape_check (mode : encoding) (s : list byte) (n : nat) (hasPlus : bool) : res (nat * bool) :=
  match s with
  | [] => Ret (n, hasPlus)
  | c :: s' =>
      if decide (c = x25) then
        match s' with
        | a :: b :: s'' =>
            if negb (ishex a) || negb (ishex b) then Fail EscapeError
            else if bool_decide (mode = encodeHost) && bool_decide (unhex a < 8) && negb (bool_decide ([a; b] = lit "25")) then Fail EscapeError
            else if bool_decide (mode = encodeZone) && negb (bool_decide ([a; b] = lit "25")) &&
                    negb (bool_decide (hexbyte a b = x20)) && shouldEscape (hexbyte a b) encodeHost then Fail EscapeError
            else unescape_check mode s'' (S n) hasPlus
        | _ => Fail EscapeError
        end
      else if decide (c = x2b) then unescape_check mode s' n (bool_decide (mode = encodeQueryComponent))
      else if (bool_decide (mode = encodeHost) || bool_decide (mode = encodeZone)) && bool_decide (b2z c < 128) && shouldEscape c mode
           then Fail InvalidHostError
      else unescape_check mode s' n hasPlus
  end.

(** The second pass builds the result. *)
Fixpoint unescape_build (mode : encoding) (s : list byte) (t : list byte) : res (list byte) :=
  match s with
  | [] => Ret t
  | c :: s' =>
      if decide (c = x25) then
        match s' with
        | a :: b :: s'' => unescape_build mode s'' (t ++ [hexbyte a b])
        | _ => Panic
        end
      else if decide (c = x2b) then unescape_build mode s' (t ++ [if decide (mode = encodeQueryComponent) then x20 else x2b])
      else unescape_build mode s' (t ++ [c])
  end.

Definition unescape (s : list byte) (mode : encoding) : res (list byte) :=
  '(n, hasPlus) ← unescape_check mode s 0 false;
  if bool_decide (n = 0%nat) && negb hasPlus then Ret s else unescape_build mode s [].

Definition QueryUnescape (s : list byte) : res (list byte) := unescape s encodeQueryComponent.
Definition PathUnescape (s : list byte) : res (list byte) := unescape s encodePathSegment.

(** * escape *)

Definition upperhex : list byte := lit "0123456789ABCDEF".

Fixpoint escape_counts (s : list byte) (mode : encoding) (spaceCount hexCount : nat) : nat * nat :=
  match s with
  | [] => (spaceCount, hexCount)
  | c :: s =>
      if shouldEscape c mode then
        if bool_decide (c = x20) && bool_decide (mode = encodeQueryComponent) then escape_counts s mode (S spaceCount) hexCount
        else escape_counts s mode spaceCount (S hexCount)
      else escape_counts s mode spaceCount hexCount
  end.

(** The writes [t[j]] into the buffer. *)
Fixpoint escape_write (s : list byte) (mode : encoding) (t : list byte) (j : nat) : res (list byte) :=
  match s with
  | [] => Ret t
  | c :: s =>
      if bool_decide (c = x20) && bool_decide (mode = encodeQueryComponent) then
        t ← set_at t j x2b; escape_write s mode t (j + 1)
      else if shouldEscape c mode then
        t ← set_at t j x25;
        hi ← index upperhex (Z.to_nat (Z.shiftr (b2z c) 4));
        t ← set_at t (j + 1) hi;
        lo ← index upperhex (Z.to_nat (Z.land (b2z c) 15));
        t ← set_at t (j + 2) lo;
        escape_write s mode t (j + 3)
      else t ← set_at t j c; escape_write s mode t (j + 1)
  end.

(** [buf] and [make] are zeroed. *)
Definition escape (s : list byte) (mode : encoding) : res (list byte) :=
  let '(spaceCount, hexCount) := escape_counts s mode 0 0 in
  if bool_decide (spaceCount = 0%nat) && bool_decide (hexCount = 0%nat) then Ret s
  else
    let t := replicate (length s + 2 * hexCount) x00 in
    if decide (hexCount = 0%nat) then
      '(t, _) ← copy_at t 0 s;
      Ret (A := list byte) (map (fun c => if decide (c = x20) then x2b else c) t)
    else escape_write s mode t 0.

Definition QueryEscape (s : list byte) : res (list byte) := escape s encodeQueryComponent.
Definition PathEscape (s : list byte) : res (list byte) := escape s encodePathSegment.

(** * Reference definitions *)

Definition hex_char (d : Z) : byte := default x00 (upperhex !! Z.to_nat d).

(** The encoding of one byte. *)
Definition esc1 (mode : encoding) (c : byte) : list byte :=
  if bool_decide (c = x20) && bool_decide (mode = encodeQueryComponent) then [x2b]
  else if shouldEscape c mode then [x25; hex_char (Z.shiftr (b2z c) 4); hex_char (Z.land (b2z c) 15)]
  else [c].
Definition esc (mode : encoding) (s : list byte) : list byte := s ≫= esc1 mode.

(** One escape or byte at a time. *)
Fixpoint dec (mode : encoding) (s : list byte) : list byte :=
  match s with
  | [] => []
  | c :: s' =>
      if decide (c = x25) then
        match s' with a :: b :: s'' => hexbyte a b :: dec mode s'' | _ => [] end
      else (if bool_decide (c = x2b) && bool_decide (mode = encodeQueryComponent) then x20 else c) :: dec mode s'
  end.

(** * The routines meet the reference *)

Lemma upperhex_lookup d : 0 <= d < 16 -> upperhex !! Z.to_nat d = Some (hex_char d).
Proof.
  intros H. unfold hex_char. assert (is_Some (upperhex !! Z.to_nat d)) as [x ->]; [|done].
  apply lookup_lt_is_Some. change (length upperhex) with 16%nat. lia.
Qed.

Lemma nibbles c : 0 <= Z.shiftr (b2z c) 4 < 16 /\ 0 <= Z.land (b2z c) 15 < 16.
Proof. destruct c; vm_compute; done. Qed.

Lemma hexbyte_hex_char c : hexbyte (hex_char (Z.shiftr (b2z c) 4)) (hex_char (Z.land (b2z c) 15)) = c.
Proof. destruct c; vm_compute; reflexivity. Qed.
Lemma ishex_hex_char c : ishex (hex_char (Z.shiftr (b2z c) 4)) = true /\ ishex (hex_char (Z.land (b2z c) 15)) = true.
Proof. destruct c; vm_compute; done. Qed.
Lemma unhex_hex_char c : unhex (hex_char (Z.shiftr (b2z c) 4)) = Z.shiftr (b2z c) 4.
Proof. destruct c; vm_compute; reflexivity. Qed.
Lemma hex_char_25 c : bool_decide ([hex_char (Z.shiftr (b2z c) 4); hex_char (Z.land (b2z c) 15)] = lit "25") = bool_decide (c = x25).
Proof. destruct c; vm_compute; reflexivity. Qed.
Lemma shouldEscape_percent mode : shouldEscape x25 mode = true.
Proof. by destruct mode. Qed.
Lemma shouldEscape_space mode : shouldEscape x20 mode = true.
Proof. by destruct mode. Qed.
Lemma shouldEscape_plus : shouldEscape x2b encodeQueryComponent = true.
Proof. done. Qed.

(** ** escape *)

Lemma not_plus (c : byte) mode : ~ (c = x20 /\ mode = encodeQueryComponent) ->
  bool_decide (c = x20) && bool_decide (mode = encodeQueryComponent) = false.
Proof. intros N. destruct (bool_decide_reflect (c = x20)), (bool_decide_reflect (mode = encodeQueryComponent)); naive_solver. Qed.

Lemma escape_counts_ok s mode : forall sp hx, escape_counts s mode sp hx =
  ((sp + length (filter (fun c => c = x20 /\ mode = encodeQueryComponent) s))%nat,
   (hx + length (filter (fun c => shouldEscape c mode = true /\ ~ (c = x20 /\ mode = encodeQueryComponent)) s))%nat).
Proof.
  induction s as [|c s IH]; intros sp hx; cbn [escape_counts]; [cbn; by rewrite !Nat.add_0_r|].
  rewrite !filter_cons. destruct (shouldEscape c mode) eqn:E.
  - destruct (decide (c = x20 /\ mode = encodeQueryComponent)) as [[-> ->]|N].
    + rewrite decide_False by naive_solver. rewrite !bool_decide_true by done. cbn [andb]. rewrite IH. f_equal. cbn. lia.
    + rewrite decide_True by done.
      replace (bool_decide (c = x20) && bool_decide (mode = encodeQueryComponent)) with false
        by (symmetry; by apply not_plus).
      rewrite IH. f_equal. cbn. lia.
  - rewrite decide_False by (intros [-> ->]; by rewrite shouldEscape_space in E). rewrite decide_False by naive_solver. apply IH.
Qed.

Lemma esc_length s mode : length (esc mode s) =
  (length s + 2 * length (filter (fun c => shouldEscape c mode = true /\ ~ (c = x20 /\ mode = encodeQueryComponent)) s))%nat.
Proof.
  unfold esc. induction s as [|c s IH]; [done|]. rewrite bind_cons, length_app, IH, filter_cons. unfold esc1.
  destruct (decide (c = x20 /\ mode = encodeQueryComponent)) as [[-> ->]|N].
  - rewrite !bool_decide_true by done. rewrite decide_False by naive_solver. cbn. lia.
  - replace (bool_decide (c = x20) && bool_decide (mode = encodeQueryComponent)) with false
      by (symmetry; by apply not_plus).
    destruct (shouldEscape c mode) eqn:E; [rewrite decide_True by done|rewrite decide_False by naive_solver]; cbn; lia.
Qed.

Lemma escape_write_ok mode s : forall done_ rest, length rest = length (esc mode s) ->
  escape_write s mode (done_ ++ rest) (length done_) = Ret (done_ ++ esc mode s).
Proof.
  induction s as [|c s IH]; intros d rest L.
  { cbn in *. apply nil_length_inv in L as ->. done. }
  unfold esc in *. rewrite bind_cons in L |- *. cbn [escape_write]. rewrite length_app in L. unfold esc1 at 1 in L. unfold esc1 at 1.
  assert (One : forall x, (length [x] + length (s ≫= esc1 mode) = length rest)%nat ->
    (t ← set_at (d ++ rest) (length d) x; escape_write s mode t (length d + 1)) = Ret (d ++ [x] ++ (s ≫= esc1 mode))).
  { intros x Lx. rewrite (set_at_app d x rest) by (cbn [length] in Lx; lia). rewrite bind_ret.
    replace (length d + 1)%nat with (length (d ++ [x])) by len. rewrite IH; [by rewrite <- app_assoc|]. rewrite length_drop. cbn [length] in Lx. lia. }
  revert L. destruct (_ && _).
  { intros L. apply One. lia. }
  destruct (shouldEscape c mode); intros L; [|apply One; cbn [length] in *; lia].
  cbn [length] in L. rewrite (set_at_app d x25 rest), bind_ret by lia. pose proof (nibbles c) as [H1 H2].
  unfold index. rewrite (upperhex_lookup _ H1), bind_ret, (upperhex_lookup _ H2).
  replace (length d + 1)%nat with (length (d ++ [x25])) by len.
  rewrite (set_at_app (d ++ [x25])), bind_ret, bind_ret by len.
  replace (length d + 2)%nat with (length ((d ++ [x25]) ++ [hex_char (Z.shiftr (b2z c) 4)])) by len.
  rewrite set_at_app, bind_ret by len.
  replace (length d + 3)%nat with (length (((d ++ [x25]) ++ [hex_char (Z.shiftr (b2z c) 4)]) ++ [hex_char (Z.land (b2z c) 15)])) by len.
  rewrite IH by len. by rewrite <- !app_assoc.
Qed.

Lemma filter_length_0 {A} (P : A -> Prop) `{forall x, Decision (P x)} (l : list A) : length (filter P l) = 0%nat -> Forall (fun x => ~ P x) l.
Proof. intros E%nil_length_inv. apply Forall_forall. intros x Hx HP. assert (x ∈ filter P l) by by apply list_elem_of_filter. rewrite E in *. set_solver. Qed.

Lemma escape_ok s mode : escape s mode = Ret (esc mode s).
Proof.
  unfold escape. rewrite escape_counts_ok. cbn [Nat.add]. set (sp := length (filter _ s)). pose proof (esc_length s mode) as L.
  set (hx := length (filter (fun c => shouldEscape c mode = true /\ _) s)) in *. cbv zeta.
  assert (Plain : hx = 0%nat -> esc mode s = map (fun c => if decide (c = x20 /\ mode = encodeQueryComponent) then x2b else c) s).
  { unfold hx. intros F%filter_length_0. unfold esc. clear L. induction F as [|c s Hc F IH]; [done|]. rewrite bind_cons, IH. cbn [map].
    unfold esc1. destruct (decide (c = x20 /\ mode = encodeQueryComponent)) as [[-> ->]|D]; [by rewrite !bool_decide_true|].
    replace (bool_decide (c = x20) && bool_decide (mode = encodeQueryComponent)) with false
      by (symmetry; by apply not_plus).
    destruct (shouldEscape c mode) eqn:E; [|done]. destruct Hc. by split. }
  destruct (decide (hx = 0%nat)) as [Hh|Hh].
  - rewrite (Plain Hh) in *. rewrite (bool_decide_true _ Hh), andb_true_r. case_bool_decide as Hs.
    + f_equal. symmetry. rewrite <- (map_id s) at 2. apply map_ext_in. intros c Hc. rewrite decide_False; [done|].
      unfold sp in Hs. apply filter_length_0 in Hs. eapply (Forall_forall (fun x => ~ _) s) in Hs; [exact Hs|]. by apply list_elem_of_In.
    + rewrite Hh, Nat.mul_0_r, Nat.add_0_r. rewrite copy_at_0 by len. rewrite bind_ret. cbv beta iota.
      rewrite drop_ge, app_nil_r by len. f_equal. apply map_ext. intros c.
      assert (Hq : mode = encodeQueryComponent).
      { destruct (decide (mode = encodeQueryComponent)) as [|N]; [done|]. destruct Hs. unfold sp. rewrite filter_none; [done|].
        apply Forall_forall. naive_solver. }
      repeat case_decide; naive_solver.
  - rewrite (bool_decide_false _ Hh), andb_false_r.
    apply (escape_write_ok mode s []). by rewrite length_replicate.
Qed.

(** ** unescape *)

(** What the first pass accepts. *)
Definition well_escaped (mode : encoding) (s : list byte) : Prop := exists x, unescape_check mode s 0 false = Ret x.

(** The result of the first pass does not depend on its counters. *)
Lemma unescape_check_counters mode s : forall n p n' p',
  match unescape_check mode s n p, unescape_check mode s n' p' with
  | Ret _, Ret _ => True | Fail e, Fail e' => e = e' | _, _ => False
  end.
Proof.
  induction s as [s IH] using (induction_ltof1 _ (@length byte)); intros n p n' p'. unfold ltof in IH.
  destruct s as [|c s]; cbn [unescape_check]; [done|].
  destruct (decide (c = x25)).
  - destruct s as [|a [|b s]]; try done. destruct (_ || _); [done|]. destruct (_ && _ && _); [done|]. destruct (_ && _); [done|]. apply IH. cbn. lia.
  - destruct (decide (c = x2b)); [apply IH; cbn; lia|]. destruct (_ && _); [done|]. apply IH. cbn. lia.
Qed.

Lemma check_shift mode s n p n' p' x : unescape_check mode s n p = Ret x -> exists y, unescape_check mode s n' p' = Ret y.
Proof.
  intros E. pose proof (unescape_check_counters mode s n p n' p') as H. rewrite E in H.
  destruct (unescape_check mode s n' p'); [by eexists|done..].
Qed.

Lemma check_total mode s n p : unescape_check mode s n p <> Panic.
Proof. intros E. pose proof (unescape_check_counters mode s n p n p) as H. by rewrite E in H. Qed.

(** With no escape and no plus the text decodes to itself. *)
Lemma check_dec mode s : forall n p m q, unescape_check mode s n p = Ret (m, q) ->
  (n <= m)%nat /\ (p = true -> mode = encodeQueryComponent -> q = true) /\ (m = n -> q = false -> dec mode s = s) /\
  (forall t, unescape_build mode s t = Ret (t ++ dec mode s)).
Proof.
  induction s as [s IH] using (induction_ltof1 _ (@length byte)); intros n p m q. unfold ltof in IH.
  destruct s as [|c s]; cbn [unescape_check unescape_build dec].
  { intros [= <- <-]. split_and!; [done..|]. intros t. by rewrite app_nil_r. }
  destruct (decide (c = x25)) as [->|Hc].
  - destruct s as [|a [|b s]]; try done. destruct (_ || _); [done|]. destruct (_ && _ && _); [done|]. destruct (_ && _); [done|].
    intros E. destruct (IH s ltac:(cbn; lia) _ _ _ _ E) as (L & P & _ & B). split_and!; [lia|done|lia|].
    intros t. rewrite B, <- app_assoc. done.
  - destruct (decide (c = x2b)) as [->|Hp].
    + intros E. destruct (IH s ltac:(cbn; lia) _ _ _ _ E) as (L & P & D & B). split_and!; [done| | |].
      * intros _ ->. apply P; [by rewrite bool_decide_true|done].
      * intros -> ->. destruct (decide (mode = encodeQueryComponent)) as [->|N]; [discriminate (P ltac:(by rewrite bool_decide_true) eq_refl)|].
        rewrite (bool_decide_false (mode = _)) by done. rewrite andb_false_r. by rewrite D.
      * intros t. rewrite B, <- app_assoc. rewrite (bool_decide_true (x2b = x2b)) by done. cbn [andb].
        case_bool_decide; [by rewrite decide_True|by rewrite decide_False].
    + destruct (_ && _); [done|]. intros E. destruct (IH s ltac:(cbn; lia) _ _ _ _ E) as (L & P & D & B).
      rewrite (bool_decide_false (c = x2b)) by done. cbn [andb]. split_and!; [done..| |].
      * intros -> ->. by rewrite D.
      * intros t. by rewrite B, <- app_assoc.
Qed.

Lemma unescape_ok mode s : well_escaped mode s -> unescape s mode = Ret (dec mode s).
Proof.
  intros [[n p] E]. unfold unescape. rewrite E, bind_ret. destruct (check_dec _ _ _ _ _ _ E) as (_ & _ & D & B).
  case_bool_decide as Hn; [|by rewrite B]. destruct p; [by rewrite B|]. by rewrite D.
Qed.

Lemma unescape_Ret mode s t : unescape s mode = Ret t <-> well_escaped mode s /\ t = dec mode s.
Proof.
  split; [|intros [W ->]; by apply unescape_ok]. intros E.
  assert (W : well_escaped mode s).
  { unfold unescape in E. destruct (unescape_check mode s 0 false) as [x|e|] eqn:Ec; [by exists x|done..]. }
  split; [done|]. rewrite (unescape_ok _ _ W) in E. by injection E.
Qed.

Lemma unescape_total mode s : unescape s mode <> Panic.
Proof.
  intros E. unfold unescape in E. pose proof (check_total mode s 0 false). destruct (unescape_check mode s 0 false) as [[n p]|e|] eqn:Ec; [|done..].
  assert (W : well_escaped mode s) by (by eexists). pose proof (unescape_ok _ _ W) as U. unfold unescape in U. rewrite Ec in U. rewrite U in E. done.
Qed.

(** ** Text that was escaped *)

(** Bytes whose encoding the parser accepts. *)
Definition encodable (mode : encoding) (c : byte) : Prop :=
  match mode with
  | encodeHost => 128 <= b2z c \/ c = x25 \/ shouldEscape c encodeHost = false
  | encodeZone => c = x25 \/ c = x20 \/ shouldEscape c encodeHost = false
  | _ => True
  end.

Lemma esc1_cases mode c :
  (c = x20 /\ mode = encodeQueryComponent /\ esc1 mode c = [x2b]) \/
  (~ (c = x20 /\ mode = encodeQueryComponent) /\ shouldEscape c mode = true /\
     esc1 mode c = [x25; hex_char (Z.shiftr (b2z c) 4); hex_char (Z.land (b2z c) 15)]) \/
  (shouldEscape c mode = false /\ esc1 mode c = [c] /\ c <> x25 /\ (c = x2b -> mode <> encodeQueryComponent)).
Proof.
  unfold esc1. destruct (decide (c = x20 /\ mode = encodeQueryComponent)) as [[-> ->]|N]; [by left|right].
  rewrite not_plus by done. destruct (shouldEscape c mode) eqn:E; [by left|right].
  split_and!; [done..| |]; intros ->; [by rewrite shouldEscape_percent in E|]. by intros ->.
Qed.

Lemma dec_esc mode s rest : dec mode (esc mode s ++ rest) = s ++ dec mode rest.
Proof.
  unfold esc. induction s as [|c s IH]; [done|]. rewrite bind_cons, <- app_assoc.
  destruct (esc1_cases mode c) as [(-> & -> & ->)|[(N & _ & ->)|(_ & -> & Hp & Hq)]]; cbn [app dec].
  - by rewrite decide_False, IH.
  - by rewrite decide_True, hexbyte_hex_char, IH.
  - rewrite decide_False, IH by done. f_equal. destruct (decide (c = x2b)) as [->|]; [|by rewrite bool_decide_false].
    rewrite (bool_decide_false (mode = _)) by auto. done.
Qed.

Lemma host_ascii c : 128 <= b2z c -> 8 <= Z.shiftr (b2z c) 4.
Proof. destruct c; vm_compute; done. Qed.

Lemma check_esc mode s rest : Forall (encodable mode) s -> well_escaped mode rest -> well_escaped mode (esc mode s ++ rest).
Proof.
  unfold esc. intros F Hr. induction F as [|c s Hc F IH]; [done|]. rewrite bind_cons, <- app_assoc. unfold well_escaped in *.
  destruct IH as [x0 IH]. destruct (esc1_cases mode c) as [(-> & -> & ->)|[(N & Hs & ->)|(Hs & -> & Hp & Hq)]]; cbn [app unescape_check].
  - rewrite decide_False, decide_True by done. by eapply check_shift.
  - rewrite decide_True by done. destruct (ishex_hex_char c) as [-> ->]. cbn [negb orb].
    rewrite hex_char_25, unhex_hex_char, hexbyte_hex_char.
    assert (bool_decide (mode = encodeHost) && bool_decide (Z.shiftr (b2z c) 4 < 8) && negb (bool_decide (c = x25)) = false) as ->.
    { destruct (bool_decide_reflect (mode = encodeHost)) as [->|]; [|done]. cbn in Hc. destruct Hc as [Hc|[-> | Hc]]; [|by rewrite bool_decide_true, andb_false_r|congruence].
      apply host_ascii in Hc. rewrite (bool_decide_false (_ < 8)) by lia. done. }
    assert (bool_decide (mode = encodeZone) && negb (bool_decide (c = x25)) && negb (bool_decide (c = x20)) && shouldEscape c encodeHost = false) as ->.
    { destruct (bool_decide_reflect (mode = encodeZone)) as [->|]; [|done]. cbn in Hc. destruct Hc as [->|[-> | ->]]; [done..|by rewrite andb_false_r]. }
    by eapply check_shift.
  - rewrite decide_False by done. case_decide; [by eapply check_shift|]. rewrite Hs, andb_false_r. by eapply check_shift.
Qed.

Lemma esc_well_escaped mode s : Forall (encodable mode) s -> well_escaped mode (esc mode s).
Proof. intros F. rewrite <- (app_nil_r (esc mode s)). apply check_esc; [done|]. by eexists. Qed.

Lemma shouldEscape_zone c : shouldEscape c encodeZone = shouldEscape c encodeHost.
Proof. destruct c; reflexivity. Qed.

Lemma well_escaped_esc mode s : well_escaped mode (esc mode s) -> Forall (encodable mode) s.
Proof.
  unfold esc, well_escaped. induction s as [|c s IH]; [constructor|]. rewrite bind_cons. intros [x E].
  assert (T : (exists n p, unescape_check mode (s ≫= esc1 mode) n p = Ret x) -> Forall (encodable mode) s).
  { intros (n & p & Es). apply IH. by eapply check_shift. }
  destruct (esc1_cases mode c) as [(-> & -> & H1)|[(N & Hs & H1)|(Hs & H1 & Hp & Hq)]]; rewrite H1 in E; cbn [app unescape_check] in E.
  - rewrite decide_False, decide_True in E by done. constructor; [done|eauto].
  - rewrite decide_True in E by done. destruct (ishex_hex_char c) as [I1 I2]. rewrite I1, I2 in E. cbn [negb orb] in E.
    rewrite hex_char_25, unhex_hex_char, hexbyte_hex_char in E.
    destruct (bool_decide _ && bool_decide _ && negb _) eqn:Eh; [done|]. destruct (_ && shouldEscape _ _) eqn:Ez; [done|]. constructor; [|eauto].
    destruct mode; try done; cbn in *.
    + destruct (bool_decide_reflect (Z.shiftr (b2z c) 4 < 8)) as [|G]; cbn in Eh; [|left; by destruct c; vm_compute in G].
      right; left. by destruct (bool_decide_reflect (c = x25)).
    + rewrite shouldEscape_zone in Hs. rewrite Hs, andb_true_r in Ez.
      destruct (bool_decide_reflect (c = x25)); [by left|]. destruct (bool_decide_reflect (c = x20)); [by right; left|done].
  - rewrite decide_False in E by done. constructor.
    + destruct mode; try done; cbn; [auto|]. rewrite shouldEscape_zone in Hs. auto.
    + case_decide; [eauto|]. destruct (_ && _); [done|]. eauto.
Qed.

(** Percent encoding.  For every part of a URL, the two-pass escaping routine writes
    exactly the byte-by-byte encoding, never outside its buffer; unescaping never panics
    on any input; and unescaping what was escaped gives the original text back for every
    text, except in hosts and zones, where it does exactly for texts without the ASCII
    characters these parts may not contain. *)
Theorem url_escape_roundtrip mode s :
  escape s mode = Ret (esc mode s) /\ (forall t, unescape t mode <> Panic) /\
  ((t ← escape s mode; unescape t mode) = Ret s <-> Forall (encodable mode) s).
Proof.
  split; [apply escape_ok|]. split; [intros t; apply unescape_total|]. rewrite escape_ok, bind_ret. split.
  - intros [W _]%unescape_Ret. by apply well_escaped_esc.
  - intros F. rewrite (unescape_ok _ _ (esc_well_escaped _ _ F)). f_equal.
    rewrite <- (app_nil_r (esc mode s)), dec_esc. by rewrite app_nil_r.
Qed.

(** ** unescape as a relation *)

(** Escapes and plain bytes that may stand in a part of a URL. *)
Definition esc_allowed (mode : encoding) (a b : byte) : Prop :=
  match mode with
  | encodeHost => 8 <= unhex a \/ [a; b] = lit "25"
  | encodeZone => [a; b] = lit "25" \/ hexbyte a b = x20 \/ shouldEscape (hexbyte a b) encodeHost = false
  | _ => True
  end.
Definition lit_allowed (mode : encoding) (c : byte) : Prop :=
  match mode with
  | encodeHost | encodeZone => 128 <= b2z c \/ shouldEscape c encodeHost = false
  | _ => True
  end.
Definition plus (mode : encoding) (c : byte) : byte :=
  if bool_decide (c = x2b) && bool_decide (mode = encodeQueryComponent) then x20 else c.

Inductive toks (mode : encoding) : list byte -> list byte -> Prop :=
  | toks_nil : toks mode [] []
  | toks_esc a b s t : ishex a = true -> ishex b = true -> esc_allowed mode a b -> toks mode s t ->
      toks mode (x25 :: a :: b :: s) (hexbyte a b :: t)
  | toks_lit c s t : c <> x25 -> lit_allowed mode c -> toks mode s t -> toks mode (c :: s) (plus mode c :: t).

Lemma esc_allowed_spec mode a b :
  esc_allowed mode a b <->
    bool_decide (mode = encodeHost) && bool_decide (unhex a < 8) && negb (bool_decide ([a; b] = lit "25")) = false /\
    bool_decide (mode = encodeZone) && negb (bool_decide ([a; b] = lit "25")) && negb (bool_decide (hexbyte a b = x20)) &&
      shouldEscape (hexbyte a b) encodeHost = false.
Proof.
  destruct mode; cbn [esc_allowed]; try (by cbn; split); repeat rewrite ?andb_false_iff, ?negb_false_iff, ?bool_decide_eq_true, ?bool_decide_eq_false.
  - split; [intros [H|H]; (split; [|by do 3 left]); [left; right; lia|by right]|]. intros [[[?|?]|?] _]; [done|left; lia|by right].
  - split; [intros [H|[H|H]]; (split; [by do 2 left|]); auto|]. intros [_ [[[?|?]|?]|?]]; [done|auto..].
Qed.

Lemma lit_allowed_spec mode c : lit_allowed mode c <->
  (bool_decide (mode = encodeHost) || bool_decide (mode = encodeZone)) && bool_decide (b2z c < 128) && shouldEscape c mode = false.
Proof.
  destruct mode; try (by cbn; split); rewrite ?shouldEscape_zone; cbn [lit_allowed];
    destruct (bool_decide_reflect (b2z c < 128)), (shouldEscape c encodeHost); cbn; split; try done;
    solve [intros [?|?]; [lia|done] | by right | left; lia].
Qed.

Lemma plus_allowed mode : lit_allowed mode x2b.
Proof. destruct mode; cbn; auto. Qed.

Lemma toks_check mode s t : toks mode s t -> well_escaped mode s /\ t = dec mode s.
Proof.
  unfold well_escaped. induction 1 as [|a b s t Ha Hb Hab _ [[x IH] ->]|c s t Hc Hl _ [[x IH] ->]]; [split; [by eexists|done]|..].
  - cbn [unescape_check dec]. rewrite !decide_True by done. split; [|done]. rewrite Ha, Hb. cbn [negb orb].
    apply esc_allowed_spec in Hab as [-> ->]. by eapply check_shift.
  - cbn [unescape_check dec]. rewrite !(decide_False (P := c = x25)) by done. split; [|reflexivity].
    destruct (decide (c = x2b)); [by eapply check_shift|]. apply lit_allowed_spec in Hl as ->. by eapply check_shift.
Qed.

Lemma check_toks mode s : forall n p x, unescape_check mode s n p = Ret x -> toks mode s (dec mode s).
Proof.
  induction s as [s IH] using (induction_ltof1 _ (@length byte)); intros n p x. unfold ltof in IH.
  destruct s as [|c s]; cbn [unescape_check dec]; [constructor|]. destruct (decide (c = x25)) as [->|Hc].
  - destruct s as [|a [|b s]]; try done. destruct (ishex a) eqn:Ha; [|done]. destruct (ishex b) eqn:Hb; [|done]. cbn [negb orb].
    destruct (_ && _ && _) eqn:E1; [done|]. destruct (_ && shouldEscape _ _) eqn:E2; [done|]. intros E. constructor; [done..| |].
    + by apply esc_allowed_spec.
    + eapply IH; [cbn; lia|done].
  - destruct (decide (c = x2b)) as [->|].
    + intros E. apply toks_lit; [done|apply plus_allowed|]. eapply IH; [cbn; lia|done].
    + destruct (_ && _) eqn:E1; [done|]. intros E. apply toks_lit; [done|by apply lit_allowed_spec|]. eapply IH; [cbn; lia|done].
Qed.

Lemma unescape_toks mode s t : unescape s mode = Ret t <-> toks mode s t.
Proof.
  rewrite unescape_Ret. split; [|apply toks_check]. intros [[x E] ->]. by eapply check_toks.
Qed.

Lemma toks_app mode s1 t1 s2 t2 : toks mode s1 t1 -> toks mode s2 t2 -> toks mode (s1 ++ s2) (t1 ++ t2).
Proof. induction 1; intros; cbn; [done|by constructor; auto..]. Qed.

(** A byte that is no hexadecimal digit separates tokens. *)
Lemma toks_split mode s t : toks mode s t -> forall a c b, s = a ++ c :: b -> ishex c = false ->
  exists t1 t2, toks mode a t1 /\ toks mode (c :: b) t2 /\ t = t1 ++ t2.
Proof.
  induction 1 as [|x y s t Hx Hy Hxy Hs IH|d s t Hd Hl Hs IH]; intros a c b E Hc.
  - by destruct a.
  - destruct a as [|d [|e [|f a]]]; cbn in E; injection E; intros; subst; try congruence.
    + exists [], (hexbyte x y :: t). split_and!; [constructor| |done]. by constructor.
    + destruct (IH a c b eq_refl Hc) as (t1 & t2 & T1 & T2 & ->). exists (hexbyte e f :: t1), t2. split_and!; [by constructor|done..].
  - destruct a as [|e a]; cbn in E; injection E as <- ->.
    + exists [], (plus mode d :: t). split_and!; [constructor| |done]. by constructor.
    + destruct (IH a c b eq_refl Hc) as (t1 & t2 & T1 & T2 & ->). exists (plus mode d :: t1), t2. split_and!; [by constructor|done..].
Qed.

Lemma toks_esc_ok mode s : Forall (encodable mode) s -> toks mode (esc mode s) s.
Proof.
  intros F. apply unescape_toks, unescape_Ret. split; [by apply esc_well_escaped|].
  rewrite <- (app_nil_r (esc mode s)), dec_esc. by rewrite app_nil_r.
Qed.

(** Plain bytes stand for themselves. *)
Lemma toks_lits mode s : Forall (fun c => c <> x25 /\ lit_allowed mode c /\ plus mode c = c) s -> toks mode s s.
Proof. induction 1 as [|c s (H1 & H2 & H3) _ IH]; [constructor|]. rewrite <- H3 at 2. by constructor. Qed.

Lemma toks_lits_inv mode s t : toks mode s t -> Forall (fun c => c <> x25 /\ plus mode c = c) s -> t = s.
Proof.
  induction 1; intros F; [done|..].
  - apply Forall_cons in F as [[? _] _]. done.
  - apply Forall_cons in F as [[_ ->] F]. by rewrite IHtoks.
Qed.

(** ** What escaping may produce *)

Definition esc_char (mode : encoding) (c : byte) : bool :=
  negb (shouldEscape c mode) || one_of c (lit "%0123456789ABCDEF") || bool_decide (mode = encodeQueryComponent) && bool_decide (c = x2b).

Lemma hex_char_in d : 0 <= d < 16 -> one_of (hex_char d) (lit "%0123456789ABCDEF") = true.
Proof.
  intros H%upperhex_lookup%list_elem_of_lookup_2. apply bool_decide_eq_true. change (hex_char d ∈ x25 :: upperhex). by right.
Qed.

Lemma esc_chars mode s : Forall (fun c => esc_char mode c = true) (esc mode s).
Proof.
  unfold esc. apply Forall_bind, Forall_true. intros c. cbn [compose].
  assert (H : forall d, (0 <= d < 16) -> esc_char mode (hex_char d) = true).
  { intros d Hd. unfold esc_char. by rewrite hex_char_in, orb_true_r. }
  pose proof (nibbles c) as [H1 H2].
  destruct (esc1_cases mode c) as [(-> & -> & ->)|[(_ & _ & ->)|(E & -> & _)]].
  - by constructor.
  - constructor; [by destruct mode|]. constructor; [by apply H|]. constructor; [by apply H|constructor].
  - constructor; [|done]. unfold esc_char. by rewrite E.
Qed.
