(* ===== verification/Url.v ===== *)
(** common/url: parsing and printing of URLs with port-hopping ports, query
    values and reference resolution.  Strings are byte sequences; the loops of
    the source over runes reject every byte above 127, as the byte-wise tests
    here do. *)

From stdpp Require Import sorting.
From S2P Require Import Prelude GoStrings UrlEscape.

(** * Data *)

Record Userinfo := MkUserinfo { username : list byte; password : list byte; passwordSet : bool }.
#[export] Instance Userinfo_eq_dec : EqDecision Userinfo.
Proof. solve_decision. Defined.

Record URL := MkURL {
  Scheme : list byte; Opaque : list byte; User : option Userinfo; Host : list byte; Path : list byte; RawPath : list byte;
  OmitHost : bool; ForceQuery : bool; RawQuery : list byte; Fragment : list byte; RawFragment : list byte }.
#[export] Instance URL_eq_dec : EqDecision URL.
Proof. solve_decision. Defined.

Definition URLZero : URL := MkURL [] [] None [] [] [] false false [] [] [].

Definition set_Path (p rp : list byte) (u : URL) : URL :=
  MkURL (Scheme u) (Opaque u) (User u) (Host u) p rp (OmitHost u) (ForceQuery u) (RawQuery u) (Fragment u) (RawFragment u).
Definition set_Fragment (f rf : list byte) (u : URL) : URL :=
  MkURL (Scheme u) (Opaque u) (User u) (Host u) (Path u) (RawPath u) (OmitHost u) (ForceQuery u) (RawQuery u) f rf.
Definition set_authority (us : option Userinfo) (h : list byte) (u : URL) : URL :=
  MkURL (Scheme u) (Opaque u) us h (Path u) (RawPath u) (OmitHost u) (ForceQuery u) (RawQuery u) (Fragment u) (RawFragment u).
Definition set_Scheme (s : list byte) (u : URL) : URL :=
  MkURL s (Opaque u) (User u) (Host u) (Path u) (RawPath u) (OmitHost u) (ForceQuery u) (RawQuery u) (Fragment u) (RawFragment u).
Definition set_Opaque (o : list byte) (u : URL) : URL :=
  MkURL (Scheme u) o (User u) (Host u) (Path u) (RawPath u) (OmitHost u) (ForceQuery u) (RawQuery u) (Fragment u) (RawFragment u).
Definition set_OmitHost (b : bool) (u : URL) : URL :=
  MkURL (Scheme u) (Opaque u) (User u) (Host u) (Path u) (RawPath u) b (ForceQuery u) (RawQuery u) (Fragment u) (RawFragment u).
Definition set_query (fq : bool) (q : list byte) (u : URL) : URL :=
  MkURL (Scheme u) (Opaque u) (User u) (Host u) (Path u) (RawPath u) (OmitHost u) fq q (Fragment u) (RawFragment u).

(** * Character tests *)

Definition letter (c : byte) : bool := between x61 c x7a || between x41 c x5a.

(** [strings.ToLower] of ASCII text. *)
Definition lower (c : byte) : byte := if between x41 c x5a then z2b (b2z c + 32) else c.
Definition ToLower (s : list byte) : list byte := lower <$> s.

Definition stringContainsCTLByte (s : list byte) : bool := existsb (fun b => bool_decide (b2z b < 32) || bool_decide (b = x7f)) s.

Definition validUserinfo (s : list byte) : bool :=
  forallb (fun r => between x41 r x5a || between x61 r x7a || between x30 r x39 || one_of r (lit "-._:~!$&'()*+,;=%@")) s.

Definition validOptionalPort (port : list byte) : bool :=
  match port with
  | [] => true
  | c :: port =>
      if decide (c <> x3a) then false
      else forallb (fun b => between x30 b x39 || bool_decide (b = x2d) || bool_decide (b = x2c)) port
  end.

Definition validEncoded (s : list byte) (mode : encoding) : bool :=
  forallb (fun c => one_of c (lit "!$&'()*+,;=:@" ++ lit "[]" ++ lit "%") || negb (shouldEscape c mode)) s.

(** * Parsing *)

(** [seen] is [rawURL[:i]]. *)
Fixpoint getScheme_loop (rawURL seen rest : list byte) : res (list byte * list byte) :=
  match rest with
  | [] => Ret ([], rawURL)
  | c :: rest =>
      if letter c then getScheme_loop rawURL (seen ++ [c]) rest
      else if between x30 c x39 || one_of c (lit "+-.") then
        if decide (seen = []) then Ret ([], rawURL) else getScheme_loop rawURL (seen ++ [c]) rest
      else if decide (c = x3a) then
        if decide (seen = []) then Fail (Errorf "missing protocol scheme") else Ret (seen, rest)
      else Ret ([], rawURL)
  end.
Definition getScheme (rawURL : list byte) : res (list byte * list byte) := getScheme_loop rawURL [] rawURL.

Definition setPath (p : list byte) (u : URL) : res URL :=
  path ← unescape p encodePath;
  escp ← escape path encodePath;
  Ret (set_Path path (if decide (p = escp) then [] else p) u).

Definition setFragment (f : list byte) (u : URL) : res URL :=
  frag ← unescape f encodeFragment;
  escf ← escape frag encodeFragment;
  Ret (set_Fragment frag (if decide (f = escf) then [] else f) u).

(** [strings.Index(s, "%25")], as the parts before and from it. *)
Fixpoint index25 (s : list byte) : option (list byte * list byte) :=
  match s with
  | [] => None
  | c :: s' => if HasPrefix s (lit "%25") then Some ([], s) else '(a, b) ← index25 s'; Some (c :: a, b)
  end.

Definition parseHost (host : list byte) : res (list byte) :=
  if HasPrefix host (lit "[") then
    match rcut x5d host with
    | None => Fail (Errorf "missing ']' in host")
    | Some (a, colonPort) =>
        if negb (validOptionalPort colonPort) then Fail (Errorf "invalid port %q after host")
        else match index25 a with
             | Some (h, z) =>
                 host1 ← unescape h encodeHost;
                 host2 ← unescape z encodeZone;
                 host3 ← unescape (x5d :: colonPort) encodeHost;
                 Ret (host1 ++ host2 ++ host3)
             | None => unescape host encodeHost
             end
    end
  else
    match rcut x3a host with
    | Some (_, p) => if negb (validOptionalPort (x3a :: p)) then Fail (Errorf "invalid port %q after host") else unescape host encodeHost
    | None => unescape host encodeHost
    end.

Definition parseUserinfo (userinfo : list byte) : res Userinfo :=
  if negb (validUserinfo userinfo) then Fail (Errorf "net/url: invalid userinfo")
  else match cut x3a userinfo with
       | None => name ← unescape userinfo encodeUserPassword; Ret (MkUserinfo name [] false)
       | Some (n, p) =>
           name ← unescape n encodeUserPassword;
           pass ← unescape p encodeUserPassword;
           Ret (MkUserinfo name pass true)
       end.

Definition parseAuthority (authority : list byte) : res (option Userinfo * list byte) :=
  match rcut x40 authority with
  | None => host ← parseHost authority; Ret (None, host)
  | Some (userinfo, h) => host ← parseHost h; user ← parseUserinfo userinfo; Ret (Some user, host)
  end.

(** The authority is [rest[2:]] up to the next slash. *)
Definition splitAuthority (rest : list byte) : list byte * list byte :=
  match cut x2f (drop 2 rest) with Some (a, r) => (a, x2f :: r) | None => (drop 2 rest, []) end.

(** What follows the scheme and precedes the query. *)
Definition parse_hier (viaRequest : bool) (rest : list byte) (url : URL) : res URL :=
  if negb (HasPrefix rest (lit "/")) && negb (bool_decide (Scheme url = [])) then Ret (set_Opaque rest url)
  else if negb (HasPrefix rest (lit "/")) && viaRequest then Fail (Errorf "invalid URI for request")
  else if negb (HasPrefix rest (lit "/")) && bool_decide (x3a ∈ (Cut x2f rest).1.1) then
    Fail (Errorf "first path segment in URL cannot contain colon")
  else if (negb (bool_decide (Scheme url = [])) || negb viaRequest && negb (HasPrefix rest (lit "///"))) && HasPrefix rest (lit "//") then
    let '(authority, rest) := splitAuthority rest in
    '(user, host) ← parseAuthority authority;
    setPath rest (set_authority user host url)
  else if negb (bool_decide (Scheme url = [])) && HasPrefix rest (lit "/") then setPath rest (set_OmitHost true url)
  else setPath rest url.

Definition splitQuery (rest : list byte) : list byte * (bool * list byte) :=
  if HasSuffix rest (lit "?") && bool_decide (strings_Count x3f rest = 1%nat) then (take (length rest - 1) rest, (true, []))
  else let '(rest, q, _) := Cut x3f rest in (rest, (false, q)).

Definition parse (rawURL : list byte) (viaRequest : bool) : res URL :=
  if stringContainsCTLByte rawURL then Fail (Errorf "net/url: invalid control character in URL")
  else if bool_decide (rawURL = []) && viaRequest then Fail (Errorf "empty url")
  else if decide (rawURL = lit "*") then Ret (set_Path (lit "*") [] URLZero)
  else
    '(scheme, rest) ← getScheme rawURL;
    let '(rest, (fq, q)) := splitQuery rest in
    parse_hier viaRequest rest (set_query fq q (set_Scheme (ToLower scheme) URLZero)).

Definition wrap {A} (m : res A) : res A := match m with Fail e => Fail (Wrap "parse" e) | m => m end.

Definition Parse (rawURL : list byte) : res URL :=
  let '(u, frag, _) := Cut x23 rawURL in
  url ← wrap (parse u false);
  if decide (frag = []) then Ret url else wrap (setFragment frag url).

Definition ParseRequestURI (rawURL : list byte) : res URL := wrap (parse rawURL true).

(** * Printing *)

Definition Userinfo_String (u : Userinfo) : res (list byte) :=
  s ← escape (username u) encodeUserPassword;
  if passwordSet u then p ← escape (password u) encodeUserPassword; Ret (s ++ [x3a] ++ p) else Ret s.

(** The hint if it is a valid encoding of the decoded text. *)
Definition hint (raw decoded : list byte) (mode : encoding) : res (option (list byte)) :=
  if negb (bool_decide (raw = [])) && validEncoded raw mode then
    match unescape raw mode with
    | Ret p => Ret (if decide (p = decoded) then Some raw else None)
    | Fail _ => Ret None
    | Panic => Panic
    end
  else Ret None.

Definition EscapedPath (u : URL) : res (list byte) :=
  h ← hint (RawPath u) (Path u) encodePath;
  match h with
  | Some p => Ret p
  | None => if decide (Path u = lit "*") then Ret (lit "*") else escape (Path u) encodePath
  end.

Definition EscapedFragment (u : URL) : res (list byte) :=
  h ← hint (RawFragment u) (Fragment u) encodeFragment;
  match h with Some f => Ret f | None => escape (Fragment u) encodeFragment end.

(** The scheme and the authority. *)
Definition String_authority (u : URL) : res (list byte) :=
  if bool_decide (Scheme u = []) && bool_decide (Host u = []) && bool_decide (User u = None) then Ret []
  else if OmitHost u && bool_decide (Host u = []) && bool_decide (User u = None) then Ret []
  else
    let slashes := if negb (bool_decide (Host u = [])) || negb (bool_decide (Path u = [])) || negb (bool_decide (User u = None)) then lit "//" else [] in
    ui ← (match User u with Some ui => s ← Userinfo_String ui; Ret (s ++ [x40]) | None => Ret [] end);
    h ← escape (Host u) encodeHost;
    Ret (slashes ++ ui ++ h).

Definition String_body (u : URL) (buf : list byte) : res (list byte) :=
  auth ← String_authority u;
  let buf := buf ++ auth in
  path ← EscapedPath u;
  let buf := if negb (bool_decide (path = [])) && negb (HasPrefix path (lit "/")) && negb (bool_decide (Host u = [])) then buf ++ lit "/" else buf in
  let buf := if bool_decide (buf = []) && bool_decide (x3a ∈ (Cut x2f path).1.1) then lit "./" else buf in
  Ret (buf ++ path).

Definition URL_String (u : URL) : res (list byte) :=
  let buf := if decide (Scheme u = []) then [] else Scheme u ++ [x3a] in
  buf ← (if decide (Opaque u = []) then String_body u buf else Ret (buf ++ Opaque u));
  let buf := if ForceQuery u || negb (bool_decide (RawQuery u = [])) then buf ++ [x3f] ++ RawQuery u else buf in
  if decide (Fragment u = []) then Ret buf
  else f ← EscapedFragment u; Ret (buf ++ [x23] ++ f).

Definition Redacted (u : URL) : res (list byte) :=
  match User u with
  | Some ui => if passwordSet ui then URL_String (set_authority (Some (MkUserinfo (username ui) (lit "xxxxx") true)) (Host u) u) else URL_String u
  | None => URL_String u
  end.

(** * Host and port *)

Definition splitHostPort (hostPort : list byte) : list byte * list byte :=
  let '(host, port) :=
    match rcut x3a hostPort with
    | Some (h, p) => if validOptionalPort (x3a :: p) then (h, p) else (hostPort, [])
    | None => (hostPort, [])
    end in
  let host := if HasPrefix host (lit "[") && HasSuffix host (lit "]") then take (length host - 2) (drop 1 host) else host in
  (host, port).
Definition Hostname (u : URL) : list byte := (splitHostPort (Host u)).1.
Definition Port (u : URL) : list byte := (splitHostPort (Host u)).2.

(** * Query values *)

Abbreviation Values := (gmap (list byte) (list (list byte))).

Definition Values_Get (v : Values) (key : list byte) : list byte :=
  match v !! key with Some (x :: _) => x | _ => [] end.
Definition Values_Set (v : Values) (key value : list byte) : Values := <[key := [value]]> v.
Definition Values_Add (v : Values) (key value : list byte) : Values := <[key := default [] (v !! key) ++ [value]]> v.
Definition Values_Del (v : Values) (key : list byte) : Values := delete key v.
Definition Values_Has (v : Values) (key : list byte) : bool := bool_decide (is_Some (v !! key)).

(** The map, and the error remembered so far. *)
Definition parseQuery_item (key : list byte) (m : Values) (err : option error) : res (Values * option error) :=
  if decide (x3b ∈ key) then Ret (m, Some (Errorf "invalid semicolon separator in query"))
  else if decide (key = []) then Ret (m, err)
  else
    let '(key, value, _) := Cut x3d key in
    let keep e := Ret (m, match err with None => Some e | Some _ => err end) in
    match QueryUnescape key with
    | Fail e => keep e
    | Panic => Panic
    | Ret key =>
        match QueryUnescape value with
        | Fail e => keep e
        | Panic => Panic
        | Ret value => Ret (Values_Add m key value, err)
        end
    end.

(** Each round takes at least one byte from the query. *)
Fixpoint parseQuery (fuel : nat) (m : Values) (query : list byte) (err : option error) : res (Values * option error) :=
  if decide (query = []) then Ret (m, err)
  else match fuel with
       | O => Panic
       | S fuel =>
           let '(key, query, _) := Cut x26 query in
           '(m, err) ← parseQuery_item key m err;
           parseQuery fuel m query err
       end.
Definition ParseQuery (query : list byte) : res (Values * option error) := parseQuery (length query) ∅ query None.

(** The order of [sort.Strings]. *)
Fixpoint string_le (a b : list byte) : Prop :=
  match a, b with
  | [], _ => True
  | _ :: _, [] => False
  | x :: a, y :: b => b2z x < b2z y \/ (x = y /\ string_le a b)
  end.
#[export] Instance string_le_dec a b : Decision (string_le a b).
Proof.
  revert b. induction a as [|x a IH]; intros [|y b]; cbn; apply _.
Defined.

Definition encode_value (keyEscaped buf v : list byte) : res (list byte) :=
  let buf := if decide (buf = []) then buf else buf ++ [x26] in
  e ← QueryEscape v;
  Ret (buf ++ keyEscaped ++ [x3d] ++ e).
Fixpoint encode_values (keyEscaped buf : list byte) (vs : list (list byte)) : res (list byte) :=
  match vs with
  | [] => Ret buf
  | v :: vs => buf ← encode_value keyEscaped buf v; encode_values keyEscaped buf vs
  end.
Fixpoint encode_keys (v : Values) (buf : list byte) (keys : list (list byte)) : res (list byte) :=
  match keys with
  | [] => Ret buf
  | k :: keys =>
      keyEscaped ← QueryEscape k;
      buf ← encode_values keyEscaped buf (default [] (v !! k));
      encode_keys v buf keys
  end.
Definition Encode (v : Values) : res (list byte) :=
  encode_keys v [] (merge_sort string_le (map_to_list v).*1).

Definition Query (u : URL) : res Values := '(v, _) ← ParseQuery (RawQuery u); Ret v.

Definition RequestURI (u : URL) : res (list byte) :=
  result ← (if decide (Opaque u = []) then p ← EscapedPath u; Ret (if decide (p = []) then lit "/" else p)
            else Ret (if HasPrefix (Opaque u) (lit "//") then Scheme u ++ [x3a] ++ Opaque u else Opaque u));
  Ret (if ForceQuery u || negb (bool_decide (RawQuery u = [])) then result ++ [x3f] ++ RawQuery u else result).

(** * References *)

(** One element; [dst] starts with the slash written first. *)
Definition resolve_elem (elem : list byte) (dst : list byte) (first : bool) : list byte * bool :=
  if decide (elem = lit ".") then (dst, false)
  else if decide (elem = lit "..") then
    match rcut x2f (drop 1 dst) with
    | None => ([x2f], true)
    | Some (a, _) => ([x2f] ++ a, first)
    end
  else ((if first then dst else dst ++ [x2f]) ++ elem, false).

Fixpoint resolve_loop (fuel : nat) (remaining dst : list byte) (first : bool) : res (list byte * list byte) :=
  let '(elem, remaining, found) := Cut x2f remaining in
  let '(dst, first) := resolve_elem elem dst first in
  if found then match fuel with O => Panic | S fuel => resolve_loop fuel remaining dst first end
  else Ret (elem, dst).

Definition resolvePath (base ref : list byte) : res (list byte) :=
  let full :=
    match ref with
    | [] => base
    | c :: _ => if decide (c <> x2f) then match rcut x2f base with Some (a, _) => a ++ [x2f] | None => [] end ++ ref else ref
    end in
  if decide (full = []) then Ret []
  else
    '(elem, dst) ← resolve_loop (length full) full [x2f] true;
    let r := if decide (elem = lit "." \/ elem = lit "..") then dst ++ [x2f] else dst in
    Ret (if decide ((1 < length r)%nat /\ r !! 1%nat = Some x2f) then drop 1 r else r).

(** The error of [setPath] is dropped. *)
Definition setPath_ (p : list byte) (u : URL) : res URL :=
  match setPath p u with Fail _ => Ret u | m => m end.

Definition ResolveReference (u ref : URL) : res URL :=
  let url := if decide (Scheme ref = []) then set_Scheme (Scheme u) ref else ref in
  if negb (bool_decide (Scheme ref = [])) || negb (bool_decide (Host ref = [])) || negb (bool_decide (User ref = None)) then
    p ← EscapedPath ref;
    r ← resolvePath p [];
    setPath_ r url
  else if negb (bool_decide (Opaque ref = [])) then
    Ret (set_Path [] (RawPath url) (set_authority None [] url))
  else
    let url :=
      if bool_decide (Path ref = []) && negb (ForceQuery ref) && bool_decide (RawQuery ref = []) then
        let url := set_query (ForceQuery url) (RawQuery u) url in
        if decide (Fragment ref = []) then set_Fragment (Fragment u) (RawFragment u) url else url
      else url in
    b ← EscapedPath u;
    p ← EscapedPath ref;
    r ← resolvePath b p;
    setPath_ r (set_authority (User u) (Host u) url).

Definition URL_Parse (u : URL) (ref : list byte) : res URL := refURL ← Parse ref; ResolveReference u refURL.
Definition IsAbs (u : URL) : bool := negb (bool_decide (Scheme u = [])).
