(* ===== verification/UrlRound.v ===== *)
(** common/url, parsing and printing: a URL that was parsed is printed as a text
    that parses to the same URL. *)

From S2P Require Import Prelude GoStrings UrlEscape Url.

(** * Character facts *)

Definition printable (c : byte) : bool := negb (bool_decide (b2z c < 32) || bool_decide (c = x7f)).
Definition outside (s : list byte) (c : byte) : Prop := printable c = true /\ c ∉ s.

Lemma CTL_false s : stringContainsCTLByte s = false <-> Forall (fun c => printable c = true) s.
Proof.
  unfold stringContainsCTLByte, printable. induction s as [|c s IH]; cbn; [by split|].
  rewrite orb_false_iff, IH, Forall_cons, negb_true_iff. done.
Qed.

(** Statements about all bytes that satisfy a test, case by case. *)
Ltac by_byte c := destruct c; intros H; vm_compute in H; try discriminate H; clear H;
  repeat first [reflexivity | split | apply (bool_decide_unpack _); vm_compute; exact I].

Lemma host_text c : esc_char encodeHost c = true -> outside (lit "@/?#") c.
Proof. by_byte c. Qed.
Lemma user_text c : esc_char encodeUserPassword c = true ->
  outside (lit "@/?#:") c /\ (between x41 c x5a || between x61 c x7a || between x30 c x39 || one_of c (lit "-._:~!$&'()*+,;=%@")) = true.
Proof. by_byte c. Qed.

Definition path_char (mode : encoding) (c : byte) : bool :=
  one_of c (lit "!$&'()*+,;=:@" ++ lit "[]" ++ lit "%") || negb (shouldEscape c mode).
Lemma path_text c : path_char encodePath c = true -> outside (lit "?#") c.
Proof. by_byte c. Qed.
Lemma esc_path_char c : esc_char encodePath c = true -> path_char encodePath c = true.
Proof. by destruct c. Qed.

Lemma validEncoded_spec s mode : validEncoded s mode = true <-> Forall (fun c => path_char mode c = true) s.
Proof. unfold validEncoded. rewrite forallb_forall, Forall_forall. setoid_rewrite list_elem_of_In. done. Qed.

Lemma Forall_not_in (P : byte -> Prop) c s : Forall P s -> ~ P c -> c ∉ s.
Proof. intros F N Hc. apply N. by eapply Forall_forall in Hc. Qed.

Lemma HasPrefix_spec s p : HasPrefix s p = true <-> exists r, s = p ++ r.
Proof.
  unfold HasPrefix. rewrite bool_decide_eq_true. split.
  - intros E. exists (drop (length p) s). by rewrite <- E at 1; rewrite take_drop.
  - intros [r ->]. by rewrite take_app_length.
Qed.

Lemma HasPrefix1 s c : HasPrefix s [c] = true <-> head s = Some c.
Proof. rewrite HasPrefix_spec. destruct s as [|d s]; cbn; split; [by intros [? ?]|done|intros [r [= -> ->]]; done|intros [= ->]; by exists s]. Qed.

(** * Schemes *)

Definition scheme_char (c : byte) : bool := letter c || between x30 c x39 || one_of c (lit "+-.").
Definition valid_scheme (s : list byte) : Prop :=
  match s with [] => False | c :: s => letter c = true /\ Forall (fun c => scheme_char c = true) s end.

Lemma scheme_text c : scheme_char c = true -> outside (lit "/?#:") c /\ scheme_char (lower c) = true /\ lower (lower c) = lower c.
Proof. by_byte c. Qed.
Lemma letter_scheme c : letter c = true -> scheme_char c = true /\ letter (lower c) = true.
Proof. by_byte c. Qed.

Lemma valid_scheme_chars s : valid_scheme s -> Forall (fun c => scheme_char c = true) s.
Proof. destruct s as [|c s]; [done|]. intros [H F]. constructor; [by apply letter_scheme|done]. Qed.

Lemma valid_scheme_lower s : valid_scheme s -> valid_scheme (ToLower s) /\ ToLower (ToLower s) = ToLower s.
Proof.
  destruct s as [|c s]; [done|]. intros [H F]. split; [split; [by apply letter_scheme|]|].
  - apply Forall_fmap. eapply Forall_impl; [exact F|]. intros d Hd. by apply scheme_text.
  - cbn. f_equal; [apply scheme_text; by apply letter_scheme|]. unfold ToLower. rewrite <- list_fmap_compose.
    apply list_fmap_ext. intros i d Hd. eapply Forall_lookup_1 in F; [|done]. by apply scheme_text.
Qed.

Lemma getScheme_loop_inv raw rest : forall seen s r, (seen = [] \/ valid_scheme seen) -> raw = seen ++ rest ->
  getScheme_loop raw seen rest = Ret (s, r) -> (s = [] /\ r = raw) \/ (valid_scheme s /\ raw = s ++ x3a :: r).
Proof.
  induction rest as [|c rest IH]; intros seen s r Hs E; cbn [getScheme_loop]; [intros [= <- <-]; by left|].
  assert (Ext : letter c = true \/ (seen <> [] /\ scheme_char c = true) -> valid_scheme (seen ++ [c])).
  { destruct Hs as [-> | Hs]; [intros [H|[? _]]; [|done]; by split|]. intros H. destruct seen as [|d seen]; [done|]. destruct Hs as [Hd Hs].
    split; [done|]. apply Forall_app. split; [done|]. constructor; [|done]. destruct H as [H|[_ H]]; [by apply letter_scheme|done]. }
  rewrite cons_middle, app_assoc in E. destruct (letter c) eqn:El; [eapply IH; auto|].
  destruct (_ || _) eqn:Ed.
  - case_decide; [intros [= <- <-]; by left|]. eapply IH; [right; apply Ext; right|done]. split; [done|]. unfold scheme_char. rewrite El. exact Ed.
  - case_decide as Hc; [|intros [= <- <-]; by left]. case_decide; [done|]. intros [= <- <-]. right. subst c.
    split; [by destruct Hs|]. by rewrite E, <- app_assoc.
Qed.

Lemma getScheme_inv raw s r : getScheme raw = Ret (s, r) -> (s = [] /\ r = raw) \/ (valid_scheme s /\ raw = s ++ x3a :: r).
Proof. apply getScheme_loop_inv; auto. Qed.

Lemma getScheme_loop_ok raw s rest : forall seen, (seen = [] -> match s with [] => False | c :: _ => letter c = true end) ->
  Forall (fun c => scheme_char c = true) s -> getScheme_loop raw seen (s ++ x3a :: rest) = Ret (seen ++ s, rest).
Proof.
  induction s as [|c s IH]; intros seen H F; cbn [getScheme_loop app].
  - change (letter x3a) with false. change (between x30 x3a x39 || one_of x3a (lit "+-.")) with false. cbv iota.
    rewrite decide_True, decide_False by done. by rewrite app_nil_r.
  - apply Forall_cons in F as [Hc F].
    assert (N : getScheme_loop raw (seen ++ [c]) (s ++ x3a :: rest) = Ret (seen ++ c :: s, rest)).
    { rewrite IH; [by rewrite <- app_assoc|by destruct seen|done]. }
    destruct (letter c) eqn:El; [done|]. unfold scheme_char in Hc. rewrite El in Hc. cbn [orb] in Hc. rewrite Hc.
    rewrite decide_False; [done|]. intros E. specialize (H E). congruence.
Qed.

Lemma getScheme_ok s rest : valid_scheme s -> getScheme (s ++ x3a :: rest) = Ret (s, rest).
Proof.
  intros V. unfold getScheme. rewrite (getScheme_loop_ok _ s rest []); [done| |by apply valid_scheme_chars].
  destruct s as [|c s]; [done|]. intros _. apply V.
Qed.

(** No colon before a character that no scheme has. *)
Lemma getScheme_loop_none raw t rest : forall seen, x3a ∉ t -> (rest = [] \/ exists c r, rest = c :: r /\ c ∈ lit "/?") ->
  getScheme_loop raw seen (t ++ rest) = Ret ([], raw).
Proof.
  induction t as [|c t IH]; intros seen H Hr.
  - destruct Hr as [->|(c & r & -> & Hc)]; [done|]. assert (c = x2f \/ c = x3f) as [-> | ->] by (cbn in Hc; set_solver); done.
  - apply not_elem_of_cons in H as [Hc H]. cbn [getScheme_loop app]. destruct (letter c); [by apply IH|].
    destruct (_ || _); [case_decide; [done|by apply IH]|]. by rewrite decide_False.
Qed.

(** * Queries *)

Definition query_text (fq : bool) (q : list byte) : list byte := if fq || negb (bool_decide (q = [])) then [x3f] ++ q else [].

Lemma splitQuery_ok r fq q : x3f ∉ r -> (fq = true -> q = []) -> splitQuery (r ++ query_text fq q) = (r, (fq, q)).
Proof.
  intros N Hf. unfold splitQuery, query_text, Cut, HasSuffix, strings_Count.
  assert (C : forall q, length (filter (fun c => c = x3f) (r ++ x3f :: q)) = S (length (filter (fun c => c = x3f) q))).
  { intros q'. rewrite filter_app, (filter_none _ r). - done. - apply Forall_forall. intros x Hx ->. done. }
  destruct fq.
  - rewrite (Hf eq_refl). cbn [orb app]. rewrite (C []). rewrite bool_decide_true; [|split; [len|]; rewrite length_app; cbn; rewrite Nat.add_sub; by rewrite drop_app_length].
    cbn. f_equal. rewrite length_app. cbn. rewrite Nat.add_sub. by rewrite take_app_length.
  - cbn [orb]. destruct (bool_decide_reflect (q = [])) as [->|Hq]; cbn [negb].
    + rewrite app_nil_r. rewrite (proj2 (cut_None x3f r) N). rewrite (filter_none _ r); [by rewrite andb_false_r|]. apply Forall_forall. intros x Hx ->. done.
    + cbn [app]. rewrite cut_app by done. rewrite (C q). case_bool_decide as Hs; [|done]. rewrite bool_decide_false; [done|].
      destruct Hs as [_ Hs]. destruct q as [|c q' _] using rev_ind; [done|].
      assert (c = x3f) as ->.
      { rewrite app_comm_cons, app_assoc in Hs. rewrite length_app in Hs. cbn in Hs. rewrite Nat.add_sub, drop_app_length in Hs. by injection Hs. }
      rewrite filter_app, length_app. rewrite (filter_cons_True _ x3f []) by done. cbn [length]. lia.
Qed.

Lemma splitQuery_inv t r fq q : splitQuery t = (r, (fq, q)) -> x3f ∉ r /\ (fq = true -> q = []) /\ t = r ++ query_text fq q.
Proof.
  unfold splitQuery, query_text. destruct (HasSuffix t (lit "?") && _) eqn:E.
  - apply andb_prop in E as [[L E]%bool_decide_eq_true C%bool_decide_eq_true]. intros [= <- <- <-]. cbn in L, E.
    assert (Et : t = take (length t - 1) t ++ [x3f]) by (rewrite <- E; by rewrite take_drop). split_and!; [|done|exact Et].
    rewrite Et in C. unfold strings_Count in C. rewrite filter_app, length_app in C. rewrite (filter_cons_True _ x3f []) in C by done. cbn [length] in C.
    assert (length (filter (fun c => c = x3f) (take (length t - 1) t)) = 0%nat) as F%filter_length_0 by lia.
    eapply Forall_not_in; [exact F|]. intros X. by apply X.
  - unfold Cut. destruct (cut x3f t) as [[a b]|] eqn:Ec; cbn; intros [= <- <- <-].
    + apply cut_Some in Ec as [-> N]. split_and!; [done..|]. rewrite bool_decide_false; [done|]. intros ->.
      rewrite andb_false_iff in E. destruct E as [E|E].
      * unfold HasSuffix in E. apply bool_decide_eq_false in E. apply E. rewrite length_app. cbn. split; [lia|]. rewrite Nat.add_sub. by rewrite drop_app_length.
      * apply bool_decide_eq_false in E. apply E. unfold strings_Count. rewrite filter_app, (filter_none _ a); [done|].
        apply Forall_forall. intros x Hx ->. done.
    + apply cut_None in Ec. split_and!; [done..|]. by rewrite app_nil_r.
Qed.

(** * Hosts *)

Lemma unhex_range a : 0 <= unhex a < 16.
Proof. destruct a; vm_compute; done. Qed.

Lemma b2z_hexbyte a b : b2z (hexbyte a b) = unhex a * 16 + unhex b.
Proof.
  unfold hexbyte. pose proof (unhex_range a). pose proof (unhex_range b).
  rewrite lor_shiftl_add by (cbn; lia). rewrite b2z_z2b_small by (cbn; lia). cbn. lia.
Qed.

Lemma esc_allowed_host a b : esc_allowed encodeHost a b -> 128 <= b2z (hexbyte a b) \/ ([a; b] = lit "25" /\ hexbyte a b = x25).
Proof.
  intros [H|H]; [left|right; split; [done|by injection H as -> ->]]. rewrite b2z_hexbyte. pose proof (unhex_range b). lia.
Qed.

(** What a host decodes to. *)
Lemma host_bytes s t : toks encodeHost s t -> Forall (encodable encodeHost) t /\ (forall c, c ∈ t -> b2z c < 128 -> c <> x25 -> c ∈ s).
Proof.
  induction 1 as [|a b s t Ha Hb Hab _ [IH1 IH2]|c s t Hc Hl _ [IH1 IH2]].
  - split; [constructor|set_solver].
  - apply esc_allowed_host in Hab. split.
    + constructor; [|done]. cbn. destruct Hab as [?|[_ ?]]; auto.
    + intros d [->|Hd]%elem_of_cons; [|intros; do 3 right; auto]. intros ? ?. destruct Hab as [?|[_ ?]]; [lia|done].
  - unfold plus. rewrite andb_false_r. split.
    + constructor; [|done]. cbn in *. tauto.
    + intros d [->|Hd]%elem_of_cons; [by left|]. right. auto.
Qed.

Lemma zone_bytes s t : toks encodeZone s t -> Forall (fun c => b2z c < 128) t -> Forall (encodable encodeZone) t.
Proof.
  induction 1 as [|a b s t Ha Hb Hab _ IH|c s t Hc Hl _ IH]; intros F; [constructor|..]; apply Forall_cons in F as [F1 F]; (constructor; [|by apply IH]).
  - cbn in *. destruct Hab as [H|H]; [left; by injection H as -> ->|auto].
  - unfold plus in *. rewrite andb_false_r in *. cbn in *. destruct Hl; [lia|auto].
Qed.

Definition port_char (b : byte) : bool := between x30 b x39 || bool_decide (b = x2d) || bool_decide (b = x2c).
Lemma port_text c : port_char c = true ->
  (c <> x25 /\ c <> x3a /\ c <> x5d) /\ shouldEscape c encodeHost = false.
Proof. by_byte c. Qed.

Lemma esc_lits mode s : Forall (fun c => shouldEscape c mode = false) s -> esc mode s = s.
Proof.
  unfold esc. induction 1 as [|c s H _ IH]; [done|]. rewrite bind_cons, IH.
  destruct (esc1_cases mode c) as [(-> & -> & _)|[(_ & E & _)|(_ & -> & _)]]; [done|congruence|done].
Qed.

Lemma port_ok c p : shouldEscape c encodeHost = false -> c <> x25 -> Forall (fun c => port_char c = true \/ c = x3a) p ->
  esc encodeHost (c :: p) = c :: p /\ toks encodeHost (c :: p) (c :: p) /\ (forall t, toks encodeHost (c :: p) t -> t = c :: p).
Proof.
  intros Hc Hp F.
  assert (G : Forall (fun c => c <> x25 /\ shouldEscape c encodeHost = false) (c :: p)).
  { constructor; [done|]. eapply Forall_impl; [exact F|]. intros d [Hd | ->]; [|done]. apply port_text in Hd. tauto. }
  split_and!.
  - apply esc_lits. eapply Forall_impl; [exact G|]. by intros d [].
  - apply toks_lits. eapply Forall_impl; [exact G|]. intros d [? ?]. split_and!; [done|by right|]. unfold plus. by rewrite andb_false_r.
  - intros t T. eapply toks_lits_inv; [exact T|]. eapply Forall_impl; [exact G|]. intros d [? ?]. split; [done|]. unfold plus. by rewrite andb_false_r.
Qed.

Lemma validOptionalPort_spec p : validOptionalPort p = true <-> p = [] \/ exists q, p = x3a :: q /\ Forall (fun c => port_char c = true) q.
Proof.
  assert (F : forall q, forallb port_char q = true <-> Forall (fun c => port_char c = true) q).
  { intros q. rewrite forallb_forall, Forall_forall. by setoid_rewrite list_elem_of_In. }
  destruct p as [|c p]; [naive_solver|]. cbn [validOptionalPort]. destruct (decide (c = x3a)) as [->|N].
  - rewrite decide_False by (intros X; by apply X). etrans; [apply F|]. naive_solver.
  - rewrite decide_True by done. naive_solver.
Qed.

Lemma esc_app mode a b : esc mode (a ++ b) = esc mode a ++ esc mode b.
Proof. apply bind_app. Qed.

(** A byte that no escape contains is there only if it was there before. *)
Lemma esc_in mode c s : c ∈ esc mode s -> one_of c (lit "%0123456789ABCDEF+") = false -> c ∈ s.
Proof.
  intros H N. apply bool_decide_eq_false in N. unfold esc in H. apply list_elem_of_bind in H as (d & H & Hd).
  assert (X : forall n, 0 <= n < 16 -> c <> hex_char n).
  { intros n Hn ->. apply N. apply hex_char_in, bool_decide_eq_true in Hn. revert Hn. cbn. set_solver. }
  pose proof (nibbles d) as [H1 H2].
  destruct (esc1_cases mode d) as [(-> & -> & E)|[(_ & _ & E)|(_ & E & _)]]; rewrite E in H.
  - apply list_elem_of_singleton in H as ->. destruct N. apply (bool_decide_unpack _). vm_compute. exact I.
  - exfalso. apply elem_of_cons in H as [->|H]; [apply N; apply (bool_decide_unpack _); vm_compute; exact I|].
    apply elem_of_cons in H as [->|H]; [by apply (X _ H1)|]. apply list_elem_of_singleton in H as ->. by apply (X _ H2).
  - by apply list_elem_of_singleton in H as ->.
Qed.

Lemma head_esc mode s : head (esc mode s) = Some x5b -> head s = Some x5b.
Proof.
  destruct s as [|c s]; [done|]. unfold esc. rewrite bind_cons.
  destruct (esc1_cases mode c) as [(-> & -> & ->)|[(_ & _ & ->)|(_ & -> & _)]]; cbn; [done..|]. by intros [= ->].
Qed.

Lemma head_toks s t : toks encodeHost s t -> head t = Some x5b <-> head s = Some x5b.
Proof.
  destruct 1 as [|a b s t Ha Hb Hab _|c s t Hc Hl _]; [done| |unfold plus; by rewrite andb_false_r].
  cbn. apply esc_allowed_host in Hab. split; [|done]. intros [= E]. rewrite E in Hab. destruct Hab as [?|[_ ?]]; [assert (b2z x5b = 91) by done; lia|done].
Qed.

(** ** Zones *)

Lemma index25_Some s a b : index25 s = Some (a, b) -> s = a ++ b /\ index25 a = None /\ exists r, b = lit "%25" ++ r.
Proof.
  revert a. induction s as [|c s IH]; intros a; cbn [index25]; [done|]. destruct (HasPrefix (c :: s) (lit "%25")) eqn:E.
  - intros [= <- <-]. apply HasPrefix_spec in E. split_and!; auto.
  - destruct (index25 s) as [[a' b']|]; [|done]. intros [= <- <-]. destruct (IH a' eq_refl) as (-> & Hn & r & ->).
    split_and!; [done| |by exists r]. cbn [index25]. rewrite Hn. destruct (HasPrefix (c :: a') (lit "%25")) eqn:E2; [|done].
    apply HasPrefix_spec in E2 as [r2 E2]. exfalso. assert (HasPrefix (c :: a' ++ lit "%25" ++ r) (lit "%25") = true); [|congruence].
    apply HasPrefix_spec. exists (r2 ++ lit "%25" ++ r). rewrite app_comm_cons, E2. by rewrite <- !app_assoc.
Qed.

Lemma index25_tail c s : index25 (c :: s) = None -> HasPrefix (c :: s) (lit "%25") = false /\ index25 s = None.
Proof. cbn [index25]. destruct (HasPrefix (c :: s) (lit "%25")); [done|]. by destruct (index25 s) as [[]|]. Qed.

Lemma no_zone s t : toks encodeHost s t -> index25 s = None -> x25 ∉ t.
Proof.
  induction 1 as [|a b s t Ha Hb Hab _ IH|c s t Hc Hl _ IH]; intros Hn; [set_solver|..].
  - apply index25_tail in Hn as [Hp Hn]. apply index25_tail in Hn as [_ Hn]. apply index25_tail in Hn as [_ Hn].
    apply not_elem_of_cons. split; [|by apply IH]. apply esc_allowed_host in Hab as [H|[H _]].
    + intros E. rewrite <- E in H. assert (b2z x25 = 37) by done. lia.
    + injection H as -> ->. done.
  - apply index25_tail in Hn as [_ Hn]. unfold plus. rewrite andb_false_r. apply not_elem_of_cons. split; [done|by apply IH].
Qed.

Lemma index25_cons c s :
  index25 (c :: s) = if HasPrefix (c :: s) (lit "%25") then Some ([], c :: s) else ('(a, b) ← index25 s; Some (c :: a, b)).
Proof. done. Qed.

Lemma index25_skip c s : c <> x25 -> index25 (c :: s) = ('(a, b) ← index25 s; Some (c :: a, b)).
Proof.
  intros N. cbn [index25]. destruct (HasPrefix (c :: s) (lit "%25")) eqn:E; [|done]. apply HasPrefix_spec in E as [r [= ->]]. done.
Qed.

Lemma hex_char_not_percent n : 0 <= n < 16 -> hex_char n <> x25.
Proof. intros H%upperhex_lookup%list_elem_of_lookup_2. intros E. rewrite E in H. revert H. apply (bool_decide_unpack _). vm_compute. exact I. Qed.

Lemma index25_esc h rest : x25 ∉ h ->
  index25 (esc encodeHost h ++ rest) = ('(a, b) ← index25 rest; Some (esc encodeHost h ++ a, b)).
Proof.
  unfold esc. induction h as [|c h IH]; intros N; [cbn; by destruct (index25 rest) as [[]|]|].
  apply not_elem_of_cons in N as [Nc N]. rewrite bind_cons, <- app_assoc. pose proof (nibbles c) as [H1 H2].
  destruct (esc1_cases encodeHost c) as [(_ & ? & _)|[(_ & _ & E)|(_ & E & Hc & _)]]; [done|..]; rewrite E; cbn [app].
  - rewrite (index25_cons x25). destruct (HasPrefix _ (lit "%25")) eqn:P.
    { apply HasPrefix_spec in P as [r [= P1 P2 _]]. pose proof (hex_char_25 c) as X. rewrite P1, P2 in X. rewrite bool_decide_true in X by done.
      symmetry in X. apply bool_decide_eq_true in X. by subst. }
    rewrite (index25_skip (hex_char (Z.shiftr _ _))), (index25_skip (hex_char (Z.land _ _))), IH by (try done; by apply hex_char_not_percent).
    by destruct (index25 rest) as [[]|].
  - rewrite (index25_skip c), IH by done. by destruct (index25 rest) as [[]|].
Qed.

(** ** Hosts are read back *)

Lemma esc_zone s : esc encodeZone s = esc encodeHost s.
Proof.
  unfold esc. induction s as [|c s IH]; [done|]. rewrite !bind_cons, IH. f_equal.
Qed.

Lemma not_hex_sep c : c = x3a \/ c = x5d -> ishex c = false /\ shouldEscape c encodeHost = false /\ c <> x25 /\
  one_of c (lit "%0123456789ABCDEF+") = false /\ b2z c < 128.
Proof. by intros [-> | ->]. Qed.

(** The part after the last separator is a port, which stands for itself. *)
Lemma host_split raw h a c p : toks encodeHost raw h -> raw = a ++ c :: p -> c = x3a \/ c = x5d -> Forall (fun c => port_char c = true \/ c = x3a) p ->
  exists t, toks encodeHost a t /\ h = t ++ c :: p /\ esc encodeHost h = esc encodeHost t ++ c :: p.
Proof.
  intros T -> Hc F. destruct (not_hex_sep c Hc) as (H1 & H2 & H3 & _).
  destruct (toks_split _ _ _ T a c p eq_refl H1) as (t1 & t2 & T1 & T2 & ->).
  destruct (port_ok c p H2 H3 F) as (Ep & _ & Et). apply Et in T2 as ->.
  exists t1. split_and!; [done..|]. by rewrite esc_app, Ep.
Qed.

Lemma port_chars p : validOptionalPort p = true -> Forall (fun c => port_char c = true \/ c = x3a) p /\ x5d ∉ p.
Proof.
  intros [->|(q & -> & F)]%validOptionalPort_spec; [split; [constructor|set_solver]|]. split.
  - constructor; [by right|]. eapply Forall_impl; [exact F|]. auto.
  - apply not_elem_of_cons. split; [done|]. eapply Forall_not_in; [exact F|]. done.
Qed.

Lemma parseHost_plain raw h : HasPrefix raw (lit "[") = false -> parseHost raw = Ret h -> parseHost (esc encodeHost h) = Ret h.
Proof.
  intros Hp E. unfold parseHost in E. rewrite Hp in E.
  assert (T : toks encodeHost raw h).
  { apply unescape_toks. destruct (rcut x3a raw) as [[? p]|]; [|done]. by destruct (negb _). }
  unfold parseHost.
  assert (HasPrefix (esc encodeHost h) (lit "[") = false) as ->.
  { destruct (HasPrefix (esc encodeHost h) (lit "[")) eqn:X; [|done]. apply HasPrefix1, head_esc in X. apply (head_toks _ _ T), HasPrefix1 in X. by change [x5b] with (lit "[") in X; rewrite X in Hp. }
  assert (U : unescape (esc encodeHost h) encodeHost = Ret h) by (apply unescape_toks, toks_esc_ok; by apply host_bytes in T as [? _]).
  destruct (rcut x3a raw) as [[a p]|] eqn:Ec.
  - apply rcut_Some in Ec as [Er N]. destruct (validOptionalPort (x3a :: p)) eqn:V; [|done].
    pose proof V as Hv. apply validOptionalPort_spec in Hv as [?|(q & [= <-] & F)]; [done|].
    destruct (host_split raw h a x3a p T Er) as (t & _ & _ & Eh); [by left|eapply Forall_impl; [exact F|]; auto|].
    rewrite Eh, rcut_app by done. rewrite V. cbn [negb]. by rewrite <- Eh.
  - apply rcut_None in Ec. rewrite (proj2 (rcut_None _ _)); [done|]. intros Hin.
    apply esc_in in Hin; [|done]. apply Ec. by apply (proj2 (host_bytes _ _ T)).
Qed.

Lemma parseHost_bracket raw h : HasPrefix raw (lit "[") = true -> (x25 ∈ h -> Forall (fun c => b2z c < 128) h) ->
  parseHost raw = Ret h -> parseHost (esc encodeHost h) = Ret h.
Proof.
  intros Hp A E. unfold parseHost in E. rewrite Hp in E.
  destruct (rcut x5d raw) as [[a cp]|] eqn:Ec; [|done]. apply rcut_Some in Ec as [Er N].
  destruct (validOptionalPort cp) eqn:V; [|done]. cbn [negb] in E. pose proof (port_chars cp V) as [F _].
  (* the text before the last bracket, and the zone in it *)
  assert (Main : exists t, h = t ++ x5d :: cp /\ head t = Some x5b /\ esc encodeHost h = esc encodeHost t ++ x5d :: cp /\
    match index25 (esc encodeHost t) with
    | Some (b, z) => exists t1 t2, b = esc encodeHost t1 /\ z = esc encodeHost t2 /\ t = t1 ++ t2 /\ unescape b encodeHost = Ret t1 /\ unescape z encodeZone = Ret t2
    | None => unescape (esc encodeHost h) encodeHost = Ret h
    end).
  { assert (Ha : head a = Some x5b).
    { apply HasPrefix1 in Hp. rewrite Er in Hp. by destruct a. }
    destruct (index25 a) as [[b z]|] eqn:Ez.
    - apply index25_Some in Ez as (-> & Hn & r & ->). destruct (unescape b encodeHost) as [t1| |] eqn:E1; [|done..].
      destruct (unescape (lit "%25" ++ r) encodeZone) as [t2| |] eqn:E2; [|done..]. rewrite !bind_ret in E.
      destruct (unescape (x5d :: cp) encodeHost) as [t3| |] eqn:E3; [|done..]. rewrite bind_ret in E. injection E as <-.
      apply unescape_toks in E1, E2, E3. destruct (host_split _ _ [] x5d cp E3 eq_refl) as (t & Tn & -> & E3e); [by right|done|].
      inversion Tn; subst t. cbn [app] in *. exists (t1 ++ t2). rewrite app_assoc. split; [done|].
      assert (Hb : b <> []) by (intros ->; done).
      split. { destruct b as [|x b]; [done|]. cbn in Ha. pose proof (proj2 (head_toks _ _ E1) Ha) as H1. by destruct t1. }
      split. { by rewrite esc_app, E3e. }
      pose proof (no_zone _ _ E1 Hn) as N1. rewrite esc_app, index25_esc by done.
      assert (Ht2 : exists t2', t2 = x25 :: t2') by (inversion E2; subst; [by eexists|done]).
      destruct Ht2 as [t2' Ht2]. assert (Hz : index25 (esc encodeHost t2) = Some ([], esc encodeHost t2)) by (by rewrite Ht2). rewrite Hz. cbn.
      assert (Asc : Forall (fun c => b2z c < 128) t2).
      { assert (F2 : Forall (fun c => b2z c < 128) (t1 ++ t2 ++ x5d :: cp)) by (apply A; rewrite Ht2; set_solver).
        by apply Forall_app in F2 as [_ [F2 _]%Forall_app]. }
      exists t1, t2. rewrite app_nil_r. split_and!; [done..| |].
      + apply unescape_toks, toks_esc_ok. by apply host_bytes in E1 as [? _].
      + apply unescape_toks. rewrite <- esc_zone. apply toks_esc_ok. by eapply zone_bytes.
    - apply unescape_toks in E. destruct (host_split _ _ a x5d cp E Er) as (t & Ta & -> & Eh); [by right|done|].
      exists t. split; [done|]. split; [by apply (head_toks _ _ Ta)|]. split; [done|].
      pose proof (no_zone _ _ Ta Ez) as N1. pose proof (index25_esc t [] N1) as X. rewrite app_nil_r in X. rewrite X. cbn.
      apply unescape_toks, toks_esc_ok. by apply host_bytes in E as [? _]. }
  destruct Main as (t & -> & Hh & Eh & M). unfold parseHost.
  assert (HasPrefix (esc encodeHost (t ++ x5d :: cp)) (lit "[") = true) as ->.
  { apply HasPrefix1. rewrite Eh. destruct t as [|c t]; [done|]. cbn in Hh. injection Hh as ->. done. }
  rewrite Eh, rcut_app, V by done. cbn [negb]. destruct (index25 (esc encodeHost t)) as [[b z]|].
  - destruct M as (t1 & t2 & -> & -> & -> & U1 & U2). rewrite U1, U2, !bind_ret.
    destruct (port_ok x5d cp eq_refl ltac:(done) F) as (_ & T3 & _).
    apply unescape_toks in T3. rewrite T3. cbn. by rewrite <- app_assoc.
  - by rewrite <- Eh.
Qed.

Lemma parseHost_back raw h : parseHost raw = Ret h -> (x25 ∈ h -> Forall (fun c => b2z c < 128) h) -> parseHost (esc encodeHost h) = Ret h.
Proof.
  intros E A. destruct (HasPrefix raw (lit "[")) eqn:P; [by eapply parseHost_bracket|by eapply parseHost_plain].
Qed.

Lemma parseHost_nil raw : parseHost raw = Ret [] -> raw = [].
Proof.
  unfold parseHost. destruct (HasPrefix raw (lit "[")) eqn:P.
  - destruct (rcut x5d raw) as [[a cp]|]; [|done]. destruct (negb _); [done|]. apply HasPrefix_spec in P as [r ->].
    destruct (index25 a) as [[b z]|] eqn:Ez; [|by intros T%unescape_toks; inversion T].
    destruct (unescape b encodeHost); [|done..]. destruct (unescape z encodeZone); [|done..]. rewrite !bind_ret.
    destruct (unescape (x5d :: cp) encodeHost) as [t3| |] eqn:E3; [|done..]. rewrite bind_ret. intros [= E].
    apply app_eq_nil in E as [_ [_ ->]%app_eq_nil]. apply unescape_toks in E3. inversion E3.
  - intros E. assert (T : toks encodeHost raw []).
    { apply unescape_toks. destruct (rcut x3a raw) as [[? p]|]; [|done]. by destruct (negb _). }
    by inversion T.
Qed.

(** * Authorities *)

Definition user_wf (us : option Userinfo) : Prop := forall ui, us = Some ui -> passwordSet ui = false -> password ui = [].
Definition user_text_of (ui : Userinfo) : list byte :=
  esc encodeUserPassword (username ui) ++ (if passwordSet ui then [x3a] ++ esc encodeUserPassword (password ui) else []).
Definition auth_text (us : option Userinfo) (h : list byte) : list byte :=
  match us with Some ui => user_text_of ui ++ [x40] | None => [] end ++ esc encodeHost h.

Lemma Userinfo_String_ok ui : Userinfo_String ui = Ret (user_text_of ui).
Proof.
  unfold Userinfo_String, user_text_of. rewrite !escape_ok.
  destruct (passwordSet ui); [done|]. by rewrite app_nil_r.
Qed.

Lemma user_text_chars s : Forall (fun c => outside (lit "@/?#:") c /\
  (between x41 c x5a || between x61 c x7a || between x30 c x39 || one_of c (lit "-._:~!$&'()*+,;=%@")) = true) (esc encodeUserPassword s).
Proof. eapply Forall_impl; [apply esc_chars|]. intros c. apply user_text. Qed.

Lemma user_text_of_chars ui : validUserinfo (user_text_of ui) = true /\ Forall (outside (lit "@/?#")) (user_text_of ui).
Proof.
  assert (A : forall s, forallb (fun r => between x41 r x5a || between x61 r x7a || between x30 r x39 || one_of r (lit "-._:~!$&'()*+,;=%@")) (esc encodeUserPassword s) = true /\
    Forall (outside (lit "@/?#")) (esc encodeUserPassword s)).
  { intros s. pose proof (user_text_chars s) as F. split.
    - apply forallb_forall. intros c Hc%list_elem_of_In. by eapply Forall_forall in Hc; [|exact F]; apply Hc.
    - eapply Forall_impl; [exact F|]. intros c [[H1 H2] _]. split; [done|]. intros Hc. apply H2. revert Hc. cbn. set_solver. }
  unfold user_text_of, validUserinfo. rewrite forallb_app. destruct (A (username ui)) as [-> F1]. destruct (A (password ui)) as [F2 F3].
  destruct (passwordSet ui); cbn [andb app forallb].
  - rewrite F2. split; [done|]. apply Forall_app. split; [done|]. constructor; [|done]. split; [done|]. apply (bool_decide_unpack _). vm_compute. exact I.
  - by rewrite app_nil_r.
Qed.

Lemma not_in_outside c s t : Forall (outside s) t -> c ∈ s -> c ∉ t.
Proof. intros F H. eapply Forall_not_in; [exact F|]. by intros [_ ?]. Qed.

Lemma unescape_esc_user s : unescape (esc encodeUserPassword s) encodeUserPassword = Ret s.
Proof. apply unescape_toks, toks_esc_ok, Forall_true. done. Qed.

Lemma parseUserinfo_back ui : (passwordSet ui = false -> password ui = []) -> parseUserinfo (user_text_of ui) = Ret ui.
Proof.
  intros Hp. unfold parseUserinfo. rewrite (proj1 (user_text_of_chars ui)). cbn [negb].
  assert (N : forall s, x3a ∉ esc encodeUserPassword s).
  { intros s. eapply Forall_not_in; [apply user_text_chars|]. intros [[_ H] _]. apply H. apply (bool_decide_unpack _). vm_compute. exact I. }
  unfold user_text_of. destruct ui as [n p ps]. cbn [username password passwordSet] in *. destruct ps.
  - cbn [app]. rewrite cut_app by done. by rewrite !unescape_esc_user.
  - rewrite Hp by done. rewrite app_nil_r. rewrite (proj2 (cut_None _ _) (N n)). by rewrite unescape_esc_user.
Qed.

Lemma auth_text_chars us h : Forall (outside (lit "/?#")) (auth_text us h).
Proof.
  assert (W : forall t, Forall (outside (lit "@/?#")) t -> Forall (outside (lit "/?#")) t).
  { intros t F. eapply Forall_impl; [exact F|]. intros c [H1 H2]. split; [done|]. intros Hc. apply H2. revert Hc. cbn. set_solver. }
  unfold auth_text. apply Forall_app. split.
  - destruct us as [ui|]; [|constructor]. apply Forall_app. split; [apply W, user_text_of_chars|]. constructor; [|done]. split; [done|].
    apply (bool_decide_unpack _). vm_compute. exact I.
  - apply W. eapply Forall_impl; [apply esc_chars|]. intros c. apply host_text.
Qed.

Lemma parseAuthority_back us h : user_wf us -> parseHost (esc encodeHost h) = Ret h -> parseAuthority (auth_text us h) = Ret (us, h).
Proof.
  intros Hu Hh. unfold parseAuthority, auth_text.
  assert (N : x40 ∉ esc encodeHost h).
  { eapply not_in_outside; [eapply Forall_impl; [apply esc_chars|]; intros c; apply host_text|]. apply (bool_decide_unpack _). vm_compute. exact I. }
  destruct us as [ui|].
  - rewrite <- app_assoc. cbn [app]. rewrite rcut_app by done. rewrite Hh, bind_ret, parseUserinfo_back; [done|]. by apply Hu.
  - cbn [app]. rewrite (proj2 (rcut_None _ _) N). by rewrite Hh.
Qed.

Lemma parseAuthority_inv A us h : parseAuthority A = Ret (us, h) -> user_wf us /\ (exists raw, parseHost raw = Ret h) /\
  (us = None -> h = [] -> A = []).
Proof.
  unfold parseAuthority. destruct (rcut x40 A) as [[ui hr]|].
  - destruct (parseHost hr) as [h'| |] eqn:Eh; [|done..]. rewrite bind_ret. destruct (parseUserinfo ui) as [u| |] eqn:Eu; [|done..].
    intros [= <- <-]. split_and!; [|by eexists|done]. intros ui' [= <-] Hs. unfold parseUserinfo in Eu. destruct (negb _); [done|].
    destruct (cut x3a ui) as [[n p]|].
    + destruct (unescape n _); [|done..]. destruct (unescape p _); [|done..]. by injection Eu as <-.
    + destruct (unescape ui _); [|done..]. by injection Eu as <-.
  - destruct (parseHost A) as [h'| |] eqn:Eh; [|done..]. intros [= <- <-]. split_and!; [done|by eexists|]. intros _ ->. by apply parseHost_nil.
Qed.

(** * Paths and fragments *)

(** A decoded text and the hint that was stored with it come from [p]. *)
Definition hinted (mode : encoding) (p decoded raw : list byte) : Prop :=
  toks mode p decoded /\ raw = (if decide (p = esc mode decoded) then [] else p).

Lemma setPath_inv p v u : setPath p v = Ret u -> exists d r, u = set_Path d r v /\ hinted encodePath p d r.
Proof.
  unfold setPath. destruct (unescape p encodePath) as [d| |] eqn:E; [|done..]. rewrite bind_ret, escape_ok, bind_ret. intros [= <-].
  exists d. eexists. split; [done|]. split; [by apply unescape_toks|done].
Qed.

Lemma setPath_ok p d r v : hinted encodePath p d r -> setPath p v = Ret (set_Path d r v).
Proof. intros [T ->]. unfold setPath. apply unescape_toks in T. rewrite T, bind_ret, escape_ok, bind_ret. done. Qed.

Lemma setFragment_inv p v u : setFragment p v = Ret u -> exists d r, u = set_Fragment d r v /\ hinted encodeFragment p d r.
Proof.
  unfold setFragment. destruct (unescape p encodeFragment) as [d| |] eqn:E; [|done..]. rewrite bind_ret, escape_ok, bind_ret. intros [= <-].
  exists d. eexists. split; [done|]. split; [by apply unescape_toks|done].
Qed.

Lemma setFragment_ok p d r v : hinted encodeFragment p d r -> setFragment p v = Ret (set_Fragment d r v).
Proof. intros [T ->]. unfold setFragment. apply unescape_toks in T. rewrite T, bind_ret, escape_ok, bind_ret. done. Qed.

(** A valid hint is printed; without a hint the encoding is the text itself. *)
Lemma hint_ok mode p d r : hinted mode p d r -> validEncoded r mode = true ->
  hint r d mode = Ret (if decide (r = []) then None else Some p) /\ (r = [] -> esc mode d = p).
Proof.
  intros [T ->] V. unfold hint. destruct (decide (p = esc mode d)) as [->|N].
  - rewrite bool_decide_true by done. done.
  - assert (Hp : p <> []) by (intros ->; apply N; by inversion T). rewrite bool_decide_false, V, decide_False by done. cbn [negb andb].
    apply unescape_toks in T. rewrite T. by rewrite decide_True.
Qed.

Lemma EscapedPath_ok p u : hinted encodePath p (Path u) (RawPath u) -> validEncoded (RawPath u) encodePath = true -> Path u <> lit "*" ->
  EscapedPath u = Ret p /\ Forall (outside (lit "?#")) p.
Proof.
  intros H V N. destruct (hint_ok _ _ _ _ H V) as [E1 E2]. split.
  - unfold EscapedPath. rewrite E1, bind_ret. destruct (decide (RawPath u = [])) as [Hr|]; [|done].
    rewrite decide_False by done. by rewrite escape_ok, E2.
  - destruct H as [T H]. destruct (decide (p = esc encodePath (Path u))) as [->|].
    + eapply Forall_impl; [apply esc_chars|]. intros c Hc. by apply path_text, esc_path_char.
    + rewrite H in V. apply validEncoded_spec in V. eapply Forall_impl; [exact V|]. intros c. apply path_text.
Qed.

Lemma EscapedFragment_ok p u : hinted encodeFragment p (Fragment u) (RawFragment u) -> validEncoded (RawFragment u) encodeFragment = true ->
  EscapedFragment u = Ret p.
Proof.
  intros H V. destruct (hint_ok _ _ _ _ H V) as [E1 E2]. unfold EscapedFragment. rewrite E1, bind_ret.
  destruct (decide (RawFragment u = [])); [by rewrite escape_ok, E2|done].
Qed.

(** * The hierarchical part *)

Lemma splitAuthority_inv rest A p : splitAuthority rest = (A, p) -> drop 2 rest = A ++ p /\ x2f ∉ A /\ (p = [] \/ head p = Some x2f).
Proof.
  unfold splitAuthority. destruct (cut x2f (drop 2 rest)) as [[a r]|] eqn:E; intros [= <- <-].
  - apply cut_Some in E as [-> N]. auto.
  - apply cut_None in E. rewrite app_nil_r. auto.
Qed.

Lemma splitAuthority_ok A p : x2f ∉ A -> (p = [] \/ head p = Some x2f) -> splitAuthority (lit "//" ++ A ++ p) = (A, p).
Proof.
  intros N Hp. unfold splitAuthority. change (drop 2 (lit "//" ++ A ++ p)) with (A ++ p). destruct p as [|c p].
  - rewrite app_nil_r. by rewrite (proj2 (cut_None _ _) N).
  - destruct Hp as [?|[= ->]]; [done|]. by rewrite cut_app.
Qed.

Definition blank (s q : list byte) (fq : bool) : URL := set_query fq q (set_Scheme s URLZero).

(** The ways the parser reads what is left after scheme and query. *)
Inductive hier (s q : list byte) (fq : bool) (rest : list byte) : URL -> Prop :=
  | hier_opaque : s <> [] -> head rest <> Some x2f -> hier s q fq rest (set_Opaque rest (blank s q fq))
  | hier_auth A p us h d r : rest = lit "//" ++ A ++ p -> x2f ∉ A -> (p = [] \/ head p = Some x2f) -> (s = [] -> A = [] -> p = []) ->
      parseAuthority A = Ret (us, h) -> hinted encodePath p d r -> hier s q fq rest (set_Path d r (set_authority us h (blank s q fq)))
  | hier_omit d r : s <> [] -> head rest = Some x2f -> hinted encodePath rest d r ->
      hier s q fq rest (set_Path d r (set_OmitHost true (blank s q fq)))
  | hier_rel d r : s = [] -> x3a ∉ (Cut x2f rest).1.1 -> hinted encodePath rest d r -> hier s q fq rest (set_Path d r (blank s q fq)).

Lemma parse_hier_inv s q fq rest u : parse_hier false rest (blank s q fq) = Ret u -> hier s q fq rest u.
Proof.
  unfold parse_hier. cbn [Scheme blank set_query set_Scheme]. rewrite andb_false_r. cbn [negb andb].
  destruct (HasPrefix rest (lit "/")) eqn:P1; cbn [negb andb].
  - apply (HasPrefix1 rest x2f) in P1. destruct rest as [|c rest]; [done|]. injection P1 as ->.
    destruct (HasPrefix (x2f :: rest) (lit "//")) eqn:P2.
    + rewrite andb_true_r. destruct (negb (bool_decide (s = [])) || negb (HasPrefix (x2f :: rest) (lit "///"))) eqn:C.
      * destruct (splitAuthority (x2f :: rest)) as [A p] eqn:ES. apply splitAuthority_inv in ES as (Ed & N & Hp).
        destruct (parseAuthority A) as [[us h]| |] eqn:EA; [|done..]. rewrite bind_ret. intros (d & r & -> & H)%setPath_inv.
        apply HasPrefix_spec in P2 as [rr Er]. eapply (hier_auth _ _ _ _ A p); try done.
        -- rewrite Er in Ed |- *. change (drop 2 (lit "//" ++ rr)) with rr in Ed. by rewrite Ed.
        -- intros -> ->. destruct Hp as [|Hp]; [done|]. exfalso. cbn in C. destruct p as [|c p]; [done|]. injection Hp as ->.
           rewrite Er in Ed, C. change (drop 2 (lit "//" ++ rr)) with rr in Ed. rewrite Ed in C. done.
      * apply orb_false_iff in C as [C _]. rewrite C. cbn [negb andb]. intros (d & r & -> & H)%setPath_inv.
        rewrite negb_false_iff, bool_decide_eq_true in C. apply hier_rel; [done|apply not_elem_of_nil|done].
    + rewrite andb_false_r. destruct (bool_decide_reflect (s = [])) as [->|Ns]; cbn [negb andb].
      * intros (d & r & -> & H)%setPath_inv. apply hier_rel; [done|apply not_elem_of_nil|done].
      * intros (d & r & -> & H)%setPath_inv. by apply hier_omit.
  - assert (Hh : head rest <> Some x2f) by (intros X; apply (HasPrefix1 rest x2f) in X; change [x2f] with (lit "/") in X; congruence).
    destruct (bool_decide_reflect (s = [])) as [->|Ns]; cbn [negb andb orb]; [|intros [= <-]; by apply hier_opaque].
    destruct (bool_decide_reflect (x3a ∈ (Cut x2f rest).1.1)); [done|].
    assert (HasPrefix rest (lit "//") = false) as ->.
    { destruct (HasPrefix rest (lit "//")) eqn:X; [|done]. apply HasPrefix_spec in X as [r ->]. by destruct Hh. }
    rewrite !andb_false_r. intros (d & r & -> & H)%setPath_inv. by apply hier_rel.
Qed.

Lemma parse_hier_auth s q fq A p us h d r : x2f ∉ A -> (p = [] \/ head p = Some x2f) -> (s = [] -> A <> []) ->
  parseAuthority A = Ret (us, h) -> hinted encodePath p d r ->
  parse_hier false (lit "//" ++ A ++ p) (blank s q fq) = Ret (set_Path d r (set_authority us h (blank s q fq))).
Proof.
  intros N Hp Hs EA H. unfold parse_hier. cbn [Scheme blank set_query set_Scheme].
  assert (HasPrefix (lit "//" ++ A ++ p) (lit "/") = true) as -> by (apply HasPrefix_spec; by eexists (x2f :: A ++ p)).
  assert (HasPrefix (lit "//" ++ A ++ p) (lit "//") = true) as -> by (apply HasPrefix_spec; by eexists).
  cbn [negb andb]. rewrite andb_true_r.
  assert (negb (bool_decide (s = [])) || negb (HasPrefix (lit "//" ++ A ++ p) (lit "///")) = true) as ->.
  { destruct (bool_decide_reflect (s = [])) as [->|]; [|done]. cbn [negb andb orb]. apply negb_true_iff.
    destruct (HasPrefix _ (lit "///")) eqn:X; [|done]. apply HasPrefix_spec in X as [rr X]. cbn in X. injection X as X.
    destruct A as [|c A]; [by destruct Hs|]. injection X as -> _. set_solver. }
  rewrite splitAuthority_ok by done. rewrite EA, bind_ret. by apply setPath_ok.
Qed.

(** * Printing *)

Definition scheme_text_of (s : list byte) : list byte := if decide (s = []) then [] else s ++ [x3a].
Definition body_text (u : URL) : res (list byte) :=
  if decide (Opaque u = []) then String_body u (scheme_text_of (Scheme u)) else Ret (scheme_text_of (Scheme u) ++ Opaque u).

(** What the round trip needs to know of a parsed URL. *)
Record printable_url (u : URL) : Prop := {
  pu_path : validEncoded (RawPath u) encodePath = true;
  pu_star : Path u <> lit "*";
  pu_host : x25 ∈ Host u -> Forall (fun c => b2z c < 128) (Host u) }.

Lemma first_segment rest : x3a ∉ (Cut x2f rest).1.1 -> exists seg r, rest = seg ++ r /\ x3a ∉ seg /\ (r = [] \/ head r = Some x2f).
Proof.
  unfold Cut. destruct (cut x2f rest) as [[a b]|] eqn:E; cbn; intros N.
  - apply cut_Some in E as [-> _]. exists a, (x2f :: b). auto.
  - exists rest, []. rewrite app_nil_r. auto.
Qed.

(** Without an authority the path follows the scheme. *)
Lemma body_plain u p : Opaque u = [] -> User u = None -> Host u = [] -> (OmitHost u = true \/ Scheme u = [] \/ Path u = []) ->
  EscapedPath u = Ret p -> (Scheme u = [] -> x3a ∉ (Cut x2f p).1.1) -> body_text u = Ret (scheme_text_of (Scheme u) ++ p).
Proof.
  intros Ho Hu Hh C E Hc. unfold body_text. rewrite decide_True by done. unfold String_body.
  assert (String_authority u = Ret []) as ->.
  { unfold String_authority. rewrite Hu, Hh. change (bool_decide (@nil byte = [])) with true. change (bool_decide (@None Userinfo = None)) with true. destruct C as [-> | [-> | ->]]; [|done|].
    - by destruct (bool_decide (Scheme u = [])).
    - destruct (bool_decide (Scheme u = [])); [done|]. by destruct (OmitHost u). }
  rewrite bind_ret, E, bind_ret, Hh, app_nil_r. rewrite (bool_decide_true ([] = [])) by done. rewrite andb_false_r. unfold scheme_text_of.
  destruct (decide (Scheme u = [])) as [Hs|Hs].
  - rewrite (bool_decide_false (x3a ∈ _)) by auto. by rewrite andb_false_r.
  - rewrite (bool_decide_false (_ ++ _ = [])); [done|]. by destruct (Scheme u).
Qed.

Lemma body_auth u p : Opaque u = [] -> OmitHost u = false -> (Host u <> [] \/ User u <> None \/ (Scheme u <> [] /\ Path u <> [])) ->
  EscapedPath u = Ret p -> (p = [] \/ head p = Some x2f) ->
  body_text u = Ret (scheme_text_of (Scheme u) ++ lit "//" ++ auth_text (User u) (Host u) ++ p).
Proof.
  intros Ho Hm C E Hp. unfold body_text. rewrite decide_True by done. unfold String_body.
  assert (String_authority u = Ret (lit "//" ++ auth_text (User u) (Host u))) as ->.
  { unfold String_authority. rewrite Hm. cbn [andb].
    replace (bool_decide (Scheme u = []) && bool_decide (Host u = []) && bool_decide (User u = None)) with false.
    2:{ symmetry. rewrite !andb_false_iff, !bool_decide_eq_false. tauto. }
    replace (negb (bool_decide (Host u = [])) || negb (bool_decide (Path u = [])) || negb (bool_decide (User u = None))) with true.
    2:{ symmetry. rewrite !orb_true_iff, !negb_true_iff, !bool_decide_eq_false. tauto. }
    rewrite escape_ok. unfold auth_text. destruct (User u) as [ui|]; [by rewrite Userinfo_String_ok|done]. }
  rewrite bind_ret, E, bind_ret.
  assert (negb (bool_decide (p = [])) && negb (HasPrefix p (lit "/")) = false) as ->.
  { destruct Hp as [->|Hp]; [done|]. apply (HasPrefix1 p x2f) in Hp. change [x2f] with (lit "/") in Hp. rewrite Hp. by rewrite andb_false_r. }
  cbn [andb]. rewrite bool_decide_false by (unfold scheme_text_of; case_decide; [done|]; by destruct (Scheme u)). cbn [andb].
  by rewrite <- !app_assoc.
Qed.

Lemma outside_app s a b : Forall (outside s) (a ++ b) <-> Forall (outside s) a /\ Forall (outside s) b.
Proof. apply Forall_app. Qed.

Lemma auth_text_nil us h : auth_text us h = [] -> us = None /\ h = [].
Proof.
  unfold auth_text. intros [E1 E2]%app_eq_nil. destruct us as [ui|]; [by apply app_eq_nil in E1 as [_ ?]|]. split; [done|].
  destruct h as [|c h]; [done|]. unfold esc in E2. rewrite bind_cons in E2. apply app_eq_nil in E2 as [E2 _].
  by destruct (esc1_cases encodeHost c) as [(_ & ? & _)|[(_ & _ & E)|(_ & E & _)]]; rewrite ?E in E2.
Qed.

(** The text of the part between scheme and query, and that it is read back. *)
Lemma hier_print s q fq rest u : parse_hier false rest (blank s q fq) = Ret u -> Forall (outside (lit "?#")) rest -> printable_url u ->
  exists t, body_text u = Ret (scheme_text_of s ++ t) /\ parse_hier false t (blank s q fq) = Ret u /\ Forall (outside (lit "?#")) t /\
    (s = [] -> t <> lit "*" /\ exists seg r, t = seg ++ r /\ x3a ∉ seg /\ (r = [] \/ head r = Some x2f)).
Proof.
  intros PH Ho [V Hst Ha]. destruct (parse_hier_inv _ _ _ _ _ PH) as [Ns Hh|A p us h d r Er N Hp Hnil EA H|d r Ns Hh H|d r Es Hc H].
  - exists rest. split_and!; try done. destruct rest as [|c rest]; [by rewrite (body_plain _ []); auto; rewrite app_nil_r|].
    unfold body_text. by rewrite decide_False.
  - subst rest. destruct (parseAuthority_inv _ _ _ EA) as (Wu & [raw Eh] & Hz).
    destruct (EscapedPath_ok p (set_Path d r (set_authority us h (blank s q fq))) H V Hst) as [EP Fp].
    destruct (decide (us = None /\ h = [] /\ (s = [] \/ d = []))) as [(-> & -> & Hd)|Hne].
    + (* everything is empty *)
      assert (A = []) as -> by auto. assert (p = []) as ->.
      { destruct Hd as [-> | ->]; [by apply Hnil|]. destruct H as [T _]. by inversion T. }
      destruct H as [T Hr]. inversion T; subst d. rewrite decide_True in Hr by done. subst r.
      exists []. rewrite (body_plain _ []); auto; [|intros _; apply not_elem_of_nil]. split_and!; [done| |done|].
      * unfold parse_hier. cbn [Scheme blank set_query set_Scheme]. by destruct (bool_decide (s = [])).
      * intros _. split; [done|]. exists [], []. split_and!; [done|set_solver|by left].
    + exists (lit "//" ++ auth_text us h ++ p). split_and!.
      * apply (body_auth (set_Path d r (set_authority us h (blank s q fq)))); auto. cbn. destruct us as [ui|]; [by right; left|]. destruct h; [|by left].
        right; right. split; intros ->; apply Hne; auto.
      * apply parse_hier_auth; try done.
        -- eapply not_in_outside; [apply auth_text_chars|]. apply (bool_decide_unpack _). vm_compute. exact I.
        -- intros -> E. apply auth_text_nil in E as [-> ->]. apply Hne. auto.
        -- apply parseAuthority_back; [done|]. by eapply parseHost_back.
      * constructor; [by apply path_text|]. constructor; [by apply path_text|]. apply outside_app. split; [|done].
        eapply Forall_impl; [apply auth_text_chars|]. intros c [H1 H2]. split; [done|]. intros Hc. apply H2. revert Hc. cbn. set_solver.
      * intros _. split; [done|]. exists [], (lit "//" ++ auth_text us h ++ p). split_and!; [done|set_solver|by right].
  - exists rest. destruct (EscapedPath_ok rest (set_Path d r (set_OmitHost true (blank s q fq))) H V Hst) as [EP Fp].
    rewrite (body_plain _ rest); auto; by split_and!.
  - subst s. exists rest. destruct (EscapedPath_ok rest (set_Path d r (blank [] q fq)) H V Hst) as [EP Fp].
    rewrite (body_plain _ rest); auto. split_and!; [done..|]. intros _. split; [|by apply first_segment].
    intros ->. destruct H as [T _]. apply Hst. cbn. inversion T as [| |c s' t' _ _ T']; subst. by inversion T'.
Qed.

(** The text before the fragment. *)
Lemma url_print u : Fragment u = [] -> URL_String u = (b ← body_text u; Ret (b ++ query_text (ForceQuery u) (RawQuery u))).
Proof.
  intros Hf. unfold URL_String, body_text, query_text, scheme_text_of. cbv zeta.
  destruct (if decide (Opaque u = []) then _ else _) as [b| |]; [|done..]. rewrite !bind_ret, decide_True by done. destruct (_ || _); [done|by rewrite app_nil_r].
Qed.

Lemma parse_hier_fields s q fq rest u : hier s q fq rest u ->
  Scheme u = s /\ RawQuery u = q /\ ForceQuery u = fq /\ Fragment u = [] /\ RawFragment u = [].
Proof. by destruct 1. Qed.

Lemma outside_printable s t : Forall (outside s) t -> Forall (fun c => printable c = true) t.
Proof. intros F. eapply Forall_impl; [exact F|]. by intros c []. Qed.

Lemma scheme_text_chars s : s = [] \/ valid_scheme s -> Forall (fun c => printable c = true /\ c <> x23) (scheme_text_of s).
Proof.
  intros Vs. unfold scheme_text_of. case_decide; [constructor|]. destruct Vs as [|V]; [done|]. apply Forall_app. split; [|by constructor].
  eapply Forall_impl; [by apply valid_scheme_chars|]. intros c Hc. apply scheme_text in Hc as [[H1 H2] _]. split; [done|]. intros ->. apply H2.
  apply (bool_decide_unpack _). vm_compute. exact I.
Qed.

(** The scheme is found again, and nothing is taken for one. *)
Lemma getScheme_print s t q fq : s = [] \/ valid_scheme s -> x3f ∉ t ->
  (s = [] -> t <> lit "*" /\ exists seg r, t = seg ++ r /\ x3a ∉ seg /\ (r = [] \/ head r = Some x2f)) ->
  getScheme (scheme_text_of s ++ t ++ query_text fq q) = Ret (s, t ++ query_text fq q) /\
  scheme_text_of s ++ t ++ query_text fq q <> lit "*".
Proof.
  intros Vs Nt2 Hs. unfold scheme_text_of. destruct (decide (s = [])) as [Es|Ns].
  - destruct (Hs Es) as (N1 & seg & r & -> & Hseg & Hr). rewrite Es. cbn [app]. split.
    + unfold getScheme. rewrite <- app_assoc. apply getScheme_loop_none; [done|]. destruct Hr as [->|Hr].
      * cbn [app]. unfold query_text. destruct (_ || _); [right; exists x3f, q; split; [done|]; apply (bool_decide_unpack _); vm_compute; exact I|by left].
      * right. destruct r as [|c r]; [done|]. injection Hr as ->. exists x2f, (r ++ query_text fq q). split; [done|]. apply (bool_decide_unpack _). vm_compute. exact I.
    + unfold query_text. destruct (_ || _); [|by rewrite app_nil_r]. intros X. apply (f_equal (fun l => x3f ∈ l)) in X.
      assert (x3f ∈ lit "*") as Y by (rewrite <- X; set_solver). revert Y. apply (bool_decide_unpack _). vm_compute. exact I.
  - destruct Vs as [|V]; [done|]. rewrite <- app_assoc. cbn [app]. split; [by apply getScheme_ok|].
    destruct s as [|c s']; [done|]. intros X. apply (f_equal length) in X. cbn in X. rewrite length_app in X. cbn in X. lia.
Qed.

Lemma parse_print raw u : x23 ∉ raw -> parse raw false = Ret u -> printable_url u ->
  Fragment u = [] /\ RawFragment u = [] /\ exists t, URL_String u = Ret t /\ x23 ∉ t /\ parse t false = Ret u.
Proof.
  intros Nf E Pu. unfold parse in E. destruct (stringContainsCTLByte raw) eqn:Ec; [done|]. rewrite andb_false_r in E.
  destruct (decide (raw = lit "*")) as [->|Nstar]; [injection E as <-; by destruct (pu_star _ Pu)|].
  destruct (getScheme raw) as [[sch rest]| |] eqn:Eg; [|done..]. rewrite bind_ret in E.
  destruct (splitQuery rest) as [rest1 [fq q]] eqn:Eq. fold (blank (ToLower sch) q fq) in E. set (s := ToLower sch) in *.
  apply CTL_false in Ec. apply splitQuery_inv in Eq as (Nq & Hfq & ->).
  assert (Hraw : exists pre, raw = pre ++ rest1 ++ query_text fq q) by (destruct (getScheme_inv _ _ _ Eg) as [[_ <-]|[_ ->]]; [by exists []|exists (sch ++ [x3a]); by rewrite <- app_assoc]).
  destruct Hraw as [pre Hraw]. rewrite Hraw in Ec, Nf. apply Forall_app in Ec as [_ [Ec1 Ec2]%Forall_app].
  assert (Fr : Forall (outside (lit "?#")) rest1).
  { apply Forall_forall. intros c Hc. split; [by eapply Forall_forall in Hc; [|exact Ec1]|]. intros X.
    assert (c = x3f \/ c = x23) as [-> | ->] by (revert X; cbn; set_solver); [done|]. apply Nf. set_solver. }
  destruct (parse_hier_fields _ _ _ _ _ (parse_hier_inv _ _ _ _ _ E)) as (F1 & F2 & F3 & F4 & F5).
  destruct (hier_print _ _ _ _ _ E Fr Pu) as (t & Hb & Hp & Ft & Hs).
  split; [done|]. split; [done|]. exists (scheme_text_of s ++ t ++ query_text fq q).
  split; [rewrite url_print, Hb, F2, F3 by done; by rewrite bind_ret, <- app_assoc|].
  assert (Vs : s = [] \/ (valid_scheme s /\ ToLower s = s)).
  { destruct (getScheme_inv _ _ _ Eg) as [[-> _]|[V _]]; [by left|right]. by apply valid_scheme_lower. }
  pose proof (scheme_text_chars s ltac:(naive_solver)) as Cs.
  assert (Nt : x23 ∉ t) by (eapply not_in_outside; [exact Ft|]; apply (bool_decide_unpack _); vm_compute; exact I).
  assert (Nt2 : x3f ∉ t) by (eapply not_in_outside; [exact Ft|]; apply (bool_decide_unpack _); vm_compute; exact I).
  split.
  { apply not_elem_of_app. split; [eapply Forall_not_in; [exact Cs|]; by intros [_ ?]|]. apply not_elem_of_app. split; [done|]. set_solver. }
  unfold parse.
  assert (stringContainsCTLByte (scheme_text_of s ++ t ++ query_text fq q) = false) as ->.
  { apply CTL_false. apply Forall_app. split; [eapply Forall_impl; [exact Cs|]; by intros c []|]. apply Forall_app.
    split; [by eapply outside_printable|done]. }
  rewrite andb_false_r.
  destruct (getScheme_print s t q fq) as [-> Gn]; [naive_solver|done..|].
  rewrite decide_False by done. rewrite bind_ret, splitQuery_ok by done.
  assert (ToLower s = s) as -> by (destruct Vs as [-> | [_ ->]]; done). exact Hp.
Qed.

(** C29: a URL that was parsed is printed as a text that parses to the same URL, for every text
    the parser accepts: absolute, opaque and relative URLs, with user information, hosts
    with IPv6 zones and port-hopping ports, queries and fragments.  The conditions say
    where the text kept as a hint is printed at all (it needs no escaping itself), exclude
    the path [*], which is printed unescaped, and non-ASCII zones of IPv6 addresses. *)
Theorem url_print_parse raw u : Parse raw = Ret u ->
  validEncoded (RawPath u) encodePath = true -> validEncoded (RawFragment u) encodeFragment = true -> Path u <> lit "*" ->
  (x25 ∈ Host u -> Forall (fun c => b2z c < 128) (Host u)) ->
  (s ← URL_String u; Parse s) = Ret u.
Proof.
  intros E Vp Vf Hst Ha. unfold Parse in E. destruct (Cut x23 raw) as [[r f] found] eqn:Ec.
  assert (Nr : x23 ∉ r).
  { unfold Cut in Ec. destruct (cut x23 raw) as [[a b]|] eqn:E2; injection Ec as <- <- <-; [by apply cut_Some in E2 as [_ ?]|by apply cut_None]. }
  destruct (parse r false) as [v| |] eqn:Ep; [|done..]. cbn [wrap] in E. rewrite bind_ret in E.
  assert (Pr : forall u', printable_url u' -> parse r false = Ret u' -> Fragment u' = [] /\ RawFragment u' = [] /\
    exists t, URL_String u' = Ret t /\ x23 ∉ t /\ parse t false = Ret u') by (intros u' ? ?; by eapply parse_print).
  destruct (decide (f = [])) as [Hf|Hf].
  - injection E as <-. destruct (Pr v) as (_ & _ & t & -> & Nt & Et); [done..|]. rewrite bind_ret. unfold Parse, Cut.
    rewrite (proj2 (cut_None _ _) Nt). by rewrite Et.
  - destruct (setFragment f v) as [w| |] eqn:Es; [|done..]. injection E as <-.
    destruct (setFragment_inv _ _ _ Es) as (d & rf & -> & H).
    destruct (Pr v) as (F1 & F2 & t & Et & Nt & Ept); [done..|].
    assert (Hd : d <> []) by (intros ->; destruct H as [T _]; by inversion T; subst).
    assert (EF : EscapedFragment (set_Fragment d rf v) = Ret f) by (by apply EscapedFragment_ok).
    assert (URL_String (set_Fragment d rf v) = Ret (t ++ [x23] ++ f)) as ->.
    { rewrite url_print in Et by done. unfold body_text, query_text, scheme_text_of in Et. unfold URL_String. cbv zeta.
      change (String_body (set_Fragment d rf v)) with (String_body v). cbn [Scheme Opaque ForceQuery RawQuery Fragment set_Fragment].
      destruct (if decide (Opaque v = []) then _ else _) as [b| |]; [|done..]. rewrite !bind_ret in *. rewrite decide_False, EF, bind_ret by done.
      injection Et as <-. destruct (_ || _); by rewrite ?app_nil_r, <- ?app_assoc. }
    rewrite bind_ret. unfold Parse, Cut. cbn [app]. rewrite cut_app by done. rewrite Ept. cbn [wrap]. rewrite bind_ret, decide_False by done. by rewrite Es.
Qed.

Definition demo_url : list byte := lit "HTTP://us:p%40w@[fe80::1%25en0]:80,90-99/a%2Fb?x=1#f%20g".
Lemma url_print_parse_witness : exists u, Parse demo_url = Ret u /\ Port u = lit "80,90-99" /\ (s ← URL_String u; Parse s) = Ret u.
Proof.
  eexists. split; [vm_compute; reflexivity|]. split; [vm_compute; reflexivity|].
  apply (url_print_parse demo_url); [vm_compute; reflexivity..|done|].
  intros _. repeat constructor; done.
Defined.

(** Two texts that are not read back.  A path whose hint is not a valid encoding is
    printed re-encoded: an escaped slash at its start becomes a bare one, and what was a
    path is parsed as a host.  A zone that holds a raw non-ASCII byte is printed with
    an escape that the parser rejects. *)
Theorem url_print_gaps :
  (exists u v, Parse (lit "/%2Fevil.com/a b") = Ret u /\ Host u = [] /\
     URL_String u = Ret (lit "//evil.com/a%20b") /\ Parse (lit "//evil.com/a%20b") = Ret v /\ Host v = lit "evil.com") /\
  (exists u s, Parse (lit "//[fe80::1%25" ++ [xc3] ++ lit "]/") = Ret u /\ URL_String u = Ret s /\ Parse s = Fail (Wrap "parse" EscapeError)).
Proof.
  split.
  - eexists _, _. split; [vm_compute; reflexivity|]. split; [vm_compute; reflexivity|]. split; [vm_compute; reflexivity|].
    split; [vm_compute; reflexivity|]. vm_compute; reflexivity.
  - eexists _, _. split; [vm_compute; reflexivity|]. split; [vm_compute; reflexivity|]. vm_compute; reflexivity.
Qed.
