(* ===== verification/UrlQuery.v ===== *)
(** common/url, query values and reference paths: encoding a query and parsing
    it gives the values back; resolved paths are what the segment-wise
    definition says and contain no dot segments. *)

From stdpp Require Import sorting.
From S2P Require Import Prelude GoStrings UrlEscape Url UrlRound.

(** * Query values *)

Definition escq (s : list byte) : list byte := esc encodeQueryComponent s.
(** The settings of a query in order. *)
Definition item_text (kv : list byte * list byte) : list byte := escq kv.1 ++ [x3d] ++ escq kv.2.
Fixpoint query_items (its : list (list byte * list byte)) : list byte :=
  match its with [] => [] | [kv] => item_text kv | kv :: its => item_text kv ++ [x26] ++ query_items its end.
Definition items_of (v : Values) (keys : list (list byte)) : list (list byte * list byte) :=
  keys ≫= fun k => pair k <$> default [] (v !! k).
Definition add_all (its : list (list byte * list byte)) (m : Values) : Values := foldl (fun m kv => Values_Add m kv.1 kv.2) m its.

Lemma escq_text c : esc_char encodeQueryComponent c = true -> c ∉ lit "&=;".
Proof. by_byte c. Qed.
Lemma escq_notin c s : c ∈ lit "&=;" -> c ∉ escq s.
Proof. intros H. eapply Forall_not_in; [apply esc_chars|]. intros X. by apply escq_text in X. Qed.
Lemma sep_in : x26 ∈ lit "&=;" /\ x3d ∈ lit "&=;" /\ x3b ∈ lit "&=;".
Proof. split_and!; apply (bool_decide_unpack _); vm_compute; exact I. Qed.

Lemma unescape_escq s : QueryUnescape (escq s) = Ret s.
Proof. apply unescape_toks, toks_esc_ok, Forall_true. done. Qed.

Lemma item_notin c kv : c = x26 \/ c = x3b -> c ∉ item_text kv.
Proof.
  intros H. destruct sep_in as (S1 & S2 & S3). unfold item_text.
  destruct H as [-> | ->]; rewrite !not_elem_of_app, list_elem_of_singleton; split_and!; try done; by apply escq_notin.
Qed.

Lemma parse_item kv m err : parseQuery_item (item_text kv) m err = Ret (Values_Add m kv.1 kv.2, err).
Proof.
  unfold parseQuery_item. rewrite decide_False by (apply item_notin; by right). rewrite decide_False by (unfold item_text; by destruct (escq kv.1)).
  unfold Cut, item_text. cbn [app]. rewrite cut_app by (apply escq_notin, sep_in). by rewrite !unescape_escq.
Qed.

Lemma parse_items its : forall fuel m err, (length (query_items its) <= fuel)%nat ->
  parseQuery fuel m (query_items its) err = Ret (add_all its m, err).
Proof.
  induction its as [|kv its IH]; intros fuel m err L; [by destruct fuel|].
  assert (Hn : item_text kv <> []) by (unfold item_text; by destruct (escq kv.1)).
  assert (Len : (1 <= length (item_text kv))%nat) by (destruct (item_text kv); [done|cbn; lia]).
  assert (N : x26 ∉ item_text kv) by (apply item_notin; by left). destruct its as [|kv2 its].
  - cbn [query_items] in *. destruct fuel as [|fuel]; [lia|]. cbn [parseQuery]. rewrite decide_False by done.
    unfold Cut. rewrite (proj2 (cut_None _ _) N), parse_item, bind_ret. by destruct fuel.
  - change (query_items (kv :: kv2 :: its)) with (item_text kv ++ x26 :: query_items (kv2 :: its)) in *.
    rewrite length_app in L. cbn [length] in L. destruct fuel as [|fuel]; [lia|]. cbn [parseQuery]. rewrite decide_False by (by destruct (item_text kv)).
    unfold Cut. rewrite cut_app by done. rewrite parse_item, bind_ret. apply IH. lia.
Qed.

(** The writers append the settings. *)
Definition joined (buf : list byte) (its : list (list byte * list byte)) : list byte :=
  match its with [] => buf | _ => if decide (buf = []) then query_items its else buf ++ [x26] ++ query_items its end.

Lemma query_items_nil its : query_items its = [] -> its = [].
Proof. destruct its as [|kv [|kv2 its]]; [done|..]; cbn [query_items]; unfold item_text; by destruct (escq kv.1). Qed.

Lemma query_items_app a b : query_items (a ++ b) = joined (query_items a) b.
Proof.
  destruct b as [|kv b]; [by rewrite app_nil_r|]. unfold joined. case_decide as E.
  - by apply query_items_nil in E as ->.
  - assert (a <> []) as Ha by (by intros ->). clear E. induction a as [|x a IH]; [done|]. destruct a as [|y a]; [done|].
    change (query_items ((x :: y :: a) ++ kv :: b)) with (item_text x ++ [x26] ++ query_items ((y :: a) ++ kv :: b)).
    rewrite IH by done. change (query_items (x :: y :: a)) with (item_text x ++ [x26] ++ query_items (y :: a)). by rewrite <- !app_assoc.
Qed.

Lemma encode_values_ok k vs : forall its, encode_values (escq k) (query_items its) vs = Ret (query_items (its ++ (pair k <$> vs))).
Proof.
  induction vs as [|v vs IH]; intros its; cbn [encode_values]; [by rewrite app_nil_r|].
  unfold encode_value, QueryEscape. rewrite escape_ok. cbv zeta. rewrite !bind_ret.
  replace ((if decide (query_items its = []) then query_items its else query_items its ++ [x26]) ++ escq k ++ [x3d] ++ esc encodeQueryComponent v)
    with (query_items (its ++ [(k, v)])).
  - rewrite IH. by rewrite <- app_assoc.
  - rewrite query_items_app. unfold joined. case_decide as E; [by rewrite E|]. by rewrite <- app_assoc.
Qed.

Lemma encode_keys_ok v keys : forall its, encode_keys v (query_items its) keys = Ret (query_items (its ++ items_of v keys)).
Proof.
  unfold items_of. induction keys as [|k keys IH]; intros its; cbn [encode_keys]; [by rewrite app_nil_r|].
  unfold QueryEscape. rewrite escape_ok, bind_ret. rewrite encode_values_ok, bind_ret, IH. by rewrite bind_cons, app_assoc.
Qed.

Lemma add_values k vs : forall m, add_all (pair k <$> vs) m = match vs with [] => m | _ => <[k := default [] (m !! k) ++ vs]> m end.
Proof.
  induction vs as [|v vs IH]; intros m; [done|]. unfold add_all in *. cbn [fmap list_fmap foldl]. rewrite IH. unfold Values_Add. cbn [fst snd].
  destruct vs as [|v2 vs]; [done|]. rewrite lookup_insert_eq. rewrite insert_insert_eq. cbn [default from_option id]. by rewrite <- app_assoc.
Qed.

Lemma add_all_app a b m : add_all (a ++ b) m = add_all b (add_all a m).
Proof. apply foldl_app. Qed.

Lemma add_all_lookup v keys j : NoDup keys -> (forall k, k ∈ keys -> exists x xs, v !! k = Some (x :: xs)) ->
  forall m, (forall k, k ∈ keys -> m !! k = None) -> add_all (items_of v keys) m !! j = (if decide (j ∈ keys) then v !! j else m !! j).
Proof.
  unfold items_of. induction 1 as [|k keys Hk _ IH]; intros Hv m Hm; [by rewrite decide_False by set_solver|].
  rewrite bind_cons, add_all_app, add_values. destruct (Hv k) as (x & xs & E); [set_solver|]. rewrite E. cbn [default from_option id].
  rewrite IH.
  - rewrite (Hm k) by set_solver. cbn. destruct (decide (j = k)) as [->|].
    + rewrite decide_False, decide_True by set_solver. by rewrite lookup_insert_eq.
    + rewrite lookup_insert_ne by done. repeat case_decide; set_solver.
  - intros k' Hk'. apply Hv. set_solver.
  - intros k' Hk'. rewrite lookup_insert_ne by (intros ->; done). apply Hm. set_solver.
Qed.

(** C30: query values.  Encoding any map of query values that has no key without values and
    parsing the text gives the same map with no error: every key and value, whatever bytes
    it contains, and the order of the values of a key. *)
Theorem url_query_roundtrip (v : Values) : map_Forall (fun _ vs => vs <> []) v ->
  (s ← Encode v; ParseQuery s) = Ret (v, None).
Proof.
  intros F. unfold Encode. set (keys := merge_sort _ _). change [] with (query_items []) at 1. rewrite encode_keys_ok, bind_ret. cbn [app].
  unfold ParseQuery. rewrite parse_items by done. do 2 f_equal.
  assert (P : keys ≡ₚ (map_to_list v).*1) by apply merge_sort_Permutation.
  assert (D : forall k, k ∈ keys <-> is_Some (v !! k)).
  { intros k. rewrite P. rewrite list_elem_of_fmap. split.
    - intros ([k' x] & -> & H%elem_of_map_to_list). by eexists.
    - intros [x H]. exists (k, x). split; [done|]. by apply elem_of_map_to_list. }
  apply map_eq. intros j. rewrite (add_all_lookup v keys j).
  - case_decide as Hj; [done|]. rewrite lookup_empty. destruct (v !! j) eqn:E; [|done]. exfalso. apply Hj, D. by eexists.
  - rewrite P. apply NoDup_fst_map_to_list.
  - intros k [x E]%D. pose proof (F k x E). destruct x as [|x xs]; [done|]. eauto.
  - intros k _. apply lookup_empty.
Qed.

Definition demo_values : Values := {[ lit "a&b" := [lit "1"; lit "x y"]; lit "" := [lit "=;"] ]}.
Lemma url_query_roundtrip_witness : (s ← Encode demo_values; ParseQuery s) = Ret (demo_values, None).
Proof. apply url_query_roundtrip. intros k vs. unfold demo_values. rewrite lookup_insert_Some. intros [[_ <-]|[_ [_ <-]%lookup_singleton_Some]]; done. Defined.

(** * Reference paths *)

(** The segments left so far: a dot leaves an empty one only at the start, two
    dots take the last one away. *)
Definition dot_step (stack : list (list byte)) (e : list byte) : list (list byte) :=
  if decide (e = lit ".") then match stack with [] => [[]] | _ => stack end
  else if decide (e = lit "..") then take (length stack - 1) stack
  else stack ++ [e].
Fixpoint join (segs : list (list byte)) : list byte :=
  match segs with [] => [] | [a] => a | a :: segs => a ++ x2f :: join segs end.

(** The merged path, and the path without dot segments. *)
Definition merge_paths (base ref : list byte) : list byte :=
  match ref with
  | [] => base
  | c :: _ => if decide (c <> x2f) then match rcut x2f base with Some (a, _) => a ++ [x2f] | None => [] end ++ ref else ref
  end.
Definition remove_dots (full : list byte) : list byte :=
  let segs := Split x2f full in
  let r := x2f :: join (foldl dot_step [] segs) ++ (if decide (last segs = Some (lit ".") \/ last segs = Some (lit "..")) then [x2f] else []) in
  if decide (r !! 1%nat = Some x2f) then drop 1 r else r.

Definition slash_free (segs : list (list byte)) : Prop := Forall (fun e => x2f ∉ e) segs.

Lemma join_snoc segs e : segs <> [] -> join (segs ++ [e]) = join segs ++ x2f :: e.
Proof.
  induction segs as [|a segs IH]; [done|]. intros _. destruct segs as [|b segs]; [done|].
  change (join ((a :: b :: segs) ++ [e])) with (a ++ x2f :: join ((b :: segs) ++ [e])). rewrite IH by done.
  change (join (a :: b :: segs)) with (a ++ x2f :: join (b :: segs)). by rewrite <- app_assoc.
Qed.

Lemma Split_cut sep s : Split sep s = match cut sep s with Some (a, b) => a :: Split sep b | None => [s] end.
Proof.
  induction s as [|c s IH]; [done|]. cbn [Split cut]. case_decide; [done|]. rewrite IH. by destruct (cut sep s) as [[a b]|].
Qed.

Lemma Split_slash_free s : slash_free (Split x2f s).
Proof.
  unfold slash_free. induction s as [s IH] using (induction_ltof1 _ (@length byte)). unfold ltof in IH. rewrite Split_cut.
  destruct (cut x2f s) as [[a b]|] eqn:E; [|constructor; [by apply cut_None|done]].
  pose proof (cut_length _ _ _ _ E). apply cut_Some in E as [-> N]. constructor; [done|]. apply IH. rewrite length_app in *. cbn in *. lia.
Qed.

Lemma dot_step_slash_free stack e : slash_free stack -> x2f ∉ e -> slash_free (dot_step stack e).
Proof.
  intros H N. unfold dot_step. case_decide; [destruct stack; [constructor; [set_solver|done]|done]|].
  case_decide; [by apply Forall_take|]. apply Forall_app. by repeat constructor.
Qed.

Lemma resolve_elem_ok stack e : slash_free stack -> x2f ∉ e ->
  resolve_elem e (x2f :: join stack) (bool_decide (stack = [])) = (x2f :: join (dot_step stack e), bool_decide (dot_step stack e = [])).
Proof.
  intros H N. unfold resolve_elem, dot_step. destruct (decide (e = lit ".")); [by destruct stack|]. destruct (decide (e = lit "..")).
  - change (drop 1 (x2f :: join stack)) with (join stack). destruct stack as [|a l _] using rev_ind; [done|].
    apply Forall_app in H as [H [Ha _]%Forall_cons]. rewrite length_app, Nat.add_sub, take_app_length. destruct l as [|b l].
    + cbn [app join]. by rewrite (proj2 (rcut_None _ _) Ha).
    + rewrite join_snoc, rcut_app by done. done.
  - destruct stack as [|a stack]; [done|]. rewrite join_snoc, !bool_decide_false by done. by rewrite <- app_assoc.
Qed.

Lemma resolve_loop_ok s : forall fuel stack, (length s <= fuel)%nat -> slash_free stack ->
  resolve_loop fuel s (x2f :: join stack) (bool_decide (stack = [])) =
    Ret (default [] (last (Split x2f s)), x2f :: join (foldl dot_step stack (Split x2f s))).
Proof.
  induction s as [s IH] using (induction_ltof1 _ (@length byte)). unfold ltof in IH. intros fuel stack L H.
  rewrite Split_cut. destruct fuel as [|fuel]; cbn [resolve_loop]; unfold Cut; destruct (cut x2f s) as [[a b]|] eqn:E.
  - apply cut_length in E. lia.
  - apply cut_None in E. rewrite resolve_elem_ok by done. done.
  - pose proof (cut_length _ _ _ _ E). apply cut_Some in E as [-> N]. rewrite resolve_elem_ok by done.
    rewrite IH; [|lia|lia|by apply dot_step_slash_free]. do 2 f_equal. rewrite (Split_cut x2f b).
    by destruct (cut x2f b) as [[? ?]|].
  - apply cut_None in E. rewrite resolve_elem_ok by done. done.
Qed.

Lemma resolvePath_eq base ref : resolvePath base ref =
  Ret (if decide (merge_paths base ref = []) then [] else remove_dots (merge_paths base ref)).
Proof.
  unfold resolvePath. fold (merge_paths base ref). set (full := merge_paths base ref). cbv zeta. destruct (decide (full = [])) as [|N]; [done|].
  pose proof (resolve_loop_ok full (length full) [] ltac:(done) ltac:(by constructor)) as EL.
  cbn [join] in EL. rewrite bool_decide_true in EL by done. rewrite EL.
  rewrite bind_ret. unfold remove_dots. cbv zeta. set (segs := Split x2f full). set (st := foldl _ _ _).
  assert (exists e, last segs = Some e) as [e ->].
  { destruct (last segs) eqn:El; [by eexists|]. apply last_None in El. by destruct (Split_nonempty x2f full). }
  cbn [default from_option id].
  replace (if decide (e = lit "." \/ e = lit "..") then (x2f :: join st) ++ [x2f] else x2f :: join st)
    with (x2f :: join st ++ (if decide (Some e = Some (lit ".") \/ Some e = Some (lit "..")) then [x2f] else [])).
  2:{ destruct (decide (e = lit "." \/ e = lit "..")) as [D|D].
      - rewrite decide_True by naive_solver. done.
      - rewrite decide_False by naive_solver. by rewrite app_nil_r. }
  set (r := x2f :: _). f_equal. destruct (decide (r !! 1%nat = Some x2f)) as [D|D].
  - rewrite decide_True; [done|]. split; [by eapply lookup_lt_Some|done].
  - rewrite decide_False by naive_solver. done.
Qed.

(** ** No dot segments are left *)

Definition dots (e : list byte) : Prop := e = lit "." \/ e = lit "..".

Lemma dot_step_clean stack e : Forall (fun e => ~ dots e) stack -> Forall (fun e => ~ dots e) (dot_step stack e).
Proof.
  intros H. unfold dot_step, dots. case_decide; [destruct stack; [constructor; [naive_solver|done]|done]|].
  case_decide; [by apply Forall_take|]. apply Forall_app. split; [done|]. constructor; [|done]. naive_solver.
Qed.

Lemma dot_fold segs : forall stack, Forall (fun e => ~ dots e) stack -> slash_free stack -> slash_free segs ->
  Forall (fun e => ~ dots e) (foldl dot_step stack segs) /\ slash_free (foldl dot_step stack segs).
Proof.
  induction segs as [|e segs IH]; intros stack H1 H2 H3; [done|]. apply Forall_cons in H3 as [He H3]. cbn [foldl].
  apply IH; [by apply dot_step_clean|by apply dot_step_slash_free|done].
Qed.

Lemma Split_app sep a b : sep ∉ a -> Split sep (a ++ sep :: b) = a :: Split sep b.
Proof. intros N. by rewrite Split_cut, cut_app. Qed.

Lemma Split_join_app segs b : slash_free segs -> segs <> [] -> Split x2f (join segs ++ x2f :: b) = segs ++ Split x2f b.
Proof.
  induction 1 as [|a segs Ha F IH]; [done|]. intros _. destruct segs as [|a2 segs]; [by apply Split_app|].
  change (join (a :: a2 :: segs)) with (a ++ x2f :: join (a2 :: segs)). rewrite <- app_assoc. cbn [app]. rewrite Split_app by done. by rewrite IH.
Qed.

Lemma Split_join segs : slash_free segs -> segs <> [] -> Split x2f (join segs) = segs.
Proof.
  induction 1 as [|a segs Ha F IH]; [done|]. intros _. destruct segs as [|a2 segs].
  - cbn [join]. by rewrite Split_cut, (proj2 (cut_None _ _) Ha).
  - change (join (a :: a2 :: segs)) with (a ++ x2f :: join (a2 :: segs)). rewrite Split_app by done. by rewrite IH.
Qed.

(** Resolution of reference paths.  Resolving a reference against a base never panics and
    terminates; the result is the merged path without its dot segments, by the
    segment-wise definition; it is empty or starts with a slash, and no segment of it is
    a dot or two dots, so no resolved path climbs above its root. *)
Theorem url_resolve_path base ref :
  resolvePath base ref = Ret (if decide (merge_paths base ref = []) then [] else remove_dots (merge_paths base ref)) /\
  (forall r, resolvePath base ref = Ret r -> r = [] \/ (head r = Some x2f /\ Forall (fun e => ~ dots e) (Split x2f r))).
Proof.
  split; [apply resolvePath_eq|]. intros r. rewrite resolvePath_eq. set (full := merge_paths base ref). intros [= <-].
  destruct (decide (full = [])); [by left|right]. unfold remove_dots. set (st := foldl _ _ _). set (tl := if decide (_ \/ _) then _ else _).
  assert (Htl : tl = [] \/ tl = [x2f]) by (unfold tl; case_decide; auto).
  destruct (dot_fold (Split x2f full) []) as [C S]; [constructor..|apply Split_slash_free|]. fold st in C, S.
  assert (E : ~ dots []) by (by intros [|]).
  assert (Cl : Forall (fun e => ~ dots e) (Split x2f (join st ++ tl))).
  { destruct (decide (st = [])) as [->|N]; [destruct Htl as [-> | ->]; by repeat constructor|].
    destruct Htl as [-> | ->]; [by rewrite app_nil_r, Split_join|]. rewrite Split_join_app by done. apply Forall_app. by repeat constructor. }
  cbv zeta. case_decide as D.
  - destruct (join st ++ tl) as [|c r] eqn:Er; [done|]. injection D as ->. split; [done|]. exact Cl.
  - split; [done|]. constructor; [done|exact Cl].
Qed.
