(* ===== verification/Vision.v ===== *)
(** The XTLS Vision flow of VLESS (protocol/vless/vision: padding.go, filter.go
    and conn.go): padded frames, the TLS sniffer, and the switch to the raw
    connection below.

    The overlay connection delivers plaintext record by record, as crypto/tls
    does; the record being read is the [input] buffer of the TLS connection that
    the direct mode reaches into, next to [rawInput].  Random padding lengths and
    bytes are arguments.  [Read], [Write] and the sniffer each hold a lock, so a
    call is one step. *)

From S2P Require Import Prelude GoStrings GoState Pool Transport.
From Stdlib Require Import Strings.Byte.

(** * Searching in byte slices *)

Fixpoint bytes_Index (s sub : list byte) : option nat :=
  if HasPrefix s sub then Some 0%nat else match s with [] => None | _ :: s => S <$> bytes_Index s sub end.
Fixpoint bytes_LastIndex (s sub : list byte) : option nat :=
  match s with
  | [] => if HasPrefix s sub then Some 0%nat else None
  | _ :: s' =>
      match bytes_LastIndex s' sub with
      | Some i => Some (S i)
      | None => if HasPrefix s sub then Some 0%nat else None
      end
  end.
Definition bytes_Contains (s sub : list byte) : bool := match bytes_Index s sub with Some _ => true | None => false end.

(** * Frames (padding.go) *)

Definition uuidLen : nat := 16.
Definition PaddingHeaderLen : nat := uuidLen + 1 + 2 + 2.
Definition commandPaddingContinue : byte := x00.
Definition commandPaddingEnd : byte := x01.
Definition commandPaddingDirect : byte := x02.
(** 32768, kept symbolic in proofs. *)
Definition BufferSize : nat := Z.to_nat (32 * 1024).
Lemma BufferSize_eq : Z.of_nat BufferSize = 32768.
Proof. done. Qed.
#[global] Opaque BufferSize.

Definition tlsApplicationDataStart : list byte := [x17; x03; x03].
Definition tlsServerHandshakeStart : list byte := [x16; x03; x03].
Definition tlsClientHandshakeStart : list byte := [x16; x03].
Definition tls13SupportedVersions : list byte := [x00; x2b; x00; x02; x03; x04].
Definition tlsHandshakeTypeClientHello : byte := x01.
Definition tlsHandshakeTypeServerHello : byte := x02.

(** One draw of the random source: a number, reduced by [Int31n], and bytes. *)
Record draw := MkDraw { d_num : nat; d_byte : nat -> byte }.
Definition Int31n (n : nat) (d : draw) : nat := d_num d mod n.
Definition noise (d : draw) (n : nat) : list byte := d_byte d <$> seq 0 n.

Section frames.
Context {BS : BufferSource}.

(** The frame is filled in a slice of the pool: user id (nil after the first
    frame), command, lengths, content, random bytes. *)
Definition ApplyPaddingFromPool (p : list byte) (command : byte) (userUUID : option (list byte)) (longPadding : bool) (d : draw) : res (list byte) :=
  let contentLen := length p in
  let paddingLen := if bool_decide (contentLen < 900)%nat && longPadding then (Int31n 500 d + 900 - contentLen)%nat else Int31n 256 d in
  let id := default [] userUUID in
  let headerLen := (length id + 1 + 2 + 2)%nat in
  '(frame, start) ← copy_at (src_get (headerLen + length p + paddingLen)) 0 id;
  frame ← set_at frame start command;
  let start := S start in
  frame ← write_at frame start (be16 (Z.of_nat contentLen));
  let start := (start + 2)%nat in
  frame ← write_at frame start (be16 (Z.of_nat paddingLen));
  let start := (start + 2)%nat in
  '(frame, n) ← copy_at frame start p;
  let start := (start + n)%nat in
  if decide (0 < paddingLen)%nat then
    '(frame, _) ← copy_at frame start (noise d (length frame - start));
    Ret frame
  else Ret frame.
End frames.

(** [None] when the slice is short enough for one frame. *)
Definition ReshapeBytes (b : list byte) : list byte * option (list byte) :=
  if decide (length b < BufferSize - PaddingHeaderLen)%nat then (b, None)
  else
    let half := (BufferSize / 2)%nat in
    let idx := match bytes_LastIndex b tlsApplicationDataStart with
               | Some i => if decide (i < PaddingHeaderLen \/ BufferSize - PaddingHeaderLen < i)%nat then half else i
               | None => half
               end in
    (take idx b, Some (drop idx b)).

(** * The TLS sniffer (filter.go) *)

Record tlsFilter := MkTF {
  packetsToFilter : Z; isTLS : bool; isTLS12orAbove : bool; enableXTLS : bool;
  cipher : Z; remainingServerHello : Z }.
Definition newFilter : tlsFilter := MkTF 6 false false false 0 0.

Definition set_packets (n : Z) (f : tlsFilter) : tlsFilter :=
  MkTF n (isTLS f) (isTLS12orAbove f) (enableXTLS f) (cipher f) (remainingServerHello f).
Definition set_isTLS (f : tlsFilter) : tlsFilter :=
  MkTF (packetsToFilter f) true (isTLS12orAbove f) (enableXTLS f) (cipher f) (remainingServerHello f).
Definition set_hello (c r : Z) (f : tlsFilter) : tlsFilter :=
  MkTF (packetsToFilter f) (isTLS f) true (enableXTLS f) c r.
Definition set_remaining (r : Z) (f : tlsFilter) : tlsFilter :=
  MkTF (packetsToFilter f) (isTLS f) (isTLS12orAbove f) (enableXTLS f) (cipher f) r.
Definition set_XTLS (b : bool) (f : tlsFilter) : tlsFilter :=
  MkTF (packetsToFilter f) (isTLS f) (isTLS12orAbove f) b (cipher f) (remainingServerHello f).

(** The suites of the table but TLS_AES_128_CCM_8_SHA256. *)
Definition xtlsSuite (c : Z) : bool := bool_decide (0x1301 <= c <= 0x1304).

(** The cipher suite behind the session id of a ServerHello at [i]. *)
Definition helloCipher (buffer : list byte) (i : nat) (rem : Z) (old : Z) : res Z :=
  let lenP := length buffer in
  if decide ((79 <= lenP - i)%nat /\ 79 <= rem) then
    l ← index buffer (i + 43);
    let sessionIDLen := Z.to_nat (b2z l) in
    let cipherOff := (i + 44 + sessionIDLen)%nat in
    if decide (sessionIDLen <= 32 /\ cipherOff + 2 <= lenP)%nat then
      c ← slice buffer cipherOff (cipherOff + 2);
      Ret (be_get c)
    else Ret old
  else Ret old.

(** Where the buffer looks like a server or a client handshake: the updated state
    and the position, [-1] for none. *)
Definition filter_hello (buffer : list byte) (f : tlsFilter) : res (tlsFilter * option nat) :=
  let lenP := length buffer in
  match bytes_Index buffer tlsServerHandshakeStart with
  | Some i =>
      if decide (i + 5 < lenP)%nat then
        b0 ← index buffer 0; b1 ← index buffer 1; b2 ← index buffer 2;
        if decide (b0 = x16 /\ b1 = x03 /\ b2 = x03) then
          let f := set_isTLS f in
          b5 ← index buffer 5;
          if decide (b5 = tlsHandshakeTypeServerHello) then
            l ← slice buffer (i + 3) (i + 5);
            let rem := (be_get l + 5) mod 65536 in
            c ← helloCipher buffer i rem (cipher f);
            Ret (set_hello c rem f, Some i)
          else Ret (f, Some i)
        else Ret (f, Some i)
      else Ret (f, Some i)
  | None =>
      match bytes_Index buffer tlsClientHandshakeStart with
      | Some i =>
          if decide (i + 5 < lenP)%nat then
            b5 ← index buffer (i + 5);
            Ret (if decide (b5 = tlsHandshakeTypeClientHello) then set_isTLS f else f, Some i)
          else Ret (f, Some i)
      | None => Ret (f, None)
      end
  end.

(** The part of the ServerHello in this buffer, from [i]. *)
Definition filter_rest (buffer : list byte) (i : nat) (f : tlsFilter) : res tlsFilter :=
  let lenP := length buffer in
  let rem := Z.to_nat (remainingServerHello f) in
  let '(stop, rest) :=
    if decide (lenP < i + rem)%nat then (lenP, (remainingServerHello f - Z.of_nat (lenP - i)) mod 65536)
    else ((rem + i)%nat, 0) in
  let f := set_remaining rest f in
  part ← slice buffer i stop;
  if bytes_Contains part tls13SupportedVersions then
    Ret (set_packets 0 (set_XTLS (enableXTLS f || xtlsSuite (cipher f)) f))
  else if decide (rest <= 0) then Ret (set_packets 0 f)
  else Ret f.

Definition filterTLSLocked (buffer : list byte) (f : tlsFilter) : res tlsFilter :=
  if decide (packetsToFilter f <= 0) then Ret f else
  '(f, idx) ← filter_hello buffer (set_packets (packetsToFilter f - 1) f);
  if decide (0 < remainingServerHello f) then filter_rest buffer (default 0%nat idx) f else Ret f.

(** One or more complete records with a body. *)
Fixpoint appDataRecords (fuel : nat) (b : list byte) : bool :=
  match b with
  | [] => true
  | _ =>
      match fuel with
      | O => false
      | S fuel =>
          if decide (length b < 5)%nat then false
          else if decide (take 3 b <> tlsApplicationDataStart) then false
          else
            let recordLen := Z.to_nat (be_get (take 2 (drop 3 b))) in
            if decide (recordLen = 0 \/ length b - 5 < recordLen)%nat then false
            else appDataRecords fuel (drop (5 + recordLen) b)
      end
  end.
Definition isCompleteAppDataRecords (b : list byte) : bool :=
  if decide (length b < 6)%nat then false else appDataRecords (length b) b.

(** * The connection (conn.go) *)

(** What the handshake finds below: TLS 1.3, an older version, no TLS. *)
Inductive outerTLS := Outer13 | OuterOld | OuterNone.

Record Conn := MkVC {
  userUUID : list byte; tlsConn : outerTLS;
  needHandshake : bool; readRemainingContent : nat; readRemainingPadding : nat; readFilterUUID : bool; readLastCommand : byte;
  writeFilterApplicationData : bool; writeDirect : bool; directRead : bool; toWriteDirect : bool; toReadDirect : bool;
  filter : tlsFilter;
  (** The overlay: the record being read, which is the TLS connection's [input], and the
      records to come; [inputNil], [rawNil] once the direct mode has dropped them. *)
  input : list byte; inputNil : bool; records : list (list byte); rawInput : list byte; rawNil : bool; underlay : stream;
  overlayOut : tconn; underlayOut : tconn }.

Definition ErrNotTLS13 : error := Errorf "XTLS Vision based on TLS 1.3 outer connection".

Definition set_filter (f : tlsFilter) (c : Conn) : Conn :=
  MkVC (userUUID c) (tlsConn c) (needHandshake c) (readRemainingContent c) (readRemainingPadding c) (readFilterUUID c) (readLastCommand c)
    (writeFilterApplicationData c) (writeDirect c) (directRead c) (toWriteDirect c) (toReadDirect c) f
    (input c) (inputNil c) (records c) (rawInput c) (rawNil c) (underlay c) (overlayOut c) (underlayOut c).
Definition set_reading (content padding : nat) (fu : bool) (cmd : byte) (c : Conn) : Conn :=
  MkVC (userUUID c) (tlsConn c) (needHandshake c) content padding fu cmd
    (writeFilterApplicationData c) (writeDirect c) (directRead c) (toWriteDirect c) (toReadDirect c) (filter c)
    (input c) (inputNil c) (records c) (rawInput c) (rawNil c) (underlay c) (overlayOut c) (underlayOut c).
Definition set_toReadDirect (to d : bool) (c : Conn) : Conn :=
  MkVC (userUUID c) (tlsConn c) (needHandshake c) (readRemainingContent c) (readRemainingPadding c) (readFilterUUID c) (readLastCommand c)
    (writeFilterApplicationData c) (writeDirect c) d (toWriteDirect c) to (filter c)
    (input c) (inputNil c) (records c) (rawInput c) (rawNil c) (underlay c) (overlayOut c) (underlayOut c).
Definition set_inputs (i : list byte) (iN : bool) (rs : list (list byte)) (r : list byte) (rN : bool) (u : stream) (c : Conn) : Conn :=
  MkVC (userUUID c) (tlsConn c) (needHandshake c) (readRemainingContent c) (readRemainingPadding c) (readFilterUUID c) (readLastCommand c)
    (writeFilterApplicationData c) (writeDirect c) (directRead c) (toWriteDirect c) (toReadDirect c) (filter c)
    i iN rs r rN u (overlayOut c) (underlayOut c).
Definition set_writing (hs wf wd tw : bool) (c : Conn) : Conn :=
  MkVC (userUUID c) (tlsConn c) hs (readRemainingContent c) (readRemainingPadding c) (readFilterUUID c) (readLastCommand c)
    wf wd (directRead c) tw (toReadDirect c) (filter c)
    (input c) (inputNil c) (records c) (rawInput c) (rawNil c) (underlay c) (overlayOut c) (underlayOut c).
Definition set_outs (o u : tconn) (c : Conn) : Conn :=
  MkVC (userUUID c) (tlsConn c) (needHandshake c) (readRemainingContent c) (readRemainingPadding c) (readFilterUUID c) (readLastCommand c)
    (writeFilterApplicationData c) (writeDirect c) (directRead c) (toWriteDirect c) (toReadDirect c) (filter c)
    (input c) (inputNil c) (records c) (rawInput c) (rawNil c) (underlay c) o u.

Definition FilterTLS (b : list byte) : st Conn unit := fun c =>
  match filterTLSLocked b (filter c) with
  | Ret f => (set_filter f c, Ret tt)
  | Fail e => (c, Fail e)
  | Panic => (c, Panic)
  end.

(** [NewConn], once the connection below and its TLS state are found: what the overlay
    holds, what the TLS connection has read, and the transports. *)
Definition NewConn (id : list byte) (outer : outerTLS) (i : list byte) (rs : list (list byte)) (raw : list byte) (u : stream) (o uo : tconn) : Conn :=
  MkVC id outer true 0 0 true commandPaddingContinue true false false false false newFilter i false rs raw false u o uo.

(** ** Reading *)

(** A [Read] of the overlay into [k] bytes: from one record. *)
Definition overlay_Read (k : nat) : st Conn (list byte) := fun c =>
  match input c with
  | _ :: _ => (set_inputs (drop k (input c)) (inputNil c) (records c) (rawInput c) (rawNil c) (underlay c) c, Ret (take k (input c)))
  | [] =>
      match records c with
      | [] => (c, if decide (k = 0%nat) then Ret [] else Fail EOF)
      | r :: rs => (set_inputs (drop k r) (inputNil c) rs (rawInput c) (rawNil c) (underlay c) c, Ret (take k r))
      end
  end.
(** A [Read] of the raw connection, which may deliver any part of what there is: at
    most [got] bytes, at least one. *)
Definition underlay_Read (k got : nat) : st Conn (list byte) := fun c =>
  match underlay c with
  | [] => (c, if decide (k = 0%nat) then Ret [] else Fail EOF)
  | u =>
      let n := Nat.min k (Nat.max 1 got) in
      (set_inputs (input c) (inputNil c) (records c) (rawInput c) (rawNil c) (drop n u) c, Ret (take n u))
  end.
Definition reader_Read (k got : nat) : st Conn (list byte) :=
  c ← get; if directRead c then underlay_Read k got else overlay_Read k.

(** Exactly [n] bytes over the overlay, record by record: [io.CopyN] to nowhere, and
    [io.ReadFull(vc.reader, header)], whose error tells a partial read. *)
Fixpoint overlay_take (fuel n : nat) : st Conn (list byte) :=
  if decide (n = 0%nat) then mret [] else
  match fuel with
  | O => lift Panic
  | S fuel => a ← overlay_Read n; b ← overlay_take fuel (n - length a); mret (a ++ b)
  end.

Definition overlay_ReadFull (fuel n : nat) : st Conn (list byte) := fun c =>
  match overlay_take fuel n c with
  | (c', Fail EOF) => (c', Fail (if decide (input c ++ concat (records c) = []) then EOF else ErrUnexpectedEOF))
  | cr => cr
  end.

(** Before the next frame: the rest of the padding. *)
Definition skip_padding (c : Conn) : st Conn unit :=
  if decide (0 < readRemainingPadding c)%nat then
    _ ← overlay_take (S (length (records c)) + readRemainingPadding c) (readRemainingPadding c);
    modify (fun c => set_reading (readRemainingContent c) 0 (readFilterUUID c) (readLastCommand c) c)
  else mret tt.

(** The header of a frame, behind the user id in the first one. *)
Definition read_header (c : Conn) : st Conn unit :=
  let headerUUIDLen := if readFilterUUID c then uuidLen else 0%nat in
  let need := (headerUUIDLen + PaddingHeaderLen - uuidLen)%nat in
  header ← overlay_ReadFull (S (length (records c)) + need) need;
  _ ← (if readFilterUUID c then
         _ ← modify (fun c => set_reading (readRemainingContent c) (readRemainingPadding c) false (readLastCommand c) c);
         id ← lift (slice header 0 uuidLen);
         if decide (userUUID c = id) then mret tt else fail (Errorf "XTLS Vision server responded unknown UUID: %s: %w")
       else mret tt);
  header ← lift (slice_from header headerUUIDLen);
  pad ← lift (slice header 3 5);
  content ← lift (slice header 1 3);
  cmd ← lift (index header 0);
  modify (fun c => set_reading (Z.to_nat (be_get content)) (Z.to_nat (be_get pad)) (readFilterUUID c) cmd c).


(** In direct mode: what the TLS connection has decrypted but not delivered
    ([vc.input]), what it has read but not decrypted ([vc.rawInput]), then the raw
    connection. *)
Definition read_direct (k got : nat) : st Conn (list byte) :=
  c ← get;
  if negb (inputNil c) && bool_decide (k < length (input c))%nat then
    _ ← modify (fun c => set_inputs (drop k (input c)) false (records c) (rawInput c) (rawNil c) (underlay c) c);
    mret (take k (input c))
  else
    let a := if inputNil c then [] else input c in
    let b := if rawNil c then [] else take (k - length a) (rawInput c) in
    let raw := if rawNil c then [] else drop (k - length a) (rawInput c) in
    let rawN := rawNil c || bool_decide (raw = []) in
    _ ← modify (fun c => set_inputs (if inputNil c then input c else []) true (records c) raw rawN (underlay c) c);
    _ ← (if (rawN : bool) then modify (set_toReadDirect true true) else mret tt);
    if inputNil c && rawNil c then reader_Read (k - length a) got else mret (a ++ b).

(** [read(b)] with [len(b) = k]; the recursion of the source consumes a header
    or ends the padded part. *)
Fixpoint read (fuel k got : nat) : st Conn (list byte) :=
  c ← get;
  if decide (0 < readRemainingContent c)%nat then
    let k := if decide (readRemainingContent c < k)%nat then readRemainingContent c else k in
    r ← try (reader_Read k got);
    let a := match r with inl a => a | inr _ => [] end in
    _ ← modify (fun c => set_reading (readRemainingContent c - length a) (readRemainingPadding c) (readFilterUUID c) (readLastCommand c) c);
    _ ← FilterTLS a;
    match r with inl a => mret a | inr e => fail e end
  else
    _ ← skip_padding c;
    c ← get;
    if toReadDirect c then reader_Read k got
    else if decide (readLastCommand c = commandPaddingContinue) then
      _ ← read_header c;
      match fuel with O => lift Panic | S fuel => read fuel k got end
    else if decide (readLastCommand c = commandPaddingEnd) then
      _ ← modify (set_toReadDirect true (directRead c));
      match fuel with O => lift Panic | S fuel => read fuel k got end
    else if decide (readLastCommand c = commandPaddingDirect) then read_direct k got
    else fail (Errorf "XTLS Vision read unknown command: %d").

(** Enough for every recursion: each consumes a header or ends the padding. *)
Definition read_fuel (c : Conn) : nat := (2 + length (input c) + length (concat (records c)))%nat.
Definition Read (k got : nat) : st Conn (list byte) :=
  c ← get; if toReadDirect c then reader_Read k got else read (read_fuel c) k got.

(** ** Writing *)

Section writing.
Context {BS : BufferSource}.

Definition writer_WriteFull (b : list byte) : st Conn unit := fun c =>
  let '(t, (_, err)) := WriteFull b (if writeDirect c then underlayOut c else overlayOut c) in
  (if writeDirect c then set_outs (overlayOut c) t c else set_outs t (underlayOut c) c,
   match err with Some e => Fail e | None => Ret tt end).
Definition writer_Write (b : list byte) : st Conn nat := fun c =>
  let '(t, (n, err)) := conn_Write b (if writeDirect c then underlayOut c else overlayOut c) in
  (if writeDirect c then set_outs (overlayOut c) t c else set_outs t (underlayOut c) c,
   match err with Some e => Fail e | None => Ret n end).

Definition writePadding (p : list byte) (command : byte) (id : option (list byte)) (longPadding : bool) (d : draw) : st Conn unit :=
  frame ← lift (ApplyPaddingFromPool p command id longPadding d);
  writer_WriteFull frame.

Definition startsWithAppData (b : list byte) : bool := bool_decide (6 <= length b /\ take 3 b = tlsApplicationDataStart)%nat.

Definition set_wf (b : bool) : st Conn unit := modify (fun c => set_writing (needHandshake c) b (writeDirect c) (toWriteDirect c) c).
Definition set_tw (b : bool) : st Conn unit := modify (fun c => set_writing (needHandshake c) (writeFilterApplicationData c) (writeDirect c) b c).

(** The first frame, which carries the user id. *)
Definition write_handshake (p : list byte) (d : draw) : st Conn unit :=
  _ ← modify (fun c => set_writing false (writeFilterApplicationData c) (writeDirect c) (toWriteDirect c) c);
  _ ← (if decide (p = []) then mret tt else FilterTLS p);
  c ← get;
  let longPadding := if decide (p = []) then true else isTLS (filter c) in
  _ ← writePadding p commandPaddingContinue (Some (userUUID c)) longPadding d;
  match tlsConn c with
  | Outer13 => mret tt
  | OuterOld => fail ErrNotTLS13
  | OuterNone => fail (Errorf "unsupported tls connection type: %T")
  end.

(** The frames for one piece; the error of the last frame is a value, since the
    switch to the raw connection comes after it. *)
Definition last_frame (m : st Conn unit) : st Conn (option error) :=
  r ← try m; mret (match r with inl _ => None | inr e => Some e end).
Definition write_one (p : list byte) (complete : bool) (sn : tlsFilter) (d : draw) : st Conn (option error) :=
  let endCommand := if enableXTLS sn then commandPaddingDirect else commandPaddingEnd in
  if complete && startsWithAppData p then
    _ ← set_tw (enableXTLS sn); _ ← set_wf false;
    last_frame (writePadding p endCommand None true d)
  else if negb (isTLS12orAbove sn) && bool_decide (packetsToFilter sn <= 1) then
    _ ← set_wf false;
    last_frame (writePadding p commandPaddingEnd None (isTLS sn) d)
  else last_frame (writePadding p commandPaddingContinue None (isTLS sn) d).
(** The frames for two pieces; an error of the first returns at once. *)
Definition write_two (p p2 : list byte) (complete : bool) (sn : tlsFilter) (d d2 : draw) : st Conn (option error) :=
  let endCommand := if enableXTLS sn then commandPaddingDirect else commandPaddingEnd in
  if complete && startsWithAppData p then
    _ ← set_tw (enableXTLS sn); _ ← set_wf false;
    _ ← writePadding p commandPaddingContinue None true d;
    last_frame (writePadding p2 endCommand None (startsWithAppData p2) d2)
  else if negb (isTLS12orAbove sn) && bool_decide (packetsToFilter sn <= 1) then
    _ ← set_wf false;
    _ ← writePadding p commandPaddingEnd None (isTLS sn) d;
    last_frame (writer_WriteFull p2)
  else
    _ ← writePadding p commandPaddingContinue None (isTLS sn) d;
    last_frame (writePadding p2 commandPaddingContinue None (isTLS sn) d2).

(** [write(p)] while the application data is filtered. *)
Definition write (p : list byte) (d d2 : draw) : st Conn unit :=
  c ← get;
  if needHandshake c then write_handshake p d else
  if writeFilterApplicationData c then
    let complete := isCompleteAppDataRecords p in
    let '(p, p2) := ReshapeBytes p in
    _ ← FilterTLS p;
    _ ← match p2 with Some p2 => FilterTLS p2 | None => mret tt end;
    c ← get;
    let sn := filter c in
    if negb (isTLS sn) then
      _ ← set_wf false;
      _ ← modify (fun c => set_filter (set_packets 0 (filter c)) c);
      _ ← writePadding p commandPaddingEnd None false d;
      match p2 with Some p2 => writer_WriteFull p2 | None => mret tt end
    else
      err ← match p2 with None => write_one p complete sn d | Some p2 => write_two p p2 complete sn d d2 end;
      _ ← modify (fun c => set_writing (needHandshake c) (writeFilterApplicationData c) (writeDirect c || toWriteDirect c) (toWriteDirect c) c);
      match err with None => mret tt | Some e => fail e end
  else _ ← writer_Write p; mret tt.

Definition Write (p : list byte) (d d2 : draw) : st Conn nat :=
  c ← get;
  if writeFilterApplicationData c then _ ← write p d d2; mret (length p)
  else writer_Write p.

Definition flushHandshakeIfNeeded (d d2 : draw) : st Conn unit :=
  c ← get; if negb (needHandshake c) then mret tt else write [] d d2.
End writing.
