(* ===== verification/VisionRound.v ===== *)
(** Vision streams: the sniffer is total, the frames written are the frames read,
    and the switch to the raw connection loses nothing. *)

From S2P Require Import Prelude GoStrings GoState Pool Transport Vision.
From Stdlib Require Import Strings.Byte.

(** * Searching *)

Lemma HasPrefix_length s sub : HasPrefix s sub = true -> (length sub <= length s)%nat.
Proof. unfold HasPrefix. intros H%bool_decide_eq_true. apply (f_equal length) in H. rewrite length_take in H. lia. Qed.

Lemma bytes_Index_bound sub s : forall i, bytes_Index s sub = Some i -> (i + length sub <= length s)%nat.
Proof.
  induction s as [|x s IH]; intros i; cbn [bytes_Index]; destruct (HasPrefix _ sub) eqn:E; try done.
  - intros [= <-]. by apply HasPrefix_length in E.
  - intros [= <-]. by apply HasPrefix_length in E.
  - destruct (bytes_Index s sub) as [j|]; [|done]. intros [= <-]. specialize (IH j eq_refl). cbn. lia.
Qed.

Lemma bytes_LastIndex_bound sub s : forall i, bytes_LastIndex s sub = Some i -> (i + length sub <= length s)%nat.
Proof.
  induction s as [|x s IH]; intros i; cbn [bytes_LastIndex].
  - destruct (HasPrefix _ sub) eqn:E; [|done]. intros [= <-]. by apply HasPrefix_length in E.
  - destruct (bytes_LastIndex s sub) as [j|]; [intros [= <-]; specialize (IH j eq_refl); cbn; lia|].
    destruct (HasPrefix _ sub) eqn:E; [|done]. intros [= <-]. by apply HasPrefix_length in E.
Qed.

(** * The sniffer *)

Definition filter_wf (f : tlsFilter) : Prop := 0 <= remainingServerHello f < 65536.

Lemma index_lt {A} (l : list A) i : (i < length l)%nat -> exists x, index l i = Ret x.
Proof. intros H. unfold index. destruct (l !! i) eqn:E; [by eexists|]. apply lookup_ge_None in E. lia. Qed.

Lemma helloCipher_ok b i rem old : exists c, helloCipher b i rem old = Ret c.
Proof.
  unfold helloCipher. cbv zeta. case_decide as D; [|by eexists]. destruct (index_lt b (i + 43)%nat) as [l ->]; [lia|]. rewrite bind_ret.
  case_decide; [|by eexists]. rewrite slice_eq by lia. by eexists.
Qed.

Lemma filter_hello_ok b f : filter_wf f -> exists f' i, filter_hello b f = Ret (f', i) /\ filter_wf f' /\
  (default 0 i <= length b)%nat /\ packetsToFilter f' = packetsToFilter f /\ enableXTLS f' = enableXTLS f.
Proof.
  intros W. unfold filter_hello. cbv zeta. destruct (bytes_Index b tlsServerHandshakeStart) as [i|] eqn:E.
  - apply bytes_Index_bound in E. cbn in E. assert (Li : (i <= length b)%nat) by lia. case_decide as L; [|by eexists _, _].
    destruct (index_lt b 0) as [b0 ->]; [lia|]. destruct (index_lt b 1) as [b1 ->]; [lia|]. destruct (index_lt b 2) as [b2 ->]; [lia|]. rewrite !bind_ret.
    case_decide; [|by eexists _, _]. destruct (index_lt b 5) as [b5 ->]; [lia|]. rewrite bind_ret. case_decide; [|by eexists _, _].
    rewrite slice_eq by lia. rewrite bind_ret. match goal with |- context [helloCipher b i ?r ?o] => destruct (helloCipher_ok b i r o) as [c ->] end. rewrite bind_ret.
    eexists _, _. split; [reflexivity|]. split; [|done]. apply Z.mod_pos_bound. lia.
  - destruct (bytes_Index b tlsClientHandshakeStart) as [i|] eqn:E2; [|eexists _, _; split; [reflexivity|]; split; [done|]; split; [cbn; lia|done]].
    apply bytes_Index_bound in E2. cbn in E2. case_decide as L; [|eexists _, _; split; [reflexivity|]; split; [done|]; split; [cbn; lia|done]].
    destruct (index_lt b (i + 5)%nat) as [b5 ->]; [lia|]. rewrite bind_ret. eexists _, _. split; [reflexivity|]. split; [by case_decide|]. split; [cbn; lia|]. by case_decide.
Qed.

Lemma filter_rest_ok b i f : filter_wf f -> (i <= length b)%nat -> exists f', filter_rest b i f = Ret f' /\ filter_wf f'.
Proof.
  intros W L. unfold filter_wf in W. unfold filter_rest. cbv zeta.
  destruct (decide (length b < i + Z.to_nat (remainingServerHello f))%nat) as [D|D].
  - rewrite slice_eq by lia. rewrite bind_ret. assert (0 <= (remainingServerHello f - Z.of_nat (length b - i)) mod 65536 < 65536) by (apply Z.mod_pos_bound; lia).
    destruct (bytes_Contains _ _); [by eexists|]. case_decide; by eexists.
  - rewrite slice_eq by lia. rewrite bind_ret. destruct (bytes_Contains _ _); [by eexists|]. case_decide; [|lia]. by eexists.
Qed.

(** Whatever bytes come, the sniffer returns. *)
Lemma filterTLSLocked_ok b f : filter_wf f -> exists f', filterTLSLocked b f = Ret f' /\ filter_wf f'.
Proof.
  intros W. unfold filterTLSLocked. case_decide; [by eexists|].
  destruct (filter_hello_ok b (set_packets (packetsToFilter f - 1) f) W) as (f1 & i & -> & W1 & Li & _). rewrite bind_ret.
  case_decide; [|by eexists]. by apply filter_rest_ok.
Qed.

Lemma FilterTLS_ok b c : filter_wf (filter c) -> exists f, FilterTLS b c = (set_filter f c, Ret tt) /\ filter_wf f.
Proof. intros W. unfold FilterTLS. destruct (filterTLSLocked_ok b (filter c) W) as (f & -> & Wf). by exists f. Qed.

(** ** Complete records *)

Definition record_of (body : list byte) : list byte := tlsApplicationDataStart ++ be16 (Z.of_nat (length body)) ++ body.
Definition body_ok (body : list byte) : Prop := body <> [] /\ Z.of_nat (length body) < 65536.

Lemma appDataRecords_ok fuel : forall b, (length b <= fuel)%nat -> appDataRecords fuel b = true <-> exists bodies, b = bodies ≫= record_of /\ Forall body_ok bodies.
Proof.
  induction fuel as [|fuel IH]; intros b L.
  - destruct b; [|cbn in L; lia]. split; [|done]. intros _. by exists [].
  - destruct b as [|x b]; [split; [intros _; by exists []|done]|]. set (y := x :: b) in *. assert (Hy : y <> []) by done. clearbody y. clear x b.
    assert (E : appDataRecords (S fuel) y = if decide (length y < 5)%nat then false
      else if decide (take 3 y <> tlsApplicationDataStart) then false
      else let recordLen := Z.to_nat (be_get (take 2 (drop 3 y))) in
        if decide (recordLen = 0 \/ length y - 5 < recordLen)%nat then false else appDataRecords fuel (drop (5 + recordLen) y)) by (by destruct y).
    rewrite E. clear E. cbv zeta. split.
    + case_decide as D1; [done|]. case_decide as D2; [done|]. case_decide as D3; [done|]. intros H.
      apply IH in H as (bodies & E & F); [|rewrite length_drop; lia]. set (n := Z.to_nat (be_get (take 2 (drop 3 y)))) in *.
      exists (take n (drop 5 y) :: bodies). assert (Ln : length (take n (drop 5 y)) = n) by (rewrite length_take, length_drop; lia).
      assert (R : be_get (take 2 (drop 3 y)) = Z.of_nat n) by (pose proof (be_get_range (take 2 (drop 3 y))); lia).
      assert (L2 : length (take 2 (drop 3 y)) = 2%nat) by (rewrite length_take, length_drop; lia).
      split.
      * cbn [mbind list_bind]. rewrite <- E. unfold record_of. rewrite Ln, <- R, be_put_get by done. rewrite <- D2.
        rewrite <- !app_assoc. rewrite <- (take_drop 3 y) at 1. f_equal. rewrite <- (take_drop 2 (drop 3 y)) at 1. rewrite drop_drop. f_equal.
        change (3 + 2)%nat with 5%nat. rewrite <- (take_drop n (drop 5 y)) at 1. by rewrite drop_drop.
      * constructor; [|done]. split; [intros E0; rewrite E0 in Ln; cbn in Ln; lia|]. pose proof (be_get_range (take 2 (drop 3 y))) as BR. rewrite L2 in BR. rewrite Ln. cbn in BR. lia.
    + intros (bodies & E & F). destruct bodies as [|body bodies]; [by destruct Hy|]. apply Forall_cons in F as [[Hb Lb] F]. rewrite bind_cons in E.
      set (rest := bodies ≫= record_of) in E. unfold record_of in E. rewrite <- !app_assoc in E.
      assert (Ly : length y = (5 + length body + length rest)%nat) by (rewrite E, !length_app, length_be_put; cbn; lia).
      assert (Lb0 : (0 < length body)%nat) by (destruct body; [done|cbn; lia]).
      rewrite decide_False by lia.
      assert (take 3 y = tlsApplicationDataStart) as -> by (rewrite E; by apply take_app_length'). rewrite decide_False by (intros H; by apply H).
      assert (take 2 (drop 3 y) = be16 (Z.of_nat (length body))) as ->.
      { rewrite E, drop_app_length' by done. apply take_app_length'. by rewrite length_be_put. }
      rewrite be_get_put_small by (cbn; lia). rewrite Nat2Z.id, decide_False by lia.
      assert (drop (5 + length body) y = rest) as ->.
      { rewrite E, !app_assoc. apply drop_app_length'. rewrite !length_app, length_be_put. cbn. lia. }
      apply IH; [lia|by exists bodies].
Qed.

Lemma isComplete_ok b : isCompleteAppDataRecords b = true -> exists bodies, b = bodies ≫= record_of /\ Forall body_ok bodies /\ bodies <> [].
Proof.
  unfold isCompleteAppDataRecords. case_decide as D; [done|]. intros H. apply appDataRecords_ok in H as (bodies & -> & F); [|done].
  exists bodies. split; [done|]. split; [done|]. intros ->. cbn in D. lia.
Qed.

(** * Frames *)

Record frm := MkFrm { content : list byte; padding : list byte }.
Definition frame_bytes (cmd : byte) (f : frm) : list byte :=
  cmd :: be16 (Z.of_nat (length (content f))) ++ be16 (Z.of_nat (length (padding f))) ++ content f ++ padding f.
Definition frm_ok (f : frm) : Prop := Z.of_nat (length (content f)) < 65536 /\ Z.of_nat (length (padding f)) < 65536.

Lemma length_noise d n : length (noise d n) = n.
Proof. unfold noise. by rewrite length_fmap, length_seq. Qed.

Lemma ApplyPadding_ok {BS : BufferSource} p cmd id long d : exists pad, (length pad < 1400)%nat /\
  ApplyPaddingFromPool p cmd id long d = Ret (default [] id ++ frame_bytes cmd (MkFrm p pad)).
Proof.
  unfold ApplyPaddingFromPool. cbv zeta. set (n := if bool_decide _ && long then _ else _).
  assert (Ln : (n < 1400)%nat).
  { unfold n, Int31n. pose proof (Nat.mod_upper_bound (d_num d) 500). pose proof (Nat.mod_upper_bound (d_num d) 256). destruct (_ && _); lia. }
  exists (noise d n). rewrite length_noise. split; [done|]. set (i := default [] id). set (tot := (length i + 1 + 2 + 2 + length p + n)%nat).
  assert (L0 : length (src_get tot) = tot) by apply src_length. unfold tot in L0 at 2.
  rewrite copy_at_0 by lia. rewrite bind_ret. rewrite set_at_app by (rewrite ?length_drop; lia). rewrite bind_ret, drop_drop.
  rewrite write_at_app by (rewrite ?length_app, ?length_drop, ?length_be_put; cbn; lia). rewrite bind_ret, drop_drop, length_be_put.
  rewrite write_at_app by (rewrite ?length_app, ?length_drop, ?length_be_put; cbn; lia). rewrite bind_ret, drop_drop, length_be_put.
  rewrite copy_at_app by (rewrite ?length_app, ?length_drop, ?length_be_put; cbn; lia). rewrite bind_ret, drop_drop.
  set (hd := (((i ++ [cmd]) ++ be16 (Z.of_nat (length p))) ++ be16 (Z.of_nat n)) ++ p).
  assert (Lh : length hd = (length i + 5 + length p)%nat) by (unfold hd; rewrite !length_app, !length_be_put; cbn; lia).
  replace (S (length i) + 2 + 2 + length p)%nat with (length hd) by lia. set (tl := drop _ (src_get tot)). assert (Lt : length tl = n) by (unfold tl; rewrite length_drop; lia).
  assert (E : hd ++ noise d n = i ++ frame_bytes cmd (MkFrm p (noise d n))).
  { unfold hd, frame_bytes. cbn [content padding]. rewrite length_noise, <- !app_assoc. done. }
  rewrite <- E, length_app, Lt, add_sub_cancel. case_decide as D.
  - rewrite copy_at_app by (rewrite ?length_noise; lia). rewrite bind_ret, length_noise, drop_ge, app_nil_r by lia. done.
  - assert (n = 0%nat) as En by lia. rewrite En in Lt. destruct tl; [|done]. rewrite En. done.
Qed.

Lemma ReshapeBytes_ok b : exists p p2, ReshapeBytes b = (p, p2) /\ b = p ++ default [] p2.
Proof.
  unfold ReshapeBytes. case_decide; [exists b, None; cbn; by rewrite app_nil_r|]. cbv zeta. eexists _, _. split; [reflexivity|]. cbn. by rewrite take_drop.
Qed.

(** * The wire *)

(** How a direction ends: not yet, with an End frame and plain data behind it, with a
    Direct frame and raw data on the connection below. *)
Inductive ending := Open | Ended (f : frm) (tail : list byte) | Switched (f : frm) (tail : list byte).

Definition frames_of (fs : list frm) : list byte := fs ≫= frame_bytes commandPaddingContinue.
Definition end_overlay (e : ending) : list byte :=
  match e with Open => [] | Ended f t => frame_bytes commandPaddingEnd f ++ t | Switched f _ => frame_bytes commandPaddingDirect f end.
Definition end_underlay (e : ending) : list byte := match e with Switched _ t => t | _ => [] end.
Definition end_payload (e : ending) : list byte := match e with Open => [] | Ended f t | Switched f t => content f ++ t end.
Definition end_ok (e : ending) : Prop := match e with Open => True | Ended f _ | Switched f _ => frm_ok f end.
Definition payload_of (fs : list frm) (e : ending) : list byte := (fs ≫= content) ++ end_payload e.

(** ** Reading the overlay *)

(** What the overlay will deliver. *)
Definition over (c : Conn) : list byte := input c ++ concat (records c).
Definition over_ok (c : Conn) : Prop := Forall (fun r => r <> []) (records c).

Definition with_over (i : list byte) (rs : list (list byte)) (c : Conn) : Conn := set_inputs i (inputNil c) rs (rawInput c) (rawNil c) (underlay c) c.

Lemma overlay_Read_ok k c : over_ok c -> over c <> [] -> exists i rs a, overlay_Read k c = (with_over i rs c, Ret a) /\
  over c = a ++ i ++ concat rs /\ Forall (fun r => r <> []) rs /\ (length a <= k)%nat /\ ((0 < k)%nat -> a <> []).
Proof.
  intros H N. unfold overlay_Read, over in *. destruct (input c) as [|x i] eqn:Ei.
  - destruct (records c) as [|r rs] eqn:Er; [done|]. unfold over_ok in H. rewrite Er in H. apply Forall_cons in H as [Hr H].
    exists (drop k r), rs, (take k r). split; [done|]. split; [cbn [concat app]; by rewrite app_assoc, take_drop|].
    split; [done|]. split; [rewrite length_take; lia|]. intros K. destruct r; [done|]. by destruct k; [lia|].
  - exists (drop k (x :: i)), (records c), (take k (x :: i)). split; [done|]. split; [by rewrite app_assoc, take_drop|].
    split; [done|]. split; [rewrite length_take; lia|]. intros K. by destruct k; [lia|].
Qed.

Lemma over_nil c : over_ok c -> over c = [] -> input c = [] /\ records c = [].
Proof.
  unfold over, over_ok. intros H [-> E]%app_eq_nil. split; [done|]. destruct (records c) as [|r rs]; [done|]. apply Forall_cons in H as [Hr _].
  cbn in E. by apply app_eq_nil in E as [-> _].
Qed.

Lemma overlay_Read_EOF k c : over_ok c -> over c = [] -> (0 < k)%nat -> overlay_Read k c = (c, Fail EOF).
Proof. intros H N K. destruct (over_nil c H N) as [Ei Er]. unfold overlay_Read. rewrite Ei, Er. by rewrite decide_False by lia. Qed.

Lemma overlay_take_ok fuel : forall n c, over_ok c -> (n <= fuel)%nat -> (n <= length (over c))%nat ->
  exists i rs, overlay_take fuel n c = (with_over i rs c, Ret (take n (over c))) /\ i ++ concat rs = drop n (over c) /\ Forall (fun r => r <> []) rs.
Proof.
  induction fuel as [|fuel IH]; intros n c H L1 L2; cbn [overlay_take].
  - assert (n = 0%nat) as -> by lia. rewrite decide_True by done. exists (input c), (records c). rewrite take_0, drop_0. split; [by destruct c|done].
  - case_decide as E; [subst n; exists (input c), (records c); rewrite take_0, drop_0; split; [by destruct c|done]|].
    assert (N : over c <> []) by (intros E0; rewrite E0 in L2; cbn in L2; lia).
    destruct (overlay_Read_ok n c H N) as (i & rs & a & E1 & Eo & F & La & Ha). rewrite (st_bind_Ret _ _ _ _ _ E1). specialize (Ha ltac:(lia)).
    destruct (IH (n - length a)%nat (with_over i rs c)) as (i2 & rs2 & E2 & Eo2 & F2); [done|destruct a; [done|cbn in *; lia]|change (over (with_over i rs c)) with (i ++ concat rs); rewrite Eo in L2; rewrite length_app in L2; lia|].
    rewrite (st_bind_Ret _ _ _ _ _ E2). exists i2, rs2. change (over (with_over i rs c)) with (i ++ concat rs) in *. rewrite Eo. split.
    + rewrite (take_app_ge a) by lia. done.
    + rewrite (drop_app_ge a) by lia. done.
Qed.

Lemma overlay_take_EOF fuel n c : over_ok c -> over c = [] -> (0 < n)%nat -> (0 < fuel)%nat -> overlay_take fuel n c = (c, Fail EOF).
Proof.
  intros H E Hn Hf. destruct fuel; [lia|]. cbn [overlay_take]. rewrite decide_False by lia. rewrite (st_bind_Fail _ _ _ _ _ (overlay_Read_EOF n c H E Hn)). done.
Qed.

(** ** The reading state machine *)

Inductive phase := PFrames (first : bool) (fs : list frm) (e : ending) | PEnd (tail : list byte) | PDirect (tail : list byte).

Definition ph_cmd (ph : phase) : byte :=
  match ph with PFrames _ _ _ => commandPaddingContinue | PEnd _ => commandPaddingEnd | PDirect _ => commandPaddingDirect end.
Definition ph_over (id : list byte) (ph : phase) : list byte :=
  match ph with
  | PFrames true [] Open => []
  | PFrames first fs e => (if first then id else []) ++ frames_of fs ++ end_overlay e
  | PEnd t => t
  | PDirect _ => []
  end.
Definition ph_under (ph : phase) : list byte := match ph with PFrames _ _ e => end_underlay e | PEnd _ => [] | PDirect t => t end.
Definition ph_payload (ph : phase) : list byte := match ph with PFrames _ fs e => payload_of fs e | PEnd t | PDirect t => t end.
Definition ph_ok (ph : phase) : Prop := match ph with PFrames _ fs e => Forall frm_ok fs /\ end_ok e | _ => True end.
Definition ph_frames (ph : phase) : nat := match ph with PFrames _ fs e => length fs + 2 | PEnd _ => 1 | PDirect _ => 0 end.

(** Within the padded part: [cont] and [pad] of the current frame are still to come. *)
Definition r_padded (c : Conn) (cont pad : list byte) (ph : phase) : Prop :=
  (filter_wf (filter c) /\ over_ok c /\ length (userUUID c) = uuidLen /\ ph_ok ph) /\
  (toReadDirect c = false /\ directRead c = false /\ inputNil c = false /\ rawNil c = false) /\
  readRemainingContent c = length cont /\ readRemainingPadding c = length pad /\ readLastCommand c = ph_cmd ph /\
  (match ph with PFrames first _ _ => readFilterUUID c = first | _ => True end) /\
  over c = cont ++ pad ++ ph_over (userUUID c) ph /\ rawInput c ++ underlay c = ph_under ph.

(** [rest] is still to be read; [slack] bounds the reads that deliver nothing. *)
Definition r_conn (c : Conn) (rest : list byte) (slack : nat) : Prop :=
  (exists cont pad ph, r_padded c cont pad ph /\ rest = cont ++ ph_payload ph /\ slack = 1%nat) \/
  (over_ok c /\ toReadDirect c = true /\ directRead c = false /\ over c = rest /\ slack = 0%nat) \/
  (toReadDirect c = true /\ directRead c = true /\ underlay c = rest /\ slack = 0%nat) \/
  (toReadDirect c = false /\ readRemainingContent c = 0%nat /\ readRemainingPadding c = 0%nat /\ readLastCommand c = commandPaddingDirect /\
   inputNil c = true /\ rawNil c = false /\ rawInput c <> [] /\ rawInput c ++ underlay c = rest /\ slack = 0%nat).

(** What one read did. *)
Definition read_outcome (k : nat) (rest : list byte) (slack : nat) (c' : Conn) (r : res (list byte)) : Prop :=
  (exists a rest' slack', r = Ret a /\ rest = a ++ rest' /\ r_conn c' rest' slack' /\ (length a <= k)%nat /\
     (length rest' + slack' < length rest + slack)%nat) \/
  (r = Fail EOF /\ rest = []).

Lemma reader_end k got c rest : (0 < k)%nat -> over_ok c -> toReadDirect c = true -> directRead c = false -> over c = rest ->
  exists c' r, reader_Read k got c = (c', r) /\ read_outcome k rest 0 c' r.
Proof.
  intros K H T D E. unfold reader_Read. st_pure. rewrite D. destruct (decide (over c = [])) as [N|N].
  - rewrite overlay_Read_EOF by done. eexists _, _. split; [done|]. right. split; [done|]. congruence.
  - destruct (overlay_Read_ok k c H N) as (i & rs & a & E1 & Eo & F & La & Ha). rewrite E1. eexists _, _. split; [done|]. left.
    exists a, (i ++ concat rs), 0%nat. split; [done|]. split; [congruence|]. split; [right; left; done|]. split; [done|].
    specialize (Ha K). rewrite <- E, Eo, (length_app a). destruct a; [done|]. cbn [length]. lia.
Qed.

Lemma reader_direct k got c rest : (0 < k)%nat -> toReadDirect c = true -> directRead c = true -> underlay c = rest ->
  exists c' r, reader_Read k got c = (c', r) /\ read_outcome k rest 0 c' r.
Proof.
  intros K T D E. unfold reader_Read. st_pure. rewrite D. unfold underlay_Read. rewrite E. destruct rest as [|x u].
  - rewrite decide_False by lia. eexists _, _. split; [done|]. by right.
  - eexists _, _. split; [done|]. left. exists (take (Nat.min k (Nat.max 1 got)) (x :: u)), (drop (Nat.min k (Nat.max 1 got)) (x :: u)), 0%nat.
    split; [done|]. split; [by rewrite take_drop|]. split; [right; right; left; done|]. split; [rewrite length_take; lia|]. rewrite length_drop. cbn. lia.
Qed.

(** The content of the current frame. *)
Lemma read_content fuel k got c cont pad ph : (0 < k)%nat -> r_padded c cont pad ph -> cont <> [] ->
  exists c' r, read fuel k got c = (c', r) /\ read_outcome k (cont ++ ph_payload ph) 1 c' r.
Proof.
  intros K ((W & O & U & P) & (T & D & IN & RN) & Hc & Hp & Hl & Hf & Ho & Hu) N. assert (Lc : (0 < length cont)%nat) by (destruct cont; [done|cbn; lia]).
  destruct fuel; cbn [read]; st_pure; rewrite decide_True by lia; cbv zeta.
  all: set (k' := if decide _ then _ else _); assert (K' : (0 < k' <= length cont /\ k' <= k)%nat) by (unfold k'; case_decide; lia).
  all: assert (No : over c <> []) by (rewrite Ho; by destruct cont).
  all: destruct (overlay_Read_ok k' c O No) as (i & rs & a & E1 & Eo & F & La & Ha); specialize (Ha ltac:(lia)).
  all: assert (E2 : try (reader_Read k' got) c = (with_over i rs c, Ret (inl a))) by (unfold try, reader_Read; erewrite st_bind_Ret by reflexivity; rewrite D, E1; done).
  all: st_call E2; st_pure; set (c1 := set_reading _ _ _ _ _); destruct (FilterTLS_ok a c1 W) as (f & E3 & Wf); st_call E3.
  all: eexists _, _; split; [reflexivity|]; left.
  all: rewrite Eo in Ho; assert (Ec : cont = a ++ drop (length a) cont) by
    (rewrite <- (take_drop (length a) cont) at 1; f_equal; transitivity (take (length a) (cont ++ pad ++ ph_over (userUUID c) ph)); [by rewrite take_app_le by lia|rewrite <- Ho; by rewrite take_app_length]).
  all: exists a, (drop (length a) cont ++ ph_payload ph), 1%nat; split; [done|]; split; [by rewrite app_assoc, <- Ec|].
  all: split; [|split; [lia|rewrite !length_app, length_drop; destruct a; [done|cbn [length] in *; lia]]].
  all: left; exists (drop (length a) cont), pad, ph; split; [|done]; split_and!; try done.
  1, 3: cbn; rewrite length_drop; lia.
  all: rewrite Ec, <- app_assoc in Ho; apply app_inv_head in Ho; exact Ho.
Qed.

Lemma skip_padding_ok c pad ph : r_padded c [] pad ph -> exists c', skip_padding c c = (c', Ret tt) /\ r_padded c' [] [] ph.
Proof.
  intros ((W & O & U & P) & (T & D & IN & RN) & Hc & Hp & Hl & Hf & Ho & Hu). unfold skip_padding. case_decide as L.
  - destruct (overlay_take_ok (S (length (records c)) + readRemainingPadding c) (readRemainingPadding c) c O) as (i & rs & E & Eo & F); [lia|rewrite Ho, Hp, !length_app; cbn; lia|].
    st_call E. eexists. split; [reflexivity|]. split_and!; try done. rewrite Ho in Eo. cbn [app] in Eo. rewrite Hp, drop_app_length in Eo. exact Eo.
  - eexists. split; [reflexivity|]. destruct pad; [|cbn in Hp; lia]. split_and!; done.
Qed.

Lemma overlay_ReadFull_ok fuel n c : over_ok c -> (n <= fuel)%nat -> (n <= length (over c))%nat ->
  exists i rs, overlay_ReadFull fuel n c = (with_over i rs c, Ret (take n (over c))) /\ i ++ concat rs = drop n (over c) /\ Forall (fun r => r <> []) rs.
Proof. intros O L1 L2. unfold overlay_ReadFull. destruct (overlay_take_ok fuel n c O L1 L2) as (i & rs & -> & R). by exists i, rs. Qed.

Lemma read_header_ok c first cmd f ph : r_padded c [] [] (PFrames first ph.1 ph.2) ->
  forall ph', over c = (if first then userUUID c else []) ++ frame_bytes cmd f ++ ph_over (userUUID c) ph' -> frm_ok f -> ph_ok ph' -> cmd = ph_cmd ph' ->
  (match ph' with PFrames first _ _ => first = false | _ => True end) -> rawInput c ++ underlay c = ph_under ph' ->
  exists c', read_header c c = (c', Ret tt) /\ r_padded c' (content f) (padding f) ph'.
Proof.
  intros ((W & O & U & P) & (T & D & IN & RN) & Hc & Hp & Hl & Hf & _ & _) ph' Ho [Lc Lp] P' Hcmd Hfirst Hu. cbn in Hf.
  set (hd := cmd :: be16 (Z.of_nat (length (content f))) ++ be16 (Z.of_nat (length (padding f)))).
  assert (Lhd : length hd = 5%nat) by reflexivity.
  set (idp := if first then userUUID c else []) in *. assert (Lid : length idp = if first then uuidLen else 0%nat) by (unfold idp; by destruct first).
  assert (Ho' : over c = (idp ++ hd) ++ content f ++ padding f ++ ph_over (userUUID c) ph').
  { rewrite Ho. unfold hd, frame_bytes. rewrite <- !app_assoc. cbn [app]. by rewrite <- !app_assoc. }
  unfold read_header. rewrite Hf. cbv zeta. rewrite <- Lid. set (need := (length idp + PaddingHeaderLen - uuidLen)%nat).
  assert (Ln : need = length (idp ++ hd)) by (rewrite length_app, Lhd; unfold need, PaddingHeaderLen; lia).
  destruct (overlay_ReadFull_ok (S (length (records c)) + need) need c O) as (i & rs & E & Eo & F); [lia|rewrite Ho', length_app; lia|].
  rewrite Ho', Ln, take_app_length in E. rewrite Ho', Ln, drop_app_length in Eo. rewrite Ln. st_call E.
  assert (S1 : forall c1 : Conn, exists c2, (if first then
         _ ← modify (fun c => set_reading (readRemainingContent c) (readRemainingPadding c) false (readLastCommand c) c);
         id ← lift (slice (idp ++ hd) 0 uuidLen);
         if decide (userUUID c = id) then mret tt else fail (Errorf "XTLS Vision server responded unknown UUID: %s: %w")
       else mret tt) c1 = (c2, Ret tt) /\ c2 = set_reading (readRemainingContent c1) (readRemainingPadding c1) (if first then false else readFilterUUID c1) (readLastCommand c1) c1).
  { intros c1. destruct first; [|eexists; split; [reflexivity|by destruct c1]]. st_pure. st_lift ltac:(apply (slice_eq (idp ++ hd) 0 uuidLen); rewrite ?length_app, ?Lid; lia).
    rewrite drop_0, Nat.sub_0_r, take_app_length' by (rewrite Lid; lia). rewrite decide_True by done. by eexists. }
  destruct (S1 (with_over i rs c)) as (c2 & E2 & ->). st_call E2.
  st_lift ltac:(apply slice_from_eq; rewrite length_app; lia). rewrite drop_app_length.
  st_lift ltac:(apply slice_eq; lia). st_lift ltac:(apply slice_eq; lia). rewrite (st_lift_Ret (index hd 0) _ _ cmd eq_refl).
  eexists. split; [reflexivity|].
  assert (B1 : take (3 - 1) (drop 1 hd) = be16 (Z.of_nat (length (content f)))) by reflexivity.
  assert (B2 : take (5 - 3) (drop 3 hd) = be16 (Z.of_nat (length (padding f)))) by reflexivity.
  rewrite B1, B2, !be_get_put_small by (cbn; lia). rewrite !Nat2Z.id.
  split_and!; try done. cbn. destruct ph' as [fi ? ?| |]; [|done..]. subst fi. cbn. rewrite Hf. by destruct first.
Qed.

(** Running out of frames. *)
Lemma read_header_EOF c first : r_padded c [] [] (PFrames first [] Open) -> read_header c c = (c, Fail EOF).
Proof.
  intros ((W & O & U & P) & (T & D & IN & RN) & Hc & Hp & Hl & Hf & Ho & Hu). cbn in Hf. assert (Ho' : over c = []) by (rewrite Ho; by destruct first).
  unfold read_header. cbv zeta. set (need := (_ + PaddingHeaderLen - uuidLen)%nat). assert (0 < need)%nat by (unfold need, PaddingHeaderLen, uuidLen; lia).
  erewrite st_bind_Fail; [done|]. unfold overlay_ReadFull. rewrite overlay_take_EOF by (done || lia). by rewrite decide_True.
Qed.

(** The start of the direct mode: nothing is left of the overlay. *)
Lemma read_direct_ok k got c rest slack : (0 < k)%nat -> toReadDirect c = false -> readRemainingContent c = 0%nat -> readRemainingPadding c = 0%nat ->
  readLastCommand c = commandPaddingDirect -> (inputNil c = true \/ input c = []) -> rawNil c = false -> rawInput c ++ underlay c = rest ->
  (inputNil c = true /\ rawInput c <> [] \/ slack = 1%nat) ->
  exists c' r, read_direct k got c = (c', r) /\ read_outcome k rest slack c' r.
Proof.
  intros K T C P L I R E S. unfold read_direct. st_pure. rewrite R.
  assert (negb (inputNil c) && bool_decide (k < length (input c))%nat = false) as ->.
  { destruct I as [->| ->]; [done|]. rewrite bool_decide_false by (cbn; lia). apply andb_false_r. }
  assert (Ea : (if inputNil c then [] else input c) = []) by (destruct I as [->| ->]; [done|by destruct (inputNil c)]). rewrite Ea. cbv zeta. cbn [length app orb]. rewrite Nat.sub_0_r, andb_false_r.
  st_pure. set (raw := drop k (rawInput c)).
  assert (Er : rest = take k (rawInput c) ++ raw ++ underlay c) by (unfold raw; by rewrite app_assoc, take_drop).
  assert (Hm : (length (raw ++ underlay c) + 0 < length rest + slack)%nat).
  { rewrite Er. rewrite (length_app (take k _)), length_take. destruct S as [[_ S]|S]; [|lia]. destruct (rawInput c); [done|]. cbn [length]. lia. }
  destruct (bool_decide (raw = [])) eqn:B.
  - apply bool_decide_eq_true in B. st_pure. eexists _, _. split; [reflexivity|]. left. exists (take k (rawInput c)), (raw ++ underlay c), 0%nat.
    split; [done|]. split; [done|]. split; [|split; [rewrite length_take; lia|done]]. right; right; left. rewrite B. done.
  - apply bool_decide_eq_false in B. st_pure. eexists _, _. split; [reflexivity|]. left. exists (take k (rawInput c)), (raw ++ underlay c), 0%nat.
    split; [done|]. split; [done|]. split; [|split; [rewrite length_take; lia|done]]. right; right; right. done.
Qed.

Lemma read_padded fuel : forall k got c cont pad ph, (0 < k)%nat -> r_padded c cont pad ph -> (ph_frames ph <= fuel)%nat ->
  exists c' r, read fuel k got c = (c', r) /\ read_outcome k (cont ++ ph_payload ph) 1 c' r.
Proof.
  induction fuel as [|fuel IH]; intros k got c cont pad ph K R L.
  all: destruct (decide (cont = [])) as [->|N]; [|by apply (read_content _ k got c cont pad ph)]; cbn [read]; st_pure.
  all: pose proof R as (_ & _ & Rc & _); rewrite decide_False by (rewrite Rc; cbn; lia).
  all: destruct (skip_padding_ok c pad ph R) as (c1 & E1 & R1); st_call E1; st_pure; clear c E1 R Rc pad.
  all: pose proof R1 as ((W & O & U & P) & (T & D & IN & RN) & Hc & Hp & Hl & Hf & Ho & Hu); rewrite T, Hl.
  all: destruct ph as [first fs e|t|t]; cbn [ph_cmd ph_frames] in *; try lia.
  - change (commandPaddingDirect) with x02. rewrite decide_False by done. rewrite decide_False by done. rewrite decide_True by done.
    apply read_direct_ok; try done; [|by right]. right. by apply (over_nil c1) in Ho as [? ?].
  - rewrite decide_True by done. destruct fs as [|f fs].
    + destruct e as [|f t|f t].
      * rewrite (st_bind_Fail _ _ _ _ _ (read_header_EOF c1 first R1)). eexists _, _. split; [done|]. right. done.
      * destruct (read_header_ok c1 first commandPaddingEnd f ([], Ended f t) R1 (PEnd t)) as (c2 & E2 & R2); try done; try apply P.
        { rewrite Ho. cbn. by destruct first. }
        st_call E2. destruct (IH k got c2 _ _ _ K R2) as (c' & r & -> & H); [cbn; lia|]. eexists _, _. done.
      * destruct (read_header_ok c1 first commandPaddingDirect f ([], Switched f t) R1 (PDirect t)) as (c2 & E2 & R2); try done; try apply P.
        { rewrite Ho. cbn. rewrite app_nil_r. by destruct first. }
        st_call E2. destruct (IH k got c2 _ _ _ K R2) as (c' & r & -> & H); [cbn; lia|]. eexists _, _. done.
    + destruct P as [[Pf Pfs]%Forall_cons Pe].
      destruct (read_header_ok c1 first commandPaddingContinue f (f :: fs, e) R1 (PFrames false fs e)) as (c2 & E2 & R2); try done.
      { rewrite Ho. cbn [ph_over app]. unfold frames_of. rewrite bind_cons, <- app_assoc. by destruct first. }
      st_call E2. destruct (IH k got c2 _ _ _ K R2) as (c' & r & -> & H); [cbn in *; lia|]. eexists _, _. split; [done|].
      cbn [ph_payload app] in *. unfold payload_of in *. rewrite bind_cons, <- app_assoc. done.
  - rewrite decide_False by done. rewrite decide_True by done. st_pure. destruct fuel; cbn [read]; st_pure.
    all: rewrite decide_False by (cbn [readRemainingContent set_toReadDirect]; rewrite Hc; cbn; lia).
    all: erewrite st_bind_Ret; [|unfold skip_padding; rewrite decide_False by (cbn [readRemainingPadding set_toReadDirect]; rewrite Hp; cbn; lia); reflexivity].
    all: st_pure; cbn [toReadDirect set_toReadDirect].
    all: destruct (reader_end k got (set_toReadDirect true (directRead c1) c1) t) as (c' & r & -> & H); try done; eexists _, _; (split; [done|]).
    all: destruct H as [(a & rest & sl & ? & ? & ? & ? & ?)|H]; [left; exists a, rest, sl; split_and!; try done; cbn [app ph_payload]; lia|by right].
  - rewrite decide_False by done. rewrite decide_False by done. rewrite decide_True by done.
    apply read_direct_ok; try done; [|by right]. right. by apply (over_nil c1) in Ho as [? ?].
Qed.

Lemma frames_length fs : (length fs <= length (frames_of fs))%nat.
Proof. induction fs as [|f fs IH]; [done|]. unfold frames_of in *. rewrite bind_cons, length_app. cbn [length frame_bytes]. lia. Qed.

Lemma ph_fuel id ph : (ph_frames ph <= 2 + length (ph_over id ph))%nat.
Proof.
  destruct ph as [first fs e|t|t]; cbn [ph_frames]; [|lia..]. destruct fs as [|f fs]; [cbn; lia|]. pose proof (frames_length (f :: fs)).
  assert (length (f :: fs) <= length (ph_over id (PFrames first (f :: fs) e)))%nat; [|lia]. cbn [ph_over]. destruct first; rewrite !length_app; lia.
Qed.

(** One [Read]: the next bytes of what is left, or the end of the stream. *)
Lemma conn_Read_ok k got c rest slack : (0 < k)%nat -> r_conn c rest slack -> exists c' r, Read k got c = (c', r) /\ read_outcome k rest slack c' r.
Proof.
  intros K H. unfold Read. st_pure. destruct H as [(cont & pad & ph & R & -> & ->)|[(O & T & D & E & ->)|[(T & D & E & ->)|(T & C & P & L & I & RN & N & E & ->)]]].
  - pose proof R as (_ & (T & _) & _ & _ & _ & _ & Ho & _). rewrite T. apply (read_padded _ _ _ _ _ pad); [done..|].
    unfold read_fuel. rewrite <- Nat.add_assoc, <- length_app. change (input c ++ concat (records c)) with (over c). rewrite Ho.
    pose proof (ph_fuel (userUUID c) ph). rewrite !length_app. lia.
  - rewrite T. by apply reader_end.
  - rewrite T. by apply reader_direct.
  - rewrite T. unfold read_fuel. cbn [read Nat.add]. st_pure. rewrite decide_False by lia. erewrite st_bind_Ret; [|unfold skip_padding; rewrite decide_False by lia; reflexivity].
    st_pure. rewrite T, L. rewrite decide_False by done. rewrite decide_False by done. rewrite decide_True by done.
    apply read_direct_ok; try done; by left.
Qed.

(** A reader that calls [Read] with the given buffer sizes until one fails. *)
Fixpoint reads (ks : list (nat * nat)) (c : Conn) : Conn * list byte * res unit :=
  match ks with
  | [] => (c, [], Ret tt)
  | (k, got) :: ks =>
      match Read k got c with
      | (c, Ret a) => let '(c, b, r) := reads ks c in (c, a ++ b, r)
      | (c, Fail e) => (c, [], Fail e)
      | (c, Panic) => (c, [], Panic)
      end
  end.

(** What the reads obtain is a prefix of what is left; enough of them obtain
    everything and meet the end. *)
Lemma conn_reads_ok ks : forall c rest slack, Forall (fun x : nat * nat => (0 < x.1)%nat) ks -> r_conn c rest slack ->
  exists c' a rest' r, reads ks c = (c', a, r) /\ rest = a ++ rest' /\ (r = Ret tt \/ r = Fail EOF /\ rest' = []) /\
    ((length rest + slack < length ks)%nat -> r = Fail EOF).
Proof.
  induction ks as [|[k got] ks IH]; intros c rest slack F R; cbn [reads].
  - exists c, [], rest, (Ret tt). split; [done|]. split; [done|]. split; [by left|]. cbn. lia.
  - apply Forall_cons in F as [K F]. destruct (conn_Read_ok k got c rest slack K R) as (c1 & r & -> & [(a & rest1 & sl & -> & -> & R1 & _ & L)|[-> ->]]).
    + destruct (IH c1 rest1 sl F R1) as (c2 & b & rest2 & r2 & -> & -> & Hr & Hl). exists c2, (a ++ b), rest2, r2. split; [done|].
      split; [by rewrite app_assoc|]. split; [done|]. intros Lk. apply Hl. cbn [length] in Lk. lia.
    + exists c1, [], [], (Fail EOF). split; [done|]. split; [done|]. split; [by right|done].
Qed.
