(* ===== verification/VisionStream.v ===== *)
(** The Vision stream from end to end: what the writing side puts on the two
    connections is what the reading side delivers. *)

From S2P Require Import Prelude GoStrings GoState Pool Transport Vision VisionRound.
From Stdlib Require Import Strings.Byte.

(** * The writing side *)

Section writing.
Context {BS : BufferSource}.

Definition is_open (e : ending) : bool := match e with Open => true | _ => false end.
Definition is_switched (e : ending) : bool := match e with Switched _ _ => true | _ => false end.

(** The frames [fs] and the ending [e] are on the wire; [data] is what they carry. *)
Definition w_inv (c : Conn) (fs : list frm) (e : ending) (data : list byte) : Prop :=
  tlsConn c = Outer13 /\ filter_wf (filter c) /\ Forall frm_ok fs /\ end_ok e /\
  overlayOut c = sent (if needHandshake c then [] else userUUID c ++ frames_of fs ++ end_overlay e) /\ underlayOut c = sent (end_underlay e) /\
  (if needHandshake c then fs = [] /\ e = Open else fs <> []) /\
  writeFilterApplicationData c = is_open e /\ writeDirect c = is_switched e /\ toWriteDirect c = is_switched e /\ payload_of fs e = data.

Lemma writePadding_ok p cmd id long d c w : Z.of_nat (length p) < 65536 -> writeDirect c = false -> overlayOut c = sent w ->
  exists f, content f = p /\ frm_ok f /\
    writePadding p cmd id long d c = (set_outs (sent (w ++ default [] id ++ frame_bytes cmd f)) (underlayOut c) c, Ret tt).
Proof.
  intros L D O. destruct (ApplyPadding_ok p cmd id long d) as (pad & Lp & E). exists (MkFrm p pad). split; [done|]. split; [split; cbn; lia|].
  unfold writePadding. rewrite (st_lift_Ret _ _ _ _ E). unfold writer_WriteFull. rewrite D, O, WriteFull_sent. done.
Qed.

Lemma frames_snoc fs f : frames_of (fs ++ [f]) = frames_of fs ++ frame_bytes commandPaddingContinue f.
Proof. unfold frames_of. rewrite bind_app. cbn. by rewrite app_nil_r. Qed.
Lemma payload_snoc fs f : payload_of (fs ++ [f]) Open = payload_of fs Open ++ content f.
Proof. unfold payload_of. rewrite bind_app. cbn. by rewrite !app_nil_r. Qed.
Lemma payload_end fs e : payload_of fs e = payload_of fs Open ++ end_payload e.
Proof. unfold payload_of. cbn. by rewrite app_nil_r. Qed.

(** ** Emitting frames *)

(** What is on the wire, apart from the flags of the writer. *)
Definition w_at (c : Conn) (fs : list frm) (e : ending) : Prop :=
  tlsConn c = Outer13 /\ filter_wf (filter c) /\ Forall frm_ok fs /\ end_ok e /\ needHandshake c = false /\ fs <> [] /\
  overlayOut c = sent (userUUID c ++ frames_of fs ++ end_overlay e) /\ underlayOut c = sent (end_underlay e).
Definition ident (c : Conn) : list byte * tlsFilter := (userUUID c, filter c).
Definition flags (c : Conn) : bool * bool * bool := (writeFilterApplicationData c, writeDirect c, toWriteDirect c).

Lemma w_at_inv c fs e data : w_at c fs e -> flags c = (is_open e, is_switched e, is_switched e) -> payload_of fs e = data -> w_inv c fs e data.
Proof. intros (H1 & H2 & H3 & H4 & H5 & H6 & H7 & H8) [= F1 F2 F3] P. unfold w_inv. rewrite H5. by split_and!. Qed.

(** The ending that a command makes of a frame behind [fs]. *)
Definition emitted (cmd : byte) (fs : list frm) (f : frm) : list frm * ending :=
  if decide (cmd = commandPaddingContinue) then (fs ++ [f], Open)
  else if decide (cmd = commandPaddingEnd) then (fs, Ended f []) else (fs, Switched f []).

Lemma emit_ok p cmd long d c fs : (cmd = commandPaddingContinue \/ cmd = commandPaddingEnd \/ cmd = commandPaddingDirect) ->
  Z.of_nat (length p) < 65536 -> w_at c fs Open -> writeDirect c = false ->
  exists c' f, writePadding p cmd None long d c = (c', Ret tt) /\ w_at c' (emitted cmd fs f).1 (emitted cmd fs f).2 /\ flags c' = flags c /\
    payload_of (emitted cmd fs f).1 (emitted cmd fs f).2 = payload_of fs Open ++ p /\ ident c' = ident c.
Proof.
  intros Hc L (H1 & H2 & H3 & H4 & H5 & H6 & H7 & H8) D. cbn [end_overlay] in H7. rewrite app_nil_r in H7.
  destruct (writePadding_ok p cmd None long d c _ L D H7) as (f & Ef & Hf & E). eexists _, f. split; [exact E|]. rewrite H8. cbn [default].
  destruct Hc as [->|[->| ->]]; cbn [emitted].
  - unfold emitted. rewrite decide_True by done. cbn [fst snd]. split; [|by rewrite payload_snoc, Ef]. unfold w_at. cbn. split_and!; try done.
    + apply Forall_app. split; [done|]. by constructor.
    + by destruct fs.
    + f_equal. rewrite frames_snoc, app_nil_r. by rewrite <- !app_assoc.
  - unfold emitted. rewrite decide_False by done. rewrite decide_True by done. cbn [fst snd]. split; [|rewrite (payload_end _ (Ended _ _)); cbn; by rewrite app_nil_r, Ef].
    unfold w_at. cbn. split_and!; try done. f_equal. by rewrite <- !app_assoc, app_nil_r.
  - unfold emitted. rewrite !decide_False by done. cbn [fst snd]. split; [|rewrite (payload_end _ (Switched _ _)); cbn; by rewrite app_nil_r, Ef].
    unfold w_at. cbn. split_and!; try done. f_equal. by rewrite <- !app_assoc.
Qed.

(** Plain data behind the end of the padded part. *)
Definition tail_more (e : ending) (b : list byte) : ending :=
  match e with Open => Open | Ended f t => Ended f (t ++ b) | Switched f t => Switched f (t ++ b) end.

Lemma tail_ok b c fs e : is_open e = false -> w_at c fs e -> writeDirect c = is_switched e ->
  exists c', writer_WriteFull b c = (c', Ret tt) /\ writer_Write b c = (c', Ret (length b)) /\ w_at c' fs (tail_more e b) /\ flags c' = flags c /\
    payload_of fs (tail_more e b) = payload_of fs e ++ b /\ ident c' = ident c.
Proof.
  intros He (H1 & H2 & H3 & H4 & H5 & H6 & H7 & H8) D. unfold writer_WriteFull, writer_Write. rewrite D.
  destruct e as [|f t|f t]; [done|..]; cbn [is_switched] in *.
  - rewrite H7, WriteFull_sent. unfold conn_Write; cbn [sent t_closed t_plan t_out]. eexists. split; [done|]. split; [done|]. rewrite H8.
    split; [|split; [done|split; [|done]]]; [|unfold payload_of; cbn; by rewrite <- !app_assoc]. unfold w_at. cbn -[frame_bytes]. split_and!; try done. f_equal. by rewrite <- !app_assoc.
  - rewrite H8, WriteFull_sent. unfold conn_Write; cbn [sent t_closed t_plan t_out]. eexists. split; [done|]. split; [done|]. rewrite H7.
    split; [|split; [done|split; [|done]]]; [|unfold payload_of; cbn; by rewrite <- !app_assoc]. unfold w_at. cbn. by split_and!.
Qed.

(** ** One write *)

Lemma last_frame_ok (m : st Conn unit) c c' : m c = (c', Ret tt) -> last_frame m c = (c', Ret None).
Proof. intros E. unfold last_frame, try. erewrite st_bind_Ret; [|by rewrite E]. done. Qed.

(** The result of the frames of one write: [p] is appended, and the switch to the raw
    connection needs complete records and an inner TLS 1.3 connection. *)
Definition frames_done (c c' : Conn) (fs : list frm) (p : list byte) (complete xtls : bool) : Prop :=
  exists fs' e', w_at c' fs' e' /\ flags c' = (is_open e', false, is_switched e') /\ payload_of fs' e' = payload_of fs Open ++ p /\
    ident c' = ident c /\ (is_switched e' = true -> complete = true /\ xtls = true).

Lemma write_one_ok p complete sn d c fs : Z.of_nat (length p) < 65536 -> w_at c fs Open -> flags c = (true, false, false) ->
  exists c', write_one p complete sn d c = (c', Ret None) /\ frames_done c c' fs p complete (enableXTLS sn).
Proof.
  intros L A [= F1 F2 F3]. unfold write_one. cbv zeta. destruct (complete && startsWithAppData p) eqn:C; [|destruct (negb (isTLS12orAbove sn) && _)].
  - apply andb_true_iff in C as [-> _]. st_pure. st_pure. set (c1 := set_writing _ _ _ _ _).
    destruct (emit_ok p (if enableXTLS sn then commandPaddingDirect else commandPaddingEnd) true d c1 fs) as (c' & f & E & A' & Fl & Pl & U); try done; [destruct (enableXTLS sn); auto|].
    exists c'. split; [by apply last_frame_ok|]. eexists _, _. split; [exact A'|]. rewrite Fl. unfold flags. cbn. rewrite F2. split; [by destruct (enableXTLS sn)|].
    split; [done|]. split; [done|]. by destruct (enableXTLS sn).
  - st_pure. set (c1 := set_writing _ _ _ _ _). destruct (emit_ok p commandPaddingEnd (isTLS sn) d c1 fs) as (c' & f & E & A' & Fl & Pl & U); try done; [auto|].
    exists c'. split; [by apply last_frame_ok|]. eexists _, _. split; [exact A'|]. rewrite Fl. unfold flags. cbn. by rewrite F2, F3.
  - destruct (emit_ok p commandPaddingContinue (isTLS sn) d c fs) as (c' & f & E & A' & Fl & Pl & U); try done; [auto|].
    exists c'. split; [by apply last_frame_ok|]. eexists _, _. split; [exact A'|]. rewrite Fl. unfold flags. cbn. by rewrite F1, F2, F3.
Qed.

Lemma write_two_ok p p2 complete sn d d2 c fs : Z.of_nat (length p) < 65536 -> Z.of_nat (length p2) < 65536 -> w_at c fs Open -> flags c = (true, false, false) ->
  exists c', write_two p p2 complete sn d d2 c = (c', Ret None) /\ frames_done c c' fs (p ++ p2) complete (enableXTLS sn).
Proof.
  intros L L2 A [= F1 F2 F3]. unfold write_two. cbv zeta. destruct (complete && startsWithAppData p) eqn:C; [|destruct (negb (isTLS12orAbove sn) && _)].
  - apply andb_true_iff in C as [-> _]. st_pure. st_pure. set (c1 := set_writing _ _ _ _ _).
    destruct (emit_ok p commandPaddingContinue true d c1 fs) as (c2 & f & E & A' & Fl & Pl & U); try done; [auto|]. st_call E. injection Fl as G1 G2 G3.
    destruct (emit_ok p2 (if enableXTLS sn then commandPaddingDirect else commandPaddingEnd) (startsWithAppData p2) d2 c2 (fs ++ [f])) as (c' & f2 & E2 & A2 & Fl2 & Pl2 & U2);
      [destruct (enableXTLS sn); auto|done|exact A'|congruence|].
    exists c'. split; [by apply last_frame_ok|]. eexists _, _. split; [exact A2|]. rewrite Fl2. unfold flags. rewrite G1, G2, G3. cbn. rewrite F2. split; [by destruct (enableXTLS sn)|].
    split; [etransitivity; [exact Pl2|]; change (payload_of (fs ++ [f]) Open = payload_of fs Open ++ p) in Pl; rewrite Pl; by rewrite <- app_assoc|]. split; [by rewrite U2, U|]. by destruct (enableXTLS sn).
  - st_pure. set (c1 := set_writing _ _ _ _ _). destruct (emit_ok p commandPaddingEnd (isTLS sn) d c1 fs) as (c2 & f & E & A' & Fl & Pl & U); try done; [auto|]. st_call E.
    injection Fl as G1 G2 G3. destruct (tail_ok p2 c2 fs (Ended f [])) as (c' & E2 & _ & A2 & Fl2 & Pl2 & U2); [done..|by rewrite G2|].
    exists c'. split; [by apply last_frame_ok|]. eexists _, _. split; [exact A2|]. rewrite Fl2. unfold flags. rewrite G1, G2, G3. cbn. rewrite F2, F3. split; [done|].
    split; [etransitivity; [exact Pl2|]; change (payload_of fs (Ended f []) = payload_of fs Open ++ p) in Pl; rewrite Pl; by rewrite <- app_assoc|]. split; [by rewrite U2, U|done].
  - destruct (emit_ok p commandPaddingContinue (isTLS sn) d c fs) as (c2 & f & E & A' & Fl & Pl & U); try done; [auto|]. st_call E. injection Fl as G1 G2 G3.
    destruct (emit_ok p2 commandPaddingContinue (isTLS sn) d2 c2 (fs ++ [f])) as (c' & f2 & E2 & A2 & Fl2 & Pl2 & U2); [auto|done|exact A'|congruence|].
    exists c'. split; [by apply last_frame_ok|]. eexists _, _. split; [exact A2|]. rewrite Fl2. unfold flags. rewrite G1, G2, G3. cbn. rewrite F1, F2, F3. split; [done|].
    split; [etransitivity; [exact Pl2|]; change (payload_of (fs ++ [f]) Open = payload_of fs Open ++ p) in Pl; rewrite Pl; by rewrite <- app_assoc|]. split; [by rewrite U2, U|done].
Qed.

(** The frame with the user id. *)
Lemma write_handshake_ok p d c data : Z.of_nat (length p) < 65536 -> w_inv c [] Open data -> needHandshake c = true ->
  exists c' f, write_handshake p d c = (c', Ret tt) /\ w_inv c' [f] Open (data ++ p) /\ userUUID c' = userUUID c.
Proof.
  intros L (H1 & H2 & H3 & H4 & H5 & H6 & H7 & H8 & H9 & H10 & H11) N. unfold write_handshake. st_pure. set (c1 := set_writing _ _ _ _ _).
  assert (S : exists g, (if decide (p = []) then mret tt else FilterTLS p) c1 = (set_filter g c1, Ret tt) /\ filter_wf g).
  { case_decide; [exists (filter c1); split; [by destruct c|done]|]. by apply FilterTLS_ok. }
  destruct S as (g & E & Wg). st_call E. st_pure. set (c2 := set_filter g c1). cbv zeta.
  destruct (writePadding_ok p commandPaddingContinue (Some (userUUID c2)) (if decide (p = []) then true else isTLS (filter c2)) d c2 []) as (f & Ef & Hf & E2).
  { done. } { exact H9. } { cbn. rewrite H5, N. done. }
  st_call E2. change (tlsConn c2) with (tlsConn c). rewrite H1. eexists _, f. split; [reflexivity|]. split; [|done].
  unfold w_inv. cbn -[frame_bytes frames_of]. split_and!; try done; [by constructor| |].
  - f_equal. unfold frames_of. cbn -[frame_bytes]. by rewrite !app_nil_r.
  - rewrite <- H11. unfold payload_of. cbn. by rewrite !app_nil_r, Ef.
Qed.

Lemma w_inv_at c fs e data : w_inv c fs e data -> needHandshake c = false -> w_at c fs e.
Proof. intros (H1 & H2 & H3 & H4 & H5 & H6 & H7 & _) N. rewrite N in *. by split_and!. Qed.

(** The end of a write in the filtered part. *)
Lemma write_finish_ok c c' fs p complete xtls (data : list byte) : frames_done c c' fs p complete xtls -> payload_of fs Open = data ->
  exists fs' e', w_inv (set_writing (needHandshake c') (writeFilterApplicationData c') (writeDirect c' || toWriteDirect c') (toWriteDirect c') c') fs' e' (data ++ p) /\
    (is_switched e' = true -> complete = true /\ xtls = true).
Proof.
  intros (fs' & e' & A & [= F1 F2 F3] & P & _ & S) <-. exists fs', e'. split; [|done]. apply w_at_inv; [exact A| |done]. unfold flags. cbn. by rewrite F1, F2, F3.
Qed.

Lemma write_filtered_ok p d d2 c fs data : Z.of_nat (length p) < 65536 -> w_inv c fs Open data -> needHandshake c = false ->
  exists c' fs' e', write p d d2 c = (c', Ret tt) /\ w_inv c' fs' e' (data ++ p) /\ userUUID c' = userUUID c /\
    (is_switched e' = true -> isCompleteAppDataRecords p = true /\ enableXTLS (filter c') = true).
Proof.
  intros L I N. pose proof (w_inv_at _ _ _ _ I N) as A. destruct I as (_ & W & _ & _ & _ & _ & _ & F1 & F2 & F3 & P).
  unfold write. st_pure. rewrite N, F1. cbn [is_open]. destruct (ReshapeBytes_ok p) as (q & q2 & -> & Ep). cbv zeta.
  destruct (FilterTLS_ok q c W) as (g & E & Wg). st_call E.
  assert (S : exists g2, match q2 with Some q2 => FilterTLS q2 | None => mret tt end (set_filter g c) = (set_filter g2 c, Ret tt) /\ filter_wf g2).
  { destruct q2; [|by exists g]. destruct (FilterTLS_ok l (set_filter g c) Wg) as (g2 & E2 & W2). exists g2. by rewrite E2. }
  destruct S as (g2 & E2 & W2). st_call E2. st_pure. set (c1 := set_filter g2 c).
  assert (A1 : w_at c1 fs Open) by (destruct A as (?&?&?&?&?&?&?&?); by split_and!). assert (Fl1 : flags c1 = (true, false, false)) by (unfold flags; cbn; by rewrite F1, F2, F3).
  assert (Lq : Z.of_nat (length q) < 65536 /\ Z.of_nat (length (default [] q2)) < 65536) by (rewrite Ep, length_app in L; lia). destruct Lq as [Lq Lq2].
  change (filter c1) with g2. destruct (negb (isTLS g2)).
  - st_pure. st_pure. set (c2 := set_filter _ _). destruct (emit_ok q commandPaddingEnd false d c2 fs) as (c3 & f & E3 & A3 & Fl3 & P3 & U3); [auto|done| |exact F2|].
    { destruct A as (?&?&?&?&?&?&?&?). by split_and!. }
    change (w_at c3 fs (Ended f [])) in A3. change (payload_of fs (Ended f []) = payload_of fs Open ++ q) in P3. st_call E3. injection Fl3 as G1 G2 G3.
    destruct q2 as [q2|].
    + destruct (tail_ok q2 c3 fs (Ended f [])) as (c4 & E4 & _ & A4 & Fl4 & P4 & U4); [done..|by rewrite G2|]. exists c4, fs, (Ended f q2). split; [done|]. injection Fl4 as K1 K2 K3.
      split; [|split; [injection U4; injection U3; intros; etransitivity; done|done]]. apply w_at_inv; [exact A4| |rewrite Ep; cbn [default]; rewrite app_assoc, <- P, <- P3; exact P4].
      unfold flags. rewrite K1, K2, K3, G1, G2, G3. cbn. by rewrite F2, F3.
    + exists c3, fs, (Ended f []). split; [done|]. split; [|split; [by injection U3|done]].
      apply w_at_inv; [exact A3| |rewrite Ep; cbn [default]; by rewrite app_nil_r, <- P]. unfold flags. rewrite G1, G2, G3. cbn. by rewrite F2, F3.
  - assert (S : exists c2, match q2 with None => write_one q (isCompleteAppDataRecords p) g2 d | Some p2 => write_two q p2 (isCompleteAppDataRecords p) g2 d d2 end c1 = (c2, Ret None) /\
      frames_done c1 c2 fs p (isCompleteAppDataRecords p) (enableXTLS g2)).
    { assert (Fd : forall c2 b x, frames_done c1 c2 fs (q ++ default [] q2) b x -> frames_done c1 c2 fs p b x) by (intros; by rewrite Ep).
      destruct q2 as [q2|]; cbn [default] in *; rewrite ?app_nil_r in Fd.
      - destruct (write_two_ok q q2 (isCompleteAppDataRecords p) g2 d d2 c1 fs Lq Lq2 A1 Fl1) as (c2 & ? & ?). eauto.
      - destruct (write_one_ok q (isCompleteAppDataRecords p) g2 d c1 fs Lq A1 Fl1) as (c2 & ? & ?). eauto. }
    destruct S as (c2 & E3 & D). st_call E3. st_pure. destruct (write_finish_ok _ _ _ _ _ _ data D P) as (fs' & e' & I' & Sw). destruct D as (?&?&?&?&?& U &?). injection U as U Fg.
    eexists _, fs', e'. split; [reflexivity|]. split; [exact I'|]. split; [exact U|]. cbn. by rewrite Fg.
Qed.

(** ** A sequence of calls *)

(** Writes, the timer that flushes the first frame, and what the reading side of the
    same connection shows to the shared sniffer. *)
Inductive wop := WWrite (p : list byte) (d d2 : draw) | WFlush (d d2 : draw) | WSniff (b : list byte).
Definition wop_step (o : wop) : st Conn unit :=
  match o with
  | WWrite p d d2 => _ ← Write p d d2; mret tt
  | WFlush d d2 => flushHandshakeIfNeeded d d2
  | WSniff b => FilterTLS b
  end.
Fixpoint wrun (ops : list wop) : st Conn unit := match ops with [] => mret tt | o :: ops => _ ← wop_step o; wrun ops end.
Definition wop_data (o : wop) : list byte := match o with WWrite p _ _ => p | _ => [] end.
Definition wop_ok (o : wop) : Prop := Z.of_nat (length (wop_data o)) < 65536.

Lemma w_inv_tail c fs e data b : w_inv c fs e data -> is_open e = false ->
  exists c', writer_Write b c = (c', Ret (length b)) /\ w_inv c' fs (tail_more e b) (data ++ b) /\ userUUID c' = userUUID c.
Proof.
  intros I O. pose proof I as (_ & _ & _ & _ & _ & _ & N & F1 & F2 & F3 & P). destruct (needHandshake c) eqn:H; [destruct N as [_ ->]; done|].
  destruct (tail_ok b c fs e O (w_inv_at _ _ _ _ I H) F2) as (c' & _ & E & A & Fl & Pl & U). exists c'. split; [done|]. split; [|by injection U].
  apply w_at_inv; [done| |by rewrite Pl, P]. rewrite Fl. unfold flags. rewrite F1, F2, F3. by destruct e.
Qed.

Lemma write_ok p d d2 c fs data : Z.of_nat (length p) < 65536 -> w_inv c fs Open data ->
  exists c' fs' e', write p d d2 c = (c', Ret tt) /\ w_inv c' fs' e' (data ++ p) /\ userUUID c' = userUUID c /\
    (is_switched e' = true -> isCompleteAppDataRecords p = true /\ enableXTLS (filter c') = true).
Proof.
  intros L I. destruct (needHandshake c) eqn:N; [|by apply (write_filtered_ok _ _ _ _ fs)].
  pose proof I as (_ & _ & _ & _ & _ & _ & H & _). rewrite N in H. destruct H as [-> _].
  destruct (write_handshake_ok p d c data L I N) as (c' & f & E & I' & U). exists c', [f], Open. unfold write. st_pure. rewrite N. done.
Qed.

Lemma Write_ok p d d2 c fs e data : Z.of_nat (length p) < 65536 -> w_inv c fs e data ->
  exists c' fs' e', Write p d d2 c = (c', Ret (length p)) /\ w_inv c' fs' e' (data ++ p) /\ userUUID c' = userUUID c /\
    (is_switched e = false -> is_switched e' = true -> isCompleteAppDataRecords p = true /\ enableXTLS (filter c') = true).
Proof.
  intros L I. pose proof I as (_ & _ & _ & _ & _ & _ & _ & F1 & _). unfold Write. st_pure. rewrite F1. destruct (is_open e) eqn:O.
  - destruct e; try done. destruct (write_ok p d d2 c fs data L I) as (c' & fs' & e' & E & I' & U & S). exists c', fs', e'. st_call E. done.
  - destruct (w_inv_tail c fs e data p I O) as (c' & E & I' & U). exists c', fs, (tail_more e p). split; [done|]. split; [done|]. split; [done|]. by destruct e.
Qed.

Lemma wop_step_ok o c fs e data : wop_ok o -> w_inv c fs e data ->
  exists c' fs' e', wop_step o c = (c', Ret tt) /\ w_inv c' fs' e' (data ++ wop_data o) /\ userUUID c' = userUUID c.
Proof.
  intros L I. destruct o as [p d d2|d d2|b]; cbn [wop_step wop_data].
  - destruct (Write_ok p d d2 c fs e data L I) as (c' & fs' & e' & E & I' & U & _). exists c', fs', e'. st_call E. done.
  - unfold flushHandshakeIfNeeded. st_pure. destruct (needHandshake c) eqn:N; cbn [negb]; [|rewrite app_nil_r; by exists c, fs, e].
    pose proof I as (_ & _ & _ & _ & _ & _ & H & _). rewrite N in H. destruct H as [-> ->].
    destruct (write_ok [] d d2 c [] data L I) as (c' & fs' & e' & E & I' & U & _). by exists c', fs', e'.
  - pose proof I as (_ & W & _). destruct (FilterTLS_ok b c W) as (f & E & Wf). exists (set_filter f c), fs, e. split; [done|]. rewrite app_nil_r. split; [|done].
    destruct I as (?&?&?&?&?&?&?&?&?&?&?). by split_and!.
Qed.

Lemma wrun_ok ops : forall c fs e data, Forall wop_ok ops -> w_inv c fs e data ->
  exists c' fs' e', wrun ops c = (c', Ret tt) /\ w_inv c' fs' e' (data ++ (ops ≫= wop_data)) /\ userUUID c' = userUUID c.
Proof.
  induction ops as [|o ops IH]; intros c fs e data F I; cbn [wrun].
  - exists c, fs, e. cbn. by rewrite app_nil_r.
  - apply Forall_cons in F as [Fo F]. destruct (wop_step_ok o c fs e data Fo I) as (c1 & fs1 & e1 & E1 & I1 & U1). st_call E1.
    destruct (IH c1 fs1 e1 _ F I1) as (c2 & fs2 & e2 & E2 & I2 & U2). exists c2, fs2, e2. rewrite bind_cons, app_assoc. split_and!; [done..|congruence].
Qed.

(** A connection that writes. *)
Definition client (id : list byte) : Conn := NewConn id Outer13 [] [] [] [] (sent []) (sent []).

Lemma client_inv id : w_inv (client id) [] Open [].
Proof. by split_and!. Qed.

(** A connection that reads what [w] has sent: the overlay cut into records, the first
    partly read; the raw bytes partly in the buffer of the TLS connection. *)
Definition reads_from (w r : Conn) : Prop := exists outer i rs raw u o uo, r = NewConn (userUUID w) outer i rs raw u o uo /\
  i ++ concat rs = t_out (overlayOut w) /\ Forall (fun x => x <> []) rs /\ raw ++ u = t_out (underlayOut w).

Lemma reads_from_conn w r fs e data : w_inv w fs e data -> length (userUUID w) = uuidLen -> reads_from w r -> r_conn r data 1.
Proof.
  intros (_ & _ & F & Fe & O & U & N & _ & _ & _ & P) L (outer & i & rs & raw & u & o & uo & -> & Ho & Hr & Hu). left.
  exists [], [], (PFrames true fs e). split; [|split; [by rewrite <- P|done]]. split_and!; try done; cbn -[ph_over frames_of].
  - unfold over. cbn [input records NewConn]. rewrite Ho, O. cbn [t_out sent]. destruct (needHandshake w); [by destruct N as [-> ->]|]. by destruct fs.
  - rewrite Hu, U. done.
Qed.
End writing.

(** C3: the padded stream is transparent: after any sequence of writes of at most
    65535 bytes each, of the flush timer and of the sniffing done by reads, with any
    padding, a reader obtains exactly the bytes written, in order and then the end of
    the stream, whatever the records of the overlay, the buffer sizes, the point of the
    switch to the raw connection and the split of the raw bytes at the switch. *)
Theorem vision_stream_roundtrip {BS : BufferSource} (id : list byte) (ops : list wop) : length id = uuidLen -> Forall wop_ok ops ->
  exists w, wrun ops (client id) = (w, Ret tt) /\
    forall r ks, reads_from w r -> Forall (fun x : nat * nat => (0 < x.1)%nat) ks ->
      exists r' got rest out, reads ks r = (r', got, out) /\ ops ≫= wop_data = got ++ rest /\ (out = Ret tt \/ out = Fail EOF /\ rest = []) /\
        ((length (ops ≫= wop_data) + 1 < length ks)%nat -> out = Fail EOF).
Proof.
  intros L F. destruct (wrun_ok ops (client id) [] Open [] F (client_inv id)) as (w & fs & e & E & I & U). exists w. split; [done|]. intros r ks R K.
  apply (conn_reads_ok ks r _ 1 K). apply (reads_from_conn w r fs e); [done|by rewrite U|done].
Qed.

(** C23: a write makes the connection leave the padded and encrypted overlay for the raw
    connection only when it is, as a whole, a non-empty sequence of complete TLS
    application-data records with bodies and the sniffer has seen an inner TLS 1.3
    handshake: no part of a record is ever split between the two connections. *)
Theorem vision_direct_after_records {BS : BufferSource} (id : list byte) (ops : list wop) (p : list byte) (d d2 : draw) w w' n :
  Forall wop_ok ops -> Z.of_nat (length p) < 65536 -> wrun ops (client id) = (w, Ret tt) -> Write p d d2 w = (w', Ret n) ->
  writeDirect w = false -> writeDirect w' = true ->
  enableXTLS (filter w') = true /\ exists bodies, p = bodies ≫= record_of /\ Forall body_ok bodies /\ bodies <> [].
Proof.
  intros F L E Ew D D'. destruct (wrun_ok ops (client id) [] Open [] F (client_inv id)) as (w1 & fs & e & E1 & I & _). rewrite E in E1. injection E1 as <-.
  destruct (Write_ok p d d2 w fs e _ L I) as (w2 & fs' & e' & E2 & I' & _ & S). rewrite Ew in E2. injection E2 as <- _.
  destruct I as (_ & _ & _ & _ & _ & _ & _ & _ & H & _). destruct I' as (_ & _ & _ & _ & _ & _ & _ & _ & H' & _).
  destruct S as [C X]; [congruence..|]. split; [done|]. by apply isComplete_ok.
Qed.

(** The length field of a frame has 16 bits and the content is not cut: the header of a
    longer content is wrong. *)
Theorem vision_long_content_truncated {BS : BufferSource} (p id : list byte) (long : bool) (d : draw) : length id = uuidLen -> length p = Z.to_nat 65536 ->
  exists frame, ApplyPaddingFromPool p commandPaddingContinue (Some id) long d = Ret frame /\
    be_get (take 2 (drop 17 frame)) = 0 /\ (Z.to_nat 65536 < length frame)%nat.
Proof.
  intros L Lp. destruct (ApplyPadding_ok p commandPaddingContinue (Some id) long d) as (pad & _ & ->). eexists. split; [reflexivity|]. cbn [default].
  unfold frame_bytes. cbn [content padding]. rewrite Lp. split.
  - rewrite (app_assoc id [commandPaddingContinue] _ : id ++ commandPaddingContinue :: _ = _). rewrite drop_app_length' by (rewrite length_app, L; done).
    rewrite take_app_length' by (by rewrite length_be_put). rewrite be_get_put. rewrite Z2Nat.id by lia. done.
  - rewrite !length_app. cbn [length]. rewrite !length_app, Lp. lia.
Qed.

(** * An exchange: a TLS 1.3 handshake seen by the sniffer, then a record *)

Definition demo_source : BufferSource := pool_source init_pools init_pools_wf None.
Definition demo_id : list byte := repeat x07 16.
Definition demo_draw : draw := MkDraw 3 (fun _ => x00).
Definition demo_client_hello : list byte := [x16; x03; x01; x00; x05; x01; x00; x00; x01; x00].
(** Session id of 32 bytes, TLS_AES_128_GCM_SHA256, supported_versions. *)
Definition demo_server_hello : list byte :=
  [x16; x03; x03; x00; x56; x02] ++ repeat x00 37 ++ [x20] ++ repeat x00 32 ++ [x13; x01; x00; x00; x06] ++ tls13SupportedVersions ++ repeat x00 4.
Definition demo_record : list byte := [x17; x03; x03; x00; x02; xaa; xbb].
Definition demo_ops : list wop := [WWrite demo_client_hello demo_draw demo_draw; WSniff demo_server_hello].

Lemma vision_stream_roundtrip_witness : exists w, wrun (BS := demo_source) (demo_ops ++ [WWrite demo_record demo_draw demo_draw; WWrite demo_record demo_draw demo_draw]) (client demo_id) = (w, Ret tt) /\
  forall r ks, reads_from w r -> Forall (fun x : nat * nat => (0 < x.1)%nat) ks -> length ks = 40%nat ->
    exists r' got rest out, reads ks r = (r', got, out) /\ demo_client_hello ++ demo_record ++ demo_record = got ++ rest /\ out = Fail EOF.
Proof.
  destruct (vision_stream_roundtrip (BS := demo_source) demo_id (demo_ops ++ [WWrite demo_record demo_draw demo_draw; WWrite demo_record demo_draw demo_draw])) as (w & E & H).
  - reflexivity.
  - repeat constructor.
  - exists w. split; [exact E|]. intros r ks R K L. destruct (H r ks R K) as (r' & got & rest & out & E2 & D & _ & Hl). exists r', got, rest, out. split; [exact E2|]. split; [exact D|].
    apply Hl. rewrite L. vm_compute. lia.
Defined.

Lemma vision_direct_after_records_witness : exists bodies, demo_record = bodies ≫= record_of.
Proof.
  destruct (vision_direct_after_records (BS := demo_source) demo_id demo_ops demo_record demo_draw demo_draw
    (wrun (BS := demo_source) demo_ops (client demo_id)).1 (Write (BS := demo_source) demo_record demo_draw demo_draw (wrun (BS := demo_source) demo_ops (client demo_id)).1).1 7)
    as [_ (bodies & E & _)].
  - repeat constructor.
  - reflexivity.
  - vm_compute. reflexivity.
  - vm_compute. reflexivity.
  - vm_compute. reflexivity.
  - vm_compute. reflexivity.
  - exists bodies. exact E.
Defined.
