(* ===== verification/Xudp.v ===== *)
(** XUDP datagrams over a Vision connection (protocol/vless/vision/packet.go).

    Writing goes straight to the writer below, one frame per datagram, the first
    frame announcing a new session; reading takes frames from the padded stream.
    [netip.ParseAddrPort] is a parameter, as it is a variable of the source. *)

From S2P Require Import Prelude GoStrings NetIP GoState Common Pool Transport Vision VisionRound VisionStream.
From Stdlib Require Import Strings.Byte.

Record PacketConn := MkXPC { x_conn : Conn; x_network : list byte; x_addr : list byte; x_target : LastStringValue AddrPort }.
Definition with_conn (c : Conn) (pc : PacketConn) : PacketConn := MkXPC c (x_network pc) (x_addr pc) (x_target pc).
Definition on_conn {A} (m : st Conn A) : st PacketConn A := fun pc => let '(c, r) := m (x_conn pc) in (with_conn c pc, r).

(** * Addresses *)

Definition IPAddrToPacketAddrLength (addr : AddrPort) : nat :=
  let '(nip, ok) := AddrFromSlice (AsSlice (ap_addr addr)) in
  if negb ok then 0 else if Is4 nip then 1 + 4 + 2 else 1 + 16 + 2.

(** [PutPacketAddr(b[off:], addr)]. *)
Definition PutPacketAddr (b : list byte) (off : nat) (addr : AddrPort) : res (list byte) :=
  let '(nip, ok) := AddrFromSlice (AsSlice (ap_addr addr)) in
  if negb ok then Fail (Errorf "invalid IP")
  else
    b ← write_at b off (be16 (ap_port addr));
    if Is4 nip then b ← set_at b (off + 2) x01; write_at b (off + 3) (AsSlice nip)
    else b ← set_at b (off + 2) x03; write_at b (off + 3) (AsSlice nip).

Definition ReadPacketAddr (p : list byte) : res AddrPort :=
  if decide (length p < 1 + 2 + 1 + 4)%nat then Fail ErrUnexpectedEOF else
  p ← slice_from p 1;
  port ← slice p 0 2;
  ipType ← index p 2;
  ip ← slice_from p 3;
  ip ← (if decide (ipType = x01) then
          if decide (length ip < 4)%nat then Fail ErrUnexpectedEOF else slice ip 0 4
        else if decide (length ip < 16)%nat then Fail ErrUnexpectedEOF else slice ip 0 16);
  let '(ipAddr, ok) := AddrFromSlice ip in
  if negb ok then Fail (Errorf "invalid IP") else Ret (MkAddrPort ipAddr (be_get port)).

(** * Writing *)

Section packets.
Context (parseAddrPort : list byte -> res AddrPort) {BS : BufferSource}.

Definition addrPortForWrite (addr : list byte) : st PacketConn AddrPort := fun pc =>
  match LastStringValue_Load (x_target pc) addr with
  | Some a => (pc, Ret a)
  | None =>
      match parseAddrPort addr with
      | Ret a => (MkXPC (x_conn pc) (x_network pc) (x_addr pc) (LastStringValue_Store addr a (x_target pc)), Ret a)
      | Fail e => (pc, Fail e)
      | Panic => (pc, Panic)
      end
  end.

(** The seven bytes in front of the address. *)
Definition put_prefix (b : list byte) (status : byte) : res (list byte) :=
  let l := Z.of_nat (length b - 2) in
  b ← set_at b 0 (z2b (Z.shiftr l 8));
  b ← set_at b 1 (z2b l);
  b ← set_at b 2 x00;
  b ← set_at b 3 x00;
  b ← set_at b 4 status;
  b ← set_at b 5 x01;
  set_at b 6 x02.

Definition prefixPacketLocked (addr : list byte) : st PacketConn (list byte) :=
  address ← addrPortForWrite addr;
  let prefix := src_get (7 + IPAddrToPacketAddrLength address) in
  prefix ← lift (PutPacketAddr prefix 7 address);
  pc ← get;
  if needHandshake (x_conn pc) then
    _ ← modify (fun pc => let c := x_conn pc in with_conn (set_writing false (writeFilterApplicationData c) (writeDirect c) (toWriteDirect c) c) pc);
    lift (put_prefix prefix x01)
  else lift (put_prefix prefix x02).

Definition data_len (p : list byte) : list byte := let n := Z.of_nat (length p) in [z2b (Z.shiftr n 8); z2b n].

(** [iout.MultiWrite(pc.writer, ...)] and [pc.writer.Write]. *)
Definition writer_MultiWrite (bs : list (list byte)) : st Conn unit := fun c =>
  let '(t, (_, err)) := MultiWrite bs (if writeDirect c then underlayOut c else overlayOut c) in
  (if writeDirect c then set_outs (overlayOut c) t c else set_outs t (underlayOut c) c,
   match err with Some e => Fail e | None => Ret tt end).

Definition WriteTo (p addr : list byte) : st PacketConn nat :=
  prefix ← prefixPacketLocked addr;
  _ ← on_conn (writer_MultiWrite [prefix; data_len p; p]);
  mret (length p).

(** An error of the first loop that resolves: nothing is written. *)
Fixpoint resolve_all (items : list (list byte * list byte)) : st PacketConn unit :=
  match items with [] => mret tt | it :: items => _ ← addrPortForWrite it.2; resolve_all items end.
Fixpoint prefixes (items : list (list byte * list byte)) : st PacketConn (list (list byte)) :=
  match items with [] => mret [] | it :: items => p ← prefixPacketLocked it.2; ps ← prefixes items; mret (p :: ps) end.
(** The frames are laid out behind each other in one pooled buffer. *)
Fixpoint fill (items : list (list byte * list byte)) (ps : list (list byte)) (buf : list byte) (offset : nat) : res (list byte) :=
  match items, ps with
  | it :: items, p :: ps =>
      '(buf, n) ← copy_at buf offset p;
      let offset := (offset + n)%nat in
      buf ← set_at buf offset (z2b (Z.shiftr (Z.of_nat (length it.1)) 8));
      buf ← set_at buf (offset + 1) (z2b (Z.of_nat (length it.1)));
      let offset := (offset + 2)%nat in
      '(buf, n) ← copy_at buf offset it.1;
      fill items ps buf (offset + n)
  | _, _ => Ret buf
  end.
Definition frames_total (items : list (list byte * list byte)) (ps : list (list byte)) : nat :=
  sum_list (zip_with (fun it p => length p + 2 + length it.1)%nat items ps).

(** Items are pairs of data and destination. *)
Definition WriteBatch (items : list (list byte * list byte)) : st PacketConn nat :=
  if decide (items = []) then mret 0%nat
  else if decide (Exists (fun it : list byte * list byte => 0xffff < Z.of_nat (length it.1)) items) then fail (Errorf "vision udp payload too large: %d > %d")
  else
    _ ← resolve_all items;
    ps ← prefixes items;
    buf ← lift (fill items ps (src_get (frames_total items ps)) 0);
    _ ← on_conn (writer_Write buf);
    mret (length items).
End packets.

(** * Reading *)

(** [io.ReadFull(c.Conn, b)] and [io.CopyN(io.Discard, c.Conn, n)]: both loop over the
    reads of the padded stream; [ReadFull] reports an end behind a partial read. *)
Fixpoint vision_take (full : bool) (fuel n got : nat) (partial : bool) : st Conn (list byte) :=
  if decide (n = 0%nat) then mret [] else
  match fuel with
  | O => lift Panic
  | S fuel =>
      r ← try (Read n got);
      match r with
      | inl a => b ← vision_take full fuel (n - length a) got (partial || bool_decide (a <> [])); mret (a ++ b)
      | inr e => fail (if decide (e = EOF /\ full && partial = true) then ErrUnexpectedEOF else e)
      end
  end.
(** A read may deliver nothing once, when the raw connection takes over. *)
Definition vision_ReadFull (n got : nat) : st Conn (list byte) := vision_take true (n + 2) n got false.
Definition CopyN_Discard (n got : nat) : st Conn unit := _ ← vision_take false (n + 2) n got false; mret tt.

(** Frames without data are skipped. *)
Fixpoint ReadFrom_loop (fuel k got : nat) : st Conn (list byte * AddrPort) :=
  frameLengthBytes ← vision_ReadFull 2 got;
  let frameLength := Z.to_nat (be_get frameLengthBytes) in
  header ← vision_ReadFull 4 got;
  status ← lift (index header 2);
  addr ← (if decide (status = x01) then fail (Errorf "unexpected frame new")
          else if decide (status = x02) then
            if decide (4 < frameLength)%nat then data ← vision_ReadFull (frameLength - 4) got; lift (ReadPacketAddr data) else mret AddrPortZero
          else if decide (status = x03) then fail EOF
          else if decide (status = x04) then mret AddrPortZero
          else fail (Errorf "unsupported frame header: %x"));
  option ← lift (index header 3);
  if decide (Z.land (b2z option) 1 <> 1) then match fuel with O => lift Panic | S fuel => ReadFrom_loop fuel k got end
  else
    lengthBytes ← vision_ReadFull 2 got;
    let n := Z.to_nat (be_get lengthBytes) in
    if decide (k < n)%nat then _ ← CopyN_Discard n got; fail (DatagramDropped ErrShortBuffer)
    else p ← vision_ReadFull n got; mret (p, addr).

(** Every frame takes bytes of the connection, which bounds the frames skipped. *)
Definition avail (c : Conn) : nat := (length (input c) + length (concat (records c)) + length (rawInput c) + length (underlay c))%nat.
Definition ReadFrom (k got : nat) : st PacketConn (list byte * AddrPort) :=
  pc ← get; on_conn (ReadFrom_loop (avail (x_conn pc)) k got).

(** The stream interface: [Read] and [Write] by network. *)
Definition packet_Read (k got : nat) : st PacketConn (list byte) :=
  pc ← get;
  if decide (x_network pc = lit "tcp") then on_conn (Read k got)
  else if decide (x_network pc = lit "udp") then r ← ReadFrom k got; mret (fst r)
  else fail (Errorf "unsupported network: %s").
Definition packet_Write (parseAddrPort : list byte -> res AddrPort) {BS : BufferSource} (b : list byte) (d d2 : draw) : st PacketConn nat :=
  pc ← get;
  if decide (x_network pc = lit "tcp") then on_conn (Write b d d2)
  else if decide (x_network pc = lit "udp") then WriteTo parseAddrPort b (x_addr pc)
  else fail (Errorf "unsupported network: %s").

(** * Frames *)

Definition addr_block (a : AddrPort) : list byte :=
  match ap_addr a with
  | Addr4 b => be16 (ap_port a) ++ x01 :: b
  | Addr6 b => be16 (ap_port a) ++ x03 :: b
  | AddrZero => []
  end.
Definition addr_ok (a : AddrPort) : Prop :=
  0 <= ap_port a < 65536 /\ match ap_addr a with Addr4 b => length b = 4%nat | Addr6 b => length b = 16%nat | AddrZero => False end.
Definition xhead (n : nat) (status opt : byte) : list byte := be16 (Z.of_nat (4 + n)) ++ [x00; x00; status; opt].
Definition xdata (d : list byte) : list byte := be16 (Z.of_nat (length d)) ++ d.

(** What a peer may send: data with and without an address, an address alone, a sign
    of life. *)
Inductive sframe := SData (a : AddrPort) (d : list byte) | SPlain (d : list byte) | SIdle (a : AddrPort) | SAlive.
Definition sframe_bytes (f : sframe) : list byte :=
  match f with
  | SData a d => xhead (S (length (addr_block a))) x02 x01 ++ (x02 :: addr_block a) ++ xdata d
  | SPlain d => xhead 0 x02 x01 ++ xdata d
  | SIdle a => xhead (S (length (addr_block a))) x02 x00 ++ (x02 :: addr_block a)
  | SAlive => xhead 0 x04 x00
  end.
Definition sframe_data (f : sframe) : option (list byte * AddrPort) :=
  match f with SData a d => Some (d, a) | SPlain d => Some (d, AddrPortZero) | _ => None end.
Definition sframe_ok (f : sframe) : Prop :=
  match f with
  | SData a d => addr_ok a /\ Z.of_nat (length d) < 65536
  | SPlain d => Z.of_nat (length d) < 65536
  | SIdle a => addr_ok a
  | SAlive => True
  end.

Lemma length_addr_block a : addr_ok a -> length (addr_block a) = 7%nat \/ length (addr_block a) = 19%nat.
Proof. intros [_ H]. unfold addr_block. destruct (ap_addr a); [done|left|right]; rewrite length_app, length_be_put; cbn; lia. Qed.

Lemma ReadPacketAddr_ok x a : addr_ok a -> ReadPacketAddr (x :: addr_block a) = Ret a.
Proof.
  intros [Hp H]. destruct a as [ip port]. cbn in Hp, H. unfold ReadPacketAddr.
  assert (B : be_get (be16 port) = port) by (apply be_get_put_small; cbn; lia).
  destruct ip as [|b|b]; [done|..].
  all: assert (L : length (be16 port) = 2%nat) by apply length_be_put; cbn [addr_block ap_addr ap_port] in *.
  all: rewrite decide_False by (cbn [length]; rewrite length_app; cbn [length]; lia); rewrite (slice_from_eq _ 1) by (cbn [length]; lia); rewrite bind_ret.
  all: change (drop 1 (x :: ?l)) with l; rewrite slice_prefix by done; rewrite bind_ret.
  - change (index (be16 port ++ x01 :: b) 2) with (Ret x01). rewrite bind_ret. rewrite (slice_from_eq _ 3) by (rewrite length_app; cbn; lia). rewrite bind_ret.
    change (drop 3 (be16 port ++ x01 :: b)) with b. rewrite decide_True by done. rewrite decide_False by lia. rewrite slice_eq by lia. rewrite bind_ret, drop_0, take_ge by lia.
    unfold AddrFromSlice. rewrite decide_True by done. cbn [negb]. by rewrite B.
  - change (index (be16 port ++ x03 :: b) 2) with (Ret x03). rewrite bind_ret. rewrite (slice_from_eq _ 3) by (rewrite length_app; cbn; lia). rewrite bind_ret.
    change (drop 3 (be16 port ++ x03 :: b)) with b. rewrite decide_False by done. rewrite decide_False by lia. rewrite slice_eq by lia. rewrite bind_ret, drop_0, take_ge by lia.
    unfold AddrFromSlice. rewrite decide_False by lia. rewrite decide_True by done. cbn [negb]. by rewrite B.
Qed.

(** * Reading frames from the padded stream *)

Lemma vision_take_ok full fuel : forall n got partial c rest slack, r_conn c rest slack -> (n <= length rest)%nat -> (n + slack <= fuel)%nat ->
  exists c' slack', vision_take full fuel n got partial c = (c', Ret (take n rest)) /\ r_conn c' (drop n rest) slack'.
Proof.
  induction fuel as [|fuel IH]; intros n got partial c rest slack R L F; cbn [vision_take]; (case_decide as E; [subst; exists c, slack; by rewrite drop_0|]); [lia|].
  destruct (conn_Read_ok n got c rest slack ltac:(lia) R) as (c1 & r & E1 & [(a & rest1 & sl & -> & -> & R1 & La & Lm)|[-> ->]]); [|cbn in L; lia].
  erewrite st_bind_Ret; [|unfold try; rewrite E1; reflexivity]. cbv iota. rewrite length_app in L, Lm.
  destruct (IH (n - length a)%nat got (partial || bool_decide (a <> [])) c1 rest1 sl R1) as (c2 & sl2 & E2 & R2); [lia..|].
  st_call E2. exists c2, sl2. rewrite (take_app_ge a), (drop_app_ge a) by lia. done.
Qed.

Lemma r_conn_slack c rest slack : r_conn c rest slack -> (slack <= 1)%nat.
Proof. intros [(?&?&?&?&?&->)|[(?&?&?&?&->)|[(?&?&?&->)|(?&?&?&?&?&?&?&?&->)]]]; lia. Qed.

Lemma ReadFull_conn got c a rest slack : r_conn c (a ++ rest) slack -> exists c' slack', vision_ReadFull (length a) got c = (c', Ret a) /\ r_conn c' rest slack'.
Proof.
  intros R. pose proof (r_conn_slack _ _ _ R). destruct (vision_take_ok true (length a + 2) (length a) got false c _ _ R) as (c' & sl & E & R'); [rewrite length_app; lia|lia|].
  rewrite take_app_length in E. rewrite drop_app_length in R'. eauto.
Qed.
Lemma CopyN_conn got c a rest slack : r_conn c (a ++ rest) slack -> exists c' slack', CopyN_Discard (length a) got c = (c', Ret tt) /\ r_conn c' rest slack'.
Proof.
  intros R. pose proof (r_conn_slack _ _ _ R). destruct (vision_take_ok false (length a + 2) (length a) got false c _ _ R) as (c' & sl & E & R'); [rewrite length_app; lia|lia|].
  unfold CopyN_Discard. st_call E. rewrite drop_app_length in R'. eauto.
Qed.

Lemma ReadFull_end n got c slack : (0 < n)%nat -> r_conn c [] slack -> exists c', vision_ReadFull n got c = (c', Fail EOF).
Proof.
  intros N R. unfold vision_ReadFull. pose proof (r_conn_slack _ _ _ R) as S. assert (H : forall fuel c slack, r_conn c [] slack -> (slack < fuel)%nat -> exists c', vision_take true fuel n got false c = (c', Fail EOF)).
  { clear c slack R S. induction fuel as [|fuel IH]; intros c slack R F; [lia|]. cbn [vision_take]. rewrite decide_False by lia.
    destruct (conn_Read_ok n got c [] slack N R) as (c1 & r & E1 & [(a & rest1 & sl & -> & E & R1 & La & Lm)|[-> _]]).
    - symmetry in E. apply app_eq_nil in E as [-> ->]. erewrite st_bind_Ret; [|unfold try; rewrite E1; reflexivity]. cbv iota. cbn [length] in *. rewrite Nat.sub_0_r, bool_decide_false by (intros H; by apply H).
      destruct (IH c1 sl R1) as (c2 & E2); [lia|]. cbn [orb]. erewrite st_bind_Fail by exact E2. by eexists.
    - erewrite st_bind_Ret; [|unfold try; rewrite E1; reflexivity]. cbv iota. rewrite decide_False by (by intros [_ ?]). by eexists. }
  apply (H _ _ slack); [done|lia].
Qed.

(** The frame header: its length field, then its four bytes. *)
Lemma head_conn got c n status opt rest slack : (n < 100)%nat -> r_conn c (xhead n status opt ++ rest) slack -> exists c' c'' slack' hb,
  vision_ReadFull 2 got c = (c', Ret hb) /\ Z.to_nat (be_get hb) = (4 + n)%nat /\ vision_ReadFull 4 got c' = (c'', Ret [x00; x00; status; opt]) /\ r_conn c'' rest slack'.
Proof.
  intros L R. unfold xhead in R. rewrite <- app_assoc in R. destruct (ReadFull_conn got c _ _ _ R) as (c1 & s1 & E1 & R1). rewrite length_be_put in E1.
  destruct (ReadFull_conn got c1 [x00; x00; status; opt] _ _ R1) as (c2 & s2 & E2 & R2). exists c1, c2, s2, (be16 (Z.of_nat (4 + n))).
  split; [done|]. split; [rewrite be_get_put_small by (cbn; lia); lia|]. done.
Qed.

Definition delivery (k : nat) (x : list byte * AddrPort) : res (list byte * AddrPort) :=
  if decide (k < length x.1)%nat then Fail (DatagramDropped ErrShortBuffer) else Ret x.

Lemma data_conn k got c addr d rest slack : Z.of_nat (length d) < 65536 -> r_conn c (xdata d ++ rest) slack -> exists c' slack',
  (lengthBytes ← vision_ReadFull 2 got;
   let n := Z.to_nat (be_get lengthBytes) in
   if decide (k < n)%nat then _ ← CopyN_Discard n got; fail (DatagramDropped ErrShortBuffer)
   else p ← vision_ReadFull n got; mret (p, addr)) c = (c', delivery k (d, addr)) /\ r_conn c' rest slack'.
Proof.
  intros L R. unfold xdata in R. rewrite <- app_assoc in R. destruct (ReadFull_conn got c _ _ _ R) as (c1 & s1 & E1 & R1). rewrite length_be_put in E1. st_call E1. cbv zeta.
  rewrite be_get_put_small by (cbn; lia). rewrite Nat2Z.id. unfold delivery. cbn [fst]. case_decide.
  - destruct (CopyN_conn got c1 _ _ _ R1) as (c2 & s2 & E2 & R2). st_call E2. by exists c2, s2.
  - destruct (ReadFull_conn got c1 _ _ _ R1) as (c2 & s2 & E2 & R2). st_call E2. by exists c2, s2.
Qed.

(** The frames behind the next datagram. *)
Fixpoint next_data (fs : list sframe) : option (list byte * AddrPort * list sframe) :=
  match fs with
  | [] => None
  | f :: fs => match sframe_data f with Some x => Some (x, fs) | None => next_data fs end
  end.

Lemma block_conn got c a rest slack : addr_ok a -> r_conn c ((x02 :: addr_block a) ++ rest) slack -> exists c' slack',
  (data ← vision_ReadFull (4 + S (length (addr_block a)) - 4) got; lift (ReadPacketAddr data)) c = (c', Ret a) /\ r_conn c' rest slack'.
Proof.
  intros A R. destruct (ReadFull_conn got c _ _ _ R) as (c' & s' & E & R'). cbn [length] in E. exists c', s'. split; [|done].
  replace (4 + S (length (addr_block a)) - 4)%nat with (S (length (addr_block a))) by lia. st_call E. unfold lift. by rewrite ReadPacketAddr_ok.
Qed.

Lemma xudp_ReadFrom_loop_ok fs : forall fuel k got c slack, Forall sframe_ok fs -> r_conn c (fs ≫= sframe_bytes) slack -> (length fs <= fuel)%nat ->
  exists c' r, ReadFrom_loop fuel k got c = (c', r) /\
    match next_data fs with Some (x, fs') => r = delivery k x /\ exists slack', r_conn c' (fs' ≫= sframe_bytes) slack' | None => r = Fail EOF end.
Proof.
  induction fs as [|f fs IH]; intros fuel k got c slack F R L.
  - destruct (ReadFull_end 2 got c slack ltac:(lia) R) as (c' & E). exists c', (Fail EOF). destruct fuel; cbn [ReadFrom_loop]; by rewrite (st_bind_Fail _ _ _ _ _ E).
  - apply Forall_cons in F as [Ff F]. rewrite bind_cons in R. cbn [length] in L. destruct fuel as [|fuel]; [lia|]. cbn [ReadFrom_loop].
    destruct f as [a d|d|a|]; cbn [sframe_ok sframe_bytes next_data sframe_data] in *; rewrite <- ?app_assoc in R.
    + destruct Ff as [A Ld]. pose proof (length_addr_block a A).
      edestruct head_conn as (c1 & c2 & s2 & hb & E1 & En & E2 & R2); [|exact R|]; [lia|]. st_call E1. st_call E2. cbv zeta. st_pure. rewrite En.
      rewrite decide_False by done. rewrite decide_True by done. rewrite decide_True by lia. destruct (block_conn got c2 a _ _ A R2) as (c3 & s3 & E3 & R3). st_call E3. st_pure.
      rewrite decide_False by (intros H0; by apply H0). destruct (data_conn k got c3 a d _ _ Ld R3) as (c4 & s4 & E4 & R4). exists c4, (delivery k (d, a)). split; [exact E4|]. eauto.
    + edestruct head_conn as (c1 & c2 & s2 & hb & E1 & En & E2 & R2); [|exact R|]; [lia|]. st_call E1. st_call E2. cbv zeta. st_pure. rewrite En.
      rewrite decide_False by done. rewrite decide_True by done. rewrite decide_False by lia. st_pure. st_pure. rewrite decide_False by (intros H0; by apply H0).
      destruct (data_conn k got c2 AddrPortZero d _ _ Ff R2) as (c4 & s4 & E4 & R4). exists c4, (delivery k (d, AddrPortZero)). split; [exact E4|]. eauto.
    + pose proof (length_addr_block a Ff). edestruct head_conn as (c1 & c2 & s2 & hb & E1 & En & E2 & R2); [|exact R|]; [lia|]. st_call E1. st_call E2. cbv zeta. st_pure. rewrite En.
      rewrite decide_False by done. rewrite decide_True by done. rewrite decide_True by lia. destruct (block_conn got c2 a _ _ Ff R2) as (c3 & s3 & E3 & R3). st_call E3. st_pure.
      rewrite decide_True by done. apply (IH fuel k got c3 s3); [done..|lia].
    + edestruct head_conn as (c1 & c2 & s2 & hb & E1 & En & E2 & R2); [|exact R|]; [lia|]. st_call E1. st_call E2. cbv zeta. st_pure. rewrite En.
      rewrite decide_False by done. rewrite decide_False by done. rewrite decide_False by done. rewrite decide_True by done. st_pure. st_pure. rewrite decide_True by done.
      apply (IH fuel k got c2 s2); [done..|lia].
Qed.

(** ** Enough fuel *)

Lemma payload_le id ph : (length (ph_payload ph) <= length (ph_over id ph) + length (ph_under ph))%nat.
Proof.
  assert (C : forall fs, (length (fs ≫= content) <= length (frames_of fs))%nat).
  { induction fs as [|f fs IHf]; [done|]. unfold frames_of in *. rewrite !bind_cons, !length_app. unfold frame_bytes at 1. cbn [length]. rewrite !length_app. lia. }
  destruct ph as [first fs e|t|t]; cbn [ph_payload ph_over ph_under]; [|lia|cbn; lia].
  assert (E : (length (end_payload e) <= length (end_overlay e) + length (end_underlay e))%nat).
  { destruct e as [|f t|f t]; cbn [end_payload end_overlay end_underlay]; [lia|..]; unfold frame_bytes; rewrite ?length_app; cbn [length]; rewrite ?length_app; cbn; lia. }
  specialize (C fs). unfold payload_of. rewrite length_app. destruct first, fs, e; cbn [length app] in *; rewrite ?length_app in *; cbn in *; lia.
Qed.

Lemma r_conn_avail c rest slack : r_conn c rest slack -> (length rest <= avail c)%nat.
Proof.
  unfold avail. intros [(cont & pad & ph & (_ & _ & _ & _ & _ & _ & Ho & Hu) & -> & _)|[(_ & _ & _ & <- & _)|[(_ & _ & <- & _)|(_ & _ & _ & _ & _ & _ & _ & <- & _)]]].
  - apply (f_equal length) in Ho, Hu. unfold over in Ho. rewrite !length_app in *. pose proof (payload_le (userUUID c) ph). lia.
  - unfold over. rewrite length_app. lia.
  - lia.
  - rewrite length_app. lia.
Qed.

Lemma sframes_length fs : (length fs <= length (fs ≫= sframe_bytes))%nat.
Proof. induction fs as [|f fs IH]; [done|]. rewrite bind_cons, length_app. cbn [length]. destruct f; cbn [sframe_bytes]; unfold xhead; rewrite !length_app, length_be_put; cbn [length]; lia. Qed.

(** A receiver: one [ReadFrom] per buffer. *)
Fixpoint recv (ks : list (nat * nat)) (pc : PacketConn) : PacketConn * list (res (list byte * AddrPort)) :=
  match ks with
  | [] => (pc, [])
  | (k, got) :: ks => let '(pc, r) := ReadFrom k got pc in let '(pc, rs) := recv ks pc in (pc, r :: rs)
  end.

Lemma recv_ok ks : forall fs pc slack, Forall sframe_ok fs -> r_conn (x_conn pc) (fs ≫= sframe_bytes) slack -> (length ks <= length (omap sframe_data fs))%nat ->
  exists pc', recv ks pc = (pc', zip_with (fun kg x => delivery kg.1 x) ks (omap sframe_data fs)).
Proof.
  induction ks as [|[k got] ks IH]; intros fs pc slack F R L; cbn [recv]; [by eexists|].
  pose proof (r_conn_avail _ _ _ R). pose proof (sframes_length fs).
  destruct (xudp_ReadFrom_loop_ok fs (avail (x_conn pc)) k got (x_conn pc) slack F R ltac:(lia)) as (c1 & r & E & H1).
  assert (N : forall gs, next_data gs = None -> omap sframe_data gs = []) by (induction gs as [|g gs IHg]; [done|]; cbn; by destruct (sframe_data g)).
  assert (Y : forall gs x gs', Forall sframe_ok gs -> next_data gs = Some (x, gs') -> omap sframe_data gs = x :: omap sframe_data gs' /\ Forall sframe_ok gs').
  { induction gs as [|g gs IHg]; [done|]. intros x gs' [Fg Fgs]%Forall_cons. cbn. destruct (sframe_data g); [by intros [= <- <-]|]. by apply IHg. }
  destruct (next_data fs) as [[x fs']|] eqn:En; [|rewrite (N fs En) in L; cbn in L; lia].
  destruct (Y fs x fs' F En) as [Eo F']. destruct H1 as (-> & slack' & R'). rewrite Eo in *. cbn [length] in L.
  unfold ReadFrom. erewrite st_bind_Ret by reflexivity. unfold on_conn. rewrite E.
  destruct (IH fs' (with_conn c1 pc) slack' F' R' ltac:(lia)) as (pc' & ->). by exists pc'.
Qed.

(** * Frames written *)

Definition xframe (status : byte) (a : AddrPort) (d : list byte) : list byte :=
  xhead (S (length (addr_block a))) status x01 ++ (x02 :: addr_block a) ++ xdata d.

Lemma AddrFromSlice_ok a : addr_ok a -> AddrFromSlice (AsSlice (ap_addr a)) = (ap_addr a, true).
Proof.
  intros [_ H]. unfold AddrFromSlice. destruct (ap_addr a); [done|..]; cbn [AsSlice]; [by rewrite decide_True|]. rewrite decide_False by lia. by rewrite decide_True.
Qed.

Lemma IPAddrLength_ok a : addr_ok a -> IPAddrToPacketAddrLength a = length (addr_block a).
Proof.
  intros A. unfold IPAddrToPacketAddrLength. rewrite AddrFromSlice_ok by done. destruct A as [_ H]. unfold addr_block.
  destruct (ap_addr a); [done|..]; cbn [negb Is4]; rewrite length_app, length_be_put; cbn [length]; lia.
Qed.

Lemma PutPacketAddr_ok p b a : addr_ok a -> length b = length (addr_block a) -> PutPacketAddr (p ++ b) (length p) a = Ret (p ++ addr_block a).
Proof.
  intros A L. unfold PutPacketAddr. rewrite AddrFromSlice_ok by done. destruct A as [_ H]. cbn [negb]. unfold addr_block in *.
  destruct (ap_addr a) as [|ip|ip]; [done|..]; cbn [Is4 AsSlice].
  all: rewrite length_app, length_be_put in L; cbn [length] in L.
  all: rewrite write_at_app by (rewrite ?length_be_put; lia); rewrite bind_ret.
  all: rewrite set_at_app by (rewrite ?length_app, ?length_drop, ?length_be_put; lia); rewrite bind_ret, drop_drop.
  all: rewrite write_at_app by (rewrite ?length_app, ?length_drop, ?length_be_put; cbn [length]; lia).
  all: rewrite drop_drop, drop_ge, app_nil_r by (rewrite ?length_be_put; lia); by rewrite <- !app_assoc.
Qed.

Lemma put_prefix_ok status b rest n : length b = 7%nat -> length rest = n -> put_prefix (b ++ rest) status = Ret (xhead (S n) status x01 ++ x02 :: rest).
Proof.
  intros L <-. unfold xhead. rewrite be16_bytes. do 7 (destruct b as [|? b]; [done|]). destruct b; [|done]. cbn [app length]. unfold put_prefix.
  cbn [length]. replace (S (S (S (S (S (S (S (length rest))))))) - 2)%nat with (4 + S (length rest))%nat by lia. reflexivity.
Qed.

Section writing.
Context (parseAddrPort : list byte -> res AddrPort) {BS : BufferSource}.

Definition status (nh : bool) : byte := if nh then x01 else x02.
(** A datagram for [it.2], which parses to the address [a]. *)
Definition sendable (it : list byte * list byte) (a : AddrPort) : Prop :=
  parseAddrPort it.2 = Ret a /\ addr_ok a /\ Z.of_nat (length it.1) < 65536.
Fixpoint xframes (nh : bool) (items : list (list byte * list byte)) (addrs : list AddrPort) : list byte :=
  match items, addrs with it :: items, a :: addrs => xframe (status nh) a it.1 ++ xframes false items addrs | _, _ => [] end.

Definition x_inv (pc : PacketConn) (w : list byte) (nh : bool) : Prop :=
  overlayOut (x_conn pc) = sent w /\ writeDirect (x_conn pc) = false /\ needHandshake (x_conn pc) = nh /\
  (forall k v, x_target pc = Some (k, v) -> parseAddrPort k = Ret v).

Lemma addrPortForWrite_ok addr a pc w nh : x_inv pc w nh -> parseAddrPort addr = Ret a ->
  exists pc', addrPortForWrite parseAddrPort addr pc = (pc', Ret a) /\ x_inv pc' w nh.
Proof.
  intros (O & D & N & T) E. unfold addrPortForWrite, LastStringValue_Load. destruct (x_target pc) as [[k v]|] eqn:Et.
  - case_decide as K.
    + subst k. specialize (T addr v eq_refl). exists pc. assert (v = a) as -> by congruence. split; [done|]. split_and!; try done. intros k v' [= <- <-]%(eq_trans (eq_sym Et)). done.
    + rewrite E. eexists. split; [done|]. split_and!; try done. by intros ? ? [= <- <-].
  - rewrite E. eexists. split; [done|]. split_and!; try done. by intros ? ? [= <- <-].
Qed.

Definition xprefix (nh : bool) (a : AddrPort) : list byte := xhead (S (length (addr_block a))) (status nh) x01 ++ x02 :: addr_block a.

Lemma prefixPacketLocked_ok addr a pc w nh : x_inv pc w nh -> parseAddrPort addr = Ret a -> addr_ok a ->
  exists pc', prefixPacketLocked parseAddrPort addr pc = (pc', Ret (xprefix nh a)) /\ x_inv pc' w false.
Proof.
  intros I E A. unfold prefixPacketLocked. destruct (addrPortForWrite_ok addr a pc w nh I E) as (pc1 & E1 & (O & D & N & T)). st_call E1. cbv zeta.
  rewrite IPAddrLength_ok by done. pose proof (src_length (7 + length (addr_block a))) as L. set (b := src_get _) in *.
  rewrite <- (take_drop 7 b). assert (L7 : length (take 7 b) = 7%nat) by (rewrite length_take; lia).
  replace (PutPacketAddr (take 7 b ++ drop 7 b) 7 a) with (PutPacketAddr (take 7 b ++ drop 7 b) (length (take 7 b)) a) by (by rewrite L7).
  st_lift ltac:(apply PutPacketAddr_ok; [done|rewrite length_drop; lia]). st_pure. rewrite N. unfold xprefix.
  destruct nh; [st_pure|]; unfold lift; rewrite (put_prefix_ok _ (take 7 b) (addr_block a) (length (addr_block a))) by done; (eexists; split; [reflexivity|]; by split_and!).
Qed.

Lemma data_len_ok p : data_len p ++ p = xdata p.
Proof. unfold data_len, xdata. by rewrite be16_bytes. Qed.

Lemma xudp_WriteTo_ok p addr a pc w nh : x_inv pc w nh -> sendable (p, addr) a ->
  exists pc', WriteTo parseAddrPort p addr pc = (pc', Ret (length p)) /\ x_inv pc' (w ++ xframe (status nh) a p) false.
Proof.
  intros I (E & A & L). unfold WriteTo. destruct (prefixPacketLocked_ok addr a pc w nh I E A) as (pc1 & E1 & (O & D & N & T)). st_call E1.
  erewrite st_bind_Ret; [|unfold on_conn, writer_MultiWrite; rewrite D, O, MultiWrite_sent; reflexivity]. eexists. split; [reflexivity|].
  split_and!; try done. cbn [x_conn with_conn overlayOut set_outs concat]. rewrite app_nil_r, data_len_ok. unfold xframe, xprefix. by rewrite <- !app_assoc.
Qed.

Lemma resolve_all_ok items : forall addrs pc w nh, x_inv pc w nh -> Forall2 sendable items addrs ->
  exists pc', resolve_all parseAddrPort items pc = (pc', Ret tt) /\ x_inv pc' w nh.
Proof.
  induction items as [|it items IH]; intros addrs pc w nh I F; cbn [resolve_all]; [by eexists|].
  apply Forall2_cons_inv_l in F as (a & addrs' & (E & _ & _) & F & ->). destruct (addrPortForWrite_ok _ _ _ _ _ I E) as (pc1 & E1 & I1). st_call E1. by apply (IH addrs').
Qed.

Fixpoint xprefixes (nh : bool) (addrs : list AddrPort) : list (list byte) :=
  match addrs with [] => [] | a :: addrs => xprefix nh a :: xprefixes false addrs end.

Lemma prefixes_ok items : forall addrs pc w nh, x_inv pc w nh -> Forall2 sendable items addrs ->
  exists pc', prefixes parseAddrPort items pc = (pc', Ret (xprefixes nh addrs)) /\ x_inv pc' w (nh && bool_decide (items = [])).
Proof.
  induction items as [|it items IH]; intros addrs pc w nh I F; cbn [prefixes].
  - apply Forall2_nil_inv_l in F as ->. exists pc. rewrite andb_true_r. done.
  - apply Forall2_cons_inv_l in F as (a & addrs' & (E & A & _) & F & ->). destruct (prefixPacketLocked_ok _ _ _ _ _ I E A) as (pc1 & E1 & I1). st_call E1.
    destruct (IH addrs' pc1 w false I1 F) as (pc2 & E2 & I2). st_call E2. eexists. split; [reflexivity|]. by rewrite andb_false_r.
Qed.

Lemma fill_ok items : forall ps acc rest, length ps = length items -> length rest = frames_total items ps ->
  fill items ps (acc ++ rest) (length acc) = Ret (acc ++ concat (zip_with (fun it p => p ++ xdata it.1) items ps)).
Proof.
  induction items as [|it items IH]; intros [|p ps] acc rest Lp L; try done; cbn [fill zip_with concat]; unfold frames_total in L; cbn [zip_with sum_list_with sum_list] in L.
  - destruct rest; [done|done].
  - change (length rest = (length p + 2 + length it.1 + frames_total items ps)%nat) in L.
    rewrite copy_at_app by (done || lia). rewrite bind_ret. rewrite <- length_app. rewrite set_at_app by (rewrite ?length_drop; (done || lia)). rewrite bind_ret, drop_drop.
    rewrite set_at_app by (rewrite ?length_drop, ?length_app; cbn; lia). rewrite bind_ret, drop_drop.
    rewrite copy_at_app by (rewrite ?length_drop, ?length_app; cbn; lia). rewrite bind_ret, drop_drop.
    set (acc2 := _ ++ it.1). replace (length (acc ++ p) + 2 + length it.1)%nat with (length acc2) by (unfold acc2; rewrite !length_app; cbn; lia).
    rewrite IH; [|cbn in Lp; lia|rewrite length_drop; lia]. f_equal. unfold acc2, xdata. rewrite be16_bytes, <- !app_assoc. done.
Qed.

Lemma xframes_concat items : forall addrs nh, length items = length addrs ->
  concat (zip_with (fun it p => p ++ xdata it.1) items (xprefixes nh addrs)) = xframes nh items addrs.
Proof.
  induction items as [|it items IH]; intros [|a addrs] nh L; try done. cbn [zip_with xprefixes concat xframes]. rewrite IH by (by injection L). done.
Qed.

Lemma length_xprefixes addrs : forall nh, length (xprefixes nh addrs) = length addrs.
Proof. induction addrs as [|a addrs IH]; intros nh; cbn; [done|]. by rewrite IH. Qed.

Lemma xudp_WriteBatch_ok items addrs pc w nh : x_inv pc w nh -> Forall2 sendable items addrs ->
  exists pc', WriteBatch parseAddrPort items pc = (pc', Ret (length items)) /\ x_inv pc' (w ++ xframes nh items addrs) (nh && bool_decide (items = [])).
Proof.
  intros I F. pose proof (Forall2_length _ _ _ F) as L. unfold WriteBatch. case_decide as N.
  { subst. cbn [xframes]. exists pc. by rewrite app_nil_r, andb_true_r. }
  assert (B : Forall (fun it : list byte * list byte => Z.of_nat (length it.1) < 65536) items).
  { eapply Forall2_Forall_l; [exact F|]. apply Forall_forall. by intros a _ it (_ & _ & ?). }
  rewrite decide_False by (intros (it & In & X)%Exists_exists; rewrite Forall_forall in B; specialize (B it In); lia).
  destruct (resolve_all_ok _ _ _ _ _ I F) as (pc1 & E1 & I1). st_call E1. destruct (prefixes_ok _ _ _ _ _ I1 F) as (pc2 & E2 & (O & D & Nh & T)). st_call E2.
  st_lift ltac:(apply (fill_ok items (xprefixes nh addrs) []); [by rewrite length_xprefixes|apply src_length]). cbn [app]. rewrite xframes_concat by done.
  erewrite st_bind_Ret; [|unfold on_conn, writer_Write; rewrite D, O; reflexivity]. eexists. split; [reflexivity|]. by split_and!.
Qed.
End writing.

(** * Exchanges *)

Inductive xsend := XOne (it : list byte * list byte) | XBatch (items : list (list byte * list byte)).
Definition xsend_items (s : xsend) : list (list byte * list byte) := match s with XOne it => [it] | XBatch items => items end.
(** What each call reports: the bytes of one datagram, the datagrams of a batch. *)
Definition xsend_count (s : xsend) : nat := match s with XOne it => length it.1 | XBatch items => length items end.

Section exchange.
Context (parseAddrPort : list byte -> res AddrPort) {BS : BufferSource}.

Definition xsend_step (s : xsend) : st PacketConn nat :=
  match s with XOne it => WriteTo parseAddrPort it.1 it.2 | XBatch items => WriteBatch parseAddrPort items end.
Fixpoint xrun (ss : list xsend) : st PacketConn (list nat) :=
  match ss with [] => mret [] | s :: ss => n ← xsend_step s; ns ← xrun ss; mret (n :: ns) end.

Lemma xframes_app items1 items2 addrs1 addrs2 nh : length items1 = length addrs1 ->
  xframes nh (items1 ++ items2) (addrs1 ++ addrs2) = xframes nh items1 addrs1 ++ xframes (nh && bool_decide (items1 = [])) items2 addrs2.
Proof.
  revert addrs1 nh. induction items1 as [|it items1 IH]; intros [|a addrs1] nh L; try done; cbn [app xframes]; [by rewrite andb_true_r|].
  rewrite IH by (by injection L). by rewrite andb_false_r, <- app_assoc.
Qed.

Lemma xsend_ok s addrs pc w nh : x_inv parseAddrPort pc w nh -> Forall2 (sendable parseAddrPort) (xsend_items s) addrs ->
  exists pc', xsend_step s pc = (pc', Ret (xsend_count s)) /\ x_inv parseAddrPort pc' (w ++ xframes nh (xsend_items s) addrs) (nh && bool_decide (xsend_items s = [])).
Proof.
  intros I F. destruct s as [it|items]; cbn [xsend_step xsend_items xsend_count] in *; [|by apply xudp_WriteBatch_ok].
  apply Forall2_cons_inv_l in F as (a & l & S & F & ->). apply Forall2_nil_inv_l in F as ->. destruct it as [p addr].
  destruct (xudp_WriteTo_ok parseAddrPort p addr a pc w nh I S) as (pc' & E & I'). exists pc'. cbn [xframes fst snd]. by rewrite app_nil_r, andb_false_r.
Qed.

Lemma xrun_ok ss : forall addrs pc w nh, x_inv parseAddrPort pc w nh -> Forall2 (sendable parseAddrPort) (ss ≫= xsend_items) addrs ->
  exists pc', xrun ss pc = (pc', Ret (xsend_count <$> ss)) /\ overlayOut (x_conn pc') = sent (w ++ xframes nh (ss ≫= xsend_items) addrs).
Proof.
  induction ss as [|s ss IH]; intros addrs pc w nh I F; cbn [xrun].
  - exists pc. cbn. rewrite app_nil_r. by destruct I.
  - rewrite bind_cons in *. apply Forall2_app_inv_l in F as (a1 & a2 & F1 & F2 & ->). destruct (xsend_ok s a1 pc w nh I F1) as (pc1 & E1 & I1). st_call E1.
    destruct (IH a2 pc1 _ _ I1 F2) as (pc2 & E2 & O2). st_call E2. exists pc2. split; [done|]. rewrite O2, <- app_assoc, xframes_app by (by apply Forall2_length in F1). done.
Qed.

Lemma xframes_sdata items : forall addrs, Forall2 (sendable parseAddrPort) items addrs ->
  let fs := zip_with (fun it a => SData a it.1) items addrs in
  xframes false items addrs = fs ≫= sframe_bytes /\ Forall sframe_ok fs /\ omap sframe_data fs = zip items.*1 addrs.
Proof.
  induction items as [|it items IH]; intros addrs F.
  - apply Forall2_nil_inv_l in F as ->. done.
  - apply Forall2_cons_inv_l in F as (a & l & (_ & A & L) & F & ->). destruct (IH l F) as (E1 & E2 & E3). cbn -[sframe_bytes]. split; [by rewrite E1|].
    split; [by constructor|]. f_equal. exact E3.
Qed.
End exchange.

(** C28: datagrams sent singly or in batches over a Vision connection appear below as
    XUDP frames in order, the first one announcing the session when there was none, and
    every call reports what it sent; a receiver that gets such frames of an established
    session through any padded stream, with idle frames between them, obtains every
    datagram with its address, a datagram longer than the buffer being skipped as a
    whole with an error that is its own. *)
Theorem xudp_exchange (parseAddrPort : list byte -> res AddrPort) {BS : BufferSource} (ss : list xsend) (addrs : list AddrPort) (pc : PacketConn) (w : list byte) (nh : bool) :
  x_inv parseAddrPort pc w nh -> Forall2 (sendable parseAddrPort) (ss ≫= xsend_items) addrs ->
  (exists pc', xrun parseAddrPort ss pc = (pc', Ret (xsend_count <$> ss)) /\ overlayOut (x_conn pc') = sent (w ++ xframes nh (ss ≫= xsend_items) addrs)) /\
  (exists fs, xframes false (ss ≫= xsend_items) addrs = fs ≫= sframe_bytes /\ Forall sframe_ok fs /\ omap sframe_data fs = zip (ss ≫= xsend_items).*1 addrs) /\
  forall id ops v r fs ks network addr, length id = uuidLen -> Forall wop_ok ops -> Forall sframe_ok fs -> ops ≫= wop_data = fs ≫= sframe_bytes ->
    wrun ops (client id) = (v, Ret tt) -> reads_from v r -> (length ks <= length (omap sframe_data fs))%nat ->
    exists pc', recv ks (MkXPC r network addr None) = (pc', zip_with (fun kg x => delivery kg.1 x) ks (omap sframe_data fs)).
Proof.
  intros I F. split; [by apply xrun_ok|]. split; [eexists; by apply (xframes_sdata parseAddrPort)|].
  intros id ops v r fs ks network addr L Fo Ff D E R K. destruct (wrun_ok ops (client id) [] Open [] Fo (client_inv id)) as (v' & fs' & e & E' & I' & U). rewrite E in E'. injection E' as <-.
  apply (recv_ok ks fs _ 1 Ff); [|done]. cbn [x_conn]. rewrite <- D. apply (reads_from_conn v r fs' e); [exact I'|by rewrite U|done].
Qed.

Definition demo_dst : AddrPort := MkAddrPort (Addr4 [x01; x02; x03; x04]) 53.
Definition demo_xpc : PacketConn := MkXPC (client demo_id) (lit "udp") (lit "1.2.3.4:53") None.
Definition demo_sends : list xsend := [XOne ([xaa; xbb], lit "a"); XBatch [([xcc], lit "a"); ([], lit "b")]].

Lemma xudp_exchange_witness : exists pc', xrun (BS := demo_source) (fun _ => Ret demo_dst) demo_sends demo_xpc = (pc', Ret [2; 2]%nat) /\
  overlayOut (x_conn pc') = sent ([] ++ xframes true (demo_sends ≫= xsend_items) [demo_dst; demo_dst; demo_dst]).
Proof.
  refine (proj1 (xudp_exchange (BS := demo_source) (fun _ => Ret demo_dst) demo_sends [demo_dst; demo_dst; demo_dst] demo_xpc [] true _ _)).
  - split_and!; try reflexivity. intros k v [=].
  - repeat constructor; cbn; lia.
Defined.

(** [WriteTo] has no bound on the datagram, as [WriteBatch] has: the length field wraps. *)
Theorem xudp_long_datagram (parseAddrPort : list byte -> res AddrPort) {BS : BufferSource} (p addr : list byte) (a : AddrPort) (pc : PacketConn) (w : list byte) :
  x_inv parseAddrPort pc w false -> parseAddrPort addr = Ret a -> addr_ok a -> length p = Z.to_nat 65536 ->
  (exists pc', WriteTo parseAddrPort p addr pc = (pc', Ret (length p)) /\ overlayOut (x_conn pc') = sent (w ++ xprefix false a ++ [x00; x00] ++ p)) /\
  WriteBatch parseAddrPort [(p, addr)] pc = (pc, Fail (Errorf "vision udp payload too large: %d > %d")).
Proof.
  intros I E A L. split.
  - unfold WriteTo. destruct (prefixPacketLocked_ok parseAddrPort addr a pc w false I E A) as (pc1 & E1 & (O & D & N & T)). st_call E1.
    erewrite st_bind_Ret; [|unfold on_conn, writer_MultiWrite; rewrite D, O, MultiWrite_sent; reflexivity]. eexists. split; [reflexivity|].
    cbn [x_conn with_conn overlayOut set_outs concat]. rewrite app_nil_r. unfold data_len. rewrite L. done.
  - unfold WriteBatch. rewrite decide_False by done. rewrite decide_True; [done|]. apply Exists_cons_hd. cbn [fst]. rewrite L. lia.
Qed.
