(* ===== verification/BbrSampler.v ===== *)
(** The bandwidth sampler of BBR (protocol/tuic/congestion/bbr: bandwidth.go,
    bandwidth_sampler.go) and the adapter that shares it (refsampler.go).

    Instants are nanoseconds since Go's zero time (0 is [time.Time{}]); differences
    saturate as [Time.Sub] does.  Bandwidths are 64-bit unsigned integers in bits per
    second and are computed at that width; the running byte totals are unbounded.  The
    acknowledgement threshold is a float64: its type, the values 1.0 and 2.0, and the
    scaling of a byte count are parameters, and so is quic-go's largest congestion
    window. *)

From S2P Require Import Prelude RingBuffer PacketQueue WindowedFilter.

(** * Bandwidth *)

Definition two64 : Z := 2 ^ 64.
Definition u64 (z : Z) : Z := z mod two64.
Definition i64 (z : Z) : Z := (z + 2 ^ 63) mod two64 - 2 ^ 63.
Definition MaxInt64 : Z := 2 ^ 63 - 1.
Definition infBandwidth : Z := two64 - 1.
Definition infRTT : Z := MaxInt64.
Definition Second : Z := 1000000000.
Definition BytesPerSecond : Z := 8.

(** [t.Sub(u)]. *)
Definition time_Sub (t u : Z) : Z := Z.max (- 2 ^ 63) (Z.min MaxInt64 (t - u)).

(** Division by a zero duration would panic; the callers pass positive ones. *)
Definition BandwidthFromDelta (bytes delta : Z) : res Z :=
  if decide (u64 delta = 0) then Panic
  else Ret (u64 (u64 (u64 bytes * Second) / u64 delta * BytesPerSecond)).
Definition bytesFromBandwidthAndTimeDelta (bandwidth delta : Z) : Z :=
  Z.quot (i64 (i64 bandwidth * delta)) (Second * 8).

(** * Records *)

Record sendTimeState := MkSTS {
  isValid : bool; sts_appLimited : bool; sts_sent : Z; sts_acked : Z; sts_lost : Z; bytesInFlight : Z }.
Definition zeroSTS : sendTimeState := MkSTS false false 0 0 0 0.
Definition newSendTimeState (app : bool) (sent acked lost inFlight : Z) : sendTimeState := MkSTS true app sent acked lost inFlight.

Record extraAckedEvent := MkEAE { extraAcked : Z; bytesAcked : Z; timeDelta : Z; round : Z }.
Definition zeroEAE : extraAckedEvent := MkEAE 0 0 0 0.
Definition maxExtraAckedEventFunc (a b : extraAckedEvent) : Z :=
  if decide (extraAcked a > extraAcked b) then 1 else if decide (extraAcked a < extraAcked b) then -1 else 0.

Record bandwidthSample := MkBS { bandwidth : Z; rtt : Z; sendRate : Z; stateAtSend : sendTimeState }.
Definition newBandwidthSample : bandwidthSample := MkBS 0 0 infBandwidth zeroSTS.

Record ackPoint := MkAckPoint { ap_ackTime : Z; ap_acked : Z }.
Definition zeroAckPoint : ackPoint := MkAckPoint 0 0.
#[export] Instance ackPoint_inhabited : Inhabited ackPoint := populate zeroAckPoint.

(** The two most recent points, the latest second. *)
Record recentAckPoints := MkRAP { pt0 : ackPoint; pt1 : ackPoint }.
Definition recent_Update (ackTime totalBytesAcked : Z) (r : recentAckPoints) : recentAckPoints :=
  let r :=
    if decide (ackTime < ap_ackTime (pt1 r)) then MkRAP (pt0 r) (MkAckPoint ackTime (ap_acked (pt1 r)))
    else if decide (ap_ackTime (pt1 r) < ackTime) then MkRAP (pt1 r) (MkAckPoint ackTime (ap_acked (pt1 r)))
    else r in
  MkRAP (pt0 r) (MkAckPoint (ap_ackTime (pt1 r)) totalBytesAcked).
Definition recent_Clear : recentAckPoints := MkRAP zeroAckPoint zeroAckPoint.
Definition MostRecentPoint (r : recentAckPoints) : ackPoint := pt1 r.
Definition LessRecentPoint (r : recentAckPoints) : ackPoint := if decide (ap_acked (pt0 r) <> 0) then pt0 r else pt1 r.

Record connectionStateOnSentPacket := MkCS {
  sentTime : Z; size : Z; cs_sentAtLastAcked : Z; cs_lastAckedSentTime : Z; cs_lastAckedAckTime : Z;
  cs_state : sendTimeState; consumed : bool }.
Definition zeroCS : connectionStateOnSentPacket := MkCS 0 0 0 0 0 zeroSTS false.
#[export] Instance entry_cs_inhabited : Inhabited (entryWrapper connectionStateOnSentPacket) := populate (MkEW false zeroCS).
Definition set_consumed (e : connectionStateOnSentPacket) : connectionStateOnSentPacket :=
  MkCS (sentTime e) (size e) (cs_sentAtLastAcked e) (cs_lastAckedSentTime e) (cs_lastAckedAckTime e) (cs_state e) true.

Definition sentPacketToSendTimeState (e : connectionStateOnSentPacket) : sendTimeState :=
  let s := cs_state e in MkSTS true (sts_appLimited s) (sts_sent s) (sts_acked s) (sts_lost s) (bytesInFlight s).

(** * Acknowledgement aggregation *)

Section sampler.
Context {F : Type} (one two : F) (scaled : F -> Z -> Z) (MaxCongestionWindowPackets : Z).

Record maxAckHeightTracker := MkMAH {
  maxAckHeightFilter : WindowedFilter extraAckedEvent;
  aggregationEpochStartTime : Z; aggregationEpochBytes : Z; lastSentPacketNumberBeforeEpoch : Z;
  numAckAggregationEpochs : Z; ackAggregationBandwidthThreshold : F;
  startNewAggregationEpochAfterFullRound : bool; reduceExtraAckedOnBandwidthIncrease : bool }.

Definition newMaxAckHeightTracker (wl : Z) : maxAckHeightTracker :=
  MkMAH (NewWindowedFilter zeroEAE wl) 0 0 invalidPacketNumber 0 one false false.

Definition filter_Update := WindowedFilter.Update zeroEAE maxExtraAckedEventFunc.
Definition with_filter (f : WindowedFilter extraAckedEvent) (m : maxAckHeightTracker) : maxAckHeightTracker :=
  MkMAH f (aggregationEpochStartTime m) (aggregationEpochBytes m) (lastSentPacketNumberBeforeEpoch m) (numAckAggregationEpochs m)
    (ackAggregationBandwidthThreshold m) (startNewAggregationEpochAfterFullRound m) (reduceExtraAckedOnBandwidthIncrease m).
Definition with_epoch (start bytes last n : Z) (m : maxAckHeightTracker) : maxAckHeightTracker :=
  MkMAH (maxAckHeightFilter m) start bytes last n (ackAggregationBandwidthThreshold m)
    (startNewAggregationEpochAfterFullRound m) (reduceExtraAckedOnBandwidthIncrease m).

Definition tracker_Get (m : maxAckHeightTracker) : Z := extraAcked (GetBest (maxAckHeightFilter m)).

(** One of the three estimates, recomputed for the new bandwidth and put back. *)
Definition reinsert (bw : Z) (e : extraAckedEvent) (f : WindowedFilter extraAckedEvent) : WindowedFilter extraAckedEvent :=
  let expected := bytesFromBandwidthAndTimeDelta bw (timeDelta e) in
  if decide (expected < bytesAcked e)
  then filter_Update (MkEAE (bytesAcked e - expected) (bytesAcked e) (timeDelta e) (round e)) (round e) f
  else f.
Definition reduce_heights (bw : Z) (f : WindowedFilter extraAckedEvent) : WindowedFilter extraAckedEvent :=
  let best := GetBest f in let second := GetSecondBest f in let third := GetThirdBest f in
  reinsert bw third (reinsert bw second (reinsert bw best (WClear zeroEAE f))).

Definition new_epoch (acked ackTime lastSent : Z) (m : maxAckHeightTracker) : maxAckHeightTracker * Z :=
  (with_epoch ackTime acked lastSent (numAckAggregationEpochs m + 1) m, 0).

Definition tracker_Update (bandwidthEstimate : Z) (isNewMaxBandwidth : bool) (roundTripCount lastSent lastAcked ackTime acked : Z)
    (m : maxAckHeightTracker) : maxAckHeightTracker * Z :=
  let m := if reduceExtraAckedOnBandwidthIncrease m && isNewMaxBandwidth
           then with_filter (reduce_heights bandwidthEstimate (maxAckHeightFilter m)) m else m in
  let forceNewEpoch := startNewAggregationEpochAfterFullRound m &&
    bool_decide (lastSentPacketNumberBeforeEpoch m <> invalidPacketNumber) &&
    bool_decide (lastAcked <> invalidPacketNumber) && bool_decide (lastAcked > lastSentPacketNumberBeforeEpoch m) in
  if bool_decide (aggregationEpochStartTime m = 0) || forceNewEpoch then new_epoch acked ackTime lastSent m
  else
    let aggregationDelta := time_Sub ackTime (aggregationEpochStartTime m) in
    let expectedBytesAcked := bytesFromBandwidthAndTimeDelta bandwidthEstimate aggregationDelta in
    if decide (aggregationEpochBytes m <= scaled (ackAggregationBandwidthThreshold m) expectedBytesAcked)
    then new_epoch acked ackTime lastSent m
    else
      let bytes := aggregationEpochBytes m + acked in
      let extra := bytes - expectedBytesAcked in
      let newEvent := MkEAE extra bytes aggregationDelta 0 in
      let m := with_epoch (aggregationEpochStartTime m) bytes (lastSentPacketNumberBeforeEpoch m) (numAckAggregationEpochs m) m in
      (with_filter (filter_Update newEvent roundTripCount (maxAckHeightFilter m)) m, extra).

Definition SetFilterWindowLength (wl : Z) (m : maxAckHeightTracker) : maxAckHeightTracker :=
  with_filter (SetWindowLength wl (maxAckHeightFilter m)) m.
Definition tracker_Reset (newHeight newTime : Z) (m : maxAckHeightTracker) : maxAckHeightTracker :=
  with_filter (WReset (MkEAE newHeight 0 0 newTime) newTime (maxAckHeightFilter m)) m.
Definition SetAckAggregationBandwidthThreshold (t : F) (m : maxAckHeightTracker) : maxAckHeightTracker :=
  MkMAH (maxAckHeightFilter m) (aggregationEpochStartTime m) (aggregationEpochBytes m) (lastSentPacketNumberBeforeEpoch m)
    (numAckAggregationEpochs m) t (startNewAggregationEpochAfterFullRound m) (reduceExtraAckedOnBandwidthIncrease m).
Definition SetStartNewAggregationEpochAfterFullRound (v : bool) (m : maxAckHeightTracker) : maxAckHeightTracker :=
  MkMAH (maxAckHeightFilter m) (aggregationEpochStartTime m) (aggregationEpochBytes m) (lastSentPacketNumberBeforeEpoch m)
    (numAckAggregationEpochs m) (ackAggregationBandwidthThreshold m) v (reduceExtraAckedOnBandwidthIncrease m).
Definition SetReduceExtraAckedOnBandwidthIncrease (v : bool) (m : maxAckHeightTracker) : maxAckHeightTracker :=
  MkMAH (maxAckHeightFilter m) (aggregationEpochStartTime m) (aggregationEpochBytes m) (lastSentPacketNumberBeforeEpoch m)
    (numAckAggregationEpochs m) (ackAggregationBandwidthThreshold m) (startNewAggregationEpochAfterFullRound m) v.

(** * The sampler *)

(** The byte totals, and the point of the last acknowledged packet. *)
Record totals := MkTot { totalBytesSent : Z; totalBytesAcked : Z; totalBytesLost : Z; totalBytesNeutered : Z }.
Record lastAck := MkLA { totalBytesSentAtLastAckedPacket : Z; lastAckedPacketSentTime : Z; lastAckedPacketAckTime : Z }.
Abbreviation csMap := (packetNumberIndexedQueue (RingBuffer (entryWrapper connectionStateOnSentPacket))).

Record bandwidthSampler := MkSampler {
  tot : totals; la : lastAck; lastSentPacket : Z; lastAckedPacket : Z;
  isAppLimited : bool; endOfAppLimitedPhase : Z;
  connectionStateMap : csMap; recent : recentAckPoints; a0Candidates : RingBuffer ackPoint;
  tracker : maxAckHeightTracker; totalBytesAckedAfterLastAckEvent : Z;
  overestimateAvoidance : bool; limitMaxAckHeightTrackerBySendRate : bool }.
Implicit Types (b : bandwidthSampler).

Definition initialConnectionStateMapSlots : Z := 64.
Definition maxConnectionStateMapSlots : Z := 5 * MaxCongestionWindowPackets / 2.
Definition defaultCandidatesBufferSize : nat := Z.to_nat 256.

Definition newBandwidthSampler (wl : Z) : bandwidthSampler :=
  MkSampler (MkTot 0 0 0 0) (MkLA 0 0 0) invalidPacketNumber invalidPacketNumber false invalidPacketNumber
    (newPacketNumberIndexedQueue initialConnectionStateMapSlots maxConnectionStateMapSlots)
    recent_Clear (MkRing [] 0 0 false) (newMaxAckHeightTracker wl) 0 false false.

Definition set_totals (t : totals) b : bandwidthSampler :=
  MkSampler t (la b) (lastSentPacket b) (lastAckedPacket b) (isAppLimited b) (endOfAppLimitedPhase b) (connectionStateMap b) (recent b) (a0Candidates b)
    (tracker b) (totalBytesAckedAfterLastAckEvent b) (overestimateAvoidance b) (limitMaxAckHeightTrackerBySendRate b).
Definition set_la (l : lastAck) b : bandwidthSampler :=
  MkSampler (tot b) l (lastSentPacket b) (lastAckedPacket b) (isAppLimited b) (endOfAppLimitedPhase b) (connectionStateMap b) (recent b) (a0Candidates b)
    (tracker b) (totalBytesAckedAfterLastAckEvent b) (overestimateAvoidance b) (limitMaxAckHeightTrackerBySendRate b).
Definition set_numbers (s a : Z) b : bandwidthSampler :=
  MkSampler (tot b) (la b) s a (isAppLimited b) (endOfAppLimitedPhase b) (connectionStateMap b) (recent b) (a0Candidates b)
    (tracker b) (totalBytesAckedAfterLastAckEvent b) (overestimateAvoidance b) (limitMaxAckHeightTrackerBySendRate b).
Definition set_app (v : bool) (e : Z) b : bandwidthSampler :=
  MkSampler (tot b) (la b) (lastSentPacket b) (lastAckedPacket b) v e (connectionStateMap b) (recent b) (a0Candidates b)
    (tracker b) (totalBytesAckedAfterLastAckEvent b) (overestimateAvoidance b) (limitMaxAckHeightTrackerBySendRate b).
Definition set_map (m : csMap) b : bandwidthSampler :=
  MkSampler (tot b) (la b) (lastSentPacket b) (lastAckedPacket b) (isAppLimited b) (endOfAppLimitedPhase b) m (recent b) (a0Candidates b)
    (tracker b) (totalBytesAckedAfterLastAckEvent b) (overestimateAvoidance b) (limitMaxAckHeightTrackerBySendRate b).
Definition set_points (r : recentAckPoints) (c : RingBuffer ackPoint) b : bandwidthSampler :=
  MkSampler (tot b) (la b) (lastSentPacket b) (lastAckedPacket b) (isAppLimited b) (endOfAppLimitedPhase b) (connectionStateMap b) r c
    (tracker b) (totalBytesAckedAfterLastAckEvent b) (overestimateAvoidance b) (limitMaxAckHeightTrackerBySendRate b).
Definition set_tracker (t : maxAckHeightTracker) (after : Z) b : bandwidthSampler :=
  MkSampler (tot b) (la b) (lastSentPacket b) (lastAckedPacket b) (isAppLimited b) (endOfAppLimitedPhase b) (connectionStateMap b) (recent b) (a0Candidates b)
    t after (overestimateAvoidance b) (limitMaxAckHeightTrackerBySendRate b).
Definition set_options (oa lim : bool) b : bandwidthSampler :=
  MkSampler (tot b) (la b) (lastSentPacket b) (lastAckedPacket b) (isAppLimited b) (endOfAppLimitedPhase b) (connectionStateMap b) (recent b) (a0Candidates b)
    (tracker b) (totalBytesAckedAfterLastAckEvent b) oa lim.

Definition MaxAckHeight b : Z := tracker_Get (tracker b).
Definition on_tracker (f : maxAckHeightTracker -> maxAckHeightTracker) b : bandwidthSampler := set_tracker (f (tracker b)) (totalBytesAckedAfterLastAckEvent b) b.
Definition SetMaxAckHeightTrackerWindowLength (wl : Z) := on_tracker (SetFilterWindowLength wl).
Definition ResetMaxAckHeightTracker (h t : Z) := on_tracker (tracker_Reset h t).
Definition sampler_SetStartNewAggregationEpoch (v : bool) := on_tracker (SetStartNewAggregationEpochAfterFullRound v).
Definition sampler_SetReduceExtraAcked (v : bool) := on_tracker (SetReduceExtraAckedOnBandwidthIncrease v).
Definition SetLimitMaxAckHeightTrackerBySendRate (v : bool) b : bandwidthSampler := set_options (overestimateAvoidance b) v b.
Definition EnableOverestimateAvoidance b : bandwidthSampler :=
  if overestimateAvoidance b then b
  else on_tracker (SetAckAggregationBandwidthThreshold two)
         (set_points (recent b) (Init zeroAckPoint defaultCandidatesBufferSize) (set_options true (limitMaxAckHeightTrackerBySendRate b) b)).

(** ** Sending *)

Definition newConnectionStateOnSentPacket (t sz inFlight : Z) b : connectionStateOnSentPacket :=
  MkCS t sz (totalBytesSentAtLastAckedPacket (la b)) (lastAckedPacketSentTime (la b)) (lastAckedPacketAckTime (la b))
    (newSendTimeState (isAppLimited b) (totalBytesSent (tot b)) (totalBytesAcked (tot b)) (totalBytesLost (tot b)) inFlight) false.

Definition add_sent (n : Z) (t : totals) : totals := MkTot (totalBytesSent t + n) (totalBytesAcked t) (totalBytesLost t) (totalBytesNeutered t).
Definition add_acked (n : Z) (t : totals) : totals := MkTot (totalBytesSent t) (totalBytesAcked t + n) (totalBytesLost t) (totalBytesNeutered t).
Definition add_lost (n : Z) (t : totals) : totals := MkTot (totalBytesSent t) (totalBytesAcked t) (totalBytesLost t + n) (totalBytesNeutered t).
Definition add_neutered (n : Z) (t : totals) : totals := MkTot (totalBytesSent t) (totalBytesAcked t) (totalBytesLost t) (totalBytesNeutered t + n).

(** Nothing was in flight: the transmission that opens now is the A_0 point. *)
Definition open_flight (t : Z) b : res bandwidthSampler :=
  b ← (if overestimateAvoidance b then
         let r := recent_Update t (totalBytesAcked (tot b)) recent_Clear in
         c ← PushBack zeroAckPoint (MostRecentPoint r) (Clear zeroAckPoint (a0Candidates b));
         Ret (set_points r c b)
       else Ret b);
  Ret (set_la (MkLA (totalBytesSent (tot b)) t t) b).

Definition OnPacketSent (t packetNumber bytes inFlight : Z) (isRetransmittable : bool) b : res bandwidthSampler :=
  let b := set_numbers packetNumber (lastAckedPacket b) b in
  if negb isRetransmittable then Ret b
  else
    let b := set_totals (add_sent bytes (tot b)) b in
    b ← (if decide (inFlight = 0) then open_flight t b else Ret b);
    '(m, _) ← Emplace zeroCS packetNumber (Some (newConnectionStateOnSentPacket t bytes (inFlight + bytes) b)) (connectionStateMap b);
    Ret (set_map m b).

(** ** Acknowledgements and losses *)

Definition OnPacketLost (packetNumber bytesLost : Z) b : res (bandwidthSampler * sendTimeState) :=
  let b := set_totals (add_lost bytesLost (tot b)) b in
  e ← GetEntry packetNumber (connectionStateMap b);
  match e with
  | None => Ret (b, zeroSTS)
  | Some e =>
      m ← UpdateEntry set_consumed packetNumber (connectionStateMap b);
      Ret (set_map m b, sentPacketToSendTimeState e)
  end.

Definition OnPacketNeutered (packetNumber : Z) b : res bandwidthSampler :=
  '(m, e) ← Remove packetNumber (connectionStateMap b);
  Ret (match e with
       | Some e => set_totals (add_neutered (size e) (tot b)) (set_map m b)
       | None => set_map m b
       end).

Definition OnAppLimited b : bandwidthSampler := set_app true (lastSentPacket b) b.
Definition reclaimConsumed b : res bandwidthSampler :=
  '(m, _) ← DropConsumedFront consumed (connectionStateMap b); Ret (set_map m b).
Definition RemoveObsoletePackets (leastUnacked : Z) b : res bandwidthSampler :=
  m ← RemoveUpTo leastUnacked (connectionStateMap b); Ret (set_map m b).

Fixpoint pop_n (n : nat) (r : RingBuffer ackPoint) : res (RingBuffer ackPoint) :=
  match n with O => Ret r | S n => '(_, r) ← PopFront zeroAckPoint r; pop_n n r end.
(** [for k := 0; k < Len()-1; k++ { PopFront() }]: the length shrinks as [k] grows. *)
Fixpoint pop_half (fuel k : nat) (r : RingBuffer ackPoint) : res (RingBuffer ackPoint) :=
  if decide (k < Len r - 1)%nat then
    match fuel with O => Panic | S fuel => '(_, r) ← PopFront zeroAckPoint r; pop_half fuel (S k) r end
  else Ret r.
(** [for i := 1; i < Len(); i++] *)
Fixpoint choose_loop (fuel i : nat) (acked : Z) (r : RingBuffer ackPoint) : res (RingBuffer ackPoint * ackPoint) :=
  if decide (i < Len r)%nat then
    c ← Offset i r;
    if decide (ap_acked c > acked) then
      a0 ← Offset (i - 1) r;
      r ← (if decide (1 < i)%nat then pop_n (i - 1) r else Ret r);
      Ret (r, a0)
    else match fuel with O => Panic | S fuel => choose_loop fuel (S i) acked r end
  else
    a0 ← Back r;
    r ← pop_half (Len r) 0 r;
    Ret (r, a0).
Definition chooseA0Point (acked : Z) (r : RingBuffer ackPoint) : res (RingBuffer ackPoint * option ackPoint) :=
  if Empty r then Ret (r, None)
  else if decide (Len r = 1%nat) then a0 ← Front r; Ret (r, Some a0)
  else '(r, a0) ← choose_loop (Len r) 1 acked r; Ret (r, Some a0).

(** The slopes of the curves of sent and of acknowledged bytes. *)
Definition rate_sample (ackTime : Z) (e : connectionStateOnSentPacket) (acked : Z) (a0 : ackPoint) : res bandwidthSample :=
  sendRate ← (if decide (cs_lastAckedSentTime e < sentTime e)
              then BandwidthFromDelta (sts_sent (cs_state e) - cs_sentAtLastAcked e) (time_Sub (sentTime e) (cs_lastAckedSentTime e))
              else Ret infBandwidth);
  if decide (time_Sub ackTime (ap_ackTime a0) <= 0) then Ret newBandwidthSample
  else
    ackRate ← BandwidthFromDelta (acked - ap_acked a0) (time_Sub ackTime (ap_ackTime a0));
    Ret (MkBS (Z.min sendRate ackRate) (time_Sub ackTime (sentTime e)) sendRate (sentPacketToSendTimeState e)).

Definition onPacketAcknowledged (ackTime packetNumber : Z) b : res (bandwidthSampler * bandwidthSample) :=
  let b := set_numbers (lastSentPacket b) packetNumber b in
  e ← GetEntry packetNumber (connectionStateMap b);
  match e with
  | None => Ret (b, newBandwidthSample)
  | Some e =>
      m ← UpdateEntry set_consumed packetNumber (connectionStateMap b);
      let b := set_map m b in
      let b := set_totals (add_acked (size e) (tot b)) b in
      let b := set_la (MkLA (sts_sent (cs_state e)) (sentTime e) ackTime) b in
      let b := if overestimateAvoidance b then set_points (recent_Update ackTime (totalBytesAcked (tot b)) (recent b)) (a0Candidates b) b else b in
      let b := if isAppLimited b && bool_decide (endOfAppLimitedPhase b = invalidPacketNumber \/ packetNumber > endOfAppLimitedPhase b)
               then set_app false (endOfAppLimitedPhase b) b else b in
      if decide (cs_lastAckedSentTime e = 0) then Ret (b, newBandwidthSample)
      else
        '(c, a0) ← (if overestimateAvoidance b then chooseA0Point (sts_acked (cs_state e)) (a0Candidates b) else Ret (a0Candidates b, None));
        let b := set_points (recent b) c b in
        let a0 := default (MkAckPoint (cs_lastAckedAckTime e) (sts_acked (cs_state e))) a0 in
        s ← rate_sample ackTime e (totalBytesAcked (tot b)) a0;
        Ret (b, s)
  end.

Definition onAckEventEnd (bandwidthEstimate : Z) (isNewMaxBandwidth : bool) (roundTripCount : Z) b : res (bandwidthSampler * Z) :=
  let newlyAckedBytes := totalBytesAcked (tot b) - totalBytesAckedAfterLastAckEvent b in
  if decide (newlyAckedBytes = 0) then Ret (b, 0)
  else
    let '(t, extra) := tracker_Update bandwidthEstimate isNewMaxBandwidth roundTripCount (lastSentPacket b) (lastAckedPacket b)
                         (lastAckedPacketAckTime (la b)) newlyAckedBytes (tracker b) in
    let b := set_tracker t (totalBytesAcked (tot b)) b in
    if overestimateAvoidance b && bool_decide (extra = 0) then
      c ← PushBack zeroAckPoint (LessRecentPoint (recent b)) (a0Candidates b);
      Ret (set_points (recent b) c b, extra)
    else Ret (b, extra).

(** ** Congestion events *)

Record congestionEventSample := MkCES {
  sampleMaxBandwidth : Z; sampleIsAppLimited : bool; sampleRtt : Z; sampleMaxInflight : Z;
  lastPacketSendState : sendTimeState; ces_extraAcked : Z }.
Definition newCongestionEventSample : congestionEventSample := MkCES 0 false infRTT 0 zeroSTS 0.

(** [for _, p := range lostPackets]: the send state of the last one recorded. *)
Fixpoint lose_all (lost : list (Z * Z)) (last : sendTimeState) b : res (bandwidthSampler * sendTimeState) :=
  match lost with
  | [] => Ret (b, last)
  | (n, bytes) :: lost =>
      '(b, s) ← OnPacketLost n bytes b;
      lose_all lost (if isValid s then s else last) b
  end.

Record acking := MkAck { ak_sample : congestionEventSample; ak_last : sendTimeState; ak_maxSendRate : Z }.
Definition ack_sample (acked : Z) (s : bandwidthSample) (a : acking) : acking :=
  if negb (isValid (stateAtSend s)) then a
  else
    let e := ak_sample a in
    let rtt' := if decide (rtt s <> 0) then Z.min (sampleRtt e) (rtt s) else sampleRtt e in
    let better := bool_decide (bandwidth s > sampleMaxBandwidth e) in
    let bw := if better then bandwidth s else sampleMaxBandwidth e in
    let app := if better then sts_appLimited (stateAtSend s) else sampleIsAppLimited e in
    let rate := if decide (sendRate s <> infBandwidth) then Z.max (ak_maxSendRate a) (sendRate s) else ak_maxSendRate a in
    let inflight := acked - sts_acked (stateAtSend s) in
    MkAck (MkCES bw app rtt' (if decide (inflight > sampleMaxInflight e) then inflight else sampleMaxInflight e) (lastPacketSendState e) (ces_extraAcked e))
      (stateAtSend s) rate.
Fixpoint ack_all (ackTime : Z) (acked : list Z) (a : acking) b : res (bandwidthSampler * acking) :=
  match acked with
  | [] => Ret (b, a)
  | n :: acked =>
      '(b, s) ← onPacketAcknowledged ackTime n b;
      ack_all ackTime acked (ack_sample (totalBytesAcked (tot b)) s a) b
  end.

(** [lostPackets[len-1].PacketNumber > ackedPackets[len-1].PacketNumber] *)
Definition last_number (l : list Z) : Z := default 0 (last l).
Definition last_send_state (lost : list (Z * Z)) (acked : list Z) (ls ak : sendTimeState) : sendTimeState :=
  if negb (isValid ls) then ak
  else if negb (isValid ak) then ls
  else if decide (last_number (fst <$> lost) > last_number acked) then ls else ak.

Definition congestion_sample (ackTime : Z) (acked : list Z) (lost : list (Z * Z)) (maxBandwidth estBandwidthUpperBound roundTripCount : Z) b
    : res (bandwidthSampler * congestionEventSample) :=
  '(b, ls) ← lose_all lost zeroSTS b;
  if decide (acked = []) then Ret (b, MkCES 0 false infRTT 0 ls 0)
  else
    '(b, a) ← ack_all ackTime acked (MkAck newCongestionEventSample zeroSTS 0) b;
    let e := ak_sample a in
    let isNewMaxBandwidth := bool_decide (sampleMaxBandwidth e > maxBandwidth) in
    let maxBandwidth := Z.max maxBandwidth (sampleMaxBandwidth e) in
    let maxBandwidth := if limitMaxAckHeightTrackerBySendRate b then Z.max maxBandwidth (ak_maxSendRate a) else maxBandwidth in
    '(b, extra) ← onAckEventEnd (Z.min estBandwidthUpperBound maxBandwidth) isNewMaxBandwidth roundTripCount b;
    Ret (b, MkCES (sampleMaxBandwidth e) (sampleIsAppLimited e) (sampleRtt e) (sampleMaxInflight e) (last_send_state lost acked ls (ak_last a)) extra).

(** [defer b.reclaimConsumed()]: on both ways out. *)
Definition OnCongestionEvent (ackTime : Z) (acked : list Z) (lost : list (Z * Z)) (maxBandwidth estBandwidthUpperBound roundTripCount : Z) b
    : res (bandwidthSampler * congestionEventSample) :=
  '(b, e) ← congestion_sample ackTime acked lost maxBandwidth estBandwidthUpperBound roundTripCount b;
  b ← reclaimConsumed b;
  Ret (b, e).

(** * The shared adapter (refsampler.go) *)

Record RefSampler := MkRef { ref_sampler : bandwidthSampler; ref_maxBandwidth : WindowedFilter Z }.
Record RefSample := MkRS { rs_Bandwidth : Z; rs_RTT : Z; rs_AppLimited : bool; rs_ExtraAcked : Z; rs_Sample : Z }.

Definition NewRefSampler (windowRounds : Z) : RefSampler := MkRef (newBandwidthSampler windowRounds) (NewWindowedFilter 0 windowRounds).
Definition ref_OnPacketSent (t n bytes inFlight : Z) (isRetransmittable : bool) (r : RefSampler) : res RefSampler :=
  b ← OnPacketSent t n bytes inFlight isRetransmittable (ref_sampler r); Ret (MkRef b (ref_maxBandwidth r)).
Definition ref_OnCongestionEvent (ackTime : Z) (acked : list Z) (lost : list (Z * Z)) (roundTrip : Z) (r : RefSampler) : res (RefSampler * RefSample) :=
  let before := totalBytesAcked (tot (ref_sampler r)) in
  '(b, e) ← OnCongestionEvent ackTime acked lost (GetBest (ref_maxBandwidth r)) infBandwidth roundTrip (ref_sampler r);
  let f := if decide (totalBytesAcked (tot b) <> before /\ (sampleIsAppLimited e = false \/ sampleMaxBandwidth e > GetBest (ref_maxBandwidth r)))
           then WindowedFilter.Update 0 MaxFilter (sampleMaxBandwidth e) roundTrip (ref_maxBandwidth r) else ref_maxBandwidth r in
  Ret (MkRef b f, MkRS (GetBest f) (sampleRtt e) (sampleIsAppLimited e) (ces_extraAcked e) (sampleMaxBandwidth e)).
Definition MaxBandwidthBytesPerSecond (r : RefSampler) : Z := GetBest (ref_maxBandwidth r) / BytesPerSecond.
Definition ref_OnAppLimited (r : RefSampler) : RefSampler := MkRef (OnAppLimited (ref_sampler r)) (ref_maxBandwidth r).
Definition ref_RemoveObsoletePackets (n : Z) (r : RefSampler) : res RefSampler :=
  b ← RemoveObsoletePackets n (ref_sampler r); Ret (MkRef b (ref_maxBandwidth r)).
Definition ref_SetWindowLength (wl : Z) (r : RefSampler) : RefSampler :=
  MkRef (SetMaxAckHeightTrackerWindowLength wl (ref_sampler r)) (SetWindowLength wl (ref_maxBandwidth r)).
End sampler.
