(* ===== verification/BbrIdeal.v ===== *)
(** The bandwidth sampler against its specification: an ideal sampler that keeps
    the record of every outstanding packet in a finite map and forgets it when the
    packet is acknowledged, lost or given up.  The sampler of the source, with its
    bounded queue, consumed marks and reclamation, returns the same samples. *)

From S2P Require Import Prelude RingBuffer PacketQueue WindowedFilter BbrSampler.

Section ideal.
Context {F : Type} (one : F) (scaled : F -> Z -> Z) (MaxCongestionWindowPackets : Z).

(** * The specification *)

(** The scalar state: totals, the last acknowledged packet, the application-limited
    phase, the aggregation tracker. *)
Record scal := MkScal {
  s_tot : totals; s_la : lastAck; s_lastSent : Z; s_lastAcked : Z; s_app : bool; s_end : Z;
  s_tracker : maxAckHeightTracker (F := F); s_after : Z; s_limit : bool }.
(** [i_recs]: the outstanding packets.  [i_done], [i_next] and [i_base] say what a caller may
    do: the packets already reported, the lowest number to send, and the oldest packet
    outstanding at the last event ([i_next] when there is none). *)
Record ideal := MkIdeal {
  i_s : scal; i_recs : gmap Z connectionStateOnSentPacket; i_done : gset Z; i_next : Z; i_base : Z }.

Definition s_with (t : totals) (l : lastAck) (sent acked : Z) (app : bool) (s : scal) : scal :=
  MkScal t l sent acked app (s_end s) (s_tracker s) (s_after s) (s_limit s).

Definition i_send (t n bytes inFlight : Z) (isRetransmittable : bool) (i : ideal) : ideal :=
  let s := i_s i in
  if negb isRetransmittable then MkIdeal (s_with (s_tot s) (s_la s) n (s_lastAcked s) (s_app s) s) (i_recs i) (i_done i) (i_next i) (i_base i)
  else
    let tt := add_sent bytes (s_tot s) in
    let l := if decide (inFlight = 0) then MkLA (totalBytesSent tt) t t else s_la s in
    let e := MkCS t bytes (totalBytesSentAtLastAckedPacket l) (lastAckedPacketSentTime l) (lastAckedPacketAckTime l)
               (newSendTimeState (s_app s) (totalBytesSent tt) (totalBytesAcked tt) (totalBytesLost tt) (inFlight + bytes)) false in
    MkIdeal (s_with tt l n (s_lastAcked s) (s_app s) s) (<[n := e]> (i_recs i)) (i_done i) (n + 1) (if decide (i_base i = i_next i) then n else i_base i).

Definition i_lose (n bytes : Z) (i : ideal) : ideal * sendTimeState :=
  let s := i_s i in
  (MkIdeal (s_with (add_lost bytes (s_tot s)) (s_la s) (s_lastSent s) (s_lastAcked s) (s_app s) s)
     (delete n (i_recs i)) ({[n]} ∪ i_done i) (i_next i) (i_base i),
   match i_recs i !! n with Some e => sentPacketToSendTimeState e | None => zeroSTS end).

(** Bits per second of [bytes] in [delta] nanoseconds, at 64 bits. *)
Definition slope (bytes delta : Z) : Z := u64 (u64 (u64 bytes * Second) / delta * BytesPerSecond).
(** The slopes between the packet and the last one acknowledged before it was sent. *)
Definition ideal_sample (ackTime : Z) (e : connectionStateOnSentPacket) (acked : Z) : bandwidthSample :=
  let send := if decide (cs_lastAckedSentTime e < sentTime e)
              then slope (sts_sent (cs_state e) - cs_sentAtLastAcked e) (time_Sub (sentTime e) (cs_lastAckedSentTime e)) else infBandwidth in
  if decide (time_Sub ackTime (cs_lastAckedAckTime e) <= 0) then newBandwidthSample
  else MkBS (Z.min send (slope (acked - sts_acked (cs_state e)) (time_Sub ackTime (cs_lastAckedAckTime e))))
         (time_Sub ackTime (sentTime e)) send (sentPacketToSendTimeState e).

Definition i_ack (ackTime n : Z) (i : ideal) : ideal * bandwidthSample :=
  let s := i_s i in
  match i_recs i !! n with
  | None => (MkIdeal (s_with (s_tot s) (s_la s) (s_lastSent s) n (s_app s) s) (i_recs i) ({[n]} ∪ i_done i) (i_next i) (i_base i), newBandwidthSample)
  | Some e =>
      let tt := add_acked (size e) (s_tot s) in
      let app := s_app s && negb (bool_decide (s_end s = invalidPacketNumber \/ n > s_end s)) in
      (MkIdeal (s_with tt (MkLA (sts_sent (cs_state e)) (sentTime e) ackTime) (s_lastSent s) n app s)
         (delete n (i_recs i)) ({[n]} ∪ i_done i) (i_next i) (i_base i),
       if decide (cs_lastAckedSentTime e = 0) then newBandwidthSample else ideal_sample ackTime e (totalBytesAcked tt))
  end.

Fixpoint i_lose_all (lost : list (Z * Z)) (last : sendTimeState) (i : ideal) : ideal * sendTimeState :=
  match lost with
  | [] => (i, last)
  | (n, bytes) :: lost => let '(i, s) := i_lose n bytes i in i_lose_all lost (if isValid s then s else last) i
  end.
Fixpoint i_ack_all (ackTime : Z) (acked : list Z) (a : acking) (i : ideal) : ideal * acking :=
  match acked with
  | [] => (i, a)
  | n :: acked => let '(i, s) := i_ack ackTime n i in i_ack_all ackTime acked (ack_sample (totalBytesAcked (s_tot (i_s i))) s a) i
  end.
Definition i_end_event (bw : Z) (isNew : bool) (rtc : Z) (i : ideal) : ideal * Z :=
  let s := i_s i in
  let newly := totalBytesAcked (s_tot s) - s_after s in
  if decide (newly = 0) then (i, 0)
  else
    let '(t, extra) := tracker_Update scaled bw isNew rtc (s_lastSent s) (s_lastAcked s) (lastAckedPacketAckTime (s_la s)) newly (s_tracker s) in
    (MkIdeal (MkScal (s_tot s) (s_la s) (s_lastSent s) (s_lastAcked s) (s_app s) (s_end s) t (totalBytesAcked (s_tot s)) (s_limit s))
       (i_recs i) (i_done i) (i_next i) (i_base i), extra).

(** The oldest outstanding packet. *)
Definition lowest (m : gmap Z connectionStateOnSentPacket) (d : Z) : Z := foldr Z.min d (map_to_list m).*1.
Definition rebase (i : ideal) : ideal := MkIdeal (i_s i) (i_recs i) (i_done i) (i_next i) (lowest (i_recs i) (i_next i)).

Definition i_event (ackTime : Z) (acked : list Z) (lost : list (Z * Z)) (maxBandwidth upper rtc : Z) (i : ideal) : ideal * congestionEventSample :=
  let '(i, ls) := i_lose_all lost zeroSTS i in
  if decide (acked = []) then (rebase i, MkCES 0 false infRTT 0 ls 0)
  else
    let '(i, a) := i_ack_all ackTime acked (MkAck newCongestionEventSample zeroSTS 0) i in
    let e := ak_sample a in
    let isNew := bool_decide (sampleMaxBandwidth e > maxBandwidth) in
    let bw := Z.max maxBandwidth (sampleMaxBandwidth e) in
    let bw := if s_limit (i_s i) then Z.max bw (ak_maxSendRate a) else bw in
    let '(i, extra) := i_end_event (Z.min upper bw) isNew rtc i in
    (rebase i, MkCES (sampleMaxBandwidth e) (sampleIsAppLimited e) (sampleRtt e) (sampleMaxInflight e) (last_send_state lost acked ls (ak_last a)) extra).

Definition i_app_limited (i : ideal) : ideal :=
  let s := i_s i in
  MkIdeal (MkScal (s_tot s) (s_la s) (s_lastSent s) (s_lastAcked s) true (s_lastSent s) (s_tracker s) (s_after s) (s_limit s))
    (i_recs i) (i_done i) (i_next i) (i_base i).
Definition i_neuter (n : Z) (i : ideal) : ideal :=
  let s := i_s i in
  MkIdeal (match i_recs i !! n with Some e => s_with (add_neutered (size e) (s_tot s)) (s_la s) (s_lastSent s) (s_lastAcked s) (s_app s) s | None => s end)
    (delete n (i_recs i)) (i_done i) (i_next i) (i_base i).
Definition i_obsolete (n : Z) (i : ideal) : ideal :=
  MkIdeal (i_s i) (filter (fun kv => n <= kv.1) (i_recs i)) (i_done i) (i_next i) (i_base i).

(** * Callers *)

Inductive call :=
  | CSent (t n bytes inFlight : Z) (isRetransmittable : bool)
  | CEvent (ackTime : Z) (acked : list Z) (lost : list (Z * Z)) (maxBandwidth upper rtc : Z)
  | CAppLimited | CNeutered (n : Z) | CObsolete (n : Z).

(** Packet numbers grow, a packet is acknowledged or lost once, and the packets sent since
    the oldest one outstanding at the last event fit the budget. *)
Definition allowed (max : nat) (i : ideal) (o : call) : Prop :=
  match o with
  | CSent _ n _ _ r => if r then 0 <= n /\ i_next i <= n /\ (n ∉ i_done i) /\ (i_base i = i_next i \/ n - i_base i < Z.of_nat max) else True
  | CEvent _ acked lost _ _ _ => NoDup ((lost.*1) ++ acked) /\ Forall (fun n => 0 <= n /\ n ∉ i_done i) ((lost.*1) ++ acked)
  | CAppLimited => True
  | CNeutered n => 0 <= n /\ n ∉ i_done i
  | CObsolete _ => True
  end.

Definition i_step (o : call) (i : ideal) : ideal * option congestionEventSample :=
  match o with
  | CSent t n bytes fl r => (i_send t n bytes fl r i, None)
  | CEvent t acked lost mb ub rtc => let '(i, e) := i_event t acked lost mb ub rtc i in (i, Some e)
  | CAppLimited => (i_app_limited i, None)
  | CNeutered n => (i_neuter n i, None)
  | CObsolete n => (i_obsolete n i, None)
  end.
Definition step (o : call) (b : bandwidthSampler (F := F)) : res (bandwidthSampler (F := F) * option congestionEventSample) :=
  match o with
  | CSent t n bytes fl r => b ← OnPacketSent t n bytes fl r b; Ret (b, None)
  | CEvent t acked lost mb ub rtc => '(b, e) ← OnCongestionEvent scaled t acked lost mb ub rtc b; Ret (b, Some e)
  | CAppLimited => Ret (OnAppLimited b, None)
  | CNeutered n => b ← OnPacketNeutered n b; Ret (b, None)
  | CObsolete n => b ← RemoveObsoletePackets n b; Ret (b, None)
  end.

Fixpoint i_run (os : list call) (i : ideal) : ideal * list (option congestionEventSample) :=
  match os with
  | [] => (i, [])
  | o :: os => let '(i, x) := i_step o i in let '(i, xs) := i_run os i in (i, x :: xs)
  end.
Fixpoint run (os : list call) (b : bandwidthSampler (F := F)) : res (bandwidthSampler (F := F) * list (option congestionEventSample)) :=
  match os with
  | [] => Ret (b, [])
  | o :: os => '(b, x) ← step o b; '(b, xs) ← run os b; Ret (b, x :: xs)
  end.
Fixpoint allowed_all (max : nat) (i : ideal) (os : list call) : Prop :=
  match os with [] => True | o :: os => allowed max i o /\ allowed_all max (i_step o i).1 os end.

(** * The correspondence *)

Definition view (b : bandwidthSampler (F := F)) : scal :=
  MkScal (tot b) (la b) (lastSentPacket b) (lastAckedPacket b) (isAppLimited b) (endOfAppLimitedPhase b) (tracker b)
    (totalBytesAckedAfterLastAckEvent b) (limitMaxAckHeightTrackerBySendRate b).

(** The queue holds the outstanding records and, marked, some of the reported ones. *)
Definition records_ok (m : gmap Z connectionStateOnSentPacket) (i : ideal) : Prop :=
  (forall n e, i_recs i !! n = Some e -> m !! n = Some e /\ consumed e = false) /\
  (forall n e, m !! n = Some e -> i_recs i !! n = Some e \/ consumed e = true /\ n ∈ i_done i) /\
  (forall n, n ∈ i_done i -> i_recs i !! n = None) /\
  (forall n e, m !! n = Some e -> i_base i <= n < i_next i).

Definition rel (max : nat) (b : bandwidthSampler (F := F)) (i : ideal) : Prop :=
  view b = i_s i /\ overestimateAvoidance b = false /\ maxSlots (connectionStateMap b) = max /\
  exists m nxt, holds (connectionStateMap b) (MkSent m nxt) /\ nxt <= i_next i /\ i_base i <= i_next i /\ records_ok m i.

(** ** Rates *)

Lemma time_Sub_pos t u : u < t -> 0 < time_Sub t u < two64.
Proof. unfold time_Sub, MaxInt64, two64. lia. Qed.
Lemma time_Sub_range t u : time_Sub t u < two64.
Proof. unfold time_Sub, MaxInt64, two64. lia. Qed.

Lemma BandwidthFromDelta_ok bytes d : 0 < d < two64 -> BandwidthFromDelta bytes d = Ret (slope bytes d).
Proof. intros H. unfold BandwidthFromDelta, slope, u64 in *. rewrite (Z.mod_small d) by lia. by rewrite decide_False by lia. Qed.

Lemma rate_sample_ok t e acked : rate_sample t e acked (MkAckPoint (cs_lastAckedAckTime e) (sts_acked (cs_state e))) = Ret (ideal_sample t e acked).
Proof.
  unfold rate_sample, ideal_sample. cbn [ap_ackTime ap_acked]. set (sr := if decide (cs_lastAckedSentTime e < sentTime e) then slope _ _ else _).
  assert ((if decide (cs_lastAckedSentTime e < sentTime e) then BandwidthFromDelta (sts_sent (cs_state e) - cs_sentAtLastAcked e) (time_Sub (sentTime e) (cs_lastAckedSentTime e)) else Ret infBandwidth) = Ret sr) as ->.
  { unfold sr. case_decide; [|done]. apply BandwidthFromDelta_ok. by apply time_Sub_pos. }
  rewrite bind_ret. case_decide; [done|]. rewrite BandwidthFromDelta_ok by (pose proof (time_Sub_range t (cs_lastAckedAckTime e)); lia). done.
Qed.

(** ** One packet *)

Lemma records_resolve m i n s : records_ok m i -> n ∉ i_done i ->
  m !! n = i_recs i !! n /\
  records_ok (match m !! n with Some e => <[n := set_consumed e]> m | None => m end) (MkIdeal s (delete n (i_recs i)) ({[n]} ∪ i_done i) (i_next i) (i_base i)).
Proof.
  intros (R1 & R2 & R3 & R4) Hn.
  assert (E : m !! n = i_recs i !! n).
  { destruct (i_recs i !! n) as [e|] eqn:Ei; [by apply R1|]. destruct (m !! n) as [e|] eqn:Em; [|done]. destruct (R2 n e Em) as [?|[_ ?]]; congruence. }
  split; [done|]. split_and!; cbn [i_recs i_done i_base i_next].
  - intros k e [Hk He]%lookup_delete_Some. destruct (R1 k e He) as [Hm Hc]. split; [|done]. destruct (m !! n); [by rewrite lookup_insert_ne|done].
  - intros k e Hk. destruct (decide (k = n)) as [->|Hne].
    + right. destruct (m !! n) as [e0|] eqn:Em; [|congruence]. rewrite lookup_insert_eq in Hk. injection Hk as <-. split; [done|]. set_solver.
    + assert (m !! k = Some e) as Hm by (destruct (m !! n); [by rewrite lookup_insert_ne in Hk|done]).
      destruct (R2 k e Hm) as [?|[? ?]]; [left; by rewrite lookup_delete_ne|right; split; [done|set_solver]].
  - intros k [->%elem_of_singleton|Hk]%elem_of_union; [apply lookup_delete_eq|]. apply lookup_delete_None. right. by apply R3.
  - intros k e Hk. destruct (decide (k = n)) as [->|Hne].
    + destruct (m !! n) as [e0|] eqn:Em; [by apply (R4 n e0)|congruence].
    + apply (R4 k e). destruct (m !! n); [by rewrite lookup_insert_ne in Hk|done].
Qed.

Lemma OnPacketLost_ok max n bytes b i : rel max b i -> 0 <= n -> n ∉ i_done i ->
  exists b', OnPacketLost n bytes b = Ret (b', (i_lose n bytes i).2) /\ rel max b' (i_lose n bytes i).1.
Proof.
  intros (V & O & M & m & nxt & H & Hn & Hb & R) Hz Hd. destruct (records_resolve m i n (i_s (i_lose n bytes i).1) R Hd) as [E R'].
  unfold OnPacketLost. cbv zeta. change (connectionStateMap (set_totals _ b)) with (connectionStateMap b).
  rewrite (holds_GetEntry _ _ n H) by done. rewrite bind_ret. cbn [am]. unfold i_lose. cbn [fst snd]. rewrite <- E in *. destruct (m !! n) as [e|] eqn:Em.
  - destruct (holds_UpdateEntry _ _ n set_consumed e H Hz) as (q' & -> & H' & M'); [exact Em|]. rewrite bind_ret. eexists. split; [reflexivity|].
    split; [by rewrite <- V|]. split; [exact O|]. split; [by rewrite <- M|]. exists (<[n := set_consumed e]> m), nxt. split_and!; try done; exact H'.
  - eexists. split; [reflexivity|]. split; [by rewrite <- V|]. split; [exact O|]. split; [done|]. exists m, nxt. split_and!; try done; exact H.
Qed.

Lemma onPacketAcknowledged_ok max t n b i : rel max b i -> 0 <= n -> n ∉ i_done i ->
  exists b', onPacketAcknowledged t n b = Ret (b', (i_ack t n i).2) /\ rel max b' (i_ack t n i).1.
Proof.
  intros (V & O & M & m & nxt & H & Hn & Hb & R) Hz Hd. destruct (records_resolve m i n (i_s (i_ack t n i).1) R Hd) as [E R'].
  unfold onPacketAcknowledged. cbv zeta. change (connectionStateMap (set_numbers _ _ b)) with (connectionStateMap b).
  rewrite (holds_GetEntry _ _ n H) by done. rewrite bind_ret. cbn [am]. unfold i_ack in *. rewrite <- E in *. destruct (m !! n) as [e|] eqn:Em; cbn [fst snd] in *.
  - destruct (holds_UpdateEntry _ _ n set_consumed e H Hz) as (q' & -> & H' & M'); [exact Em|]. rewrite bind_ret.
    change (overestimateAvoidance (set_la _ _)) with (overestimateAvoidance b). rewrite O. rewrite <- V. cbn [view s_app s_end s_tot s_la s_lastSent].
    set (b1 := set_la _ _). change (isAppLimited b1) with (isAppLimited b). change (endOfAppLimitedPhase b1) with (endOfAppLimitedPhase b).
    set (ex := bool_decide (endOfAppLimitedPhase b = invalidPacketNumber \/ n > endOfAppLimitedPhase b)).
    set (b2 := if isAppLimited b && ex then set_app false (endOfAppLimitedPhase b) b1 else b1).
    assert (V2 : view b2 = s_with (add_acked (size e) (tot b)) (MkLA (sts_sent (cs_state e)) (sentTime e) t) (lastSentPacket b) n (isAppLimited b && negb ex) (view b)).
    { unfold b2. destruct (isAppLimited b) eqn:Ea, ex; cbn [andb negb]; unfold view, s_with; cbn; by rewrite ?Ea. }
    assert (O2 : overestimateAvoidance b2 = false) by (unfold b2; by destruct (isAppLimited b && ex)). assert (Q2 : connectionStateMap b2 = q') by (unfold b2; by destruct (isAppLimited b && ex)).
    assert (R2 : rel max b2 (MkIdeal (view b2) (delete n (i_recs i)) ({[n]} ∪ i_done i) (i_next i) (i_base i))).
    { split; [done|]. split; [done|]. rewrite Q2. split; [by rewrite <- M|]. exists (<[n := set_consumed e]> m), nxt. split_and!; try done; exact H'. }
    rewrite V2 in R2. destruct (decide (cs_lastAckedSentTime e = 0)); [by exists b2|]. rewrite O2, bind_ret. cbv zeta. cbn [default].
    change (totalBytesAcked (tot (set_points _ _ b2))) with (totalBytesAcked (s_tot (view b2))). rewrite V2. cbn [s_with s_tot]. rewrite rate_sample_ok, bind_ret. eexists. split; [reflexivity|].
    replace (set_points (recent b2) (a0Candidates b2) b2) with b2 by (by destruct b2). exact R2.
  - eexists. split; [reflexivity|]. split; [by rewrite <- V|]. split; [exact O|]. split; [done|]. exists m, nxt. split; [exact H|]. split; [done|]. split; [done|].
    rewrite delete_id in R' by congruence. exact R'.
Qed.

(** ** Sending, and giving packets up *)

Lemma lowest_le m d n : is_Some (m !! n) -> lowest m d <= n.
Proof.
  intros [e He]. unfold lowest. apply elem_of_map_to_list in He. apply (list_elem_of_fmap_2 fst) in He. cbn [fst] in He.
  induction (map_to_list m).*1 as [|k l IH]; [by apply not_elem_of_nil in He|]. cbn [foldr]. apply elem_of_cons in He as [->|He]; [lia|]. specialize (IH He). lia.
Qed.
Lemma lowest_bound m d : lowest m d <= d.
Proof. unfold lowest. induction (map_to_list m).*1 as [|k l IH]; cbn [foldr]; lia. Qed.

Lemma OnPacketSent_ok max t n bytes fl r b i : rel max b i -> allowed max i (CSent t n bytes fl r) ->
  exists b', OnPacketSent t n bytes fl r b = Ret b' /\ rel max b' (i_send t n bytes fl r i).
Proof.
  intros (V & O & M & m & nxt & H & Hn & Hb & R) A. unfold OnPacketSent, i_send. destruct r; cbn [negb allowed] in *; cbv zeta.
  2:{ eexists. split; [reflexivity|]. split; [by rewrite <- V|]. split; [exact O|]. split; [exact M|]. by exists m, nxt. }
  destruct A as (Hz & Hx & Hd & Hs). rewrite <- V. cbn [view s_tot s_la s_app s_lastAcked]. set (tt' := add_sent bytes (tot b)).
  set (b1 := set_totals _ _). set (l := if decide (fl = 0) then MkLA (totalBytesSent tt') t t else la b).
  assert ((if decide (fl = 0) then open_flight t b1 else Ret b1) = Ret (set_la l b1)) as ->.
  { unfold l, open_flight. case_decide; [|by destruct b]. change (overestimateAvoidance b1) with (overestimateAvoidance b). by rewrite O, bind_ret. }
  rewrite bind_ret. set (e := newConnectionStateOnSentPacket _ _ _ _). change (connectionStateMap (set_la l b1)) with (connectionStateMap b).
  destruct R as (R1 & R2 & R3 & R4). pose proof (holds_Emplace zeroCS _ _ n e H Hz) as Em. cbn [am anext] in Em. rewrite decide_True in Em by lia.
  destruct Em as (q' & -> & H' & M').
  { intros j [x Hj]. rewrite M. specialize (R4 j x Hj). lia. }
  rewrite bind_ret. eexists. split; [reflexivity|]. split; [done|]. split; [exact O|]. split; [by rewrite <- M|].
  exists (<[n := e]> m), (n + 1). split; [exact H'|]. cbn [i_next i_base]. split; [lia|]. split; [case_decide; lia|]. split_and!; cbn [i_recs i_done i_base i_next].
  - intros k x. destruct (decide (k = n)) as [->|Hk]; [rewrite !lookup_insert_eq; intros [= <-]; done|]. rewrite !lookup_insert_ne by done. apply R1.
  - intros k x. destruct (decide (k = n)) as [->|Hk]; [rewrite !lookup_insert_eq; intros [= <-]; by left|]. rewrite !lookup_insert_ne by done. apply R2.
  - intros k Hk. rewrite lookup_insert_ne by (by intros ->). by apply R3.
  - intros k x. destruct (decide (k = n)) as [->|Hk]; [intros _; case_decide; lia|]. rewrite lookup_insert_ne by done. intros Hx'. specialize (R4 k x Hx'). case_decide; lia.
Qed.

Lemma reclaim_rel max b i : rel max b i -> exists b', reclaimConsumed b = Ret b' /\ rel max b' (rebase i).
Proof.
  intros (V & O & M & m & nxt & H & Hn & Hb & R1 & R2 & R3 & R4). unfold reclaimConsumed.
  destruct (holds_DropConsumed _ _ consumed H) as (q' & k & m' & -> & H' & M' & S & D1 & D2 & D3). rewrite bind_ret. eexists. split; [reflexivity|].
  split; [exact V|]. split; [exact O|]. split; [by rewrite <- M|]. exists m', nxt. split; [exact H'|]. split; [exact Hn|]. cbn [am] in *.
  assert (Sub : forall n e, m' !! n = Some e -> m !! n = Some e) by (intros n e He; by apply (lookup_weaken m')).
  split; [cbn [rebase i_base i_next]; apply lowest_bound|].
  split_and!; cbn [rebase i_recs i_done i_base i_next].
  - intros n e He. destruct (R1 n e He) as [Hm Hc]. split; [|done]. destruct (m' !! n) as [x|] eqn:Ex; [apply Sub in Ex; congruence|]. pose proof (D1 n e Hm Ex). congruence.
  - intros n e He. by apply R2, Sub.
  - exact R3.
  - intros n e He. split; [|by apply (R4 n e), Sub]. destruct (D3 n e He) as (j0 & x0 & L & Hj & Hc). apply Sub in Hj. destruct (R2 j0 x0 Hj) as [Hr|[? _]]; [|congruence].
    transitivity j0; [|done]. apply lowest_le. eauto.
Qed.

Lemma OnPacketNeutered_ok max n b i : rel max b i -> 0 <= n -> n ∉ i_done i -> exists b', OnPacketNeutered n b = Ret b' /\ rel max b' (i_neuter n i).
Proof.
  intros (V & O & M & m & nxt & H & Hn & Hb & R) Hz Hd. destruct (records_resolve m i n (i_s i) R Hd) as [E _]. destruct R as (R1 & R2 & R3 & R4).
  unfold OnPacketNeutered, i_neuter. destruct (holds_Remove _ _ n H Hz) as (q' & -> & H' & M'). rewrite bind_ret. cbn [am anext] in *. rewrite E in *.
  eexists. split; [reflexivity|]. rewrite <- V. set (s := match _ with Some e => s_with _ _ _ _ _ _ | None => _ end). set (b' := match _ with Some e => set_totals _ _ | None => _ end).
  split; [unfold b', s; by destruct (i_recs i !! n)|]. split; [unfold b'; by destruct (i_recs i !! n)|]. assert (connectionStateMap b' = q') as -> by (unfold b'; by destruct (i_recs i !! n)).
  split; [by rewrite <- M|]. exists (delete n m), nxt. split; [exact H'|]. split; [done|]. split; [done|]. split_and!; cbn [i_recs i_done i_base i_next].
  - intros k e [Hk He]%lookup_delete_Some. rewrite lookup_delete_ne by done. by apply R1.
  - intros k e [Hk He]%lookup_delete_Some. rewrite lookup_delete_ne by done. by apply R2.
  - intros k Hk. apply lookup_delete_None. right. by apply R3.
  - intros k e [Hk He]%lookup_delete_Some. by apply (R4 k e).
Qed.

Lemma RemoveObsolete_ok max n b i : rel max b i -> exists b', RemoveObsoletePackets n b = Ret b' /\ rel max b' (i_obsolete n i).
Proof.
  intros (V & O & M & m & nxt & H & Hn & Hb & R1 & R2 & R3 & R4). unfold RemoveObsoletePackets. destruct (holds_RemoveUpTo _ _ n H) as (q' & -> & H' & M'). rewrite bind_ret.
  eexists. split; [reflexivity|]. split; [exact V|]. split; [exact O|]. split; [by rewrite <- M|]. eexists _, nxt. split; [exact H'|]. split; [exact Hn|]. split; [exact Hb|]. cbn [am].
  split_and!; cbn [i_obsolete i_recs i_done i_base i_next].
  - intros k e [He Hk]%map_lookup_filter_Some. destruct (R1 k e He). split; [by apply map_lookup_filter_Some|done].
  - intros k e [He Hk]%map_lookup_filter_Some. destruct (R2 k e He) as [?|?]; [left; by apply map_lookup_filter_Some|by right].
  - intros k Hk. apply map_lookup_filter_None. left. by apply R3.
  - intros k e [He Hk]%map_lookup_filter_Some. by apply (R4 k e).
Qed.

(** ** Events *)

Lemma lose_all_ok max lost : forall last b i, rel max b i -> NoDup (lost.*1) -> Forall (fun n => 0 <= n /\ n ∉ i_done i) (lost.*1) ->
  exists b', lose_all lost last b = Ret (b', (i_lose_all lost last i).2) /\ rel max b' (i_lose_all lost last i).1 /\
    forall n, n ∉ i_done i -> n ∉ (lost.*1) -> n ∉ i_done (i_lose_all lost last i).1.
Proof.
  induction lost as [|[n bytes] lost IH]; intros last b i R N Fd; cbn [lose_all i_lose_all]; [by exists b|].
  cbn [fmap list_fmap fst] in *. apply NoDup_cons in N as [Nn N]. apply Forall_cons in Fd as [[Hz Hd] Fd].
  destruct (OnPacketLost_ok max n bytes b i R Hz Hd) as (b1 & -> & R1). rewrite bind_ret. destruct (i_lose n bytes i) as [i1 s] eqn:E. cbn [fst snd] in *.
  assert (D1 : i_done i1 = {[n]} ∪ i_done i) by (unfold i_lose in E; by injection E as <- _).
  destruct (IH (if isValid s then s else last) b1 i1 R1 N) as (b2 & -> & R2 & K).
  { apply Forall_forall. intros k Hk. rewrite Forall_forall in Fd. destruct (Fd k Hk). split; [done|]. rewrite D1. set_solver. }
  exists b2. split; [done|]. split; [done|]. intros k Hk [Hn1 Hn2]%not_elem_of_cons. apply K; [rewrite D1; set_solver|done].
Qed.

Lemma ack_all_ok max t acked : forall a b i, rel max b i -> NoDup acked -> Forall (fun n => 0 <= n /\ n ∉ i_done i) acked ->
  exists b', ack_all t acked a b = Ret (b', (i_ack_all t acked a i).2) /\ rel max b' (i_ack_all t acked a i).1.
Proof.
  induction acked as [|n acked IH]; intros a b i R N Fd; cbn [ack_all i_ack_all]; [by exists b|].
  apply NoDup_cons in N as [Nn N]. apply Forall_cons in Fd as [[Hz Hd] Fd].
  destruct (onPacketAcknowledged_ok max t n b i R Hz Hd) as (b1 & -> & R1). rewrite bind_ret. destruct (i_ack t n i) as [i1 s] eqn:E. cbn [fst snd] in *.
  assert (D1 : i_done i1 = {[n]} ∪ i_done i) by (unfold i_ack in E; destruct (i_recs i !! n); by injection E as <- _).
  assert (totalBytesAcked (tot b1) = totalBytesAcked (s_tot (i_s i1))) as -> by (destruct R1 as [<- _]; done).
  apply IH; [done..|]. apply Forall_forall. intros k Hk. rewrite Forall_forall in Fd. destruct (Fd k Hk). split; [done|]. rewrite D1. set_solver.
Qed.

Lemma onAckEventEnd_ok max bw new rtc b i : rel max b i ->
  exists b', onAckEventEnd scaled bw new rtc b = Ret (b', (i_end_event bw new rtc i).2) /\ rel max b' (i_end_event bw new rtc i).1.
Proof.
  intros (V & O & M & m & nxt & H & Hn & Hb & R). unfold onAckEventEnd, i_end_event. cbv zeta. rewrite <- V. cbn [view s_tot s_after s_lastSent s_lastAcked s_la s_tracker].
  case_decide. { exists b. split; [done|]. split; [done|]. split; [done|]. split; [done|]. by exists m, nxt. }
  destruct (tracker_Update _ _ _ _ _ _ _ _ _) as [tr extra]. change (overestimateAvoidance (set_tracker _ _ b)) with (overestimateAvoidance b). rewrite O. cbn [andb].
  eexists. split; [reflexivity|]. split; [done|]. split; [exact O|]. split; [exact M|]. by exists m, nxt.
Qed.

Lemma OnCongestionEvent_ok max t acked lost mb ub rtc b i : rel max b i -> allowed max i (CEvent t acked lost mb ub rtc) ->
  exists b', OnCongestionEvent scaled t acked lost mb ub rtc b = Ret (b', (i_event t acked lost mb ub rtc i).2) /\ rel max b' (i_event t acked lost mb ub rtc i).1.
Proof.
  intros R [(N1 & N12 & N2)%NoDup_app [F1 F2]%Forall_app]. unfold OnCongestionEvent, congestion_sample, i_event.
  destruct (lose_all_ok max lost zeroSTS b i R N1 F1) as (b1 & -> & R1 & K). rewrite bind_ret. destruct (i_lose_all lost zeroSTS i) as [i1 ls]. cbn [fst snd] in *.
  case_decide as Ea.
  { rewrite bind_ret. destruct (reclaim_rel max b1 i1 R1) as (b2 & -> & R2). rewrite bind_ret. by exists b2. }
  destruct (ack_all_ok max t acked (MkAck newCongestionEventSample zeroSTS 0) b1 i1 R1 N2) as (b2 & -> & R2).
  { apply Forall_forall. intros n Hn. rewrite Forall_forall in F2. destruct (F2 n Hn). split; [done|]. apply K; [done|]. intros Hl. by apply (N12 n). }
  rewrite !bind_ret. destruct (i_ack_all t acked _ i1) as [i2 a]. cbn [fst snd] in *. cbv zeta.
  assert (limitMaxAckHeightTrackerBySendRate b2 = s_limit (i_s i2)) as -> by (destruct R2 as [<- _]; done).
  set (bw := Z.min ub _). set (new := bool_decide _).
  destruct (onAckEventEnd_ok max bw new rtc b2 i2 R2) as (b3 & -> & R3). rewrite bind_ret. destruct (i_end_event bw new rtc i2) as [i3 extra]. cbn [fst snd] in *. rewrite bind_ret.
  destruct (reclaim_rel max b3 i3 R3) as (b4 & -> & R4). rewrite bind_ret. by exists b4.
Qed.

Lemma step_ok max o b i : rel max b i -> allowed max i o -> exists b', step o b = Ret (b', (i_step o i).2) /\ rel max b' (i_step o i).1.
Proof.
  intros R A. destruct o as [t n bytes fl r|t acked lost mb ub rtc| |n|n]; cbn [step i_step].
  - destruct (OnPacketSent_ok max t n bytes fl r b i R A) as (b' & -> & R'). by exists b'.
  - destruct (OnCongestionEvent_ok max t acked lost mb ub rtc b i R A) as (b' & -> & R'). rewrite bind_ret. destruct (i_event t acked lost mb ub rtc i). by exists b'.
  - eexists. split; [reflexivity|]. destruct R as (V & O & M & m & nxt & H & Hn & Hb & R). split; [cbn; by rewrite <- V|]. split; [exact O|]. split; [exact M|]. by exists m, nxt.
  - destruct A as [Hz Hd]. destruct (OnPacketNeutered_ok max n b i R Hz Hd) as (b' & -> & R'). by exists b'.
  - destruct (RemoveObsolete_ok max n b i R) as (b' & -> & R'). by exists b'.
Qed.

Lemma run_ok max os : forall b i, rel max b i -> allowed_all max i os -> exists b', run os b = Ret (b', (i_run os i).2) /\ rel max b' (i_run os i).1.
Proof.
  induction os as [|o os IH]; intros b i R A; cbn [run i_run]; [by exists b|]. destruct A as [Ao A].
  destruct (step_ok max o b i R Ao) as (b1 & -> & R1). rewrite bind_ret. destruct (i_step o i) as [i1 x]. cbn [fst snd] in *.
  destruct (IH b1 i1 R1 A) as (b2 & -> & R2). rewrite bind_ret. destruct (i_run os i1) as [i2 xs]. by exists b2.
Qed.

(** A new sampler and its specification. *)
Definition sampler0 (wl : Z) : bandwidthSampler := newBandwidthSampler one MaxCongestionWindowPackets wl.
Definition ideal0 (wl : Z) : ideal := MkIdeal (view (sampler0 wl)) ∅ ∅ 0 0.
Definition budget : nat := maxSlots (connectionStateMap (sampler0 0)).

Lemma new_rel wl : rel budget (sampler0 wl) (ideal0 wl).
Proof.
  split; [done|]. split; [done|]. split; [done|]. exists ∅, 0. split; [|split; [done|split; [done|]]].
  - split_and!; [|done| |done].
    + assert (B : (1 <= initialSlots (connectionStateMap (sampler0 wl)) <= maxSlots (connectionStateMap (sampler0 wl)))%nat) by
        (cbn; unfold initialConnectionStateMapSlots; case_decide; cbn; try case_decide; lia).
      assert (Sl : slots (connectionStateMap (sampler0 wl)) = []) by (unfold slots; apply dq_Init_list).
      split; [apply dq_Init_wf|by rewrite Sl|rewrite Sl; cbn; lia|exact B|by rewrite Sl].
    + intros k. cbn [am]. rewrite lookup_empty. unfold pq_get. by case_decide.
  - split_and!; intros n; [intros e|intros e| |intros e]; rewrite ?lookup_empty; done.
Qed.

(** * Byte accounting *)

Definition out_bytes (m : gmap Z connectionStateOnSentPacket) : Z := map_fold (fun _ e acc => size e + acc) 0 m.

Lemma out_bytes_insert m n e : m !! n = None -> out_bytes (<[n := e]> m) = size e + out_bytes m.
Proof. intros H. unfold out_bytes. by rewrite map_fold_insert_L by (intros; lia || done). Qed.
Lemma out_bytes_delete m n e : m !! n = Some e -> out_bytes m = size e + out_bytes (delete n m).
Proof. intros H. unfold out_bytes. by rewrite (map_fold_delete_L _ _ n e) by (intros; lia || done). Qed.

(** What was sent is acknowledged, lost, neutered or outstanding. *)
Definition balanced (i : ideal) : Prop :=
  let t := s_tot (i_s i) in totalBytesSent t = totalBytesAcked t + totalBytesLost t + totalBytesNeutered t + out_bytes (i_recs i).

(** A loss reports the bytes of an outstanding packet; no packet is given up unseen. *)
Definition exact (i : ideal) (o : call) : Prop :=
  match o with
  | CSent _ n _ _ true => i_recs i !! n = None
  | CEvent _ _ lost _ _ _ => Forall (fun x => exists e, i_recs i !! x.1 = Some e /\ size e = x.2) lost
  | CObsolete _ => False
  | _ => True
  end.
Fixpoint exact_all (i : ideal) (os : list call) : Prop :=
  match os with [] => True | o :: os => exact i o /\ exact_all (i_step o i).1 os end.

Lemma i_lose_all_balanced lost : forall last i, balanced i -> NoDup (lost.*1) -> Forall (fun x => exists e, i_recs i !! x.1 = Some e /\ size e = x.2) lost ->
  balanced (i_lose_all lost last i).1.
Proof.
  induction lost as [|[n bytes] lost IH]; intros last i B N Fx; cbn [i_lose_all]; [done|]. cbn [fmap list_fmap fst] in N. apply NoDup_cons in N as [Nn N].
  apply Forall_cons in Fx as [(e & He & Hs) Fx]. cbn [fst snd] in *. destruct (i_lose n bytes i) as [i1 s] eqn:E. unfold i_lose in E. injection E as <- _. apply IH; [|done|].
  - unfold balanced in *. cbn. rewrite (out_bytes_delete _ _ _ He) in B. lia.
  - apply Forall_forall. intros [k sz] Hk. rewrite Forall_forall in Fx. destruct (Fx _ Hk) as (e' & He' & Hs'). exists e'. split; [|done]. cbn [i_recs fst]. rewrite lookup_delete_ne; [done|].
    intros <-. apply Nn. apply list_elem_of_fmap. by exists (n, sz).
Qed.

Lemma i_ack_all_balanced t acked : forall a i, balanced i -> balanced (i_ack_all t acked a i).1.
Proof.
  induction acked as [|n acked IH]; intros a i B; cbn [i_ack_all]; [done|]. destruct (i_ack t n i) as [i1 s] eqn:E. apply IH. unfold i_ack in E.
  destruct (i_recs i !! n) as [e|] eqn:He; injection E as <- _; [|exact B]. unfold balanced in *. cbn. rewrite (out_bytes_delete _ _ _ He) in B. lia.
Qed.

Lemma i_step_balanced max o i : allowed max i o -> exact i o -> balanced i -> balanced (i_step o i).1.
Proof.
  intros A X B. destruct o as [t n bytes fl r|t acked lost mb ub rtc| |n|n]; cbn [i_step fst exact allowed] in *; [| |exact B| |done].
  - unfold i_send. destruct r; cbn [negb]; [|exact B]. unfold balanced in *. cbn [i_s i_recs s_with s_tot]. rewrite out_bytes_insert by done. cbn. lia.
  - unfold i_event. destruct A as [(N & _)%NoDup_app _]. pose proof (i_lose_all_balanced lost zeroSTS i B N X) as B1. destruct (i_lose_all lost zeroSTS i) as [i1 ls]. cbn [fst] in B1.
    case_decide; [exact B1|]. pose proof (i_ack_all_balanced t acked (MkAck newCongestionEventSample zeroSTS 0) i1 B1) as B2. destruct (i_ack_all t acked _ i1) as [i2 a]. cbn [fst] in B2. cbv zeta.
    unfold i_end_event. cbv zeta. case_decide; [exact B2|]. destruct (tracker_Update _ _ _ _ _ _ _ _ _). exact B2.
  - unfold i_neuter, balanced in *. cbn [i_s i_recs]. destruct (i_recs i !! n) as [e|] eqn:He; [|by rewrite delete_id]. cbn. rewrite (out_bytes_delete _ _ _ He) in B. lia.
Qed.

Lemma i_run_balanced max os : forall i, allowed_all max i os -> exact_all i os -> balanced i -> balanced (i_run os i).1.
Proof.
  induction os as [|o os IH]; intros i A X B; cbn [i_run]; [done|]. destruct A as [Ao A], X as [Xo X]. pose proof (i_step_balanced max o i Ao Xo B) as B1.
  destruct (i_step o i) as [i1 x]. cbn [fst] in *. specialize (IH i1 A X B1). by destruct (i_run os i1).
Qed.

(** * Application-limited phases *)

Definition acks (o : call) : list Z := match o with CEvent _ acked _ _ _ _ => acked | _ => [] end.
(** In the phase that began when [l] was the last packet sent: [m0] are the records of
    then. *)
Definition in_phase (l : Z) (m0 : gmap Z connectionStateOnSentPacket) (i : ideal) : Prop :=
  s_app (i_s i) = true /\ s_end (i_s i) = l /\ forall n e, i_recs i !! n = Some e -> m0 !! n = Some e \/ sts_appLimited (cs_state e) = true.

Lemma i_lose_all_phase l m0 lost : forall last i, in_phase l m0 i -> in_phase l m0 (i_lose_all lost last i).1.
Proof.
  induction lost as [|[n bytes] lost IH]; intros last i P; cbn [i_lose_all]; [done|]. destruct (i_lose n bytes i) as [i1 s] eqn:E. unfold i_lose in E. injection E as <- _.
  apply IH. destruct P as (P1 & P2 & P3). split_and!; [done..|]. cbn [i_recs]. intros k e [_ He]%lookup_delete_Some. by apply P3.
Qed.
Lemma i_ack_all_phase l m0 t acked : forall a i, Forall (fun n => 0 <= n <= l) acked -> in_phase l m0 i -> in_phase l m0 (i_ack_all t acked a i).1.
Proof.
  induction acked as [|n acked IH]; intros a i Fl P; cbn [i_ack_all]; [done|]. apply Forall_cons in Fl as [Hn Fl]. destruct (i_ack t n i) as [i1 s] eqn:E. apply IH; [done|].
  destruct P as (P1 & P2 & P3). unfold i_ack in E. destruct (i_recs i !! n) as [e|]; injection E as <- _; split_and!; try done.
  - cbn. rewrite P1, P2. unfold invalidPacketNumber. by rewrite bool_decide_false by lia.
  - cbn [i_recs]. intros k x [_ He]%lookup_delete_Some. by apply P3.
Qed.

Lemma i_step_phase l m0 o i : Forall (fun n => 0 <= n <= l) (acks o) -> o <> CAppLimited -> in_phase l m0 i -> in_phase l m0 (i_step o i).1.
Proof.
  intros Fl No P. destruct o as [t n bytes fl r|t acked lost mb ub rtc| |n|n]; cbn [i_step fst acks] in *; [| |done|..].
  - destruct P as (P1 & P2 & P3). unfold i_send. destruct r; cbn [negb]; (split_and!; [done|done|]); [|done]. intros k e. destruct (decide (k = n)) as [->|Hk].
    + cbn [i_recs]. rewrite lookup_insert_eq. intros [= <-]. right. exact P1.
    + cbn [i_recs]. rewrite lookup_insert_ne by done. apply P3.
  - unfold i_event. pose proof (i_lose_all_phase l m0 lost zeroSTS i P) as P1. destruct (i_lose_all lost zeroSTS i) as [i1 ls]. cbn [fst] in P1.
    case_decide; [exact P1|]. pose proof (i_ack_all_phase l m0 t acked (MkAck newCongestionEventSample zeroSTS 0) i1 Fl P1) as P2. destruct (i_ack_all t acked _ i1) as [i2 a]. cbn [fst] in P2. cbv zeta.
    unfold i_end_event. cbv zeta. case_decide; [exact P2|]. destruct (tracker_Update _ _ _ _ _ _ _ _ _). exact P2.
  - destruct P as (P1 & P2 & P3). unfold i_neuter. split_and!; cbn [i_s i_recs]; [by destruct (i_recs i !! n)|by destruct (i_recs i !! n)|]. cbn [i_recs]. intros k e [_ He]%lookup_delete_Some. by apply P3.
  - destruct P as (P1 & P2 & P3). split_and!; [done..|]. cbn [i_obsolete i_recs]. intros k e [He _]%map_lookup_filter_Some. by apply P3.
Qed.

Lemma i_run_phase l m0 os : forall i, Forall (fun o => Forall (fun n => 0 <= n <= l) (acks o) /\ o <> CAppLimited) os -> in_phase l m0 i -> in_phase l m0 (i_run os i).1.
Proof.
  induction os as [|o os IH]; intros i Fo P; cbn [i_run]; [done|]. apply Forall_cons in Fo as [[Fl No] Fo]. pose proof (i_step_phase l m0 o i Fl No P) as P1.
  destruct (i_step o i) as [i1 x]. specialize (IH i1 Fo P1). by destruct (i_run os i1).
Qed.

Lemma i_run_app os1 : forall os2 i, (i_run (os1 ++ os2) i).1 = (i_run os2 (i_run os1 i).1).1.
Proof.
  induction os1 as [|o os1 IH]; intros os2 i; cbn [i_run app]; [done|]. destruct (i_step o i) as [i1 x]. specialize (IH os2 i1). destruct (i_run (os1 ++ os2) i1), (i_run os1 i1). exact IH.
Qed.
End ideal.


(** After the sender ran out of data, every packet sent is marked as
    application-limited until a packet sent later than that is acknowledged, which ends
    the phase. *)
Theorem sampler_app_limited {F : Type} (one : F) (scaled : F -> Z -> Z) (MaxCongestionWindowPackets wl : Z) (os1 os2 : list call) :
  let i0 := ideal0 one MaxCongestionWindowPackets wl in
  let i1 := (i_run scaled os1 i0).1 in
  let os := os1 ++ CAppLimited :: os2 in
  allowed_all scaled (budget one MaxCongestionWindowPackets) i0 os ->
  Forall (fun o => Forall (fun n => 0 <= n <= s_lastSent (i_s i1)) (acks o) /\ o <> CAppLimited) os2 ->
  exists b xs, run scaled os (sampler0 one MaxCongestionWindowPackets wl) = Ret (b, xs) /\ isAppLimited b = true /\
    (forall n e, 0 <= n -> i_recs i1 !! n = None -> GetEntry n (connectionStateMap b) = Ret (Some e) -> consumed e = false -> sts_appLimited (cs_state e) = true) /\
    forall t n e, s_lastSent (i_s i1) < n -> GetEntry n (connectionStateMap b) = Ret (Some e) -> 0 <= n -> consumed e = false ->
      exists b' s, onPacketAcknowledged t n b = Ret (b', s) /\ isAppLimited b' = false.
Proof.
  intros i0 i1 os A Fo. destruct (run_ok one scaled _ os _ i0 (new_rel one MaxCongestionWindowPackets wl) A) as (b & E & R).
  assert (P : in_phase (s_lastSent (i_s i1)) (i_recs i1) (i_run scaled os i0).1).
  { unfold os. rewrite i_run_app. cbn [i_run i_step]. fold i1. pose proof (i_run_phase scaled (s_lastSent (i_s i1)) (i_recs i1) os2 (i_app_limited i1) Fo) as P.
    destruct (i_run scaled os2 (i_app_limited i1)). apply P. split_and!; [done..|]. intros n e He. by left. }
  pose proof R as (V & _ & _ & m & nxt & H & _ & _ & R1 & R2 & R3 & _). destruct P as (P1 & P2 & P3). exists b, (i_run scaled os i0).2. split; [exact E|].
  assert (App : isAppLimited b = true) by (transitivity (s_app (view b)); [done|by rewrite V]). split; [exact App|].
  assert (Rec : forall n e, 0 <= n -> GetEntry n (connectionStateMap b) = Ret (Some e) -> consumed e = false -> i_recs (i_run scaled os i0).1 !! n = Some e).
  { intros n e Hn He Hc. rewrite (holds_GetEntry _ _ n H Hn) in He. injection He as He. destruct (R2 n e He) as [?|[? _]]; [done|congruence]. }
  split.
  - intros n e Hn Hno He Hc. destruct (P3 n e (Rec n e Hn He Hc)) as [?|?]; [congruence|done].
  - intros t n e L He Hn Hc. pose proof (Rec n e Hn He Hc) as Hi.
    assert (Hd : n ∉ i_done (i_run scaled os i0).1) by (intros D; specialize (R3 n D); congruence).
    destruct (onPacketAcknowledged_ok one scaled _ t n b _ R Hn Hd) as (b' & E' & V' & _). eexists b', _. split; [exact E'|].
    transitivity (s_app (view b')); [done|]. rewrite V'. unfold i_ack. rewrite Hi. cbn. rewrite P1, P2. rewrite bool_decide_true by (right; lia). done.
Qed.

(** ** Witnesses *)

Definition demo_scaled (f x : Z) : Z := f * x.
Definition demo_calls : list call :=
  [CSent 1000 1 1500 0 true; CSent 2000 2 1500 1500 true; CSent 3000 3 1500 3000 true;
   CEvent 50000 [2] [(1, 1500)] 0 infBandwidth 1; CSent 60000 4 1500 1500 true].


Definition demo_before : list call := [CSent 1000 1 1500 0 true].
Definition demo_phase : list call := [CSent 2000 2 1500 1500 true; CEvent 50000 [1] [] 0 infBandwidth 1; CSent 60000 3 1500 1500 true].

Lemma sampler_app_limited_witness : exists b xs, run demo_scaled (demo_before ++ CAppLimited :: demo_phase) (sampler0 1 200 10) = Ret (b, xs) /\ isAppLimited b = true.
Proof.
  destruct (sampler_app_limited 1 demo_scaled 200 10 demo_before demo_phase) as (b & xs & E & A & _).
  - cbn [allowed_all demo_before demo_phase app]. split_and!; try exact Logic.I; try (vm_compute; exact Logic.I).
    all: try (apply (bool_decide_unpack _); vm_compute; exact Logic.I).
    all: cbn [allowed]; split_and!; try lia; try (apply (bool_decide_unpack _); vm_compute; exact Logic.I).
  - repeat apply Forall_cons_2; [..|apply Forall_nil_2]; (split; [apply (bool_decide_unpack _); vm_compute; exact Logic.I|discriminate]).
  - exists b, xs. split; [exact E|exact A].
Defined.

(** * Gaps *)

(** The product of bandwidth and time is computed in 64 bits: at 1 Gbit/s an
    acknowledgement ten seconds after the start of an epoch counts as more than a gigabyte
    above what was expected. *)
Theorem ack_height_overflow :
  bytesFromBandwidthAndTimeDelta 1000000000 (10 * Second) < 0 /\
  let m := with_epoch Second 1500 7 1 (newMaxAckHeightTracker 1 10) in
  1000000000 < (tracker_Update demo_scaled 1000000000 false 1 9 8 (11 * Second) 1500 m).2.
Proof. split; vm_compute; reflexivity. Qed.

(** Choosing the newest of four candidate points leaves two of them: the loop compares its
    counter with a length that shrinks. *)
Theorem choose_keeps_stale_candidates :
  let p := fun n => MkAckPoint n n in
  exists r r', (r ← PushBack zeroAckPoint (p 1) (Init zeroAckPoint 8); r ← PushBack zeroAckPoint (p 2) r; r ← PushBack zeroAckPoint (p 3) r; PushBack zeroAckPoint (p 4) r) = Ret r /\
    chooseA0Point 9 r = Ret (r', Some (p 4)) /\ Len r' = 2%nat /\ Front r' = Ret (p 3).
Proof. vm_compute. eexists _, _. split_and!; reflexivity. Qed.
