(* ===== verification/SlidingWindow.v ===== *)
(** The replay filter of packet IDs (ciphers/aead_2022_cipher.go): a bitmap of
    64-bit words shifted in place, against the history of all IDs ever accepted.

    The filter's mutex makes a call one step. *)

From S2P Require Import Prelude GoState.

Definition word (z : Z) : Z := z mod 2 ^ 64.

Record SlidingWindowFilter := MkFilter { window : list Z; windowSize : Z; latest : Z; initialized : bool }.

Definition set_window (w : list Z) (f : SlidingWindowFilter) : SlidingWindowFilter := MkFilter w (windowSize f) (latest f) (initialized f).
Definition set_latest (id : Z) (f : SlidingWindowFilter) : SlidingWindowFilter := MkFilter (window f) (windowSize f) id (initialized f).

(** [int] has 64 bits: rounding up may overflow, and [make] panics on the negative length. *)
Definition NewSlidingWindowFilter (size : Z) : res SlidingWindowFilter :=
  let size := if decide (size <= 0) then 1024 else size in
  let sum := if decide (size + 63 < 2 ^ 63) then size + 63 else size + 63 - 2 ^ 64 in
  let wordCount := Z.quot sum 64 in
  if decide (wordCount < 0) then Panic
  else Ret (MkFilter (replicate (Z.to_nat wordCount) 0) size 0 false).

Definition getBit (index_ : Z) (w : list Z) : res bool :=
  let wordIndex := Z.to_nat (index_ / 64) in
  let bitIndex := index_ mod 64 in
  x ← index w wordIndex;
  Ret (bool_decide (Z.land x (word (Z.shiftl 1 bitIndex)) <> 0)).

Definition setBit (index_ : Z) (w : list Z) : res (list Z) :=
  let wordIndex := Z.to_nat (index_ / 64) in
  let bitIndex := index_ mod 64 in
  x ← index w wordIndex;
  set_at w wordIndex (Z.lor x (word (Z.shiftl 1 bitIndex))).

(** [for i := lo+n-1; i >= lo; i-- { w[i] = f }] *)
Fixpoint down (n lo : nat) (f : list Z -> nat -> res Z) (w : list Z) : res (list Z) :=
  match n with
  | O => Ret w
  | S n =>
      x ← f w (lo + n)%nat;
      w ← set_at w (lo + n) x;
      down n lo f w
  end.
(** [for i := lo; i < lo+n; i++ { w[i] = 0 }] *)
Fixpoint clear_up (n lo : nat) (w : list Z) : res (list Z) :=
  match n with O => Ret w | S n => w ← set_at w lo 0; clear_up n (S lo) w end.

Definition shift_words (wordShift : nat) (w : list Z) : res (list Z) :=
  if decide (0 < wordShift)%nat then
    w ← down (length w - wordShift) wordShift (fun w i => index w (i - wordShift)) w;
    clear_up wordShift 0 w
  else Ret w.
Definition shift_bits (bitShift : Z) (w : list Z) : res (list Z) :=
  if decide (0 < bitShift) then
    w ← down (length w - 1) 1 (fun w i =>
          a ← index w i;
          b ← index w (i - 1);
          Ret (Z.lor (word (Z.shiftl a bitShift)) (Z.shiftr b (64 - bitShift)))) w;
    x ← index w 0;
    set_at w 0 (word (Z.shiftl x bitShift))
  else Ret w.

Definition shiftWindow (shift size : Z) (w : list Z) : res (list Z) :=
  if decide (size <= shift) then clear_up (length w) 0 w
  else
    w ← shift_words (Z.to_nat (shift / 64)) w;
    shift_bits (shift mod 64) w.

Definition CheckAndUpdate (packetID : Z) : st SlidingWindowFilter bool :=
  f ← get;
  if negb (initialized f) then
    _ ← modify (fun f => MkFilter (window f) (windowSize f) packetID true);
    w ← lift (setBit 0 (window f));
    _ ← modify (set_window w);
    mret true
  else if decide (latest f < packetID) then
    let shift := word (packetID - latest f) in
    w ← lift (shiftWindow shift (windowSize f) (window f));
    _ ← modify (fun f => set_latest packetID (set_window w f));
    w ← lift (setBit 0 w);
    _ ← modify (set_window w);
    mret true
  else
    let distance := word (latest f - packetID) in
    if decide (windowSize f <= distance) then mret false else
    b ← lift (getBit distance (window f));
    if (b : bool) then mret false else
    w ← lift (setBit distance (window f));
    _ ← modify (set_window w);
    mret true.

(** A sequence of packet IDs through one filter. *)
Fixpoint check_all (ids : list Z) : st SlidingWindowFilter (list bool) :=
  match ids with
  | [] => mret []
  | id :: ids => b ← CheckAndUpdate id; bs ← check_all ids; mret (b :: bs)
  end.

(** * The ideal filter: every accepted ID is remembered *)

Section ideal.
Context (size : Z).

(** Newest first. *)
Definition newest (seen : list Z) : option Z := match seen with [] => None | id :: seen => Some (foldr Z.max id seen) end.
Definition fresh (seen : list Z) (id : Z) : bool :=
  match newest seen with
  | None => true
  | Some l => bool_decide (id ∉ seen) && bool_decide (l < id + size)
  end.
Definition ideal_check (id : Z) (seen : list Z) : list Z * bool :=
  if fresh seen id then (id :: seen, true) else (seen, false).
Fixpoint ideal_all (ids : list Z) (seen : list Z) : list bool :=
  match ids with
  | [] => []
  | id :: ids => let '(seen, b) := ideal_check id seen in b :: ideal_all ids seen
  end.
End ideal.

(** * Bits of the window *)

Definition wbit (w : list Z) (i : Z) : bool := Z.testbit (nth (Z.to_nat (i / 64)) w 0) (i mod 64).
Definition words (w : list Z) : Prop := Forall (fun x => 0 <= x < 2 ^ 64) w.

Lemma testbit_word z m : 0 <= m < 64 -> Z.testbit (word z) m = Z.testbit z m.
Proof. intros H. unfold word. apply Z.mod_pow2_bits_low. lia. Qed.
Lemma testbit_high x m : 0 <= x < 2 ^ 64 -> 64 <= m -> Z.testbit x m = false.
Proof. intros H Hm. rewrite <- (Z.mod_small x (2 ^ 64)) by done. apply Z.mod_pow2_bits_high. lia. Qed.
Lemma word_range z : 0 <= word z < 2 ^ 64.
Proof. apply Z.mod_pos_bound. lia. Qed.
(** A non-negative number without bits from 64 on is a word. *)
Lemma word_bits x : 0 <= x -> (forall m, 64 <= m -> Z.testbit x m = false) -> 0 <= x < 2 ^ 64.
Proof.
  intros H B. split; [done|]. destruct (decide (x < 2 ^ 64)) as [L|L]; [done|]. assert (P : 0 < x) by lia.
  assert (64 <= Z.log2 x) by (apply Z.log2_le_pow2; lia). pose proof (Z.bit_log2 x P) as E. by rewrite B in E.
Qed.
Lemma word_lor x y : 0 <= x < 2 ^ 64 -> 0 <= y < 2 ^ 64 -> 0 <= Z.lor x y < 2 ^ 64.
Proof.
  intros Hx Hy. apply word_bits; [apply Z.lor_nonneg; lia|]. intros m Hm. by rewrite Z.lor_spec, !testbit_high by done.
Qed.
Lemma word_shiftr x k : 0 <= k -> 0 <= x < 2 ^ 64 -> 0 <= Z.shiftr x k < 2 ^ 64.
Proof.
  intros Hk Hx. apply word_bits; [apply Z.shiftr_nonneg; lia|]. intros m Hm. rewrite Z.shiftr_spec by lia. apply testbit_high; [done|lia].
Qed.

Lemma words_nth w j : words w -> 0 <= nth j w 0 < 2 ^ 64.
Proof.
  intros W. destruct (nth_in_or_default j w 0) as [H| ->]; [|lia]. by apply (proj1 (List.Forall_forall _ w) W).
Qed.
Lemma nth_lookup_eq w j : (j < length w)%nat -> w !! j = Some (nth j w 0).
Proof. intros H. rewrite nth_lookup. by destruct (lookup_lt_is_Some_2 w j H) as [x ->]. Qed.
Lemma index_nth w j : (j < length w)%nat -> index w j = Ret (nth j w 0).
Proof. intros H. unfold index. by rewrite nth_lookup_eq. Qed.

(** * The loops *)

Lemma set_at_ok (w : list Z) j x : (j < length w)%nat -> set_at w j x = Ret (<[j := x]> w).
Proof. intros H. unfold set_at. by rewrite decide_True. Qed.
Lemma nth_insert w i j x : (i < length w)%nat -> nth j (<[i := x]> w) 0 = if decide (j = i) then x else nth j w 0.
Proof.
  intros H. rewrite !nth_lookup. case_decide as E; [subst; by rewrite list_lookup_insert_eq|]. by rewrite list_lookup_insert_ne.
Qed.
Lemma words_insert w j x : words w -> 0 <= x < 2 ^ 64 -> words (<[j := x]> w).
Proof. intros. by apply Forall_insert. Qed.

(** Going down, an assignment that looks at words not above its own sees the old ones. *)
Lemma down_ok f g w0 n lo : forall w, length w = length w0 -> words w -> (lo + n <= length w)%nat ->
  (forall j, (j < lo + n)%nat -> nth j w 0 = nth j w0 0) ->
  (forall w' i, (lo <= i < lo + n)%nat -> length w' = length w0 -> (forall j, (j <= i)%nat -> nth j w' 0 = nth j w0 0) -> f w' i = Ret (g i)) ->
  (forall i, 0 <= g i < 2 ^ 64) ->
  exists w', down n lo f w = Ret w' /\ length w' = length w /\ words w' /\
    forall j, nth j w' 0 = if decide (lo <= j < lo + n)%nat then g j else nth j w 0.
Proof.
  induction n as [|n IH]; intros w L W B Hw Hf Hg; cbn [down].
  { exists w. split_and!; [done..|]. intros j. by rewrite decide_False by lia. }
  rewrite (Hf w (lo + n)%nat) by (lia || done || (intros; apply Hw; lia)). rewrite bind_ret, set_at_ok, bind_ret by lia.
  destruct (IH (<[(lo + n)%nat := g (lo + n)%nat]> w)) as (w' & -> & L' & W' & E);
    [by rewrite length_insert|by apply words_insert|rewrite length_insert; lia| | |done|].
  { intros j Hj. rewrite nth_insert by lia. rewrite decide_False by lia. apply Hw. lia. }
  { intros w' i Hi. apply Hf. lia. }
  rewrite length_insert in L'. exists w'. split_and!; [done..|]. intros j. rewrite E, nth_insert by lia.
  repeat case_decide; subst; try lia; done.
Qed.

Lemma clear_up_ok n lo : forall w, words w -> (lo + n <= length w)%nat ->
  exists w', clear_up n lo w = Ret w' /\ length w' = length w /\ words w' /\
    forall j, nth j w' 0 = if decide (lo <= j < lo + n)%nat then 0 else nth j w 0.
Proof.
  revert lo. induction n as [|n IH]; intros lo w W B; cbn [clear_up].
  { exists w. split_and!; [done..|]. intros j. by rewrite decide_False by lia. }
  rewrite set_at_ok, bind_ret by lia.
  destruct (IH (S lo) (<[lo := 0]> w)) as (w' & -> & L' & W' & E); [by apply words_insert|rewrite length_insert; lia|].
  rewrite length_insert in L'. exists w'. split_and!; [done..|]. intros j. rewrite E, nth_insert by lia.
  repeat case_decide; subst; try lia; done.
Qed.

(** [w'] is [w] with every bit [k] places further. *)
Definition shifted (k : Z) (w w' : list Z) : Prop :=
  length w' = length w /\ words w' /\
  forall i, 0 <= i < 64 * Z.of_nat (length w) -> wbit w' i = (bool_decide (k <= i) && wbit w (i - k)).

Lemma shifted_trans a b w w1 w2 : 0 <= a -> 0 <= b -> shifted a w w1 -> shifted b w1 w2 -> shifted (a + b) w w2.
Proof.
  intros Ha Hb (L1 & W1 & E1) (L2 & W2 & E2). split; [congruence|]. split; [done|]. intros i Hi. rewrite E2 by (rewrite L1; lia).
  case_bool_decide; cbn [andb].
  - rewrite E1 by lia. replace (i - b - a) with (i - (a + b)) by lia. by repeat case_bool_decide; try lia.
  - by rewrite bool_decide_false by lia.
Qed.

Lemma shifted_0 w : words w -> shifted 0 w w.
Proof. intros W. split_and!; [done..|]. intros i Hi. rewrite bool_decide_true by lia. cbn [andb]. do 2 f_equal; lia. Qed.

Lemma shift_words_ok k w : words w -> (k < length w)%nat -> exists w', shift_words k w = Ret w' /\ shifted (64 * Z.of_nat k) w w'.
Proof.
  intros W K. unfold shift_words. case_decide as Hk; [|exists w; split; [done|]; replace k with 0%nat by lia; by apply shifted_0].
  destruct (down_ok (fun w i => index w (i - k)) (fun i => nth (i - k) w 0) w (length w - k) k w) as (w1 & -> & L1 & W1 & E1); [done|done|lia|done| | |].
  { intros w' i Hi L' Ew. rewrite index_nth by lia. by rewrite Ew by lia. }
  { intros i. by apply words_nth. }
  rewrite bind_ret. destruct (clear_up_ok k 0 w1 W1) as (w2 & -> & L2 & W2 & E2); [lia|].
  exists w2. split; [done|]. split; [congruence|]. split; [done|]. intros i Hi. unfold wbit. rewrite E2, E1.
  assert (D : (i - 64 * Z.of_nat k) / 64 = i / 64 - Z.of_nat k) by (replace (i - 64 * Z.of_nat k) with (i + (- Z.of_nat k) * 64) by lia; rewrite Z.div_add by lia; lia).
  assert (M : (i - 64 * Z.of_nat k) mod 64 = i mod 64) by (replace (i - 64 * Z.of_nat k) with (i + (- Z.of_nat k) * 64) by lia; by rewrite Z.mod_add).
  rewrite D, M. pose proof (Z.div_mod i 64 ltac:(lia)). pose proof (Z.mod_pos_bound i 64 ltac:(lia)).
  case_bool_decide; cbn [andb].
  - rewrite decide_False, decide_True by lia. do 2 f_equal. lia.
  - rewrite decide_True by lia. apply Z.testbit_0_l.
Qed.

(** One word of the bit shift, with the word below it. *)
Lemma carry_bit a b k m : 0 < k < 64 -> 0 <= m < 64 -> 0 <= b < 2 ^ 64 ->
  Z.testbit (Z.lor (word (Z.shiftl a k)) (Z.shiftr b (64 - k))) m = if decide (k <= m) then Z.testbit a (m - k) else Z.testbit b (m - k + 64).
Proof.
  intros Hk Hm Hb. rewrite Z.lor_spec, testbit_word, Z.shiftl_spec, Z.shiftr_spec by lia. case_decide.
  - rewrite (testbit_high b) by (done || lia). apply orb_false_r.
  - rewrite Z.testbit_neg_r by lia. cbn [orb]. f_equal. lia.
Qed.

Lemma shift_bits_ok k w : words w -> 0 <= k < 64 -> (0 < length w)%nat -> exists w', shift_bits k w = Ret w' /\ shifted k w w'.
Proof.
  intros W Hk Lw. unfold shift_bits. case_decide as K; [|exists w; split; [done|]; replace k with 0 by lia; by apply shifted_0].
  set (f := fun (w : list Z) i => _). set (g := fun i => Z.lor (word (Z.shiftl (nth i w 0) k)) (Z.shiftr (nth (i - 1) w 0) (64 - k))).
  destruct (down_ok f g w (length w - 1) 1 w) as (w1 & -> & L1 & W1 & E1); [done|done|lia|done| | |].
  { intros w' i Hi L' Ew. unfold f, g. rewrite !index_nth by lia. rewrite !bind_ret, !Ew by lia. done. }
  { intros i. apply word_lor; [apply word_range|]. apply word_shiftr; [lia|by apply words_nth]. }
  rewrite bind_ret, index_nth, bind_ret, set_at_ok by lia. eexists. split; [done|]. split; [by rewrite length_insert|]. split; [apply words_insert; [done|apply word_range]|].
  intros i Hi. unfold wbit. rewrite nth_insert, !E1 by lia. rewrite (decide_False (P := (1 <= 0 < _)%nat)) by lia.
  pose proof (Z.div_mod i 64 ltac:(lia)) as D. pose proof (Z.mod_pos_bound i 64 ltac:(lia)) as M. set (m := i mod 64) in *. set (q := i / 64) in *.
  assert (Q : 0 <= q) by lia. case_decide as Z0.
  - assert (q = 0) as Eq by lia. clearbody m q. rewrite testbit_word, Z.shiftl_spec by lia. case_bool_decide; cbn [andb].
    + replace (i - k) with (m - k) by lia. rewrite (Z.div_small (m - k)), (Z.mod_small (m - k)) by lia. done.
    + apply Z.testbit_neg_r. lia.
  - rewrite decide_True by lia. rewrite bool_decide_true by lia. cbn [andb]. unfold g. rewrite carry_bit by (lia || by apply words_nth). case_decide.
    + assert ((i - k) / 64 = q) as -> by (symmetry; apply (Z.div_unique _ _ _ (m - k)); lia).
      assert ((i - k) mod 64 = m - k) as -> by (symmetry; apply (Z.mod_unique _ _ q); lia). done.
    + assert ((i - k) / 64 = q - 1) as -> by (symmetry; apply (Z.div_unique _ _ _ (m - k + 64)); lia).
      assert ((i - k) mod 64 = m - k + 64) as -> by (symmetry; apply (Z.mod_unique _ _ (q - 1)); lia). do 2 f_equal. lia.
Qed.

(** The whole shift, seen through the part of the window in use. *)
Lemma shiftWindow_ok k size w : words w -> 0 <= k -> 0 < size <= 64 * Z.of_nat (length w) -> exists w', shiftWindow k size w = Ret w' /\
  length w' = length w /\ words w' /\ forall i, 0 <= i < size -> wbit w' i = (bool_decide (k <= i) && wbit w (i - k)).
Proof.
  intros W Hk Hs. unfold shiftWindow. case_decide as C.
  - destruct (clear_up_ok (length w) 0 w W) as (w' & -> & L & W' & E); [lia|]. exists w'. split_and!; [done..|]. intros i Hi.
    rewrite bool_decide_false by lia. cbn [andb]. unfold wbit. rewrite E. pose proof (Z.div_mod i 64 ltac:(lia)). pose proof (Z.mod_pos_bound i 64 ltac:(lia)).
    rewrite decide_True by lia. apply Z.testbit_0_l.
  - pose proof (Z.div_mod k 64 ltac:(lia)). pose proof (Z.mod_pos_bound k 64 ltac:(lia)).
    destruct (shift_words_ok (Z.to_nat (k / 64)) w W) as (w1 & -> & S1); [lia|]. rewrite bind_ret. rewrite Z2Nat.id in S1 by lia.
    pose proof S1 as (L1 & W1 & _). destruct (shift_bits_ok (k mod 64) w1 W1) as (w2 & -> & S2); [lia..|].
    exists w2. split; [done|]. destruct (shifted_trans (64 * (k / 64)) (k mod 64) w w1 w2 ltac:(lia) ltac:(lia) S1 S2) as (L & W2 & E). split; [done|]. split; [done|].
    intros i Hi. replace (64 * (k / 64) + k mod 64) with k in E by lia. apply E. lia.
Qed.

Lemma one_bit k m : 0 <= k < 64 -> 0 <= m < 64 -> Z.testbit (word (Z.shiftl 1 k)) m = bool_decide (m = k).
Proof.
  intros Hk Hm. rewrite testbit_word, Z.shiftl_1_l, Z.pow2_bits_eqb by lia. case_bool_decide; [apply Z.eqb_eq|apply Z.eqb_neq]; lia.
Qed.

Lemma getBit_ok i w : words w -> 0 <= i < 64 * Z.of_nat (length w) -> getBit i w = Ret (wbit w i).
Proof.
  intros W Hi. pose proof (Z.div_mod i 64 ltac:(lia)). pose proof (Z.mod_pos_bound i 64 ltac:(lia)) as M. unfold getBit. cbv zeta.
  rewrite index_nth, bind_ret by lia. f_equal. unfold wbit. set (x := nth _ w 0). set (b := i mod 64) in *. clearbody x b.
  destruct (Z.testbit x b) eqn:T.
  - apply bool_decide_true. intros E. apply (f_equal (fun z => Z.testbit z b)) in E. rewrite Z.land_spec, one_bit, T, bool_decide_true, Z.bits_0 in E by done. done.
  - apply bool_decide_false. intros E. apply E. apply Z.bits_inj'. intros m Hm. rewrite Z.land_spec, Z.bits_0. destruct (decide (m < 64)).
    + rewrite one_bit by lia. case_bool_decide; [subst; by rewrite T|apply andb_false_r].
    + rewrite (testbit_high (word _)) by (apply word_range || lia). apply andb_false_r.
Qed.

Lemma setBit_ok i w : words w -> 0 <= i < 64 * Z.of_nat (length w) -> exists w', setBit i w = Ret w' /\
  length w' = length w /\ words w' /\ forall j, 0 <= j < 64 * Z.of_nat (length w) -> wbit w' j = (bool_decide (j = i) || wbit w j).
Proof.
  intros W Hi. pose proof (Z.div_mod i 64 ltac:(lia)) as D. pose proof (Z.mod_pos_bound i 64 ltac:(lia)) as M. unfold setBit. cbv zeta.
  rewrite index_nth, bind_ret, set_at_ok by lia. eexists. split; [done|]. split; [by rewrite length_insert|].
  split; [apply words_insert; [done|]; apply word_lor; [by apply words_nth|apply word_range]|].
  intros j Hj. pose proof (Z.div_mod j 64 ltac:(lia)). pose proof (Z.mod_pos_bound j 64 ltac:(lia)). unfold wbit. rewrite nth_insert by lia. case_decide as E.
  - assert (Eq : j / 64 = i / 64) by lia. rewrite Z.lor_spec, one_bit, Eq by lia. rewrite orb_comm. f_equal. apply bool_decide_ext. lia.
  - rewrite bool_decide_false by (intros ->; lia). done.
Qed.

(** * Refinement *)

(** The filter [f] stands for the accepted IDs [seen]. *)
Record refines (size : Z) (f : SlidingWindowFilter) (seen : list Z) : Prop := {
  r_words : words (window f);
  r_size : windowSize f = size;
  r_room : 0 < size <= 64 * Z.of_nat (length (window f));
  r_ids : Forall (fun id => 0 <= id < 2 ^ 64) seen;
  r_init : initialized f = bool_decide (seen <> []);
  r_latest : seen <> [] -> newest seen = Some (latest f);
  r_bits : forall i, 0 <= i < size -> wbit (window f) i = bool_decide (latest f - i ∈ seen) && initialized f;
}.

Lemma foldr_max_cons a x xs : foldr Z.max a (x :: xs) = Z.max a (foldr Z.max x xs).
Proof. cbn [foldr]. induction xs as [|y xs IH]; cbn [foldr]; lia. Qed.
Lemma newest_cons id seen l : newest seen = Some l -> newest (id :: seen) = Some (Z.max id l).
Proof. destruct seen as [|x xs]; [done|]. intros [= <-]. unfold newest. by rewrite foldr_max_cons. Qed.
Lemma newest_ge seen l : newest seen = Some l -> forall x, x ∈ seen -> x <= l.
Proof.
  destruct seen as [|y seen]; [done|]. revert y l. induction seen as [|z seen IH]; intros y l.
  - intros [= <-] x ->%list_elem_of_singleton. done.
  - intros E x H. assert (E' : newest (z :: seen) = Some (foldr Z.max z seen)) by done. rewrite (newest_cons y _ _ E') in E. injection E as <-.
    apply elem_of_cons in H as [-> |H]; [lia|]. specialize (IH z _ E' x H). lia.
Qed.

Lemma newest_in seen l : newest seen = Some l -> l ∈ seen.
Proof.
  destruct seen as [|y seen]; [done|]. revert y l. induction seen as [|z seen IH]; intros y l.
  - intros [= <-]. by apply list_elem_of_singleton.
  - intros E. assert (E' : newest (z :: seen) = Some (foldr Z.max z seen)) by done. rewrite (newest_cons y _ _ E') in E. injection E as <-.
    specialize (IH z _ E'). apply elem_of_cons. destruct (Z.max_spec y (foldr Z.max z seen)) as [[_ ->]|[_ ->]]; [by right|by left].
Qed.

Lemma word_small z : 0 <= z < 2 ^ 64 -> word z = z.
Proof. apply Z.mod_small. Qed.

(** Recording an ID that is inside the window. *)
Lemma refines_record size f seen id : refines size f seen -> seen <> [] -> 0 <= id <= latest f -> latest f - id < size -> exists w,
  setBit (latest f - id) (window f) = Ret w /\ refines size (set_window w f) (id :: seen).
Proof.
  intros [W S R I In La B] Ne Hid D. destruct (setBit_ok (latest f - id) (window f) W) as (w & E & Lw & Ww & Bw); [lia|]. exists w. split; [done|].
  assert (T : initialized f = true) by (rewrite In; by apply bool_decide_true).
  assert (0 <= latest f < 2 ^ 64) by (apply (proj1 (Forall_forall _ seen) I), newest_in, (La Ne)).
  constructor; cbn [set_window window windowSize latest initialized]; [done|done|lia|constructor; [lia|done]| | |].
  - rewrite T. symmetry. by apply bool_decide_true.
  - intros _. rewrite (newest_cons _ _ _ (La Ne)). f_equal. lia.
  - intros i Hi. rewrite Bw, B, T, !andb_true_r by lia. rewrite <- bool_decide_or. apply bool_decide_ext. rewrite elem_of_cons. split; intros [? | ?]; auto; left; lia.
Qed.

Lemma CheckAndUpdate_ok size f seen id : refines size f seen -> 0 <= id < 2 ^ 64 -> exists f',
  CheckAndUpdate id f = (f', Ret (snd (ideal_check size id seen))) /\ refines size f' (fst (ideal_check size id seen)).
Proof.
  intros Rf Hid. pose proof Rf as [W S R I In La B]. unfold CheckAndUpdate. st_pure. unfold ideal_check, fresh. destruct (decide (seen = [])) as [-> |Ne].
  - rewrite In. cbn [negb newest fst snd]. rewrite bool_decide_false by (by intros []). cbn [negb]. st_pure.
    destruct (setBit_ok 0 (window f) W) as (w & E & Lw & Ww & Bw); [lia|]. erewrite st_lift_Ret by exact E. cbv beta. st_pure. eexists. split; [done|].
    constructor; cbn [set_window window windowSize latest initialized]; [done|done|lia|constructor; [done|constructor]| |done|].
    + symmetry. by apply bool_decide_true.
    + intros i Hi. rewrite Bw, B, In by lia. rewrite (bool_decide_false ([] <> [])), andb_false_r, orb_false_r, andb_true_r by (by intros []). apply bool_decide_ext.
      rewrite list_elem_of_singleton. lia.
  - assert (T : initialized f = true) by (rewrite In; by apply bool_decide_true). rewrite T, (La Ne). cbn [negb].
    assert (Hl : 0 <= latest f < 2 ^ 64) by (apply (proj1 (Forall_forall _ seen) I), newest_in, (La Ne)). pose proof (newest_ge _ _ (La Ne)) as Ge.
    case_decide as C.
    + rewrite (bool_decide_true (id ∉ seen)) by (intros H%Ge; lia). rewrite bool_decide_true by lia. cbn [andb fst snd]. rewrite word_small by lia.
      destruct (shiftWindow_ok (id - latest f) (windowSize f) (window f) W) as (w & E & Lw & Ww & Bw); [lia|lia|]. erewrite st_lift_Ret by exact E. cbv beta. st_pure.
      destruct (setBit_ok 0 w Ww) as (w' & E' & Lw' & Ww' & Bw'); [lia|]. erewrite st_lift_Ret by exact E'. cbv beta. st_pure. eexists. split; [done|].
      constructor; cbn [set_window set_latest window windowSize latest initialized]; [done|done|lia|by constructor| | |].
      * rewrite T. symmetry. by apply bool_decide_true.
      * intros _. rewrite (newest_cons _ _ _ (La Ne)). f_equal. lia.
      * intros i Hi. rewrite T, andb_true_r, Bw' by lia. rewrite Bw by lia. destruct (decide (id - latest f <= i)).
        -- rewrite (bool_decide_true (id - latest f <= i)) by lia. cbn [andb]. rewrite B, T, andb_true_r, <- bool_decide_or by lia. apply bool_decide_ext.
           replace (latest f - (i - (id - latest f))) with (id - i) by lia. rewrite elem_of_cons. split; intros [? | ?]; auto; left; lia.
        -- rewrite (bool_decide_false (id - latest f <= i)) by lia. cbn [andb]. rewrite orb_false_r. apply bool_decide_ext. rewrite elem_of_cons.
           split; [left; lia|]. intros [? |?%Ge]; lia.
    + rewrite word_small by lia. rewrite S. case_decide as D.
      { rewrite (bool_decide_false (latest f < id + size)) by lia. rewrite andb_false_r. by eexists. }
      rewrite (bool_decide_true (latest f < id + size)), andb_true_r by lia.
      erewrite st_lift_Ret by (apply getBit_ok; [done|lia]). cbv beta. rewrite B, T, andb_true_r by lia. replace (latest f - (latest f - id)) with id by lia.
      destruct (decide (id ∈ seen)) as [H|H].
      { rewrite (bool_decide_true (id ∈ seen)), (bool_decide_false (id ∉ seen)) by auto. by eexists. }
      rewrite (bool_decide_false (id ∈ seen)), (bool_decide_true (id ∉ seen)) by auto.
      destruct (refines_record size f seen id Rf Ne) as (w & E & Rw); [lia..|]. erewrite st_lift_Ret by exact E. cbv beta. st_pure. by eexists.
Qed.

Lemma New_refines size : size <= 2 ^ 63 - 64 -> exists f, NewSlidingWindowFilter size = Ret f /\ refines (if decide (size <= 0) then 1024 else size) f [].
Proof.
  intros H. unfold NewSlidingWindowFilter. cbv zeta. set (n := if decide (size <= 0) then 1024 else size). assert (Hn : 0 < n <= 2 ^ 63 - 64) by (unfold n; case_decide; lia).
  clearbody n. rewrite (decide_True (P := n + 63 < 2 ^ 63)) by lia. rewrite Z.quot_div_nonneg by lia. pose proof (Z.div_mod (n + 63) 64 ltac:(lia)). pose proof (Z.mod_pos_bound (n + 63) 64 ltac:(lia)).
  rewrite decide_False by lia. eexists. split; [done|]. constructor; cbn [window windowSize latest initialized]; [|done| |done|done|done|].
  - apply Forall_replicate. lia.
  - rewrite length_replicate. lia.
  - intros i Hi. rewrite andb_false_r. unfold wbit. rewrite nth_lookup. destruct (replicate _ 0 !! _) as [x|] eqn:E; [apply lookup_replicate in E as [-> _]|]; apply Z.testbit_0_l.
Qed.

Lemma check_all_ok size ids : forall f seen, refines size f seen -> Forall (fun id => 0 <= id < 2 ^ 64) ids ->
  exists f', check_all ids f = (f', Ret (ideal_all size ids seen)).
Proof.
  induction ids as [|id ids IH]; intros f seen R Hids; cbn [check_all ideal_all]; [by eexists|]. apply Forall_cons in Hids as [Hid Hids].
  destruct (CheckAndUpdate_ok size f seen id R Hid) as (f1 & E & R1). rewrite (st_bind_Ret _ _ _ _ _ E). destruct (ideal_check size id seen) as [seen1 b].
  destruct (IH f1 seen1 R1 Hids) as (f2 & E2). rewrite (st_bind_Ret _ _ _ _ _ E2). by eexists.
Qed.

(** C7: A new replay filter decides every sequence of packet IDs exactly as a filter
    that remembers all the IDs it ever accepted: an ID passes if and only if it was
    never accepted before and lies within [windowSize] of the largest one accepted;
    the in-place shifts of the words lose and invent nothing, and never index out of
    range. *)
Theorem sliding_window_refines size ids : size <= 2 ^ 63 - 64 -> Forall (fun id => 0 <= id < 2 ^ 64) ids ->
  exists f f', NewSlidingWindowFilter size = Ret f /\
    check_all ids f = (f', Ret (ideal_all (if decide (size <= 0) then 1024 else size) ids [])).
Proof.
  intros Hs Hids. destruct (New_refines size Hs) as (f & E & R). destruct (check_all_ok _ ids f [] R Hids) as (f' & E'). by exists f, f'.
Qed.

(** Cross-word shifts, replays on both sides of a word boundary, an ID too old. *)
Lemma sliding_window_refines_witness : exists f f', NewSlidingWindowFilter 128 = Ret f /\
  check_all [100; 170; 100; 106; 106; 42; 43; 400; 300; 300; 400] f =
    (f', Ret [true; true; false; true; false; false; true; true; true; false; false]).
Proof.
  destruct (sliding_window_refines 128 [100; 170; 100; 106; 106; 42; 43; 400; 300; 300; 400]) as (f & f' & E & E').
  - apply (bool_decide_unpack _). vm_compute. exact Logic.I.
  - apply (bool_decide_unpack _). vm_compute. exact Logic.I.
  - exists f, f'. split; [exact E|]. rewrite E'. reflexivity.
Defined.
