(* ===== verification/Ss22Core.v ===== *)
(** What the Shadowsocks 2022 connections share: the address codec
    (protocol/socks5/addr.go and writeAddrInfoTo), session keys (encrypt.go), the
    clock window (validation.go), the profile with its identity headers (core.go)
    and the configuration table (ciphers/aead_2022_cipher.go).

    BLAKE3, AES, the AEADs, [net.SplitHostPort] and [netip.ParseAddr] are
    parameters. *)

From S2P Require Import Prelude GoStrings NetIP GoState Common Pool SsKey.
From Stdlib Require Import Strings.Byte.

(** * Addresses *)

Definition AddressTypeIPv4 : byte := x01.
Definition AddressTypeDomain : byte := x03.
Definition AddressTypeIPv6 : byte := x04.
Definition ErrInvalidAddress : error := Errorf "invalid address".

(** [Type] is a field of its own, set by the parsers below. *)
Record AddressInfo := MkAI { aiType : byte; aiHostname : list byte; aiIP : Addr; aiPort : Z }.

Definition Is6 (a : Addr) : bool := match a with Addr6 _ => true | _ => false end.

Definition AddressFromString (SplitHostPort : list byte -> res (list byte * list byte)) (ParseAddr : list byte -> option Addr) (addr : list byte) : res AddressInfo :=
  '(hostname, port_) ← SplitHostPort addr;
  match ParseUint 16 port_ with
  | None => Fail (Errorf "invalid port: %v")
  | Some port =>
      match ParseAddr hostname with
      | None => Ret (MkAI AddressTypeDomain hostname AddrZero port)
      | Some ip => Ret (MkAI (if Is4 ip then AddressTypeIPv4 else AddressTypeIPv6) [] ip port)
      end
  end.

(** An error of [m] wrapped with [msg]. *)
Definition wrapErr {S A} (msg : string) (m : st S A) : st S A := fun s =>
  match m s with (s, Fail e) => (s, Fail (Wrap msg e)) | r => r end.

Definition ReadAddrInfo : st stream AddressInfo :=
  t ← (fun r => match readFull 1 r with (r, Fail _) => (r, Fail (Wrap "too short" ErrInvalidAddress)) | x => x end);
  typ ← lift (index t 0);
  if decide (typ = AddressTypeIPv4) then
    ip ← wrapErr "failed to read IP" (readFull 4);
    port ← wrapErr "failed to read port" (readFull 2);
    mret (MkAI typ [] (Addr4 ip) (be_get port))
  else if decide (typ = AddressTypeIPv6) then
    ip ← wrapErr "failed to read IP" (readFull 16);
    port ← wrapErr "failed to read port" (readFull 2);
    mret (MkAI typ [] (Addr6 ip) (be_get port))
  else if decide (typ = AddressTypeDomain) then
    l ← wrapErr "failed to read domain length" (readFull 1);
    domainLen ← lift (index l 0);
    domain ← wrapErr "failed to read domain" (readFull (Z.to_nat (b2z domainLen)));
    port ← wrapErr "failed to read port" (readFull 2);
    mret (MkAI typ domain AddrZero (be_get port))
  else fail (Wrap "invalid type: %v" ErrInvalidAddress).

Definition addrInfoEncodedLen (addr : AddressInfo) : res nat :=
  if decide (aiType addr = AddressTypeIPv4) then
    if Is4 (aiIP addr) then Ret (1 + 4 + 2)%nat else Fail (Errorf "invalid ipv4 address")
  else if decide (aiType addr = AddressTypeIPv6) then
    if Is6 (aiIP addr) then Ret (1 + 16 + 2)%nat else Fail (Errorf "invalid ipv6 address")
  else if decide (aiType addr = AddressTypeDomain) then
    if decide (255 < length (aiHostname addr))%nat then Fail (Errorf "domain name too long: %d")
    else Ret (1 + 1 + length (aiHostname addr) + 2)%nat
  else Fail (Errorf "unsupported address type: %v").

(** The slice after the stores and the number of bytes written. *)
Definition writeAddrInfoTo (dst : list byte) (addr : AddressInfo) : res (list byte * nat) :=
  addrLen ← addrInfoEncodedLen addr;
  if decide (length dst < addrLen)%nat then Fail ErrShortBuffer else
  dst ← set_at dst 0 (aiType addr);
  if decide (aiType addr = AddressTypeIPv4) then
    '(dst, _) ← copy_at dst 1 (take 4 (AsSlice (aiIP addr)));
    dst ← write_at dst (1 + 4) (be16 (aiPort addr));
    Ret (dst, (1 + 4 + 2)%nat)
  else if decide (aiType addr = AddressTypeIPv6) then
    '(dst, _) ← copy_at dst 1 (take 16 (AsSlice (aiIP addr)));
    dst ← write_at dst (1 + 16) (be16 (aiPort addr));
    Ret (dst, (1 + 16 + 2)%nat)
  else
    let domainLen := length (aiHostname addr) in
    dst ← set_at dst 1 (z2b (Z.of_nat domainLen));
    '(dst, _) ← copy_at dst 2 (aiHostname addr);
    dst ← write_at dst (2 + domainLen) (be16 (aiPort addr));
    Ret (dst, (1 + 1 + domainLen + 2)%nat).

(** The address prefix of a server datagram: the source and its length. *)
Definition parseAddrPort (b : list byte) : res (AddrPort * nat) :=
  if decide (length b < 1)%nat then Fail (Wrap "too short" ErrInvalidAddress) else
  t ← index b 0;
  if decide (t = AddressTypeIPv4) then
    if decide (length b < 1 + 4 + 2)%nat then Fail (Wrap "too short" ErrInvalidAddress) else
    ip ← slice b 1 5;
    port ← slice b 5 7;
    Ret (MkAddrPort (Addr4 ip) (be_get port), 7%nat)
  else if decide (t = AddressTypeIPv6) then
    if decide (length b < 1 + 16 + 2)%nat then Fail (Wrap "too short" ErrInvalidAddress) else
    ip ← slice b 1 17;
    port ← slice b 17 19;
    Ret (MkAddrPort (Addr6 ip) (be_get port), 19%nat)
  else Fail (Errorf "unsupported address type for UDP: %v").

(** ** The wire format *)

(** An address as the parsers make it. *)
Definition ai_ok (a : AddressInfo) : Prop :=
  0 <= aiPort a < 65536 /\
  match aiIP a with
  | Addr4 ip => aiType a = AddressTypeIPv4 /\ length ip = 4%nat /\ aiHostname a = []
  | Addr6 ip => aiType a = AddressTypeIPv6 /\ length ip = 16%nat /\ aiHostname a = []
  | AddrZero => aiType a = AddressTypeDomain /\ (length (aiHostname a) <= 255)%nat
  end.
Definition ai_bytes (a : AddressInfo) : list byte :=
  aiType a :: match aiIP a with
              | AddrZero => z2b (Z.of_nat (length (aiHostname a))) :: aiHostname a
              | ip => AsSlice ip
              end ++ be16 (aiPort a).

Lemma ai_len a : ai_ok a -> addrInfoEncodedLen a = Ret (length (ai_bytes a)).
Proof.
  intros [_ H]. unfold addrInfoEncodedLen, ai_bytes. destruct (aiIP a) as [|ip|ip]; destruct H as [-> H]; cbn [length AsSlice app]; rewrite ?length_app, length_be_put.
  - rewrite decide_False by done. rewrite decide_False by done. rewrite decide_True by done. rewrite decide_False by lia. f_equal; cbn; lia.
  - rewrite decide_True by done. destruct H as [-> _]. done.
  - rewrite decide_False by done. rewrite decide_True by done. destruct H as [-> _]. done.
Qed.

Lemma ai_bytes_short a : ai_ok a -> (length (ai_bytes a) <= 259)%nat.
Proof.
  intros [_ H]. unfold ai_bytes. destruct (aiIP a) as [|ip|ip]; destruct H as [_ H]; cbn [length AsSlice app]; rewrite ?length_app, length_be_put; lia.
Qed.

Lemma writeAddrInfoTo_ok dst a : ai_ok a -> (length (ai_bytes a) <= length dst)%nat ->
  writeAddrInfoTo dst a = Ret (ai_bytes a ++ drop (length (ai_bytes a)) dst, length (ai_bytes a)).
Proof.
  intros Ha L. unfold writeAddrInfoTo. rewrite (ai_len a Ha), bind_ret, decide_False by lia. pose proof Ha as [_ H]. revert L. unfold ai_bytes.
  destruct (aiIP a) as [|ip|ip]; destruct H as [-> H]; cbn [length AsSlice app]; rewrite ?length_app, length_be_put; intros L; (rewrite set_at_0, bind_ret by lia).
  - rewrite decide_False by done. rewrite decide_False by done. cbv zeta. rewrite set_at_app, bind_ret by (rewrite ?length_drop; done || lia).
    rewrite copy_at_app by (rewrite ?length_drop; done || lia). rewrite bind_ret, write_at_app, bind_ret by (rewrite ?length_app, ?length_drop, ?length_be_put; cbn; lia).
    f_equal. apply (f_equal2 pair); [|cbn; lia]. list_eq.
  - destruct H as [L4 _]. rewrite decide_True by done. rewrite firstn_all2 by lia. rewrite copy_at_app by (rewrite ?length_drop; done || lia).
    rewrite bind_ret, write_at_app, bind_ret by (rewrite ?length_app, ?length_drop, ?length_be_put; cbn; lia).
    f_equal. apply (f_equal2 pair); [|cbn; lia]. list_eq.
  - destruct H as [L4 _]. rewrite decide_False by done. rewrite decide_True by done. rewrite firstn_all2 by lia. rewrite copy_at_app by (rewrite ?length_drop; done || lia).
    rewrite bind_ret, write_at_app, bind_ret by (rewrite ?length_app, ?length_drop, ?length_be_put; cbn; lia).
    f_equal. apply (f_equal2 pair); [|cbn; lia]. list_eq.
Qed.

Lemma wrapErr_Ret {S A} msg (m : st S A) s s' a : m s = (s', Ret a) -> wrapErr msg m s = (s', Ret a).
Proof. intros E. unfold wrapErr. by rewrite E. Qed.

Lemma readFull_byte x r : readFull 1 (x :: r) = (r, Ret [x]).
Proof. by apply (readFull_app [x]). Qed.

(** The reader undoes the writer, whatever follows. *)
Lemma ReadAddrInfo_ok a rest : ai_ok a -> ReadAddrInfo (ai_bytes a ++ rest) = (rest, Ret a).
Proof.
  intros [Hp H]. unfold ReadAddrInfo, ai_bytes. rewrite <- app_comm_cons, <- app_assoc.
  assert (Ep : be_get (be16 (aiPort a)) = aiPort a) by (apply be_get_put_small; cbn; lia).
  destruct a as [t h ip p]. cbn [aiType aiIP aiHostname aiPort] in *. destruct ip as [|ip|ip]; destruct H as [-> H]; cbn [AsSlice];
    (erewrite st_bind_Ret; [|rewrite readFull_byte; reflexivity]; cbv beta; st_lift ltac:(reflexivity)).
  - rewrite decide_False by done. rewrite decide_False by done. rewrite decide_True by done. rewrite <- app_comm_cons.
    erewrite st_bind_Ret; [|apply wrapErr_Ret, readFull_byte]. cbv beta. st_lift ltac:(reflexivity).
    rewrite b2z_z2b_small, Nat2Z.id by lia. erewrite st_bind_Ret; [|apply wrapErr_Ret; by apply readFull_app]. cbv beta.
    erewrite st_bind_Ret; [|apply wrapErr_Ret; apply readFull_app; by rewrite length_be_put]. cbv beta. by rewrite Ep.
  - destruct H as [L ->]. rewrite decide_True by done. erewrite st_bind_Ret; [|apply wrapErr_Ret; by apply readFull_app]. cbv beta.
    erewrite st_bind_Ret; [|apply wrapErr_Ret; apply readFull_app; by rewrite length_be_put]. cbv beta. by rewrite Ep.
  - destruct H as [L ->]. rewrite decide_False by done. rewrite decide_True by done. erewrite st_bind_Ret; [|apply wrapErr_Ret; by apply readFull_app]. cbv beta.
    erewrite st_bind_Ret; [|apply wrapErr_Ret; apply readFull_app; by rewrite length_be_put]. cbv beta. by rewrite Ep.
Qed.

Lemma parseAddrPort_ok a rest : ai_ok a -> aiIP a <> AddrZero ->
  parseAddrPort (ai_bytes a ++ rest) = Ret (MkAddrPort (aiIP a) (aiPort a), length (ai_bytes a)).
Proof.
  intros [Hp H] Hz. unfold parseAddrPort, ai_bytes. assert (Ep : be_get (be16 (aiPort a)) = aiPort a) by (apply be_get_put_small; cbn; lia).
  destruct (aiIP a) as [|ip|ip]; [done| |]; destruct H as (-> & L & _); cbn [AsSlice]; rewrite <- app_comm_cons, <- app_assoc, decide_False by (cbn; lia);
    cbn [length]; rewrite !length_app, length_be_put, L; rewrite index_0, bind_ret.
  - rewrite decide_True by done. rewrite decide_False by lia. rewrite (slice_eq _ 1) by (cbn; rewrite ?length_app, ?length_be_put; lia). rewrite bind_ret.
    change (drop 1 (AddressTypeIPv4 :: ?l)) with l. change (5 - 1)%nat with 4%nat. rewrite take_app_length' by done.
    rewrite (slice_eq _ 5) by (cbn; rewrite ?length_app, ?length_be_put; lia). rewrite bind_ret. change (drop 5 (AddressTypeIPv4 :: ?l)) with (drop 4 l).
    rewrite drop_app_length' by done. change (7 - 5)%nat with 2%nat. rewrite take_app_length' by (by rewrite length_be_put). by rewrite Ep.
  - rewrite decide_False by done. rewrite decide_True by done. rewrite decide_False by lia. rewrite (slice_eq _ 1) by (cbn; rewrite ?length_app, ?length_be_put; lia). rewrite bind_ret.
    change (drop 1 (AddressTypeIPv6 :: ?l)) with l. change (17 - 1)%nat with 16%nat. rewrite take_app_length' by done.
    rewrite (slice_eq _ 17) by (cbn; rewrite ?length_app, ?length_be_put; lia). rewrite bind_ret. change (drop 17 (AddressTypeIPv6 :: ?l)) with (drop 16 l).
    rewrite drop_app_length' by done. change (19 - 17)%nat with 2%nat. rewrite take_app_length' by (by rewrite length_be_put). by rewrite Ep.
Qed.

(** No input makes the parser panic, and it never claims more than there is. *)
Lemma parseAddrPort_total b : parseAddrPort b <> Panic /\ forall a n, parseAddrPort b = Ret (a, n) -> (n <= length b)%nat.
Proof.
  unfold parseAddrPort. case_decide; [done|]. destruct b as [|t b]; [cbn in *; lia|]. rewrite index_0, bind_ret.
  destruct (decide (t = AddressTypeIPv4)).
  { case_decide; [done|]. rewrite !slice_eq by lia. rewrite !bind_ret. split; [done|]. intros ? ? [= <- <-]. lia. }
  destruct (decide (t = AddressTypeIPv6)); [|done].
  case_decide; [done|]. rewrite !slice_eq by lia. rewrite !bind_ret. split; [done|]. intros ? ? [= <- <-]. lia.
Qed.

(** * The clock window *)

(** Instants are nanoseconds since the year 1; [time.Unix] adds its seconds to the
    epoch in 64 bits, wrapping. *)
Definition int64 (z : Z) : Z := (z + 2 ^ 63) mod 2 ^ 64 - 2 ^ 63.
Definition unixToInternal : Z := 62135596800.
Definition time_Unix (sec : Z) : Z := int64 (sec + unixToInternal) * 10 ^ 9.
(** The instant of a clock that shows [now] nanoseconds since 1970. *)
Definition clock (now : Z) : Z := now + unixToInternal * 10 ^ 9.

Definition TimestampTolerance : Z := 30 * 10 ^ 9.
Definition SaltStorageDuration : Z := 60 * 10 ^ 9.
Definition ErrTimestampExpired : error := Errorf "timestamp expired".

Definition validateTimestamp (timestamp now : Z) : res unit :=
  if decide (timestamp < now + - TimestampTolerance \/ now + TimestampTolerance < timestamp) then Fail ErrTimestampExpired else Ret tt.

(** A message valid at two times: they are within the storage duration. *)
Lemma validate_both ts t1 t2 : validateTimestamp ts (clock t1) = Ret tt -> validateTimestamp ts (clock t2) = Ret tt -> t2 - t1 <= SaltStorageDuration.
Proof. unfold validateTimestamp, clock, TimestampTolerance, SaltStorageDuration. repeat case_decide; try done. intros _ _. lia. Qed.

(** A timestamp of the sender's clock is valid at the receiver up to 30 seconds apart. *)
Lemma time_Unix_clock s : 0 <= s < 2 ^ 62 -> time_Unix s = clock (s * 10 ^ 9).
Proof. intros H. unfold time_Unix, clock, int64, unixToInternal. rewrite Z.mod_small by lia. lia. Qed.
Lemma validate_near s now : 0 <= s < 2 ^ 62 -> now - TimestampTolerance <= s * 10 ^ 9 <= now + TimestampTolerance -> validateTimestamp (time_Unix s) (clock now) = Ret tt.
Proof. intros Hs H. unfold validateTimestamp. rewrite time_Unix_clock by done. unfold clock. rewrite decide_False; [done|lia]. Qed.

(** * The profile *)

(** What the connections use of crypto/aes; a block object is determined by its key. *)
Class BlockCipher := {
  NewBlock : list byte -> option error;
  BEncrypt : list byte -> list byte -> list byte;
  BDecrypt : list byte -> list byte -> list byte;
  NewBlock_ok : forall key, length key = 16%nat \/ length key = 32%nat -> NewBlock key = None;
  BEncrypt_length : forall key b, length (BEncrypt key b) = 16%nat;
  BDecrypt_length : forall key b, length (BDecrypt key b) = 16%nat;
  BDecrypt_Encrypt : forall key b, length b = 16%nat -> BDecrypt key (BEncrypt key b) = b;
}.

(** [CipherConf2022]: the sizes, whether [NewBlockCipher] is set, the block size of identity headers. *)
Record CipherConf2022 := MkConf22 { sizes : CipherConf; hasBlock : bool; IdentityHeaderBlockSize : nat }.
Definition Aead2022CiphersConf (name : list byte) : option CipherConf2022 :=
  if decide (name = lit "2022-blake3-aes-256-gcm") then Some (MkConf22 (MkConf 32 32 12 16) true 16)
  else if decide (name = lit "2022-blake3-aes-128-gcm") then Some (MkConf22 (MkConf 16 16 12 16) true 16)
  else if decide (name = lit "2022-blake3-chacha20-poly1305") then Some (MkConf22 (MkConf 32 32 12 16) false 16)
  else None.

Record SS2022Core := MkCore {
  cipherConf : CipherConf2022; pskList : list (list byte); uPSK : list byte;
  blockCipherEncrypt : option (list byte); blockCipherDecrypt : option (list byte);
  pskHash : list (list byte); identityBlockCiphers : list (list byte); hasMultiPSK : bool }.

Definition IsUsingBlockCipher (c : SS2022Core) : bool := hasBlock (cipherConf c).
Definition eihBlockSize (cf : CipherConf2022) : nat := if decide (IdentityHeaderBlockSize cf = 0%nat) then 16%nat else IdentityHeaderBlockSize cf.
Definition IdentityHeaderLen (c : SS2022Core) : nat :=
  if hasMultiPSK c then ((length (pskList c) - 1) * eihBlockSize (cipherConf c))%nat else 0%nat.

(** [subtle.XORBytes] of two slices. *)
Definition XORBytes (x y : list byte) : list byte := zip_with (fun a b => z2b (Z.lxor (b2z a) (b2z b))) x y.

Section core.
Context {BC : BlockCipher}.
(** [Sum512 m]: 64 bytes; [DeriveKey ctx material n]: [n] bytes. *)
Context (Sum512 : list byte -> list byte) (DeriveKey : list byte -> list byte -> nat -> list byte).

(** The pooled slice has room for 32 bytes; every byte of the key is written. *)
Definition GenerateSubKey (psk salt context : list byte) : res (list byte) :=
  if decide (32 < length psk)%nat then Panic else Ret (DeriveKey context (psk ++ salt) (length psk)).

Definition Shadowsocks2022ReusedInfo : list byte := lit "shadowsocks 2022 session subkey".
Definition Shadowsocks2022IdentityHeaderInfo : list byte := lit "shadowsocks 2022 identity subkey".

(** The cipher is its key. *)
Definition CreateCipher {CA : AEAD} (masterKey salt : list byte) : res (list byte) :=
  subKey ← GenerateSubKey masterKey salt Shadowsocks2022ReusedInfo;
  match NewCipher subKey with Some e => Fail e | None => Ret subKey end.

Definition newBlock (msg : string) (key : list byte) : res (list byte) :=
  match NewBlock key with Some e => Fail (Wrap msg e) | None => Ret key end.

(** The loop that precomputes identity hashes and block ciphers, from index [i]. *)
Fixpoint identity_loop (sz : nat) (psks : list (list byte)) : res (list (list byte) * list (list byte)) :=
  match psks with
  | [] => Ret ([], [])
  | psk :: rest =>
      h ← slice (Sum512 psk) 0 sz;
      bs ← (match rest with [] => Ret [] | _ => b ← newBlock "failed to create identity block cipher" psk; Ret [b] end);
      '(hs, cs) ← identity_loop sz rest;
      Ret (h :: hs, bs ++ cs)
  end.

Definition NewSS2022Core (cf : CipherConf2022) (psks : list (list byte)) (u : list byte) : res SS2022Core :=
  if decide (psks = []) then Fail (Errorf "empty PSK list") else
  if decide ((1 < length psks)%nat /\ hasBlock cf = false) then Fail (Errorf "multi-PSK EIH requires an AES cipher") else
  '(be, bd) ← (if hasBlock cf then
      psk0 ← index psks 0;
      e ← newBlock "failed to create encrypt block cipher" psk0;
      d ← newBlock "failed to create decrypt block cipher" u;
      Ret (Some e, Some d)
    else Ret (None, None));
  if decide (1 < length psks)%nat then
    '(hs, cs) ← identity_loop (eihBlockSize cf) psks;
    Ret (MkCore cf psks u be bd hs cs true)
  else Ret (MkCore cf psks u be bd [] [] false).

(** The loop of [WriteIdentityHeader]: [n] headers from index [i], at [offset]. *)
Fixpoint identity_headers (c : SS2022Core) (sz n i : nat) (dst separateHeader : list byte) (offset : nat) : res (list byte) :=
  match n with
  | O => Ret dst
  | S n =>
      header ← slice dst offset (offset + sz);
      h ← index (pskHash c) (i + 1);
      let x := XORBytes h separateHeader in
      if decide (length header < length x)%nat then Panic else
      let header := x ++ drop (length x) header in
      key ← index (identityBlockCiphers c) i;
      dst ← write_at dst offset (BEncrypt key header);
      identity_headers c sz n (S i) dst separateHeader (offset + sz)
  end.

Definition WriteIdentityHeader (c : SS2022Core) (dst separateHeader : list byte) : res (list byte * nat) :=
  if negb (hasMultiPSK c) then Ret (dst, 0%nat) else
  let sz := eihBlockSize (cipherConf c) in
  let headerLen := ((length (pskList c) - 1) * sz)%nat in
  if decide (length dst < headerLen)%nat then Fail ErrShortBuffer else
  dst ← identity_headers c sz (length (pskList c) - 1) 0 dst separateHeader 0;
  Ret (dst, headerLen).
End core.

(** ** Identity headers *)

Section core_facts.
Context {BC : BlockCipher}.
Context (Sum512 : list byte -> list byte) (Sum512_length : forall m, length (Sum512 m) = 64%nat).

Definition psk_hash (psk : list byte) : list byte := take 16 (Sum512 psk).
(** One block per key but the last, for the next key. *)
Fixpoint identities (sep : list byte) (psks : list (list byte)) : list byte :=
  match psks with
  | a :: ((b :: _) as rest) => BEncrypt a (XORBytes (psk_hash b) sep) ++ identities sep rest
  | _ => []
  end.

Definition psk_ok (psk : list byte) : Prop := length psk = 16%nat \/ length psk = 32%nat.
(** The profile of a list of keys. *)
Definition core_of (cf : CipherConf2022) (psks : list (list byte)) (u : list byte) : SS2022Core :=
  let multi := bool_decide (1 < length psks)%nat in
  MkCore cf psks u (if hasBlock cf then psks !! 0%nat else None) (if hasBlock cf then Some u else None)
    (if multi then psk_hash <$> psks else []) (if multi then removelast psks else []) multi.

Lemma newBlock_ok msg key : psk_ok key -> newBlock msg key = Ret key.
Proof. intros H. unfold newBlock. by rewrite NewBlock_ok. Qed.

Lemma identity_loop_ok psks : Forall psk_ok psks -> identity_loop Sum512 16 psks = Ret (psk_hash <$> psks, removelast psks).
Proof.
  induction 1 as [|psk rest Hk _ IH]; [done|]. cbn [identity_loop]. rewrite slice_eq by (rewrite ?Sum512_length; lia). rewrite bind_ret, drop_0.
  destruct rest as [|k rest]; [done|]. rewrite newBlock_ok by done. rewrite !bind_ret, IH, bind_ret. done.
Qed.

Lemma NewSS2022Core_ok cf psks u : psks <> [] -> Forall psk_ok psks -> psk_ok u -> eihBlockSize cf = 16%nat -> (hasBlock cf = true \/ length psks = 1%nat) ->
  NewSS2022Core Sum512 cf psks u = Ret (core_of cf psks u).
Proof.
  intros Ne Hk Hu Hs Hb. unfold NewSS2022Core, core_of. cbv zeta. rewrite decide_False by done. rewrite decide_False by (intros [? E]; destruct Hb; [congruence|lia]).
  destruct psks as [|k psks]; [done|]. pose proof (proj1 (proj1 (Forall_cons _ _ _) Hk)) as Hk0.
  destruct (hasBlock cf).
  - rewrite index_0, bind_ret, !newBlock_ok by done. rewrite !bind_ret. case_decide as M.
    + rewrite Hs, identity_loop_ok by done. rewrite bind_ret. by rewrite bool_decide_true.
    + by rewrite bool_decide_false.
  - destruct Hb as [Hb|Hb]; [done|]. rewrite bind_ret, decide_False by lia. by rewrite bool_decide_false by lia.
Qed.

Lemma length_XORBytes x y : length (XORBytes x y) = Nat.min (length x) (length y).
Proof. unfold XORBytes. by rewrite length_zip_with. Qed.
Lemma length_psk_hash k : length (psk_hash k) = 16%nat.
Proof. unfold psk_hash. rewrite length_take, Sum512_length. lia. Qed.
Lemma identities_cons sep a b psks : identities sep (a :: b :: psks) = BEncrypt a (XORBytes (psk_hash b) sep) ++ identities sep (b :: psks).
Proof. done. Qed.
Lemma length_identities sep psks : length (identities sep psks) = (16 * (length psks - 1))%nat.
Proof.
  induction psks as [|a psks IH]; [done|]. destruct psks as [|b psks]; [done|]. rewrite identities_cons, length_app, BEncrypt_length, IH. cbn [length]. lia.
Qed.

Lemma identity_headers_ok c sep all : pskHash c = psk_hash <$> all -> identityBlockCiphers c = removelast all -> length sep = 16%nat ->
  forall L i pre rest, drop i all = L -> (16 * (length L - 1) <= length rest)%nat ->
  identity_headers c 16 (length L - 1) i (pre ++ rest) sep (length pre) = Ret (pre ++ identities sep L ++ drop (16 * (length L - 1)) rest).
Proof.
  intros Hh Hc Ls. induction L as [|a L IH]; intros i pre rest E Lr; [done|]. destruct L as [|b L]; [done|]. rewrite identities_cons. cbn [length Nat.sub identity_headers].
  cbn [length Nat.sub] in Lr.
  assert (Ea : all !! i = Some a) by (rewrite <- (Nat.add_0_r i), <- lookup_drop, E; done).
  assert (Eb : all !! (i + 1)%nat = Some b) by (rewrite <- lookup_drop, E; done).
  rewrite slice_eq by (rewrite ?length_app; lia). rewrite bind_ret, drop_app_length, add_sub_cancel.
  assert (index (pskHash c) (i + 1) = Ret (psk_hash b)) as -> by (unfold index; by rewrite Hh, list_lookup_fmap, Eb). rewrite bind_ret. cbv zeta.
  assert (Lx : length (XORBytes (psk_hash b) sep) = 16%nat) by (rewrite length_XORBytes, length_psk_hash, Ls; done).
  rewrite decide_False by (rewrite length_take, Lx; lia). rewrite (drop_ge (take 16 rest)), app_nil_r by (rewrite length_take, Lx; lia).
  assert (index (identityBlockCiphers c) i = Ret a) as ->.
  { unfold index. rewrite Hc. assert (Li : (i < length all - 1)%nat) by (apply lookup_lt_Some in Eb; lia).
    destruct (decide (all = [])) as [-> |Ne]; [done|]. destruct (exists_last Ne) as (l' & x & El). rewrite El in *. rewrite removelast_last.
    rewrite length_app in Li. cbn in Li. rewrite lookup_app_l in Ea by lia. by rewrite Ea. }
  rewrite bind_ret, write_at_app, bind_ret, BEncrypt_length by (rewrite ?BEncrypt_length; lia).
  specialize (IH (S i) (pre ++ BEncrypt a (XORBytes (psk_hash b) sep)) (drop 16 rest)). replace (S (length L) - 1)%nat with (length L) in IH by lia.
  rewrite length_app, BEncrypt_length in IH. cbn [length] in IH. replace (S (length L) - 1)%nat with (length L) in IH by lia. rewrite IH.
  - rewrite drop_drop, <- !app_assoc. repeat (lia || f_equal).
  - rewrite <- Nat.add_1_r, <- drop_drop, E. done.
  - rewrite length_drop. lia.
Qed.

(** The block of the identity headers at the front of [dst]. *)
Lemma WriteIdentityHeader_ok cf psks u sep dst : psks <> [] -> eihBlockSize cf = 16%nat -> length sep = 16%nat -> (16 * (length psks - 1) <= length dst)%nat ->
  WriteIdentityHeader (core_of cf psks u) dst sep = Ret (identities sep psks ++ drop (16 * (length psks - 1)) dst, (16 * (length psks - 1))%nat).
Proof.
  intros Ne Hs Ls Ld. unfold WriteIdentityHeader, core_of. cbn [hasMultiPSK cipherConf pskList]. rewrite Hs. destruct (decide (1 < length psks)%nat) as [M|M].
  - rewrite bool_decide_true by done. cbn [negb]. rewrite decide_False by lia.
    pose proof (identity_headers_ok (MkCore cf psks u (if hasBlock cf then psks !! 0%nat else None) (if hasBlock cf then Some u else None) (psk_hash <$> psks) (removelast psks) true)
      sep psks eq_refl eq_refl Ls psks 0 [] dst eq_refl Ld) as E. cbn [app length] in E. rewrite E, bind_ret, Nat.mul_comm. done.
  - rewrite bool_decide_false by done. cbn [negb]. destruct psks as [|a [|b psks]]; [done| |cbn in M; lia]. done.
Qed.
Lemma IdentityHeaderLen_ok cf psks u : psks <> [] -> eihBlockSize cf = 16%nat -> IdentityHeaderLen (core_of cf psks u) = (16 * (length psks - 1))%nat.
Proof.
  intros Ne Hs. unfold IdentityHeaderLen, core_of. cbn [hasMultiPSK cipherConf pskList]. rewrite Hs. case_bool_decide; [lia|]. destruct psks as [|a [|b psks]]; [done|done|cbn in *; lia].
Qed.
End core_facts.
