(* ===== verification/Ss22Udp.v ===== *)
(** Shadowsocks 2022 datagrams (protocol/shadowsocks_2022/udp_conn.go): sealing
    and batching, decoding, the bounded cache of session ciphers and the table of
    replay windows with its expiry, eviction and background sweeps.

    [range] is Go's map iteration: some enumeration of the entries.  [XA] is
    XChaCha20-Poly1305.  A clock reading is an argument, in nanoseconds since 1970;
    so is what the random source yields. *)

From S2P Require Import Prelude GoStrings NetIP GoState Common Pool Transport SsKey SlidingWindow Ss22Core.
From Stdlib Require Import Strings.Byte.

Definition udpPacketReplayWindowSize : Z := 1024.
Definition maxTrackedUdpSessions : Z := 128.
Definition udpPacketNonceSize : nat := 24.
Definition maxDecryptCipherEntries : nat := 64.
Definition decryptCipherLowWatermark : nat := (maxDecryptCipherEntries / 2)%nat.
Definition cleanupInterval : Z := 1000.
Definition HeaderTypeClientStream : byte := x00.
Definition HeaderTypeServerStream : byte := x01.
Definition ErrReplayAttack : error := Errorf "replay attack".

Record udpSessionReplayState := MkRS { rs_filter : SlidingWindowFilter; lastSeen : Z }.

(** The receiving side; [sweeps] are the background sweeps started, by the time they
    were given. *)
Record rx := MkRx {
  decryptCiphers : gmap (list byte) (list byte);
  replayWindow : gmap (list byte) udpSessionReplayState; replayCount : Z; cleanupCounter : Z; sweeps : list Z }.
(** The sending side and the socket: what was sent, whether it takes batches, and a plan
    of what its next calls return (an exhausted plan: everything sent). *)
Record tx := MkTx {
  packetID : Z; targetCache : LastStringValue AddressInfo;
  u_batch : bool; u_sent : list (list byte); u_plan : list (nat * option error) }.
(** [cipher]: unset, or the outcome of the only attempt to make it. *)
Record UdpConn := MkU { core : SS2022Core; sessionID : list byte; cipher : option (list byte + error); rxs : rx; txs : tx }.

Definition set_cipher (x : option (list byte + error)) (c : UdpConn) : UdpConn := MkU (core c) (sessionID c) x (rxs c) (txs c).
Definition set_rx (r : rx) (c : UdpConn) : UdpConn := MkU (core c) (sessionID c) (cipher c) r (txs c).
Definition set_tx (t : tx) (c : UdpConn) : UdpConn := MkU (core c) (sessionID c) (cipher c) (rxs c) t.
Definition on_rx {A} (m : st rx A) : st UdpConn A := fun c => let '(r, a) := m (rxs c) in (set_rx r c, a).
Definition on_tx {A} (m : st tx A) : st UdpConn A := fun c => let '(t, a) := m (txs c) in (set_tx t c, a).

Definition set_ciphers (m : gmap (list byte) (list byte)) (r : rx) : rx := MkRx m (replayWindow r) (replayCount r) (cleanupCounter r) (sweeps r).
(** The table and its counter change together. *)
Definition set_table (m : gmap (list byte) udpSessionReplayState) (n : Z) (r : rx) : rx := MkRx (decryptCiphers r) m n (cleanupCounter r) (sweeps r).

Section udp.
Context {BC : BlockCipher} (XA : AEAD) {CA : AEAD} {BS : BufferSource}.
Context (DeriveKey : list byte -> list byte -> nat -> list byte).
Context (range : forall V : Type, gmap (list byte) V -> list (list byte * V)).
Context (SplitHostPort : list byte -> res (list byte * list byte)) (ParseAddr : list byte -> option Addr).

(** [NewUdpConn]; [sid] are the random bytes, [batch] whether the socket takes batches. *)
Definition NewUdpConn (co : SS2022Core) (sid : list byte) (batch : bool) (plan : list (nat * option error)) : UdpConn :=
  MkU co sid None (MkRx ∅ ∅ 0 0 []) (MkTx 0 None batch [] plan).

Definition newSessionCipher (c : UdpConn) : res (list byte) :=
  if IsUsingBlockCipher (core c) then CreateCipher DeriveKey (uPSK (core c)) (sessionID c)
  else match @NewCipher XA (uPSK (core c)) with Some e => Fail e | None => Ret (uPSK (core c)) end.

(** [sync.Once]: a panic would leave the cipher nil and no error. *)
Definition ensureCipher : st UdpConn (list byte) :=
  c ← get;
  match cipher c with
  | Some (inl k) => mret k
  | Some (inr e) => fail e
  | None =>
      match newSessionCipher c with
      | Ret k => _ ← modify (set_cipher (Some (inl k))); mret k
      | Fail e => let e := Wrap "failed to create session cipher" e in _ ← modify (set_cipher (Some (inr e))); fail e
      | Panic => lift Panic
      end
  end.

(** * Receiving *)

(** [for k := range m { delete(m, k); toDelete--; if toDelete == 0 { break } }] *)
Fixpoint trim (keys : list (list byte)) (toDelete : Z) (m : gmap (list byte) (list byte)) : gmap (list byte) (list byte) :=
  match keys with
  | [] => m
  | k :: keys =>
      let m := delete k m in
      let toDelete := toDelete - 1 in
      if decide (toDelete = 0) then m else trim keys toDelete m
  end.

Definition decryptCipherFor (psk sid : list byte) : st rx (list byte) :=
  r ← get;
  match decryptCiphers r !! sid with
  | Some cached => mret cached
  | None =>
      match CreateCipher DeriveKey psk sid with
      | Panic => lift Panic
      | Fail e => fail (Wrap "failed to create decrypt cipher for remote session" e)
      | Ret k =>
          let n := size (decryptCiphers r) in
          let m := if decide (maxDecryptCipherEntries <= n)%nat
                   then trim (fst <$> range _ (decryptCiphers r)) (Z.of_nat n - Z.of_nat decryptCipherLowWatermark + 1) (decryptCiphers r)
                   else decryptCiphers r in
          _ ← modify (set_ciphers (<[sid := k]> m));
          mret k
      end
  end.

(** The scan of [evictOldestIfNeeded]: the oldest of the entries past [expireNano]. *)
Fixpoint oldest (nowNano expireNano : Z) (found : option (list byte * Z)) (l : list (list byte * udpSessionReplayState)) : option (list byte * Z) :=
  match l with
  | [] => found
  | (k, s) :: l =>
      let seen := lastSeen s in
      if decide (nowNano - seen <= expireNano) then oldest nowNano expireNano found l
      else match found with
           | Some (_, oldestNano) => oldest nowNano expireNano (if decide (seen < oldestNano) then Some (k, seen) else found) l
           | None => oldest nowNano expireNano (Some (k, seen)) l
           end
  end.

(** Every round removes an entry or returns. *)
Fixpoint evict_loop (fuel : nat) (nowNano expireNano : Z) : st rx unit :=
  r ← get;
  if decide (maxTrackedUdpSessions < replayCount r) then
    match fuel with
    | O => lift Panic
    | S fuel =>
        match oldest nowNano expireNano None (range _ (replayWindow r)) with
        | None => mret tt
        | Some (k, _) =>
            _ ← modify (set_table (delete k (replayWindow r)) (replayCount r - 1));
            evict_loop fuel nowNano expireNano
        end
    end
  else mret tt.
Definition evictOldestIfNeeded (nowNano : Z) : st rx unit :=
  r ← get; evict_loop (size (replayWindow r)) nowNano SaltStorageDuration.

(** One visit of a sweep. *)
Definition sweep (nowNano expireNano : Z) (key : list byte) : st rx unit :=
  modify (fun r =>
    match replayWindow r !! key with
    | Some s => if decide (expireNano < nowNano - lastSeen s) then set_table (delete key (replayWindow r)) (replayCount r - 1) r else r
    | None => r
    end).
Fixpoint sweep_all (nowNano expireNano : Z) (keys : list (list byte)) : st rx unit :=
  match keys with [] => mret tt | k :: keys => _ ← sweep nowNano expireNano k; sweep_all nowNano expireNano keys end.
Definition cleanupExpiredSessions (nowNano expireNano : Z) : st rx unit :=
  r ← get; sweep_all nowNano expireNano (fst <$> range _ (replayWindow r)).

(** [state.filter.CheckAndUpdate] on the object [s]: the one the table holds under
    [sid], when it holds one. *)
Definition check_filter (sid : list byte) (s : udpSessionReplayState) (id : Z) : st rx bool := fun r =>
  let '(f, b) := CheckAndUpdate id (rs_filter s) in
  (match replayWindow r !! sid with
   | Some s => set_table (<[sid := MkRS f (lastSeen s)]> (replayWindow r)) (replayCount r) r
   | None => r
   end, b).

(** [evictNow] is the clock when the eviction runs. *)
Definition checkAndUpdateReplay (sid : list byte) (id now evictNow : Z) : st rx bool :=
  r ← get;
  let expireNano := SaltStorageDuration in
  let known := match replayWindow r !! sid with
               | Some s => if decide (expireNano < now - lastSeen s) then None else Some s
               | None => None
               end in
  match known with
  | Some s =>
      let s := MkRS (rs_filter s) now in
      _ ← modify (fun r => set_table (<[sid := s]> (replayWindow r)) (replayCount r) r);
      check_filter sid s id
  | None =>
      _ ← modify (fun r => match replayWindow r !! sid with
                           | Some _ => set_table (delete sid (replayWindow r)) (replayCount r - 1) r
                           | None => r
                           end);
      _ ← modify (fun r =>
            let n := cleanupCounter r + 1 in
            MkRx (decryptCiphers r) (replayWindow r) (replayCount r) n
              (if decide (Z.rem n cleanupInterval = 0) then now :: sweeps r else sweeps r));
      f ← lift (NewSlidingWindowFilter udpPacketReplayWindowSize);
      let s := MkRS f now in
      r ← get;
      (** [LoadOrStore] *)
      match replayWindow r !! sid with
      | Some s =>
          let s := MkRS (rs_filter s) now in
          _ ← modify (fun r => set_table (<[sid := s]> (replayWindow r)) (replayCount r) r);
          check_filter sid s id
      | None =>
          _ ← modify (fun r => set_table (<[sid := s]> (replayWindow r)) (replayCount r + 1) r);
          _ ← evictOldestIfNeeded evictNow;
          check_filter sid s id
      end
  end.

Definition decodePacketPayload (payload : list byte) (now : Z) : res (list byte * AddrPort) :=
  if decide (length payload < 19)%nat then Fail (Wrap "failed to read fixed header" ErrUnexpectedEOF) else
  typ ← index payload 0;
  ts ← slice payload 1 9;
  let timestamp := time_Unix (int64 (be_get ts)) in
  pl ← slice payload 17 19;
  let offset := (19 + Z.to_nat (be_get pl))%nat in
  if decide (length payload < offset)%nat then Fail (Wrap "failed to skip padding" ErrUnexpectedEOF) else
  if decide (typ <> HeaderTypeServerStream) then Fail (Errorf "received unexpected header type: %d") else
  _ ← validateTimestamp timestamp (clock now);
  rest ← slice_from payload offset;
  '(addr, addrLen) ← parseAddrPort rest;
  out ← slice_from payload (offset + addrLen);
  Ret (out, addr).

(** The payload is committed to the replay window only after it has been validated. *)
Definition commit (sid : list byte) (id : Z) (out : list byte) (addr : AddrPort) (now evictNow : Z) : st UdpConn (list byte * AddrPort) :=
  ok ← on_rx (checkAndUpdateReplay sid id now evictNow);
  if (ok : bool) then mret (out, addr) else fail ErrReplayAttack.

Definition decodeBlockPacket (buf : list byte) (now evictNow : Z) : st UdpConn (list byte * AddrPort) :=
  if decide (length buf < 16)%nat then fail (Errorf "short length to decrypt") else
  c ← get;
  key ← lift (match blockCipherDecrypt (core c) with Some k => Ret k | None => Panic end);
  head ← lift (slice buf 0 16);
  let head := BDecrypt key head in
  let sid := take 8 head in
  let id := be_get (drop 8 head) in
  payload ← lift (slice_from buf 16);
  k ← on_rx (decryptCipherFor (uPSK (core c)) sid);
  match Open k (drop 4 head) payload with
  | None => fail ErrOpen
  | Some payload =>
      '(out, addr) ← lift (decodePacketPayload payload now);
      commit sid id out addr now evictNow
  end.

Definition decodeChachaPacket (buf : list byte) (now evictNow : Z) : st UdpConn (list byte * AddrPort) :=
  k ← ensureCipher;
  if decide (length buf < udpPacketNonceSize + TagLen conf + 16)%nat then fail (Errorf "short length to decrypt") else
  nonce ← lift (slice buf 0 udpPacketNonceSize);
  payload ← lift (slice_from buf udpPacketNonceSize);
  match @Open XA k nonce payload with
  | None => fail ErrOpen
  | Some payload =>
      sid ← lift (slice payload 0 8);
      id ← lift (slice payload 8 16);
      rest ← lift (slice_from payload 16);
      '(out, addr) ← lift (decodePacketPayload rest now);
      commit sid (be_get id) out addr now evictNow
  end.

(** The datagram [d] arrives while the caller's slice has [k] bytes: the bytes copied
    and the source. *)
Definition readFromChacha (k : nat) (d : list byte) (now evictNow : Z) : st UdpConn (list byte * AddrPort) :=
  _ ← ensureCipher;
  let buf := take (k + udpPacketNonceSize + TagLen conf + 320) d in
  '(payload, addr) ← decodeChachaPacket buf now evictNow;
  if decide (k < length payload)%nat then fail (DatagramDropped ErrShortBuffer) else mret (payload, addr).
Definition ReadFrom (k : nat) (d : list byte) (now evictNow : Z) : st UdpConn (list byte * AddrPort) :=
  c ← get;
  if negb (IsUsingBlockCipher (core c)) then readFromChacha k d now evictNow else
  let buf := take (k + 16 + TagLen conf) d in
  '(payload, addr) ← decodeBlockPacket buf now evictNow;
  mret (take k payload, addr).

(** A received packet: an error, or data and their source. *)
Definition mapReceivedPacket (p : (list byte * AddrPort) + error) (now evictNow : Z) : st UdpConn ((list byte * AddrPort) + error) :=
  match p with
  | inr e => mret (inr e)
  | inl (d, _) =>
      c ← get;
      try (if IsUsingBlockCipher (core c) then decodeBlockPacket d now evictNow else decodeChachaPacket d now evictNow)
  end.

(** * Sending *)

Definition sock_Write (p : list byte) : st tx (nat * option error) := fun t =>
  let put s pl := MkTx (packetID t) (targetCache t) (u_batch t) s pl in
  match u_plan t with
  | [] => (put (u_sent t ++ [p]) [], Ret (length p, None))
  | (n, e) :: plan => (put (u_sent t ++ match e with None => [p] | Some _ => [] end) plan, Ret (n, e))
  end.
(** The first [n] datagrams of the batch were sent. *)
Definition sock_WriteBatch (ps : list (list byte)) : st tx (nat * option error) := fun t =>
  let put s pl := MkTx (packetID t) (targetCache t) (u_batch t) s pl in
  match u_plan t with
  | [] => (put (u_sent t ++ ps) [], Ret (length ps, None))
  | (n, e) :: plan => (put (u_sent t ++ take n ps) plan, Ret (n, e))
  end.

Definition targetAddrInfo (addr : list byte) : st tx AddressInfo :=
  t ← get;
  match LastStringValue_Load (targetCache t) addr with
  | Some cached => mret cached
  | None =>
      a ← lift (AddressFromString SplitHostPort ParseAddr addr);
      _ ← modify (fun t => MkTx (packetID t) (LastStringValue_Store addr a (targetCache t)) (u_batch t) (u_sent t) (u_plan t));
      mret a
  end.

Definition nextPacketID : st tx Z :=
  _ ← modify (fun t => MkTx (word (packetID t + 1)) (targetCache t) (u_batch t) (u_sent t) (u_plan t));
  t ← get; mret (packetID t).

(** An error of a pure step, wrapped. *)
Definition wrap_res {A} (msg : string) (m : res A) : res A := match m with Fail e => Fail (Wrap msg e) | m => m end.

(** The stores into [message], a slice of the packet: [front], then type, time, padding
    length, address and payload. *)
Definition fill_message (message front b : list byte) (a : AddressInfo) (now : Z) : res (list byte) :=
  message ← write_at message 0 front;
  let off := length front in
  message ← set_at message off HeaderTypeClientStream;
  message ← write_at message (off + 1) (be_put 8 (now / 10 ^ 9));
  message ← write_at message (off + 9) (be16 0);
  rest ← slice_from message (off + 11);
  '(rest, addrWritten) ← wrap_res "fail to encode request address" (writeAddrInfoTo rest a);
  let message := take (off + 11) message ++ rest in
  '(message, _) ← copy_at message (off + 11 + addrWritten) b;
  Ret message.

Definition sealBlockPacket (c : UdpConn) (k b : list byte) (a : AddressInfo) (id now : Z) : res (list byte) :=
  addrLen ← wrap_res "fail to calculate address length" (addrInfoEncodedLen a);
  '(h, _) ← copy_at (replicate 16 x00) 0 (sessionID c);
  separateHeader ← write_at h 8 (be_put 8 id);
  bk ← (match blockCipherEncrypt (core c) with Some k => Ret k | None => Panic end);
  let enc := BEncrypt bk separateHeader in
  let messageLen := (1 + 8 + 2 + addrLen + length b)%nat in
  let total := (length enc + IdentityHeaderLen (core c) + messageLen + TagLen conf)%nat in
  '(packet, _) ← copy_at (src_get total) 0 enc;
  tail ← slice_from packet 16;
  '(tail, identityHeaderLen) ← wrap_res "fail to write identity header" (WriteIdentityHeader (core c) tail separateHeader);
  let packet := take 16 packet ++ tail in
  let messageOffset := (16 + identityHeaderLen)%nat in
  message ← slice packet messageOffset (messageOffset + messageLen);
  message ← fill_message message [] b a now;
  packet ← write_at packet messageOffset message;
  nonce ← slice separateHeader 4 16;
  slice (append_at packet messageOffset (Seal k nonce message)) 0 (messageOffset + messageLen + TagLen conf).

Definition sealChachaPacket (c : UdpConn) (k nonce b : list byte) (a : AddressInfo) (id now : Z) : res (list byte) :=
  addrLen ← wrap_res "fail to calculate address length" (addrInfoEncodedLen a);
  let messageLen := (16 + 1 + 8 + 2 + addrLen + length b)%nat in
  let total := (udpPacketNonceSize + messageLen + TagLen conf)%nat in
  packet ← write_at (src_get total) 0 nonce;
  message ← slice packet udpPacketNonceSize (udpPacketNonceSize + messageLen);
  message ← fill_message message (sessionID c ++ be_put 8 id) b a now;
  packet ← write_at packet udpPacketNonceSize message;
  nonce ← slice packet 0 udpPacketNonceSize;
  slice (append_at packet udpPacketNonceSize (@Seal XA k nonce message)) 0 (udpPacketNonceSize + messageLen + @TagLen (@conf XA)).

(** The draws of one packet: the nonce and the clock. *)
Definition seal_packet (k b : list byte) (a : AddressInfo) (draw : list byte * Z) : st UdpConn (list byte) :=
  id ← on_tx nextPacketID;
  c ← get;
  lift (if IsUsingBlockCipher (core c) then sealBlockPacket c k b a id draw.2 else sealChachaPacket c k draw.1 b a id draw.2).

(** Number of bytes reported, or the error. *)
Definition WriteTo (b addr : list byte) (draw : list byte * Z) : st UdpConn nat :=
  k ← ensureCipher;
  a ← on_tx (wrapErr "fail to parse target address" (targetAddrInfo addr));
  packet ← seal_packet k b a draw;
  '(n, err) ← on_tx (sock_Write packet);
  match err with
  | Some e => fail e
  | None => if decide (n < length packet)%nat then fail ErrShortWrite else mret (length b)
  end.

Fixpoint resolve_all (items : list (list byte * list byte)) : st UdpConn (list AddressInfo) :=
  match items with
  | [] => mret []
  | (_, addr) :: items =>
      a ← on_tx (wrapErr "fail to parse target address" (targetAddrInfo addr));
      l ← resolve_all items;
      mret (a :: l)
  end.
Fixpoint seal_all (k : list byte) (items : list (list byte * list byte)) (addrs : list AddressInfo) (draws : list (list byte * Z)) : st UdpConn (list (list byte)) :=
  match items, addrs, draws with
  | (b, _) :: items, a :: addrs, d :: draws =>
      p ← seal_packet k b a d;
      ps ← seal_all k items addrs draws;
      mret (p :: ps)
  | _, _, _ => mret []
  end.
Fixpoint send_each (ps : list (list byte)) (sent_ : nat) : st UdpConn (nat * option error) :=
  match ps with
  | [] => mret (sent_, None)
  | p :: ps =>
      '(n, err) ← on_tx (sock_Write p);
      let err := match err with None => if decide (n < length p)%nat then Some ErrShortWrite else None | e => e end in
      match err with Some e => mret (sent_, Some e) | None => send_each ps (S sent_) end
  end.

(** Failures before anything is sent are failures of the call ([n == 0]). *)
Definition WriteBatch (items : list (list byte * list byte)) (draws : list (list byte * Z)) : st UdpConn (nat * option error) :=
  if decide (items = []) then mret (0%nat, None) else
  k ← ensureCipher;
  addrs ← resolve_all items;
  packets ← seal_all k items addrs draws;
  c ← get;
  if u_batch (txs c) then on_tx (sock_WriteBatch packets) else send_each packets 0.
End udp.
