(* ===== verification/Ss22Replay.v ===== *)
(** Replay protection of Shadowsocks 2022 datagrams: the table of windows under
    every order of receptions, sends and background sweeps. *)

From S2P Require Import Prelude GoStrings NetIP GoState Common Pool Transport SsKey SlidingWindow Ss22Core Ss22Udp.
From Stdlib Require Import Strings.Byte.

(** A datagram delivered: session, packet ID, time. *)
Definition mark : Type := list byte * Z * Z.

Section replay.
Context {BC : BlockCipher} (XA : AEAD) {CA : AEAD} {BS : BufferSource}.
Context (DeriveKey : list byte -> list byte -> nat -> list byte).
Context (range : forall V : Type, gmap (list byte) V -> list (list byte * V)).
Context (range_perm : forall V (m : gmap (list byte) V), range V m ≡ₚ map_to_list m).
Context (SplitHostPort : list byte -> res (list byte * list byte)) (ParseAddr : list byte -> option Addr).

(** * The table *)

(** At time [T], every packet in [done] is too old for a copy of it to be valid, or
    recorded in the window of its session; a window records nothing else. *)
Definition window_ok (T : Z) (done : list mark) (sid : list byte) (s : udpSessionReplayState) : Prop :=
  exists seen, refines udpPacketReplayWindowSize (rs_filter s) seen /\
    (forall id t, (sid, id, t) ∈ done -> SaltStorageDuration < T - t \/ (id ∈ seen /\ t <= lastSeen s)) /\
    (forall id, id ∈ seen -> exists t, (sid, id, t) ∈ done).

Record table_ok (T : Z) (done : list mark) (r : rx) : Prop := {
  to_count : replayCount r = Z.of_nat (size (replayWindow r));
  to_sweeps : Forall (fun t => t <= T) (sweeps r);
  to_times : Forall (fun x : mark => x.2 <= T) done;
  to_windows : map_Forall (window_ok T done) (replayWindow r);
  to_known : forall sid id t, (sid, id, t) ∈ done -> SaltStorageDuration < T - t \/ is_Some (replayWindow r !! sid);
}.

Lemma window_later T T' done sid s : T <= T' -> window_ok T done sid s -> window_ok T' done sid s.
Proof. intros L (seen & R & H & O). exists seen. split; [done|]. split; [|done]. intros id t [?|?]%H; [left; lia|by right]. Qed.
Lemma table_later T T' done r : T <= T' -> table_ok T done r -> table_ok T' done r.
Proof.
  intros L [C S Ti W K]. split; [done| | | |].
  - eapply Forall_impl; [exact S|]. cbn. lia.
  - eapply Forall_impl; [exact Ti|]. cbn. lia.
  - eapply map_Forall_impl; [exact W|]. intros. by eapply window_later.
  - intros sid id t [?|?]%K; [left; lia|by right].
Qed.

(** Dropping a window past its storage duration loses nothing. *)
Lemma table_drop T done r sid s now : table_ok T done r -> replayWindow r !! sid = Some s -> now <= T -> SaltStorageDuration < now - lastSeen s ->
  table_ok T done (set_table (delete sid (replayWindow r)) (replayCount r - 1) r).
Proof.
  intros [C S Ti W K] E L D. split; cbn [set_table replayWindow replayCount sweeps]; [|done|done| |].
  - rewrite C, map_size_delete_Some by (by eexists). assert (size (replayWindow r) <> 0%nat) by (intros Z0%map_size_empty_inv; rewrite Z0, lookup_empty in E; done). lia.
  - by apply map_Forall_delete.
  - intros sid' id t H. destruct (decide (sid' = sid)) as [-> |N].
    + left. destruct (W sid s E) as (seen & _ & Hs & _). destruct (Hs id t H) as [?|[_ ?]]; lia.
    + rewrite lookup_delete_ne by done. by apply (K _ id).
Qed.

Lemma sweep_table T done r sid now : table_ok T done r -> now <= T ->
  exists r', sweep now SaltStorageDuration sid r = (r', Ret tt) /\ table_ok T done r' /\ decryptCiphers r' = decryptCiphers r.
Proof.
  intros Ht L. unfold sweep, modify. destruct (replayWindow r !! sid) as [s|] eqn:E; [|by eexists]. case_decide; [|by eexists].
  eexists. split; [done|]. split; [|done]. by eapply table_drop.
Qed.

Lemma oldest_found now l : forall found k t, oldest now SaltStorageDuration found l = Some (k, t) ->
  found = Some (k, t) \/ exists s, (k, s) ∈ l /\ SaltStorageDuration < now - lastSeen s.
Proof.
  induction l as [|[k' s] l IH]; intros found k t E; cbn [oldest] in E; [by left|].
  assert (T : forall f, oldest now SaltStorageDuration f l = Some (k, t) -> f = found \/ f = Some (k', lastSeen s) -> SaltStorageDuration < now - lastSeen s \/ f = found ->
    found = Some (k, t) \/ exists s0, (k, s0) ∈ (k', s) :: l /\ SaltStorageDuration < now - lastSeen s0).
  { intros f Ef Hf Ho. destruct (IH f k t Ef) as [-> |(s0 & H & D)]; [|right; exists s0; split; [by right|done]].
    destruct Hf as [<-|Hf]; [by left|]. injection Hf as -> ->. destruct Ho as [Ho|<-]; [|by left]. right. exists s. split; [by left|done]. }
  destruct (decide (now - lastSeen s <= SaltStorageDuration)).
  - apply (T found); [done|by left|by right].
  - destruct found as [[k0 t0]|].
    + case_decide; (eapply T; [exact E| |]; [by (right + left)|left; lia]).
    + apply (T _ E); [by right|left; lia].
Qed.

Lemma evict_table fuel T done now : forall r, table_ok T done r -> now <= T -> (size (replayWindow r) <= fuel)%nat ->
  exists r', evict_loop range fuel now SaltStorageDuration r = (r', Ret tt) /\ table_ok T done r' /\ decryptCiphers r' = decryptCiphers r /\
    (forall sid s, replayWindow r' !! sid = Some s -> replayWindow r !! sid = Some s) /\
    (forall sid s, replayWindow r !! sid = Some s -> replayWindow r' !! sid = None -> SaltStorageDuration < now - lastSeen s).
Proof.
  induction fuel as [|fuel IH]; intros r Ht L Hf; cbn [evict_loop]; st_pure.
  - rewrite decide_False; [by exists r; split_and!; [..|naive_solver]|]. rewrite (to_count _ _ _ Ht). unfold maxTrackedUdpSessions. lia.
  - case_decide; [|by exists r; split_and!; [..|naive_solver]].
    destruct (oldest now SaltStorageDuration None (range udpSessionReplayState (replayWindow r))) as [[k t]|] eqn:E; [|by exists r; split_and!; [..|naive_solver]].
    apply oldest_found in E as [?|(s & Hel & D)]; [done|]. rewrite range_perm in Hel. apply elem_of_map_to_list in Hel. st_pure. set (r1 := set_table _ _ _).
    assert (T1 : table_ok T done r1) by (by eapply table_drop).
    destruct (IH r1 T1 L) as (r' & Er & T' & Ec & Hin & Hout).
    { unfold r1. cbn. rewrite map_size_delete_Some by (by eexists). lia. }
    exists r'. split; [done|]. split; [done|]. split; [by rewrite Ec|]. split.
    + intros sid s' Hs%Hin. unfold r1 in Hs. cbn in Hs. by apply lookup_delete_Some in Hs as [_ ?].
    + intros sid s' Hs Hn. destruct (decide (sid = k)) as [-> |N]; [congruence|]. apply (Hout sid); [|done]. unfold r1. cbn. by rewrite lookup_delete_ne.
Qed.

Lemma table_touch T done r sid s now : table_ok T done r -> T <= now -> replayWindow r !! sid = Some s ->
  table_ok now done (set_table (<[sid := MkRS (rs_filter s) now]> (replayWindow r)) (replayCount r) r).
Proof.
  intros Ht L E. apply (table_later T now) in Ht; [|done]. pose proof Ht as [C S Ti W K]. split; cbn [set_table replayWindow replayCount sweeps]; [|done|done| |].
  - by rewrite map_size_insert_Some.
  - apply map_Forall_insert_2; [|done]. destruct (W sid s E) as (seen & R & H & O). exists seen. split; [done|]. split; [|done]. intros id t Hd. destruct (H id t Hd) as [?|[? _]]; [by left|right].
    split; [done|]. cbn. by apply (proj1 (Forall_forall _ done) Ti (sid, id, t)).
  - intros sid' id t H. destruct (decide (sid' = sid)) as [-> |N]; [right; rewrite lookup_insert_eq; by eexists|]. rewrite lookup_insert_ne by done. by apply (K _ id).
Qed.

Lemma table_add T done r sid f now : table_ok T done r -> T <= now -> replayWindow r !! sid = None -> refines udpPacketReplayWindowSize f [] ->
  table_ok now done (set_table (<[sid := MkRS f now]> (replayWindow r)) (replayCount r + 1) r).
Proof.
  intros Ht L E R. apply (table_later T now) in Ht; [|done]. pose proof Ht as [C S Ti W K]. split; cbn [set_table replayWindow replayCount sweeps]; [|done|done| |].
  - rewrite map_size_insert_None by done. lia.
  - apply map_Forall_insert_2; [|done]. exists []. split; [done|]. split; [|by intros ? ?%not_elem_of_nil]. intros id t Hd. left. destruct (K sid id t Hd) as [?|[x Ex]]; [done|congruence].
  - intros sid' id t H. destruct (decide (sid' = sid)) as [-> |N]; [right; rewrite lookup_insert_eq; by eexists|]. rewrite lookup_insert_ne by done. by apply (K _ id).
Qed.

Lemma fresh_not_seen size seen id : fresh size seen id = true -> id ∉ seen.
Proof. unfold fresh. destruct seen as [|x seen]; [by intros _ ?%not_elem_of_nil|]. cbn [newest]. intros [H _]%andb_prop. by apply bool_decide_eq_true in H. Qed.

Lemma fresh_newer size seen id : 0 < size -> (forall x, x ∈ seen -> x < id) -> fresh size seen id = true.
Proof.
  intros Hs H. unfold fresh. destruct (newest seen) as [l|] eqn:E; [|done]. apply newest_in in E. apply H in E.
  rewrite !bool_decide_true by (first [lia | intros ?%H; lia]). done.
Qed.

Definition accept (b : bool) (sid : list byte) (id now : Z) (done : list mark) : list mark := if b then (sid, id, now) :: done else done.

(** The window of a session decides a packet ID; an accepted one is recorded. *)
Lemma check_entry T done r sid s id : table_ok T done r -> replayWindow r !! sid = Some s -> lastSeen s <= T -> 0 <= id < 2 ^ 64 ->
  exists r' b, check_filter sid s id r = (r', Ret b) /\ table_ok T (accept b sid id (lastSeen s) done) r' /\ decryptCiphers r' = decryptCiphers r /\
    (b = true -> forall t, (sid, id, t) ∈ done -> SaltStorageDuration < T - t) /\
    ((forall id' t, (sid, id', t) ∈ done -> id' < id) -> b = true).
Proof.
  intros [C S Ti W K] E L Hid. destruct (W sid s E) as (seen & R & H & O). destruct (CheckAndUpdate_ok _ _ _ id R Hid) as (f & Ef & Rf).
  unfold check_filter. rewrite Ef, E. eexists _, _. split; [done|]. unfold ideal_check in *. destruct (fresh udpPacketReplayWindowSize seen id) eqn:Fr; cbn [fst snd] in *.
  - split; [|split; [done|split; [|done]]]; [split; cbn [set_table replayWindow replayCount sweeps accept]|].
    + by rewrite map_size_insert_Some.
    + done.
    + by constructor.
    + intros sid' s' [[<- <-]|[N E']]%lookup_insert_Some.
      * exists (id :: seen). split; [done|]. cbn [lastSeen]. split; [|intros id' [-> |Hd]%elem_of_cons; [exists (lastSeen s); by left|destruct (O id' Hd) as [t ?]; exists t; by right]]. intros id' t [[= -> ->]|Hd]%elem_of_cons; [right; split; [by left|lia]|].
        destruct (H id' t Hd) as [?|[? ?]]; [by left|right; split; [by right|done]].
      * destruct (W sid' s' E') as (seen' & R' & H' & O'). exists seen'. split; [done|]. split; [|intros id' Hd; destruct (O' id' Hd) as [t ?]; exists t; by right].
        intros id' t [[= ? ? ?]|Hd]%elem_of_cons; [done|by apply H'].
    + intros sid' id' t [[= -> -> ->]|Hd]%elem_of_cons; [right; rewrite lookup_insert_eq; by eexists|].
      destruct (decide (sid' = sid)) as [-> |N]; [right; rewrite lookup_insert_eq; by eexists|]. rewrite lookup_insert_ne by done. by apply (K _ id').
    + intros _ t Hd. destruct (H id t Hd) as [?|[? _]]; [done|]. by apply fresh_not_seen in Fr.
  - split; [|split; [done|split; [done|]]]; cycle 1.
    { intros G. exfalso. assert (fresh udpPacketReplayWindowSize seen id = true) as F; [|congruence]. apply fresh_newer; [done|]. intros x Hx. destruct (O x Hx) as [t Ht]. by apply (G x t). }
    split; cbn [set_table replayWindow replayCount sweeps accept]; [by rewrite map_size_insert_Some|done|done| |].
    + apply map_Forall_insert_2; [|done]. exists seen. done.
    + intros sid' id' t Hd. destruct (decide (sid' = sid)) as [-> |N]; [right; rewrite lookup_insert_eq; by eexists|]. rewrite lookup_insert_ne by done. by apply (K _ id').
Qed.

Lemma New_window : exists f, NewSlidingWindowFilter udpPacketReplayWindowSize = Ret f /\ refines udpPacketReplayWindowSize f [].
Proof. destruct (New_refines udpPacketReplayWindowSize) as (f & E & R); [unfold udpPacketReplayWindowSize; lia|]. by exists f. Qed.

(** The whole check: the table stays correct, and a packet accepted now was not
    accepted within the storage duration. *)
Lemma checkAndUpdateReplay_ok T done r sid id now ev : table_ok T done r -> T <= now -> now <= ev -> 0 <= id < 2 ^ 64 ->
  exists r' b, checkAndUpdateReplay range sid id now ev r = (r', Ret b) /\ table_ok ev (accept b sid id now done) r' /\ decryptCiphers r' = decryptCiphers r /\
    (b = true -> forall t, (sid, id, t) ∈ done -> SaltStorageDuration < now - t) /\
    ((forall id' t, (sid, id', t) ∈ done -> id' < id) -> b = true).
Proof.
  intros Ht L Le Hid. unfold checkAndUpdateReplay. st_pure. cbv zeta.
  set (known := match replayWindow r !! sid with Some s => _ | None => None end). destruct known as [s|] eqn:Ek.
  - assert (E : replayWindow r !! sid = Some s) by (unfold known in Ek; destruct (replayWindow r !! sid); [case_decide; congruence|done]).
    st_pure. destruct (check_entry now done _ sid (MkRS (rs_filter s) now) id (table_touch _ _ _ _ _ _ Ht L E)) as (r' & b & Ec & T' & D & F & G); [cbn; by rewrite lookup_insert_eq|cbn; lia|done|].
    exists r', b. split; [done|]. split; [by apply (table_later now)|]. by split.
  - st_pure. set (r1 := match replayWindow r !! sid with Some _ => _ | None => r end).
    assert (T1 : table_ok now done r1 /\ replayWindow r1 !! sid = None /\ decryptCiphers r1 = decryptCiphers r).
    { unfold r1, known in *. destruct (replayWindow r !! sid) as [s|] eqn:E; [|split; [by apply (table_later T)|done]]. case_decide; [|done].
      split; [|split; [cbn; apply lookup_delete_eq|done]]. apply (table_drop now done r sid s now); [by apply (table_later T)|done|lia|done]. }
    clearbody r1. destruct T1 as (T1 & E1 & D1).
    assert (Fr : forall t, (sid, id, t) ∈ done -> SaltStorageDuration < now - t).
    { intros t Hd. destruct (to_known _ _ _ T1 _ _ _ Hd) as [?|[x Ex]]; [done|congruence]. }
    st_pure. set (r2 := MkRx _ _ _ _ _).
    assert (T2 : table_ok now done r2).
    { destruct T1 as [C S Ti W K]. split; cbn; [done| |done|done|done]. case_decide; [by constructor|done]. }
    assert (E2 : replayWindow r2 !! sid = None) by done. assert (D2 : decryptCiphers r2 = decryptCiphers r) by done. clearbody r2.
    destruct New_window as (f & Ef & Rf). erewrite st_lift_Ret by exact Ef. cbv beta zeta. st_pure. rewrite E2. st_pure.
    pose proof (table_add now done r2 sid f now T2 (Z.le_refl _) E2 Rf) as T3. set (r3 := set_table _ _ _) in *.
    unfold evictOldestIfNeeded. destruct (evict_table (size (replayWindow r3)) ev done ev r3) as (r4 & E4 & T4 & D4 & Hin & Hout); [by apply (table_later now)|lia|lia|].
    erewrite st_bind_Ret; [|erewrite st_bind_Ret; [exact E4|done]]. cbv beta.
    assert (E3 : replayWindow r3 !! sid = Some (MkRS f now)) by (unfold r3; cbn; by rewrite lookup_insert_eq).
    destruct (replayWindow r4 !! sid) as [s|] eqn:Es.
    + assert (s = MkRS f now) as -> by (apply Hin in Es; congruence).
      destruct (check_entry ev done r4 sid (MkRS f now) id T4 Es) as (r' & b & Ec & T' & D & _ & G); [done|done|]. exists r', b. split; [done|]. split; [done|]. split; [|split; [by intros _|done]].
      rewrite D, D4. done.
    + unfold check_filter. rewrite Es. cbn [rs_filter]. destruct (CheckAndUpdate_ok _ _ _ id Rf Hid) as (f' & -> & _). eexists r4, _. split; [done|]. cbn [rs_filter].
      pose proof (Hout _ _ E3 Es) as Old. cbn [lastSeen] in Old. split; [|split; [by rewrite D4|split; [by intros _|done]]].
      assert (accept (ideal_check udpPacketReplayWindowSize id []).2 sid id now done = (sid, id, now) :: done) as -> by done.
      destruct T4 as [C S Ti W K]. split; [done|done|by constructor| |].
      * intros sid' s' E'. destruct (W sid' s' E') as (seen' & R' & H' & O'). exists seen'. split; [done|].
        split; [|intros id' Hd; destruct (O' id' Hd) as [t ?]; exists t; by right]. intros id' t [[= -> -> ->]|Hd]%elem_of_cons; [congruence|by apply H'].
      * intros sid' id' t [[= -> -> ->]|Hd]%elem_of_cons; [by left|by apply (K _ id')].
Qed.

(** * The cipher cache *)

Definition cache_ok (psk : list byte) (m : gmap (list byte) (list byte)) : Prop :=
  (size m <= maxDecryptCipherEntries)%nat /\ map_Forall (fun sid k => CreateCipher DeriveKey psk sid = Ret k) m.

Lemma trim_subseteq keys : forall n m, trim keys n m ⊆ m.
Proof.
  induction keys as [|k keys IH]; intros n m; cbn [trim]; [done|]. case_decide; [apply delete_subseteq|]. etrans; [apply IH|apply delete_subseteq].
Qed.
Lemma trim_size keys : forall n m, NoDup keys -> Forall (fun k => is_Some (m !! k)) keys -> 1 <= n <= Z.of_nat (length keys) ->
  Z.of_nat (size (trim keys n m)) = Z.of_nat (size m) - n.
Proof.
  induction keys as [|k keys IH]; intros n m Nd Hk Hn; [cbn in Hn; lia|]. apply NoDup_cons in Nd as [Nk Nd]. apply Forall_cons in Hk as [Hk Hks]. cbn [trim].
  assert (Es : Z.of_nat (size (delete k m)) = Z.of_nat (size m) - 1).
  { rewrite map_size_delete_Some by done. assert (size m <> 0%nat) by (intros E%map_size_empty_inv; rewrite E, lookup_empty in Hk; by destruct Hk). lia. }
  case_decide; [lia|]. rewrite IH; [lia|done| |cbn [length] in Hn; lia].
  apply Forall_forall. intros x Hx. rewrite lookup_delete_ne by (by intros ->). by apply (proj1 (Forall_forall _ keys) Hks).
Qed.

Lemma decryptCipherFor_ok psk sid r : cache_ok psk (decryptCiphers r) -> exists m,
  cache_ok psk m /\ decryptCipherFor DeriveKey range psk sid r =
    (set_ciphers m r, wrap_res "failed to create decrypt cipher for remote session" (CreateCipher DeriveKey psk sid)).
Proof.
  intros [Sz K]. unfold decryptCipherFor. st_pure. destruct (decryptCiphers r !! sid) as [k|] eqn:E.
  { exists (decryptCiphers r). split; [done|]. rewrite (K sid k E). by destruct r. }
  destruct (CreateCipher DeriveKey psk sid) as [k|e|] eqn:Ec; [|exists (decryptCiphers r); split; [done|]; by destruct r..].
  cbv zeta. set (m := if decide _ then _ else _). st_pure. exists (<[sid := k]> m). split; [|done].
  assert (Hm : m ⊆ decryptCiphers r) by (unfold m; case_decide; [apply trim_subseteq|done]). split.
  - rewrite map_size_insert_None by (eapply lookup_weaken_None; [exact E|exact Hm]). unfold m. case_decide as C; [|lia].
    set (keys := fst <$> _). assert (P : keys ≡ₚ (map_to_list (decryptCiphers r)).*1) by (unfold keys; by rewrite range_perm).
    assert (Lk : length keys = size (decryptCiphers r)) by (rewrite P, length_fmap; apply length_map_to_list).
    pose proof (trim_size keys (Z.of_nat (size (decryptCiphers r)) - Z.of_nat decryptCipherLowWatermark + 1) (decryptCiphers r)) as T.
    unfold maxDecryptCipherEntries in *. change decryptCipherLowWatermark with 32%nat in *.
    assert (Z.of_nat (size (trim keys (Z.of_nat (size (decryptCiphers r)) - Z.of_nat 32 + 1) (decryptCiphers r))) = 31); [|lia]. rewrite T; [lia| | |lia].
    + rewrite P. apply NoDup_fst_map_to_list.
    + apply Forall_forall. intros x Hx. rewrite P in Hx. apply list_elem_of_fmap in Hx as ([x' v] & -> & Hx%elem_of_map_to_list). by eexists.
  - apply map_Forall_insert_2; [done|]. intros x v Hx. apply K. by eapply lookup_weaken.
Qed.

(** * Decoding *)

(** What the keys make of a datagram: session, packet ID, payload. *)
Definition opened (co : SS2022Core) (d : list byte) : option (list byte * Z * list byte) :=
  if IsUsingBlockCipher co then
    if decide (length d < 16)%nat then None else
    match blockCipherDecrypt co with
    | None => None
    | Some bk =>
        let head := BDecrypt bk (take 16 d) in
        match CreateCipher DeriveKey (uPSK co) (take 8 head) with
        | Ret k => (fun p => (take 8 head, be_get (drop 8 head), p)) <$> Open k (drop 4 head) (drop 16 d)
        | _ => None
        end
    end
  else
    if decide (@NewCipher XA (uPSK co) <> None \/ (length d < udpPacketNonceSize + TagLen conf + 16)%nat) then None else
    (fun p => (take 8 p, be_get (take 8 (drop 8 p)), drop 16 p)) <$> @Open XA (uPSK co) (take 24 d) (drop 24 d).

Definition core_ok (co : SS2022Core) : Prop :=
  (length (uPSK co) <= 32)%nat /\ (IsUsingBlockCipher co = true -> is_Some (blockCipherDecrypt co)).
(** The session cipher, once made, is the one of the keys. *)
Definition cipher_ok (c : UdpConn) : Prop :=
  match cipher c with
  | None => True
  | Some (inl k) => newSessionCipher XA DeriveKey c = Ret k
  | Some (inr _) => exists e, newSessionCipher XA DeriveKey c = Fail e
  end.
(** The keys open [d], and its payload [oa] is valid at [now]. *)
Definition valid (co : SS2022Core) (d : list byte) (now : Z) (sid : list byte) (id : Z) (oa : list byte * AddrPort) : Prop :=
  exists p, opened co d = Some (sid, id, p) /\ decodePacketPayload p now = Ret oa.
Record conn_ok (T : Z) (done : list mark) (c : UdpConn) : Prop := {
  co_core : core_ok (core c);
  co_cipher : cipher_ok c;
  co_cache : cache_ok (uPSK (core c)) (decryptCiphers (rxs c));
  co_table : table_ok T done (rxs c);
}.

Lemma decodePacketPayload_total p now : decodePacketPayload p now <> Panic.
Proof.
  unfold decodePacketPayload. case_decide; [done|]. destruct p as [|t p]; [cbn in *; lia|]. rewrite index_0, bind_ret, !slice_eq, !bind_ret by lia. cbv zeta.
  case_decide; [done|]. case_decide; [done|]. unfold validateTimestamp. case_decide; [done|]. rewrite bind_ret, slice_from_eq, bind_ret by lia.
  set (off := (19 + _)%nat) in *. set (rest := drop off _). pose proof (parseAddrPort_total rest) as [P L].
  destruct (parseAddrPort rest) as [[a n]|e|]; [|done|congruence]. rewrite bind_ret.
  specialize (L a n eq_refl). unfold rest in L. rewrite length_drop in L. rewrite slice_from_eq by lia. done.
Qed.

(** A payload accepted at two times: they are within the storage duration. *)
Lemma decode_both p t1 t2 x y : decodePacketPayload p t1 = Ret x -> decodePacketPayload p t2 = Ret y -> t2 - t1 <= SaltStorageDuration.
Proof.
  unfold decodePacketPayload. case_decide; [done|]. destruct p as [|t p]; [cbn in *; lia|]. rewrite index_0, bind_ret, !slice_eq, !bind_ret by lia. cbv zeta.
  case_decide; [done|]. case_decide; [done|]. set (ts := time_Unix _).
  destruct (validateTimestamp ts (clock t1)) as [[]| |] eqn:E1; [|done..]. destruct (validateTimestamp ts (clock t2)) as [[]| |] eqn:E2; [|done..].
  intros _ _. by apply (validate_both ts).
Qed.

Lemma CreateCipher_safe psk sid : (length psk <= 32)%nat -> CreateCipher DeriveKey psk sid <> Panic.
Proof. intros L. unfold CreateCipher, GenerateSubKey. rewrite decide_False by lia. rewrite bind_ret. by destruct (NewCipher _). Qed.

Lemma newSessionCipher_frame c c' : core c' = core c -> sessionID c' = sessionID c -> newSessionCipher XA DeriveKey c' = newSessionCipher XA DeriveKey c.
Proof. intros E1 E2. unfold newSessionCipher. by rewrite E1, E2. Qed.

(** [c'] differs from [c] in the receiving side at most. *)
Definition same_but_rx (c c' : UdpConn) : Prop := core c' = core c /\ sessionID c' = sessionID c /\ cipher c' = cipher c.
Lemma conn_ok_rx T T' done done' c r : conn_ok T done c -> cache_ok (uPSK (core c)) (decryptCiphers r) -> table_ok T' done' r -> conn_ok T' done' (set_rx r c).
Proof. intros [Co Ci _ _] C Ta. split; [done|exact Ci|done|done]. Qed.

Definition outcome (T : Z) (done : list mark) (now ev : Z) (d : list byte) (c c' : UdpConn) (r : res (list byte * AddrPort)) : Prop :=
  core c' = core c /\ sessionID c' = sessionID c /\
  (forall sid id oa, valid (core c) d now sid id oa -> (forall id' t, (sid, id', t) ∈ done -> id' < id) -> r = Ret oa) /\
  ((exists e, r = Fail e) /\ conn_ok ev done c' \/
   exists sid id p oa, r = Ret oa /\ opened (core c) d = Some (sid, id, p) /\ decodePacketPayload p now = Ret oa /\
     conn_ok ev ((sid, id, now) :: done) c' /\ forall t, (sid, id, t) ∈ done -> SaltStorageDuration < now - t).

Lemma commit_ok T done now ev d c sid id p oa : conn_ok T done c -> T <= now -> now <= ev -> 0 <= id < 2 ^ 64 ->
  opened (core c) d = Some (sid, id, p) -> decodePacketPayload p now = Ret oa ->
  exists c' r, commit range sid id oa.1 oa.2 now ev c = (c', r) /\ outcome T done now ev d c c' r.
Proof.
  intros Hc L Le Hid Ho Hp. unfold commit. destruct (checkAndUpdateReplay_ok _ _ _ sid id now ev (co_table _ _ _ Hc) L Le Hid) as (r' & b & E & Ta & D & F & G).
  erewrite st_bind_Ret; [|unfold on_rx; rewrite E; done]. cbv beta.
  assert (Hc' : conn_ok ev (accept b sid id now done) (set_rx r' c)) by (eapply conn_ok_rx; [done| |done]; rewrite D; apply Hc).
  assert (U : forall sid' id' oa', valid (core c) d now sid' id' oa' -> sid' = sid /\ id' = id /\ oa' = oa).
  { intros sid' id' oa' (p' & Ho' & Hp'). rewrite Ho in Ho'. injection Ho' as <- <- <-. rewrite Hp in Hp'. by injection Hp' as <-. }
  destruct b.
  - eexists _, _. split; [done|]. split; [done|]. split; [done|]. split; [intros sid' id' oa' (-> & -> & ->)%U _; by destruct oa|].
    right. exists sid, id, p, oa. split; [by destruct oa|]. split_and!; [done..|]. by apply F.
  - eexists _, _. split; [done|]. split; [done|]. split; [done|]. split; [intros sid' id' oa' (-> & -> & ->)%U M; by specialize (G M)|]. left. split; [by eexists|done].
Qed.

Lemma fail_outcome T done now ev d c c' e : (forall sid id oa, ~ valid (core c) d now sid id oa) -> T <= ev -> conn_ok T done c' -> core c' = core c -> sessionID c' = sessionID c -> outcome T done now ev d c c' (Fail e).
Proof.
  intros V L [Co Ci Ca Ta] E1 E2. split; [done|]. split; [done|]. split; [by intros ? ? ? ?%V|]. left. split; [by eexists|]. split; [done..|]. by apply (table_later T).
Qed.

Lemma decodeBlock_ok T done now ev d c : conn_ok T done c -> IsUsingBlockCipher (core c) = true -> T <= now -> now <= ev ->
  exists c' r, decodeBlockPacket DeriveKey range d now ev c = (c', r) /\ outcome T done now ev d c c' r.
Proof.
  intros Hc Hb L Le. pose proof Hc as [Co Ci Ca Ta]. unfold decodeBlockPacket.
  assert (N : opened (core c) d = None -> forall sid id oa, ~ valid (core c) d now sid id oa) by (intros Eo ? ? ? (p & Ep & _); congruence).
  case_decide as Ld; [eexists _, _; split; [done|]; apply fail_outcome; [apply N; unfold opened; by rewrite Hb, decide_True|done || lia..]|].
  st_pure. destruct (proj2 Co Hb) as [bk Ebk]. rewrite Ebk. st_lift ltac:(reflexivity). st_lift ltac:(apply slice_eq; lia). rewrite Nat.sub_0_r, drop_0. cbv zeta.
  set (head := BDecrypt bk (take 16 d)). st_lift ltac:(apply slice_from_eq; lia).
  destruct (decryptCipherFor_ok (uPSK (core c)) (take 8 head) (rxs c) Ca) as (m & Cm & Ed). set (c1 := set_rx (set_ciphers m (rxs c)) c).
  assert (Hc1 : conn_ok T done c1) by (eapply conn_ok_rx; [done|done|]; destruct Ta; by split).
  assert (Lh : length head = 16%nat) by apply BDecrypt_length.
  destruct (CreateCipher DeriveKey (uPSK (core c)) (take 8 head)) as [k|e|] eqn:Ek; [| |by apply CreateCipher_safe in Ek; [|apply Co]].
  2:{ erewrite st_bind_Fail; [|unfold on_rx; rewrite Ed; done]. eexists _, _. split; [done|].
    apply fail_outcome; [apply N; unfold opened; rewrite Hb, decide_False, Ebk by lia; cbv zeta; fold head; by rewrite Ek|done || lia..]. }
  erewrite st_bind_Ret; [|unfold on_rx; rewrite Ed; done]. cbv beta. fold c1.
  destruct (Open k (drop 4 head) (drop 16 d)) as [p|] eqn:Eo.
  2:{ eexists _, _. split; [done|]. apply fail_outcome; [apply N; unfold opened; rewrite Hb, decide_False, Ebk by lia; cbv zeta; fold head; by rewrite Ek, Eo|done || lia..]. }
  assert (Hop : opened (core c1) d = Some (take 8 head, be_get (drop 8 head), p)).
  { unfold opened. cbn [core c1 set_rx]. rewrite Hb, decide_False, Ebk by lia. cbv zeta. fold head. by rewrite Ek, Eo. }
  destruct (decodePacketPayload p now) as [[out addr]|e|] eqn:Ep; [| |by apply decodePacketPayload_total in Ep].
  2:{ eexists _, _. split; [done|]. apply fail_outcome; [|done || lia..]. intros ? ? ? (p' & Ep' & Ed'). change (core c1) with (core c) in Hop. rewrite Hop in Ep'. injection Ep' as <- <- <-. congruence. }
  st_lift ltac:(reflexivity). apply (commit_ok T done now ev d c1 _ _ p (out, addr)); try done.
  pose proof (be_get_range (drop 8 head)) as R. rewrite length_drop, Lh in R. change (256 ^ Z.of_nat (16 - 8)) with (2 ^ 64) in R. done.
Qed.

(** Making the session cipher: the receiving side is not touched. *)
Definition keeps {A} (m : st UdpConn A) : Prop := forall c, core_ok (core c) -> cipher_ok c ->
  let c' := (m c).1 in core c' = core c /\ sessionID c' = sessionID c /\ rxs c' = rxs c /\ cipher_ok c'.

Lemma ensureCipher_ok c : core_ok (core c) -> cipher_ok c -> exists c' r, ensureCipher XA DeriveKey c = (c', r) /\ r <> Panic /\
  core c' = core c /\ sessionID c' = sessionID c /\ rxs c' = rxs c /\ cipher_ok c' /\
  (forall k, r = Ret k -> newSessionCipher XA DeriveKey c = Ret k) /\ (forall e, r = Fail e -> exists e', newSessionCipher XA DeriveKey c = Fail e').
Proof.
  intros Co Ci. unfold ensureCipher. st_pure. pose proof Ci as Ci0. unfold cipher_ok in Ci0. destruct (cipher c) as [[k|e]|] eqn:E.
  - exists c, (Ret k). split_and!; try done. by intros k' [= <-].
  - exists c, (Fail e). split_and!; try done.
  - destruct (newSessionCipher XA DeriveKey c) as [k|e|] eqn:En.
    + eexists _, _. split; [done|]. split_and!; try done.
    + eexists _, _. split; [done|]. split_and!; try done; [by eexists|]. intros e' [= <-]. by eexists.
    + exfalso. unfold newSessionCipher in En. destruct (IsUsingBlockCipher (core c)); [by apply CreateCipher_safe in En; [|apply Co]|].
      by destruct (@NewCipher XA (uPSK (core c))).
Qed.

Context (XA_tag : TagLen (@conf XA) = TagLen conf).

Lemma decodeChacha_ok T done now ev d c : conn_ok T done c -> IsUsingBlockCipher (core c) = false -> T <= now -> now <= ev ->
  exists c' r, decodeChachaPacket XA DeriveKey range d now ev c = (c', r) /\ outcome T done now ev d c c' r.
Proof.
  intros Hc Hb L Le. pose proof Hc as [Co Ci Ca Ta]. unfold decodeChachaPacket. destruct (ensureCipher_ok c Co Ci) as (c1 & rk & E & Np & E1 & E2 & E3 & Ci1 & Hk & He).
  assert (N : opened (core c) d = None -> forall sid id oa, ~ valid (core c) d now sid id oa) by (intros Eo ? ? ? (p & Ep & _); congruence).
  assert (Hc1 : conn_ok T done c1) by (split; [by rewrite E1|done|by rewrite E1, E3|by rewrite E3]).
  destruct rk as [k|e|]; [| |done].
  2:{ rewrite (st_bind_Fail _ _ _ _ _ E). eexists _, _. split; [done|]. apply fail_outcome; [|done || lia..]. apply N. unfold opened. rewrite Hb, decide_True; [done|]. left.
    destruct (He e eq_refl) as [e' Ee]. unfold newSessionCipher in Ee. rewrite Hb in Ee. by destruct (@NewCipher XA (uPSK (core c))). }
  rewrite (st_bind_Ret _ _ _ _ _ E). case_decide as Ld.
  { eexists _, _. split; [done|]. apply fail_outcome; [|done || lia..]. apply N. unfold opened. rewrite Hb, decide_True; [done|]. by right. }
  assert (Nx : @NewCipher XA (uPSK (core c)) = None). { specialize (Hk k eq_refl). unfold newSessionCipher in Hk. rewrite Hb in Hk. by destruct (@NewCipher XA (uPSK (core c))). }
  assert (Gd : ~ (@NewCipher XA (uPSK (core c)) <> None \/ (length d < udpPacketNonceSize + TagLen conf + 16)%nat)) by (intros [?|?]; [done|lia]).
  assert (k = uPSK (core c)) as ->. { specialize (Hk k eq_refl). unfold newSessionCipher in Hk. rewrite Hb in Hk. by destruct (@NewCipher XA (uPSK (core c))); simplify_eq. }
  unfold udpPacketNonceSize in *. st_lift ltac:(apply slice_eq; lia). rewrite Nat.sub_0_r, drop_0. st_lift ltac:(apply slice_from_eq; lia).
  destruct (@Open XA (uPSK (core c)) (take 24 d) (drop 24 d)) as [p|] eqn:Eo.
  2:{ eexists _, _. split; [done|]. apply fail_outcome; [|done || lia..]. apply N. unfold opened. rewrite Hb, decide_False by done. by rewrite Eo. }
  pose proof (@Open_length XA _ _ _ _ Eo) as Lp. rewrite length_drop, XA_tag in Lp.
  st_lift ltac:(apply slice_eq; lia). st_lift ltac:(apply slice_eq; lia). st_lift ltac:(apply slice_from_eq; lia). rewrite Nat.sub_0_r, drop_0. change (16 - 8)%nat with 8%nat.
  assert (Hop : opened (core c1) d = Some (take 8 p, be_get (take 8 (drop 8 p)), drop 16 p)).
  { rewrite E1. unfold opened. rewrite Hb, decide_False by done. by rewrite Eo. }
  destruct (decodePacketPayload (drop 16 p) now) as [[out addr]|e|] eqn:Ep; [| |by apply decodePacketPayload_total in Ep].
  2:{ eexists _, _. split; [done|]. apply fail_outcome; [|done || lia..]. intros ? ? ? (p' & Ep' & Ed'). rewrite E1 in Hop. rewrite Hop in Ep'. injection Ep' as <- <- <-. congruence. }
  st_lift ltac:(reflexivity).
  destruct (commit_ok T done now ev d c1 (take 8 p) (be_get (take 8 (drop 8 p))) (drop 16 p) (out, addr)) as (c' & r & Ec & O1 & O2 & O3 & O4); try done.
  { pose proof (be_get_range (take 8 (drop 8 p))) as R. rewrite length_take, length_drop in R. replace (8 `min` (length p - 8))%nat with 8%nat in R by lia.
    change (256 ^ Z.of_nat 8) with (2 ^ 64) in R. done. }
  exists c', r. split; [done|]. split; [congruence|]. split; [congruence|]. rewrite <- E1. by split.
Qed.

(** * Sending leaves the receiving side alone *)

Lemma keeps_bind {A B} (m : st UdpConn A) (f : A -> st UdpConn B) : keeps m -> (forall a, keeps (f a)) -> keeps (m ≫= f).
Proof.
  intros Hm Hf c Co Ci. specialize (Hm c Co Ci). unfold mbind, st_bind. destruct (m c) as [c1 [a|e|]]; cbn in *; [|done..].
  destruct Hm as (E1 & E2 & E3 & Ci1). destruct (Hf a c1) as (F1 & F2 & F3 & F4); [by rewrite E1|done|]. split_and!; congruence || done.
Qed.
Lemma keeps_pure {A} (m : st UdpConn A) : (forall c, (m c).1 = c) -> keeps m.
Proof. intros H c Co Ci. cbv zeta. by rewrite H. Qed.
Lemma keeps_tx {A} (m : st tx A) : keeps (on_tx m).
Proof. intros c Co Ci. unfold on_tx. destruct (m (txs c)). done. Qed.
Lemma keeps_ensure : keeps (ensureCipher XA DeriveKey).
Proof. intros c Co Ci. destruct (ensureCipher_ok c Co Ci) as (c' & r & -> & _ & E1 & E2 & E3 & Ci' & _ & _). done. Qed.
Hint Resolve keeps_bind keeps_pure keeps_tx keeps_ensure : go.

Lemma keeps_seal k b a d : keeps (seal_packet XA k b a d).
Proof. unfold seal_packet. eauto with go. Qed.
Hint Resolve keeps_seal : go.
Lemma keeps_WriteTo b addr d : keeps (WriteTo XA DeriveKey SplitHostPort ParseAddr b addr d).
Proof.
  unfold WriteTo. apply keeps_bind; [auto with go|]. intros k. apply keeps_bind; [auto with go|]. intros a. apply keeps_bind; [auto with go|]. intros p.
  apply keeps_bind; [auto with go|]. intros [n [e|]]; [by apply keeps_pure|]. apply keeps_pure. intros c. by case_decide.
Qed.
Lemma keeps_resolve items : keeps (resolve_all SplitHostPort ParseAddr items).
Proof. induction items as [|[b a] items IH]; cbn [resolve_all]; [by apply keeps_pure|]. apply keeps_bind; [auto with go|]. intros x. apply keeps_bind; [done|]. intros. by apply keeps_pure. Qed.
Lemma keeps_seal_all k items : forall addrs draws, keeps (seal_all XA k items addrs draws).
Proof.
  induction items as [|[b x] items IH]; intros [|a addrs] [|d draws]; cbn [seal_all]; try (by apply keeps_pure).
  apply keeps_bind; [auto with go|]. intros p. apply keeps_bind; [done|]. intros. by apply keeps_pure.
Qed.
Lemma keeps_send ps : forall n, keeps (send_each ps n).
Proof.
  induction ps as [|p ps IH]; intros n; cbn [send_each]; [by apply keeps_pure|]. apply keeps_bind; [auto with go|]. intros [m e]. cbv zeta.
  destruct e as [e|]; [by apply keeps_pure|]. case_decide; [by apply keeps_pure|done].
Qed.
Lemma keeps_WriteBatch items draws : keeps (WriteBatch XA DeriveKey SplitHostPort ParseAddr items draws).
Proof.
  unfold WriteBatch. case_decide; [by apply keeps_pure|]. apply keeps_bind; [auto with go|]. intros k. apply keeps_bind; [apply keeps_resolve|]. intros addrs.
  apply keeps_bind; [apply keeps_seal_all|]. intros ps. apply keeps_bind; [by apply keeps_pure|]. intros c. destruct (u_batch (txs c)); [auto with go|apply keeps_send].
Qed.

(** * Every order of events *)

(** A datagram for the push-mode receiver, one for [ReadFrom] with a slice of [k]
    bytes, a visit by a sweep that was started at [now], the two kinds of sending. *)
Inductive event :=
  | Push (d : list byte) (now ev : Z)
  | Recv (k : nat) (d : list byte) (now ev : Z)
  | Visit (now : Z) (key : list byte)
  | Send (b addr : list byte) (draw : list byte * Z)
  | SendBatch (items : list (list byte * list byte)) (draws : list (list byte * Z)).

(** What [ReadFrom] takes from the socket. *)
Definition read_size (co : SS2022Core) (k : nat) : nat :=
  if IsUsingBlockCipher co then (k + 16 + TagLen conf)%nat else (k + udpPacketNonceSize + TagLen conf + 320)%nat.

(** For a reception, the bytes taken from the socket and the result. *)
Definition step (e : event) (c : UdpConn) : UdpConn * list (list byte * res (list byte * AddrPort)) :=
  match e with
  | Push d now ev =>
      match mapReceivedPacket XA DeriveKey range (inl (d, AddrPortZero)) now ev c with
      | (c, Ret (inl x)) => (c, [(d, Ret x)])
      | (c, Ret (inr e)) => (c, [(d, Fail e)])
      | (c, Fail e) => (c, [(d, Fail e)])
      | (c, Panic) => (c, [(d, Panic)])
      end
  | Recv k d now ev => let '(c', r) := ReadFrom XA DeriveKey range k d now ev c in (c', [(take (read_size (core c) k) d, r)])
  | Visit now key => if decide (now ∈ sweeps (rxs c)) then ((on_rx (sweep now SaltStorageDuration key) c).1, []) else (c, [])
  | Send b addr draw => ((WriteTo XA DeriveKey SplitHostPort ParseAddr b addr draw c).1, [])
  | SendBatch items draws => ((WriteBatch XA DeriveKey SplitHostPort ParseAddr items draws c).1, [])
  end.
Fixpoint run (es : list event) (c : UdpConn) : UdpConn * list (list byte * res (list byte * AddrPort)) :=
  match es with
  | [] => (c, [])
  | e :: es => let '(c, l) := step e c in let '(c, l') := run es c in (c, l ++ l')
  end.

(** The wall clock does not go back. *)
Fixpoint ordered (T : Z) (es : list event) : Prop :=
  match es with
  | [] => True
  | (Push _ now ev | Recv _ _ now ev) :: es => T <= now /\ now <= ev /\ ordered ev es
  | _ :: es => ordered T es
  end.

(** The datagrams delivered. *)
Definition delivered (l : list (list byte * res (list byte * AddrPort))) : list (list byte) :=
  omap (fun x => match x.2 with Ret _ => Some x.1 | _ => None end) l.

(** A step: the connection stays correct, nothing panics, and what is delivered was
    not delivered within the storage duration. *)
Definition step_ok (T : Z) (done : list mark) (c c' : UdpConn) (l : list (list byte * res (list byte * AddrPort))) : Prop :=
  core c' = core c /\ Forall (fun x => x.2 <> Panic) l /\ exists done', conn_ok T (done' ++ done) c' /\
    forall d, delivered l = [d] -> exists sid id p t oa, opened (core c) d = Some (sid, id, p) /\ decodePacketPayload p t = Ret oa /\
      done' = [(sid, id, t)] /\ forall t', (sid, id, t') ∈ done -> SaltStorageDuration < t - t'.

Lemma outcome_step T done now ev d c c' r : outcome T done now ev d c c' r -> step_ok ev done c c' [(d, r)].
Proof.
  intros (E1 & _ & _ & [[[e ->] H]|(sid & id & p & oa & -> & Ho & Hp & H & F)]); (split; [done|]; split; [by repeat constructor|]).
  - exists []. done.
  - exists [(sid, id, now)]. split; [done|]. intros d' [= <-]. by exists sid, id, p, now, oa.
Qed.

(** The tail of [ReadFrom] may still turn a delivery into an error. *)
Lemma step_fail T done c c' d oa e : step_ok T done c c' [(d, Ret oa)] -> step_ok T done c c' [(d, Fail e)].
Proof. intros (E & _ & done' & H & _). split; [done|]. split; [by repeat constructor|]. by exists done'. Qed.
Lemma step_ret T done c c' d oa oa' : step_ok T done c c' [(d, Ret oa)] -> step_ok T done c c' [(d, Ret oa')].
Proof. intros (E & _ & done' & H & F). split; [done|]. split; [by repeat constructor|]. by exists done'. Qed.

Lemma keeps_step {A} (m : st UdpConn A) T done c : keeps m -> conn_ok T done c -> step_ok T done c (m c).1 [].
Proof.
  intros K [Co Ci Ca Ta]. destruct (K c Co Ci) as (E1 & E2 & E3 & Ci'). split; [done|]. split; [constructor|]. exists []. split; [|done].
  split; [by rewrite E1|done|by rewrite E1, E3|by rewrite E3].
Qed.

Lemma ReadFrom_step T done now ev k d c : conn_ok T done c -> T <= now -> now <= ev ->
  let '(c', r) := ReadFrom XA DeriveKey range k d now ev c in step_ok ev done c c' [(take (read_size (core c) k) d, r)].
Proof.
  intros Hc L Le. unfold ReadFrom, read_size. st_pure. destruct (IsUsingBlockCipher (core c)) eqn:Hb; cbn [negb].
  - destruct (decodeBlock_ok T done now ev (take (k + 16 + TagLen conf) d) c Hc Hb L Le) as (c' & r & E & O). apply outcome_step in O.
    destruct r as [[p a]|e|]; [rewrite (st_bind_Ret _ _ _ _ _ E)|rewrite (st_bind_Fail _ _ _ _ _ E)|exfalso; by destruct O as (_ & [? _]%Forall_cons & _)]; [|done]. by eapply step_ret.
  - unfold readFromChacha. destruct (ensureCipher_ok c (co_core _ _ _ Hc) (co_cipher _ _ _ Hc)) as (c1 & rk & E & Np & E1 & E2 & E3 & Ci1 & Hk & _).
    assert (Hc1 : conn_ok T done c1) by (destruct Hc; split; [by rewrite E1|done|by rewrite E1, E3|by rewrite E3]).
    destruct rk as [key|e|]; [rewrite (st_bind_Ret _ _ _ _ _ E)|rewrite (st_bind_Fail _ _ _ _ _ E)|done].
    2:{ split; [done|]. split; [by repeat constructor|]. exists []. split; [|done]. destruct Hc1; split; [done..|]. apply (table_later T); [lia|done]. }
    cbv zeta. destruct (decodeChacha_ok T done now ev (take (k + udpPacketNonceSize + TagLen conf + 320) d) c1 Hc1) as (c' & r & E' & O); [by rewrite E1|done|done|].
    apply outcome_step in O. assert (O' : step_ok ev done c c' [(take (k + udpPacketNonceSize + TagLen conf + 320) d, r)]).
    { destruct O as (F1 & F2 & F3). split; [congruence|]. split; [done|]. by rewrite <- E1. }
    destruct r as [[p a]|e|]; [rewrite (st_bind_Ret _ _ _ _ _ E')|rewrite (st_bind_Fail _ _ _ _ _ E')|exfalso; by destruct O' as (_ & [? _]%Forall_cons & _)]; [|done].
    case_decide; [by eapply step_fail|done].
Qed.

Lemma Push_step T done now ev d c : conn_ok T done c -> T <= now -> now <= ev -> let '(c', l) := step (Push d now ev) c in step_ok ev done c c' l.
Proof.
  intros Hc L Le. cbn [step]. unfold mapReceivedPacket. st_pure. unfold try.
  assert (exists c' r, (if IsUsingBlockCipher (core c) then decodeBlockPacket DeriveKey range d now ev else decodeChachaPacket XA DeriveKey range d now ev) c = (c', r) /\
    outcome T done now ev d c c' r) as (c' & r & -> & O).
  { destruct (IsUsingBlockCipher (core c)) eqn:Hb; [by apply decodeBlock_ok|by apply decodeChacha_ok]. }
  apply outcome_step in O. by destruct r as [oa|e|].
Qed.

(** Where the clock is after an event. *)
Definition clock_after (T : Z) (e : event) : Z := match e with Push _ _ ev | Recv _ _ _ ev => ev | _ => T end.

Lemma step_spec T done e es c : conn_ok T done c -> ordered T (e :: es) ->
  let '(c', l) := step e c in step_ok (clock_after T e) done c c' l /\ (length l <= 1)%nat /\ ordered (clock_after T e) es.
Proof.
  intros Hc Ho. destruct e as [d now ev|k d now ev|now key|b a dr|items drs]; cbn [ordered clock_after] in *.
  - destruct Ho as (L & Le & Ho). pose proof (Push_step T done now ev d c Hc L Le) as S. revert S. cbn [step].
    destruct (mapReceivedPacket _ _ _ _ _ _ _) as [c' [[x|e]|e|]]; intros S; (split; [done|]; split; [cbn; lia|done]).
  - destruct Ho as (L & Le & Ho). pose proof (ReadFrom_step T done now ev k d c Hc L Le) as S. revert S. cbn [step].
    destruct (ReadFrom _ _ _ _ _ _ _ _) as [c' r]; intros S; (split; [done|]; split; [cbn; lia|done]).
  - cbn [step]. case_decide as Hin.
    + pose proof Hc as [Co Ci Ca Ta]. assert (now <= T) by (by apply (proj1 (Forall_forall _ _) (to_sweeps _ _ _ Ta))).
      destruct (sweep_table T done (rxs c) key now Ta) as (r' & E & Ta' & D); [done|]. unfold on_rx. rewrite E. cbn [fst]. split; [|split; [cbn; lia|done]].
      split; [done|]. split; [constructor|]. exists []. split; [|done]. eapply conn_ok_rx; [done|by rewrite D|done].
    + split; [|split; [cbn; lia|done]]. split; [done|]. split; [constructor|]. by exists [].
  - cbn [step]. split; [|split; [cbn; lia|done]]. apply keeps_step; [apply keeps_WriteTo|done].
  - cbn [step]. split; [|split; [cbn; lia|done]]. apply keeps_step; [apply keeps_WriteBatch|done].
Qed.

(** A valid datagram with a packet ID above those of its session is delivered. *)
Lemma push_live T done now ev d c sid id oa : conn_ok T done c -> T <= now -> now <= ev -> valid (core c) d now sid id oa ->
  (forall id' t, (sid, id', t) ∈ done -> id' < id) ->
  exists c', step (Push d now ev) c = (c', [(d, Ret oa)]) /\ conn_ok ev ((sid, id, now) :: done) c' /\ core c' = core c.
Proof.
  intros Hc L Le V M. cbn [step]. unfold mapReceivedPacket. st_pure. unfold try.
  assert (exists c' r, (if IsUsingBlockCipher (core c) then decodeBlockPacket DeriveKey range d now ev else decodeChachaPacket XA DeriveKey range d now ev) c = (c', r) /\
    outcome T done now ev d c c' r) as (c' & r & -> & O).
  { destruct (IsUsingBlockCipher (core c)) eqn:Hb; [by apply decodeBlock_ok|by apply decodeChacha_ok]. }
  destruct O as (E1 & _ & Lv & O). rewrite (Lv sid id oa V M) in *. exists c'. split; [done|]. split; [|done].
  destruct O as [[[e ?] _]|(sid' & id' & p' & oa' & _ & Ho & _ & Hc' & _)]; [done|]. destruct V as (p & Ho' & _). rewrite Ho' in Ho. by injection Ho as <- <- <-.
Qed.

(** Every datagram of [log] was accepted, and when. *)
Definition logged (co : SS2022Core) (log : list (list byte)) (done : list mark) : Prop :=
  Forall (fun d => exists sid id p t oa, opened co d = Some (sid, id, p) /\ decodePacketPayload p t = Ret oa /\ (sid, id, t) ∈ done) log.

Lemma udp_run_ok es : forall T done log c, conn_ok T done c -> ordered T es -> logged (core c) log done ->
  let '(c', l) := run es c in
  core c' = core c /\ Forall (fun x => x.2 <> Panic) l /\ NoDup (delivered l) /\ (forall d, d ∈ log -> d ∉ delivered l) /\ exists T' done', conn_ok T' done' c'.
Proof.
  induction es as [|e es IH]; intros T done log c Hc Ho Hl; cbn [run].
  { split_and!; [done|constructor|constructor|by intros ? _ ?%not_elem_of_nil|by eauto]. }
  pose proof (step_spec T done e es c Hc Ho) as S. destruct (step e c) as [c1 l1]. destruct S as ((E1 & P1 & done' & Hc1 & D1) & Ll & Ho1).
  assert (Dl : delivered l1 = [] \/ exists d, delivered l1 = [d]).
  { destruct l1 as [|[d [oa|x|]] [|? ?]]; cbn in *; [by left|by right; eexists|lia|by left|lia|by left|lia]. }
  destruct Dl as [Dl|[d Dl]].
  - specialize (IH _ _ log c1 Hc1 Ho1). destruct (run es c1) as [c2 l2]. destruct IH as (E2 & P2 & N2 & F2 & X2).
    { rewrite E1. eapply Forall_impl; [exact Hl|]. cbn. intros d (sid & id & p & t & oa & H1 & H2 & H3). exists sid, id, p, t, oa. split_and!; [done..|]. apply elem_of_app. by right. }
    assert (Ed : delivered (l1 ++ l2) = delivered l2) by (unfold delivered in *; by rewrite omap_app, Dl). rewrite Ed. split_and!; [congruence|by apply Forall_app|done|done|done].
  - destruct (D1 d Dl) as (sid & id & p & t & oa & H1 & H2 & -> & F). specialize (IH _ _ (d :: log) c1 Hc1 Ho1). destruct (run es c1) as [c2 l2]. destruct IH as (E2 & P2 & N2 & F2 & X2).
    { rewrite E1. constructor; [exists sid, id, p, t, oa; split_and!; [done..|]; by left|].
      eapply Forall_impl; [exact Hl|]. cbn. intros d' (sid' & id' & p' & t' & oa' & H1' & H2' & H3'). exists sid', id', p', t', oa'. split_and!; [done..|]. by right. }
    assert (Ed : delivered (l1 ++ l2) = d :: delivered l2) by (unfold delivered in *; by rewrite omap_app, Dl). rewrite Ed.
    split_and!; [congruence|by apply Forall_app|constructor; [apply F2; by left|done]| |done].
    intros d' Hd' [-> |Hin]%elem_of_cons; [|by apply (F2 d'); [right|]].
    apply (proj1 (Forall_forall _ log) Hl) in Hd' as (sid' & id' & p' & t' & oa' & H1' & H2' & H3'). rewrite H1 in H1'. injection H1' as <- <- <-.
    pose proof (F _ H3'). pose proof (decode_both _ _ _ _ _ H2' H2). lia.
Qed.

Context (Sum512 : list byte -> list byte).

Lemma core_ok_New cf psks u co : NewSS2022Core Sum512 cf psks u = Ret co -> (length u <= 32)%nat -> core_ok co.
Proof.
  intros E L. unfold NewSS2022Core in E. case_decide; [done|]. case_decide; [done|].
  assert (exists be bd hs cs m, co = MkCore cf psks u be bd hs cs m /\ (hasBlock cf = true -> is_Some bd)) as (be & bd & hs & cs & m & -> & Hb); [|by split].
  destruct (hasBlock cf).
  - unfold newBlock in E. destruct (index psks 0) as [k| |]; [|done..]. rewrite bind_ret in E. destruct (NewBlock k); [done|]. rewrite bind_ret in E.
    destruct (NewBlock u); [done|]. rewrite !bind_ret in E. case_decide; [|injection E as <-; do 5 eexists; split; [done|by eexists]].
    destruct (identity_loop _ _ _) as [[hs cs]| |]; [|done..]. rewrite bind_ret in E. injection E as <-. do 5 eexists. split; [done|by eexists].
  - rewrite bind_ret in E. case_decide; [|injection E as <-; do 5 eexists; by split].
    destruct (identity_loop _ _ _) as [[hs cs]| |]; [|done..]. rewrite bind_ret in E. injection E as <-. do 5 eexists. by split.
Qed.

Lemma conn_ok_New T co sid batch plan : core_ok co -> conn_ok T [] (NewUdpConn co sid batch plan).
Proof.
  intros Co. split; [done|done|split; [cbn; rewrite map_size_empty; lia|apply map_Forall_empty]|].
  split; [done|constructor|constructor|apply map_Forall_empty|by intros ? ? ? ?%not_elem_of_nil].
Qed.

(** C1: No datagram is delivered twice.  Whatever arrives, in whatever order, on a new
    connection of a valid profile, with sends, push-mode receptions, reads and the
    visits of background sweeps interleaved in any way and a wall clock that does not
    go back: the datagrams delivered are pairwise different, however long the run
    (copies later than the stored windows fail the timestamp check), no reception
    panics, the cache of session ciphers stays within its cap and the counter of
    tracked sessions is exact. *)
Theorem ss2022_udp_at_most_once cf psks u co sid batch plan T es : NewSS2022Core Sum512 cf psks u = Ret co -> (length u <= 32)%nat -> ordered T es ->
  let '(c, l) := run es (NewUdpConn co sid batch plan) in
  NoDup (delivered l) /\ Forall (fun x => x.2 <> Panic) l /\
  (size (decryptCiphers (rxs c)) <= maxDecryptCipherEntries)%nat /\ replayCount (rxs c) = Z.of_nat (size (replayWindow (rxs c))).
Proof.
  intros E L Ho. assert (H0 : conn_ok T [] (NewUdpConn co sid batch plan)) by (apply conn_ok_New; by eapply core_ok_New).
  pose proof (udp_run_ok es T [] [] _ H0 Ho (Forall_nil_2 _)) as R. destruct (run es _) as [c l]. destruct R as (_ & P & N & _ & T' & done' & [_ _ [S _] Ta]).
  split_and!; [done|done|done|apply Ta].
Qed.
End replay.
