(* ===== verification/Ss22Wire.v ===== *)
(** Shadowsocks 2022 datagrams on the wire: what is sealed, with packet IDs that
    never repeat, and what is delivered. *)

From S2P Require Import Prelude GoStrings NetIP GoState Common Pool Transport SsKey SlidingWindow Ss22Core Ss22Udp Ss22Replay.
From Stdlib Require Import Strings.Byte.

(** [append(packet[:n], x...)] where [x] and what it replaces end the packet. *)
Lemma append_at_end (a b x : list byte) : (length x = length b)%nat -> append_at (a ++ b) (length a) x = a ++ x.
Proof.
  intros L. unfold append_at. rewrite length_app, decide_True by lia. rewrite take_app_length, drop_ge by (rewrite length_app; lia). by rewrite app_nil_r.
Qed.
Lemma slice_all (l : list byte) n : n = length l -> slice l 0 n = Ret l.
Proof. intros ->. rewrite slice_eq by lia. by rewrite Nat.sub_0_r, drop_0, firstn_all. Qed.

Section wire.
Context {BC : BlockCipher} (XA : AEAD) {CA : AEAD} {BS : BufferSource}.
Context (DeriveKey : list byte -> list byte -> nat -> list byte).
Context (Sum512 : list byte -> list byte) (Sum512_length : forall m, length (Sum512 m) = 64%nat).
Context (XA_tag : TagLen (@conf XA) = TagLen conf).

(** * Sending *)

Definition client_message (a : AddressInfo) (now : Z) (b : list byte) : list byte :=
  HeaderTypeClientStream :: be_put 8 (now / 10 ^ 9) ++ be16 0 ++ ai_bytes a ++ b.
Definition header16 (sid : list byte) (id : Z) : list byte := sid ++ be_put 8 id.

Lemma length_client_message a now b : length (client_message a now b) = (11 + length (ai_bytes a) + length b)%nat.
Proof. unfold client_message. cbn [length]. rewrite !length_app, !length_be_put. lia. Qed.

Lemma fill_message_ok message front b a now : ai_ok a -> length message = (length front + (11 + length (ai_bytes a) + length b))%nat ->
  fill_message message front b a now = Ret (front ++ client_message a now b).
Proof.
  intros Ha L. unfold fill_message. rewrite write_at_0 by lia. rewrite bind_ret. cbv zeta.
  rewrite set_at_app, bind_ret by (rewrite ?length_drop; done || lia).
  rewrite write_at_app, bind_ret by (rewrite ?length_app, ?length_drop, ?length_be_put; cbn [length]; lia). rewrite length_be_put.
  rewrite write_at_app, bind_ret by (rewrite ?length_app, ?length_drop, ?length_be_put; cbn [length]; lia). rewrite length_be_put.
  rewrite slice_from_app, bind_ret by (rewrite ?length_app, ?length_be_put; cbn [length]; lia).
  rewrite writeAddrInfoTo_ok by (done || rewrite !length_drop; lia). cbn [wrap_res]. rewrite bind_ret.
  rewrite take_app_length' by (rewrite ?length_app, ?length_be_put; cbn [length]; lia). rewrite app_assoc.
  rewrite copy_at_app by (rewrite ?length_app, ?length_drop, ?length_be_put; cbn [length]; lia). rewrite bind_ret. rewrite (drop_ge _ (length b)), app_nil_r by (rewrite !length_drop; lia).
  f_equal. unfold client_message. by rewrite <- !app_assoc.
Qed.

(** The keys of a profile of the table. *)
Record profile_ok (cf : CipherConf2022) (psks : list (list byte)) (u : list byte) : Prop := {
  pr_psks : psks <> [];
  pr_keys : Forall psk_ok psks;
  pr_user : psk_ok u;
  pr_eih : eihBlockSize cf = 16%nat;
  pr_block : hasBlock cf = true \/ length psks = 1%nat;
}.

Definition block_packet (psks : list (list byte)) (k sid : list byte) (id : Z) (a : AddressInfo) (now : Z) (b : list byte) : list byte :=
  BEncrypt (nth 0 psks []) (header16 sid id) ++ identities Sum512 (header16 sid id) psks ++ Seal k (drop 4 (header16 sid id)) (client_message a now b).
Definition chacha_packet (k nonce sid : list byte) (id : Z) (a : AddressInfo) (now : Z) (b : list byte) : list byte :=
  nonce ++ @Seal XA k nonce (header16 sid id ++ client_message a now b).

Lemma sealBlock_ok cf psks u c k b a id now : profile_ok cf psks u -> hasBlock cf = true -> core c = core_of Sum512 cf psks u -> length (sessionID c) = 8%nat -> ai_ok a ->
  sealBlockPacket c k b a id now = Ret (block_packet psks k (sessionID c) id a now b).
Proof.
  intros P Hb Ec Ls Ha. unfold sealBlockPacket. rewrite (ai_len a Ha). cbn [wrap_res]. rewrite bind_ret, copy_at_0, bind_ret by (rewrite length_replicate; lia).
  rewrite write_at_app, bind_ret by (rewrite ?length_drop, ?length_replicate, ?length_be_put; lia). rewrite length_be_put, drop_drop, drop_ge, app_nil_r by (rewrite length_replicate; lia).
  fold (header16 (sessionID c) id). set (sep := header16 (sessionID c) id). assert (Lsep : length sep = 16%nat) by (unfold sep, header16; rewrite length_app, length_be_put; lia).
  destruct psks as [|k0 psks]; [by destruct P|]. rewrite Ec. cbn [core_of blockCipherEncrypt]. rewrite Hb. cbn [lookup list_lookup]. rewrite bind_ret. cbv zeta.
  rewrite IdentityHeaderLen_ok by apply P. set (n := (16 * (length (k0 :: psks) - 1))%nat). rewrite !BEncrypt_length. set (ml := (_ + length b)%nat).
  rewrite copy_at_0 by (rewrite src_length, BEncrypt_length; lia). rewrite bind_ret, BEncrypt_length, slice_from_app, bind_ret by (by rewrite BEncrypt_length).
  rewrite (WriteIdentityHeader_ok Sum512 Sum512_length) by (try apply P; rewrite ?length_drop, ?src_length; (done || (unfold n; lia))). cbn [wrap_res]. rewrite bind_ret, take_app_length' by (by rewrite BEncrypt_length).
  fold n. rewrite drop_drop, app_assoc. set (pre := BEncrypt k0 sep ++ identities Sum512 sep (k0 :: psks)).
  assert (Lpre : length pre = (16 + n)%nat) by (unfold pre; rewrite length_app, BEncrypt_length, (length_identities Sum512); done).
  set (rest := drop (16 + n) (src_get _)). assert (Lr : length rest = (ml + TagLen conf)%nat) by (unfold rest; rewrite length_drop, src_length; lia).
  rewrite (slice_eq (pre ++ rest)) by (rewrite ?length_app; lia). rewrite bind_ret, add_sub_cancel, drop_app_length' by done.
  rewrite fill_message_ok by (done || rewrite length_take, Lr; unfold ml; cbn [length]; lia). rewrite bind_ret. cbn [app].
  assert (Lm : length (client_message a now b) = ml) by (rewrite length_client_message; unfold ml; lia).
  rewrite write_at_app, bind_ret by lia. rewrite (slice_eq sep), bind_ret by lia. change (take (16 - 4) (drop 4 sep)) with (take 12 (drop 4 sep)).
  rewrite (firstn_all2 (drop 4 sep)) by (rewrite length_drop, Lsep; lia). rewrite <- app_assoc, <- Lpre, append_at_end by (rewrite Seal_length, length_app, length_drop, Lr, Lm; lia).
  rewrite slice_all by (rewrite length_app, Seal_length, Lm; lia). unfold block_packet. fold sep. unfold pre. by rewrite <- app_assoc.
Qed.

Lemma sealChacha_ok c k nonce b a id now : length (sessionID c) = 8%nat -> length nonce = 24%nat -> ai_ok a ->
  sealChachaPacket XA c k nonce b a id now = Ret (chacha_packet k nonce (sessionID c) id a now b).
Proof.
  intros Ls Ln Ha. unfold sealChachaPacket, udpPacketNonceSize. rewrite (ai_len a Ha). cbn [wrap_res]. rewrite bind_ret. cbv zeta. set (ml := (_ + length b)%nat).
  rewrite write_at_0 by (rewrite src_length; lia). rewrite bind_ret, Ln. set (rest := drop 24 (src_get _)).
  assert (Lr : length rest = (ml + TagLen conf)%nat) by (unfold rest; rewrite length_drop, src_length; lia).
  rewrite (slice_eq (nonce ++ rest)) by (rewrite ?length_app; lia). rewrite bind_ret, add_sub_cancel, drop_app_length' by done. fold (header16 (sessionID c) id).
  assert (Lh : length (header16 (sessionID c) id) = 16%nat) by (unfold header16; rewrite length_app, length_be_put; lia).
  rewrite fill_message_ok by (done || rewrite length_take, Lr, Lh; unfold ml; lia). rewrite bind_ret. set (msg := header16 _ _ ++ _).
  assert (Lm : length msg = ml) by (unfold msg; rewrite length_app, length_client_message, Lh; unfold ml; lia).
  rewrite write_at_app, bind_ret by lia. rewrite <- app_assoc, slice_prefix, bind_ret by done. rewrite <- Ln at 1. rewrite append_at_end by (rewrite Seal_length, length_app, length_drop, Lr, Lm, XA_tag; lia).
  apply slice_all. unfold chacha_packet. fold msg. rewrite length_app, Seal_length, Lm. lia.
Qed.

(** ** Sequences of sends *)

Context (SplitHostPort : list byte -> res (list byte * list byte)) (ParseAddr : list byte -> option Addr).

(** One datagram: its packet ID, target, draws and payload. *)
Record sealed := MkSealed { s_id : Z; s_addr : AddressInfo; s_draw : list byte * Z; s_data : list byte }.

(** A request: payload, address text, draws, and the target the text stands for. *)
Record request := MkReq { q_data : list byte; q_text : list byte; q_draw : list byte * Z; q_addr : AddressInfo }.
Definition request_ok (q : request) : Prop := AddressFromString SplitHostPort ParseAddr (q_text q) = Ret (q_addr q) /\ ai_ok (q_addr q) /\ length (q_draw q).1 = 24%nat.
Definition item (q : request) : list byte * list byte := (q_data q, q_text q).

(** The requests numbered from [n + 1]. *)
Fixpoint stamp (n : Z) (qs : list request) : list sealed :=
  match qs with [] => [] | q :: qs => MkSealed (n + 1) (q_addr q) (q_draw q) (q_data q) :: stamp (n + 1) qs end.

Inductive send := One (q : request) | Many (qs : list request).
Definition requests (s : send) : list request := match s with One q => [q] | Many qs => qs end.
Definition do_send (s : send) (c : UdpConn) : UdpConn * option nat :=
  match s with
  | One q => match WriteTo XA DeriveKey SplitHostPort ParseAddr (q_data q) (q_text q) (q_draw q) c with (c, Ret n) => (c, Some n) | (c, _) => (c, None) end
  | Many qs => match WriteBatch XA DeriveKey SplitHostPort ParseAddr (item <$> qs) (q_draw <$> qs) c with (c, Ret (n, None)) => (c, Some n) | (c, _) => (c, None) end
  end.
(** What a successful send reports: the bytes of one payload, the number of a batch. *)
Definition full (s : send) : nat := match s with One q => length (q_data q) | Many qs => length qs end.
Fixpoint do_sends (ss : list send) (c : UdpConn) : UdpConn * list (option nat) :=
  match ss with [] => (c, []) | s :: ss => let '(c, r) := do_send s c in let '(c, rs) := do_sends ss c in (c, r :: rs) end.

Lemma length_stamp qs : forall n, length (stamp n qs) = length qs.
Proof. induction qs as [|q qs IH]; intros n; [done|]. cbn. by rewrite IH. Qed.
Lemma stamp_app qs qs' : forall n, stamp n (qs ++ qs') = stamp n qs ++ stamp (n + Z.of_nat (length qs)) qs'.
Proof. induction qs as [|q qs IH]; intros n; cbn; [by rewrite Z.add_0_r|]. rewrite IH. by replace (n + 1 + Z.of_nat (length qs)) with (n + Z.of_nat (S (length qs))) by lia. Qed.
Lemma stamp_ids qs : forall n, Forall (fun x => n < s_id x <= n + Z.of_nat (length qs)) (stamp n qs) /\ NoDup (s_id <$> stamp n qs).
Proof.
  induction qs as [|q qs IH]; intros n; cbn [stamp length]; [split; constructor|]. destruct (IH (n + 1)) as [F N]. split.
  - constructor; [cbn; lia|]. eapply Forall_impl; [exact F|]. cbn. lia.
  - rewrite fmap_cons. constructor; [|done]. intros (x & E & Hx)%list_elem_of_fmap. apply (proj1 (Forall_forall _ _) F) in Hx. cbn in *. lia.
Qed.
Lemma stamp_addrs qs : forall n, Forall request_ok qs -> Forall (fun x => ai_ok (s_addr x) /\ length (s_draw x).1 = 24%nat) (stamp n qs).
Proof. induction qs as [|q qs IH]; intros n Hq; cbn [stamp]; constructor; apply Forall_cons in Hq as [Hq Hqs]; [split; apply Hq|by apply IH]. Qed.

Section conn.
Context (cf : CipherConf2022) (psks : list (list byte)) (u k sid : list byte) (P : profile_ok cf psks u) (Lsid : length sid = 8%nat).

Definition packet_of (x : sealed) : list byte :=
  if hasBlock cf then block_packet psks k sid (s_id x) (s_addr x) (s_draw x).2 (s_data x)
  else chacha_packet k (s_draw x).1 sid (s_id x) (s_addr x) (s_draw x).2 (s_data x).

(** The connection after [n] packet IDs, having sent [xs]. *)
Record sending (n : Z) (plan0 : list (nat * option error)) (xs : list sealed) (c : UdpConn) : Prop := {
  sg_core : core c = core_of Sum512 cf psks u;
  sg_sid : sessionID c = sid;
  sg_key : newSessionCipher XA DeriveKey c = Ret k;
  sg_cipher : cipher c = None \/ cipher c = Some (inl k);
  sg_id : packetID (txs c) = n;
  sg_cache : forall t a, targetCache (txs c) = Some (t, a) -> AddressFromString SplitHostPort ParseAddr t = Ret a;
  sg_sent : u_sent (txs c) = packet_of <$> xs;
  sg_plan : plan0 = [] -> u_plan (txs c) = [];
}.

Lemma sending_ensure n p0 xs c : sending n p0 xs c -> exists c', ensureCipher XA DeriveKey c = (c', Ret k) /\ sending n p0 xs c'.
Proof.
  intros [H1 H2 H3 H4 H5 H6 H7 H8]. unfold ensureCipher. st_pure. destruct H4 as [E|E]; rewrite E; [|exists c; split; [done|by split; auto]].
  rewrite H3. eexists. split; [done|]. split; cbn; auto.
Qed.

Lemma sending_tx n n' p0 xs xs' c t : sending n p0 xs c -> packetID t = n' -> (forall x a, targetCache t = Some (x, a) -> AddressFromString SplitHostPort ParseAddr x = Ret a) ->
  u_sent t = packet_of <$> xs' -> (p0 = [] -> u_plan t = []) -> sending n' p0 xs' (set_tx t c).
Proof. intros [H1 H2 H3 H4 H5 H6 H7 H8] ? ? ? ?. by split. Qed.

Lemma sending_target n p0 xs c q : sending n p0 xs c -> request_ok q ->
  exists c', on_tx (wrapErr "fail to parse target address" (targetAddrInfo SplitHostPort ParseAddr (q_text q))) c = (c', Ret (q_addr q)) /\ sending n p0 xs c'.
Proof.
  intros Hs [Eq _]. pose proof Hs as [H1 H2 H3 H4 H5 H6 H7 H8]. unfold on_tx, wrapErr, targetAddrInfo. rewrite (st_bind_Ret _ _ _ (txs c) (txs c)) by done.
  unfold LastStringValue_Load. destruct (targetCache (txs c)) as [[t a]|] eqn:E.
  - case_decide as D.
    + subst t. specialize (H6 _ _ eq_refl). rewrite Eq in H6. injection H6 as ->. exists c. split; [by destruct c|done].
    + rewrite Eq. eexists. split; [done|]. eapply sending_tx; [done|done|by intros ? ? [= <- <-]|done|done].
  - rewrite Eq. eexists. split; [done|]. eapply sending_tx; [done|done|by intros ? ? [= <- <-]|done|done].
Qed.

Lemma sending_seal n p0 xs c q : sending n p0 xs c -> request_ok q -> n + 1 < 2 ^ 64 -> 0 <= n ->
  exists c', seal_packet XA k (q_data q) (q_addr q) (q_draw q) c = (c', Ret (packet_of (MkSealed (n + 1) (q_addr q) (q_draw q) (q_data q)))) /\ sending (n + 1) p0 xs c'.
Proof.
  intros Hs (_ & Ha & Ln) Hn Hn0. pose proof Hs as [H1 H2 H3 H4 H5 H6 H7 H8]. unfold seal_packet.
  set (c1 := set_tx (MkTx (n + 1) (targetCache (txs c)) (u_batch (txs c)) (u_sent (txs c)) (u_plan (txs c))) c).
  assert (Hs1 : sending (n + 1) p0 xs c1) by (eapply sending_tx; done). pose proof (sg_sid _ _ _ _ Hs1) as S1.
  rewrite (st_bind_Ret _ _ _ c1 (n + 1)). 2:{ unfold on_tx, nextPacketID. st_pure. st_pure. cbn. by rewrite H5, word_small by lia. }
  st_pure. exists c1. split; [|done]. unfold lift. f_equal. unfold packet_of, IsUsingBlockCipher. cbn [core c1 set_tx s_id s_addr s_draw s_data]. rewrite H1. cbn [core_of cipherConf].
  destruct (hasBlock cf) eqn:Hb.
  - rewrite (sealBlock_ok cf psks u) by (done || by rewrite S1). by rewrite S1.
  - rewrite sealChacha_ok by (done || by rewrite S1). by rewrite S1.
Qed.

Lemma sending_resolve n p0 xs qs : forall c, sending n p0 xs c -> Forall request_ok qs ->
  exists c', resolve_all SplitHostPort ParseAddr (item <$> qs) c = (c', Ret (q_addr <$> qs)) /\ sending n p0 xs c'.
Proof.
  induction qs as [|q qs IH]; intros c Hs Hq; [by exists c|]. apply Forall_cons in Hq as [Hq Hqs]. rewrite !fmap_cons. unfold item at 1. cbn [resolve_all].
  destruct (sending_target n p0 xs c q Hs Hq) as (c1 & E1 & H1). st_call E1. destruct (IH c1 H1 Hqs) as (c2 & E2 & H2). st_call E2. by exists c2.
Qed.

Lemma sending_seal_all p0 xs qs : forall n c, sending n p0 xs c -> Forall request_ok qs -> 0 <= n -> n + Z.of_nat (length qs) < 2 ^ 64 ->
  exists c', seal_all XA k (item <$> qs) (q_addr <$> qs) (q_draw <$> qs) c = (c', Ret (packet_of <$> stamp n qs)) /\ sending (n + Z.of_nat (length qs)) p0 xs c'.
Proof.
  induction qs as [|q qs IH]; intros n c Hs Hq Hn0 Hn; [exists c; by rewrite Z.add_0_r|]. apply Forall_cons in Hq as [Hq Hqs]. rewrite !fmap_cons. unfold item at 1. cbn [seal_all stamp length] in *.
  destruct (sending_seal n p0 xs c q Hs Hq) as (c1 & E1 & H1); [lia..|]. st_call E1. destruct (IH (n + 1) c1 H1 Hqs) as (c2 & E2 & H2); [lia..|]. st_call E2. exists c2.
  split; [done|]. by replace (n + Z.of_nat (S (length qs))) with (n + 1 + Z.of_nat (length qs)) by lia.
Qed.

Lemma sending_write n p0 xs c x : sending n p0 xs c -> exists c' m e ys, on_tx (sock_Write (packet_of x)) c = (c', Ret (m, e)) /\
  sending n p0 (xs ++ ys) c' /\ ys `sublist_of` [x] /\ (p0 = [] -> ys = [x] /\ m = length (packet_of x) /\ e = None).
Proof.
  intros Hs. pose proof Hs as [H1 H2 H3 H4 H5 H6 H7 H8]. unfold on_tx, sock_Write. destruct (u_plan (txs c)) as [|[m e] plan] eqn:E.
  - do 3 eexists. exists [x]. split; [done|]. split; [|done]. eapply sending_tx; [done|done|done| |done]. cbn. by rewrite H7, fmap_app.
  - exists (set_tx (MkTx (packetID (txs c)) (targetCache (txs c)) (u_batch (txs c)) (u_sent (txs c) ++ match e with None => [packet_of x] | Some _ => [] end) plan) c), m, e,
      (match e with None => [x] | Some _ => [] end). split; [done|]. split; [|split; [destruct e; [by apply sublist_nil_l|done]|intros ?%H8; done]].
    eapply sending_tx; [done|done|done| |intros ?%H8; done]. cbn. rewrite H7, fmap_app. by destruct e.
Qed.

Lemma sending_each n p0 zs : forall xs i c, sending n p0 xs c -> exists c' m e ys, send_each (packet_of <$> zs) i c = (c', Ret (m, e)) /\
  sending n p0 (xs ++ ys) c' /\ ys `sublist_of` zs /\ (p0 = [] -> ys = zs /\ m = (i + length zs)%nat /\ e = None).
Proof.
  induction zs as [|z zs IH]; intros xs i c Hs; cbn [send_each fmap list_fmap].
  { do 3 eexists. exists []. split; [done|]. rewrite app_nil_r. split; [done|]. split; [done|]. intros _. by rewrite Nat.add_0_r. }
  destruct (sending_write n p0 xs c z Hs) as (c1 & m & e & ys & E1 & H1 & S1 & G1). st_call E1.
  assert (St : forall er : error, (p0 <> []) -> exists c' m0 e0 ys0, (mret (i, Some er) : st UdpConn (nat * option error)) c1 = (c', Ret (m0, e0)) /\ sending n p0 (xs ++ ys0) c' /\ ys0 `sublist_of` (z :: zs) /\
    (p0 = [] -> ys0 = z :: zs /\ m0 = (i + length (z :: zs))%nat /\ e0 = None)).
  { intros er Np. do 3 eexists. exists ys. split; [done|]. split; [done|]. split; [etrans; [exact S1|]; apply (sublist_app [z] [z] [] zs); [done|apply sublist_nil_l]|done]. }
  destruct e as [er|]; [apply St; intros N; by destruct (G1 N) as (_ & _ & ?)|].
  case_decide as D; [apply St; intros N; destruct (G1 N) as (_ & -> & _); lia|].
  destruct (IH (xs ++ ys) (S i) c1 H1) as (c2 & m2 & e2 & ys2 & E2 & H2 & S2 & G2). exists c2, m2, e2, (ys ++ ys2). split; [done|]. rewrite app_assoc. split; [done|].
  split; [by apply (sublist_app ys [z] ys2 zs)|]. intros N. destruct (G1 N) as (-> & _ & _). destruct (G2 N) as (-> & -> & ->). split; [done|]. split; [cbn; lia|done].
Qed.

Lemma sending_batch n p0 xs c zs : sending n p0 xs c -> exists c' m e ys, on_tx (sock_WriteBatch (packet_of <$> zs)) c = (c', Ret (m, e)) /\
  sending n p0 (xs ++ ys) c' /\ ys `sublist_of` zs /\ (p0 = [] -> ys = zs /\ m = length zs /\ e = None).
Proof.
  intros Hs. pose proof Hs as [H1 H2 H3 H4 H5 H6 H7 H8]. unfold on_tx, sock_WriteBatch. destruct (u_plan (txs c)) as [|[m e] plan] eqn:E.
  - do 3 eexists. exists zs. split; [done|]. split; [|split; [done|by rewrite length_fmap]]. eapply sending_tx; [done|done|done| |done]. cbn. by rewrite H7, fmap_app.
  - do 3 eexists. exists (take m zs). split; [done|]. split; [|split; [apply sublist_take|intros ?%H8; done]]. eapply sending_tx; [done|done|done| |intros ?%H8; done].
    cbn. by rewrite H7, fmap_app, fmap_take.
Qed.


Lemma do_send_ok n p0 xs c s : sending n p0 xs c -> Forall request_ok (requests s) -> 0 <= n -> n + Z.of_nat (length (requests s)) < 2 ^ 64 ->
  let '(c', r) := do_send s c in exists ys, sending (n + Z.of_nat (length (requests s))) p0 (xs ++ ys) c' /\ ys `sublist_of` stamp n (requests s) /\
    (p0 = [] -> ys = stamp n (requests s) /\ r = Some (full s)).
Proof.
  intros Hs Hq Hn0 Hn. destruct s as [q|qs]; cbn [requests do_send full length] in *.
  - apply Forall_cons in Hq as [Hq _]. unfold WriteTo. destruct (sending_ensure n p0 xs c Hs) as (c1 & E1 & H1). st_call E1.
    destruct (sending_target n p0 xs c1 q H1 Hq) as (c2 & E2 & H2). st_call E2. destruct (sending_seal n p0 xs c2 q H2 Hq) as (c3 & E3 & H3); [lia..|]. st_call E3.
    destruct (sending_write (n + 1) p0 xs c3 (MkSealed (n + 1) (q_addr q) (q_draw q) (q_data q)) H3) as (c4 & m & e & ys & E4 & H4 & S4 & G4). st_call E4.
    destruct e as [e|]; [exists ys; split; [done|]; split; [done|]; intros N; by destruct (G4 N) as (_ & _ & ?)|]. destruct (decide (m < _)%nat) as [D|D]; cbn.
    + exists ys. split; [done|]. split; [done|]. intros N. destruct (G4 N) as (_ & -> & _). lia.
    + exists ys. split; [done|]. split; [done|]. intros N. by destruct (G4 N) as (-> & _).
  - unfold WriteBatch. case_decide as D.
    { assert (qs = []) as -> by (by destruct qs). exists []. rewrite app_nil_r, Z.add_0_r. done. }
    destruct (sending_ensure n p0 xs c Hs) as (c1 & E1 & H1). st_call E1. destruct (sending_resolve n p0 xs qs c1 H1 Hq) as (c2 & E2 & H2). st_call E2.
    destruct (sending_seal_all p0 xs qs n c2 H2 Hq Hn0 Hn) as (c3 & E3 & H3). st_call E3. st_pure. destruct (u_batch (txs c3)).
    + destruct (sending_batch _ p0 xs c3 (stamp n qs) H3) as (c4 & m & e & ys & E4 & H4 & S4 & G4). rewrite E4. destruct e as [e|]; exists ys; (split; [done|]; split; [done|]; intros N);
        destruct (G4 N) as (-> & -> & ?); [done|]. by rewrite length_stamp.
    + destruct (sending_each _ p0 (stamp n qs) xs 0 c3 H3) as (c4 & m & e & ys & E4 & H4 & S4 & G4). rewrite E4. destruct e as [e|]; exists ys; (split; [done|]; split; [done|]; intros N);
        destruct (G4 N) as (-> & -> & ?); [done|]. by rewrite length_stamp.
Qed.


Lemma do_sends_ok p0 ss : forall n xs c, sending n p0 xs c -> Forall request_ok (ss ≫= requests) -> 0 <= n -> n + Z.of_nat (length (ss ≫= requests)) < 2 ^ 64 ->
  let '(c', rs) := do_sends ss c in exists ys, sending (n + Z.of_nat (length (ss ≫= requests))) p0 (xs ++ ys) c' /\ ys `sublist_of` stamp n (ss ≫= requests) /\
    (p0 = [] -> ys = stamp n (ss ≫= requests) /\ rs = (fun s => Some (full s)) <$> ss).
Proof.
  induction ss as [|s ss IH]; intros n xs c Hs Hq Hn0 Hn; cbn [do_sends].
  { exists []. rewrite app_nil_r. cbn. rewrite Z.add_0_r. done. }
  rewrite bind_cons in *. apply Forall_app in Hq as [Hq Hqs]. rewrite length_app in Hn. pose proof (do_send_ok n p0 xs c s Hs Hq Hn0 ltac:(lia)) as D. destruct (do_send s c) as [c1 r].
  destruct D as (ys & H1 & S1 & G1). specialize (IH _ _ c1 H1 Hqs ltac:(lia) ltac:(lia)). destruct (do_sends ss c1) as [c2 rs]. destruct IH as (ys2 & H2 & S2 & G2).
  exists (ys ++ ys2). rewrite length_app, app_assoc, stamp_app. split; [by replace (n + Z.of_nat (length (requests s) + length (ss ≫= requests))) with (n + Z.of_nat (length (requests s)) + Z.of_nat (length (ss ≫= requests))) by lia|].
  split; [by apply sublist_app|]. intros N. destruct (G1 N) as (-> & ->). by destruct (G2 N) as (-> & ->).
Qed.

(** *** What a server with the keys reads in a packet *)

Definition read_message (m : list byte) : option (AddressInfo * list byte) :=
  match m with
  | t :: rest =>
      if decide (t = HeaderTypeClientStream) then
        match ReadAddrInfo (drop (10 + Z.to_nat (be_get (take 2 (drop 8 rest)))) rest) with (payload, Ret a) => Some (a, payload) | _ => None end
      else None
  | [] => None
  end.
(** Session, packet ID, target and payload. *)
Definition server_open (p : list byte) : option (list byte * Z * (AddressInfo * list byte)) :=
  if hasBlock cf then
    let head := BDecrypt (nth 0 psks []) (take 16 p) in
    match CreateCipher DeriveKey u (take 8 head) with
    | Ret key => m ← Open key (drop 4 head) (drop (16 * length psks) p); x ← read_message m; Some (take 8 head, be_get (drop 8 head), x)
    | _ => None
    end
  else m ← @Open XA u (take 24 p) (drop 24 p); x ← read_message (drop 16 m); Some (take 8 m, be_get (take 8 (drop 8 m)), x).

Lemma read_client_message a now b : ai_ok a -> read_message (client_message a now b) = Some (a, b).
Proof.
  intros Ha. unfold client_message, read_message. rewrite decide_True by done. rewrite (drop_app_length' (be_put 8 _) _ 8) by (by rewrite length_be_put). rewrite take_app_length' by (by rewrite length_be_put).
  change (Z.to_nat (be_get (be16 0))) with 0%nat. rewrite Nat.add_0_r, app_assoc, drop_app_length' by (by rewrite length_app, !length_be_put). by rewrite ReadAddrInfo_ok.
Qed.

Lemma server_open_ok x : (hasBlock cf = true -> CreateCipher DeriveKey u sid = Ret k) -> (hasBlock cf = false -> k = u) -> ai_ok (s_addr x) -> 0 <= s_id x < 2 ^ 64 ->
  length (s_draw x).1 = 24%nat -> server_open (packet_of x) = Some (sid, s_id x, (s_addr x, s_data x)).
Proof.
  intros Hk Hk' Ha Hid Ln. unfold server_open, packet_of. set (h := header16 sid (s_id x)).
  assert (T8 : take 8 h = sid) by (unfold h, header16; by rewrite take_app_length'). assert (D8 : drop 8 h = be_put 8 (s_id x)) by (unfold h, header16; by rewrite drop_app_length').
  assert (Lh : length h = 16%nat) by (unfold h, header16; rewrite length_app, length_be_put; lia). assert (G8 : be_get (be_put 8 (s_id x)) = s_id x) by (apply be_get_put_small; done).
  destruct (hasBlock cf).
  - unfold block_packet. fold h. rewrite take_app_length' by (by rewrite BEncrypt_length). rewrite BDecrypt_Encrypt by done. cbv zeta. rewrite T8, D8, Hk by done.
    assert (Lp : length (BEncrypt (nth 0 psks []) h ++ identities Sum512 h psks) = (16 * length psks)%nat).
    { rewrite length_app, BEncrypt_length, (length_identities Sum512). destruct psks; [by destruct P|]. cbn [length]. lia. }
    rewrite app_assoc, drop_app_length' by done. rewrite Open_Seal. cbn [mbind option_bind]. rewrite read_client_message by done. cbn [mbind option_bind]. by rewrite G8.
  - unfold chacha_packet. fold h. rewrite Hk' by done. rewrite take_app_length', drop_app_length' by done. rewrite Open_Seal. cbn [mbind option_bind].
    rewrite (drop_app_length' h _ 16) by done. rewrite read_client_message by done. cbn [mbind option_bind]. rewrite take_app_le, T8, drop_app_le, D8 by lia.
    rewrite take_app_length' by (by rewrite length_be_put). by rewrite G8.
Qed.
End conn.

Context (DeriveKey_length : forall ctx m n, length (DeriveKey ctx m n) = n).

Lemma CreateCipher_ok psk salt : (length psk <= 32)%nat -> length psk = KeyLen conf ->
  CreateCipher DeriveKey psk salt = Ret (DeriveKey Shadowsocks2022ReusedInfo (psk ++ salt) (length psk)).
Proof. intros L E. unfold CreateCipher, GenerateSubKey. rewrite decide_False by lia. rewrite bind_ret, NewCipher_ok; [done|]. by rewrite DeriveKey_length. Qed.

(** The keys fit the ciphers. *)
Definition key_fits (cf : CipherConf2022) (u : list byte) : Prop := if hasBlock cf then length u = KeyLen conf else length u = KeyLen (@conf XA).
Lemma psk_short u : psk_ok u -> (length u <= 32)%nat.
Proof. intros [? | ?]; lia. Qed.


(** * Receiving *)

(** One datagram of a server: session, packet ID, the sender's clock, the echoed client
    session, padding, source, payload, nonce; then the times of its reception. *)
Record arrival := MkArr {
  ar_sid : list byte; ar_id : Z; ar_ts : Z; ar_csid : list byte; ar_pad : list byte; ar_addr : AddressInfo; ar_data : list byte; ar_nonce : list byte;
  ar_now : Z; ar_ev : Z }.
Definition arrival_ok (a : arrival) : Prop :=
  length (ar_sid a) = 8%nat /\ 0 <= ar_id a < 2 ^ 64 /\ 0 <= ar_ts a < 2 ^ 62 /\ length (ar_csid a) = 8%nat /\ Z.of_nat (length (ar_pad a)) < 65536 /\
  ai_ok (ar_addr a) /\ aiIP (ar_addr a) <> AddrZero /\ length (ar_nonce a) = 24%nat /\
  ar_now a - TimestampTolerance <= ar_ts a * 10 ^ 9 <= ar_now a + TimestampTolerance.

Definition server_message (a : arrival) : list byte :=
  HeaderTypeServerStream :: be_put 8 (ar_ts a) ++ ar_csid a ++ be16 (Z.of_nat (length (ar_pad a))) ++ ar_pad a ++ ai_bytes (ar_addr a) ++ ar_data a.
Definition server_packet (cf : CipherConf2022) (u : list byte) (a : arrival) : list byte :=
  let h := header16 (ar_sid a) (ar_id a) in
  if hasBlock cf then BEncrypt u h ++ Seal (DeriveKey Shadowsocks2022ReusedInfo (u ++ ar_sid a) (length u)) (drop 4 h) (server_message a)
  else ar_nonce a ++ @Seal XA u (ar_nonce a) (h ++ server_message a).
Definition received (a : arrival) : list byte * AddrPort := (ar_data a, MkAddrPort (aiIP (ar_addr a)) (aiPort (ar_addr a))).

Lemma decode_server_message a : arrival_ok a -> decodePacketPayload (server_message a) (ar_now a) = Ret (received a).
Proof.
  intros (_ & _ & Ht & Lc & Lp & Ha & Hz & _ & Hn). unfold decodePacketPayload, server_message. set (tail := ar_pad a ++ ai_bytes (ar_addr a) ++ ar_data a).
  set (m := HeaderTypeServerStream :: _). assert (Lm : length m = (19 + length tail)%nat) by (unfold m; cbn [length]; rewrite !length_app, !length_be_put, Lc; lia).
  rewrite decide_False by lia. assert (index m 0 = Ret HeaderTypeServerStream) as -> by done. rewrite bind_ret. rewrite !slice_eq by lia. rewrite !bind_ret.
  assert (take (9 - 1) (drop 1 m) = be_put 8 (ar_ts a)) as -> by (unfold m; change (drop 1 (HeaderTypeServerStream :: ?l)) with l; by rewrite take_app_length' by (by rewrite length_be_put)).
  assert (D19 : drop 17 m = be16 (Z.of_nat (length (ar_pad a))) ++ tail).
  { unfold m. change (drop 17 (HeaderTypeServerStream :: ?l)) with (drop 16 l). rewrite app_assoc, drop_app_length' by (rewrite length_app, length_be_put, Lc; done). done. }
  assert (take (19 - 17) (drop 17 m) = be16 (Z.of_nat (length (ar_pad a)))) as -> by (rewrite D19; by rewrite take_app_length' by (by rewrite length_be_put)).
  rewrite (be_get_put_small 2), Nat2Z.id by (cbn; lia). rewrite (be_get_put_small 8) by (change (256 ^ Z.of_nat 8) with (2 ^ 64); lia). cbv zeta.
  assert (Lt : (length (ar_pad a) <= length tail)%nat) by (unfold tail; rewrite length_app; lia).
  rewrite decide_False by lia. rewrite decide_False by (intros N; by apply N).
  assert (int64 (ar_ts a) = ar_ts a) as -> by (unfold int64; rewrite Z.mod_small; lia). rewrite validate_near by done. rewrite bind_ret, slice_from_eq by lia. rewrite bind_ret.
  assert (Do : drop (19 + length (ar_pad a)) m = ai_bytes (ar_addr a) ++ ar_data a).
  { replace (19 + length (ar_pad a))%nat with (17 + (2 + length (ar_pad a)))%nat by lia. rewrite <- drop_drop, D19, <- drop_drop, (drop_app_length' (be16 _)) by (by rewrite length_be_put).
    unfold tail. by rewrite drop_app_length. }
  rewrite Do, parseAddrPort_ok, bind_ret by done. rewrite slice_from_eq by (rewrite Lm; unfold tail; rewrite !length_app; lia).
  rewrite bind_ret, <- drop_drop, Do, drop_app_length. done.
Qed.

Lemma server_packet_valid cf psks u a : profile_ok cf psks u -> key_fits cf u -> arrival_ok a ->
  valid XA DeriveKey (core_of Sum512 cf psks u) (server_packet cf u a) (ar_now a) (ar_sid a) (ar_id a) (received a).
Proof.
  intros P Kf Ha. exists (server_message a). split; [|by apply decode_server_message]. pose proof Ha as (Ls & Hid & _ & Lc & _ & _ & _ & Ln & _).
  unfold opened, server_packet, IsUsingBlockCipher, key_fits in *. cbn [core_of cipherConf blockCipherDecrypt uPSK]. set (h := header16 (ar_sid a) (ar_id a)).
  assert (T8 : take 8 h = ar_sid a) by (unfold h, header16; by rewrite take_app_length'). assert (D8 : drop 8 h = be_put 8 (ar_id a)) by (unfold h, header16; by rewrite drop_app_length').
  assert (Lh : length h = 16%nat) by (unfold h, header16; rewrite length_app, length_be_put; lia). assert (G8 : be_get (be_put 8 (ar_id a)) = ar_id a) by (apply be_get_put_small; done).
  assert (Lm : (11 <= length (server_message a))%nat) by (unfold server_message; cbn [length]; rewrite !length_app, !length_be_put; lia).
  destruct (hasBlock cf).
  - rewrite decide_False by (rewrite length_app, BEncrypt_length; lia). rewrite take_app_length', drop_app_length' by (by rewrite BEncrypt_length). rewrite BDecrypt_Encrypt by done.
    cbv zeta. rewrite T8, D8, CreateCipher_ok by (try apply psk_short; apply P || done). rewrite Open_Seal. cbn [fmap option_fmap option_map]. by rewrite G8.
  - rewrite decide_False.
    + rewrite take_app_length', drop_app_length', Open_Seal by done. cbn [fmap option_fmap option_map]. rewrite (drop_app_length' h _ 16), take_app_le, T8, drop_app_le, D8 by lia.
      rewrite take_app_length', G8 by (by rewrite length_be_put). done.
    + rewrite NewCipher_ok by done. intros [?|L]; [done|]. rewrite length_app, Seal_length, length_app, Lh, Ln, XA_tag in L. unfold udpPacketNonceSize in L. lia.
Qed.

(** The packet IDs of every session increase. *)
Definition increasing (l : list arrival) : Prop := forall i j a b, (i < j)%nat -> l !! i = Some a -> l !! j = Some b -> ar_sid a = ar_sid b -> ar_id a < ar_id b.
Definition push (cf : CipherConf2022) (u : list byte) (a : arrival) : event := Push (server_packet cf u a) (ar_now a) (ar_ev a).

Context (range : forall V : Type, gmap (list byte) V -> list (list byte * V)).
Context (range_perm : forall V (m : gmap (list byte) V), range V m ≡ₚ map_to_list m).
Abbreviation run_events := (run XA DeriveKey range SplitHostPort ParseAddr).

Lemma receive_run cf psks u l : profile_ok cf psks u -> key_fits cf u -> forall T dn c, core c = core_of Sum512 cf psks u -> conn_ok XA DeriveKey T dn c ->
  Forall arrival_ok l -> ordered T (push cf u <$> l) -> increasing l -> (forall a id t, a ∈ l -> (ar_sid a, id, t) ∈ dn -> id < ar_id a) ->
  (run_events (push cf u <$> l) c).2 = (fun a => (server_packet cf u a, Ret (received a))) <$> l.
Proof.
  intros P Kf. induction l as [|a l IH]; intros T dn c Ec Hc Ha Ho Hi Hd; [done|]. apply Forall_cons in Ha as [Ha Hl]. cbn [fmap list_fmap run]. cbn in Ho. destruct Ho as (L & Le & Ho).
  destruct (push_live XA DeriveKey range range_perm SplitHostPort ParseAddr XA_tag T dn (ar_now a) (ar_ev a) (server_packet cf u a) c (ar_sid a) (ar_id a) (received a)) as (c1 & E1 & H1 & C1);
    [done|done|done|rewrite Ec; by eapply server_packet_valid|intros id t H; apply (Hd a id t); [by left|done]|].
  unfold push at 1. rewrite E1. specialize (IH (ar_ev a) _ c1 (eq_trans C1 Ec) H1 Hl Ho).
  destruct (run_events (push cf u <$> l) c1) as [c2 rs] eqn:E2. cbn [snd app] in *. f_equal. apply IH.
  - intros i j x y Lij Hx Hy. by apply (Hi (S i) (S j)); [lia| |].
  - intros x id t Hx [[= E -> ->]|H]%elem_of_cons; [|apply (Hd x id t); [by right|done]]. apply list_elem_of_lookup in Hx as [j Hj]. apply (Hi 0%nat (S j) a x); [lia|done|done|done].
Qed.

End wire.

(** * Witnesses *)

Definition demo_block (b : list byte) : list byte := rev (demo_hash 16 b).
Lemma demo_block_length b : length (demo_block b) = 16%nat.
Proof. unfold demo_block. by rewrite length_rev, length_demo_hash. Qed.
Lemma demo_block_inv b : length b = 16%nat -> demo_block (demo_block b) = b.
Proof.
  intros L. unfold demo_block. assert (H : forall x, length x = 16%nat -> demo_hash 16 x = x) by (intros x Lx; unfold demo_hash; by rewrite take_app_length').
  rewrite (H b), H by (by rewrite ?length_rev). apply rev_involutive.
Qed.
#[local] Program Instance demo_cipher : BlockCipher := {|
  NewBlock := fun _ => None; BEncrypt := fun _ => demo_block; BDecrypt := fun _ => demo_block |}.
Next Obligation. done. Qed.
Next Obligation. intros. apply demo_block_length. Qed.
Next Obligation. intros. apply demo_block_length. Qed.
Next Obligation. intros. by apply demo_block_inv. Qed.

Definition demo22_conf : CipherConf2022 := MkConf22 (MkConf 16 16 12 16) true 16.
Definition demo22_keys : list (list byte) := [replicate 16 x11; replicate 16 x22].
Definition demo22_derive (ctx m : list byte) (n : nat) : list byte := demo_hash n m.
Definition demo22_range (V : Type) (m : gmap (list byte) V) : list (list byte * V) := map_to_list m.
Definition demo22_pool : BufferSource := pool_source init_pools init_pools_wf None.
Definition demo22_split (a : list byte) : res (list byte * list byte) := Ret (a, lit "53").
Definition demo22_ip (a : list byte) : option Addr := None.
Definition demo22_core : SS2022Core := core_of (demo_hash 64) demo22_conf demo22_keys (replicate 16 x22).
Definition demo22_addr : AddressInfo := MkAI AddressTypeIPv4 [] (Addr4 [x01; x02; x03; x04]) 53.
Definition demo22_arrival (id : Z) (data : list byte) : arrival :=
  MkArr (replicate 8 x77) id 1700000000 (replicate 8 x55) [x00; x00] demo22_addr data (replicate 24 x00) (1700000010 * 10 ^ 9) (1700000010 * 10 ^ 9).
Definition demo22_packet (id : Z) (data : list byte) : list byte := server_packet demo_aead (CA := demo_aead) demo22_derive demo22_conf (replicate 16 x22) (demo22_arrival id data).
Definition demo22_conn : UdpConn := NewUdpConn demo22_core (replicate 8 x33) false [].

Lemma demo22_profile : profile_ok demo22_conf demo22_keys (replicate 16 x22).
Proof. split; [done|repeat constructor|by left|done|by left]. Qed.
Lemma demo22_New : NewSS2022Core (demo_hash 64) demo22_conf demo22_keys (replicate 16 x22) = Ret demo22_core.
Proof. reflexivity. Qed.
Lemma demo22_arrival_ok id data : 0 <= id < 2 ^ 64 -> arrival_ok (demo22_arrival id data).
Proof. intros H. repeat split; try done; cbn; try lia. Qed.

(** A datagram, a copy of it, an older one: two deliveries. *)
Definition demo22_events : list event :=
  (fun d => Push d (1700000010 * 10 ^ 9) (1700000010 * 10 ^ 9)) <$> [demo22_packet 7 [x68]; demo22_packet 7 [x68]; demo22_packet 5 [x69]].

Lemma ss2022_udp_at_most_once_witness :
  let l := (run demo_aead (CA := demo_aead) (BS := demo22_pool) demo22_derive demo22_range demo22_split demo22_ip demo22_events demo22_conn).2 in
  NoDup (delivered l) /\ delivered l = [demo22_packet 7 [x68]; demo22_packet 5 [x69]].
Proof.
  pose proof (ss2022_udp_at_most_once demo_aead (CA := demo_aead) (BS := demo22_pool) demo22_derive demo22_range (fun V m => reflexivity (map_to_list m)) demo22_split demo22_ip eq_refl
    (demo_hash 64) demo22_conf demo22_keys (replicate 16 x22) demo22_core (replicate 8 x33) false [] 0 demo22_events demo22_New ltac:(apply (bool_decide_unpack _); vm_compute; exact Logic.I)) as H.
  assert (O : ordered 0 demo22_events) by (cbn; lia). specialize (H O). unfold demo22_conn in *. split.
  - destruct (run _ _ _ _ _ _ _) as [c l]. apply H.
  - vm_compute. reflexivity.
Defined.

Definition demo22_arrivals : list arrival := [demo22_arrival 7 [x68]; demo22_arrival 9 []].

Definition demo22_request (data : list byte) : request := MkReq data (lit "a") (replicate 24 x00, 0) (MkAI AddressTypeDomain (lit "a") AddrZero 53).
Lemma demo22_request_ok data : request_ok demo22_split demo22_ip (demo22_request data).
Proof. split; [reflexivity|]. split; [|reflexivity]. split; [cbn; lia|]. split; [reflexivity|cbn; lia]. Qed.
Definition demo22_sends : list send := [One (demo22_request [x68]); Many [demo22_request [x69]; demo22_request []]].

(** With the AES ciphers a datagram whose payload fits the caller's slice is rejected as
    forged when the header and address do not fit beside it: the read buffer has no
    room for them (the ChaCha path has). *)
Theorem ss2022_block_read_short : exists c, ReadFrom demo_aead (CA := demo_aead) demo22_derive demo22_range 4 (demo22_packet 7 [x68]) (1700000010 * 10 ^ 9) (1700000010 * 10 ^ 9) demo22_conn = (c, Fail ErrOpen).
Proof. eexists. vm_compute. reflexivity. Qed.
