(* ===== verification/Ss22Tcp.v ===== *)
(** The Shadowsocks 2022 TCP stream (protocol/shadowsocks_2022/tcp_conn.go): the
    request header with its identity blocks, the response header bound to the
    request by its salt, sealed chunks and the reuse of frames.

    The two directions have locks of their own and share the request salt; a method
    is one step.  Random salts and clock readings are arguments. *)

From S2P Require Import Prelude GoStrings NetIP GoState Common Pool Transport SsKey Ss22Core.
From Stdlib Require Import Strings.Byte.

(** 65535, kept symbolic in proofs. *)
Definition TCPChunkMaxLen : nat := Z.to_nat (Z.shiftl 1 16 - 1).
Lemma chunk_max_eq : Z.of_nat TCPChunkMaxLen = 65535.
Proof. done. Qed.
Lemma chunk_max_pos : (0 < TCPChunkMaxLen)%nat.
Proof. pose proof chunk_max_eq. lia. Qed.
Definition maxReusableWriteFrameSize : nat := Z.to_nat (Z.shiftl 128 10).
#[global] Opaque TCPChunkMaxLen maxReusableWriteFrameSize.

Definition HeaderTypeClientStream : byte := x00.
Definition HeaderTypeServerStream : byte := x01.
Definition ErrFailAuth : error := Errorf "fail to authenticate".
Definition ErrReplayAttack : error := Errorf "replay attack".

Record readHalf := MkRH {
  cipherRead : option (list byte); onceRead : bool; nonceRead : list byte;
  (** [leftToRead] lies at the start of [readCipherBuf]; its length, 0 for nil. *)
  leftToRead : nat; indexToRead : nat; readCipherBuf : list byte; inp : stream }.
Record writeHalf := MkWH {
  cipherWrite : option (list byte); onceWrite : bool; writeBroken : bool; nonceWrite : list byte;
  writeFrame : list byte; outp : tconn }.

Definition encryptedPayloadLen (payloadLen tagLen : nat) : nat :=
  if decide (payloadLen <= 0)%nat then 0%nat else
  let chunks := (payloadLen / TCPChunkMaxLen)%nat in
  let chunks := if decide (0 < payloadLen mod TCPChunkMaxLen)%nat then S chunks else chunks in
  (payloadLen + chunks * (2 + tagLen + tagLen))%nat.

Section tcp.
Context {BC : BlockCipher} {CA : AEAD} {Bloom : Type}.
Context (ExistOrAdd : Bloom -> list byte -> bool * Bloom).
Context (Sum512 : list byte -> list byte) (DeriveKey : list byte -> list byte -> nat -> list byte).

Record TCPConn := MkTC { core : SS2022Core; addr : AddressInfo; rd : readHalf; wh : writeHalf; requestSalt : list byte; bloom : option Bloom }.

Definition set_rd (h : readHalf) (c : TCPConn) : TCPConn := MkTC (core c) (addr c) h (wh c) (requestSalt c) (bloom c).
Definition set_wh (h : writeHalf) (c : TCPConn) : TCPConn := MkTC (core c) (addr c) (rd c) h (requestSalt c) (bloom c).
Definition set_salt (s : list byte) (c : TCPConn) : TCPConn := MkTC (core c) (addr c) (rd c) (wh c) s (bloom c).
Definition set_bloom (b : option Bloom) (c : TCPConn) : TCPConn := MkTC (core c) (addr c) (rd c) (wh c) (requestSalt c) b.
Definition on_rd {A} (m : st readHalf A) : st TCPConn A := fun c => let '(h, r) := m (rd c) in (set_rd h c, r).
Definition on_wh {A} (m : st writeHalf A) : st TCPConn A := fun c => let '(h, r) := m (wh c) in (set_wh h c, r).

Definition NewTCPConn (co : SS2022Core) (a : AddressInfo) (bl : option Bloom) (i : stream) (t : tconn) : TCPConn :=
  MkTC co a (MkRH None false (replicate (NonceLen conf) x00) 0 0 [] i) (MkWH None false false (replicate (NonceLen conf) x00) [] t) [] bl.

(** * Reading *)

Definition read_in (n : nat) : st readHalf (list byte) := fun h =>
  let '(i, r) := readFull n (inp h) in
  (MkRH (cipherRead h) (onceRead h) (nonceRead h) (leftToRead h) (indexToRead h) (readCipherBuf h) i, r).
Definition set_nonceRead (n : list byte) (h : readHalf) : readHalf :=
  MkRH (cipherRead h) (onceRead h) n (leftToRead h) (indexToRead h) (readCipherBuf h) (inp h).

(** [c.cipherRead.Open] of a frame with the current nonce, which advances on success. *)
Definition open_frame (frame : list byte) : st readHalf (list byte) :=
  h ← get;
  key ← lift (match cipherRead h with Some k => Ret k | None => Panic end);
  match Open key (nonceRead h) frame with
  | None => fail ErrFailAuth
  | Some p => _ ← modify (fun h => set_nonceRead (BytesIncLittleEndian (nonceRead h)) h); mret p
  end.

(** The header of the response: the length of its first payload. *)
Definition read_response_header (now : Z) : st TCPConn Z :=
  c ← get;
  let u := uPSK (core c) in
  salt ← on_rd (read_in (SaltLen conf));
  _ ← match CreateCipher DeriveKey u salt with
      | Ret k => on_rd (modify (fun h => MkRH (Some k) (onceRead h) (nonceRead h) (leftToRead h) (indexToRead h) (readCipherBuf h) (inp h)))
      | Fail e => _ ← on_rd (modify (fun h => MkRH None (onceRead h) (nonceRead h) (leftToRead h) (indexToRead h) (readCipherBuf h) (inp h)));
                  fail (Wrap "fail to initiate cipher" e)
      | Panic => lift Panic
      end;
  frame ← on_rd (read_in (11 + SaltLen conf + TagLen conf));
  header ← on_rd (open_frame frame);
  typ ← lift (index header 0);
  ts ← lift (slice header 1 9);
  let timestamp := time_Unix (int64 (be_get ts)) in
  if decide (typ <> HeaderTypeServerStream) then fail (Errorf "received unexpected header type: %d") else
  _ ← lift (validateTimestamp timestamp (clock now));
  c ← get;
  echoed ← lift (slice header 9 (9 + SaltLen conf));
  if negb (bool_decide (length (requestSalt c) = SaltLen conf) && bool_decide (requestSalt c = echoed)) then fail ErrFailAuth else
  _ ← match bloom c with
      | None => mret tt
      | Some b =>
          let '(exists_, b) := ExistOrAdd b salt in
          _ ← modify (set_bloom (Some b));
          if (exists_ : bool) then fail ErrReplayAttack else mret tt
      end;
  l ← lift (slice header (9 + SaltLen conf) (9 + SaltLen conf + 2));
  _ ← on_rd (modify (fun h => MkRH (cipherRead h) true (nonceRead h) (leftToRead h) (indexToRead h) (readCipherBuf h) (inp h)));
  mret (be_get l).

Definition read_length : st readHalf Z :=
  frame ← read_in (2 + TagLen conf);
  p ← open_frame frame;
  l ← lift (slice p 0 2);
  mret (be_get l).

Definition ensureReadCipherBuf (size : nat) (buf : list byte) : list byte := if decide (length buf < size)%nat then replicate size x00 else buf.

(** The chunk of [payloadLength] bytes and the copy of its start to the caller. *)
Definition read_chunk (k : nat) (payloadLength : Z) : st readHalf (list byte) :=
  h ← get;
  match cipherRead h with
  | None => fail (Errorf "cipher is not initialized")
  | Some _ =>
      let size := (Z.to_nat payloadLength + TagLen conf)%nat in
      _ ← modify (fun h => MkRH (cipherRead h) (onceRead h) (nonceRead h) (leftToRead h) (indexToRead h) (ensureReadCipherBuf size (readCipherBuf h)) (inp h));
      frame ← read_in size;
      payload ← open_frame frame;
      let n := Nat.min k (length payload) in
      _ ← modify (fun h =>
            let buf := append_at (frame ++ drop size (readCipherBuf h)) 0 payload in
            if decide (n < length payload)%nat
            then MkRH (cipherRead h) (onceRead h) (nonceRead h) (length payload) n buf (inp h)
            else MkRH (cipherRead h) (onceRead h) (nonceRead h) 0 0 buf (inp h));
      mret (take n payload)
  end.

(** [Read(b)] with [len(b) = k]: the bytes copied. *)
Definition read_left (k : nat) : st readHalf (list byte) :=
  h ← get;
  let src := drop (indexToRead h) (take (leftToRead h) (readCipherBuf h)) in
  let n := Nat.min k (length src) in
  let i := (indexToRead h + n)%nat in
  _ ← modify (fun h => if decide (leftToRead h <= i)%nat
                       then MkRH (cipherRead h) (onceRead h) (nonceRead h) 0 0 (readCipherBuf h) (inp h)
                       else MkRH (cipherRead h) (onceRead h) (nonceRead h) (leftToRead h) i (readCipherBuf h) (inp h));
  mret (take n src).
Definition Read (k : nat) (now : Z) : st TCPConn (list byte) :=
  c ← get;
  if decide (indexToRead (rd c) < leftToRead (rd c))%nat then on_rd (read_left k)
  else
    payloadLength ← (if onceRead (rd c) then on_rd read_length else read_response_header now);
    on_rd (read_chunk k payloadLength).

(** * Writing *)

Definition borrowWriteFrame (size : nat) : st writeHalf (list byte) :=
  if decide (size <= maxReusableWriteFrameSize)%nat then
    _ ← modify (fun h => if decide (length (writeFrame h) < size)%nat
                         then MkWH (cipherWrite h) (onceWrite h) (writeBroken h) (nonceWrite h) (replicate size x00) (outp h) else h);
    h ← get;
    lift (slice (writeFrame h) 0 size)
  else mret (replicate size x00).

(** One identity block per key but the last, under a subkey of the salt. *)
Fixpoint writeIdentityHeaderTo (psks : list (list byte)) (dst : list byte) (offset : nat) (salt : list byte) : res (list byte * nat) :=
  match psks with
  | psk :: ((next :: _) as rest) =>
      if decide (length dst < offset + 16)%nat then Fail ErrShortBuffer else
      identitySubkey ← GenerateSubKey DeriveKey psk salt Shadowsocks2022IdentityHeaderInfo;
      match NewBlock identitySubkey with
      | Some e => Fail e
      | None =>
          plaintext ← slice (Sum512 next) 0 16;
          dst ← write_at dst offset (BEncrypt identitySubkey plaintext);
          writeIdentityHeaderTo rest dst (offset + 16) salt
      end
  | _ => Ret (dst, offset)
  end.

(** The loop of [sealPayload] from position [i]; [dst] is the frame from its offset on. *)
Fixpoint seal_loop (fuel i : nat) (key payload dst : list byte) (offset : nat) (nonce : list byte) : res (list byte * nat * list byte) :=
  if decide (i < length payload)%nat then
    match fuel with
    | O => Panic
    | S fuel =>
        let chunkLength := Nat.min TCPChunkMaxLen (length payload - i) in
        let dst := append_at dst offset (Seal key nonce (be16 (Z.of_nat chunkLength))) in
        let offset := (offset + (2 + TagLen conf))%nat in
        let nonce := BytesIncLittleEndian nonce in
        p ← slice payload i (i + chunkLength);
        let dst := append_at dst offset (Seal key nonce p) in
        seal_loop fuel (i + TCPChunkMaxLen) key payload dst (offset + (chunkLength + TagLen conf)) (BytesIncLittleEndian nonce)
    end
  else Ret (dst, offset, nonce).
Definition sealPayload (key payload dst nonce : list byte) : res (list byte * nat * list byte) := seal_loop (length payload) 0 key payload dst 0 nonce.

Definition initialPayloadLen (addrLen : nat) (b : list byte) : nat := Nat.min (length b) (TCPChunkMaxLen - (addrLen + 2)).
Definition totalSize (co : SS2022Core) (salt b : list byte) (addrLen : nat) : nat :=
  let ipl := initialPayloadLen addrLen b in
  (length salt + (length (pskList co) - 1) * 16 + (11 + TagLen conf) + (addrLen + 2 + ipl + TagLen conf) +
   encryptedPayloadLen (length (drop ipl b)) (TagLen conf))%nat.

(** The request in [frame]: salt, identity blocks, the two headers and the chunks; the
    frame, its length in use and the nonce. *)
Definition fill_request (co : SS2022Core) (a : AddressInfo) (key salt b : list byte) (addrLen : nat) (now : Z) (frame nonce : list byte) : res (list byte * nat * list byte) :=
  let ipl := initialPayloadLen addrLen b in
  let firstVarHeaderLen := (addrLen + 2 + ipl)%nat in
  '(frame, _) ← copy_at frame 0 salt;
  '(frame, offset) ← (match writeIdentityHeaderTo (pskList co) frame (length salt) salt with Fail e => Fail (Wrap "fail to write identity header" e) | r => r end);
  frame ← set_at frame offset HeaderTypeClientStream;
  frame ← write_at frame (offset + 1) (be_put 8 (now / 10 ^ 9));
  frame ← write_at frame (offset + 9) (be16 (Z.of_nat firstVarHeaderLen));
  fixedHeaderPlain ← slice frame offset (offset + 11);
  let frame := append_at frame offset (Seal key nonce fixedHeaderPlain) in
  let offset := (offset + 11 + TagLen conf)%nat in
  let nonce := BytesIncLittleEndian nonce in
  var ← slice frame offset (offset + firstVarHeaderLen);
  '(var, addrWritten) ← (match writeAddrInfoTo var a with Fail e => Fail (Wrap "fail to encode request address" e) | r => r end);
  var ← write_at var addrWritten (be16 0);
  '(var, _) ← copy_at var (addrWritten + 2) (take ipl b);
  frame ← write_at frame offset var;
  let frame := append_at frame offset (Seal key nonce var) in
  let offset := (offset + firstVarHeaderLen + TagLen conf)%nat in
  let nonce := BytesIncLittleEndian nonce in
  rest ← slice_from frame offset;
  '(rest, n, nonce) ← sealPayload key (drop ipl b) rest nonce;
  Ret (take offset frame ++ rest, (offset + n)%nat, nonce).

(** The frame in use goes out; an error breaks the direction for good. *)
Definition write_frame (first : bool) (frame : list byte) (n : nat) (nonce : list byte) : st writeHalf unit :=
  h ← get;
  out ← lift (slice frame 0 n);
  let '(t, (_, err)) := WriteFull out (outp h) in
  let wf := if decide (length frame <= maxReusableWriteFrameSize)%nat then frame ++ drop (length frame) (writeFrame h) else writeFrame h in
  match err with
  | Some e => _ ← modify (fun h => MkWH (cipherWrite h) (onceWrite h) true nonce wf t); fail e
  | None => modify (fun h => MkWH (cipherWrite h) (onceWrite h || first) (writeBroken h) nonce wf t)
  end.

Definition first_write (salt b : list byte) (now : Z) : st TCPConn unit :=
  _ ← modify (set_salt salt);
  c ← get;
  let set_key k := on_wh (modify (fun h => MkWH k (onceWrite h) (writeBroken h) (nonceWrite h) (writeFrame h) (outp h))) in
  match CreateCipher DeriveKey (uPSK (core c)) salt with
  | Panic => lift Panic
  | Fail e => _ ← set_key None; fail (Wrap "fail to initiate cipher" e)
  | Ret key =>
      _ ← set_key (Some key);
      addrLen ← lift (match addrInfoEncodedLen (addr c) with Fail e => Fail (Wrap "fail to calculate address length" e) | r => r end);
      frame ← on_wh (borrowWriteFrame (totalSize (core c) salt b addrLen));
      c ← get;
      '(frame, n, nonce) ← lift (fill_request (core c) (addr c) key salt b addrLen now frame (nonceWrite (wh c)));
      on_wh (write_frame true frame n nonce)
  end.

Definition next_write (b : list byte) : st writeHalf unit :=
  h ← get;
  match cipherWrite h with
  | None => fail (Errorf "cipher is not initialized")
  | Some key =>
      frame ← borrowWriteFrame (encryptedPayloadLen (length b) (TagLen conf));
      '(frame, n, nonce) ← lift (sealPayload key b frame (nonceWrite h));
      write_frame false frame n nonce
  end.

Definition Write (salt b : list byte) (now : Z) : st TCPConn nat :=
  c ← get;
  if writeBroken (wh c) then fail ErrClosed else
  _ ← (if onceWrite (wh c) then on_wh (next_write b) else first_write salt b now);
  mret (length b).

(** [Close]: the transport and the frames go. *)
Definition Close : st TCPConn unit :=
  _ ← on_wh (modify (fun h => MkWH (cipherWrite h) (onceWrite h) (writeBroken h) (nonceWrite h) [] (MkTconn (t_out (outp h)) (t_plan (outp h)) true)));
  on_rd (modify (fun h => MkRH (cipherRead h) (onceRead h) (nonceRead h) 0 0 [] (inp h))).
End tcp.
