(* ===== verification/Ss22Stream.v ===== *)
(** The two directions of a Shadowsocks 2022 stream: what a client's writes put on
    the wire, what its reads make of a server's response, and which responses it
    refuses. *)

From S2P Require Import Prelude GoStrings NetIP GoState Common Pool Transport SsKey SsChunks Ss22Core Ss22Tcp.
From Stdlib Require Import Strings.Byte.

Abbreviation chunks_of := (SsChunks.chunks_of TCPChunkMaxLen).
Abbreviation chunk_ok := (SsChunks.chunk_ok TCPChunkMaxLen).

Section stream.
Context {BC : BlockCipher} {CA : AEAD} {Bloom : Type}.
Context (ExistOrAdd : Bloom -> list byte -> bool * Bloom).
Context (Sum512 : list byte -> list byte) (Sum512_length : forall m, length (Sum512 m) = 64%nat).
Context (DeriveKey : list byte -> list byte -> nat -> list byte) (DeriveKey_length : forall ctx m n, length (DeriveKey ctx m n) = n).
Abbreviation N := (NonceLen conf).

(** * Chunks *)

Lemma encryptedPayloadLen_ok key k b : encryptedPayloadLen (length b) (TagLen conf) = length (frames key k (chunks_of b)).
Proof.
  rewrite length_frames, (chunks_of_concat _ chunk_max_pos). unfold encryptedPayloadLen. case_decide as Z0; [destruct b; [done|cbn in Z0; lia]|].
  unfold SsChunks.chunks_of. rewrite (length_tcp_chunks _ chunk_max_pos) by done. cbv zeta. case_decide; f_equal; f_equal; lia.
Qed.

Lemma seal_payload_ok key b fuel : forall i pre rest k, (length b <= i + fuel)%nat ->
  (length (frames key k (chunks_of (drop i b))) <= length rest)%nat ->
  seal_loop fuel i key b (pre ++ rest) (length pre) (nonce_at N k) =
    Ret (pre ++ frames key k (chunks_of (drop i b)) ++ drop (length (frames key k (chunks_of (drop i b)))) rest,
      (length pre + length (frames key k (chunks_of (drop i b))))%nat, nonce_at N (k + 2 * length (chunks_of (drop i b)))).
Proof.
  pose proof chunk_max_pos as M. pose proof chunk_max_eq as ME.
  induction fuel as [|fuel IH]; intros i pre rest k Lf Lr; cbn [seal_loop]; (destruct (decide (i < length b)%nat) as [Li|Li]; [|rewrite (drop_ge b) by lia; cbn; by rewrite ?Nat.add_0_r]); [lia|].
  rewrite (chunks_of_drop _ chunk_max_pos i b Li) in *. cbv zeta. set (l := Nat.min TCPChunkMaxLen (length b - i)) in *. set (c := take l (drop i b)) in *.
  assert (Lc : length c = l) by (unfold c; rewrite length_take, length_drop; lia).
  cbn [frames length] in *. rewrite !length_app, !Seal_length, length_be_put, Lc in *.
  rewrite slice_eq by lia. rewrite bind_ret, add_sub_cancel. fold c.
  set (s1 := Seal key (nonce_at N k) _). assert (L1 : length s1 = (2 + TagLen conf)%nat) by (unfold s1; by rewrite Seal_length, length_be_put).
  rewrite append_at_app by (rewrite ?L1; lia). rewrite nonce_at_S. set (s2 := Seal key (nonce_at N (S k)) c). assert (L2 : length s2 = (l + TagLen conf)%nat) by (unfold s2; by rewrite Seal_length, Lc).
  rewrite (app_assoc pre s1), append_at_app by (rewrite ?length_app, ?length_drop, ?L1, ?L2; lia). rewrite (app_assoc (pre ++ s1) s2), nonce_at_S.
  replace (length pre + (2 + TagLen conf) + (l + TagLen conf))%nat with (length ((pre ++ s1) ++ s2)) by (rewrite !length_app; lia).
  rewrite IH; [|lia|rewrite !length_drop; lia].
  rewrite !length_app, L1, L2. f_equal. f_equal; [f_equal|]; [|lia|f_equal; lia]. rewrite <- !app_assoc, !drop_drop. repeat (lia || f_equal).
Qed.

Lemma sealPayload_ok key b k rest : length rest = length (frames key k (chunks_of b)) ->
  sealPayload key b rest (nonce_at N k) = Ret (frames key k (chunks_of b), length (frames key k (chunks_of b)), nonce_at N (k + 2 * length (chunks_of b))).
Proof.
  intros L. unfold sealPayload. pose proof (seal_payload_ok key b (length b) 0 [] rest k) as E. rewrite drop_0 in E. cbn [app length Nat.add] in E.
  rewrite E by lia. by rewrite drop_ge, app_nil_r by lia.
Qed.

(** * Requests *)

Fixpoint identity_blocks (salt : list byte) (psks : list (list byte)) : list byte :=
  match psks with
  | psk :: ((next :: _) as rest) => BEncrypt (DeriveKey Shadowsocks2022IdentityHeaderInfo (psk ++ salt) (length psk)) (take 16 (Sum512 next)) ++ identity_blocks salt rest
  | _ => []
  end.
Lemma identity_blocks_cons salt a b psks : identity_blocks salt (a :: b :: psks) =
  BEncrypt (DeriveKey Shadowsocks2022IdentityHeaderInfo (a ++ salt) (length a)) (take 16 (Sum512 b)) ++ identity_blocks salt (b :: psks).
Proof. done. Qed.
Lemma length_identity_blocks salt psks : length (identity_blocks salt psks) = (16 * (length psks - 1))%nat.
Proof. induction psks as [|a psks IH]; [done|]. destruct psks as [|b psks]; [done|]. rewrite identity_blocks_cons, length_app, BEncrypt_length, IH. cbn [length]. lia. Qed.

Lemma writeIdentityHeaderTo_cons psk next rest dst offset salt : writeIdentityHeaderTo Sum512 DeriveKey (psk :: next :: rest) dst offset salt =
  if decide (length dst < offset + 16)%nat then Fail ErrShortBuffer else
  identitySubkey ← GenerateSubKey DeriveKey psk salt Shadowsocks2022IdentityHeaderInfo;
  match NewBlock identitySubkey with
  | Some e => Fail e
  | None =>
      plaintext ← slice (Sum512 next) 0 16;
      dst ← write_at dst offset (BEncrypt identitySubkey plaintext);
      writeIdentityHeaderTo Sum512 DeriveKey (next :: rest) dst (offset + 16) salt
  end.
Proof. reflexivity. Qed.
Lemma writeIdentityHeaderTo_ok salt psks : Forall psk_ok psks -> forall pre rest, (16 * (length psks - 1) <= length rest)%nat ->
  writeIdentityHeaderTo Sum512 DeriveKey psks (pre ++ rest) (length pre) salt =
    Ret (pre ++ identity_blocks salt psks ++ drop (16 * (length psks - 1)) rest, (length pre + 16 * (length psks - 1))%nat).
Proof.
  induction psks as [|a psks IH]; intros Hk pre rest L; [by rewrite Nat.add_0_r|]. destruct psks as [|b psks]; [by rewrite Nat.add_0_r|]. cbn [length] in *.
  apply Forall_cons in Hk as [Ha Hk]. rewrite writeIdentityHeaderTo_cons, decide_False by (rewrite length_app; lia).
  unfold GenerateSubKey. rewrite decide_False by (destruct Ha; lia). rewrite bind_ret, NewBlock_ok by (by rewrite DeriveKey_length).
  rewrite slice_eq by (rewrite ?Sum512_length; lia). rewrite bind_ret, drop_0, Nat.sub_0_r. set (e := BEncrypt _ _). assert (Le : length e = 16%nat) by apply BEncrypt_length.
  rewrite write_at_app, bind_ret, Le by lia. specialize (IH Hk (pre ++ e) (drop 16 rest)). rewrite length_app, Le, length_drop in IH. rewrite IH by lia.
  rewrite identity_blocks_cons. fold e. rewrite drop_drop, <- !app_assoc. replace (16 + 16 * (S (length psks) - 1))%nat with (16 * (S (S (length psks)) - 1))%nat by lia. f_equal. f_equal. lia.
Qed.

Definition var_header (a : AddressInfo) (b : list byte) : list byte := ai_bytes a ++ be16 0 ++ take (initialPayloadLen (length (ai_bytes a)) b) b.
Definition fixed_header (now : Z) (len : nat) : list byte := HeaderTypeClientStream :: be_put 8 (now / 10 ^ 9) ++ be16 (Z.of_nat len).
Definition later_chunks (a : AddressInfo) (b : list byte) : list (list byte) := chunks_of (drop (initialPayloadLen (length (ai_bytes a)) b) b).
Definition request (psks : list (list byte)) (a : AddressInfo) (key salt b : list byte) (now : Z) : list byte :=
  salt ++ identity_blocks salt psks ++ Seal key (nonce_at N 0) (fixed_header now (length (var_header a b))) ++ Seal key (nonce_at N 1) (var_header a b) ++
  frames key 2 (later_chunks a b).

Lemma length_var_header a b : length (var_header a b) = (length (ai_bytes a) + 2 + initialPayloadLen (length (ai_bytes a)) b)%nat.
Proof. unfold var_header. rewrite !length_app, length_be_put, length_take. unfold initialPayloadLen. lia. Qed.
Lemma length_fixed_header now n : length (fixed_header now n) = 11%nat.
Proof. unfold fixed_header. cbn [length]. by rewrite length_app, !length_be_put. Qed.

Lemma length_request co a key salt b now : length (request (pskList co) a key salt b now) = totalSize co salt b (length (ai_bytes a)).
Proof.
  unfold request, totalSize. cbv zeta. rewrite !length_app, !Seal_length, length_identity_blocks, length_fixed_header, length_var_header. unfold later_chunks.
  rewrite (encryptedPayloadLen_ok key 2). lia.
Qed.

Lemma fill_request_ok co a key salt b now frame : Forall psk_ok (pskList co) -> ai_ok a -> length frame = totalSize co salt b (length (ai_bytes a)) ->
  fill_request Sum512 DeriveKey co a key salt b (length (ai_bytes a)) now frame (nonce_at N 0) =
    Ret (request (pskList co) a key salt b now, length (request (pskList co) a key salt b now), nonce_at N (2 + 2 * length (later_chunks a b))).
Proof.
  intros Hk Ha Lf. unfold fill_request. cbv zeta. set (ipl := initialPayloadLen _ b). pose proof (length_var_header a b) as Lv. fold ipl in Lv.
  assert (Lt : length frame = (length salt + (16 * (length (pskList co) - 1) + (11 + TagLen conf + (length (var_header a b) + TagLen conf + length (frames key 2 (later_chunks a b))))))%nat).
  { rewrite Lf. unfold totalSize. cbv zeta. fold ipl. unfold later_chunks. fold ipl. rewrite (encryptedPayloadLen_ok key 2). lia. }
  rewrite copy_at_0 by lia. rewrite bind_ret, writeIdentityHeaderTo_ok, bind_ret by (done || rewrite length_drop; lia).
  set (ib := identity_blocks salt (pskList co)). assert (Lib : length ib = (16 * (length (pskList co) - 1))%nat) by apply length_identity_blocks.
  rewrite app_assoc, drop_drop. set (pre := salt ++ ib). assert (Lpre : length pre = (length salt + 16 * (length (pskList co) - 1))%nat) by (unfold pre; rewrite length_app; lia).
  rewrite <- Lpre. set (rest := drop _ frame). assert (Lr : length rest = (11 + TagLen conf + (length (var_header a b) + TagLen conf + length (frames key 2 (later_chunks a b))))%nat) by (unfold rest; rewrite length_drop; lia).
  rewrite set_at_app, bind_ret by (done || lia). rewrite write_at_app, bind_ret by (rewrite ?length_app, ?length_drop, ?length_be_put; cbn [length]; lia). rewrite length_be_put.
  rewrite write_at_app, bind_ret by (rewrite ?length_app, ?length_drop, ?length_be_put; cbn [length]; lia). rewrite length_be_put.
  rewrite <- Lv. set (fh := fixed_header now (length (var_header a b))).
  assert (((pre ++ [HeaderTypeClientStream]) ++ be_put 8 (now / 10 ^ 9)) ++ be16 (Z.of_nat (length (var_header a b))) = pre ++ fh) as -> by (by rewrite <- !app_assoc). rewrite <- (app_assoc pre fh). assert (Lfh : length fh = 11%nat) by apply length_fixed_header.
  rewrite (slice_eq (pre ++ _) (length pre)) by (rewrite ?length_app, ?length_drop; lia). rewrite bind_ret, add_sub_cancel, drop_app_length, take_app_length' by done.
  rewrite append_at_app by (rewrite ?Seal_length, ?length_app, ?length_drop; lia). set (s0 := Seal key (nonce_at N 0) fh). assert (L0 : length s0 = (11 + TagLen conf)%nat) by (unfold s0; rewrite Seal_length; lia).
  rewrite L0, drop_app_ge, Lfh, !drop_drop by lia. rewrite nonce_at_S, (app_assoc pre s0).
  set (pre1 := pre ++ s0). replace (length pre + 11 + TagLen conf)%nat with (length pre1) by (unfold pre1; rewrite length_app; lia).
  set (rest1 := drop _ rest). assert (Lr1 : length rest1 = (length (var_header a b) + TagLen conf + length (frames key 2 (later_chunks a b)))%nat) by (unfold rest1; rewrite length_drop; lia).
  rewrite (slice_eq (pre1 ++ rest1)) by (rewrite ?length_app; lia). rewrite bind_ret, add_sub_cancel, drop_app_length.
  rewrite writeAddrInfoTo_ok by (done || rewrite length_take; lia). rewrite bind_ret. set (v := take _ rest1). assert (Lvv : length v = length (var_header a b)) by (unfold v; rewrite length_take; lia).
  rewrite write_at_app, bind_ret by (rewrite ?length_drop, ?length_be_put; lia). rewrite copy_at_app by (rewrite ?length_app, ?length_drop, ?length_be_put, ?length_take; lia).
  rewrite bind_ret, length_be_put, !drop_drop. assert (Li : length (take ipl b) = ipl) by (rewrite length_take; unfold ipl, initialPayloadLen; lia).
  rewrite Li, (drop_ge v), app_nil_r by lia. rewrite <- app_assoc. change (ai_bytes a ++ be16 0 ++ take ipl b) with (var_header a b).
  rewrite write_at_app, bind_ret by (done || lia). rewrite <- app_assoc, append_at_app by (rewrite ?Seal_length, ?length_app, ?length_drop; lia).
  set (s1 := Seal key (nonce_at N 1) (var_header a b)). assert (L1 : length s1 = (length (var_header a b) + TagLen conf)%nat) by (unfold s1; by rewrite Seal_length).
  rewrite L1, drop_app_ge, !drop_drop, (app_assoc pre1 s1) by lia. set (pre2 := pre1 ++ s1).
  replace (length pre1 + length (var_header a b) + TagLen conf)%nat with (length pre2) by (unfold pre2; rewrite length_app; lia).
  set (rest2 := drop _ rest1). rewrite slice_from_app, bind_ret by done. rewrite nonce_at_S.
  rewrite sealPayload_ok by (unfold rest2; rewrite length_drop; change (chunks_of (drop ipl b)) with (later_chunks a b); lia).
  rewrite bind_ret, take_app_length. change (chunks_of (drop ipl b)) with (later_chunks a b).
  assert (Er : pre2 ++ frames key 2 (later_chunks a b) = request (pskList co) a key salt b now) by (unfold request, pre2, pre1, pre; by rewrite <- !app_assoc).
  rewrite Er. f_equal. f_equal. f_equal. rewrite <- Er, length_app. done.
Qed.

(** * Writing *)

Definition good (h : writeHalf) : Prop := t_plan (outp h) = [] /\ t_closed (outp h) = false.
Definition keyed (key : list byte) (k : nat) (h : writeHalf) : Prop :=
  cipherWrite h = Some key /\ onceWrite h = true /\ writeBroken h = false /\ nonceWrite h = nonce_at N k.

(** One write of [bs]: all of it, or a part of it and the direction is broken; all of
    it over a transport that does not fail. *)
Definition written (bs key : list byte) (k : nat) {A} (a : A) (h h' : writeHalf) (r : res A) : Prop :=
  (good h -> good h' /\ r = Ret a) /\
  ((r = Ret a /\ t_out (outp h') = t_out (outp h) ++ bs /\ keyed key k h') \/
   (exists e n, r = Fail e /\ t_out (outp h') = t_out (outp h) ++ take n bs /\ writeBroken h' = true)).

Lemma borrow_frame size h : exists h' f, borrowWriteFrame size h = (h', Ret f) /\ length f = size /\
  h' = MkWH (cipherWrite h) (onceWrite h) (writeBroken h) (nonceWrite h) (writeFrame h') (outp h).
Proof.
  unfold borrowWriteFrame. destruct (decide (size <= _)%nat).
  - st_pure. st_pure. case_decide.
    + eexists _, _. split; [unfold lift; cbn [writeFrame]; rewrite slice_eq by (rewrite ?length_replicate; lia); reflexivity|]. split; [rewrite length_take, length_drop, length_replicate; lia|done].
    + eexists _, _. split; [unfold lift; rewrite slice_eq by lia; reflexivity|]. split; [rewrite length_take, length_drop; lia|by destruct h].
  - eexists _, _. split; [done|]. split; [apply length_replicate|by destruct h].
Qed.

Lemma write_frame_ok first frame key k h : cipherWrite h = Some key -> writeBroken h = false -> onceWrite h || first = true ->
  exists h' r, write_frame first frame (length frame) (nonce_at N k) h = (h', r) /\ written frame key k tt h h' r.
Proof.
  intros Ek Eb Eo. unfold write_frame. st_pure. st_lift ltac:(rewrite slice_eq, Nat.sub_0_r, drop_0, firstn_all by lia; reflexivity).
  destruct (WriteFull_ok frame (outp h)) as (t & n & e & -> & Ln & Et & Ee & Eg). cbv zeta. destruct e as [e|].
  - eexists _, _. split; [reflexivity|]. split; [by intros [? _]%Eg|]. right. by exists e, n.
  - rewrite (Ee eq_refl), firstn_all in Et. eexists _, _. split; [reflexivity|]. split; [by intros (_ & ? & ?)%Eg|]. left. by split_and!.
Qed.

(** The outcome of the inner step is that of the call. *)
Lemma written_done bs key k (n : nat) h h' (r : res unit) : written bs key k tt h h' r ->
  written bs key k n h h' (match r with Ret _ => Ret n | Fail e => Fail e | Panic => Panic end).
Proof.
  intros [G [(-> & H)|(e & m & -> & H)]]; (split; [intros W; destruct (G W) as [? E]; done|]); [by left|]. right. by exists e, m.
Qed.

Lemma on_wh22 {A} (m : st writeHalf A) (c : TCPConn (Bloom := Bloom)) h r : m (wh c) = (h, r) -> on_wh m c = (set_wh h c, r).
Proof. intros E. unfold on_wh. by rewrite E. Qed.

Abbreviation write := (Write Sum512 DeriveKey (Bloom := Bloom)).

Lemma write22_later salt b now key k c : keyed key k (wh c) -> exists h' r, write salt b now c = (set_wh h' c, r) /\
  written (frames key k (chunks_of b)) key (k + 2 * length (chunks_of b)) (length b) (wh c) h' r.
Proof.
  intros (Ek & Eo & Eb & En). unfold Write. st_pure. rewrite Eb, Eo.
  assert (exists h' r, next_write b (wh c) = (h', r) /\ written (frames key k (chunks_of b)) key (k + 2 * length (chunks_of b)) tt (wh c) h' r) as (h' & r & E & W).
  { unfold next_write. st_pure. rewrite Ek. destruct (borrow_frame (encryptedPayloadLen (length b) (TagLen conf)) (wh c)) as (h1 & f & E1 & Lf & Eh). st_call E1.
    rewrite En. rewrite (encryptedPayloadLen_ok key k) in Lf. st_lift ltac:(by apply sealPayload_ok).
    destruct (write_frame_ok false (frames key k (chunks_of b)) key (k + 2 * length (chunks_of b)) h1) as (h2 & r & E2 & W); [by rewrite Eh|by rewrite Eh|by rewrite Eh; cbn; rewrite Eo|].
    exists h2, r. split; [done|]. unfold written, good in *. by rewrite Eh in W. }
  exists h'. eexists. split; [|by apply written_done]. unfold mbind at 1, st_bind. rewrite (on_wh22 _ _ _ _ E). by destruct r.
Qed.

(** The profile and the address a connection was made with. *)
Definition dialed (c : TCPConn (Bloom := Bloom)) : Prop :=
  Forall psk_ok (pskList (core c)) /\ psk_ok (uPSK (core c)) /\ length (uPSK (core c)) = KeyLen conf /\ ai_ok (addr c).
Definition session_key (c : TCPConn (Bloom := Bloom)) (salt : list byte) : list byte := DeriveKey Shadowsocks2022ReusedInfo (uPSK (core c) ++ salt) (length (uPSK (core c))).

Lemma CreateCipher_dialed c salt : dialed c -> CreateCipher DeriveKey (uPSK (core c)) salt = Ret (session_key c salt).
Proof.
  intros (_ & Hu & Lu & _). unfold CreateCipher, GenerateSubKey. rewrite decide_False by (destruct Hu; lia). rewrite bind_ret, NewCipher_ok; [done|]. by rewrite DeriveKey_length.
Qed.

Lemma write22_first salt b now c : dialed c -> onceWrite (wh c) = false -> writeBroken (wh c) = false -> nonceWrite (wh c) = nonce_at N 0 ->
  exists h' r, write salt b now c = (set_wh h' (set_salt salt c), r) /\
    written (request (pskList (core c)) (addr c) (session_key c salt) salt b now) (session_key c salt) (2 + 2 * length (later_chunks (addr c) b)) (length b) (wh c) h' r.
Proof.
  intros Hd Eo Eb En. unfold Write. st_pure. rewrite Eb, Eo. set (key := session_key c salt). set (req := request _ _ _ _ _ _).
  assert (exists h' r, first_write Sum512 DeriveKey salt b now c = (set_wh h' (set_salt salt c), r) /\ written req key (2 + 2 * length (later_chunks (addr c) b)) tt (wh c) h' r) as (h' & r & E & W).
  { unfold first_write. st_pure. st_pure. cbv zeta. cbn [core set_salt]. rewrite CreateCipher_dialed by done. fold key. st_pure. cbn [addr set_salt]. rewrite (ai_len _ (proj2 (proj2 (proj2 Hd)))). st_pure.
    set (h0 := MkWH _ _ _ _ _ _). set (size := totalSize _ _ _ _). destruct (borrow_frame size h0) as (h1 & f & E1 & Lf & Eh).
    erewrite st_bind_Ret; [|apply on_wh22; exact E1]. cbv beta. st_pure. cbn [core set_wh set_salt addr wh].
    st_lift ltac:(rewrite Eh; cbn [nonceWrite h0 wh set_salt]; rewrite En; apply fill_request_ok; [apply Hd|apply Hd|exact Lf]). fold req.
    destruct (write_frame_ok true req key (2 + 2 * length (later_chunks (addr c) b)) h1) as (h2 & r & E2 & W); [by rewrite Eh|by rewrite Eh|apply orb_true_r|].
    exists h2, r. split; [unfold on_wh; cbn [wh set_wh]; by rewrite E2|]. unfold written, good in *. by rewrite Eh in W. }
  exists h'. eexists. split; [|by apply written_done]. unfold mbind at 1, st_bind. rewrite E. by destruct r.
Qed.

Lemma write22_broken salt b now c : writeBroken (wh c) = true -> write salt b now c = (c, Fail ErrClosed).
Proof. intros E. unfold Write. st_pure. by rewrite E. Qed.

(** ** Sequences of writes *)

(** Salt (used by the first write), data and clock of each. *)
Definition wop : Type := list byte * list byte * Z.
Fixpoint writes (ops : list wop) (c : TCPConn (Bloom := Bloom)) : TCPConn (Bloom := Bloom) * list (res nat) :=
  match ops with
  | [] => (c, [])
  | (salt, b, now) :: ops => let '(c, r) := write salt b now c in let '(c, rs) := writes ops c in (c, r :: rs)
  end.
Definition datas (ops : list wop) : list (list byte) := (fun x => x.1.2) <$> ops.

(** A sequence that put a part of [bs] on the wire. *)
Definition wrote (bs : list byte) (ops : list wop) (c c' : TCPConn (Bloom := Bloom)) (rs : list (res nat)) : Prop :=
  (exists n, t_out (outp (wh c')) = t_out (outp (wh c)) ++ take n bs) /\ Forall (fun r => r <> Panic) rs /\ core c' = core c /\ addr c' = addr c /\ rd c' = rd c /\ bloom c' = bloom c /\
  (good (wh c) -> t_out (outp (wh c')) = t_out (outp (wh c)) ++ bs /\ rs = (fun b => Ret (length b)) <$> datas ops).

Lemma writes22_broken ops : forall c, writeBroken (wh c) = true -> exists rs, writes ops c = (c, rs) /\ Forall (fun r => r <> Panic) rs.
Proof.
  induction ops as [|[[salt b] now] ops IH]; intros c E; cbn [writes]; [by eexists|]. rewrite write22_broken by done. destruct (IH c E) as (rs & -> & F). eexists. split; [done|]. by constructor.
Qed.

Lemma writes_step bs bs' key k salt b now ops c c1 r h1 : write salt b now c = (c1, r) -> written bs key k (length b) (wh c) h1 r -> wh c1 = h1 ->
  core c1 = core c -> addr c1 = addr c -> rd c1 = rd c -> bloom c1 = bloom c ->
  (keyed key k h1 -> let '(c', rs) := writes ops c1 in wrote bs' ops c1 c' rs /\ requestSalt c' = requestSalt c1) ->
  let '(c', rs) := writes ((salt, b, now) :: ops) c in wrote (bs ++ bs') ((salt, b, now) :: ops) c c' rs /\ requestSalt c' = requestSalt c1.
Proof.
  intros E [G [(-> & Ho & K)|(e & n & -> & Ho & Br)]] Eh E1 E2 E3 E4 Next; cbn [writes]; rewrite E.
  - specialize (Next K). destruct (writes ops c1) as [c' rs]. destruct Next as [((m & Hm) & F & F1 & F2 & F3 & F4 & Hg) Es]. split; [|done]. subst h1. split_and!.
    + rewrite Hm, Ho, <- app_assoc. exists (length bs + m)%nat. by rewrite take_app_add.
    + by constructor.
    + congruence. + congruence. + congruence. + congruence.
    + intros W. destruct (G W) as [W1 _]. destruct (Hg W1) as [Hg1 ->]. rewrite Hg1, Ho, <- app_assoc. done.
  - destruct (writes22_broken ops c1) as (rs & -> & F); [by rewrite Eh|]. split; [|done]. split_and!.
    + rewrite Eh, Ho. exists (Nat.min n (length bs)). rewrite take_app_le by lia. f_equal. destruct (decide (n <= length bs)%nat); [by rewrite Nat.min_l|]. rewrite Nat.min_r, !firstn_all2 by lia. done.
    + by constructor. + done. + done. + done. + done.
    + intros W. by destruct (G W).
Qed.

Lemma writes_later ops : forall key k c, keyed key k (wh c) ->
  let '(c', rs) := writes ops c in wrote (frames key k (datas ops ≫= chunks_of)) ops c c' rs /\ requestSalt c' = requestSalt c.
Proof.
  induction ops as [|[[salt b] now] ops IH]; intros key k c K.
  { cbn. split; [|done]. split_and!; [exists 0%nat; by rewrite app_nil_r|done..|]. intros _. by rewrite app_nil_r. }
  destruct (write22_later salt b now key k c K) as (h1 & r & E & W). change (datas ((salt, b, now) :: ops) ≫= chunks_of) with (chunks_of b ++ (datas ops ≫= chunks_of)).
  rewrite tcp_frames_app. change (requestSalt c) with (requestSalt (set_wh h1 c)). eapply writes_step; [exact E|exact W|done..|]. intros K1. by apply IH.
Qed.

(** Everything a sequence of writes puts on the wire. *)
Definition wire (c : TCPConn (Bloom := Bloom)) (salt b : list byte) (now : Z) (ops : list wop) : list byte :=
  let key := session_key c salt in
  request (pskList (core c)) (addr c) key salt b now ++ frames key (2 + 2 * length (later_chunks (addr c) b)) (datas ops ≫= chunks_of).

Lemma writes_wire salt b now ops c : dialed c -> onceWrite (wh c) = false -> writeBroken (wh c) = false -> nonceWrite (wh c) = nonce_at N 0 ->
  let '(c', rs) := writes ((salt, b, now) :: ops) c in wrote (wire c salt b now ops) ((salt, b, now) :: ops) c c' rs /\ requestSalt c' = salt.
Proof.
  intros Hd Eo Eb En. destruct (write22_first salt b now c Hd Eo Eb En) as (h1 & r & E & W). unfold wire. cbv zeta.
  pose proof (writes_step _ (frames (session_key c salt) (2 + 2 * length (later_chunks (addr c) b)) (datas ops ≫= chunks_of)) _ _ salt b now ops c _ r h1 E W eq_refl eq_refl eq_refl eq_refl eq_refl) as S.
  destruct (writes _ c) as [c' rs]. apply S. intros K1. by apply writes_later.
Qed.

(** * Reading *)

Lemma read_in_app A R ck once nonce l i buf : read_in (length A) (MkRH ck once nonce l i buf (A ++ R)) = (MkRH ck once nonce l i buf R, Ret A).
Proof. unfold read_in. cbn [inp]. by rewrite readFull_app. Qed.
Lemma open_frame_ok key k p once l i buf I : open_frame (Seal key (nonce_at N k) p) (MkRH (Some key) once (nonce_at N k) l i buf I) =
  (MkRH (Some key) once (nonce_at N (S k)) l i buf I, Ret p).
Proof. unfold open_frame. st_pure. st_pure. cbn [nonceRead]. by rewrite Open_Seal. Qed.

Lemma read_chunk_ok q key k c R once buf : exists l i buf',
  read_chunk q (Z.of_nat (length c)) (MkRH (Some key) once (nonce_at N k) 0 0 buf (Seal key (nonce_at N k) c ++ R)) =
    (MkRH (Some key) once (nonce_at N (S k)) l i buf' R, Ret (take q c)) /\ pending (drop q c) l i buf'.
Proof.
  unfold read_chunk. st_pure. cbn [cipherRead]. cbv zeta. rewrite Nat2Z.id. st_pure. cbn [cipherRead onceRead nonceRead leftToRead indexToRead readCipherBuf inp].
  set (s := Seal key (nonce_at N k) c). assert (Ls : length s = (length c + TagLen conf)%nat) by (unfold s; apply Seal_length).
  rewrite <- Ls. erewrite st_bind_Ret; [|apply read_in_app]. cbv beta. erewrite st_bind_Ret; [|apply open_frame_ok]. cbv beta. st_pure. cbn [cipherRead onceRead nonceRead leftToRead indexToRead readCipherBuf inp].
  set (buf' := append_at _ 0 c). assert (Eb : take (length c) buf' = c /\ (length c <= length buf')%nat).
  { unfold buf', append_at. rewrite decide_True by (rewrite length_app; lia). rewrite take_0. cbn [app]. by rewrite take_app_length, length_app; split; [|lia]. }
  assert (Et : take (Nat.min q (length c)) c = take q c).
  { destruct (decide (q <= length c)%nat); [by rewrite Nat.min_l|]. rewrite Nat.min_r, !firstn_all2 by lia. done. }
  destruct (decide (Nat.min q (length c) < length c)%nat) as [D|D].
  - exists (length c), (Nat.min q (length c)), buf'. split; [by rewrite Et|]. right. split; [lia|]. rewrite (proj1 Eb). f_equal. lia.
  - exists 0%nat, 0%nat, buf'. split; [by rewrite Et|]. left. split; [apply drop_ge; lia|done].
Qed.

(** The reader has [left] to hand out and the chunks [cs] to read. *)
Definition reader (key left : list byte) (cs : list (list byte)) (h : readHalf) : Prop :=
  exists k l i buf, h = MkRH (Some key) true (nonce_at N k) l i buf (frames key k cs) /\ pending left l i buf /\ Forall chunk_ok cs.

Abbreviation read := (Read ExistOrAdd DeriveKey (Bloom := Bloom)).

Lemma on_rd22 {A} (m : st readHalf A) (c : TCPConn (Bloom := Bloom)) h r : m (rd c) = (h, r) -> on_rd m c = (set_rd h c, r).
Proof. intros E. unfold on_rd. by rewrite E. Qed.

Lemma reader_Read q now key left cs c : reader key left cs (rd c) -> exists h' r, read q now c = (set_rd h' c, r) /\
  ((exists left' cs' a, r = Ret a /\ left ++ concat cs = a ++ left' ++ concat cs' /\ reader key left' cs' h' /\ ((0 < q)%nat -> a <> [])) \/
   (left ++ concat cs = [] /\ r = Fail EOF)).
Proof.
  intros (k & l & i & buf & Eh & Hp & F). unfold Read. st_pure. rewrite Eh. cbn [indexToRead leftToRead onceRead]. destruct Hp as [(-> & -> & ->)|[B El]].
  - rewrite decide_False by lia. destruct cs as [|c0 cs].
    + assert (E : exists h, read_length (MkRH (Some key) true (nonce_at N k) 0 0 buf []) = (h, Fail EOF)).
      { unfold read_length. erewrite st_bind_Fail; [by eexists|]. unfold read_in. cbn [inp]. unfold readFull. rewrite decide_False by (cbn; lia). done. }
      destruct E as [h E]. cbn [frames]. erewrite st_bind_Fail; [|apply on_rd22; rewrite Eh; exact E]. eexists _, _. split; [done|]. by right.
    + apply Forall_cons in F as [[Hc Lc] F]. cbn [frames] in *. pose proof chunk_max_eq as ME. set (hd := be16 (Z.of_nat (length c0))) in *.
      assert (Lh : length hd = 2%nat) by apply length_be_put. set (s1 := Seal key (nonce_at N k) hd) in *. assert (L1 : length s1 = (2 + TagLen conf)%nat) by (unfold s1; by rewrite Seal_length, Lh).
      assert (E1 : read_length (rd c) = (MkRH (Some key) true (nonce_at N (S k)) 0 0 buf (Seal key (nonce_at N (S k)) c0 ++ frames key (S (S k)) cs), Ret (Z.of_nat (length c0)))).
      { rewrite Eh. unfold read_length. rewrite <- L1. erewrite st_bind_Ret; [|apply read_in_app]. cbv beta. erewrite st_bind_Ret; [|apply open_frame_ok]. cbv beta.
        st_lift ltac:(rewrite slice_eq, drop_0, firstn_all2 by lia; reflexivity). unfold hd. by rewrite (be_get_put_small 2) by (cbn; lia). }
      erewrite st_bind_Ret; [|apply on_rd22; exact E1]. cbv beta.
      destruct (read_chunk_ok q key (S k) c0 (frames key (S (S k)) cs) true buf) as (l' & i' & buf' & E2 & Hp). eexists _, _. split; [unfold on_rd; cbn [rd set_rd]; rewrite E2; reflexivity|].
      left. exists (drop q c0), cs, (take q c0). split; [done|]. split; [cbn [concat app]; by rewrite app_assoc, take_drop|]. split; [exists (S (S k)), l', i', buf'; split; [reflexivity|]; split; [exact Hp|exact F]|].
      intros Q. destruct c0; [done|]. by destruct q; [lia|].
  - rewrite decide_True by lia. unfold on_rd. rewrite Eh. unfold read_left. st_pure. cbn [leftToRead indexToRead readCipherBuf]. cbv zeta. rewrite <- El. st_pure. cbn [leftToRead].
    set (n := Nat.min q (length left)). assert (Ll : length left = (l - i)%nat) by (rewrite El, length_drop, length_take; lia).
    eexists _, _. split; [reflexivity|]. left. exists (drop n left), cs, (take n left). split; [done|]. split; [by rewrite app_assoc, take_drop|]. split.
    + case_decide as D; cbn [cipherRead onceRead nonceRead readCipherBuf inp]; (do 4 eexists; split; [reflexivity|]; split; [|done]).
      * left. split; [apply drop_ge; lia|done].
      * right. split; [lia|]. rewrite El, drop_drop. done.
    + intros Q. destruct left; [cbn in *; lia|]. unfold n. destruct q; [lia|]. done.
Qed.

(** Reads with buffers of the given sizes, up to the first error. *)
Fixpoint reads (qs : list nat) (now : Z) (c : TCPConn (Bloom := Bloom)) : list byte * option error * bool :=
  match qs with
  | [] => ([], None, false)
  | q :: qs =>
      match read q now c with
      | (c, Ret a) => let '(b, e, p) := reads qs now c in (a ++ b, e, p)
      | (_, Fail e) => ([], Some e, false)
      | (_, Panic) => ([], None, true)
      end
  end.

Lemma reader_reads now qs : forall key left cs c, reader key left cs (rd c) -> Forall (fun q => 0 < q)%nat qs -> (length (left ++ concat cs) < length qs)%nat ->
  reads qs now c = (left ++ concat cs, Some EOF, false).
Proof.
  induction qs as [|q qs IH]; intros key left cs c R Fq L; [cbn in L; lia|]. apply Forall_cons in Fq as [Hq Fq]. cbn [reads].
  destruct (reader_Read q now key left cs c R) as (h' & r & E & [(left' & cs' & a & -> & Ed & R' & Ha)|[Ed ->]]); rewrite E.
  - rewrite Ed in L |- *. specialize (Ha Hq). rewrite (IH key left' cs' (set_rd h' c) R' Fq); [done|]. rewrite length_app in L. destruct a; [done|]. cbn [length] in L. lia.
  - by rewrite Ed.
Qed.

(** ** Responses *)

Definition response_header (ts : Z) (salt : list byte) (n : nat) : list byte := HeaderTypeServerStream :: be_put 8 ts ++ salt ++ be16 (Z.of_nat n).
Definition response (key rsalt : list byte) (ts : Z) (salt c0 : list byte) (cs : list (list byte)) : list byte :=
  rsalt ++ Seal key (nonce_at N 0) (response_header ts salt (length c0)) ++ Seal key (nonce_at N 1) c0 ++ frames key 2 cs.

(** The filter, if there is one, has not seen the salt. *)
Definition salt_new (salt : list byte) (c : TCPConn (Bloom := Bloom)) : Prop := match bloom c with None => True | Some b => fst (ExistOrAdd b salt) = false end.

Lemma bloom_step salt (c : TCPConn (Bloom := Bloom)) : salt_new salt c -> exists bl,
  (match bloom c with
   | None => mret tt
   | Some b => let '(exists_, b) := ExistOrAdd b salt in _ ← modify (set_bloom (Some b)); if (exists_ : bool) then fail ErrReplayAttack else mret tt
   end) c = (set_bloom bl c, Ret tt).
Proof.
  unfold salt_new. destruct (bloom c) as [b|] eqn:E; [|exists (bloom c); by destruct c]. destruct (ExistOrAdd b salt) as [x b']. cbn. intros ->. by eexists.
Qed.

Lemma response_header_parts ts salt n : length salt = SaltLen conf -> let h := response_header ts salt n in
  length h = (11 + SaltLen conf)%nat /\ slice h 1 9 = Ret (be_put 8 ts) /\ slice h 9 (9 + SaltLen conf) = Ret salt /\ slice h (9 + SaltLen conf) (9 + SaltLen conf + 2) = Ret (be16 (Z.of_nat n)).
Proof.
  intros Ls. cbv zeta. unfold response_header. assert (L : length (HeaderTypeServerStream :: be_put 8 ts ++ salt ++ be16 (Z.of_nat n)) = (11 + SaltLen conf)%nat) by (cbn [length]; rewrite !length_app, !length_be_put; lia).
  split; [done|]. rewrite !slice_eq by lia. split_and!; f_equal.
  - rewrite add_sub_cancel. change (drop 9 _) with (drop 8 (be_put 8 ts ++ salt ++ be16 (Z.of_nat n))). rewrite (drop_app_length' (be_put 8 ts)) by (by rewrite length_be_put). by apply take_app_length'.
  - rewrite add_sub_cancel. change (drop (9 + SaltLen conf) _) with (drop (8 + SaltLen conf) (be_put 8 ts ++ salt ++ be16 (Z.of_nat n))).
    rewrite app_assoc, drop_app_length' by (rewrite length_app, length_be_put; lia). apply firstn_all2. by rewrite length_be_put.
Qed.

(** A response to the request is accepted. *)
Lemma first_Read q now rsalt ts c0 cs c buf ck : dialed c -> length (requestSalt c) = SaltLen conf -> length rsalt = SaltLen conf -> salt_new rsalt c ->
  0 <= ts < 2 ^ 62 -> now - TimestampTolerance <= ts * 10 ^ 9 <= now + TimestampTolerance -> (length c0 <= TCPChunkMaxLen)%nat -> Forall chunk_ok cs ->
  rd c = MkRH ck false (nonce_at N 0) 0 0 buf (response (session_key c rsalt) rsalt ts (requestSalt c) c0 cs) ->
  exists c', read q now c = (c', Ret (take q c0)) /\ reader (session_key c rsalt) (drop q c0) cs (rd c').
Proof.
  intros Hd Lq Lr Hb Hts Hn Lc F Er. unfold Read. st_pure. rewrite Er. cbn [indexToRead leftToRead onceRead]. rewrite decide_False by lia.
  set (key := session_key c rsalt) in *. set (hdr := response_header ts (requestSalt c) (length c0)). set (s0 := Seal key (nonce_at N 0) hdr). set (R := Seal key (nonce_at N 1) c0 ++ frames key 2 cs).
  destruct (response_header_parts ts (requestSalt c) (length c0) Lq) as (Lh & S1 & S2 & S3). fold hdr in Lh, S1, S2, S3. assert (L0 : length s0 = (11 + SaltLen conf + TagLen conf)%nat) by (unfold s0; rewrite Seal_length; lia).
  assert (E : exists c1, read_response_header ExistOrAdd DeriveKey now c = (c1, Ret (Z.of_nat (length c0))) /\ rd c1 = MkRH (Some key) true (nonce_at N 1) 0 0 buf R).
  { unfold read_response_header. st_pure. cbv zeta. erewrite st_bind_Ret; [|apply on_rd22; rewrite Er; unfold response; rewrite <- Lr; apply read_in_app]. cbv beta.
    rewrite CreateCipher_dialed by done. fold key. erewrite st_bind_Ret; [|apply on_rd22; reflexivity]. cbv beta. cbn [rd set_rd cipherRead onceRead nonceRead leftToRead indexToRead readCipherBuf inp].
    rewrite <- L0. erewrite st_bind_Ret; [|apply on_rd22; cbn [rd set_rd]; apply (read_in_app s0 R)]. cbv beta.
    erewrite st_bind_Ret; [|apply on_rd22; cbn [rd set_rd]; apply (open_frame_ok key 0 hdr)]. cbv beta. st_lift ltac:(reflexivity). st_lift ltac:(exact S1). cbv zeta.
    rewrite decide_False by (intros X; by apply X). rewrite (be_get_put_small 8) by (change (256 ^ Z.of_nat 8) with (2 ^ 64); lia).
    assert (int64 ts = ts) as -> by (unfold int64; rewrite Z.mod_small; lia). st_lift ltac:(by apply validate_near). st_pure. st_lift ltac:(exact S2). cbn [requestSalt set_rd].
    rewrite !bool_decide_true by done. cbn [andb negb bloom].
    match goal with |- context [(_ ≫= _) ?x] => set (cx := x) end. destruct (bloom_step rsalt cx Hb) as [bl Eb]. change (bloom c) with (bloom cx). rewrite (st_bind_Ret _ _ _ _ _ Eb).
    st_lift ltac:(exact S3). erewrite st_bind_Ret; [|apply on_rd22; reflexivity]. cbv beta. pose proof chunk_max_eq. rewrite (be_get_put_small 2) by (cbn; lia). eexists. split; [reflexivity|]. done. }
  destruct E as (c1 & E & Er1). rewrite (st_bind_Ret _ _ _ _ _ E). destruct (read_chunk_ok q key 1 c0 (frames key 2 cs) true buf) as (l & i & buf' & E2 & Hp).
  eexists. split; [unfold on_rd; rewrite Er1; unfold R; rewrite E2; reflexivity|]. exists 2%nat, l, i, buf'. split; [reflexivity|]. split; [exact Hp|exact F].
Qed.
End stream.
