(* ===== verification/Ss22Session.v ===== *)
(** A Shadowsocks 2022 stream from end to end: a server's view of the request and
    its chunks, the whole exchange, and the responses a client accepts. *)

From S2P Require Import Prelude GoStrings NetIP GoState Common Pool Transport SsKey SsChunks Ss22Core Ss22Wire Ss22Tcp Ss22Stream.
From Stdlib Require Import Strings.Byte.

Section session.
Context {BC : BlockCipher} {CA : AEAD} {Bloom : Type}.
Context (ExistOrAdd : Bloom -> list byte -> bool * Bloom).
Context (Sum512 : list byte -> list byte) (Sum512_length : forall m, length (Sum512 m) = 64%nat).
Context (DeriveKey : list byte -> list byte -> nat -> list byte) (DeriveKey_length : forall ctx m n, length (DeriveKey ctx m n) = n).
Abbreviation N := (NonceLen conf).
Abbreviation conn := (TCPConn (Bloom := Bloom)).
Abbreviation read := (Read ExistOrAdd DeriveKey (Bloom := Bloom)).

(** * The server *)

(** The data of a stream of sealed chunks, from the [k]-th nonce on. *)
Fixpoint open_frames (fuel : nat) (key : list byte) (k : nat) (s : list byte) : option (list byte) :=
  match s with
  | [] => Some []
  | _ =>
      match fuel with
      | O => None
      | S fuel =>
          h ← Open key (nonce_at N k) (take (2 + TagLen conf) s);
          let n := (Z.to_nat (be_get h) + TagLen conf)%nat in
          let s := drop (2 + TagLen conf) s in
          c ← Open key (nonce_at N (S k)) (take n s);
          r ← open_frames fuel key (S (S k)) (drop n s);
          Some (c ++ r)
      end
  end.

(** A request as the user's server reads it behind [relays] relays: type and time, target,
    data. *)
Definition open_request (psk : list byte) (relays : nat) (s : list byte) : option (byte * Z * AddressInfo * list byte) :=
  let key := DeriveKey Shadowsocks2022ReusedInfo (psk ++ take (SaltLen conf) s) (length psk) in
  let s := drop (SaltLen conf + 16 * relays) s in
  fixed ← Open key (nonce_at N 0) (take (11 + TagLen conf) s);
  let s := drop (11 + TagLen conf) s in
  let n := (Z.to_nat (be_get (drop 9 fixed)) + TagLen conf)%nat in
  var ← Open key (nonce_at N 1) (take n s);
  typ ← head fixed;
  match ReadAddrInfo var with
  | (var, Ret a) =>
      let data := drop (2 + Z.to_nat (be_get (take 2 var))) var in
      rest ← open_frames (length s) key 2 (drop n s);
      Some (typ, be_get (take 8 (drop 1 fixed)), a, data ++ rest)
  | _ => None
  end.

Lemma open_frames_cons fuel key k x s : open_frames (S fuel) key k (x :: s) =
  (h ← Open key (nonce_at N k) (take (2 + TagLen conf) (x :: s));
   c ← Open key (nonce_at N (S k)) (take (Z.to_nat (be_get h) + TagLen conf) (drop (2 + TagLen conf) (x :: s)));
   r ← open_frames fuel key (S (S k)) (drop (Z.to_nat (be_get h) + TagLen conf) (drop (2 + TagLen conf) (x :: s)));
   Some (c ++ r)).
Proof. reflexivity. Qed.

Lemma open_frames_ok key cs : Forall chunk_ok cs -> forall fuel k, (length cs <= fuel)%nat -> open_frames fuel key k (frames key k cs) = Some (concat cs).
Proof.
  induction cs as [|c cs IH]; intros F fuel k L; [by destruct fuel|]. apply Forall_cons in F as [[Hc Lc] F]. destruct fuel as [|fuel]; cbn [length] in L; [lia|].
  cbn [frames concat]. pose proof chunk_max_eq as ME. set (s1 := Seal key (nonce_at N k) _). assert (L1 : length s1 = (2 + TagLen conf)%nat) by (unfold s1; by rewrite Seal_length, length_be_put).
  set (s2 := Seal key (nonce_at N (S k)) c). assert (L2 : length s2 = (length c + TagLen conf)%nat) by apply Seal_length.
  destruct (s1 ++ s2 ++ frames key (S (S k)) cs) as [|x s] eqn:E; [apply (f_equal length) in E; rewrite length_app in E; cbn in E; lia|].
  rewrite open_frames_cons, <- E. rewrite (take_app_length' s1), (drop_app_length' s1) by done. unfold s1. rewrite Open_Seal. cbn [mbind option_bind].
  rewrite (be_get_put_small 2), Nat2Z.id by (cbn; lia). rewrite (take_app_length' s2), (drop_app_length' s2) by done. unfold s2. rewrite Open_Seal. cbn [mbind option_bind]. rewrite IH; [reflexivity|exact F|lia].
Qed.

Lemma length_concat_chunks cs : Forall chunk_ok cs -> (length cs <= length (concat cs))%nat.
Proof. induction 1 as [|c cs [Hc _] _ IH]; [done|]. cbn [concat length]. rewrite length_app. destruct c; [done|]. cbn [length]. lia. Qed.

(** The data behind the request header. *)
Definition all_chunks (a : AddressInfo) (b : list byte) (ops : list wop) : list (list byte) := later_chunks a b ++ (datas ops ≫= chunks_of).
Lemma all_chunks_ok a b ops : Forall chunk_ok (all_chunks a b ops).
Proof.
  apply Forall_app. split; [apply chunks_ok, chunk_max_pos|]. induction (datas ops) as [|d ds IH]; [constructor|]. apply Forall_app. split; [apply chunks_ok, chunk_max_pos|done].
Qed.
Lemma concat_chunks_of ds : concat (ds ≫= chunks_of) = concat ds.
Proof. induction ds as [|d ds IH]; [done|]. change ((d :: ds) ≫= chunks_of) with (chunks_of d ++ (ds ≫= chunks_of)). rewrite concat_app, IH, (chunks_of_concat _ chunk_max_pos). done. Qed.
Lemma concat_all_chunks a b ops : concat (all_chunks a b ops) = drop (initialPayloadLen (length (ai_bytes a)) b) b ++ concat (datas ops).
Proof. unfold all_chunks, later_chunks. by rewrite concat_app, concat_chunks_of, (chunks_of_concat _ chunk_max_pos). Qed.

Lemma open_request_ok (c : conn) salt b now ops : length salt = SaltLen conf -> ai_ok (addr c) -> 0 <= now / 10 ^ 9 < 2 ^ 64 ->
  open_request (uPSK (core c)) (length (pskList (core c)) - 1) (wire Sum512 DeriveKey c salt b now ops) =
    Some (HeaderTypeClientStream, now / 10 ^ 9, addr c, b ++ concat (datas ops)).
Proof.
  intros Ls Ha Hn. unfold open_request, wire, request. cbv zeta. set (key := session_key DeriveKey c salt). set (ids := identity_blocks _ _ _ _).
  assert (Li : length ids = (16 * (length (pskList (core c)) - 1))%nat) by apply length_identity_blocks.
  rewrite <- !app_assoc, take_app_length' by done. fold (session_key DeriveKey c salt). fold key. rewrite (app_assoc salt ids), (drop_app_length' (salt ++ ids)) by (rewrite length_app; lia).
  rewrite <- tcp_frames_app. fold (all_chunks (addr c) b ops). set (vh := var_header (addr c) b). set (fh := fixed_header now (length vh)).
  assert (Lf : length fh = 11%nat) by apply length_fixed_header. rewrite (take_app_length' (Seal key (nonce_at N 0) fh)), (drop_app_length' (Seal key (nonce_at N 0) fh)) by (rewrite Seal_length; lia).
  rewrite Open_Seal. cbn [mbind option_bind]. assert (D9 : drop 9 fh = be16 (Z.of_nat (length vh))) by done. assert (Lv : (length vh <= TCPChunkMaxLen)%nat).
  { unfold vh. rewrite length_var_header. unfold initialPayloadLen. pose proof chunk_max_eq. pose proof (ai_bytes_short _ Ha). lia. }
  pose proof chunk_max_eq as ME. rewrite D9, (be_get_put_small 2), Nat2Z.id by (change (256 ^ Z.of_nat 2) with 65536; lia). rewrite (take_app_length' (Seal key (nonce_at N 1) vh)), (drop_app_length' (Seal key (nonce_at N 1) vh)) by (by rewrite Seal_length).
  rewrite Open_Seal. cbn [mbind option_bind]. change (head fh) with (Some HeaderTypeClientStream). cbn [mbind option_bind]. unfold vh at 1, var_header. rewrite ReadAddrInfo_ok by done.
  rewrite open_frames_ok; [|apply all_chunks_ok|].
  - cbn [mbind option_bind]. change (take 8 (drop 1 fh)) with (be_put 8 (now / 10 ^ 9)). rewrite (be_get_put_small 8) by done. rewrite take_app_length' by (by rewrite length_be_put). change (Z.to_nat (be_get (be16 0))) with 0%nat.
    rewrite Nat.add_0_r, (drop_app_length' (be16 0)) by (by rewrite length_be_put). rewrite concat_all_chunks, app_assoc, take_drop. done.
  - rewrite length_app, length_frames. pose proof (length_concat_chunks _ (all_chunks_ok (addr c) b ops)). lia.
Qed.

(** * The exchange *)

(** C4: A stream from end to end.  The writes of a new connection put on the wire a request
    from which the server, behind any number of relays, takes the client's time, the target
    and all the data, whatever the sizes of the writes; over a transport that fails, a
    prefix of it and errors, never a panic.  Then a response bound to the request by its
    salt is read back exactly, with buffers of any sizes, to its end. *)
Theorem ss2022_tcp_stream co a bl i plan salt b now ops :
  Forall psk_ok (pskList co) -> psk_ok (uPSK co) -> length (uPSK co) = KeyLen conf -> ai_ok a -> length salt = SaltLen conf -> 0 <= now / 10 ^ 9 < 2 ^ 64 ->
  let c := NewTCPConn (Bloom := Bloom) co a bl i (MkTconn [] plan false) in
  let W := wire Sum512 DeriveKey c salt b now ops in
  let '(c', rs) := writes Sum512 DeriveKey ((salt, b, now) :: ops) c in
  open_request (uPSK co) (length (pskList co) - 1) W = Some (HeaderTypeClientStream, now / 10 ^ 9, a, b ++ concat (datas ops)) /\
  (exists n, t_out (outp (wh c')) = take n W) /\ Forall (fun r => r <> Panic) rs /\
  (plan = [] -> t_out (outp (wh c')) = W /\ rs = (fun d => Ret (length d)) <$> b :: datas ops) /\
  forall rsalt ts c0 cs now' q qs, length rsalt = SaltLen conf -> salt_new ExistOrAdd rsalt c -> 0 <= ts < 2 ^ 62 ->
    now' - TimestampTolerance <= ts * 10 ^ 9 <= now' + TimestampTolerance -> (length c0 <= TCPChunkMaxLen)%nat -> Forall chunk_ok cs ->
    i = response (session_key DeriveKey c rsalt) rsalt ts salt c0 cs -> Forall (fun q => 0 < q)%nat qs -> (length (c0 ++ concat cs) < length qs)%nat ->
    reads ExistOrAdd DeriveKey (q :: qs) now' c' = (c0 ++ concat cs, Some EOF, false).
Proof.
  intros Hp Hu Lu Ha Ls Hn c W. assert (Hd : dialed c) by done. pose proof (writes_wire Sum512 Sum512_length DeriveKey DeriveKey_length salt b now ops c Hd eq_refl eq_refl eq_refl) as Hw.
  destruct (writes _ _ _ c) as [c' rs]. destruct Hw as [((n & Hout) & Fr & Ec & Ead & Er & Eb & Hg) Es].
  split; [by apply (open_request_ok c)|]. split; [by exists n|]. split; [done|]. split; [intros ->; by apply Hg|].
  intros rsalt ts c0 cs now' q qs Lr Hb Hts Hnow L0 Fcs Ei Fq Lq. assert (Ek : session_key DeriveKey c rsalt = session_key DeriveKey c' rsalt) by (unfold session_key; by rewrite Ec).
  destruct (first_Read ExistOrAdd DeriveKey DeriveKey_length q now' rsalt ts c0 cs c' [] None) as (c2 & E & R).
  - unfold dialed. by rewrite Ec, Ead.
  - by rewrite Es.
  - done.
  - unfold salt_new. by rewrite Eb.
  - done.
  - done.
  - done.
  - done.
  - rewrite Er, Es, <- Ek, <- Ei. reflexivity.
  - cbn [reads]. rewrite E. rewrite (reader_reads _ _ _ _ _ _ _ _ R Fq).
    + by rewrite app_assoc, take_drop.
    + rewrite length_app, length_drop. rewrite length_app in Lq. lia.
Qed.

(** * Which responses are accepted *)

(** What holds after a step, whatever its outcome. *)
Definition post {S A} (m : st S A) (s : S) (Q : S -> res A -> Prop) : Prop := let '(s', r) := m s in Q s' r.
Lemma post_bind {S A B} (m : st S A) (f : A -> st S B) s Q :
  post m s (fun s' r => match r with Ret a => post (f a) s' Q | Fail e => Q s' (Fail e) | Panic => Q s' Panic end) -> post (m ≫= f) s Q.
Proof. unfold post, mbind, st_bind. destruct (m s) as [s' [a|e|]]; done. Qed.
Lemma post_imp {S A} (m : st S A) s (Q Q' : S -> res A -> Prop) : post m s Q -> (forall s' r, Q s' r -> Q' s' r) -> post m s Q'.
Proof. unfold post. destruct (m s). eauto. Qed.
Lemma post_lift {S A B} (x : res A) a (f : A -> st S B) s Q : x = Ret a -> post (f a) s Q -> post (lift x ≫= f) s Q.
Proof. intros ->. done. Qed.
Lemma post_get {S B} (f : S -> st S B) s Q : post (f s) s Q -> post (get ≫= f) s Q.
Proof. done. Qed.
Lemma post_on_rd {A} (m : st readHalf A) (c : conn) Q : post m (rd c) (fun h r => Q (set_rd h c) r) -> post (on_rd m) c Q.
Proof. unfold post, on_rd. by destruct (m (rd c)). Qed.

(** The read half once its input is [i]; its nonce [n]. *)
Definition with_inp (i : stream) (h : readHalf) : readHalf := MkRH (cipherRead h) (onceRead h) (nonceRead h) (leftToRead h) (indexToRead h) (readCipherBuf h) i.

Lemma post_read_in n h (Q : readHalf -> res (list byte) -> Prop) :
  (forall A R, inp h = A ++ R -> length A = n -> Q (with_inp R h) (Ret A)) -> (forall e, Q (with_inp [] h) (Fail e)) -> post (read_in n) h Q.
Proof.
  intros HR HF. unfold post, read_in, readFull. case_decide; [|apply HF]. apply HR; [by rewrite take_drop|]. rewrite length_take. lia.
Qed.
Lemma post_open_frame frame h key (Q : readHalf -> res (list byte) -> Prop) : cipherRead h = Some key ->
  (forall p, Open key (nonceRead h) frame = Some p -> length frame = (length p + TagLen conf)%nat -> Q (set_nonceRead (BytesIncLittleEndian (nonceRead h)) h) (Ret p)) ->
  Q h (Fail ErrFailAuth) -> post (open_frame frame) h Q.
Proof.
  intros Ek HR HF. unfold post, open_frame. st_pure. rewrite Ek. st_pure. destruct (Open key (nonceRead h) frame) as [p|] eqn:E; [|done]. apply HR; [done|]. by apply Open_length in E.
Qed.

(** The header of a response to the connection's request, fresh at [now]. *)
Definition accepted (now : Z) (c : conn) : Prop := exists rsalt frame rest hdr,
  inp (rd c) = rsalt ++ frame ++ rest /\ length rsalt = SaltLen conf /\ Open (session_key DeriveKey c rsalt) (nonceRead (rd c)) frame = Some hdr /\
  hdr !! 0%nat = Some HeaderTypeServerStream /\ validateTimestamp (time_Unix (int64 (be_get (take 8 (drop 1 hdr))))) (clock now) = Ret tt /\
  take (SaltLen conf) (drop 9 hdr) = requestSalt c /\ length (requestSalt c) = SaltLen conf /\ salt_new ExistOrAdd rsalt c.

(** A reader with a cipher once the header was accepted and nothing to hand out before. *)
Definition rd_ok (h : readHalf) : Prop := if onceRead h then is_Some (cipherRead h) else leftToRead h = 0%nat.
Definition same (c c' : conn) : Prop := core c' = core c /\ addr c' = addr c /\ requestSalt c' = requestSalt c /\ exists skip, inp (rd c) = skip ++ inp (rd c').

Definition refused (c c' : conn) {A} (r : res A) : Prop := (exists e, r = Fail e) /\ onceRead (rd c') = false /\ leftToRead (rd c') = 0%nat /\ same c c'.

Lemma refuse c c' {A} e : onceRead (rd c') = false -> leftToRead (rd c') = 0%nat -> core c' = core c -> addr c' = addr c -> requestSalt c' = requestSalt c ->
  (exists skip, inp (rd c) = skip ++ inp (rd c')) -> refused c c' (A := A) (Fail e).
Proof. intros ??????. split_and!; [by eexists|done|done|]. by split_and!. Qed.

Lemma header_post now c : dialed c -> onceRead (rd c) = false -> leftToRead (rd c) = 0%nat ->
  post (read_response_header ExistOrAdd DeriveKey now) c (fun c' r =>
    refused c c' r \/ (exists n, r = Ret n) /\ onceRead (rd c') = true /\ is_Some (cipherRead (rd c')) /\ same c c' /\ accepted now c).
Proof.
  intros Hd Eo El. unfold read_response_header. apply post_get, post_bind, post_on_rd, post_read_in.
  2:{ intros e. left. apply refuse; try done. by exists (inp (rd c)); rewrite app_nil_r. }
  intros rsalt R Ei Lr. rewrite CreateCipher_dialed by done. set (key := session_key DeriveKey c rsalt). apply post_bind. unfold post at 1, on_rd at 1, modify at 1. cbn [rd set_rd with_inp cipherRead onceRead nonceRead leftToRead indexToRead readCipherBuf inp].
  apply post_bind, post_on_rd, post_read_in.
  2:{ intros e. left. apply refuse; try done. by exists (inp (rd c)); rewrite app_nil_r. }
  intros frame rest Er Lf. cbn [inp rd set_rd] in Er. subst R.
  assert (Sk : exists skip, inp (rd c) = skip ++ rest) by (exists (rsalt ++ frame); by rewrite Ei, app_assoc).
  apply post_bind, post_on_rd. eapply post_open_frame; [reflexivity| |].
  2:{ left. by apply refuse. }
  intros hdr Eh Lh. cbn [rd set_rd with_inp cipherRead onceRead nonceRead leftToRead indexToRead readCipherBuf inp set_nonceRead] in *.
  assert (Lhdr : length hdr = (11 + SaltLen conf)%nat) by lia.
  destruct hdr as [|typ hdr'] eqn:Et; [cbn in Lhdr; lia|]. rewrite <- Et in *. eapply post_lift; [by rewrite Et|]. eapply post_lift; [apply slice_eq; lia|].
  destruct (decide (typ <> HeaderTypeServerStream)) as [D|D]; [left; by apply refuse|]. apply dec_stable in D. subst typ.
  destruct (validateTimestamp _ _) as [[]|e|] eqn:Ev; [|left; by apply refuse|unfold validateTimestamp in Ev; by case_decide]. apply (post_lift _ tt); [done|].
  apply post_get. eapply post_lift; [apply slice_eq; lia|]. cbn [requestSalt set_rd]. rewrite add_sub_cancel. destruct (bool_decide (length (requestSalt c) = _)) eqn:B1; [|left; by apply refuse].
  destruct (bool_decide (requestSalt c = _)) eqn:B2; [|left; by apply refuse]. apply bool_decide_eq_true in B1, B2. cbn [andb negb bloom].
  assert (Acc : salt_new ExistOrAdd rsalt c -> accepted now c).
  { intros Sn. exists rsalt, frame, rest, hdr. split_and!; try done. by rewrite Et. }
  apply post_bind. cbn [bloom set_rd]. unfold salt_new in Acc. destruct (bloom c) as [bl|] eqn:Ebl.
  - destruct (ExistOrAdd bl rsalt) as [x bl']. apply post_bind. unfold post at 1, modify. destruct x; [left; by apply refuse|]. cbn [post mret st_ret]. unfold post at 1, mret, st_ret.
    eapply post_lift; [apply slice_eq; lia|]. right. split_and!; [by eexists|done|by eexists|by split_and!|by apply Acc].
  - unfold post at 1, mret, st_ret. eapply post_lift; [apply slice_eq; lia|]. right. split_and!; [by eexists|done|by eexists|by split_and!|by apply Acc].
Qed.

(** The chunks behind an accepted header. *)
Definition goes_on (h h' : readHalf) {A} (r : res A) : Prop := r <> Panic /\ onceRead h' = onceRead h /\ is_Some (cipherRead h') /\ exists skip, inp h = skip ++ inp h'.

Lemma length_post h : is_Some (cipherRead h) -> post read_length h (fun h' r => goes_on h h' r).
Proof.
  intros [key Ek]. unfold read_length. apply post_bind, post_read_in.
  2:{ intros e. split_and!; [done|done|by eexists|]. by exists (inp h); rewrite app_nil_r. }
  intros frame rest Ei Lf. eapply post_bind, post_open_frame; [exact Ek| |]; [|split_and!; [done|done|by eexists|by exists frame]].
  intros p _ Lp. eapply post_lift; [apply slice_eq; lia|]. split_and!; [done|done|by eexists|by exists frame].
Qed.

Lemma chunk_post k n h : is_Some (cipherRead h) -> post (read_chunk k n) h (fun h' r => goes_on h h' r).
Proof.
  intros [key Ek]. unfold read_chunk. apply post_get. rewrite Ek. cbv zeta. apply post_bind. unfold post at 1, modify at 1. apply post_bind, post_read_in.
  2:{ intros e. split_and!; [done|done|by eexists|]. by exists (inp h); rewrite app_nil_r. }
  intros frame rest Ei Lf. eapply post_bind, post_open_frame; [exact Ek| |]; [|split_and!; [done|done|by eexists|by exists frame]].
  intros p _ Lp. apply post_bind. unfold post at 1, modify. case_decide; (split_and!; [done|done|by eexists|by exists frame]).
Qed.

Lemma same_refl (c : conn) h : (exists skip, inp (rd c) = skip ++ inp h) -> same c (set_rd h c).
Proof. intros H. by split_and!. Qed.
Lemma same_trans (c c1 c2 : conn) : same c c1 -> same c1 c2 -> same c c2.
Proof. intros (A1 & B1 & C1 & [x X]) (A2 & B2 & C2 & [y Y]). split_and!; [congruence..|]. exists (x ++ y). by rewrite X, Y, app_assoc. Qed.

Lemma Read_post q now c : dialed c -> rd_ok (rd c) -> post (read q now) c (fun c' r =>
  r <> Panic /\ rd_ok (rd c') /\ same c c' /\ (onceRead (rd c) = false -> accepted now c \/ (onceRead (rd c') = false /\ exists e, r = Fail e))).
Proof.
  intros Hd Hr. unfold Read. apply post_get. unfold rd_ok in Hr. destruct (onceRead (rd c)) eqn:Eo.
  - case_decide.
    + apply post_on_rd. unfold read_left, post. st_pure. cbv zeta. st_pure. unfold mret, st_ret. case_decide; (split_and!; [done|unfold rd_ok; cbn [rd set_rd onceRead cipherRead]; by rewrite Eo|apply same_refl; by exists []|done]).
    + apply post_bind, post_on_rd. eapply post_imp; [by apply length_post|]. intros h1 r (Np & E1 & K1 & S1). destruct r as [n|e|]; [| |done].
      * apply post_on_rd. eapply post_imp; [apply chunk_post; exact K1|]. intros h2 r2 (Np2 & E2 & K2 & S2). cbn [rd set_rd] in *.
        split_and!; [done|unfold rd_ok; cbn [rd set_rd]; by rewrite E2, E1, Eo| |done]. eapply same_trans; [apply same_refl; exact S1|]. by apply (same_refl (set_rd h1 c) h2).
      * split_and!; [done|unfold rd_ok; cbn [rd set_rd]; by rewrite E1, Eo|by apply same_refl|done].
  - rewrite decide_False by lia. apply post_bind. eapply post_imp; [by apply header_post|]. intros c1 r [([e ->] & E1 & L1 & S1)|([n ->] & E1 & K1 & S1 & Acc)].
    + split_and!; [done|unfold rd_ok; by rewrite E1|done|]. intros _. right. split; [done|by eexists].
    + apply post_on_rd. eapply post_imp; [apply chunk_post; exact K1|]. intros h2 r2 (Np2 & E2 & K2 & S2).
      split_and!; [done|unfold rd_ok; cbn [rd set_rd]; by rewrite E2, E1| |by left]. eapply same_trans; [exact S1|]. by apply same_refl.
Qed.

(** Reads that go on after errors: the buffer size and the clock of each. *)
Fixpoint read_all (ops : list (nat * Z)) (c : conn) : conn * list (res (list byte)) :=
  match ops with
  | [] => (c, [])
  | (q, now) :: ops => let '(c, r) := read q now c in let '(c, rs) := read_all ops c in (c, r :: rs)
  end.

Lemma read_all_safe ops : forall c, dialed c -> rd_ok (rd c) -> Forall (fun r => r <> Panic) (read_all ops c).2.
Proof.
  induction ops as [|[q now] ops IH]; intros c Hd Hr; [constructor|]. cbn [read_all]. pose proof (Read_post q now c Hd Hr) as P. unfold post in P.
  destruct (read q now c) as [c1 r]. destruct P as (Np & Hr1 & (E1 & E2 & _) & _). assert (Hd1 : dialed c1) by (unfold dialed; by rewrite E1, E2). specialize (IH c1 Hd1 Hr1).
  destruct (read_all ops c1) as [c2 rs]. by constructor.
Qed.

(** C24: No data before a response to this request.  Whatever bytes arrive and however often
    the caller retries, no Read panics, and one returns data only after a Read that found,
    at the start of the remaining input, a salt the filter had not seen and a header sealed
    with the user's key: of a server, with a time within 30 seconds, and echoing the salt
    of the client's own request. *)
Theorem ss2022_response_bound ops c : dialed c -> onceRead (rd c) = false -> leftToRead (rd c) = 0%nat ->
  let '(_, rs) := read_all ops c in
  Forall (fun r => r <> Panic) rs /\
  forall i a, rs !! i = Some (Ret a) -> exists j q now, (j <= i)%nat /\ ops !! j = Some (q, now) /\
    let cj := (read_all (take j ops) c).1 in accepted now cj /\ same c cj.
Proof.
  intros Hd Eo El. assert (Hr : rd_ok (rd c)) by (unfold rd_ok; by rewrite Eo). clear El. revert c Hd Eo Hr.
  induction ops as [|[q now] ops IH]; intros c Hd Eo Hr; [split; [constructor|done]|]. cbn [read_all]. pose proof (Read_post q now c Hd Hr) as P. unfold post in P.
  destruct (read q now c) as [c1 r] eqn:Er. destruct P as (Np & Hr1 & S1 & P). assert (Hd1 : dialed c1) by (destruct S1 as (E1 & E2 & _); unfold dialed; by rewrite E1, E2).
  destruct (P Eo) as [Acc|[Eo1 [e ->]]].
  - pose proof (read_all_safe ops c1 Hd1 Hr1) as L. destruct (read_all ops c1) as [c2 rs]. split; [by constructor|]. intros i a _. exists 0%nat, q, now. split; [lia|]. split; [done|]. split; [done|]. by split_and!; try done; exists [].
  - specialize (IH c1 Hd1 Eo1 Hr1). destruct (read_all ops c1) as [c2 rs]. destruct IH as [Fr H]. split; [by constructor|]. intros [|i] a Hi; [done|]. destruct (H i a Hi) as (j & q' & now' & Lj & Hj & Acc & Sj).
    exists (S j), q', now'. split; [lia|]. split; [done|]. cbn [take read_all]. rewrite Er. destruct (read_all (take j ops) c1) as [cj rj]. split; [done|]. by eapply same_trans.
Qed.
End session.

(** * Witnesses *)

Definition demo22_bloom (seen : list (list byte)) (salt : list byte) : bool * list (list byte) := (bool_decide (salt ∈ seen), salt :: seen).
Definition demo22_time : Z := 1700000000 * 10 ^ 9.
Definition demo22_tcp (i : stream) : TCPConn := NewTCPConn (CA := demo_aead) demo22_core demo22_addr (Some ([] : list (list byte))) i (MkTconn [] [] false).
Definition demo22_response : stream :=
  response (CA := demo_aead) (session_key demo22_derive (demo22_tcp []) (replicate 16 x55)) (replicate 16 x55) 1700000001 (replicate 16 x44) [x61; x62] [[x63]].
Lemma demo22_time_ok : 0 <= demo22_time / 10 ^ 9 < 2 ^ 64.
Proof. split; vm_compute; discriminate || reflexivity. Qed.
Lemma demo22_keys_ok : Forall psk_ok (pskList demo22_core).
Proof. exact (pr_keys _ _ _ demo22_profile). Qed.
Lemma demo22_addr_ok : ai_ok demo22_addr.
Proof. split; [cbn; lia|]. split; [reflexivity|]. split; reflexivity. Qed.
Definition demo22_writes : list wop := [([], [x69; x6a], 0)].
Abbreviation demo22_written := (writes (BC := demo_cipher) (CA := demo_aead) (demo_hash 64) demo22_derive ((replicate 16 x44, [x68], demo22_time) :: demo22_writes)).

(** Two writes through one relay, then a response of two chunks read byte by byte. *)
Lemma ss2022_tcp_stream_witness : exists c',
  demo22_written (demo22_tcp demo22_response) = (c', [Ret 1%nat; Ret 2%nat]) /\
  open_request (CA := demo_aead) demo22_derive (replicate 16 x22) 1 (t_out (outp (wh c'))) = Some (HeaderTypeClientStream, 1700000000, demo22_addr, [x68; x69; x6a]) /\
  reads (CA := demo_aead) demo22_bloom demo22_derive [1; 1; 1; 1; 1]%nat demo22_time c' = ([x61; x62; x63], Some EOF, false).
Proof.
  pose proof (ss2022_tcp_stream (BC := demo_cipher) (CA := demo_aead) demo22_bloom (demo_hash 64) (length_demo_hash 64) demo22_derive (fun ctx m n => length_demo_hash n m)
    demo22_core demo22_addr (Some []) demo22_response [] (replicate 16 x44) [x68] demo22_time demo22_writes) as H.
  specialize (H demo22_keys_ok (or_introl eq_refl) eq_refl demo22_addr_ok eq_refl demo22_time_ok). cbv zeta in H. unfold demo22_tcp.
  destruct (writes _ _ _ _) as [c' rs]. destruct H as (Ho & _ & _ & G & Hrd). destruct (G eq_refl) as [Eo ->]. exists c'. split; [done|]. split; [rewrite Eo; exact Ho|].
  refine (Hrd (replicate 16 x55) 1700000001 [x61; x62] [[x63]] demo22_time 1%nat [1; 1; 1; 1]%nat _ _ _ _ _ _ _ _ _); clear.
  - reflexivity.
  - reflexivity.
  - lia.
  - unfold demo22_time, TimestampTolerance. lia.
  - pose proof chunk_max_eq. cbn [length]. lia.
  - pose proof chunk_max_eq. constructor; [|constructor]. split; [discriminate|cbn [length]; lia].
  - vm_compute. reflexivity.
  - repeat constructor.
  - cbn. lia.
Defined.

(** A response to another request yields an error and no data. *)
Lemma ss2022_response_bound_witness : exists c,
  read_all (CA := demo_aead) demo22_bloom demo22_derive [(4%nat, demo22_time); (4%nat, demo22_time)] (set_salt (replicate 16 x45) (demo22_tcp demo22_response)) =
    (c, [Fail ErrFailAuth; Fail ErrUnexpectedEOF]) /\ Forall (fun r => r <> Panic) [Fail (A := list byte) ErrFailAuth; Fail ErrUnexpectedEOF].
Proof.
  pose proof (ss2022_response_bound (CA := demo_aead) demo22_bloom demo22_derive (fun ctx m n => length_demo_hash n m) [(4%nat, demo22_time); (4%nat, demo22_time)]
    (set_salt (replicate 16 x45) (demo22_tcp demo22_response))) as H.
  assert (Hd : dialed (CA := demo_aead) (set_salt (replicate 16 x45) (demo22_tcp demo22_response))) by (split; [repeat constructor|]; split; [by left|]; split; [reflexivity|exact demo22_addr_ok]).
  specialize (H Hd eq_refl eq_refl).
  assert (E : (read_all (CA := demo_aead) demo22_bloom demo22_derive [(4%nat, demo22_time); (4%nat, demo22_time)] (set_salt (replicate 16 x45) (demo22_tcp demo22_response))).2 =
    [Fail ErrFailAuth; Fail ErrUnexpectedEOF]) by (vm_compute; reflexivity).
  destruct (read_all _ _ _ _) as [c rs]. cbn [snd] in E. subst rs. exists c. split; [done|apply H].
Defined.
