(* ===== verification/VmessKdf.v ===== *)
(** The key derivation of VMess (protocol/vmess/cipher.go): nested HMACs, as the
    reference builds them and as the evaluator in one scratch array does.

    SHA-256 is a parameter; [SsKey.HMAC] is crypto/hmac over any hash of 64-byte
    blocks, which an HMAC over such a hash is again. *)

From S2P Require Import Prelude GoStrings SsKey.
From Stdlib Require Import Strings.Byte.

Section kdf.
Context (sha256 : list byte -> list byte).

(** * The reference *)

Inductive hMacCreator := MkCreator (parent : option hMacCreator) (value : list byte).
Fixpoint Create (h : hMacCreator) : list byte -> list byte :=
  match h with
  | MkCreator None value => HMAC sha256 value
  | MkCreator (Some parent) value => HMAC (Create parent) value
  end.

Definition KDFSaltConstVMessAEADKDF : list byte := lit "VMess AEAD KDF".
Definition kdfReference (key : list byte) (path : list (list byte)) : list byte :=
  Create (fold_left (fun c v => MkCreator (Some c) v) path (MkCreator None KDFSaltConstVMessAEADKDF)) key.

(** * The evaluator *)

(** A slice: memory of its own, or a range of the scratch array (up to whose end its
    capacity reaches). *)
Inductive bytes_ref := Ext (b : list byte) | Rng (off len : nat).
Definition ref_len (s : bytes_ref) : nat := match s with Ext b => length b | Rng _ l => l end.
Definition deref (mem : list byte) (s : bytes_ref) : list byte := match s with Ext b => b | Rng o l => take l (drop o mem) end.

(** [append(s, x...)]: in place when it fits, in fresh memory otherwise. *)
Definition append_ref (mem : list byte) (s : bytes_ref) (x : list byte) : list byte * bytes_ref :=
  match s with
  | Ext b => (mem, Ext (b ++ x))
  | Rng o l =>
      if decide (o + l + length x <= length mem)%nat then (take (o + l) mem ++ x ++ drop (o + l + length x) mem, Rng o (l + length x))
      else (mem, Ext (deref mem s ++ x))
  end.

Inductive kdfChainNode := Node (iPad oPad : list byte) (child : option kdfChainNode).

(** [buf] is the scratch array from [off] on. *)
Fixpoint sum (n : kdfChainNode) (msg : bytes_ref) (off : nat) (mem : list byte) : res (list byte * list byte) :=
  let '(Node iPad oPad child) := n in
  let next (mem : list byte) (s : bytes_ref) : res (list byte * list byte) :=
    match child with
    | None => Ret (mem, sha256 (deref mem s))
    | Some c => if decide (ref_len s <= length mem - off)%nat then sum c s (off + ref_len s) mem else Panic
    end in
  let '(mem, s) := append_ref mem (Rng off 0) iPad in
  let '(mem, s) := append_ref mem s (deref mem msg) in
  '(mem, inner) ← next mem s;
  let '(mem, s) := append_ref mem (Rng off 0) oPad in
  let '(mem, s) := append_ref mem s inner in
  next mem s.

Definition pads (k : list byte) (x : Z) : list byte := (fun i => xor_with x (default x00 (k !! i))) <$> seq 0 64.
Definition kdfChainNodeWithKey (key : list byte) (child : option kdfChainNode) (mem : list byte) : res (list byte * kdfChainNode) :=
  '(mem, k) ← (if decide (64 < length key)%nat
               then match child with None => Ret (mem, sha256 key) | Some c => sum c (Ext key) 0 mem end
               else Ret (mem, key));
  Ret (mem, Node (pads k 0x36) (pads k 0x5c) child).

Definition kdfMaxChainLen : nat := 8.
Definition kdfMaxKeyLen : nat := 256.
Definition kdfMaxPathElemLen : nat := 256.
Definition kdfScratchSize : nat := Z.to_nat (8 * 9 / 2 * 64 + 8 * 256).

Fixpoint chain (path : list (list byte)) (n : kdfChainNode) (mem : list byte) : res (list byte * kdfChainNode) :=
  match path with
  | [] => Ret (mem, n)
  | v :: path => '(mem, n) ← kdfChainNodeWithKey v (Some n) mem; chain path n mem
  end.
Definition KDF (key : list byte) (path : list (list byte)) : res (list byte) :=
  if decide (length path = 0%nat \/ (kdfMaxChainLen <= length path)%nat \/ (kdfMaxKeyLen < length key)%nat) then Ret (kdfReference key path)
  else if existsb (fun v => bool_decide (kdfMaxPathElemLen < length v)%nat) path then Ret (kdfReference key path)
  else
    '(mem, n) ← kdfChainNodeWithKey KDFSaltConstVMessAEADKDF None (replicate kdfScratchSize x00);
    '(mem, n) ← chain path n mem;
    '(_, out) ← sum n (Ext key) 0 mem;
    Ret out.

(** * Equivalence *)

Context (sha256_length : forall m, length (sha256 m) = 32%nat).

(** The hash a node stands for, and its depth. *)
Fixpoint node_hash (n : kdfChainNode) (m : list byte) : list byte :=
  let '(Node iPad oPad child) := n in
  let h := match child with None => sha256 | Some c => node_hash c end in h (oPad ++ h (iPad ++ m)).
Fixpoint depth (n : kdfChainNode) : nat := let '(Node _ _ child) := n in match child with None => 1%nat | Some c => S (depth c) end.
Fixpoint node_wf (n : kdfChainNode) : Prop :=
  let '(Node iPad oPad child) := n in length iPad = 64%nat /\ length oPad = 64%nat /\ match child with None => True | Some c => node_wf c end.

Lemma length_node_hash n : forall m, length (node_hash n m) = 32%nat.
Proof.
  revert n. fix IH 1. intros [i o [c|]] m; cbn [node_hash]; [apply IH|apply sha256_length].
Qed.

(** Scratch space for a message of [l] bytes at depth [d]. *)
Definition room (d l : nat) : nat := (d * l + 32 * d * (d + 1))%nat.
Lemma room_S d l : room (S d) l = (64 + l + room d (64 + l))%nat.
Proof. unfold room. nia. Qed.
Lemma room_mono d l l' : (l <= l')%nat -> (room d l <= room d l')%nat.
Proof. unfold room. nia. Qed.

(** A message the evaluator at [off] does not overwrite. *)
Definition below (off : nat) (mem : list byte) (s : bytes_ref) : Prop := match s with Ext _ => True | Rng o l => (o + l <= off <= length mem)%nat end.
Lemma deref_same off mem mem' s : below off mem s -> take off mem' = take off mem -> deref mem' s = deref mem s.
Proof.
  destruct s as [b|o l]; [done|]. cbn. intros L E. rewrite <- (take_drop off mem), <- (take_drop off mem'), E. set (t := take off mem). assert (Lt : length t = off) by (unfold t; rewrite length_take; lia).
  rewrite !drop_app_le by lia. rewrite !take_app_le by (rewrite length_drop; lia). done.
Qed.
Lemma length_deref off mem s : below off mem s -> length (deref mem s) = ref_len s.
Proof. destruct s as [b|o l]; [done|]. cbn. intros L. rewrite length_take, length_drop. lia. Qed.

Lemma append_start mem off x : (off + length x <= length mem)%nat ->
  append_ref mem (Rng off 0) x = (take off mem ++ x ++ drop (off + length x) mem, Rng off (length x)).
Proof. intros L. unfold append_ref. rewrite Nat.add_0_r, decide_True by lia. done. Qed.
Lemma append_next mem off a b : (off + length a + length b <= length mem)%nat ->
  append_ref (take off mem ++ a ++ drop (off + length a) mem) (Rng off (length a)) b =
    (take off mem ++ (a ++ b) ++ drop (off + length (a ++ b)) mem, Rng off (length (a ++ b))).
Proof.
  intros L. assert (Lt : length (take off mem) = off) by (rewrite length_take; lia). unfold append_ref. rewrite decide_True by (rewrite !length_app, length_drop; lia).
  rewrite (app_assoc (take off mem)), (take_app_length' (take off mem ++ a)) by (rewrite length_app; lia).
  rewrite (drop_app_add' (take off mem ++ a)) by (rewrite length_app; lia). rewrite drop_drop, length_app, <- !app_assoc, Nat.add_assoc. done.
Qed.
Lemma deref_start (t x r : list byte) off : off = length t -> deref (t ++ x ++ r) (Rng off (length x)) = x.
Proof. intros ->. cbn. by rewrite drop_app_length, take_app_length. Qed.

(** One phase: the scratch holds [a ++ b] from [off] on, and the child hashes it. *)
Lemma phase_ok c a b off mem : match c with None => True | Some c => node_wf c /\
    (forall msg off mem, below off mem msg -> (off <= length mem)%nat -> (off + room (depth c) (Nat.max 32 (ref_len msg)) <= length mem)%nat ->
      exists mem', sum c msg off mem = Ret (mem', node_hash c (deref mem msg)) /\ take off mem' = take off mem /\ length mem' = length mem) end ->
  (off + length (a ++ b) + match c with None => 0 | Some c => room (depth c) (Nat.max 32 (length (a ++ b))) end <= length mem)%nat ->
  let mem1 := take off mem ++ (a ++ b) ++ drop (off + length (a ++ b)) mem in
  exists mem', (match c with
    | None => Ret (mem1, sha256 (deref mem1 (Rng off (length (a ++ b)))))
    | Some c => if decide (length (a ++ b) <= length mem1 - off)%nat then sum c (Rng off (length (a ++ b))) (off + length (a ++ b)) mem1 else Panic
    end) = Ret (mem', (match c with None => sha256 | Some c => node_hash c end) (a ++ b)) /\ take off mem' = take off mem /\ length mem' = length mem.
Proof.
  intros Hc L mem1. assert (Lt : length (take off mem) = off) by (rewrite length_take; lia). assert (L1 : length mem1 = length mem) by (unfold mem1; rewrite !length_app, length_drop, length_take; rewrite length_app in L; lia).
  assert (T1 : take off mem1 = take off mem) by (unfold mem1; by rewrite take_app_length'). assert (D : deref mem1 (Rng off (length (a ++ b))) = a ++ b) by (apply deref_start; done).
  destruct c as [c|].
  - destruct Hc as [_ Hc]. rewrite decide_True by lia. destruct (Hc (Rng off (length (a ++ b))) (off + length (a ++ b))%nat mem1) as (mem' & E & T & L'); [cbn; lia|lia|cbn [ref_len]; lia|].
    exists mem'. rewrite E, D. split; [done|]. split; [|lia]. rewrite <- T1. apply (f_equal (take off)) in T. rewrite !take_take, Nat.min_l in T by lia. done.
  - exists mem1. by rewrite D.
Qed.

Lemma sum_ok : forall n, node_wf n -> forall msg off mem, below off mem msg -> (off <= length mem)%nat -> (off + room (depth n) (Nat.max 32 (ref_len msg)) <= length mem)%nat ->
  exists mem', sum n msg off mem = Ret (mem', node_hash n (deref mem msg)) /\ take off mem' = take off mem /\ length mem' = length mem.
Proof.
  fix IH 1. intros [i o c] W msg off mem B Lo L. cbn [sum node_hash depth] in *. destruct W as (Li & Lop & Wc).
  set (l := ref_len msg) in *. pose proof (length_deref _ _ _ B) as Lm. fold l in Lm.
  assert (Hc : match c with None => True | Some c => node_wf c /\ (forall msg off mem, below off mem msg -> (off <= length mem)%nat -> (off + room (depth c) (Nat.max 32 (ref_len msg)) <= length mem)%nat ->
      exists mem', sum c msg off mem = Ret (mem', node_hash c (deref mem msg)) /\ take off mem' = take off mem /\ length mem' = length mem) end).
  { destruct c as [c|]; [split; [exact Wc|exact (IH c Wc)]|exact Logic.I]. }
  clear IH. set (h := match c with None => sha256 | Some c => node_hash c end). set (x := deref mem msg) in *.
  assert (Lr : (64 + Nat.max 32 l + match c with None => 0 | Some c => room (depth c) (64 + Nat.max 32 l) end <= length mem - off)%nat).
  { destruct c as [c|]; [rewrite room_S in L|unfold room in L]; lia. }
  assert (R : forall y, (64 <= y <= 64 + Nat.max 32 l)%nat -> (off + y + match c with None => 0 | Some c => room (depth c) (Nat.max 32 y) end <= length mem)%nat).
  { intros y Hy. destruct c as [c|]; [|lia]. pose proof (room_mono (depth c) (Nat.max 32 y) (64 + Nat.max 32 l)). lia. }
  rewrite append_start by lia. assert (T0 : take off (take off mem ++ i ++ drop (off + length i) mem) = take off mem) by (apply take_app_length'; rewrite length_take; lia).
  rewrite (deref_same off mem _ msg B T0). fold x. rewrite append_next by lia.
  destruct (phase_ok c i x off mem Hc) as (m1 & E1 & T1 & L1); [rewrite length_app; apply R; lia|]. cbn [ref_len]. rewrite E1. cbn [mbind res_bind].
  rewrite append_start by lia. fold h. assert (Lh : length (h (i ++ x)) = 32%nat) by (unfold h; destruct c; [apply length_node_hash|apply sha256_length]). rewrite append_next by lia.
  destruct (phase_ok c o (h (i ++ x)) off m1 Hc) as (m2 & E2 & T2 & L2); [rewrite L1, length_app; apply R; lia|]. exists m2. cbn [ref_len]. rewrite E2. split; [done|]. split; congruence.
Qed.

Lemma pads_ok k x : (length k <= 64)%nat -> pads k x = xor_with x <$> (k ++ replicate (64 - length k) x00).
Proof.
  intros L. apply list_eq. intros i. unfold pads. rewrite !list_lookup_fmap. destruct (decide (i < 64)%nat) as [Hi|Hi].
  - rewrite lookup_seq_lt by lia. cbn. destruct (decide (i < length k)%nat).
    + rewrite lookup_app_l by lia. destruct (lookup_lt_is_Some_2 k i) as [b ->]; done.
    + rewrite lookup_app_r, lookup_replicate_2 by lia. rewrite lookup_ge_None_2 by lia. done.
  - rewrite lookup_seq_ge by lia. rewrite lookup_ge_None_2; [done|]. rewrite length_app, length_replicate. lia.
Qed.

Definition hash_of (c : option kdfChainNode) : list byte -> list byte := match c with None => sha256 | Some c => node_hash c end.
Definition depth_of (c : option kdfChainNode) : nat := match c with None => 0%nat | Some c => depth c end.
Definition wf_of (c : option kdfChainNode) : Prop := match c with None => True | Some c => node_wf c end.

Lemma node_key_ok key c mem : wf_of c -> (length key <= 256)%nat -> (room (depth_of c) 256 <= length mem)%nat ->
  exists mem' n, kdfChainNodeWithKey key c mem = Ret (mem', n) /\ node_wf n /\ depth n = S (depth_of c) /\ length mem' = length mem /\
    forall m, node_hash n m = HMAC (hash_of c) key m.
Proof.
  intros W Lk R. unfold kdfChainNodeWithKey.
  assert (exists mem', (if decide (64 < length key)%nat then match c with None => Ret (mem, sha256 key) | Some c => sum c (Ext key) 0 mem end else Ret (mem, key)) =
    Ret (mem', if decide (64 < length key)%nat then hash_of c key else key) /\ length mem' = length mem) as (mem' & -> & Lm).
  { case_decide as D; [|by eexists]. destruct c as [c|]; [|by eexists]. cbn [wf_of depth_of hash_of] in *. destruct (sum_ok c W (Ext key) 0 mem) as (mem' & E & _ & L); [done|lia| |].
    - cbn [ref_len]. pose proof (room_mono (depth c) (Nat.max 32 (length key)) 256). lia.
    - exists mem'. by rewrite E. }
  rewrite bind_ret. set (k := if decide _ then _ else _). assert (L : (length k <= 64)%nat).
  { unfold k. case_decide; [|lia]. destruct c; cbn [hash_of]; rewrite ?length_node_hash, ?sha256_length; lia. }
  eexists _, _. split; [reflexivity|]. split; [|split; [by destruct c|split; [done|]]].
  - cbn [node_wf]. split; [by unfold pads; rewrite length_fmap, length_seq|]. split; [by unfold pads; rewrite length_fmap, length_seq|]. done.
  - intros m. cbn [node_hash]. rewrite !pads_ok by done. unfold HMAC. cbv zeta. fold k. done.
Qed.

Lemma HMAC_ext h h' key m : (forall x, h x = h' x) -> HMAC h key m = HMAC h' key m.
Proof. intros E. unfold HMAC. cbv zeta. rewrite !E. case_decide; by rewrite ?E. Qed.

Lemma chain_ok path : forall n mem c, node_wf n -> Forall (fun v => length v <= 256)%nat path -> (room (depth n + length path) 256 <= length mem)%nat ->
  (forall m, node_hash n m = Create c m) ->
  exists mem' n', chain path n mem = Ret (mem', n') /\ node_wf n' /\ depth n' = (depth n + length path)%nat /\ length mem' = length mem /\
    forall m, node_hash n' m = Create (fold_left (fun c v => MkCreator (Some c) v) path c) m.
Proof.
  induction path as [|v path IH]; intros n mem c W F R H; cbn [chain fold_left length] in *.
  - eexists _, _. split; [reflexivity|]. split_and!; try done; lia.
  - apply Forall_cons in F as [Lv F]. destruct (node_key_ok v (Some n) mem) as (mem1 & n1 & -> & W1 & D1 & L1 & H1); [done|lia| |].
    + cbn [depth_of]. unfold room in *. nia.
    + rewrite bind_ret. destruct (IH n1 mem1 (MkCreator (Some c) v) W1 F) as (mem2 & n2 & -> & W2 & D2 & L2 & H2).
      * rewrite D1, L1. cbn [depth_of]. by rewrite Nat.add_succ_l, <- Nat.add_succ_r.
      * intros m. rewrite H1. cbn [Create hash_of]. by apply HMAC_ext.
      * eexists _, _. split; [reflexivity|]. split_and!; try done; [cbn [depth_of] in D1; lia|lia].
Qed.

Lemma KDF_ok key path : KDF key path = Ret (kdfReference key path).
Proof.
  unfold KDF. case_decide as D; [done|]. destruct (existsb _ path) eqn:Ee; [done|]. assert (F : Forall (fun v => length v <= 256)%nat path).
  { apply Forall_forall. intros v Hv. destruct (decide (length v <= 256)%nat) as [|Hn]; [done|]. assert (existsb (fun v => bool_decide (kdfMaxPathElemLen < length v)%nat) path = true); [|congruence].
    apply existsb_exists. exists v. split; [by apply list_elem_of_In|]. apply bool_decide_eq_true. unfold kdfMaxPathElemLen. lia. }
  unfold kdfMaxChainLen, kdfMaxKeyLen in D. assert (Ls : kdfScratchSize = room 8 256) by reflexivity.
  destruct (node_key_ok KDFSaltConstVMessAEADKDF None (replicate kdfScratchSize x00)) as (m1 & n1 & -> & W1 & D1 & L1 & H1); [done|by apply (bool_decide_unpack _); vm_compute|cbn; lia|].
  rewrite bind_ret. rewrite length_replicate in L1. cbn [depth_of] in D1.
  destruct (chain_ok path n1 m1 (MkCreator None KDFSaltConstVMessAEADKDF) W1 F) as (m2 & n2 & -> & W2 & D2 & L2 & H2); [|done|].
  { rewrite D1, L1, Ls. pose proof (Nat.mul_le_mono (1 + length path) 8 256 256). unfold room. nia. }
  rewrite bind_ret. destruct (sum_ok n2 W2 (Ext key) 0 m2) as (m3 & -> & _ & _); [done|lia| |].
  - rewrite D2, D1, L2, L1, Ls. cbn [ref_len]. unfold room. nia.
  - rewrite bind_ret. cbn [deref]. by rewrite H2.
Qed.

(** C8: The evaluator and the reference agree.  For every key and path the derivation in the
    fixed scratch array returns (no slice leaves the array, no level overwrites a message
    another still reads) and its result is that of the nested HMACs of the reference. *)
Theorem vmess_kdf_equals_reference key path : KDF key path = Ret (kdfReference key path).
Proof. apply KDF_ok. Qed.
End kdf.

Lemma vmess_kdf_equals_reference_witness :
  KDF (demo_hash 32) [x01; x02] [lit "VMess Header AEAD Key"; replicate 70 x07; [x03]] =
    Ret (kdfReference (demo_hash 32) [x01; x02] [lit "VMess Header AEAD Key"; replicate 70 x07; [x03]]).
Proof. exact (vmess_kdf_equals_reference (demo_hash 32) (length_demo_hash 32) [x01; x02] [lit "VMess Header AEAD Key"; replicate 70 x07; [x03]]). Defined.
