(* ===== verification/VmessHeader.v ===== *)
(** VMess addresses, headers and key material (protocol/vmess: addr.go, cipher.go,
    packetaddr.go, chunk_size_parser.go, padding_generator.go and the codec helpers
    of conn.go).

    [VmessCrypto] is what the protocol uses of crypto/aes, crypto/cipher, x/crypto and
    the hash packages: lengths, and that opening undoes sealing.  Random bytes and
    clocks are arguments. *)

From S2P Require Import Prelude GoStrings NetIP GoState Common Pool Metadata SsKey VmessKdf.
From Stdlib Require Import Strings.Byte.

(** * Targets *)

Definition ParseMetadataType (t : byte) : MetadataType :=
  match t with x01 => MetadataTypeIPv4 | x02 => MetadataTypeDomain | x03 => MetadataTypeIPv6 | x04 => MetadataTypeMsg | _ => MetadataTypeInvalid end.
Definition MetadataTypeToByte (t : MetadataType) : byte :=
  match t with MetadataTypeIPv4 => x01 | MetadataTypeDomain => x02 | MetadataTypeIPv6 => x03 | MetadataTypeMsg => x04 | MetadataTypeInvalid => x00 end.

Definition ParseNetwork (n : byte) : list byte := match n with x01 => lit "tcp" | x02 => lit "udp" | _ => lit "invalid" end.
Definition NetworkToByte (n : list byte) : byte :=
  if decide (n = lit "tcp") then x01 else if decide (n = lit "udp") then x02 else if decide (n = lit "mux") then x03 else x00.

Record VMetadata := MkVM { base : Metadata; Network : list byte; authedCmdKey : list byte; authedEAuthID : list byte }.
Definition ErrInvalidMetadata : error := Errorf "invalid metadata".

Definition SeqPacketMagicAddress : list byte := lit "sp.packet-addr.v2fly.arpa".
Definition IsPacketAddr (m : VMetadata) : bool :=
  bool_decide (Network m = lit "udp") && bool_decide (Type_ (base m) = MetadataTypeDomain) && bool_decide (Hostname (base m) = SeqPacketMagicAddress).

Definition AddrLen (m : Metadata) : nat :=
  match Type_ m with
  | MetadataTypeIPv4 => 4
  | MetadataTypeIPv6 => 16
  | MetadataTypeDomain => 1 + length (Hostname m)
  | MetadataTypeMsg => 1
  | MetadataTypeInvalid => 0
  end.

(** * Ciphers *)

Definition CipherC20P1305 : list byte := lit "chacha20-poly1305".
Definition CipherAES128GCM : list byte := lit "aes-128-gcm".
Definition OptionChunkStream : Z := 1.
Definition OptionChunkLengthMasking : Z := 4.
Definition OptionGlobalPadding : Z := 8.
Definition ContainOption (options : byte) (option : Z) : bool := bool_decide (Z.land (b2z options) option = option).

Definition ParseCipherFromSecurity (security : Z) : res (list byte) :=
  if decide (security = 4) then Ret CipherC20P1305
  else if decide (security = 3) then Ret CipherAES128GCM
  else Fail (Errorf "unexpected security: %v").
Definition ToSecurity (c : list byte) : Z := if decide (c = CipherC20P1305) then 4 else 3.

(** A cipher object is determined by its kind and key. *)
Inductive aead := Gcm (key : list byte) | ChaCha (key : list byte).
Definition Overhead : nat := 16.
Definition NonceSize : nat := 12.

Class VmessCrypto := {
  sha256 : list byte -> list byte;
  md5 : list byte -> list byte;
  aes_New : list byte -> option error;
  aes_Encrypt : list byte -> list byte -> list byte;
  chacha_New : list byte -> option error;
  Seal : aead -> list byte -> list byte -> list byte -> list byte;
  Open : aead -> list byte -> list byte -> list byte -> option (list byte);
  (** The [k]-th 16-bit word of SHAKE128 over an input. *)
  shake_word : list byte -> nat -> Z;
  sha256_length : forall m, length (sha256 m) = 32%nat;
  md5_length : forall m, length (md5 m) = 16%nat;
  aes_New_ok : forall key, length key = 16%nat -> aes_New key = None;
  aes_Encrypt_length : forall key b, length (aes_Encrypt key b) = 16%nat;
  chacha_New_ok : forall key, length key = 32%nat -> chacha_New key = None;
  Seal_length : forall c nonce ad p, length (Seal c nonce ad p) = (length p + Overhead)%nat;
  Open_Seal : forall c nonce ad p, Open c nonce ad (Seal c nonce ad p) = Some p;
  Open_length : forall c nonce ad x p, Open c nonce ad x = Some p -> length x = (length p + Overhead)%nat;
  shake_word_range : forall n k, 0 <= shake_word n k < 65536;
}.

Section header.
Context {VC : VmessCrypto} {BS : BufferSource}.
(** [net.ParseIP] (the empty list for nil) and [net.IP.String]. *)
Context (ParseIP : list byte -> list byte) (IPString : list byte -> list byte).

Definition NewAesGcm (key : list byte) : res aead := match aes_New key with Some e => Fail e | None => Ret (Gcm key) end.
Definition GenerateChacha20Poly1305Key (b : list byte) : res (list byte) :=
  '(key, _) ← copy_at (src_get 32) 0 (md5 b);
  k ← slice key 0 16;
  '(key, _) ← copy_at key 16 (md5 k);
  Ret key.
Definition NewC20P1305 (key : list byte) : res aead :=
  key ← (if decide (length key = 16%nat) then GenerateChacha20Poly1305Key key else Ret key);
  match chacha_New key with Some e => Fail e | None => Ret (ChaCha key) end.
Definition NewCipherMapper (c : list byte) : option (list byte -> res aead) :=
  if decide (c = CipherC20P1305) then Some NewC20P1305 else if decide (c = CipherAES128GCM) then Some NewAesGcm else None.

(** * Request headers *)

Definition PutAddr (m : Metadata) (dst : list byte) : res (list byte * nat) :=
  match Type_ m with
  | MetadataTypeIPv4 =>
      ip ← slice (To4 (ParseIP (Hostname m))) 0 4;
      '(dst, _) ← copy_at dst 0 ip;
      Ret (dst, 4%nat)
  | MetadataTypeIPv6 =>
      ip ← slice (ParseIP (Hostname m)) 0 16;
      '(dst, _) ← copy_at dst 0 ip;
      Ret (dst, 16%nat)
  | MetadataTypeDomain =>
      dst ← set_at dst 0 (z2b (Z.of_nat (length (Hostname m))));
      '(dst, _) ← copy_at dst 1 (Hostname m);
      l ← index dst 0;
      Ret (dst, (1 + Z.to_nat (b2z l))%nat)
  | MetadataTypeMsg => dst ← set_at dst 0 (z2b (Cmd m)); Ret (dst, 1%nat)
  | MetadataTypeInvalid => Ret (dst, 0%nat)
  end.

Definition with_target (m : Metadata) (t : MetadataType) (host : list byte) (cmd : Z) : Metadata :=
  MkMeta t host (mPort m) (mIP m) cmd (Cipher m) (IsClient m).
(** Port, network and cipher, once the target is known. *)
Definition complete (m : VMetadata) (b : Metadata) (d : list byte) : res VMetadata :=
  port ← slice_from d 38;
  p ← slice port 0 2;
  n ← index d 37;
  s ← index d 35;
  c ← ParseCipherFromSecurity (Z.land (b2z s) 0xf);
  Ret (MkVM (MkMeta (Type_ b) (Hostname b) (be_get p) (mIP b) (Cmd b) c (IsClient b)) (ParseNetwork n) (authedCmdKey m) (authedEAuthID m)).
Definition CompleteFromInstructionData (m : VMetadata) (d : list byte) : res VMetadata :=
  if decide (length d < 41)%nat then Fail (Errorf "bad req: insuffient data: expected at least 41 but got: %v") else
  t ← index d 40;
  match ParseMetadataType t with
  | MetadataTypeIPv4 =>
      if decide (length d < 45)%nat then Fail (Errorf "bad ipv4 req: insuffient data: expected 45 but got: %v") else
      ip ← slice d 41 45;
      complete m (with_target (base m) MetadataTypeIPv4 (IPString ip) (Cmd (base m))) d
  | MetadataTypeIPv6 =>
      if decide (length d < 57)%nat then Fail (Errorf "bad ipv6 req: insuffient data: expected 57 but got: %v") else
      ip ← slice d 41 57;
      complete m (with_target (base m) MetadataTypeIPv6 (IPString ip) (Cmd (base m))) d
  | MetadataTypeDomain =>
      l ← index d 41;
      let n := Z.to_nat (b2z l) in
      if decide (length d < 42 + n)%nat then Fail (Errorf "bad domain req: insuffient data: expected %v but got: %v") else
      host ← slice d 42 (42 + n);
      complete m (with_target (base m) MetadataTypeDomain host (Cmd (base m))) d
  | MetadataTypeMsg =>
      if decide (length d < 42)%nat then Fail (Errorf "bad msg req: insuffient data: expected 42 but got: %v") else
      c ← index d 41;
      complete m (with_target (base m) MetadataTypeMsg (Hostname (base m)) (b2z c)) d
  | MetadataTypeInvalid => Fail (Wrap "CompleteFromInstructionData" ErrInvalidMetadata)
  end.

(** hash/fnv's 32-bit FNV-1a and hash/crc32's IEEE checksum. *)
Definition fnv32a (b : list byte) : Z := fold_left (fun h x => (Z.lxor h (b2z x) * 16777619) mod 2 ^ 32) b 2166136261.
Definition crc_bit (c : Z) : Z := if Z.testbit c 0 then Z.lxor (Z.shiftr c 1) 0xEDB88320 else Z.shiftr c 1.
Definition crc32 (b : list byte) : Z := Z.lxor 0xFFFFFFFF (fold_left (fun c x => Nat.iter 8 crc_bit (Z.lxor c (b2z x))) b 0xFFFFFFFF).

(** The draws of one instruction block: P, the 33 bytes of IV, key and V, the padding. *)
Record ireq := MkIReq { i_P : nat; i_rnd : list byte; i_pad : list byte }.
Definition ReqInstructionData (m : VMetadata) (r : ireq) : res (list byte) :=
  let b := base m in
  let buf := src_get (AddrLen b + i_P r + 45) in
  buf ← set_at buf 0 x01;
  buf ← write_at buf 1 (i_rnd r);
  buf ← set_at buf 34 (z2b (Z.lor (Z.lor OptionChunkStream OptionChunkLengthMasking) OptionGlobalPadding));
  buf ← set_at buf 35 (z2b (Z.lor (Z.shiftl (Z.of_nat (i_P r)) 4) (ToSecurity (Cipher b))));
  buf ← set_at buf 36 x00;
  buf ← set_at buf 37 (NetworkToByte (Network m));
  buf ← write_at buf 38 (be16 (mPort b));
  buf ← set_at buf 40 (MetadataTypeToByte (Type_ b));
  dst ← slice_from buf 41;
  '(dst, _) ← PutAddr b dst;
  let buf := take 41 buf ++ dst in
  buf ← write_at buf (41 + AddrLen b) (i_pad r);
  let n := (length buf - 4)%nat in
  d ← slice buf 0 n;
  write_at buf n (be32 (fnv32a d)).

Definition KDFSaltConstAuthIDEncryptionKey : list byte := lit "AES Auth ID Encryption".
Definition KDFSaltConstAEADRespHeaderLenKey : list byte := lit "AEAD Resp Header Len Key".
Definition KDFSaltConstAEADRespHeaderLenIV : list byte := lit "AEAD Resp Header Len IV".
Definition KDFSaltConstAEADRespHeaderPayloadKey : list byte := lit "AEAD Resp Header Key".
Definition KDFSaltConstAEADRespHeaderPayloadIV : list byte := lit "AEAD Resp Header IV".
Definition KDFSaltConstVMessHeaderPayloadAEADKey : list byte := lit "VMess Header AEAD Key".
Definition KDFSaltConstVMessHeaderPayloadAEADIV : list byte := lit "VMess Header AEAD Nonce".
Definition KDFSaltConstVMessHeaderPayloadLengthAEADKey : list byte := lit "VMess Header AEAD Key_Length".
Definition KDFSaltConstVMessHeaderPayloadLengthAEADIV : list byte := lit "VMess Header AEAD Nonce_Length".

(** [KDF(key, path...)[:n]]. *)
Definition kdf_n (n : nat) (key : list byte) (path : list (list byte)) : res (list byte) := k ← KDF sha256 key path; slice k 0 n.

(** The process-wide cache of AES keys for authentication IDs. *)
Definition blockCache : Type := gmap (list byte) (list byte).
Definition authIDEncBlock (cmdKey : list byte) : st blockCache (list byte) :=
  c ← get;
  match c !! cmdKey with
  | Some k => mret k
  | None =>
      k ← lift (kdf_n 16 cmdKey [KDFSaltConstAuthIDEncryptionKey]);
      match aes_New k with
      | Some e => fail e
      | None => _ ← modify (fun c => <[cmdKey := k]> c); mret k
      end
  end.

(** [now] in seconds, four random bytes; the whole buffer and the ID in its front. *)
Definition PutEAuthID (dst cmdKey : list byte) (now : Z) (rnd : list byte) : st blockCache (list byte * list byte) :=
  dst ← lift (write_at dst 0 (be_put 8 now));
  dst ← lift (write_at dst 8 rnd);
  d ← lift (slice dst 0 12);
  dst ← lift (write_at dst 12 (be32 (crc32 d)));
  blk ← try (authIDEncBlock cmdKey);
  match blk with
  | inr _ => lift Panic
  | inl k =>
      d ← lift (slice dst 0 16);
      let id := aes_Encrypt k d in
      dst ← lift (write_at dst 0 id);
      mret (dst, id)
  end.

(** The draws of an encrypted header: the clock, the ID's four bytes, the connection nonce. *)
Record hreq := MkHReq { h_now : Z; h_rnd : list byte; h_nonce : list byte }.
Definition EncryptReqHeader (instruction cmdKey : list byte) (r : hreq) : st blockCache (list byte) :=
  let buf := src_get (58 + length instruction) in
  '(buf, eAuthID) ← PutEAuthID buf cmdKey (h_now r) (h_rnd r);
  buf ← lift (write_at buf 34 (h_nonce r));
  let path s := [s; eAuthID; h_nonce r] in
  k ← lift (kdf_n 16 cmdKey (path KDFSaltConstVMessHeaderPayloadLengthAEADKey));
  gcm ← lift (NewAesGcm k);
  buf ← lift (write_at buf 16 (be16 (Z.of_nat (length instruction))));
  iv ← lift (kdf_n 12 cmdKey (path KDFSaltConstVMessHeaderPayloadLengthAEADIV));
  l ← lift (slice buf 16 18);
  let buf := append_at buf 16 (Seal gcm iv eAuthID l) in
  k ← lift (kdf_n 16 cmdKey (path KDFSaltConstVMessHeaderPayloadAEADKey));
  gcm ← lift (NewAesGcm k);
  '(buf, _) ← lift (copy_at buf 42 instruction);
  iv ← lift (kdf_n 12 cmdKey (path KDFSaltConstVMessHeaderPayloadAEADIV));
  mret (append_at buf 42 (Seal gcm iv eAuthID instruction)).

(** * Response headers *)

Definition RespHeader (V : byte) : list byte := V :: replicate 3 x00.
Definition EncryptRespHeader (key iv header : list byte) : res (list byte) :=
  let buf := src_get (34 + length header) in
  k ← kdf_n 16 key [KDFSaltConstAEADRespHeaderLenKey];
  ciph ← NewAesGcm k;
  buf ← write_at buf 0 (be16 (Z.of_nat (length header)));
  n ← kdf_n 12 iv [KDFSaltConstAEADRespHeaderLenIV];
  l ← slice buf 0 2;
  let buf := append_at buf 0 (Seal ciph n [] l) in
  k ← kdf_n 16 key [KDFSaltConstAEADRespHeaderPayloadKey];
  ciph ← NewAesGcm k;
  n ← kdf_n 12 iv [KDFSaltConstAEADRespHeaderPayloadIV];
  Ret (append_at buf 18 (Seal ciph n [] header)).
End header.

(** * Chunk sizes, padding and nonces *)

(** The size parser, shared with the padding generator when padding is on: masked by the
    SHAKE stream of a nonce, or plain ([None]). *)
Record codec := MkCodec { cc_shake : option (list byte * nat); cc_pad : bool }.
Record nonceGen := MkNG { ng_buf : list byte; ng_count : Z }.

Section codecs.
Context {VC : VmessCrypto}.

Definition next (c : codec) : codec * Z :=
  match cc_shake c with Some (n, k) => (MkCodec (Some (n, S k)) (cc_pad c), shake_word n k) | None => (c, 0) end.
(** [mask^size] for the masked parser, the size for the plain one. *)
Definition Encode (size : Z) (c : codec) : codec * list byte := let '(c', mask) := next c in (c', be16 (Z.lxor mask size)).
Definition Decode (b : list byte) (c : codec) : codec * Z := let '(c', mask) := next c in (c', Z.lxor mask (be_get b)).
Definition NextPaddingLen (c : codec) : codec * nat :=
  if cc_pad c then let '(c', w) := next c in (c', Z.to_nat (w mod 64)) else (c, 0%nat).
Definition MaxPaddingLen (c : codec) : nat := if cc_pad c then 64 else 0.
Definition SizeBytes : nat := 2.

Definition GenerateChunkNonce (nonce : list byte) (size : nat) : res nonceGen :=
  src ← slice_from nonce 2;
  '(c, _) ← copy_at (replicate size x00) 2 src;
  Ret (MkNG c 0).
(** One call of the generator; the counter has 16 bits. *)
Definition gen (g : nonceGen) : res (nonceGen * list byte) :=
  c ← write_at (ng_buf g) 0 (be16 (ng_count g));
  Ret (MkNG c ((ng_count g + 1) mod 65536), c).

Definition initChunkCodecs (options : byte) (iv : list byte) : res (codec * nonceGen) :=
  let cd := if ContainOption options OptionChunkLengthMasking
            then MkCodec (Some (iv, 0%nat)) (ContainOption options OptionGlobalPadding)
            else MkCodec None false in
  g ← GenerateChunkNonce iv NonceSize;
  Ret (cd, g).
End codecs.
