(* ===== verification/VmessConn.v ===== *)
(** A VMess connection (protocol/vmess: conn.go, packet.go, packetaddr.go), client or
    server: headers, sealed chunks with masked sizes and padding, datagrams with and
    without addresses.

    The two directions have locks of their own; a method is one step.  Random padding
    is an arbitrary sequence read on from a position. *)

From S2P Require Import Prelude GoStrings NetIP GoState Common Pool Metadata Transport SsKey VmessKdf VmessHeader.
From Stdlib Require Import Strings.Byte.

Definition MaxChunkSize : nat := Z.to_nat (Z.shiftl 1 14).
Definition maxReusableSealFrameSize : nat := Z.to_nat (Z.shiftl 128 10).
Lemma MaxChunkSize_eq : Z.of_nat MaxChunkSize = 16384.
Proof. done. Qed.
Lemma maxReusable_eq : Z.of_nat maxReusableSealFrameSize = 131072.
Proof. done. Qed.
#[global] Opaque MaxChunkSize maxReusableSealFrameSize.

(** Keys and options of the session. *)
Record context := MkCtx {
  requestBodyKey : list byte; requestBodyIV : list byte; responseBodyKey : list byte; responseBodyIV : list byte;
  responseAuth : byte; requestOptions : byte;
  (** [NewAEAD], by the name it was looked up with; [None] for nil. *)
  newAEAD : option (list byte) }.
(** Cipher, codec and nonces of a direction; they are set together. *)
Record body := MkBody { b_cipher : aead; b_codec : codec; b_gen : nonceGen }.
Record wside := MkW {
  initWrite : bool; w_body : option body; writeInitErr : option error; writeSealFrame : list byte; writeClosed : bool; w_pos : nat; outp : tconn }.
Record rside := MkR {
  initRead : bool; r_body : option body;
  (** [leftToRead] lies at the start of [readOpenFrame]; its length, 0 for nil. *)
  leftToRead : nat; indexToRead : nat; readOpenFrame : list byte; inp : stream }.
Record Conn := MkC {
  vm : VMetadata; cmdKey : list byte; dialTgt : list byte; dialTgtAddrPort : AddrPort; writeCache : LastStringValue AddrPort;
  cx : context; wr : wside; rs : rside }.

Definition set_vm (m : VMetadata) (c : Conn) : Conn := MkC m (cmdKey c) (dialTgt c) (dialTgtAddrPort c) (writeCache c) (cx c) (wr c) (rs c).
Definition set_cmdKey (k : list byte) (c : Conn) : Conn := MkC (vm c) k (dialTgt c) (dialTgtAddrPort c) (writeCache c) (cx c) (wr c) (rs c).
Definition set_dialTgt (t : list byte) (c : Conn) : Conn := MkC (vm c) (cmdKey c) t (dialTgtAddrPort c) (writeCache c) (cx c) (wr c) (rs c).
Definition set_dialTgtAddrPort (a : AddrPort) (c : Conn) : Conn := MkC (vm c) (cmdKey c) (dialTgt c) a (writeCache c) (cx c) (wr c) (rs c).
Definition set_writeCache (w : LastStringValue AddrPort) (c : Conn) : Conn := MkC (vm c) (cmdKey c) (dialTgt c) (dialTgtAddrPort c) w (cx c) (wr c) (rs c).
Definition set_cx (x : context) (c : Conn) : Conn := MkC (vm c) (cmdKey c) (dialTgt c) (dialTgtAddrPort c) (writeCache c) x (wr c) (rs c).
Definition set_wr (w : wside) (c : Conn) : Conn := MkC (vm c) (cmdKey c) (dialTgt c) (dialTgtAddrPort c) (writeCache c) (cx c) w (rs c).
Definition set_rs (r : rside) (c : Conn) : Conn := MkC (vm c) (cmdKey c) (dialTgt c) (dialTgtAddrPort c) (writeCache c) (cx c) (wr c) r.
Definition on_wr {A} (m : st wside A) : st Conn A := fun c => let '(w, r) := m (wr c) in (set_wr w c, r).
Definition on_rs {A} (m : st rside A) : st Conn A := fun c => let '(w, r) := m (rs c) in (set_rs w c, r).

Section conn.
Context {VC : VmessCrypto} {BS : BufferSource}.
Context (ParseIP : list byte -> list byte) (IPString : list byte -> list byte).
(** [net.JoinHostPort(host, strconv.Itoa(port))], [net.ResolveUDPAddr], [netip.AddrPort.String]. *)
Context (JoinHostPort : list byte -> Z -> list byte) (resolveUDPAddr : list byte -> res UDPAddr) (AddrPortString : AddrPort -> list byte).
(** The random bytes of the padding. *)
Context (rand : nat -> byte).

(** * Set-up *)

Definition call_NewAEAD (x : context) (key : list byte) : res aead :=
  match newAEAD x with
  | None => Panic
  | Some n => match NewCipherMapper n with Some f => f key | None => Panic end
  end.
Definition make_body (x : context) (key iv : list byte) : res body :=
  c ← call_NewAEAD x key;
  '(cd, g) ← initChunkCodecs (requestOptions x) iv;
  Ret (MkBody c cd g).

Definition vmessInstructionDataFixedLen : nat := 36.
Definition InitContext (d : list byte) : st Conn unit :=
  if decide (length d < vmessInstructionDataFixedLen)%nat then fail (Errorf "vmess: instruction data too short: %d bytes, need at least %d") else
  auth ← lift (index d 33);
  iv ← lift (slice_from d 1);
  key ← lift (slice_from d 17);
  let iv := take 16 iv in
  let key := take 16 key in
  _ ← modify (fun c => set_cx (MkCtx key iv (take 16 (sha256 key)) (take 16 (sha256 iv)) auth (requestOptions (cx c)) (newAEAD (cx c))) c);
  c ← get;
  s ← lift (index d 35);
  _ ← (if decide (Cipher (base (vm c)) = []) then
         ciph ← lift (ParseCipherFromSecurity (Z.land (b2z s) 0xf));
         modify (fun c => let b := base (vm c) in
           set_vm (MkVM (MkMeta (Type_ b) (Hostname b) (mPort b) (mIP b) (Cmd b) ciph (IsClient b)) (Network (vm c)) (authedCmdKey (vm c)) (authedEAuthID (vm c))) c)
       else mret tt);
  c ← get;
  match NewCipherMapper (Cipher (base (vm c))) with
  | None => fail (Errorf "unexpected cipher: %v")
  | Some _ =>
      opts ← lift (index d 34);
      modify (fun c => let x := cx c in
        set_cx (MkCtx (requestBodyKey x) (requestBodyIV x) (responseBodyKey x) (responseBodyIV x) (responseAuth x) opts (Some (Cipher (base (vm c))))) c)
  end.

Definition set_body (b : body) (w : wside) : wside := MkW (initWrite w) (Some b) (writeInitErr w) (writeSealFrame w) (writeClosed w) (w_pos w) (outp w).
Definition set_outp (t : tconn) (w : wside) : wside := MkW (initWrite w) (w_body w) (writeInitErr w) (writeSealFrame w) (writeClosed w) (w_pos w) t.
(** [c.Conn.Write(data)]: only the error is looked at. *)
Definition transport_Write (data : list byte) : st wside unit := fun w =>
  let '(t, (_, err)) := conn_Write data (outp w) in (set_outp t w, match err with Some e => Fail e | None => Ret tt end).

(** [WriteReqHeader] of a new connection, whose [initWrite] has not run. *)
Definition WriteReqHeader (ir : ireq) (hr : hreq) (cache : blockCache) : st Conn blockCache :=
  _ ← on_wr (modify (fun w => MkW true (w_body w) (writeInitErr w) (writeSealFrame w) (writeClosed w) (w_pos w) (outp w)));
  c ← get;
  d ← lift (ReqInstructionData ParseIP (vm c) ir);
  _ ← InitContext d;
  c ← get;
  let '(cache, r) := EncryptReqHeader d (cmdKey c) hr cache in
  header ← lift r;
  b ← lift (make_body (cx c) (requestBodyKey (cx c)) (requestBodyIV (cx c)));
  _ ← on_wr (modify (set_body b));
  _ ← on_wr (transport_Write header);
  mret cache.

Definition fresh_conn (m : VMetadata) (tgt key : list byte) (i : stream) (t : tconn) (pos : nat) : Conn :=
  MkC m key tgt AddrPortZero None (MkCtx (replicate 16 x00) (replicate 16 x00) (replicate 16 x00) (replicate 16 x00) x00 x00 None)
    (MkW false None None [] false pos t) (MkR false None 0 0 [] i).
Definition NewConn (m : VMetadata) (tgt key : list byte) (i : stream) (t : tconn) (pos : nat) (ir : ireq) (hr : hreq) (cache : blockCache) : res (Conn * blockCache) :=
  let c := fresh_conn m tgt key i t pos in
  if IsClient (base m) then
    match WriteReqHeader ir hr cache c with
    | (c, Ret cache) => Ret (c, cache)
    | (_, Fail e) => Fail e
    | (_, Panic) => Panic
    end
  else Ret (c, cache).

(** * Writing *)

Definition the_body (w : wside) : res body := match w_body w with Some b => Ret b | None => Panic end.
Definition random (pos n : nat) : list byte := rand <$> seq pos n.

(** A chunk in [data], which has its size; the chunk, codec and nonces after it. *)
Definition fill_chunk (b : body) (p data : list byte) (paddingSize pos : nat) (cd : codec) : res (list byte * body) :=
  let '(cd, e) := Encode (Z.of_nat (length p + Overhead + paddingSize) mod 65536) cd in
  data ← write_at data 0 e;
  '(g, nonce) ← gen (b_gen b);
  let data := append_at data SizeBytes (Seal (b_cipher b) nonce [] p) in
  data ← write_at data (length data - paddingSize) (random pos paddingSize);
  Ret (data, MkBody (b_cipher b) cd g).

Definition sealFromPool (p : list byte) : st wside (list byte) :=
  w ← get;
  b ← lift (the_body w);
  let '(cd, paddingSize) := NextPaddingLen (b_codec b) in
  let totalSize := (SizeBytes + (length p + Overhead) + paddingSize)%nat in
  let frame := if decide (totalSize <= maxReusableSealFrameSize)%nat
               then (if decide (length (writeSealFrame w) < totalSize)%nat then replicate totalSize x00 else writeSealFrame w)
               else replicate totalSize x00 in
  data ← lift (slice frame 0 totalSize);
  '(data, b) ← lift (fill_chunk b p data paddingSize (w_pos w) cd);
  let saved := if decide (totalSize <= maxReusableSealFrameSize)%nat then data ++ drop totalSize frame else writeSealFrame w in
  _ ← modify (fun w => MkW (initWrite w) (Some b) (writeInitErr w) saved (writeClosed w) (w_pos w + paddingSize) (outp w));
  mret data.

Definition chunks (w : wside) (size : nat) : res (nat * nat) :=
  b ← the_body w;
  let payloadSize := (MaxChunkSize - Overhead - SizeBytes - MaxPaddingLen (b_codec b))%nat in
  Ret (if decide (size mod payloadSize = 0)%nat then (payloadSize, (size / payloadSize)%nat) else (payloadSize, (size / payloadSize + 1)%nat)).

(** [iout.MultiWrite(c.Conn, bs...)]. *)
Definition transport_MultiWrite (bs : list (list byte)) : st wside unit := fun w =>
  let '(t, (_, err)) := MultiWrite bs (outp w) in (set_outp t w, match err with Some e => Fail e | None => Ret tt end).

(** The loop of [writeStream] for the [m] chunks still to send; the count reported goes to
    the caller with the error. *)
Fixpoint stream_loop (m payloadSize : nat) (b : list byte) (n : nat) : st wside (nat * option error) :=
  match m with
  | O => mret (Nat.min n (length b), None)
  | S m =>
      piece ← lift (slice b n (Nat.min (n + payloadSize) (length b)));
      data ← sealFromPool piece;
      r ← try (transport_Write data);
      match r with
      | inr e => mret (n, Some e)
      | inl _ => stream_loop m payloadSize b (n + payloadSize)
      end
  end.
Definition writeStream (b : list byte) (pre : option (list byte)) : st wside (nat * option error) :=
  w ← get;
  '(payloadSize, numChunks) ← lift (chunks w (length b));
  match pre with
  | None => stream_loop numChunks payloadSize b 0
  | Some h =>
      piece ← lift (slice b 0 (Nat.min payloadSize (length b)));
      data ← sealFromPool piece;
      r ← try (transport_MultiWrite [h; data]);
      match r with
      | inr e => mret (0%nat, Some e)
      | inl _ => stream_loop (numChunks - 1) payloadSize b payloadSize
      end
  end.

Definition writePacket (b : list byte) (pre : option (list byte)) : st wside nat :=
  w ← get;
  bd ← lift (the_body w);
  if decide (0xFFFF < Z.of_nat (length b + Overhead + MaxPaddingLen (b_codec bd))) then
    fail (Wrap "vmess: udp datagram of %d bytes exceeds the 16-bit chunk length field" (DatagramDropped ErrShortBuffer))
  else
    data ← sealFromPool b;
    _ ← (match pre with Some h => transport_MultiWrite [h; data] | None => transport_Write data end);
    mret (length b).

(** The response header, if this call made one. *)
Definition initWriteOnce : st Conn (option (list byte)) :=
  c ← get;
  if initWrite (wr c) then
    match writeInitErr (wr c) with Some e => fail e | None => mret None end
  else
    _ ← on_wr (modify (fun w => MkW true (w_body w) (writeInitErr w) (writeSealFrame w) (writeClosed w) (w_pos w) (outp w)));
    if IsClient (base (vm c)) then mret None
    else
      let x := cx c in
      r ← try (lift (h ← EncryptRespHeader (responseBodyKey x) (responseBodyIV x) (RespHeader (responseAuth x));
                     b ← make_body x (responseBodyKey x) (responseBodyIV x);
                     Ret (h, b)));
      match r with
      | inr e => _ ← on_wr (modify (fun w => MkW (initWrite w) (w_body w) (Some e) (writeSealFrame w) (writeClosed w) (w_pos w) (outp w))); fail e
      | inl (h, b) => _ ← on_wr (modify (set_body b)); mret (Some h)
      end.

(** The count and the error, as [writeStream] returns both. *)
Definition write (b : list byte) : st Conn (nat * option error) :=
  c ← get;
  if writeClosed (wr c) then fail ErrClosed else
  pre ← initWriteOnce;
  if decide (length b = 0%nat) then
    _ ← on_wr (modify (fun w => MkW (initWrite w) (w_body w) (writeInitErr w) (writeSealFrame w) true (w_pos w) (outp w)));
    data ← on_wr (sealFromPool []);
    r ← try (on_wr (transport_Write data));
    mret (0%nat, match r with inr e => Some e | inl _ => None end)
  else if decide (Network (vm c) = lit "tcp") then on_wr (writeStream b pre)
  else if decide (Network (vm c) = lit "udp") then
    r ← try (on_wr (writePacket b pre));
    mret (match r with inl n => (n, None) | inr e => (0%nat, Some e) end)
  else fail (Errorf "unsupported network (instruction cmd): %v").

(** The loop of [writePackets] over the pooled buffer. *)
Fixpoint fill_packets (datas : list (list byte)) (buf : list byte) (offset : nat) (b : body) (pos : nat) : res (list byte * nat * body * nat) :=
  match datas with
  | [] => Ret (buf, offset, b, pos)
  | d :: datas =>
      let '(cd, paddingSize) := NextPaddingLen (b_codec b) in
      let totalSize := (SizeBytes + (length d + Overhead) + paddingSize)%nat in
      chunk ← slice buf offset (offset + totalSize);
      '(chunk, b) ← fill_chunk b d chunk paddingSize pos cd;
      buf ← write_at buf offset chunk;
      fill_packets datas buf (offset + totalSize) b (pos + paddingSize)
  end.
Definition writePackets (datas : list (list byte)) : st Conn nat :=
  c ← get;
  if writeClosed (wr c) then fail ErrClosed else
  pre ← initWriteOnce;
  c ← get;
  b ← lift (the_body (wr c));
  let most (d : list byte) := (SizeBytes + length d + Overhead + MaxPaddingLen (b_codec b))%nat in
  if decide (Exists (fun d => 0xffff < Z.of_nat (most d)) datas) then fail (Errorf "vmess udp chunk too large: %d") else
  let pre := default [] pre in
  let buf := src_get (length pre + sum_list (most <$> datas)) in
  '(buf, offset) ← lift (copy_at buf 0 pre);
  '(buf, offset, b, pos) ← lift (fill_packets datas buf offset b (w_pos (wr c)));
  _ ← on_wr (modify (fun w => MkW (initWrite w) (Some b) (writeInitErr w) (writeSealFrame w) (writeClosed w) pos (outp w)));
  out ← lift (slice buf 0 offset);
  _ ← on_wr (transport_Write out);
  mret (length datas).

Definition CloseWrite : st Conn unit :=
  c ← get;
  if bool_decide (Network (vm c) = lit "udp") || IsPacketAddr (vm c) then mret tt
  else '(_, err) ← write []; match err with Some e => fail e | None => mret tt end.

(** [Close]: the transport and the frames go. *)
Definition Close : st Conn unit :=
  _ ← on_wr (modify (fun w => set_outp (MkTconn (t_out (outp w)) (t_plan (outp w)) true) w));
  _ ← on_rs (modify (fun r => MkR (initRead r) (r_body r) 0 0 [] (inp r)));
  on_wr (modify (fun w => MkW (initWrite w) (w_body w) (writeInitErr w) [] (writeClosed w) (w_pos w) (outp w))).

(** * Reading *)

Definition read_in (n : nat) : st Conn (list byte) := on_rs (fun r =>
  let '(i, x) := readFull n (inp r) in (MkR (initRead r) (r_body r) (leftToRead r) (indexToRead r) (readOpenFrame r) i, x)).
Definition open (c : aead) (nonce ad x : list byte) : res (list byte) :=
  match Open c nonce ad x with Some p => Ret p | None => Fail ErrOpen end.
Definition wrapErr {A} (msg : string) (m : st Conn A) : st Conn A := fun c =>
  let '(c, r) := m c in (c, match r with Fail e => Fail (Wrap msg e) | r => r end).
Definition set_rbody (b : body) : st Conn unit := on_rs (modify (fun r => MkR (initRead r) (Some b) (leftToRead r) (indexToRead r) (readOpenFrame r) (inp r))).

(** Opening in place: the plaintext takes the front of the buffer. *)
Definition init_client : st Conn unit :=
  c ← get;
  let x := cx c in
  bufSize ← wrapErr "failed to read response header length" (read_in 18);
  ciph ← lift (k ← kdf_n 16 (responseBodyKey x) [KDFSaltConstAEADRespHeaderLenKey]; NewAesGcm k);
  l ← wrapErr "failed to decrypt response header length" (lift (n ← kdf_n 12 (responseBodyIV x) [KDFSaltConstAEADRespHeaderLenIV]; open ciph n [] bufSize));
  headerSize ← lift (be_get <$> slice (append_at bufSize 0 l) 0 2);
  buf ← wrapErr "failed to read response header" (read_in (Z.to_nat headerSize + 16));
  ciph ← lift (k ← kdf_n 16 (responseBodyKey x) [KDFSaltConstAEADRespHeaderPayloadKey]; NewAesGcm k);
  h ← wrapErr "failed to decrypt response header" (lift (n ← kdf_n 12 (responseBodyIV x) [KDFSaltConstAEADRespHeaderPayloadIV]; open ciph n [] buf));
  let buf := append_at buf 0 h in
  auth ← lift (index buf 0);
  if decide (auth <> responseAuth x) then fail (Errorf "unexpected response auth: %v, expect %v") else
  respCmd ← lift (index buf 2);
  if decide (respCmd <> x00) then fail (Errorf "unexpected response command: %v") else
  b ← lift (make_body x (responseBodyKey x) (responseBodyIV x));
  set_rbody b.

(** The server, once the authentication ID has been read and recognised. *)
Definition init_server : st Conn unit :=
  buf ← wrapErr "failed to read ALength and ConnectionNonce" (read_in 26);
  connectionNonce ← lift (slice buf 18 26);
  _ ← modify (fun c => set_cmdKey (authedCmdKey (vm c)) c);
  c ← get;
  let id := authedEAuthID (vm c) in
  let path s := [s; id; connectionNonce] in
  ciph ← lift (k ← kdf_n 16 (cmdKey c) (path KDFSaltConstVMessHeaderPayloadLengthAEADKey); NewAesGcm k);
  l ← wrapErr "failed to decrypt request header length" (lift (n ← kdf_n 12 (cmdKey c) (path KDFSaltConstVMessHeaderPayloadLengthAEADIV); x ← slice buf 0 18; open ciph n id x));
  lenInstruction ← lift (be_get <$> slice (append_at buf 0 l) 0 2);
  instructionData ← wrapErr "failed to read instruction data" (read_in (Z.to_nat lenInstruction + 16));
  ciph ← lift (k ← kdf_n 16 (cmdKey c) (path KDFSaltConstVMessHeaderPayloadAEADKey); NewAesGcm k);
  d ← wrapErr "failed to decrypt request header" (lift (n ← kdf_n 12 (cmdKey c) (path KDFSaltConstVMessHeaderPayloadAEADIV); open ciph n id instructionData));
  d ← lift (slice (append_at instructionData 0 d) 0 (Z.to_nat lenInstruction));
  _ ← InitContext d;
  c ← get;
  m ← lift (CompleteFromInstructionData IPString (vm c) d);
  _ ← modify (fun c => set_dialTgt (JoinHostPort (Hostname (base m)) (mPort (base m))) (set_vm m c));
  c ← get;
  b ← lift (make_body (cx c) (requestBodyKey (cx c)) (requestBodyIV (cx c)));
  set_rbody b.

Definition the_rbody (r : rside) : res body := match r_body r with Some b => Ret b | None => Panic end.
Definition readSize : st Conn (Z * nat) :=
  sz ← read_in 2;
  c ← get;
  b ← lift (the_rbody (rs c));
  let '(cd, padding) := NextPaddingLen (b_codec b) in
  let '(cd, size) := Decode sz cd in
  _ ← set_rbody (MkBody (b_cipher b) cd (b_gen b));
  mret (size, padding).

Definition borrowReadOpenFrame (size : nat) (f : list byte) : list byte := if decide (length f < size)%nat then replicate size x00 else f.
Definition readChunk : st Conn (list byte) :=
  '(size, padding) ← readSize;
  if decide (size = Z.of_nat (Overhead + padding) mod 65536) then fail EOF
  else if decide (size < Z.of_nat padding) then fail (Errorf "vmess: chunk size %d is smaller than its padding %d")
  else
    let n := Z.to_nat size in
    _ ← on_rs (modify (fun r => MkR (initRead r) (r_body r) (leftToRead r) (indexToRead r) (borrowReadOpenFrame n (readOpenFrame r)) (inp r)));
    frame ← read_in n;
    c ← get;
    b ← lift (the_rbody (rs c));
    '(g, nonce) ← lift (gen (b_gen b));
    _ ← set_rbody (MkBody (b_cipher b) (b_codec b) g);
    x ← lift (slice frame 0 (length frame - padding));
    p ← lift (open (b_cipher b) nonce [] x);
    _ ← on_rs (modify (fun r => MkR (initRead r) (r_body r) (leftToRead r) (indexToRead r) (append_at (frame ++ drop n (readOpenFrame r)) 0 p) (inp r)));
    mret p.

Definition set_left (l i : nat) : st Conn unit := on_rs (modify (fun r => MkR (initRead r) (r_body r) l i (readOpenFrame r) (inp r))).
(** [read(b)] with [len(b)] the argument, [None] for nil; the bytes copied. *)
Definition read (k : option nat) : st Conn (list byte) :=
  c ← get;
  _ ← (if initRead (rs c) then mret tt
       else
         _ ← on_rs (modify (fun r => MkR true (r_body r) (leftToRead r) (indexToRead r) (readOpenFrame r) (inp r)));
         if IsClient (base (vm c)) then init_client else init_server);
  match k with
  | None => mret []
  | Some k =>
      c ← get;
      let r := rs c in
      match r_body r with
      | None => fail ErrClosed
      | Some _ =>
          let udp := bool_decide (Network (vm c) = lit "udp") in
          if decide (indexToRead r < leftToRead r)%nat then
            let src := drop (indexToRead r) (take (leftToRead r) (readOpenFrame r)) in
            let n := Nat.min k (length src) in
            if udp then _ ← set_left 0 0; fail (DatagramDropped ErrShortBuffer)
            else
              let i := (indexToRead r + n)%nat in
              _ ← (if decide (leftToRead r <= i)%nat then set_left 0 0 else set_left (leftToRead r) i);
              mret (take n src)
          else
            chunk ← readChunk;
            let n := Nat.min k (length chunk) in
            if decide (n < length chunk)%nat then
              if udp then _ ← set_left 0 0; fail (DatagramDropped ErrShortBuffer)
              else _ ← set_left (length chunk) n; mret (take n chunk)
            else mret chunk
      end
  end.

(** * Datagrams *)

Definition ParsePacketAddrType (t : byte) : MetadataType := match t with x01 => MetadataTypeIPv4 | x02 => MetadataTypeIPv6 | _ => MetadataTypeInvalid end.
Definition PacketAddrLength (t : MetadataType) : nat := match t with MetadataTypeIPv4 => 1 + 4 + 2 | MetadataTypeIPv6 => 1 + 16 + 2 | _ => 0 end.
Definition UDPAddrToPacketAddrLength (a : UDPAddr) : nat :=
  let '(nip, ok) := AddrFromSlice (IP a) in if negb ok then 0 else if Is4 nip then 1 + 4 + 2 else 1 + 16 + 2.
Definition ExtractPacketAddr (src : list byte) : res (MetadataType * AddrPort) :=
  t ← index src 0;
  let addrType := ParsePacketAddrType t in
  if decide (addrType = MetadataTypeInvalid) then Fail (Errorf "invalid packet addr type")
  else if decide (length src < PacketAddrLength addrType)%nat then Fail (Errorf "invalid packet addr")
  else match addrType with
       | MetadataTypeIPv4 => ip ← slice src 1 5; p ← slice src 5 7; Ret (addrType, MkAddrPort (Addr4 ip) (be_get p))
       | MetadataTypeIPv6 => ip ← slice src 1 17; p ← slice src 17 19; Ret (addrType, MkAddrPort (Addr6 ip) (be_get p))
       | _ => Ret (addrType, AddrPortZero)
       end.
Definition PutPacketAddr (src : list byte) (a : UDPAddr) : res (list byte) :=
  let '(nip, ok) := AddrFromSlice (IP a) in
  if negb ok then Fail (Errorf "invalid IP")
  else if Is4 nip then
    src ← set_at src 0 x01;
    src ← write_at src 1 (AsSlice nip);
    write_at src 5 (be16 (Port a))
  else
    src ← set_at src 0 x02;
    src ← write_at src 1 (AsSlice nip);
    write_at src 17 (be16 (Port a)).

Definition unmapAddrPort (a : AddrPort) : AddrPort := MkAddrPort (Unmap (ap_addr a)) (ap_port a).
Definition dialTargetAddrPort : st Conn AddrPort :=
  c ← get;
  if AddrPort_IsValid (dialTgtAddrPort c) then mret (dialTgtAddrPort c)
  else
    tgt ← lift (resolveUDPAddr (dialTgt c));
    let a := unmapAddrPort (UDPAddr_AddrPort tgt) in
    _ ← modify (set_dialTgtAddrPort a);
    mret a.

Definition UDPAddrFromAddrPort (a : AddrPort) : UDPAddr := MkUDPAddr (AsSlice (ap_addr a)) (ap_port a).
Definition writeTargetAddrPort (addr : list byte) : st Conn UDPAddr :=
  c ← get;
  if decide (addr = dialTgt c) then t ← dialTargetAddrPort; mret (UDPAddrFromAddrPort t)
  else match LastStringValue_Load (writeCache c) addr with
       | Some a => mret (UDPAddrFromAddrPort a)
       | None =>
           t ← lift (resolveUDPAddr addr);
           let a := unmapAddrPort (UDPAddr_AddrPort t) in
           _ ← modify (fun c => set_writeCache (LastStringValue_Store addr a (writeCache c)) c);
           mret (UDPAddrFromAddrPort a)
       end.

(** A datagram with its address in front, in a pooled buffer. *)
Definition with_addr (p : list byte) (a : UDPAddr) : res (list byte) :=
  let l := UDPAddrToPacketAddrLength a in
  buf ← PutPacketAddr (src_get (l + length p)) a;
  '(buf, _) ← copy_at buf l p;
  Ret buf.
Definition WriteTo (p addr : list byte) : st Conn (nat * option error) :=
  c ← get;
  if IsPacketAddr (vm c) then
    a ← writeTargetAddrPort addr;
    buf ← lift (with_addr p a);
    write buf
  else write p.

Fixpoint address_all (items : list (list byte * list byte)) : st Conn (list (list byte)) :=
  match items with
  | [] => mret []
  | (d, addr) :: items => a ← writeTargetAddrPort addr; buf ← lift (with_addr d a); bufs ← address_all items; mret (buf :: bufs)
  end.
(** Items are pairs of data and destination. *)
Definition WriteBatch (items : list (list byte * list byte)) : st Conn nat :=
  if decide (items = []) then mret 0%nat else
  c ← get;
  if decide (Network (vm c) <> lit "udp") then fail (Wrap "unsupported tunnel type" (Errorf "%v")) else
  datas ← (if IsPacketAddr (vm c) then address_all items else mret items.*1);
  writePackets datas.

Definition ReadFrom (k : nat) : st Conn (list byte * AddrPort) :=
  c ← get;
  if negb (IsPacketAddr (vm c)) then
    p ← read (Some k);
    t ← dialTargetAddrPort;
    mret (p, t)
  else
    p ← read (Some k);
    if decide (length p = 0%nat) then fail (Errorf "not enough data to read for PacketAddr") else
    '(t, a) ← lift (ExtractPacketAddr p);
    rest ← lift (slice_from p (PacketAddrLength t));
    mret (rest, a).

Definition Read (k : nat) : st Conn (list byte) :=
  c ← get;
  if IsPacketAddr (vm c) || bool_decide (Network (vm c) = lit "udp") then '(p, _) ← ReadFrom k; mret p
  else read (Some k).
Definition Write (b : list byte) : st Conn (nat * option error) :=
  c ← get;
  if IsPacketAddr (vm c) then t ← dialTargetAddrPort; WriteTo b (AddrPortString t) else write b.
End conn.
