(* ===== verification/VmessRound.v ===== *)
(** VMess headers from end to end: the request a client builds and what the server
    takes from it, the response header and the client's view of it. *)

From S2P Require Import Prelude GoStrings NetIP GoState Common Pool Metadata Transport SsKey VmessKdf VmessHeader VmessConn.
From Stdlib Require Import Strings.Byte.

Lemma try_Ret {S A} (m : st S A) s s' a : m s = (s', Ret a) -> try m s = (s', Ret (inl a)).
Proof. intros E. unfold try. by rewrite E. Qed.
Lemma try_Fail {S A} (m : st S A) s s' e : m s = (s', Fail e) -> try m s = (s', Ret (inr e)).
Proof. intros E. unfold try. by rewrite E. Qed.

Section headers.
Context {VC : VmessCrypto} {BS : BufferSource}.
Context (ParseIP : list byte -> list byte) (IPString : list byte -> list byte).

(** * Derived keys *)

Definition kd (n : nat) (key : list byte) (path : list (list byte)) : list byte := take n (kdfReference sha256 key path).
Lemma length_Create c : forall m, length (Create sha256 c m) = 32%nat.
Proof. revert c. fix IH 1. intros [[p|] v] m; cbn [Create]; unfold HMAC; cbv zeta; [apply IH|apply sha256_length]. Qed.
Lemma length_kd n key path : (n <= 32)%nat -> length (kd n key path) = n.
Proof. intros L. unfold kd, kdfReference. rewrite length_take, length_Create. lia. Qed.
Lemma kdf_n_ok n key path : (n <= 32)%nat -> kdf_n n key path = Ret (kd n key path).
Proof.
  intros L. unfold kdf_n. rewrite KDF_ok by apply sha256_length. rewrite bind_ret, slice_eq; [|lia|unfold kdfReference; rewrite length_Create; lia]. by rewrite Nat.sub_0_r, drop_0.
Qed.
Lemma NewAesGcm_ok key path : NewAesGcm (kd 16 key path) = Ret (Gcm (kd 16 key path)).
Proof. unfold NewAesGcm. by rewrite aes_New_ok by (by rewrite length_kd by lia). Qed.

(** * Instruction blocks *)

(** A target the header can carry. *)
Definition target_ok (m : Metadata) : Prop :=
  0 <= mPort m < 65536 /\
  match Type_ m with
  | MetadataTypeIPv4 => length (To4 (ParseIP (Hostname m))) = 4%nat
  | MetadataTypeIPv6 => length (ParseIP (Hostname m)) = 16%nat
  | MetadataTypeDomain => (length (Hostname m) <= 255)%nat
  | MetadataTypeMsg => 0 <= Cmd m < 256
  | MetadataTypeInvalid => False
  end.
Definition addr_bytes (m : Metadata) : list byte :=
  match Type_ m with
  | MetadataTypeIPv4 => To4 (ParseIP (Hostname m))
  | MetadataTypeIPv6 => ParseIP (Hostname m)
  | MetadataTypeDomain => z2b (Z.of_nat (length (Hostname m))) :: Hostname m
  | MetadataTypeMsg => [z2b (Cmd m)]
  | MetadataTypeInvalid => []
  end.
Lemma length_addr_bytes m : target_ok m -> length (addr_bytes m) = AddrLen m.
Proof. intros [_ H]. unfold addr_bytes, AddrLen. by destruct (Type_ m). Qed.

Lemma PutAddr_ok m dst : target_ok m -> (AddrLen m <= length dst)%nat -> exists n, PutAddr ParseIP m dst = Ret (addr_bytes m ++ drop (AddrLen m) dst, n).
Proof.
  intros [_ H] L. unfold PutAddr, addr_bytes, AddrLen in *. destruct (Type_ m).
  - rewrite slice_eq by lia. rewrite bind_ret, drop_0, Nat.sub_0_r, firstn_all2 by lia. rewrite copy_at_0 by lia. rewrite bind_ret, H. by eexists.
  - rewrite slice_eq by lia. rewrite bind_ret, drop_0, Nat.sub_0_r, firstn_all2 by lia. rewrite copy_at_0 by lia. rewrite bind_ret, H. by eexists.
  - rewrite set_at_0 by lia. rewrite bind_ret, copy_at_app by (rewrite ?length_drop; cbn [length]; lia). rewrite bind_ret. cbn [app]. rewrite index_0, bind_ret, drop_drop. by eexists.
  - rewrite set_at_0 by lia. rewrite bind_ret. by eexists.
  - done.
Qed.

Definition ireq_ok (r : ireq) : Prop := (i_P r < 16)%nat /\ length (i_rnd r) = 33%nat /\ length (i_pad r) = i_P r.
Definition opts : byte := z2b (Z.lor (Z.lor OptionChunkStream OptionChunkLengthMasking) OptionGlobalPadding).
Definition sec_byte (m : Metadata) (r : ireq) : byte := z2b (Z.lor (Z.shiftl (Z.of_nat (i_P r)) 4) (ToSecurity (Cipher m))).
(** The first 41 bytes, then the target, the padding and the checksum. *)
Definition instr_head (m : VMetadata) (r : ireq) : list byte :=
  [x01] ++ i_rnd r ++ [opts; sec_byte (base m) r; x00; NetworkToByte (Network m)] ++ be16 (mPort (base m)) ++ [MetadataTypeToByte (Type_ (base m))].
Definition instr_data (m : VMetadata) (r : ireq) : list byte := instr_head m r ++ addr_bytes (base m) ++ i_pad r.
Definition instruction (m : VMetadata) (r : ireq) : list byte := instr_data m r ++ be32 (fnv32a (instr_data m r)).

Lemma length_instr_head m r : ireq_ok r -> length (instr_head m r) = 41%nat.
Proof. intros (_ & L & _). unfold instr_head. rewrite !length_app, length_be_put, L. done. Qed.

Lemma ReqInstructionData_ok m r : ireq_ok r -> target_ok (base m) -> ReqInstructionData ParseIP m r = Ret (instruction m r).
Proof.
  intros R T. pose proof R as (Lp & Lr & Lpad). unfold ReqInstructionData. cbv zeta. set (A := AddrLen (base m)). set (buf := src_get _). assert (Lb : length buf = (A + i_P r + 45)%nat) by apply src_length.
  rewrite set_at_0, bind_ret by lia. rewrite write_at_app, bind_ret by (rewrite ?length_drop; done || lia). rewrite Lr, drop_drop.
  rewrite set_at_app, bind_ret, drop_drop by (rewrite ?length_app, ?length_drop, ?Lr; cbn [length]; lia).
  rewrite set_at_app, bind_ret, drop_drop by (rewrite ?length_app, ?length_drop, ?Lr; cbn [length]; lia).
  rewrite set_at_app, bind_ret, drop_drop by (rewrite ?length_app, ?length_drop, ?Lr; cbn [length]; lia).
  rewrite set_at_app, bind_ret, drop_drop by (rewrite ?length_app, ?length_drop, ?Lr; cbn [length]; lia).
  rewrite write_at_app, bind_ret, length_be_put, drop_drop by (rewrite ?length_app, ?length_drop, ?Lr, ?length_be_put; cbn [length]; lia).
  rewrite set_at_app, bind_ret, drop_drop by (rewrite ?length_app, ?length_drop, ?Lr, ?length_be_put; cbn [length]; lia).
  match goal with |- context [slice_from (?h ++ _) 41] => assert (h = instr_head m r) as -> by (unfold instr_head; by rewrite <- !app_assoc) end.
  assert (Lh := length_instr_head m r R). rewrite slice_from_app, bind_ret by done. set (rest := drop _ buf). assert (Lrest : length rest = (A + i_P r + 4)%nat) by (unfold rest; rewrite length_drop; cbn; lia).
  destruct (PutAddr_ok (base m) rest T) as [n ->]; [lia|]. rewrite bind_ret, take_app_length' by done. rewrite app_assoc. assert (La := length_addr_bytes _ T). fold A in La |- *.
  rewrite write_at_app, bind_ret by (rewrite ?length_app, ?length_drop; lia). rewrite Lpad, drop_drop.
  assert (((instr_head m r ++ addr_bytes (base m)) ++ i_pad r) = instr_data m r) as -> by (unfold instr_data; by rewrite app_assoc).
  set (tail := drop _ rest). assert (Lt : length tail = 4%nat) by (unfold tail; rewrite length_drop; lia).
  assert (En : (length (instr_data m r ++ tail) - 4 = length (instr_data m r))%nat) by (rewrite length_app; lia). rewrite En.
  rewrite slice_eq, bind_ret, Nat.sub_0_r, drop_0, take_app_length by (rewrite ?length_app; lia). rewrite write_at_app by (rewrite ?length_be_put; lia). by rewrite length_be_put, drop_ge, app_nil_r by lia.
Qed.

(** * Encrypted requests *)

Definition hreq_ok (r : hreq) : Prop := length (h_rnd r) = 4%nat /\ length (h_nonce r) = 8%nat.
Definition eid (key : list byte) (r : hreq) : list byte :=
  let d := be_put 8 (h_now r) ++ h_rnd r in aes_Encrypt (kd 16 key [KDFSaltConstAuthIDEncryptionKey]) (d ++ be32 (crc32 d)).
Definition hpath (key : list byte) (r : hreq) (s : list byte) : list (list byte) := [s; eid key r; h_nonce r].
Definition sealed_len (key : list byte) (r : hreq) (n : nat) : list byte :=
  Seal (Gcm (kd 16 key (hpath key r KDFSaltConstVMessHeaderPayloadLengthAEADKey))) (kd 12 key (hpath key r KDFSaltConstVMessHeaderPayloadLengthAEADIV)) (eid key r) (be16 (Z.of_nat n)).
Definition sealed_instr (key : list byte) (r : hreq) (d : list byte) : list byte :=
  Seal (Gcm (kd 16 key (hpath key r KDFSaltConstVMessHeaderPayloadAEADKey))) (kd 12 key (hpath key r KDFSaltConstVMessHeaderPayloadAEADIV)) (eid key r) d.
Definition req_header (key : list byte) (r : hreq) (d : list byte) : list byte := eid key r ++ sealed_len key r (length d) ++ h_nonce r ++ sealed_instr key r d.

(** The cache holds the derived keys. *)
Definition cache_ok (c : blockCache) : Prop := forall k v, c !! k = Some v -> v = kd 16 k [KDFSaltConstAuthIDEncryptionKey].

Lemma authIDEncBlock_ok key c : cache_ok c -> exists c', authIDEncBlock key c = (c', Ret (kd 16 key [KDFSaltConstAuthIDEncryptionKey])) /\ cache_ok c'.
Proof.
  intros H. unfold authIDEncBlock. st_pure. destruct (c !! key) as [v|] eqn:E; [exists c; by rewrite (H _ _ E)|]. st_lift ltac:(by apply kdf_n_ok; lia).
  rewrite aes_New_ok by (by rewrite length_kd by lia). st_pure. eexists. split; [reflexivity|]. intros k v [[<- <-]|[_ Hv]]%lookup_insert_Some; [done|by apply H].
Qed.

Lemma PutEAuthID_ok dst key r c : hreq_ok r -> cache_ok c -> (16 <= length dst)%nat ->
  exists c', PutEAuthID dst key (h_now r) (h_rnd r) c = (c', Ret (eid key r ++ drop 16 dst, eid key r)) /\ cache_ok c'.
Proof.
  intros [Lr _] H L. unfold PutEAuthID. st_lift ltac:(apply write_at_0; rewrite length_be_put; lia). rewrite length_be_put.
  st_lift ltac:(apply write_at_app; rewrite ?length_be_put, ?length_drop; lia). rewrite Lr, drop_drop. set (d := be_put 8 (h_now r) ++ h_rnd r). assert (Ld : length d = 12%nat) by (unfold d; rewrite length_app, length_be_put, Lr; done).
  st_lift ltac:(rewrite slice_eq by (rewrite ?length_app; lia); reflexivity). rewrite Nat.sub_0_r, drop_0, take_app_length' by done.
  st_lift ltac:(apply write_at_app; rewrite ?length_be_put, ?length_drop; lia). rewrite length_be_put, drop_drop.
  destruct (authIDEncBlock_ok key c H) as (c' & E & H'). erewrite st_bind_Ret; [|by apply try_Ret; exact E]. cbv beta iota.
  assert (Lx : length (d ++ be32 (crc32 d)) = 16%nat) by (rewrite length_app, length_be_put; lia).
  st_lift ltac:(rewrite slice_eq by (rewrite ?(length_app (d ++ _)); lia); reflexivity). rewrite Nat.sub_0_r, drop_0, take_app_length' by done. cbv zeta.
  st_lift ltac:(apply write_at_0; rewrite aes_Encrypt_length, length_app; lia). rewrite aes_Encrypt_length, drop_app_length' by done. eexists. split; [reflexivity|done].
Qed.

Lemma EncryptReqHeader_ok d key r c : hreq_ok r -> cache_ok c -> exists c', EncryptReqHeader d key r c = (c', Ret (req_header key r d)) /\ cache_ok c'.
Proof.
  intros Hr Hc. pose proof Hr as [_ Ln]. unfold EncryptReqHeader. set (buf := src_get _). assert (Lb : length buf = (58 + length d)%nat) by apply src_length.
  destruct (PutEAuthID_ok buf key r c Hr Hc) as (c' & E & H'); [lia|]. rewrite (st_bind_Ret _ _ _ _ _ E). cbv beta iota. set (id := eid key r) in *. assert (Lid : length id = 16%nat) by apply aes_Encrypt_length.
  exists c'. split; [|done]. set (rest := drop 16 buf). assert (Lrest : length rest = (42 + length d)%nat) by (unfold rest; rewrite length_drop; lia).
  rewrite <- (take_drop 18 rest). set (r18 := take 18 rest). assert (L18 : length r18 = 18%nat) by (unfold r18; rewrite length_take; lia). set (r2 := drop 18 rest). assert (L2 : length r2 = (24 + length d)%nat) by (unfold r2; rewrite length_drop; lia).
  rewrite app_assoc. st_lift ltac:(apply write_at_app; rewrite ?length_app; lia). rewrite Ln. cbv zeta. st_lift ltac:(by apply kdf_n_ok; lia). fold (hpath key r KDFSaltConstVMessHeaderPayloadLengthAEADKey). st_lift ltac:(apply NewAesGcm_ok).
  rewrite <- !app_assoc. st_lift ltac:(apply write_at_app; rewrite ?length_app, ?length_be_put; lia). rewrite length_be_put.
  st_lift ltac:(by apply kdf_n_ok; lia). rewrite <- (app_assoc id). set (r3 := drop 2 _). st_lift ltac:(rewrite slice_eq by (rewrite ?length_app, ?length_be_put; lia); reflexivity).
  rewrite (drop_app_length' id), take_app_length' by (rewrite ?length_be_put; lia). fold (hpath key r KDFSaltConstVMessHeaderPayloadLengthAEADIV).
  set (s1 := Seal _ _ _ (be16 _)). assert (Ls1 : length s1 = 18%nat) by (unfold s1; by rewrite Seal_length, length_be_put).
  rewrite append_at_app by (rewrite ?length_app, ?length_be_put, ?Ls1; unfold r3; rewrite ?length_drop, ?length_app; lia).
  rewrite Ls1. rewrite (drop_app_ge (be16 _) r3), length_be_put by (rewrite length_be_put; lia). unfold r3. rewrite drop_drop, (drop_app_length' r18) by lia.
  st_lift ltac:(by apply kdf_n_ok; lia). fold (hpath key r KDFSaltConstVMessHeaderPayloadAEADKey). st_lift ltac:(apply NewAesGcm_ok).
  assert (L42 : length ((id ++ s1) ++ h_nonce r) = 42%nat) by (rewrite !length_app; lia). rewrite (app_assoc id s1), (app_assoc (id ++ s1)).
  st_lift ltac:(apply copy_at_app; rewrite ?length_drop; lia). st_lift ltac:(by apply kdf_n_ok; lia). fold (hpath key r KDFSaltConstVMessHeaderPayloadAEADIV).
  set (s2 := Seal _ _ _ d). assert (Ls2 : length s2 = (length d + 16)%nat) by (unfold s2; by rewrite Seal_length). rewrite <- app_assoc. rewrite append_at_app by (rewrite ?length_app, ?length_drop, ?Ls2; rewrite ?length_app in L42; lia).
  rewrite (drop_ge (d ++ _)), app_nil_r by (rewrite length_app, !length_drop; lia). unfold req_header. fold id. by rewrite <- !app_assoc.
Qed.

(** * Responses *)

Definition resp_header (key iv h : list byte) : list byte :=
  Seal (Gcm (kd 16 key [KDFSaltConstAEADRespHeaderLenKey])) (kd 12 iv [KDFSaltConstAEADRespHeaderLenIV]) [] (be16 (Z.of_nat (length h))) ++
  Seal (Gcm (kd 16 key [KDFSaltConstAEADRespHeaderPayloadKey])) (kd 12 iv [KDFSaltConstAEADRespHeaderPayloadIV]) [] h.
Lemma EncryptRespHeader_ok key iv h : EncryptRespHeader key iv h = Ret (resp_header key iv h).
Proof.
  unfold EncryptRespHeader. set (buf := src_get _). assert (Lb : length buf = (34 + length h)%nat) by apply src_length.
  rewrite !kdf_n_ok by lia. rewrite !bind_ret, NewAesGcm_ok, bind_ret.
  rewrite write_at_0, bind_ret, length_be_put by (rewrite length_be_put; lia). rewrite bind_ret, slice_eq, bind_ret, Nat.sub_0_r, drop_0, take_app_length' by (rewrite ?length_app, ?length_be_put; lia). cbv zeta.
  set (s1 := Seal _ _ _ (be16 _)). assert (Ls1 : length s1 = 18%nat) by (unfold s1; by rewrite Seal_length, length_be_put).
  pose proof (append_at_app [] s1 (be16 (Z.of_nat (length h)) ++ drop 2 buf) 0 eq_refl) as E. cbn [app] in E. rewrite E by (rewrite length_app, length_drop, length_be_put; lia).
  rewrite bind_ret, NewAesGcm_ok, !bind_ret. set (s2 := Seal _ _ _ h). assert (Ls2 : length s2 = (length h + 16)%nat) by (unfold s2; by rewrite Seal_length).
  rewrite append_at_app by (rewrite ?length_drop, ?length_app, ?length_drop, ?length_be_put; lia). rewrite (drop_ge (drop _ _)), app_nil_r by (rewrite !length_drop, length_app, length_be_put, length_drop; lia). done.
Qed.

(** * Session keys *)

Definition known_cipher (c : list byte) : Prop := c = CipherC20P1305 \/ c = CipherAES128GCM.
Definition aead_of (c key : list byte) : aead := if decide (c = CipherC20P1305) then ChaCha (md5 key ++ md5 (md5 key)) else Gcm key.
Definition codec_of (o : byte) (iv : list byte) : codec :=
  if ContainOption o OptionChunkLengthMasking then MkCodec (Some (iv, 0%nat)) (ContainOption o OptionGlobalPadding) else MkCodec None false.
Definition body_of (c : list byte) (o : byte) (key iv : list byte) : body := MkBody (aead_of c key) (codec_of o iv) (MkNG ([x00; x00] ++ take 10 (drop 2 iv)) 0).

Lemma make_body_ok x c key iv : newAEAD x = Some c -> known_cipher c -> length key = 16%nat -> length iv = 16%nat -> make_body x key iv = Ret (body_of c (requestOptions x) key iv).
Proof.
  intros Ex Hc Lk Li. unfold make_body, call_NewAEAD. rewrite Ex.
  assert (match NewCipherMapper c with Some f => f key | None => Panic end = Ret (aead_of c key)) as ->.
  { unfold NewCipherMapper, aead_of. destruct Hc as [-> | ->].
    - rewrite decide_True by done. unfold NewC20P1305. rewrite decide_True by done. unfold GenerateChacha20Poly1305Key. pose proof (src_length 32) as Ls. rewrite copy_at_0 by (rewrite md5_length; lia). rewrite md5_length.
      rewrite bind_ret, slice_eq, bind_ret, Nat.sub_0_r, drop_0, take_app_length' by (rewrite ?length_app, ?md5_length; lia). rewrite copy_at_app by (rewrite ?length_drop, ?md5_length; lia).
      rewrite bind_ret, md5_length, (drop_ge (drop _ _)), app_nil_r, bind_ret by (rewrite !length_drop; lia). by rewrite chacha_New_ok by (by rewrite length_app, !md5_length).
    - rewrite decide_False by done. rewrite decide_True by done. unfold NewAesGcm. by rewrite aes_New_ok. }
  rewrite bind_ret. unfold initChunkCodecs, GenerateChunkNonce. cbv zeta. rewrite slice_from_eq by lia. rewrite bind_ret. rewrite copy_at_eq by (rewrite length_replicate; unfold NonceSize; lia).
  rewrite length_drop, Li, length_replicate. cbn [NonceSize replicate Nat.sub Nat.min take drop Nat.add mbind res_bind]. unfold body_of, codec_of. rewrite app_nil_r. done.
Qed.

Definition req_iv (r : ireq) : list byte := take 16 (i_rnd r).
Definition req_key (r : ireq) : list byte := take 16 (drop 16 (i_rnd r)).
Definition req_auth (r : ireq) : byte := nth 32 (i_rnd r) x00.
Definition ctx_of (c : list byte) (r : ireq) : context :=
  MkCtx (req_key r) (req_iv r) (take 16 (sha256 (req_key r))) (take 16 (sha256 (req_iv r))) (req_auth r) opts (Some c).
Lemma length_req_iv r : ireq_ok r -> length (req_iv r) = 16%nat.
Proof. intros (_ & L & _). unfold req_iv. rewrite length_take. lia. Qed.
Lemma length_req_key r : ireq_ok r -> length (req_key r) = 16%nat.
Proof. intros (_ & L & _). unfold req_key. rewrite length_take, length_drop. lia. Qed.

Lemma index_of {A} (l : list A) i x : l !! i = Some x -> index l i = Ret x.
Proof. intros E. unfold index. by rewrite E. Qed.

Lemma instr_bytes m r rest : ireq_ok r -> let d := instr_head m r ++ rest in
  d !! 33%nat = Some (req_auth r) /\ d !! 34%nat = Some opts /\ d !! 35%nat = Some (sec_byte (base m) r) /\ d !! 37%nat = Some (NetworkToByte (Network m)) /\
  take 2 (drop 38 d) = be16 (mPort (base m)) /\ d !! 40%nat = Some (MetadataTypeToByte (Type_ (base m))) /\ take 16 (drop 1 d) = req_iv r /\ take 16 (drop 17 d) = req_key r.
Proof.
  intros (_ & L & _). cbv zeta. unfold instr_head. rewrite <- !app_assoc. set (X := be16 _ ++ _). cbn [app].
  assert (Er : forall i Y, (33 <= i)%nat -> (x01 :: i_rnd r ++ Y) !! (S i) = Y !! (i - 33)%nat) by (intros i Y Hi; change ((x01 :: i_rnd r ++ Y) !! S i) with ((i_rnd r ++ Y) !! i); rewrite lookup_app_r by lia; by rewrite L).
  split_and!.
  - change ((x01 :: ?l) !! 33%nat) with (l !! 32%nat). rewrite lookup_app_l by lia. unfold req_auth. destruct (lookup_lt_is_Some_2 (i_rnd r) 32) as [x Ex]; [lia|]. by rewrite Ex, (nth_lookup_Some _ _ _ _ Ex).
  - by rewrite Er by lia.
  - by rewrite Er by lia.
  - by rewrite Er by lia.
  - change (drop 38 (x01 :: ?l)) with (drop 37 l). rewrite (drop_app_ge (i_rnd r)) by lia. rewrite L. cbn [Nat.sub drop]. unfold X. by apply take_app_length'.
  - rewrite Er by lia. cbn [Nat.sub]. change ((opts :: sec_byte (base m) r :: x00 :: NetworkToByte (Network m) :: X) !! 6%nat) with (X !! 2%nat). unfold X. rewrite lookup_app_r by (by rewrite length_be_put). by rewrite length_be_put.
  - change (drop 1 (x01 :: ?l)) with l. unfold req_iv. by rewrite take_app_le by lia.
  - change (drop 17 (x01 :: ?l)) with (drop 16 l). unfold req_key. rewrite drop_app_le by lia. rewrite take_app_le by (rewrite length_drop; lia). done.
Qed.

Lemma sec_low P s : (P < 16)%nat -> s = 3 \/ s = 4 -> Z.land (b2z (z2b (Z.lor (Z.shiftl (Z.of_nat P) 4) s))) 0xf = s.
Proof.
  intros L H. assert (F : Forall (fun P => Z.land (b2z (z2b (Z.lor (Z.shiftl (Z.of_nat P) 4) 3))) 0xf = 3 /\ Z.land (b2z (z2b (Z.lor (Z.shiftl (Z.of_nat P) 4) 4))) 0xf = 4) (seq 0 16)) by (apply (bool_decide_unpack _); vm_compute; exact Logic.I).
  assert (Hp : P ∈ seq 0 16) by (apply elem_of_seq; lia). apply (proj1 (Forall_forall _ _) F) in Hp as [H3 H4]. by destruct H as [-> | ->].
Qed.
Lemma sec_byte_ok m r : ireq_ok r -> known_cipher (Cipher m) -> ParseCipherFromSecurity (Z.land (b2z (sec_byte m r)) 0xf) = Ret (Cipher m).
Proof. intros (L & _) H. unfold sec_byte. rewrite sec_low by (done || by destruct H as [-> | ->]; [right|left]). by destruct H as [-> | ->]. Qed.

Definition with_cipher (ci : list byte) (v : VMetadata) : VMetadata :=
  let b := base v in MkVM (MkMeta (Type_ b) (Hostname b) (mPort b) (mIP b) (Cmd b) ci (IsClient b)) (Network v) (authedCmdKey v) (authedEAuthID v).

Lemma InitContext_ok m r rest c : ireq_ok r -> known_cipher (Cipher (base m)) -> Cipher (base (vm c)) = [] \/ Cipher (base (vm c)) = Cipher (base m) ->
  InitContext (instr_head m r ++ rest) c = (set_cx (ctx_of (Cipher (base m)) r) (set_vm (with_cipher (Cipher (base m)) (vm c)) c), Ret tt).
Proof.
  intros Hr Hk Hc. destruct (instr_bytes m r rest Hr) as (B33 & B34 & B35 & _ & _ & _ & Biv & Bkey). set (d := instr_head m r ++ rest) in *.
  assert (Ld : (41 <= length d)%nat) by (unfold d; rewrite length_app, length_instr_head by done; lia). unfold InitContext. rewrite decide_False by (unfold vmessInstructionDataFixedLen; lia).
  st_lift ltac:(by apply index_of). st_lift ltac:(by apply slice_from_eq; lia). st_lift ltac:(by apply slice_from_eq; lia). rewrite Biv, Bkey. cbv zeta. st_pure. st_pure. st_lift ltac:(by apply index_of).
  set (c1 := set_cx _ c). assert (E : (if decide (Cipher (base (vm c1)) = []) then
       ciph ← lift (ParseCipherFromSecurity (Z.land (b2z (sec_byte (base m) r)) 0xf));
       modify (fun c => set_vm (MkVM (MkMeta (Type_ (base (vm c))) (Hostname (base (vm c))) (mPort (base (vm c))) (mIP (base (vm c))) (Cmd (base (vm c))) ciph (IsClient (base (vm c)))) (Network (vm c)) (authedCmdKey (vm c)) (authedEAuthID (vm c))) c)
     else mret tt) c1 = (set_vm (with_cipher (Cipher (base m)) (vm c)) c1, Ret tt)).
  { destruct Hc as [E|E].
    - rewrite decide_True by done. st_lift ltac:(by apply sec_byte_ok). done.
    - assert (Cipher (base m) <> []) by (by destruct Hk as [-> | ->]). rewrite decide_False by (cbn; congruence). rewrite <- E. unfold mret, st_ret. do 2 f_equal. unfold c1. destruct c as [[[] ? ? ?] ? ? ? ? ? ? ?]. done. }
  rewrite (st_bind_Ret _ _ _ _ _ E). st_pure. cbn [vm set_vm base with_cipher Cipher].
  assert (exists f, NewCipherMapper (Cipher (base m)) = Some f) as [f Ef]. { unfold NewCipherMapper. destruct Hk as [-> | ->]; by eexists. }
  rewrite Ef. st_lift ltac:(by apply index_of). unfold modify. cbn [cx set_vm set_cx c1 base vm with_cipher Cipher]. done.
Qed.

Lemma type_roundtrip t : ParseMetadataType (MetadataTypeToByte t) = t.
Proof. by destruct t. Qed.
Lemma network_roundtrip n : n = lit "tcp" \/ n = lit "udp" -> ParseNetwork (NetworkToByte n) = n.
Proof. by intros [-> | ->]. Qed.

(** What the server learns of the target: addresses in canonical text. *)
Definition seen_host (m : Metadata) (v : VMetadata) : list byte :=
  match Type_ m with
  | MetadataTypeIPv4 => IPString (To4 (ParseIP (Hostname m)))
  | MetadataTypeIPv6 => IPString (ParseIP (Hostname m))
  | MetadataTypeDomain => Hostname m
  | _ => Hostname (base v)
  end.
Definition seen_cmd (m : Metadata) (v : VMetadata) : Z := if decide (Type_ m = MetadataTypeMsg) then Cmd m else Cmd (base v).
Definition seen_meta (m v : VMetadata) : VMetadata :=
  let b := base m in MkVM (MkMeta (Type_ b) (seen_host b v) (mPort b) (mIP (base v)) (seen_cmd b v) (Cipher b) (IsClient (base v))) (Network m) (authedCmdKey v) (authedEAuthID v).

Lemma complete_ok m r rest v b : ireq_ok r -> known_cipher (Cipher (base m)) -> 0 <= mPort (base m) < 65536 -> Network m = lit "tcp" \/ Network m = lit "udp" ->
  complete v b (instr_head m r ++ rest) = Ret (MkVM (MkMeta (Type_ b) (Hostname b) (mPort (base m)) (mIP b) (Cmd b) (Cipher (base m)) (IsClient b)) (Network m) (authedCmdKey v) (authedEAuthID v)).
Proof.
  intros Hr Hk Hp Hn. destruct (instr_bytes m r rest Hr) as (_ & _ & B35 & B37 & B38 & _). set (d := instr_head m r ++ rest) in *. assert (Ld : (41 <= length d)%nat) by (unfold d; rewrite length_app, length_instr_head by done; lia).
  unfold complete. rewrite slice_from_eq, bind_ret by lia. rewrite slice_eq by (rewrite ?length_drop; lia). rewrite bind_ret, Nat.sub_0_r, drop_0, B38, (index_of _ _ _ B37), bind_ret, (index_of _ _ _ B35), bind_ret, sec_byte_ok, bind_ret by done.
  rewrite (be_get_put_small 2) by (change (256 ^ Z.of_nat 2) with 65536; lia). by rewrite network_roundtrip.
Qed.

Lemma Complete_ok m r rest v : ireq_ok r -> known_cipher (Cipher (base m)) -> target_ok (base m) -> Network m = lit "tcp" \/ Network m = lit "udp" ->
  CompleteFromInstructionData IPString v (instr_head m r ++ addr_bytes (base m) ++ rest) = Ret (seen_meta m v).
Proof.
  intros Hr Hk Ht Hn. pose proof Ht as [Hp H]. pose proof (length_addr_bytes _ Ht) as La. destruct (instr_bytes m r (addr_bytes (base m) ++ rest) Hr) as (_ & _ & _ & _ & _ & B40 & _).
  pose proof (complete_ok m r (addr_bytes (base m) ++ rest) v) as Ec. assert (Lh := length_instr_head m r Hr).
  assert (At41 : forall n, (n <= length (addr_bytes (base m)))%nat -> slice (instr_head m r ++ addr_bytes (base m) ++ rest) 41 (41 + n) = Ret (take n (addr_bytes (base m)))).
  { intros n Hle. rewrite slice_eq by (rewrite ?length_app; lia). rewrite add_sub_cancel, drop_app_length' by done. by rewrite take_app_le by lia. }
  assert (D41 : drop 41 (instr_head m r ++ addr_bytes (base m) ++ rest) = addr_bytes (base m) ++ rest) by (by apply drop_app_length').
  set (d := instr_head m r ++ addr_bytes (base m) ++ rest) in *. assert (Ld : (41 + AddrLen (base m) <= length d)%nat) by (unfold d; rewrite !length_app; lia).
  unfold CompleteFromInstructionData. rewrite decide_False by lia. rewrite (index_of _ _ _ B40), bind_ret, type_roundtrip. unfold seen_meta, seen_host, seen_cmd. cbv zeta. unfold AddrLen, addr_bytes in *. destruct (Type_ (base m)) eqn:Et.
  - rewrite decide_False by lia. specialize (At41 4%nat). cbn [Nat.add] in At41. rewrite At41 by lia. rewrite bind_ret, firstn_all2 by lia. by rewrite Ec.
  - rewrite decide_False by lia. specialize (At41 16%nat). cbn [Nat.add] in At41. rewrite At41 by lia. rewrite bind_ret, firstn_all2 by lia. by rewrite Ec.
  - assert (E41 : d !! 41%nat = Some (z2b (Z.of_nat (length (Hostname (base m)))))) by (rewrite <- (Nat.add_0_r 41), <- lookup_drop, D41; done).
    rewrite (index_of _ _ _ E41), bind_ret. cbv zeta. rewrite b2z_z2b_small, Nat2Z.id by lia. rewrite decide_False by lia.
    assert (D42 : drop 42 d = Hostname (base m) ++ rest) by (change 42%nat with (41 + 1)%nat; rewrite <- drop_drop, D41; done).
    rewrite slice_eq by lia. rewrite bind_ret, add_sub_cancel, D42, take_app_length. by rewrite Ec.
  - rewrite decide_False by lia. assert (E41 : d !! 41%nat = Some (z2b (Cmd (base m)))) by (rewrite <- (Nat.add_0_r 41), <- lookup_drop, D41; done).
    rewrite (index_of _ _ _ E41), bind_ret, b2z_z2b_small by lia. by rewrite Ec.
  - done.
Qed.

(** * Both ends of the header *)

Definition client_ok (m : VMetadata) : Prop :=
  IsClient (base m) = true /\ known_cipher (Cipher (base m)) /\ target_ok (base m) /\ (Network m = lit "tcp" \/ Network m = lit "udp").
Definition req_body (ci : list byte) (r : ireq) : body := body_of ci opts (req_key r) (req_iv r).
Definition resp_key (r : ireq) : list byte := take 16 (sha256 (req_key r)).
Definition resp_iv (r : ireq) : list byte := take 16 (sha256 (req_iv r)).
Definition resp_body (ci : list byte) (r : ireq) : body := body_of ci opts (resp_key r) (resp_iv r).
Lemma length_resp_key r : length (resp_key r) = 16%nat.
Proof. unfold resp_key. rewrite length_take, sha256_length. done. Qed.
Lemma length_resp_iv r : length (resp_iv r) = 16%nat.
Proof. unfold resp_iv. rewrite length_take, sha256_length. done. Qed.

Definition client_conn (m : VMetadata) (tgt key : list byte) (i : stream) (w : list byte) (pos : nat) (r : ireq) : Conn :=
  MkC m key tgt AddrPortZero None (ctx_of (Cipher (base m)) r) (MkW true (Some (req_body (Cipher (base m)) r)) None [] false pos (sent w)) (MkR false None 0 0 [] i).

Lemma with_cipher_same m : with_cipher (Cipher (base m)) m = m.
Proof. by destruct m as [[] ? ? ?]. Qed.

Lemma NewConn_ok m tgt key i pos ir hr cache : client_ok m -> ireq_ok ir -> hreq_ok hr -> cache_ok cache ->
  exists cache', NewConn ParseIP m tgt key i (sent []) pos ir hr cache = Ret (client_conn m tgt key i (req_header key hr (instruction m ir)) pos ir, cache') /\ cache_ok cache'.
Proof.
  intros (Hc & Hk & Ht & Hn) Hi Hh Hca. unfold NewConn. rewrite Hc. unfold WriteReqHeader. st_pure. st_pure. cbn [vm set_wr fresh_conn].
  st_lift ltac:(by apply ReqInstructionData_ok). assert (Ei : instruction m ir = instr_head m ir ++ (addr_bytes (base m) ++ i_pad ir) ++ be32 (fnv32a (instr_data m ir))) by (unfold instruction, instr_data; by rewrite <- !app_assoc).
  erewrite st_bind_Ret; [|rewrite Ei; apply InitContext_ok; [done|done|by right]]. cbv beta. st_pure. cbn [cmdKey cx set_cx set_vm vm set_wr fresh_conn]. rewrite with_cipher_same.
  destruct (EncryptReqHeader_ok (instruction m ir) key hr cache Hh Hca) as (cache' & -> & Hca'). st_lift ltac:(reflexivity).
  st_lift ltac:(apply make_body_ok; [reflexivity|done|by apply length_req_key|by apply length_req_iv]). st_pure.
  erewrite st_bind_Ret; [|reflexivity]. cbv beta. exists cache'. split; [|done]. reflexivity.
Qed.

Context (JoinHostPort : list byte -> Z -> list byte).

Lemma read_in_conn A R c : inp (rs c) = A ++ R -> read_in (length A) c =
  (set_rs (MkR (initRead (rs c)) (r_body (rs c)) (leftToRead (rs c)) (indexToRead (rs c)) (readOpenFrame (rs c)) R) c, Ret A).
Proof. intros E. unfold read_in, on_rs. rewrite E. by rewrite readFull_app by done. Qed.
Lemma wrapErr_pass {A} msg (m : st Conn A) c c' a : m c = (c', Ret a) -> wrapErr msg m c = (c', Ret a).
Proof. intros E. unfold wrapErr. by rewrite E. Qed.
Lemma length_append_at (arr x : list byte) off : length (append_at arr off x) = length arr.
Proof. unfold append_at. case_decide; [|done]. rewrite !length_app, length_take, length_drop. lia. Qed.
Lemma append_at_front (arr x : list byte) n : (n <= length x)%nat -> (length x <= length arr)%nat -> take n (append_at arr 0 x) = take n x.
Proof. intros L1 L2. unfold append_at. rewrite decide_True by lia. rewrite take_0. cbn [app]. rewrite take_app_le by lia. done. Qed.

(** The server behind the authentication ID. *)
Definition server_conn (v : VMetadata) (tgt key : list byte) (i : stream) (t : tconn) (pos : nat) : Conn := fresh_conn v tgt key i t pos.
Definition served (m v : VMetadata) (key : list byte) (r : ireq) (i : stream) (t : tconn) (pos : nat) : Conn :=
  MkC (seen_meta m v) key (JoinHostPort (seen_host (base m) v) (mPort (base m))) AddrPortZero None (ctx_of (Cipher (base m)) r)
    (MkW false None None [] false pos t) (MkR true (Some (req_body (Cipher (base m)) r)) 0 0 [] i).

Lemma server_accepts m key ir hr v tgt key0 t pos R : client_ok m -> ireq_ok ir -> hreq_ok hr ->
  IsClient (base v) = false -> Cipher (base v) = [] -> authedCmdKey v = key -> authedEAuthID v = eid key hr ->
  Z.of_nat (length (instruction m ir)) < 65536 ->
  read IPString JoinHostPort None (server_conn v tgt key0 (drop 16 (req_header key hr (instruction m ir)) ++ R) t pos) = (served m v key ir R t pos, Ret []).
Proof.
  intros (Hc & Hk & Ht & Hn) Hi [Lr4 Ln8] Hcv Hv Ek Eid Li. assert (Lid : length (eid key hr) = 16%nat) by apply aes_Encrypt_length. set (d := instruction m ir) in *.
  assert (drop 16 (req_header key hr d) ++ R = (sealed_len key hr (length d) ++ h_nonce hr) ++ sealed_instr key hr d ++ R) as -> by (unfold req_header; rewrite drop_app_length' by done; by rewrite <- !app_assoc).
  set (sl := sealed_len key hr (length d)). assert (Lsl : length sl = 18%nat) by (unfold sl, sealed_len; by rewrite Seal_length, length_be_put). set (si := sealed_instr key hr d). assert (Lsi : length si = (length d + 16)%nat) by (unfold si, sealed_instr; by rewrite Seal_length).
  assert (L26 : length (sl ++ h_nonce hr) = 26%nat) by (rewrite length_app; lia).
  unfold read. st_pure. cbn [rs server_conn fresh_conn initRead vm]. rewrite Hcv. cbn [base].
  match goal with |- (?a ≫= _) ?s = _ => assert (E : exists c1, a s = (c1, Ret tt) /\ c1 = served m v key ir R t pos) end.
  2:{ destruct E as (c1 & E & ->). rewrite (st_bind_Ret _ _ _ _ _ E). done. }
  st_pure. unfold init_server. erewrite st_bind_Ret; [|apply wrapErr_pass; rewrite <- L26; by apply read_in_conn]. cbv beta.
  st_lift ltac:(rewrite slice_eq by (rewrite ?L26; lia); reflexivity). rewrite (drop_app_length' sl) by done. cbn [Nat.sub]. rewrite firstn_all2 by lia. st_pure. st_pure. cbn [vm set_cmdKey cmdKey set_rs rs server_conn fresh_conn]. rewrite Eid, Ek. cbv zeta.
  fold (hpath key hr KDFSaltConstVMessHeaderPayloadLengthAEADKey) (hpath key hr KDFSaltConstVMessHeaderPayloadLengthAEADIV) (hpath key hr KDFSaltConstVMessHeaderPayloadAEADKey) (hpath key hr KDFSaltConstVMessHeaderPayloadAEADIV).
  st_lift ltac:(rewrite kdf_n_ok by lia; rewrite bind_ret; apply NewAesGcm_ok).
  erewrite st_bind_Ret; [|apply wrapErr_pass; unfold lift; rewrite kdf_n_ok, bind_ret by lia; rewrite slice_eq, bind_ret by (rewrite ?L26; lia); rewrite Nat.sub_0_r, drop_0, take_app_length' by done; unfold open, sl, sealed_len; rewrite Open_Seal; reflexivity]. cbv beta.
  erewrite st_lift_Ret; [|rewrite slice_eq by (rewrite ?length_append_at, ?L26; lia); rewrite Nat.sub_0_r, drop_0, append_at_front by (rewrite ?L26, length_be_put; lia); rewrite firstn_all2 by (by rewrite length_be_put); cbn [fmap res_fmap]; rewrite (be_get_put_small 2) by (change (256 ^ Z.of_nat 2) with 65536; lia); reflexivity]. cbv beta.
  rewrite Nat2Z.id. erewrite st_bind_Ret; [|apply wrapErr_pass; rewrite <- Lsi; apply read_in_conn; reflexivity]. cbv beta.
  st_lift ltac:(rewrite kdf_n_ok by lia; rewrite bind_ret; apply NewAesGcm_ok).
  erewrite st_bind_Ret; [|apply wrapErr_pass; unfold lift; rewrite kdf_n_ok, bind_ret by lia; unfold open, si, sealed_instr; rewrite Open_Seal; reflexivity]. cbv beta.
  st_lift ltac:(rewrite slice_eq by (rewrite ?length_append_at; lia); rewrite Nat.sub_0_r, drop_0, append_at_front by lia; rewrite firstn_all; reflexivity).
  assert (Ei : d = instr_head m ir ++ addr_bytes (base m) ++ (i_pad ir ++ be32 (fnv32a (instr_data m ir)))) by (unfold d, instruction, instr_data; by rewrite <- !app_assoc).
  erewrite st_bind_Ret; [|rewrite Ei; apply InitContext_ok; [done|done|by left]]. cbv beta. st_pure. st_lift ltac:(rewrite Ei; by apply Complete_ok). st_pure. st_pure. cbn [cx set_cx set_vm set_dialTgt ctx_of requestBodyKey requestBodyIV].
  st_lift ltac:(apply make_body_ok; [reflexivity|done|by apply length_req_key|by apply length_req_iv]). eexists. split; [reflexivity|]. reflexivity.
Qed.

Lemma instruction_short m r : ireq_ok r -> target_ok (base m) -> Z.of_nat (length (instruction m r)) < 65536.
Proof.
  intros Hr Ht. unfold instruction, instr_data. rewrite !length_app, length_be_put, length_instr_head, length_addr_bytes by done. destruct Hr as (Lp & _ & ->). destruct Ht as [_ H]. unfold AddrLen. destruct (Type_ (base m)); lia.
Qed.

(** The client's first read, once the server has answered. *)
Lemma client_accepts c ci r R : IsClient (base (vm c)) = true -> cx c = ctx_of ci r -> known_cipher ci -> initRead (rs c) = false ->
  inp (rs c) = resp_header (resp_key r) (resp_iv r) (RespHeader (req_auth r)) ++ R ->
  read IPString JoinHostPort None c = (set_rs (MkR true (Some (resp_body ci r)) (leftToRead (rs c)) (indexToRead (rs c)) (readOpenFrame (rs c)) R) c, Ret []).
Proof.
  intros Hc Hx Hk Hi Er. unfold read. st_pure. rewrite Hi, Hc.
  match goal with |- (?a ≫= _) ?s = _ => assert (E : exists c1, a s = (c1, Ret tt) /\ c1 = set_rs (MkR true (Some (resp_body ci r)) (leftToRead (rs c)) (indexToRead (rs c)) (readOpenFrame (rs c)) R) c) end.
  2:{ destruct E as (c1 & E & ->). rewrite (st_bind_Ret _ _ _ _ _ E). done. }
  st_pure. unfold init_client. st_pure. cbn [cx set_rs]. rewrite Hx. cbv zeta. cbn [ctx_of responseBodyKey responseBodyIV responseAuth]. fold (resp_key r) (resp_iv r).
  set (h := RespHeader (req_auth r)) in *. assert (Lh : length h = 4%nat) by done. unfold resp_header in Er. set (s1 := Seal _ _ [] (be16 _)) in Er. set (s2 := Seal _ _ [] h) in Er. rewrite <- app_assoc in Er.
  assert (L1 : length s1 = 18%nat) by (unfold s1; by rewrite Seal_length, length_be_put). assert (L2 : length s2 = 20%nat) by (unfold s2; by rewrite Seal_length, Lh).
  erewrite st_bind_Ret; [|apply wrapErr_pass; rewrite <- L1; apply read_in_conn; exact Er]. cbv beta.
  st_lift ltac:(rewrite kdf_n_ok by lia; rewrite bind_ret; apply NewAesGcm_ok).
  erewrite st_bind_Ret; [|apply wrapErr_pass; unfold lift; rewrite kdf_n_ok, bind_ret by lia; unfold open, s1; rewrite Open_Seal; reflexivity]. cbv beta.
  erewrite st_lift_Ret; [|rewrite slice_eq by (rewrite ?length_append_at, ?L1; lia); rewrite Nat.sub_0_r, drop_0, append_at_front by (rewrite ?L1, length_be_put; lia); rewrite firstn_all2 by (by rewrite length_be_put); rewrite Lh; reflexivity]. cbv beta.
  change (Z.to_nat (be_get (be16 (Z.of_nat 4))) + 16)%nat with 20%nat. erewrite st_bind_Ret; [|apply wrapErr_pass; rewrite <- L2; apply read_in_conn; reflexivity]. cbv beta.
  st_lift ltac:(rewrite kdf_n_ok by lia; rewrite bind_ret; apply NewAesGcm_ok).
  erewrite st_bind_Ret; [|apply wrapErr_pass; unfold lift; rewrite kdf_n_ok, bind_ret by lia; unfold open, s2; rewrite Open_Seal; reflexivity]. cbv beta zeta.
  assert (Ea : append_at s2 0 h = req_auth r :: replicate 3 x00 ++ drop 4 s2) by (unfold append_at; rewrite decide_True by lia; rewrite take_0; done).
  rewrite Ea. st_lift ltac:(reflexivity). rewrite decide_False by (intros X; by apply X). st_lift ltac:(reflexivity). rewrite decide_False by (intros X; by apply X).
  st_lift ltac:(apply make_body_ok; [reflexivity|done|apply length_resp_key|apply length_resp_iv]). eexists. split; [reflexivity|]. reflexivity.
Qed.
End headers.
