(* ===== verification/VmessStream.v ===== *)
(** VMess chunks from end to end: what a direction writes, over any padding and masks,
    is what the other end reads. *)

From S2P Require Import Prelude GoStrings NetIP GoState Common Pool Metadata Transport SsKey SsChunks VmessKdf VmessHeader VmessConn VmessRound.
From Stdlib Require Import Strings.Byte.

Section chunks.
Context {VC : VmessCrypto} {BS : BufferSource}.
Context (ParseIP : list byte -> list byte) (IPString : list byte -> list byte).
Context (JoinHostPort : list byte -> Z -> list byte) (resolveUDPAddr : list byte -> res UDPAddr) (AddrPortString : AddrPort -> list byte).
Context (rand : nat -> byte).

(** * One chunk *)

Definition body_wf (b : body) : Prop := length (ng_buf (b_gen b)) = 12%nat /\ 0 <= ng_count (b_gen b) < 65536.
Definition nonce_of (g : nonceGen) : list byte := be16 (ng_count g) ++ drop 2 (ng_buf g).
Definition gen_next (g : nonceGen) : nonceGen := MkNG (nonce_of g) ((ng_count g + 1) mod 65536).
Lemma gen_ok b : body_wf b -> gen (b_gen b) = Ret (gen_next (b_gen b), nonce_of (b_gen b)).
Proof. intros [L _]. unfold gen. rewrite write_at_0 by (rewrite length_be_put; lia). by rewrite bind_ret, length_be_put. Qed.

(** The chunk of [p], and the codec and nonces after it. *)
Definition seal_chunk (b : body) (pos : nat) (p : list byte) : list byte * body * nat :=
  let '(cd, n) := NextPaddingLen (b_codec b) in
  let '(cd, e) := Encode (Z.of_nat (length p + Overhead + n) mod 65536) cd in
  (e ++ Seal (b_cipher b) (nonce_of (b_gen b)) [] p ++ random rand pos n, MkBody (b_cipher b) cd (gen_next (b_gen b)), (pos + n)%nat).

Lemma length_random pos n : length (random rand pos n) = n.
Proof. unfold random. by rewrite length_fmap, length_seq. Qed.
Lemma padding_lt c : (NextPaddingLen c).2 = 0%nat \/ (cc_pad c = true /\ (NextPaddingLen c).2 < 64)%nat.
Proof.
  unfold NextPaddingLen. destruct (cc_pad c); [|by left]. right. destruct (next c) as [c' w]. cbn. split; [done|]. pose proof (Z.mod_pos_bound w 64). lia.
Qed.
Lemma padding_max c : ((NextPaddingLen c).2 <= MaxPaddingLen c <= 64)%nat.
Proof. unfold MaxPaddingLen. destruct (padding_lt c) as [-> |[-> ?]]; [destruct (cc_pad c)|]; lia. Qed.
Lemma codec_pad_next c : cc_pad (next c).1 = cc_pad c.
Proof. unfold next. by destruct (cc_shake c) as [[]|]. Qed.
Lemma codec_pad_NextPaddingLen c : cc_pad (NextPaddingLen c).1 = cc_pad c.
Proof. unfold NextPaddingLen. destruct (cc_pad c) eqn:E; [|done]. pose proof (codec_pad_next c) as H. destruct (next c) as [c' w]. cbn [fst] in *. by rewrite H. Qed.

Lemma seal_chunk_wf b pos p : body_wf b -> body_wf (seal_chunk b pos p).1.2 /\ MaxPaddingLen (b_codec (seal_chunk b pos p).1.2) = MaxPaddingLen (b_codec b) /\ b_cipher (seal_chunk b pos p).1.2 = b_cipher b.
Proof.
  intros [L R]. unfold seal_chunk. pose proof (codec_pad_NextPaddingLen (b_codec b)) as H. destruct (NextPaddingLen (b_codec b)) as [cd n]. unfold Encode. pose proof (codec_pad_next cd) as H2. destruct (next cd) as [cd' w]. cbn in *.
  split; [split; cbn; [unfold nonce_of; rewrite length_app, length_be_put, length_drop; lia|apply Z.mod_pos_bound; lia]|]. split; [|done]. unfold MaxPaddingLen. by rewrite H2, H.
Qed.

Lemma fill_chunk_ok b p data pos : body_wf b -> let n := (NextPaddingLen (b_codec b)).2 in length data = (SizeBytes + (length p + Overhead) + n)%nat ->
  fill_chunk rand b p data n pos (NextPaddingLen (b_codec b)).1 = Ret (seal_chunk b pos p).1.
Proof.
  intros W n L. unfold fill_chunk, seal_chunk. subst n. destruct (NextPaddingLen (b_codec b)) as [cd n]. cbn [fst snd] in *. unfold Encode. destruct (next cd) as [cd' w]. set (e := be16 _). assert (Le : length e = 2%nat) by apply length_be_put.
  unfold SizeBytes in *. rewrite write_at_0 by lia. rewrite bind_ret, gen_ok, bind_ret by done. cbv zeta. set (s := Seal _ _ _ p). assert (Ls : length s = (length p + Overhead)%nat) by apply Seal_length.
  rewrite append_at_app by (rewrite ?length_drop; lia). rewrite app_assoc.
  assert (Lx : (length ((e ++ s) ++ drop (length s) (drop (length e) data)) - n = length (e ++ s))%nat) by (rewrite !length_app, !length_drop; lia).
  rewrite Lx, write_at_app by (rewrite ?length_random, ?length_drop; lia). rewrite bind_ret, length_random, (drop_ge (drop _ _)), app_nil_r, <- app_assoc by (rewrite !length_drop; lia). done.
Qed.

Fixpoint seal_chunks (b : body) (pos : nat) (ps : list (list byte)) : list byte * body * nat :=
  match ps with
  | [] => ([], b, pos)
  | p :: ps =>
      let '(x, b, pos) := seal_chunk b pos p in
      let '(y, b, pos) := seal_chunks b pos ps in
      (x ++ y, b, pos)
  end.
Lemma seal_chunks_app ps qs : forall b pos, seal_chunks b pos (ps ++ qs) =
  let '(x, b, pos) := seal_chunks b pos ps in let '(y, b, pos) := seal_chunks b pos qs in (x ++ y, b, pos).
Proof.
  induction ps as [|p ps IH]; intros b pos; cbn [app seal_chunks]; [by destruct (seal_chunks b pos qs) as [[]]|]. destruct (seal_chunk b pos p) as [[x b1] pos1]. rewrite IH.
  destruct (seal_chunks b1 pos1 ps) as [[y b2] pos2]. destruct (seal_chunks b2 pos2 qs) as [[z b3] pos3]. by rewrite app_assoc.
Qed.
Lemma seal_chunks_wf ps : forall b pos, body_wf b -> body_wf (seal_chunks b pos ps).1.2 /\ MaxPaddingLen (b_codec (seal_chunks b pos ps).1.2) = MaxPaddingLen (b_codec b).
Proof.
  induction ps as [|p ps IH]; intros b pos W; [done|]. cbn [seal_chunks]. destruct (seal_chunk_wf b pos p W) as (W1 & M1 & _). destruct (seal_chunk b pos p) as [[x b1] pos1]. cbn in W1, M1.
  specialize (IH b1 pos1 W1). destruct (seal_chunks b1 pos1 ps) as [[y b2] pos2]. cbn in *. by rewrite <- M1.
Qed.

(** * A writer over a transport that does not fail *)

(** The direction is set up with body [b] at random position [pos]; [o] is on the wire. *)
Definition writing (b : body) (pos : nat) (o : list byte) (w : wside) : Prop :=
  exists f, w = MkW true (Some b) None f false pos (sent o) /\ body_wf b.

Lemma sealFromPool_ok b pos o w p : writing b pos o w -> let '(x, b', pos') := seal_chunk b pos p in exists w', sealFromPool rand p w = (w', Ret x) /\ writing b' pos' o w'.
Proof.
  intros (f & -> & W). destruct (seal_chunk b pos p) as [[x b'] pos'] eqn:Es. unfold sealFromPool. st_pure. st_lift ltac:(reflexivity). pose proof (seal_chunk_wf b pos p W) as (W' & _ & _). rewrite Es in W'. cbn in W'.
  pose proof (fun data => fill_chunk_ok b p data pos W) as F. rewrite Es in F. cbv zeta in F. assert (Epos : pos' = (pos + (NextPaddingLen (b_codec b)).2)%nat) by (unfold seal_chunk in Es; destruct (NextPaddingLen (b_codec b)) as [cd n]; destruct (Encode _ cd); by injection Es).
  destruct (NextPaddingLen (b_codec b)) as [cd n]. cbn [fst snd] in *. cbv zeta. set (total := (SizeBytes + _ + n)%nat) in *. cbn [writeSealFrame w_pos]. set (frame := if decide (total <= _)%nat then _ else _).
  assert (Lf : (total <= length frame)%nat) by (unfold frame; repeat case_decide; rewrite ?length_replicate; lia).
  st_lift ltac:(apply slice_eq; lia). rewrite Nat.sub_0_r, drop_0. st_lift ltac:(apply F; rewrite length_take; lia). st_pure. eexists. split; [reflexivity|]. eexists. split; [by rewrite Epos|done].
Qed.

Lemma v_transport_Write_ok b pos o w x : writing b pos o w -> exists w', transport_Write x w = (w', Ret tt) /\ writing b pos (o ++ x) w'.
Proof. intros (f & -> & W). eexists. split; [reflexivity|]. by exists f. Qed.
Lemma transport_MultiWrite_ok b pos o w x y : writing b pos o w -> exists w', transport_MultiWrite [x; y] w = (w', Ret tt) /\ writing b pos (o ++ x ++ y) w'.
Proof. intros (f & -> & W). unfold transport_MultiWrite. cbn [outp]. rewrite MultiWrite_sent. eexists. split; [reflexivity|]. exists f. cbn [concat]. by rewrite app_nil_r. Qed.

(** The payload of a full chunk. *)
Definition payload (b : body) : nat := (MaxChunkSize - Overhead - SizeBytes - MaxPaddingLen (b_codec b))%nat.
Lemma payload_pos b : (0 < payload b)%nat /\ Z.of_nat (payload b) <= 16366.
Proof. pose proof MaxChunkSize_eq. pose proof (padding_max (b_codec b)). unfold payload, Overhead, SizeBytes. lia. Qed.

Lemma stream_loop_ok P m d : (0 < P)%nat -> forall n b pos o w, writing b pos o w -> m = length (chunks_of P (drop n d)) ->
  let '(x, b', pos') := seal_chunks b pos (chunks_of P (drop n d)) in exists w' k, stream_loop rand m P d n w = (w', Ret (k, None)) /\ writing b' pos' (o ++ x) w' /\ ((length d <= n + m * P)%nat -> k = length d).
Proof.
  intros HP. induction m as [|m IH]; intros n b pos o w W Em.
  - destruct (chunks_of P (drop n d)) eqn:E; [|done]. cbn. exists w, (Nat.min n (length d)). rewrite app_nil_r. split; [done|]. split; [done|]. intros. lia.
  - destruct (decide (n < length d)%nat) as [Hn|Hn]; [|rewrite drop_ge in Em by lia; done]. rewrite (chunks_of_drop P HP) in * by done. cbn [length] in Em. injection Em as Em. cbn [stream_loop seal_chunks].
    set (piece := take (Nat.min P (length d - n)) (drop n d)). pose proof (sealFromPool_ok b pos o w piece W) as Hs. destruct (seal_chunk b pos piece) as [[x b1] pos1]. destruct Hs as (w1 & E1 & W1).
    destruct (v_transport_Write_ok b1 pos1 o w1 x W1) as (w2 & E2 & W2). specialize (IH (n + P)%nat b1 pos1 (o ++ x) w2 W2 Em). destruct (seal_chunks b1 pos1 _) as [[y b2] pos2]. destruct IH as (w3 & k & E3 & W3 & Hk).
    exists w3, k. split; [|split; [by rewrite app_assoc|intros; apply Hk; lia]].
    st_lift ltac:(rewrite slice_eq by lia; replace (Nat.min (n + P) (length d) - n)%nat with (Nat.min P (length d - n)) by lia; reflexivity). fold piece.
    rewrite (st_bind_Ret _ _ _ _ _ E1). erewrite st_bind_Ret; [|apply try_Ret; exact E2]. cbv beta iota. exact E3.
Qed.

(** A connection that can write: set up already, or a server whose first write sends the
    response header [pre] in front. *)
Definition ready (b : body) (pos : nat) (o pre : list byte) (c : Conn) : Prop :=
  (pre = [] /\ writing b pos o (wr c)) \/
  (pre <> [] /\ body_wf b /\ (exists f, wr c = MkW false None None f false pos (sent o)) /\ IsClient (base (vm c)) = false /\
   EncryptRespHeader (responseBodyKey (cx c)) (responseBodyIV (cx c)) (RespHeader (responseAuth (cx c))) = Ret pre /\
   make_body (cx c) (responseBodyKey (cx c)) (responseBodyIV (cx c)) = Ret b).
Definition announce (pre : list byte) : option (list byte) := match pre with [] => None | _ => Some pre end.

Lemma on_wr_eq {A} (m : st wside A) c w r : m (wr c) = (w, r) -> on_wr m c = (set_wr w c, r).
Proof. intros E. unfold on_wr. by rewrite E. Qed.

Lemma set_wr_same c : set_wr (wr c) c = c.
Proof. by destruct c. Qed.
Lemma ready_open b pos o pre c : ready b pos o pre c -> writeClosed (wr c) = false.
Proof. intros [[_ (f & -> & _)]|(_ & _ & (f & ->) & _)]; done. Qed.
Lemma initWriteOnce_ok b pos o pre c : ready b pos o pre c -> exists w, initWriteOnce c = (set_wr w c, Ret (announce pre)) /\ writing b pos o w.
Proof.
  intros [[-> W]|(Hp & Wb & (f & Ew) & Hc & Eh & Em)].
  - exists (wr c). split; [|done]. destruct W as (f & E & _). unfold initWriteOnce. st_pure. rewrite E. cbn. rewrite <- E, set_wr_same. done.
  - unfold initWriteOnce. st_pure. rewrite Ew. cbn [initWrite]. st_pure. rewrite Hc. cbv zeta.
    erewrite st_bind_Ret; [|apply try_Ret; unfold lift; rewrite Eh, bind_ret, Em, bind_ret; reflexivity]. cbv beta iota. st_pure. eexists. split; [by destruct pre|]. unfold set_body. cbn [wr set_wr]. rewrite Ew. by eexists.
Qed.

Lemma writeStream_ok b pos o pre w d : writing b pos o w -> d <> [] ->
  let '(x, b', pos') := seal_chunks b pos (chunks_of (payload b) d) in exists w', writeStream rand d (announce pre) w = (w', Ret (length d, None)) /\ writing b' pos' (o ++ pre ++ x) w'.
Proof.
  intros W Hd. destruct (payload_pos b) as [HP _]. set (P := payload b) in *. assert (Lc : length (chunks_of P d) = (length d / P + (if decide (0 < length d mod P)%nat then 1 else 0))%nat) by (apply length_tcp_chunks; done).
  assert (Ec : chunks w (length d) = Ret (P, length (chunks_of P d))).
  { destruct W as (f & -> & _). unfold chunks. cbn [the_body w_body]. rewrite bind_ret. cbv zeta. fold (payload b). fold P. rewrite Lc. repeat case_decide; repeat f_equal; lia. }
  assert (Hk : (length d <= length (chunks_of P d) * P)%nat).
  { rewrite Lc. pose proof (Nat.div_mod_eq (length d) P) as Eq. pose proof (Nat.mod_upper_bound (length d) P ltac:(lia)) as Hm. revert Eq Hm. generalize (length d / P)%nat (length d mod P)%nat. intros q m Eq Hm. destruct (decide (0 < m)%nat); nia. }
  assert (E0 : drop 0 d = d) by apply drop_0. unfold writeStream. destruct pre as [|h0 pre]; cbn [announce].
  - pose proof (stream_loop_ok P (length (chunks_of P d)) d HP 0 b pos o w W) as S. rewrite E0 in S. specialize (S eq_refl). destruct (seal_chunks b pos (chunks_of P d)) as [[x b'] pos']. destruct S as (w' & k & E & W' & Hk').
    exists w'. st_pure. st_lift ltac:(exact Ec). rewrite E. split; [|done]. by rewrite Hk' by lia.
  - set (h := h0 :: pre). pose proof (chunks_of_drop P HP 0 d ltac:(destruct d; [done|cbn; lia])) as Ed. rewrite E0, Nat.sub_0_r in Ed. cbn [Nat.add] in Ed. set (piece := take (Nat.min P (length d)) d) in *.
    rewrite Ed in Ec, Hk |- *. cbn [seal_chunks length] in *. pose proof (sealFromPool_ok b pos o w piece W) as Hs. destruct (seal_chunk b pos piece) as [[x b1] pos1]. destruct Hs as (w1 & E1 & W1).
    destruct (transport_MultiWrite_ok b1 pos1 o w1 h x W1) as (w2 & E2 & W2). pose proof (stream_loop_ok P (length (chunks_of P (drop P d))) d HP P b1 pos1 _ w2 W2 eq_refl) as S.
    destruct (seal_chunks b1 pos1 _) as [[y b2] pos2]. destruct S as (w3 & k & E3 & W3 & Hk'). exists w3. st_pure. st_lift ltac:(exact Ec). cbn [Nat.sub]. rewrite Nat.sub_0_r.
    st_lift ltac:(rewrite slice_eq by lia; rewrite Nat.sub_0_r, drop_0; reflexivity). fold piece. rewrite (st_bind_Ret _ _ _ _ _ E1). erewrite st_bind_Ret; [|apply try_Ret; exact E2]. cbv beta iota. rewrite E3. split; [by rewrite Hk' by lia|]. by rewrite <- !app_assoc in W3.
Qed.

Abbreviation write := (VmessConn.write rand).

Lemma write_tcp b pos o pre c d : ready b pos o pre c -> Network (vm c) = lit "tcp" -> d <> [] ->
  let '(x, b', pos') := seal_chunks b pos (chunks_of (payload b) d) in exists w, write d c = (set_wr w c, Ret (length d, None)) /\ ready b' pos' (o ++ pre ++ x) [] (set_wr w c).
Proof.
  intros R Hn Hd. pose proof (ready_open _ _ _ _ _ R) as Ho. destruct (initWriteOnce_ok _ _ _ _ _ R) as (w1 & E1 & W1). pose proof (writeStream_ok b pos o pre w1 d W1 Hd) as Hs. destruct (seal_chunks b pos _) as [[x b'] pos']. destruct Hs as (w2 & E2 & W2).
  exists w2. split; [|by left]. unfold VmessConn.write. st_pure. rewrite Ho. rewrite (st_bind_Ret _ _ _ _ _ E1). rewrite decide_False by (by destruct d). rewrite decide_True by done. by rewrite (on_wr_eq _ (set_wr w1 c) _ _ E2).
Qed.

(** The terminal chunk. *)
Lemma write_end b pos o c : ready b pos o [] c -> let '(x, b', pos') := seal_chunk b pos [] in exists w, write [] c = (set_wr w c, Ret (0%nat, None)) /\ outp w = sent (o ++ x) /\ writeClosed w = true.
Proof.
  intros R. pose proof (ready_open _ _ _ _ _ R) as Ho. destruct (initWriteOnce_ok _ _ _ _ _ R) as (w1 & E1 & (f & -> & Wb)).
  set (wc := MkW true (Some b) None f true pos (sent o)). pose proof (sealFromPool_ok b pos o (MkW true (Some b) None f false pos (sent o)) []) as Hs. destruct (seal_chunk b pos []) as [[x b'] pos'] eqn:Es.
  assert (Hc : exists f', sealFromPool rand [] wc = (MkW true (Some b') None f' true pos' (sent o), Ret x)).
  { destruct Hs as (w' & Es' & (f' & -> & _)); [by eexists|]. exists f'. revert Es'. unfold sealFromPool. unfold mbind, st_bind, get, lift, the_body, wc. cbn [w_body writeSealFrame w_pos]. destruct (NextPaddingLen (b_codec b)) as [cd n].
    destruct (slice _ _ _) as [data| |]; [|done|done]. destruct (fill_chunk _ _ _ _ _ _ _) as [[data' b2]| |]; [|done|done]. unfold modify, mret, st_ret. cbn. intros [= -> -> -> ->]. done. }
  destruct Hc as [f' Hc]. exists (MkW true (Some b') None f' true pos' (sent (o ++ x))). split; [|done]. unfold VmessConn.write. st_pure. rewrite Ho. rewrite (st_bind_Ret _ _ _ _ _ E1). rewrite decide_True by done.
  erewrite st_bind_Ret; [|apply on_wr_eq; reflexivity]. cbv beta. cbn [wr set_wr initWrite w_body writeInitErr writeSealFrame w_pos outp]. fold wc. erewrite st_bind_Ret; [|apply on_wr_eq; exact Hc]. cbv beta.
  erewrite st_bind_Ret; [|apply try_Ret; apply on_wr_eq; reflexivity]. done.
Qed.

(** * A reader of the other end *)

Lemma lxor_16 a b : 0 <= a < 65536 -> 0 <= b < 65536 -> 0 <= Z.lxor a b < 65536.
Proof.
  intros Ha Hb. assert (Hn : 0 <= Z.lxor a b) by (apply Z.lxor_nonneg; lia). split; [done|]. destruct (decide (Z.lxor a b = 0)) as [->|]; [lia|].
  change 65536 with (2 ^ 16). apply Z.log2_lt_pow2; [lia|]. eapply Z.le_lt_trans; [apply Z.log2_lxor; lia|].
  assert (forall x, 0 <= x < 65536 -> Z.log2 x < 16) as Hl. { intros x Hx. destruct (decide (x = 0)) as [->|]; [done|]. apply Z.log2_lt_pow2; lia. }
  apply Z.max_lub_lt; by apply Hl.
Qed.
Lemma Decode_Encode s c : 0 <= s < 65536 -> Decode (Encode s c).2 c = ((Encode s c).1, s).
Proof.
  intros Hs. unfold Decode, Encode, next. destruct (cc_shake c) as [[n k]|]; cbn [fst snd].
  - pose proof (shake_word_range n k). rewrite (be_get_put_small 2) by (change (256 ^ Z.of_nat 2) with 65536; by apply lxor_16). by rewrite <- Z.lxor_assoc, Z.lxor_nilpotent, Z.lxor_0_l.
  - rewrite !Z.lxor_0_l. by rewrite (be_get_put_small 2) by (change (256 ^ Z.of_nat 2) with 65536; lia).
Qed.

Lemma on_rs_eq {A} (m : st rside A) c w r : m (rs c) = (w, r) -> on_rs m c = (set_rs w c, r).
Proof. intros E. unfold on_rs. by rewrite E. Qed.

(** A payload a chunk can carry whatever its padding. *)
Definition fits (p : list byte) : Prop := Z.of_nat (length p + Overhead + 64) < 65536.

Lemma readSize_ok b pos p c l i f R : fits p -> rs c = MkR true (Some b) l i f ((seal_chunk b pos p).1.1 ++ R) ->
  let n := (NextPaddingLen (b_codec b)).2 in
  readSize c = (set_rs (MkR true (Some (MkBody (b_cipher b) (b_codec (seal_chunk b pos p).1.2) (b_gen b))) l i f (Seal (b_cipher b) (nonce_of (b_gen b)) [] p ++ random rand pos n ++ R)) c,
    Ret (Z.of_nat (length p + Overhead + n), n)).
Proof.
  intros Hf E n. unfold readSize. pose proof (padding_max (b_codec b)) as Hn. fold n in Hn. unfold fits in Hf. unfold seal_chunk in *. destruct (NextPaddingLen (b_codec b)) as [cd n0] eqn:En. cbn [snd] in n. subst n. pose proof (Decode_Encode (Z.of_nat (length p + Overhead + n0) mod 65536) cd) as D.
  destruct (Encode _ cd) as [cd' e] eqn:Ee. cbn [fst snd] in *. assert (Le : length e = 2%nat) by (unfold Encode in Ee; destruct (next cd); injection Ee as _ <-; apply length_be_put).
  rewrite <- Le. erewrite st_bind_Ret; [|apply read_in_conn; rewrite E; cbn [inp]; by rewrite <- !app_assoc]. cbv beta. st_pure. cbn [rs set_rs]. rewrite E. st_lift ltac:(reflexivity). cbn [b_codec r_body]. rewrite En.
  rewrite D by (apply Z.mod_pos_bound; lia). rewrite Z.mod_small by lia. done.
Qed.

Lemma v_readChunk_ok b pos p c f R : body_wf b -> fits p -> p <> [] -> rs c = MkR true (Some b) 0 0 f ((seal_chunk b pos p).1.1 ++ R) ->
  exists f', readChunk c = (set_rs (MkR true (Some (seal_chunk b pos p).1.2) 0 0 f' R) c, Ret p) /\ take (length p) f' = p /\ (length p <= length f')%nat.
Proof.
  intros W Hf Hp E. unfold readChunk. pose proof (padding_max (b_codec b)) as Hn. rewrite (st_bind_Ret _ _ _ _ _ (readSize_ok b pos p c 0 0 f R Hf E)). cbv beta iota. set (n := (NextPaddingLen (b_codec b)).2) in *. unfold fits, Overhead in *.
  assert (Lp : (0 < length p)%nat) by (destruct p; [done|cbn; lia]). rewrite decide_False by (rewrite Z.mod_small by lia; lia). rewrite decide_False by lia. cbv zeta. rewrite Nat2Z.id. set (s := Seal _ _ _ p). assert (Ls : length s = (length p + 16)%nat) by apply Seal_length.
  erewrite st_bind_Ret; [|apply on_rs_eq; reflexivity]. cbv beta. cbn [rs set_rs initRead r_body leftToRead indexToRead readOpenFrame inp].
  replace (length p + 16 + n)%nat with (length (s ++ random rand pos n)) by (rewrite length_app, length_random; lia).
  erewrite st_bind_Ret; [|apply read_in_conn; cbn [rs set_rs inp]; by rewrite <- app_assoc]. cbv beta. st_pure. st_lift ltac:(reflexivity). cbn [b_gen]. st_lift ltac:(by apply gen_ok).
  erewrite st_bind_Ret; [|apply on_rs_eq; reflexivity]. cbv beta. cbn [rs set_rs initRead r_body leftToRead indexToRead readOpenFrame inp b_cipher b_codec].
  st_lift ltac:(rewrite slice_eq by (rewrite ?length_app, ?length_random; lia); rewrite Nat.sub_0_r, drop_0, length_app, length_random, Nat.add_sub, take_app_length; reflexivity).
  st_lift ltac:(unfold open, s; rewrite Open_Seal; reflexivity). erewrite st_bind_Ret; [|apply on_rs_eq; reflexivity]. cbv beta. cbn [rs set_rs initRead r_body leftToRead indexToRead readOpenFrame inp].
  eexists. split; [|split].
  - assert (MkBody (b_cipher b) (b_codec (seal_chunk b pos p).1.2) (gen_next (b_gen b)) = (seal_chunk b pos p).1.2) as -> by (unfold seal_chunk; destruct (NextPaddingLen _) as [cd n0]; by destruct (Encode _ cd)). reflexivity.
  - rewrite append_at_front; [apply firstn_all|lia|rewrite !length_app; lia].
  - rewrite length_append_at, !length_app. lia.
Qed.

Lemma readChunk_end b pos c f R : rs c = MkR true (Some b) 0 0 f ((seal_chunk b pos []).1.1 ++ R) -> exists r, readChunk c = (set_rs r c, Fail EOF).
Proof.
  intros E. unfold readChunk. assert (F : fits []) by (unfold fits, Overhead; cbn; lia). rewrite (st_bind_Ret _ _ _ _ _ (readSize_ok b pos [] c 0 0 f R F E)). cbv beta iota. pose proof (padding_max (b_codec b)).
  rewrite decide_True by (unfold Overhead; cbn [length Nat.add]; rewrite Z.mod_small by lia; lia). by eexists.
Qed.

(** The reader has [left] to hand out, then the chunks [ps], then the end. *)
Definition reader (left : list byte) (ps : list (list byte)) (c : Conn) : Prop :=
  Network (vm c) = lit "tcp" /\ exists b pos l i f R, rs c = MkR true (Some b) l i f ((seal_chunks b pos (ps ++ [[]])).1.1 ++ R) /\
    pending left l i f /\ body_wf b /\ Forall (fun p => p <> [] /\ fits p) ps.

Abbreviation read := (VmessConn.read IPString JoinHostPort).

Lemma seal_chunks_cons b pos p ps : (seal_chunks b pos (p :: ps)).1.1 = (seal_chunk b pos p).1.1 ++ (seal_chunks (seal_chunk b pos p).1.2 (seal_chunk b pos p).2 ps).1.1.
Proof. cbn [seal_chunks]. destruct (seal_chunk b pos p) as [[x b1] pos1]. cbn [fst snd]. by destruct (seal_chunks b1 pos1 ps) as [[]]. Qed.

Lemma reader_read q left ps c : reader left ps c -> exists r' x, read (Some q) c = (set_rs r' c, x) /\
  ((exists left' ps' a, x = Ret a /\ left ++ concat ps = a ++ left' ++ concat ps' /\ reader left' ps' (set_rs r' c) /\ ((0 < q)%nat -> a <> [])) \/ (left ++ concat ps = [] /\ x = Fail EOF)).
Proof.
  intros (Hn & b & pos & l & i & f & R & Er & Hp & W & F). unfold VmessConn.read. st_pure. rewrite Er. cbn [initRead]. st_pure. st_pure. rewrite Er. cbn [r_body indexToRead leftToRead readOpenFrame]. cbv zeta. rewrite bool_decide_false by (by rewrite Hn).
  destruct Hp as [(-> & -> & ->)|[B El]].
  - rewrite decide_False by lia. destruct ps as [|p ps].
    + destruct (readChunk_end b pos c f R) as [r E]; [rewrite Er; cbn [app]; by rewrite seal_chunks_cons, app_nil_r|]. rewrite (st_bind_Fail _ _ _ _ _ E). eexists _, _. split; [done|]. by right.
    + apply Forall_cons in F as [[Hp Hf] F]. cbn [app] in Er. rewrite seal_chunks_cons, <- app_assoc in Er. destruct (v_readChunk_ok b pos p c f _ W Hf Hp Er) as (f' & E & Tf & Lf).
      rewrite (st_bind_Ret _ _ _ _ _ E). destruct (seal_chunk_wf b pos p W) as (W' & _). assert (Lp : (0 < length p)%nat) by (destruct p; [done|cbn; lia]). case_decide as D.
      * erewrite st_bind_Ret; [|apply on_rs_eq; reflexivity]. eexists _, _. split; [reflexivity|]. left. exists (drop q p), ps, (take q p). split; [f_equal; f_equal; lia|]. split; [cbn [concat app]; by rewrite app_assoc, take_drop|]. split.
        -- split; [done|]. exists (seal_chunk b pos p).1.2, (seal_chunk b pos p).2, (length p), (Nat.min q (length p)), f', R. split; [done|]. split; [|done]. right. split; [lia|]. rewrite Tf. f_equal. lia.
        -- intros Q. destruct p; [done|]. by destruct q; [lia|].
      * eexists _, _. split; [reflexivity|]. left. exists [], ps, p. split; [done|]. split; [done|]. split; [|done]. split; [done|]. exists (seal_chunk b pos p).1.2, (seal_chunk b pos p).2, 0%nat, 0%nat, f', R. split; [done|]. split; [by left|done].
  - rewrite decide_True by lia. set (src := drop i (take l f)) in *. subst left. set (n := Nat.min q (length src)). assert (Ll : length src = (l - i)%nat) by (unfold src; rewrite length_drop, length_take; lia).
    assert (E : exists l' i', (if decide (l <= i + n)%nat then set_left 0 0 else set_left l (i + n)) c = (set_rs (MkR true (Some b) l' i' f ((seal_chunks b pos (ps ++ [[]])).1.1 ++ R)) c, Ret tt) /\ pending (drop n src) l' i' f).
    { case_decide as D; unfold set_left; rewrite (on_rs_eq _ _ _ _ eq_refl), Er; (eexists _, _; split; [reflexivity|]); [left; split; [apply drop_ge; lia|done]|]. right. split; [lia|]. unfold src. rewrite drop_drop. done. }
    destruct E as (l' & i' & E & Hp'). rewrite (st_bind_Ret _ _ _ _ _ E). eexists _, _. split; [reflexivity|]. left. exists (drop n src), ps, (take n src). split; [done|]. split; [by rewrite app_assoc, take_drop|]. split.
    + split; [done|]. exists b, pos, l', i', f, R. split; [done|]. split; [exact Hp'|done].
    + intros Q. destruct src; [cbn in *; lia|]. unfold n. by destruct q; [lia|].
Qed.

(** Reads with buffers of the given sizes, up to the first error. *)
Fixpoint vreads (qs : list nat) (c : Conn) : list byte * option error * bool :=
  match qs with
  | [] => ([], None, false)
  | q :: qs =>
      match VmessConn.Read IPString JoinHostPort resolveUDPAddr q c with
      | (c, Ret a) => let '(b, e, p) := vreads qs c in (a ++ b, e, p)
      | (_, Fail e) => ([], Some e, false)
      | (_, Panic) => ([], None, true)
      end
  end.
Lemma reader_vreads qs : forall left ps c, reader left ps c -> Forall (fun q => 0 < q)%nat qs -> (length (left ++ concat ps) < length qs)%nat -> vreads qs c = (left ++ concat ps, Some EOF, false).
Proof.
  induction qs as [|q qs IH]; intros left ps c R Fq L; [cbn in L; lia|]. apply Forall_cons in Fq as [Hq Fq]. cbn [vreads].
  assert (Er : VmessConn.Read IPString JoinHostPort resolveUDPAddr q c = read (Some q) c).
  { destruct R as [Hn _]. unfold VmessConn.Read, IsPacketAddr. st_pure. by rewrite bool_decide_false by (by rewrite Hn). }
  rewrite Er. destruct (reader_read q left ps c R) as (r' & x & E & [(left' & ps' & a & -> & Ed & R' & Ha)|[Ed ->]]); rewrite E.
  - rewrite Ed in L |- *. specialize (Ha Hq). rewrite (IH left' ps' _ R' Fq); [done|]. rewrite length_app in L. destruct a; [done|]. cbn [length] in L. lia.
  - by rewrite Ed.
Qed.

(** * Whole streams *)

Abbreviation Write := (VmessConn.Write resolveUDPAddr AddrPortString rand).

(** Writes, then the end of the direction. *)
Fixpoint vwrites (ds : list (list byte)) (c : Conn) : Conn * list (res (nat * option error)) :=
  match ds with
  | [] => let '(c, r) := CloseWrite rand c in (c, match r with Ret _ => [] | Fail e => [Fail e] | Panic => [Panic] end)
  | d :: ds => let '(c, r) := Write d c in let '(c, rs) := vwrites ds c in (c, r :: rs)
  end.

Lemma not_packet_addr m : Network m = lit "tcp" -> IsPacketAddr m = false.
Proof. intros E. unfold IsPacketAddr. by rewrite bool_decide_false by (by rewrite E). Qed.

Lemma v_close_ok b pos o c : ready b pos o [] c -> Network (vm c) = lit "tcp" -> exists w, CloseWrite rand c = (set_wr w c, Ret tt) /\ outp w = sent (o ++ (seal_chunk b pos []).1.1).
Proof.
  intros R Hn. pose proof (write_end b pos o c R) as H. destruct (seal_chunk b pos []) as [[x b'] pos']. destruct H as (w & E & Eo & _). exists w. split; [|done].
  unfold CloseWrite. st_pure. rewrite bool_decide_false by (by rewrite Hn). rewrite not_packet_addr by done. cbn [orb]. rewrite (st_bind_Ret _ _ _ _ _ E). done.
Qed.

Lemma vwrites_ok ds : forall b pos o pre c, ready b pos o pre c -> Network (vm c) = lit "tcp" -> Forall (fun d => d <> []) ds -> ds <> [] \/ pre = [] ->
  exists w, vwrites ds c = (set_wr w c, (fun d => Ret (length d, None)) <$> ds) /\
    outp w = sent (o ++ pre ++ (seal_chunks b pos ((ds ≫= chunks_of (payload b)) ++ [[]])).1.1).
Proof.
  induction ds as [|d ds IH]; intros b pos o pre c R Hn F Hpre.
  - destruct Hpre as [?| ->]; [done|]. destruct (v_close_ok b pos o c R Hn) as (w & E & Eo). exists w. cbn [vwrites]. rewrite E. split; [done|]. rewrite Eo. cbn [mbind list_bind app]. by rewrite seal_chunks_cons, app_nil_r.
  - apply Forall_cons in F as [Hd F]. cbn [vwrites]. assert (Ew : Write d c = write d c) by (unfold VmessConn.Write; st_pure; by rewrite not_packet_addr). rewrite Ew. pose proof (write_tcp b pos o pre c d R Hn Hd) as H.
    assert (Hb : body_wf b) by (destruct R as [[_ (? & _ & ?)]|(_ & ? & _)]; done). change ((d :: ds) ≫= chunks_of (payload b)) with (chunks_of (payload b) d ++ (ds ≫= chunks_of (payload b))). rewrite <- app_assoc, seal_chunks_app.
    pose proof (seal_chunks_wf (chunks_of (payload b) d) b pos Hb) as (_ & M). destruct (seal_chunks b pos (chunks_of (payload b) d)) as [[x b1] pos1]. destruct H as (w & E & R1). rewrite E. cbn [fst snd] in M.
    assert (payload b1 = payload b) as Ep by (unfold payload; by rewrite M). destruct (IH b1 pos1 _ [] (set_wr w c) R1 Hn F (or_intror eq_refl)) as (w2 & E2 & Eo). rewrite Ep in Eo. exists w2. rewrite E2. split; [done|].
    rewrite Eo. destruct (seal_chunks b1 pos1 _) as [[y b2] pos2]. cbn [fst snd app]. by rewrite <- !app_assoc.
Qed.

Lemma chunk_list_ok P ds : (0 < P)%nat -> Z.of_nat P <= 16366 -> Forall (fun p => p <> [] /\ fits p) (ds ≫= chunks_of P) /\ concat (ds ≫= chunks_of P) = concat ds.
Proof.
  intros HP HM. induction ds as [|d ds [F E]]; [done|]. change ((d :: ds) ≫= chunks_of P) with (chunks_of P d ++ (ds ≫= chunks_of P)). split.
  - apply Forall_app. split; [|done]. eapply Forall_impl; [apply (chunks_ok P HP)|]. intros p [Hp Lp]. split; [done|]. unfold fits, Overhead. lia.
  - rewrite concat_app, E, (chunks_of_concat P HP). done.
Qed.

Lemma body_of_wf ci o key iv : length iv = 16%nat -> body_wf (body_of ci o key iv).
Proof. intros L. split; [|done]. unfold body_of. cbn [b_gen ng_buf]. rewrite length_app, length_take, length_drop. cbn [length]. lia. Qed.

(** A read that has to set the direction up first. *)
Lemma read_after_init q c c' : read None c = (c', Ret []) -> initRead (rs c') = true -> read (Some q) c = read (Some q) c'.
Proof.
  intros E Hi. unfold VmessConn.read in *. revert E. unfold mbind, st_bind, get. rewrite Hi. match goal with |- context [match ?x with (_, _) => _ end = _] => destruct x as [c1 [[]|e|]] end; [|done..]. cbn. intros [= ->]. done.
Qed.
Lemma vreads_init qs c c' : read None c = (c', Ret []) -> initRead (rs c') = true -> Network (vm c) = lit "tcp" -> Network (vm c') = lit "tcp" -> qs <> [] -> vreads qs c = vreads qs c'.
Proof.
  intros E Hi Hn Hn' Hq. destruct qs as [|q qs]; [done|]. cbn [vreads]. assert (H : forall x, Network (vm x) = lit "tcp" -> VmessConn.Read IPString JoinHostPort resolveUDPAddr q x = read (Some q) x).
  { intros x Hx. unfold VmessConn.Read. st_pure. rewrite not_packet_addr by done. by rewrite bool_decide_false by (by rewrite Hx). }
  rewrite !H by done. by rewrite (read_after_init q c c' E Hi).
Qed.

End chunks.
