(* ===== verification/VmessUdp.v ===== *)
(** VMess datagrams from end to end, with addresses of their own or a fixed target:
    single and batched writes, reads with buffers of any size. *)

From S2P Require Import Prelude GoStrings NetIP GoState Common Pool Metadata Transport SsKey VmessKdf VmessHeader VmessConn VmessRound VmessStream.
From Stdlib Require Import Strings.Byte.

Section datagrams.
Context {VC : VmessCrypto} {BS : BufferSource}.
Context (ParseIP : list byte -> list byte) (IPString : list byte -> list byte).
Context (JoinHostPort : list byte -> Z -> list byte) (resolveUDPAddr : list byte -> res UDPAddr) (AddrPortString : AddrPort -> list byte).
Context (rand : nat -> byte).
Abbreviation read := (VmessConn.read IPString JoinHostPort).
Abbreviation ready := (VmessStream.ready).
Abbreviation seal_chunk := (VmessStream.seal_chunk rand).
Abbreviation seal_chunks := (VmessStream.seal_chunks rand).

(** * Addresses *)

Definition good_addr (a : AddrPort) : Prop :=
  0 <= ap_port a < 65536 /\ match ap_addr a with Addr4 b => length b = 4%nat | Addr6 b => length b = 16%nat | AddrZero => False end.
Definition block (a : AddrPort) : list byte :=
  match ap_addr a with Addr4 b => x01 :: b ++ be16 (ap_port a) | Addr6 b => x02 :: b ++ be16 (ap_port a) | AddrZero => [] end.
(** The resolver's answer for a destination. *)
Definition resolves (addr : list byte) (a : AddrPort) : Prop := exists u, resolveUDPAddr addr = Ret u /\ unmapAddrPort (UDPAddr_AddrPort u) = a.

Lemma good_addr_slice a : good_addr a -> AddrFromSlice (IP (UDPAddrFromAddrPort a)) = (ap_addr a, true).
Proof. intros [_ H]. unfold UDPAddrFromAddrPort, AddrFromSlice. cbn [IP]. destruct (ap_addr a); cbn [AsSlice]; [done| |]; rewrite H; done. Qed.
Lemma block_len a : good_addr a -> UDPAddrToPacketAddrLength (UDPAddrFromAddrPort a) = length (block a).
Proof.
  intros H. unfold UDPAddrToPacketAddrLength. rewrite good_addr_slice by done. cbn [negb]. destruct H as [_ H]. unfold block. destruct (ap_addr a); cbn [Is4 length]; [done| |]; by rewrite length_app, length_be_put, H.
Qed.
Lemma v_PutPacketAddr_ok a src : good_addr a -> (length (block a) <= length src)%nat -> PutPacketAddr src (UDPAddrFromAddrPort a) = Ret (block a ++ drop (length (block a)) src).
Proof.
  intros H L. unfold PutPacketAddr. rewrite good_addr_slice by done. cbn [negb Port UDPAddrFromAddrPort]. destruct H as [_ H]. unfold block in *. destruct (ap_addr a) as [|b|b]; cbn [Is4 AsSlice] in *; [done| |]; cbn [length] in *; rewrite length_app, length_be_put in *.
  - rewrite set_at_0 by lia. rewrite bind_ret, write_at_app, bind_ret by (rewrite ?length_drop; done || lia). rewrite write_at_app by (rewrite ?length_app, ?length_drop, ?length_be_put; cbn [length]; lia).
    rewrite length_be_put, !drop_drop. by do 2 f_equal.
  - rewrite set_at_0 by lia. rewrite bind_ret, write_at_app, bind_ret by (rewrite ?length_drop; done || lia). rewrite write_at_app by (rewrite ?length_app, ?length_drop, ?length_be_put; cbn [length]; lia).
    rewrite length_be_put, !drop_drop. by do 2 f_equal.
Qed.
Lemma with_addr_ok p a : good_addr a -> with_addr p (UDPAddrFromAddrPort a) = Ret (block a ++ p).
Proof.
  intros H. unfold with_addr. cbv zeta. rewrite block_len by done. pose proof (src_length (length (block a) + length p)) as L. rewrite v_PutPacketAddr_ok by (done || lia). rewrite bind_ret, copy_at_app by (rewrite ?length_drop; lia).
  by rewrite bind_ret, (drop_ge (drop _ _)), app_nil_r by (rewrite !length_drop; lia).
Qed.
Lemma ExtractPacketAddr_ok a p : good_addr a -> exists t, ExtractPacketAddr (block a ++ p) = Ret (t, a) /\ PacketAddrLength t = length (block a).
Proof.
  intros [Hp H]. unfold ExtractPacketAddr, block. destruct a as [[|b|b] port]; cbn [ap_addr ap_port] in *; [done| |]; rewrite <- app_comm_cons; rewrite index_0, bind_ret; cbv zeta; cbn [ParsePacketAddrType].
  - rewrite decide_False by done. rewrite decide_False by (cbn [length PacketAddrLength]; rewrite !length_app, length_be_put; lia). exists MetadataTypeIPv4. split; [|cbn [length]; by rewrite length_app, length_be_put, H].
    rewrite !slice_eq by (cbn [length]; rewrite ?length_app, ?length_be_put; lia). change (drop 1 (x01 :: ?l)) with l. change (drop 5 (x01 :: ?l)) with (drop 4 l). cbn [Nat.sub]. rewrite bind_ret, <- app_assoc, (take_app_length' b), (drop_app_length' b) by done.
    rewrite bind_ret, take_app_length', (be_get_put_small 2) by (by rewrite ?length_be_put). done.
  - rewrite decide_False by done. rewrite decide_False by (cbn [length PacketAddrLength]; rewrite !length_app, length_be_put; lia). exists MetadataTypeIPv6. split; [|cbn [length]; by rewrite length_app, length_be_put, H].
    rewrite !slice_eq by (cbn [length]; rewrite ?length_app, ?length_be_put; lia). change (drop 1 (x02 :: ?l)) with l. change (drop 17 (x02 :: ?l)) with (drop 16 l). cbn [Nat.sub]. rewrite bind_ret, <- app_assoc, (take_app_length' b), (drop_app_length' b) by done.
    rewrite bind_ret, take_app_length', (be_get_put_small 2) by (by rewrite ?length_be_put). done.
Qed.

(** The two address caches hold the resolver's answers. *)
Definition caches_ok (c : Conn) : Prop :=
  (AddrPort_IsValid (dialTgtAddrPort c) = true -> resolves (dialTgt c) (dialTgtAddrPort c)) /\
  (forall k a, writeCache c = Some (k, a) -> resolves k a).

Lemma resolves_fun addr a a' : resolves addr a -> resolves addr a' -> a = a'.
Proof. intros (u & E & <-) (u' & E' & <-). congruence. Qed.

Lemma dialTarget_ok c a : caches_ok c -> resolves (dialTgt c) a -> exists c', dialTargetAddrPort resolveUDPAddr c = (c', Ret a) /\ caches_ok c' /\
  (c' = set_dialTgtAddrPort (dialTgtAddrPort c') c).
Proof.
  intros [H1 H2] Ha. unfold dialTargetAddrPort. st_pure. destruct (AddrPort_IsValid (dialTgtAddrPort c)) eqn:E.
  - exists c. pose proof (resolves_fun _ _ _ (H1 eq_refl) Ha) as Ea. split; [by rewrite <- Ea|]. split; [split; [intros _; exact (H1 eq_refl)|exact H2]|by destruct c].
  - destruct Ha as (u & Eu & <-). st_lift ltac:(exact Eu). st_pure. eexists. split; [reflexivity|]. split; [|done]. split; [|done]. intros _. by exists u.
Qed.

Lemma writeTarget_ok c addr a : caches_ok c -> resolves addr a -> exists c', writeTargetAddrPort resolveUDPAddr addr c = (c', Ret (UDPAddrFromAddrPort a)) /\ caches_ok c' /\
  c' = set_dialTgtAddrPort (dialTgtAddrPort c') (set_writeCache (writeCache c') c).
Proof.
  intros H Ha. unfold writeTargetAddrPort. st_pure. case_decide as D.
  - subst addr. destruct (dialTarget_ok c a H Ha) as (c' & E & H' & Ec). rewrite (st_bind_Ret _ _ _ _ _ E). exists c'. split; [done|]. split; [done|]. assert (writeCache c' = writeCache c) as -> by (by rewrite Ec). assert (set_writeCache (writeCache c) c = c) as -> by (by destruct c). exact Ec.
  - destruct (writeCache c) as [[k x]|] eqn:Ew; unfold LastStringValue_Load.
    + case_decide as Dk; [|].
      * subst k. destruct H as [H1 H2]. pose proof (resolves_fun _ _ _ (H2 _ _ Ew) Ha) as Ea. exists c. split; [by rewrite <- Ea|]. split; [by split|]. by destruct c.
      * destruct Ha as (u & Eu & <-). st_lift ltac:(exact Eu). st_pure. eexists. split; [reflexivity|]. split; [|by destruct c]. destruct H as [H1 H2]. split; [done|]. intros k' a' [= <- <-]. by exists u.
    + destruct Ha as (u & Eu & <-). st_lift ltac:(exact Eu). st_pure. eexists. split; [reflexivity|]. split; [|by destruct c]. destruct H as [H1 H2]. split; [done|]. intros k' a' [= <- <-]. by exists u.
Qed.

(** * Sending *)

(** A datagram with its resolved destination, and what is sealed of it. *)
Record dgram := MkD { d_data : list byte; d_to : list byte; d_addr : AddrPort }.
Definition plain (pa : bool) (x : dgram) : list byte := if pa then block (d_addr x) ++ d_data x else d_data x.
Definition sendable (pa : bool) (x : dgram) : Prop :=
  Z.of_nat (SizeBytes + length (plain pa x) + Overhead + 64) <= 0xffff /\ plain pa x <> [] /\ (pa = true -> resolves (d_to x) (d_addr x) /\ good_addr (d_addr x)).
Lemma sendable_fits pa x : sendable pa x -> fits (plain pa x).
Proof. intros [H _]. unfold fits, SizeBytes in *. lia. Qed.

Lemma write_udp b pos o pre c d : ready b pos o pre c -> Network (vm c) = lit "udp" -> d <> [] -> Z.of_nat (length d + Overhead + 64) <= 0xffff ->
  let '(x, b', pos') := seal_chunk b pos d in exists w, VmessConn.write rand d c = (set_wr w c, Ret (length d, None)) /\ ready b' pos' (o ++ pre ++ x) [] (set_wr w c).
Proof.
  intros R Hn Hd Hf. pose proof (ready_open _ _ _ _ _ R) as Ho. destruct (initWriteOnce_ok _ _ _ _ _ R) as (w1 & E1 & W1). pose proof (sealFromPool_ok rand b pos o w1 d W1) as Hs. destruct (seal_chunk b pos d) as [[x b'] pos']. destruct Hs as (w2 & E2 & W2).
  assert (E : exists w3, writePacket rand d (announce pre) w1 = (w3, Ret (length d)) /\ writing b' pos' (o ++ pre ++ x) w3).
  { unfold writePacket. st_pure. pose proof W1 as (f & -> & _). st_lift ltac:(reflexivity). pose proof (padding_max (b_codec b)). rewrite decide_False by lia. rewrite (st_bind_Ret _ _ _ _ _ E2). destruct pre as [|h pre]; cbn [announce].
    - destruct (v_transport_Write_ok b' pos' o w2 x W2) as (w3 & E3 & W3). exists w3. rewrite (st_bind_Ret _ _ _ _ _ E3). done.
    - destruct (transport_MultiWrite_ok b' pos' o w2 (h :: pre) x W2) as (w3 & E3 & W3). exists w3. rewrite (st_bind_Ret _ _ _ _ _ E3). done. }
  destruct E as (w3 & E3 & W3). exists w3. split; [|by left]. unfold VmessConn.write. st_pure. rewrite Ho. rewrite (st_bind_Ret _ _ _ _ _ E1). rewrite decide_False by (by destruct d). rewrite decide_False by (by rewrite Hn). rewrite decide_True by done.
  erewrite st_bind_Ret; [|apply try_Ret; apply (on_wr_eq _ (set_wr w1 c)); exact E3]. done.
Qed.

(** A connection that sends datagrams: the write direction, the caches, and what never
    changes. *)
Definition sender (v : VMetadata) (b : body) (pos : nat) (o pre : list byte) (r : rside) (x : context) (tgt : list byte) (c : Conn) : Prop :=
  ready b pos o pre c /\ caches_ok c /\ vm c = v /\ rs c = r /\ cx c = x /\ dialTgt c = tgt.

Lemma ready_target b pos o pre c c' : ready b pos o pre c -> wr c' = wr c -> vm c' = vm c -> cx c' = cx c -> ready b pos o pre c'.
Proof. unfold VmessStream.ready. intros H -> -> ->. exact H. Qed.
Lemma sender_target v b pos o pre r x tgt c addr a : sender v b pos o pre r x tgt c -> resolves addr a ->
  exists c', writeTargetAddrPort resolveUDPAddr addr c = (c', Ret (UDPAddrFromAddrPort a)) /\ sender v b pos o pre r x tgt c'.
Proof.
  intros (R & H & Ev & Er & Ex & Et) Ha. destruct (writeTarget_ok c addr a H Ha) as (c' & E & H' & Ec). exists c'. split; [done|]. split_and!; [|done|by rewrite Ec..]. eapply ready_target; [exact R|by rewrite Ec..].
Qed.
Lemma sender_wr v b pos o pre r x tgt c b' pos' o' pre' w : sender v b pos o pre r x tgt c -> ready b' pos' o' pre' (set_wr w c) -> sender v b' pos' o' pre' r x tgt (set_wr w c).
Proof. intros (R & H & Ev & Er & Ex & Et) R'. by split_and!. Qed.

Lemma v_WriteTo_ok v b pos o pre r x tgt c it : sender v b pos o pre r x tgt c -> Network v = lit "udp" -> sendable (IsPacketAddr v) it ->
  let '(y, b', pos') := seal_chunk b pos (plain (IsPacketAddr v) it) in
  exists c', WriteTo resolveUDPAddr rand (d_data it) (d_to it) c = (c', Ret (length (plain (IsPacketAddr v) it), None)) /\ sender v b' pos' (o ++ pre ++ y) [] r x tgt c'.
Proof.
  intros S Hn (Hf & Hne & Ha). pose proof S as (_ & _ & Ev & _). unfold WriteTo. assert (Hf' : Z.of_nat (length (plain (IsPacketAddr v) it) + Overhead + 64) <= 0xffff) by lia.
  destruct (IsPacketAddr v) eqn:Ep; cbn [plain] in *.
  - destruct (Ha eq_refl) as [Hr Hg]. destruct (sender_target _ _ _ _ _ _ _ _ _ _ _ S Hr) as (c1 & E1 & S1). pose proof S1 as (R1 & _ & Ev1 & _). pose proof (write_udp b pos o pre c1 (block (d_addr it) ++ d_data it) R1 ltac:(by rewrite Ev1) Hne Hf') as W.
    destruct (seal_chunk b pos _) as [[y b'] pos']. destruct W as (w & E & R'). exists (set_wr w c1). st_pure. rewrite Ev, Ep. rewrite (st_bind_Ret _ _ _ _ _ E1). st_lift ltac:(by apply with_addr_ok). split; [exact E|]. by eapply sender_wr.
  - pose proof S as (R1 & _). pose proof (write_udp b pos o pre c (d_data it) R1 ltac:(by rewrite Ev) Hne Hf') as W. destruct (seal_chunk b pos _) as [[y b'] pos']. destruct W as (w & E & R'). exists (set_wr w c). st_pure. rewrite Ev, Ep. split; [exact E|]. by eapply sender_wr.
Qed.

Lemma seal_chunk_length b pos p : length (seal_chunk b pos p).1.1 = (SizeBytes + (length p + Overhead) + (NextPaddingLen (b_codec b)).2)%nat.
Proof.
  unfold VmessStream.seal_chunk. destruct (NextPaddingLen (b_codec b)) as [cd n]. unfold Encode. destruct (next cd). cbn [fst snd]. rewrite !length_app, length_be_put, Seal_length, length_random. unfold SizeBytes. lia.
Qed.
Lemma fill_packets_ok ds : forall b pos (front rest : list byte), body_wf b -> (length (seal_chunks b pos ds).1.1 <= length rest)%nat ->
  let '(x, b', pos') := seal_chunks b pos ds in
  fill_packets rand ds (front ++ rest) (length front) b pos = Ret (front ++ x ++ drop (length x) rest, (length front + length x)%nat, b', pos').
Proof.
  induction ds as [|d ds IH]; intros b pos front rest W L; cbn [VmessStream.seal_chunks fill_packets]; [by rewrite Nat.add_0_r|]. rewrite (seal_chunks_cons rand), length_app in L.
  pose proof (fun data => fill_chunk_ok rand b d data pos W) as F. cbv zeta in F. pose proof (seal_chunk_length b pos d) as Lc. assert (Epos : (seal_chunk b pos d).2 = (pos + (NextPaddingLen (b_codec b)).2)%nat) by (unfold VmessStream.seal_chunk; destruct (NextPaddingLen (b_codec b)) as [cd n]; by destruct (Encode _ cd)).
  destruct (NextPaddingLen (b_codec b)) as [cd n]. cbn [fst snd] in F, Lc, Epos. cbv zeta. pose proof (seal_chunk_wf rand b pos d W) as (W1 & _). destruct (seal_chunk b pos d) as [[x b1] pos1]. cbn [fst snd] in *. subst pos1. rewrite <- Lc in *.
  rewrite slice_eq by (rewrite ?length_app; lia). rewrite bind_ret, add_sub_cancel, drop_app_length. rewrite F by (rewrite length_take; lia). rewrite bind_ret. rewrite write_at_app, bind_ret by (done || lia).
  specialize (IH b1 (pos + n)%nat (front ++ x) (drop (length x) rest) W1). destruct (seal_chunks b1 (pos + n) ds) as [[y b2] pos2]. cbn [fst snd] in *. rewrite length_app in IH. rewrite IH by (rewrite length_drop; lia).
  rewrite drop_drop, <- !app_assoc, length_app, Nat.add_assoc. done.
Qed.

Lemma seal_chunks_bound ds : forall b pos, body_wf b -> (length (seal_chunks b pos ds).1.1 <= sum_list ((fun d => SizeBytes + length d + Overhead + MaxPaddingLen (b_codec b)) <$> ds))%nat.
Proof.
  induction ds as [|d ds IH]; intros b pos W; [done|]. rewrite (seal_chunks_cons rand), length_app, seal_chunk_length. destruct (seal_chunk_wf rand b pos d W) as (W1 & M & _). specialize (IH (seal_chunk b pos d).1.2 (seal_chunk b pos d).2 W1). rewrite M in IH.
  change (sum_list ((fun d => (SizeBytes + length d + Overhead + MaxPaddingLen (b_codec b))%nat) <$> d :: ds)) with
    (SizeBytes + length d + Overhead + MaxPaddingLen (b_codec b) + sum_list ((fun d => (SizeBytes + length d + Overhead + MaxPaddingLen (b_codec b))%nat) <$> ds))%nat. pose proof (padding_max (b_codec b)). lia.
Qed.

Lemma writePackets_ok b pos o pre c ds : ready b pos o pre c -> Forall (fun d => Z.of_nat (SizeBytes + length d + Overhead + 64) <= 0xffff) ds ->
  let '(x, b', pos') := seal_chunks b pos ds in exists w, writePackets rand ds c = (set_wr w c, Ret (length ds)) /\ ready b' pos' (o ++ pre ++ x) [] (set_wr w c).
Proof.
  intros R F. pose proof (ready_open _ _ _ _ _ R) as Ho. destruct (initWriteOnce_ok _ _ _ _ _ R) as (w1 & E1 & (f & -> & Wb)). pose proof (padding_max (b_codec b)) as [_ Hm]. pose proof (seal_chunks_bound ds b pos Wb) as Lb.
  pose proof (seal_chunks_wf rand ds b pos Wb) as (Wb' & _). unfold writePackets. destruct (seal_chunks b pos ds) as [[x b'] pos'] eqn:Es. cbn [fst snd] in *.
  set (buf := src_get (length pre + sum_list ((fun d => SizeBytes + length d + Overhead + MaxPaddingLen (b_codec b))%nat <$> ds))).
  assert (Lbuf : length buf = (length pre + sum_list ((fun d => SizeBytes + length d + Overhead + MaxPaddingLen (b_codec b))%nat <$> ds))%nat) by apply src_length.
  pose proof (fill_packets_ok ds b pos pre (drop (length pre) buf) Wb) as Hf. rewrite Es in Hf. cbn [fst snd] in Hf. specialize (Hf ltac:(rewrite length_drop; lia)).
  exists (MkW true (Some b') None f false pos' (sent (o ++ pre ++ x))). split; [|left; split; [done|]; by exists f]. st_pure. rewrite Ho. rewrite (st_bind_Ret _ _ _ _ _ E1). st_pure. cbn [wr set_wr]. st_lift ltac:(reflexivity). cbv zeta.
  rewrite decide_False. 2:{ intros Ex. apply Exists_exists in Ex as (d & Hd & Hx). apply (proj1 (Forall_forall _ _) F) in Hd. lia. }
  assert (default [] (announce pre) = pre) as -> by (by destruct pre). fold buf. st_lift ltac:(apply copy_at_0; lia). cbn [w_pos]. st_lift ltac:(exact Hf). erewrite st_bind_Ret; [|apply on_wr_eq; reflexivity]. cbv beta.
  st_lift ltac:(rewrite slice_eq by (rewrite ?length_app; lia); rewrite Nat.sub_0_r, drop_0, app_assoc; rewrite take_app_length' by (by rewrite length_app); reflexivity).
  erewrite st_bind_Ret; [|apply on_wr_eq; reflexivity]. done.
Qed.

Lemma address_all_ok items : forall v b pos o pre r x tgt c, sender v b pos o pre r x tgt c -> Forall (sendable true) items ->
  exists c', address_all resolveUDPAddr ((fun it => (d_data it, d_to it)) <$> items) c = (c', Ret (plain true <$> items)) /\ sender v b pos o pre r x tgt c'.
Proof.
  induction items as [|it items IH]; intros v b pos o pre r x tgt c S F; [by exists c|]. apply Forall_cons in F as [(_ & _ & Ha) F]. destruct (Ha eq_refl) as [Hr Hg].
  destruct (sender_target _ _ _ _ _ _ _ _ _ _ _ S Hr) as (c1 & E1 & S1). destruct (IH _ _ _ _ _ _ _ _ _ S1 F) as (c2 & E2 & S2). exists c2. split; [|done].
  cbn [fmap list_fmap address_all]. rewrite (st_bind_Ret _ _ _ _ _ E1). st_lift ltac:(by apply with_addr_ok). rewrite (st_bind_Ret _ _ _ _ _ E2). done.
Qed.

Lemma v_WriteBatch_ok v b pos o pre r x tgt c items : sender v b pos o pre r x tgt c -> Network v = lit "udp" -> Forall (sendable (IsPacketAddr v)) items -> items <> [] ->
  let '(y, b', pos') := seal_chunks b pos (plain (IsPacketAddr v) <$> items) in
  exists c', WriteBatch resolveUDPAddr rand ((fun it => (d_data it, d_to it)) <$> items) c = (c', Ret (length items)) /\ sender v b' pos' (o ++ pre ++ y) [] r x tgt c'.
Proof.
  intros S Hn F Hi. pose proof S as (_ & _ & Ev & _).
  assert (E : exists c1, (if IsPacketAddr v then address_all resolveUDPAddr ((fun it => (d_data it, d_to it)) <$> items) else mret ((fun it => (d_data it, d_to it)) <$> items).*1) c = (c1, Ret (plain (IsPacketAddr v) <$> items)) /\ sender v b pos o pre r x tgt c1).
  { destruct (IsPacketAddr v); [by apply address_all_ok|]. exists c. split; [|done]. unfold mret, st_ret. rewrite <- list_fmap_compose. done. }
  destruct E as (c1 & E1 & S1). pose proof S1 as (R1 & _). assert (F' : Forall (fun d => Z.of_nat (SizeBytes + length d + Overhead + 64) <= 0xffff) (plain (IsPacketAddr v) <$> items)) by (apply Forall_fmap; eapply Forall_impl; [exact F|]; by intros it [? _]).
  pose proof (writePackets_ok b pos o pre c1 _ R1 F') as W. destruct (seal_chunks b pos _) as [[y b'] pos']. destruct W as (w & E & R'). exists (set_wr w c1). split; [|by eapply sender_wr].
  unfold WriteBatch. rewrite decide_False by (by destruct items). st_pure. rewrite Ev. rewrite decide_False by (intros X; by apply X). rewrite (st_bind_Ret _ _ _ _ _ E1). rewrite E. by rewrite length_fmap.
Qed.

(** A sequence of single and batched writes. *)
Inductive dsend := One (x : dgram) | Many (xs : list dgram).
Definition dgrams (s : dsend) : list dgram := match s with One x => [x] | Many xs => xs end.
Definition do_dsend (s : dsend) : st Conn (nat * option error) :=
  match s with
  | One x => WriteTo resolveUDPAddr rand (d_data x) (d_to x)
  | Many xs => n ← WriteBatch resolveUDPAddr rand ((fun it => (d_data it, d_to it)) <$> xs); mret (n, None)
  end.
(** What the caller is told: the size sealed, or the number of datagrams. *)
Definition told (pa : bool) (s : dsend) : nat := match s with One x => length (plain pa x) | Many xs => length xs end.
Fixpoint do_dsends (ss : list dsend) (c : Conn) : Conn * list (res (nat * option error)) :=
  match ss with [] => (c, []) | s :: ss => let '(c, r) := do_dsend s c in let '(c, rs) := do_dsends ss c in (c, r :: rs) end.

Lemma do_dsends_ok v r x tgt ss : forall b pos o pre c, sender v b pos o pre r x tgt c -> Network v = lit "udp" -> Forall (sendable (IsPacketAddr v)) (ss ≫= dgrams) -> pre = [] \/ match ss with s :: _ => dgrams s <> [] | [] => False end ->
  let '(y, b', pos') := seal_chunks b pos (plain (IsPacketAddr v) <$> (ss ≫= dgrams)) in
  exists c', do_dsends ss c = (c', (fun s => Ret (told (IsPacketAddr v) s, None)) <$> ss) /\ sender v b' pos' (o ++ pre ++ y) [] r x tgt c'.
Proof.
  induction ss as [|s ss IH]; intros b pos o pre c S Hn F Hpre.
  { destruct Hpre as [-> |[]]. exists c. split; [done|]. cbn. by rewrite app_nil_r. }
  change ((s :: ss) ≫= dgrams) with (dgrams s ++ (ss ≫= dgrams)) in *. apply Forall_app in F as [Fs F]. rewrite fmap_app, (seal_chunks_app rand).
  assert (H : let '(y, b', pos') := seal_chunks b pos (plain (IsPacketAddr v) <$> dgrams s) in exists c', do_dsend s c = (c', Ret (told (IsPacketAddr v) s, None)) /\ sender v b' pos' (o ++ pre ++ y) [] r x tgt c').
  { destruct s as [it|items]; cbn [dgrams told do_dsend] in *.
    - apply Forall_cons in Fs as [Fs _]. pose proof (v_WriteTo_ok v b pos o pre r x tgt c it S Hn Fs) as W. cbn [fmap list_fmap VmessStream.seal_chunks]. destruct (seal_chunk b pos _) as [[y b'] pos']. by rewrite app_nil_r.
    - destruct (decide (items = [])) as [-> |Hi].
      + destruct Hpre as [-> |?]; [|done]. cbn. exists c. by rewrite app_nil_r.
      + pose proof (v_WriteBatch_ok v b pos o pre r x tgt c items S Hn Fs Hi) as W. destruct (seal_chunks b pos _) as [[y b'] pos']. destruct W as (c' & E & S'). exists c'. rewrite (st_bind_Ret _ _ _ _ _ E). done. }
  destruct (seal_chunks b pos _) as [[y b1] pos1]. destruct H as (c1 & E1 & S1). specialize (IH b1 pos1 _ [] c1 S1 Hn F (or_introl eq_refl)). destruct (seal_chunks b1 pos1 _) as [[z b2] pos2]. destruct IH as (c2 & E2 & S2).
  exists c2. cbn [do_dsends]. rewrite E1, E2. split; [done|]. by rewrite <- !app_assoc in S2.
Qed.

(** * Receiving *)

Definition receiver (v : VMetadata) (xs : list dgram) (t : AddrPort) (c : Conn) : Prop :=
  vm c = v /\ Network v = lit "udp" /\ caches_ok c /\ (IsPacketAddr v = false -> resolves (dialTgt c) t) /\ Forall (sendable (IsPacketAddr v)) xs /\
  exists b pos f R, rs c = MkR true (Some b) 0 0 f ((seal_chunks b pos (plain (IsPacketAddr v) <$> xs)).1.1 ++ R) /\ body_wf b.
(** What a reader with [k] bytes gets of a datagram. *)
Definition deliver (pa : bool) (t : AddrPort) (k : nat) (x : dgram) : res (list byte * AddrPort) :=
  if decide (length (plain pa x) <= k)%nat then Ret (d_data x, if pa then d_addr x else t) else Fail (DatagramDropped ErrShortBuffer).

Lemma read_udp k b pos p c f R : rs c = MkR true (Some b) 0 0 f ((seal_chunk b pos p).1.1 ++ R) -> Network (vm c) = lit "udp" -> body_wf b -> fits p -> p <> [] ->
  exists f', read (Some k) c = (set_rs (MkR true (Some (seal_chunk b pos p).1.2) 0 0 f' R) c, if decide (length p <= k)%nat then Ret p else Fail (DatagramDropped ErrShortBuffer)).
Proof.
  intros Er Hn W Hf Hp. destruct (v_readChunk_ok rand b pos p c f R W Hf Hp Er) as (f' & E & _). exists f'. unfold VmessConn.read. st_pure. rewrite Er. cbn [initRead]. st_pure. st_pure. rewrite Er. cbn [r_body indexToRead leftToRead]. cbv zeta. rewrite bool_decide_true by done.
  rewrite decide_False by lia. rewrite (st_bind_Ret _ _ _ _ _ E). destruct (decide (length p <= k)%nat).
  - rewrite decide_False by lia. done.
  - rewrite decide_True by lia. erewrite st_bind_Ret; [|apply on_rs_eq; reflexivity]. done.
Qed.

Abbreviation ReadFrom := (VmessConn.ReadFrom IPString JoinHostPort resolveUDPAddr).

Lemma v_ReadFrom_ok v x xs t c k : receiver v (x :: xs) t c -> exists c', ReadFrom k c = (c', deliver (IsPacketAddr v) t k x) /\ receiver v xs t c' /\ wr c' = wr c /\ cx c' = cx c.
Proof.
  intros (Ev & Hn & Hc & Ht & F & b & pos & f & R & Er & W). apply Forall_cons in F as [Hx F]. cbn [fmap list_fmap] in Er. rewrite (seal_chunks_cons rand), <- app_assoc in Er. pose proof Hx as (_ & Hne & Ha). destruct (seal_chunk_wf rand b pos (plain (IsPacketAddr v) x) W) as (W' & _).
  destruct (read_udp k b pos (plain (IsPacketAddr v) x) c f _ Er ltac:(by rewrite Ev) W (sendable_fits _ _ Hx) Hne) as (f' & E). set (r' := MkR _ _ _ _ _ _) in E.
  assert (Rc : receiver v xs t (set_rs r' c)) by (split_and!; try done; by exists (seal_chunk b pos (plain (IsPacketAddr v) x)).1.2, (seal_chunk b pos (plain (IsPacketAddr v) x)).2, f', R).
  unfold VmessConn.ReadFrom. st_pure. rewrite Ev. unfold deliver. destruct (IsPacketAddr v) eqn:Ep; cbn [negb].
  - destruct (decide (length (plain true x) <= k)%nat); [|exists (set_rs r' c); split; [by rewrite (st_bind_Fail _ _ _ _ _ E)|done]]. rewrite (st_bind_Ret _ _ _ _ _ E). cbn [plain] in *. destruct (Ha eq_refl) as [_ Hg].
    rewrite decide_False by (by destruct (block (d_addr x) ++ d_data x)). destruct (ExtractPacketAddr_ok (d_addr x) (d_data x) Hg) as (ty & Ee & El). st_lift ltac:(exact Ee). rewrite El. st_lift ltac:(by apply slice_from_app). by eexists.
  - cbn [plain] in *. destruct (decide (length (d_data x) <= k)%nat); [|exists (set_rs r' c); split; [by rewrite (st_bind_Fail _ _ _ _ _ E)|done]]. rewrite (st_bind_Ret _ _ _ _ _ E).
    destruct (dialTarget_ok (set_rs r' c) t Hc (Ht eq_refl)) as (c2 & E2 & Hc2 & Ec2). rewrite (st_bind_Ret _ _ _ _ _ E2). exists c2. split; [done|]. clear E E2.
    destruct Rc as (A1 & A2 & A3 & A4 & A5 & A6). split; [|by rewrite Ec2]. unfold receiver. rewrite Ep in *. split; [by rewrite Ec2|]. split; [exact A2|]. split; [exact Hc2|]. split; [by rewrite Ec2|]. split; [exact A5|by rewrite Ec2].
Qed.

Fixpoint vrecv (ks : list nat) (c : Conn) : list (res (list byte * AddrPort)) :=
  match ks with [] => [] | k :: ks => let '(c, r) := ReadFrom k c in r :: vrecv ks c end.
Lemma vrecv_ok v t ks : forall xs c, receiver v xs t c -> length ks = length xs -> vrecv ks c = zip_with (deliver (IsPacketAddr v) t) ks xs.
Proof.
  induction ks as [|k ks IH]; intros [|x xs] c H L; try done. cbn [vrecv zip_with]. destruct (v_ReadFrom_ok v x xs t c k H) as (c' & -> & H' & _). rewrite (IH xs c' H') by (by injection L). done.
Qed.

Lemma vrecv_init ks c c' : read None c = (c', Ret []) -> initRead (rs c') = true -> vm c' = vm c -> ks <> [] -> vrecv ks c = vrecv ks c'.
Proof.
  intros E Hi Ev Hk. destruct ks as [|k ks]; [done|]. cbn [vrecv]. assert (ReadFrom k c = ReadFrom k c') as ->; [|done]. pose proof (read_after_init IPString JoinHostPort k c c' E Hi) as Er. unfold VmessConn.ReadFrom, mbind, st_bind, get. rewrite Ev. destruct (IsPacketAddr (vm c)); cbn [negb]; by rewrite Er.
Qed.

Lemma seen_packet_addr m v : IsPacketAddr (seen_meta ParseIP IPString m v) = IsPacketAddr m.
Proof. unfold IsPacketAddr, seen_meta, seen_host. cbn [Network base Type_ Hostname]. destruct (Type_ (base m)); rewrite ?bool_decide_false, ?andb_false_r by done; done. Qed.

End datagrams.
