(* ===== verification/VmessDemo.v ===== *)
(** Concrete VMess exchanges: the theorems applied, and behaviours worth knowing. *)

From S2P Require Import Prelude GoStrings NetIP GoState Common Pool Metadata Transport SsKey VmessKdf VmessHeader VmessConn VmessRound VmessStream VmessUdp.
From Stdlib Require Import Strings.Byte.

Definition demoV_Seal (c : aead) (nonce ad p : list byte) : list byte := demo_Seal (match c with Gcm k => x01 :: k | ChaCha k => x02 :: k end) (nonce ++ ad) p.
Definition demoV_Open (c : aead) (nonce ad x : list byte) : option (list byte) := demo_Open (match c with Gcm k => x01 :: k | ChaCha k => x02 :: k end) (nonce ++ ad) x.
#[local] Program Instance demoV : VmessCrypto := {|
  sha256 := demo_hash 32; md5 := demo_hash 16;
  aes_New key := if decide (length key = 16%nat) then None else Some (Errorf "crypto/aes: invalid key size");
  aes_Encrypt := fun k b => demo_hash 16 (rev b);
  chacha_New key := if decide (length key = 32%nat) then None else Some (Errorf "chacha20poly1305: bad key length");
  Seal := demoV_Seal; Open := demoV_Open;
  shake_word n k := (Z.of_nat k * 7919 + 513) mod 65536 |}.
Next Obligation. intros. apply length_demo_hash. Qed.
Next Obligation. intros. apply length_demo_hash. Qed.
Next Obligation. cbn. intros key ->. done. Qed.
Next Obligation. intros. apply length_demo_hash. Qed.
Next Obligation. cbn. intros key ->. done. Qed.
Next Obligation. cbn. intros. unfold demoV_Seal, demo_Seal. by rewrite length_app, length_demo_hash, length_fmap. Qed.
Next Obligation. cbn. intros. apply demo_Open_Seal. Qed.
Next Obligation. cbn. unfold demoV_Open, demo_Open. intros c nonce ad x p E. cbv zeta in E. case_decide as D; [|done]. injection E as <-. rewrite length_fmap, length_take. unfold Overhead. lia. Qed.
Next Obligation. cbn. intros n k. apply Z.mod_pos_bound. lia. Qed.

Definition demoV_pool : BufferSource := pool_source init_pools init_pools_wf None.
#[local] Existing Instance demoV_pool.

Definition demoV_ParseIP (h : list byte) : list byte := [].
Definition demoV_IPString (ip : list byte) : list byte := ip.
Definition demoV_Join (h : list byte) (p : Z) : list byte := h.
Definition demoV_resolve (a : list byte) : res UDPAddr := Ret (MkUDPAddr [x0a; x00; x00; x01] 53).
Definition demoV_APString (a : AddrPort) : list byte := [].
Definition demoV_rand (n : nat) : byte := xaa.
Definition demoV_key : list byte := replicate 16 x31.
Definition demoV_meta (net : list byte) (host : list byte) : VMetadata :=
  MkVM (MkMeta MetadataTypeDomain host 443 AddrZero 0 CipherAES128GCM true) net [] [].
Definition demoV_server : VMetadata := MkVM (MkMeta MetadataTypeInvalid [] 0 AddrZero 0 [] false) [] [] [].
Definition demoV_ireq : ireq := MkIReq 2 ((fun n => z2b (Z.of_nat n)) <$> seq 0 33) [x05; x06].
Definition demoV_hreq : hreq := MkHReq 1700000000 [x01; x02; x03; x04] (replicate 8 x07).

Lemma demoV_client net host : net = lit "tcp" \/ net = lit "udp" -> (length host <= 255)%nat -> client_ok demoV_ParseIP (demoV_meta net host).
Proof. intros Hn L. split; [done|]. split; [by right|]. split; [split; [cbn; lia|done]|done]. Qed.
Lemma demoV_ireq_ok : ireq_ok demoV_ireq.
Proof. split; [cbn; lia|done]. Qed.
Lemma demoV_cache_ok : cache_ok ∅.
Proof. intros k v H. by destruct (lookup_empty_Some (M := gmap (list byte)) k v H). Qed.

(** ** The stream *)

Abbreviation demoV_writes := (vwrites demoV_resolve demoV_APString demoV_rand).
Abbreviation demoV_reads := (vreads demoV_IPString demoV_Join demoV_resolve).
Abbreviation demoV_read := (VmessConn.read demoV_IPString demoV_Join).
Definition demoV_tcp : VMetadata := demoV_meta (lit "tcp") (lit "example.org").

Definition demoV_conn (m : VMetadata) (i : stream) : Conn :=
  match NewConn demoV_ParseIP m [] demoV_key i (sent []) 0 demoV_ireq demoV_hreq ∅ with Ret (c, _) => c | _ => fresh_conn m [] [] [] (sent []) 0 end.
Definition demoV_request : list byte := t_out (outp (wr (demoV_writes [[x61]; [x62; x63]] (demoV_conn demoV_tcp [])).1)).
Definition demoV_answer : list byte :=
  t_out (outp (wr (demoV_writes [[x64; x65]] (demoV_read None (fresh_conn (MkVM (base demoV_server) [] demoV_key (take 16 demoV_request)) [] [] (drop 16 demoV_request) (sent []) 9)).1).1)).


(** ** Datagrams *)

Abbreviation demoV_dsends := (do_dsends demoV_resolve demoV_rand).
Abbreviation demoV_recv := (vrecv demoV_IPString demoV_Join demoV_resolve).
Definition demoV_udp : VMetadata := demoV_meta (lit "udp") SeqPacketMagicAddress.
Definition demoV_dst : AddrPort := MkAddrPort (Addr4 [x0a; x00; x00; x01]) 53.
Definition demoV_dgram (d : list byte) : dgram := MkD d (lit "a:53") demoV_dst.
Definition demoV_up : list dsend := [One (demoV_dgram [x61]); Many [demoV_dgram []; demoV_dgram [x62; x63]]].
Definition demoV_down : list dsend := [One (demoV_dgram [x64])].
Definition demoV_urequest : list byte := t_out (outp (wr (demoV_dsends demoV_up (demoV_conn demoV_udp [])).1)).
Definition demoV_userver : Conn := (demoV_read None (fresh_conn (MkVM (base demoV_server) [] demoV_key (take 16 demoV_urequest)) [] [] (drop 16 demoV_urequest) (sent []) 9)).1.
Definition demoV_uanswer : list byte := t_out (outp (wr (demoV_dsends demoV_down demoV_userver).1)).

Lemma demoV_sendable d : (length d <= 3)%nat -> sendable demoV_resolve true (demoV_dgram d).
Proof.
  intros L. split; [|split; [done|]].
  - unfold plain, demoV_dgram. cbn [d_addr d_data]. rewrite length_app. cbn [block demoV_dst ap_addr length]. unfold SizeBytes, Overhead. rewrite length_app, length_be_put. cbn [length]. lia.
  - intros _. split; [by exists (MkUDPAddr [x0a; x00; x00; x01] 53)|]. split; [cbn; lia|done].
Qed.


(** ** Behaviours worth knowing *)

(** An empty datagram is sent as the chunk that ends the stream: in a batch to a fixed
    target the receiver reports the end instead of it, and so the session is over. *)
Definition demoV_fixed : VMetadata := demoV_meta (lit "udp") (lit "dns").
Theorem vmess_empty_datagram_ends :
  let '(c, rs) := demoV_dsends [Many [demoV_dgram [x61]; demoV_dgram []; demoV_dgram [x62]]] (demoV_conn demoV_fixed []) in
  let W := t_out (outp (wr c)) in
  rs = [Ret (3%nat, None)] /\
  demoV_recv [9; 9]%nat (demoV_read None (fresh_conn (MkVM (base demoV_server) [] demoV_key (take 16 W)) [] [] (drop 16 W) (sent []) 9)).1 = [Ret ([x61], demoV_dst); Fail EOF].
Proof. vm_compute. done. Qed.

(** Written alone it closes the direction for every later datagram. *)
Theorem vmess_empty_write_closes :
  (demoV_dsends [One (demoV_dgram []); One (demoV_dgram [x61])] (demoV_conn demoV_fixed [])).2 = [Ret (0%nat, None); Fail ErrClosed].
Proof. vm_compute. done. Qed.

(** A server that ends its direction before any data never sends the response header; the
    client takes the terminal chunk for one. *)
Theorem vmess_close_loses_header :
  let s := (demoV_read None (fresh_conn (MkVM (base demoV_server) [] demoV_key (take 16 demoV_request)) [] [] (drop 16 demoV_request) (sent []) 9)).1 in
  let R := t_out (outp (wr (demoV_writes [] s).1)) in
  (demoV_reads [9]%nat (demoV_conn demoV_tcp R)).1.2 <> Some EOF.
Proof. vm_compute. done. Qed.

(** An instruction block of 41 bytes that announces a domain makes the server panic: the
    length byte is read before the block is known to have it. *)
Theorem vmess_short_domain_panics :
  exists d, length d = 41%nat /\ CompleteFromInstructionData demoV_IPString demoV_server d = Panic.
Proof. exists (replicate 40 x00 ++ [x02]). split; reflexivity. Qed.
