(* ===== verification/Vless.v ===== *)
(** VLESS (protocol/vless): the request header and the connection (conn.go,
    addr.go), the framing of datagrams (packet.go).

    [net.ParseIP], [net.IP.String], name resolution and the protobuf encoding of
    the flow addons are parameters.  Buffers obtained from the pool hold arbitrary
    stale bytes.  The timer that sends the header of an idle stream is a [Write] of
    no bytes, at any time. *)

From S2P Require Import Prelude GoStrings NetIP Pool Metadata GoState Common Transport VmessHeader VmessRound.
From Stdlib Require Import Strings.Byte.

(** * State *)

Definition XRV : list byte := lit "xtls-rprx-vision".
Definition FailAuthErr : error := Errorf "incorrect UUID".

(** [Metadata]: that of VMess with the flow and the multiplexing mark. *)
Record VlMetadata := MkVlM { vbase : VMetadata; Flow : list byte; Mux : bool }.

(** The connection with the bytes still to be read from the transport and the
    transport as a writer. *)
Record Conn := MkVl {
  metadata : VlMetadata; cmdKey : list byte; cachedProxyAddr : AddrPort; readHeaderDone : bool; headerErr : option error;
  onceWrite : bool; addonsBytes : list byte; inp : stream; outp : tconn }.

Definition set_metadata (m : VlMetadata) (c : Conn) : Conn :=
  MkVl m (cmdKey c) (cachedProxyAddr c) (readHeaderDone c) (headerErr c) (onceWrite c) (addonsBytes c) (inp c) (outp c).
Definition set_header (d : bool) (e : option error) (c : Conn) : Conn :=
  MkVl (metadata c) (cmdKey c) (cachedProxyAddr c) d e (onceWrite c) (addonsBytes c) (inp c) (outp c).
Definition set_onceWrite (c : Conn) : Conn :=
  MkVl (metadata c) (cmdKey c) (cachedProxyAddr c) (readHeaderDone c) (headerErr c) true (addonsBytes c) (inp c) (outp c).
Definition set_inp (r : stream) (c : Conn) : Conn :=
  MkVl (metadata c) (cmdKey c) (cachedProxyAddr c) (readHeaderDone c) (headerErr c) (onceWrite c) (addonsBytes c) r (outp c).
Definition set_outp (t : tconn) (c : Conn) : Conn :=
  MkVl (metadata c) (cmdKey c) (cachedProxyAddr c) (readHeaderDone c) (headerErr c) (onceWrite c) (addonsBytes c) (inp c) t.
Definition on_vbase (f : VMetadata -> VMetadata) (c : Conn) : Conn :=
  set_metadata (MkVlM (f (vbase (metadata c))) (Flow (metadata c)) (Mux (metadata c))) c.
Definition on_base (f : Metadata -> Metadata) : Conn -> Conn :=
  on_vbase (fun m => MkVM (f (base m)) (Network m) (authedCmdKey m) (authedEAuthID m)).

(** Whether the datagram framing is in [Read] and [Write] themselves. *)
Definition framed (c : Conn) : bool := bool_decide (Network (vbase (metadata c)) = lit "udp") && negb (bool_decide (Flow (metadata c) = XRV)).

Section conn.
Context {BS : BufferSource}.
Context (ParseIP : list byte -> list byte) (IPString : list byte -> list byte) (JoinHostPort : list byte -> Z -> list byte)
  (resolveUDPAddr : list byte -> res UDPAddr) (Marshal : list byte -> res (list byte)).

(** [NewConn]: the connection, and whether the flush timer is armed. *)
Definition NewConn (m : VlMetadata) (key : list byte) (i : stream) (t : tconn) : res (Conn * bool) :=
  let v := vbase m in
  addr ← (if decide (Network v = lit "udp") then u ← resolveUDPAddr (JoinHostPort (Hostname (base v)) (mPort (base v))); Ret (UDPAddr_AddrPort u)
          else Ret AddrPortZero);
  addons ← (if decide (Flow m <> []) then Marshal (Flow m) else Ret []);
  Ret (MkVl m key addr false None false addons i t,
       bool_decide (Network v = lit "tcp") && IsClient (base v) && bool_decide (Flow m = [])).

(** * Writing *)

Definition reqHeader (c : Conn) : res (list byte) :=
  let m := vbase (metadata c) in
  let n := length (addonsBytes c) in
  let buf := src_get (if Mux (metadata c) then 1 + 16 + n + 1 + 1 else 1 + 16 + n + 1 + 1 + 2 + 1 + AddrLen (base m)) in
  buf ← set_at buf 0 x00;
  '(buf, _) ← copy_at buf 1 (cmdKey c);
  buf ← set_at buf 17 (z2b (Z.of_nat n));
  '(buf, _) ← copy_at buf 18 (addonsBytes c);
  if Mux (metadata c) then set_at buf (18 + n) (NetworkToByte (lit "mux"))
  else
    buf ← set_at buf (18 + n) (NetworkToByte (Network m));
    buf ← write_at buf (19 + n) (be16 (mPort (base m)));
    buf ← set_at buf (21 + n) (MetadataTypeToByte (Type_ (base m)));
    tl ← slice_from buf (22 + n);
    '(tl, _) ← PutAddr ParseIP (base m) tl;
    Ret (take (22 + n) buf ++ tl).

Definition transport_Write (b : list byte) : st Conn (nat * option error) := fun c =>
  let '(t, r) := conn_Write b (outp c) in (set_outp t c, Ret r).
(** [net.Buffers.WriteTo]: one write for each buffer until one fails. *)
Definition Buffers_WriteTo (bs : list (list byte)) : st Conn (nat * option error) := fun c =>
  let '(t, r) := write_each bs 0 (outp c) in (set_outp t c, Ret r).

Definition write (b : list byte) : st Conn (nat * option error) :=
  c ← get;
  if negb (onceWrite c) && IsClient (base (vbase (metadata c))) then
    header ← lift (reqHeader c);
    '(_, err) ← Buffers_WriteTo (header :: if decide (0 < length b)%nat then [b] else []);
    match err with
    | Some e => mret (0%nat, Some (Wrap "write header" e))
    | None => modify set_onceWrite ≫= fun _ => mret (length b, None)
    end
  else transport_Write b.

Definition write_framed (b : list byte) : st Conn (nat * option error) :=
  '(_, err) ← write (be16 (Z.of_nat (length b)));
  match err with Some e => mret (0%nat, Some e) | None => write b end.

Definition Write (b : list byte) : st Conn (nat * option error) :=
  c ← get;
  if framed c then write_framed b else write b.
(** The destination is in the request header: that of the call is not used. *)
Definition WriteTo (p addr : list byte) : st Conn (nat * option error) := write_framed p.

Fixpoint fill_items (items : list (list byte)) (buf : list byte) (offset : nat) : res (list byte) :=
  match items with
  | [] => Ret buf
  | d :: items =>
      '(buf, _) ← copy_at buf offset (be16 (Z.of_nat (length d)));
      '(buf, n) ← copy_at buf (offset + 2) d;
      fill_items items buf (offset + 2 + n)
  end.
Definition WriteBatch (items : list (list byte)) : st Conn (nat * option error) :=
  if decide (items = []) then mret (0%nat, None) else
  if decide (Exists (fun d => Z.of_nat (length d) > 0xffff) items) then mret (0%nat, Some (Errorf "vless udp payload too large: %d > %d")) else
  buf ← lift (fill_items items (src_get (sum_list ((fun d => 2 + length d)%nat <$> items))) 0);
  '(_, err) ← write buf;
  match err with Some e => mret (0%nat, Some e) | None => mret (length items, None) end.

(** * Reading *)

Definition transport_read {A} (m : st stream A) : st Conn A := fun c => let '(r, x) := m (inp c) in (set_inp r c, x).
(** [io.CopyN(io.Discard, r, n)]. *)
Definition copyN (n : nat) : st stream unit := fun r => if decide (n <= length r)%nat then (drop n r, Ret tt) else ([], Fail EOF).
(** One [Read] of the transport into a buffer of [k] bytes, of which it delivers at
    most [got] (at least one). *)
Definition readSome (k got : nat) : st stream (list byte) := fun r =>
  match r with
  | [] => if decide (k = 0%nat) then ([], Ret []) else ([], Fail EOF)
  | _ => let n := Nat.min k (Nat.max 1 got) in (drop n r, Ret (take n r))
  end.
Definition conn_Close : st Conn unit := modify (fun c => set_outp (MkTconn (t_out (outp c)) (t_plan (outp c)) true) c).

(** [CompleteMetadataFromReader]: the type is stored before anything is read. *)
Definition CompleteMetadataFromReader (first4 : list byte) : st Conn unit :=
  t ← lift (index first4 3);
  let T := ParseMetadataType t in
  _ ← modify (on_base (fun m => with_target m T (Hostname m) (Cmd m)));
  _ ← match T with
      | MetadataTypeIPv4 => ip ← transport_read (readFull 4); modify (on_base (fun m => with_target m T (IPString ip) (Cmd m)))
      | MetadataTypeIPv6 => ip ← transport_read (readFull 16); modify (on_base (fun m => with_target m T (IPString ip) (Cmd m)))
      | MetadataTypeDomain =>
          l ← transport_read (readFull 1);
          n ← lift (index l 0);
          if decide (n = x00) then fail (Wrap "CompleteMetadataFromReader" ErrInvalidMetadata) else
          host ← transport_read (readFull (Z.to_nat (b2z n)));
          modify (on_base (fun m => with_target m T host (Cmd m)))
      | MetadataTypeMsg => b ← transport_read (readFull 1); cmd ← lift (index b 0); modify (on_base (fun m => with_target m T (Hostname m) (b2z cmd)))
      | MetadataTypeInvalid => fail (Wrap "CompleteMetadataFromReader" ErrInvalidMetadata)
      end;
  p ← lift (slice first4 1 3);
  n ← lift (index first4 0);
  modify (on_vbase (fun v => let m := base v in
    MkVM (MkMeta (Type_ m) (Hostname m) (be_get p) (mIP m) (Cmd m) (Cipher m) (IsClient m)) (ParseNetwork n) (authedCmdKey v) (authedEAuthID v))).

Definition ReadReqHeader : st Conn unit :=
  c ← get;
  buf ← transport_read (readFull 18);
  v ← lift (index buf 0);
  if decide (v <> x00) then _ ← conn_Close; fail (Errorf "version %v is not supprted") else
  key ← lift (slice (cmdKey c) 0 16);
  uuid ← lift (slice buf 1 17);
  if decide (key <> uuid) then _ ← conn_Close; fail FailAuthErr else
  n ← lift (index buf 17);
  _ ← transport_read (copyN (Z.to_nat (b2z n)));
  buf ← transport_read (readFull 4);
  CompleteMetadataFromReader buf.

Definition ReadRespHeader : st Conn unit :=
  buf ← transport_read (readFull 2);
  v ← lift (index buf 0);
  if decide (v <> x00) then _ ← conn_Close; fail (Errorf "version %v is not supprted") else
  n ← lift (index buf 1);
  transport_read (copyN (Z.to_nat (b2z n))).

(** What [read] does before it reads the transport. *)
Definition beforeRead : st Conn unit :=
  c ← get;
  match headerErr c with
  | Some e => fail e
  | None =>
      if readHeaderDone c then mret tt else
      r ← try (if IsClient (base (vbase (metadata c))) then ReadRespHeader else ReadReqHeader);
      match r with
      | inr e => _ ← modify (set_header false (Some e)); fail e
      | inl _ => modify (set_header true None)
      end
  end.
Definition read (k got : nat) : st Conn (list byte) := _ ← beforeRead; transport_read (readSome k got).
(** [io.ReadFull] and [io.CopyN] over [read]: an empty request reads nothing. *)
Definition read_full (n : nat) : st Conn (list byte) := if decide (n = 0%nat) then mret [] else _ ← beforeRead; transport_read (readFull n).
Definition discard (n : nat) : st Conn unit := if decide (n = 0%nat) then mret tt else _ ← beforeRead; transport_read (copyN n).

(** One framed datagram into a buffer of [k] bytes. *)
Definition read_framed (k : nat) : st Conn (list byte) :=
  l ← read_full 2;
  let length := Z.to_nat (be_get l) in
  if decide (k < length)%nat then _ ← discard length; fail (DatagramDropped ErrShortBuffer)
  else read_full length.
Definition Read (k got : nat) : st Conn (list byte) := c ← get; if framed c then read_framed k else read k got.
Definition ReadFrom (k : nat) : st Conn (list byte * AddrPort) :=
  c ← get;
  p ← read_framed k;
  mret (p, cachedProxyAddr c).
End conn.
