(* ===== verification/VlessRound.v ===== *)
(** VLESS from end to end: the request header and the server's view of it, streams
    and datagrams over a transport that may fail at any byte. *)

From S2P Require Import Prelude GoStrings NetIP Pool Metadata GoState Common Transport VmessHeader VmessRound Vless.
From Stdlib Require Import Strings.Byte.

Section round.
Context {BS : BufferSource}.
Context (ParseIP : list byte -> list byte) (IPString : list byte -> list byte) (JoinHostPort : list byte -> Z -> list byte)
  (resolveUDPAddr : list byte -> res UDPAddr) (Marshal : list byte -> res (list byte)).
Abbreviation write := (write ParseIP).
Abbreviation beforeRead := (beforeRead IPString).

(** * The header *)

Definition header (c : Conn) : list byte :=
  let m := vbase (metadata c) in
  [x00] ++ cmdKey c ++ [z2b (Z.of_nat (length (addonsBytes c)))] ++ addonsBytes c ++
  (if Mux (metadata c) then [x03]
   else [NetworkToByte (Network m)] ++ be16 (mPort (base m)) ++ [MetadataTypeToByte (Type_ (base m))] ++ addr_bytes ParseIP (base m)).
Definition header_ok (c : Conn) : Prop := length (cmdKey c) = 16%nat /\ target_ok ParseIP (base (vbase (metadata c))).

Lemma reqHeader_ok c : header_ok c -> reqHeader ParseIP c = Ret (header c).
Proof.
  intros [Lk T]. unfold reqHeader, header. set (m := vbase (metadata c)) in *. set (a := addonsBytes c). cbv zeta.
  set (N := if Mux (metadata c) then _ else _). assert (LN : (length a + 19 <= N)%nat) by (unfold N; destruct (Mux _); lia).
  pose proof (src_length N) as Lb. set (buf := src_get N) in *. clearbody buf.
  rewrite set_at_0, bind_ret by lia. rewrite copy_at_app by (rewrite ?length_drop; cbn [length]; lia). rewrite bind_ret, drop_drop.
  rewrite set_at_app by (rewrite ?length_app, ?length_drop; cbn [length]; lia). rewrite bind_ret, drop_drop.
  rewrite copy_at_app by (rewrite ?length_app, ?length_drop; cbn [length]; lia). rewrite bind_ret, drop_drop.
  set (p := (([x00] ++ cmdKey c) ++ [_]) ++ a). assert (Lp : length p = (18 + length a)%nat) by (unfold p; rewrite !length_app; cbn [length]; lia).
  set (r := drop _ buf). assert (Lr : length r = (N - (18 + length a))%nat) by (unfold r; rewrite length_drop; cbn [length]; lia).
  clearbody r. unfold N in *. destruct (Mux (metadata c)).
  - rewrite set_at_app by (rewrite ?Lr, ?Lp; lia). destruct r as [|r0 [|]]; cbn in Lr; try lia. unfold p. by rewrite <- !app_assoc.
  - pose proof (length_addr_bytes _ _ T) as La. rewrite set_at_app by (rewrite ?Lr, ?Lp; lia). rewrite bind_ret.
    rewrite write_at_app by (rewrite ?length_app, ?length_drop, ?length_be_put, ?Lp; cbn [length]; lia). rewrite bind_ret, length_be_put, drop_drop.
    rewrite set_at_app by (rewrite ?length_app, ?length_drop, ?length_be_put, ?Lp; cbn [length]; lia). rewrite bind_ret, drop_drop.
    set (q := ((p ++ _) ++ _) ++ _). assert (Lq : length q = (22 + length a)%nat) by (unfold q; rewrite !length_app, length_be_put, Lp; cbn [length]; lia).
    rewrite slice_from_app, bind_ret by lia. match goal with |- context [PutAddr _ _ ?t] => destruct (PutAddr_ok ParseIP (base m) t T) as [k ->]; [rewrite !length_drop; lia|] end. rewrite bind_ret.
    rewrite take_app_length' by lia. rewrite drop_drop, drop_ge, app_nil_r by lia. unfold q, p. by rewrite <- !app_assoc.
Qed.

(** * Writing *)

(** A transport that obeys the contract of [io.Writer] for messages of up to [n]
    bytes: a write that is cut short is reported. *)
Definition plan_ok (n : nat) (plan : list wstep) : Prop := Forall (fun '(Accept k e) => e = None -> (n <= k)%nat) plan.

Lemma conn_Write_prefix b t n : plan_ok n (t_plan t) -> (length b <= n)%nat -> exists t' j e, conn_Write b t = (t', (j, e)) /\ (j <= length b)%nat /\
  t_out t' = t_out t ++ take j b /\ plan_ok n (t_plan t') /\ (e = None -> j = length b) /\ (t_plan t = [] /\ t_closed t = false -> e = None /\ t_plan t' = [] /\ t_closed t' = false).
Proof.
  intros P L. unfold conn_Write. destruct (t_closed t) eqn:C.
  { do 3 eexists. split; [reflexivity|]. rewrite take_0, app_nil_r. split_and!; try done; [lia|by intros [_ ?]]. }
  destruct (t_plan t) as [|[k e] plan].
  { do 3 eexists. split; [reflexivity|]. cbn. rewrite firstn_all. done. }
  apply Forall_cons in P as [Pk P]. do 3 eexists. split; [reflexivity|]. cbn. split_and!; try done; [lia| |by intros [? _]]. intros E. specialize (Pk E). lia.
Qed.

(** A connection whose next write is preceded by [pre]. *)
Definition ready (pre : list byte) (c : Conn) : Prop :=
  header_ok c /\ (if negb (onceWrite c) && IsClient (base (vbase (metadata c))) then pre = header c else pre = []).

(** Everything but the transport and the mark of the first write is kept. *)
Definition same (c c' : Conn) : Prop :=
  metadata c' = metadata c /\ cmdKey c' = cmdKey c /\ cachedProxyAddr c' = cachedProxyAddr c /\ addonsBytes c' = addonsBytes c /\
  readHeaderDone c' = readHeaderDone c /\ headerErr c' = headerErr c /\ inp c' = inp c.
Lemma vl_same_refl c : same c c. Proof. done. Qed.
Lemma vl_same_trans a b c : same a b -> same b c -> same a c.
Proof. unfold same. intros (?&?&?&?&?&?&?) (?&?&?&?&?&?&?). split_and!; congruence. Qed.

(** A step that puts [b] behind [pre] on the wire, or a prefix and an error. *)
Definition puts (n : nat) (pre b : list byte) (c : Conn) (r : Conn * res (nat * option error)) (count : nat) : Prop :=
  exists c' j k e, r = (c', Ret (k, e)) /\ same c c' /\ plan_ok n (t_plan (outp c')) /\ (j <= length (pre ++ b))%nat /\
    t_out (outp c') = t_out (outp c) ++ take j (pre ++ b) /\ (e = None -> k = count /\ j = length (pre ++ b) /\ ready [] c') /\
    (t_plan (outp c) = [] /\ t_closed (outp c) = false -> e = None /\ t_plan (outp c') = [] /\ t_closed (outp c') = false).

Lemma write_puts n pre b c : ready pre c -> plan_ok n (t_plan (outp c)) -> (length (pre ++ b) <= n)%nat -> puts n pre b c (write b c) (length b).
Proof.
  intros [H Hp] P L. unfold write, Vless.write. st_pure. destruct (negb (onceWrite c) && IsClient _) eqn:E; subst pre.
  2:{ unfold transport_Write. destruct (conn_Write_prefix b (outp c) n P L) as (t & j & e & -> & Lj & Ho & P' & He & Hg).
      exists (set_outp t c), j, j, e. split_and!; try done. intros N. rewrite (He N). split_and!; try done. unfold ready. cbn. by rewrite E. }
  st_lift ltac:(by apply reqHeader_ok). rewrite length_app in L.
  assert (exists t j e k, write_each (header c :: if decide (0 < length b)%nat then [b] else []) 0 (outp c) = (t, (k, e)) /\ plan_ok n (t_plan t) /\ (j <= length (header c ++ b))%nat /\
    t_out t = t_out (outp c) ++ take j (header c ++ b) /\ (e = None -> j = length (header c ++ b)) /\ (t_plan (outp c) = [] /\ t_closed (outp c) = false -> e = None /\ t_plan t = [] /\ t_closed t = false)) as (t & j & e & k & Ew & P' & Lj & Ho & He & Hg).
  { cbn [write_each]. destruct (conn_Write_prefix (header c) (outp c) n P ltac:(lia)) as (t1 & j1 & e1 & -> & L1 & O1 & P1 & E1 & G1).
    destruct e1 as [e1|].
    { do 4 eexists. split; [reflexivity|]. split; [done|]. split; [|split; [rewrite O1; f_equal; symmetry; by apply take_app_le|split; [done|]]]; [rewrite length_app; lia|]. intros G. by destruct (G1 G). }
    rewrite (E1 eq_refl), firstn_all in *. case_decide as Hb; cbn [write_each].
    2:{ destruct b; [|cbn in Hb; lia]. rewrite app_nil_r. do 4 eexists. split; [reflexivity|]. split; [done|]. rewrite O1. split_and!; [done|by rewrite firstn_all|done|done]. }
    destruct (conn_Write_prefix b t1 n P1 ltac:(lia)) as (t2 & j2 & e2 & -> & L2 & O2 & P2 & E2 & G2).
    assert (O : t_out t2 = t_out (outp c) ++ take (length (header c) + j2) (header c ++ b)) by (rewrite O2, O1, <- app_assoc; f_equal; by rewrite take_app_add).
    destruct e2 as [e2|]; (do 4 eexists; split; [reflexivity|split; [done|split; [|split; [exact O|split; [|intros G; destruct (G1 G) as (_ & Ga); destruct (G2 Ga); done]]]]]); rewrite ?length_app; try lia; try done.
    intros _. rewrite (E2 eq_refl). lia. }
  unfold Buffers_WriteTo at 1. rewrite (st_bind_Ret _ _ _ (set_outp t c) (k, e)) by (by rewrite Ew). cbv beta iota. destruct e as [e|].
  - exists (set_outp t c), j, 0%nat, (Some (Wrap "write header" e)). split_and!; try done. intros G. by destruct (Hg G).
  - exists (set_onceWrite (set_outp t c)), j, (length b), None. split_and!; try done. intros _. split_and!; try done. by apply He.
Qed.

Lemma puts_nothing n pre c : ready pre c -> plan_ok n (t_plan (outp c)) -> pre = [] -> puts n pre [] c (c, Ret (0%nat, None)) 0.
Proof. intros H P ->. exists c, 0%nat, 0%nat, None. cbn. rewrite app_nil_r. done. Qed.

(** A message written after another. *)
Lemma puts_then n pre a b c (m : st Conn (nat * option error)) (f : nat -> st Conn (nat * option error)) k1 k2 : ready pre c -> puts n pre a c (m c) k1 ->
  (forall c', same c c' -> ready [] c' -> plan_ok n (t_plan (outp c')) -> puts n [] b c' (f k1 c') k2) ->
  puts n pre (a ++ b) c ((m ≫= fun '(k, e) => match e with Some e => mret (0%nat, Some e) | None => f k end) c) k2.
Proof.
  intros R (c1 & j1 & k & e & E & S1 & P1 & L1 & O1 & H1 & G1) F. rewrite (st_bind_Ret _ _ _ _ _ E). cbv beta iota. destruct e as [e|].
  { exists c1, j1, 0%nat, (Some e). split_and!; try done; [rewrite app_assoc, length_app; lia|rewrite app_assoc, take_app_le by done; done]. }
  destruct (H1 eq_refl) as (-> & -> & R1). destruct (F c1 S1 R1 P1) as (c2 & j2 & k' & e2 & -> & S2 & P2 & L2 & O2 & H2 & G2). cbn [app] in *.
  exists c2, (length (pre ++ a) + j2)%nat, k', e2. split; [done|]. split; [by apply (vl_same_trans _ c1)|]. split; [done|]. rewrite app_assoc. split; [rewrite (length_app (pre ++ a)); lia|]. split.
  { rewrite O2, O1, firstn_all, <- app_assoc. f_equal. by rewrite take_app_add. }
  split. { intros N. destruct (H2 N) as (-> & -> & ?). split_and!; [done| |done]. by rewrite (length_app (pre ++ a)). }
  intros G. destruct (G1 G) as (_ & Ga). by apply G2.
Qed.

(** ** Datagrams *)

Definition frame (d : list byte) : list byte := be16 (Z.of_nat (length d)) ++ d.
Definition short (d : list byte) : Prop := Z.of_nat (length d) < 65536.
Lemma vl_length_frame d : length (frame d) = (2 + length d)%nat.
Proof. unfold frame. by rewrite length_app, length_be_put. Qed.

Lemma write_framed_puts n pre d c : ready pre c -> plan_ok n (t_plan (outp c)) -> (length (pre ++ frame d) <= n)%nat -> puts n pre (frame d) c (write_framed ParseIP d c) (length d).
Proof.
  intros R P L. unfold write_framed, frame in *. rewrite app_assoc, length_app in L. eapply (puts_then _ _ _ _ _ _ (fun _ => write d)); [done|apply write_puts; [done..|lia]|].
  intros c' _ R' P'. apply write_puts; [done..|]. cbn [app]. lia.
Qed.

Lemma fill_items_ok items : forall (front rest : list byte), length rest = sum_list ((fun d => 2 + length d)%nat <$> items) ->
  fill_items items (front ++ rest) (length front) = Ret (front ++ concat (frame <$> items)).
Proof.
  induction items as [|d items IH]; intros front rest L; cbn [fill_items fmap list_fmap concat] in *.
  { destruct rest; [|done]. done. }
  unfold sum_list in L. cbn in L. fold (sum_list ((fun d => S (S (length d))) <$> items)) in L.
  rewrite copy_at_app by (rewrite ?length_be_put; lia). rewrite bind_ret, length_be_put.
  rewrite copy_at_app by (rewrite ?length_app, ?length_be_put, ?length_drop; lia). rewrite bind_ret, drop_drop.
  replace (length front + 2 + length d)%nat with (length ((front ++ be16 (Z.of_nat (length d))) ++ d)) by (rewrite !length_app, length_be_put; lia).
  rewrite IH by (rewrite length_drop; cbn; unfold sum_list in *; cbn in *; lia). unfold frame. by rewrite <- !app_assoc.
Qed.

Lemma WriteBatch_puts n pre items c : ready pre c -> plan_ok n (t_plan (outp c)) -> (length (pre ++ concat (frame <$> items)) <= n)%nat -> Forall short items -> items <> [] ->
  puts n pre (concat (frame <$> items)) c (WriteBatch ParseIP items c) (length items).
Proof.
  intros R P L F N. unfold WriteBatch. rewrite decide_False by done. rewrite decide_False by (intros X; apply Exists_exists in X as (d & Hd & ?); rewrite Forall_forall in F; specialize (F d Hd); unfold short in F; lia).
  set (buf := src_get _). assert (Lb : length buf = sum_list ((fun d => 2 + length d)%nat <$> items)) by apply src_length.
  st_lift ltac:(apply (fill_items_ok items []); exact Lb). cbn [app].
  rewrite <- (app_nil_r (concat (frame <$> items))) at 1. eapply (puts_then n pre (concat (frame <$> items)) [] c _ (fun _ => mret (length items, None)) (length (concat (frame <$> items)))).
  - done.
  - by apply write_puts.
  - intros c' _ R' P'. exists c', 0%nat, (length items), None. cbn. rewrite app_nil_r. done.
Qed.

(** * Reading *)

Definition eof (e : error) : Prop := e = EOF \/ e = ErrUnexpectedEOF.

(** [m] takes exactly [a] from the transport, and runs into the end of anything
    shorter. *)
Definition takes {A} (m : st Conn A) (c : Conn) (a : list byte) (c' : Conn) (x : A) : Prop :=
  (forall r, m (set_inp (a ++ r) c) = (set_inp r c', Ret x)) /\
  (forall j, (j < length a)%nat -> exists c'' e, m (set_inp (take j a) c) = (c'', Fail e) /\ eof e).

Lemma takes_ret {A} (m : st Conn A) c c' x : (forall r, m (set_inp r c) = (set_inp r c', Ret x)) -> takes m c [] c' x.
Proof. intros H. split; [exact H|]. cbn. lia. Qed.
Lemma takes_bind {A B} (m : st Conn A) (f : A -> st Conn B) c a c1 x b c2 y : takes m c a c1 x -> takes (f x) c1 b c2 y -> takes (m ≫= f) c (a ++ b) c2 y.
Proof.
  intros [M1 M2] [F1 F2]. split.
  - intros r. rewrite <- app_assoc, (st_bind_Ret _ _ _ _ _ (M1 _)). apply F1.
  - intros j L. destruct (decide (j < length a)%nat) as [H|H].
    + rewrite take_app_le by lia. destruct (M2 j H) as (c' & e & E & He). exists c', e. by rewrite (st_bind_Fail _ _ _ _ _ E).
    + rewrite take_app_ge by lia. rewrite (st_bind_Ret _ _ _ _ _ (M1 _)). apply F2. rewrite length_app in L. lia.
Qed.
(** Statements that do not read. *)
Lemma takes_pure {A B} (m : st Conn A) (f : A -> st Conn B) c c1 x b c2 y :
  (forall r, m (set_inp r c) = (set_inp r c1, Ret x)) -> takes (f x) c1 b c2 y -> takes (m ≫= f) c b c2 y.
Proof. intros M F. apply (takes_bind m f c [] c1 x b); [by apply takes_ret|done]. Qed.
Lemma takes_get {B} (f : Conn -> st Conn B) c b c2 y : (forall r, f (set_inp r c) = f c) -> takes (f c) c b c2 y -> takes (get ≫= f) c b c2 y.
Proof.
  intros H [F1 F2]. split; [intros r|intros j L]; rewrite (st_bind_Ret get f _ _ _ eq_refl), H; [apply F1|by apply F2].
Qed.
Lemma takes_modify (f : Conn -> Conn) c c' : (forall r, f (set_inp r c) = set_inp r (f c)) -> f c = c' -> takes (modify f) c [] c' tt.
Proof. intros H <-. apply takes_ret. intros r. unfold modify. by rewrite H. Qed.
Lemma takes_lift {A B} (m : res A) (f : A -> st Conn B) c x b c2 y : m = Ret x -> takes (f x) c b c2 y -> takes (lift m ≫= f) c b c2 y.
Proof. intros -> H. eapply takes_pure; [|exact H]. done. Qed.
Lemma takes_set {B} (f : Conn -> Conn) (g : unit -> st Conn B) c b c2 y : (forall r, f (set_inp r c) = set_inp r (f c)) -> takes (g tt) (f c) b c2 y -> takes (modify f ≫= g) c b c2 y.
Proof. intros H G. eapply takes_pure; [|exact G]. intros r. unfold modify. by rewrite H. Qed.

Lemma readFull_take n a j : n = length a -> (j < n)%nat -> exists e, readFull n (take j a) = ([], Fail e) /\ eof e.
Proof.
  intros -> L. unfold readFull. rewrite decide_False by (rewrite length_take; lia). destruct (take j a); (eexists; split; [reflexivity|]); [by left|by right].
Qed.
Lemma takes_readFull n a c : n = length a -> takes (transport_read (readFull n)) c a c a.
Proof.
  intros ->. unfold transport_read. split.
  - intros r. cbn [inp set_inp]. by rewrite readFull_app.
  - intros j L. cbn [inp set_inp]. destruct (readFull_take _ a j eq_refl L) as (e & -> & He). by do 2 eexists.
Qed.
Lemma takes_copyN n a c : n = length a -> takes (transport_read (copyN n)) c a c tt.
Proof.
  intros ->. unfold transport_read, copyN. split.
  - intros r. cbn [inp set_inp]. rewrite decide_True by (rewrite length_app; lia). by rewrite drop_app_length.
  - intros j L. cbn [inp set_inp]. rewrite decide_False by (rewrite length_take; lia). do 2 eexists. split; [reflexivity|by left].
Qed.

(** ** Headers *)

(** The server's metadata once it has the request of client [m]. *)
Definition seen (m : VMetadata) (c : Conn) : Conn :=
  on_vbase (fun v => MkVM (MkMeta (Type_ (base m)) (seen_host ParseIP IPString (base m) v) (mPort (base m)) (mIP (base v)) (seen_cmd (base m) v) (Cipher (base v)) (IsClient (base v)))
    (Network m) (authedCmdKey v) (authedEAuthID v)) c.
Definition known (m : VMetadata) : Prop :=
  target_ok ParseIP (base m) /\ (Type_ (base m) = MetadataTypeDomain -> Hostname (base m) <> []) /\ (Network m = lit "tcp" \/ Network m = lit "udp").

Lemma takes_Complete m c : known m ->
  takes (CompleteMetadataFromReader IPString ([NetworkToByte (Network m)] ++ be16 (mPort (base m)) ++ [MetadataTypeToByte (Type_ (base m))])) c (addr_bytes ParseIP (base m)) (seen m c) tt.
Proof.
  intros ([Hp T] & Hd & Hn). unfold CompleteMetadataFromReader. destruct (be16_shape _ Hp) as (p1 & p2 & Eb & Eg). rewrite Eb. cbn [app].
  eapply takes_lift; [reflexivity|]. cbv beta zeta. rewrite type_roundtrip. eapply takes_set; [done|].
  rewrite <- (app_nil_r (addr_bytes _ _)). unfold seen, seen_host, seen_cmd, addr_bytes. destruct (Type_ (base m)) eqn:Et; [..|done].
  all: eapply takes_bind; [|apply (takes_lift _ _ _ [p1; p2]); [done|]; apply (takes_lift _ _ _ (NetworkToByte (Network m))); [done|]; rewrite network_roundtrip, Eg by done].
  - rewrite <- (app_nil_r (To4 _)). eapply takes_bind; [by apply takes_readFull|by apply takes_modify].
  - by apply takes_modify.
  - rewrite <- (app_nil_r (ParseIP _)). eapply takes_bind; [by apply takes_readFull|by apply takes_modify].
  - by apply takes_modify.
  - change (?x :: ?h) with ([x] ++ h). eapply takes_bind; [by apply takes_readFull|]. eapply takes_lift; [reflexivity|]. cbv beta.
    assert (E : b2z (z2b (Z.of_nat (length (Hostname (base m))))) = Z.of_nat (length (Hostname (base m)))) by (apply b2z_z2b_small; lia).
    rewrite decide_False. 2:{ intros X. rewrite X in E. change (b2z x00) with 0 in E. apply (Hd eq_refl). apply length_zero_iff_nil. lia. }
    rewrite <- (app_nil_r (Hostname (base m))). eapply takes_bind; [apply takes_readFull; rewrite app_nil_r, E; lia|by apply takes_modify].
  - by apply takes_modify.
  - rewrite <- (app_nil_r [z2b _]). eapply takes_bind; [by apply takes_readFull|]. eapply takes_lift; [reflexivity|]. by apply takes_modify.
  - rewrite b2z_z2b_small by done. by apply takes_modify.
Qed.

(** The header a connection expects, and the connection that has read it. *)
Definition opens (c : Conn) (H : list byte) (c' : Conn) : Prop :=
  headerErr c = None /\ readHeaderDone c = false /\ takes (if IsClient (base (vbase (metadata c))) then ReadRespHeader else ReadReqHeader IPString) c H c' tt.

Lemma server_opens k s : header_ok k -> known (vbase (metadata k)) -> Mux (metadata k) = false -> (length (addonsBytes k) < 256)%nat ->
  IsClient (base (vbase (metadata s))) = false -> headerErr s = None -> readHeaderDone s = false -> cmdKey s = cmdKey k -> opens s (header k) (seen (vbase (metadata k)) s).
Proof.
  intros [Lk T] K M La Cl He Hd Ek. split_and!; [done..|]. rewrite Cl. unfold ReadReqHeader, header. rewrite M. apply takes_get; [done|].
  set (a := addonsBytes k) in *. set (m := vbase (metadata k)) in *. rewrite (app_assoc (cmdKey k)), (app_assoc [x00]).
  eapply takes_bind; [apply takes_readFull; rewrite !length_app; cbn [length]; lia|].
  set (buf := [x00] ++ cmdKey k ++ [_]). apply (takes_lift _ _ _ x00); [done|]. rewrite decide_False by (intros X; by apply X).
  apply (takes_lift _ _ _ (cmdKey k)). { rewrite Ek, slice_eq by lia. by rewrite drop_0, Nat.sub_0_r, firstn_all2 by lia. }
  apply (takes_lift _ _ _ (cmdKey k)). { unfold buf. rewrite slice_eq by (rewrite ?length_app; cbn [length]; rewrite ?length_app; cbn [length]; lia). f_equal. change (drop 1 ([x00] ++ ?z)) with z. apply take_app_length'. lia. }
  rewrite decide_False by (intros X; by apply X).
  apply (takes_lift _ _ _ (z2b (Z.of_nat (length a)))). { unfold buf, index. change (([x00] ++ ?z) !! 17%nat) with (z !! 16%nat). by rewrite list_lookup_middle by lia. }
  eapply takes_bind; [apply takes_copyN; rewrite b2z_z2b_small; lia|]. rewrite (app_assoc (be16 _)), (app_assoc [NetworkToByte _]).
  eapply takes_bind; [apply takes_readFull; rewrite !length_app, length_be_put; done|]. by apply takes_Complete.
Qed.

Lemma client_opens c a : IsClient (base (vbase (metadata c))) = true -> headerErr c = None -> readHeaderDone c = false -> (length a < 256)%nat ->
  opens c ([x00; z2b (Z.of_nat (length a))] ++ a) c.
Proof.
  intros Cl He Hd La. split_and!; [done..|]. rewrite Cl. unfold ReadRespHeader. eapply takes_bind; [by apply takes_readFull|].
  apply (takes_lift _ _ _ x00); [done|]. rewrite decide_False by (intros X; by apply X). apply (takes_lift _ _ _ (z2b (Z.of_nat (length a)))); [done|].
  apply takes_copyN. rewrite b2z_z2b_small; lia.
Qed.

(** After the header, with [P] to be read; or at an end inside the header. *)
Definition opened (c : Conn) (P : list byte) : Prop := readHeaderDone c = true /\ headerErr c = None /\ inp c = P.
Definition ended (c : Conn) : Prop := exists e, headerErr c = Some e /\ eof e.

Lemma beforeRead_opened c P : opened c P -> beforeRead c = (c, Ret tt).
Proof. intros (Hd & He & _). unfold beforeRead, Vless.beforeRead. st_pure. by rewrite He, Hd. Qed.
Lemma beforeRead_ended c : ended c -> exists e, beforeRead c = (c, Fail e) /\ eof e.
Proof. intros (e & He & X). exists e. unfold beforeRead, Vless.beforeRead. st_pure. by rewrite He. Qed.
Lemma set_inp_same c : set_inp (inp c) c = c. Proof. by destruct c. Qed.
Lemma vl_beforeRead_header c H c' D j : opens c H c' -> inp c = take j (H ++ D) ->
  (length H <= j)%nat /\ beforeRead c = (set_header true None (set_inp (take (j - length H) D) c'), Ret tt) \/
  (j < length H)%nat /\ exists c'' e, beforeRead c = (set_header false (Some e) c'', Fail e) /\ eof e.
Proof.
  intros (He & Hd & T1 & T2) Ei. unfold beforeRead, Vless.beforeRead. destruct (decide (length H <= j)%nat) as [L|L]; [left|right]; (split; [lia|]).
  - st_pure. rewrite He, Hd. specialize (T1 (take (j - length H) D)). rewrite take_app_ge in Ei by done. rewrite <- Ei, set_inp_same in T1. by rewrite (st_bind_Ret _ _ _ _ _ (try_Ret _ _ _ _ T1)).
  - destruct (T2 j) as (c'' & e & E & X); [lia|]. rewrite take_app_le in Ei by lia. rewrite <- Ei, set_inp_same in E. exists c'', e. st_pure. rewrite He, Hd.
    by rewrite (st_bind_Ret _ _ _ _ _ (try_Fail _ _ _ _ E)).
Qed.

(** * Sequences of writes *)

(** A write, of a stream or (if framed) of a datagram; the destination of [WriteTo]
    is arbitrary. *)
Inductive vop := VWrite (b : list byte) | VTo (b addr : list byte) | VBatch (items : list (list byte)).
Definition do_op (o : vop) : st Conn (nat * option error) :=
  match o with VWrite b => Write ParseIP b | VTo b addr => WriteTo ParseIP b addr | VBatch items => WriteBatch ParseIP items end.
Definition op_bytes (fr : bool) (o : vop) : list byte :=
  match o with VWrite b => if fr then frame b else b | VTo b _ => frame b | VBatch items => concat (frame <$> items) end.
Definition op_dgrams (o : vop) : list (list byte) := match o with VWrite b => [b] | VTo b _ => [b] | VBatch items => items end.
Definition op_count (o : vop) : nat := match o with VWrite b => length b | VTo b _ => length b | VBatch items => length items end.
Definition op_ok (fr : bool) (o : vop) : Prop :=
  match o with VWrite b => fr = true -> short b | VTo b _ => fr = true /\ short b | VBatch items => fr = true /\ items <> [] /\ Forall short items end.
Definition op_done (o : vop) : res (nat * option error) := Ret (op_count o, None).
(** The caller stops at the first error. *)
Fixpoint run_ops (os : list vop) (c : Conn) : Conn * list (res (nat * option error)) :=
  match os with
  | [] => (c, [])
  | o :: os => match do_op o c with (c, Ret (k, None)) => let '(c, rs) := run_ops os c in (c, Ret (k, None) :: rs) | (c, r) => (c, [r]) end
  end.

Lemma do_op_puts n pre o c : ready pre c -> plan_ok n (t_plan (outp c)) -> op_ok (framed c) o -> (length (pre ++ op_bytes (framed c) o) <= n)%nat ->
  puts n pre (op_bytes (framed c) o) c (do_op o c) (op_count o).
Proof.
  intros R P K L. destruct o as [b|b addr|items]; cbn [do_op op_bytes op_count op_ok] in *.
  - unfold Write. destruct (framed c) eqn:F; (rewrite (st_bind_Ret get _ _ _ _ eq_refl), F); [by apply write_framed_puts|by apply write_puts].
  - by apply write_framed_puts.
  - destruct K as (_ & ? & ?). by apply WriteBatch_puts.
Qed.
Lemma same_framed c c' : same c c' -> framed c' = framed c.
Proof. intros (E & _). unfold framed. by rewrite E. Qed.

(** Whatever the transport does, a prefix of the wire format arrives; all of it if
    every call succeeds, which over a good transport they do. *)
Lemma run_ops_ok n os : forall pre c, ready pre c -> plan_ok n (t_plan (outp c)) -> Forall (op_ok (framed c)) os -> (length (pre ++ (os ≫= op_bytes (framed c))) <= n)%nat ->
  exists c' rs j, run_ops os c = (c', rs) /\ same c c' /\ Forall (fun r => r <> Panic) rs /\ (j <= length (pre ++ (os ≫= op_bytes (framed c))))%nat /\
    t_out (outp c') = t_out (outp c) ++ take j (pre ++ (os ≫= op_bytes (framed c))) /\
    (rs = op_done <$> os -> os <> [] -> j = length (pre ++ (os ≫= op_bytes (framed c)))) /\ (t_plan (outp c) = [] /\ t_closed (outp c) = false -> rs = op_done <$> os).
Proof.
  induction os as [|o os IH]; intros pre c R P K L; cbn [run_ops].
  { exists c, [], 0%nat. split_and!; cbn; rewrite ?app_nil_r; try done; try lia; try constructor. }
  apply Forall_cons in K as [Ko K]. cbn [mbind list_bind] in L. destruct (do_op_puts n pre o c R P Ko) as (c1 & j & k & e & E & S1 & P1 & Lj & O1 & H1 & G1); [rewrite app_assoc, length_app in L; lia|].
  rewrite E. cbn [mbind list_bind fmap list_fmap]. rewrite (app_assoc pre). destruct e as [e|].
  { exists c1, [Ret (k, Some e)], j. split_and!; try done; [by repeat constructor|rewrite length_app; lia|by rewrite take_app_le|intros G; by destruct (G1 G)]. }
  destruct (H1 eq_refl) as (-> & -> & R1). pose proof (same_framed _ _ S1) as Fr.
  destruct (IH [] c1 R1 P1) as (c2 & rs & j2 & -> & S2 & NP & L2 & O2 & D2 & G2); [by rewrite Fr|rewrite Fr; rewrite app_assoc, length_app in L; cbn [app]; lia|].
  rewrite Fr in *. cbn [app] in *. exists c2, (op_done o :: rs), (length (pre ++ op_bytes (framed c) o) + j2)%nat. split; [done|]. split; [by apply (vl_same_trans _ c1)|]. split; [by constructor|].
  split; [rewrite (length_app (pre ++ _)); lia|]. split. { rewrite O2, O1, firstn_all, <- app_assoc. f_equal. by rewrite take_app_add. }
  split. { intros [= X] _. rewrite (length_app (pre ++ _)). f_equal. destruct os as [|o' os']; [cbn in *; lia|]. by apply D2. }
  intros G. destruct (G1 G) as (_ & Ga). by rewrite (G2 Ga).
Qed.

(** * Sequences of reads *)

(** Reads into buffers of given sizes, of which the transport fills given parts. *)
Fixpoint vl_reads (qs : list (nat * nat)) (c : Conn) : list byte * res unit :=
  match qs with
  | [] => ([], Ret tt)
  | (k, got) :: qs =>
      match Read IPString k got c with
      | (c, Ret b) => let '(d, r) := vl_reads qs c in (b ++ d, r)
      | (_, Fail e) => ([], Fail e)
      | (_, Panic) => ([], Panic)
      end
  end.
Definition at_end (r : res unit) : Prop := exists e, r = Fail e /\ eof e.

Lemma Read_stream k got c : framed c = false -> Read IPString k got c = read IPString k got c.
Proof. intros F. unfold Read. rewrite (st_bind_Ret get _ _ _ _ eq_refl), F. done. Qed.

Lemma vl_reads_opened qs : forall c P, opened c P -> framed c = false -> Forall (fun q => 0 < q.1)%nat qs -> (length P < length qs)%nat -> vl_reads qs c = (P, Fail EOF).
Proof.
  induction qs as [|[k got] qs IH]; intros c P O F K L; [cbn in L; lia|]. apply Forall_cons in K as [Kk K]. cbn [vl_reads fst] in *. rewrite Read_stream by done. unfold read.
  rewrite (st_bind_Ret _ _ _ _ _ (beforeRead_opened c P O)). destruct O as (Hd & He & Ei). unfold transport_read, readSome. rewrite Ei. destruct P as [|x P].
  { rewrite decide_False by lia. done. }
  cbv zeta. rewrite (IH _ (drop (Nat.min k (Nat.max 1 got)) (x :: P))); [by rewrite take_drop|done|done|done|]. rewrite length_drop. cbn [length] in *. lia.
Qed.

Lemma vl_reads_header qs c H c1 D j : opens c H c1 -> inp c = take j (H ++ D) -> framed c = false -> framed c1 = false -> Forall (fun q => 0 < q.1)%nat qs -> (length (H ++ D) < length qs)%nat ->
  (vl_reads qs c).1 = drop (length H) (take j (H ++ D)) /\ at_end (vl_reads qs c).2.
Proof.
  intros O Ei F F1 K L. destruct qs as [|[k got] qs]; [cbn in L; lia|]. rewrite length_app in L. destruct (vl_beforeRead_header c H c1 D j O Ei) as [[Lj E]|(Lj & c2 & e & E & X)].
  - set (o := set_header true None (set_inp (take (j - length H) D) c1)) in *. assert (Oo : opened o (take (j - length H) D)) by done.
    assert (vl_reads ((k, got) :: qs) c = vl_reads ((k, got) :: qs) o) as ->.
    { cbn [vl_reads]. rewrite !Read_stream by done. unfold read. by rewrite (st_bind_Ret _ _ _ _ _ E), (st_bind_Ret _ _ _ _ _ (beforeRead_opened _ _ Oo)). }
    rewrite (vl_reads_opened _ o _ Oo) by (done || (rewrite length_take; lia)). cbn [fst snd]. rewrite take_app_ge, drop_app_length by done. split; [done|]. exists EOF. split; [done|by left].
  - cbn [vl_reads]. rewrite Read_stream by done. unfold read. rewrite (st_bind_Fail _ _ _ _ _ E). cbn [fst snd]. rewrite take_app_le, drop_ge by (rewrite ?length_take; lia). split; [done|]. by exists e.
Qed.

(** Receptions into buffers of given sizes; the caller goes on after errors. *)
Fixpoint vl_recv (ks : list nat) (c : Conn) : list (res (list byte * AddrPort)) :=
  match ks with [] => [] | k :: ks => let '(c, r) := ReadFrom IPString k c in r :: vl_recv ks c end.
(** A datagram is delivered whole or, if it does not fit, dropped alone. *)
Definition deliver (a : AddrPort) (k : nat) (d : list byte) : res (list byte * AddrPort) :=
  if decide (k < length d)%nat then Fail (DatagramDropped ErrShortBuffer) else Ret (d, a).
Definition failing (r : res (list byte * AddrPort)) : Prop := exists e, r = Fail e /\ eof e.
(** [n] of the datagrams are complete in the first [j] bytes of the wire. *)
Definition whole (H : list byte) (ds : list (list byte)) (j n : nat) : Prop :=
  (n <= length ds)%nat /\ (n = 0%nat \/ length H + length (concat (frame <$> take n ds)) <= j)%nat /\
  ((n < length ds)%nat -> (j < length H + length (concat (frame <$> take (S n) ds)))%nat).

Lemma whole_step d ds j n : (length (frame d) <= j)%nat -> whole [] ds (j - length (frame d)) n -> whole [] (d :: ds) j (S n).
Proof.
  intros L (L1 & L2 & L3). unfold whole. change (take (S ?m) (d :: ds)) with (d :: take m ds). rewrite !fmap_cons. cbn [concat]. rewrite !length_app. cbn [length] in *.
  split; [lia|]. split; [right; destruct L2 as [-> |L2]; [change (take 0 ds) with (@nil (list byte)); cbn [fmap list_fmap concat length]; lia|lia]|]. intros X. specialize (L3 ltac:(lia)). lia.
Qed.
Lemma whole_exists ds : forall j, exists n, whole [] ds j n.
Proof.
  induction ds as [|d ds IH]; intros j; [exists 0%nat; unfold whole; cbn; lia|]. destruct (decide (length (frame d) <= j)%nat) as [L|L].
  - destruct (IH (j - length (frame d))%nat) as [n W]. exists (S n). by apply whole_step.
  - exists 0%nat. unfold whole. change (take 1 (d :: ds)) with [d]. cbn [fmap list_fmap concat length]. rewrite app_nil_r. lia.
Qed.
Lemma whole_header H ds j n : (length H <= j)%nat -> whole [] ds (j - length H) n -> whole H ds j n.
Proof. intros L (L1 & L2 & L3). unfold whole. cbn in *. split; [done|]. split; [destruct L2; [by left|right; lia]|]. intros X. specialize (L3 X). lia. Qed.

(** Reading ahead of the wire, at its end and inside the header. *)
Lemma read_full_opened n c P : opened c P -> read_full IPString n c = transport_read (readFull n) c.
Proof.
  intros O. unfold read_full. case_decide as E; [|by rewrite (st_bind_Ret _ _ _ _ _ (beforeRead_opened c P O))]. subst n. unfold transport_read, readFull.
  rewrite decide_True by lia. rewrite drop_0, take_0, set_inp_same. done.
Qed.
Lemma discard_opened n c P : opened c P -> discard IPString n c = transport_read (copyN n) c.
Proof.
  intros O. unfold discard. case_decide as E; [|by rewrite (st_bind_Ret _ _ _ _ _ (beforeRead_opened c P O))]. subst n. unfold transport_read, copyN.
  rewrite decide_True by lia. rewrite drop_0, set_inp_same. done.
Qed.
Lemma opened_takes {A} (m : st Conn A) c a x P : opened c (a ++ P) -> takes m (set_inp [] c) a (set_inp [] c) x -> m c = (set_inp P c, Ret x) /\ opened (set_inp P c) P.
Proof. intros (Hd & He & Ei) [M _]. specialize (M P). change (set_inp ?r (set_inp _ ?c)) with (set_inp r c) in M. rewrite <- Ei, set_inp_same in M. by rewrite M. Qed.

Lemma vl_ReadFrom_frame k c d P : short d -> opened c (frame d ++ P) -> ReadFrom IPString k c = (set_inp P c, deliver (cachedProxyAddr c) k d).
Proof.
  unfold short. intros Sd O. unfold ReadFrom, frame in *. rewrite <- app_assoc in O. st_pure. unfold read_framed, deliver.
  destruct (opened_takes (transport_read (readFull 2)) c _ _ _ O ltac:(by apply takes_readFull)) as [E1 O1]. rewrite <- (read_full_opened _ _ _ O) in E1.
  set (c1 := set_inp (d ++ P) c) in *. set (L := be16 _) in *. assert (EL : Z.to_nat (be_get L) = length d) by (unfold L; rewrite be_get_put_small; [lia|cbn; lia]).
  unfold mbind at 1. unfold st_bind at 1. rewrite (st_bind_Ret _ _ _ _ _ E1). cbv beta zeta. rewrite EL. case_decide.
  - destruct (opened_takes (transport_read (copyN (length d))) c1 _ _ _ O1 ltac:(by apply takes_copyN)) as [E2 O2]. rewrite <- (discard_opened _ _ _ O1) in E2. by rewrite (st_bind_Ret _ _ _ _ _ E2).
  - destruct (opened_takes (transport_read (readFull (length d))) c1 _ _ _ O1 ltac:(by apply takes_readFull)) as [E2 O2]. rewrite <- (read_full_opened _ _ _ O1) in E2. by rewrite E2.
Qed.

Lemma ReadFrom_cut k c d j : short d -> (j < length (frame d))%nat -> opened c (take j (frame d)) -> exists c' r, ReadFrom IPString k c = (c', r) /\ failing r /\ opened c' [].
Proof.
  unfold short. intros Sd Lj O. unfold ReadFrom. rewrite (st_bind_Ret get _ _ _ _ eq_refl). unfold read_framed. pose proof (read_full_opened 2 c _ O) as E1. unfold frame in *. rewrite length_app, length_be_put in Lj.
  set (L := be16 _) in *. assert (EL : Z.to_nat (be_get L) = length d) by (unfold L; rewrite be_get_put_small; [lia|cbn; lia]). assert (LL : length L = 2%nat) by apply length_be_put.
  pose proof O as (Hd & He & Ei). destruct (decide (j < 2)%nat) as [J|J].
  { unfold transport_read in E1. rewrite Ei, take_app_le in E1 by lia. destruct (readFull_take 2 L j ltac:(done) J) as (e & E & X). rewrite E in E1.
    exists (set_inp [] c), (Fail e). split; [|split; [by exists e|done]]. unfold mbind at 1. unfold st_bind at 1. by rewrite (st_bind_Fail _ _ _ _ _ E1). }
  rewrite take_app_ge in * by lia. rewrite LL in *. destruct (opened_takes (transport_read (readFull 2)) c _ _ _ O ltac:(by apply takes_readFull)) as [E1' O1]. rewrite E1' in E1.
  unfold mbind at 1. unfold st_bind at 1. rewrite (st_bind_Ret _ _ _ _ _ E1). cbv beta zeta. rewrite EL. clear E1'. set (c1 := set_inp _ c) in *. pose proof O1 as (_ & _ & Ei1). case_decide.
  - assert (E2 : discard IPString (length d) c1 = (set_inp [] c1, Fail EOF)).
    { rewrite (discard_opened _ _ _ O1). unfold transport_read, copyN. rewrite Ei1, decide_False by (rewrite length_take; lia). done. }
    rewrite (st_bind_Fail _ _ _ _ _ E2). exists (set_inp [] c1), (Fail EOF). split; [done|]. split; [exists EOF; split; [done|by left]|done].
  - destruct (readFull_take (length d) d (j - 2) eq_refl ltac:(lia)) as (e & E & X).
    assert (E2 : read_full IPString (length d) c1 = (set_inp [] c1, Fail e)) by (rewrite (read_full_opened _ _ _ O1); unfold transport_read; rewrite Ei1, E; done).
    rewrite E2. exists (set_inp [] c1), (Fail e). split; [done|]. split; [by exists e|done].
Qed.

Lemma st_bind_eq {S A B} (m : st S A) (f : A -> st S B) s s' : m s = m s' -> (m ≫= f) s = (m ≫= f) s'.
Proof. intros E. unfold mbind, st_bind. by rewrite E. Qed.
Lemma recv_nothing ks : forall c, opened c [] -> Forall failing (vl_recv ks c).
Proof.
  induction ks as [|k ks IH]; intros c O; [constructor|]. cbn [vl_recv].
  assert (E : ReadFrom IPString k c = (set_inp [] c, Fail EOF)).
  { unfold ReadFrom, read_framed. st_pure. pose proof (read_full_opened 2 c _ O) as E. destruct O as (_ & _ & Ei). unfold transport_read in E. rewrite Ei in E. cbn in E.
    unfold mbind at 1. unfold st_bind at 1. by rewrite (st_bind_Fail _ _ _ _ _ E). }
  rewrite E. constructor; [exists EOF; split; [done|by left]|]. apply IH. destruct O as (? & ? & ?). done.
Qed.
Lemma recv_ended ks : forall c, ended c -> Forall failing (vl_recv ks c).
Proof.
  induction ks as [|k ks IH]; intros c O; [constructor|]. cbn [vl_recv]. destruct (beforeRead_ended c O) as (e & E & X).
  assert (ReadFrom IPString k c = (c, Fail e)) as ->.
  { unfold ReadFrom, read_framed. st_pure. unfold mbind at 1. unfold st_bind at 1. erewrite st_bind_Fail; [reflexivity|]. unfold read_full. rewrite decide_False by done. by rewrite (st_bind_Fail _ _ _ _ _ E). }
  constructor; [by exists e|by apply IH].
Qed.

Lemma recv_opened ks : forall ds j c, Forall short ds -> opened c (take j (concat (frame <$> ds))) ->
  exists n rest, whole [] ds j n /\ vl_recv ks c = zip_with (deliver (cachedProxyAddr c)) ks (take n ds) ++ rest /\ Forall failing rest.
Proof.
  induction ks as [|k ks IH]; intros ds j c Fd O.
  { destruct (whole_exists ds j) as [n W]. by exists n, []. }
  destruct ds as [|d ds].
  { exists 0%nat, (vl_recv (k :: ks) c). cbn in O. rewrite take_nil in O. split; [unfold whole; cbn; lia|]. split; [done|]. by apply recv_nothing. }
  apply Forall_cons in Fd as [Sd Fd]. rewrite fmap_cons in O. cbn [concat] in O. cbn [vl_recv]. destruct (decide (length (frame d) <= j)%nat) as [L|L].
  - rewrite take_app_ge in O by done. rewrite (vl_ReadFrom_frame k c d _ Sd O). destruct (IH ds (j - length (frame d))%nat (set_inp (take (j - length (frame d)) (concat (frame <$> ds))) c) Fd) as (n & rest & W & E & R).
    { destruct O as (? & ? & ?). done. }
    exists (S n), rest. split; [by apply whole_step|]. rewrite E. done.
  - rewrite take_app_le in O by lia. destruct (ReadFrom_cut k c d j Sd ltac:(lia) O) as (c' & r & -> & Fr & O'). exists 0%nat, (r :: vl_recv ks c').
    split. { unfold whole. change (take 1 (d :: ds)) with [d]. cbn [fmap list_fmap concat length]. rewrite app_nil_r. lia. }
    split; [done|]. constructor; [done|by apply recv_nothing].
Qed.

Lemma recv_header ks c H c1 ds j : opens c H c1 -> cachedProxyAddr c1 = cachedProxyAddr c -> Forall short ds -> inp c = take j (H ++ concat (frame <$> ds)) ->
  exists n rest, whole H ds j n /\ vl_recv ks c = zip_with (deliver (cachedProxyAddr c)) ks (take n ds) ++ rest /\ Forall failing rest.
Proof.
  intros O Ea Fd Ei. destruct (vl_beforeRead_header c H c1 _ j O Ei) as [[Lj E]|(Lj & c2 & e & E & X)].
  - set (o := set_header true None _) in E. assert (Oo : opened o (take (j - length H) (concat (frame <$> ds)))) by done.
    destruct (recv_opened ks ds _ o Fd Oo) as (n & rest & W & R & F). exists n, rest. split; [by apply whole_header|]. split; [|done]. rewrite <- Ea. change (cachedProxyAddr c1) with (cachedProxyAddr o). rewrite <- R.
    destruct ks as [|k ks]; [done|]. cbn [vl_recv]. assert (ReadFrom IPString k c = ReadFrom IPString k o) as ->; [|done].
    unfold ReadFrom. rewrite !(st_bind_Ret get _ _ _ _ eq_refl). change (cachedProxyAddr o) with (cachedProxyAddr c1). rewrite Ea.
    apply st_bind_eq. unfold read_framed. apply st_bind_eq. unfold read_full. rewrite decide_False by done.
    by rewrite (st_bind_Ret _ _ _ _ _ E), (st_bind_Ret _ _ _ _ _ (beforeRead_opened _ _ Oo)).
  - exists 0%nat, (vl_recv ks c). split. { unfold whole. split; [lia|]. split; [by left|]. lia. } split; [by destruct ks|]. destruct ks as [|k ks]; [constructor|]. cbn [vl_recv].
    assert (ReadFrom IPString k c = (set_header false (Some e) c2, Fail e)) as ->.
    { unfold ReadFrom, read_framed. st_pure. unfold mbind at 1. unfold st_bind at 1. erewrite st_bind_Fail; [reflexivity|]. unfold read_full. rewrite decide_False by done. by rewrite (st_bind_Fail _ _ _ _ _ E). }
    constructor; [by exists e|]. apply recv_ended. by exists e.
Qed.

(** * The connection from end to end *)

Definition addons_ok (m : VlMetadata) : Prop := Flow m = [] \/ exists a, Marshal (Flow m) = Ret a /\ (length a < 256)%nat.
Definition client_meta (m : VlMetadata) (net : list byte) : Prop :=
  Network (vbase m) = net /\ IsClient (base (vbase m)) = true /\ Mux m = false /\ known (vbase m) /\ addons_ok m.
(** A connection that waits for a request made with [key]. *)
Definition accepts (key : list byte) (s : Conn) : Prop :=
  IsClient (base (vbase (metadata s))) = false /\ headerErr s = None /\ readHeaderDone s = false /\ cmdKey s = key.

Lemma vl_NewConn_ok m net key i t a : client_meta m net -> length key = 16%nat -> (net = lit "tcp" /\ a = AddrPortZero \/ net = lit "udp" /\ exists u, resolveUDPAddr (JoinHostPort (Hostname (base (vbase m))) (mPort (base (vbase m)))) = Ret u /\ UDPAddr_AddrPort u = a) ->
  exists c, NewConn JoinHostPort resolveUDPAddr Marshal m key i t = Ret (c, bool_decide (net = lit "tcp") && bool_decide (Flow m = [])) /\ ready (header c) c /\ metadata c = m /\ cmdKey c = key /\
    cachedProxyAddr c = a /\ (length (addonsBytes c) < 256)%nat /\ inp c = i /\ outp c = t /\ headerErr c = None /\ readHeaderDone c = false.
Proof.
  intros (Hn & Cl & Mx & K & Ad) Lk Ha. unfold NewConn. cbv zeta. rewrite Hn, Cl, andb_true_r.
  assert (exists ad, (if decide (Flow m <> []) then Marshal (Flow m) else Ret []) = Ret ad /\ (length ad < 256)%nat) as (ad & Ead & Lad).
  { destruct Ad as [-> |(ad & E & L)]; [exists []; rewrite decide_False by (intros X; by apply X); split; [done|cbn; lia]|]. case_decide as N; [by exists ad|]. exists []. cbn. split; [done|lia]. }
  assert ((if decide (net = lit "udp") then u ← resolveUDPAddr (JoinHostPort (Hostname (base (vbase m))) (mPort (base (vbase m)))); Ret (UDPAddr_AddrPort u) else Ret AddrPortZero) = Ret a) as ->.
  { destruct Ha as [[-> ->]|(-> & u & E & <-)]; [done|]. rewrite decide_True by done. by rewrite E. }
  rewrite bind_ret, Ead, bind_ret. eexists. split; [reflexivity|]. cbn. split_and!; try done. split; [|by cbn; rewrite Cl]. split; [done|apply K].
Qed.

(** Opening, for the server of a request and for the client of a response. *)
Lemma request_opens c key s : ready (header c) c -> known (vbase (metadata c)) -> Mux (metadata c) = false -> (length (addonsBytes c) < 256)%nat -> cmdKey c = key -> accepts key s ->
  opens s (header c) (seen (vbase (metadata c)) s).
Proof. intros [H _] K M L <- (A & B & C & D). by apply server_opens. Qed.
Lemma response_opens c c' a : same c c' -> IsClient (base (vbase (metadata c))) = true -> headerErr c = None -> readHeaderDone c = false -> (length a < 256)%nat ->
  opens c' ([x00; z2b (Z.of_nat (length a))] ++ a) c'.
Proof. intros (E & _ & _ & _ & Hd & He & _) Cl H1 H2 L. apply client_opens; [by rewrite E|congruence|congruence|done]. Qed.
Lemma stream_framed c : Network (vbase (metadata c)) = lit "tcp" -> framed c = false.
Proof. intros E. unfold framed. by rewrite E. Qed.
Lemma stream_bytes ds : (VWrite <$> ds) ≫= op_bytes false = concat ds.
Proof. induction ds as [|d ds IH]; [done|]. rewrite fmap_cons. cbn [mbind list_bind op_bytes concat]. by rewrite <- IH. Qed.
Lemma dgram_bytes os : os ≫= op_bytes true = concat (frame <$> (os ≫= op_dgrams)).
Proof.
  induction os as [|o os IH]; [done|]. cbn [mbind list_bind]. rewrite fmap_app, concat_app, <- IH. f_equal. destruct o; cbn [op_bytes op_dgrams fmap list_fmap concat]; by rewrite ?app_nil_r.
Qed.
Lemma dgrams_short os : Forall (op_ok true) os -> Forall short (os ≫= op_dgrams).
Proof.
  induction 1 as [|o os K _ IH]; [constructor|]. cbn [mbind list_bind]. apply Forall_app. split; [|exact IH]. destruct o as [b|b ad|items]; cbn in *; [by repeat constructor; apply K|by repeat constructor; apply K|apply K].
Qed.


End round.

(** * Concrete runs *)

Definition demoL_ParseIP (h : list byte) : list byte := [].
Definition demoL_IPString (ip : list byte) : list byte := ip.
Definition demoL_Join (h : list byte) (p : Z) : list byte := h.
Definition demoL_resolve (a : list byte) : res UDPAddr := Ret (MkUDPAddr [x0a; x00; x00; x01] 53).
Definition demoL_Marshal (f : list byte) : res (list byte) := Ret (x0a :: f).
Definition demoL_pool : BufferSource := pool_source init_pools init_pools_wf None.
#[local] Existing Instance demoL_pool.
Definition demoL_key : list byte := replicate 16 x31.
Definition demoL_meta (net : list byte) (client : bool) : VlMetadata :=
  MkVlM (MkVM (MkMeta MetadataTypeDomain (lit "example.org") 443 AddrZero 0 [] client) net [] []) [] false.
Definition demoL_server (i : stream) : Conn := MkVl (demoL_meta [] false) demoL_key AddrPortZero false None false [] i (sent []).
Definition demoL_NewConn := NewConn demoL_Join demoL_resolve demoL_Marshal.

Lemma demoL_client net : net = lit "tcp" \/ net = lit "udp" -> client_meta demoL_ParseIP demoL_Marshal (demoL_meta net true) net.
Proof. intros H. split_and!; try done; [split_and!; [split; [cbn; lia|cbn; lia]|done|done]|by left]. Qed.


Definition demoL_ops : list vop := [VWrite [x61]; VTo [] (lit "x:1"); VBatch [[x62; x63]; [x64]]].

(** A datagram of 65536 bytes is announced as an empty one, and its bytes are read as
    the frames that follow; [WriteBatch] rejects it. *)
Theorem vless_long_datagram d : length d = Z.to_nat 65536 ->
  let c := MkVl (demoL_meta (lit "udp") true) demoL_key AddrPortZero false None true [] [] (sent []) in
  t_out (outp (WriteTo demoL_ParseIP d [] c).1) = [x00; x00] ++ d /\ (WriteTo demoL_ParseIP d [] c).2 = Ret (Z.to_nat 65536, None) /\
  (WriteBatch demoL_ParseIP [d] c).2 = Ret (0%nat, Some (Errorf "vless udp payload too large: %d > %d")).
Proof.
  intros L. unfold WriteTo, write_framed, WriteBatch. rewrite L, Z2Nat.id by lia. change (be16 65536) with [x00; x00]. split_and!; [done|change (Ret (length d, @None error) = Ret (Z.to_nat 65536, None)); by rewrite L|].
  rewrite (decide_False (P := [d] = [])) by done. rewrite decide_True; [done|]. constructor. rewrite L, Z2Nat.id; lia.
Qed.

(** A first write that fails leaves the header to be sent again, behind the part of it
    that was sent. *)
Theorem vless_retry_repeats_header :
  let c := MkVl (demoL_meta (lit "tcp") true) demoL_key AddrPortZero false None false [] [] (MkTconn [] [Accept 5 (Some ErrDeadlineExceeded)] false) in
  let c' := (Write demoL_ParseIP [x61] (Write demoL_ParseIP [x61] c).1).1 in
  t_out (outp c') = take 5 (header demoL_ParseIP c) ++ header demoL_ParseIP c ++ [x61].
Proof. vm_compute. done. Qed.

(** A server connection answers without the response header that its clients read. *)
Theorem vless_server_sends_no_header :
  let s := demoL_server [] in
  let R := t_out (outp (Write demoL_ParseIP (lit "hello") s).1) in
  R = lit "hello" /\ (Read demoL_IPString 9 9 (MkVl (demoL_meta (lit "tcp") true) demoL_key AddrPortZero false None true [] R (sent []))).2 = Fail (Errorf "version %v is not supprted").
Proof. vm_compute. done. Qed.
