(* ===== verification/Bufio.v ===== *)
(** The pooled buffered reader (pkg/zeroalloc/bufio/bufioZero.go).

    The reader below is a list of events: bytes, errors, and gaps that end one of
    its reads; at the end of the list every read reports the end of input.  Any
    behaviour the [io.Reader] contract allows, short and empty reads and data with an
    error included, is such a list. *)

From S2P Require Import Prelude GoStrings GoState Common Pool.
From Stdlib Require Import Strings.Byte.

Definition ErrInvalidUnreadByte : error := Errorf "bufio: invalid use of UnreadByte".
Definition ErrBufferFull : error := Errorf "bufio: buffer full".
Definition ErrNegativeCount : error := Errorf "bufio: negative count".
Definition ErrNoProgress : error := Errorf "multiple Read calls return no data or error".

(** * The reader below *)

Inductive ev := EB (b : byte) | EErr (e : error) | EGap.
(** [rd.Read(p)] with [len(p) = k]: the bytes, the error, and the events left. *)
Fixpoint src_Read (k : nat) (s : list ev) : list byte * option error * list ev :=
  match k with
  | O => ([], None, s)
  | S k =>
      match s with
      | [] => ([], Some EOF, [])
      | EGap :: s => ([], None, s)
      | EErr e :: s => ([], Some e, s)
      | EB b :: s => let '(x, e, s) := src_Read k s in (b :: x, e, s)
      end
  end.

(** * The buffered reader *)

(** [rd] is [None] after [Put]; [lastByte] is [None] for -1. *)
Record Reader := MkReader { buf : list byte; rd : option (list ev); r : nat; w : nat; err : option error; lastByte : option byte }.

Definition minReadBufferSize : nat := 16.
Definition maxConsecutiveEmptyReads : nat := 100.

(** [NewReaderSize] on a reader that is not itself a buffered one. *)
Definition NewReaderSize `{BufferSource} (s : list ev) (size : nat) : Reader :=
  MkReader (src_get (Nat.max size minReadBufferSize)) (Some s) 0 0 None None.

Definition set_win (a b : nat) (x : Reader) : Reader := MkReader (buf x) (rd x) a b (err x) (lastByte x).
Definition set_err (e : option error) (x : Reader) : Reader := MkReader (buf x) (rd x) (r x) (w x) e (lastByte x).
Definition set_last (l : option byte) (x : Reader) : Reader := MkReader (buf x) (rd x) (r x) (w x) (err x) l.
Definition set_buf (l : list byte) (x : Reader) : Reader := MkReader l (rd x) (r x) (w x) (err x) (lastByte x).
Definition set_rd (s : list ev) (x : Reader) : Reader := MkReader (buf x) (Some s) (r x) (w x) (err x) (lastByte x).

(** [Put]: the buffer that goes back to the pool, if any. *)
Definition Put (x : Reader) : Reader * option (list byte) :=
  if decide (buf x = []) then (x, None) else (MkReader [] None 0 0 None None, Some (buf x)).

Definition Buffered (x : Reader) : nat := w x - r x.
Definition window (x : Reader) : list byte := drop (r x) (take (w x) (buf x)).

(** A read of the source; after [Put] it is a nil dereference. *)
Definition rd_Read (k : nat) : st Reader (list byte * option error) := fun x =>
  match rd x with
  | None => (x, Panic)
  | Some s => let '(d, e, s) := src_Read k s in (set_rd s x, Ret (d, e))
  end.

(** The loop of [fill]: at most [i] reads behind the window. *)
Fixpoint fill_loop (i : nat) : st Reader unit :=
  match i with
  | O => modify (set_err (Some ErrNoProgress))
  | S i =>
      x ← get;
      '(d, e) ← rd_Read (length (buf x) - w x);
      x ← get;
      buf' ← lift (write_at (buf x) (w x) d);
      _ ← modify (fun x => set_win (r x) (w x + length d) (set_buf buf' x));
      match e with
      | Some e => modify (set_err (Some e))
      | None => if decide (0 < length d)%nat then mret tt else fill_loop i
      end
  end.
Definition fill : st Reader unit :=
  x ← get;
  _ ← (if decide (0 < r x)%nat then
         d ← lift (slice (buf x) (r x) (w x));
         '(b, _) ← lift (copy_at (buf x) 0 d);
         modify (fun x => set_win 0 (w x - r x) (set_buf b x))
       else mret tt);
  x ← get;
  if decide (length (buf x) <= w x)%nat then lift Panic else fill_loop maxConsecutiveEmptyReads.

Definition readErr : st Reader (option error) := x ← get; _ ← modify (set_err None); mret (err x).

(** Loops whose rounds each make progress carry fuel that is proved to be enough. *)
Fixpoint peek_loop (fuel n : nat) : st Reader unit :=
  x ← get;
  if bool_decide (Buffered x < n)%nat && bool_decide (Buffered x < length (buf x))%nat && bool_decide (err x = None) then
    match fuel with O => lift Panic | S fuel => _ ← fill; peek_loop fuel n end
  else mret tt.
Definition Peek (n : Z) : st Reader (list byte * option error) :=
  if decide (n < 0) then mret ([], Some ErrNegativeCount) else
  let n := Z.to_nat n in
  _ ← modify (set_last None);
  x ← get;
  _ ← peek_loop (S (length (buf x))) n;
  x ← get;
  if decide (length (buf x) < n)%nat then d ← lift (slice (buf x) (r x) (w x)); mret (d, Some ErrBufferFull) else
  '(n, e) ← (if decide (Buffered x < n)%nat then e ← readErr; mret (Buffered x, Some (default ErrBufferFull e)) else mret (n, None));
  d ← lift (slice (buf x) (r x) (r x + n));
  mret (d, e).

Fixpoint discard_loop (fuel n remain : nat) : st Reader (nat * option error) :=
  match fuel with
  | O => lift Panic
  | S fuel =>
      x ← get;
      _ ← (if decide (Buffered x = 0%nat) then fill else mret tt);
      x ← get;
      let skip := Nat.min (Buffered x) remain in
      _ ← modify (fun x => set_win (r x + skip) (w x) x);
      let remain := (remain - skip)%nat in
      if decide (remain = 0%nat) then mret (n, None) else
      x ← get;
      match err x with
      | Some _ => e ← readErr; mret ((n - remain)%nat, e)
      | None => discard_loop fuel n remain
      end
  end.
Definition Discard (n : Z) : st Reader (nat * option error) :=
  if decide (n < 0) then mret (0%nat, Some ErrNegativeCount)
  else if decide (n = 0) then mret (0%nat, None)
  else discard_loop (S (Z.to_nat n)) (Z.to_nat n) (Z.to_nat n).

(** [Read(p)] with [len(p) = k]: the bytes put into [p]. *)
Definition copy_out (k : nat) : st Reader (list byte * option error) :=
  x ← get;
  d ← lift (slice (buf x) (r x) (w x));
  let p := take k d in
  _ ← modify (fun x => set_win (r x + length p) (w x) x);
  x ← get;
  b ← (match r x with O => lift Panic | S i => lift (index (buf x) i) end);
  _ ← modify (set_last (Some b));
  mret (p, None).
Definition Read (k : nat) : st Reader (list byte * option error) :=
  x ← get;
  if decide (k = 0%nat) then (if decide (0 < Buffered x)%nat then mret ([], None) else e ← readErr; mret ([], e)) else
  if decide (r x = w x) then
    if decide (err x <> None) then e ← readErr; mret ([], e) else
    if decide (length (buf x) <= k)%nat then
      '(d, e) ← rd_Read k;
      _ ← (match last d with Some b => modify (set_last (Some b)) | None => mret tt end);
      mret (d, e)
    else
      _ ← modify (set_win 0 0);
      '(d, e) ← rd_Read (length (buf x));
      x ← get;
      b ← lift (write_at (buf x) 0 d);
      _ ← modify (fun x => set_err e (set_buf b x));
      if decide (length d = 0%nat) then e ← readErr; mret ([], e) else
      _ ← modify (fun x => set_win (r x) (w x + length d) x);
      copy_out k
  else copy_out k.

Fixpoint byte_loop (fuel : nat) : st Reader (option error) :=
  x ← get;
  if decide (r x = w x) then
    match err x with
    | Some _ => readErr
    | None => match fuel with O => lift Panic | S fuel => _ ← fill; byte_loop fuel end
    end
  else mret None.
Definition ReadByte : st Reader (byte * option error) :=
  e ← byte_loop 1;
  match e with
  | Some e => mret (x00, Some e)
  | None =>
      x ← get;
      c ← lift (index (buf x) (r x));
      _ ← modify (fun x => set_last (Some c) (set_win (r x + 1) (w x) x));
      mret (c, None)
  end.

Definition UnreadByte : st Reader (option error) :=
  x ← get;
  match lastByte x with
  | None => mret (Some ErrInvalidUnreadByte)
  | Some c =>
      if decide (r x = 0%nat /\ (0 < w x)%nat) then mret (Some ErrInvalidUnreadByte) else
      _ ← modify (fun x => if decide (0 < r x)%nat then set_win (r x - 1) (w x) x else set_win (r x) 1 x);
      x ← get;
      b ← lift (set_at (buf x) (r x) c);
      _ ← modify (fun x => set_last None (set_buf b x));
      mret None
  end.

(** [bytes.IndexByte]. *)
Fixpoint IndexByte (d : list byte) (c : byte) : option nat :=
  match d with [] => None | x :: d => if decide (x = c) then Some 0%nat else S <$> IndexByte d c end.
Fixpoint slice_loop (fuel : nat) (delim : byte) (s : nat) : st Reader (list byte * option error) :=
  x ← get;
  d ← lift (slice (buf x) (r x + s) (w x));
  match IndexByte d delim with
  | Some i =>
      let i := (i + s)%nat in
      line ← lift (slice (buf x) (r x) (r x + i + 1));
      _ ← modify (fun x => set_win (r x + i + 1) (w x) x);
      mret (line, None)
  | None =>
      match err x with
      | Some _ =>
          line ← lift (slice (buf x) (r x) (w x));
          _ ← modify (fun x => set_win (w x) (w x) x);
          e ← readErr;
          mret (line, e)
      | None =>
          if decide (length (buf x) <= Buffered x)%nat then
            _ ← modify (fun x => set_win (w x) (w x) x);
            mret (buf x, Some ErrBufferFull)
          else
            match fuel with O => lift Panic | S fuel => _ ← fill; slice_loop fuel delim (Buffered x) end
      end
  end.
Definition ReadSlice (delim : byte) : st Reader (list byte * option error) :=
  x ← get;
  '(line, e) ← slice_loop (S (length (buf x))) delim 0;
  _ ← (match last line with Some b => modify (set_last (Some b)) | None => mret tt end);
  mret (line, e).
