(* ===== verification/BufioSpec.v ===== *)
(** The buffered reader against its specification: a queue of bytes and errors in the
    order in which the reader below produced them. *)

From S2P Require Import Prelude GoStrings GoState Common Pool Bufio.
From Stdlib Require Import Strings.Byte.

(** * What the caller still has to see *)

Abbreviation item := (byte + error)%type.
Fixpoint vis (s : list ev) : list item :=
  match s with [] => [] | EB b :: s => inl b :: vis s | EErr e :: s => inr e :: vis s | EGap :: s => vis s end.
(** An error reported before the items [Q]: one of the reader below, or the end of
    its input, or the reader's own report that there is no progress. *)
Definition reports (e : option error) (E Q : list item) : Prop :=
  match e with
  | None => E = []
  | Some e => E = [inr e] \/ E = [] /\ (e = EOF /\ Q = [] \/ e = ErrNoProgress)
  end.

Definition wf (x : Reader) : Prop := (exists s, rd x = Some s) /\ (r x <= w x <= length (buf x))%nat /\ (16 <= length (buf x))%nat.
Definition events (x : Reader) : list item := vis (default [] (rd x)).
Definition abs (x : Reader) (P : list item) : Prop := exists E, reports (err x) E (events x) /\ P = (inl <$> window x) ++ E ++ events x.

Lemma src_Read_ok k : forall s, let '(d, e, s') := src_Read k s in (length d <= k)%nat /\ exists E, vis s = (inl <$> d) ++ E ++ vis s' /\ reports e E (vis s').
Proof.
  induction k as [|k IH]; intros s; cbn [src_Read]; [split; [done|by exists []]|].
  destruct s as [|[b|e|] s].
  - split; [cbn; lia|]. exists []. split; [done|]. right. split; [done|by left].
  - specialize (IH s). destruct (src_Read k s) as [[d e] s']. destruct IH as (L & E & V & R). split; [cbn; lia|]. exists E. cbn. by rewrite V.
  - split; [cbn; lia|]. exists [inr e]. split; [done|by left].
  - split; [cbn; lia|]. by exists [].
Qed.

Lemma rd_Read_eq x s k d e s' : rd x = Some s -> src_Read k s = (d, e, s') -> rd_Read k x = (set_rd s' x, Ret (d, e)).
Proof. intros E1 E2. unfold rd_Read. by rewrite E1, E2. Qed.

Lemma length_window x : wf x -> length (window x) = Buffered x.
Proof. intros (_ & L & _). unfold window, Buffered. rewrite length_drop, length_take. lia. Qed.

(** The buffer around the window. *)
Lemma buf_split x : wf x -> buf x = take (r x) (buf x) ++ window x ++ drop (w x) (buf x).
Proof.
  intros (_ & L & _). unfold window. rewrite <- (take_drop (w x) (buf x)) at 1. rewrite app_assoc. f_equal. rewrite <- (take_drop (r x) (take (w x) (buf x))) at 1. rewrite take_take. by rewrite Nat.min_l by lia.
Qed.
Lemma slice_window x n : wf x -> (n <= Buffered x)%nat -> slice (buf x) (r x) (r x + n) = Ret (take n (window x)).
Proof.
  intros W L. pose proof W as (_ & Lw & _). unfold Buffered in L. rewrite slice_eq by lia. unfold window. rewrite !take_drop_commute, take_take. do 3 f_equal. lia.
Qed.
Lemma slice_window_all x : wf x -> slice (buf x) (r x) (w x) = Ret (window x).
Proof.
  intros W. pose proof (slice_window x (Buffered x) W ltac:(lia)) as E. rewrite firstn_all2 in E by (by rewrite length_window). rewrite <- E. f_equal. destruct W as (_ & L & _). unfold Buffered. lia.
Qed.
Lemma window_empty x : wf x -> r x = w x <-> window x = [].
Proof. intros W. rewrite <- length_zero_iff_nil, length_window by done. destruct W as (_ & L & _). unfold Buffered. lia. Qed.

(** ** Moving the window *)

Lemma window_skip x n : wf x -> (n <= Buffered x)%nat -> window (set_win (r x + n) (w x) x) = drop n (window x).
Proof. intros W L. unfold window. cbn. by rewrite drop_drop. Qed.
Lemma wf_skip x n : wf x -> (n <= Buffered x)%nat -> wf (set_win (r x + n) (w x) x).
Proof. intros (S & L & B) Ln. unfold Buffered in *. split_and!; cbn; [done|lia|lia|lia]. Qed.

(** Bytes that the caller takes from the front of the window. *)
Lemma abs_skip x n P : wf x -> (n <= Buffered x)%nat -> abs x P -> exists P', P = (inl <$> take n (window x)) ++ P' /\ abs (set_win (r x + n) (w x) x) P'.
Proof.
  intros W L (E & R & ->). exists ((inl <$> drop n (window x)) ++ E ++ events x). split; [by rewrite (app_assoc (inl <$> take n _)), <- fmap_app, take_drop|].
  exists E. split; [done|]. by rewrite window_skip.
Qed.

(** The pending error, once the bytes before it are gone. *)
Lemma readErr_ok x P : wf x -> window x = [] -> abs x P -> exists E P', readErr x = (set_err None x, Ret (err x)) /\ P = E ++ P' /\ reports (err x) E P' /\ abs (set_err None x) P' /\ wf (set_err None x).
Proof.
  intros W Ew (E & R & ->). exists E, (events x). rewrite Ew. split_and!; try done. exists []. split; [done|]. change (window (set_err None x)) with (window x). by rewrite Ew.
Qed.

(** ** Filling *)

Definition filled (x x' : Reader) : Prop :=
  wf x' /\ (forall P, abs x P -> abs x' P) /\ lastByte x' = lastByte x /\ length (buf x') = length (buf x) /\
  exists d, window x' = window x ++ d /\ (d <> [] \/ err x' <> None).

Lemma window_append b s a v d e l : (a <= v)%nat -> (v + length d <= length b)%nat ->
  window (MkReader (take v b ++ d ++ drop (v + length d) b) s a (v + length d) e l) = drop a (take v b) ++ d.
Proof.
  intros La Lb. unfold window. cbn. rewrite app_assoc. rewrite (take_app_length' (take v b ++ d)) by (rewrite length_app, length_take; lia). by rewrite drop_app_le by (rewrite length_take; lia).
Qed.

Lemma fill_loop_ok i : forall x, wf x -> err x = None -> (w x < length (buf x))%nat -> exists x', fill_loop i x = (x', Ret tt) /\ filled x x'.
Proof.
  induction i as [|i IH]; intros x W He L; cbn [fill_loop].
  { exists (set_err (Some ErrNoProgress) x). split; [done|]. split_and!; try done.
    - intros P (E & R & ->). rewrite He in R. cbn in R. subst E. exists []. split; [|done]. right. split; [done|by right].
    - exists []. rewrite app_nil_r. split; [done|by right]. }
  st_pure. pose proof W as ([s Es] & Lw & Lb). pose proof (src_Read_ok (length (buf x) - w x) s) as R. destruct (src_Read _ s) as [[d e] s'] eqn:Er. destruct R as (Ld & E & V & R).
  rewrite (st_bind_Ret _ _ _ _ _ (rd_Read_eq x s _ _ _ _ Es Er)). cbv beta iota. st_pure. change (buf (set_rd s' x)) with (buf x). change (w (set_rd s' x)) with (w x).
  assert (write_at (buf x) (w x) d = Ret (take (w x) (buf x) ++ d ++ drop (w x + length d) (buf x))) as Ew.
  { rewrite <- (take_drop (w x) (buf x)) at 1. rewrite write_at_app; [by rewrite <- app_assoc, drop_drop|rewrite length_take; lia|rewrite length_drop; lia]. }
  st_lift ltac:(exact Ew). st_pure. set (x1 := set_win _ _ _). assert (Wx : window x1 = window x ++ d) by (apply window_append; cbn; lia).
  assert (W1 : wf x1). { split_and!; cbn; rewrite ?length_app, ?length_take, ?length_drop; [by exists s'|lia|lia|lia]. }
  assert (L1 : length (buf x1) = length (buf x)) by (cbn; rewrite !length_app, length_take, length_drop; lia).
  assert (EV : events x = vis s) by (unfold events; by rewrite Es). assert (EV1 : events x1 = vis s') by done.
  destruct e as [e|].
  { exists (set_err (Some e) x1). split; [done|]. split_and!; try done.
    - intros P (E0 & R0 & ->). rewrite He in R0. cbn in R0. subst E0. exists E. split; [exact R|]. change (window (set_err _ x1)) with (window x1). change (events (set_err _ x1)) with (vis s'). rewrite EV, V, Wx, fmap_app. by rewrite <- app_assoc.
    - exists d. split; [exact Wx|by right]. }
  cbn in R. subst E. assert (A1 : forall P, abs x P -> abs x1 P).
  { intros P (E0 & R0 & ->). rewrite He in R0. cbn in R0. subst E0. exists []. cbn [err x1 set_win set_buf set_rd]. rewrite He. split; [done|]. rewrite EV, V, Wx, EV1, fmap_app. by rewrite <- app_assoc. }
  case_decide as Hd.
  { exists x1. split; [done|]. split_and!; try done. exists d. split; [exact Wx|]. left. intros Z. rewrite Z in Hd. cbn in Hd. lia. }
  destruct d; [|cbn in Hd; lia]. destruct (IH x1 W1 He) as (x2 & E2 & W2 & A2 & Ll & Lb2 & d2 & Wd2 & N2); [rewrite L1; cbn; lia|].
  exists x2. split; [exact E2|]. split_and!; [done|auto|done|lia|]. exists d2. split; [|done]. by rewrite Wd2, Wx, app_nil_r.
Qed.

Lemma b_fill_ok x : wf x -> err x = None -> (Buffered x < length (buf x))%nat -> exists x', fill x = (x', Ret tt) /\ filled x x'.
Proof.
  intros W He L. unfold fill. st_pure. pose proof W as ([s Es] & Lw & Lb). case_decide as Hr.
  - erewrite st_bind_Ret. 2:{ st_lift ltac:(by apply slice_window_all). erewrite st_lift_Ret; [|apply copy_at_0; rewrite length_window by done; unfold Buffered; lia]. cbv beta iota. reflexivity. }
    st_pure. set (x1 := set_win _ _ _). pose proof (length_window x W) as Lwin. unfold Buffered in *.
    assert (Wx : window x1 = window x). { unfold window at 1. cbn. rewrite drop_0, take_app_length' by lia. done. }
    assert (W1 : wf x1). { split_and!; cbn; rewrite ?length_app, ?length_drop; [by exists s|lia|lia|lia]. }
    assert (L1 : length (buf x1) = length (buf x)) by (cbn; rewrite length_app, length_drop; lia).
    rewrite decide_False by (rewrite L1; cbn; lia). destruct (fill_loop_ok maxConsecutiveEmptyReads x1 W1 He) as (x2 & E2 & W2 & A2 & Ll & Lb2 & d & Wd & N); [rewrite L1; cbn; lia|].
    exists x2. split; [exact E2|]. split_and!; [done| |done|lia|exists d; by rewrite Wd, Wx]. intros P (E & R & ->). apply A2. exists E. split; [exact R|]. by rewrite Wx.
  - erewrite st_bind_Ret; [|reflexivity]. st_pure. unfold Buffered in L. rewrite decide_False by lia. apply fill_loop_ok; [done|done|lia].
Qed.

(** * Operations *)

(** Every method keeps the invariant and the size of the buffer. *)
Definition keeps (x x' : Reader) : Prop := wf x' /\ length (buf x') = length (buf x).
Definition newest (d : list byte) (l : option byte) : option byte := match last d with Some b => Some b | None => l end.

Lemma copy_out_ok x k P : wf x -> (0 < k)%nat -> window x <> [] -> abs x P -> exists x' d P', copy_out k x = (x', Ret (d, None)) /\ keeps x x' /\ abs x' P' /\
  P = (inl <$> d) ++ P' /\ (0 < length d <= k)%nat /\ lastByte x' = newest d (lastByte x).
Proof.
  intros W K N A. unfold copy_out. st_pure. st_lift ltac:(by apply slice_window_all). st_pure.
  set (d := take k (window x)). assert (Ld : (0 < length d <= k)%nat). { unfold d. rewrite length_take. destruct (window x); [done|cbn; lia]. }
  assert (Lb : (length d <= Buffered x)%nat) by (unfold d; rewrite length_take, length_window; [lia|done]).
  destruct (abs_skip x (length d) P W Lb A) as (P' & EP & A'). assert (Ed : take (length d) (window x) = d) by (unfold d; rewrite length_take, <- take_take, firstn_all; done).
  pose proof W as (S & Lw & L16). unfold Buffered in Lb. set (x1 := set_win _ _ x) in *. st_pure. destruct (r x1) as [|i] eqn:Ei; [cbn in Ei; lia|]. cbn in Ei.
  assert (exists b, buf x !! i = Some b /\ last d = Some b) as (b & Eb & El).
  { assert (H : forall j, (j < length d)%nat -> d !! j = buf x !! (r x + j)%nat).
    { intros j Hj. unfold d, window. rewrite lookup_take_lt by lia. rewrite lookup_drop, lookup_take_lt by lia. done. }
    rewrite last_lookup. specialize (H (Nat.pred (length d)) ltac:(lia)). rewrite H. replace (r x + Nat.pred (length d))%nat with i by lia.
    destruct (buf x !! i) as [b|] eqn:E; [by exists b|]. apply lookup_ge_None in E. lia. }
  st_lift ltac:(unfold index; change (buf x1) with (buf x); by rewrite Eb). st_pure. exists (set_last (Some b) x1), d, P'. split; [done|].
  split; [split; [by apply (wf_skip x)|done]|]. rewrite Ed in EP. split_and!; try done; [lia|lia|]. unfold newest. by rewrite El.
Qed.

Lemma b_Read_ok x k P : wf x -> abs x P -> exists x' d e P' E, Read k x = (x', Ret (d, e)) /\ keeps x x' /\ abs x' P' /\
  P = (inl <$> d) ++ E ++ P' /\ reports e E P' /\ (length d <= k)%nat /\ lastByte x' = newest d (lastByte x).
Proof.
  intros W A. unfold Read. st_pure. pose proof W as ([s Es] & Lw & L16). destruct (decide (k = 0%nat)) as [->|Hk].
  { case_decide as Hb.
    - exists x, [], None, P, []. split_and!; try done.
    - assert (Ew : window x = []) by (apply length_zero_iff_nil; rewrite length_window by done; lia). destruct (readErr_ok x P W Ew A) as (E & P' & Er & -> & R & A' & W').
      rewrite (st_bind_Ret _ _ _ _ _ Er). exists (set_err None x), [], (err x), P', E. split_and!; try done. }
  case_decide as Hr.
  2:{ assert (N : window x <> []) by (by rewrite <- window_empty). destruct (copy_out_ok x k P W ltac:(lia) N A) as (x' & d & P' & E1 & K & A' & EP & Ld & Ll). exists x', d, None, P', []. split_and!; try done. lia. }
  assert (Ew : window x = []) by (by apply window_empty). case_decide as He.
  { destruct (readErr_ok x P W Ew A) as (E & P' & Er & -> & R & A' & W'). rewrite (st_bind_Ret _ _ _ _ _ Er). exists (set_err None x), [], (err x), P', E. split_and!; try done. cbn. lia. }
  pose proof He as He'. destruct A as (E0 & R0 & EP). rewrite He' in R0. cbn in R0. subst E0. rewrite Ew in EP. cbn [app fmap list_fmap] in EP. unfold events in EP. rewrite Es in EP. cbn in EP.
  case_decide as Hl.
  - pose proof (src_Read_ok k s) as H. destruct (src_Read k s) as [[d e] s'] eqn:Er. destruct H as (Ld & E & V & R). rewrite (st_bind_Ret _ _ _ _ _ (rd_Read_eq x s _ _ _ _ Es Er)). cbv beta iota.
    assert (Ex : exists x', (match last d with Some b => modify (set_last (Some b)) | None => mret tt end) (set_rd s' x) = (x', Ret tt) /\ keeps x x' /\ window x' = [] /\ err x' = None /\ events x' = vis s' /\ lastByte x' = newest d (lastByte x)).
    { unfold newest. destruct (last d) as [b|]; (eexists; split; [reflexivity|]); (split; [split; [|done]|split_and!; try done]); split_and!; cbn; try lia; by eexists. }
    destruct Ex as (x' & E1 & K & Wx & Ex & Ev & Ll). rewrite (st_bind_Ret _ _ _ _ _ E1). exists x', d, e, (vis s'), E. split; [done|]. split; [done|]. split; [|split_and!; try done; congruence].
    exists []. rewrite Ex, Wx, Ev. done.
  - st_pure. pose proof (src_Read_ok (length (buf x)) s) as H. destruct (src_Read (length (buf x)) s) as [[d e] s'] eqn:Er. destruct H as (Ld & E & V & R).
    rewrite (st_bind_Ret _ _ _ _ _ (rd_Read_eq (set_win 0 0 x) s _ _ _ _ Es Er)). cbv beta iota. st_pure. st_lift ltac:(apply write_at_0; exact Ld). st_pure.
    set (x1 := set_err _ _). change (buf (set_rd s' (set_win 0 0 x))) with (buf x) in x1. assert (Lb1 : length (buf x1) = length (buf x)) by (cbn; rewrite length_app, length_drop; lia).
    assert (W1 : wf x1) by (split_and!; cbn; rewrite ?length_app, ?length_drop; try lia; by exists s'). assert (Ev1 : events x1 = vis s') by done.
    case_decide as Hd.
    { destruct d; [|done]. destruct (readErr_ok x1 P W1) as (E' & P' & Ee & EP' & R' & A' & W'); [done|exists E; split; [exact R|]; by rewrite EP, V, Ev1|]. rewrite (st_bind_Ret _ _ _ _ _ Ee). exists (set_err None x1), [], (err x1), P', E'. split_and!; try done. cbn; lia. }
    st_pure. set (x2 := set_win _ _ x1). assert (Wx2 : window x2 = d). { unfold window. cbn. rewrite drop_0. by apply take_app_length. }
    assert (W2 : wf x2) by (split_and!; cbn; rewrite ?length_app, ?length_drop; try lia; by exists s'). assert (Nd : window x2 <> []) by (rewrite Wx2; by destruct d).
    destruct (copy_out_ok x2 k P W2 ltac:(lia) Nd) as (x' & d' & P' & E1 & [K1 K2] & A' & EP' & Ld' & Ll).
    { exists E. split; [exact R|]. rewrite Wx2, EP, V. done. }
    exists x', d', None, P', []. split; [exact E1|]. split; [split; [done|rewrite K2; exact Lb1]|]. split; [done|]. split; [done|]. split; [done|]. split; [lia|done].
Qed.

Lemma filled_err x x' : filled x x' -> window x' <> window x \/ err x' <> None.
Proof. intros (_ & _ & _ & _ & d & -> & [N|N]); [left|by right]. intros E. apply N. rewrite <- (app_nil_r (window x)) in E at 2. by apply app_inv_head in E. Qed.

Lemma byte_loop_ok x P : wf x -> abs x P ->
  (exists x', byte_loop 1 x = (x', Ret None) /\ keeps x x' /\ abs x' P /\ window x' <> [] /\ lastByte x' = lastByte x) \/
  (exists x' e E P', byte_loop 1 x = (x', Ret (Some e)) /\ keeps x x' /\ abs x' P' /\ P = E ++ P' /\ reports (Some e) E P' /\ lastByte x' = lastByte x).
Proof.
  assert (H : forall n y, wf y -> abs y P -> length (buf y) = length (buf x) -> lastByte y = lastByte x -> window y <> [] \/ err y <> None ->
    (exists x', byte_loop n y = (x', Ret None) /\ keeps x x' /\ abs x' P /\ window x' <> [] /\ lastByte x' = lastByte x) \/
    (exists x' e E P', byte_loop n y = (x', Ret (Some e)) /\ keeps x x' /\ abs x' P' /\ P = E ++ P' /\ reports (Some e) E P' /\ lastByte x' = lastByte x)).
  { intros n y W A Lb Ll N. destruct n; cbn [byte_loop]; (rewrite (st_bind_Ret get _ _ _ _ eq_refl)); case_decide as Hr.
    all: try (left; exists y; split_and!; try done; by rewrite <- window_empty).
    all: apply window_empty in Hr; [|done]; destruct N as [N|N]; [done|]; destruct (err y) as [e|] eqn:Ee; [|done]; right; destruct (readErr_ok y P W Hr A) as (E & P' & Er & -> & R & A' & W').
    all: rewrite Ee in R, Er; exists (set_err None y), e, E, P'; split_and!; try done. }
  intros W A. cbn [byte_loop]. rewrite (st_bind_Ret get _ _ _ _ eq_refl). case_decide as Hr.
  2:{ left. exists x. split_and!; try done. by rewrite <- window_empty. }
  destruct (err x) as [e|] eqn:Ee.
  { right. apply window_empty in Hr; [|done]. destruct (readErr_ok x P W Hr A) as (E & P' & Er & -> & R & A' & W'). rewrite Ee in R, Er. exists (set_err None x), e, E, P'. split_and!; try done. }
  pose proof W as (_ & Lw & L16). destruct (b_fill_ok x W Ee) as (y & Ey & Fy); [unfold Buffered; lia|]. rewrite (st_bind_Ret _ _ _ _ _ Ey). pose proof (filled_err _ _ Fy) as N. destruct Fy as (Wy & Ay & Ly & Lb & _).
  apply (H 0%nat y); [done|by apply Ay|done|done|]. apply window_empty in Hr; [|done]. by rewrite Hr in N.
Qed.

Lemma ReadByte_ok x P : wf x -> abs x P -> exists x' c e P' E, ReadByte x = (x', Ret (c, e)) /\ keeps x x' /\ abs x' P' /\
  (e = None /\ P = inl c :: P' /\ lastByte x' = Some c \/ e <> None /\ P = E ++ P' /\ reports e E P' /\ lastByte x' = lastByte x).
Proof.
  intros W A. unfold ReadByte. destruct (byte_loop_ok x P W A) as [(y & Ey & [Wy Ky] & Ay & N & Ll)|(y & e & E & P' & Ey & K & Ay & EP & R & Ll)]; rewrite (st_bind_Ret _ _ _ _ _ Ey).
  2:{ exists y, x00, (Some e), P', E. split_and!; try done. by right. }
  st_pure. pose proof (length_window y Wy) as Lw. assert (B : (1 <= Buffered y)%nat) by (destruct (window y); [done|cbn in Lw; lia]).
  destruct (window y) as [|c l] eqn:Ew; [done|]. pose proof Wy as (_ & Lr & _).
  assert (buf y !! r y = Some c) as Ec. { rewrite (buf_split y Wy), Ew. rewrite lookup_app_r by (rewrite length_take; lia). rewrite length_take, Nat.min_l, Nat.sub_diag by lia. done. }
  st_lift ltac:(unfold index; by rewrite Ec). st_pure. destruct (abs_skip y 1 P Wy B Ay) as (P' & EP & A'). rewrite Ew in EP. cbn in EP.
  exists (set_last (Some c) (set_win (r y + 1) (w y) y)), c, None, P', []. split; [done|]. split; [split; [by apply (wf_skip y)|done]|]. split; [exact A'|]. left. done.
Qed.

Lemma UnreadByte_ok x P : wf x -> abs x P -> exists x' e P', UnreadByte x = (x', Ret e) /\ keeps x x' /\ abs x' P' /\
  (e = None /\ (exists c, lastByte x = Some c /\ P' = inl c :: P) /\ lastByte x' = None \/ e = Some ErrInvalidUnreadByte /\ P' = P /\ x' = x /\ (lastByte x = None \/ r x = 0%nat)).
Proof.
  intros W A. unfold UnreadByte. st_pure. destruct (lastByte x) as [c|] eqn:El.
  2:{ exists x, (Some ErrInvalidUnreadByte), P. split_and!; try done. right. split_and!; try done. by left. }
  case_decide as Hd.
  { exists x, (Some ErrInvalidUnreadByte), P. split_and!; try done. right. split_and!; try done. right. lia. }
  st_pure. pose proof W as ([s Es] & Lw & L16). assert (Hw : w x = 0%nat \/ (0 < r x)%nat) by lia.
  set (x1 := if decide (0 < r x)%nat then _ else _). assert (B1 : buf x1 = buf x /\ rd x1 = rd x /\ err x1 = err x /\ (r x1 < w x1)%nat /\ (w x1 <= length (buf x))%nat /\ drop (S (r x1)) (take (w x1) (buf x)) = window x).
  { unfold x1. case_decide; cbn; split_and!; try done; try lia.
    - unfold window. do 2 f_equal. lia.
    - unfold window. replace (w x) with 0%nat by lia. replace (r x) with 0%nat by lia. rewrite take_0, drop_nil. apply drop_ge. rewrite length_take. lia. }
  destruct B1 as (Eb & Ed & Ee & Lr & Lw1 & Edr). st_pure. assert (exists b, set_at (buf x1) (r x1) c = Ret b /\ length b = length (buf x) /\ drop (r x1) (take (w x1) b) = c :: window x) as (b & Es1 & Lb & Eb1).
  { unfold set_at. rewrite Eb, decide_True by lia. eexists. split; [reflexivity|]. split; [apply length_insert|]. rewrite take_insert_lt, <- Edr by lia.
    assert (r x1 < length (take (w x1) (buf x)))%nat by (rewrite length_take; lia). rewrite (drop_S _ c (r x1)) by (by apply list_lookup_insert_eq). f_equal. apply drop_insert_lt. lia. }
  st_lift ltac:(exact Es1). st_pure. exists (set_last None (set_buf b x1)), None, (inl c :: P). split; [done|]. split; [split; [split_and!; cbn; rewrite ?Ed, ?Lb; try lia; by exists s|exact Lb]|].
  split; [|left; split_and!; try done; by exists c]. destruct A as (E & R & ->). exists E. change (events (set_last None (set_buf b x1))) with (vis (default [] (rd x1))). rewrite Ed. cbn [err set_last set_buf]. rewrite Ee. split; [exact R|].
  assert (window (set_last None (set_buf b x1)) = c :: window x) as -> by exact Eb1. done.
Qed.

(** Not at an error that is due: [Discard] would read on behind it. *)
Definition may_discard (x : Reader) : Prop := err x = None \/ window x <> [].

Lemma discard_loop_ok fuel : forall n remain x P, wf x -> abs x P -> may_discard x -> (0 < remain < fuel)%nat -> (remain <= n)%nat ->
  exists x' m e y E P', discard_loop fuel n remain x = (x', Ret (m, e)) /\ keeps x x' /\ abs x' P' /\ P = (inl <$> y) ++ E ++ P' /\ (m + remain = n + length y)%nat /\
    reports e E P' /\ (e = None <-> m = n) /\ (m <= n)%nat /\ lastByte x' = lastByte x.
Proof.
  induction fuel as [|fuel IH]; intros n remain x P W A M Hf Hn; [lia|]. cbn [discard_loop]. st_pure.
  assert (exists x1, (if decide (Buffered x = 0%nat) then fill else mret tt) x = (x1, Ret tt) /\ keeps x x1 /\ abs x1 P /\ lastByte x1 = lastByte x /\ (window x1 <> [] \/ err x1 <> None)) as (x1 & E1 & [W1 L1] & A1 & Ll & N).
  { case_decide as Hb.
    - assert (Ew : window x = []) by (apply length_zero_iff_nil; by rewrite length_window). assert (err x = None) by (by destruct M). pose proof W as (_ & Lw & L16).
      destruct (b_fill_ok x W) as (x1 & E1 & F); [done|lia|]. exists x1. pose proof (filled_err _ _ F) as N. destruct F as (W1 & A1 & Ll & Lb & _). rewrite Ew in N. split_and!; try done. by apply A1.
    - exists x. split_and!; try done. left. intros Ew. apply Hb. by rewrite <- length_window, Ew. }
  rewrite (st_bind_Ret _ _ _ _ _ E1). st_pure. st_pure. set (skip := Nat.min (Buffered x1) remain). set (x2 := set_win _ _ x1).
  destruct (abs_skip x1 skip P W1 ltac:(unfold skip; lia) A1) as (P2 & EP & A2). pose proof (wf_skip x1 skip W1 ltac:(unfold skip; lia)) as W2. pose proof (window_skip x1 skip W1 ltac:(unfold skip; lia)) as Wx2. fold x2 in A2, W2, Wx2.
  assert (Ls : length (take skip (window x1)) = skip) by (rewrite length_take, length_window by done; unfold skip; lia). destruct (decide ((remain - skip)%nat = 0%nat)) as [Hr|Hr].
  { exists x2, n, None, (take skip (window x1)), [], P2. split; [done|]. split; [split; [done|exact L1]|]. split; [done|]. split; [exact EP|]. split; [rewrite Ls; unfold skip in *; lia|]. split; [done|]. split; [done|]. split; [lia|exact Ll]. }
  assert (Es : skip = Buffered x1) by (unfold skip in *; lia). assert (Ew2 : window x2 = []) by (rewrite Wx2; apply drop_ge; rewrite length_window by done; lia). st_pure. change (err x2) with (err x1).
  destruct (err x1) as [e|] eqn:Ee.
  { destruct (readErr_ok x2 P2 W2 Ew2 A2) as (E & P' & Er & -> & R & A' & W'). rewrite (st_bind_Ret _ _ _ _ _ Er). change (err x2) with (err x1) in *. rewrite Ee in *.
    exists (set_err None x2), (n - (remain - skip))%nat, (Some e), (take skip (window x1)), E, P'. split; [done|]. split; [split; [done|exact L1]|]. split; [done|]. split; [exact EP|]. split; [rewrite Ls; lia|]. split; [done|]. split; [split; [done|lia]|]. split; [lia|exact Ll]. }
  destruct N as [N|N]; [|done]. assert (0 < skip)%nat by (rewrite Es; rewrite <- length_window by done; destruct (window x1); [done|cbn; lia]).
  destruct (IH n (remain - skip)%nat x2 P2 W2 A2) as (x' & m & e & y & E & P' & Er & [K1 K2] & A' & EP2 & Lm & R & Hm & Hmn & Ll'); [by left|lia|lia|].
  exists x', m, e, (take skip (window x1) ++ y), E, P'. split; [exact Er|]. split; [split; [done|rewrite K2; exact L1]|]. split; [done|]. split; [by rewrite EP, EP2, fmap_app, <- app_assoc|]. split; [rewrite length_app, Ls; lia|]. split; [done|]. split; [done|]. split; [done|]. rewrite Ll'. exact Ll.
Qed.

Lemma peek_loop_ok fuel n : forall x P, wf x -> abs x P -> (length (buf x) < fuel + Buffered x)%nat ->
  exists x', peek_loop fuel n x = (x', Ret tt) /\ keeps x x' /\ abs x' P /\ lastByte x' = lastByte x /\ ((n <= Buffered x')%nat \/ (length (buf x) <= Buffered x')%nat \/ err x' <> None).
Proof.
  induction fuel as [|fuel IH]; intros x P W A L; cbn [peek_loop]; (rewrite (st_bind_Ret get _ _ _ _ eq_refl)).
  { pose proof W as (_ & Lw & _). unfold Buffered in L. lia. }
  destruct (decide (Buffered x < n)%nat) as [H1|H1]; [|rewrite bool_decide_eq_false_2 by done; exists x; split_and!; try done; left; lia].
  destruct (decide (Buffered x < length (buf x))%nat) as [H2|H2]; [|rewrite (bool_decide_eq_false_2 (Buffered x < length (buf x))%nat), andb_false_r by done; exists x; split_and!; try done; right; left; lia].
  destruct (decide (err x = None)) as [H3|H3]; [|rewrite (bool_decide_eq_false_2 (err x = None)), andb_false_r by done; exists x; split_and!; try done; auto].
  rewrite !bool_decide_eq_true_2 by done. cbn [andb]. destruct (b_fill_ok x W H3 H2) as (x1 & E1 & W1 & A1 & Ll & Lb & d & Wd & N). rewrite (st_bind_Ret _ _ _ _ _ E1).
  destruct (decide (err x1 = None)) as [He|He].
  - destruct N as [N|N]; [|done]. pose proof (length_window x W) as Lx. pose proof (length_window x1 W1) as Lx1. rewrite Wd, length_app in Lx1. assert (0 < length d)%nat by (destruct d; [done|cbn; lia]).
    destruct (IH x1 P W1 (A1 P A)) as (x' & E' & [K1 K2] & A' & Ll' & D); [lia|]. exists x'. split; [exact E'|]. split; [split; [done|lia]|]. split; [done|]. split; [congruence|]. by rewrite <- Lb.
  - exists x1. split; [|split; [done|split; [by apply A1|split; [done|auto]]]]. destruct fuel; cbn [peek_loop]; rewrite (st_bind_Ret get _ _ _ _ eq_refl), (bool_decide_eq_false_2 (err x1 = None)), andb_false_r by done; done.
Qed.

Lemma Peek_ok x n P : wf x -> abs x P -> exists x' d e E Q, Peek n x = (x', Ret (d, e)) /\ keeps x x' /\
  (n < 0 /\ x' = x /\ d = [] /\ e = Some ErrNegativeCount \/
   0 <= n /\ lastByte x' = None /\ P = (inl <$> d) ++ E ++ Q /\ abs x' ((inl <$> d) ++ Q) /\
     (e = None /\ Z.of_nat (length d) = n /\ E = [] \/ Z.of_nat (length d) < n /\ e <> None /\ (reports e E Q \/ E = [] /\ e = Some ErrBufferFull /\ Z.of_nat (length (buf x)) < n))).
Proof.
  intros W A. unfold Peek. case_decide as Hn.
  { exists x, [], (Some ErrNegativeCount), [], []. split_and!; try done. by left. }
  st_pure. st_pure. set (x0 := set_last None x). assert (W0 : wf x0) by exact W. assert (A0 : abs x0 P) by exact A. set (k := Z.to_nat n).
  destruct (peek_loop_ok (S (length (buf x0))) k x0 P W0 A0) as (x1 & E1 & [W1 L1] & A1 & Ll & D); [lia|]. rewrite (st_bind_Ret _ _ _ _ _ E1). st_pure.
  pose proof (length_window x1 W1) as Lx. change (length (buf x0)) with (length (buf x)) in *. pose proof W1 as (_ & Lw & _). case_decide as Hb.
  { st_lift ltac:(by apply slice_window_all). destruct A1 as (E & R & EP). exists x1, (window x1), (Some ErrBufferFull), [], (E ++ events x1). split; [done|]. split; [done|]. right. unfold Buffered in *. split_and!; try done; [lia|by exists E|].
    right. split_and!; [lia|done|]. right. split_and!; try done. lia. }
  case_decide as Ha.
  - assert (Ne : err x1 <> None) by (destruct D as [D|[D|D]]; [lia|lia|done]). erewrite st_bind_Ret; [|reflexivity]. cbv beta iota.
    pose proof (slice_window x1 (Buffered x1) W1 ltac:(lia)) as Es. rewrite firstn_all2 in Es by lia. st_lift ltac:(exact Es). destruct A1 as (E & R & EP).
    exists (set_err None x1), (window x1), (Some (default ErrBufferFull (err x1))), E, (events x1). split; [done|]. split; [done|]. right. split_and!; try done; [lia|exists []; done|]. right.
    destruct (err x1) as [e|] eqn:Ee; [|done]. split_and!; [lia|done|by left].
  - erewrite st_bind_Ret; [|reflexivity]. cbv beta iota. st_lift ltac:(apply slice_window; [done|lia]). destruct (abs_skip x1 k P W1 ltac:(lia) A1) as (Q & EP & _).
    exists x1, (take k (window x1)), None, [], Q. split; [done|]. split; [done|]. right. rewrite EP in A1. split_and!; try done; [lia|]. left. split_and!; try done. rewrite length_take. lia.
Qed.

Lemma IndexByte_ok d c : match IndexByte d c with Some i => exists y z, d = y ++ c :: z /\ length y = i /\ c ∉ y | None => c ∉ d end.
Proof.
  induction d as [|x d IH]; cbn [IndexByte]; [apply not_elem_of_nil|]. case_decide as E.
  - exists [], d. subst. split_and!; try done. apply not_elem_of_nil.
  - destruct (IndexByte d c) as [i|]; cbn [fmap option_fmap option_map].
    + destruct IH as (y & z & -> & <- & N). exists (x :: y), z. split_and!; try done. rewrite elem_of_cons. intros [?|?]; [by apply E|done].
    + rewrite elem_of_cons. intros [?|?]; [by apply E|done].
Qed.

Definition sliced (x : Reader) (c : byte) (P : list item) (q : Reader * res (list byte * option error)) : Prop :=
  exists x' d e E P', q = (x', Ret (d, e)) /\ keeps x x' /\ abs x' P' /\ P = (inl <$> d) ++ E ++ P' /\ lastByte x' = lastByte x /\
    (e = None /\ E = [] /\ (exists y, d = y ++ [c] /\ (c ∉ y)) \/ e <> None /\ (c ∉ d) /\ (reports e E P' \/ E = [] /\ e = Some ErrBufferFull /\ length d = length (buf x))).

Lemma slice_window_from x s : wf x -> (s <= Buffered x)%nat -> slice (buf x) (r x + s) (w x) = Ret (drop s (window x)).
Proof.
  intros W L. pose proof W as (_ & Lw & _). unfold Buffered in L. rewrite slice_eq by lia. unfold window. rewrite drop_drop, take_drop_commute. do 3 f_equal. lia.
Qed.

Lemma slice_loop_ok fuel c : forall s x P, wf x -> abs x P -> (s <= Buffered x)%nat -> c ∉ take s (window x) -> (length (buf x) < fuel + Buffered x)%nat \/ err x <> None -> sliced x c P (slice_loop fuel c s x).
Proof.
  induction fuel as [|fuel IH]; intros s x P W A Hs Ns F; cbn [slice_loop]; rewrite (st_bind_Ret get _ _ _ _ eq_refl); (erewrite st_lift_Ret by (by apply slice_window_from)); cbv beta iota.
  all: pose proof (IndexByte_ok (drop s (window x)) c) as HI; pose proof (length_window x W) as Lx; pose proof W as (_ & Lw & L16).
  all: destruct (IndexByte (drop s (window x)) c) as [i|].
  1,3: destruct HI as (y & z & Ed & Li & Ny); assert (Ew : window x = (take s (window x) ++ y) ++ c :: z) by (by rewrite <- app_assoc, <- Ed, take_drop);
    assert (Ly : length (take s (window x) ++ y) = (i + s)%nat) by (rewrite length_app, length_take; lia); set (Y := take s (window x) ++ y) in *;
    assert (Lb : (i + s + 1 <= Buffered x)%nat) by (rewrite <- Lx, Ew, length_app; cbn [length]; lia);
    (erewrite st_lift_Ret by (rewrite <- Nat.add_assoc; by apply slice_window)); cbv beta iota;
    destruct (abs_skip x (i + s + 1) P W Lb A) as (P' & EP & A'); pose proof (wf_skip x (i + s + 1) W Lb) as W'; rewrite Nat.add_assoc in A', W'; assert (Et : take (i + s + 1) (window x) = Y ++ [c]) by (rewrite Ew, (cons_middle c), app_assoc; apply take_app_length'; rewrite length_app; cbn [length]; lia);
    rewrite Et in EP |- *; exists (set_win (r x + (i + s) + 1) (w x) x), (Y ++ [c]), None, [], P'; (split; [done|split; [split; [exact W'|done]|split; [exact A'|split; [exact EP|split; [done|left; split_and!; try done; exists Y; split; [done|]; unfold Y; rewrite elem_of_app; intros [?|?]; done]]]]]).
  all: assert (Nw : c ∉ window x) by (rewrite <- (take_drop s (window x)), elem_of_app; intros [?|?]; done).
  all: destruct (err x) as [e|] eqn:Ee.
  1,3: (erewrite st_lift_Ret by (by apply slice_window_all)); cbv beta iota; destruct (abs_skip x (Buffered x) P W ltac:(lia) A) as (P1 & EP & A1); pose proof (wf_skip x (Buffered x) W ltac:(lia)) as W1; pose proof (window_skip x (Buffered x) W ltac:(lia)) as Wx1;
    rewrite firstn_all2 in EP by lia; rewrite drop_ge in Wx1 by lia; replace (r x + Buffered x)%nat with (w x) in * by (unfold Buffered; lia); (rewrite (st_bind_Ret (modify _) _ x (set_win (w x) (w x) x) tt); [|done]);
    destruct (readErr_ok _ P1 W1 Wx1 A1) as (E & P' & Er & -> & R & A' & W'); rewrite (st_bind_Ret _ _ _ _ _ Er); change (err (set_win (w x) (w x) x)) with (err x) in *; rewrite Ee in *;
    exists (set_err None (set_win (w x) (w x) x)), (window x), (Some e), E, P'; (split; [done|split; [done|split; [done|split; [exact EP|split; [done|right; split_and!; try done; by left]]]]]).
  - destruct F as [F|F]; [unfold Buffered in F; lia|done].
  - destruct F as [F|F]; [|done]. case_decide as Hb.
    + assert (Er : r x = 0%nat /\ w x = length (buf x)) by (unfold Buffered in Hb; lia). destruct Er as [Er Ewx]. assert (Eb : window x = buf x) by (unfold window; rewrite Er, Ewx, firstn_all; done).
      destruct (abs_skip x (Buffered x) P W ltac:(lia) A) as (P1 & EP & A1). rewrite firstn_all2 in EP by lia. pose proof (wf_skip x (Buffered x) W ltac:(lia)) as W1. replace (r x + Buffered x)%nat with (w x) in A1, W1 by (unfold Buffered; lia).
      exists (set_win (w x) (w x) x), (buf x), (Some ErrBufferFull), [], P1. rewrite Eb in EP, Nw. split; [done|]. split; [split; [exact W1|done]|]. split; [done|]. split; [done|]. split; [done|]. right. split_and!; try done. by right.
    + destruct (b_fill_ok x W Ee ltac:(lia)) as (x1 & E1 & W1 & A1 & Ll & Lb & d & Wd & N). rewrite (st_bind_Ret _ _ _ _ _ E1). pose proof (length_window x1 W1) as Lx1. rewrite Wd, length_app in Lx1.
      destruct (IH (Buffered x) x1 P W1 (A1 P A)) as (x' & l & e & E & P' & Eq & [K1 K2] & A' & EP & Ll' & D).
      { lia. } { rewrite Wd, take_app_length' by lia. done. } { destruct N as [N|N]; [left|by right]. assert (0 < length d)%nat by (destruct d; [done|cbn; lia]). lia. }
      exists x', l, e, E, P'. split; [exact Eq|]. split; [split; [done|lia]|]. split; [done|]. split; [done|]. split; [congruence|]. by rewrite <- Lb.
Qed.

(** * The refinement *)

Inductive bop := OPeek (n : Z) | ODiscard (n : Z) | ORead (k : nat) | OReadByte | OUnreadByte | OReadSlice (c : byte).
Inductive bres := RBytes (d : list byte) (e : option error) | RCount (m : nat) (e : option error) | RByte (c : byte) (e : option error) | RErr (e : option error).
Definition run_bop (o : bop) : st Reader bres :=
  match o with
  | OPeek n => '(d, e) ← Peek n; mret (RBytes d e)
  | ODiscard n => '(m, e) ← Discard n; mret (RCount m e)
  | ORead k => '(d, e) ← Read k; mret (RBytes d e)
  | OReadByte => '(c, e) ← ReadByte; mret (RByte c e)
  | OUnreadByte => e ← UnreadByte; mret (RErr e)
  | OReadSlice c => '(d, e) ← ReadSlice c; mret (RBytes d e)
  end.
Definition allowed (o : bop) (x : Reader) : Prop := match o with ODiscard _ => may_discard x | _ => True end.

(** What an operation may answer when the items [P] are to come and [l] is the byte
    that can be put back; [P'] and [l'] afterwards. *)
Definition bspec (size : nat) (o : bop) (P : list item) (l : option byte) (out : bres) (P' : list item) (l' : option byte) : Prop :=
  match o, out with
  | OPeek n, RBytes d e =>
      if decide (n < 0) then d = [] /\ e = Some ErrNegativeCount /\ P' = P /\ l' = l
      else l' = None /\ exists E Q, P = (inl <$> d) ++ E ++ Q /\ P' = (inl <$> d) ++ Q /\
        (e = None /\ Z.of_nat (length d) = n /\ E = [] \/ Z.of_nat (length d) < n /\ e <> None /\ (reports e E Q \/ E = [] /\ e = Some ErrBufferFull /\ Z.of_nat size < n))
  | ODiscard n, RCount m e =>
      if decide (n < 0) then m = 0%nat /\ e = Some ErrNegativeCount /\ P' = P /\ l' = l
      else l' = l /\ exists y E, P = (inl <$> y) ++ E ++ P' /\ m = length y /\ reports e E P' /\ (e = None <-> Z.of_nat m = n) /\ Z.of_nat m <= n
  | ORead k, RBytes d e => exists E, P = (inl <$> d) ++ E ++ P' /\ reports e E P' /\ (length d <= k)%nat /\ l' = newest d l
  | OReadByte, RByte c e => e = None /\ P = inl c :: P' /\ l' = Some c \/ e <> None /\ l' = l /\ exists E, P = E ++ P' /\ reports e E P'
  | OUnreadByte, RErr e => e = None /\ (exists c, l = Some c /\ P' = inl c :: P) /\ l' = None \/ e = Some ErrInvalidUnreadByte /\ P' = P /\ l' = l
  | OReadSlice c, RBytes d e =>
      l' = newest d l /\ exists E, P = (inl <$> d) ++ E ++ P' /\
        (e = None /\ E = [] /\ (exists y, d = y ++ [c] /\ (c ∉ y)) \/ e <> None /\ (c ∉ d) /\ (reports e E P' \/ E = [] /\ e = Some ErrBufferFull /\ length d = size))
  | _, _ => False
  end.

Lemma bop_step o x P : wf x -> abs x P -> allowed o x -> exists x' out P', run_bop o x = (x', Ret out) /\ keeps x x' /\ abs x' P' /\ bspec (length (buf x)) o P (lastByte x) out P' (lastByte x').
Proof.
  intros W A Al. destruct o as [n|n|k| | |c]; cbn [run_bop bspec].
  - destruct (Peek_ok x n P W A) as (x' & d & e & E & Q & Er & K & D). rewrite (st_bind_Ret _ _ _ _ _ Er). destruct D as [(Hn & -> & -> & ->)|(Hn & Ll & EP & A' & D)].
    + exists x, (RBytes [] (Some ErrNegativeCount)), P. split_and!; try done. by rewrite decide_True.
    + exists x', (RBytes d e), ((inl <$> d) ++ Q). split_and!; try done. rewrite decide_False by lia. split; [done|]. by exists E, Q.
  - unfold Discard. case_decide as Hn; [|case_decide as Hz].
    + exists x, (RCount 0 (Some ErrNegativeCount)), P. split_and!; try done.
    + subst n. exists x, (RCount 0 None), P. split; [done|]. split; [done|]. split; [done|]. split; [done|]. exists [], []. split; [done|]. split; [done|]. split; [done|]. split; [done|]. cbn. lia.
    + destruct (discard_loop_ok (S (Z.to_nat n)) (Z.to_nat n) (Z.to_nat n) x P W A Al) as (x' & m & e & y & E & P' & Er & K & A' & EP & Lm & R & Hm & Hmn & Ll); [lia|lia|].
      rewrite (st_bind_Ret _ _ _ _ _ Er). exists x', (RCount m e), P'. split_and!; try done. exists y, E. split_and!; try done; [lia| |lia]. rewrite Hm. lia.
  - destruct (b_Read_ok x k P W A) as (x' & d & e & P' & E & Er & K & A' & EP & R & Ld & Ll). rewrite (st_bind_Ret _ _ _ _ _ Er). exists x', (RBytes d e), P'. split_and!; try done. by exists E.
  - destruct (ReadByte_ok x P W A) as (x' & c & e & P' & E & Er & K & A' & D). rewrite (st_bind_Ret _ _ _ _ _ Er). exists x', (RByte c e), P'. split_and!; try done. destruct D as [D|(N & EP & R & Ll)]; [by left|right]. split_and!; try done. by exists E.
  - destruct (UnreadByte_ok x P W A) as (x' & e & P' & Er & K & A' & D). rewrite (st_bind_Ret _ _ _ _ _ Er). exists x', (RErr e), P'. split_and!; try done. destruct D as [D|(-> & -> & -> & _)]; [by left|by right].
  - destruct (slice_loop_ok (S (length (buf x))) c 0 x P W A) as (x' & d & e & E & P' & Er & [K1 K2] & A' & EP & Ll & D); [lia|rewrite take_0; apply not_elem_of_nil|lia|].
    assert (exists y, (match last d with Some b => modify (set_last (Some b)) | None => mret tt end) x' = (y, Ret tt) /\ keeps x y /\ abs y P' /\ lastByte y = newest d (lastByte x)) as (y & Ey & Ky & Ay & Ly).
    { unfold newest. destruct (last d) as [b|]; [exists (set_last (Some b) x')|exists x']; split_and!; try done. }
    assert (Es : ReadSlice c x = (y, Ret (d, e))).
    { unfold ReadSlice. rewrite (st_bind_Ret get _ _ _ _ eq_refl), (st_bind_Ret _ _ _ _ _ Er), (st_bind_Ret _ _ _ _ _ Ey). done. }
    rewrite (st_bind_Ret _ _ _ _ _ Es). exists y, (RBytes d e), P'. split; [done|]. split; [done|]. split; [done|]. split; [done|]. by exists E.
Qed.

Fixpoint run_bops (os : list bop) (x : Reader) : list (res bres) :=
  match os with [] => [] | o :: os => let '(x, q) := run_bop o x in q :: run_bops os x end.
Fixpoint all_allowed (os : list bop) (x : Reader) : Prop := match os with [] => True | o :: os => allowed o x /\ all_allowed os (run_bop o x).1 end.
Fixpoint bspecs (size : nat) (os : list bop) (P : list item) (l : option byte) (qs : list (res bres)) : Prop :=
  match os, qs with
  | [], [] => True
  | o :: os, Ret out :: qs => exists P' l', bspec size o P l out P' l' /\ bspecs size os P' l' qs
  | _, _ => False
  end.

Lemma bops_ok os : forall x P, wf x -> abs x P -> all_allowed os x -> bspecs (length (buf x)) os P (lastByte x) (run_bops os x).
Proof.
  induction os as [|o os IH]; intros x P W A Al; [done|]. cbn [all_allowed run_bops bspecs] in *. destruct Al as [Ao Al]. destruct (bop_step o x P W A Ao) as (x' & out & P' & E & [W' K] & A' & S).
  rewrite E in Al |- *. exists P', (lastByte x'). split; [done|]. rewrite <- K. by apply IH.
Qed.


Definition demoB_pool : BufferSource := pool_source init_pools init_pools_wf None.
Definition demoB_src : list ev := [EB x61; EB x62; EGap; EGap; EB x63; EB x0a; EErr (Errorf "i/o timeout"); EB x64; EB x65].
Definition demoB_ops : list bop := [OPeek 3; ORead 1; OUnreadByte; OReadSlice x0a; OReadByte; ODiscard 1; ORead 9; ORead 9].

(** [Discard] leaves the byte that can be put back: [UnreadByte] after it replaces the
    discarded byte by one read earlier. *)
Theorem bufio_unread_after_discard :
  run_bops [ORead 1; ODiscard 1; OUnreadByte; OReadByte; OReadByte] (@NewReaderSize demoB_pool [EB x61; EB x62; EB x63] 16) =
  [Ret (RBytes [x61] None); Ret (RCount 1 None); Ret (RErr None); Ret (RByte x61 None); Ret (RByte x63 None)].
Proof. vm_compute. done. Qed.

(** Called when an error is due, [Discard] reads on and may lose it. *)
Theorem bufio_discard_loses_error :
  run_bops [ORead 1; ODiscard 1; ORead 1] (@NewReaderSize demoB_pool [EB x61; EErr (Errorf "first"); EErr (Errorf "second")] 16) =
  [Ret (RBytes [x61] None); Ret (RCount 0 (Some (Errorf "second"))); Ret (RBytes [] (Some EOF))].
Proof. vm_compute. done. Qed.
