(* ===== verification/PooledConn.v ===== *)
(** Connections that own a pooled read buffer: netproxy/buffered_reader.go and the HTTP
    header transport (transport/httpheader/httpheader.go), which share the life cycle
    of the buffer, and pkg/bufferred_conn/bufferred_conn.go.

    Every section under the mutex is one step, and so is a call of the buffered
    reader; readers and closers interleave freely.  What the two connections do
    inside a read is the class [InnerRead]; the life cycle is proved for any instance. *)

From S2P Require Import Prelude GoStrings GoState Common Pool Transport Bufio BufioSpec.
From Stdlib Require Import Strings.Byte.

(** [errors.Is] along the wrapped errors. *)
Fixpoint errors_Is (e target : error) : bool :=
  bool_decide (e = target) || match e with Wrap _ e => errors_Is e target | _ => false end.
Definition Canceled : error := Errorf "context canceled".
Definition IsTerminalReadErr (e : option error) : bool :=
  match e with None => false | Some e => errors_Is e EOF || errors_Is e ErrClosed || errors_Is e Canceled end.

(** * What happens inside a read *)

(** Data, the error, and the terminal error to record, if any. *)
Definition outcome : Type := list byte * option error * option error.
Class InnerRead (H : Type) := {
  inner : nat -> st (Reader * H) outcome;
  (** [explains h Y d e h' Q]: the read took the items [Y], before [Q], to return [d]
      and [e]. *)
  explains : H -> list item -> list byte -> option error -> H -> list item -> Prop;
  (** The least buffer the reads rely on. *)
  need : nat;
  inner_ok : forall k x h P, wf x -> (need <= length (buf x))%nat -> abs x P -> exists x' h' d e t Y P',
    inner k (x, h) = (x', h', Ret (d, e, t)) /\ wf x' /\ length (buf x') = length (buf x) /\ abs x' P' /\ P = Y ++ P' /\ explains h Y d e h' P' /\ (length d <= k)%nat;
}.

(** * The connection *)

Section lifecycle.
Context {H : Type} {IR : InnerRead H}.

(** [freed]: the buffer given back to the pool with what the underlying connection
    still has. *)
Record PConn := MkPC { reader : Reader; hstate : H; readers : nat; released : bool; termErr : option error; freed : list (list byte * list ev) }.

Definition releaseIfDrainedLocked (c : PConn) : PConn :=
  if released c || negb (bool_decide (readers c = 0%nat)) || bool_decide (termErr c = None) || negb (bool_decide (Buffered (reader c) = 0%nat)) then c
  else let '(rd', b) := Put (reader c) in
    MkPC rd' (hstate c) (readers c) true (termErr c) (freed c ++ match b with Some b => [(b, default [] (rd (reader c)))] | None => [] end).
(** The first section of [Read]: [Some] when the buffer is gone. *)
Definition enter (c : PConn) : PConn * option (option error) :=
  if released c then (c, Some (termErr c)) else (MkPC (reader c) (hstate c) (S (readers c)) (released c) (termErr c) (freed c), None).
Definition inner_read (k : nat) (c : PConn) : PConn * res outcome :=
  let '((x, h), q) := inner k (reader c, hstate c) in (MkPC x h (readers c) (released c) (termErr c) (freed c), q).
Definition recordTerminalErr (e : error) (c : PConn) : PConn :=
  MkPC (reader c) (hstate c) (readers c) (released c) (match termErr c with None => Some e | t => t end) (freed c).
Definition exitRead (c : PConn) : PConn :=
  releaseIfDrainedLocked (MkPC (reader c) (hstate c) (readers c - 1) (released c) (termErr c) (freed c)).
Definition Close (c : PConn) : PConn := releaseIfDrainedLocked (recordTerminalErr ErrClosed c).
Definition ReadBuffered (c : PConn) : nat :=
  if released c || negb (bool_decide (readers c = 0%nat)) then 0%nat else Buffered (reader c).

(** ** Interleavings *)

(** A goroutine outside of [Read], inside it, about to record a terminal error, or on
    its way out. *)
Inductive phase := Outside | Inside (k : nat) | Recording (e : error) | Leaving.
Record world := MkWorld { conn : PConn; threads : list phase; results : list (list byte * option error); panicked : bool }.
Definition set_thread (i : nat) (p : phase) (c : PConn) (s : world) : world := MkWorld c (<[i := p]> (threads s)) (results s) (panicked s).

(** [results] has what the reads inside got, in their order; a read after the release
    adds nothing to it. *)
Inductive step : world -> world -> Prop :=
  | step_enter s i k c : threads s !! i = Some Outside -> enter (conn s) = (c, None) -> step s (set_thread i (Inside k) c s)
  | step_late s i c e : threads s !! i = Some Outside -> enter (conn s) = (c, Some e) -> step s (set_thread i Outside c s)
  | step_read s i k c d e t : threads s !! i = Some (Inside k) -> inner_read k (conn s) = (c, Ret (d, e, t)) ->
      step s (MkWorld c (<[i := match t with Some t => Recording t | None => Leaving end]> (threads s)) (results s ++ [(d, e)]) (panicked s))
  | step_panic s i k c q : threads s !! i = Some (Inside k) -> inner_read k (conn s) = (c, q) -> (forall a, q <> Ret a) ->
      step s (MkWorld c (<[i := Leaving]> (threads s)) (results s) true)
  | step_record s i e : threads s !! i = Some (Recording e) -> step s (set_thread i Leaving (recordTerminalErr e (conn s)) s)
  | step_exit s i : threads s !! i = Some Leaving -> step s (set_thread i Outside (exitRead (conn s)) s)
  | step_close s : step s (MkWorld (Close (conn s)) (threads s) (results s) (panicked s)).

Definition init `{BufferSource} (s : list ev) (size : nat) (h : H) (n : nat) : world :=
  MkWorld (MkPC (NewReaderSize s size) h 0 false None []) (replicate n Outside) [] false.

(** A read as a function, for concrete runs. *)
Definition do_read (k i : nat) (s : world) : world :=
  match inner_read k (conn s) with
  | (c, Ret (d, e, t)) => MkWorld c (<[i := match t with Some t => Recording t | None => Leaving end]> (threads s)) (results s ++ [(d, e)]) (panicked s)
  | (c, _) => MkWorld c (<[i := Leaving]> (threads s)) (results s) true
  end.
Lemma step_do_read k i s : threads s !! i = Some (Inside k) -> step s (do_read k i s).
Proof.
  intros E. unfold do_read. destruct (inner_read k (conn s)) as [c [[[d e] t]|e|]] eqn:Ei; [by eapply step_read|by eapply step_panic|by eapply step_panic].
Qed.

(** ** The invariant *)

Definition busy (p : phase) : bool := match p with Outside => false | _ => true end.
Definition count_busy (l : list phase) : nat := length (filter (fun p => busy p = true) l).

(** The results explained by consecutive parts of the items [T], of which [A] are taken. *)
Inductive explained (T : list item) (h : H) : list item -> list (list byte * option error) -> H -> Prop :=
  | explained_nil : explained T h [] [] h
  | explained_snoc A rs h1 Y d e h2 Q : explained T h A rs h1 -> T = A ++ Y ++ Q -> explains h1 Y d e h2 Q -> explained T h (A ++ Y) (rs ++ [(d, e)]) h2.

Definition inv (s0 : list ev) (h0 : H) (s : world) : Prop :=
  let c := conn s in
  panicked s = false /\ readers c = count_busy (threads s) /\
  exists A P, vis s0 = A ++ P /\ explained (vis s0) h0 A (results s) (hstate c) /\
  if released c then readers c = 0%nat /\ termErr c <> None /\ exists b s1, freed c = [(b, s1)] /\ exists E, P = E ++ vis s1 /\ Forall (fun i => exists e, i = inr e) E
  else (wf (reader c) /\ (need <= length (buf (reader c)))%nat) /\ abs (reader c) P /\ freed c = [] /\ (readers c <> 0%nat \/ termErr c = None \/ Buffered (reader c) <> 0%nat).

Lemma count_busy_insert l i p q : l !! i = Some q -> (count_busy (<[i := p]> l) + Nat.b2n (busy q) = count_busy l + Nat.b2n (busy p))%nat.
Proof.
  unfold count_busy. revert i. induction l as [|x l IH]; intros [|i] E; try done.
  - injection E as ->. change (<[0%nat := p]> (q :: l)) with (p :: l). rewrite !filter_cons. repeat case_decide; destruct (busy p), (busy q); try done; cbn; lia.
  - specialize (IH i E). change (<[S i := p]> (x :: l)) with (x :: <[i := p]> l). rewrite !filter_cons. case_decide; cbn [length] in *; lia.
Qed.
Lemma count_busy_pos l i q : l !! i = Some q -> busy q = true -> count_busy l <> 0%nat.
Proof. intros E B. pose proof (count_busy_insert l i Outside q E) as C. rewrite B in C. cbn in C. lia. Qed.

(** Who owns the buffer; [P] are the items not yet taken. *)
Definition owned (P : list item) (c : PConn) : Prop :=
  if released c then readers c = 0%nat /\ termErr c <> None /\ exists b s1, freed c = [(b, s1)] /\ exists E, P = E ++ vis s1 /\ Forall (fun i => exists e, i = inr e) E
  else (wf (reader c) /\ (need <= length (buf (reader c)))%nat) /\ abs (reader c) P /\ freed c = [].
Definition gated (c : PConn) : Prop := released c = true \/ readers c <> 0%nat \/ termErr c = None \/ Buffered (reader c) <> 0%nat.
Lemma inv_owned s0 h0 s : inv s0 h0 s <-> panicked s = false /\ readers (conn s) = count_busy (threads s) /\
  exists A P, vis s0 = A ++ P /\ explained (vis s0) h0 A (results s) (hstate (conn s)) /\ owned P (conn s) /\ gated (conn s).
Proof.
  unfold inv, owned, gated. split; intros (? & ? & A & P & ? & ? & X); (split; [done|split; [done|exists A, P; split; [done|split; [done|]]]]); destruct (released (conn s)).
  - split; [done|by left].
  - destruct X as (? & ? & ? & ?). split; [done|by right].
  - apply X.
  - destruct X as [(? & ? & ?) [?|?]]; [done|]. done.
Qed.

Lemma gate_ok P c : owned P c -> owned P (releaseIfDrainedLocked c) /\ gated (releaseIfDrainedLocked c) /\ readers (releaseIfDrainedLocked c) = readers c /\ hstate (releaseIfDrainedLocked c) = hstate c.
Proof.
  intros O. unfold releaseIfDrainedLocked. destruct (_ || _) eqn:G.
  { split; [done|]. split; [|done]. unfold gated. destruct (released c); [by left|right]. cbn in G. case_bool_decide; [|auto]. right. case_bool_decide; [auto|]. right. by case_bool_decide. }
  apply orb_false_iff in G as [G G4]. apply orb_false_iff in G as [G G3]. apply orb_false_iff in G as [G1 G2].
  apply negb_false_iff, bool_decide_eq_true in G4, G2. apply bool_decide_eq_false in G3. unfold owned in O. rewrite G1 in O. destruct O as ([W _] & (E & R & EP) & F).
  unfold Put. rewrite decide_False. 2:{ destruct W as (_ & _ & L). intros X. rewrite X in L. cbn in L. lia. }
  split; [|split; [by left|done]]. unfold owned. cbn [released readers termErr freed]. rewrite F. split; [done|]. split; [done|]. do 2 eexists. split; [reflexivity|].
  exists E. assert (Ew : window (reader c) = []) by (apply length_zero_iff_nil; by rewrite length_window). rewrite EP, Ew. split; [done|].
  destruct (err (reader c)) as [e|]; cbn in R; [|by subst]. destruct R as [-> |[-> _]]; [|constructor]. repeat constructor. by eexists.
Qed.

Lemma b_step_inv s0 h0 s s' : inv s0 h0 s -> step s s' -> inv s0 h0 s'.
Proof.
  rewrite !inv_owned. intros (Np & C & A & P & EP & X & O & G) S.
  assert (B : forall i q, threads s !! i = Some q -> busy q = true -> released (conn s) = false /\ readers (conn s) <> 0%nat).
  { intros i q E Bq. pose proof (count_busy_pos _ _ _ E Bq) as N. rewrite <- C in N. split; [|done]. unfold owned in O. destruct (released (conn s)); [|done]. destruct O as [? _]. done. }
  destruct S as [s i k c E Ee|s i c e E Ee|s i k c d e t E Ei|s i k c q E Ei Nq|s i e E|s i E|s]; cbn [conn threads results panicked set_thread].
  - unfold enter in Ee. destruct (released (conn s)) eqn:Rl; [done|]. injection Ee as <-. pose proof (count_busy_insert _ _ (Inside k) _ E) as Ci. cbn in Ci. split; [done|]. cbn. split; [lia|]. exists A, P. split; [done|]. split; [done|].
    unfold owned in *. cbn. rewrite Rl in *. split; [done|]. right. left. cbn. lia.
  - unfold enter in Ee. destruct (released (conn s)) eqn:Rl; [|done]. injection Ee as <- <-. pose proof (count_busy_insert _ _ Outside _ E) as Ci. cbn in Ci. split; [done|]. split; [lia|]. by exists A, P.
  - destruct (B i (Inside k) E eq_refl) as [Rl Nr]. unfold owned in O. rewrite Rl in O. destruct O as ([W Nd] & Ab & F). unfold inner_read in Ei.
    destruct (inner_ok k (reader (conn s)) (hstate (conn s)) P W Nd Ab) as (x' & h' & d' & e' & t' & Y & P' & Eq & W' & Lb & A' & EY & Ex & _). rewrite Eq in Ei. injection Ei as <- <- <- <-.
    set (q := match t' with Some t => Recording t | None => Leaving end). assert (Bq : busy q = true) by (unfold q; by destruct t'). pose proof (count_busy_insert _ _ q _ E) as Ci. rewrite Bq in Ci. cbn in Ci.
    split; [done|]. cbn. split; [lia|]. exists (A ++ Y), P'. split; [by rewrite EP, EY, app_assoc|]. split; [econstructor; [done|by rewrite EP, EY|done]|]. unfold owned. cbn. rewrite Rl, Lb. split; [done|]. right. by left.
  - destruct (B i (Inside k) E eq_refl) as [Rl Nr]. unfold owned in O. rewrite Rl in O. destruct O as ([W Nd] & Ab & F). unfold inner_read in Ei.
    destruct (inner_ok k (reader (conn s)) (hstate (conn s)) P W Nd Ab) as (x' & h' & d' & e' & t' & Y & P' & Eq & _). rewrite Eq in Ei. injection Ei as _ <-. by destruct (Nq (d', e', t')).
  - destruct (B i (Recording e) E eq_refl) as [Rl Nr]. pose proof (count_busy_insert _ _ Leaving _ E) as Ci. cbn in Ci. split; [done|]. cbn. split; [lia|]. exists A, P. split; [done|]. split; [done|]. unfold owned in *. cbn. rewrite Rl in *. split; [done|]. right. by left.
  - destruct (B i Leaving E eq_refl) as [Rl Nr]. pose proof (count_busy_insert _ _ Outside _ E) as Ci. cbn in Ci. unfold exitRead. set (c := MkPC _ _ _ _ _ _).
    destruct (gate_ok P c) as (O' & G' & Er & Eh). { unfold owned in *. cbn. by rewrite Rl in *. }
    split; [done|]. split; [rewrite Er; cbn; lia|]. exists A, P. split; [done|]. split; [by rewrite Eh|]. done.
  - unfold Close. set (c := recordTerminalErr ErrClosed (conn s)). destruct (gate_ok P c) as (O' & G' & Er & Eh).
    { unfold owned in *. cbn. destruct (released (conn s)); [|done]. destruct O as (? & ? & ?). split; [done|]. split; [by destruct (termErr (conn s))|done]. }
    split; [done|]. split; [rewrite Er; exact C|]. exists A, P. split; [done|]. split; [by rewrite Eh|]. done.
Qed.

Lemma init_inv `{BufferSource} s size h n : (need <= Nat.max size minReadBufferSize)%nat -> inv s h (init s size h n).
Proof.
  intros Nd. unfold inv. cbn. split; [done|]. split. { unfold count_busy. induction n as [|n IH]; [done|]. cbn [replicate]. by rewrite filter_cons. }
  exists [], (vis s). split; [done|]. split; [constructor|]. pose proof (src_length (Nat.max size minReadBufferSize)) as L. split; [|split; [by exists []|split; [done|auto]]].
  cbn [reader conn]. split; [|cbn [NewReaderSize buf]; rewrite L; exact Nd]. split_and!; cbn; [by eexists|lia|lia|]. change (16 <= length (src_get (Nat.max size minReadBufferSize)))%nat. rewrite L. unfold minReadBufferSize. lia.
Qed.

Lemma reach_inv `{BufferSource} s0 size h0 n w : (need <= Nat.max size minReadBufferSize)%nat -> rtc step (init s0 size h0 n) w -> inv s0 h0 w.
Proof. intros Nd R. refine (rtc_ind_r (inv s0 h0) _ (init_inv _ _ _ _ Nd) _ _ R). intros y z _ S I. by eapply b_step_inv. Qed.

(** C11: Connections over a pooled read buffer.  In every interleaving of reads of any
    number of goroutines and of closes, over any behaviour of the connection below:
    no read panics or touches a buffer that was given back; the buffer is given
    back at most once, when no goroutine is inside a read, the connection has ended and every
    byte taken from below was delivered; and it is given back as soon as that
    is so.  Reads return, in their order, exactly the bytes and errors of the connection
    below. *)
Theorem pooled_buffer_lifecycle `{BufferSource} s0 size h0 n w : (need <= Nat.max size minReadBufferSize)%nat -> rtc step (init s0 size h0 n) w ->
  let c := conn w in
  panicked w = false /\ (length (freed c) <= 1)%nat /\ (released c = true <-> freed c <> []) /\
  (released c = true -> Forall (fun p => p = Outside) (threads w) /\ termErr c <> None) /\
  (Forall (fun p => p = Outside) (threads w) -> termErr c <> None -> Buffered (reader c) = 0%nat -> released c = true) /\
  exists A P, vis s0 = A ++ P /\ explained (vis s0) h0 A (results w) (hstate c) /\
    (released c = true -> exists b s1 E, freed c = [(b, s1)] /\ P = E ++ vis s1 /\ Forall (fun i => exists e, i = inr e) E).
Proof.
  intros Nd R c. pose proof (reach_inv s0 size h0 n w Nd R) as I.
  assert (Z : readers c = 0%nat <-> Forall (fun p => p = Outside) (threads w)).
  { destruct I as (_ & C & _). unfold c. rewrite C. unfold count_busy. rewrite length_zero_iff_nil. split.
    - intros E. apply Forall_forall. intros p Hp. destruct (busy p) eqn:B; [|by destruct p]. exfalso. assert (p ∈ filter (fun p => busy p = true) (threads w)) as X by (by apply list_elem_of_filter). rewrite E in X. by apply not_elem_of_nil in X.
    - intros F. apply filter_none. eapply Forall_impl; [exact F|]. by intros p ->. }
  destruct I as (Np & C & A & P & EP & X & O). fold c in O, C, X. split; [done|]. destruct (released c) eqn:Rl.
  - destruct O as (R0 & Nt & b & s1 & F & E & EE & FE). rewrite F. split; [done|]. split; [done|]. split; [split; [by apply Z|done]|]. split; [done|]. exists A, P. split; [done|]. split; [done|]. intros _. by exists b, s1, E.
  - destruct O as (W & Ab & F & G). rewrite F. split; [cbn; lia|]. split; [done|]. split; [done|]. split; [|by exists A, P]. intros F0 Nt B0. apply Z in F0. destruct G as [G|[G|G]]; done.
Qed.
End lifecycle.
Arguments PConn : clear implicits.
Arguments world : clear implicits.

(** * BufferedReaderConn *)

Definition buffered_read (k : nat) : st (Reader * unit) outcome := fun '(x, u) =>
  let '(x, q) := Read k x in
  ((x, u), match q with Ret (d, e) => Ret (d, e, if IsTerminalReadErr e then e else None) | Fail e => Fail e | Panic => Panic end).
Definition in_order (Y : list item) (d : list byte) (e : option error) (Q : list item) : Prop := exists E, Y = (inl <$> d) ++ E /\ reports e E Q.

Lemma buffered_read_ok k x h P : wf x -> (0 <= length (buf x))%nat -> abs x P -> exists x' h' d e t Y P', buffered_read k (x, h) = (x', h', Ret (d, e, t)) /\ wf x' /\ length (buf x') = length (buf x) /\ abs x' P' /\ P = Y ++ P' /\ in_order Y d e P' /\ (length d <= k)%nat.
Proof.
  intros W _ A. destruct (b_Read_ok x k P W A) as (x' & d & e & P' & E & Er & [W' Lb] & A' & EP & R & L & _). exists x', h, d, e, (if IsTerminalReadErr e then e else None), ((inl <$> d) ++ E), P'.
  split; [unfold buffered_read; by rewrite Er|]. split; [done|]. split; [done|]. split; [done|]. split; [by rewrite <- app_assoc|]. split; [by exists E|done].
Qed.
#[export] Instance BufferedReaderConn : InnerRead unit := {| inner := buffered_read; explains := fun _ Y d e _ Q => in_order Y d e Q; need := 0; inner_ok := buffered_read_ok |}.

(** The bytes among the items taken are the bytes returned. *)
Definition bytes_of : list item -> list byte := omap (fun i => match i with inl b => Some b | inr _ => None end).
Lemma bytes_of_app a b : bytes_of (a ++ b) = bytes_of a ++ bytes_of b.
Proof. apply omap_app. Qed.
Lemma bytes_of_bytes d : bytes_of (inl <$> d) = d.
Proof. induction d as [|x d IH]; [done|]. cbn. by f_equal. Qed.
Lemma bytes_of_reports e E Q : reports e E Q -> bytes_of E = [].
Proof. destruct e as [e|]; cbn; [by intros [-> |[-> _]]|by intros ->]. Qed.
Lemma in_order_bytes Y d e Q : in_order Y d e Q -> bytes_of Y = d.
Proof. intros (E & -> & R). by rewrite bytes_of_app, bytes_of_bytes, (bytes_of_reports _ _ _ R), app_nil_r. Qed.
Lemma explained_bytes T A rs h h' : explained T h A rs h' -> bytes_of A = concat rs.*1.
Proof.
  induction 1 as [|A rs h1 Y d e h2 Q _ IH _ X]; [done|]. rewrite bytes_of_app, IH, fmap_app, concat_app. f_equal. cbn. rewrite app_nil_r. by apply (in_order_bytes Y d e Q).
Qed.

Definition demoP_pool : BufferSource := pool_source init_pools init_pools_wf None.
Definition demoP_src : list ev := [EB x61; EB x62; EGap; EB x63].
Definition demoP_init : world unit := @init unit demoP_pool demoP_src 0 tt 2.
(** Two reads by two goroutines, with a close between them. *)
Definition demoP_1 : world unit := set_thread 0 (Inside 1) (enter (conn demoP_init)).1 demoP_init.
Definition demoP_2 : world unit := do_read 1 0 demoP_1.
Definition demoP_3 : world unit := MkWorld (Close (conn demoP_2)) (threads demoP_2) (results demoP_2) (panicked demoP_2).
Definition demoP_4 : world unit := set_thread 0 Outside (exitRead (conn demoP_3)) demoP_3.
Definition demoP_5 : world unit := set_thread 1 (Inside 9) (enter (conn demoP_4)).1 demoP_4.
Definition demoP_6 : world unit := do_read 9 1 demoP_5.
Definition demoP_7 : world unit := set_thread 1 Outside (exitRead (conn demoP_6)) demoP_6.
Lemma demoP_run : rtc step demoP_init demoP_7.
Proof.
  eapply rtc_l; [apply (step_enter _ 0 1); vm_compute; reflexivity|]. eapply rtc_l; [apply (step_do_read 1 0); vm_compute; reflexivity|].
  eapply rtc_l; [apply step_close|]. eapply rtc_l; [apply (step_exit _ 0); vm_compute; reflexivity|]. eapply rtc_l; [apply (step_enter _ 1 9); vm_compute; reflexivity|].
  eapply rtc_l; [apply (step_do_read 9 1); vm_compute; reflexivity|]. eapply rtc_l; [apply (step_exit _ 1); vm_compute; reflexivity|]. apply rtc_refl.
Qed.
Lemma pooled_buffer_lifecycle_witness : rtc step demoP_init demoP_7 /\ released (conn demoP_7) = true /\ (length (freed (conn demoP_7)) <= 1)%nat /\ panicked demoP_7 = false.
Proof.
  split; [exact demoP_run|]. destruct (@pooled_buffer_lifecycle unit BufferedReaderConn demoP_pool demoP_src 0 tt 2 demoP_7 ltac:(cbn; lia) demoP_run) as (Np & L & _). split; [vm_compute; reflexivity|]. split; [exact L|exact Np].
Defined.

(** * BufferedConn (pkg/bufferred_conn) *)

(** [None] once the reader was released. *)
Definition BufferedConn : Type := option Reader.
Definition on_reader {A} (z : A) (m : st Reader (A * option error)) : st BufferedConn (A * option error) := fun b =>
  match b with None => (None, Ret (z, Some ErrClosed)) | Some x => let '(x, q) := m x in (Some x, q) end.
Definition bc_Peek (n : Z) : st BufferedConn (list byte * option error) := on_reader [] (Peek n).
Definition bc_Read (k : nat) : st BufferedConn (list byte * option error) := on_reader [] (Read k).
Definition bc_ReadByte : st BufferedConn (byte * option error) := on_reader x00 ReadByte.
Definition bc_UnreadByte : st BufferedConn (option error) := fun b =>
  match b with None => (None, Ret (Some ErrClosed)) | Some x => let '(x, q) := UnreadByte x in (Some x, q) end.
Definition TakeRelayPrefix : st BufferedConn (list byte) := fun b =>
  match b with
  | None => (None, Ret [])
  | Some x =>
      let '(x, q) := (x ← get;
        let n := Buffered x in
        if decide (n = 0%nat) then mret [] else
        '(prefix, e) ← Peek (Z.of_nat n);
        if decide (e <> None \/ length prefix = 0%nat) then mret [] else
        '(_, e) ← Discard (Z.of_nat (length prefix));
        mret (match e with Some _ => [] | None => prefix end)) x in
      (Some x, q)
  end.
Definition ReleaseReader (b : BufferedConn) : BufferedConn * option (list byte) := match b with None => (None, None) | Some x => (None, (Put x).2) end.

(** The prefix is what is buffered, and nothing of it is read again or lost. *)
Lemma TakeRelayPrefix_ok x P : wf x -> abs x P -> exists x' P', TakeRelayPrefix (Some x) = (Some x', Ret (window x)) /\ wf x' /\ abs x' P' /\ P = (inl <$> window x) ++ P' /\ window x' = [].
Proof.
  intros W A. unfold TakeRelayPrefix. rewrite (st_bind_Ret get _ _ _ _ eq_refl). pose proof (length_window x W) as Lx. case_decide as Hn.
  { assert (Ew : window x = []) by (apply length_zero_iff_nil; lia). exists x, P. rewrite Ew. done. }
  set (x0 := set_last None x). assert (W0 : wf x0) by exact W.
  assert (E0 : peek_loop (S (length (buf x0))) (Buffered x) x0 = (x0, Ret tt)).
  { cbn [peek_loop]. rewrite (st_bind_Ret get _ _ _ _ eq_refl). rewrite bool_decide_eq_false_2 by (change (Buffered x0) with (Buffered x); lia). done. }
  assert (Lb : (Buffered x <= length (buf x))%nat) by (destruct W as (_ & L & _); unfold Buffered; lia).
  assert (Ep : Peek (Z.of_nat (Buffered x)) x = (x0, Ret (window x, None))).
  { unfold Peek. rewrite decide_False by lia. rewrite Nat2Z.id. do 2 st_pure. fold x0. rewrite (st_bind_Ret _ _ _ _ _ E0). st_pure. change (buf x0) with (buf x). rewrite decide_False by lia. change (Buffered x0) with (Buffered x). rewrite decide_False by lia.
    erewrite st_bind_Ret; [|reflexivity]. cbv beta iota. change (r x0) with (r x). pose proof (slice_window x (Buffered x) W ltac:(lia)) as Es. rewrite firstn_all2 in Es by lia. st_lift ltac:(exact Es). done. }
  set (x1 := set_win (r x0 + Buffered x) (w x0) x0).
  assert (Ed : Discard (Z.of_nat (Buffered x)) x0 = (x1, Ret (Buffered x, None))).
  { unfold Discard. rewrite decide_False by lia. rewrite decide_False by lia. rewrite Nat2Z.id. cbn [discard_loop]. st_pure. change (Buffered x0) with (Buffered x). rewrite decide_False by done. do 3 st_pure. change (Buffered x0) with (Buffered x). rewrite Nat.min_id, Nat.sub_diag. done. }
  rewrite (st_bind_Ret _ _ _ _ _ Ep). cbv beta iota. rewrite decide_False by (intros [?|?]; [done|lia]). rewrite Lx, (st_bind_Ret _ _ _ _ _ Ed).
  destruct (abs_skip x0 (Buffered x) P W0 ltac:(done) A) as (P' & EP & A'). change (window x0) with (window x) in EP. rewrite firstn_all2 in EP by lia.
  exists x1, P'. split; [done|]. split; [by apply (wf_skip x0)|]. split; [exact A'|]. split; [exact EP|]. unfold x1. rewrite (window_skip x0) by done. apply drop_ge. change (window x0) with (window x). lia.
Qed.
