(* ===== verification/HttpHeader.v ===== *)
(** The HTTP header transport (transport/httpheader/httpheader.go): the response header is
    skipped before the first data, the request header goes before the first write.  The
    life cycle of the read buffer is that of [PooledConn].

    The text of the request is built by net/http and is a parameter, as is the
    [Timeout] method of foreign errors. *)

From S2P Require Import Prelude GoStrings GoState Common Pool Transport Bufio BufioSpec PooledConn.
From Stdlib Require Import Strings.Byte.

Definition maxResponseHeader : nat := Z.to_nat 8192.
Lemma maxResponseHeader_eq : Z.of_nat maxResponseHeader = 8192.
Proof. reflexivity. Qed.
Definition bufioBufferSize : nat := Z.to_nat (Z.shiftl 32 10).
Definition errResponseHeaderTooLarge : error := Errorf "HTTP response header is too large".
Definition is_blank (line : list byte) : bool := bool_decide (line = [x0d; x0a]) || bool_decide (line = [x0a]).
Definition is_full (e : option error) : bool := match e with Some e => errors_Is e ErrBufferFull | None => false end.

(** Every round takes at least one byte or ends. *)
Fixpoint discard_lines (fuel total : nat) : st Reader (option error) :=
  match fuel with
  | O => lift Panic
  | S fuel =>
      '(line, e) ← ReadSlice x0a;
      let total := (total + length line)%nat in
      if bool_decide (maxResponseHeader < total)%nat || is_full e then mret (Some errResponseHeaderTooLarge) else
      match e with
      | Some e => mret (Some (Wrap "httpheader: read response header" e))
      | None => if is_blank line then mret None else discard_lines fuel total
      end
  end.
Definition discardResponseHeader : st Reader (option error) := discard_lines (maxResponseHeader + 2) 0.

Record HState := MkHS { headerRead : bool; hreadErr : option error }.

Section transport.
Context (is_timeout : error -> bool) (request : res (list byte)).
Definition isRetryableHeaderErr (e : error) : bool := errors_Is e ErrDeadlineExceeded || is_timeout e.

Definition read_body (k : nat) : st (Reader * HState) outcome := fun '(x, h) =>
  match hreadErr h with
  | Some e => ((x, h), Ret ([], Some e, None))
  | None =>
      let '(x, q) := Bufio.Read k x in
      ((x, h), match q with Ret (d, e) => Ret (d, e, if IsTerminalReadErr e then e else None) | Fail e => Fail e | Panic => Panic end)
  end.
Definition http_read (k : nat) : st (Reader * HState) outcome := fun '(x, h) =>
  if headerRead h then read_body k (x, h)
  else match discardResponseHeader x with
       | (x, Ret None) => read_body k (x, MkHS true (hreadErr h))
       | (x, Ret (Some e)) =>
           if isRetryableHeaderErr e then ((x, h), Ret ([], Some e, None)) else ((x, MkHS true (Some e)), Ret ([], Some e, Some e))
       | (x, Fail e) => ((x, h), Fail e)
       | (x, Panic) => ((x, h), Panic)
       end.

(** The writing side: the request goes out once, and its failure is final. *)
Record HWriter := MkHW { headerSent : bool; writeErr : option error; hout : tconn }.
Definition writeRequestHeader : st HWriter (option error) := fun c =>
  match request with
  | Ret b => let '(t, (_, e)) := conn_Write b (hout c) in (MkHW (headerSent c) (writeErr c) t, Ret e)
  | Fail e => (c, Ret (Some e))
  | Panic => (c, Panic)
  end.
Definition http_Write (p : list byte) : st HWriter (nat * option error) :=
  c ← get;
  _ ← (if headerSent c then mret tt
       else _ ← modify (fun c => MkHW true (writeErr c) (hout c)); e ← writeRequestHeader; modify (fun c => MkHW (headerSent c) e (hout c)));
  c ← get;
  match writeErr c with
  | Some e => mret (0%nat, Some e)
  | None => fun c => let '(t, q) := conn_Write p (hout c) in (MkHW (headerSent c) (writeErr c) t, Ret q)
  end.

(** * Headers *)

(** Lines that end with a line feed, the last one blank and no other. *)
Inductive header : list byte -> Prop :=
  | header_end y : (x0a ∉ y) -> is_blank (y ++ [x0a]) = true -> header (y ++ [x0a])
  | header_line y hd : (x0a ∉ y) -> is_blank (y ++ [x0a]) = false -> header hd -> header ((y ++ [x0a]) ++ hd).
Lemma header_first hd : header hd -> exists y r, hd = (y ++ [x0a]) ++ r /\ (x0a ∉ y) /\ (is_blank (y ++ [x0a]) = true /\ r = [] \/ is_blank (y ++ [x0a]) = false /\ header r).
Proof. intros [y N B|y hd' N B Hh]; [exists y, []|exists y, hd']; rewrite ?app_nil_r; auto. Qed.

Lemma items_prefix (a : list byte) : forall b X R, (inl <$> a) ++ X = (inl <$> b) ++ R -> (length a <= length b)%nat -> exists c, b = a ++ c /\ X = (inl <$> c) ++ R :> list item.
Proof.
  induction a as [|x a IH]; intros [|y b] X R E L; cbn in *; try lia; [by exists []|by exists (y :: b)|]. injection E as -> E. destruct (IH b X R E) as (c & -> & ->); [lia|]. by exists c.
Qed.

(** A header reaches beyond bytes without a line feed. *)
Lemma header_beyond hd line X R : header hd -> (x0a ∉ line) -> (inl <$> line) ++ X = (inl <$> hd) ++ R :> list item -> exists b c, hd = line ++ b :: c /\ X = (inl <$> b :: c) ++ R.
Proof.
  intros Hh N E. destruct (header_first hd Hh) as (y & r & -> & _ & _). destruct (decide (length line < length ((y ++ [x0a]) ++ r))%nat) as [L|L].
  - destruct (items_prefix line _ X R E) as ([|b c] & E1 & E2); [lia| |by exists b, c]. rewrite app_nil_r in E1. rewrite <- E1 in L. lia.
  - symmetry in E. destruct (items_prefix _ line R X E) as (c & E1 & _); [lia|]. exfalso. apply N. rewrite E1, !elem_of_app. left. left. right. by apply list_elem_of_singleton.
Qed.
(** The first line is the first line. *)
Lemma header_line_eq hd y X R : header hd -> (x0a ∉ y) -> (inl <$> y ++ [x0a]) ++ X = (inl <$> hd) ++ R :> list item ->
  exists r, hd = (y ++ [x0a]) ++ r /\ X = (inl <$> r) ++ R /\ (is_blank (y ++ [x0a]) = true /\ r = [] \/ is_blank (y ++ [x0a]) = false /\ header r).
Proof.
  intros Hh N E. assert (E' := E). rewrite fmap_app, <- app_assoc in E'. destruct (header_beyond hd y _ R Hh N E') as (b & c & E1 & E2). cbn in E2. injection E2 as <- ->.
  destruct (header_first hd Hh) as (y' & r & E3 & N' & D). assert (y' = y /\ r = c) as [-> ->].
  { rewrite E1, <- app_assoc in E3. cbn in E3. clear -E3 N N'. revert y' N' E3. induction y as [|z y IH]; intros [|z' y'] N' E; cbn in E.
    - injection E as ->. done.
    - injection E as <- _. exfalso. apply N'. by left.
    - injection E as -> _. exfalso. apply N. by left.
    - injection E as <- E. destruct (IH) with (y' := y') as [-> ->]; [by intros X; apply N; right|by intros X; apply N'; right|done|done]. }
  exists c. split; [exact E3|]. split; [done|exact D].
Qed.

(** ** Skipping the header *)

Definition too_late (e : error) : Prop := e = Wrap "httpheader: read response header" ErrNoProgress.
(** The items are skipped up to the end of a header; if that fails, for another reason
    than a connection that makes no progress, they do not start with a header of at most
    [maxResponseHeader] bytes. *)
Definition skipped (total : nat) (P : list item) (x : Reader) (q : Reader * res (option error)) : Prop :=
  exists x' e P', q = (x', Ret e) /\ wf x' /\ length (buf x') = length (buf x) /\ abs x' P' /\
  match e with
  | None => exists hd, header hd /\ P = (inl <$> hd) ++ P' /\ (total + length hd <= maxResponseHeader)%nat
  | Some e => (exists Y, P = Y ++ P') /\ (too_late e \/ forall hd R, header hd -> (total + length hd <= maxResponseHeader)%nat -> P <> (inl <$> hd) ++ R)
  end.

Lemma discard_lines_ok fuel : forall total x P, wf x -> abs x P -> (maxResponseHeader < length (buf x))%nat -> (maxResponseHeader + 1 < fuel + total)%nat -> (total <= maxResponseHeader)%nat -> skipped total P x (discard_lines fuel total x).
Proof.
  induction fuel as [|fuel IH]; intros total x P W A Lb F Lt; [lia|]. cbn [discard_lines].
  destruct (bop_step (OReadSlice x0a) x P W A I) as (x1 & out & P1 & E & [W1 K1] & A1 & S). cbn [run_bop bspec] in E, S. destruct out as [line e| | |]; try done. destruct S as (_ & Er & EP & D).
  assert (Es : ReadSlice x0a x = (x1, Ret (line, e))). { unfold mbind, st_bind in E. destruct (ReadSlice x0a x) as [x2 [[d' e']|?|]]; try done. by injection E as -> -> ->. }
  rewrite (st_bind_Ret _ _ _ _ _ Es). cbv beta iota zeta.
  assert (Fails : forall err', (e <> None -> too_late err' \/ forall hd R, header hd -> (total + length hd <= maxResponseHeader)%nat -> P <> (inl <$> hd) ++ R) -> (e = None -> (maxResponseHeader < total + length line)%nat) -> skipped total P x (x1, Ret (Some err'))).
  { intros err' X1 X2. exists x1, (Some err'), P1. split; [done|]. split; [done|]. split; [done|]. split; [done|]. split; [exists ((inl <$> line) ++ Er); by rewrite EP, app_assoc|]. destruct e as [e|]; [by apply X1|]. right. intros hd R Hh L EQ. specialize (X2 eq_refl).
    destruct D as [(_ & -> & y & -> & Ny)|[N _]]; [|done]. cbn [app] in EP. rewrite EP in EQ. destruct (header_line_eq hd y P1 R Hh Ny EQ) as (r & -> & _). rewrite length_app in L. lia. }
  assert (Beyond : e <> None -> forall hd R, header hd -> P = (inl <$> hd) ++ R -> (length line < length hd)%nat /\ (Er = [] /\ P1 <> [])).
  { intros N hd R Hh EQ. destruct D as [(-> & _)|(_ & Nl & D)]; [done|]. rewrite EP in EQ. destruct (header_beyond hd line _ R Hh Nl EQ) as (b & c & -> & EX). split; [rewrite length_app; cbn; lia|].
    destruct Er as [|i Er']; [cbn [app] in EX; split; [done|]; by rewrite EX|]. exfalso. destruct e as [e|]; [|done]. destruct D as [[D|[D _]]|[D _]]; try done. injection D as -> ->. done. }
  destruct (bool_decide (maxResponseHeader < total + length line)%nat || is_full e) eqn:B.
  { apply Fails.
    - intros N. right. intros hd R Hh L EQ. destruct (Beyond N hd R Hh EQ) as (Ll & -> & _). apply orb_true_iff in B as [B|B]; [apply bool_decide_eq_true in B; lia|].
      destruct D as [(-> & _)|(_ & _ & [D|(_ & _ & D)])]; [done| |lia]. destruct e as [e|]; [|done]. destruct D as [D|(_ & [[-> _]| ->])]; done.
    - intros ->. rewrite orb_false_r in B. by apply bool_decide_eq_true in B. }
  apply orb_false_iff in B as [B1 B2]. apply bool_decide_eq_false in B1. destruct e as [e|].
  { apply Fails; [|done]. intros N. destruct D as [[? _]|(_ & _ & [D|(_ & D & _)])]; [done| |injection D as ->; done]. destruct (decide (e = ErrNoProgress)) as [-> |Ne]; [by left|right].
    intros hd R Hh L EQ. destruct (Beyond N hd R Hh EQ) as (Ll & EE & NP). rewrite EE in D. destruct D as [D|(_ & [[_ D]|D])]; done. }
  destruct D as [(_ & -> & y & -> & Ny)|[N _]]; [|done]. cbn [app] in EP. destruct (is_blank (y ++ [x0a])) eqn:Bl.
  { exists x1, None, P1. split; [done|]. split; [done|]. split; [done|]. split; [done|]. exists (y ++ [x0a]). split; [by constructor|]. split; [done|]. lia. }
  destruct (IH (total + length (y ++ [x0a]))%nat x1 P1 W1 A1) as (x2 & e2 & P2 & E2 & W2 & K2 & A2 & X); [lia|rewrite length_app in *; cbn [length] in *; lia|lia|].
  exists x2, e2, P2. split; [exact E2|]. split; [done|]. split; [lia|]. split; [done|]. destruct e2 as [e2|].
  - destruct X as [(Y & EY) X]. split; [exists ((inl <$> y ++ [x0a]) ++ Y); by rewrite EP, EY, app_assoc|]. destruct X as [X|X]; [by left|right]. intros hd R Hh L EQ. rewrite EP in EQ.
    destruct (header_line_eq hd y P1 R Hh Ny EQ) as (r & -> & EX & [[? _]|[_ Hr]]); [congruence|]. apply (X r R Hr); [rewrite length_app in L; lia|done].
  - destruct X as (hd & Hh & -> & L). exists ((y ++ [x0a]) ++ hd). split; [by constructor|]. split; [by rewrite fmap_app, <- app_assoc|]. rewrite length_app. lia.
Qed.

(** * The connection *)

Definition body_explains (h : HState) (Y : list item) (d : list byte) (e : option error) (h' : HState) (Q : list item) : Prop :=
  h' = h /\ match hreadErr h with None => in_order Y d e Q | Some e0 => Y = [] /\ d = [] /\ e = Some e0 end.
Definition http_explains (h : HState) (Y : list item) (d : list byte) (e : option error) (h' : HState) (Q : list item) : Prop :=
  if headerRead h then body_explains h Y d e h' Q
  else (exists hd Y', header hd /\ (length hd <= maxResponseHeader)%nat /\ Y = (inl <$> hd) ++ Y' /\ body_explains (MkHS true (hreadErr h)) Y' d e h' Q) \/
       (d = [] /\ exists e0, e = Some e0 /\ h' = (if isRetryableHeaderErr e0 then h else MkHS true (Some e0)) /\
          (too_late e0 \/ forall hd R, header hd -> (length hd <= maxResponseHeader)%nat -> Y ++ Q <> (inl <$> hd) ++ R)).

Lemma read_body_ok k x h P : wf x -> abs x P -> exists x' h' d e t Y P', read_body k (x, h) = (x', h', Ret (d, e, t)) /\ wf x' /\ length (buf x') = length (buf x) /\ abs x' P' /\ P = Y ++ P' /\ body_explains h Y d e h' P' /\ (length d <= k)%nat.
Proof.
  intros W A. unfold read_body, body_explains. destruct (hreadErr h) as [e|]; [exists x, h, [], (Some e), None, [], P; split_and!; try done; cbn; lia|].
  destruct (b_Read_ok x k P W A) as (x' & d & e & P' & E & Er & [W' Lb] & A' & EP & R & L & _). exists x', h, d, e, (if IsTerminalReadErr e then e else None), ((inl <$> d) ++ E), P'.
  split; [by rewrite Er|]. split; [done|]. split; [done|]. split; [done|]. split; [by rewrite <- app_assoc|]. split; [|done]. split; [done|]. by exists E.
Qed.
Lemma http_read_ok k x h P : wf x -> (maxResponseHeader + 1 <= length (buf x))%nat -> abs x P -> exists x' h' d e t Y P', http_read k (x, h) = (x', h', Ret (d, e, t)) /\ wf x' /\ length (buf x') = length (buf x) /\ abs x' P' /\ P = Y ++ P' /\ http_explains h Y d e h' P' /\ (length d <= k)%nat.
Proof.
  intros W Nd A. unfold http_read, http_explains. destruct (headerRead h); [by apply read_body_ok|].
  destruct (discard_lines_ok (maxResponseHeader + 2) 0 x P W A) as (x1 & e1 & P1 & E1 & W1 & L1 & A1 & X); [lia|lia|lia|]. unfold discardResponseHeader. rewrite E1. destruct e1 as [e1|].
  - destruct X as [(Y & EY) X]. set (h1 := if isRetryableHeaderErr e1 then h else MkHS true (Some e1)). set (t1 := if isRetryableHeaderErr e1 then None else Some e1).
    exists x1, h1, [], (Some e1), t1, Y, P1. split; [unfold h1, t1; by destruct (isRetryableHeaderErr e1)|]. split; [done|]. split; [done|]. split; [done|]. split; [done|]. split; [|cbn; lia].
    right. split; [done|]. exists e1. split; [done|]. split; [done|]. rewrite <- EY. exact X.
  - destruct X as (hd & Hh & EP & L). destruct (read_body_ok k x1 (MkHS true (hreadErr h)) P1 W1 A1) as (x' & h' & d & e & t & Y & P' & Er & W' & Lb & A' & EY & B & Ld).
    exists x', h', d, e, t, ((inl <$> hd) ++ Y), P'. split; [exact Er|]. split; [done|]. split; [lia|]. split; [done|]. split; [by rewrite EP, EY, app_assoc|]. split; [|done]. left. by exists hd, Y.
Qed.
#[export] Instance HttpHeaderConn : InnerRead HState := {| inner := http_read; explains := http_explains; need := maxResponseHeader + 1; inner_ok := http_read_ok |}.

(** Reads of a response of which no error interrupts the arrival. *)
Definition stalled (q : list byte * option error) : Prop := exists e, q.2 = Some e /\ too_late e.
Lemma bytes_only (a : list byte) (Y Q : list item) : inl <$> a = Y ++ Q -> exists y q, a = y ++ q /\ Y = inl <$> y /\ Q = inl <$> q.
Proof. intros E. apply fmap_app_inv in E as (y & q & -> & -> & ->). eauto. Qed.
Lemma header_unique hd hd' R R' : header hd -> header hd' -> hd ++ R = hd' ++ R' -> hd = hd' /\ R = R'.
Proof.
  intros Hh. revert hd' R R'. induction Hh as [y N B|y hd N B Hh IH]; intros hd' R R' Hh' E.
  - destruct (header_line_eq hd' y (inl <$> R) (inl <$> R') Hh' N) as (r & -> & EX & [[_ ->]|[? _]]); [by rewrite <- !fmap_app, E|split; [by rewrite app_nil_r|]|congruence]. rewrite app_nil_r in E. by apply app_inv_head in E.
  - rewrite <- app_assoc in E. destruct (header_line_eq hd' y (inl <$> hd ++ R) (inl <$> R') Hh' N) as (r & -> & EX & [[? _]|[_ Hr]]); [by rewrite <- !fmap_app, E|congruence|]. rewrite <- !app_assoc in E. do 2 apply app_inv_head in E. destruct (IH r R R' Hr E) as [-> ->]. done.
Qed.
Lemma in_order_clean Y d e Q b : in_order Y d e Q -> inl <$> b = Y ++ Q -> exists q, b = d ++ q /\ Y = inl <$> d /\ Q = inl <$> q /\ (e = Some EOF -> q = []).
Proof.
  intros (E & -> & R) EQ. destruct (bytes_only b _ _ EQ) as (y & q & -> & EY & ->). symmetry in EY. apply fmap_app_inv in EY as (d' & E' & Ed & EE & ->). apply (inj _) in Ed as ->.
  destruct e as [e|]; cbn in R.
  - destruct R as [R|(R & Z)]; rewrite EE in R; destruct E' as [|]; try done. rewrite EE. cbn [fmap list_fmap]. rewrite !app_nil_r. exists q. split; [done|]. split; [done|]. split; [done|]. intros [= ->]. destruct Z as [[_ Z]|Z]; [|done]. by destruct q.
  - rewrite EE in R |- *. destruct E'; [|done]. cbn [fmap list_fmap]. rewrite !app_nil_r. by exists q.
Qed.

Lemma http_explained hd b A rs h : header hd -> (length hd <= maxResponseHeader)%nat -> explained (inl <$> hd ++ b) (MkHS false None) A rs h -> Forall (fun q => ~ stalled q) rs ->
  (rs = [] /\ A = [] /\ h = MkHS false None) \/
  exists q, b = concat rs.*1 ++ q /\ A = inl <$> hd ++ concat rs.*1 /\ h = MkHS true None /\ ((exists d, (d, Some EOF) ∈ rs) -> q = []).
Proof.
  intros Hh Lh X. induction X as [|A rs h1 Y d e h2 Q _ IH ET X]; intros F; [by left|right]. apply Forall_app in F as [F F1]. apply Forall_cons in F1 as [F1 _].
  rewrite fmap_app, concat_app. change ([(d, e)].*1) with [d]. cbn [concat]. rewrite app_nil_r. cbn [explains HttpHeaderConn] in X. destruct (IH F) as [(-> & -> & ->)|(q & Eb & -> & -> & Hq)].
  - cbn [app fmap list_fmap concat] in *. destruct X as [(hd' & Y' & Hh' & _ & -> & [-> B])|(_ & e0 & -> & _ & [T|T])].
    + cbn in B. rewrite <- app_assoc in ET. destruct (bytes_only _ _ _ ET) as (y & z & E1 & E2 & E3). assert (y = hd') as -> by (symmetry; by apply (inj (fmap (inl : byte -> item)))).
      destruct (header_unique hd hd' b z Hh Hh' E1) as [<- ->]. symmetry in E3. destruct (in_order_clean Y' d e Q z B E3) as (q & -> & -> & -> & He). exists q. split; [done|]. split; [by rewrite fmap_app|]. split; [done|].
      intros (d' & Hd). apply list_elem_of_singleton in Hd. injection Hd as -> <-. by apply He.
    + exfalso. apply F1. by exists e0.
    + exfalso. apply (T hd (inl <$> b) Hh Lh). by rewrite <- ET, fmap_app.
  - cbn in X. destruct X as [-> B]. cbn in B. rewrite Eb, app_assoc, fmap_app in ET. apply app_inv_head in ET. destruct (in_order_clean Y d e Q q B ET) as (q' & -> & -> & -> & He).
    exists q'. split; [by rewrite Eb, app_assoc|]. split; [by rewrite !fmap_app, <- app_assoc|]. split; [done|].
    intros (d' & Hd). apply elem_of_app in Hd as [Hd|Hd]; [|apply list_elem_of_singleton in Hd; injection Hd as -> <-; by apply He]. assert (d ++ q' = []) as Z by (apply Hq; by exists d'). by apply app_eq_nil in Z as [_ Z].
Qed.

(** C25: The HTTP header transport.  When a response of a header of at most 8192 bytes
    and a body arrives without errors, in any portions, then in every interleaving of
    reads and closes the reads return the body alone and in order, and report the end only
    when all of it was returned, unless the connection below stalls inside the header. *)
Theorem httpheader_response `{BufferSource} s hd b n w : header hd -> (length hd <= maxResponseHeader)%nat -> vis s = inl <$> hd ++ b ->
  rtc step (init s bufioBufferSize (MkHS false None) n) w -> Forall (fun q => ~ stalled q) (results w) ->
  panicked w = false /\ exists q, b = concat (results w).*1 ++ q /\ ((exists d, (d, Some EOF) ∈ results w) -> q = []).
Proof.
  intros Hh Lh EV R F. assert (Nd : (need <= Nat.max bufioBufferSize minReadBufferSize)%nat) by (apply Nat.leb_le; vm_compute; reflexivity).
  destruct (reach_inv s bufioBufferSize (MkHS false None) n w Nd R) as (Np & _ & A & P & _ & X & _). split; [done|]. rewrite EV in X. destruct (http_explained hd b A (results w) _ Hh Lh X F) as [(-> & _ & _)|(q & Eb & _ & _ & Hq)].
  - exists b. split; [done|]. intros (d & Hd). by apply not_elem_of_nil in Hd.
  - by exists q.
Qed.
End transport.

(** * Concrete runs *)

Definition demoH_pool : BufferSource := pool_source init_pools init_pools_wf None.
Definition demoH_timeout (e : error) : bool := false.
#[local] Existing Instance demoH_pool.
#[local] Instance demoH_conn : InnerRead HState := HttpHeaderConn demoH_timeout.
Definition demoH_hd : list byte := lit "HTTP/1.1 200 OK" ++ [x0d; x0a; x0d; x0a].
Definition demoH_src : list ev := (EB <$> demoH_hd) ++ [EB x61; EGap; EB x62].
Definition demoH_init : world HState := init demoH_src bufioBufferSize (MkHS false None) 1.
Definition demoH_1 : world HState := set_thread 0 (Inside 9) (enter (conn demoH_init)).1 demoH_init.
Definition demoH_2 : world HState := do_read 9 0 demoH_1.
Lemma demoH_run : rtc step demoH_init demoH_2.
Proof.
  apply (rtc_l _ _ demoH_1). { apply (step_enter demoH_init 0 9 (enter (conn demoH_init)).1); reflexivity. }
  apply (rtc_l _ _ demoH_2); [|apply rtc_refl]. apply (step_do_read 9 0 demoH_1). reflexivity.
Qed.
Lemma demoH_header : header demoH_hd.
Proof. apply (header_line (lit "HTTP/1.1 200 OK" ++ [x0d]) [x0d; x0a]); [by vm_compute; set_solver| reflexivity|]. apply (header_end [x0d]); [set_solver|reflexivity]. Qed.
Lemma httpheader_response_witness : header demoH_hd /\ rtc step demoH_init demoH_2 /\ results demoH_2 = [([x61], None)] /\ exists q, [x61; x62] = concat (results demoH_2).*1 ++ q.
Proof.
  split; [exact demoH_header|]. split; [exact demoH_run|]. assert (Er : results demoH_2 = [([x61], None)]) by (vm_compute; reflexivity). split; [exact Er|].
  destruct (@httpheader_response demoH_timeout demoH_pool demoH_src demoH_hd [x61; x62] 1 demoH_2 demoH_header) as [_ (q & E & _)]; [apply Nat.leb_le; vm_compute; reflexivity|vm_compute; reflexivity|exact demoH_run| |by exists q].
  rewrite Er. constructor; [|constructor]. by intros (e & E & _).
Defined.

(** A deadline that expires between the two bytes of a line end: the read is called
    retryable, but the part of the line is gone, and the rest of the line is taken for the
    end of the header, so the reader gets header lines as data. *)
Theorem httpheader_retry_ends_header :
  let s := (EB <$> lit "HTTP/1.1 200 OK" ++ [x0d]) ++ [EErr ErrDeadlineExceeded] ++ (EB <$> [x0a] ++ lit "A: b" ++ [x0d; x0a; x0d; x0a]) in
  let x := NewReaderSize s bufioBufferSize in
  let '(c, q) := http_read demoH_timeout 99 (x, MkHS false None) in
  q = Ret ([], Some (Wrap "httpheader: read response header" ErrDeadlineExceeded), None) /\
  (http_read demoH_timeout 99 c).2 = Ret (lit "A: b" ++ [x0d; x0a; x0d; x0a], None, None).
Proof. vm_compute. done. Qed.
